(* ===== verification/_CoqProject ===== *)
-Q . S2P
Prelude.v
DirEntry.v
DirSegment.v
DirSegmentFacts.v
DirOps.v
DirLookup.v
DirLoop.v
RamCache.v
CachePart.v
CacheDirTheorems.v
CacheDisk.v
CacheDiskFacts.v
OpenDir.v
ParseRules.v
MimeDate.v
Base64.v
IOBuffer.v
Chunked.v
ChunkedFacts.v
ChunkedGrammar.v
EventQueue.v
ProtectedQueue.v
RandTable.v
PartHash.v
ClusterHash.v
HttpFreshness.v
HdrToken.v
MimePrint.v
URL.v
URLFacts.v
URLKey.v
HdrFieldInfo.v
MimeScanner.v
MimeHdr.v
MimeHdrOps.v
MimeHdrFacts.v
MimeHdrRep.v
MimeHdrAttach.v
MimeCooked.v
MimeHdrTheorems.v
MimeParser.v
MimeParserFacts.v
MimeRoundtrip.v
MimeHdrSpec.v
MimeConcrete.v
HTTP.v
HTTPFacts.v
HTTPRequest.v
HTTPResponse.v
HTTPCuts.v
HTTPConcrete.v
LibC.v
Tokenizer.v
ParentSelection.v
ParentSelectionFacts.v
ParentConfig.v
MTHashtable.v
Congestion.v
FailHistoryFacts.v
CongestionFacts.v
CongestionDB.v
CongestionTables.v
CongestionSafe.v
CongestionConcrete.v
HostLookup.v
HostLookupFacts.v
HostNames.v
HostMatchFacts.v
IpLookup.v
MatcherUtils.v
MatcherUtilsFacts.v
ControlBase.v
ControlMatcher.v
ControlMatcherFacts.v
RuleFiles.v
CacheControl.v
CacheControlFacts.v
IpAllow.v
ConfigConcrete.v
