(* ===== verification/Prelude.v ===== *)
(** Traffic Server: a verification development of the caching proxy's core.

    * The program

    Traffic Server is an HTTP caching proxy.  A request is parsed by the header
    library ([proxy/hdrs]), handled by a state machine ([proxy/http2]) and
    answered from the object cache ([iocore/cache]) or from the origin server,
    which may be reached through a parent proxy ([proxy/ParentSelection.cc]) and
    is left alone for a while when it is congested ([proxy/congest]).
    The cache divides disks into partitions; a partition holds a directory that
    maps the MD5 key of a document to its place on disk, a RAM cache of recent
    documents in front of it, and a table of the documents being written.
    What may be cached, for how long, through which parent and for which client is
    said by files of rules ([proxy/ControlMatcher.cc] and what it is made of).
    [libinktomi++] has the character classes, number parsers and encodings all
    of them use.  Everything runs as events on threads ([iocore/eventsystem]),
    moves its data through chained buffers, and may share the cache with other
    machines of a cluster ([iocore/cluster]).

    * Files

    Base:
    - [Prelude] (this file): machine integers as [Z] with their wrap-around,
      bounded loops over fallible steps, shared lemmas, tactics and hints.
    - [ParseRules]: [ParseRules.h] and [ParseRules.cc], with [scan_while] on
      memory; [Base64]: [ink_base64.cc]; [MimeDate]: integers and dates of
      [proxy/hdrs/MIME.cc]; [LibC]: what the readers of configuration files use of
      the C library; [Tokenizer]: [libinktomi++/Tokenizer.cc].

    The cache:
    - [DirEntry]: the packed directory entry [Dir] and the macros on it
      ([iocore/cache/P_CacheDir.h]), the key [INK_MD5] as four 32-bit words.
    - [DirSegment]: one directory segment and all routines on it
      ([CacheDir.cc], from [dir_bucket_loop_check] to [dir_delete]), with the
      representation invariant [seg_rep]: the chains of the buckets and the free
      list are disjoint, cover the segment, and are linked as their lists say.
      [DirSegmentFacts], [DirOps], [DirLookup] and [DirLoop] prove what each
      routine does to the lists: free list and chain surgery, insertion and the
      overflow purge, lookup, deletion and overwriting, loop detection and
      [dir_segment_accounted] (modelled in [DirLoop]).
    - [RamCache]: [RamCache.cc], entries shared by hash chains and LRU queue.
    - [CachePart]: a partition: segments under one header, validity of entries
      by phase and write position ([P_CachePart.h]), the public directory
      operations, the lookaside table, and the initialisation of [Cache.cc]
      ([part_init_dir], [part_clear_init]), with the lemmas of the segments
      lifted; [CacheDirTheorems] has the theorems on the public operations.
    - [CacheDisk]: the header and the space of one disk ([CacheDisk.cc]) and its
      event handlers; [CacheDiskFacts] the theorems.
    - [OpenDir]: the table of open documents ([OpenDir] in [CacheDir.cc]).
    - [RandTable]: the random sequence and the probing shared by two hash tables,
      and the proof that the sequence visits every number; [PartHash]: the table
      from keys to partitions ([build_part_hash_table] and [key_to_part] in
      [Cache.cc]); [ClusterHash]: the table from keys to machines
      ([ClusterHash.cc]) and the configurations of a cluster
      ([ClusterConfig.cc]).

    Events and buffers:
    - [EventQueue]: the [PriorityEventQueue] of a thread ([PQ-List.cc],
      [I_PriorityEventQueue.h]), the steps of a thread that uses it, their
      invariant and the theorems.
    - [ProtectedQueue]: the queues through which threads hand events to each
      other, and the signals they owe ([ProtectedQueue.cc]), the interleaved steps
      of all threads, their invariant and the theorems.
    - [IOBuffer]: the blocks, buffers and readers of [IOBuffer.cc] and its
      headers, the invariant of a buffer and the interface [ByteReader] through
      which the clients of a reader see its bytes.
    - [Chunked]: the [ChunkedHandler] of [proxy/http2/HttpTunnel.cc] and the
      handlers of a producer that use it, over [IOBuffer]; [ChunkedFacts] the
      machine it implements byte by byte, over blocks, calls and pauses;
      [ChunkedGrammar] what chunked content is, and the theorems against it.

    Headers ([proxy/hdrs]):
    - [HdrToken], [HdrFieldInfo]: the well-known strings of [HdrToken.cc], what is
      known of the fields of these names, and the class [TokenDFA], the interface
      of the automaton compiled from them.
    - [MimePrint]: printing into a buffer a piece at a time.
    - [URL]: URLs ([URL.cc]): setters, parsers, printing, the kept string,
      unescaping, the bytes of a cache key; [URLFacts] and [URLKey] the theorems.
    - [MimeHdr], [MimeHdrOps]: the storage of headers and the operations that
      change it ([MIME.cc], [HdrUtils.cc]).  [MimeHdrFacts], [MimeHdrRep] and
      [MimeHdrAttach] have its invariant (blocks of slots, links of duplicates,
      presence bits and accelerators), [MimeCooked] the values between commas and
      the cooked [Cache-Control], [MimeHdrTheorems] the operations on the list of
      fields, [MimeHdrSpec] a plain list as the specification.
    - [MimeScanner], [MimeParser]: lines, and the parser of fields on them;
      [MimeParserFacts] and [MimeRoundtrip] the theorems, [MimeConcrete] them
      applied to concrete headers, and the defects found.
    - [HTTP]: the first line and the fields together ([HTTP.cc]); [HTTPFacts],
      [HTTPRequest], [HTTPResponse], [HTTPCuts] the theorems, [HTTPConcrete] them
      applied, and the defects.
    - [HttpFreshness]: age, freshness and cacheability of responses
      ([HttpTransact.cc], [HttpTransactHeaders.cc]).

    Origin servers:
    - [ParentSelection]: the parents of a rule, the choice and the failing of a
      parent; [ParentSelectionFacts], [ParentConfig] the theorems.
    - [MTHashtable]: the hash table of [proxy/congest/MT_hashtable.h], its
      iterator and its theorems.
    - [Congestion]: rules, history of failures and state of a server
      ([Congestion.cc], [Congestion.h]); [FailHistoryFacts] and [CongestionFacts]
      the theorems.
    - [CongestionDB]: the database of servers, its list of requests and its
      collector ([CongestionDB.cc]) over [MTHashtable] and [Congestion];
      [CongestionTables] and [CongestionSafe] the references of its entries,
      [CongestionConcrete] the theorems applied, and the defects.

    Rules of the configuration files:
    - [HostLookup]: names of hosts and domains ([libinktomi++/HostLookup.cc]);
      [HostLookupFacts], [HostNames], [HostMatchFacts] the theorems.
    - [IpLookup]: ranges of addresses ([proxy/mgmt2/utils/IpLookup.cc]).
    - [MatcherUtils]: lines of pairs, ranges, durations
      ([libinktomi++/MatcherUtils.cc]); [MatcherUtilsFacts] the theorems.
    - [ControlBase]: the modifiers of a rule ([proxy/ControlBase.cc]).
    - [ControlMatcher]: the tables of rules, built from a text and matched
      ([proxy/ControlMatcher.cc]), over [HostLookup], [IpLookup] and [Tokenizer],
      with the rule and the result as parameters; [ControlMatcherFacts] and
      [RuleFiles] the theorems.
    - [CacheControl]: the rules of [cache.config] as such rules
      ([proxy/CacheControl.cc]); [CacheControlFacts] the theorems.
    - [IpAllow]: which clients may connect ([proxy/IPAllow.cc]), over
      [IpLookup] and the lines of [MatcherUtils].
    - [ConfigConcrete]: the theorems applied to concrete files, and the defects.

    * How the code is rendered

    A pointer into an array is the index of its element, a pointer to an
    allocated object an identifier of a finite map, and the null pointer
    [None].  A mutating routine takes and returns the state.  Integers keep
    their width through [u16], [u32], [u64], [i32] and [i64]; signed overflow is
    modelled as two's-complement wrap-around.  [ink_assert] and
    [ink_debug_assert] check nothing in a release build and are not modelled;
    nor are debug messages, and of the statistics only the counters of the
    directory.  The code is that of the shipped configuration:
    [LOOP_CHECK_MODE] and [DO_CHECK_DIR] are off.  In the headers and the readers
    of configuration files [None] is a crash: a null pointer or memory outside the
    object is read, or a release assertion fails.

    A loop that is not structural takes fuel, and [None] is then a loop that has
    not ended.  Walks over a chain take the length of the segment, which bounds
    every chain of the invariant; the two-speed walk takes one more and is
    proved never to run out, on any links at all.  [dir_insert] and
    [dir_overwrite] have a retry loop without a bound in the source, so their
    fuel is an argument: [insert_effect] and [overwrite_effect] need one round,
    [insert_terminates] bounds the rounds by the entries in use, and
    [insert_diverges] shows a state in which no fuel is enough.  The search for
    a year takes [mday / 365 + 8] rounds, the decoders the length of the input.
    Writing to a buffer takes three rounds for each byte, and the chunked decoder
    a round for each byte there is.  The probing of the two hash tables takes
    [2^32] rounds, the period of the random sequence, counted in binary so that
    it evaluates; filling a table takes a round for each of its 32707 slots and
    each of the owners.  Placing a thread in the array of signals takes the
    length of the array and one more.  Unescaping takes four rounds for each
    character and four more.  The scanner of lines takes three rounds for each
    byte and three more, the parser of fields one for each byte and three more, and
    the walks over duplicates and values as many as there are slots.  The search
    for a parent takes a round for each parent and one more, the history of
    failures is shifted at most 19 times, and a sweep of a hash table takes a round
    for each entry.  A match of a host takes five rounds, one for each level of the
    tree and the ends, one of an address the depth of the tables and one more; a
    line of pairs takes a round for each character and one more.  Each of these is
    enough: the theorems state results, which a loop that has not ended has not.

    What C leaves undefined is not given a meaning where the code comes to it by
    the text it reads: [memcpy] over memory that overlaps is [None]
    ([copy_overlaps]).  The counts of references are [int]s, and what is proved
    of them is proved for fewer than 2^31 - 1 ([few_refs]).

    Threads are interleaved by a step relation in which a lock is held over the
    steps the code holds it; a thread that misses a try-lock takes the other
    branch.  [event_delivered] is about a thread whose checks of its queue were
    all at most 256 times 5 ms ([MAX_CHECK_GAP]) apart; [check_ready_gap] and
    [overdue_after_gap] show that the code needs such a bound.  The flow control
    of a tunnel asks how far the consumers of a buffer are behind, which is an
    argument of every call of its handlers: a pause ends when they have read on
    and call back.

    * What the theorems show

    The numbered theorems are the properties the development is about; others, on
    the same operations and on their further branches, have no number.

    - Directory (C1-C4, C40): each operation changes the contents of the bucket of
      its key as a function on lists says, and no other bucket; the invariant is
      kept; what was inserted is found; an insertion among heads of documents ends,
      also when it has to purge them.  Without a number:
      cleaning, clearing, overwriting, the accounting, and the loop check on
      arbitrary, also corrupted, links.
    - Disks, RAM cache, open documents (C5-C7): the partitions rebuilt from a disk's
      header are those in memory, block for block; the byte count of the RAM cache is
      right and under the limit; who may write a document, up to the limit that its
      first writer set.
    - Dates and base 64 (C8, C9): they read back what they write.
    - Headers (C10-C12): any sequence of operations does to a header what it does
      to a plain list of fields; the parser gives the same header however its input
      is cut; it reads back what the printer writes.
    - Requests and responses (C13-C15): the same for whole messages.
    - Parents (C16-C18): a transaction whose parents fail goes direct after it has
      tried each at most once, or, when it may not, tries them all again and again;
      a parent is left out by the failures that were not retries, until the last
      retry that failed is long enough ago, and is back with a retry that succeeds;
      the list of parents is read as it is written.
    - Rules (C19-C24): the rule of the first line that applies decides each part of
      what [cache.config] says of a request, and whether a client may connect; a
      file of rules, built into tables and matched, gives the rules whose hosts,
      expressions or ranges apply, each once; the two lookup structures implement
      lists of names and of ranges; a line is read as it is written, with values in
      quotes and bare.  The tables of hosts and expressions remove the wrong label
      from a line and lose modifiers: what is said of files of rules is said of the
      lines that this leaves as they are ([line_kept]).
    - Congestion (C25-C30): the requests that wait for a lock are carried out in
      their order; no entry is used after it was freed, with fewer than 2^31
      references; the hash table is a map; the history counts the failures of
      sixteen to seventeen of its intervals; a server is congested when these reach
      the limit; what is signalled agrees with the state of a server, as far as its
      rules have signals on.
    - Events and threads (C31-C33): an event whose time has come is handed out at
      the next check as long as all checks are in time; in every interleaving a sleeping thread with an event in its
      queue has somebody who will wake it; the lists and the flags of the events
      agree in every state a thread can reach, late checks included.
    - Chunked coding (C34, C35): what the encoder writes, with any pauses, is chunked
      content and is decoded, with any pauses; the decoder takes for complete what
      the grammar of chunked content has, and rejects what is malformed.  Without a number: a write to a
      buffer reaches every reader ([iobuffer_write_effect]).
    - URLs (C36, C37): parsing the printed form of a well-formed URL gives the URL
      back; the bytes of a cache key are those its parts stand for, on the fast
      path and on the general one.
    - Freshness (C38, C39): a document served as fresh is within every limit the
      server, the client and the configuration set; a response stored is one
      the method, the headers and the configuration allow to be stored.
    - Hash tables of partitions and machines, without a number: building ends for
      any seeds, every owner gets its share, and a lookup finds a usable owner.
    - Defects, without a number: exact statements of behaviour the code does not
      mean to have, among them an insertion that never returns ([insert_diverges]),
      a collector that stays at one entry ([gc_loop_stuck]), URLs that share a
      cache key, continuations that depend on where the input is cut, rules that
      lose their modifiers ([destination_first_no_modifiers], [modifiers_lost]), a
      window of failures that is too short ([window_cut_short]), and lengths, ages
      and chunk sizes cut to an [int].

    * Not modelled

    The read, write and evacuation paths of the cache and its recovery after a
    crash ([CacheSync], [Part::dir_check], [handle_recover_from_data]), which
    are continuations over asynchronous I/O; the handlers a thread executes; the
    network, DNS, cluster transport, ICP, logging and management systems; the HTTP
    state machine and the choice between alternates; the memory of headers (the
    header heap and marshalling) and of rules; the printing of tables and most
    commands of the administrator; reading a configuration file from disk and
    replacing its rules when it changes.  The
    generated class tables, the automata of [Regex.cc], the regular expressions
    and [inet_addr] of the C library, the local time of day and the floating-point
    share and fuzz of a freshness limit are parameters; the bytes given to a hash
    function are modelled, not the hash. *)

From stdpp Require Export base tactics option list numbers strings.
From stdpp Require Export gmap.
From Stdlib Require Export ZArith Lia.

Declare Scope ts_scope.
Delimit Scope ts_scope with ts.
#[global] Open Scope Z_scope.

(** ** Machine integers

    An unsigned [w]-bit quantity is a [Z] in [0, 2^w); a conversion to it is
    [wrapu w].  A signed one is a [Z] in [-2^(w-1), 2^(w-1)), [wraps w]. *)

Definition wrapu (w x : Z) : Z := x mod 2 ^ w.

Definition wraps (w x : Z) : Z := (x + 2 ^ (w - 1)) mod 2 ^ w - 2 ^ (w - 1).

#[global] Arguments wrapu : simpl never.
#[global] Arguments wraps : simpl never.

Notation "'u8' x" := (wrapu 8 x) (at level 10, x at level 9) : ts_scope.
Notation "'u16' x" := (wrapu 16 x) (at level 10, x at level 9) : ts_scope.
Notation "'u32' x" := (wrapu 32 x) (at level 10, x at level 9) : ts_scope.
Notation "'u64' x" := (wrapu 64 x) (at level 10, x at level 9) : ts_scope.
Notation "'i32' x" := (wraps 32 x) (at level 10, x at level 9) : ts_scope.
Notation "'i64' x" := (wraps 64 x) (at level 10, x at level 9) : ts_scope.
#[global] Open Scope ts_scope.

(** A C truth value. *)
Definition Zbool (b : bool) : Z := if b then 1 else 0.

(** A bounded [for] loop over fallible steps: [None] is a loop inside the body
    that ran out of fuel. *)
Fixpoint forM {A St : Type} (l : list A) (f : A -> St -> option St) (st : St) : option St :=
  match l with
  | [] => Some st
  | x :: l' => match f x st with Some st' => forM l' f st' | None => None end
  end.

(** The test [f] on [k] consecutive numbers from [a]: with [forallZ_spec], a
    proof by evaluation over a range. *)
Fixpoint forallZ (k : nat) (f : Z -> bool) (a : Z) : bool :=
  match k with O => true | S k' => if f a then forallZ k' f (a + 1) else false end.

(** ** Automation *)

Create HintDb ts.
Create Rewrite HintDb zbits.

#[export] Hint Rewrite Z.lor_spec Z.land_spec Z.ldiff_spec Z.lxor_spec : zbits.
#[export] Hint Rewrite Z.testbit_ones Z.testbit_mod_pow2 using lia : zbits.
#[export] Hint Rewrite Z.bits_0 : zbits.

(** Case analysis on the comparisons left by [zbits] rewriting. *)
Ltac zcmp :=
  repeat match goal with
  | |- context [?a <? ?b] => destruct (Z.ltb_spec a b); try lia
  | |- context [?a <=? ?b] => destruct (Z.leb_spec a b); try lia
  end; cbn [andb orb negb].

(** [bitblast] proves an equation of bit expressions by comparing bit [n],
    for every [n]. *)
Ltac bitblast :=
  apply Z.bits_inj'; let n := fresh "n" in let Hn := fresh "Hn" in
  intros n Hn; autorewrite with zbits; zcmp;
  rewrite ?andb_false_r, ?andb_true_r, ?orb_false_r, ?orb_true_r,
          ?andb_false_l, ?andb_true_l, ?orb_false_l; try reflexivity;
  try (repeat f_equal; lia).

(** Split every boolean conjunct and comparison of the context. *)
Ltac bsimp :=
  repeat match goal with
  | H : _ && _ = true |- _ => apply andb_true_iff in H as [? ?]
  | H : _ || _ = false |- _ => apply orb_false_iff in H as [? ?]
  | H : negb _ = true |- _ => apply negb_true_iff in H
  | H : negb _ = false |- _ => apply negb_false_iff in H
  | H : (_ =? _) = true |- _ => apply Z.eqb_eq in H
  | H : (_ =? _) = false |- _ => apply Z.eqb_neq in H
  | H : (_ <? _) = true |- _ => apply Z.ltb_lt in H
  | H : (_ <? _) = false |- _ => apply Z.ltb_ge in H
  | H : (_ <=? _) = true |- _ => apply Z.leb_le in H
  | H : (_ <=? _) = false |- _ => apply Z.leb_gt in H
  | H : (_ >? _) = true |- _ => rewrite Z.gtb_ltb in H
  | H : (_ >? _) = false |- _ => rewrite Z.gtb_ltb in H
  | H : (_ >=? _) = true |- _ => rewrite Z.geb_leb in H
  | H : (_ >=? _) = false |- _ => rewrite Z.geb_leb in H
  | H : Nat.eqb _ _ = true |- _ => apply Nat.eqb_eq in H
  | H : Nat.eqb _ _ = false |- _ => apply Nat.eqb_neq in H
  end.

(** ** Wrap-around arithmetic *)

Lemma wrapu_range w x : 0 <= w -> 0 <= wrapu w x < 2 ^ w.
Proof. intros. apply Z.mod_pos_bound. lia. Qed.

Lemma wrapu_id w x : 0 <= x < 2 ^ w -> wrapu w x = x.
Proof. apply Z.mod_small. Qed.

Lemma wraps_range w x : 0 < w -> - 2 ^ (w - 1) <= wraps w x < 2 ^ (w - 1).
Proof.
  intros Hw. unfold wraps.
  assert (H2 : 2 ^ w = 2 * 2 ^ (w - 1)) by (rewrite <- Z.pow_succ_r by lia; f_equal; lia).
  pose proof (Z.mod_pos_bound (x + 2 ^ (w - 1)) (2 ^ w) ltac:(lia)). lia.
Qed.

Lemma wraps_id w x : 0 < w -> - 2 ^ (w - 1) <= x < 2 ^ (w - 1) -> wraps w x = x.
Proof.
  intros Hw Hx. unfold wraps.
  assert (H2 : 2 ^ w = 2 * 2 ^ (w - 1)) by (rewrite <- Z.pow_succ_r by lia; f_equal; lia).
  rewrite Z.mod_small by lia. lia.
Qed.

Lemma wraps_add_l w a b : 0 < w -> wraps w (wraps w a + b) = wraps w (a + b).
Proof.
  intros Hw. unfold wraps. replace (_ - _ + b + _) with ((a + 2 ^ (w - 1)) mod 2 ^ w + b) by lia.
  rewrite Zplus_mod_idemp_l. by replace (a + 2 ^ (w - 1) + b) with (a + b + 2 ^ (w - 1)) by lia.
Qed.

Lemma wraps_mul_l w a b : 0 < w -> wraps w (wraps w a * b) = wraps w (a * b).
Proof.
  intros Hw. unfold wraps. set (x := a + 2 ^ (w - 1)).
  replace ((x mod 2 ^ w - 2 ^ (w - 1)) * b + 2 ^ (w - 1)) with ((x mod 2 ^ w) * b + (2 ^ (w - 1) - 2 ^ (w - 1) * b)) by lia.
  rewrite <- Zplus_mod_idemp_l, Zmult_mod_idemp_l, Zplus_mod_idemp_l. f_equal. f_equal. unfold x. lia.
Qed.

Lemma wrapu_testbit w x n : 0 <= w ->
  Z.testbit (wrapu w x) n = (n <? w) && Z.testbit x n.
Proof. intros. unfold wrapu. by rewrite Z.testbit_mod_pow2 by lia. Qed.
#[export] Hint Rewrite wrapu_testbit using lia : zbits.

Lemma shiftl_testbit a k n : 0 <= k ->
  Z.testbit (Z.shiftl a k) n = (k <=? n) && Z.testbit a (n - k).
Proof.
  intros. destruct (Z.leb_spec k n).
  - by rewrite Z.shiftl_spec by lia.
  - destruct (Z.leb_spec 0 n); [rewrite Z.shiftl_spec by lia|]; by rewrite Z.testbit_neg_r by lia.
Qed.

Lemma shiftr_testbit a k n : 0 <= k ->
  Z.testbit (Z.shiftr a k) n = (0 <=? n) && Z.testbit a (n + k).
Proof.
  intros. destruct (Z.leb_spec 0 n).
  - by rewrite Z.shiftr_spec by lia.
  - by rewrite Z.testbit_neg_r by lia.
Qed.

Lemma lnot_testbit a n : Z.testbit (Z.lnot a) n = (0 <=? n) && negb (Z.testbit a n).
Proof.
  destruct (Z.leb_spec 0 n).
  - by rewrite Z.lnot_spec by lia.
  - by rewrite Z.testbit_neg_r by lia.
Qed.
#[export] Hint Rewrite lnot_testbit : zbits.
#[export] Hint Rewrite shiftl_testbit shiftr_testbit using lia : zbits.

Lemma testbit_one n : Z.testbit 1 n = (0 <=? n) && (n <? 1).
Proof. apply (Z.testbit_ones 1 n). lia. Qed.
#[export] Hint Rewrite testbit_one : zbits.

(** ** Loops *)

Section forM_lemmas.
Context {A St : Type} (f : A -> St -> option St).

Lemma forM_ext (g : A -> St -> option St) l st : (forall x s, f x s = g x s) -> forM l f st = forM l g st.
Proof. intros E. revert st. induction l as [|x l IH]; intros st; [done|]. simpl. rewrite E. case_match; auto. Qed.

Lemma forM_app l1 l2 st :
  forM (l1 ++ l2) f st = match forM l1 f st with Some st' => forM l2 f st' | None => None end.
Proof.
  revert st. induction l1 as [|x l1 IH]; intros st; simpl; [done|].
  destruct (f x st); [apply IH|done].
Qed.

(** An invariant indexed by the elements already processed. *)
Lemma forM_ind (Q : list A -> St -> Prop) l st :
  Q [] st ->
  (forall done x rest st, l = done ++ x :: rest -> Q done st ->
     exists st', f x st = Some st' /\ Q (done ++ [x]) st') ->
  exists st', forM l f st = Some st' /\ Q l st'.
Proof.
  intros H0 Hstep.
  assert (G : forall done rest st, l = done ++ rest -> Q done st ->
    exists st', forM rest f st = Some st' /\ Q l st').
  { intros done rest; revert done; induction rest as [|x rest IH]; intros done st1 E HQ; simpl.
    - rewrite app_nil_r in E. subst. eauto.
    - destruct (Hstep done x rest st1 E HQ) as (st2 & -> & HQ2).
      apply (IH (done ++ [x])); [by rewrite <- app_assoc|done]. }
  by apply (G [] l st).
Qed.

Lemma forM_inv (Q : St -> Prop) l st :
  Q st -> (forall x st, x ∈ l -> Q st -> exists st', f x st = Some st' /\ Q st') ->
  exists st', forM l f st = Some st' /\ Q st'.
Proof.
  intros H0 Hs. apply (forM_ind (fun _ => Q)); [done|].
  intros done x rest st1 -> HQ. apply Hs; [set_solver|done].
Qed.
End forM_lemmas.

Lemma forallZ_spec f k a v : forallZ k f a = true -> a <= v < a + Z.of_nat k -> f v = true.
Proof.
  revert a. induction k as [|k IH]; intros a H Hv; [lia|]. cbn [forallZ] in H.
  destruct (f a) eqn:E; [|done]. destruct (decide (v = a)) as [->|Hne]; [done|]. apply (IH (a + 1)); [done|lia].
Qed.

(** ** Lists *)

Lemma elem_of_concat_lookup {A} (ls : list (list A)) x :
  x ∈ concat ls <-> exists i l, ls !! i = Some l /\ x ∈ l.
Proof.
  rewrite list_elem_of_In, in_concat. split.
  - intros (l & Hl & Hx). apply list_elem_of_In in Hl, Hx.
    apply list_elem_of_lookup in Hl as [i Hi]. eauto.
  - intros (i & l & Hl & Hx). exists l. rewrite <- !list_elem_of_In. split; [|done].
    apply list_elem_of_lookup. eauto.
Qed.

Lemma concat_insert_perm {A} (ls : list (list A)) i l l' d :
  ls !! i = Some l -> l ≡ₚ d ++ l' -> concat ls ≡ₚ d ++ concat (<[i := l']> ls).
Proof.
  intros Hi Hp. rewrite <- (take_drop_middle ls i l Hi) at 1.
  rewrite insert_take_drop by (by eapply lookup_lt_Some).
  rewrite !concat_app. simpl. rewrite Hp. solve_Permutation.
Qed.

Lemma elem_drop {A} (l : list A) n x : x ∈ drop n l -> x ∈ l.
Proof. intros H. rewrite <- (take_drop n l). apply elem_of_app. by right. Qed.

(** Filters that agree on the elements of the list. *)
Lemma filter_ext_in {A} (P Q : A -> Prop) `{!forall x, Decision (P x), !forall x, Decision (Q x)} (l : list A) :
  (forall x, x ∈ l -> P x <-> Q x) -> filter P l = filter Q l.
Proof.
  induction l as [|a l IH]; intros Hi; [done|]. rewrite !filter_cons, IH by (intros x Hx; apply Hi; by right).
  pose proof (Hi a ltac:(by left)). destruct (decide (P a)), (decide (Q a)); tauto.
Qed.

Lemma filter_id_in {A} (P : A -> Prop) `{!forall x, Decision (P x)} (l : list A) : (forall x, x ∈ l -> P x) -> filter P l = l.
Proof.
  induction l as [|a l IH]; intros Hi; [done|]. rewrite filter_cons_True by (apply Hi; by left).
  f_equal. apply IH. intros x Hx. apply Hi. by right.
Qed.

Lemma filter_none {A} (Q : A -> Prop) `{!forall x, Decision (Q x)} (l : list A) : (forall x, x ∈ l -> ~ Q x) -> filter Q l = [].
Proof. induction l as [|x l IH]; intros N; [done|]. rewrite filter_cons_False by (apply N; by left). apply IH. intros y Hy. apply N. by right. Qed.

Lemma filter_fmap_ext {A B} (f : A -> B) (P : B -> Prop) (Q : A -> Prop) `{!forall x, Decision (P x), !forall x, Decision (Q x)} (l : list A) :
  (forall x, x ∈ l -> P (f x) <-> Q x) -> filter P (f <$> l) = f <$> filter Q l.
Proof.
  induction l as [|x l IH]; intros Hx; [done|]. cbn [fmap list_fmap]. rewrite !filter_cons. change (list_fmap A B f l) with (f <$> l). rewrite IH by (intros y Hy; apply Hx; by right).
  pose proof (Hx x (list_elem_of_here x l)). do 2 case_decide; [done|tauto|tauto|done].
Qed.

Lemma bind_ext_in {A B} (f g : A -> list B) l : (forall x, x ∈ l -> f x = g x) -> l ≫= f = l ≫= g.
Proof. induction l as [|x l IH]; intros H; [done|]. cbn [mbind list_bind]. rewrite (H x) by (by left). f_equal. apply IH. intros y Hy. apply H. by right. Qed.

Lemma bind_fmap {A B C} (f : B -> C) (g : A -> list B) l : (l ≫= fun x => f <$> g x) = f <$> (l ≫= g).
Proof. induction l as [|x l IH]; [done|]. cbn [mbind list_bind]. by rewrite IH, fmap_app. Qed.

(** Sorting elements into bins. *)
Lemma bins_perm {A} (f : A -> nat) (Q : A -> Prop) `{!forall x, Decision (Q x)} ls (xs : list A) :
  NoDup ls -> (ls ≫= fun l => filter (fun x => f x = l /\ Q x) xs) ≡ₚ filter (fun x => f x ∈ ls /\ Q x) xs.
Proof.
  intros Nd. induction Nd as [|l ls N Nd IH]; [rewrite filter_none; [done|by intros x _ [E _]; apply not_elem_of_nil in E]|]. cbn [mbind list_bind]. rewrite IH. clear IH Nd.
  induction xs as [|x xs IH]; [done|]. rewrite !filter_cons. destruct (decide (Q x)) as [Hq|Hq]; [|by rewrite !decide_False by tauto].
  destruct (decide (f x = l)) as [E|E].
  - rewrite (decide_True (P := f x = l /\ Q x)) by done. rewrite (decide_False (P := f x ∈ ls /\ Q x)) by (rewrite E; tauto). rewrite (decide_True (P := f x ∈ l :: ls /\ Q x)) by (split; [rewrite E; by left|done]). cbn [app]. by rewrite IH.
  - rewrite (decide_False (P := f x = l /\ Q x)) by tauto. destruct (decide (f x ∈ ls)) as [I|I].
    + rewrite (decide_True (P := f x ∈ ls /\ Q x)) by done. rewrite (decide_True (P := f x ∈ l :: ls /\ Q x)) by (split; [by right|done]). rewrite <- IH. by rewrite Permutation_middle.
    + rewrite (decide_False (P := f x ∈ ls /\ Q x)) by tauto. rewrite (decide_False (P := f x ∈ l :: ls /\ Q x)) by (rewrite elem_of_cons; tauto). done.
Qed.

(** Bins for all elements. *)
Lemma all_bins_perm {A} (f : A -> nat) (Q : A -> Prop) `{!forall x, Decision (Q x)} k (xs : list A) :
  (forall x, x ∈ xs -> (f x <= k)%nat) -> (seq 0 (S k) ≫= fun l => filter (fun x => f x = l /\ Q x) xs) ≡ₚ filter Q xs.
Proof. intros L. rewrite bins_perm by apply NoDup_seq. erewrite filter_ext_in; [done|]. intros x Hx. pose proof (L x Hx). rewrite elem_of_seq. split; [by intros [_ ?]|]. split; [lia|done]. Qed.
