(* ===== verification/DirEntry.v ===== *)
(** The cache directory entry ([iocore/cache/P_CacheDir.h]): the ten byte
    [Dir] stored as five 16-bit words, its accessor macros, and the facts that
    make the packed fields behave as independent record fields. *)

From S2P Require Import Prelude.

(** ** Constants *)

Definition DIR_TAG_WIDTH : Z := 12.
Definition DIR_DEPTH : nat := 4.
Definition DIR_SIZE_WIDTH : Z := 6.
Definition INK_BLOCK_SHIFT : Z := 9.
Definition INK_BLOCK_SIZE : Z := Z.shiftl 1 INK_BLOCK_SHIFT.
Definition DIR_BLOCK_SHIFT (i : Z) : Z := 3 * i.
Definition DIR_BLOCK_SIZE (i : Z) : Z := Z.shiftl INK_BLOCK_SIZE (DIR_BLOCK_SHIFT i).
Definition DIR_SIZE_WITH_BLOCK (i : Z) : Z := Z.shiftl 1 DIR_SIZE_WIDTH * DIR_BLOCK_SIZE i.
Definition DIR_MASK_TAG (t : Z) : Z := Z.land t (Z.ones DIR_TAG_WIDTH).
Definition ROUND_TO (x y : Z) : Z := Z.land (x + (y - 1)) (Z.lnot (y - 1)).

(** ** The entry *)

Record Dir := mkDir { w0 : Z; w1 : Z; w2 : Z; w3 : Z; w4 : Z }.

#[global] Instance Dir_eq_dec : EqDecision Dir.
Proof. solve_decision. Defined.

(** [dir_clear]: every word zero. *)
Definition dir_clear : Dir := mkDir 0 0 0 0 0.

#[global] Instance Dir_inhabited : Inhabited Dir := populate dir_clear.

Definition dir_bit (x b : Z) : Z := Z.land (Z.shiftr x b) 1.

Definition dir_set_bit (x b v : Z) : Z :=
  u16 (Z.lor (Z.land x (Z.lnot (Z.shiftl 1 b)))
             (Z.shiftl (if v =? 0 then 0 else 1) b)).

Definition dir_offset (e : Dir) : Z :=
  Z.lor (Z.lor (w0 e) (Z.shiftl (Z.land (w1 e) 0xFF) 16)) (Z.shiftl (w4 e) 24).

Definition dir_set_offset (e : Dir) (o : Z) : Dir :=
  mkDir (u16 o)
        (u16 (Z.lor (Z.land (Z.shiftr o 16) 0xFF) (Z.land (w1 e) 0xFF00)))
        (w2 e) (w3 e)
        (u16 (Z.shiftr o 24)).

Definition dir_big (e : Dir) : Z := Z.land (Z.shiftr (w1 e) 8) 0x3.

Definition dir_set_big (e : Dir) (v : Z) : Dir :=
  mkDir (w0 e)
        (u16 (Z.lor (Z.land (w1 e) 0xFCFF) (Z.shiftl (Z.land (u16 v) 0x3) 8)))
        (w2 e) (w3 e) (w4 e).

Definition dir_size (e : Dir) : Z := Z.shiftr (w1 e) 10.

Definition dir_set_size (e : Dir) (v : Z) : Dir :=
  mkDir (w0 e)
        (u16 (Z.lor (Z.land (w1 e) (Z.ones 10)) (Z.shiftl v 10)))
        (w2 e) (w3 e) (w4 e).

Definition dir_set_approx_size (e : Dir) (s : Z) : Dir :=
  if s <=? DIR_SIZE_WITH_BLOCK 0 then
    dir_set_size (dir_set_big e 0) ((s - 1) `quot` DIR_BLOCK_SIZE 0)
  else if s <=? DIR_SIZE_WITH_BLOCK 1 then
    dir_set_size (dir_set_big e 1) ((s - 1) `quot` DIR_BLOCK_SIZE 1)
  else if s <=? DIR_SIZE_WITH_BLOCK 2 then
    dir_set_size (dir_set_big e 2) ((s - 1) `quot` DIR_BLOCK_SIZE 2)
  else
    dir_set_size (dir_set_big e 3) ((s - 1) `quot` DIR_BLOCK_SIZE 3).

Definition dir_approx_size (e : Dir) : Z := (dir_size e + 1) * DIR_BLOCK_SIZE (dir_big e).

Definition round_to_approx_size (s : Z) : Z :=
  if s <=? DIR_SIZE_WITH_BLOCK 0 then ROUND_TO s (DIR_BLOCK_SIZE 0)
  else if s <=? DIR_SIZE_WITH_BLOCK 1 then ROUND_TO s (DIR_BLOCK_SIZE 1)
  else if s <=? DIR_SIZE_WITH_BLOCK 2 then ROUND_TO s (DIR_BLOCK_SIZE 2)
  else ROUND_TO s (DIR_BLOCK_SIZE 3).

Definition dir_tag (e : Dir) : Z := Z.land (w2 e) (Z.ones DIR_TAG_WIDTH).

Definition dir_set_tag (e : Dir) (t : Z) : Dir :=
  mkDir (w0 e) (w1 e)
        (u16 (Z.lor (Z.land (w2 e) (Z.lnot (Z.ones DIR_TAG_WIDTH)))
                    (Z.land t (Z.ones DIR_TAG_WIDTH))))
        (w3 e) (w4 e).

Definition dir_set_w2 (e : Dir) (x : Z) : Dir := mkDir (w0 e) (w1 e) x (w3 e) (w4 e).

Definition dir_phase (e : Dir) : Z := dir_bit (w2 e) 12.
Definition dir_set_phase (e : Dir) (v : Z) : Dir := dir_set_w2 e (dir_set_bit (w2 e) 12 v).
Definition dir_head (e : Dir) : Z := dir_bit (w2 e) 13.
Definition dir_set_head (e : Dir) (v : Z) : Dir := dir_set_w2 e (dir_set_bit (w2 e) 13 v).
Definition dir_pinned (e : Dir) : Z := dir_bit (w2 e) 14.
Definition dir_set_pinned (e : Dir) (v : Z) : Dir := dir_set_w2 e (dir_set_bit (w2 e) 14 v).
Definition dir_token (e : Dir) : Z := dir_bit (w2 e) 15.
Definition dir_set_token (e : Dir) (v : Z) : Dir := dir_set_w2 e (dir_set_bit (w2 e) 15 v).

Definition dir_next (e : Dir) : Z := w3 e.
Definition dir_set_next (e : Dir) (o : Z) : Dir := mkDir (w0 e) (w1 e) (w2 e) (u16 o) (w4 e).
Definition dir_prev (e : Dir) : Z := w2 e.
Definition dir_set_prev (e : Dir) (o : Z) : Dir := mkDir (w0 e) (w1 e) (u16 o) (w3 e) (w4 e).

Definition dir_is_empty (e : Dir) : bool := dir_offset e =? 0.
Definition dir_clean (e : Dir) : Dir := dir_set_offset e 0.

(** [dir_assign]: all five words of [x] into [e]. *)
Definition dir_assign (e x : Dir) : Dir := x.

(** [dir_assign_data]: every word of [x] except the link word of [e]. *)
Definition dir_assign_data (e x : Dir) : Dir := dir_set_next (dir_assign e x) (dir_next e).

(** An MD5 cache key, as its four 32-bit words. *)
Record CacheKey := mkKey { kw0 : Z; kw1 : Z; kw2 : Z; kw3 : Z }.

#[global] Instance CacheKey_eq_dec : EqDecision CacheKey.
Proof. solve_decision. Defined.

Definition key_wf (k : CacheKey) : Prop :=
  0 <= kw0 k < 2 ^ 32 /\ 0 <= kw1 k < 2 ^ 32 /\ 0 <= kw2 k < 2 ^ 32 /\ 0 <= kw3 k < 2 ^ 32.

Definition dir_compare_tag (e : Dir) (key : CacheKey) : bool :=
  dir_tag e =? DIR_MASK_TAG (kw2 key).

(** Every word is a 16-bit value. *)
Definition word16 (x : Z) : Prop := 0 <= x < 2 ^ 16.
Definition dir_wf (e : Dir) : Prop :=
  word16 (w0 e) /\ word16 (w1 e) /\ word16 (w2 e) /\ word16 (w3 e) /\ word16 (w4 e).

(** The packed fields, as one family of accessors. *)
Inductive DirFieldName :=
  F_offset | F_big | F_size | F_tag | F_phase | F_head | F_pinned | F_token | F_next.

#[global] Instance DirFieldName_eq_dec : EqDecision DirFieldName.
Proof. solve_decision. Defined.

Definition field_width (f : DirFieldName) : Z :=
  match f with
  | F_offset => 40 | F_big => 2 | F_size => 6 | F_tag => DIR_TAG_WIDTH | F_next => 16
  | F_phase | F_head | F_pinned | F_token => 1
  end.

Definition field_get (f : DirFieldName) : Dir -> Z :=
  match f with
  | F_offset => dir_offset | F_big => dir_big | F_size => dir_size | F_tag => dir_tag
  | F_phase => dir_phase | F_head => dir_head | F_pinned => dir_pinned
  | F_token => dir_token | F_next => dir_next
  end.

Definition field_set (f : DirFieldName) : Dir -> Z -> Dir :=
  match f with
  | F_offset => dir_set_offset | F_big => dir_set_big | F_size => dir_set_size
  | F_tag => dir_set_tag | F_phase => dir_set_phase | F_head => dir_set_head
  | F_pinned => dir_set_pinned | F_token => dir_set_token | F_next => dir_set_next
  end.

(** ** Words and bits *)

Lemma word16_u16 x : word16 (u16 x).
Proof. apply wrapu_range. lia. Qed.

Lemma word16_bits x : word16 x -> x = u16 x.
Proof. intros. by rewrite wrapu_id. Qed.

Lemma word16_clear : word16 0.
Proof. unfold word16. lia. Qed.

#[export] Hint Resolve word16_u16 word16_clear : ts.

Lemma dir_wf_clear : dir_wf dir_clear.
Proof. repeat split; simpl; lia. Qed.

Ltac dwf := unfold dir_wf; simpl; intuition auto with ts.

Lemma dir_set_next_wf e o : dir_wf e -> dir_wf (dir_set_next e o).
Proof. dwf. Qed.
Lemma dir_set_prev_wf e o : dir_wf e -> dir_wf (dir_set_prev e o).
Proof. dwf. Qed.
Lemma dir_set_offset_wf e o : dir_wf e -> dir_wf (dir_set_offset e o).
Proof. dwf. Qed.
Lemma dir_set_tag_wf e o : dir_wf e -> dir_wf (dir_set_tag e o).
Proof. dwf. Qed.
#[export] Hint Resolve dir_wf_clear dir_set_next_wf dir_set_prev_wf
  dir_set_offset_wf dir_set_tag_wf : ts.

(** Constants of the layout as masks the bit tactic knows. *)
Lemma mask_FF : 0xFF = Z.ones 8. Proof. reflexivity. Qed.
Lemma mask_FF00 : 0xFF00 = Z.shiftl (Z.ones 8) 8. Proof. reflexivity. Qed.
Lemma mask_FCFF : 0xFCFF = Z.lor (Z.ones 8) (Z.shiftl (Z.ones 6) 10). Proof. reflexivity. Qed.
Lemma mask_3 : 0x3 = Z.ones 2. Proof. reflexivity. Qed.
Ltac masks := rewrite ?mask_FF, ?mask_FF00, ?mask_FCFF, ?mask_3.

(** Bit [n] of a 16-bit word, past the word. *)
Lemma word16_testbit x n : word16 x -> 16 <= n -> Z.testbit x n = false.
Proof.
  intros Hx Hn. rewrite (word16_bits x Hx). autorewrite with zbits.
  by destruct (Z.ltb_spec n 16); [lia|].
Qed.

Lemma bit_shape v : 0 <= v < 2 -> (if v =? 0 then 0 else 1) = v.
Proof. intros. destruct (Z.eqb_spec v 0); lia. Qed.

Lemma small_bits w v : 0 <= v < 2 ^ w -> v = wrapu w v.
Proof. intros. by rewrite wrapu_id. Qed.

(** Unfold the accessors of a field down to bit expressions over words. *)
Ltac dir_unfold :=
  cbv [field_get field_set field_width DIR_TAG_WIDTH dir_offset dir_set_offset dir_big
    dir_set_big dir_size dir_set_size dir_tag dir_set_tag dir_phase dir_set_phase dir_head
    dir_set_head dir_pinned dir_set_pinned dir_token dir_set_token dir_next dir_set_next
    dir_set_w2 dir_bit dir_set_bit w0 w1 w2 w3 w4] in *.

Lemma field_get_set_eq f e v : 0 <= v < 2 ^ field_width f ->
  field_get f (field_set f e v) = v.
Proof.
  intros Hv. pose proof (small_bits _ _ Hv) as E.
  destruct e, f; dir_unfold; rewrite ?bit_shape by lia; rewrite E; masks; bitblast.
Qed.

Lemma field_get_set_ne f g e v : dir_wf e -> 0 <= v < 2 ^ field_width g -> f <> g ->
  field_get f (field_set g e v) = field_get f e.
Proof.
  intros (H0 & H1 & H2 & H3 & H4) Hv Hne. pose proof (small_bits _ _ Hv) as E.
  apply word16_bits in H0, H1, H2, H3, H4.
  destruct e, g; destruct f; try done; dir_unfold; try reflexivity;
    rewrite ?bit_shape by lia; rewrite E; masks;
    match goal with |- context [?w] => rewrite H1 || rewrite H2 || idtac end; bitblast.
Qed.
Lemma dir_offset_set_offset e o : 0 <= o < 2 ^ 40 -> dir_offset (dir_set_offset e o) = o.
Proof. apply (field_get_set_eq F_offset). Qed.

Lemma dir_next_set_next e o : word16 o -> dir_next (dir_set_next e o) = o.
Proof. apply (field_get_set_eq F_next). Qed.

Lemma dir_tag_set_tag e t : dir_tag (dir_set_tag e t) = DIR_MASK_TAG t.
Proof. unfold dir_tag, dir_set_tag, DIR_MASK_TAG, DIR_TAG_WIDTH; simpl. bitblast. Qed.

Lemma dir_offset_clear : dir_offset dir_clear = 0.
Proof. reflexivity. Qed.

Lemma dir_set_big_wf e v : dir_wf e -> dir_wf (dir_set_big e v).
Proof. dwf. Qed.

Lemma DIR_BLOCK_SIZE_pow i : 0 <= i -> DIR_BLOCK_SIZE i = 2 ^ (9 + 3 * i).
Proof.
  intros. unfold DIR_BLOCK_SIZE, DIR_BLOCK_SHIFT, INK_BLOCK_SIZE, INK_BLOCK_SHIFT.
  rewrite Z.shiftl_shiftl, Z.shiftl_1_l by lia. done.
Qed.

Lemma ROUND_TO_pow x k : 0 <= k -> ROUND_TO x (2 ^ k) = (x + (2 ^ k - 1)) / 2 ^ k * 2 ^ k.
Proof.
  intros. unfold ROUND_TO.
  replace (2 ^ k - 1) with (Z.ones k) by (rewrite Z.ones_equiv; lia).
  rewrite <- Z.ldiff_land, Z.ldiff_ones_r by lia.
  by rewrite Z.shiftr_div_pow2, Z.shiftl_mul_pow2 by lia.
Qed.

(** Rounding up to a power of two is one block more than the index of the last
    byte's block. *)
Lemma ROUND_TO_blocks s k : 0 <= k -> 1 <= s ->
  ROUND_TO s (2 ^ k) = ((s - 1) / 2 ^ k + 1) * 2 ^ k.
Proof.
  intros Hk Hs. rewrite ROUND_TO_pow by lia. f_equal.
  replace (s + (2 ^ k - 1)) with (s - 1 + 1 * 2 ^ k) by lia.
  by rewrite Z.div_add by lia.
Qed.

Lemma ROUND_TO_bounds s k : 0 <= k -> 1 <= s -> s <= ROUND_TO s (2 ^ k) < s + 2 ^ k.
Proof.
  intros Hk Hs. rewrite ROUND_TO_blocks by lia.
  pose proof (Z.div_mod (s - 1) (2 ^ k) ltac:(lia)).
  pose proof (Z.mod_pos_bound (s - 1) (2 ^ k) ltac:(lia)). nia.
Qed.

(** One size class: the size field holds the number of blocks less one. *)
Lemma approx_size_class e s b : dir_wf e -> 0 <= b < 4 ->
  1 <= s <= DIR_SIZE_WITH_BLOCK b ->
  let e' := dir_set_size (dir_set_big e b) ((s - 1) `quot` DIR_BLOCK_SIZE b) in
  dir_approx_size e' = ROUND_TO s (DIR_BLOCK_SIZE b) /\ dir_big e' = b.
Proof.
  intros He Hb Hs e'. unfold DIR_SIZE_WITH_BLOCK in Hs.
  rewrite DIR_BLOCK_SIZE_pow in * by lia. change (Z.shiftl 1 DIR_SIZE_WIDTH) with 64 in Hs.
  assert (Hq : 0 <= (s - 1) `quot` 2 ^ (9 + 3 * b) < 2 ^ field_width F_size).
  { rewrite Z.quot_div_nonneg by lia. split; [apply Z.div_pos; lia|].
    apply Z.div_lt_upper_bound; [lia|]. change (2 ^ field_width F_size) with 64. lia. }
  assert (Hbig : dir_big e' = b).
  { transitivity (dir_big (dir_set_big e b)).
    - apply (field_get_set_ne F_big F_size); [by apply dir_set_big_wf|rewrite DIR_BLOCK_SIZE_pow by lia; done|done].
    - apply (field_get_set_eq F_big). simpl. lia. }
  split; [|done].
  unfold dir_approx_size. rewrite Hbig, DIR_BLOCK_SIZE_pow, ROUND_TO_blocks by lia.
  f_equal. f_equal. unfold e'. rewrite DIR_BLOCK_SIZE_pow, <- Z.quot_div_nonneg by lia.
  by apply (field_get_set_eq F_size).
Qed.

(** ** Properties *)

(** The nine packed fields of a directory entry behave as independent
    record fields: writing an in-range value to a field of a well-formed entry
    and reading any field gives the value back for that field and leaves every
    other field as it was. *)
Theorem dir_fields_independent e f g v :
  dir_wf e -> 0 <= v < 2 ^ field_width g ->
  field_get f (field_set g e v) = if decide (f = g) then v else field_get f e.
Proof.
  intros. case_decide; [subst; by apply field_get_set_eq|by apply field_get_set_ne].
Qed.

Lemma dir_fields_independent_witness :
  field_get F_tag (field_set F_head (mkDir 7 0x1205 0xABC 3 0) 1) = 0xABC.
Proof.
  rewrite (dir_fields_independent (mkDir 7 0x1205 0xABC 3 0) F_tag F_head 1).
  - reflexivity.
  - repeat split; simpl; lia.
  - simpl. lia.
Defined.

(** For every document size up to the largest class, the size recorded in
    an entry by [dir_set_approx_size] and read back by [dir_approx_size] is
    [round_to_approx_size], never less than the document and never a full block
    of its class more. *)
Theorem approx_size_roundtrip e s :
  dir_wf e -> 1 <= s <= DIR_SIZE_WITH_BLOCK 3 ->
  let e' := dir_set_approx_size e s in
  dir_approx_size e' = round_to_approx_size s /\
  s <= dir_approx_size e' < s + DIR_BLOCK_SIZE (dir_big e').
Proof.
  intros He Hs. unfold dir_set_approx_size, round_to_approx_size.
  repeat match goal with |- context [s <=? ?x] => destruct (Z.leb_spec s x) end;
  match goal with |- context [dir_set_big e ?b] =>
    destruct (approx_size_class e s b He ltac:(lia) ltac:(lia)) as [-> ->];
    split; [done|rewrite DIR_BLOCK_SIZE_pow by lia; apply ROUND_TO_bounds; lia]
  end.
Qed.

Lemma approx_size_roundtrip_witness :
  dir_approx_size (dir_set_approx_size dir_clear 40000) = 40960.
Proof.
  destruct (approx_size_roundtrip dir_clear 40000 dir_wf_clear) as [-> _].
  - vm_compute. split; discriminate.
  - reflexivity.
Defined.
