(* ===== verification/DirSegment.v ===== *)
(** One segment of the cache directory ([iocore/cache/CacheDir.cc]): the array
    of [Dir] entries, its bucket chains and its free list, every routine that
    reads or rewrites them, and the representation invariant they keep.

    A [Dir *] into the segment is the index of the entry; a null pointer is
    [None].  [dir_next] and [dir_prev] hold 16-bit indices with 0 for null, as
    in the code.  A read outside the segment, undefined in C++, gives the
    cleared entry; [seg_rep] rules it out.  The loops carry a fuel argument:
    [None] is a loop that has not ended, and the theorems show the fuel each
    caller passes is enough. *)

From S2P Require Import Prelude DirEntry.

(** ** State *)

(** The segment and the fields of the partition header and of the statistics
    the segment routines write. *)
Record Seg := mkSeg {
  ents : list Dir;          (* d->dir, from dir_segment(s, d) *)
  freelist : Z;             (* d->header->freelist[s] *)
  dirty : bool;             (* d->header->dirty *)
  dir_used : Z;             (* cache_direntries_used_stat *)
  dir_collisions : Z        (* cache_directory_collision_count_stat *)
}.

Definition ent (st : Seg) (i : nat) : Dir := ents st !!! i.

Definition set_ents (st : Seg) (es : list Dir) : Seg :=
  mkSeg es (freelist st) (dirty st) (dir_used st) (dir_collisions st).
Definition set_ent (st : Seg) (i : nat) (e : Dir) : Seg := set_ents st (<[i := e]> (ents st)).
Definition set_freelist (st : Seg) (o : Z) : Seg :=
  mkSeg (ents st) (u16 o) (dirty st) (dir_used st) (dir_collisions st).
Definition set_dirty (st : Seg) : Seg :=
  mkSeg (ents st) (freelist st) true (dir_used st) (dir_collisions st).
Definition CACHE_INC_DIR_USED (st : Seg) : Seg :=
  mkSeg (ents st) (freelist st) (dirty st) (dir_used st + 1) (dir_collisions st).
Definition CACHE_DEC_DIR_USED (st : Seg) : Seg :=
  mkSeg (ents st) (freelist st) (dirty st) (dir_used st - 1) (dir_collisions st).
Definition CACHE_INC_DIR_COLLISIONS (st : Seg) : Seg :=
  mkSeg (ents st) (freelist st) (dirty st) (dir_used st) (dir_collisions st + 1).

(** ** Pointers *)

Definition dir_from_offset (i : Z) : option nat := if i =? 0 then None else Some (Z.to_nat i).
Definition next_dir (es : list Dir) (i : nat) : option nat := dir_from_offset (dir_next (es !!! i)).
Definition dir_to_offset (i : nat) : Z := Z.of_nat i.
Definition dir_bucket (b : nat) : nat := (b * DIR_DEPTH)%nat.
Definition dir_bucket_row (b l : nat) : nat := (b + l)%nat.

(** ** Loop detection: tortoise [p1] and hare [p2] *)

Fixpoint loop_check_go (fuel : nat) (es : list Dir) (p1 p2 : option nat) : option bool :=
  match p2 with
  | None => Some true
  | Some h =>
    match fuel with
    | O => None
    | S fuel' =>
      let p1' := p1 ≫= next_dir es in
      match next_dir es h with
      | None => Some true
      | Some h1 =>
        let p2' := next_dir es h1 in
        if decide (p2' = p1') then Some false else loop_check_go fuel' es p1' p2'
      end
    end
  end.

Definition dir_bucket_loop_check (start_dir : option nat) (es : list Dir) : option bool :=
  match start_dir with
  | None => Some true
  | Some _ => loop_check_go (S (length es)) es start_dir start_dir
  end.

(** ** Free list *)

Definition dir_free_entry (i : nat) (st : Seg) : Seg :=
  let fo := freelist st in
  let eo := dir_to_offset i in
  let st1 := set_ent st i (dir_set_next (ent st i) fo) in
  let st2 := match dir_from_offset fo with
             | None => st1
             | Some f => set_ent st1 f (dir_set_prev (ent st1 f) eo)
             end in
  set_freelist st2 eo.

(** Rows 1 to 3 of every bucket, in the order of the two loops. *)
Definition init_order (nb : nat) : list nat :=
  flat_map (fun l => map (fun b => dir_bucket_row (dir_bucket b) l) (seq 0 nb))
           (seq 1 (DIR_DEPTH - 1)).

Definition dir_init_segment (nb : nat) (st : Seg) : Seg :=
  foldl (fun st' i => dir_free_entry i st')
        (set_ents (set_freelist st 0) (replicate (nb * DIR_DEPTH) dir_clear))
        (init_order nb).

Definition dir_bucket_loop_fix (start_dir : option nat) (nb : nat) (st : Seg) : option (bool * Seg) :=
  match dir_bucket_loop_check start_dir (ents st) with
  | Some true => Some (false, st)
  | Some false => Some (true, dir_init_segment nb st)
  | None => None
  end.

Fixpoint chain_length (fuel : nat) (es : list Dir) (e : option nat) : option Z :=
  match e with
  | None => Some 0
  | Some i =>
    match fuel with
    | O => None
    | S fuel' => n ← chain_length fuel' es (next_dir es i); Some (n + 1)
    end
  end.

Definition dir_freelist_length (nb : nat) (st : Seg) : option (Z * Seg) :=
  let e := dir_from_offset (freelist st) in
  '(fixed, st') ← dir_bucket_loop_fix e nb st;
  if (fixed : bool) then Some ((Z.of_nat DIR_DEPTH - 1) * Z.of_nat nb, st')
  else n ← chain_length (S (length (ents st))) (ents st) e; Some (n, st').

Fixpoint bucket_length_go (fuel : nat) (es : list Dir) (e : option nat) (i : Z) : Z :=
  match e with
  | None => i
  | Some x =>
    match fuel with
    | O => -1
    | S fuel' => bucket_length_go fuel' es (next_dir es x) (i + 1)
    end
  end.

(** [while (e) { i++; if (i > 100) return -1; ... }]: at most 100 entries. *)
Definition dir_bucket_length (b : nat) (es : list Dir) : Z := bucket_length_go 100 es (Some b) 0.

(** The body of [check_dir] for one segment. *)
Definition check_dir_seg (nb : nat) (es : list Dir) : bool :=
  forallb (fun i =>
    let b := dir_bucket i in
    (dir_bucket_length b es >=? 0) &&
    ((dir_next (es !!! b) =? 0) || negb (dir_offset (es !!! b) =? 0)) &&
    match dir_bucket_loop_check (Some b) es with Some r => r | None => false end)
  (seq 0 nb).

Definition unlink_from_freelist (i : nat) (st : Seg) : Seg :=
  let e := ent st i in
  let st1 := match dir_from_offset (dir_prev e) with
             | Some p => set_ent st p (dir_set_next (ent st p) (dir_next e))
             | None => set_freelist st (dir_next e)
             end in
  match dir_from_offset (dir_next (ent st1 i)) with
  | Some n => set_ent st1 n (dir_set_prev (ent st1 n) (dir_prev (ent st1 i)))
  | None => st1
  end.

(** [dir_delete_entry] with a predecessor [p]. *)
Definition dir_delete_linked (i p : nat) (st : Seg) : Seg * option nat :=
  let no := dir_next (ent st i) in
  let fo := freelist st in
  let eo := dir_to_offset i in
  let st1 := set_ent (set_dirty st) i dir_clear in
  let st2 := set_ent st1 p (dir_set_next (ent st1 p) no) in
  let st3 := set_ent st2 i (dir_set_next (ent st2 i) fo) in
  let st4 := match dir_from_offset fo with
             | Some f => set_ent st3 f (dir_set_prev (ent st3 f) eo)
             | None => st3
             end in
  (set_freelist st4 eo, dir_from_offset no).

Definition dir_delete_entry (i : nat) (p : option nat) (st : Seg) : Seg * option nat :=
  match p with
  | Some p => dir_delete_linked i p st
  | None =>
    let st1 := set_dirty st in
    match next_dir (ents st1) i with
    | Some n =>
      let st2 := set_ent st1 i (dir_assign (ent st1 i) (ent st1 n)) in
      (fst (dir_delete_linked n i st2), Some i)
    | None => (set_ent st1 i dir_clear, None)
    end
  end.

Section Validity.
(** [dir_valid(d, e)]: the phase and position test of the partition. *)
Variable valid : Dir -> bool.
(** [d->buckets]. *)
Variable nb : nat.

(** ** Cleaning *)

Fixpoint clean_bucket_go (fuel : nat) (i : nat) (p : option nat) (st : Seg) : option Seg :=
  match fuel with
  | O => None
  | S fuel' =>
    let e := ent st i in
    let loop st' e' p' :=
      match e' with None => Some st' | Some j => clean_bucket_go fuel' j p' st' end in
    if negb (valid e) || (dir_offset e =? 0) then
      let st1 := if dir_offset e =? 0 then st else CACHE_DEC_DIR_USED st in
      let '(st2, e') := dir_delete_entry i p st1 in
      loop st2 e' p
    else loop st (next_dir (ents st) i) (Some i)
  end.

Definition dir_clean_bucket (b : nat) (st : Seg) : option Seg :=
  clean_bucket_go (S (length (ents st))) b None st.

Definition dir_clean_segment (st : Seg) : option Seg :=
  forM (seq 0 nb) (fun i => dir_clean_bucket (dir_bucket i)) st.

(** The purge of [freelist_clean]: every tenth head entry is emptied. *)
Definition purge_entry (i : nat) (acc : Z * Seg) : Z * Seg :=
  let '(n, st) := acc in
  let e := ent st i in
  if dir_head e =? 0 then (n, st)
  else if n `rem` 10 =? 0
       then (n + 1, set_ent (CACHE_DEC_DIR_USED st) i (dir_set_offset e 0))
       else (n + 1, st).

Definition purge_order : list nat :=
  flat_map (fun bi => map (fun l => dir_bucket_row (dir_bucket bi) l) (seq 0 DIR_DEPTH)) (seq 0 nb).

Definition freelist_clean (st : Seg) : option Seg :=
  st1 ← dir_clean_segment st;
  if negb (freelist st1 =? 0) then Some st1
  else
    let '(_, st2) := foldl (fun acc i => purge_entry i acc) (0, st1) purge_order in
    dir_clean_segment st2.

Definition freelist_pop (st : Seg) : option (Seg * option nat) :=
  match dir_from_offset (freelist st) with
  | None => st' ← freelist_clean st; Some (st', None)
  | Some i =>
    let e := ent st i in
    let st1 := set_freelist st (dir_next e) in
    if negb (dir_offset e =? 0) then Some (dir_init_segment nb st1, None)
    else
      let st2 := match dir_from_offset (freelist st1) with
                 | Some h => set_ent st1 h (dir_set_prev (ent st1 h) 0)
                 | None => st1
                 end in
      Some (st2, Some i)
  end.

(** ** Insertion *)

(** The first empty row 1..3 of the bucket at [b]. *)
Definition empty_row (b : nat) (st : Seg) : option nat :=
  head (filter (fun i => dir_is_empty (ent st i) = true)
               (map (dir_bucket_row b) (seq 1 (DIR_DEPTH - 1)))).

(** [Llink]: chain the entry [i] after the bucket head. *)
Definition link_entry (b i : nat) (st : Seg) : Seg :=
  let st1 := set_ent st i (dir_set_next (ent st i) (dir_next (ent st b))) in
  set_ent st1 b (dir_set_next (ent st1 b) (dir_to_offset i)).

(** [Lfill]: the data of [to_part] and the tag into entry [i]. *)
Definition fill_entry (i : nat) (to_part : Dir) (t : Z) (st : Seg) : Seg :=
  let e1 := dir_assign_data (ent st i) to_part in
  set_ent st i (dir_set_tag e1 t).

Fixpoint dir_insert_seg (fuel : nat) (b : nat) (key : CacheKey) (to_part : Dir) (st : Seg)
  : option Seg :=
  match fuel with
  | O => None
  | S fuel' =>
    let finish i st' :=
      Some (CACHE_INC_DIR_USED (set_dirty (fill_entry i to_part (kw2 key) st'))) in
    if dir_is_empty (ent st b) then finish b st
    else match empty_row b st with
    | Some i => finish i (link_entry b i (unlink_from_freelist i st))
    | None =>
      match freelist_pop st with
      | Some (st', Some i) => finish i (link_entry b i st')
      | Some (st', None) => dir_insert_seg fuel' b key to_part st'
      | None => None
      end
    end
  end.

(** ** Lookup *)

Inductive probe_end :=
| Hit (result : Dir) (last_collision : nat)
| Miss (collision : option nat).

Fixpoint probe_go (fuel : nat) (key : CacheKey) (i : nat) (p collision : option nat) (st : Seg)
  : option (Seg * probe_end) :=
  match fuel with
  | O => None
  | S fuel' =>
    let e := ent st i in
    let loop st' e' p' c' :=
      match e' with
      | None => Some (st', Miss c')
      | Some j => probe_go fuel' key j p' c' st'
      end in
    if dir_compare_tag e key then
      match collision with
      | Some c =>
        if decide (c = i)
        then loop (CACHE_INC_DIR_COLLISIONS st) (next_dir (ents st) i) (Some i) None
        else loop st (next_dir (ents st) i) (Some i) collision
      | None =>
        if valid e then Some (st, Hit e i)
        else
          let '(st', e') := dir_delete_entry i p (CACHE_DEC_DIR_USED st) in
          loop st' e' p None
      end
    else loop st (next_dir (ents st) i) (Some i) collision
  end.

Definition probe_pass (key : CacheKey) (b : nat) (collision : option nat) (st : Seg)
  : option (Seg * probe_end) :=
  if dir_offset (ent st b) =? 0 then Some (st, Miss collision)
  else probe_go (S (length (ents st))) key b None collision st.

Definition dir_probe_seg (key : CacheKey) (b : nat) (last_collision : option nat) (st : Seg)
  : option (Seg * option (Dir * nat)) :=
  r ← probe_pass key b last_collision st;
  match r with
  | (st1, Hit e i) => Some (st1, Some (e, i))
  | (st1, Miss None) => Some (st1, None)
  | (st1, Miss (Some _)) =>
    r2 ← probe_pass key b None (CACHE_INC_DIR_COLLISIONS st1);
    match r2 with
    | (st2, Hit e i) => Some (st2, Some (e, i))
    | (st2, Miss _) => Some (st2, None)
    end
  end.

(** ** Overwriting and deletion *)

(** Walk the chain from [i] for an entry with tag [t] and offset [o]: the
    entry and the one before it. *)
Fixpoint find_entry (fuel : nat) (es : list Dir) (t o : Z) (i : nat) (p : option nat)
  : option (option (nat * option nat)) :=
  match fuel with
  | O => None
  | S fuel' =>
    if (dir_tag (es !!! i) =? t) && (dir_offset (es !!! i) =? o) then Some (Some (i, p))
    else match next_dir es i with
         | None => Some None
         | Some j => find_entry fuel' es t o j (Some i)
         end
  end.

Definition find_in_bucket (es : list Dir) (t o : Z) (b : nat) : option (option (nat * option nat)) :=
  if dir_offset (es !!! b) =? 0 then Some None
  else find_entry (S (length es)) es t o b None.

Fixpoint dir_overwrite_seg (fuel : nat) (b : nat) (key : CacheKey) (dir overwrite : Dir)
  (must_overwrite : bool) (res : Z) (st : Seg) : option (Seg * Z) :=
  match fuel with
  | O => None
  | S fuel' =>
    let t := DIR_MASK_TAG (kw2 key) in
    let finish i st' res := Some (set_dirty (fill_entry i dir t st'), res) in
    found ← find_in_bucket (ents st) t (dir_offset overwrite) b;
    match found with
    | Some (i, _) => finish i st res
    | None =>
      if must_overwrite then Some (st, 0)
      else if dir_is_empty (ent st b) then finish b (CACHE_INC_DIR_USED st) 0
      else match empty_row b st with
      | Some i => finish i (link_entry b i (CACHE_INC_DIR_USED (unlink_from_freelist i st))) 0
      | None =>
        match freelist_pop st with
        | Some (st', Some i) => finish i (link_entry b i (CACHE_INC_DIR_USED st')) 0
        | Some (st', None) => dir_overwrite_seg fuel' b key dir overwrite must_overwrite 0 st'
        | None => None
        end
      end
    end
  end.

Definition dir_delete_seg (b : nat) (key : CacheKey) (del : Dir) (st : Seg) : option (Seg * Z) :=
  found ← find_in_bucket (ents st) (DIR_MASK_TAG (kw2 key)) (dir_offset del) b;
  match found with
  | Some (i, p) => Some (fst (dir_delete_entry i p (CACHE_DEC_DIR_USED st)), 1)
  | None => Some (st, 0)
  end.

End Validity.

(** ** Representation

    [lseg es o l o']: following [dir_next] from offset [o] visits exactly the
    entries [l] and stops at offset [o']. *)
Fixpoint lseg (es : list Dir) (o : Z) (l : list nat) (o' : Z) : Prop :=
  match l with
  | [] => o = o'
  | i :: l' => o = Z.of_nat i /\ (0 < i < length es)%nat /\ lseg es (dir_next (es !!! i)) l' o'
  end.

(** The [prev] words of a list whose first entry follows offset [p]. *)
Fixpoint dprev (es : list Dir) (p : Z) (l : list nat) : Prop :=
  match l with
  | [] => True
  | i :: l' => dir_prev (es !!! i) = p /\ dprev es (Z.of_nat i) l'
  end.

(** The segment represents the free list [fl] and, for each bucket, the
    overflow chain [ch !! b] behind its row 0; the two partition the rows 1..3
    of all buckets. *)
Record seg_rep (nb : nat) (st : Seg) (fl : list nat) (ch : list (list nat)) : Prop := {
  sr_len : length (ents st) = (nb * DIR_DEPTH)%nat;
  sr_max : Z.of_nat (nb * DIR_DEPTH) <= 2 ^ 16;
  sr_wf : forall i, dir_wf (ent st i);
  sr_fl : lseg (ents st) (freelist st) fl 0;
  sr_prev : dprev (ents st) 0 fl;
  sr_fempty : forall i, i ∈ fl -> dir_offset (ent st i) = 0;
  sr_nch : length ch = nb;
  sr_chain : forall b c, ch !! b = Some c ->
    lseg (ents st) (dir_next (ent st (dir_bucket b))) c 0;
  sr_slots : fl ++ concat ch ≡ₚ init_order nb
}.

(** An entry without its link. *)
Definition dir_payload (e : Dir) : Dir := dir_set_next e 0.

(** One bucket without emptied entries: every overflow entry in use, and an
    empty row 0 cleared, with no overflow behind it. *)
Definition bucket_clean (st : Seg) (b : nat) (c : list nat) : Prop :=
  (forall i, i ∈ c -> dir_offset (ent st i) <> 0) /\
  (dir_offset (ent st (dir_bucket b)) = 0 ->
     c = [] /\ dir_payload (ent st (dir_bucket b)) = dir_clear).

Definition seg_clean (st : Seg) (ch : list (list nat)) : Prop :=
  forall b c, ch !! b = Some c -> bucket_clean st b c.

Definition seg_inv (nb : nat) (st : Seg) : Prop :=
  exists fl ch, seg_rep nb st fl ch /\ seg_clean st ch.

(** ** Abstraction: what a bucket holds, read off the segment *)

Fixpoint walk (fuel : nat) (es : list Dir) (e : option nat) : list nat :=
  match fuel, e with
  | S fuel', Some i => i :: walk fuel' es (next_dir es i)
  | _, _ => []
  end.

Definition pays (st : Seg) (l : list nat) : list Dir :=
  filter (fun e => dir_offset e <> 0) ((fun i => dir_payload (ent st i)) <$> l).

Definition bucket_contents (st : Seg) (b : nat) : list Dir :=
  pays st (walk (length (ents st)) (ents st) (Some (dir_bucket b))).

(** ** Pointwise effect of the writes *)

Lemma ent_set_ent st i e j :
  ent (set_ent st i e) j = if decide (i = j /\ (i < length (ents st))%nat) then e else ent st j.
Proof.
  unfold ent, set_ent; simpl. case_decide as H.
  - destruct H as [-> H]. by apply list_lookup_total_insert_eq.
  - destruct (decide (i = j)) as [->|Hne].
    + rewrite list_insert_ge; [done|lia].
    + by apply list_lookup_total_insert_ne.
Qed.

Lemma length_set_ent st i e : length (ents (set_ent st i e)) = length (ents st).
Proof. apply length_insert. Qed.

Lemma ent_eq st st' i : ents st' = ents st -> ent st' i = ent st i.
Proof. unfold ent. by intros ->. Qed.
