(* ===== verification/DirSegmentFacts.v ===== *)
(** Facts about one segment of the cache directory: the free list and the
    bucket chains are kept by every routine of [DirSegment], and each routine
    has the effect on the bucket contents that its name promises. *)

From S2P Require Import Prelude DirEntry DirSegment.

(** ** Offsets and links *)

Lemma from_offset_of_nat i : (0 < i)%nat -> dir_from_offset (Z.of_nat i) = Some i.
Proof.
  intros. unfold dir_from_offset. destruct (Z.eqb_spec (Z.of_nat i) 0); [lia|].
  by rewrite Nat2Z.id.
Qed.

Lemma from_offset_0 : dir_from_offset 0 = None.
Proof. reflexivity. Qed.

Section lists.
Implicit Types (es : list Dir) (l : list nat).

Lemma lseg_app es o l1 l2 o' :
  lseg es o (l1 ++ l2) o' <-> exists m, lseg es o l1 m /\ lseg es m l2 o'.
Proof.
  revert o. induction l1 as [|i l1 IH]; intros o; simpl.
  - naive_solver.
  - rewrite IH. naive_solver.
Qed.

Lemma lseg_frame es es' o l o' :
  lseg es o l o' -> length es' = length es ->
  (forall i, i ∈ l -> dir_next (es' !!! i) = dir_next (es !!! i)) ->
  lseg es' o l o'.
Proof.
  revert o. induction l as [|i l IH]; intros o H Hlen Hn; simpl in *; [done|].
  destruct H as (-> & Hi & H). rewrite Hlen, Hn by set_solver.
  split_and!; [done|lia|lia|]. apply IH; [done|done|]. set_solver.
Qed.

Lemma dprev_frame es es' p l :
  dprev es p l -> (forall i, i ∈ l -> dir_prev (es' !!! i) = dir_prev (es !!! i)) -> dprev es' p l.
Proof.
  revert p. induction l as [|i l IH]; intros p H Hn; simpl in *; [done|].
  destruct H as [H1 H2]. split; [by rewrite Hn by set_solver|].
  apply IH; [done|]. set_solver.
Qed.

Lemma lseg_head es o l : lseg es o l 0 -> dir_from_offset o = head l.
Proof.
  destruct l as [|i l]; simpl; intros H; [by subst|].
  destruct H as (-> & Hi & _). apply from_offset_of_nat. lia.
Qed.

Lemma lseg_elem es o l o' i : lseg es o l o' -> i ∈ l -> (0 < i < length es)%nat.
Proof.
  revert o. induction l as [|j l IH]; intros o H Hi; [by apply elem_of_nil in Hi|].
  destruct H as (_ & Hj & H). apply elem_of_cons in Hi as [->|Hi]; eauto.
Qed.

(** Redirect the last link of a chain. *)
Lemma lseg_relink es es' h c m m' p :
  lseg es (dir_next (es !!! h)) c m -> last (h :: c) = Some p -> NoDup (h :: c) ->
  length es' = length es ->
  (forall i, i ∈ h :: c -> i <> p -> dir_next (es' !!! i) = dir_next (es !!! i)) ->
  dir_next (es' !!! p) = m' ->
  lseg es' (dir_next (es' !!! h)) c m'.
Proof.
  revert h. induction c as [|i c IH]; intros h H Hl Hnd Hlen Hn Hp.
  - simpl in *. by simplify_eq.
  - destruct H as (Hi & Hr & H). apply NoDup_cons in Hnd as [Hh Hnd].
    assert (Hhp : h <> p).
    { intros ->. apply Hh. change (last (p :: i :: c)) with (last (i :: c)) in Hl.
      by apply last_Some_elem_of in Hl. }
    simpl. rewrite Hn, Hi by set_solver. split_and!; [done|lia|lia|].
    apply IH; [done|done|done|done| |done]. set_solver.
Qed.

Lemma walk_lseg es f i c :
  lseg es (dir_next (es !!! i)) c 0 -> (length c < f)%nat -> walk f es (Some i) = i :: c.
Proof.
  revert i f. induction c as [|j c IH]; intros i f H Hf; (destruct f as [|f]; [simpl in Hf; lia|]).
  - simpl in *. unfold next_dir. rewrite H. by destruct f.
  - simpl. unfold next_dir. pose proof (lseg_head _ _ _ H) as ->.
    destruct H as (_ & _ & H). simpl. f_equal. apply IH; [done|]. simpl in Hf. lia.
Qed.
End lists.

(** ** Slots *)

Lemma elem_init_order nb i :
  i ∈ init_order nb <-> (i < nb * DIR_DEPTH)%nat /\ (i mod DIR_DEPTH <> 0)%nat.
Proof.
  unfold init_order, DIR_DEPTH, dir_bucket_row, dir_bucket.
  rewrite list_elem_of_In, in_flat_map. setoid_rewrite in_map_iff. setoid_rewrite in_seq.
  split.
  - intros (l & Hl & b & <- & Hb). unfold DIR_DEPTH. split; [nia|].
    rewrite Nat.add_comm, Nat.Div0.mod_add, Nat.mod_small; lia.
  - intros [H1 H2]. exists (i mod 4)%nat. pose proof (Nat.mod_upper_bound i 4).
    split; [lia|]. exists (i / 4)%nat. unfold DIR_DEPTH.
    pose proof (Nat.div_mod_eq i 4). split; [lia|].
    split; [lia|]. cut (i / 4 < nb)%nat; [lia|]. apply Nat.Div0.div_lt_upper_bound. lia.
Qed.

Lemma NoDup_init_order nb : NoDup (init_order nb).
Proof.
  unfold init_order. set (f := fun l => _). simpl.
  assert (Hf : forall l, NoDup (f l)).
  { intros l. apply NoDup_fmap_2_strong; [|apply NoDup_seq].
    intros x y _ _. unfold dir_bucket_row, dir_bucket, DIR_DEPTH. lia. }
  assert (Hd : forall l x, x ∈ f l -> (exists b, x = b * 4 + l)%nat).
  { intros l x Hx. apply list_elem_of_fmap in Hx as (b & -> & _). by exists b. }
  assert (Hx : forall l l' x, (l < 4)%nat -> (l' < 4)%nat -> x ∈ f l -> x ∈ f l' -> l = l').
  { intros l l' x Hl Hl' (b & ->)%Hd (b' & E)%Hd. lia. }
  rewrite app_nil_r. apply NoDup_app. split_and!; [apply Hf| |].
  - intros x H1. rewrite elem_of_app.
    intros [H2|H2]; [apply (Hx 1 2 x)%nat in H1|apply (Hx 1 3 x)%nat in H1]; try done; lia.
  - apply NoDup_app. split_and!; [apply Hf| |apply Hf].
    intros x H1 H2. apply (Hx 2 3 x)%nat in H1; try done; lia.
Qed.

Lemma dir_bucket_mod b : (dir_bucket b mod DIR_DEPTH = 0)%nat.
Proof. apply Nat.Div0.mod_mul. Qed.

Lemma dir_bucket_lt nb b : (b < nb)%nat -> (dir_bucket b < nb * DIR_DEPTH)%nat.
Proof. unfold dir_bucket, DIR_DEPTH. lia. Qed.

Lemma dir_bucket_inj b b' : dir_bucket b = dir_bucket b' -> b = b'.
Proof. unfold dir_bucket, DIR_DEPTH. lia. Qed.

Section rep.
Context {nb : nat} {st : Seg} {fl : list nat} {ch : list (list nat)}.
Hypothesis R : seg_rep nb st fl ch.

Lemma rep_NoDup : NoDup (fl ++ concat ch).
Proof. rewrite (sr_slots _ _ _ _ R). apply NoDup_init_order. Qed.

Lemma rep_slot i : i ∈ fl \/ (exists b c, ch !! b = Some c /\ i ∈ c) <->
  (i < nb * DIR_DEPTH)%nat /\ (i mod DIR_DEPTH <> 0)%nat.
Proof.
  by rewrite <- elem_init_order, <- (sr_slots _ _ _ _ R), elem_of_app, elem_of_concat_lookup.
Qed.

Lemma rep_fl_lt i : i ∈ fl -> (0 < i < length (ents st))%nat /\ (i mod DIR_DEPTH <> 0)%nat.
Proof.
  intros Hi. destruct (proj1 (rep_slot i)) as [H1 H2]; [by left|].
  rewrite (sr_len _ _ _ _ R). split; [|done]. split; [|done].
  destruct i; [by simpl in H2|lia].
Qed.

Lemma rep_ch_lt b c i : ch !! b = Some c -> i ∈ c ->
  (0 < i < length (ents st))%nat /\ (i mod DIR_DEPTH <> 0)%nat.
Proof.
  intros Hb Hi. destruct (proj1 (rep_slot i)) as [H1 H2]; [right; eauto|].
  rewrite (sr_len _ _ _ _ R). split; [|done]. split; [|done].
  destruct i; [by simpl in H2|lia].
Qed.

Lemma rep_head_lt b c : ch !! b = Some c -> (dir_bucket b < length (ents st))%nat.
Proof.
  intros Hb%lookup_lt_Some. rewrite (sr_nch _ _ _ _ R) in Hb.
  rewrite (sr_len _ _ _ _ R). by apply dir_bucket_lt.
Qed.

Lemma rep_word i : (i < length (ents st))%nat -> word16 (Z.of_nat i).
Proof.
  intros Hi. rewrite (sr_len _ _ _ _ R) in Hi. pose proof (sr_max _ _ _ _ R).
  unfold word16. lia.
Qed.

Lemma rep_fl_ch b c i : i ∈ fl -> ch !! b = Some c -> i ∈ c -> False.
Proof.
  intros Hf Hb Hi. pose proof rep_NoDup as Hnd. apply NoDup_app in Hnd as (_ & Hd & _).
  apply (Hd i Hf). apply elem_of_concat_lookup. eauto.
Qed.

Lemma rep_ch_NoDup b c : ch !! b = Some c -> NoDup (dir_bucket b :: c).
Proof.
  intros Hb. apply NoDup_cons. split.
  - intros Hi. destruct (rep_ch_lt _ _ _ Hb Hi) as [_ H]. by rewrite dir_bucket_mod in H.
  - pose proof rep_NoDup as Hnd. apply NoDup_app in Hnd as (_ & _ & Hnd).
    apply take_drop_middle in Hb. rewrite <- Hb, concat_app in Hnd. simpl in Hnd.
    apply NoDup_app in Hnd as (_ & _ & Hnd). by apply NoDup_app in Hnd as (? & _ & _).
Qed.

(** Chains of distinct buckets are disjoint. *)
Lemma rep_ch_disj b b' c c' i :
  ch !! b = Some c -> ch !! b' = Some c' -> i ∈ dir_bucket b :: c -> i ∈ dir_bucket b' :: c' -> b = b'.
Proof.
  intros Hb Hb' Hi Hi'.
  apply elem_of_cons in Hi as [->|Hi]; apply elem_of_cons in Hi' as [E|Hi'].
  - by apply dir_bucket_inj.
  - destruct (rep_ch_lt _ _ _ Hb' Hi') as [_ H]. by rewrite dir_bucket_mod in H.
  - subst i. destruct (rep_ch_lt _ _ _ Hb Hi) as [_ H]. by rewrite dir_bucket_mod in H.
  - pose proof rep_NoDup as Hnd. apply NoDup_app in Hnd as (_ & _ & Hnd).
    clear R. revert b b' Hb Hb'. induction ch as [|c0 ch' IH]; intros [|b] [|b'] Hb Hb'; simplify_eq/=; try done.
    + exfalso. apply NoDup_app in Hnd as (_ & Hd & _). apply (Hd i Hi).
      apply elem_of_concat_lookup. eauto.
    + exfalso. apply NoDup_app in Hnd as (_ & Hd & _). apply (Hd i Hi').
      apply elem_of_concat_lookup. eauto.
    + apply NoDup_app in Hnd as (_ & _ & Hnd). f_equal. by eapply IH.
Qed.

Lemma rep_walk b c : ch !! b = Some c ->
  walk (length (ents st)) (ents st) (Some (dir_bucket b)) = dir_bucket b :: c.
Proof.
  intros Hb. apply walk_lseg; [by apply (sr_chain _ _ _ _ R)|].
  pose proof (rep_ch_NoDup _ _ Hb) as Hnd.
  assert (Hin : (dir_bucket b :: c) ⊆+ seq 0 (length (ents st))).
  { apply NoDup_submseteq; [done|]. intros x Hx. apply elem_of_seq.
    apply elem_of_cons in Hx as [->|Hx]; [pose proof (rep_head_lt _ _ Hb); lia|].
    destruct (rep_ch_lt _ _ _ Hb Hx). lia. }
  apply submseteq_length in Hin. simpl in Hin. rewrite length_seq in Hin. lia.
Qed.

Lemma rep_contents b c : ch !! b = Some c -> bucket_contents st b = pays st (dir_bucket b :: c).
Proof. intros Hb. unfold bucket_contents. by rewrite (rep_walk _ _ Hb). Qed.

(** What a representation depends on. *)
Lemma rep_ext st' :
  length (ents st') = length (ents st) -> freelist st' = freelist st ->
  (forall j, dir_wf (ent st' j)) ->
  (forall j, dir_next (ent st' j) = dir_next (ent st j)) ->
  (forall j, j ∈ fl -> dir_prev (ent st' j) = dir_prev (ent st j)) ->
  (forall j, j ∈ fl -> dir_offset (ent st' j) = 0) ->
  seg_rep nb st' fl ch.
Proof.
  intros Hlen Hfree Hwf Hnext Hprev Hoff. destruct R. constructor; try assumption.
  - by rewrite Hlen.
  - rewrite Hfree. apply (lseg_frame (ents st)); [done|done|intros j _; apply Hnext].
  - apply (dprev_frame (ents st)); [done|]. intros j Hj. by apply Hprev.
  - intros b c Hb. rewrite Hnext. apply (lseg_frame (ents st)); [by auto|done|].
    intros j _. apply Hnext.
Qed.
End rep.

(** ** Fields left alone by the link writes *)

Lemma offset_set_next e o : dir_offset (dir_set_next e o) = dir_offset e.
Proof. reflexivity. Qed.
Lemma offset_set_prev e o : dir_offset (dir_set_prev e o) = dir_offset e.
Proof. reflexivity. Qed.
Lemma next_set_prev e o : dir_next (dir_set_prev e o) = dir_next e.
Proof. reflexivity. Qed.
Lemma prev_set_next e o : dir_prev (dir_set_next e o) = dir_prev e.
Proof. reflexivity. Qed.
Lemma payload_set_next e o : dir_payload (dir_set_next e o) = dir_payload e.
Proof. reflexivity. Qed.
Lemma prev_set_prev e o : word16 o -> dir_prev (dir_set_prev e o) = o.
Proof. intros. by apply wrapu_id. Qed.

Lemma lseg_word es o l : lseg es o l 0 -> Z.of_nat (length es) <= 2 ^ 16 -> word16 o.
Proof.
  intros H Hl. unfold word16. destruct l; simpl in H; [subst; lia|].
  destruct H as (-> & Hi & _). lia.
Qed.

Lemma rep_freelist_word nb st fl ch : seg_rep nb st fl ch -> word16 (freelist st).
Proof.
  intros R. apply (lseg_word _ _ _ (sr_fl _ _ _ _ R)).
  rewrite (sr_len _ _ _ _ R). apply (sr_max _ _ _ _ R).
Qed.

(** Pushing an entry in front of a doubly linked list. *)
Lemma dprev_push es es' p0 i l :
  dprev es p0 l -> dir_prev (es' !!! i) = 0 -> NoDup l ->
  (forall j, head l = Some j -> dir_prev (es' !!! j) = Z.of_nat i) ->
  (forall j, j ∈ l -> head l <> Some j -> dir_prev (es' !!! j) = dir_prev (es !!! j)) ->
  dprev es' 0 (i :: l).
Proof.
  intros H Hi Hnd Hh Ht. simpl. split; [done|].
  destruct l as [|j l]; simpl in *; [done|]. destruct H as [_ H].
  split; [by apply Hh|]. apply NoDup_cons in Hnd as [Hj _].
  apply (dprev_frame es); [done|]. intros k Hk. apply Ht; [set_solver|].
  intros [= ->]. done.
Qed.

(** Reads through the writes of the header fields. *)
Lemma ent_set_freelist st o i : ent (set_freelist st o) i = ent st i.
Proof. reflexivity. Qed.
Lemma ent_set_dirty st i : ent (set_dirty st) i = ent st i.
Proof. reflexivity. Qed.
Lemma ent_inc_used st i : ent (CACHE_INC_DIR_USED st) i = ent st i.
Proof. reflexivity. Qed.
Lemma ent_dec_used st i : ent (CACHE_DEC_DIR_USED st) i = ent st i.
Proof. reflexivity. Qed.
Lemma ents_set_dirty st : ents (set_dirty st) = ents st.
Proof. reflexivity. Qed.
Lemma ents_set_freelist st o : ents (set_freelist st o) = ents st.
Proof. reflexivity. Qed.

Ltac ent_simpl :=
  repeat (rewrite ent_set_ent || rewrite ent_set_freelist || rewrite ent_set_dirty ||
          rewrite ent_inc_used || rewrite ent_dec_used || rewrite length_set_ent ||
          rewrite ents_set_dirty || rewrite ents_set_freelist).

Section delete.
Context {nb : nat} {st : Seg} {fl : list nat} {ch : list (list nat)}.
Context {b : nat} {c1 c2 : list nat} {i p : nat}.
Hypothesis R : seg_rep nb st fl ch.
Hypothesis Hb : ch !! b = Some (c1 ++ i :: c2).
Hypothesis Hp : last (dir_bucket b :: c1) = Some p.

Lemma del_p_in : p ∈ dir_bucket b :: c1.
Proof. by apply last_Some_elem_of. Qed.

Lemma del_i_lt : (0 < i < length (ents st))%nat.
Proof. apply (rep_ch_lt R b _ i Hb). set_solver. Qed.

Lemma del_NoDup : NoDup (dir_bucket b :: c1 ++ i :: c2).
Proof. by apply (rep_ch_NoDup R). Qed.

Lemma del_i_notin : i ∉ dir_bucket b :: c1 /\ i ∉ c2 /\ i ∉ fl.
Proof.
  pose proof del_NoDup as Hnd. rewrite app_comm_cons in Hnd.
  apply NoDup_app in Hnd as (_ & H1 & H2). apply NoDup_cons in H2 as [H2 _].
  split_and!; [|done|].
  - intros Hi. apply (H1 i Hi). set_solver.
  - intros Hf. apply (rep_fl_ch R b _ i Hf Hb). set_solver.
Qed.

Lemma del_p_lt : (p < length (ents st))%nat.
Proof.
  pose proof del_p_in as H. apply elem_of_cons in H as [->|H].
  - by apply (rep_head_lt R b _ Hb).
  - apply (rep_ch_lt R b _ p Hb). set_solver.
Qed.

Lemma chain_fl_disj b' c j : ch !! b' = Some c -> j ∈ dir_bucket b' :: c -> j ∉ fl.
Proof.
  intros Hb' Hj Hf. apply elem_of_cons in Hj as [->|Hj].
  - destruct (rep_fl_lt R _ Hf) as [_ H]. by rewrite dir_bucket_mod in H.
  - by apply (rep_fl_ch R b' c j).
Qed.

Lemma delete_linked_ent j :
  ent (dir_delete_linked i p st).1 j =
    if decide (j = i) then dir_set_next dir_clear (freelist st)
    else if decide (j = p) then dir_set_next (ent st p) (dir_next (ent st i))
    else if decide (head fl = Some j) then dir_set_prev (ent st j) (Z.of_nat i)
    else ent st j.
Proof.
  destruct del_i_notin as (Hi1 & _ & Hi3). pose proof del_p_in as Hpi.
  assert (Hip : i <> p) by (intros ->; done).
  pose proof del_i_lt. pose proof del_p_lt.
  assert (Hf : forall f, head fl = Some f -> f <> i /\ f <> p /\ (f < length (ents st))%nat).
  { intros f Hf. apply head_Some_elem_of in Hf. split_and!; [set_solver| |by apply (rep_fl_lt R)].
    intros ->. apply (chain_fl_disj b _ p Hb); [set_solver|done]. }
  unfold dir_delete_linked. rewrite (lseg_head _ _ _ (sr_fl _ _ _ _ R)).
  destruct (head fl) as [f|]; [destruct (Hf f eq_refl) as (? & ? & ?)|]; simpl;
    ent_simpl; repeat case_decide; try done; naive_solver lia.
Qed.

Lemma delete_linked_len : length (ents (dir_delete_linked i p st).1) = length (ents st).
Proof. unfold dir_delete_linked. destruct (dir_from_offset _); simpl; by rewrite !length_insert. Qed.

Lemma delete_linked_freelist : freelist (dir_delete_linked i p st).1 = Z.of_nat i.
Proof. simpl. apply wrapu_id. apply (rep_word R). apply del_i_lt. Qed.

Lemma delete_linked_next : (dir_delete_linked i p st).2 = head c2.
Proof.
  simpl. pose proof (sr_chain _ _ _ _ R _ _ Hb) as H. apply lseg_app in H as (m & _ & H).
  destruct H as (_ & _ & H). by apply lseg_head in H.
Qed.

Lemma delete_linked_used : dir_used (dir_delete_linked i p st).1 = dir_used st.
Proof. unfold dir_delete_linked. by destruct (dir_from_offset _). Qed.

(** Deleting behind a predecessor unlinks the entry, puts it in front of the
    free list and keeps the representation. *)
Lemma delete_linked_rep :
  seg_rep nb (dir_delete_linked i p st).1 (i :: fl) (<[b := c1 ++ c2]> ch).
Proof.
  pose proof delete_linked_ent as Hent. pose proof delete_linked_freelist as Hfree.
  pose proof delete_linked_len as Hlen.
  set (st' := (dir_delete_linked i p st).1) in *. clearbody st'.
  destruct del_i_notin as (Hi1 & Hi2 & Hi3). pose proof del_p_in as Hpi.
  assert (Hip : p <> i) by (intros ->; done).
  pose proof (chain_fl_disj b _ p Hb ltac:(set_solver)) as Hpf.
  pose proof (sr_chain _ _ _ _ R _ _ Hb) as Hc. apply lseg_app in Hc as (m & Hc1 & Hc2).
  destruct Hc2 as (-> & Hir & Hc2).
  assert (Hw : word16 (dir_next (ent st i))) by (destruct (sr_wf _ _ _ _ R i); naive_solver).
  assert (Hnext : forall j, j <> i -> j <> p -> dir_next (ent st' j) = dir_next (ent st j)).
  { intros j ? ?. rewrite Hent. repeat case_decide; done. }
  assert (Hfl : NoDup fl) by (pose proof (rep_NoDup R) as H; by apply NoDup_app in H as (? & _ & _)).
  constructor.
  - rewrite Hlen. apply (sr_len _ _ _ _ R).
  - apply (sr_max _ _ _ _ R).
  - intros j. rewrite Hent. pose proof (sr_wf _ _ _ _ R).
    repeat case_decide; eauto with ts.
  - rewrite Hfree. simpl. rewrite Hlen. split_and!; [done|lia|lia|].
    change (ents st' !!! i) with (ent st' i). rewrite Hent.
    rewrite decide_True by done. rewrite dir_next_set_next by (by apply (rep_freelist_word _ _ _ _ R)).
    apply (lseg_frame (ents st)); [apply (sr_fl _ _ _ _ R)|done|].
    intros j Hj. apply Hnext; [by intros ->|by intros ->].
  - apply (dprev_push (ents st) _ 0); [apply (sr_prev _ _ _ _ R)| |done| |].
    + change (ents st' !!! i) with (ent st' i). rewrite Hent.
      by rewrite decide_True by done.
    + intros j Hj. change (ents st' !!! j) with (ent st' j). rewrite Hent.
      apply head_Some_elem_of in Hj as Hj'.
      rewrite !decide_False by (by intros ->). rewrite decide_True by done.
      apply prev_set_prev, (rep_word R), del_i_lt.
    + intros j Hj Hh. change (ents st' !!! j) with (ent st' j). 
      rewrite Hent, !decide_False; [done|done|by intros ->|by intros ->].
  - intros j Hj. rewrite Hent.
    apply elem_of_cons in Hj as [->|Hj]; [by rewrite decide_True|].
    repeat case_decide; subst; try done. all: by apply (sr_fempty _ _ _ _ R).
  - rewrite length_insert. apply (sr_nch _ _ _ _ R).
  - intros b' c Hb'. destruct (decide (b' = b)) as [->|Hne].
    + rewrite list_lookup_insert_eq in Hb' by (by eapply lookup_lt_Some). simplify_eq.
      apply lseg_app. exists (dir_next (ent st i)). split.
      * apply (lseg_relink (ents st) _ _ _ (Z.of_nat i) _ p); [done|done| |done| |].
        -- pose proof del_NoDup as H. rewrite app_comm_cons in H. by apply NoDup_app in H as (? & _).
        -- intros j Hj Hjp. apply Hnext; [by intros ->|done].
        -- change (ents st' !!! p) with (ent st' p). rewrite Hent.
           rewrite decide_False by done. rewrite decide_True by done. by apply dir_next_set_next.
      * apply (lseg_frame (ents st)); [done|done|]. intros j Hj. apply Hnext; [by intros ->|].
        intros ->. pose proof del_NoDup as H. rewrite app_comm_cons in H.
        apply NoDup_app in H as (_ & H & _). apply (H p); [done|set_solver].
    + rewrite list_lookup_insert_ne in Hb' by done.
      assert (Hd : forall j, j ∈ dir_bucket b' :: c -> j <> i /\ j <> p).
      { intros j Hj. split; intros ->; apply Hne.
        - apply (rep_ch_disj R b' b c _ i Hb' Hb); set_solver.
        - apply (rep_ch_disj R b' b c _ p Hb' Hb); set_solver. }
      rewrite Hnext by (apply Hd; set_solver).
      apply (lseg_frame (ents st)); [by apply (sr_chain _ _ _ _ R)|done|].
      intros j Hj. apply Hnext; apply Hd; set_solver.
  - rewrite <- (sr_slots _ _ _ _ R). simpl.
    rewrite (concat_insert_perm ch b (c1 ++ i :: c2) (c1 ++ c2) [i] Hb); [|by rewrite <- Permutation_middle].
    simpl. by rewrite Permutation_middle.
Qed.
End delete.

Lemma pays_app st l1 l2 : pays st (l1 ++ l2) = pays st l1 ++ pays st l2.
Proof. unfold pays. by rewrite fmap_app, filter_app. Qed.

Lemma pays_ext st st' l l' :
  ((fun i => dir_payload (ent st' i)) <$> l') = ((fun i => dir_payload (ent st i)) <$> l) ->
  pays st' l' = pays st l.
Proof. unfold pays. by intros ->. Qed.

Lemma payload_map_ext st st' (l : list nat) :
  (forall j, j ∈ l -> dir_payload (ent st' j) = dir_payload (ent st j)) ->
  ((fun i => dir_payload (ent st' i)) <$> l) = ((fun i => dir_payload (ent st i)) <$> l).
Proof. intros H. apply list_fmap_ext. intros k x Hx. apply H. by eapply list_elem_of_lookup_2. Qed.

Lemma delete_entry_head_ent nb st fl ch b n c2 j :
  seg_rep nb st fl ch -> ch !! b = Some (n :: c2) ->
  ent (dir_delete_entry (dir_bucket b) None st).1 j =
    if decide (j = dir_bucket b) then dir_set_next (ent st n) (dir_next (ent st n))
    else ent (dir_delete_linked n (dir_bucket b) st).1 j.
Proof.
  intros R Hb. rewrite (delete_linked_ent (c1 := []) R Hb eq_refl).
  pose proof (rep_ch_NoDup R _ _ Hb) as Hnd. apply NoDup_cons in Hnd as [Hnd _].
  assert (Hn : n <> dir_bucket b) by set_solver.
  pose proof (rep_head_lt R _ _ Hb). destruct (rep_ch_lt R _ _ n Hb) as [? _]; [set_solver|].
  assert (Hf : forall f, head fl = Some f -> f <> n /\ f <> dir_bucket b /\ (f < length (ents st))%nat).
  { intros f Hf. apply head_Some_elem_of in Hf. split_and!; [| |by apply (rep_fl_lt R)].
    - intros ->. apply (rep_fl_ch R b _ n Hf Hb). set_solver.
    - intros ->. destruct (rep_fl_lt R _ Hf) as [_ E]. by rewrite dir_bucket_mod in E. }
  unfold dir_delete_entry, next_dir. simpl.
  change (ents st !!! dir_bucket b) with (ent st (dir_bucket b)).
  rewrite (lseg_head _ _ _ (sr_chain _ _ _ _ R _ _ Hb)). simpl.
  unfold dir_delete_linked. simpl. rewrite (lseg_head _ _ _ (sr_fl _ _ _ _ R)).
  unfold dir_assign.
  destruct (head fl) as [f|]; [destruct (Hf f eq_refl) as (? & ? & ?)|]; simpl;
    ent_simpl; repeat case_decide; try done; naive_solver lia.
Qed.

(** The payloads outside bucket [b]'s chain are kept. *)
Definition frame_other (ch : list (list nat)) (b : nat) (st st' : Seg) : Prop :=
  forall b' c j, b' <> b -> ch !! b' = Some c -> j ∈ dir_bucket b' :: c ->
    dir_payload (ent st' j) = dir_payload (ent st j).

Lemma delete_linked_payload {nb st fl ch b c1 c2 i p} :
  seg_rep nb st fl ch -> ch !! b = Some (c1 ++ i :: c2) -> last (dir_bucket b :: c1) = Some p ->
  forall j, j <> i -> j ∉ fl ->
    dir_payload (ent (dir_delete_linked i p st).1 j) = dir_payload (ent st j).
Proof.
  intros R Hb Hp j Hji Hf. rewrite (delete_linked_ent R Hb Hp). rewrite decide_False by done.
  case_decide; [by subst|]. case_decide as Hh; [|done].
  apply head_Some_elem_of in Hh. done.
Qed.

Lemma delete_linked_frame {nb st fl ch b c1 c2 i p} :
  seg_rep nb st fl ch -> ch !! b = Some (c1 ++ i :: c2) -> last (dir_bucket b :: c1) = Some p ->
  frame_other ch b st (dir_delete_linked i p st).1.
Proof.
  intros R Hb Hp b' c j Hne Hb' Hj. apply (delete_linked_payload R Hb Hp).
  - intros ->. apply Hne. apply (rep_ch_disj R b' b c _ i Hb' Hb); [done|set_solver].
  - by apply (chain_fl_disj R b' c).
Qed.

(** The outcome of deleting the entry of bucket [b]'s chain that comes after
    the entries [L1] and before the entries [L2]: either the bucket becomes
    empty, or the walk goes on at the entry that now holds the payload of the
    first of [L2]. *)
Definition deleted (nb : nat) (fl : list nat) (ch : list (list nat)) (b : nat) (st : Seg)
  (L1 L2 : list nat) (st' : Seg) (e' : option nat) : Prop :=
  exists fl' c',
    seg_rep nb st' fl' (<[b := c']> ch) /\ fl ⊆ fl' /\
    frame_other ch b st st' /\
    (forall j, j ∈ L1 -> dir_payload (ent st' j) = dir_payload (ent st j)) /\
    ((L1 = [] /\ L2 = [] /\ c' = [] /\ e' = None /\ ent st' (dir_bucket b) = dir_clear) \/
     (exists Lr, dir_bucket b :: c' = L1 ++ Lr /\ e' = head Lr /\ length Lr = length L2 /\
        ((fun i => dir_payload (ent st' i)) <$> Lr) = ((fun i => dir_payload (ent st i)) <$> L2))).

(** Deleting a bucket's only entry. *)
Lemma delete_head_alone nb st fl ch b :
  seg_rep nb st fl ch -> ch !! b = Some [] ->
  let r := dir_delete_entry (dir_bucket b) None st in deleted nb fl ch b st [] [] r.1 r.2.
Proof.
  intros R Hb. pose proof (sr_chain _ _ _ _ R _ _ Hb) as Hn. simpl in Hn. simpl.
  unfold next_dir. change (ents st !!! dir_bucket b) with (ent st (dir_bucket b)). rewrite Hn.
  exists fl, []. simpl. pose proof (rep_head_lt R _ _ Hb) as Hlt.
  set (st' := set_ent (set_dirty st) (dir_bucket b) dir_clear).
  assert (Hent : forall j, j <> dir_bucket b -> ent st' j = ent st j).
  { intros j Hj. unfold st'. rewrite ent_set_ent. case_decide; naive_solver. }
  assert (Hh : ent st' (dir_bucket b) = dir_clear).
  { unfold st'. rewrite ent_set_ent. by rewrite decide_True by (simpl; naive_solver). }
  assert (Hfb : dir_bucket b ∉ fl) by (apply (chain_fl_disj R b []); [done|set_solver]).
  split_and!; [|done| |set_solver|by left].
  - rewrite list_insert_id by done. apply (rep_ext R); [by simpl; rewrite length_insert|done| | | |].
    + intros j. destruct (decide (j = dir_bucket b)) as [->|Hj]; [rewrite Hh; auto with ts|].
      rewrite Hent by done. apply (sr_wf _ _ _ _ R).
    + intros j. destruct (decide (j = dir_bucket b)) as [->|Hj]; [by rewrite Hh, Hn|].
      by rewrite Hent by done.
    + intros j Hj. by rewrite Hent by (by intros ->).
    + intros j Hj. rewrite Hent by (by intros ->). by apply (sr_fempty _ _ _ _ R).
  - intros b' c j Hne Hb' Hj. rewrite Hent; [done|]. intros ->. apply Hne.
    apply (rep_ch_disj R b' b c _ _ Hb' Hb Hj). set_solver.
Qed.

(** Deleting row 0 of a bucket with an overflow chain: its first overflow entry
    moves into row 0. *)
Lemma delete_head_next nb st fl ch b n c2 :
  seg_rep nb st fl ch -> ch !! b = Some (n :: c2) ->
  let r := dir_delete_entry (dir_bucket b) None st in deleted nb fl ch b st [] (n :: c2) r.1 r.2.
Proof.
  intros R Hb r. pose proof (fun j => delete_entry_head_ent _ _ _ _ _ _ _ j R Hb) as Hent.
  fold r in Hent.
  pose proof (delete_linked_rep (c1 := []) R Hb eq_refl) as R1. rewrite app_nil_l in R1.
  pose proof (rep_ch_NoDup R _ _ Hb) as Hnd. apply NoDup_cons in Hnd as [Hh Hnd].
  assert (E : freelist r.1 = freelist (dir_delete_linked n (dir_bucket b) st).1 /\ r.2 = Some (dir_bucket b)
    /\ length (ents r.1) = length (ents (dir_delete_linked n (dir_bucket b) st).1)).
  { unfold r, dir_delete_entry, next_dir. simpl.
    change (ents st !!! dir_bucket b) with (ent st (dir_bucket b)).
    rewrite (lseg_head _ _ _ (sr_chain _ _ _ _ R _ _ Hb)). simpl.
    unfold dir_delete_linked. simpl. destruct (dir_from_offset _); simpl; by rewrite !length_insert. }
  destruct E as (Ef & Ee & El).
  assert (Hn : n <> dir_bucket b) by set_solver.
  assert (Hfb : dir_bucket b ∉ fl) by (apply (chain_fl_disj R b _ _ Hb); set_solver).
  assert (Hw : forall j, dir_wf (ent st j)) by apply (sr_wf _ _ _ _ R).
  assert (Hh1 : dir_next (ent (dir_delete_linked n (dir_bucket b) st).1 (dir_bucket b)) = dir_next (ent st n)).
  { rewrite (delete_linked_ent (c1 := []) R Hb eq_refl). rewrite decide_False by done.
    rewrite decide_True by done. apply dir_next_set_next. destruct (Hw n); naive_solver. }
  exists (n :: fl), c2. split_and!; [|set_solver| |set_solver|right].
  - apply (rep_ext R1); [done|done| | | |].
    + intros j. rewrite Hent. case_decide; [eauto with ts|apply (sr_wf _ _ _ _ R1)].
    + intros j. rewrite Hent. case_decide; [subst|done]. rewrite Hh1. apply dir_next_set_next.
      destruct (Hw n); naive_solver.
    + intros j Hj. rewrite Hent, decide_False; [done|]. set_solver.
    + intros j Hj. rewrite Hent, decide_False by set_solver. by apply (sr_fempty _ _ _ _ R1).
  - intros b' c j Hne Hb' Hj. rewrite Hent, decide_False.
    + by apply (delete_linked_frame (c1 := []) R Hb eq_refl b' c).
    + intros ->. apply Hne. apply (rep_ch_disj R b' b c _ _ Hb' Hb Hj). set_solver.
  - exists (dir_bucket b :: c2). split_and!; [done|done|done|]. simpl. f_equal.
    + rewrite Hent, decide_True by done. done.
    + apply payload_map_ext. intros j Hj. rewrite Hent, decide_False by set_solver.
      apply (delete_linked_payload (c1 := []) R Hb eq_refl);
        [intros ->; by apply NoDup_cons in Hnd as [? _]|].
      apply (chain_fl_disj R b _ _ Hb). set_solver.
Qed.

Lemma delete_entry_deleted nb st fl ch b c L1 i L2 :
  seg_rep nb st fl ch -> ch !! b = Some c -> dir_bucket b :: c = L1 ++ i :: L2 ->
  let r := dir_delete_entry i (last L1) st in deleted nb fl ch b st L1 L2 r.1 r.2.
Proof.
  intros R Hb HL. destruct L1 as [|h c1]; simplify_eq/=.
  - destruct L2 as [|n c2]; [by apply delete_head_alone|by apply delete_head_next].
  - pose proof (rep_ch_NoDup R _ _ Hb) as Hnd.
    destruct (last (dir_bucket b :: c1)) as [p|] eqn:Hp; [|by apply last_None in Hp].
    pose proof (delete_linked_next (p := p) R Hb) as Hnext.
    change (dir_delete_entry i (Some p) st) with (dir_delete_linked i p st).
    exists (i :: fl), (c1 ++ L2). split_and!.
    + by apply (delete_linked_rep R Hb Hp).
    + set_solver.
    + by apply (delete_linked_frame R Hb Hp).
    + intros j Hj. apply (delete_linked_payload R Hb Hp).
      * intros ->. rewrite app_comm_cons in Hnd. apply NoDup_app in Hnd as (_ & Hd & _).
        apply (Hd i Hj). set_solver.
      * apply (chain_fl_disj R b _ _ Hb). set_solver.
    + right. exists L2. split_and!; [done|apply Hnext|done|].
      apply payload_map_ext. intros j Hj. apply (delete_linked_payload R Hb Hp).
      * intros ->. rewrite app_comm_cons in Hnd. apply NoDup_app in Hnd as (_ & _ & Hnd).
        by apply NoDup_cons in Hnd as [? _].
      * apply (chain_fl_disj R b _ _ Hb). set_solver.
Qed.

Lemma delete_entry_used i p st : dir_used (dir_delete_entry i p st).1 = dir_used st.
Proof.
  unfold dir_delete_entry. destruct p as [p|]; [apply delete_linked_used|].
  destruct (next_dir _ _); cbn [fst]; [|done]. by rewrite delete_linked_used.
Qed.

Lemma delete_entry_length i p st : length (ents (dir_delete_entry i p st).1) = length (ents st).
Proof.
  unfold dir_delete_entry. destruct p as [p|]; [apply delete_linked_len|].
  destruct (next_dir _ _); cbn [fst]; [rewrite delete_linked_len|]; by rewrite length_set_ent.
Qed.

(** ** Cleaning a bucket *)

Lemma frame_other_refl ch b st : frame_other ch b st st.
Proof. by intros ????. Qed.

Lemma frame_other_trans ch b c' st1 st2 st3 :
  frame_other ch b st1 st2 -> frame_other (<[b := c']> ch) b st2 st3 -> frame_other ch b st1 st3.
Proof.
  intros H1 H2 b' c j Hne Hb' Hj. rewrite (H2 b' c j Hne); [by apply (H1 b' c)| |done].
  by rewrite list_lookup_insert_ne.
Qed.

Lemma payload_offset e : dir_offset (dir_payload e) = dir_offset e.
Proof. reflexivity. Qed.

Lemma payload_ext_offset st st' j :
  dir_payload (ent st' j) = dir_payload (ent st j) -> dir_offset (ent st' j) = dir_offset (ent st j).
Proof. intros H. by rewrite <- payload_offset, H. Qed.

Lemma dir_used_eq_stats st : ents (CACHE_DEC_DIR_USED st) = ents st.
Proof. reflexivity. Qed.

Lemma rep_stats nb st st' fl ch :
  seg_rep nb st fl ch -> ents st' = ents st -> freelist st' = freelist st -> seg_rep nb st' fl ch.
Proof.
  intros R He Hf. assert (Hent : forall j, ent st' j = ent st j) by (intros; by apply ent_eq).
  apply (rep_ext R); [by rewrite He|done|..]; intros j; rewrite Hent; intros; try done.
  - apply (sr_wf _ _ _ _ R).
  - by apply (sr_fempty _ _ _ _ R).
Qed.

Section clean.
Variable valid : Dir -> bool.
Hypothesis valid_payload : forall e, valid (dir_payload e) = valid e.
Variable nb : nat.

(** The entries a cleaning keeps. *)
Notation live l := (filter (fun e => valid e = true) l).

Lemma pays_cons st i l :
  pays st (i :: l) = (if decide (dir_offset (ent st i) <> 0) then [dir_payload (ent st i)] else []) ++ pays st l.
Proof.
  unfold pays. simpl. rewrite filter_cons, payload_offset. by case_decide.
Qed.

Lemma live_cons_dead st i l :
  valid (ent st i) = false \/ dir_offset (ent st i) = 0 -> live (pays st (i :: l)) = live (pays st l).
Proof.
  intros H. rewrite pays_cons, filter_app. case_decide as Ho; [|done].
  destruct H as [H|H]; [|done]. rewrite filter_cons, valid_payload, H. by rewrite decide_False.
Qed.

Lemma live_cons_live st i l :
  valid (ent st i) = true -> dir_offset (ent st i) <> 0 ->
  live (pays st (i :: l)) = dir_payload (ent st i) :: live (pays st l).
Proof.
  intros Hv Ho. rewrite pays_cons, filter_app, decide_True by done.
  rewrite filter_cons, valid_payload, Hv, decide_True by done. done.
Qed.

(** The result of cleaning the rest [L2] of the chain behind [L1]. *)
Definition cleaned (fl : list nat) (ch : list (list nat)) (b : nat) (st : Seg)
  (L1 L2 : list nat) (st' : Seg) : Prop :=
  exists fl' c',
    seg_rep nb st' fl' (<[b := c']> ch) /\ fl ⊆ fl' /\ frame_other ch b st st' /\
    length (ents st') = length (ents st) /\
    pays st' (dir_bucket b :: c') = pays st L1 ++ live (pays st L2) /\
    bucket_clean st' b c' /\
    dir_used st' = dir_used st - (Z.of_nat (length (pays st L2)) - Z.of_nat (length (live (pays st L2)))).

(** Nothing is left to clean. *)
Lemma cleaned_nil st fl ch b c :
  seg_rep nb st fl ch -> ch !! b = Some c ->
  (forall j, j ∈ dir_bucket b :: c -> dir_offset (ent st j) <> 0) ->
  cleaned fl ch b st (dir_bucket b :: c) [] st.
Proof.
  intros R Hb HL. exists fl, c. rewrite list_insert_id by done.
  split_and!; [done|done|apply frame_other_refl|done| | |].
  - by rewrite app_nil_r.
  - split; [intros i Hi; apply HL; set_solver|].
    intros H0. exfalso. apply (HL (dir_bucket b)); [set_solver|done].
  - simpl. lia.
Qed.

Lemma pays_length_cons st i l :
  Z.of_nat (length (pays st (i :: l))) =
    (if dir_offset (ent st i) =? 0 then 0 else 1) + Z.of_nat (length (pays st l)).
Proof.
  rewrite pays_cons, length_app. destruct (Z.eqb_spec (dir_offset (ent st i)) 0).
  - rewrite decide_False by naive_solver. simpl. lia.
  - rewrite decide_True by done. simpl. lia.
Qed.

(** Dropping a dead entry first changes nothing else. *)
Lemma cleaned_dead fl ch b st L1 i L2 fl2 c2 st2 Lr st' :
  valid (ent st i) = false \/ dir_offset (ent st i) = 0 ->
  fl ⊆ fl2 -> frame_other ch b st st2 -> length (ents st2) = length (ents st) ->
  (forall j, j ∈ L1 -> dir_payload (ent st2 j) = dir_payload (ent st j)) ->
  pays st2 Lr = pays st L2 ->
  dir_used st2 = dir_used st - (if dir_offset (ent st i) =? 0 then 0 else 1) ->
  cleaned fl2 (<[b := c2]> ch) b st2 L1 Lr st' -> cleaned fl ch b st L1 (i :: L2) st'.
Proof.
  intros Hdead Hfl Hfr Hlen Hpre Hp Hu (fl' & c' & R & Hfl' & Hfr' & Hlen' & Hpays & Hc & Hu').
  exists fl', c'. rewrite list_insert_insert_eq in R.
  split_and!; [done|set_solver|by eapply frame_other_trans|lia| |done|].
  - rewrite Hpays, Hp, live_cons_dead by done. f_equal. by apply pays_ext, payload_map_ext.
  - rewrite Hu', Hu, Hp, live_cons_dead, pays_length_cons by done. lia.
Qed.

Lemma clean_bucket_go_spec fuel st fl ch b c L1 i L2 :
  seg_rep nb st fl ch -> ch !! b = Some c -> dir_bucket b :: c = L1 ++ i :: L2 ->
  (length L2 < fuel)%nat -> (forall j, j ∈ L1 -> dir_offset (ent st j) <> 0) ->
  exists st', clean_bucket_go valid fuel i (last L1) st = Some st' /\
    cleaned fl ch b st L1 (i :: L2) st'.
Proof.
  revert st fl ch c L1 i L2. induction fuel as [|fuel IH]; [lia|].
  intros st fl ch c L1 i L2 R Hb HL Hfuel HL1. simpl.
  destruct (negb (valid (ent st i)) || (dir_offset (ent st i) =? 0)) eqn:Edead.
  - set (st1 := if dir_offset (ent st i) =? 0 then st else CACHE_DEC_DIR_USED st).
    assert (R1 : seg_rep nb st1 fl ch) by (unfold st1; destruct (_ =? 0); [done|by apply (rep_stats _ st)]).
    assert (Hs : (forall j, ent st1 j = ent st j) /\ length (ents st1) = length (ents st) /\
      dir_used st1 = dir_used st - (if dir_offset (ent st i) =? 0 then 0 else 1)).
    { unfold st1. destruct (_ =? 0); simpl; split_and!; try done; lia. }
    clearbody st1. destruct Hs as (He1 & Hl1 & Hu1).
    pose proof (delete_entry_deleted _ _ _ _ _ _ _ _ _ R1 Hb HL) as D. simpl in D.
    pose proof (delete_entry_used i (last L1) st1) as Hu.
    pose proof (delete_entry_length i (last L1) st1) as Hlen.
    destruct (dir_delete_entry i (last L1) st1) as [st2 e'] eqn:Edel. simpl in D, Hu, Hlen.
    destruct D as (fl' & c' & R2 & Hfl & Hfr & Hpre & D).
    assert (Hdead : valid (ent st i) = false \/ dir_offset (ent st i) = 0).
    { destruct (valid (ent st i)); [right|by left]. simpl in Edead. by bsimp. }
    assert (Hfr' : frame_other ch b st st2).
    { intros b' c0 j ???. rewrite <- He1. by apply (Hfr b' c0). }
    assert (Hpre' : forall j, j ∈ L1 -> dir_payload (ent st2 j) = dir_payload (ent st j)).
    { intros. rewrite <- He1. auto. }
    assert (Hb2 : <[b := c']> ch !! b = Some c') by (apply list_lookup_insert_eq; by eapply lookup_lt_Some).
    destruct D as [(-> & -> & -> & -> & Hclr)|(Lr & HLr & -> & Hlr & Hpay)].
    + exists st2. split; [done|].
      apply (cleaned_dead fl ch b st [] i [] fl' [] st2 []); try done; [lia..|].
      exists fl', []. rewrite list_insert_id by done.
      split_and!; [done|done|apply frame_other_refl|done| |split; [set_solver|by rewrite Hclr]|simpl; lia].
      unfold pays. simpl. by rewrite Hclr.
    + assert (Hp : pays st2 Lr = pays st L2).
      { apply pays_ext. rewrite Hpay. apply payload_map_ext. intros. by rewrite He1. }
      assert (HL1' : forall j, j ∈ L1 -> dir_offset (ent st2 j) <> 0).
      { intros j Hj. rewrite (payload_ext_offset st) by auto. auto. }
      destruct Lr as [|k Lr].
      * exists st2. split; [done|]. rewrite app_nil_r in HLr.
        apply (cleaned_dead fl ch b st L1 i L2 fl' c' st2 []); try done; [lia..|].
        rewrite <- HLr. apply (cleaned_nil _ _ _ _ c'); [done|done|]. by rewrite HLr.
      * destruct (IH st2 fl' (<[b := c']> ch) c' L1 k Lr) as (st' & E & C); [done|done|done| |done|].
        { simpl in Hlr. lia. }
        exists st'. split; [done|].
        apply (cleaned_dead fl ch b st L1 i L2 fl' c' st2 (k :: Lr)); try done; lia.
  - bsimp.
    assert (Hlive : live (pays st (i :: L2)) = dir_payload (ent st i) :: live (pays st L2)).
    { by apply live_cons_live. }
    assert (Hp1 : pays st (L1 ++ [i]) = pays st L1 ++ [dir_payload (ent st i)]).
    { rewrite pays_app, pays_cons, decide_True by done. done. }
    assert (HL1' : forall j, j ∈ L1 ++ [i] -> dir_offset (ent st j) <> 0) by set_solver.
    assert (Hnext : next_dir (ents st) i = head L2).
    { pose proof (sr_chain _ _ _ _ R _ _ Hb) as Hc. unfold next_dir.
      change (ents st !!! i) with (ent st i).
      destruct L1 as [|h L1]; simplify_eq/=; [by apply (lseg_head (ents st))|].
      apply lseg_app in Hc as (m & _ & _ & _ & Hc). by apply (lseg_head (ents st)). }
    assert (Hgoal : forall st', cleaned fl ch b st (L1 ++ [i]) L2 st' -> cleaned fl ch b st L1 (i :: L2) st').
    { intros st' (fl' & c' & ? & ? & ? & ? & Hpp & ? & Hu). exists fl', c'.
      split_and!; try done.
      - rewrite Hpp, Hp1, Hlive. by rewrite <- app_assoc.
      - rewrite Hu, Hlive, pays_length_cons. destruct (Z.eqb_spec (dir_offset (ent st i)) 0); [done|]. simpl. lia. }
    rewrite Hnext. destruct L2 as [|k L2].
    + exists st. split; [done|]. apply Hgoal. simpl. rewrite <- HL.
      apply (cleaned_nil _ _ _ _ c); [done|done|]. by rewrite HL.
    + simpl. destruct (IH st fl ch c (L1 ++ [i]) k L2) as (st' & E & C); [done|done| | |done|].
      { by rewrite <- app_assoc. } { simpl in Hfuel. lia. }
      exists st'. rewrite last_snoc in E. split; [done|by apply Hgoal].
Qed.

(** Contents of the buckets the operation did not touch. *)
Lemma contents_frame st st' fl fl' ch b c' b' :
  seg_rep nb st fl ch -> seg_rep nb st' fl' (<[b := c']> ch) -> frame_other ch b st st' ->
  b' <> b -> (b' < nb)%nat -> bucket_contents st' b' = bucket_contents st b'.
Proof.
  intros R R' Hfr Hne Hlt. rewrite <- (sr_nch _ _ _ _ R) in Hlt.
  apply lookup_lt_is_Some in Hlt as [c Hc].
  rewrite (rep_contents R _ _ Hc), (rep_contents R' b' c).
  - apply pays_ext, payload_map_ext. intros j Hj. by apply (Hfr b' c).
  - by rewrite list_lookup_insert_ne.
Qed.

Lemma rep_chain_short st fl ch b c : seg_rep nb st fl ch -> ch !! b = Some c ->
  (length c < length (ents st))%nat.
Proof.
  intros R Hb. pose proof (rep_walk R _ _ Hb) as H. apply (f_equal length) in H. simpl in H.
  assert (W : forall f es e, (length (walk f es e) <= f)%nat).
  { induction f as [|f IH]; intros es e; simpl; [done|]. destruct e; simpl; [|lia].
    specialize (IH es (next_dir es n)). lia. }
  specialize (W (length (ents st)) (ents st) (Some (dir_bucket b))). lia.
Qed.

Lemma dir_clean_bucket_spec st fl ch b c :
  seg_rep nb st fl ch -> ch !! b = Some c ->
  exists st' fl' c', dir_clean_bucket valid (dir_bucket b) st = Some st' /\
    seg_rep nb st' fl' (<[b := c']> ch) /\ fl ⊆ fl' /\ frame_other ch b st st' /\
    bucket_contents st' b = live (bucket_contents st b) /\ bucket_clean st' b c' /\
    dir_used st' - Z.of_nat (length (bucket_contents st' b)) =
    dir_used st - Z.of_nat (length (bucket_contents st b)).
Proof.
  intros R Hb. pose proof (rep_chain_short _ _ _ _ _ R Hb).
  destruct (clean_bucket_go_spec (S (length (ents st))) st fl ch b c [] (dir_bucket b) c)
    as (st' & E & fl' & c' & R' & Hfl & Hfr & Hlen & Hp & Hc & Hu); [done|done|done|lia|set_solver|].
  simpl in E. exists st', fl', c'.
  assert (Hct : bucket_contents st' b = live (bucket_contents st b)).
  { rewrite (rep_contents R' b c'), (rep_contents R _ _ Hb); [done|].
    apply list_lookup_insert_eq. by eapply lookup_lt_Some. }
  split_and!; try done. rewrite Hct, Hu, (rep_contents R _ _ Hb). lia.
Qed.

(** The buckets below [k] are clean and hold their live entries; the others are
    as in [st]. *)
Definition clean_upto (st : Seg) (fl : list nat) (k : nat) (st' : Seg) : Prop :=
  exists fl' ch', seg_rep nb st' fl' ch' /\ fl ⊆ fl' /\
    (forall b c, ch' !! b = Some c -> (b < k)%nat -> bucket_clean st' b c) /\
    (forall b, (b < nb)%nat -> bucket_contents st' b =
       if decide (b < k)%nat then live (bucket_contents st b) else bucket_contents st b).

Lemma dir_clean_segment_spec st fl ch :
  seg_rep nb st fl ch ->
  exists st', dir_clean_segment valid nb st = Some st' /\ clean_upto st fl nb st'.
Proof.
  intros R. unfold dir_clean_segment.
  destruct (forM_ind (fun i => dir_clean_bucket valid (dir_bucket i))
    (fun done s => clean_upto st fl (length done) s) (seq 0 nb) st) as (st' & E & C).
  - exists fl, ch. split_and!; [done|done|simpl; lia|]. intros b Hlt. by rewrite decide_False by (simpl; lia).
  - intros done k rest s Es (fl1 & ch1 & R1 & Hfl1 & Hcl & Hct).
    assert (Hk : k = length done /\ (k < nb)%nat).
    { apply (f_equal (fun l => l !! length done)) in Es as Ek.
      rewrite list_lookup_middle in Ek by done. apply lookup_seq in Ek. lia. }
    destruct Hk as [Hk Hlt]. rewrite length_app. simpl.
    pose proof Hlt as Hlt'. rewrite <- (sr_nch _ _ _ _ R1) in Hlt'.
    apply lookup_lt_is_Some in Hlt' as [c Hc].
    destruct (dir_clean_bucket_spec s fl1 ch1 k c R1 Hc)
      as (s' & fl2 & c2 & E2 & R2 & Hfl2 & Hfr2 & Hct2 & Hcl2 & _).
    exists s'. split; [done|]. exists fl2, (<[k := c2]> ch1). split_and!; [done|set_solver| |].
    + intros b c0 Hb Hbk. destruct (decide (b = k)) as [->|Hne].
      * rewrite list_lookup_insert_eq in Hb by (by eapply lookup_lt_Some). by simplify_eq.
      * rewrite list_lookup_insert_ne in Hb by done. destruct (Hcl b c0 Hb ltac:(lia)) as [H1 H2].
        assert (Hoff : forall j, j ∈ dir_bucket b :: c0 -> dir_offset (ent s' j) = dir_offset (ent s j)).
        { intros j Hj. apply payload_ext_offset. by apply (Hfr2 b c0). }
        split; [intros i Hi; rewrite Hoff by set_solver; by apply H1|].
        rewrite Hoff by set_solver. rewrite (Hfr2 b c0) by (done || set_solver). done.
    + intros b Hb. destruct (decide (b = k)) as [->|Hne].
      * rewrite Hct2, Hct, decide_False, decide_True by lia. done.
      * rewrite (contents_frame s s' _ _ _ _ _ _ R1 R2 Hfr2 Hne Hb), (Hct b Hb).
        repeat case_decide; done || lia.
  - rewrite length_seq in C. eauto.
Qed.

Lemma clean_upto_inv st fl st' : clean_upto st fl nb st' -> seg_inv nb st'.
Proof.
  intros (fl' & ch' & R & _ & Hc & _). exists fl', ch'. split; [done|].
  intros b c Hb. apply (Hc b c Hb). rewrite <- (sr_nch _ _ _ _ R). by eapply lookup_lt_Some.
Qed.
End clean.

(** ** Taking an entry off the free list *)

(** [U] is [st] with the entry [i] unlinked from between [f1] and [f2]. *)
Definition detached (st : Seg) (f1 : list nat) (i : nat) (f2 : list nat) (U : Seg) : Prop :=
  length (ents U) = length (ents st) /\
  freelist U = (match f1 with [] => dir_next (ent st i) | _ => freelist st end) /\
  forall j, ent U j =
    if decide (last f1 = Some j) then dir_set_next (ent st j) (dir_next (ent st i))
    else if decide (head f2 = Some j) then dir_set_prev (ent st j) (dir_prev (ent st i))
    else ent st j.

Lemma dprev_app es p l1 l2 :
  dprev es p (l1 ++ l2) <->
  dprev es p l1 /\ dprev es (match last l1 with Some x => Z.of_nat x | None => p end) l2.
Proof.
  revert p. induction l1 as [|i l1 IH]; intros p; simpl; [tauto|].
  rewrite IH. destruct l1; simpl; [tauto|]. destruct (last (n :: l1)) eqn:E; [tauto|].
  by apply last_None in E.
Qed.

Section freelist.
Context {nb : nat} {st : Seg} {ch : list (list nat)} {f1 f2 : list nat} {i : nat}.
Hypothesis R : seg_rep nb st (f1 ++ i :: f2) ch.

Lemma fl_NoDup : NoDup (f1 ++ i :: f2).
Proof. pose proof (rep_NoDup R) as H. by apply NoDup_app in H as (? & _ & _). Qed.

Lemma fl_prev_i : dir_prev (ent st i) = match last f1 with Some x => Z.of_nat x | None => 0 end.
Proof. pose proof (sr_prev _ _ _ _ R) as H. apply dprev_app in H as [_ H]. apply H. Qed.

Lemma fl_split : exists m, lseg (ents st) (freelist st) f1 m /\ m = Z.of_nat i /\
  lseg (ents st) (dir_next (ent st i)) f2 0.
Proof.
  pose proof (sr_fl _ _ _ _ R) as H. apply lseg_app in H as (m & H1 & H2).
  destruct H2 as (-> & _ & H2). eauto.
Qed.

Lemma fl_next_i : dir_from_offset (dir_next (ent st i)) = head f2.
Proof. destruct fl_split as (m & _ & _ & H). by apply lseg_head in H. Qed.

Lemma fl_i_lt : (0 < i < length (ents st))%nat.
Proof. apply (rep_fl_lt R). set_solver. Qed.

Lemma fl_neighbours j : last f1 = Some j \/ head f2 = Some j ->
  j <> i /\ (0 < j < length (ents st))%nat /\ (last f1 = Some j -> head f2 <> Some j).
Proof.
  intros Hj. pose proof fl_NoDup as Hnd.
  assert (Hin : j ∈ f1 ++ i :: f2).
  { destruct Hj as [Hj|Hj]; [apply last_Some_elem_of in Hj|apply head_Some_elem_of in Hj]; set_solver. }
  apply NoDup_app in Hnd as (_ & Hd & Hnd). apply NoDup_cons in Hnd as [Hi _].
  split_and!; [|by apply (rep_fl_lt R).. |].
  - intros ->. destruct Hj as [Hj|Hj].
    + apply last_Some_elem_of in Hj. apply (Hd i Hj). set_solver.
    + apply head_Some_elem_of in Hj. done.
  - intros H1%last_Some_elem_of H2%head_Some_elem_of. apply (Hd j H1). set_solver.
Qed.

Lemma unlink_detached : detached st f1 i f2 (unlink_from_freelist i st).
Proof.
  pose proof fl_prev_i as Hp. pose proof fl_next_i as Hn. pose proof fl_i_lt as Hi.
  pose proof fl_neighbours as Hnb.
  unfold unlink_from_freelist. rewrite Hp. destruct (last f1) as [p|] eqn:El.
  - destruct (Hnb p ltac:(by left)) as (Hpi & Hpr & Hph). rewrite from_offset_of_nat by lia.
    assert (Ei : ent (set_ent st p (dir_set_next (ent st p) (dir_next (ent st i)))) i = ent st i).
    { rewrite ent_set_ent. case_decide; naive_solver. }
    rewrite Ei, Hn. destruct f1 as [|x f1']; [done|].
    destruct (head f2) as [n|] eqn:Eh; (split; [by simpl; rewrite ?length_insert|]); (split; [done|]);
      intros j; ent_simpl; [destruct (Hnb n ltac:(by right)) as (? & ? & ?)|];
      repeat case_decide; try done; naive_solver lia.
  - apply last_None in El as ->. rewrite from_offset_0.
    rewrite ent_set_freelist, Hn.
    assert (Hw : word16 (dir_next (ent st i))) by (destruct (sr_wf _ _ _ _ R i); naive_solver).
    destruct (head f2) as [n|] eqn:Eh; (split; [by simpl; rewrite ?length_insert|]);
      (split; [by apply wrapu_id|]); intros j; ent_simpl;
      [destruct (Hnb n ltac:(by right)) as (? & ? & ?)|];
      repeat case_decide; try done; naive_solver lia.
Qed.
End freelist.

Lemma pop_detached nb valid st ch i f2 :
  seg_rep nb st (i :: f2) ch ->
  exists U, freelist_pop valid nb st = Some (U, Some i) /\ detached st [] i f2 U /\
    dir_used U = dir_used st.
Proof.
  intros R. pose proof (fl_prev_i (f1 := []) R) as Hp. simpl in Hp.
  pose proof (fl_next_i (f1 := []) R) as Hn. pose proof (fl_i_lt (f1 := []) R).
  pose proof (fl_neighbours (f1 := []) R) as Hnb.
  assert (Hw : word16 (dir_next (ent st i))) by (destruct (sr_wf _ _ _ _ R i); naive_solver).
  unfold freelist_pop. rewrite (lseg_head _ _ _ (sr_fl _ _ _ _ R)). simpl.
  rewrite (sr_fempty _ _ _ _ R i) by set_solver. simpl.
  rewrite (wrapu_id 16 _ Hw), Hn. eexists. split; [done|].
  split; [|by destruct (head f2)].
  destruct (head f2) as [n|] eqn:Eh; (split; [by simpl; rewrite ?length_insert|]);
    (split; [by apply wrapu_id|]); intros j; ent_simpl; rewrite ?Hp;
    [destruct (Hnb n ltac:(by right)) as (? & ? & ?)|];
    repeat case_decide; try done; naive_solver lia.
Qed.

(** ** Linking a taken entry behind a bucket head *)

Section link.
Context {nb : nat} {st U : Seg} {ch : list (list nat)} {f1 f2 : list nat} {i b : nat} {c : list nat}.
Variables (tp : Dir) (t : Z).
Hypothesis R : seg_rep nb st (f1 ++ i :: f2) ch.
Hypothesis D : detached st f1 i f2 U.
Hypothesis Hb : ch !! b = Some c.
Hypothesis Htp : dir_wf tp.

Notation V := (fill_entry i tp t (link_entry (dir_bucket b) i U)).

Lemma link_i_notin b' c' : ch !! b' = Some c' -> i ∉ dir_bucket b' :: c'.
Proof. intros Hb' Hi. apply (chain_fl_disj R b' c' i Hb' Hi). set_solver. Qed.

Lemma detached_chain b' c' j : ch !! b' = Some c' -> j ∈ dir_bucket b' :: c' -> ent U j = ent st j.
Proof.
  intros Hb' Hj. destruct D as (_ & _ & ->).
  pose proof (chain_fl_disj R b' c' j Hb' Hj) as Hf.
  rewrite !decide_False; [done| |]; intros Hx.
  - apply head_Some_elem_of in Hx. set_solver.
  - apply last_Some_elem_of in Hx. set_solver.
Qed.

Lemma link_fill_ent j :
  ent V j =
    if decide (j = i) then dir_set_tag (dir_set_next tp (dir_next (ent st (dir_bucket b)))) t
    else if decide (j = dir_bucket b) then dir_set_next (ent st (dir_bucket b)) (Z.of_nat i)
    else ent U j.
Proof.
  pose proof (link_i_notin _ _ Hb) as Hi. assert (Hib : i <> dir_bucket b) by set_solver.
  pose proof (fl_i_lt R) as Hir. pose proof (rep_head_lt R _ _ Hb) as Hbr.
  pose proof (detached_chain _ _ (dir_bucket b) Hb ltac:(set_solver)) as HU.
  assert (Hw : word16 (dir_next (ent st (dir_bucket b)))) by (destruct (sr_wf _ _ _ _ R (dir_bucket b)); naive_solver).
  destruct D as (Hlen & _ & _).
  unfold fill_entry, link_entry, dir_assign_data, dir_assign, dir_to_offset. ent_simpl.
  rewrite Hlen, HU.
  rewrite (decide_True (P := i = i /\ _)) by (split; [done|lia]).
  rewrite (decide_False (P := dir_bucket b = i /\ _)) by naive_solver.
  rewrite dir_next_set_next by done.
  rewrite (decide_False (P := i = dir_bucket b /\ _)) by naive_solver.
  repeat case_decide; try done; naive_solver lia.
Qed.

Lemma link_fill_len : length (ents V) = length (ents st).
Proof. unfold fill_entry, link_entry. rewrite !length_set_ent. by destruct D. Qed.

Lemma link_fill_chain_payload b' c' j : ch !! b' = Some c' -> j ∈ dir_bucket b' :: c' ->
  dir_payload (ent V j) = dir_payload (ent st j).
Proof.
  intros Hb' Hj. pose proof (link_i_notin _ _ Hb') as Hi.
  rewrite link_fill_ent, decide_False by (by intros ->).
  case_decide; [by subst|]. by rewrite (detached_chain b' c').
Qed.

Lemma link_fill_new : dir_payload (ent V i) = dir_payload (dir_set_tag tp t).
Proof. by rewrite link_fill_ent, decide_True. Qed.

Lemma detached_next j : last f1 <> Some j -> dir_next (ent U j) = dir_next (ent st j).
Proof. intros. destruct D as (_ & _ & ->). rewrite decide_False by done. by case_decide. Qed.

(** The free list without [i]. *)
Lemma detached_freelist W :
  length (ents W) = length (ents st) -> freelist W = freelist U ->
  (forall j, j ∈ f1 ++ f2 -> ent W j = ent U j) ->
  lseg (ents W) (freelist W) (f1 ++ f2) 0 /\ dprev (ents W) 0 (f1 ++ f2).
Proof.
  intros HlW HfW HW. destruct D as (Hlen & Hfree & HU).
  destruct (fl_split R) as (m & H1 & -> & H2). pose proof (fl_NoDup R) as Hnd.
  apply NoDup_app in Hnd as (Hnd1 & Hd & Hnd2). apply NoDup_cons in Hnd2 as [Hi2 Hnd2].
  pose proof (sr_prev _ _ _ _ R) as Hp. apply dprev_app in Hp as [Hp1 [Hpi Hp2]].
  assert (Hw : word16 (dir_next (ent st i))) by (destruct (sr_wf _ _ _ _ R i); naive_solver).
  assert (Hnx : forall j, j ∈ f1 ++ f2 -> last f1 <> Some j -> dir_next (ents W !!! j) = dir_next (ents st !!! j)).
  { intros j Hj Hne. change (dir_next (ent W j) = dir_next (ent st j)). rewrite HW by done. by apply detached_next. }
  assert (Hlast : forall j, j ∈ f2 -> last f1 <> Some j).
  { intros j Hj Hx. apply last_Some_elem_of in Hx. apply (Hd j Hx). set_solver. }
  split.
  - rewrite HfW, Hfree. apply lseg_app. exists (dir_next (ent st i)). split.
    + destruct f1 as [|x f1']; [done|]. simpl in H1. destruct H1 as (-> & Hx & H1). simpl.
      rewrite HlW. split_and!; [done|lia|lia|].
      destruct (last (x :: f1')) as [p|] eqn:El; [|by apply last_None in El].
      apply (lseg_relink (ents st) (ents W) x f1' (Z.of_nat i) _ p); try done.
      * intros j Hj Hjp. apply Hnx; [set_solver|]. congruence.
      * apply last_Some_elem_of in El as Hpin.
        change (dir_next (ent W p) = dir_next (ent st i)). rewrite HW by set_solver.
        rewrite HU, decide_True by done. by apply dir_next_set_next.
    + apply (lseg_frame (ents st)); [done|done|]. intros j Hj. apply Hnx; [set_solver|auto].
  - apply dprev_app. split.
    + apply (dprev_frame (ents st)); [done|]. intros j Hj.
      change (dir_prev (ent W j) = dir_prev (ent st j)). rewrite HW by set_solver. rewrite HU.
      case_decide; [done|]. rewrite decide_False; [done|]. intros Hh%head_Some_elem_of.
      apply (Hd j Hj). set_solver.
    + destruct f2 as [|n f2']; [done|]. simpl in Hp2 |- *. destruct Hp2 as [_ Hp2].
      apply NoDup_cons in Hnd2 as [Hn2 Hnd2]. split.
      * change (dir_prev (ent W n) = match last f1 with Some x => Z.of_nat x | None => 0 end).
        rewrite HW by set_solver. rewrite HU, decide_False by (apply Hlast; set_solver).
        rewrite decide_True by done. rewrite <- Hpi. apply prev_set_prev.
        destruct (sr_wf _ _ _ _ R i); naive_solver.
      * apply (dprev_frame (ents st)); [done|]. intros j Hj.
        change (dir_prev (ent W j) = dir_prev (ent st j)). rewrite HW by set_solver. rewrite HU.
        rewrite decide_False by (apply Hlast; set_solver). rewrite decide_False; [done|].
        simpl. congruence.
Qed.

Lemma link_fill_rep : seg_rep nb V (f1 ++ f2) (<[b := i :: c]> ch).
Proof.
  pose proof (link_i_notin _ _ Hb) as Hi. pose proof link_fill_ent as Hent.
  pose proof link_fill_len as Hlen. pose proof (fl_i_lt R) as Hir.
  pose proof (rep_ch_NoDup R _ _ Hb) as Hndb.
  assert (Hw : word16 (dir_next (ent st (dir_bucket b)))) by (destruct (sr_wf _ _ _ _ R (dir_bucket b)); naive_solver).
  assert (Hwf : forall j, dir_wf (ent U j)).
  { intros j. destruct D as (_ & _ & ->). pose proof (sr_wf _ _ _ _ R j).
    repeat case_decide; eauto with ts. }
  assert (Hfl : forall j, j ∈ f1 ++ f2 -> j <> i /\ j <> dir_bucket b).
  { intros j Hj. pose proof (fl_NoDup R) as Hnd. rewrite <- Permutation_middle in Hnd.
    apply NoDup_cons in Hnd as [Hi' _]. split; [by intros ->|]. intros ->.
    apply (chain_fl_disj R b c (dir_bucket b) Hb); set_solver. }
  assert (Hnext : forall b' c' j, ch !! b' = Some c' -> j ∈ dir_bucket b' :: c' -> j <> dir_bucket b ->
    dir_next (ent V j) = dir_next (ent st j)).
  { intros b' c' j Hb' Hj Hne. pose proof (link_i_notin _ _ Hb').
    rewrite Hent, decide_False by (by intros ->). rewrite decide_False by done.
    by rewrite (detached_chain b' c'). }
  assert (HfV : freelist V = freelist U) by done.
  destruct (detached_freelist V) as [HV1 HV2]; [done|done| |].
  { intros j Hj. destruct (Hfl j Hj). rewrite Hent, !decide_False by done. done. }
  constructor.
  - rewrite Hlen. apply (sr_len _ _ _ _ R).
  - apply (sr_max _ _ _ _ R).
  - intros j. rewrite Hent. pose proof (sr_wf _ _ _ _ R (dir_bucket b)). repeat case_decide; eauto with ts.
  - done.
  - done.
  - intros j Hj. destruct (Hfl j Hj). rewrite Hent, !decide_False by done.
    destruct D as (_ & _ & ->).
    assert (dir_offset (ent st j) = 0) by (apply (sr_fempty _ _ _ _ R); set_solver).
    repeat case_decide; done.
  - rewrite length_insert. apply (sr_nch _ _ _ _ R).
  - intros b' c' Hb'. destruct (decide (b' = b)) as [->|Hne].
    + rewrite list_lookup_insert_eq in Hb' by (by eapply lookup_lt_Some). simplify_eq.
      rewrite Hent, decide_False by set_solver. rewrite decide_True by done.
      rewrite dir_next_set_next by (apply (rep_word R); lia).
      cbn [lseg]. rewrite Hlen. split_and!; [done|lia|lia|].
      change (ents V !!! i) with (ent V i). rewrite Hent, decide_True by done.
      change (dir_next (dir_set_tag (dir_set_next tp (dir_next (ent st (dir_bucket b)))) t))
        with (dir_next (dir_set_next tp (dir_next (ent st (dir_bucket b))))).
      rewrite dir_next_set_next by done.
      apply (lseg_frame (ents st)); [by apply (sr_chain _ _ _ _ R)|done|].
      intros j Hj. apply (Hnext b c); [done|set_solver|]. intros ->. by apply NoDup_cons in Hndb as [? _].
    + rewrite list_lookup_insert_ne in Hb' by done.
      assert (Hd : forall j, j ∈ dir_bucket b' :: c' -> j <> dir_bucket b).
      { intros j Hj ->. apply Hne. apply (rep_ch_disj R b' b c' c _ Hb' Hb Hj). set_solver. }
      rewrite (Hnext b' c') by (done || (apply Hd; set_solver) || set_solver).
      apply (lseg_frame (ents st)); [by apply (sr_chain _ _ _ _ R)|done|].
      intros j Hj. apply (Hnext b' c'); [done|set_solver|apply Hd; set_solver].
  - rewrite <- (sr_slots _ _ _ _ R). rewrite <- (Permutation_middle f1 f2 i).
    rewrite <- app_comm_cons. rewrite (Permutation_middle (f1 ++ f2) (concat ch) i).
    f_equiv. rewrite (concat_insert_perm (<[b := i :: c]> ch) b (i :: c) c [i]); [|by apply list_lookup_insert_eq; eapply lookup_lt_Some|done].
    rewrite list_insert_insert_eq, list_insert_id by done. done.
Qed.
End link.

(** ** Initialising a segment *)

(** After freeing the entries [l] (the last one first on the list) of a cleared
    segment of [n] entries. *)
Record init_inv (n : nat) (l : list nat) (st : Seg) : Prop := {
  ii_len : length (ents st) = n;
  ii_fl : lseg (ents st) (freelist st) (rev l) 0;
  ii_prev : dprev (ents st) 0 (rev l);
  ii_clear : forall j, j ∉ l -> ent st j = dir_clear;
  ii_ent : forall j, dir_wf (ent st j) /\ dir_offset (ent st j) = 0
}.

Lemma free_entry_init n l x st :
  Z.of_nat n <= 2 ^ 16 -> init_inv n l st -> (0 < x < n)%nat -> NoDup (l ++ [x]) ->
  (forall j, j ∈ l -> (0 < j < n)%nat) ->
  init_inv n (l ++ [x]) (dir_free_entry x st).
Proof.
  intros Hn I Hx Hnd Hl. destruct I as [Hlen Hfl Hpv Hcl He].
  assert (Hxl : x ∉ l) by (apply NoDup_app in Hnd as (_ & H & _); intros Hc; apply (H x Hc); set_solver).
  assert (Hwx : word16 (Z.of_nat x)) by (unfold word16; lia).
  assert (Hwf : word16 (freelist st)) by (by apply (lseg_word _ _ _ Hfl); rewrite Hlen).
  assert (Hndl : NoDup (rev l)).
  { apply NoDup_app in Hnd as (H & _ & _). apply NoDup_ListNoDup, NoDup_rev, NoDup_ListNoDup. done. }
  assert (Hrev : forall j, j ∈ rev l <-> j ∈ l) by (intros j; rewrite !list_elem_of_In; symmetry; apply in_rev).
  assert (Hhd : forall f, head (rev l) = Some f -> f <> x /\ (f < n)%nat).
  { intros f Hf%head_Some_elem_of%Hrev. split; [by intros ->|by apply Hl]. }
  assert (Hent : forall j, ent (dir_free_entry x st) j =
    if decide (j = x) then dir_set_next dir_clear (freelist st)
    else if decide (head (rev l) = Some j) then dir_set_prev (ent st j) (Z.of_nat x) else ent st j).
  { intros j. unfold dir_free_entry. rewrite (lseg_head _ _ _ Hfl).
    destruct (head (rev l)) as [f|]; [destruct (Hhd f eq_refl)|]; ent_simpl; rewrite ?Hlen, ?(Hcl x Hxl);
      repeat case_decide; try done; naive_solver lia. }
  assert (Hlen' : length (ents (dir_free_entry x st)) = n).
  { unfold dir_free_entry. destruct (dir_from_offset _); simpl; by rewrite !length_insert. }
  assert (Hfree : freelist (dir_free_entry x st) = Z.of_nat x) by (simpl; by apply wrapu_id).
  set (st' := dir_free_entry x st) in *. clearbody st'.
  constructor.
  - done.
  - rewrite rev_app_distr, Hfree. simpl. rewrite Hlen'. split_and!; [done|lia|lia|].
    change (ents st' !!! x) with (ent st' x). rewrite Hent, decide_True by done.
    rewrite dir_next_set_next by done. apply (lseg_frame (ents st)); [done|lia|].
    intros j Hj%Hrev. change (dir_next (ent st' j) = dir_next (ent st j)).
    rewrite Hent, decide_False by (by intros ->). by case_decide.
  - rewrite rev_app_distr. simpl rev. apply (dprev_push (ents st) _ 0); [done| |done| |].
    + change (dir_prev (ent st' x) = 0). by rewrite Hent, decide_True.
    + intros j Hj. change (dir_prev (ent st' j) = Z.of_nat x). destruct (Hhd j Hj).
      rewrite Hent, decide_False, decide_True by done. by apply prev_set_prev.
    + intros j Hj%Hrev Hne. change (dir_prev (ent st' j) = dir_prev (ent st j)).
      rewrite Hent, !decide_False; [done|done|by intros ->].
  - intros j Hj. rewrite Hent, !decide_False; [apply Hcl; set_solver| |set_solver].
    intros Hx'%head_Some_elem_of%Hrev. set_solver.
  - intros j. rewrite Hent. destruct (He j). repeat case_decide; split; try done; eauto with ts.
Qed.

Lemma init_segment_inv nb st : Z.of_nat (nb * DIR_DEPTH) <= 2 ^ 16 ->
  init_inv (nb * DIR_DEPTH) (init_order nb) (dir_init_segment nb st).
Proof.
  intros Hmax. unfold dir_init_segment.
  set (st0 := set_ents (set_freelist st 0) (replicate (nb * DIR_DEPTH) dir_clear)).
  assert (G : forall rest l s, init_order nb = l ++ rest -> init_inv (nb * DIR_DEPTH) l s ->
    init_inv (nb * DIR_DEPTH) (init_order nb) (foldl (fun st' i => dir_free_entry i st') s rest)).
  { induction rest as [|x rest IH]; intros l s E I; simpl.
    - rewrite app_nil_r in E. by rewrite E.
    - apply (IH (l ++ [x])); [by rewrite <- app_assoc|].
      assert (Hin : forall j, j ∈ init_order nb -> (0 < j < nb * DIR_DEPTH)%nat).
      { intros j [H1 H2]%elem_init_order. destruct j; [by simpl in H2|lia]. }
      pose proof (NoDup_init_order nb) as Hnd. rewrite E in Hnd.
      rewrite cons_middle, app_assoc in Hnd. apply NoDup_app in Hnd as (Hnd & _ & _).
      apply free_entry_init; [done|done|apply Hin; rewrite E; set_solver|done|].
      intros j Hj. apply Hin. rewrite E. set_solver. }
  apply (G _ []); [done|].
  assert (Hc : forall j, ent st0 j = dir_clear).
  { intros j. unfold ent, st0. simpl. destruct (decide (j < nb * DIR_DEPTH)%nat).
    - rewrite list_lookup_total_alt, lookup_replicate_2 by done. done.
    - rewrite list_lookup_total_alt, lookup_ge_None_2 by (rewrite length_replicate; lia). done. }
  constructor; simpl; try done.
  - by rewrite length_replicate.
  - intros j. rewrite Hc. split; [apply dir_wf_clear|done].
Qed.

(** A freshly initialised segment: every row 1..3 free, every bucket empty. *)
Lemma dir_init_segment_rep nb st : Z.of_nat (nb * DIR_DEPTH) <= 2 ^ 16 ->
  seg_rep nb (dir_init_segment nb st) (rev (init_order nb)) (replicate nb []) /\
  seg_clean (dir_init_segment nb st) (replicate nb []) /\
  forall b, (b < nb)%nat -> bucket_contents (dir_init_segment nb st) b = [].
Proof.
  intros Hmax. destruct (init_segment_inv nb st Hmax) as [Hlen Hfl Hpv Hcl He].
  assert (Hhead : forall b, ent (dir_init_segment nb st) (dir_bucket b) = dir_clear).
  { intros b. apply Hcl. intros [_ H]%elem_init_order. by rewrite dir_bucket_mod in H. }
  assert (Hcat : concat (replicate nb ([] : list nat)) = []) by (clear; induction nb; done).
  assert (R : seg_rep nb (dir_init_segment nb st) (rev (init_order nb)) (replicate nb [])).
  { constructor; try done.
    - apply He.
    - intros i _. apply He.
    - by rewrite length_replicate.
    - intros b c [-> _]%lookup_replicate. by rewrite Hhead.
    - rewrite Hcat, app_nil_r. symmetry. apply Permutation_rev. }
  split_and!; [done| |].
  - intros b c [-> _]%lookup_replicate. split; [set_solver|by rewrite Hhead].
  - intros b Hb. rewrite (rep_contents R b []) by (by apply lookup_replicate_2).
    unfold pays. simpl. by rewrite Hhead.
Qed.
