(* ===== verification/DirOps.v ===== *)
(** The directory operations on one segment: insertion, lookup, overwriting,
    deletion and cleaning, their effect on the bucket contents, and when the
    retry loop of an insertion ends. *)

From S2P Require Import Prelude DirEntry DirSegment DirSegmentFacts.

(** The entry an insertion stores: the caller's data under the key's tag. *)
Definition new_entry (tp : Dir) (t : Z) : Dir := dir_payload (dir_set_tag tp t).

(** [st'] is [st] with the entry [e] added to bucket [b]. *)
Definition inserted (nb b : nat) (e : Dir) (st st' : Seg) : Prop :=
  seg_inv nb st' /\
  (forall b', (b' < nb)%nat -> b' <> b -> bucket_contents st' b' = bucket_contents st b') /\
  bucket_contents st' b ≡ₚ e :: bucket_contents st b.

(** [st'] holds no entry [st] did not hold, bucket by bucket. *)
Definition shrunk (nb : nat) (st st' : Seg) : Prop :=
  forall b, (b < nb)%nat -> bucket_contents st' b `sublist_of` bucket_contents st b.

(** Some place can be had without purging: row 0, another row of the bucket, or
    the free list. *)
Definition has_room (b : nat) (st : Seg) : Prop :=
  dir_is_empty (ent st (dir_bucket b)) = true \/ empty_row (dir_bucket b) st <> None \/ freelist st <> 0.

(** The number of entries in use. *)
Definition used_count (nb : nat) (st : Seg) : nat :=
  sum_list_with (fun b => length (bucket_contents st b)) (seq 0 nb).

(** Every entry in use is the head of a document. *)
Definition all_heads (nb : nat) (st : Seg) : Prop :=
  forall b e, (b < nb)%nat -> e ∈ bucket_contents st b -> dir_head e <> 0.

(** ** Contents depend on the entries only *)

Lemma contents_ents st st' b : ents st' = ents st -> bucket_contents st' b = bucket_contents st b.
Proof. intros E. unfold bucket_contents, pays, ent. by rewrite E. Qed.

Lemma inv_stats nb st st' : seg_inv nb st -> ents st' = ents st -> freelist st' = freelist st -> seg_inv nb st'.
Proof.
  intros (fl & ch & R & C) E F. exists fl, ch. split; [by apply (rep_stats _ st)|].
  intros b c Hb. destruct (C b c Hb) as [C1 C2].
  assert (Hent : forall j, ent st' j = ent st j) by (intros; by apply ent_eq).
  split; [intros i Hi; rewrite Hent; auto|by rewrite Hent].
Qed.

Lemma inserted_stats nb b e st st1 st2 :
  inserted nb b e st st1 -> ents st2 = ents st1 -> freelist st2 = freelist st1 -> inserted nb b e st st2.
Proof.
  intros (I & H1 & H2) E F. split_and!.
  - by apply (inv_stats _ st1).
  - intros b' ??. rewrite (contents_ents st1) by done. auto.
  - by rewrite (contents_ents st1).
Qed.

(** ** Filling and linking *)

Section insert.
Context {nb : nat}.

Lemma rep_bucket st fl ch b : seg_rep nb st fl ch -> (b < nb)%nat -> exists c, ch !! b = Some c.
Proof. intros R Hb. rewrite <- (sr_nch _ _ _ _ R) in Hb. by apply lookup_lt_is_Some in Hb. Qed.

Lemma pays_single st i : dir_offset (ent st i) <> 0 -> pays st [i] = [dir_payload (ent st i)].
Proof. intros. by rewrite pays_cons, decide_True. Qed.

Lemma clean_frame st st' ch b b' c :
  frame_other ch b st st' -> b' <> b -> ch !! b' = Some c -> bucket_clean st b' c -> bucket_clean st' b' c.
Proof.
  intros Hfr Hne Hb' [C1 C2].
  assert (Hp : forall j, j ∈ dir_bucket b' :: c -> dir_payload (ent st' j) = dir_payload (ent st j)).
  { intros. by apply (Hfr b' c). }
  split.
  - intros i Hi. rewrite (payload_ext_offset st) by (apply Hp; set_solver). auto.
  - rewrite (payload_ext_offset st) by (apply Hp; set_solver). by rewrite Hp by set_solver.
Qed.

(** Writing an entry in place, link kept: the contents of its slot change. *)
Lemma fill_rep st fl ch i tp t :
  seg_rep nb st fl ch -> i ∉ fl -> (i < length (ents st))%nat -> dir_wf tp ->
  let V := fill_entry i tp t st in
  seg_rep nb V fl ch /\ dir_payload (ent V i) = new_entry tp t /\ (forall j, j <> i -> ent V j = ent st j).
Proof.
  intros R Hi Hlt Htp V.
  assert (Hj : forall j, j <> i -> ent V j = ent st j).
  { intros j Hj. unfold V, fill_entry. rewrite ent_set_ent, decide_False; naive_solver. }
  assert (Hii : ent V i = dir_set_tag (dir_assign_data (ent st i) tp) t).
  { unfold V, fill_entry. by rewrite ent_set_ent, decide_True. }
  split_and!; [|by rewrite Hii|done].
  apply (rep_ext R).
  - unfold V, fill_entry. by rewrite length_set_ent.
  - done.
  - intros j. destruct (decide (j = i)) as [->|Hne]; [|rewrite Hj by done; apply (sr_wf _ _ _ _ R)].
    rewrite Hii. unfold dir_assign_data, dir_assign. auto with ts.
  - intros j. destruct (decide (j = i)) as [->|Hne]; [|by rewrite Hj].
    rewrite Hii. apply dir_next_set_next. destruct (sr_wf _ _ _ _ R i); naive_solver.
  - intros j Hf. by rewrite Hj by (by intros ->).
  - intros j Hf. rewrite Hj by (by intros ->). by apply (sr_fempty _ _ _ _ R).
Qed.

Lemma fill_head_inserted st fl ch b tp t :
  seg_rep nb st fl ch -> seg_clean st ch -> (b < nb)%nat ->
  dir_wf tp -> dir_offset tp <> 0 -> dir_offset (ent st (dir_bucket b)) = 0 ->
  inserted nb b (new_entry tp t) st (fill_entry (dir_bucket b) tp t st).
Proof.
  intros R C Hb Htp Hoff H0. destruct (rep_bucket _ _ _ _ R Hb) as [c Hc].
  destruct (proj2 (C b c Hc) H0) as [-> _].
  destruct (fill_rep st fl ch (dir_bucket b) tp t R) as (R' & Hp & Hj);
    [by apply (chain_fl_disj R b [] _ Hc); set_solver|by apply (rep_head_lt R b [])|done|].
  set (V := fill_entry (dir_bucket b) tp t st) in *. clearbody V.
  assert (Hfr : frame_other ch b st V).
  { intros b' c' j Hne Hb' Hj'. rewrite Hj; [done|]. intros ->. apply Hne.
    apply (rep_ch_disj R b' b c' [] _ Hb' Hc Hj'). set_solver. }
  assert (HoV : dir_offset (ent V (dir_bucket b)) <> 0).
  { rewrite <- payload_offset, Hp. done. }
  split_and!.
  - exists fl, ch. split; [done|]. intros b' c' Hb'. destruct (decide (b' = b)) as [->|Hne].
    + rewrite Hc in Hb'. simplify_eq. split; [set_solver|done].
    + apply (clean_frame st V ch b); auto.
  - intros b' Hb' Hne. apply (contents_frame nb st V fl fl ch b []); try done.
    by rewrite list_insert_id.
  - rewrite (rep_contents R' b [] Hc), (rep_contents R b [] Hc), pays_single, Hp by done.
    rewrite pays_cons, decide_False by naive_solver. done.
Qed.

Lemma link_inserted st U ch f1 i f2 b tp t :
  seg_rep nb st (f1 ++ i :: f2) ch -> seg_clean st ch -> detached st f1 i f2 U -> (b < nb)%nat ->
  dir_wf tp -> dir_offset tp <> 0 -> dir_offset (ent st (dir_bucket b)) <> 0 ->
  inserted nb b (new_entry tp t) st (fill_entry i tp t (link_entry (dir_bucket b) i U)).
Proof.
  intros R C D Hb Htp Hoff H0. destruct (rep_bucket _ _ _ _ R Hb) as [c Hc].
  pose proof (link_fill_rep tp t R D Hc Htp) as R'.
  pose proof (link_fill_new tp t R D Hc Htp) as Hnew.
  pose proof (link_fill_chain_payload tp t R D Hc Htp) as Hpay.
  set (V := fill_entry i tp t (link_entry (dir_bucket b) i U)) in *. clearbody V.
  assert (Hfr : frame_other ch b st V) by (intros b' c' j Hne Hb' Hj; by apply (Hpay b' c')).
  assert (HoV : dir_offset (ent V i) <> 0) by (rewrite <- payload_offset, Hnew; done).
  assert (Hcb : <[b := i :: c]> ch !! b = Some (i :: c)) by (apply list_lookup_insert_eq; by eapply lookup_lt_Some).
  split_and!.
  - exists (f1 ++ f2), (<[b := i :: c]> ch). split; [done|].
    intros b' c' Hb'. destruct (decide (b' = b)) as [->|Hne].
    + rewrite Hcb in Hb'. simplify_eq. split.
      * intros j [->|Hj]%elem_of_cons; [done|].
        rewrite (payload_ext_offset st) by (apply (Hpay b c); [done|set_solver]). by apply (C b c Hc).
      * rewrite (payload_ext_offset st) by (apply (Hpay b c); [done|set_solver]). done.
    + rewrite list_lookup_insert_ne in Hb' by done. apply (clean_frame st V ch b); auto.
  - intros b' Hb' Hne. by apply (contents_frame nb st V _ _ ch b (i :: c) b' R R').
  - rewrite (rep_contents R' b _ Hcb), (rep_contents R b c Hc).
    rewrite (pays_cons V), (pays_cons V i), (pays_cons st).
    rewrite (payload_ext_offset st) by (apply (Hpay b c); [done|set_solver]).
    rewrite !decide_True by done. rewrite Hnew, (Hpay b c) by (done || set_solver). simpl.
    assert (E : pays V c = pays st c).
    { apply pays_ext, payload_map_ext. intros j Hj. apply (Hpay b c); [done|set_solver]. }
    rewrite E. apply perm_swap.
Qed.

Lemma empty_row_Some b st i : empty_row (dir_bucket b) st = Some i ->
  dir_offset (ent st i) = 0 /\ exists l, (1 <= l < 4)%nat /\ i = (dir_bucket b + l)%nat.
Proof.
  intros H%head_Some_elem_of. apply list_elem_of_filter in H as [H1 H2].
  apply list_elem_of_fmap in H2 as (l & -> & Hl). apply elem_of_seq in Hl.
  unfold dir_is_empty in H1. bsimp. split; [done|]. exists l. unfold DIR_DEPTH in Hl. split; [lia|done].
Qed.

Lemma empty_row_free st fl ch b i :
  seg_rep nb st fl ch -> seg_clean st ch -> (b < nb)%nat -> empty_row (dir_bucket b) st = Some i -> i ∈ fl.
Proof.
  intros R C Hb (H0 & l & Hl & ->)%empty_row_Some.
  destruct (proj2 (rep_slot R (dir_bucket b + l)%nat)) as [Hf|(b' & c & Hc & Hi)]; [|done|].
  - unfold dir_bucket, DIR_DEPTH. split; [lia|].
    rewrite Nat.add_comm, Nat.Div0.mod_add, Nat.mod_small; lia.
  - exfalso. by apply (proj1 (C b' c Hc) _ Hi).
Qed.

Section run.
Variable valid : Dir -> bool.
Hypothesis valid_payload : forall e, valid (dir_payload e) = valid e.

(** With room, the first round of the insertion loop succeeds. *)
Lemma insert_with_room st b key tp fuel :
  seg_inv nb st -> (b < nb)%nat -> dir_wf tp -> dir_offset tp <> 0 -> has_room b st ->
  exists st', dir_insert_seg valid nb (S fuel) (dir_bucket b) key tp st = Some st' /\
    inserted nb b (new_entry tp (kw2 key)) st st' /\ dir_used st' = dir_used st + 1 /\ dirty st' = true.
Proof.
  intros (fl & ch & R & C) Hb Htp Hoff Hroom. simpl. unfold dir_is_empty.
  destruct (Z.eqb_spec (dir_offset (ent st (dir_bucket b))) 0) as [H0|H0].
  { eexists. split; [reflexivity|]. split_and!; [|done|done].
    apply (inserted_stats _ _ _ _ (fill_entry (dir_bucket b) tp (kw2 key) st)); [|done|done].
    by apply (fill_head_inserted st fl ch). }
  destruct (empty_row (dir_bucket b) st) as [i|] eqn:Er.
  { pose proof (empty_row_free st fl ch b i R C Hb Er) as Hi.
    apply list_elem_of_split in Hi as (f1 & f2 & ->).
    pose proof (unlink_detached R) as D. eexists. split; [reflexivity|]. split_and!; [|simpl; f_equal|done].
    - apply (inserted_stats _ _ _ _ (fill_entry i tp (kw2 key) (link_entry (dir_bucket b) i (unlink_from_freelist i st)))); [|done|done].
      by apply (link_inserted st _ ch f1 i f2).
    - unfold unlink_from_freelist. repeat case_match; done. }
  assert (Hfl : freelist st <> 0).
  { destruct Hroom as [Hr|[Hr|Hr]]; [|done|done]. unfold dir_is_empty in Hr. by bsimp. }
  destruct fl as [|i f2]; [by destruct (Hfl (sr_fl _ _ _ _ R))|].
  destruct (pop_detached nb valid st ch i f2 R) as (U & E & D & HU). rewrite E.
  eexists. split; [reflexivity|]. split_and!; [|simpl; f_equal|done].
  - apply (inserted_stats _ _ _ _ (fill_entry i tp (kw2 key) (link_entry (dir_bucket b) i U))); [|done|done].
    by apply (link_inserted st U ch [] i f2).
  - done.
Qed.

(** ** Purging *)

(** [st'] is [st] with some entries emptied in place. *)
Definition emptied (st st' : Seg) : Prop :=
  length (ents st') = length (ents st) /\ freelist st' = freelist st /\
  forall j, ent st' j = ent st j \/ ent st' j = dir_set_offset (ent st j) 0.

Lemma set_offset_0_idem e : dir_set_offset (dir_set_offset e 0) 0 = dir_set_offset e 0.
Proof. destruct e; unfold dir_set_offset; simpl. f_equal. rewrite !Z.shiftr_0_l, mask_FF00. bitblast. Qed.

Lemma offset_set_offset_0 e : dir_offset (dir_set_offset e 0) = 0.
Proof. apply dir_offset_set_offset. lia. Qed.

Lemma emptied_trans st1 st2 st3 : emptied st1 st2 -> emptied st2 st3 -> emptied st1 st3.
Proof.
  intros (L1 & F1 & H1) (L2 & F2 & H2). split_and!; [congruence|congruence|].
  intros j. destruct (H1 j) as [E1|E1], (H2 j) as [E2|E2]; rewrite E2, E1, ?set_offset_0_idem; auto.
Qed.

Lemma emptied_rep st st' fl ch : seg_rep nb st fl ch -> emptied st st' -> seg_rep nb st' fl ch.
Proof.
  intros R (L & F & H). apply (rep_ext R); [done|done|..]; intros j.
  - destruct (H j) as [->| ->]; pose proof (sr_wf _ _ _ _ R j); auto with ts.
  - by destruct (H j) as [->| ->].
  - by destruct (H j) as [->| ->].
  - intros Hj. destruct (H j) as [->| ->]; [by apply (sr_fempty _ _ _ _ R)|apply offset_set_offset_0].
Qed.

Lemma emptied_pays st st' l : emptied st st' -> pays st' l `sublist_of` pays st l.
Proof.
  intros (_ & _ & H). induction l as [|i l IH]; [done|]. rewrite !pays_cons.
  apply sublist_app; [|done]. destruct (H i) as [->| ->]; [done|].
  rewrite offset_set_offset_0, (decide_False (P := 0 <> 0)) by naive_solver. apply sublist_nil_l.
Qed.

Lemma emptied_pays_lt st st' l i : emptied st st' -> i ∈ l ->
  dir_offset (ent st i) <> 0 -> dir_offset (ent st' i) = 0 -> (length (pays st' l) < length (pays st l))%nat.
Proof.
  intros H Hi H0 H1. apply list_elem_of_split in Hi as (l1 & l2 & ->).
  rewrite !pays_app, !length_app, (pays_cons st), (pays_cons st'), !length_app.
  rewrite (decide_True (P := dir_offset (ent st i) <> 0)) by done.
  rewrite H1, (decide_False (P := 0 <> 0)) by naive_solver.
  pose proof (sublist_length _ _ (emptied_pays st st' l1 H)).
  pose proof (sublist_length _ _ (emptied_pays st st' l2 H)). simpl. lia.
Qed.

Lemma purge_entry_emptied i n st : emptied st (purge_entry i (n, st)).2.
Proof.
  assert (Hr : emptied st st) by (split_and!; auto).
  unfold purge_entry. destruct (dir_head (ent st i) =? 0); [done|]. destruct (_ =? 0); [|done]. cbn [snd].
  split_and!; [by rewrite length_set_ent|done|].
  intros j. ent_simpl. case_decide as Hd; [|auto]. destruct Hd as [-> _]. auto.
Qed.

Lemma purge_emptied l acc : emptied acc.2 (foldl (fun acc i => purge_entry i acc) acc l).2.
Proof.
  revert acc. induction l as [|i l IH]; intros [n st]; simpl; [split_and!; auto|].
  apply (emptied_trans _ (purge_entry i (n, st)).2); [apply purge_entry_emptied|apply IH].
Qed.

(** The first head entry in scan order is emptied. *)
Lemma purge_first l st : (exists j, j ∈ l /\ dir_head (ent st j) <> 0) ->
  (forall j, j ∈ l -> (j < length (ents st))%nat) ->
  exists i, i ∈ l /\ dir_head (ent st i) <> 0 /\
    dir_offset (ent (foldl (fun acc i => purge_entry i acc) (0, st) l).2 i) = 0.
Proof.
  induction l as [|x l IH]; intros (j & Hj & Hh) Hlt; [by apply elem_of_nil in Hj|].
  cbn [foldl]. destruct (Z.eqb_spec (dir_head (ent st x)) 0) as [Hx|Hx].
  - assert (E : purge_entry x (0, st) = (0, st)) by (unfold purge_entry; by rewrite Hx).
    rewrite E. destruct IH as (i & Hi & ?).
    2: { intros k Hk. apply Hlt, elem_of_cons. auto. }
    2: { exists i. split; [apply elem_of_cons; auto|done]. }
    exists j. split; [|done]. apply elem_of_cons in Hj as [->|Hj]; done.
  - exists x. split_and!; [apply elem_of_cons; auto|done|].
    assert (E : ent (purge_entry x (0, st)).2 x = dir_set_offset (ent st x) 0).
    { unfold purge_entry. apply Z.eqb_neq in Hx. rewrite Hx. simpl. ent_simpl.
      rewrite decide_True; [done|]. split; [done|]. apply Hlt, elem_of_cons. auto. }
    destruct (purge_emptied l (purge_entry x (0, st))) as (_ & _ & H).
    destruct (H x) as [->| ->]; rewrite ?E; [apply offset_set_offset_0|].
    rewrite set_offset_0_idem. apply offset_set_offset_0.
Qed.

Lemma elem_purge_order i : i ∈ purge_order nb <-> (i < nb * DIR_DEPTH)%nat.
Proof.
  unfold purge_order, dir_bucket_row, dir_bucket, DIR_DEPTH.
  rewrite list_elem_of_In, in_flat_map. setoid_rewrite in_map_iff. setoid_rewrite in_seq. split.
  - intros (b & Hb & l & <- & Hl). nia.
  - intros Hi. pose proof (Nat.mod_upper_bound i 4). pose proof (Nat.div_mod_eq i 4).
    exists (i / 4)%nat. split; [lia|]. exists (i mod 4)%nat. lia.
Qed.

(** ** Cleaning the free list *)

Lemma shrunk_trans st1 st2 st3 : shrunk nb st1 st2 -> shrunk nb st2 st3 -> shrunk nb st1 st3.
Proof. intros H1 H2 b Hb. etrans; [by apply H2|by apply H1]. Qed.

Lemma emptied_shrunk st st' fl ch : seg_rep nb st fl ch -> emptied st st' -> shrunk nb st st'.
Proof.
  intros R H b Hb. pose proof (emptied_rep _ _ _ _ R H) as R'.
  destruct (rep_bucket _ _ _ _ R Hb) as [c Hc].
  rewrite (rep_contents R b c Hc), (rep_contents R' b c Hc). by apply emptied_pays.
Qed.

Lemma clean_upto_shrunk st fl st' : clean_upto valid nb st fl nb st' -> shrunk nb st st'.
Proof.
  intros (fl' & ch' & _ & _ & _ & H) b Hb. rewrite H, decide_True by done. apply sublist_filter.
Qed.

Lemma freelist_clean_spec st fl ch : seg_rep nb st fl ch ->
  exists st', freelist_clean valid nb st = Some st' /\ seg_inv nb st' /\ shrunk nb st st'.
Proof.
  intros R. unfold freelist_clean.
  destruct (dir_clean_segment_spec valid valid_payload nb st fl ch R) as (st1 & -> & C1). simpl.
  destruct (negb (freelist st1 =? 0)).
  { exists st1. split_and!; [done|by eapply clean_upto_inv|by eapply clean_upto_shrunk]. }
  pose proof (clean_upto_shrunk _ _ _ C1) as S1. destruct C1 as (fl1 & ch1 & R1 & _).
  pose proof (purge_emptied (purge_order nb) (0, st1)) as P.
  destruct (foldl _ _ (purge_order nb)) as [n st2]. simpl in P.
  destruct (dir_clean_segment_spec valid valid_payload nb st2 fl1 ch1) as (st3 & E & C3);
    [by apply (emptied_rep st1)|].
  exists st3. split_and!; [done|by eapply clean_upto_inv|].
  apply (shrunk_trans _ st1); [done|]. apply (shrunk_trans _ st2); [by apply (emptied_shrunk _ _ fl1 ch1)|].
  by eapply clean_upto_shrunk.
Qed.

(** ** The retry loop of an insertion *)

Lemma sum_list_le (f g : nat -> nat) l : (forall b, b ∈ l -> (f b <= g b)%nat) ->
  (sum_list_with f l <= sum_list_with g l)%nat.
Proof.
  induction l as [|x l IH]; intros H; simpl; [done|].
  pose proof (H x ltac:(set_solver)). pose proof (IH ltac:(set_solver)) as IH'.
  apply Nat.add_le_mono; [done|exact IH'].
Qed.

Lemma sum_list_lt (f g : nat -> nat) l x : (forall b, b ∈ l -> (f b <= g b)%nat) ->
  x ∈ l -> (f x < g x)%nat -> (sum_list_with f l < sum_list_with g l)%nat.
Proof.
  intros H Hx Hlt. apply list_elem_of_split in Hx as (l1 & l2 & ->).
  pose proof (sum_list_le f g l1 ltac:(set_solver)). pose proof (sum_list_le f g l2 ltac:(set_solver)).
  rewrite !sum_list_with_app. simpl. lia.
Qed.

Lemma shrunk_count st st' : shrunk nb st st' -> (used_count nb st' <= used_count nb st)%nat.
Proof. intros H. apply sum_list_le. intros b Hb%elem_of_seq. apply sublist_length, H. lia. Qed.

Lemma shrunk_count_lt st st' b : shrunk nb st st' -> (b < nb)%nat ->
  (length (bucket_contents st' b) < length (bucket_contents st b))%nat ->
  (used_count nb st' < used_count nb st)%nat.
Proof.
  intros H Hb Hlt. apply (sum_list_lt _ _ _ b); [|by apply elem_of_seq; lia|done].
  intros b' Hb'%elem_of_seq. apply sublist_length, H. lia.
Qed.

Lemma shrunk_heads st st' : shrunk nb st st' -> all_heads nb st -> all_heads nb st'.
Proof. intros H A b e Hb He. apply (A b e Hb). by apply (elem_of_submseteq _ _ e He), sublist_submseteq, H. Qed.

(** Every entry of a clean segment with an empty free list that carries a head
    bit is in use. *)
Lemma head_in_use st ch i : seg_rep nb st [] ch -> seg_clean st ch -> (i < nb * DIR_DEPTH)%nat ->
  dir_head (ent st i) <> 0 ->
  exists b c, ch !! b = Some c /\ i ∈ dir_bucket b :: c /\ dir_offset (ent st i) <> 0.
Proof.
  intros R C Hi Hh. destruct (decide (i mod DIR_DEPTH = 0)%nat) as [Hm|Hm].
  - assert (Hb : (i / DIR_DEPTH < nb)%nat) by (apply Nat.Div0.div_lt_upper_bound; lia).
    assert (Ei : i = dir_bucket (i / DIR_DEPTH)).
    { unfold dir_bucket. pose proof (Nat.div_mod_eq i DIR_DEPTH). lia. }
    destruct (rep_bucket _ _ _ _ R Hb) as [c Hc]. exists (i / DIR_DEPTH)%nat, c.
    split_and!; [done|rewrite <- Ei; set_solver|]. intros H0. rewrite Ei in H0.
    destruct (proj2 (C _ c Hc) H0) as [_ Hp]. rewrite <- Ei in Hp. apply Hh.
    change (dir_head (dir_payload (ent st i)) = 0). by rewrite Hp.
  - destruct (proj2 (rep_slot R i)) as [Hf|(b & c & Hc & Hin)]; [done|by apply elem_of_nil in Hf|].
    exists b, c. split_and!; [done|set_solver|]. by apply (C b c Hc).
Qed.

(** The first scanned head entry is dropped by the purge. *)
Lemma purge_progress st ch b :
  seg_rep nb st [] ch -> seg_clean st ch -> all_heads nb st -> (b < nb)%nat -> bucket_contents st b <> [] ->
  let st2 := (foldl (fun acc i => purge_entry i acc) (0, st) (purge_order nb)).2 in
  (used_count nb st2 < used_count nb st)%nat.
Proof.
  intros R C A Hb Hne st2. pose proof (purge_emptied (purge_order nb) (0, st)) as P. fold st2 in P. simpl in P.
  destruct (rep_bucket _ _ _ _ R Hb) as [c Hc].
  assert (Hlt : forall j, j ∈ purge_order nb -> (j < length (ents st))%nat).
  { intros j Hj%elem_purge_order. by rewrite (sr_len _ _ _ _ R). }
  destruct (purge_first (purge_order nb) st) as (i & Hi & Hh & H0); [|done|].
  { destruct (bucket_contents st b) as [|e l] eqn:E; [done|].
    assert (He : e ∈ bucket_contents st b) by (rewrite E; set_solver).
    pose proof (A b e Hb He) as Hh. rewrite (rep_contents R b c Hc) in He. unfold pays in He.
    apply list_elem_of_filter in He as [_ He]. apply list_elem_of_fmap in He as (j & -> & Hj).
    exists j. split; [|done]. apply elem_purge_order. rewrite <- (sr_len _ _ _ _ R).
    apply elem_of_cons in Hj as [->|Hj]; [by apply (rep_head_lt R b c)|by apply (rep_ch_lt R b c)]. }
  destruct (head_in_use st ch i R C) as (b' & c' & Hb' & Hin & Hoff); [by apply elem_purge_order|done|].
  assert (Hb'lt : (b' < nb)%nat) by (rewrite <- (sr_nch _ _ _ _ R); by eapply lookup_lt_Some).
  apply (shrunk_count_lt _ _ b'); [by apply (emptied_shrunk _ _ [] ch)|done|].
  rewrite (rep_contents R b' c' Hb'), (rep_contents (emptied_rep _ _ _ _ R P) b' c' Hb').
  by apply (emptied_pays_lt _ _ _ i).
Qed.

(** A purge of a segment whose entries are all document heads frees something. *)
Lemma freelist_clean_progress st b :
  seg_inv nb st -> all_heads nb st -> (b < nb)%nat -> dir_offset (ent st (dir_bucket b)) <> 0 ->
  exists st', freelist_clean valid nb st = Some st' /\ seg_inv nb st' /\ shrunk nb st st' /\
    ((used_count nb st' < used_count nb st)%nat \/ freelist st' <> 0).
Proof.
  intros (fl & ch & R & C) A Hb H0.
  assert (Hne : bucket_contents st b <> []).
  { destruct (rep_bucket _ _ _ _ R Hb) as [c Hc]. rewrite (rep_contents R b c Hc), pays_cons.
    by rewrite decide_True. }
  unfold freelist_clean.
  destruct (dir_clean_segment_spec valid valid_payload nb st fl ch R) as (st1 & -> & C1). simpl.
  pose proof (clean_upto_shrunk _ _ _ C1) as S1.
  pose proof (clean_upto_inv _ _ _ _ _ C1) as I1.
  destruct (Z.eqb_spec (freelist st1) 0) as [F1|F1]; simpl; [|exists st1; split_and!; auto].
  destruct I1 as (fl1 & ch1 & R1 & Cl1).
  assert (fl1 = []) as -> by (destruct fl1 as [|x fl1]; [done|]; pose proof (sr_fl _ _ _ _ R1) as (Hx & Hr & _); lia).
  pose proof (purge_emptied (purge_order nb) (0, st1)) as P.
  pose proof (purge_progress st1 ch1 b R1 Cl1 (shrunk_heads _ _ S1 A) Hb) as Hpr.
  destruct (foldl _ _ (purge_order nb)) as [n st2]. simpl in P, Hpr.
  destruct (dir_clean_segment_spec valid valid_payload nb st2 [] ch1) as (st3 & E & C3);
    [by apply (emptied_rep st1)|].
  pose proof (emptied_shrunk _ _ [] ch1 R1 P) as S2. pose proof (clean_upto_shrunk _ _ _ C3) as S3.
  exists st3. split_and!; [done|by eapply clean_upto_inv|by do 2 (eapply shrunk_trans; [|done])|left].
  pose proof (shrunk_count _ _ S1). pose proof (shrunk_count _ _ S2). pose proof (shrunk_count _ _ S3).
  destruct (decide (bucket_contents st1 b = [])) as [He|He]; [|specialize (Hpr He); lia].
  assert (used_count nb st1 < used_count nb st)%nat; [|lia].
  apply (shrunk_count_lt _ _ b); [done|done|]. rewrite He. destruct (bucket_contents st b); [done|simpl; lia].
Qed.

(** What an insertion that may purge guarantees: some entries may be gone, and
    the new one is there. *)
Definition inserted_after_purge (b : nat) (e : Dir) (st st' : Seg) : Prop :=
  exists st1, seg_inv nb st1 /\ shrunk nb st st1 /\ inserted nb b e st1 st'.

Lemma room_cases b st : has_room b st \/
  (dir_is_empty (ent st (dir_bucket b)) = false /\ empty_row (dir_bucket b) st = None /\ freelist st = 0).
Proof.
  unfold has_room. destruct (dir_is_empty _) eqn:E1; [auto|].
  destruct (empty_row _ _) eqn:E2; [left; right; left; done|].
  destruct (decide (freelist st = 0)); auto.
Qed.

Lemma insert_no_room st b key tp fuel :
  dir_is_empty (ent st (dir_bucket b)) = false -> empty_row (dir_bucket b) st = None -> freelist st = 0 ->
  dir_insert_seg valid nb (S fuel) (dir_bucket b) key tp st =
    match freelist_clean valid nb st with
    | Some st' => dir_insert_seg valid nb fuel (dir_bucket b) key tp st'
    | None => None
    end.
Proof.
  intros E1 E2 E3. simpl. rewrite E1, E2. unfold freelist_pop. rewrite E3. simpl.
  by destruct (freelist_clean valid nb st).
Qed.

Lemma insert_sound st b key tp fuel st' :
  seg_inv nb st -> (b < nb)%nat -> dir_wf tp -> dir_offset tp <> 0 ->
  dir_insert_seg valid nb fuel (dir_bucket b) key tp st = Some st' ->
  inserted_after_purge b (new_entry tp (kw2 key)) st st'.
Proof.
  revert st. induction fuel as [|fuel IH]; intros st I Hb Htp Hoff E; [done|].
  destruct (room_cases b st) as [Hr|(E1 & E2 & E3)].
  - destruct (insert_with_room st b key tp fuel I Hb Htp Hoff Hr) as (st2 & E' & Hins & _).
    rewrite E in E'. simplify_eq. exists st. split_and!; [done| |done]. by intros ??.
  - rewrite insert_no_room in E by done. destruct I as (fl & ch & R & C).
    destruct (freelist_clean_spec st fl ch R) as (st1 & E' & I1 & S1). rewrite E' in E.
    destruct (IH st1 I1 Hb Htp Hoff E) as (st2 & I2 & S2 & Hins).
    exists st2. split_and!; [done|by eapply shrunk_trans|done].
Qed.

Lemma insert_all_heads_terminates st b key tp fuel :
  seg_inv nb st -> all_heads nb st -> (b < nb)%nat -> dir_wf tp -> dir_offset tp <> 0 ->
  (used_count nb st < fuel)%nat ->
  exists st', dir_insert_seg valid nb (S fuel) (dir_bucket b) key tp st = Some st'.
Proof.
  revert st. induction fuel as [|fuel IH]; intros st I A Hb Htp Hoff Hf; [lia|].
  destruct (room_cases b st) as [Hr|(E1 & E2 & E3)].
  - destruct (insert_with_room st b key tp (S fuel) I Hb Htp Hoff Hr) as (st2 & E' & _). eauto.
  - rewrite insert_no_room by done. unfold dir_is_empty in E1. bsimp.
    destruct (freelist_clean_progress st b I A Hb E1) as (st1 & -> & I1 & S1 & [Hlt|Hfl]).
    + apply IH; try done; [by eapply shrunk_heads|lia].
    + destruct (insert_with_room st1 b key tp fuel I1 Hb Htp Hoff) as (st2 & E' & _); [by right; right|].
      eauto.
Qed.
End run.
End insert.
