(* ===== verification/DirLookup.v ===== *)
(** Lookup, deletion and overwriting in one segment: what [dir_probe],
    [dir_delete] and [dir_overwrite] do to the contents of their bucket, as
    functions on the list of entries the bucket holds. *)

From S2P Require Import Prelude DirEntry DirSegment DirSegmentFacts DirOps.

(** ** Specifications on the contents of a bucket *)

Section spec.
Variable tagged : Dir -> bool.
Variable valid : Dir -> bool.

(** The first valid entry with the tag; stale entries with the tag that come
    before it are dropped. *)
Fixpoint probe_list (l : list Dir) : list Dir * option Dir :=
  match l with
  | [] => ([], None)
  | e :: l' =>
    if tagged e then
      if valid e then (e :: l', Some e) else probe_list l'
    else let '(r, h) := probe_list l' in (e :: r, h)
  end.

(** Drop, or replace, the first entry that satisfies the test. *)
Fixpoint remove_first (l : list Dir) : list Dir :=
  match l with
  | [] => []
  | e :: l' => if tagged e then l' else e :: remove_first l'
  end.

Fixpoint replace_first (x : Dir) (l : list Dir) : list Dir :=
  match l with
  | [] => []
  | e :: l' => if tagged e then x :: l' else e :: replace_first x l'
  end.
End spec.

(** The entry [dir_delete] and [dir_overwrite] look for. *)
Definition same_entry (t o : Z) (e : Dir) : bool := (dir_tag e =? t) && (dir_offset e =? o).

(** Bucket [b] of [st'] holds [l]; the other buckets hold what they held. *)
Definition bucket_is (nb b : nat) (l : list Dir) (st st' : Seg) : Prop :=
  seg_inv nb st' /\
  (forall b', (b' < nb)%nat -> b' <> b -> bucket_contents st' b' = bucket_contents st b') /\
  bucket_contents st' b = l.

(** ** Lists of entries *)

Lemma pays_all st l : (forall j, j ∈ l -> dir_offset (ent st j) <> 0) ->
  pays st l = (fun i => dir_payload (ent st i)) <$> l.
Proof.
  intros H. induction l as [|i l IH]; [done|]. rewrite pays_cons, decide_True by set_solver.
  simpl. f_equal. apply IH. set_solver.
Qed.

Lemma remove_first_app f l1 e l2 : (forall x, x ∈ l1 -> f x = false) -> f e = true ->
  remove_first f (l1 ++ e :: l2) = l1 ++ l2.
Proof.
  intros H He. induction l1 as [|x l1 IH]; simpl; [by rewrite He|].
  rewrite H by set_solver. f_equal. apply IH. set_solver.
Qed.

Lemma replace_first_app f x l1 e l2 : (forall y, y ∈ l1 -> f y = false) -> f e = true ->
  replace_first f x (l1 ++ e :: l2) = l1 ++ x :: l2.
Proof.
  intros H He. induction l1 as [|y l1 IH]; simpl; [by rewrite He|].
  rewrite H by set_solver. f_equal. apply IH. set_solver.
Qed.

Lemma remove_first_none f l : (forall x, x ∈ l -> f x = false) -> remove_first f l = l.
Proof.
  intros H. induction l as [|x l IH]; simpl; [done|]. rewrite H by set_solver. f_equal. apply IH. set_solver.
Qed.

Lemma existsb_false_elem f (l : list Dir) : existsb f l = false <-> forall x, x ∈ l -> f x = false.
Proof.
  induction l as [|x l IH]; simpl; [set_solver|]. rewrite orb_false_iff, IH. set_solver.
Qed.

Section lookup.
Context {nb : nat}.

Lemma clean_all_used st fl ch b c : seg_rep nb st fl ch -> seg_clean st ch -> ch !! b = Some c ->
  dir_offset (ent st (dir_bucket b)) <> 0 ->
  forall j, j ∈ dir_bucket b :: c -> dir_offset (ent st j) <> 0.
Proof. intros R C Hb H0 j [->|Hj]%elem_of_cons; [done|]. by apply (C b c Hb). Qed.

Lemma clean_all_used_iff st fl ch b c : seg_rep nb st fl ch -> seg_clean st ch -> ch !! b = Some c ->
  dir_offset (ent st (dir_bucket b)) = 0 -> bucket_contents st b = [].
Proof.
  intros R C Hb H0. destruct (proj2 (C b c Hb) H0) as [-> _].
  rewrite (rep_contents R b [] Hb), pays_cons, decide_False by naive_solver. done.
Qed.

(** ** Deleting one entry of a clean segment *)

Lemma deleted_clean st fl ch b c L1 i L2 st' e' :
  seg_rep nb st fl ch -> seg_clean st ch -> ch !! b = Some c -> dir_bucket b :: c = L1 ++ i :: L2 ->
  dir_offset (ent st (dir_bucket b)) <> 0 ->
  deleted nb fl ch b st L1 L2 st' e' ->
  bucket_is nb b (pays st L1 ++ pays st L2) st st' /\
  exists fl' c', seg_rep nb st' fl' (<[b := c']> ch) /\ seg_clean st' (<[b := c']> ch) /\
    pays st' L1 = pays st L1 /\
    ((e' = None /\ L2 = []) \/
     exists Lr, dir_bucket b :: c' = L1 ++ Lr /\ e' = head Lr /\ length Lr = length L2 /\
       pays st' Lr = pays st L2 /\ dir_offset (ent st' (dir_bucket b)) <> 0).
Proof.
  intros R C Hb HL H0 (fl' & c' & R' & Hfl & Hfr & Hpre & D).
  pose proof (clean_all_used _ _ _ _ _ R C Hb H0) as Hused. rewrite HL in Hused.
  assert (Hc' : <[b := c']> ch !! b = Some c') by (apply list_lookup_insert_eq; by eapply lookup_lt_Some).
  assert (Hother : forall b', (b' < nb)%nat -> b' <> b -> bucket_contents st' b' = bucket_contents st b').
  { intros b' Hb' Hne. by apply (contents_frame nb st st' fl fl' ch b c' b'). }
  assert (Hcl : bucket_clean st' b c' -> seg_clean st' (<[b := c']> ch)).
  { intros Hcl b' c0 Hb'. destruct (decide (b' = b)) as [->|Hne]; [rewrite Hc' in Hb'; by simplify_eq|].
    rewrite list_lookup_insert_ne in Hb' by done. apply (clean_frame st st' ch b); auto. }
  assert (Hp1 : pays st' L1 = pays st L1) by (by apply pays_ext, payload_map_ext).
  destruct D as [(-> & -> & -> & -> & Hclr)|(Lr & HLr & -> & Hlr & Hpay)].
  - assert (Cl : seg_clean st' (<[b := []]> ch)) by (apply Hcl; split; [set_solver|by rewrite Hclr]).
    split; [|exists fl', []; split_and!; auto].
    split_and!; [by exists fl', (<[b := []]> ch)|done|].
    rewrite (rep_contents R' b [] Hc'), pays_cons, Hclr. done.
  - assert (Hp2 : pays st' Lr = pays st L2) by (by apply pays_ext).
    assert (Hu2 : forall j, j ∈ L1 ++ Lr -> dir_offset (ent st' j) <> 0).
    { intros j [Hj|(k & Hk)%list_elem_of_lookup]%elem_of_app.
      { rewrite (payload_ext_offset st) by auto. apply Hused. set_solver. }
      assert (Hk' : ((fun i => dir_payload (ent st i)) <$> L2) !! k = Some (dir_payload (ent st' j)))
        by (by rewrite <- Hpay, list_lookup_fmap, Hk).
      rewrite list_lookup_fmap in Hk'. destruct (L2 !! k) as [x|] eqn:Ex; [|done].
      apply (inj Some) in Hk'. rewrite <- payload_offset, <- Hk', payload_offset.
      apply Hused. apply list_elem_of_lookup_2 in Ex. set_solver. }
    rewrite <- HLr in Hu2.
    assert (Cl : seg_clean st' (<[b := c']> ch)).
    { apply Hcl. split; [intros j Hj; apply Hu2; set_solver|].
      intros Hz. exfalso. apply (Hu2 (dir_bucket b)); [set_solver|done]. }
    split; [split_and!; [by exists fl', (<[b := c']> ch)|done|]|].
    + by rewrite (rep_contents R' b c' Hc'), HLr, pays_app, Hp2, Hp1.
    + exists fl', c'. split_and!; auto. right. exists Lr. split_and!; auto. apply Hu2. set_solver.
Qed.

(** ** Searching a chain *)

Lemma find_entry_spec fuel es t o i c p :
  lseg es (dir_next (es !!! i)) c 0 -> (length c < fuel)%nat ->
  (find_entry fuel es t o i p = Some None /\ forall j, j ∈ i :: c -> same_entry t o (es !!! j) = false) \/
  (exists l1 j l2, i :: c = l1 ++ j :: l2 /\
     find_entry fuel es t o i p = Some (Some (j, match last l1 with Some x => Some x | None => p end)) /\
     same_entry t o (es !!! j) = true /\ forall k, k ∈ l1 -> same_entry t o (es !!! k) = false).
Proof.
  revert fuel i p. induction c as [|n c IH]; intros fuel i p Hs Hf;
    (destruct fuel as [|fuel]; [simpl in Hf; lia|]); simpl; change ((dir_tag (es !!! i) =? t) && (dir_offset (es !!! i) =? o))
      with (same_entry t o (es !!! i)); destruct (same_entry t o (es !!! i)) eqn:Em.
  - right. exists [], i, []. split_and!; try done. set_solver.
  - left. unfold next_dir. simpl in Hs. rewrite Hs. split; [done|]. set_solver.
  - right. exists [], i, (n :: c). split_and!; try done. set_solver.
  - unfold next_dir. rewrite (lseg_head _ _ _ Hs). simpl. destruct Hs as (_ & _ & Hs).
    destruct (IH fuel n (Some i) Hs) as [[E Hn]|(l1 & j & l2 & El & E & Hm & Hn)]; [simpl in Hf; lia|left|right].
    + split; [done|]. set_solver.
    + exists (i :: l1), j, l2. split_and!; [by rewrite El| |done|set_solver].
      rewrite E. do 3 f_equal. destruct l1 as [|x l1]; [done|]. simpl.
      destruct (last (x :: l1)) eqn:El1; [done|by apply last_None in El1].
Qed.

Lemma same_entry_payload t o e : same_entry t o (dir_payload e) = same_entry t o e.
Proof. reflexivity. Qed.

(** The search of a bucket of a clean segment, on its contents. *)
Lemma find_in_bucket_spec st fl ch b c t o :
  seg_rep nb st fl ch -> seg_clean st ch -> ch !! b = Some c ->
  (find_in_bucket (ents st) t o (dir_bucket b) = Some None /\
     existsb (same_entry t o) (bucket_contents st b) = false) \/
  (exists l1 j l2, dir_bucket b :: c = l1 ++ j :: l2 /\ dir_offset (ent st (dir_bucket b)) <> 0 /\
     find_in_bucket (ents st) t o (dir_bucket b) = Some (Some (j, last l1)) /\
     existsb (same_entry t o) (bucket_contents st b) = true /\
     same_entry t o (ent st j) = true /\ forall k, k ∈ l1 -> same_entry t o (ent st k) = false).
Proof.
  intros R C Hb. unfold find_in_bucket. change (ents st !!! dir_bucket b) with (ent st (dir_bucket b)).
  destruct (Z.eqb_spec (dir_offset (ent st (dir_bucket b))) 0) as [H0|H0].
  - left. split; [done|]. by rewrite (clean_all_used_iff st fl ch b c).
  - pose proof (clean_all_used _ _ _ _ _ R C Hb H0) as Hu.
    rewrite (rep_contents R b c Hb), pays_all by done.
    pose proof (rep_chain_short nb _ _ _ _ _ R Hb).
    destruct (find_entry_spec (S (length (ents st))) (ents st) t o (dir_bucket b) c None)
      as [[E Hn]|(l1 & j & l2 & El & E & Hm & Hn)]; [by apply (sr_chain _ _ _ _ R)|lia|left|right].
    + split; [done|]. apply existsb_false_elem. intros x (j & -> & Hj)%list_elem_of_fmap.
      rewrite same_entry_payload. by apply Hn.
    + exists l1, j, l2. split_and!; try done.
      * rewrite E. by destruct (last l1).
      * apply existsb_exists. exists (dir_payload (ent st j)). split; [|done].
        apply list_elem_of_In, list_elem_of_fmap. exists j. split; [done|]. rewrite El. set_solver.
Qed.

Lemma dir_delete_spec st b key del :
  seg_inv nb st -> (b < nb)%nat ->
  let m := same_entry (DIR_MASK_TAG (kw2 key)) (dir_offset del) in
  exists st', dir_delete_seg (dir_bucket b) key del st =
      Some (st', Zbool (existsb m (bucket_contents st b))) /\
    bucket_is nb b (remove_first m (bucket_contents st b)) st st' /\
    dir_used st' = dir_used st - Zbool (existsb m (bucket_contents st b)).
Proof.
  intros (fl & ch & R & C) Hb. cbv zeta. destruct (rep_bucket st fl ch b R Hb) as [c Hc].
  unfold dir_delete_seg.
  destruct (find_in_bucket_spec st fl ch b c (DIR_MASK_TAG (kw2 key)) (dir_offset del) R C Hc)
    as [[-> Hn]|(l1 & j & l2 & El & H0 & -> & Hy & Hm & Hl1)]; simpl.
  - exists st. rewrite Hn. simpl. split_and!; [done| |lia].
    rewrite remove_first_none by (by apply existsb_false_elem).
    split_and!; [by exists fl, ch|done|done].
  - rewrite Hy. simpl. eexists. split_and!; [done| |by rewrite delete_entry_used].
    assert (R1 : seg_rep nb (CACHE_DEC_DIR_USED st) fl ch) by (by apply (rep_stats _ st)).
    pose proof (delete_entry_deleted _ _ _ _ _ _ _ _ _ R1 Hc El) as D. simpl in D.
    destruct (deleted_clean _ _ _ _ _ _ _ _ _ _ R1 C Hc El H0 D) as ((I & Ho & Hct) & _). split_and!; [done|done|]. rewrite Hct.
    rewrite (rep_contents R b c Hc), El, !pays_app.
    pose proof (clean_all_used _ _ _ _ _ R C Hc H0) as Hu. rewrite El in Hu.
    rewrite (pays_cons _ j), decide_True by (apply Hu; set_solver). simpl.
    rewrite remove_first_app; [done| |done].
    intros x Hx. rewrite pays_all in Hx by set_solver. apply list_elem_of_fmap in Hx as (k & -> & Hk).
    rewrite same_entry_payload. by apply Hl1.
Qed.

(** ** Overwriting *)

Lemma fill_found st fl ch b c l1 j l2 tp t :
  seg_rep nb st fl ch -> seg_clean st ch -> ch !! b = Some c -> dir_bucket b :: c = l1 ++ j :: l2 ->
  dir_offset (ent st (dir_bucket b)) <> 0 -> dir_wf tp -> dir_offset tp <> 0 ->
  bucket_is nb b (pays st l1 ++ new_entry tp t :: pays st l2) st (fill_entry j tp t st).
Proof.
  intros R C Hb El H0 Htp Hoff. assert (Hj : j ∈ dir_bucket b :: c) by (rewrite El; set_solver).
  pose proof (rep_ch_NoDup R b c Hb) as Hnd. rewrite El in Hnd.
  apply NoDup_app in Hnd as (_ & Hd & Hnd). apply NoDup_cons in Hnd as [Hj2 _].
  pose proof (clean_all_used _ _ _ _ _ R C Hb H0) as Hu.
  destruct (fill_rep st fl ch j tp t R) as (R' & Hp & Hne);
    [by apply (chain_fl_disj R b c)| |done|].
  { apply elem_of_cons in Hj as [->|Hj]; [by apply (rep_head_lt R b c)|by apply (rep_ch_lt R b c)]. }
  set (V := fill_entry j tp t st) in *. clearbody V.
  assert (HoV : dir_offset (ent V j) <> 0) by (rewrite <- payload_offset, Hp; done).
  assert (Hfr : frame_other ch b st V).
  { intros b' c' k Hb1 Hb' Hk. rewrite Hne; [done|]. intros ->. apply Hb1.
    by apply (rep_ch_disj R b' b c' c _ Hb' Hb Hk). }
  assert (HuV : forall k, k ∈ dir_bucket b :: c -> dir_offset (ent V k) <> 0).
  { intros k Hk. destruct (decide (k = j)) as [->|Hkj]; [done|]. rewrite Hne by done. auto. }
  split_and!.
  - exists fl, ch. split; [done|]. intros b' c' Hb'. destruct (decide (b' = b)) as [->|Hbb].
    + rewrite Hb in Hb'. simplify_eq. split; [intros k Hk; apply HuV; set_solver|].
      intros Hz. exfalso. apply (HuV (dir_bucket b)); [set_solver|done].
    + apply (clean_frame st V ch b); auto.
  - intros b' Hb' Hbb. apply (contents_frame nb st V fl fl ch b c b'); try done. by rewrite list_insert_id.
  - rewrite (rep_contents R' b c Hb), El, pays_app, (pays_cons V), decide_True by done. rewrite Hp.
    f_equal; [|simpl; f_equal]; apply pays_ext, payload_map_ext; intros k Hk; rewrite Hne; try done;
      intros ->; [apply (Hd j Hk); set_solver|done].
Qed.

Section run.
Variable valid : Dir -> bool.
Hypothesis valid_payload : forall e, valid (dir_payload e) = valid e.

(** Overwriting an entry that is there replaces it in place. *)
Lemma dir_overwrite_found st b key dir ow mo fuel :
  seg_inv nb st -> (b < nb)%nat -> dir_wf dir -> dir_offset dir <> 0 ->
  let m := same_entry (DIR_MASK_TAG (kw2 key)) (dir_offset ow) in
  existsb m (bucket_contents st b) = true ->
  exists st', dir_overwrite_seg valid nb (S fuel) (dir_bucket b) key dir ow mo 1 st = Some (st', 1) /\
    bucket_is nb b (replace_first m (new_entry dir (DIR_MASK_TAG (kw2 key))) (bucket_contents st b)) st st' /\
    dir_used st' = dir_used st.
Proof.
  intros (fl & ch & R & C) Hb Hd Hoff. cbv zeta. intros Hex. destruct (rep_bucket st fl ch b R Hb) as [c Hc].
  cbn [dir_overwrite_seg].
  destruct (find_in_bucket_spec st fl ch b c (DIR_MASK_TAG (kw2 key)) (dir_offset ow) R C Hc)
    as [[-> Hn]|(l1 & j & l2 & El & H0 & -> & Hy & Hm & Hl1)]; simpl; [congruence|].
  eexists. split_and!; [done| |done].
  destruct (fill_found st fl ch b c l1 j l2 dir (DIR_MASK_TAG (kw2 key)) R C Hc El H0 Hd Hoff) as (I & Ho & Hct).
  split_and!; [by apply (inv_stats _ _ _ I)|done|].
  rewrite (contents_ents (fill_entry j dir (DIR_MASK_TAG (kw2 key)) st)) by done. rewrite Hct.
  pose proof (clean_all_used _ _ _ _ _ R C Hc H0) as Hu. rewrite El in Hu.
  rewrite (rep_contents R b c Hc), El, !pays_app, (pays_cons _ j), decide_True by (apply Hu; set_solver).
  simpl. rewrite replace_first_app; [done| |done].
  intros x Hx. rewrite pays_all in Hx by set_solver. apply list_elem_of_fmap in Hx as (k & -> & Hk).
  rewrite same_entry_payload. by apply Hl1.
Qed.

(** Nothing to overwrite, and overwriting required: nothing changes. *)
Lemma dir_overwrite_missing st b key dir ow fuel res :
  seg_inv nb st -> (b < nb)%nat ->
  existsb (same_entry (DIR_MASK_TAG (kw2 key)) (dir_offset ow)) (bucket_contents st b) = false ->
  dir_overwrite_seg valid nb (S fuel) (dir_bucket b) key dir ow true res st = Some (st, 0).
Proof.
  intros (fl & ch & R & C) Hb Hex. destruct (rep_bucket st fl ch b R Hb) as [c Hc].
  cbn [dir_overwrite_seg].
  destruct (find_in_bucket_spec st fl ch b c (DIR_MASK_TAG (kw2 key)) (dir_offset ow) R C Hc)
    as [[-> Hn]|(l1 & j & l2 & El & H0 & -> & Hy & Hm & Hl1)]; simpl; [done|congruence].
Qed.

(** Nothing to overwrite, and not required: the entry is inserted, result 0. *)
Lemma dir_overwrite_inserts st b key dir ow fuel res :
  seg_inv nb st -> (b < nb)%nat -> dir_wf dir -> dir_offset dir <> 0 -> has_room b st ->
  existsb (same_entry (DIR_MASK_TAG (kw2 key)) (dir_offset ow)) (bucket_contents st b) = false ->
  exists st', dir_overwrite_seg valid nb (S fuel) (dir_bucket b) key dir ow false res st = Some (st', 0) /\
    inserted nb b (new_entry dir (DIR_MASK_TAG (kw2 key))) st st' /\ dir_used st' = dir_used st + 1.
Proof.
  intros (fl & ch & R & C) Hb Hd Hoff Hroom Hex. destruct (rep_bucket st fl ch b R Hb) as [c Hc].
  cbn [dir_overwrite_seg].
  destruct (find_in_bucket_spec st fl ch b c (DIR_MASK_TAG (kw2 key)) (dir_offset ow) R C Hc)
    as [[-> Hn]|(l1 & j & l2 & El & H0 & -> & Hy & Hm & Hl1)]; simpl; [|congruence].
  set (t := DIR_MASK_TAG (kw2 key)). unfold dir_is_empty.
  destruct (Z.eqb_spec (dir_offset (ent st (dir_bucket b))) 0) as [H0|H0].
  { eexists. split; [reflexivity|]. split; [|done].
    apply (inserted_stats _ _ _ _ (fill_entry (dir_bucket b) dir t st)); [|done|done].
    by apply (fill_head_inserted st fl ch). }
  destruct (empty_row (dir_bucket b) st) as [i|] eqn:Er.
  { pose proof (empty_row_free st fl ch b i R C Hb Er) as Hi.
    apply list_elem_of_split in Hi as (f1 & f2 & ->).
    pose proof (unlink_detached R) as D. eexists. split; [reflexivity|]. split.
    - apply (inserted_stats _ _ _ _ (fill_entry i dir t (link_entry (dir_bucket b) i (unlink_from_freelist i st)))); [|done|done].
      by apply (link_inserted st _ ch f1 i f2).
    - unfold unlink_from_freelist. repeat case_match; done. }
  assert (Hfl : freelist st <> 0).
  { destruct Hroom as [Hr|[Hr|Hr]]; [|done|done]. unfold dir_is_empty in Hr. by bsimp. }
  destruct fl as [|i f2]; [by destruct (Hfl (sr_fl _ _ _ _ R))|].
  destruct (pop_detached nb valid st ch i f2 R) as (U & E & D & HU). rewrite E.
  eexists. split; [reflexivity|]. split; [|simpl; by f_equal].
  apply (inserted_stats _ _ _ _ (fill_entry i dir t (link_entry (dir_bucket b) i U))); [|done|done].
  by apply (link_inserted st U ch [] i f2).
Qed.

(** ** Probing *)

Section probe.
Variable key : CacheKey.
Notation tagged := (fun e => dir_compare_tag e key).
Notation plist := (probe_list tagged valid).

(** The outcome of probing the rest [L2] of bucket [b]'s chain behind [L1]. *)
Definition probed (b : nat) (st : Seg) (L1 L2 : list nat) (st' : Seg) (r : probe_end) : Prop :=
  bucket_is nb b (pays st L1 ++ (plist (pays st L2)).1) st st' /\
  match r with
  | Hit e i => (plist (pays st L2)).2 = Some (dir_payload e) /\ ent st' i = e
  | Miss c => (plist (pays st L2)).2 = None /\ c = None
  end.

Lemma bucket_is_trans b l st1 st2 st3 l0 :
  bucket_is nb b l0 st1 st2 -> bucket_is nb b l st2 st3 -> bucket_is nb b l st1 st3.
Proof.
  intros (_ & O1 & _) (I & O2 & H). split_and!; [done| |done].
  intros b' Hb' Hne. rewrite O2 by done. auto.
Qed.

Lemma bucket_is_refl st b : seg_inv nb st -> bucket_is nb b (bucket_contents st b) st st.
Proof. intros I. repeat split; done. Qed.

Lemma probe_go_spec fuel st fl ch b c L1 i L2 :
  seg_rep nb st fl ch -> seg_clean st ch -> ch !! b = Some c -> dir_bucket b :: c = L1 ++ i :: L2 ->
  dir_offset (ent st (dir_bucket b)) <> 0 -> (length L2 < fuel)%nat ->
  exists st' r, probe_go valid fuel key i (last L1) None st = Some (st', r) /\ probed b st L1 (i :: L2) st' r.
Proof.
  revert st fl ch c L1 i L2. induction fuel as [|fuel IH]; [lia|].
  intros st fl ch c L1 i L2 R C Hb HL H0 Hf. cbn [probe_go].
  pose proof (clean_all_used _ _ _ _ _ R C Hb H0) as Hu. rewrite HL in Hu.
  assert (Hpi : pays st (i :: L2) = dir_payload (ent st i) :: pays st L2).
  { rewrite pays_cons, decide_True by (apply Hu; set_solver). done. }
  assert (Hself : bucket_is nb b (pays st L1 ++ pays st (i :: L2)) st st).
  { rewrite <- pays_app, <- HL, <- (rep_contents R b c Hb). apply bucket_is_refl. by exists fl, ch. }
  rewrite Hpi in Hself. unfold probed. rewrite Hpi. cbn [probe_list].
  change (dir_compare_tag (dir_payload (ent st i)) key) with (dir_compare_tag (ent st i) key).
  rewrite valid_payload. destruct (dir_compare_tag (ent st i) key) eqn:Et.
  - destruct (valid (ent st i)) eqn:Ev.
    + exists st, (Hit (ent st i) i). by split_and!.
    + assert (R1 : seg_rep nb (CACHE_DEC_DIR_USED st) fl ch) by (by apply (rep_stats _ st)).
      pose proof (delete_entry_deleted _ _ _ _ _ _ _ _ _ R1 Hb HL) as D. cbv zeta in D.
      destruct (dir_delete_entry i (last L1) (CACHE_DEC_DIR_USED st)) as [st1 e']. simpl in D.
      destruct (deleted_clean _ _ _ _ _ _ _ _ _ _ R1 C Hb HL H0 D)
        as (B & fl' & c' & R' & C' & Hp1 & D'). change (pays (CACHE_DEC_DIR_USED st)) with (pays st) in *.
      assert (Hc' : <[b := c']> ch !! b = Some c') by (apply list_lookup_insert_eq; by eapply lookup_lt_Some).
      destruct D' as [[-> ->]|(Lr & HLr & -> & Hlr & Hp2 & H1)].
      * exists st1, (Miss None). by split_and!.
      * destruct Lr as [|k Lr].
        -- destruct L2; [|done]. exists st1, (Miss None). by split_and!.
        -- destruct (IH st1 fl' _ c' L1 k Lr R' C' Hc' HLr H1) as (st2 & r & E & B2 & Hr); [simpl in Hlr; lia|].
           rewrite Hp1, Hp2 in *. exists st2, r. split_and!; [done| |done].
           by apply (bucket_is_trans b _ st st1 st2 (pays st L1 ++ pays st L2)).
  - assert (Hnext : next_dir (ents st) i = head L2).
    { pose proof (sr_chain _ _ _ _ R _ _ Hb) as Hc. unfold next_dir.
      change (ents st !!! i) with (ent st i).
      destruct L1 as [|h L1]; simplify_eq/=; [by apply (lseg_head (ents st))|].
      apply lseg_app in Hc as (m & _ & _ & _ & Hc). by apply (lseg_head (ents st)). }
    rewrite Hnext. destruct L2 as [|k L2]; simpl.
    + exists st, (Miss None). by split_and!.
    + destruct (IH st fl ch c (L1 ++ [i]) k L2 R C Hb) as (st2 & r & E & B2 & Hr);
        [by rewrite <- app_assoc|done|simpl in Hf; lia|].
      rewrite last_snoc in E. exists st2, r. split; [done|].
      rewrite pays_app, pays_single, <- app_assoc in B2 by (apply Hu; set_solver).
      destruct (plist (pays st (k :: L2))) as [q h]. simpl in *. by split_and!.
Qed.

(** While the previous hit has not been met, the walk deletes nothing. *)
Lemma probe_go_skip fuel st i c p cc :
  lseg (ents st) (dir_next (ent st i)) c 0 -> (length c < fuel)%nat ->
  (forall j, j ∈ i :: c -> j = cc -> dir_compare_tag (ent st j) key = false) ->
  probe_go valid fuel key i p (Some cc) st = Some (st, Miss (Some cc)).
Proof.
  revert fuel i p. induction c as [|n c IH]; intros fuel i p Hs Hf Hn;
    (destruct fuel as [|fuel]; [simpl in Hf; lia|]); cbn [probe_go];
    unfold next_dir; change (ents st !!! i) with (ent st i); rewrite (lseg_head _ _ _ Hs); cbn [head].
  - destruct (dir_compare_tag (ent st i) key) eqn:Et; [|done]. case_decide; [|done].
    rewrite Hn in Et; [done|set_solver|done].
  - destruct Hs as (_ & _ & Hs).
    rewrite IH by (done || (simpl in Hf; lia) || (intros; apply Hn; [set_solver|done])).
    destruct (dir_compare_tag (ent st i) key) eqn:Et; [|done]. case_decide; [|done].
    rewrite Hn in Et; [done|set_solver|done].
Qed.

(** When it is met, the walk goes on behind it as a first probe would. *)
Lemma probe_go_resume fuel st l1 cc l2 p i c :
  lseg (ents st) (dir_next (ent st i)) c 0 -> (length c < fuel)%nat -> NoDup (i :: c) ->
  i :: c = l1 ++ cc :: l2 -> dir_compare_tag (ent st cc) key = true ->
  exists fuel', (length l2 <= fuel')%nat /\
  probe_go valid fuel key i p (Some cc) st =
    match head l2 with
    | None => Some (CACHE_INC_DIR_COLLISIONS st, Miss None)
    | Some j => probe_go valid fuel' key j (Some cc) None (CACHE_INC_DIR_COLLISIONS st)
    end.
Proof.
  revert fuel i p l1. induction c as [|n c IH]; intros fuel i p l1 Hs Hf Hnd El Et;
    (destruct fuel as [|fuel]; [simpl in Hf; lia|]); cbn [probe_go];
    unfold next_dir; change (ents st !!! i) with (ent st i); rewrite (lseg_head _ _ _ Hs); cbn [head].
  - destruct l1 as [|x [|]]; simplify_eq/=. exists fuel. rewrite Et, decide_True by done. split; [simpl; lia|done].
  - destruct Hs as (_ & _ & Hs). apply NoDup_cons in Hnd as [Hni Hnd]. simpl in Hf. destruct l1 as [|x l1].
    + injection El as -> <-. exists fuel. rewrite Et, decide_True by done. split; [simpl; lia|done].
    + injection El as <- El. assert (cc <> i) by (intros ->; apply Hni; rewrite El; set_solver).
      destruct (IH fuel n (Some i) l1 Hs ltac:(lia) Hnd El Et) as (fuel' & Hf' & E).
      exists fuel'. split; [done|]. rewrite decide_False by done. rewrite E.
      by destruct (dir_compare_tag (ent st i) key).
Qed.

(** A pass over the bucket with no previous hit to skip. *)
Lemma probe_pass_spec st b :
  seg_inv nb st -> (b < nb)%nat ->
  exists st' r, probe_pass valid key (dir_bucket b) None st = Some (st', r) /\
    bucket_is nb b (plist (bucket_contents st b)).1 st st' /\
    match r with
    | Hit e i => (plist (bucket_contents st b)).2 = Some (dir_payload e) /\ ent st' i = e
    | Miss c => (plist (bucket_contents st b)).2 = None /\ c = None
    end.
Proof.
  intros (fl & ch & R & C) Hb. destruct (rep_bucket st fl ch b R Hb) as [c Hc].
  unfold probe_pass. destruct (Z.eqb_spec (dir_offset (ent st (dir_bucket b))) 0) as [H0|H0].
  - exists st, (Miss None). pose proof (clean_all_used_iff st fl ch b c R C Hc H0) as E. rewrite E. simpl.
    split_and!; try done. rewrite <- E. apply bucket_is_refl. by exists fl, ch.
  - pose proof (rep_chain_short nb _ _ _ _ _ R Hc).
    destruct (probe_go_spec (S (length (ents st))) st fl ch b c [] (dir_bucket b) c) as (st' & r & E & B & Hr);
      [done..|lia|]. rewrite <- (rep_contents R b c Hc) in B, Hr. exists st', r. by split_and!.
Qed.

Definition hit_of (r : option (Dir * nat)) : option Dir := (fun x => dir_payload x.1) <$> r.

Lemma dir_probe_first st b :
  seg_inv nb st -> (b < nb)%nat ->
  exists st' r, dir_probe_seg valid key (dir_bucket b) None st = Some (st', r) /\
    bucket_is nb b (plist (bucket_contents st b)).1 st st' /\
    hit_of r = (plist (bucket_contents st b)).2 /\ (forall e i, r = Some (e, i) -> ent st' i = e).
Proof.
  intros I Hb. unfold dir_probe_seg.
  destruct (probe_pass_spec st b I Hb) as (st' & r & -> & B & Hr). simpl. destruct r as [e i|c].
  - destruct Hr as [Hr He]. exists st', (Some (e, i)). split_and!; [done|done|done|]. naive_solver.
  - destruct Hr as [Hr ->]. exists st', None. by split_and!.
Qed.

(** Probing again from the previous hit [cc] goes on behind it and leaves the
    entries up to it alone. *)
Lemma dir_probe_next st b l1 cc l2 :
  seg_inv nb st -> (b < nb)%nat ->
  walk (length (ents st)) (ents st) (Some (dir_bucket b)) = l1 ++ cc :: l2 ->
  dir_offset (ent st (dir_bucket b)) <> 0 -> dir_compare_tag (ent st cc) key = true ->
  exists st' r, dir_probe_seg valid key (dir_bucket b) (Some cc) st = Some (st', r) /\
    bucket_is nb b (pays st (l1 ++ [cc]) ++ (plist (pays st l2)).1) st st' /\
    hit_of r = (plist (pays st l2)).2.
Proof.
  intros (fl & ch & R & C) Hb Hw H0 Et. destruct (rep_bucket st fl ch b R Hb) as [c Hc].
  rewrite (rep_walk R b c Hc) in Hw. unfold dir_probe_seg, probe_pass.
  destruct (Z.eqb_spec (dir_offset (ent st (dir_bucket b))) 0) as [|_]; [done|].
  pose proof (rep_chain_short nb _ _ _ _ _ R Hc).
  destruct (probe_go_resume (S (length (ents st))) st l1 cc l2 None (dir_bucket b) c) as (f' & Hf' & ->);
    [by apply (sr_chain _ _ _ _ R)|lia|by apply (rep_ch_NoDup R)|done|done|].
  assert (R1 : seg_rep nb (CACHE_INC_DIR_COLLISIONS st) fl ch) by (by apply (rep_stats _ st)).
  destruct l2 as [|j l2]; simpl.
  - exists (CACHE_INC_DIR_COLLISIONS st), None. split_and!; [done| |done].
    split_and!; [by exists fl, ch|done|]. rewrite (rep_contents R1 b c Hc), Hw. by rewrite app_nil_r.
  - destruct (probe_go_spec f' (CACHE_INC_DIR_COLLISIONS st) fl ch b c (l1 ++ [cc]) j l2)
      as (st' & r & E & B & Hr); [done|done|done|by rewrite <- app_assoc|done|simpl in Hf'; lia|].
    rewrite last_snoc in E. rewrite E. simpl. change (pays (CACHE_INC_DIR_COLLISIONS st)) with (pays st) in *.
    destruct r as [e i|x].
    + destruct Hr as [Hr He]. exists st', (Some (e, i)). by split_and!.
    + destruct Hr as [Hr ->]. exists st', None. by split_and!.
Qed.
End probe.
End run.
End lookup.
