(* ===== verification/DirLoop.v ===== *)
(** Loop detection on directory chains: the two-speed walk of
    [dir_bucket_loop_check] always ends, and tells a chain that ends from one
    that runs into a cycle; with it, the free list length and the accounting
    of a segment. *)

From S2P Require Import Prelude DirEntry DirSegment DirSegmentFacts DirOps DirLookup.

(** The pointer after [k] links from entry [i]. *)
Definition after (es : list Dir) (i k : nat) : option nat :=
  Nat.iter k (fun o => o ≫= next_dir es) (Some i).

(** The walk over one bucket of [dir_segment_accounted]: entries in use, empty
    entries, and the sum of the approximate sizes of those in use. *)
Section accounting.
Variables valid agg_valid : Dir -> bool.

Record Account := mkAccount {
  ac_used : Z; ac_empty : Z; ac_valid : Z; ac_agg_valid : Z; ac_agg_size : Z }.

Definition account_entry (e : Dir) (a : Account) : Account :=
  if dir_offset e =? 0 then
    mkAccount (ac_used a) (ac_empty a + 1) (ac_valid a) (ac_agg_valid a) (ac_agg_size a)
  else
    mkAccount (ac_used a + 1) (ac_empty a) (ac_valid a + Zbool (valid e))
              (ac_agg_valid a + Zbool (agg_valid e)) (ac_agg_size a + dir_approx_size e).

Fixpoint account_bucket (fuel : nat) (es : list Dir) (e : option nat) (a : Account) : option Account :=
  match e with
  | None => Some a
  | Some i =>
    match fuel with
    | O => None
    | S fuel' => account_bucket fuel' es (next_dir es i) (account_entry (es !!! i) a)
    end
  end.

(** The counts, the average size, and whether all but [offby] entries of the
    segment are accounted for. *)
Definition dir_segment_accounted (nb : nat) (offby : Z) (st : Seg)
  : option (Z * Account * Z * bool * Seg) :=
  '(free, st1) ← dir_freelist_length nb st;
  a ← forM (seq 0 nb)
        (fun bi a => account_bucket (S (length (ents st1))) (ents st1) (Some (dir_bucket bi)) a)
        (mkAccount 0 0 0 0 0);
  let avg := if ac_used a =? 0 then 0 else i32 (ac_agg_size a `quot` ac_used a) in
  Some (free, a, avg,
        Z.of_nat nb * Z.of_nat DIR_DEPTH - (free + ac_used a + ac_empty a) <=? offby, st1).
End accounting.

(** ** Iterated links *)

Lemma after_S es i k : after es i (S k) = after es i k ≫= next_dir es.
Proof. reflexivity. Qed.

Lemma after_plus es i a b : after es i (a + b) = after es i a ≫= (fun j => after es j b).
Proof.
  induction b as [|b IH].
  - rewrite Nat.add_0_r. by destruct (after es i a).
  - rewrite Nat.add_succ_r, after_S, IH. by destruct (after es i a).
Qed.

Lemma after_None_mono es i a b : (a <= b)%nat -> after es i a = None -> after es i b = None.
Proof. intros Hle H. replace b with (a + (b - a))%nat by lia. by rewrite after_plus, H. Qed.

(** A walk that has not ended is inside the segment. *)
Lemma after_lt es i k j : after es i k = Some j -> after es i (S k) <> None -> (j < length es)%nat.
Proof.
  intros H1 H2. rewrite after_S, H1 in H2. simpl in H2. unfold next_dir in H2.
  destruct (decide (j < length es)%nat); [done|].
  rewrite list_lookup_total_alt, lookup_ge_None_2 in H2 by lia. by simpl in H2.
Qed.

Lemma after_cycle es i a b k : (a <= k)%nat -> after es i a = after es i (a + b) ->
  after es i (k + b) = after es i k.
Proof.
  intros Hk H. replace (k + b)%nat with (a + b + (k - a))%nat by lia.
  replace k with (a + (k - a))%nat at 2 by lia. by rewrite !after_plus, <- after_plus, <- H.
Qed.

Lemma after_cycle_mul es i a b k m : (a <= k)%nat -> after es i a = after es i (a + b) ->
  after es i (k + m * b) = after es i k.
Proof.
  intros Hk H. induction m as [|m IH]; [by rewrite Nat.add_0_r|].
  replace (k + S m * b)%nat with (k + m * b + b)%nat by lia.
  rewrite (after_cycle es i a b) by (done || lia). done.
Qed.

(** A walk of more than [length es] links revisits an entry. *)
Lemma after_pigeon es i : after es i (S (length es)) <> None ->
  exists a b, (a < b <= length es)%nat /\ after es i a = after es i b.
Proof.
  intros Hend.
  destruct (decide (Exists (fun b => Exists (fun a => after es i a = after es i b) (seq 0 b))
    (seq 0 (S (length es))))) as [H|H].
  - apply Exists_exists in H as (b & Hb & H). apply Exists_exists in H as (a & Ha & H).
    apply elem_of_seq in Ha, Hb. exists a, b. split; [lia|done].
  - exfalso.
    assert (Hv : forall k, (k <= length es)%nat -> exists j, after es i k = Some j /\ (j < length es)%nat).
    { intros k Hk. assert (H1 : after es i (S k) <> None).
      { intros H1. apply (after_None_mono es i (S k) (S (length es))) in H1; [done|lia]. }
      destruct (after es i k) as [j|] eqn:Ej; [|by rewrite after_S, Ej in H1].
      exists j. split; [done|]. by apply (after_lt es i k). }
    set (l := (fun k => default 0%nat (after es i k)) <$> seq 0 (S (length es))).
    assert (Hnd : NoDup l).
    { apply NoDup_alt. intros x y v Hx Hy. unfold l in Hx, Hy.
      rewrite list_lookup_fmap_Some in Hx, Hy.
      destruct Hx as (x' & -> & Hx), Hy as (y' & Hxy & Hy).
      apply lookup_seq in Hx as [-> Hx], Hy as [-> Hy]. simpl in Hxy.
      destruct (Hv x ltac:(lia)) as (vx & Ex & _), (Hv y ltac:(lia)) as (vy & Ey & _). rewrite Ex, Ey in Hxy. simpl in Hxy.
      destruct (decide (x = y)); [done|]. exfalso. apply H.
      destruct (decide (x < y)%nat).
      - apply Exists_exists. exists y. split; [apply elem_of_seq; lia|].
        apply Exists_exists. exists x. split; [apply elem_of_seq; lia|congruence].
      - apply Exists_exists. exists x. split; [apply elem_of_seq; lia|].
        apply Exists_exists. exists y. split; [apply elem_of_seq; lia|congruence]. }
    assert (Hsub : l ⊆+ seq 0 (length es)).
    { apply NoDup_submseteq; [done|]. intros v (k & -> & Hk%elem_of_seq)%list_elem_of_fmap.
      destruct (Hv k ltac:(lia)) as (j & -> & Hj). apply elem_of_seq. simpl. lia. }
    apply submseteq_length in Hsub. unfold l in Hsub. rewrite length_fmap, !length_seq in Hsub. lia.
Qed.

(** ** The tortoise and the hare *)

Lemma loop_check_ends fuel es i k n :
  after es i n = None -> (n <= k + k + fuel + fuel)%nat -> (forall j, (1 <= j <= k)%nat -> after es i (j + j) <> after es i j) ->
  loop_check_go fuel es (after es i k) (after es i (k + k)) = Some true.
Proof.
  revert k. induction fuel as [|fuel IH]; intros k Hn Hk Hne.
  - rewrite (after_None_mono es i n (k + k)) by (done || lia). done.
  - destruct (after es i (k + k)) as [h|] eqn:Eh; [|done]. cbn [loop_check_go].
    destruct (next_dir es h) as [h1|] eqn:Eh1; [|done].
    assert (E1 : after es i (S k + S k) = next_dir es h1).
    { replace (S k + S k)%nat with (S (S (k + k))) by lia. by rewrite !after_S, Eh; simpl; rewrite Eh1. }
    change (after es i k ≫= next_dir es) with (after es i (S k)). rewrite <- E1.
    case_decide as Hd.
    + destruct (after es i (S k)) as [t|] eqn:Et.
      * exfalso. assert (Hs : forall m, after es i (S k + m * S k) = after es i (S k)).
        { intros m. apply (after_cycle_mul es i (S k) (S k)); [done|]. by rewrite Hd, Et. }
        assert (Hnn : after es i (S k + n * S k) = None) by (apply (after_None_mono es i n); [nia|done]).
        rewrite Hs, Et in Hnn. done.
      * exfalso. apply (after_None_mono es i (S k) (S (k + k))) in Et; [|lia].
        rewrite after_S, Eh in Et. simpl in Et. congruence.
    + apply IH; [done|lia|]. intros j Hj. destruct (decide (j = S k)) as [->|]; [congruence|]. apply Hne. lia.
Qed.

Lemma loop_check_cycle fuel es i k m :
  (forall n, after es i n <> None) -> (k < m <= k + fuel)%nat -> after es i (m + m) = after es i m ->
  loop_check_go fuel es (after es i k) (after es i (k + k)) = Some false.
Proof.
  intros Hinf. revert k. induction fuel as [|fuel IH]; intros k Hm E; [lia|].
  destruct (after es i (k + k)) as [h|] eqn:Eh; [|by destruct (Hinf (k + k)%nat)]. cbn [loop_check_go].
  destruct (next_dir es h) as [h1|] eqn:Eh1.
  2: { exfalso. apply (Hinf (S (k + k))). by rewrite after_S, Eh. }
  assert (E1 : after es i (S k + S k) = next_dir es h1).
  { replace (S k + S k)%nat with (S (S (k + k))) by lia. by rewrite !after_S, Eh; simpl; rewrite Eh1. }
  change (after es i k ≫= next_dir es) with (after es i (S k)). rewrite <- E1.
  case_decide as Hd; [done|]. apply IH; [|done]. destruct (decide (m = S k)) as [->|]; [done|lia].
Qed.

(** A walk that revisits an entry never ends. *)
Lemma after_revisit es i a b n : (a < b)%nat -> after es i a = after es i b -> after es i a <> None ->
  after es i n <> None.
Proof.
  intros Hlt E Ha Hn. apply Ha.
  rewrite <- (after_cycle_mul es i a (b - a) a n); [apply (after_None_mono es i n); [nia|done]|done|].
  by replace (a + (b - a))%nat with b by lia.
Qed.

(** Within the fuel its caller passes, the check gives its answer. *)
Lemma loop_check_decides es i :
  dir_bucket_loop_check (Some i) es =
    Some (match after es i (S (length es)) with None => true | Some _ => false end).
Proof.
  unfold dir_bucket_loop_check. destruct (after es i (S (length es))) as [x|] eqn:E.
  - destruct (after_pigeon es i) as (a & b & Hab & Heq); [congruence|].
    assert (Ha : after es i a <> None).
    { intros H. apply (after_None_mono es i a (S (length es))) in H; [congruence|lia]. }
    assert (Hb0 : (b - a <> 0)%nat) by lia.
    pose proof (Nat.div_mod_eq a (b - a)) as Hdm. pose proof (Nat.mod_upper_bound a (b - a) Hb0) as Hmod.
    set (m := ((a / (b - a) + 1) * (b - a))%nat).
    apply (loop_check_cycle _ es i 0 m); [|unfold m; nia|].
    + intros n. apply (after_revisit es i a b); [lia|done|done].
    + unfold m at 2. apply (after_cycle_mul es i a (b - a)); [unfold m; nia|].
      by replace (a + (b - a))%nat with b by lia.
  - apply (loop_check_ends _ es i 0 (S (length es))); [done|lia|]. intros j Hj. lia.
Qed.

Lemma after_walk es i n : after es i n = None -> after es i (S (length es)) = None.
Proof.
  intros Hn. destruct (after es i (S (length es))) as [x|] eqn:E; [|done]. exfalso.
  destruct (after_pigeon es i) as (a & b & Hab & Heq); [congruence|].
  revert Hn. apply (after_revisit es i a b); [lia|done|].
  intros H. apply (after_None_mono es i a (S (length es))) in H; [congruence|lia].
Qed.

(** ** Lengths and accounting of a represented segment *)

Lemma lseg_after es i c k : lseg es (dir_next (es !!! i)) c 0 ->
  after es i (S k) = c !! k.
Proof.
  revert i k. induction c as [|j c IH]; intros i k H.
  - simpl in H. rewrite lookup_nil. apply (after_None_mono es i 1); [lia|].
    simpl. unfold next_dir. by rewrite H.
  - assert (E1 : after es i 1 = Some j) by (simpl; unfold next_dir; by rewrite (lseg_head _ _ _ H)).
    destruct H as (_ & _ & H). destruct k as [|k]; [done|].
    change (S (S k)) with (1 + S k)%nat. rewrite after_plus, E1. simpl. by apply IH.
Qed.

Lemma lseg_chain_length es f o c : lseg es o c 0 -> (length c < f)%nat ->
  chain_length f es (dir_from_offset o) = Some (Z.of_nat (length c)).
Proof.
  revert f o. induction c as [|j c IH]; intros f o H Hf; rewrite (lseg_head _ _ _ H); [by destruct f|].
  destruct f as [|f]; [simpl in Hf; lia|]. destruct H as (_ & _ & H). simpl in *.
  unfold next_dir. rewrite (IH f _ H) by lia. simpl. f_equal. lia.
Qed.

Section rep.
Context {nb : nat} {st : Seg} {fl : list nat} {ch : list (list nat)}.
Hypothesis R : seg_rep nb st fl ch.

Lemma fl_short : (length fl <= length (ents st))%nat.
Proof.
  assert (H : fl ⊆+ seq 0 (length (ents st))).
  { pose proof (rep_NoDup R) as Hnd. apply NoDup_app in Hnd as (Hnd & _).
    apply NoDup_submseteq; [done|]. intros x Hx. apply elem_of_seq. destruct (rep_fl_lt R x Hx). lia. }
  apply submseteq_length in H. by rewrite length_seq in H.
Qed.

Lemma rep_freelist_length : dir_freelist_length nb st = Some (Z.of_nat (length fl), st).
Proof.
  pose proof (sr_fl _ _ _ _ R) as H. pose proof fl_short as Hs.
  unfold dir_freelist_length, dir_bucket_loop_fix. rewrite (lseg_head _ _ _ H).
  destruct fl as [|i fl']; [simpl; done|]. cbn [head]. rewrite loop_check_decides.
  destruct H as (Hi & _ & H). rewrite (lseg_after _ _ _ _ H).
  rewrite lookup_ge_None_2 by (simpl in Hs; lia). cbn [mbind option_bind].
  rewrite <- (from_offset_of_nat i), <- Hi by (pose proof (rep_fl_lt R i ltac:(set_solver)); lia).
  rewrite (lseg_chain_length _ _ _ (i :: fl')); [done|apply (sr_fl _ _ _ _ R)|lia].
Qed.

Lemma rep_no_loop b c : ch !! b = Some c -> dir_bucket_loop_check (Some (dir_bucket b)) (ents st) = Some true.
Proof.
  intros Hb. rewrite loop_check_decides, (lseg_after _ _ c _ (sr_chain _ _ _ _ R b c Hb)).
  rewrite lookup_ge_None_2; [done|]. pose proof (rep_chain_short nb _ _ _ _ _ R Hb). lia.
Qed.

Section acc.
Variables valid agg_valid : Dir -> bool.

Lemma account_chain f i c a :
  lseg (ents st) (dir_next (ent st i)) c 0 -> (length c < f)%nat ->
  account_bucket valid agg_valid f (ents st) (Some i) a =
    Some (foldl (fun a j => account_entry valid agg_valid (ent st j) a) a (i :: c)).
Proof.
  revert f i a. induction c as [|j c IH]; intros f i a H Hf; (destruct f as [|f]; [simpl in Hf; lia|]);
    cbn [account_bucket]; unfold next_dir; change (ents st !!! i) with (ent st i);
    rewrite (lseg_head _ _ _ H); cbn [head].
  - by destruct f.
  - destruct H as (_ & _ & H). simpl in Hf. rewrite IH by (done || lia). done.
Qed.

Lemma account_counts l a :
  let a' := foldl (fun a j => account_entry valid agg_valid (ent st j) a) a l in
  ac_used a' + ac_empty a' = ac_used a + ac_empty a + Z.of_nat (length l) /\
  ac_used a' = ac_used a + Z.of_nat (length (pays st l)).
Proof.
  revert a. induction l as [|i l IH]; intros a; cbv zeta in *; cbn [foldl].
  - simpl. lia.
  - destruct (IH (account_entry valid agg_valid (ent st i) a)) as [IH1 IH2]. rewrite IH1, IH2.
    rewrite pays_length_cons. unfold account_entry.
    destruct (dir_offset (ent st i) =? 0); simpl; lia.
Qed.

(** The counts over the buckets: all slots off the free list, and the entries
    in use. *)
Lemma account_buckets :
  exists a, forM (seq 0 nb)
      (fun bi a => account_bucket valid agg_valid (S (length (ents st))) (ents st) (Some (dir_bucket bi)) a)
      (mkAccount 0 0 0 0 0) = Some a /\
    ac_used a + ac_empty a = Z.of_nat (nb + length (concat ch)) /\
    ac_used a = Z.of_nat (used_count nb st).
Proof.
  destruct (forM_ind
    (fun bi a => account_bucket valid agg_valid (S (length (ents st))) (ents st) (Some (dir_bucket bi)) a)
    (fun done a => ac_used a + ac_empty a = Z.of_nat (length done + length (concat (take (length done) ch))) /\
       ac_used a = Z.of_nat (sum_list_with (fun b => length (bucket_contents st b)) done))
    (seq 0 nb) (mkAccount 0 0 0 0 0)) as (a & E & H1 & H2).
  - done.
  - intros dn k rest a Es [IH1 IH2].
    assert (Hk : k = length dn /\ (k < nb)%nat).
    { apply (f_equal (fun l => l !! length dn)) in Es as Ek.
      rewrite list_lookup_middle in Ek by done. apply lookup_seq in Ek. lia. }
    destruct Hk as [Hk Hlt]. rewrite <- (sr_nch _ _ _ _ R) in Hlt. apply lookup_lt_is_Some in Hlt as [c Hc].
    pose proof (rep_chain_short nb _ _ _ _ _ R Hc).
    rewrite (account_chain _ _ c) by (lia || by apply (sr_chain _ _ _ _ R)).
    eexists. split; [done|]. destruct (account_counts (dir_bucket k :: c) a) as [A1 A2].
    rewrite A1, A2, IH1, IH2, length_app, sum_list_with_app. simpl.
    rewrite (rep_contents R k c Hc), Nat.add_1_r, <- Hk, (take_S_r ch k c Hc), concat_app, length_app.
    simpl. rewrite app_nil_r. lia.
  - rewrite length_seq in H1. rewrite take_ge in H1 by (rewrite (sr_nch _ _ _ _ R); lia). eauto.
Qed.

Lemma init_order_length n : length (init_order n) = (3 * n)%nat.
Proof. unfold init_order. simpl. rewrite !length_app, !length_map, !length_seq. simpl. lia. Qed.

(** Every slot of the segment is free, in use, or an empty row 0. *)
Lemma accounted_exactly offby :
  exists a avg, dir_segment_accounted valid agg_valid nb offby st =
      Some (Z.of_nat (length fl), a, avg, 0 <=? offby, st) /\
    Z.of_nat (length fl) + ac_used a + ac_empty a = Z.of_nat nb * Z.of_nat DIR_DEPTH /\
    ac_used a = Z.of_nat (used_count nb st).
Proof.
  destruct account_buckets as (a & E & H1 & H2).
  assert (Hall : (length fl + length (concat ch) = 3 * nb)%nat).
  { rewrite <- length_app, (Permutation_length (sr_slots _ _ _ _ R)). apply init_order_length. }
  assert (Hsum : Z.of_nat (length fl) + ac_used a + ac_empty a = Z.of_nat nb * Z.of_nat DIR_DEPTH)
    by (unfold DIR_DEPTH; lia).
  unfold dir_segment_accounted. rewrite rep_freelist_length. cbn [mbind option_bind]. rewrite E.
  cbn [mbind option_bind]. rewrite Hsum, Z.sub_diag. eauto.
Qed.
End acc.
End rep.
