(* ===== verification/RamCache.v ===== *)
(** The RAM cache of a partition ([iocore/cache/RamCache.cc], [P_RamCache.h]):
    a hash table of entries threaded on one LRU queue, with the "seen" filter
    that keeps a document out until its second request once the cache is nearly
    full.  [n_partitions] is 1 in the source, so the one [RamCachePartition]
    is inlined.

    A [RamCacheEntry *] is an identifier into [heap]; the hash chains and the
    LRU queue hold identifiers, as the intrusive lists of the source hold
    pointers. *)

From S2P Require Import Prelude DirEntry.

Definition RAM_CACHE_SEEN_PER_OBJECT : Z := 2.
Definition RAM_CACHE_FAST_LOAD_SIZE : Z := 32768.
Definition n_partitions : Z := 1.

(** An [IOBufferData]: its identity and [block_size()]. *)
Record BufData := mkBuf { buf_id : Z; block_size : Z }.

Record RamCacheEntry := mkRCE { e_key : CacheKey; auxkey1 : Z; auxkey2 : Z; e_data : BufData }.

Record RamCache := mkRam {
  rc_bytes : Z;
  rc_objects : Z;
  partition_size : Z;
  seen_size : Z;
  cutoff_size : Z;
  cur_bytes : Z;                       (* int *)
  bucket : list (list nat);
  lru : list nat;
  seen : list Z;                       (* unsigned short[] *)
  heap : gmap nat RamCacheEntry;
  next_id : nat;                       (* the next address the allocator returns *)
  ram_bytes_stat : Z                   (* cache_ram_cache_bytes_stat *)
}.

Definition set_part (rc : RamCache) (cb : Z) (bk : list (list nat)) (l : list nat)
  (hp : gmap nat RamCacheEntry) (st : Z) : RamCache :=
  mkRam (rc_bytes rc) (rc_objects rc) (partition_size rc) (seen_size rc) (cutoff_size rc)
        cb bk l (seen rc) hp (next_id rc) st.

Definition set_seen (rc : RamCache) (s : list Z) : RamCache :=
  mkRam (rc_bytes rc) (rc_objects rc) (partition_size rc) (seen_size rc) (cutoff_size rc)
        (cur_bytes rc) (bucket rc) (lru rc) s (heap rc) (next_id rc) (ram_bytes_stat rc).

(** The constructor: nothing allocated, the cache disabled. *)
Definition ram_empty : RamCache := mkRam 0 0 0 0 0 0 [] [] [] ∅ 0 0.

Definition init (rc : RamCache) (abytes aobjects cutoff : Z) : RamCache :=
  let psize := aobjects `quot` n_partitions in
  if psize =? 0 then
    mkRam (rc_bytes rc) (rc_objects rc) psize (seen_size rc) cutoff
          (cur_bytes rc) (bucket rc) (lru rc) (seen rc) (heap rc) (next_id rc) (ram_bytes_stat rc)
  else
    let ssize := psize * RAM_CACHE_SEEN_PER_OBJECT - 1 in
    mkRam (abytes `quot` n_partitions) (aobjects `quot` n_partitions) psize ssize cutoff
          (cur_bytes rc) (replicate (Z.to_nat psize) []) (lru rc)
          (replicate (Z.to_nat ssize) 0) (heap rc) (next_id rc) (ram_bytes_stat rc).

(** The hash chain of a key. *)
Definition chain_of (rc : RamCache) (key : CacheKey) : nat :=
  Z.to_nat ((kw3 key / n_partitions) mod partition_size rc).

Definition entry_matches (rc : RamCache) (key : CacheKey) (a1 a2 : Z) (e : nat) : bool :=
  match heap rc !! e with
  | Some x => bool_decide (e_key x = key) && (auxkey1 x =? a1) && (auxkey2 x =? a2)
  | None => false
  end.

(** [Queue::remove] and [DLL::remove]. *)
Definition list_remove_id (e : nat) (l : list nat) : list nat := filter (fun x => x <> e) l.

Definition find_entry (rc : RamCache) (key : CacheKey) (a1 a2 : Z) : option nat :=
  head (filter (fun e => entry_matches rc key a1 a2 e = true) (bucket rc !!! chain_of rc key)).

Definition get (rc : RamCache) (key : CacheKey) (a1 a2 : Z) : RamCache * option BufData :=
  if partition_size rc =? 0 then (rc, None)
  else match find_entry rc key a1 a2 with
  | Some e =>
    (set_part rc (cur_bytes rc) (bucket rc) (list_remove_id e (lru rc) ++ [e]) (heap rc) (ram_bytes_stat rc),
     e_data <$> heap rc !! e)
  | None => (rc, None)
  end.

Definition remove_entry (rc : RamCache) (ee : nat) : RamCache :=
  match heap rc !! ee with
  | None => rc
  | Some x =>
    let ii := chain_of rc (e_key x) in
    set_part rc (i32 (cur_bytes rc - block_size (e_data x)))
             (alter (list_remove_id ee) ii (bucket rc)) (lru rc) (delete ee (heap rc))
             (ram_bytes_stat rc - block_size (e_data x))
  end.

(** [p->lru.remove(e)]. *)
Definition lru_remove (rc : RamCache) (e : nat) : RamCache :=
  set_part rc (cur_bytes rc) (bucket rc) (list_remove_id e (lru rc)) (heap rc) (ram_bytes_stat rc).

(** The walk of [put] over the hash chain: [true] is "already present". *)
Fixpoint put_scan (chain : list nat) (key : CacheKey) (a1 a2 : Z) (rc : RamCache) : RamCache * bool :=
  match chain with
  | [] => (rc, false)
  | e :: chain' =>
    match heap rc !! e with
    | Some x =>
      if bool_decide (e_key x = key) then
        if (auxkey1 x =? a1) && (auxkey2 x =? a2) then (rc, true)
        else put_scan chain' key a1 a2 (remove_entry (lru_remove rc e) e)
      else put_scan chain' key a1 a2 rc
    | None => put_scan chain' key a1 a2 rc
    end
  end.

(** [while (p->cur_bytes > bytes)]: evict from the head of the queue. *)
Fixpoint evict (queue : list nat) (rc : RamCache) : RamCache :=
  if cur_bytes rc <=? rc_bytes rc then rc
  else match queue with
  | [] => rc
  | ee :: queue' =>
    evict queue' (remove_entry (set_part rc (cur_bytes rc) (bucket rc) (tail (lru rc)) (heap rc) (ram_bytes_stat rc)) ee)
  end.

Definition insert_new (rc : RamCache) (key : CacheKey) (data : BufData) (a1 a2 : Z) : RamCache :=
  let e := next_id rc in
  mkRam (rc_bytes rc) (rc_objects rc) (partition_size rc) (seen_size rc) (cutoff_size rc)
        (i32 (cur_bytes rc + block_size data))
        (alter (cons e) (chain_of rc key) (bucket rc)) (lru rc ++ [e]) (seen rc)
        (<[e := mkRCE key a1 a2 data]> (heap rc)) (S e) (ram_bytes_stat rc + block_size data).

Definition put (rc : RamCache) (key : CacheKey) (data : BufData) (a1 a2 : Z) : RamCache * Z :=
  if partition_size rc =? 0 then (rc, 0)
  else
    let o := kw3 key / n_partitions in
    let s := Z.to_nat (o mod seen_size rc) in
    let k3 := u16 (kw3 key) in
    let oldseen := seen rc !!! s in
    let rc1 := set_seen rc (<[s := k3]> (seen rc)) in
    if negb (oldseen =? k3) && (rc_bytes rc1 <=? i32 (cur_bytes rc1 + RAM_CACHE_FAST_LOAD_SIZE)) then (rc1, 0)
    else
      let '(rc2, present) := put_scan (bucket rc1 !!! chain_of rc1 key) key a1 a2 rc1 in
      if (present : bool) then (rc2, 1)
      else
        let rc3 := insert_new rc2 key data a1 a2 in
        (evict (lru rc3) rc3, 1).

Definition fixup (rc : RamCache) (key : CacheKey) (o1 o2 n1 n2 : Z) : RamCache * Z :=
  if partition_size rc =? 0 then (rc, 0)
  else match find_entry rc key o1 o2 with
  | Some e =>
    (set_part rc (cur_bytes rc) (bucket rc) (lru rc)
       (alter (fun x => mkRCE (e_key x) n1 n2 (e_data x)) e (heap rc)) (ram_bytes_stat rc), 1)
  | None => (rc, 0)
  end.

(** [get_lock] and [put_lock]: the operation under the partition's lock, or -1
    when the lock was missed. *)
Definition get_lock (lock : bool) (rc : RamCache) (key : CacheKey) (a1 a2 : Z) : RamCache * option (option BufData) :=
  if lock then let '(rc', r) := get rc key a1 a2 in (rc', Some r) else (rc, None).

Definition put_lock (lock : bool) (rc : RamCache) (key : CacheKey) (data : BufData) (a1 a2 : Z) : RamCache * Z :=
  if lock then put rc key data a1 a2 else (rc, -1).

(** ** Invariant *)

Definition entry_size (hp : gmap nat RamCacheEntry) (e : nat) : Z :=
  match hp !! e with Some x => block_size (e_data x) | None => 0 end.

Definition total_size (hp : gmap nat RamCacheEntry) (l : list nat) : Z :=
  foldr (fun e acc => entry_size hp e + acc) 0 l.

(** The queue and the hash chains hold exactly the allocated entries, each in
    the chain of its key, no key is cached twice, and the byte count is the sum
    of the block sizes. *)
Record ram_wf (rc : RamCache) : Prop := {
  ri_psize : 0 < partition_size rc;
  ri_buckets : length (bucket rc) = Z.to_nat (partition_size rc);
  ri_seen : 0 < seen_size rc /\ length (seen rc) = Z.to_nat (seen_size rc);
  ri_lru_nodup : NoDup (lru rc);
  ri_lru : forall e, e ∈ lru rc <-> is_Some (heap rc !! e);
  ri_chain : forall i l e, bucket rc !! i = Some l ->
    e ∈ l <-> exists x, heap rc !! e = Some x /\ chain_of rc (e_key x) = i;
  ri_key : forall e e' x x', heap rc !! e = Some x -> heap rc !! e' = Some x' -> e_key x = e_key x' -> e = e';
  ri_fresh : forall e, is_Some (heap rc !! e) -> (e < next_id rc)%nat;
  ri_pos : forall e x, heap rc !! e = Some x -> 0 < block_size (e_data x);
  ri_bytes : cur_bytes rc = total_size (heap rc) (lru rc);
  ri_int : cur_bytes rc < 2 ^ 31
}.

Definition ram_inv (rc : RamCache) : Prop := ram_wf rc /\ cur_bytes rc <= rc_bytes rc.

(** The document cached under a key, if any. *)
Definition cached (rc : RamCache) (key : CacheKey) (a1 a2 : Z) : option BufData :=
  (get rc key a1 a2).2.

(** ** Sizes *)

Lemma total_size_app hp l1 l2 : total_size hp (l1 ++ l2) = total_size hp l1 + total_size hp l2.
Proof. induction l1 as [|e l1 IH]; simpl; lia. Qed.

Lemma total_size_ext hp hp' l : (forall e, e ∈ l -> entry_size hp' e = entry_size hp e) ->
  total_size hp' l = total_size hp l.
Proof.
  induction l as [|e l IH]; intros H; simpl; [done|]. rewrite H by set_solver. rewrite IH by set_solver. done.
Qed.

Lemma total_size_nonneg hp l : (forall e x, hp !! e = Some x -> 0 < block_size (e_data x)) -> 0 <= total_size hp l.
Proof.
  intros H. induction l as [|e l IH]; simpl; [lia|]. unfold entry_size. destruct (hp !! e) eqn:E; [|lia].
  pose proof (H e r E). lia.
Qed.

Lemma list_remove_notin e l : e ∉ l -> list_remove_id e l = l.
Proof.
  unfold list_remove_id. intros H. induction l as [|x l IH]; [done|].
  rewrite filter_cons_True by set_solver. f_equal. apply IH. set_solver.
Qed.

Lemma elem_list_remove e x l : x ∈ list_remove_id e l <-> x ∈ l /\ x <> e.
Proof. unfold list_remove_id. rewrite list_elem_of_filter. naive_solver. Qed.

Lemma NoDup_list_remove e l : NoDup l -> NoDup (list_remove_id e l).
Proof. apply NoDup_filter. Qed.

Lemma total_size_remove hp l e : NoDup l -> e ∈ l ->
  total_size hp l = entry_size hp e + total_size hp (list_remove_id e l).
Proof.
  intros Hnd He. apply list_elem_of_split in He as (l1 & l2 & ->).
  apply NoDup_app in Hnd as (_ & Hd & Hnd). apply NoDup_cons in Hnd as [H2 _].
  assert (H1 : e ∉ l1) by (intros H; apply (Hd e H); set_solver).
  unfold list_remove_id. rewrite filter_app, filter_cons, decide_False by naive_solver.
  fold (list_remove_id e l1). fold (list_remove_id e l2). rewrite !list_remove_notin by done.
  rewrite !total_size_app. simpl. lia.
Qed.

(** ** Removing an entry *)

(** The entry [e] taken out of the queue, its chain and the heap. *)
Definition drop_entry (rc : RamCache) (e : nat) : RamCache := remove_entry (lru_remove rc e) e.

Lemma drop_entry_wf rc e x : ram_wf rc -> heap rc !! e = Some x ->
  let rc' := drop_entry rc e in
  ram_wf rc' /\ heap rc' = delete e (heap rc) /\ lru rc' = list_remove_id e (lru rc) /\
  cur_bytes rc' = cur_bytes rc - block_size (e_data x) /\ rc_bytes rc' = rc_bytes rc /\
  partition_size rc' = partition_size rc /\ next_id rc' = next_id rc /\
  (forall i, i <> chain_of rc (e_key x) -> bucket rc' !! i = bucket rc !! i) /\
  bucket rc' !! chain_of rc (e_key x) = list_remove_id e <$> bucket rc !! chain_of rc (e_key x).
Proof.
  intros W Hx rc'. destruct W as [Hp Hb Hs Hnd Hl Hc Hk Hf Hpos Hby Hint].
  assert (He : e ∈ lru rc) by (apply Hl; eauto).
  pose proof (total_size_remove (heap rc) (lru rc) e Hnd He) as Ht.
  assert (Hes : entry_size (heap rc) e = block_size (e_data x)) by (unfold entry_size; by rewrite Hx).
  pose proof (total_size_nonneg (heap rc) (list_remove_id e (lru rc)) Hpos) as Hnn.
  pose proof (Hpos e x Hx) as Hxp.
  assert (Hcb : i32 (cur_bytes rc - block_size (e_data x)) = cur_bytes rc - block_size (e_data x)).
  { apply wraps_id; [lia|]. rewrite Hby, Ht in *. lia. }
  unfold rc', drop_entry, remove_entry, lru_remove. simpl. rewrite Hx. simpl.
  assert (Hch : forall y, chain_of (set_part rc (cur_bytes rc) (bucket rc) (list_remove_id e (lru rc)) (heap rc) (ram_bytes_stat rc)) y = chain_of rc y) by done.
  rewrite Hcb. split_and!; try done.
  - constructor; simpl; try done.
    + by rewrite length_alter.
    + by apply NoDup_list_remove.
    + intros e'. rewrite elem_list_remove, Hl. rewrite lookup_delete_is_Some. naive_solver.
    + intros i l e' Hi. rewrite list_lookup_alter in Hi.
      assert (Hd : forall y, delete e (heap rc) !! e' = Some y <-> e' <> e /\ heap rc !! e' = Some y).
      { intros y. rewrite lookup_delete_Some. naive_solver. }
      setoid_rewrite Hd. case_decide as Hi'.
      * rewrite Hi' in Hi. destruct (bucket rc !! i) as [l0|] eqn:E0; [|done]. simpl in Hi. simplify_eq/=.
        rewrite elem_list_remove, (Hc _ _ e' E0). naive_solver.
      * rewrite (Hc _ _ e' Hi). split; [|naive_solver]. intros (y & Hy & Hyi).
        exists y. split; [|done]. split; [|done]. intros ->. rewrite Hx in Hy. by simplify_eq.
    + intros e1 e2 y1 y2 H1 H2. apply lookup_delete_Some in H1 as [_ H1], H2 as [_ H2]. by apply Hk.
    + intros e' [y Hy]. apply lookup_delete_Some in Hy as [_ Hy]. apply Hf. eauto.
    + intros e' y Hy. apply lookup_delete_Some in Hy as [_ Hy]. by apply (Hpos e').
    + rewrite Hby, Ht, Hes. rewrite (total_size_ext (heap rc) (delete e (heap rc))); [lia|].
      intros e' [_ Hne]%elem_list_remove. unfold entry_size. by rewrite lookup_delete_ne.
    + lia.
  - intros i Hi. by rewrite list_lookup_alter_ne by done.
  - by rewrite list_lookup_alter_eq.
Qed.

(** ** Lookup *)

Lemma chain_of_lt rc key : ram_wf rc -> exists l, bucket rc !! chain_of rc key = Some l.
Proof.
  intros W. apply lookup_lt_is_Some. rewrite (ri_buckets _ W). unfold chain_of.
  pose proof (ri_psize _ W). pose proof (Z.mod_pos_bound (kw3 key / n_partitions) (partition_size rc)). lia.
Qed.

Lemma entry_matches_true rc key a1 a2 e : entry_matches rc key a1 a2 e = true <->
  exists d, heap rc !! e = Some (mkRCE key a1 a2 d).
Proof.
  unfold entry_matches. destruct (heap rc !! e) as [[k b1 b2 d]|] eqn:E; simpl; [|naive_solver].
  rewrite !andb_true_iff, bool_decide_eq_true, !Z.eqb_eq. naive_solver.
Qed.

(** The search of the chain finds the entry with the key and the auxiliary
    keys, wherever it is in the cache. *)
Lemma find_entry_Some rc key a1 a2 e : ram_wf rc ->
  find_entry rc key a1 a2 = Some e <-> exists d, heap rc !! e = Some (mkRCE key a1 a2 d).
Proof.
  intros W. destruct (chain_of_lt rc key W) as [l Hl].
  assert (Hf : forall x, x ∈ filter (fun e => entry_matches rc key a1 a2 e = true) l <->
    exists d, heap rc !! x = Some (mkRCE key a1 a2 d)).
  { intros x. rewrite list_elem_of_filter, entry_matches_true, (ri_chain _ W _ _ x Hl). split; [naive_solver|].
    intros [d Hd]. split; [by exists d|]. eexists. split; [done|]. done. }
  unfold find_entry. rewrite (list_lookup_total_correct _ _ _ Hl). split.
  - intros H%head_Some_elem_of. by apply Hf.
  - intros [d Hd]. destruct (filter _ l) as [|x r] eqn:E.
    + exfalso. assert (H : e ∈ []) by (apply (proj2 (Hf e)); eauto). by apply elem_of_nil in H.
    + simpl. f_equal. destruct (proj1 (Hf x)) as [d' Hd']; [set_solver|].
      by apply (ri_key _ W _ _ _ _ Hd' Hd).
Qed.

Lemma cached_Some rc key a1 a2 d : ram_wf rc ->
  cached rc key a1 a2 = Some d <-> exists e, heap rc !! e = Some (mkRCE key a1 a2 d).
Proof.
  intros W. unfold cached, get. pose proof (ri_psize _ W).
  destruct (Z.eqb_spec (partition_size rc) 0); [lia|].
  destruct (find_entry rc key a1 a2) as [e|] eqn:E; simpl.
  - apply (find_entry_Some rc key a1 a2 e W) in E as [d' Hd']. rewrite Hd'. simpl. split.
    + intros [= <-]. eauto.
    + intros [e' He']. rewrite (ri_key _ W _ _ _ _ He' Hd' eq_refl), Hd' in He'. by simplify_eq.
  - split; [done|]. intros [e He]. assert (Hf := proj2 (find_entry_Some rc key a1 a2 e W) (ex_intro _ d He)).
    congruence.
Qed.

(** Moving an entry to the tail of the queue. *)
Lemma get_wf rc key a1 a2 : ram_wf rc -> ram_wf (get rc key a1 a2).1 /\
  heap (get rc key a1 a2).1 = heap rc /\ cur_bytes (get rc key a1 a2).1 = cur_bytes rc /\
  rc_bytes (get rc key a1 a2).1 = rc_bytes rc.
Proof.
  intros W. unfold get. destruct (partition_size rc =? 0); [done|].
  destruct (find_entry rc key a1 a2) as [e|] eqn:E; [|done]. simpl. split; [|done].
  apply (find_entry_Some rc key a1 a2 e W) in E as [d Hd].
  assert (He : e ∈ lru rc) by (apply (ri_lru _ W); eauto).
  destruct W as [Hp Hb Hs Hnd Hl Hc Hk Hf Hpos Hby Hint]. constructor; simpl; try done.
  - apply NoDup_app. split_and!; [by apply NoDup_list_remove| |apply NoDup_singleton].
    intros x [_ Hx]%elem_list_remove. set_solver.
  - intros e'. rewrite <- Hl, elem_of_app, elem_list_remove, list_elem_of_singleton.
    destruct (decide (e' = e)); naive_solver.
  - rewrite Hby, total_size_app, (total_size_remove _ _ e Hnd He). simpl. lia.
Qed.

(** ** Storing *)

Lemma put_scan_spec chain key a1 a2 rc :
  ram_wf rc ->
  let r := put_scan chain key a1 a2 rc in
  ram_wf r.1 /\ cur_bytes r.1 <= cur_bytes rc /\ rc_bytes r.1 = rc_bytes rc /\
  partition_size r.1 = partition_size rc /\ next_id r.1 = next_id rc /\
  heap r.1 ⊆ heap rc /\
  (forall e x, heap rc !! e = Some x -> e_key x <> key -> heap r.1 !! e = Some x) /\
  (r.2 = true -> exists e d, heap r.1 !! e = Some (mkRCE key a1 a2 d)) /\
  (r.2 = false -> forall e x, e ∈ chain -> heap r.1 !! e = Some x -> e_key x <> key).
Proof.
  revert rc. induction chain as [|e chain IH]; intros rc W; cbv zeta.
  { simpl. split_and!; try done. intros _ e x He. by apply elem_of_nil in He. }
  cbn [put_scan]. destruct (heap rc !! e) as [x|] eqn:Ex.
  2: { destruct (IH rc W) as (? & ? & ? & ? & ? & Hs & ? & ? & Hn). split_and!; try done.
       intros Hr e' y [->|He']%elem_of_cons Hy; [|by apply (Hn Hr e' y)].
       apply (lookup_weaken _ _ _ _ Hy) in Hs. congruence. }
  case_bool_decide as Hk.
  - destruct ((auxkey1 x =? a1) && (auxkey2 x =? a2)) eqn:Ea.
    + simpl. bsimp. split_and!; try done. intros _. exists e, (e_data x).
      rewrite Ex. destruct x; simpl in *. by subst.
    + destruct (drop_entry_wf rc e x W Ex) as (W' & Hh & Hl & Hcb & Hb & Hp & Hn' & _).
      fold (drop_entry rc e). pose proof (ri_pos _ W e x Ex).
      destruct (IH (drop_entry rc e) W') as (? & ? & ? & ? & ? & Hs & Hkeep & Htrue & Hn).
      split_and!; [done|lia|congruence|congruence|congruence| | |done|].
      * rewrite Hh in Hs. etrans; [exact Hs|]. apply delete_subseteq.
      * intros e' y Hy Hky. apply Hkeep; [|done]. rewrite Hh. apply lookup_delete_Some.
        split; [|done]. intros ->. congruence.
      * intros Hr e' y [->|He']%elem_of_cons Hy; [|by apply (Hn Hr e' y)].
        apply (lookup_weaken _ _ _ _ Hy) in Hs. rewrite Hh, lookup_delete_eq in Hs. done.
  - destruct (IH rc W) as (? & ? & ? & ? & ? & Hs & ? & ? & Hn). split_and!; try done.
    intros Hr e' y [->|He']%elem_of_cons Hy; [|by apply (Hn Hr e' y)].
    apply (lookup_weaken _ _ _ _ Hy) in Hs. congruence.
Qed.

Lemma insert_new_wf rc key data a1 a2 :
  ram_wf rc -> (forall e x, heap rc !! e = Some x -> e_key x <> key) -> 0 < block_size data ->
  cur_bytes rc + block_size data < 2 ^ 31 ->
  let rc' := insert_new rc key data a1 a2 in
  ram_wf rc' /\ cur_bytes rc' = cur_bytes rc + block_size data.
Proof.
  intros W Hnew Hpos0 Hlim rc'. destruct W as [Hp Hb Hs Hnd Hl Hc Hk Hf Hpos Hby Hint].
  set (e0 := next_id rc).
  assert (He0 : heap rc !! e0 = None).
  { destruct (heap rc !! e0) eqn:E; [|done]. exfalso. pose proof (Hf e0 ltac:(eauto)). unfold e0 in *. lia. }
  pose proof (total_size_nonneg (heap rc) (lru rc) Hpos) as Hnn.
  assert (Hcb : cur_bytes rc' = cur_bytes rc + block_size data) by (apply wraps_id; [lia|]; lia).
  split; [|done]. constructor; try done.
  - simpl. by rewrite length_alter.
  - simpl. apply NoDup_app. split_and!; [done| |apply NoDup_singleton].
    intros x Hx%Hl. rewrite list_elem_of_singleton. intros ->. destruct Hx. unfold e0 in *. congruence.
  - intros e. simpl. rewrite elem_of_app, list_elem_of_singleton, Hl, lookup_insert_is_Some. unfold e0 in *.
    destruct (decide (e = next_id rc)); naive_solver.
  - intros i l e Hi. simpl in Hi. rewrite list_lookup_alter in Hi. simpl heap.
    assert (Hx : (exists x, <[e0 := mkRCE key a1 a2 data]> (heap rc) !! e = Some x /\ chain_of rc (e_key x) = i) <->
      (e = e0 /\ chain_of rc key = i) \/ exists x, heap rc !! e = Some x /\ chain_of rc (e_key x) = i).
    { setoid_rewrite lookup_insert_Some. split.
      - intros (x & [[<- <-]|[Hne Hx]] & Hch); [by left|right; eauto].
      - intros [[-> Hch]|(x & Hx & Hch)]; [eexists; split; [by left|done]|].
        exists x. split; [right; split; [intros <-; congruence|done]|done]. }
    change (chain_of rc') with (chain_of rc). fold e0. rewrite Hx. case_decide as Hd.
    + rewrite Hd in Hi. destruct (bucket rc !! i) as [l0|] eqn:E0; [|done]. simpl in Hi. simplify_eq/=.
      rewrite elem_of_cons, (Hc _ _ e E0). fold e0. naive_solver.
    + rewrite (Hc _ _ e Hi). naive_solver.
  - intros e1 e2 x1 x2 H1 H2 E. simpl in H1, H2.
    apply lookup_insert_Some in H1 as [[<- <-]|[? H1]], H2 as [[<- <-]|[? H2]]; try done.
    + exfalso. by apply (Hnew _ _ H2).
    + exfalso. by apply (Hnew _ _ H1).
    + by apply (Hk _ _ _ _ H1 H2).
  - intros e [x Hx]. simpl in *. apply lookup_insert_Some in Hx as [[<- <-]|[? Hx]]; [lia|].
    pose proof (Hf e ltac:(eauto)). lia.
  - intros e x Hx. simpl in Hx. apply lookup_insert_Some in Hx as [[<- <-]|[? Hx]]; [done|by apply (Hpos e)].
  - rewrite Hcb. unfold rc', insert_new. cbn [heap lru]. rewrite total_size_app.
    assert (Hes : total_size (<[next_id rc := mkRCE key a1 a2 data]> (heap rc)) [next_id rc] = block_size data).
    { unfold total_size, entry_size. cbn [foldr]. rewrite lookup_insert_eq. simpl. lia. }
    rewrite Hes, Hby.
    rewrite (total_size_ext (heap rc) (<[next_id rc := _]> (heap rc))); [lia|].
    intros e He%Hl. unfold entry_size. rewrite lookup_insert_ne; [done|]. intros <-. destruct He. unfold e0 in *. congruence.
  - lia.
Qed.

(** Eviction drops a prefix of the queue, the least recently used entries, and
    no more of it than needed. *)
Lemma evict_spec l rc : ram_wf rc -> lru rc = l -> 0 <= rc_bytes rc ->
  exists n, let rc' := evict l rc in
    ram_wf rc' /\ cur_bytes rc' <= rc_bytes rc /\ rc_bytes rc' = rc_bytes rc /\
    lru rc' = drop n l /\ (n <= length l)%nat /\
    (forall e, e ∈ drop n l -> heap rc' !! e = heap rc !! e) /\
    (forall m, (m < n)%nat -> total_size (heap rc) (drop m l) > rc_bytes rc).
Proof.
  revert rc. induction l as [|e l IH]; intros rc W El Hb; cbn [evict].
  - exists 0%nat. pose proof (ri_bytes _ W) as Hby. rewrite El in Hby. simpl in Hby.
    assert (E : (cur_bytes rc <=? rc_bytes rc) = true) by (apply Z.leb_le; lia). rewrite E.
    split_and!; try done; simpl; try lia; try set_solver.
  - destruct (Z.leb_spec (cur_bytes rc) (rc_bytes rc)) as [Hle|Hgt].
    { exists 0%nat. split_and!; try done; simpl; try lia. }
    assert (He : is_Some (heap rc !! e)) by (apply (ri_lru _ W); rewrite El; set_solver).
    destruct He as [x Hx]. pose proof (ri_lru_nodup _ W) as Hnd. rewrite El in Hnd.
    apply NoDup_cons in Hnd as [Hel Hnd].
    assert (Etl : tail (lru rc) = list_remove_id e (lru rc)).
    { rewrite El. simpl. unfold list_remove_id. rewrite filter_cons_False by naive_solver.
      fold (list_remove_id e l). by rewrite list_remove_notin. }
    rewrite Etl. change (remove_entry _ e) with (drop_entry rc e).
    destruct (drop_entry_wf rc e x W Hx) as (W' & Hh & Hl & Hcb & Hbb & _).
    assert (Hl' : lru (drop_entry rc e) = l) by (rewrite Hl, <- Etl, El; done).
    destruct (IH (drop_entry rc e) W' Hl') as (n & W2 & Hc2 & Hb2 & Hl2 & Hn & Hk2 & Hm2); [by rewrite Hbb|].
    exists (S n). cbv zeta. rewrite Hbb in *. split_and!; try done; [simpl; lia| |].
    + intros e' He'. simpl in He'. rewrite (Hk2 e' He'), Hh. apply lookup_delete_ne. intros <-.
      apply Hel. by apply elem_drop in He'.
    + intros [|m] Hm.
      * rewrite drop_0, <- El, <- (ri_bytes _ W). lia.
      * simpl. rewrite <- (total_size_ext (heap rc) (delete e (heap rc))).
        -- rewrite <- Hh. apply Hm2. lia.
        -- intros e' He'. unfold entry_size. rewrite lookup_delete_ne; [done|]. intros <-.
           apply Hel. by apply elem_drop in He'.
Qed.

(** ** The put path *)

Lemma set_seen_wf rc s : ram_wf rc -> length s = length (seen rc) -> ram_wf (set_seen rc s).
Proof.
  intros W Hs. destruct W as [Hp Hb [Hs1 Hs2] Hnd Hl Hc Hk Hf Hpos Hby Hint].
  constructor; simpl; try done. split; [done|]. by rewrite Hs.
Qed.

(** Storing keeps the invariant, stays within the byte limit, and either
    declines (a first sighting while nearly full), or finds the document
    already there, or stores it at the tail of the queue after the survivors. *)
Lemma put_spec rc key data a1 a2 :
  ram_inv rc -> 0 < block_size data <= rc_bytes rc -> rc_bytes rc + block_size data < 2 ^ 31 ->
  let r := put rc key data a1 a2 in
  ram_inv r.1 /\
  ((r.2 = 0 /\ heap r.1 = heap rc) \/
   (r.2 = 1 /\ exists d, cached r.1 key a1 a2 = Some d /\
      (d = data \/ cached rc key a1 a2 = Some d))).
Proof.
  intros [W Hlim] Hd Hbig. cbv zeta. unfold put. pose proof (ri_psize _ W) as Hps.
  destruct (Z.eqb_spec (partition_size rc) 0) as [|_]; [lia|]. cbv zeta.
  set (s := <[_ := _]> (seen rc)).
  assert (W1 : ram_wf (set_seen rc s)) by (apply set_seen_wf; [done|]; unfold s; by rewrite length_insert).
  destruct (negb _ && _); [split; [done|by left]|].
  pose proof (put_scan_spec (bucket (set_seen rc s) !!! chain_of (set_seen rc s) key) key a1 a2 (set_seen rc s) W1) as P.
  destruct (put_scan _ key a1 a2 (set_seen rc s)) as [rc2 present]. cbv zeta in P. cbn [fst snd] in P.
  destruct P as (W2 & Hcb2 & Hb2 & Hp2 & Hn2 & Hsub & Hkeep & Htrue & Hfalse).
  change (cur_bytes (set_seen rc s)) with (cur_bytes rc) in *.
  change (rc_bytes (set_seen rc s)) with (rc_bytes rc) in *. change (heap (set_seen rc s)) with (heap rc) in *.
  destruct present; cbn [fst snd].
  - destruct (Htrue eq_refl) as (e & d & He). split; [split; [done|lia]|]. right. split; [done|].
    exists d. split; [by apply (cached_Some rc2 _ _ _ _ W2); eauto|right].
    apply (cached_Some rc _ _ _ _ W). exists e. by eapply lookup_weaken.
  - assert (Hnew : forall e x, heap rc2 !! e = Some x -> e_key x <> key).
    { intros e x Hx Hk. destruct (chain_of_lt (set_seen rc s) key W1) as [l Hl].
      apply (Hfalse eq_refl e x); [|done|done]. rewrite (list_lookup_total_correct _ _ _ Hl).
      apply (ri_chain _ W1 _ _ e Hl). exists x. split; [by eapply lookup_weaken|by rewrite Hk]. }
    destruct (insert_new_wf rc2 key data a1 a2 W2 Hnew) as [W3 Hcb3]; [lia|lia|].
    set (rc3 := insert_new rc2 key data a1 a2) in *.
    destruct (evict_spec (lru rc3) rc3 W3 eq_refl) as (n & W4 & Hc4 & Hb4 & Hl4 & Hn4 & Hk4 & Hm4);
      [simpl; lia|].
    split; [split; [done|lia]|]. right. split; [done|]. exists data. split; [|by left].
    apply (cached_Some _ _ _ _ _ W4). exists (next_id rc2).
    assert (Hlen : (n <= length (lru rc2))%nat).
    { destruct (decide (n <= length (lru rc2))%nat); [done|]. exfalso.
      specialize (Hm4 (length (lru rc2)) ltac:(lia)). simpl in Hm4.
      rewrite drop_app_length in Hm4. unfold total_size, entry_size in Hm4. cbn [foldr] in Hm4.
      rewrite lookup_insert_eq in Hm4. simpl in Hm4. lia. }
    rewrite Hk4; [simpl; apply lookup_insert_eq|]. simpl. rewrite drop_app_le by done. set_solver.
Qed.

Lemma fixup_wf rc key o1 o2 n1 n2 : ram_wf rc -> ram_wf (fixup rc key o1 o2 n1 n2).1 /\
  cur_bytes (fixup rc key o1 o2 n1 n2).1 = cur_bytes rc /\ rc_bytes (fixup rc key o1 o2 n1 n2).1 = rc_bytes rc.
Proof.
  intros W. unfold fixup. destruct (partition_size rc =? 0); [done|].
  destruct (find_entry rc key o1 o2) as [e|] eqn:E; [|done]. cbn [fst]. split; [|done].
  apply (find_entry_Some rc key o1 o2 e W) in E as [d Hd].
  destruct W as [Hp Hb Hs Hnd Hl Hc Hk Hf Hpos Hby Hint].
  set (g := fun x => mkRCE (e_key x) n1 n2 (e_data x)).
  assert (Hx : forall e', alter g e (heap rc) !! e' = if decide (e = e') then g <$> heap rc !! e' else heap rc !! e').
  { intros e'. rewrite lookup_alter. destruct (decide (e = e')) as [->|]; done. }
  assert (Hs' : forall e', is_Some (alter g e (heap rc) !! e') <-> is_Some (heap rc !! e')).
  { intros e'. rewrite Hx. destruct (decide (e = e')); [apply fmap_is_Some|done]. }
  assert (Hex : forall e' y, alter g e (heap rc) !! e' = Some y ->
    exists x, heap rc !! e' = Some x /\ e_key x = e_key y /\ e_data x = e_data y).
  { intros e' y. rewrite Hx. case_decide; [|naive_solver].
    intros (x & Hx1 & ->)%fmap_Some. exists x. done. }
  constructor; simpl; try done.
  - intros e'. by rewrite Hs'.
  - intros i l e' Hi. rewrite (Hc _ _ e' Hi). change (chain_of (set_part _ _ _ _ _ _)) with (chain_of rc). split.
    + intros (x & Hx1 & Hx2). rewrite Hx. case_decide; [rewrite Hx1; exists (g x); by destruct x|eauto].
    + intros (y & Hy & Hyc). destruct (Hex e' y Hy) as (x & Hx1 & Hk1 & _). exists x. by rewrite Hk1.
  - intros e1 e2 y1 y2 H1 H2 E. destruct (Hex _ _ H1) as (x1 & ? & ? & _), (Hex _ _ H2) as (x2 & ? & ? & _).
    apply (Hk e1 e2 x1 x2); congruence.
  - intros e' He'. apply Hf. by apply Hs'.
  - intros e' y Hy. destruct (Hex _ _ Hy) as (x & Hx1 & _ & <-). by apply (Hpos e').
  - rewrite Hby. symmetry. apply total_size_ext. intros e' _. unfold entry_size. rewrite Hx.
    case_decide; [|done]. by destruct (heap rc !! e').
Qed.

(** A cache just initialised. *)
Lemma init_inv abytes aobjects cutoff : 0 <= abytes < 2 ^ 31 -> 0 < aobjects ->
  ram_inv (init ram_empty abytes aobjects cutoff).
Proof.
  intros Hb Ho. unfold init, n_partitions. rewrite !Z.quot_1_r.
  rewrite (proj2 (Z.eqb_neq aobjects 0)) by lia. split; [|simpl; lia].
  constructor; cbn [partition_size bucket seen_size seen lru heap next_id cur_bytes ram_empty].
  - lia.
  - by rewrite length_replicate.
  - rewrite length_replicate. unfold RAM_CACHE_SEEN_PER_OBJECT. lia.
  - apply NoDup_nil_2.
  - intros e. rewrite lookup_empty. split; [intros H; by apply elem_of_nil in H|intros [x Hx]; discriminate].
  - intros i l e Hl. apply lookup_replicate in Hl as [-> _]. split; [intros H; by apply elem_of_nil in H|].
    intros (x & Hx & _). rewrite lookup_empty in Hx. discriminate.
  - intros e e' x x' Hx. rewrite lookup_empty in Hx. discriminate.
  - intros e [x Hx]. rewrite lookup_empty in Hx. discriminate.
  - intros e x Hx. rewrite lookup_empty in Hx. discriminate.
  - done.
  - lia.
Qed.

(** ** Theorems *)

(** C6: below 2^31 bytes, a [put] keeps the cache well formed and within its
    byte limit; it either leaves the documents alone (the "seen" filter), or
    leaves the document of the key cached, the new one unless it was there. *)
Theorem ram_put_effect rc key data a1 a2 :
  ram_inv rc -> 0 < block_size data <= rc_bytes rc -> rc_bytes rc + block_size data < 2 ^ 31 ->
  let r := put rc key data a1 a2 in
  ram_inv r.1 /\
  ((r.2 = 0 /\ heap r.1 = heap rc) \/
   (r.2 = 1 /\ exists d, cached r.1 key a1 a2 = Some d /\
      (d = data \/ cached rc key a1 a2 = Some d))).
Proof. apply put_spec. Qed.

Lemma ram_put_effect_witness :
  let r := put (init ram_empty 100000 8 0) (mkKey 1 2 3 4) (mkBuf 1 4096) 5 6 in
  ram_inv r.1 /\ cached r.1 (mkKey 1 2 3 4) 5 6 = Some (mkBuf 1 4096).
Proof.
  split; [|reflexivity]. apply (ram_put_effect (init ram_empty 100000 8 0)); [apply init_inv; lia|split; vm_compute; congruence|vm_compute; congruence].
Defined.

(** eviction takes entries from the least recently used end of the queue,
    no more than needed to come under the limit, and keeps the others. *)
Theorem ram_evict_lru rc : ram_wf rc -> 0 <= rc_bytes rc ->
  exists n, let rc' := evict (lru rc) rc in
    ram_wf rc' /\ cur_bytes rc' <= rc_bytes rc /\ lru rc' = drop n (lru rc) /\
    (forall e, e ∈ drop n (lru rc) -> heap rc' !! e = heap rc !! e) /\
    (forall m, (m < n)%nat -> total_size (heap rc) (drop m (lru rc)) > rc_bytes rc).
Proof.
  intros W H. destruct (evict_spec (lru rc) rc W eq_refl H) as (n & H1 & H2 & _ & H3 & _ & H4 & H5). eauto 10.
Qed.

(** A cache of 10000 bytes asked to hold two documents of 8192. *)
Lemma ram_evict_lru_witness :
  let rc := insert_new (insert_new (init ram_empty 10000 8 0) (mkKey 0 0 0 1) (mkBuf 1 8192) 0 0)
              (mkKey 0 0 0 2) (mkBuf 2 8192) 0 0 in
  exists n, lru (evict (lru rc) rc) = drop n [0%nat; 1%nat] /\ n = 1%nat.
Proof.
  set (rc1 := insert_new (init ram_empty 10000 8 0) (mkKey 0 0 0 1) (mkBuf 1 8192) 0 0).
  assert (W1 : ram_wf rc1 /\ cur_bytes rc1 = 8192).
  { apply insert_new_wf; [apply init_inv; lia| |simpl; lia|simpl; lia].
    intros e x Hx. vm_compute in Hx. discriminate. }
  cbv zeta. set (rc := insert_new rc1 _ _ _ _).
  assert (W : ram_wf rc /\ cur_bytes rc = 16384).
  { destruct (insert_new_wf rc1 (mkKey 0 0 0 2) (mkBuf 2 8192) 0 0) as [W2 E2]; [apply W1| |simpl; lia|destruct W1 as [_ ->]; simpl; lia|].
    - intros e x Hx. unfold rc1, insert_new in Hx. cbn [heap next_id] in Hx.
      change (heap (init ram_empty 10000 8 0)) with (∅ : gmap nat RamCacheEntry) in Hx.
      apply lookup_insert_Some in Hx as [[_ <-]|[_ Hx]]; [discriminate|]. rewrite lookup_empty in Hx. discriminate.
    - split; [done|]. etransitivity; [exact E2|]. destruct W1 as [_ ->]. reflexivity. }
  destruct (ram_evict_lru rc) as (n & _ & _ & Hn & _); [apply W|vm_compute; congruence|].
  assert (E : lru (evict (lru rc) rc) = [1%nat]) by (vm_compute; reflexivity).
  exists 1%nat. split; [exact E|reflexivity].
Defined.

(** The byte count of a partition is an [int]: after 1024 documents of two
    megabytes a cache of 4 GB counts -2^31 bytes, so it no longer evicts. *)
Theorem ram_put_overflows :
  let docs := (fun n => mkKey 0 0 0 (Z.of_nat n)) <$> seq 0 1024 in
  let rc := foldl (fun rc k => (put rc k (mkBuf 1 (2 ^ 21)) 0 0).1) (init ram_empty (2 ^ 32) 1024 0) docs in
  cur_bytes rc = - 2 ^ 31 /\ Z.of_nat (length (lru rc)) * 2 ^ 21 = 2 ^ 31.
Proof. vm_compute. split; reflexivity. Qed.
