(* ===== verification/CachePart.v ===== *)
(** The directory of a cache partition ([iocore/cache/CacheDir.cc],
    [P_CachePart.h]): the segments of [DirSegment] under one header, the
    validity test of an entry against the write position, the public directory
    operations, and the lookaside table of blocks under evacuation. *)

From S2P Require Import Prelude DirEntry DirSegment DirSegmentFacts DirOps DirLookup DirLoop RamCache.

Definition AGG_SIZE : Z := 4 * 1024 * 1024.
Definition LOOKASIDE_SIZE : Z := 256.

(** A block being evacuated: its old and new directory entries, the key and
    earliest key of [evac_frags], and the evacuating [CacheVC]. *)
Record EvacuationBlock := mkEB {
  eb_dir : Dir; eb_new_dir : Dir; eb_key : CacheKey; eb_earliest_key : CacheKey;
  earliest_evacuator : Z
}.

Record Part := mkPart {
  buckets : nat;
  p_segs : list (list Dir);            (* d->dir, one list per segment *)
  p_freelist : list Z;                 (* header->freelist[] *)
  p_dirty : bool;                      (* header->dirty *)
  hdr_phase : Z;
  write_pos : Z;
  agg_pos : Z;
  agg_buf_pos : Z;
  p_start : Z;
  p_used : Z;
  p_collisions : Z;
  lookaside : list (list EvacuationBlock);
  ram_cache : RamCache
}.

Definition segments (d : Part) : nat := length (p_segs d).

(** ** Validity of an entry *)

Definition part_out_of_phase_valid (d : Part) (e : Dir) : bool :=
  dir_offset e - 1 >=? (agg_pos d - p_start d) `quot` INK_BLOCK_SIZE.
Definition part_out_of_phase_agg_valid (d : Part) (e : Dir) : bool :=
  dir_offset e - 1 >=? (agg_pos d - p_start d + AGG_SIZE) `quot` INK_BLOCK_SIZE.
Definition part_out_of_phase_write_valid (d : Part) (e : Dir) : bool :=
  dir_offset e - 1 >=? (write_pos d - p_start d) `quot` INK_BLOCK_SIZE.
Definition part_in_phase_valid (d : Part) (e : Dir) : bool :=
  dir_offset e - 1 <? (write_pos d + agg_buf_pos d - p_start d) `quot` INK_BLOCK_SIZE.

Definition part_offset (d : Part) (e : Dir) : Z :=
  p_start d + dir_offset e * INK_BLOCK_SIZE - INK_BLOCK_SIZE.
Definition offset_to_part_offset (d : Part) (pos : Z) : Z :=
  (pos - p_start d + INK_BLOCK_SIZE) `quot` INK_BLOCK_SIZE.
Definition part_offset_to_offset (d : Part) (pos : Z) : Z :=
  p_start d + pos * INK_BLOCK_SIZE - INK_BLOCK_SIZE.
Definition part_in_phase_agg_buf_valid (d : Part) (e : Dir) : bool :=
  (part_offset d e >=? write_pos d) && (part_offset d e <? write_pos d + agg_buf_pos d).

Definition dir_valid (d : Part) (e : Dir) : bool :=
  if hdr_phase d =? dir_phase e then part_in_phase_valid d e else part_out_of_phase_valid d e.
Definition dir_agg_valid (d : Part) (e : Dir) : bool :=
  if hdr_phase d =? dir_phase e then part_in_phase_valid d e else part_out_of_phase_agg_valid d e.
Definition dir_write_valid (d : Part) (e : Dir) : bool :=
  if hdr_phase d =? dir_phase e then part_in_phase_valid d e else part_out_of_phase_write_valid d e.
Definition dir_agg_buf_valid (d : Part) (e : Dir) : bool :=
  (hdr_phase d =? dir_phase e) && part_in_phase_agg_buf_valid d e.

(** ** Segments of a partition *)

(** [dir_segment(s, d)] with the header fields its routines use. *)
Definition load (d : Part) (s : nat) : Seg :=
  mkSeg (p_segs d !!! s) (p_freelist d !!! s) (p_dirty d) (p_used d) (p_collisions d).

Definition store (d : Part) (s : nat) (st : Seg) : Part :=
  mkPart (buckets d) (<[s := ents st]> (p_segs d)) (<[s := freelist st]> (p_freelist d)) (dirty st)
    (hdr_phase d) (write_pos d) (agg_pos d) (agg_buf_pos d) (p_start d)
    (dir_used st) (dir_collisions st) (lookaside d) (ram_cache d).

Definition key_segment (d : Part) (key : CacheKey) : nat := Z.to_nat (kw0 key mod Z.of_nat (segments d)).
Definition key_bucket (d : Part) (key : CacheKey) : nat := Z.to_nat (kw1 key mod Z.of_nat (buckets d)).

(** ** The directory operations *)

Definition dir_insert (fuel : nat) (key : CacheKey) (d : Part) (to_part : Dir) : option (Part * Z) :=
  let s := key_segment d key in
  st ← dir_insert_seg (dir_valid d) (buckets d) fuel (dir_bucket (key_bucket d key)) key to_part (load d s);
  Some (store d s st, 1).

Definition dir_probe (key : CacheKey) (d : Part) (last_collision : option nat)
  : option (Part * option (Dir * nat)) :=
  let s := key_segment d key in
  '(st, r) ← dir_probe_seg (dir_valid d) key (dir_bucket (key_bucket d key)) last_collision (load d s);
  Some (store d s st, r).

Definition dir_overwrite (fuel : nat) (key : CacheKey) (d : Part) (dir overwrite : Dir)
  (must_overwrite : bool) : option (Part * Z) :=
  let s := key_segment d key in
  '(st, r) ← dir_overwrite_seg (dir_valid d) (buckets d) fuel (dir_bucket (key_bucket d key)) key
               dir overwrite must_overwrite 1 (load d s);
  Some (store d s st, r).

Definition dir_delete (key : CacheKey) (d : Part) (del : Dir) : option (Part * Z) :=
  let s := key_segment d key in
  '(st, r) ← dir_delete_seg (dir_bucket (key_bucket d key)) key del (load d s);
  Some (store d s st, r).

Definition check_dir (d : Part) : bool :=
  forallb (fun es => check_dir_seg (buckets d) es) (p_segs d).

Definition dir_clean_part (d : Part) : option Part :=
  forM (seq 0 (segments d))
    (fun s d' => st ← dir_clean_segment (dir_valid d') (buckets d') (load d' s); Some (store d' s st)) d.

(** One entry of [dir_clear_range]: the offset is compared as an [int]. *)
Definition in_clear_range (start end_ : Z) (e : Dir) : bool :=
  (dir_token e =? 0) && (i32 (dir_offset e) >=? start) && (i32 (dir_offset e) <? end_).

#[global] Arguments in_clear_range : simpl never.

Definition clear_entries (start end_ : Z) (st : Seg) : Seg :=
  mkSeg ((fun e => if in_clear_range start end_ e then dir_set_offset e 0 else e) <$> ents st)
        (freelist st) (dirty st)
        (dir_used st - Z.of_nat (length (filter (fun e => in_clear_range start end_ e = true) (ents st))))
        (dir_collisions st).

Definition dir_clear_range (start end_ : Z) (d : Part) : option Part :=
  dir_clean_part (foldl (fun d' s => store d' s (clear_entries start end_ (load d' s))) d (seq 0 (segments d))).

(** The inner loops of [dir_entries_used] over one segment. *)
Fixpoint segment_entries_used (bs : list nat) (sfull : Z) (nb : nat) (st : Seg) : option (Z * Seg) :=
  match bs with
  | [] => Some (sfull, st)
  | b :: bs' =>
    '(fixed, st1) ← dir_bucket_loop_fix (Some (dir_bucket b)) nb st;
    if (fixed : bool) then Some (0, st1)
    else
      a ← account_bucket (fun _ => true) (fun _ => true) (S (length (ents st1))) (ents st1)
            (Some (dir_bucket b)) (mkAccount 0 0 0 0 0);
      segment_entries_used bs' (sfull + ac_used a) nb st1
  end.

Definition dir_entries_used (d : Part) : option (Z * Part) :=
  forM (seq 0 (segments d))
    (fun s '(full, d') =>
       '(sfull, st) ← segment_entries_used (seq 0 (buckets d')) 0 (buckets d') (load d' s);
       Some (full + sfull, store d' s st))
    (0, d).

(** ** The lookaside table *)

Definition set_lookaside (d : Part) (la : list (list EvacuationBlock)) : Part :=
  mkPart (buckets d) (p_segs d) (p_freelist d) (p_dirty d) (hdr_phase d) (write_pos d) (agg_pos d)
    (agg_buf_pos d) (p_start d) (p_used d) (p_collisions d) la (ram_cache d).

Definition set_ram (d : Part) (rc : RamCache) : Part :=
  mkPart (buckets d) (p_segs d) (p_freelist d) (p_dirty d) (hdr_phase d) (write_pos d) (agg_pos d)
    (agg_buf_pos d) (p_start d) (p_used d) (p_collisions d) (lookaside d) rc.

Definition lookaside_index (key : CacheKey) : nat := Z.to_nat (kw3 key mod LOOKASIDE_SIZE).

Definition dir_lookaside_probe (key : CacheKey) (d : Part) : option (Dir * EvacuationBlock) :=
  (fun b => (eb_new_dir b, b)) <$>
  head (filter (fun b => eb_key b = key /\ dir_valid d (eb_new_dir b) = true)
               (lookaside d !!! lookaside_index key)).

Definition dir_lookaside_insert (eblock : EvacuationBlock) (d : Part) (to : Dir) : Part :=
  let key := eb_earliest_key eblock in
  set_lookaside d (alter (cons (mkEB (eb_dir eblock) to key key (earliest_evacuator eblock)))
                         (lookaside_index key) (lookaside d)).

(** Take the first block with the key out of a chain. *)
Fixpoint take_block (key : CacheKey) (l : list EvacuationBlock) : option (EvacuationBlock * list EvacuationBlock) :=
  match l with
  | [] => None
  | b :: l' =>
    if bool_decide (eb_key b = key) then Some (b, l')
    else match take_block key l' with Some (x, r) => Some (x, b :: r) | None => None end
  end.

Definition dir_lookaside_fixup (fuel : nat) (key : CacheKey) (d : Part) : option (Part * Z) :=
  match take_block key (lookaside d !!! lookaside_index key) with
  | None => Some (d, 0)
  | Some (b, rest) =>
    '(d1, res) ← dir_overwrite fuel key d (eb_new_dir b) (eb_dir b) false;
    let rc := (fixup (ram_cache d1) key 0 (u32 (dir_offset (eb_dir b))) 0 (u32 (dir_offset (eb_new_dir b)))).1 in
    Some (set_lookaside (set_ram d1 rc) (<[lookaside_index key := rest]> (lookaside d1)), res)
  end.

(** The blocks whose new entry is no longer valid go, and their evacuators are
    freed. *)
Definition dir_lookaside_cleanup (d : Part) : Part * list Z :=
  (set_lookaside d (filter (fun b => dir_valid d (eb_new_dir b) = true) <$> lookaside d),
   mjoin ((fun l => earliest_evacuator <$> filter (fun b => dir_valid d (eb_new_dir b) = false) l) <$> lookaside d)).

Definition dir_lookaside_remove (key : CacheKey) (d : Part) : Part :=
  match take_block key (lookaside d !!! lookaside_index key) with
  | None => d
  | Some (_, rest) => set_lookaside d (<[lookaside_index key := rest]> (lookaside d))
  end.

(** ** Initialisation *)

(** [part_init_dir]: rows 1..3 of every bucket of every segment on its free
    list. *)
Definition part_init_dir (d : Part) : Part :=
  foldl (fun d' s =>
           store d' s (foldl (fun st i => dir_free_entry i st) (set_freelist (load d' s) 0)
                             (init_order (buckets d'))))
        d (seq 0 (segments d)).

(** The [memset] of [part_clear_init] over the header and the entries. *)
Definition memset_dir (d : Part) : Part :=
  mkPart (buckets d) ((fun _ => replicate (buckets d * DIR_DEPTH) dir_clear) <$> p_segs d)
    ((fun _ => 0) <$> p_freelist d) false 0 0 0 (agg_buf_pos d) (p_start d)
    (p_used d) (p_collisions d) (lookaside d) (ram_cache d).

Definition part_clear_init (d : Part) : Part :=
  let d1 := part_init_dir (memset_dir d) in
  mkPart (buckets d1) (p_segs d1) (p_freelist d1) false 0 (p_start d1) (p_start d1)
    (agg_buf_pos d1) (p_start d1) (p_used d1) (p_collisions d1) (lookaside d1) (ram_cache d1).

(** ** Invariant *)

Record part_inv (d : Part) : Prop := {
  pi_segments : (0 < segments d)%nat;
  pi_buckets : (0 < buckets d)%nat;
  pi_freelist : length (p_freelist d) = segments d;
  pi_seg : forall s, (s < segments d)%nat -> seg_inv (buckets d) (load d s)
}.

(** The entries of the bucket of a key. *)
Definition key_contents (d : Part) (key : CacheKey) : list Dir :=
  bucket_contents (load d (key_segment d key)) (key_bucket d key).

(** * Theorems about the directory of a partition: the public operations keep
    the invariant of every segment, act on the bucket of their key only, and an
    entry that was inserted is found. *)

(** The invariant of a partition during the emptying loop of
    [dir_clear_range]: every segment represents its lists, clean or not. *)
Definition part_rep (d : Part) : Prop :=
  (0 < segments d)%nat /\ length (p_freelist d) = segments d /\
  forall s, (s < segments d)%nat -> exists fl ch, seg_rep (buckets d) (load d s) fl ch.

(** Only the bucket of [key] changed, to [l]. *)
Definition key_update (d : Part) (key : CacheKey) (l : list Dir) (d' : Part) : Prop :=
  part_inv d' /\ key_contents d' key = l /\
  segments d' = segments d /\ buckets d' = buckets d /\
  (forall s b, (s < segments d)%nat -> (b < buckets d)%nat ->
     (s, b) <> (key_segment d key, key_bucket d key) ->
     bucket_contents (load d' s) b = bucket_contents (load d s) b).

(** ** Loading and storing *)

Lemma load_store_eq d s st : (s < segments d)%nat -> length (p_freelist d) = segments d ->
  load (store d s st) s = st.
Proof.
  intros Hs Hf. unfold load, store. simpl.
  rewrite !list_lookup_total_insert_eq by (unfold segments in *; lia). by destruct st.
Qed.

Lemma load_store_ne d s s' st : s' <> s ->
  ents (load (store d s st) s') = ents (load d s') /\ freelist (load (store d s st) s') = freelist (load d s').
Proof. intros Hne. unfold load, store. simpl. by rewrite !list_lookup_total_insert_ne by done. Qed.

Lemma segments_store d s st : segments (store d s st) = segments d.
Proof. unfold segments, store. simpl. by rewrite length_insert. Qed.

Lemma valid_store d s st e : dir_valid (store d s st) e = dir_valid d e.
Proof. reflexivity. Qed.

Lemma dir_valid_payload d e : dir_valid d (dir_payload e) = dir_valid d e.
Proof. reflexivity. Qed.

Lemma dir_set_tag_mask e t : dir_set_tag e t = dir_set_tag e (DIR_MASK_TAG t).
Proof. unfold dir_set_tag, DIR_MASK_TAG, DIR_TAG_WIDTH. f_equal. bitblast. Qed.

Lemma phase_set_tag e t : dir_wf e -> dir_phase (dir_set_tag e t) = dir_phase e.
Proof.
  intros He. rewrite dir_set_tag_mask. apply (field_get_set_ne F_phase F_tag); [done| |done].
  change (field_width F_tag) with DIR_TAG_WIDTH. unfold DIR_MASK_TAG, DIR_TAG_WIDTH.
  rewrite Z.land_ones by lia. apply Z.mod_pos_bound. lia.
Qed.

Lemma valid_new_entry d tp t : dir_wf tp -> dir_valid d (new_entry tp t) = dir_valid d tp.
Proof.
  intros Hw. unfold dir_valid, part_in_phase_valid, part_out_of_phase_valid, new_entry.
  change (dir_phase (dir_payload (dir_set_tag tp t))) with (dir_phase (dir_set_tag tp t)).
  by rewrite phase_set_tag.
Qed.

Lemma tag_new_entry tp t : dir_tag (new_entry tp t) = DIR_MASK_TAG t.
Proof. apply dir_tag_set_tag. Qed.

Section ops.
Variable d : Part.
Hypothesis I : part_inv d.

Lemma key_segment_lt key : (key_segment d key < segments d)%nat.
Proof.
  pose proof (pi_segments _ I). unfold key_segment.
  pose proof (Z.mod_pos_bound (kw0 key) (Z.of_nat (segments d)) ltac:(lia)). lia.
Qed.

Lemma key_bucket_lt key : (key_bucket d key < buckets d)%nat.
Proof.
  pose proof (pi_buckets _ I). unfold key_bucket.
  pose proof (Z.mod_pos_bound (kw1 key) (Z.of_nat (buckets d)) ltac:(lia)). lia.
Qed.

Lemma store_inv s st : (s < segments d)%nat -> seg_inv (buckets d) st -> part_inv (store d s st).
Proof.
  intros Hs Hst. destruct I as [H1 H2 H3 H4]. constructor.
  - by rewrite segments_store.
  - done.
  - rewrite segments_store. simpl. by rewrite length_insert.
  - intros s'. rewrite segments_store. intros Hs'. destruct (decide (s' = s)) as [->|Hne].
    + by rewrite load_store_eq.
    + destruct (load_store_ne d s s' st Hne) as [E1 E2]. by apply (inv_stats _ (load d s')); auto.
Qed.

(** A segment operation on the bucket of the key, as a partition operation. *)
Lemma key_update_store key st l :
  bucket_is (buckets d) (key_bucket d key) l (load d (key_segment d key)) st ->
  key_update d key l (store d (key_segment d key) st).
Proof.
  intros (Is & Ho & Hl). pose proof (key_segment_lt key) as Hs. pose proof (pi_freelist _ I) as Hf.
  assert (Ek : key_segment (store d (key_segment d key) st) key = key_segment d key)
    by (unfold key_segment; by rewrite segments_store).
  split_and!; [by apply store_inv| |apply segments_store|done|].
  - unfold key_contents. rewrite Ek, load_store_eq by done. done.
  - intros s b Hs' Hb Hne. destruct (decide (s = key_segment d key)) as [->|Hsne].
    + rewrite load_store_eq by done. apply Ho; [done|]. intros ->. done.
    + destruct (load_store_ne d (key_segment d key) s st Hsne) as [E1 _]. by apply contents_ents.
Qed.

Lemma load_inv key : seg_inv (buckets d) (load d (key_segment d key)).
Proof. apply (pi_seg _ I), key_segment_lt. Qed.

End ops.

(** ** Insertion and lookup *)

Lemma probe_list_hit tagged valid l x : x ∈ l -> tagged x = true -> valid x = true ->
  exists e, (probe_list tagged valid l).2 = Some e /\ e ∈ l /\ tagged e = true /\ valid e = true.
Proof.
  induction l as [|y l IH]; intros Hx Ht Hv; [by apply elem_of_nil in Hx|]. simpl.
  destruct (tagged y) eqn:Ey; [destruct (valid y) eqn:Ev|].
  - exists y. split_and!; [done|set_solver|done|done].
  - destruct IH as (e & E & ? & ? & ?); [apply elem_of_cons in Hx as [->|]; congruence|done|done|].
    exists e. split_and!; [done|set_solver|done|done].
  - destruct IH as (e & E & ? & ? & ?); [apply elem_of_cons in Hx as [->|]; congruence|done|done|].
    exists e. destruct (probe_list tagged valid l). simpl in *. split_and!; [done|set_solver|done|done].
Qed.

Lemma probe_list_sound tagged valid l e : (probe_list tagged valid l).2 = Some e ->
  e ∈ l /\ tagged e = true /\ valid e = true.
Proof.
  induction l as [|y l IH]; simpl; [done|].
  destruct (tagged y) eqn:Ey; [destruct (valid y) eqn:Ev|].
  - intros [= <-]. split_and!; [set_solver|done|done].
  - intros H. destruct (IH H) as (? & ? & ?). split_and!; [set_solver|done|done].
  - destruct (probe_list tagged valid l) as [q h]. simpl in *. intros H.
    destruct (IH H) as (? & ? & ?). split_and!; [set_solver|done|done].
Qed.

Lemma inserted_part d key tp fuel d' r :
  part_inv d -> dir_wf tp -> dir_offset tp <> 0 -> dir_insert fuel key d tp = Some (d', r) ->
  part_inv d' /\ r = 1 /\ segments d' = segments d /\ buckets d' = buckets d /\
  (forall e, dir_valid d' e = dir_valid d e) /\
  exists l, l `sublist_of` key_contents d key /\ key_contents d' key ≡ₚ new_entry tp (kw2 key) :: l.
Proof.
  intros I Hw Ho E. unfold dir_insert in E.
  destruct (dir_insert_seg _ _ _ _ _ _ _) as [st|] eqn:Es; [|done]. simpl in E. simplify_eq.
  pose proof (load_inv d I key) as Is. pose proof (key_bucket_lt d I key) as Hb.
  destruct (insert_sound (dir_valid d) (dir_valid_payload d) _ _ _ _ _ _ Is Hb Hw Ho Es)
    as (st1 & I1 & S1 & I2 & _ & Hp).
  pose proof (key_segment_lt d I key) as Hs.
  split_and!; try done; [by apply (store_inv d I)|apply segments_store|].
  unfold key_contents, key_segment. rewrite segments_store. fold (key_segment d key).
  rewrite load_store_eq by (done || apply (pi_freelist _ I)).
  change (key_bucket (store d (key_segment d key) st) key) with (key_bucket d key).
  exists (bucket_contents st1 (key_bucket d key)). split; [by apply S1|done].
Qed.

Lemma probe_part d key : part_inv d ->
  exists d' r, dir_probe key d None = Some (d', r) /\
    key_update d key (probe_list (fun e => dir_compare_tag e key) (dir_valid d) (key_contents d key)).1 d' /\
    hit_of r = (probe_list (fun e => dir_compare_tag e key) (dir_valid d) (key_contents d key)).2.
Proof.
  intros I. pose proof (load_inv d I key) as Is. pose proof (key_bucket_lt d I key) as Hb.
  destruct (dir_probe_first (dir_valid d) (dir_valid_payload d) key _ _ Is Hb) as (st & r & E & B & Hh & _).
  unfold dir_probe. rewrite E. simpl. exists (store d (key_segment d key) st), r.
  split_and!; [done|by apply key_update_store|done].
Qed.

(** ** Cleaning the partition *)

(** The segments below [k] are cleaned, the others as in [d]. *)
Definition cleaned_upto (d : Part) (k : nat) (d' : Part) : Prop :=
  segments d' = segments d /\ buckets d' = buckets d /\ length (p_freelist d') = segments d /\
  (forall e, dir_valid d' e = dir_valid d e) /\
  (forall s, (s < segments d)%nat ->
     if decide (s < k)%nat
     then seg_inv (buckets d) (load d' s) /\
       forall b, (b < buckets d)%nat -> bucket_contents (load d' s) b =
         filter (fun e => dir_valid d e = true) (bucket_contents (load d s) b)
     else ents (load d' s) = ents (load d s) /\ freelist (load d' s) = freelist (load d s)).

Lemma clean_part_spec d : (0 < buckets d)%nat -> part_rep d ->
  exists d', dir_clean_part d = Some d' /\ part_inv d' /\ cleaned_upto d (segments d) d'.
Proof.
  intros Hb0 (Hs0 & Hf & Hr). unfold dir_clean_part.
  destruct (forM_ind
    (fun s d' => st ← dir_clean_segment (dir_valid d') (buckets d') (load d' s); Some (store d' s st))
    (fun dn d' => cleaned_upto d (length dn) d') (seq 0 (segments d)) d) as (d' & E & C).
  - split_and!; try done.
  - intros dn k rest d1 Es (Hs1 & Hb1 & Hf1 & Hv1 & Hseg).
    assert (Hk : k = length dn /\ (k < segments d)%nat).
    { apply (f_equal (fun l => l !! length dn)) in Es as Ek.
      rewrite list_lookup_middle in Ek by done. apply lookup_seq in Ek. lia. }
    destruct Hk as [Hk Hlt]. pose proof (Hseg k Hlt) as Hk'. rewrite decide_False in Hk' by lia.
    destruct Hk' as [E1 E2]. destruct (Hr k Hlt) as (fl & ch & R).
    apply (rep_stats _ _ (load d1 k)) in R; [|done|done]. rewrite <- Hb1 in R.
    destruct (dir_clean_segment_spec (dir_valid d1) (dir_valid_payload d1) _ _ _ _ R) as (st & E & C).
    rewrite E. simpl. eexists. split; [done|]. rewrite length_app, Nat.add_1_r.
    split_and!; [by rewrite segments_store|done|simpl; by rewrite length_insert|done|].
    intros s Hs. destruct (decide (s = k)) as [->|Hne].
    + rewrite decide_True, load_store_eq by lia. rewrite Hb1 in *. split; [by eapply clean_upto_inv|].
      intros b Hb. destruct C as (_ & _ & _ & _ & _ & Hc). rewrite Hc, decide_True by done.
      rewrite (contents_ents (load d k)) by done.
      apply list_filter_iff. intros e. by rewrite Hv1.
    + destruct (load_store_ne d1 k s st Hne) as [E3 E4]. specialize (Hseg s Hs).
      destruct (decide (s < length dn)%nat).
      * rewrite decide_True by lia. destruct Hseg as [Hi Hc].
        split; [by apply (inv_stats _ (load d1 s))|].
        intros b Hb. rewrite (contents_ents (load d1 s)) by done. by apply Hc.
      * rewrite decide_False by lia. by rewrite E3, E4.
  - rewrite length_seq in C. exists d'. split_and!; [done| |done].
    destruct C as (Hs1 & Hb1 & Hf1 & _ & Hseg). constructor; rewrite ?Hs1, ?Hb1; try done.
    intros s Hs. specialize (Hseg s Hs). rewrite decide_True in Hseg by done. apply Hseg.
Qed.

(** ** Emptying a range of offsets *)

Lemma clear_entries_emptied start end_ st : emptied st (clear_entries start end_ st).
Proof.
  unfold clear_entries. split_and!; [cbn [ents]; by rewrite length_fmap|done|].
  intros j. unfold ent. cbn [ents].
  rewrite !list_lookup_total_alt, list_lookup_fmap. destruct (ents st !! j) as [e|];
    cbn [fmap option_fmap option_map default]; [|by left].
  destruct (in_clear_range start end_ e); auto.
Qed.

Lemma clear_fold_spec start end_ d l :
  part_rep d -> NoDup l -> (forall s, s ∈ l -> (s < segments d)%nat) ->
  let d' := foldl (fun d' s => store d' s (clear_entries start end_ (load d' s))) d l in
  part_rep d' /\ segments d' = segments d /\ buckets d' = buckets d /\
  (forall e, dir_valid d' e = dir_valid d e) /\
  (forall s, (s < segments d)%nat -> ents (load d' s) =
     if decide (s ∈ l) then ents (clear_entries start end_ (load d s)) else ents (load d s)).
Proof.
  revert d. induction l as [|s l IH]; intros d P Hnd Hl; cbv zeta; cbn [foldl].
  - split_and!; try done.
  - apply NoDup_cons in Hnd as [Hsl Hnd]. pose (d1 := store d s (clear_entries start end_ (load d s))).
    destruct P as (Hs0 & Hf & Hr). assert (Hs : (s < segments d)%nat) by (apply Hl; left).
    assert (Hs1 : segments d1 = segments d) by apply segments_store.
    assert (Hf1 : length (p_freelist d1) = segments d) by (simpl; by rewrite length_insert).
    assert (Hb1 : buckets d1 = buckets d) by reflexivity.
    assert (Hv1 : forall e, dir_valid d1 e = dir_valid d e) by reflexivity.
    assert (He1 : load d1 s = clear_entries start end_ (load d s)) by (by apply load_store_eq).
    assert (Hn1 : forall s', s' <> s -> ents (load d1 s') = ents (load d s') /\
      freelist (load d1 s') = freelist (load d s')) by (intros s' Hne; by apply load_store_ne).
    change (store d s (clear_entries start end_ (load d s))) with d1. clearbody d1.
    destruct (IH d1) as (P2 & H1 & H2 & H3 & H4); [|done| |].
    { split; [by rewrite Hs1|split; [by rewrite Hs1|]]. intros s'. rewrite Hs1, Hb1. intros Hs'.
      destruct (Hr s' Hs') as (fl & ch & R). exists fl, ch. destruct (decide (s' = s)) as [->|Hne].
      - rewrite He1. apply (emptied_rep (load d s)); [done|]. apply clear_entries_emptied.
      - destruct (Hn1 s' Hne). by apply (rep_stats _ (load d s')). }
    { intros s' Hs'. rewrite Hs1. apply Hl. by right. }
    revert P2 H1 H2 H3 H4. generalize (foldl (fun d' s0 => store d' s0 (clear_entries start end_ (load d' s0))) d1 l).
    intros d2 P2 H1 H2 H3 H4.
    split; [done|split; [congruence|split; [congruence|split; [intros e; by rewrite H3|]]]].
    intros s' Hs'. rewrite H4 by lia. destruct (decide (s' = s)) as [->|Hne].
    + rewrite (decide_False (P := s ∈ l)) by done. rewrite (decide_True (P := s ∈ s :: l)) by left.
      by rewrite He1.
    + destruct (Hn1 s' Hne) as [E1 _]. destruct (decide (s' ∈ l)) as [Hin|Hin].
      * rewrite decide_True by (by right). unfold clear_entries. cbn [ents]. by rewrite E1.
      * rewrite decide_False by (rewrite elem_of_cons; tauto). done.
Qed.

(** Emptying in place: the contents lose exactly the entries in the range. *)
Lemma pays_clear start end_ st l : pays (clear_entries start end_ st) l =
  filter (fun e => in_clear_range start end_ e = false) (pays st l).
Proof.
  assert (Hent : forall j, (j < length (ents st))%nat -> ent (clear_entries start end_ st) j =
    if in_clear_range start end_ (ent st j) then dir_set_offset (ent st j) 0 else ent st j).
  { intros j Hj. unfold ent, clear_entries. cbn [ents]. rewrite !list_lookup_total_alt, list_lookup_fmap.
    apply lookup_lt_is_Some in Hj as [e ->]. done. }
  assert (Hout : forall j, ~ (j < length (ents st))%nat -> ent (clear_entries start end_ st) j = dir_clear /\ ent st j = dir_clear).
  { intros j Hj. unfold ent, clear_entries. cbn [ents]. rewrite !list_lookup_total_alt, !lookup_ge_None_2; [done|lia|rewrite length_fmap; lia]. }
  induction l as [|i l IH]; [done|]. rewrite !pays_cons, filter_app, IH. f_equal.
  destruct (decide (i < length (ents st))%nat) as [Hi|Hi].
  2: { destruct (Hout i Hi) as [-> ->]. reflexivity. }
  rewrite Hent by done. destruct (in_clear_range start end_ (ent st i)) eqn:Er.
  - rewrite offset_set_offset_0, (decide_False (P := 0 <> 0)) by (intros H; by apply H).
    case_decide; [|done]. rewrite filter_cons_False; [done|]. change (in_clear_range start end_ (dir_payload (ent st i)))
      with (in_clear_range start end_ (ent st i)). congruence.
  - case_decide; [|done]. rewrite filter_cons_True; [done|]. done.
Qed.

Lemma contents_clear nb start end_ st st' fl ch b :
  seg_rep nb st fl ch -> ents st' = ents (clear_entries start end_ st) -> (b < nb)%nat ->
  bucket_contents st' b = filter (fun e => in_clear_range start end_ e = false) (bucket_contents st b).
Proof.
  intros R E Hb. rewrite (contents_ents (clear_entries start end_ st)) by done.
  destruct (rep_bucket _ _ _ _ R Hb) as [c Hc].
  pose proof (emptied_rep _ _ _ _ R (clear_entries_emptied start end_ st)) as R'.
  rewrite (rep_contents R b c Hc), (rep_contents R' b c Hc). apply pays_clear.
Qed.

Lemma clear_range_spec start end_ d : part_inv d ->
  exists d', dir_clear_range start end_ d = Some d' /\ part_inv d' /\ segments d' = segments d /\
  forall s b, (s < segments d)%nat -> (b < buckets d)%nat -> bucket_contents (load d' s) b =
    filter (fun e => dir_valid d e = true /\ in_clear_range start end_ e = false) (bucket_contents (load d s) b).
Proof.
  intros I. destruct I as [H1 H2 H3 H4].
  assert (P : part_rep d).
  { split_and!; try done. intros s Hs. destruct (H4 s Hs) as (fl & ch & R & _). eauto. }
  destruct (clear_fold_spec start end_ d (seq 0 (segments d)) P) as (P' & Hs & Hb & Hv & He).
  { apply NoDup_seq. } { intros s [_ Hs]%elem_of_seq. lia. }
  unfold dir_clear_range. set (d1 := foldl _ d _) in *.
  destruct (clean_part_spec d1) as (d' & E & I' & Hs' & Hb' & _ & Hv' & Hc); [by rewrite Hb|done|].
  exists d'. split_and!; [done|done|congruence|]. intros s b Hlt Hblt.
  rewrite Hs in Hc. specialize (Hc s Hlt). rewrite decide_True in Hc by done. destruct Hc as [_ Hc].
  rewrite Hc by congruence. destruct (H4 s Hlt) as (fl & ch & R & _).
  rewrite (contents_clear (buckets d) start end_ (load d s) (load d1 s) fl ch b R);
    [|rewrite (He s Hlt), decide_True; [done|apply elem_of_seq; lia]|done].
  rewrite list_filter_filter. apply list_filter_iff. intros e. rewrite Hv. tauto.
Qed.

(** ** Initialisation *)

(** Storing the result of [f] in every segment, one after the other. *)
Lemma store_all (f : Seg -> list Dir * Z) d l :
  (forall st st', ents st' = ents st -> f st' = f st) ->
  NoDup l -> (forall s, s ∈ l -> (s < segments d)%nat) -> length (p_freelist d) = segments d ->
  forall g, (forall st, ents (g st) = (f st).1 /\ freelist (g st) = (f st).2) ->
  let d' := foldl (fun d' s => store d' s (g (load d' s))) d l in
  segments d' = segments d /\ length (p_freelist d') = segments d /\ buckets d' = buckets d /\
  p_start d' = p_start d /\
  forall s, (s < segments d)%nat -> s ∈ l ->
    ents (load d' s) = (f (load d s)).1 /\ freelist (load d' s) = (f (load d s)).2.
Proof.
  intros Hf Hnd Hl Hlen g Hg. cbv zeta.
  assert (G : forall d, length (p_freelist d) = segments d -> (forall s, s ∈ l -> (s < segments d)%nat) ->
    let d' := foldl (fun d' s => store d' s (g (load d' s))) d l in
    segments d' = segments d /\ length (p_freelist d') = segments d /\ buckets d' = buckets d /\
    p_start d' = p_start d /\
    forall s, (s < segments d)%nat ->
      (s ∉ l -> ents (load d' s) = ents (load d s) /\ freelist (load d' s) = freelist (load d s)) /\
      (s ∈ l -> ents (load d' s) = (f (load d s)).1 /\ freelist (load d' s) = (f (load d s)).2)).
  2: { destruct (G d Hlen Hl) as (? & ? & ? & ? & H). split_and!; try done. intros s Hs. apply H, Hs. }
  clear Hl Hlen d. induction l as [|s l IH]; intros d Hlen Hl; cbv zeta; cbn [foldl].
  { split_and!; try done. intros s Hs. split; [done|]. intros H. by apply elem_of_nil in H. }
  apply NoDup_cons in Hnd as [Hsl Hnd]. assert (Hs : (s < segments d)%nat) by (apply Hl; left).
  pose (d1 := store d s (g (load d s))).
  assert (Hs1 : segments d1 = segments d) by apply segments_store.
  assert (Hf1 : length (p_freelist d1) = segments d) by (simpl; by rewrite length_insert).
  assert (Hb1 : buckets d1 = buckets d /\ p_start d1 = p_start d) by done.
  assert (He1 : load d1 s = g (load d s)) by (by apply load_store_eq).
  assert (Hn1 : forall s', s' <> s -> ents (load d1 s') = ents (load d s') /\
    freelist (load d1 s') = freelist (load d s')) by (intros s' Hne; by apply load_store_ne).
  change (store d s (g (load d s))) with d1. clearbody d1. destruct Hb1 as [Hb1 Hp1].
  destruct (IH Hnd d1) as (H1 & H2 & H3 & H4 & H5); [congruence|intros s' ?; rewrite Hs1; apply Hl; by right|].
  split_and!; [congruence|congruence|congruence|congruence|].
  intros s' Hs'. rewrite <- Hs1 in Hs'. destruct (H5 s' Hs') as [Hout Hin]. split.
  - intros [Hne Hnin]%not_elem_of_cons. destruct (Hn1 s' Hne) as [<- <-]. by apply Hout.
  - intros [->|Hin']%elem_of_cons.
    + destruct (Hout Hsl) as [-> ->]. rewrite He1. apply Hg.
    + destruct (Hin Hin') as [-> ->]. assert (Hne : s' <> s) by congruence.
      destruct (Hn1 s' Hne) as [E _]. by rewrite (Hf _ _ E).
Qed.

(** The free-list construction writes entries and free list as a function of
    the entries only. *)
Lemma free_entries_ext l st st' : ents st' = ents st -> freelist st' = freelist st ->
  ents (foldl (fun st i => dir_free_entry i st) st' l) = ents (foldl (fun st i => dir_free_entry i st) st l) /\
  freelist (foldl (fun st i => dir_free_entry i st) st' l) =
    freelist (foldl (fun st i => dir_free_entry i st) st l).
Proof.
  revert st st'. induction l as [|i l IH]; intros st st' E F; [done|]. cbn [foldl]. apply IH.
  - unfold dir_free_entry. rewrite F. unfold ent, set_ent, set_freelist, set_ents. cbn [ents freelist].
    destruct (dir_from_offset (freelist st)); cbn [ents freelist]; by rewrite E.
  - unfold dir_free_entry, set_freelist. rewrite F. by destruct (dir_from_offset (freelist st)).
Qed.

Lemma part_clear_init_spec d :
  (0 < segments d)%nat -> (0 < buckets d)%nat -> Z.of_nat (buckets d * DIR_DEPTH) <= 2 ^ 16 ->
  length (p_freelist d) = segments d ->
  part_inv (part_clear_init d) /\ segments (part_clear_init d) = segments d /\
  forall s b, (s < segments d)%nat -> (b < buckets d)%nat -> bucket_contents (load (part_clear_init d) s) b = [].
Proof.
  intros Hs0 Hb0 Hmax Hf. pose (d0 := memset_dir d).
  assert (Hs : segments d0 = segments d) by (unfold segments; simpl; by rewrite length_fmap).
  assert (Hf0 : length (p_freelist d0) = segments d0) by (simpl; rewrite length_fmap; congruence).
  assert (Hz : forall s, (s < segments d)%nat -> ents (load d0 s) = replicate (buckets d * DIR_DEPTH) dir_clear).
  { intros s Hlt. unfold load, d0, memset_dir. cbn [ents p_segs]. rewrite list_lookup_total_alt, list_lookup_fmap.
    apply lookup_lt_is_Some in Hlt as [x ->]. done. }
  pose (g := fun st => foldl (fun st i => dir_free_entry i st) (set_freelist st 0) (init_order (buckets d))).
  destruct (store_all (fun st => (ents (g st), freelist (g st))) d0 (seq 0 (segments d0))) with (g := g)
    as (H1 & H2 & H3 & H4 & H5).
  - intros st st' E. unfold g. destruct (free_entries_ext (init_order (buckets d)) (set_freelist st 0)
      (set_freelist st' 0)) as [-> ->]; done.
  - apply NoDup_seq.
  - intros s [_ ?]%elem_of_seq. lia.
  - done.
  - intros st. done.
  - assert (Hpd : segments (part_init_dir d0) = segments d /\ length (p_freelist (part_init_dir d0)) = segments d /\
      buckets (part_init_dir d0) = buckets d /\ forall s, (s < segments d)%nat ->
      ents (load (part_init_dir d0) s) = ents (dir_init_segment (buckets d) (load d0 s)) /\
      freelist (load (part_init_dir d0) s) = freelist (dir_init_segment (buckets d) (load d0 s))).
    { assert (E : part_init_dir d0 = foldl (fun d' s => store d' s (g (load d' s))) d0 (seq 0 (segments d0))).
      { unfold part_init_dir, g. generalize (seq 0 (segments d0)). assert (Hb : buckets d0 = buckets d) by done.
        clear -Hb. revert Hb. generalize d0. intros d1 Hb l. revert d1 Hb.
        induction l as [|s l IH]; intros d1 Hb; [done|]. cbn [foldl]. rewrite Hb. by apply IH. }
      rewrite E. split_and!; [congruence|congruence|done|]. intros s Hlt.
      destruct (H5 s) as [-> ->]; [congruence|apply elem_of_seq; lia|].
      unfold g, dir_init_segment. cbn [fst snd].
      apply free_entries_ext; [|done]. cbn [ents set_freelist set_ents]. by apply Hz. }
    destruct Hpd as (P1 & P2 & P3 & P4). unfold part_clear_init. fold d0. set (d1 := part_init_dir d0) in *.
    clearbody d1.
    assert (G : forall s, (s < segments d)%nat -> seg_inv (buckets d) (load d1 s) /\
      forall b, (b < buckets d)%nat -> bucket_contents (load d1 s) b = []).
    { intros s Hlt. destruct (P4 s Hlt) as [E1 E2].
      destruct (dir_init_segment_rep (buckets d) (load d0 s) Hmax) as (R & C & Hc). split.
      - apply (inv_stats _ (dir_init_segment (buckets d) (load d0 s))); [|done|done]. eexists _, _. done.
      - intros b Hb. rewrite (contents_ents _ _ b E1). by apply Hc. }
    split; [|split; [exact P1|]].
    + constructor; [change (0 < segments d1)%nat; lia|cbn; lia|cbn; unfold segments; cbn; fold (segments d1); congruence|].
      intros s Hlt. change (segments _) with (segments d1) in Hlt. cbn [buckets]. rewrite P3.
      apply (inv_stats _ (load d1 s)); [|done|done]. apply G. lia.
    + intros s b Hlt Hb. by apply (G s Hlt).
Qed.
