(* ===== verification/CacheDirTheorems.v ===== *)
(** The contract of the cache directory: theorems on the public operations of
    a partition, stated on the multiset or list of entries each bucket holds,
    with the concrete partitions that show their hypotheses can hold. *)

From S2P Require Import Prelude DirEntry DirSegment DirSegmentFacts DirOps DirLookup DirLoop RamCache CachePart.

(** ** Sample partitions *)

(** One segment of [nb] buckets, fresh from [part_clear_init], written up to
    block 2048. *)
Definition raw_part (nb : nat) : Part :=
  mkPart nb [replicate (nb * DIR_DEPTH) dir_clear] [0] false 0 0 0 0 0 0 0 (replicate 256 []) ram_empty.

Definition with_write_pos (d : Part) (wp : Z) : Part :=
  mkPart (buckets d) (p_segs d) (p_freelist d) (p_dirty d) (hdr_phase d) wp (agg_pos d)
    (agg_buf_pos d) (p_start d) (p_used d) (p_collisions d) (lookaside d) (ram_cache d).

Definition fresh_part (nb : nat) : Part := with_write_pos (part_clear_init (raw_part nb)) (2 ^ 20).

(** An entry at block [o], with the head bit [h]. *)
Definition entry_at (o h : Z) : Dir := dir_set_head (dir_set_offset dir_clear o) h.

Definition key_n (n : Z) : CacheKey := mkKey 0 0 n 0.

(** [n] insertions of entries without the head bit. *)
Definition insert_n (h : Z) (n : nat) (d : Part) : option Part :=
  forM (seq 1 n) (fun i d' => '(d2, _) ← dir_insert 1 (key_n (Z.of_nat i)) d' (entry_at (Z.of_nat i) h); Some d2) d.

(** Two entries with the same tag. *)
Definition two_tagged : Part :=
  match dir_insert 1 (key_n 7) (fresh_part 1) (entry_at 9 1) with
  | Some (d, _) => match dir_insert 1 (key_n 7) d (entry_at 11 1) with Some (d', _) => d' | None => d end
  | None => fresh_part 1
  end.

(** ** Their invariants *)

Lemma fresh_part_inv : part_inv (fresh_part 1).
Proof.
  destruct (part_clear_init_spec (raw_part 1)) as ([H1 H2 H3 H4] & _); [simpl; unfold segments; simpl; lia..|].
  constructor; try done.
Qed.

(** Closes the side conditions of a concrete entry. *)
Ltac concrete := repeat split; vm_compute; congruence.

(** ** Insertion *)

(** C1: after an insertion that returned, of an entry that is valid and whose offset is
    not 0 (what every caller passes), a lookup of the key finds a valid
    entry with the key's tag, and the inserted entry itself when no other entry
    of the bucket has that tag. *)
Theorem insert_probe_roundtrip d key tp fuel d' r :
  part_inv d -> dir_wf tp -> dir_offset tp <> 0 -> dir_valid d tp = true ->
  dir_insert fuel key d tp = Some (d', r) ->
  exists d2 e i, dir_probe key d' None = Some (d2, Some (e, i)) /\ part_inv d2 /\
    dir_compare_tag e key = true /\ dir_valid d e = true /\
    ((forall x, x ∈ key_contents d key -> dir_compare_tag x key = false) ->
     dir_payload e = new_entry tp (kw2 key)).
Proof.
  intros I Hw Ho Hv E. destruct (inserted_part _ _ _ _ _ _ I Hw Ho E) as (I' & _ & _ & _ & Hval & l & Hl & Hp).
  destruct (probe_part d' key I') as (d2 & r2 & E2 & K & Hh).
  assert (Hin : new_entry tp (kw2 key) ∈ key_contents d' key) by (rewrite Hp; left).
  destruct (probe_list_hit (fun e => dir_compare_tag e key) (dir_valid d') _ _ Hin) as (e & He & Hel & Ht & Hve).
  { unfold dir_compare_tag. rewrite tag_new_entry. apply Z.eqb_refl. }
  { by rewrite Hval, valid_new_entry. }
  rewrite He in Hh. destruct r2 as [[e2 i]|]; [|done]. simplify_eq/=.
  exists d2, e2, i. split_and!; [done|apply K|done|by rewrite <- Hval|].
  intros Hno. rewrite Hp in Hel. apply elem_of_cons in Hel as [->|Hel]; [done|].
  pose proof (elem_of_sublist _ _ _ Hel Hl) as Hc. by rewrite (Hno _ Hc) in Ht.
Qed.

Lemma insert_probe_roundtrip_witness :
  exists d' d2 e i, dir_insert 1 (key_n 7) (fresh_part 1) (entry_at 9 1) = Some (d', 1) /\
    dir_probe (key_n 7) d' None = Some (d2, Some (e, i)) /\ dir_compare_tag e (key_n 7) = true.
Proof.
  destruct (dir_insert 1 (key_n 7) (fresh_part 1) (entry_at 9 1)) as [[d' r]|] eqn:E; [|vm_compute in E; discriminate].
  assert (Hr : r = 1) by (vm_compute in E; congruence). subst r.
  destruct (insert_probe_roundtrip _ (key_n 7) (entry_at 9 1) 1 d' 1 fresh_part_inv) as (d2 & e & i & H1 & _ & H2 & _);
    [concrete|vm_compute; congruence|reflexivity|exact E|].
  exists d', d2, e, i. auto.
Defined.

(** C2: with a free slot for the bucket, an insertion returns 1 at the first
    attempt, adds exactly the new entry to the bucket of the key, leaves every
    other bucket of every segment as it was, and counts it. *)
Theorem insert_effect d key tp fuel :
  part_inv d -> dir_wf tp -> dir_offset tp <> 0 -> has_room (key_bucket d key) (load d (key_segment d key)) ->
  exists d' l, dir_insert (S fuel) key d tp = Some (d', 1) /\ key_update d key l d' /\
    l ≡ₚ new_entry tp (kw2 key) :: key_contents d key /\ p_used d' = p_used d + 1 /\ p_dirty d' = true.
Proof.
  intros I Hw Ho Hr. pose proof (load_inv d I key) as Is. pose proof (key_bucket_lt d I key) as Hb.
  destruct (insert_with_room (dir_valid d) _ _ key tp fuel Is Hb Hw Ho Hr) as (st & E & (I1 & Hother & Hp) & Hu & Hd).
  unfold dir_insert. rewrite E. cbn [mbind option_bind].
  exists (store d (key_segment d key) st), (bucket_contents st (key_bucket d key)).
  split_and!; [done| |done|done|done]. apply key_update_store; [done|]. by split.
Qed.

Lemma insert_effect_witness :
  exists d' l, dir_insert 1 (key_n 7) (fresh_part 1) (entry_at 9 1) = Some (d', 1) /\
    key_update (fresh_part 1) (key_n 7) l d' /\ length l = 1%nat.
Proof.
  destruct (insert_effect (fresh_part 1) (key_n 7) (entry_at 9 1) 0 fresh_part_inv) as (d' & l & H1 & H2 & H3 & _);
    [concrete|vm_compute; congruence|by left|].
  exists d', l. split_and!; [done|done|]. rewrite H3. reflexivity.
Defined.

(** C40: an insertion into a segment whose entries are all document heads
    ends with the new entry in its bucket, whatever the room left, also when there is none:
    the purge frees an entry each time round, so that there are at most as many rounds as
    entries in use, and two more. *)
Theorem insert_terminates d key tp fuel :
  part_inv d -> dir_wf tp -> dir_offset tp <> 0 ->
  all_heads (buckets d) (load d (key_segment d key)) ->
  (used_count (buckets d) (load d (key_segment d key)) < fuel)%nat ->
  exists d', dir_insert (S fuel) key d tp = Some (d', 1) /\ part_inv d' /\
    new_entry tp (kw2 key) ∈ key_contents d' key.
Proof.
  intros I Hw Ho Hh Hf. pose proof (load_inv d I key) as Is. pose proof (key_bucket_lt d I key) as Hb.
  destruct (insert_all_heads_terminates (dir_valid d) (dir_valid_payload d) _ _ key tp fuel Is Hh Hb Hw Ho Hf)
    as (st & E).
  assert (E' : dir_insert (S fuel) key d tp = Some (store d (key_segment d key) st, 1))
    by (unfold dir_insert; by rewrite E).
  destruct (inserted_part _ _ _ _ _ _ I Hw Ho E') as (I' & _ & _ & _ & _ & l & _ & Hp).
  eexists. split_and!; [exact E'|done|]. rewrite Hp. left.
Qed.

(** Four document heads fill a segment of one bucket. *)
Definition full_of_heads : Part := default (fresh_part 1) (insert_n 1 4 (fresh_part 1)).

Lemma inserts_inv h l d d' : part_inv d -> Forall (fun i => dir_wf (entry_at (Z.of_nat i) h) /\ dir_offset (entry_at (Z.of_nat i) h) <> 0) l ->
  forM l (fun i d' => '(d2, _) ← dir_insert 1 (key_n (Z.of_nat i)) d' (entry_at (Z.of_nat i) h); Some d2) d = Some d' -> part_inv d'.
Proof.
  intros I F. revert d I. induction F as [|i l [Hw Ho] F IH]; intros d I; cbn [forM]; [by intros [= <-]|]. destruct (dir_insert 1 (key_n (Z.of_nat i)) d (entry_at (Z.of_nat i) h)) as [[d2 r]|] eqn:E; [|done]. cbn [mbind option_bind].
  apply IH. by destruct (inserted_part _ _ _ _ _ _ I Hw Ho E) as [I2 _].
Qed.

Lemma heads_ok : Forall (fun i => dir_wf (entry_at (Z.of_nat i) 1) /\ dir_offset (entry_at (Z.of_nat i) 1) <> 0) (seq 1 4).
Proof. cbn [seq]. repeat (apply Forall_cons; split; [split; [concrete|vm_compute; congruence]|]). apply Forall_nil_2. Qed.

Lemma insert_n_inv h n d d' : part_inv d -> Forall (fun i => dir_wf (entry_at (Z.of_nat i) h) /\ dir_offset (entry_at (Z.of_nat i) h) <> 0) (seq 1 n) -> insert_n h n d = Some d' -> part_inv d'.
Proof. apply inserts_inv. Qed.

Lemma full_of_heads_inv : part_inv full_of_heads.
Proof.
  unfold full_of_heads. generalize (insert_n_inv 1 4 (fresh_part 1)). generalize (insert_n 1 4 (fresh_part 1)). intros o H. destruct o as [d|]; [|exact fresh_part_inv]. exact (H d fresh_part_inv heads_ok eq_refl).
Qed.

(** Its four entries are valid and there is no room, so that the first round finds none and
    calls the purge; the new entry is entered in the next round, and some of the old ones
    are left. *)
Lemma insert_terminates_witness : used_count 1 (load full_of_heads (key_segment full_of_heads (key_n 7))) = 4%nat /\
  forallb (dir_valid full_of_heads) (key_contents full_of_heads (key_n 7)) = true /\ dir_insert 1 (key_n 7) full_of_heads (entry_at 9 1) = None /\
  exists d', dir_insert 6 (key_n 7) full_of_heads (entry_at 9 1) = Some (d', 1) /\ part_inv d' /\ new_entry (entry_at 9 1) (kw2 (key_n 7)) ∈ key_contents d' (key_n 7).
Proof.
  split; [vm_compute; reflexivity|]. split; [vm_compute; reflexivity|]. split; [vm_compute; reflexivity|]. apply (insert_terminates full_of_heads (key_n 7) (entry_at 9 1) 5 full_of_heads_inv); [concrete|vm_compute; congruence| |vm_compute; lia].
  intros b e Hb He. assert (b = 0%nat) as -> by (vm_compute in Hb; lia). revert e He. apply Forall_forall. vm_compute. repeat constructor; congruence.
Defined.

(** The state of the loop: no room, and [freelist_clean] changes nothing. *)
Lemma insert_stuck valid nb b key tp st : 
  dir_is_empty (ent st (dir_bucket b)) = false -> empty_row (dir_bucket b) st = None -> freelist st = 0 ->
  freelist_clean valid nb st = Some st ->
  forall fuel, dir_insert_seg valid nb fuel (dir_bucket b) key tp st = None.
Proof.
  intros H1 H2 H3 H4. induction fuel as [|fuel IH]; [done|]. by rewrite insert_no_room, H4.
Qed.

(** four insertions of valid entries that are not document heads fill a
    one-bucket segment; the fifth never returns: the clean frees nothing, the
    purge looks at heads only, and the loop goes round for ever. *)
Theorem insert_diverges :
  exists d, insert_n 0 4 (fresh_part 1) = Some d /\
    forall key, forall fuel, dir_insert fuel key d (entry_at 9 0) = None.
Proof.
  destruct (insert_n 0 4 (fresh_part 1)) as [d|] eqn:E; [|vm_compute in E; discriminate].
  exists d. split; [done|]. intros key fuel. vm_compute in E. injection E as <-.
  unfold dir_insert, key_segment, key_bucket. unfold segments. cbn [buckets p_segs length].
  rewrite !Z.mod_1_r. rewrite insert_stuck; [done|reflexivity|reflexivity|reflexivity|].
  vm_compute. reflexivity.
Qed.

(** ** Lookup *)

(** C4: a lookup returns the first valid entry of the bucket with the key's
    tag, removes the stale entries with that tag it met before it, and leaves
    all else as it was. *)
Theorem probe_effect d key : part_inv d ->
  exists d' r, dir_probe key d None = Some (d', r) /\
    key_update d key (probe_list (fun e => dir_compare_tag e key) (dir_valid d) (key_contents d key)).1 d' /\
    hit_of r = (probe_list (fun e => dir_compare_tag e key) (dir_valid d) (key_contents d key)).2.
Proof. apply probe_part. Qed.

Lemma probe_effect_witness : exists d', dir_probe (key_n 7) (fresh_part 1) None = Some (d', None).
Proof.
  destruct (probe_effect (fresh_part 1) (key_n 7) fresh_part_inv) as (d' & r & H1 & _ & H2).
  exists d'. destruct r; [vm_compute in H2; discriminate|done].
Defined.

(** A lookup continued from the entry of an earlier hit returns the next
    valid entry with the tag, and removes only stale ones behind that entry. *)
Theorem probe_next_effect d key l1 cc l2 :
  part_inv d ->
  let st := load d (key_segment d key) in
  walk (length (ents st)) (ents st) (Some (dir_bucket (key_bucket d key))) = l1 ++ cc :: l2 ->
  dir_offset (ent st (dir_bucket (key_bucket d key))) <> 0 -> dir_compare_tag (ent st cc) key = true ->
  exists d' r, dir_probe key d (Some cc) = Some (d', r) /\
    key_update d key
      (pays st (l1 ++ [cc]) ++ (probe_list (fun e => dir_compare_tag e key) (dir_valid d) (pays st l2)).1) d' /\
    hit_of r = (probe_list (fun e => dir_compare_tag e key) (dir_valid d) (pays st l2)).2.
Proof.
  intros I st Hwalk H0 Ht. pose proof (load_inv d I key) as Is. pose proof (key_bucket_lt d I key) as Hb.
  destruct (dir_probe_next (dir_valid d) (dir_valid_payload d) key _ _ _ _ _ Is Hb Hwalk H0 Ht) as (st' & r & E & B & Hh).
  unfold dir_probe. fold st in E |- *. rewrite E. cbn [mbind option_bind].
  exists (store d (key_segment d key) st'), r. split_and!; [done|by apply key_update_store|done].
Qed.

Lemma two_tagged_inv : part_inv two_tagged.
Proof.
  unfold two_tagged. destruct (dir_insert 1 (key_n 7) (fresh_part 1) (entry_at 9 1)) as [[d r]|] eqn:E;
    [|apply fresh_part_inv].
  assert (I : part_inv d)
    by (eapply (inserted_part (fresh_part 1)); [apply fresh_part_inv| | |exact E]; [concrete|vm_compute; congruence]).
  destruct (dir_insert 1 (key_n 7) d (entry_at 11 1)) as [[d' r']|] eqn:E'; [|done].
  eapply (inserted_part d); [apply I| | |exact E']; [concrete|vm_compute; congruence].
Qed.

Lemma probe_next_effect_witness :
  exists d' r, dir_probe (key_n 7) two_tagged (Some 0%nat) = Some (d', r) /\
    dir_offset <$> hit_of r = Some 11.
Proof.
  destruct (probe_next_effect two_tagged (key_n 7) [] 0 [1%nat] two_tagged_inv) as (d' & r & H1 & _ & H2);
    [reflexivity|vm_compute; congruence|reflexivity|].
  exists d', r. split; [done|]. rewrite H2. reflexivity.
Defined.

(** ** Deletion and overwriting *)

(** C3: a deletion removes the first entry of the bucket with the key's tag
    and the offset of [del], and only it, and returns whether there was one. *)
Theorem delete_effect d key del : part_inv d ->
  let m := same_entry (DIR_MASK_TAG (kw2 key)) (dir_offset del) in
  exists d', dir_delete key d del = Some (d', Zbool (existsb m (key_contents d key))) /\
    key_update d key (remove_first m (key_contents d key)) d' /\
    p_used d' = p_used d - Zbool (existsb m (key_contents d key)).
Proof.
  intros I m. pose proof (load_inv d I key) as Is. pose proof (key_bucket_lt d I key) as Hb.
  destruct (dir_delete_spec _ _ key del Is Hb) as (st & E & B & Hu).
  unfold dir_delete. rewrite E. cbn [mbind option_bind]. eexists.
  split_and!; [done|by apply key_update_store|done].
Qed.

Lemma delete_effect_witness : exists d', dir_delete (key_n 7) two_tagged (entry_at 11 0) = Some (d', 1) /\
  dir_offset <$> key_contents d' (key_n 7) = [9].
Proof.
  destruct (delete_effect two_tagged (key_n 7) (entry_at 11 0) two_tagged_inv) as (d' & H1 & H2 & _).
  exists d'. split; [exact H1|]. destruct H2 as (_ & -> & _). reflexivity.
Defined.

(** an overwrite replaces the data of the entry it names in place and
    returns 1; when there is none it changes nothing if it must overwrite, and
    otherwise inserts the entry; it then returns 0. *)
Theorem overwrite_effect d key dir ow must fuel :
  part_inv d -> dir_wf dir -> dir_offset dir <> 0 ->
  let m := same_entry (DIR_MASK_TAG (kw2 key)) (dir_offset ow) in
  let new := new_entry dir (DIR_MASK_TAG (kw2 key)) in
  (existsb m (key_contents d key) = false -> must = false ->
   has_room (key_bucket d key) (load d (key_segment d key))) ->
  exists d' l, dir_overwrite (S fuel) key d dir ow must =
      Some (d', Zbool (existsb m (key_contents d key))) /\ key_update d key l d' /\
    if existsb m (key_contents d key) then l = replace_first m new (key_contents d key)
    else if must then l = key_contents d key
    else l ≡ₚ new :: key_contents d key.
Proof.
  intros I Hw Ho m new Hroom. pose proof (load_inv d I key) as Is. pose proof (key_bucket_lt d I key) as Hb.
  unfold dir_overwrite. destruct (existsb m (key_contents d key)) eqn:Em.
  - destruct (dir_overwrite_found (dir_valid d) (dir_valid_payload d) _ _ key dir ow must fuel Is Hb Hw Ho Em) as (st & E & B & _).
    rewrite E. eexists _, _. split_and!; [done|by apply key_update_store|done].
  - destruct must.
    + rewrite (dir_overwrite_missing (dir_valid d) _ _ key dir ow fuel 1 Is Hb Em).
      eexists _, _. split_and!; [done|apply key_update_store; [done|by apply bucket_is_refl]|done].
    + destruct (dir_overwrite_inserts (dir_valid d) _ _ key dir ow fuel 1 Is Hb Hw Ho (Hroom eq_refl eq_refl) Em)
        as (st & E & (I1 & Hot & Hp) & _).
      rewrite E. eexists _, (bucket_contents st (key_bucket d key)).
      split_and!; [done|apply key_update_store; [done|by split]|done].
Qed.

Lemma overwrite_effect_witness :
  exists d', dir_overwrite 1 (key_n 7) two_tagged (entry_at 12 1) (entry_at 11 1) true = Some (d', 1) /\
    dir_offset <$> key_contents d' (key_n 7) = [9; 12].
Proof.
  destruct (overwrite_effect two_tagged (key_n 7) (entry_at 12 1) (entry_at 11 1) true 0 two_tagged_inv)
    as (d' & l & H1 & H2 & H3); [concrete|vm_compute; congruence|discriminate|].
  exists d'. split; [exact H1|]. destruct H2 as (_ & -> & _). cbv in H3. subst l. reflexivity.
Defined.

(** ** Cleaning, clearing and checking *)

(** Cleaning a partition ends, keeps the entries that are still valid in
    every bucket, in order, and drops the others. *)
Theorem clean_effect d : part_inv d ->
  exists d', dir_clean_part d = Some d' /\ part_inv d' /\ segments d' = segments d /\
  forall s b, (s < segments d)%nat -> (b < buckets d)%nat -> bucket_contents (load d' s) b =
    filter (fun e => dir_valid d e = true) (bucket_contents (load d s) b).
Proof.
  intros I. assert (P : part_rep d).
  { destruct I as [H1 H2 H3 H4]. split; [done|split; [done|]]. intros s Hs. destruct (H4 s Hs) as (fl & ch & R & _). eauto. }
  destruct (clean_part_spec d (pi_buckets _ I) P) as (d' & E & I' & Hs & _ & _ & _ & Hc).
  exists d'. split_and!; [done|done|done|]. intros s b Hlt Hb. specialize (Hc s Hlt).
  rewrite decide_True in Hc by done. by apply Hc.
Qed.

(** The two entries of [two_tagged] with the write position behind the second. *)
Lemma clean_effect_witness : exists d', dir_clean_part (with_write_pos two_tagged (512 * 10)) = Some d' /\
  dir_offset <$> bucket_contents (load d' 0) 0 = [9].
Proof.
  destruct (clean_effect (with_write_pos two_tagged (512 * 10))) as (d' & H1 & _ & _ & H2).
  { destruct two_tagged_inv. by constructor. }
  exists d'. split; [exact H1|]. rewrite H2; [reflexivity| |]; vm_compute; lia.
Defined.

(** Clearing a range of offsets removes exactly the entries without a
    token whose offset, as an [int], lies in the range, and the stale ones. *)
Theorem clear_range_effect start end_ d : part_inv d ->
  exists d', dir_clear_range start end_ d = Some d' /\ part_inv d' /\ segments d' = segments d /\
  forall s b, (s < segments d)%nat -> (b < buckets d)%nat -> bucket_contents (load d' s) b =
    filter (fun e => dir_valid d e = true /\ in_clear_range start end_ e = false) (bucket_contents (load d s) b).
Proof. apply clear_range_spec. Qed.

Lemma clear_range_effect_witness : exists d', dir_clear_range 10 20 two_tagged = Some d' /\
  dir_offset <$> bucket_contents (load d' 0) 0 = [9].
Proof.
  destruct (clear_range_effect 10 20 two_tagged two_tagged_inv) as (d' & H1 & _ & _ & H2).
  exists d'. split; [exact H1|]. rewrite H2; [reflexivity| |]; vm_compute; lia.
Defined.

(** An offset of 2^32 blocks and more is compared modulo 2^32 and one of
    2^31 and more is negative: clearing the range of such an entry keeps it,
    and clearing a low range removes it. *)
Theorem clear_range_truncates e :
  dir_token e = 0 ->
  (2 ^ 31 <= dir_offset e < 2 ^ 32 -> in_clear_range (dir_offset e) (dir_offset e + 1) e = false) /\
  (2 ^ 32 <= dir_offset e < 2 ^ 32 + 2 ^ 31 ->
     in_clear_range (dir_offset e - 2 ^ 32) (dir_offset e - 2 ^ 32 + 1) e = true).
Proof.
  intros Ht. unfold in_clear_range. rewrite Ht. cbn [Z.eqb andb].
  split; intros Ho.
  - assert (i32 (dir_offset e) = dir_offset e - 2 ^ 32) as ->.
    { unfold wraps. replace (dir_offset e + 2 ^ (32 - 1)) with (dir_offset e - 2 ^ 31 + 1 * 2 ^ 32) by lia.
      rewrite Z.mod_add, Z.mod_small by lia. lia. }
    rewrite Z.geb_leb. apply andb_false_iff. left. apply Z.leb_gt. lia.
  - assert (i32 (dir_offset e) = dir_offset e - 2 ^ 32) as ->.
    { unfold wraps. replace (dir_offset e + 2 ^ (32 - 1)) with (dir_offset e - 2 ^ 31 + 1 * 2 ^ 32) by lia.
      rewrite Z.mod_add, Z.mod_small by lia. lia. }
    rewrite Z.geb_leb. apply andb_true_iff. split; [apply Z.leb_le|apply Z.ltb_lt]; lia.
Qed.

Lemma clear_range_truncates_witness :
  in_clear_range (2 ^ 31) (2 ^ 31 + 1) (entry_at (2 ^ 31) 1) = false.
Proof. apply (clear_range_truncates (entry_at (2 ^ 31) 1)); [reflexivity|vm_compute; split; congruence]. Defined.

(** a partition just initialised satisfies the invariant and every bucket
    of every segment is empty. *)
Theorem clear_init_effect d :
  (0 < segments d)%nat -> (0 < buckets d)%nat -> Z.of_nat (buckets d * DIR_DEPTH) <= 2 ^ 16 ->
  length (p_freelist d) = segments d ->
  part_inv (part_clear_init d) /\ segments (part_clear_init d) = segments d /\
  forall s b, (s < segments d)%nat -> (b < buckets d)%nat -> bucket_contents (load (part_clear_init d) s) b = [].
Proof. apply part_clear_init_spec. Qed.

Lemma clear_init_effect_witness : part_inv (part_clear_init (raw_part 3)).
Proof. apply (clear_init_effect (raw_part 3)); vm_compute; first [lia|congruence]. Defined.

(** In a partition that keeps the invariant every slot of every segment is
    accounted for: free, in use or an empty bucket head, and the check passes
    without repairing anything. *)
Theorem accounted_effect valid agg_valid d s offby : part_inv d -> (s < segments d)%nat -> 0 <= offby ->
  exists free a avg, dir_segment_accounted valid agg_valid (buckets d) offby (load d s) =
      Some (free, a, avg, true, load d s) /\
    free + ac_used a + ac_empty a = Z.of_nat (buckets d) * Z.of_nat DIR_DEPTH /\
    ac_used a = Z.of_nat (used_count (buckets d) (load d s)).
Proof.
  intros I Hs Ho. destruct (pi_seg _ I s Hs) as (fl & ch & R & _).
  destruct (accounted_exactly R valid agg_valid offby) as (a & avg & E & H1 & H2).
  rewrite (proj2 (Z.leb_le _ _) Ho) in E. eauto 10.
Qed.

Lemma accounted_effect_witness :
  exists free a avg, dir_segment_accounted (fun _ => true) (fun _ => true) 1 0 (load two_tagged 0) =
    Some (free, a, avg, true, load two_tagged 0) /\ free + ac_used a + ac_empty a = 4.
Proof.
  destruct (accounted_effect (fun _ => true) (fun _ => true) two_tagged 0 0 two_tagged_inv)
    as (free & a & avg & H1 & H2 & _); [vm_compute; lia|lia|].
  exists free, a, avg. split; [exact H1|exact H2].
Defined.

(** the loop check decides, for any contents of the segment, corrupt ones
    included: it ends, with 1 exactly when the chain from the entry ends. *)
Theorem loop_check_correct es i :
  exists r, dir_bucket_loop_check (Some i) es = Some r /\ (r = true <-> exists n, after es i n = None).
Proof.
  eexists. split; [apply loop_check_decides|].
  destruct (after es i (S (length es))) eqn:E; split; [done| |by eauto|done].
  intros [m Hm]. apply after_walk in Hm. congruence.
Qed.
