(* ===== verification/CacheDisk.v ===== *)
(** The space management of one cache disk ([iocore/cache/CacheDisk.cc],
    [P_CacheDisk.h]): the on-disk header with its array of partition blocks,
    the in-memory queues that index it, the operations that carve partitions
    out of the free blocks and give them back, and the event handlers that
    bring a disk up.

    A [DiskPartBlock *] is the index of the block in [part_info]; a
    [DiskPartBlockQueue *] is that index with its [new_block] flag.  The slots
    of [disk_parts] at or above [num_partitions] are never read, so the model
    keeps the slots below it only. *)

From S2P Require Import Prelude DirEntry.

Definition STORE_BLOCK_SIZE : Z := 8192.
Definition STORE_BLOCK_SHIFT : Z := 13.
Definition PART_BLOCK_SIZE : Z := 1024 * 1024 * 128.
Definition MIN_PART_SIZE : Z := PART_BLOCK_SIZE.
Definition MAX_PART_SIZE : Z := 512 * 1024 * 1024 * 1024 * 1024.
Definition DISK_HEADER_MAGIC : Z := 0xABCD1235.
Definition CACHE_NONE_TYPE : Z := 0.
Definition START_POS : Z := 32 * INK_BLOCK_SIZE.
Definition ROUND_TO_BLOCK (x : Z) : Z := Z.land (x + (INK_BLOCK_SIZE - 1)) (Z.lnot (INK_BLOCK_SIZE - 1)).
(** [sizeof(DiskHeader)] and [sizeof(DiskPartBlock)] on a 64-bit host. *)
Definition sizeof_DiskHeader : Z := 48.
Definition sizeof_DiskPartBlock : Z := 16.
(** [PART_BLOCK_SIZE / STORE_BLOCK_SIZE]. *)
Definition blocks_per_part : Z := 16384.

(** ** State *)

Record DiskPartBlock := mkDPB {
  dpb_offset : Z;   (* ink_off_t *)
  dpb_number : Z;   (* unsigned short *)
  dpb_len : Z;      (* unsigned int:26, in store blocks *)
  dpb_type : Z;     (* unsigned int:3 *)
  dpb_free : bool   (* unsigned int:1 *)
}.

#[global] Instance DiskPartBlock_inhabited : Inhabited DiskPartBlock := populate (mkDPB 0 0 0 0 false).

Record DiskPartBlockQueue := mkQ { q_b : nat; new_block : bool }.

Record DiskPart := mkDP {
  num_partblocks : Z;
  part_number : Z;
  dp_size : Z;
  dpb_queue : list DiskPartBlockQueue
}.

Record DiskHeader := mkHdr {
  magic : Z;
  num_partitions : Z;
  num_free : Z;
  num_used : Z;
  num_diskpart_blks : Z;
  num_blocks : Z;
  part_info : list DiskPartBlock        (* its length is the room in the header *)
}.

Inductive handler_t := clearDone_h | openStart_h | openDone_h | syncDone_h.

Record CacheDisk := mkDisk {
  header : DiskHeader;
  header_len : Z;
  dlen : Z;
  start : Z;
  skip : Z;
  start_offset : Z;
  num_usable_blocks : Z;                (* int *)
  free_space : Z;
  wasted_space : Z;
  disk_parts : list DiskPart;
  free_blocks : DiskPart;
  num_errors : Z;
  cleared : bool;
  handler : handler_t
}.

(** The parts an operation replaces. *)
Definition set_alloc (d : CacheDisk) (h : DiskHeader) (fs ws : Z) (dps : list DiskPart) (fb : DiskPart) : CacheDisk :=
  mkDisk h (header_len d) (dlen d) (start d) (skip d) (start_offset d) (num_usable_blocks d)
         fs ws dps fb (num_errors d) (cleared d) (handler d).
Definition set_handler (d : CacheDisk) (hd : handler_t) : CacheDisk :=
  mkDisk (header d) (header_len d) (dlen d) (start d) (skip d) (start_offset d) (num_usable_blocks d)
         (free_space d) (wasted_space d) (disk_parts d) (free_blocks d) (num_errors d) (cleared d) hd.
Definition set_errors (d : CacheDisk) (n : Z) : CacheDisk :=
  mkDisk (header d) (header_len d) (dlen d) (start d) (skip d) (start_offset d) (num_usable_blocks d)
         (free_space d) (wasted_space d) (disk_parts d) (free_blocks d) n (cleared d) (handler d).
Definition set_cleared (d : CacheDisk) (c : bool) : CacheDisk :=
  mkDisk (header d) (header_len d) (dlen d) (start d) (skip d) (start_offset d) (num_usable_blocks d)
         (free_space d) (wasted_space d) (disk_parts d) (free_blocks d) (num_errors d) c (handler d).
Definition set_info (h : DiskHeader) (info : list DiskPartBlock) : DiskHeader :=
  mkHdr (magic h) (num_partitions h) (num_free h) (num_used h) (num_diskpart_blks h) (num_blocks h) info.
Definition set_counts (h : DiskHeader) (np nf nu nd : Z) : DiskHeader :=
  mkHdr (magic h) (u32 np) (u32 nf) (u32 nu) (u32 nd) (num_blocks h) (part_info h).

(** Length of the block behind a queue node. *)
Definition q_len (info : list DiskPartBlock) (q : DiskPartBlockQueue) : Z := dpb_len (info !!! q_b q).

(** ** Allocation *)

(** The loop over the free queue: the first block long enough, or the longest. *)
Fixpoint fit (info : list DiskPartBlock) (size : Z) (qs : list DiskPartBlockQueue) (closest : DiskPartBlockQueue)
  : DiskPartBlockQueue * bool :=
  match qs with
  | [] => (closest, false)
  | q :: qs' =>
    if q_len info q >=? u32 size then (q, true)
    else fit info size qs' (if q_len info closest <? q_len info q then q else closest)
  end.

(** [Queue::remove]: queue nodes are told apart by their block. *)
Definition q_remove (q : DiskPartBlockQueue) (qs : list DiskPartBlockQueue) : list DiskPartBlockQueue :=
  filter (fun x => q_b x <> q_b q) qs.

(** Add the block to the partition [number], made if there is none. *)
Fixpoint add_to_part (number : Z) (q : DiskPartBlockQueue) (len : Z) (dps : list DiskPart) : list DiskPart * bool :=
  match dps with
  | [] => ([mkDP 1 number len [q]], true)
  | dp :: dps' =>
    if part_number dp =? number
    then (mkDP (num_partblocks dp + 1) (part_number dp) (dp_size dp + len) (dpb_queue dp ++ [q]) :: dps', false)
    else let '(r, new) := add_to_part number q len dps' in (dp :: r, new)
  end.

Definition create_partition (number size_in_blocks scheme : Z) (d : CacheDisk) : CacheDisk * option nat :=
  if size_in_blocks =? 0 then (d, None)
  else match dpb_queue (free_blocks d) with
  | [] => (d, None)
  | q0 :: _ =>
    let h := header d in
    let max_blocks := Z.shiftr MAX_PART_SIZE STORE_BLOCK_SHIFT in
    let size0 := if size_in_blocks <=? max_blocks then size_in_blocks else max_blocks in
    let '(q, found) := fit (part_info h) size0 (dpb_queue (free_blocks d)) q0 in
    let p := part_info h !!! q_b q in
    let size := if (found : bool) then size0 else dpb_len p - dpb_len p mod blocks_per_part in
    let ws := if (found : bool) then wasted_space d else wasted_space d + dpb_len p mod blocks_per_part in
    let fq := q_remove q (dpb_queue (free_blocks d)) in
    let fs := free_space d - dpb_len p in
    let fsize := dp_size (free_blocks d) - dpb_len p in
    let new_size := i32 (dpb_len p - size) in
    let n := Z.to_nat (num_diskpart_blks h) in
    let '(info1, nd, nf, fq1, fs1, fsize1) :=
      if new_size >=? blocks_per_part then
        let dpb := mkDPB (dpb_offset p + size * STORE_BLOCK_SIZE) (dpb_number p)
                         (wrapu 26 (dpb_len p - size)) (dpb_type p) (dpb_free p) in
        (<[n := dpb]> (part_info h), num_diskpart_blks h + 1, num_free h,
         fq ++ [mkQ n false], fs + dpb_len dpb, fsize + dpb_len dpb)
      else (part_info h, num_diskpart_blks h, num_free h - 1, fq, fs, fsize) in
    let p' := mkDPB (dpb_offset p) (u16 number) (wrapu 26 size) (wrapu 3 scheme) false in
    let info2 := <[q_b q := p']> info1 in
    let '(dps, new) := add_to_part number (mkQ (q_b q) true) (dpb_len p') (disk_parts d) in
    let np := if (new : bool) then num_partitions h + 1 else num_partitions h in
    (set_alloc d (set_counts (set_info h info2) np nf (num_used h + 1) nd) fs1 ws dps
       (mkDP (num_partblocks (free_blocks d)) (part_number (free_blocks d)) fsize1 fq1),
     Some (q_b q))
  end.

(** ** Release *)

(** The loop over the blocks of a partition given back. *)
Fixpoint release (qs : list DiskPartBlockQueue) (info : list DiskPartBlock) (fs nf nu : Z)
  : list DiskPartBlock * Z * Z * Z :=
  match qs with
  | [] => (info, fs, nf, nu)
  | q :: qs' =>
    let p := info !!! q_b q in
    release qs' (<[q_b q := mkDPB (dpb_offset p) (dpb_number p) (dpb_len p) CACHE_NONE_TYPE true]> info)
            (fs + dpb_len p) (nf + 1) (nu - 1)
  end.

(** The first partition with the number, and the others. *)
Fixpoint take_part (number : Z) (dps : list DiskPart) : option (DiskPart * list DiskPart) :=
  match dps with
  | [] => None
  | dp :: dps' =>
    if part_number dp =? number then Some (dp, dps')
    else match take_part number dps' with Some (x, r) => Some (x, dp :: r) | None => None end
  end.

Definition delete_partition (number : Z) (d : CacheDisk) : CacheDisk * Z :=
  match take_part number (disk_parts d) with
  | None => (d, -1)
  | Some (dp, rest) =>
    let h := header d in
    let fb := free_blocks d in
    let '(info, fs, nf, nu) := release (dpb_queue dp) (part_info h) (free_space d) (num_free h) (num_used h) in
    (set_alloc d (set_counts (set_info h info) (num_partitions h - 1) nf nu (num_diskpart_blks h))
       fs (wasted_space d) rest
       (mkDP (num_partblocks fb + num_partblocks dp) (part_number fb) (dp_size fb + dp_size dp)
             (dpb_queue fb ++ dpb_queue dp)), 0)
  end.

(** ** Rebuilding the queues from the header *)

(** One block of the header, as [update_header] files it. *)
Definition file_block (i : nat) (b : DiskPartBlock) (acc : DiskPart * Z * list DiskPart) : DiskPart * Z * list DiskPart :=
  let '(fb, fs, dps) := acc in
  if dpb_free b then
    (mkDP (num_partblocks fb + 1) (part_number fb) (dp_size fb + dpb_len b) (dpb_queue fb ++ [mkQ i false]),
     fs + dpb_len b, dps)
  else (fb, fs, (add_to_part (dpb_number b) (mkQ i false) (dpb_len b) dps).1).

Definition update_header (d : CacheDisk) : CacheDisk :=
  let h := header d in
  let '(fb, fs, dps) :=
    foldl (fun acc i => file_block i (part_info h !!! i) acc) (mkDP 0 (-1) 0 [], 0, [])
          (seq 0 (Z.to_nat (num_diskpart_blks h))) in
  set_alloc d h fs (wasted_space d) dps fb.

Definition get_diskpart (number : Z) (d : CacheDisk) : option DiskPart := fst <$> take_part number (disk_parts d).

Definition delete_all_partitions (d : CacheDisk) : CacheDisk :=
  let h := header d in
  let b0 := mkDPB (start d) (dpb_number (part_info h !!! 0%nat)) (wrapu 26 (num_usable_blocks d)) CACHE_NONE_TYPE true in
  let h' := mkHdr DISK_HEADER_MAGIC 0 1 0 1 (dlen d) (<[0%nat := b0]> (part_info h)) in
  update_header (set_cleared (set_alloc d h' (free_space d) (wasted_space d) (disk_parts d) (free_blocks d)) true).

(** ** Opening a disk *)

(** [header_len] after one pass of the sizing loop; [l] is unsigned. *)
Definition header_size (len st sk : Z) : Z :=
  let l := u64 (len * STORE_BLOCK_SIZE - (st - sk)) in
  if l >=? MIN_PART_SIZE
  then i32 (sizeof_DiskHeader + (l / MIN_PART_SIZE - 1) * sizeof_DiskPartBlock)
  else sizeof_DiskHeader.

(** What a handler asks of the I/O and event processors.  A read or a write is
    always of [header_len] bytes at [skip], the on-disk place of the header. *)
Inductive disk_io := IO_read | IO_write | IO_initialized | IO_retry.

Definition sync (d : CacheDisk) : CacheDisk * list disk_io := (d, [IO_write]).

Definition clearDisk (d : CacheDisk) : CacheDisk * list disk_io := (delete_all_partitions d, [IO_write]).

(** The geometry [open] computes and the zeroed header, with room for
    [header_len / sizeof(DiskPartBlock)] blocks; [c_errors] is the error count
    so far. *)
Definition open (blocks dir_skip : Z) (clear : bool) (c_errors : Z) : CacheDisk * list disk_io :=
  let sk := ROUND_TO_BLOCK (if dir_skip <? START_POS then START_POS else dir_skip) in
  let hl1 := header_size blocks sk sk in
  let hl2 := header_size blocks (sk + hl1) sk in
  let hl3 := header_size blocks (sk + hl2) sk in
  let hl := ROUND_TO_BLOCK hl3 in
  let st := sk + hl in
  let usable := i32 (Z.shiftr (blocks * STORE_BLOCK_SIZE - (st - dir_skip)) STORE_BLOCK_SHIFT) in
  let room := Z.to_nat ((hl - (sizeof_DiskHeader - sizeof_DiskPartBlock)) / sizeof_DiskPartBlock) in
  let d := mkDisk (mkHdr 0 0 0 0 0 0 (replicate room inhabitant)) hl blocks st sk dir_skip usable
             0 0 [] (mkDP 0 0 0 []) c_errors false openStart_h in
  if clear then clearDisk (set_handler d clearDone_h) else (d, [IO_read]).

Section handlers.
(** [cache_config_max_disk_errors]. *)
Variable max_disk_errors : Z.

Definition DISK_BAD (d : CacheDisk) : bool := num_errors d >=? max_disk_errors.
Definition SET_DISK_BAD (d : CacheDisk) : CacheDisk := set_errors d max_disk_errors.

Definition openDone (start_done : bool) (d : CacheDisk) : CacheDisk * list disk_io :=
  if start_done then (set_handler d syncDone_h, [IO_initialized]) else (d, [IO_retry]).

Definition clearDone (io_ok start_done : bool) (d : CacheDisk) : CacheDisk * list disk_io :=
  let d1 := if io_ok then d else SET_DISK_BAD d in
  openDone start_done (set_handler d1 openDone_h).

(** [read]: the header as the read left it in memory. *)
Definition openStart (io_ok start_done : bool) (read : DiskHeader) (d : CacheDisk) : CacheDisk * list disk_io :=
  if negb io_ok then openDone start_done (set_handler (SET_DISK_BAD d) openDone_h)
  else
    let d1 := set_alloc d read (free_space d) (wasted_space d) (disk_parts d) (free_blocks d) in
    if negb (magic read =? DISK_HEADER_MAGIC) || negb (num_blocks read =? dlen d)
    then clearDisk (set_handler d1 clearDone_h)
    else openDone start_done (set_handler (update_header (set_cleared d1 false)) openDone_h).

Definition syncDone (io_ok : bool) (d : CacheDisk) : CacheDisk :=
  if io_ok then d else SET_DISK_BAD d.

(** The events a disk receives, dispatched to its current handler. *)
Inductive disk_event :=
| AioDone (io_ok : bool) (read : DiskHeader)
| Immediate.

Definition handle (start_done : bool) (ev : disk_event) (d : CacheDisk) : CacheDisk * list disk_io :=
  match handler d, ev with
  | clearDone_h, AioDone ok _ => clearDone ok start_done d
  | openStart_h, AioDone ok read => openStart ok start_done read d
  | openDone_h, _ => openDone start_done d
  | syncDone_h, AioDone ok _ => (syncDone ok d, [])
  | _, Immediate => (d, [])
  end.
End handlers.
