(* ===== verification/CacheDiskFacts.v ===== *)
(** Theorems about the space management of a cache disk: the blocks of the
    header never overlap and are each owned by the free queue or by one
    partition, the counters agree with them, the header has room for every
    split, and the queues rebuilt from the header are the ones in memory. *)

From S2P Require Import Prelude DirEntry CacheDisk.

(** ** Invariant *)

Definition lensum (info : list DiskPartBlock) (l : list nat) : Z :=
  foldr (fun i acc => dpb_len (info !!! i) + acc) 0 l.

Definition qblocks (dp : DiskPart) : list nat := q_b <$> dpb_queue dp.

Definition nblks (d : CacheDisk) : nat := Z.to_nat (num_diskpart_blks (header d)).

(** Byte extents that share no byte. *)
Definition apart (a b : DiskPartBlock) : Prop :=
  dpb_offset a + dpb_len a * STORE_BLOCK_SIZE <= dpb_offset b \/
  dpb_offset b + dpb_len b * STORE_BLOCK_SIZE <= dpb_offset a.

(** The blocks of the header: in the usable area, apart, at least 128 MB each. *)
Record blocks_ok (st usable : Z) (info : list DiskPartBlock) (n : nat) : Prop := {
  bo_room : (n <= length info)%nat;
  bo_len : forall i, (i < n)%nat -> blocks_per_part <= dpb_len (info !!! i) < 2 ^ 26;
  bo_in : forall i, (i < n)%nat -> st <= dpb_offset (info !!! i) /\
    dpb_offset (info !!! i) + dpb_len (info !!! i) * STORE_BLOCK_SIZE <= st + usable * STORE_BLOCK_SIZE;
  bo_apart : forall i j, (i < n)%nat -> (j < n)%nat -> i <> j -> apart (info !!! i) (info !!! j);
  bo_total : lensum info (seq 0 n) <= usable
}.

(** A queue and its counters. *)
Definition part_ok (info : list DiskPartBlock) (dp : DiskPart) : Prop :=
  dp_size dp = lensum info (qblocks dp) /\ num_partblocks dp = Z.of_nat (length (dpb_queue dp)) /\
  dpb_queue dp <> [] /\ 0 <= part_number dp < 2 ^ 16 /\
  forall i, i ∈ qblocks dp -> dpb_free (info !!! i) = false /\ dpb_number (info !!! i) = part_number dp.

Record disk_inv (d : CacheDisk) : Prop := {
  di_blocks : blocks_ok (start d) (num_usable_blocks d) (part_info (header d)) (nblks d);
  di_capacity : num_usable_blocks d < (Z.of_nat (length (part_info (header d))) + 1) * blocks_per_part;
  di_usable : num_usable_blocks d < 2 ^ 26;
  di_owned : qblocks (free_blocks d) ++ concat (qblocks <$> disk_parts d) ≡ₚ seq 0 (nblks d);
  di_free : forall i, i ∈ qblocks (free_blocks d) -> dpb_free (part_info (header d) !!! i) = true;
  di_parts : forall dp, dp ∈ disk_parts d -> part_ok (part_info (header d)) dp;
  di_numbers : NoDup (part_number <$> disk_parts d);
  di_fsize : free_space d = lensum (part_info (header d)) (qblocks (free_blocks d)) /\
    dp_size (free_blocks d) = free_space d;
  di_counts : num_partitions (header d) = Z.of_nat (length (disk_parts d)) /\
    num_free (header d) = Z.of_nat (length (dpb_queue (free_blocks d))) /\
    num_used (header d) = Z.of_nat (nblks d) - num_free (header d) /\
    num_diskpart_blks (header d) = Z.of_nat (nblks d)
}.

(** ** Sums of lengths *)

Lemma lensum_app info l1 l2 : lensum info (l1 ++ l2) = lensum info l1 + lensum info l2.
Proof. induction l1 as [|i l1 IH]; simpl; lia. Qed.

Lemma lensum_perm info l1 l2 : l1 ≡ₚ l2 -> lensum info l1 = lensum info l2.
Proof. induction 1; simpl; lia. Qed.

Lemma lensum_ext info info' l : (forall i, i ∈ l -> dpb_len (info' !!! i) = dpb_len (info !!! i)) ->
  lensum info' l = lensum info l.
Proof. induction l as [|i l IH]; intros H; simpl; [done|]. rewrite H by left. rewrite IH; [done|]. intros j Hj. apply H. by right. Qed.

Lemma lensum_insert_ne info i b l : i ∉ l -> lensum (<[i := b]> info) l = lensum info l.
Proof.
  intros Hi. apply lensum_ext. intros j Hj. rewrite list_lookup_total_insert_ne; [done|]. by intros ->.
Qed.

Lemma nodup_pull (l : list nat) i : i ∈ l -> NoDup l ->
  exists l', l ≡ₚ i :: l' /\ i ∉ l'.
Proof.
  intros Hi Hn. apply list_elem_of_split in Hi as (l1 & l2 & ->). exists (l1 ++ l2).
  split; [by rewrite Permutation_middle|]. rewrite <- Permutation_middle in Hn. by apply NoDup_cons in Hn as [? _].
Qed.

Lemma lensum_insert info i b l : i ∈ l -> NoDup l -> (i < length info)%nat ->
  lensum (<[i := b]> info) l = lensum info l - dpb_len (info !!! i) + dpb_len b.
Proof.
  intros Hi Hn Hlt. destruct (nodup_pull l i Hi Hn) as (l' & Hp & Hni).
  rewrite !(lensum_perm _ _ _ Hp). cbn [lensum foldr]. fold (lensum (<[i:=b]> info) l') (lensum info l').
  rewrite list_lookup_total_insert_eq by done. rewrite lensum_insert_ne by done. lia.
Qed.

Lemma lensum_lower info n k : (forall i, (i < n)%nat -> k <= dpb_len (info !!! i)) ->
  Z.of_nat n * k <= lensum info (seq 0 n).
Proof.
  induction n as [|n IH]; intros H; [simpl; lia|]. rewrite seq_S, lensum_app. simpl.
  specialize (H n ltac:(lia)) as H1. specialize (IH ltac:(intros; apply H; lia)). lia.
Qed.

Lemma lensum_nonneg info l : (forall i, i ∈ l -> 0 <= dpb_len (info !!! i)) -> 0 <= lensum info l.
Proof.
  induction l as [|i l IH]; intros H; simpl; [lia|]. pose proof (H i ltac:(left)).
  assert (0 <= lensum info l) by (apply IH; intros j Hj; apply H; by right). lia.
Qed.

(** ** The loops *)

Lemma fit_spec info size qs c q found : fit info size qs c = (q, found) ->
  q ∈ c :: qs /\
  (if found then q ∈ qs /\ u32 size <= q_len info q
   else (forall x, x ∈ qs -> q_len info x < u32 size) /\ (forall x, x ∈ c :: qs -> q_len info x <= q_len info q)).
Proof.
  revert c. induction qs as [|x qs IH]; intros c E; simpl in E.
  - simplify_eq. split; [left|]. split; [intros y Hy; by apply elem_of_nil in Hy|].
    intros y Hy. apply list_elem_of_singleton in Hy as ->. lia.
  - destruct (Z.geb_spec (q_len info x) (u32 size)) as [Hg|Hl].
    + simplify_eq. split; [right; left|]. split; [left|lia].
    + apply IH in E as [Hin E]. split.
      { apply elem_of_cons in Hin as [->|Hin]; [destruct (_ <? _); [right; left|left]|by do 2 right]. }
      destruct found.
      * destruct E. split; [by right|done].
      * destruct E as [E1 E2]. split.
        { intros y [->|Hy]%elem_of_cons; [lia|by apply E1]. }
        assert (Hc : q_len info c <= q_len info q /\ q_len info x <= q_len info q).
        { specialize (E2 _ ltac:(left)). destruct (Z.ltb_spec (q_len info c) (q_len info x)); lia. }
        intros y [->|[->|Hy]%elem_of_cons]%elem_of_cons; [lia|lia|]. apply E2. by right.
Qed.

Lemma q_remove_perm q qs : q ∈ qs -> NoDup (q_b <$> qs) -> q_b <$> qs ≡ₚ q_b q :: (q_b <$> q_remove q qs).
Proof.
  intros Hq Hn. apply list_elem_of_split in Hq as (l1 & l2 & ->). unfold q_remove.
  rewrite fmap_app in Hn. simpl in Hn. rewrite filter_app, filter_cons_False by (intros H; by apply H).
  rewrite !fmap_app. simpl. rewrite <- Permutation_middle. f_equiv.
  assert (Hk : forall l : list DiskPartBlockQueue, q_b q ∉ (q_b <$> l) -> filter (fun x => q_b x <> q_b q) l = l).
  { induction l as [|x l IH]; [done|]. cbn [fmap list_fmap]. intros [H1 H2]%not_elem_of_cons.
    rewrite filter_cons_True by congruence. by rewrite IH. }
  apply NoDup_app in Hn as (_ & Hd & Hn). apply NoDup_cons in Hn as [Hn _].
  rewrite !Hk; [done|done|]. intros Hx. apply (Hd _ Hx). left.
Qed.

(** Adding a block to its partition. *)
Lemma add_to_part_spec number q len dps : NoDup (part_number <$> dps) ->
  let r := (add_to_part number q len dps).1 in
  (exists l1 dp l2, dps = l1 ++ dp :: l2 /\ part_number dp = number /\
     (add_to_part number q len dps).2 = false /\
     r = l1 ++ mkDP (num_partblocks dp + 1) number (dp_size dp + len) (dpb_queue dp ++ [q]) :: l2) \/
  (number ∉ (part_number <$> dps) /\ (add_to_part number q len dps).2 = true /\
     r = dps ++ [mkDP 1 number len [q]]).
Proof.
  induction dps as [|dp dps IH]; intros Hn; cbv zeta; cbn [add_to_part].
  - right. split; [apply not_elem_of_nil|done].
  - cbn [fmap list_fmap] in Hn. apply NoDup_cons in Hn as [Hni Hn]. destruct (Z.eqb_spec (part_number dp) number) as [E|E].
    + left. exists [], dp, dps. subst number. done.
    + cbv zeta in IH. destruct (add_to_part number q len dps) as [r new]. cbn [fst snd] in *.
      destruct (IH Hn) as [(l1 & dp' & l2 & -> & E1 & E2 & ->)|(H1 & H2 & ->)].
      * left. exists (dp :: l1), dp', l2. done.
      * right. split; [|done]. apply not_elem_of_cons. split; [congruence|done].
Qed.

Lemma take_part_Some number dps dp rest : take_part number dps = Some (dp, rest) ->
  exists l1 l2, dps = l1 ++ dp :: l2 /\ rest = l1 ++ l2 /\ part_number dp = number.
Proof.
  revert rest. induction dps as [|x dps IH]; intros rest E; simpl in E; [done|].
  destruct (Z.eqb_spec (part_number x) number).
  - simplify_eq. by exists [], rest.
  - destruct (take_part number dps) as [[y r]|]; simplify_eq.
    destruct (IH r eq_refl) as (l1 & l2 & -> & -> & ?). by exists (x :: l1), l2.
Qed.

Lemma take_part_None number dps : take_part number dps = None <-> number ∉ (part_number <$> dps).
Proof.
  induction dps as [|x dps IH]; simpl; [split; [intros _; apply not_elem_of_nil|done]|].
  rewrite not_elem_of_cons. destruct (Z.eqb_spec (part_number x) number).
  - split; [done|]. intros [? _]. congruence.
  - destruct (take_part number dps) as [[y r]|]; rewrite <- IH; intuition congruence.
Qed.

Lemma release_spec qs info fs nf nu :
  NoDup (q_b <$> qs) -> (forall i, i ∈ (q_b <$> qs) -> (i < length info)%nat) ->
  exists info', release qs info fs nf nu =
      (info', fs + lensum info (q_b <$> qs), nf + Z.of_nat (length qs), nu - Z.of_nat (length qs)) /\
    length info' = length info /\
    forall i, info' !!! i =
      if decide (i ∈ (q_b <$> qs))
      then mkDPB (dpb_offset (info !!! i)) (dpb_number (info !!! i)) (dpb_len (info !!! i)) CACHE_NONE_TYPE true
      else info !!! i.
Proof.
  revert info fs nf nu. induction qs as [|q qs IH]; intros info fs nf nu Hn Hlt; cbn [release].
  - exists info. split; [f_equal; [f_equal; [f_equal|]|]; simpl; lia|]. split; [done|]. intros i. done.
  - cbn [fmap list_fmap] in *. apply NoDup_cons in Hn as [Hni Hn].
    destruct (IH (<[q_b q := mkDPB (dpb_offset (info !!! q_b q)) (dpb_number (info !!! q_b q)) (dpb_len (info !!! q_b q))
      CACHE_NONE_TYPE true]> info) (fs + dpb_len (info !!! q_b q)) (nf + 1) (nu - 1) Hn) as (info' & E & Hl & Hi).
    { intros i Hi. rewrite length_insert. apply Hlt. by right. }
    exists info'. split_and!.
    + rewrite E. cbn [length]. rewrite lensum_insert_ne by done.
      cbn [lensum foldr]. fold (lensum info (q_b <$> qs)). f_equal; [f_equal; [f_equal; lia|lia]|lia].
    + by rewrite Hl, length_insert.
    + intros i. rewrite Hi. destruct (decide (i = q_b q)) as [->|Hne].
      * rewrite (decide_False (P := q_b q ∈ _)) by done. rewrite decide_True by left.
        apply list_lookup_total_insert_eq. apply Hlt. left.
      * rewrite list_lookup_total_insert_ne by done. destruct (decide (i ∈ (q_b <$> qs))) as [Hin|Hin].
        -- by rewrite decide_True by (by right).
        -- rewrite decide_False; [done|]. intros [?|?]%elem_of_cons; done.
Qed.

(** ** Blocks *)

Lemma blocks_ok_ext st us info info' n : blocks_ok st us info n -> length info' = length info ->
  (forall i, (i < n)%nat -> dpb_offset (info' !!! i) = dpb_offset (info !!! i) /\ dpb_len (info' !!! i) = dpb_len (info !!! i)) ->
  blocks_ok st us info' n.
Proof.
  intros [H1 H2 H3 H4 H5] Hl He. constructor.
  - lia.
  - intros i Hi. destruct (He i Hi) as [_ ->]. by apply H2.
  - intros i Hi. destruct (He i Hi) as [-> ->]. by apply H3.
  - intros i j Hi Hj Hne. unfold apart. destruct (He i Hi) as [-> ->], (He j Hj) as [-> ->]. by apply H4.
  - rewrite (lensum_ext info); [done|]. intros i Hi. apply elem_of_seq in Hi. apply He. lia.
Qed.

Section inv.
Variable d : CacheDisk.
Hypothesis I : disk_inv d.
Notation info := (part_info (header d)).

Lemma owned_nodup : NoDup (qblocks (free_blocks d) ++ concat (qblocks <$> disk_parts d)).
Proof. rewrite (di_owned _ I). apply NoDup_seq. Qed.

Lemma free_lt i : i ∈ qblocks (free_blocks d) -> (i < nblks d)%nat.
Proof.
  intros Hi. assert (H : i ∈ seq 0 (nblks d)) by (rewrite <- (di_owned _ I); apply elem_of_app; by left).
  apply elem_of_seq in H. lia.
Qed.

Lemma part_elem dp i : dp ∈ disk_parts d -> i ∈ qblocks dp -> i ∈ concat (qblocks <$> disk_parts d).
Proof.
  intros Hd Hi. apply elem_of_concat_lookup. apply list_elem_of_lookup in Hd as [k Hk].
  exists k, (qblocks dp). split; [|done]. by rewrite list_lookup_fmap, Hk.
Qed.

Lemma part_lt dp i : dp ∈ disk_parts d -> i ∈ qblocks dp -> (i < nblks d)%nat.
Proof.
  intros Hd Hi. assert (H : i ∈ seq 0 (nblks d)).
  { rewrite <- (di_owned _ I). apply elem_of_app. right. by eapply part_elem. }
  apply elem_of_seq in H. lia.
Qed.

Lemma part_not_free dp i : dp ∈ disk_parts d -> i ∈ qblocks dp -> i ∉ qblocks (free_blocks d).
Proof.
  intros Hd Hi Hf. pose proof owned_nodup as Hn. apply NoDup_app in Hn as (_ & Hn & _).
  apply (Hn i Hf). by eapply part_elem.
Qed.

Lemma nblks_le : (nblks d <= length info)%nat.
Proof. apply (bo_room _ _ _ _ (di_blocks _ I)). Qed.
End inv.

Lemma wrapu32_id x : 0 <= x < 2 ^ 32 -> u32 x = x.
Proof. apply wrapu_id. Qed.

(** The number of blocks is far from the limits of the counters. *)
Lemma nblks_small d : disk_inv d -> Z.of_nat (nblks d) < 2 ^ 26.
Proof.
  intros I. destruct (di_blocks _ I) as [_ H2 _ _ H5]. pose proof (di_usable _ I).
  pose proof (lensum_lower _ (nblks d) blocks_per_part (fun i Hi => proj1 (H2 i Hi))). unfold blocks_per_part in *. lia.
Qed.

Lemma concat_longer (l : list (list nat)) : (forall x, x ∈ l -> x <> []) -> (length l <= length (concat l))%nat.
Proof.
  induction l as [|x l IH]; intros H; cbn [length concat]; [lia|]. rewrite length_app.
  assert (Hx : length x <> 0%nat) by (specialize (H x ltac:(left)); by destruct x).
  assert (Hl : (length l <= length (concat l))%nat) by (apply IH; intros y Hy; apply H; by right). lia.
Qed.

Lemma parts_short d : disk_inv d -> (length (disk_parts d) <= nblks d)%nat.
Proof.
  intros I. rewrite <- (length_seq (nblks d) 0), <- (di_owned _ I), length_app.
  assert (H : (length (qblocks <$> disk_parts d) <= length (concat (qblocks <$> disk_parts d)))%nat).
  { apply concat_longer. intros x (dp & -> & Hdp)%list_elem_of_fmap.
    destruct (di_parts _ I dp Hdp) as (_ & _ & Hne & _). unfold qblocks. by destruct (dpb_queue dp). }
  rewrite length_fmap in H. lia.
Qed.

Lemma counts_range d : disk_inv d ->
  0 <= num_partitions (header d) < 2 ^ 26 /\ 0 <= num_free (header d) < 2 ^ 26 /\
  0 <= num_used (header d) < 2 ^ 26 /\ 0 <= num_diskpart_blks (header d) < 2 ^ 26.
Proof.
  intros I. destruct (di_counts _ I) as (H1 & H2 & H3 & H4). pose proof (nblks_small d I). pose proof (parts_short d I).
  assert (Hf : (length (dpb_queue (free_blocks d)) <= nblks d)%nat).
  { rewrite <- (length_seq (nblks d) 0), <- (di_owned _ I), length_app. unfold qblocks at 1. rewrite length_fmap. lia. }
  lia.
Qed.

(** ** Deletion *)

Lemma delete_partition_spec d number dp rest : disk_inv d -> take_part number (disk_parts d) = Some (dp, rest) ->
  let r := delete_partition number d in
  r.2 = 0 /\ disk_inv r.1 /\ free_space r.1 = free_space d + dp_size dp /\ disk_parts r.1 = rest.
Proof.
  intros I E. destruct (take_part_Some _ _ _ _ E) as (l1 & l2 & Hdps & -> & Hnum).
  assert (Hin : dp ∈ disk_parts d) by (rewrite Hdps; set_solver).
  destruct (di_parts _ I dp Hin) as (Hsz & Hcnt & Hne & _ & Hown).
  pose proof (owned_nodup d I) as Hnd.
  assert (Hsplit : qblocks (free_blocks d) ++ concat (qblocks <$> disk_parts d) ≡ₚ
    qblocks dp ++ qblocks (free_blocks d) ++ concat (qblocks <$> (l1 ++ l2))).
  { rewrite Hdps, !fmap_app, fmap_cons, !concat_app. cbn [concat]. solve_Permutation. }
  rewrite Hsplit in Hnd. apply NoDup_app in Hnd as (Hnq & Hdisj & Hnrest).
  unfold delete_partition. rewrite E.
  destruct (release_spec (dpb_queue dp) (part_info (header d)) (free_space d) (num_free (header d)) (num_used (header d)) Hnq)
    as (info' & -> & Hlen & Hinfo).
  { intros i Hi. pose proof (nblks_le d I). pose proof (part_lt d I dp i Hin Hi). lia. }
  cbv zeta. cbn [fst snd]. fold (qblocks dp) in *.
  assert (Hkeep : forall i, i ∈ qblocks (free_blocks d) ++ concat (qblocks <$> (l1 ++ l2)) ->
    info' !!! i = part_info (header d) !!! i).
  { intros i Hi. rewrite Hinfo, decide_False; [done|]. intros Hi'. by apply (Hdisj i). }
  assert (Hsame : forall i, dpb_offset (info' !!! i) = dpb_offset (part_info (header d) !!! i) /\
    dpb_len (info' !!! i) = dpb_len (part_info (header d) !!! i)).
  { intros i. rewrite Hinfo. by destruct (decide (i ∈ qblocks dp)). }
  split; [done|]. split; [|split; [|done]]; [|cbn [free_space set_alloc]; by rewrite Hsz].
  pose proof (counts_range d I) as (R1 & R2 & R3 & R4). destruct (di_counts _ I) as (C1 & C2 & C3 & C4).
  assert (Hfl : (length (dpb_queue dp) + length (dpb_queue (free_blocks d)) <= nblks d)%nat).
  { rewrite <- (length_seq (nblks d) 0), <- (di_owned _ I), Hsplit, !length_app. unfold qblocks at 1 2.
    rewrite !length_fmap. lia. }
  pose proof (nblks_small d I) as Hsmall.
  assert (HL : length (disk_parts d) = S (length (l1 ++ l2))) by (rewrite Hdps, !length_app; simpl; lia).
  assert (Hu : u32 (num_diskpart_blks (header d)) = num_diskpart_blks (header d)) by (apply wrapu32_id; lia).
  constructor; unfold nblks; cbn [header set_alloc set_counts set_info part_info start num_usable_blocks
    free_blocks disk_parts free_space num_partitions num_free num_used num_diskpart_blks dp_size dpb_queue]; rewrite ?Hu;
    fold (nblks d).
  - apply (blocks_ok_ext _ _ (part_info (header d))); [apply (di_blocks _ I)|done|auto].
  - rewrite Hlen. apply (di_capacity _ I).
  - apply (di_usable _ I).
  - rewrite <- (di_owned _ I), Hsplit. unfold qblocks at 1. cbn [dpb_queue]. rewrite fmap_app.
    fold (qblocks (free_blocks d)) (qblocks dp). solve_Permutation.
  - intros i. unfold qblocks at 1. cbn [dpb_queue]. rewrite fmap_app. fold (qblocks (free_blocks d)) (qblocks dp).
    intros [Hi|Hi]%elem_of_app.
    + rewrite Hkeep by (apply elem_of_app; by left). by apply (di_free _ I).
    + rewrite Hinfo. by rewrite decide_True.
  - intros dp' Hdp'. assert (Hin' : dp' ∈ disk_parts d) by (rewrite Hdps; set_solver).
    destruct (di_parts _ I dp' Hin') as (P1 & P2 & P3 & P4 & P5).
    assert (Hk : forall i, i ∈ qblocks dp' -> info' !!! i = part_info (header d) !!! i).
    { intros i Hi. apply Hkeep. apply elem_of_app. right. apply elem_of_concat_lookup.
      apply list_elem_of_lookup in Hdp' as [k Hk]. exists k, (qblocks dp'). by rewrite list_lookup_fmap, Hk. }
    split; [rewrite P1; symmetry; apply lensum_ext; intros i Hi; by rewrite Hk|].
    split; [done|split; [done|split; [done|]]]. intros i Hi. rewrite Hk by done. by apply P5.
  - pose proof (di_numbers _ I) as Hnn. rewrite Hdps, fmap_app, fmap_cons in Hnn. rewrite fmap_app.
    rewrite <- Permutation_middle in Hnn. by apply NoDup_cons in Hnn as [_ ?].
  - destruct (di_fsize _ I) as [F1 F2]. rewrite F2, Hsz. split; [|done]. unfold qblocks at 2. cbn [dpb_queue].
    rewrite fmap_app, lensum_app. fold (qblocks (free_blocks d)) (qblocks dp). rewrite F1.
    f_equal; symmetry; apply lensum_ext; intros i Hi; apply Hsame.
  - rewrite !wrapu32_id by lia. rewrite !length_app in *. lia.
Qed.

(** ** Adding a block *)

Lemma add_to_part_ok info number q dps :
  (forall dp, dp ∈ dps -> part_ok info dp) -> NoDup (part_number <$> dps) -> 0 <= number < 2 ^ 16 ->
  dpb_free (info !!! q_b q) = false -> dpb_number (info !!! q_b q) = number ->
  let r := add_to_part number q (dpb_len (info !!! q_b q)) dps in
  (forall dp, dp ∈ r.1 -> part_ok info dp) /\ NoDup (part_number <$> r.1) /\
  concat (qblocks <$> r.1) ≡ₚ q_b q :: concat (qblocks <$> dps) /\
  length r.1 = (length dps + if r.2 then 1 else 0)%nat.
Proof.
  intros Hok Hn Hnum Hf Hb. cbv zeta.
  destruct (add_to_part_spec number q (dpb_len (info !!! q_b q)) dps Hn)
    as [(l1 & dp & l2 & -> & E1 & -> & ->)|(Hni & -> & ->)].
  - destruct (Hok dp ltac:(set_solver)) as (P1 & P2 & P3 & P4 & P5). split_and!.
    + intros dp' Hdp'. rewrite elem_of_app, elem_of_cons in Hdp'.
      destruct Hdp' as [Hdp'|[->|Hdp']]; [apply Hok; set_solver| |apply Hok; set_solver].
      unfold part_ok, qblocks. cbn [dp_size num_partblocks part_number dpb_queue]. rewrite fmap_app, lensum_app, length_app.
      fold (qblocks dp). split; [simpl; lia|]. split; [simpl; lia|]. split; [by destruct (dpb_queue dp)|]. split; [done|].
      intros i [Hi|Hi]%elem_of_app; [rewrite <- E1; by apply P5|]. cbn in Hi. apply list_elem_of_singleton in Hi as ->. done.
    + by rewrite !fmap_app, !fmap_cons, E1 in *.
    + rewrite !fmap_app, !fmap_cons, !concat_app. cbn [concat]. unfold qblocks at 2. cbn [dpb_queue].
      rewrite fmap_app. cbn [fmap list_fmap]. fold (qblocks dp). solve_Permutation.
    + rewrite !length_app. simpl. lia.
  - split_and!.
    + intros dp [Hdp|Hdp]%elem_of_app; [by apply Hok|]. apply list_elem_of_singleton in Hdp as ->.
      unfold part_ok, qblocks. cbn [dp_size num_partblocks part_number dpb_queue fmap list_fmap lensum foldr length].
      split; [lia|]. split; [done|]. split; [done|]. split; [done|]. intros i Hi. apply list_elem_of_singleton in Hi as ->. done.
    + rewrite fmap_app. apply NoDup_app. split; [done|]. split; [|apply NoDup_singleton].
      intros x Hx Hx'. apply list_elem_of_singleton in Hx' as ->. by apply Hni.
    + rewrite fmap_app, concat_app. cbn [fmap list_fmap concat]. unfold qblocks at 2. cbn [dpb_queue fmap list_fmap].
      solve_Permutation.
    + rewrite length_app. simpl. lia.
Qed.

Lemma part_ok_keep info info' dp : part_ok info dp ->
  (forall i, i ∈ qblocks dp -> info' !!! i = info !!! i) -> part_ok info' dp.
Proof.
  intros (P1 & P2 & P3 & P4 & P5) H. split; [rewrite P1; symmetry; apply lensum_ext; intros i Hi; by rewrite H|].
  split; [done|split; [done|split; [done|]]]. intros i Hi. rewrite H by done. by apply P5.
Qed.

Lemma blocks_shrink st us info n i b : blocks_ok st us info n -> (i < n)%nat ->
  dpb_offset b = dpb_offset (info !!! i) -> blocks_per_part <= dpb_len b <= dpb_len (info !!! i) ->
  blocks_ok st us (<[i := b]> info) n /\
  lensum (<[i := b]> info) (seq 0 n) = lensum info (seq 0 n) - dpb_len (info !!! i) + dpb_len b.
Proof.
  intros [H1 H2 H3 H4 H5] Hi Ho Hl.
  assert (Hin : i ∈ seq 0 n) by (apply elem_of_seq; lia).
  assert (Hs : lensum (<[i := b]> info) (seq 0 n) = lensum info (seq 0 n) - dpb_len (info !!! i) + dpb_len b)
    by (apply lensum_insert; [done|apply NoDup_seq|lia]).
  split; [|done].
  assert (G : forall j, (j < n)%nat -> dpb_offset (<[i := b]> info !!! j) = dpb_offset (info !!! j) /\
    blocks_per_part <= dpb_len (<[i := b]> info !!! j) <= dpb_len (info !!! j)).
  { intros j Hj. destruct (decide (j = i)) as [->|Hne].
    - rewrite list_lookup_total_insert_eq by lia. done.
    - rewrite list_lookup_total_insert_ne by done. pose proof (H2 j Hj). lia. }
  unfold STORE_BLOCK_SIZE in *. constructor.
  - by rewrite length_insert.
  - intros j Hj. destruct (G j Hj) as [_ G2]. pose proof (H2 j Hj). lia.
  - intros j Hj. destruct (G j Hj) as [-> G2]. pose proof (H3 j Hj). unfold STORE_BLOCK_SIZE in *. lia.
  - intros j k Hj Hk Hne. destruct (G j Hj) as [G1 G2], (G k Hk) as [G3 G4]. pose proof (H4 j k Hj Hk Hne) as A.
    unfold apart, STORE_BLOCK_SIZE in *. rewrite G1, G3. lia.
  - lia.
Qed.

Lemma blocks_append st us info n b : blocks_ok st us info n -> (n < length info)%nat ->
  blocks_per_part <= dpb_len b < 2 ^ 26 -> st <= dpb_offset b ->
  dpb_offset b + dpb_len b * STORE_BLOCK_SIZE <= st + us * STORE_BLOCK_SIZE ->
  (forall i, (i < n)%nat -> apart (info !!! i) b) -> lensum info (seq 0 n) + dpb_len b <= us ->
  blocks_ok st us (<[n := b]> info) (S n).
Proof.
  intros [H1 H2 H3 H4 H5] Hn Hl Ho1 Ho2 Ha Ht.
  assert (G : forall j, (j < S n)%nat -> (j = n /\ <[n := b]> info !!! j = b) \/
    ((j < n)%nat /\ <[n := b]> info !!! j = info !!! j)).
  { intros j Hj. destruct (decide (j = n)) as [->|Hne]; [left; by rewrite list_lookup_total_insert_eq|right].
    rewrite list_lookup_total_insert_ne by done. split; [lia|done]. }
  constructor.
  - rewrite length_insert. lia.
  - intros j Hj. destruct (G j Hj) as [[-> ->]|[Hj' ->]]; [done|by apply H2].
  - intros j Hj. destruct (G j Hj) as [[-> ->]|[Hj' ->]]; [done|by apply H3].
  - intros j k Hj Hk Hne. destruct (G j Hj) as [[-> ->]|[Hj' ->]], (G k Hk) as [[-> ->]|[Hk' ->]]; [done| | |by apply H4].
    + specialize (Ha k Hk'). unfold apart in *. lia.
    + by apply Ha.
  - rewrite seq_S, lensum_app, lensum_insert_ne by (rewrite elem_of_seq; lia). cbn [lensum foldr Nat.add].
    rewrite list_lookup_total_insert_eq by done. lia.
Qed.

(** The header has room for one more block when one of the blocks is long
    enough to be cut in two. *)
Lemma split_room d i : disk_inv d -> (i < nblks d)%nat ->
  2 * blocks_per_part <= dpb_len (part_info (header d) !!! i) -> (nblks d < length (part_info (header d)))%nat.
Proof.
  intros I Hi Hl. pose (b := mkDPB (dpb_offset (part_info (header d) !!! i)) 0 blocks_per_part 0 false).
  destruct (blocks_shrink _ _ _ _ i b (di_blocks _ I) Hi) as [B S]; [done|simpl; unfold blocks_per_part in *; lia|].
  pose proof (lensum_lower _ (nblks d) blocks_per_part (fun j Hj => proj1 (bo_len _ _ _ _ B j Hj))).
  pose proof (bo_total _ _ _ _ (di_blocks _ I)). pose proof (di_capacity _ I). simpl in S.
  unfold blocks_per_part in *. nia.
Qed.

(** ** Creation *)

(** What a partition holds on the disk, by its number. *)
Definition part_size (number : Z) (dps : list DiskPart) : Z :=
  match take_part number dps with Some (dp, _) => dp_size dp | None => 0 end.

Lemma add_to_part_size number q len dps m :
  part_size m (add_to_part number q len dps).1 = part_size m dps + if m =? number then len else 0.
Proof.
  unfold part_size. induction dps as [|dp dps IH]; cbn [add_to_part fst take_part part_number].
  - rewrite Z.eqb_sym. destruct (m =? number); reflexivity.
  - destruct (Z.eqb_spec (part_number dp) number) as [E|E]; cbn [fst take_part part_number].
    + destruct (Z.eqb_spec number m) as [<-|E2]; [rewrite E, !Z.eqb_refl; reflexivity|].
      rewrite (proj2 (Z.eqb_neq (part_number dp) m)) by congruence.
      rewrite (proj2 (Z.eqb_neq m number)) by congruence. destruct (take_part m dps) as [[? ?]|]; lia.
    + destruct (add_to_part number q len dps) as [r new]. cbn [fst take_part part_number] in *.
      destruct (Z.eqb_spec (part_number dp) m) as [E2|E2].
      * rewrite (proj2 (Z.eqb_neq m number)) by congruence. lia.
      * destruct (take_part m r) as [[? ?]|], (take_part m dps) as [[? ?]|]; exact IH.
Qed.

(** The block chosen, what it is cut to, and the rest of it, if kept. *)
Record chosen (d : CacheDisk) (size : Z) (i : nat) (s : Z) : Prop := {
  ch_free : i ∈ qblocks (free_blocks d);
  ch_range : blocks_per_part <= s <= dpb_len (part_info (header d) !!! i);
  ch_fit : (exists j, j ∈ qblocks (free_blocks d) /\ size <= dpb_len (part_info (header d) !!! j)) -> s = size;
  ch_closest : (forall j, j ∈ qblocks (free_blocks d) -> dpb_len (part_info (header d) !!! j) < size) ->
    (forall j, j ∈ qblocks (free_blocks d) -> dpb_len (part_info (header d) !!! j) <= dpb_len (part_info (header d) !!! i)) /\
    s = dpb_len (part_info (header d) !!! i) - dpb_len (part_info (header d) !!! i) mod blocks_per_part
}.

Definition cut (number scheme : Z) (p : DiskPartBlock) (s : Z) : DiskPartBlock :=
  mkDPB (dpb_offset p) number s (wrapu 3 scheme) false.

Definition rest_of (p : DiskPartBlock) (s : Z) : DiskPartBlock :=
  mkDPB (dpb_offset p + s * STORE_BLOCK_SIZE) (dpb_number p) (dpb_len p - s) (dpb_type p) (dpb_free p).

(** The header and queues after the choice. *)
Definition created (number scheme : Z) (d : CacheDisk) (q : DiskPartBlockQueue) (s : Z) (d' : CacheDisk) : Prop :=
  let p := part_info (header d) !!! q_b q in
  let n := nblks d in
  let fq := q_remove q (dpb_queue (free_blocks d)) in
  let r := add_to_part number (mkQ (q_b q) true) s (disk_parts d) in
  disk_parts d' = r.1 /\ num_partitions (header d') = num_partitions (header d) + (if r.2 then 1 else 0) /\
  num_used (header d') = num_used (header d) + 1 /\ start d' = start d /\ num_usable_blocks d' = num_usable_blocks d /\
  if blocks_per_part <=? dpb_len p - s then
    part_info (header d') = <[n := rest_of p s]> (<[q_b q := cut number scheme p s]> (part_info (header d))) /\
    num_diskpart_blks (header d') = num_diskpart_blks (header d) + 1 /\ num_free (header d') = num_free (header d) /\
    dpb_queue (free_blocks d') = fq ++ [mkQ n false] /\ free_space d' = free_space d - s /\
    dp_size (free_blocks d') = dp_size (free_blocks d) - s
  else
    part_info (header d') = <[q_b q := cut number scheme p s]> (part_info (header d)) /\
    num_diskpart_blks (header d') = num_diskpart_blks (header d) /\ num_free (header d') = num_free (header d) - 1 /\
    dpb_queue (free_blocks d') = fq /\ free_space d' = free_space d - dpb_len p /\
    dp_size (free_blocks d') = dp_size (free_blocks d) - dpb_len p.

Lemma create_created d number size scheme : disk_inv d -> 0 <= number < 2 ^ 16 -> blocks_per_part <= size < 2 ^ 32 ->
  dpb_queue (free_blocks d) <> [] ->
  exists d' q s, create_partition number size scheme d = (d', Some (q_b q)) /\ q ∈ dpb_queue (free_blocks d) /\
    chosen d size (q_b q) s /\ created number scheme d q s d'.
Proof.
  intros I Hnum Hsize Hq. unfold create_partition. rewrite (proj2 (Z.eqb_neq size 0)) by (unfold blocks_per_part in *; lia).
  destruct (dpb_queue (free_blocks d)) as [|q0 qs] eqn:Eq; [done|]. clear Hq.
  change (Z.shiftr MAX_PART_SIZE STORE_BLOCK_SHIFT) with (2 ^ 36). rewrite (proj2 (Z.leb_le size (2 ^ 36))) by lia.
  destruct (fit (part_info (header d)) size (q0 :: qs) q0) as [q found] eqn:Ef. apply fit_spec in Ef as [Hin Hfit].
  rewrite (wrapu32_id size) in Hfit by (unfold blocks_per_part in *; lia).
  assert (Hqin : q ∈ q0 :: qs) by (apply elem_of_cons in Hin as [->|?]; [left|done]).
  assert (Hqf : q_b q ∈ qblocks (free_blocks d)) by (unfold qblocks; rewrite Eq; by apply list_elem_of_fmap_2).
  pose proof (free_lt d I _ Hqf) as Hlt. pose proof (bo_len _ _ _ _ (di_blocks _ I) _ Hlt) as HL.
  set (p := part_info (header d) !!! q_b q) in *. set (s := if found then size else dpb_len p - dpb_len p mod blocks_per_part).
  assert (Hs : blocks_per_part <= s <= dpb_len p).
  { unfold s. destruct found; [destruct Hfit as [_ Hf]; unfold q_len in Hf; fold p in Hf; lia|].
    pose proof (Z.mod_pos_bound (dpb_len p) blocks_per_part ltac:(reflexivity)) as Hm.
    assert (1 <= dpb_len p / blocks_per_part) by (apply Z.div_le_lower_bound; unfold blocks_per_part in *; lia).
    pose proof (Z.div_mod (dpb_len p) blocks_per_part ltac:(discriminate)). unfold blocks_per_part in *. lia. }
  assert (Hw : wrapu 26 s = s) by (apply wrapu_id; unfold blocks_per_part in *; lia).
  assert (Hw' : wrapu 26 (dpb_len p - s) = dpb_len p - s) by (apply wrapu_id; unfold blocks_per_part in *; lia).
  assert (Hi : i32 (dpb_len p - s) = dpb_len p - s) by (apply wraps_id; [lia|unfold blocks_per_part in *; lia]).
  assert (Hn : u16 number = number) by (by apply wrapu_id).
  pose proof (counts_range d I) as (R1 & R2 & R3 & R4).
  assert (Hfq : (0 < length (dpb_queue (free_blocks d)))%nat) by (rewrite Eq; simpl; lia).
  destruct (di_counts _ I) as (C1 & C2 & C3 & C4).
  assert (Hch : chosen d size (q_b q) s).
  { constructor; [done|done| |].
    - intros (j & Hj & Hjl). unfold s. destruct found; [done|]. exfalso. destruct Hfit as [Hf _].
      unfold qblocks in Hj. rewrite Eq in Hj. apply list_elem_of_fmap in Hj as (x & -> & Hx).
      specialize (Hf x Hx). unfold q_len in Hf. lia.
    - intros Hall. destruct found.
      + specialize (Hall _ Hqf). fold p in Hall. destruct Hfit as [_ Hf]. unfold q_len in Hf. fold p in Hf. lia.
      + split; [|done]. intros j Hj. unfold qblocks in Hj. rewrite Eq in Hj. apply list_elem_of_fmap in Hj as (x & -> & Hx).
        destruct Hfit as [_ Hf]. apply (Hf x). by right. }
  rewrite Hi, Hw, Hw', Hn. rewrite Z.geb_leb.
  destruct (Z.leb_spec blocks_per_part (dpb_len p - s)) as [Hsp|Hsp];
    destruct (add_to_part number (mkQ (q_b q) true) s (disk_parts d)) as [dps new] eqn:Ea;
    cbn [dpb_len]; rewrite Ea; eexists _, q, s; (split; [reflexivity|]); (split; [done|]); (split; [done|]);
    unfold created; cbv zeta; rewrite Ea, Eq; fold p;
    cbn [header set_alloc set_counts set_info part_info start num_usable_blocks dpb_len fst snd
      free_blocks disk_parts free_space num_partitions num_free num_used num_diskpart_blks dp_size dpb_queue].
  - rewrite (proj2 (Z.leb_le _ _) Hsp).
    split; [done|]. split; [rewrite wrapu32_id; destruct new; lia|]. split; [apply wrapu32_id; lia|]. do 2 (split; [done|]).
    split; [apply list_insert_insert_ne; unfold nblks in Hlt; lia|].
    split; [apply wrapu32_id; lia|]. split; [apply wrapu32_id; lia|]. split; [done|]. lia.
  - rewrite (proj2 (Z.leb_gt _ _) Hsp).
    split; [done|]. split; [rewrite wrapu32_id; destruct new; lia|]. split; [apply wrapu32_id; lia|]. do 2 (split; [done|]).
    split; [done|]. split; [apply wrapu32_id; lia|]. split; [apply wrapu32_id; lia|]. done.
Qed.

Lemma cut_blocks number scheme d q s : disk_inv d -> q_b q ∈ qblocks (free_blocks d) ->
  blocks_per_part <= s <= dpb_len (part_info (header d) !!! q_b q) ->
  let p := part_info (header d) !!! q_b q in
  let info1 := <[q_b q := cut number scheme p s]> (part_info (header d)) in
  blocks_ok (start d) (num_usable_blocks d) info1 (nblks d) /\
  (blocks_per_part <= dpb_len p - s -> (nblks d < length (part_info (header d)))%nat /\
   blocks_ok (start d) (num_usable_blocks d) (<[nblks d := rest_of p s]> info1) (S (nblks d))).
Proof.
  intros I Hq Hs p info1. pose proof (free_lt d I _ Hq) as Hlt. fold p in Hs.
  pose proof (bo_len _ _ _ _ (di_blocks _ I) _ Hlt) as HL. pose proof (bo_in _ _ _ _ (di_blocks _ I) _ Hlt) as Hin.
  fold p in HL, Hin.
  destruct (blocks_shrink _ _ _ _ _ (cut number scheme p s) (di_blocks _ I) Hlt eq_refl Hs) as [B Hsum].
  fold p in Hsum. split; [exact B|]. intros Hrest.
  assert (Hroom : (nblks d < length (part_info (header d)))%nat).
  { apply (split_room d (q_b q) I Hlt). fold p. unfold blocks_per_part in *. lia. }
  split; [done|]. unfold STORE_BLOCK_SIZE in *. apply blocks_append; try exact B; unfold STORE_BLOCK_SIZE.
  - unfold info1. by rewrite length_insert.
  - cbn [rest_of dpb_len]. unfold blocks_per_part in *. lia.
  - cbn [rest_of dpb_offset]. unfold STORE_BLOCK_SIZE, blocks_per_part in *. lia.
  - cbn [rest_of dpb_offset dpb_len]. unfold STORE_BLOCK_SIZE. lia.
  - intros i Hi. unfold info1. destruct (decide (i = q_b q)) as [->|Hne].
    + rewrite list_lookup_total_insert_eq by (pose proof (nblks_le d I); lia). left. cbn [cut rest_of dpb_offset dpb_len]. lia.
    + rewrite list_lookup_total_insert_ne by done.
      pose proof (bo_apart _ _ _ _ (di_blocks _ I) i (q_b q) Hi Hlt Hne) as A. fold p in A.
      unfold apart, STORE_BLOCK_SIZE in *. cbn [rest_of dpb_offset dpb_len]. unfold STORE_BLOCK_SIZE, blocks_per_part in *. lia.
  - unfold info1. rewrite Hsum. cbn [cut rest_of dpb_len]. pose proof (bo_total _ _ _ _ (di_blocks _ I)). lia.
Qed.

(** The queues after a creation, whether or not the block was split: [extra] is
    the block of the rest. *)
Lemma created_owners number scheme d q s (info' : list DiskPartBlock) (extra : list nat) :
  disk_inv d -> 0 <= number < 2 ^ 16 -> q ∈ dpb_queue (free_blocks d) ->
  info' !!! q_b q = cut number scheme (part_info (header d) !!! q_b q) s ->
  (forall i, (i < nblks d)%nat -> i <> q_b q -> info' !!! i = part_info (header d) !!! i) ->
  let r := add_to_part number (mkQ (q_b q) true) s (disk_parts d) in
  let fq := q_b <$> q_remove q (dpb_queue (free_blocks d)) in
  (forall dp, dp ∈ r.1 -> part_ok info' dp) /\ NoDup (part_number <$> r.1) /\
  length r.1 = (length (disk_parts d) + if r.2 then 1 else 0)%nat /\
  (fq ++ extra) ++ concat (qblocks <$> r.1) ≡ₚ seq 0 (nblks d) ++ extra /\
  (forall i, i ∈ fq -> dpb_free (info' !!! i) = true) /\
  lensum info' fq = free_space d - dpb_len (part_info (header d) !!! q_b q) /\
  S (length fq) = length (dpb_queue (free_blocks d)).
Proof.
  intros I Hnum Hq Hqi Hother. pose proof (owned_nodup d I) as Hnd.
  assert (Hqf : q_b q ∈ qblocks (free_blocks d)) by (by apply list_elem_of_fmap_2).
  apply NoDup_app in Hnd as (Hnf & Hdisj & _).
  pose proof (q_remove_perm q _ Hq Hnf) as Hperm. fold (qblocks (free_blocks d)) in Hperm.
  assert (Hkeep : forall dp, dp ∈ disk_parts d -> part_ok info' dp).
  { intros dp Hdp. apply (part_ok_keep (part_info (header d))); [by apply (di_parts _ I)|].
    intros i Hi. apply Hother; [by apply (part_lt d I dp)|]. intros ->. by apply (part_not_free d I dp (q_b q)). }
  assert (Hlen : dpb_len (info' !!! q_b (mkQ (q_b q) true)) = s) by (cbn [q_b]; by rewrite Hqi).
  pose proof (add_to_part_ok info' number (mkQ (q_b q) true) (disk_parts d) Hkeep (di_numbers _ I) Hnum) as A.
  rewrite Hlen in A. cbn [q_b] in A. rewrite Hqi in A. destruct (A eq_refl eq_refl) as (A1 & A2 & A3 & A4).
  assert (Hnfq : q_b q ∉ (q_b <$> q_remove q (dpb_queue (free_blocks d)))).
  { unfold q_remove. intros (x & E & Hx)%list_elem_of_fmap. apply list_elem_of_filter in Hx as [Hx _]. congruence. }
  assert (Hfqk : forall i, i ∈ (q_b <$> q_remove q (dpb_queue (free_blocks d))) ->
    info' !!! i = part_info (header d) !!! i /\ i ∈ qblocks (free_blocks d)).
  { intros i Hi. assert (Hif : i ∈ qblocks (free_blocks d)) by (rewrite Hperm; by right).
    split; [|done]. apply Hother; [by apply (free_lt d I)|]. by intros ->. }
  split; [done|]. split; [done|]. split; [done|]. split; [|split; [|split]].
  - rewrite A3, <- (di_owned _ I), Hperm. solve_Permutation.
  - intros i Hi. destruct (Hfqk i Hi) as [-> Hif]. by apply (di_free _ I).
  - destruct (di_fsize _ I) as [F _]. rewrite F, (lensum_perm _ _ _ Hperm). cbn [lensum foldr].
    fold (lensum (part_info (header d)) (q_b <$> q_remove q (dpb_queue (free_blocks d)))).
    rewrite (lensum_ext (part_info (header d))); [lia|]. intros i Hi. by destruct (Hfqk i Hi) as [-> _].
  - transitivity (length (qblocks (free_blocks d))); [by rewrite Hperm|]. unfold qblocks. apply length_fmap.
Qed.

Lemma created_inv d number size scheme q s d' : disk_inv d -> 0 <= number < 2 ^ 16 -> q ∈ dpb_queue (free_blocks d) ->
  chosen d size (q_b q) s -> created number scheme d q s d' -> disk_inv d'.
Proof.
  intros I Hnum Hq [Hqf Hs _ _] C. unfold created in C. cbv zeta in C.
  destruct (cut_blocks number scheme d q s I Hqf Hs) as [B1 B2].
  set (p := part_info (header d) !!! q_b q) in *. set (info1 := <[q_b q := cut number scheme p s]> (part_info (header d))) in *.
  pose proof (free_lt d I _ Hqf) as Hlt. pose proof (nblks_le d I) as Hle.
  assert (Hi1 : info1 !!! q_b q = cut number scheme p s) by (apply list_lookup_total_insert_eq; lia).
  assert (Hio : forall i, i <> q_b q -> info1 !!! i = part_info (header d) !!! i)
    by (intros i Hne; by apply list_lookup_total_insert_ne).
  destruct C as (D1 & D2 & D3 & D4 & D5 & C). destruct (di_counts _ I) as (C1 & C2 & C3 & C4).
  destruct (di_fsize _ I) as [F1 F2]. pose proof (counts_range d I) as (R1 & R2 & R3 & R4).
  destruct (Z.leb_spec blocks_per_part (dpb_len p - s)) as [Hsp|Hsp]; destruct C as (E1 & E2 & E3 & E4 & E5 & E6).
  - destruct (B2 Hsp) as [Hroom Bn].
    assert (Hin : forall i, (i < nblks d)%nat -> <[nblks d := rest_of p s]> info1 !!! i = info1 !!! i)
      by (intros i Hi; apply list_lookup_total_insert_ne; lia).
    assert (Hnew : <[nblks d := rest_of p s]> info1 !!! nblks d = rest_of p s)
      by (apply list_lookup_total_insert_eq; unfold info1; by rewrite length_insert).
    destruct (created_owners number scheme d q s (<[nblks d := rest_of p s]> info1) [nblks d] I Hnum Hq)
      as (O1 & O2 & O3 & O4 & O5 & O6 & O7).
    { by rewrite Hin. } { intros i Hi Hne. rewrite Hin by done. by apply Hio. }
    assert (Hnb : nblks d' = S (nblks d)) by (unfold nblks in *; lia).
    assert (Hqb : qblocks (free_blocks d') = (q_b <$> q_remove q (dpb_queue (free_blocks d))) ++ [nblks d])
      by (unfold qblocks; by rewrite E4, fmap_app).
    constructor; rewrite ?D1, ?D4, ?D5, ?E1, ?Hnb, ?Hqb; fold info1.
    + done.
    + rewrite length_insert. unfold info1. rewrite length_insert. apply (di_capacity _ I).
    + apply (di_usable _ I).
    + by rewrite O4, seq_S.
    + intros i [Hi|Hi]%elem_of_app; [by apply O5|]. apply list_elem_of_singleton in Hi as ->. rewrite Hnew.
      cbn [rest_of dpb_free]. by apply (di_free _ I).
    + done.
    + done.
    + rewrite lensum_app, O6. cbn [lensum foldr]. rewrite Hnew. cbn [rest_of dpb_len]. fold p. lia.
    + rewrite O3, E4, length_app. rewrite length_fmap in O7. cbn [length].
      destruct (add_to_part _ _ _ _) as [? []]; cbn [fst snd] in *; lia.
  - destruct (created_owners number scheme d q s info1 [] I Hnum Hq) as (O1 & O2 & O3 & O4 & O5 & O6 & O7); [done|auto|].
    assert (Hnb : nblks d' = nblks d) by (unfold nblks in *; lia).
    assert (Hqb : qblocks (free_blocks d') = q_b <$> q_remove q (dpb_queue (free_blocks d))) by (unfold qblocks; by rewrite E4).
    rewrite !app_nil_r in O4.
    constructor; rewrite ?D1, ?D4, ?D5, ?E1, ?Hnb, ?Hqb; fold info1; try done.
    + unfold info1. rewrite length_insert. apply (di_capacity _ I).
    + apply (di_usable _ I).
    + rewrite O6. fold p. lia.
    + rewrite O3, E4. rewrite length_fmap in O7. 
      destruct (add_to_part _ _ _ _) as [? []]; cbn [fst snd] in *; lia.
Qed.

(** ** Rebuilding from the header *)

(** The queues are determined by the header, up to order. *)
Record queues_ok (info : list DiskPartBlock) (n : nat) (fb : DiskPart) (dps : list DiskPart) : Prop := {
  qo_owned : qblocks fb ++ concat (qblocks <$> dps) ≡ₚ seq 0 n;
  qo_free : forall i, i ∈ qblocks fb -> dpb_free (info !!! i) = true;
  qo_parts : forall dp, dp ∈ dps -> part_ok info dp;
  qo_numbers : NoDup (part_number <$> dps)
}.

Lemma inv_queues d : disk_inv d -> queues_ok (part_info (header d)) (nblks d) (free_blocks d) (disk_parts d).
Proof. intros []. by constructor. Qed.

Lemma filter_all {A} (P : A -> Prop) `{!forall x, Decision (P x)} (l : list A) :
  (forall x, x ∈ l -> P x) -> filter P l = l.
Proof.
  induction l as [|x l IH]; intros Hl; [done|]. rewrite filter_cons_True by (apply Hl; left).
  f_equal. apply IH. intros y Hy. apply Hl. by right.
Qed.

Section queues.
Context {info : list DiskPartBlock} {n : nat} {fb : DiskPart} {dps : list DiskPart}.
Hypothesis Q : queues_ok info n fb dps.

Lemma in_parts i : i ∈ concat (qblocks <$> dps) -> exists dp, dp ∈ dps /\ i ∈ qblocks dp.
Proof.
  intros (k & l & Hk & Hi)%elem_of_concat_lookup. rewrite list_lookup_fmap in Hk.
  destruct (dps !! k) as [dp|] eqn:E; simplify_eq/=. exists dp. split; [|done]. by eapply list_elem_of_lookup_2.
Qed.

Lemma queues_free : qblocks fb ≡ₚ filter (fun i => dpb_free (info !!! i) = true) (seq 0 n).
Proof.
  rewrite <- (qo_owned _ _ _ _ Q), filter_app, (filter_all _ (qblocks fb)) by apply (qo_free _ _ _ _ Q).
  rewrite filter_none; [by rewrite app_nil_r|]. intros i Hi. destruct (in_parts i Hi) as (dp & Hdp & Hin).
  destruct (qo_parts _ _ _ _ Q dp Hdp) as (_ & _ & _ & _ & H). destruct (H i Hin) as [-> _]. done.
Qed.

Lemma queues_part number : part_size number dps =
  lensum info (filter (fun i => dpb_free (info !!! i) = false /\ dpb_number (info !!! i) = number) (seq 0 n)).
Proof.
  set (P := fun i => dpb_free (info !!! i) = false /\ dpb_number (info !!! i) = number).
  assert (G : forall l, (forall dp, dp ∈ l -> part_ok info dp) -> NoDup (part_number <$> l) ->
    part_size number l = lensum info (filter P (concat (qblocks <$> l)))).
  { unfold part_size. induction l as [|dp l IH]; intros Hok Hn; [done|]. cbn [fmap list_fmap concat take_part].
    apply NoDup_cons in Hn as [Hni Hn]. rewrite filter_app, lensum_app.
    destruct (Hok dp ltac:(left)) as (P1 & _ & _ & _ & P5).
    specialize (IH ltac:(intros x Hx; apply Hok; by right) Hn). fold (fmap (M := list) qblocks l).
    destruct (Z.eqb_spec (part_number dp) number) as [E|E].
    - rewrite filter_all by (intros i Hi; unfold P; rewrite <- E; by apply P5).
      destruct (take_part number l) as [[x r]|] eqn:Et; [|rewrite <- IH; lia].
      exfalso. apply take_part_Some in Et as (l1 & l2 & -> & _ & Hx). apply Hni. rewrite E, <- Hx.
      apply list_elem_of_fmap_2. set_solver.
    - rewrite (filter_none P (qblocks dp)) by (intros i Hi [_ H]; destruct (P5 i Hi); congruence).
      destruct (take_part number l) as [[x r]|]; rewrite <- IH; done. }
  rewrite (G dps (qo_parts _ _ _ _ Q) (qo_numbers _ _ _ _ Q)).
  assert (Hp : filter P (seq 0 n) ≡ₚ filter P (concat (qblocks <$> dps))).
  { rewrite <- (qo_owned _ _ _ _ Q), filter_app, (filter_none P (qblocks fb)); [done|].
    intros i Hi [Hf _]. rewrite (qo_free _ _ _ _ Q) in Hf by done. done. }
  symmetry. by apply lensum_perm.
Qed.

(** The blocks of the partition [number]. *)
Definition part_blocks (number : Z) (ps : list DiskPart) : list nat := match take_part number ps with Some (dp, _) => qblocks dp | None => [] end.

Lemma queues_part_blocks number : part_blocks number dps ≡ₚ filter (fun i => dpb_free (info !!! i) = false /\ dpb_number (info !!! i) = number) (seq 0 n).
Proof.
  set (P := fun i => dpb_free (info !!! i) = false /\ dpb_number (info !!! i) = number).
  rewrite <- (qo_owned _ _ _ _ Q), filter_app, (filter_none P (qblocks fb)) by (intros i Hi [Hf _]; by rewrite (qo_free _ _ _ _ Q) in Hf by done). cbn [app].
  assert (G : forall l, (forall dp, dp ∈ l -> part_ok info dp) -> NoDup (part_number <$> l) -> part_blocks number l = filter P (concat (qblocks <$> l))).
  { unfold part_blocks. induction l as [|dp l IH]; intros Hok Hn; [done|]. cbn [fmap list_fmap concat take_part]. apply NoDup_cons in Hn as [Hni Hn]. rewrite filter_app.
    destruct (Hok dp ltac:(left)) as (_ & _ & _ & _ & P5). specialize (IH ltac:(intros x Hx; apply Hok; by right) Hn). fold (fmap (M := list) qblocks l).
    destruct (Z.eqb_spec (part_number dp) number) as [E|E].
    - rewrite filter_all by (intros i Hi; unfold P; rewrite <- E; by apply P5). destruct (take_part number l) as [[x r]|] eqn:Et; [|by rewrite <- IH, app_nil_r].
      exfalso. apply take_part_Some in Et as (l1 & l2 & -> & _ & Hx). apply Hni. rewrite E, <- Hx. apply list_elem_of_fmap_2. set_solver.
    - rewrite (filter_none P (qblocks dp)) by (intros i Hi [_ H]; destruct (P5 i Hi); congruence). cbn [app]. rewrite <- IH. by destruct (take_part number l) as [[x r]|]. }
  by rewrite (G dps (qo_parts _ _ _ _ Q) (qo_numbers _ _ _ _ Q)).
Qed.

Lemma queues_numbers number : number ∈ (part_number <$> dps) <->
  exists i, (i < n)%nat /\ dpb_free (info !!! i) = false /\ dpb_number (info !!! i) = number.
Proof.
  split.
  - intros (dp & -> & Hdp)%list_elem_of_fmap. destruct (qo_parts _ _ _ _ Q dp Hdp) as (_ & _ & Hne & _ & H).
    destruct (dpb_queue dp) as [|q qs] eqn:E; [done|]. exists (q_b q).
    assert (Hi : q_b q ∈ qblocks dp) by (unfold qblocks; rewrite E; left). split; [|by apply H].
    assert (Hs : q_b q ∈ seq 0 n).
    { rewrite <- (qo_owned _ _ _ _ Q). apply elem_of_app. right. apply elem_of_concat_lookup.
      apply list_elem_of_lookup in Hdp as [k Hk]. exists k, (qblocks dp). by rewrite list_lookup_fmap, Hk. }
    apply elem_of_seq in Hs. lia.
  - intros (i & Hi & Hf & <-). assert (Hs : i ∈ seq 0 n) by (apply elem_of_seq; lia).
    rewrite <- (qo_owned _ _ _ _ Q) in Hs. apply elem_of_app in Hs as [Hs|Hs].
    + rewrite (qo_free _ _ _ _ Q) in Hf by done. done.
    + destruct (in_parts i Hs) as (dp & Hdp & Hin). destruct (qo_parts _ _ _ _ Q dp Hdp) as (_ & _ & _ & _ & H).
      destruct (H i Hin) as [_ ->]. by apply list_elem_of_fmap_2.
Qed.
End queues.

Lemma file_blocks info n :
  (forall i, (i < n)%nat -> dpb_free (info !!! i) = false -> 0 <= dpb_number (info !!! i) < 2 ^ 16) ->
  let '(fb, fs, dps) := foldl (fun acc i => file_block i (info !!! i) acc) (mkDP 0 (-1) 0 [], 0, []) (seq 0 n) in
  queues_ok info n fb dps /\ fs = lensum info (qblocks fb) /\ dp_size fb = fs /\
  num_partblocks fb = Z.of_nat (length (dpb_queue fb)).
Proof.
  induction n as [|n IH]; intros Hnum.
  - cbn. split; [|done]. constructor; [done|intros i Hi; by apply elem_of_nil in Hi|intros i Hi; by apply elem_of_nil in Hi|apply NoDup_nil_2].
  - rewrite seq_S, foldl_app. cbn [foldl Nat.add].
    destruct (foldl _ _ (seq 0 n)) as [[fb fs] dps]. destruct IH as ([Q1 Q2 Q3 Q4] & H1 & H2 & H3); [intros i Hi; apply Hnum; lia|].
    unfold file_block. destruct (dpb_free (info !!! n)) eqn:Ef.
    + assert (Hq : qblocks (mkDP (num_partblocks fb + 1) (part_number fb) (dp_size fb + dpb_len (info !!! n))
        (dpb_queue fb ++ [mkQ n false])) = qblocks fb ++ [n]) by (unfold qblocks; cbn [dpb_queue]; by rewrite fmap_app).
      split; [constructor|]; rewrite ?Hq; cbn [dp_size num_partblocks dpb_queue].
      * rewrite seq_S, <- Q1. solve_Permutation.
      * intros i [Hi|Hi]%elem_of_app; [by apply Q2|]. by apply list_elem_of_singleton in Hi as ->.
      * done.
      * done.
      * rewrite lensum_app, length_app. cbn. lia.
    + destruct (add_to_part_ok info (dpb_number (info !!! n)) (mkQ n false) dps Q3 Q4) as (A1 & A2 & A3 & A4);
        [apply Hnum; [lia|done]|done|done|]. cbn [q_b] in *.
      split; [constructor|]; [|done..]. rewrite A3, seq_S, <- Q1. solve_Permutation.
Qed.

Lemma update_header_inv d : disk_inv d -> disk_inv (update_header d) /\ header (update_header d) = header d.
Proof.
  intros I. pose proof (inv_queues d I) as Q. unfold update_header. fold (nblks d).
  pose proof (file_blocks (part_info (header d)) (nblks d)) as F.
  destruct (foldl _ _ _) as [[fb fs] dps]. destruct F as (Q' & H1 & H2 & H3).
  { intros i Hi Hf. assert (Hn : dpb_number (part_info (header d) !!! i) ∈ (part_number <$> disk_parts d))
      by (apply (queues_numbers Q); eauto).
    apply list_elem_of_fmap in Hn as (dp & -> & Hdp). apply (di_parts _ I dp Hdp). }
  split; [|done]. destruct I as [I1 I2 I3 I4 I5 I6 I7 I8 I9]. pose proof Q' as [Q1 Q2 Q3 Q4].
  constructor; cbn [header set_alloc start num_usable_blocks free_blocks disk_parts free_space]; try done.
  unfold nblks at 1. cbn [header set_alloc]. fold (nblks d). destruct I9 as (C1 & C2 & C3 & C4).
  split_and!; [| |done|done].
  - rewrite C1. f_equal. rewrite <- (length_fmap part_number), <- (length_fmap part_number dps).
    apply Permutation_length, NoDup_Permutation; [done|done|]. intros x.
    rewrite (queues_numbers Q), (queues_numbers Q'). done.
  - rewrite C2. f_equal. rewrite <- (length_fmap q_b), <- (length_fmap q_b (dpb_queue fb)).
    apply Permutation_length. change (qblocks (free_blocks d) ≡ₚ qblocks fb).
    by rewrite (queues_free Q), (queues_free Q').
Qed.

(** ** A cleared disk *)

Lemma ROUND_TO_BLOCK_spec x : x <= ROUND_TO_BLOCK x < x + 512.
Proof.
  unfold ROUND_TO_BLOCK. rewrite <- Z.ldiff_land. change (INK_BLOCK_SIZE - 1) with 511.
  change (Z.ldiff (x + 511) 511) with (Z.ldiff (x + 511) (Z.ones 9)).
  rewrite Z.ldiff_ones_r, Z.shiftl_mul_pow2, Z.shiftr_div_pow2 by lia. change (2 ^ 9) with 512. pose proof (Z.div_mod (x + 511) 512 ltac:(lia)). pose proof (Z.mod_pos_bound (x + 511) 512 ltac:(lia)). lia.
Qed.

Lemma delete_all_inv d : blocks_per_part <= num_usable_blocks d < 2 ^ 26 ->
  (0 < length (part_info (header d)))%nat ->
  num_usable_blocks d < (Z.of_nat (length (part_info (header d))) + 1) * blocks_per_part ->
  let d' := delete_all_partitions d in
  disk_inv d' /\ free_space d' = num_usable_blocks d /\ disk_parts d' = [] /\ cleared d' = true.
Proof.
  intros Hu Hr Hc. unfold delete_all_partitions, update_header. cbv zeta.
  cbn [header set_alloc set_cleared part_info num_diskpart_blks]. change (Z.to_nat 1) with 1%nat.
  rewrite (wrapu_id 26) by (unfold blocks_per_part in *; lia).
  set (b0 := mkDPB _ _ _ _ _). set (info := <[0%nat := b0]> (part_info (header d))).
  assert (Hb : info !!! 0%nat = b0) by (by apply list_lookup_total_insert_eq).
  assert (Hl : length info = length (part_info (header d))) by apply length_insert.
  cbn [seq foldl]. rewrite Hb. unfold file_block. cbn [dpb_free b0 num_partblocks dp_size dpb_queue app part_number dpb_len].
  split; [|done]. constructor; unfold nblks; cbn [header set_alloc set_cleared part_info num_diskpart_blks start
    num_usable_blocks free_blocks disk_parts free_space num_partitions num_free num_used]; change (Z.to_nat 1) with 1%nat;
    rewrite ?Hl; try done.
  - assert (H0 : forall i, (i < 1)%nat -> info !!! i = b0) by (intros i Hi; by replace i with 0%nat by lia).
    constructor.
    + lia.
    + intros i Hi. rewrite H0 by done. unfold b0. cbn [dpb_len]. lia.
    + intros i Hi. rewrite H0 by done. unfold b0. cbn [dpb_len dpb_offset]. lia.
    + intros i j Hi Hj Hne. lia.
    + cbn [seq lensum foldr]. rewrite Hb. unfold b0. cbn [dpb_len]. lia.
  - lia.
  - intros i Hi. apply list_elem_of_singleton in Hi as ->. cbn [q_b]. by rewrite Hb.
  - intros dp Hdp. by apply elem_of_nil in Hdp.
  - apply NoDup_nil_2.
  - cbn. rewrite Hb. unfold b0. cbn [dpb_len]. lia.
Qed.

Lemma header_size_spec l st sk : MIN_PART_SIZE <= l * STORE_BLOCK_SIZE - (st - sk) < 2 ^ 40 ->
  header_size l st sk = 32 + 16 * ((l * STORE_BLOCK_SIZE - (st - sk)) / MIN_PART_SIZE).
Proof.
  intros H. unfold header_size. unfold MIN_PART_SIZE, PART_BLOCK_SIZE in *.
  set (x := l * STORE_BLOCK_SIZE - (st - sk)) in *. rewrite (wrapu_id 64) by lia. rewrite Z.geb_leb.
  rewrite (proj2 (Z.leb_le _ _)) by lia. unfold sizeof_DiskHeader, sizeof_DiskPartBlock.
  assert (0 <= x / (1024 * 1024 * 128) < 2 ^ 13) by (split; [apply Z.div_pos; lia|apply Z.div_lt_upper_bound; lia]).
  rewrite wraps_id by lia. lia.
Qed.

Lemma open_geometry blocks dir_skip clear errs :
  blocks_per_part + 16 <= blocks < 2 ^ 26 -> 0 <= dir_skip ->
  let d := (open blocks dir_skip false errs).1 in
  blocks_per_part <= num_usable_blocks d < 2 ^ 26 /\ (0 < length (part_info (header d)))%nat /\
  num_usable_blocks d < (Z.of_nat (length (part_info (header d))) + 1) * blocks_per_part /\
  (open blocks dir_skip clear errs).1 =
    if clear then (clearDisk (set_handler d clearDone_h)).1 else d.
Proof.
  intros Hb Hd. unfold open. set (sk := ROUND_TO_BLOCK (if dir_skip <? START_POS then START_POS else dir_skip)).
  assert (Hsk : dir_skip <= sk < dir_skip + 16384 + 512).
  { unfold sk, START_POS. change (32 * INK_BLOCK_SIZE) with 16384. destruct (Z.ltb_spec dir_skip 16384).
    - pose proof (ROUND_TO_BLOCK_spec 16384). lia.
    - pose proof (ROUND_TO_BLOCK_spec dir_skip). lia. }
  clearbody sk. unfold blocks_per_part in *.
  assert (H1 : header_size blocks sk sk = 32 + 16 * (blocks * 8192 / 134217728)).
  { rewrite header_size_spec; unfold STORE_BLOCK_SIZE, MIN_PART_SIZE, PART_BLOCK_SIZE; [do 3 f_equal; lia|lia]. }
  rewrite H1. set (h1 := 32 + 16 * (blocks * 8192 / 134217728)).
  assert (B1 : 32 <= h1 <= 65568).
  { unfold h1. assert (0 <= blocks * 8192 / 134217728 <= 4096) by (split; [apply Z.div_pos; lia|apply Z.div_le_upper_bound; lia]). lia. }
  assert (H2 : header_size blocks (sk + h1) sk = 32 + 16 * ((blocks * 8192 - h1) / 134217728)).
  { rewrite header_size_spec; unfold STORE_BLOCK_SIZE, MIN_PART_SIZE, PART_BLOCK_SIZE; [do 3 f_equal; lia|lia]. }
  rewrite H2. set (h2 := 32 + 16 * ((blocks * 8192 - h1) / 134217728)).
  assert (B2 : 32 <= h2 <= h1).
  { assert (E1 : h1 = 32 + 16 * (blocks * 8192 / 134217728)) by reflexivity.
    assert (E2 : h2 = 32 + 16 * ((blocks * 8192 - h1) / 134217728)) by reflexivity.
    assert (0 <= (blocks * 8192 - h1) / 134217728) by (apply Z.div_pos; lia).
    assert ((blocks * 8192 - h1) / 134217728 <= blocks * 8192 / 134217728) by (apply Z.div_le_mono; lia). lia. }
  assert (H3 : header_size blocks (sk + h2) sk = 32 + 16 * ((blocks * 8192 - h2) / 134217728)).
  { rewrite header_size_spec; unfold STORE_BLOCK_SIZE, MIN_PART_SIZE, PART_BLOCK_SIZE; [do 3 f_equal; lia|lia]. }
  rewrite H3. set (q := (blocks * 8192 - h2) / 134217728). set (h3 := 32 + 16 * q).
  assert (Bq : (blocks * 8192 - h1) / 134217728 <= q) by (apply Z.div_le_mono; lia).
  assert (B3 : h2 <= h3 <= 65568).
  { unfold h3. split; [unfold h2; lia|]. assert (q <= 4096) by (apply Z.div_le_upper_bound; lia). lia. }
  assert (Bq1 : 1 <= q) by (unfold q; apply Z.div_le_lower_bound; lia).
  pose proof (ROUND_TO_BLOCK_spec h3) as Hr. set (hl := ROUND_TO_BLOCK h3) in *. clearbody hl.
  set (us := Z.shiftr (blocks * STORE_BLOCK_SIZE - (sk + hl - dir_skip)) STORE_BLOCK_SHIFT).
  assert (Bu : us * 8192 <= blocks * 8192 - (sk + hl - dir_skip) < us * 8192 + 8192).
  { unfold us, STORE_BLOCK_SIZE, STORE_BLOCK_SHIFT. rewrite Z.shiftr_div_pow2 by lia. change (2 ^ 13) with 8192.
    pose proof (Z.div_mod (blocks * 8192 - (sk + hl - dir_skip)) 8192 ltac:(lia)).
    pose proof (Z.mod_pos_bound (blocks * 8192 - (sk + hl - dir_skip)) 8192 ltac:(lia)). lia. }
  clearbody us. assert (Bus : 16384 <= us < 2 ^ 26) by lia.
  assert (Hi : i32 us = us) by (apply wraps_id; lia).
  set (room := (hl - (sizeof_DiskHeader - sizeof_DiskPartBlock)) / sizeof_DiskPartBlock).
  assert (Hroom : q <= room) by (unfold room, sizeof_DiskHeader, sizeof_DiskPartBlock; apply Z.div_le_lower_bound; unfold h3 in *; lia).
  assert (Hq : us < (q + 1) * 16384).
  { pose proof (Z.div_mod (blocks * 8192 - h2) 134217728 ltac:(lia)) as E. fold q in E.
    pose proof (Z.mod_pos_bound (blocks * 8192 - h2) 134217728 ltac:(lia)). lia. }
  cbn [fst header part_info num_usable_blocks]. rewrite Hi, length_replicate.
  split; [lia|]. split; [lia|]. split; [nia|]. by destruct clear.
Qed.

Lemma delete_all_usable d : num_usable_blocks (delete_all_partitions d) = num_usable_blocks d.
Proof. unfold delete_all_partitions, update_header. by destruct (foldl _ _ _) as [[? ?] ?]. Qed.

(** What the rebuilding depends on. *)
Lemma recovered_from d d1 : header d1 = header d -> header_len d1 = header_len d -> dlen d1 = dlen d -> start d1 = start d -> skip d1 = skip d -> start_offset d1 = start_offset d -> num_usable_blocks d1 = num_usable_blocks d ->
  wasted_space d1 = wasted_space d -> num_errors d1 = num_errors d -> cleared d1 = cleared d -> handler d1 = handler d -> update_header d1 = update_header d.
Proof. intros. unfold update_header. destruct d, d1. cbn in *. by subst. Qed.

Lemma update_cleared d : cleared (update_header d) = cleared d.
Proof. unfold update_header. by destruct (foldl _ _ _) as [[? ?] ?]. Qed.

(** A sample disk of 40000 blocks, and one with a partition on it. *)
Lemma sample_disk_inv : disk_inv (open 40000 0 true 0).1.
Proof.
  destruct (open_geometry 40000 0 true 0) as (G1 & G2 & G3 & ->); [unfold blocks_per_part; lia|lia|].
  apply (delete_all_inv (set_handler (open 40000 0 false 0).1 clearDone_h) G1 G2 G3).
Qed.

Lemma sample_created_inv : disk_inv (create_partition 3 16384 1 (open 40000 0 true 0).1).1.
Proof.
  destruct (create_created (open 40000 0 true 0).1 3 16384 1 sample_disk_inv) as (d' & q & s & -> & Hq & Ch & Cr);
    [lia|unfold blocks_per_part; lia|vm_compute; discriminate|].
  exact (created_inv _ 3 16384 1 q s d' sample_disk_inv ltac:(lia) Hq Ch Cr).
Qed.

(** ** Theorems *)

(** A disk opened with a clear has one free block over the whole usable
    area, room in its header for every later split, and no partition; a header
    read back with a wrong magic or size leads to the same state. *)
Theorem disk_open_cleared blocks dir_skip errs max start_done read :
  blocks_per_part + 16 <= blocks < 2 ^ 26 -> 0 <= dir_skip ->
  let d := (open blocks dir_skip true errs).1 in
  let d2 := (openStart max true start_done read (open blocks dir_skip false errs).1).1 in
  disk_inv d /\ free_space d = num_usable_blocks d /\ disk_parts d = [] /\ cleared d = true /\
  (magic read <> DISK_HEADER_MAGIC \/ num_blocks read <> blocks ->
   length (part_info read) = length (part_info (header (open blocks dir_skip false errs).1)) ->
   disk_inv d2 /\ free_space d2 = num_usable_blocks d /\ disk_parts d2 = [] /\ cleared d2 = true).
Proof.
  intros Hb Hd. destruct (open_geometry blocks dir_skip true errs Hb Hd) as (G1 & G2 & G3 & G4). cbv zeta.
  rewrite G4. set (d0 := (open blocks dir_skip false errs).1) in *. unfold clearDisk. cbn [fst].
  destruct (delete_all_inv (set_handler d0 clearDone_h) G1 G2 G3) as (H1 & H2 & H3 & H4).
  assert (Hus : num_usable_blocks (delete_all_partitions (set_handler d0 clearDone_h)) = num_usable_blocks d0)
    by (rewrite delete_all_usable; reflexivity).
  split; [done|]. split; [by rewrite H2, Hus|]. split; [done|]. split; [done|]. intros Hm Hl. rewrite Hus.
  unfold openStart. cbn [negb].
  assert (Hblk : dlen d0 = blocks) by reflexivity.
  assert (negb (magic read =? DISK_HEADER_MAGIC) || negb (num_blocks read =? dlen d0) = true) as ->.
  { rewrite Hblk. apply orb_true_iff. destruct Hm as [Hm|Hm]; [left|right]; apply negb_true_iff, Z.eqb_neq; done. }
  cbn [fst clearDisk].
  refine (delete_all_inv (set_handler (set_alloc d0 read _ _ _ _) clearDone_h) _ _ _); cbn [num_usable_blocks header set_handler set_alloc]; [done| |]; by rewrite Hl.
Qed.

Lemma disk_open_cleared_witness : disk_inv (open 40000 0 true 0).1.
Proof. apply (disk_open_cleared 40000 0 0 5 true (mkHdr 0 0 0 0 0 0 [])); unfold blocks_per_part; lia. Defined.

(** creating a partition block takes the first free block that is long
    enough, or the longest, cuts it to the size asked for, or to a multiple of
    128 MB, keeps the rest as a free block when it is worth one, and accounts
    for it; all blocks stay apart and inside the disk, and the header array is
    never overrun. *)
Theorem disk_create_effect d number size scheme :
  disk_inv d -> 0 <= number < 2 ^ 16 -> blocks_per_part <= size < 2 ^ 32 -> dpb_queue (free_blocks d) <> [] ->
  exists d' i, create_partition number size scheme d = (d', Some i) /\ disk_inv d' /\
    let L := dpb_len (part_info (header d) !!! i) in
    let s := dpb_len (part_info (header d') !!! i) in
    chosen d size i s /\
    (forall m, part_size m (disk_parts d') = part_size m (disk_parts d) + if m =? number then s else 0) /\
    free_space d' = free_space d - if blocks_per_part <=? L - s then s else L.
Proof.
  intros I Hn Hs Hq. destruct (create_created d number size scheme I Hn Hs Hq) as (d' & q & s & E & Hin & Ch & Cr).
  exists d', (q_b q). split; [done|]. split; [by eapply created_inv|]. cbv zeta.
  pose proof (free_lt d I _ (ch_free _ _ _ _ Ch)) as Hlt. pose proof (nblks_le d I).
  unfold created in Cr. cbv zeta in Cr. destruct Cr as (D1 & _ & _ & _ & _ & Cr).
  assert (Hs' : dpb_len (part_info (header d') !!! q_b q) = s /\
    free_space d' = free_space d - if blocks_per_part <=? dpb_len (part_info (header d) !!! q_b q) - s then s
                                   else dpb_len (part_info (header d) !!! q_b q)).
  { destruct (blocks_per_part <=? _) eqn:El; destruct Cr as (-> & _ & _ & _ & -> & _); (split; [|done]).
    - rewrite list_lookup_total_insert_ne by lia. by rewrite list_lookup_total_insert_eq by lia.
    - by rewrite list_lookup_total_insert_eq by lia. }
  destruct Hs' as [-> Hfs]. split; [done|]. split; [|done]. intros m. rewrite D1. apply add_to_part_size.
Qed.

Lemma disk_create_effect_witness : exists d' i, create_partition 3 16384 1 (open 40000 0 true 0).1 = (d', Some i) /\
  part_size 3 (disk_parts d') = 16384.
Proof.
  destruct (disk_create_effect (open 40000 0 true 0).1 3 16384 1) as (d' & i & E & _ & Ch & P & _).
  - apply sample_disk_inv.
  - lia.
  - unfold blocks_per_part; lia.
  - vm_compute. discriminate.
  - exists d', i. split; [done|]. rewrite P, (ch_fit _ _ _ _ Ch); [reflexivity|].
    exists 0%nat. split; [left|vm_compute; congruence].
Defined.

(** deleting a partition gives all its blocks back and removes it, leaving
    the others; it fails exactly when the disk has no such partition. *)
Theorem disk_delete_effect d number : disk_inv d ->
  let r := delete_partition number d in
  disk_inv r.1 /\ (r.2 = 0 <-> get_diskpart number d <> None) /\ get_diskpart number r.1 = None /\
  free_space r.1 = free_space d + part_size number (disk_parts d) /\
  (forall m, m <> number -> part_size m (disk_parts r.1) = part_size m (disk_parts d)).
Proof.
  intros I. cbv zeta. unfold get_diskpart. destruct (take_part number (disk_parts d)) as [[dp rest]|] eqn:E.
  - destruct (delete_partition_spec d number dp rest I E) as (H1 & H2 & H3 & H4). rewrite H1, H3, H4.
    destruct (take_part_Some _ _ _ _ E) as (l1 & l2 & Hd & -> & Hnum).
    pose proof (di_numbers _ I) as Hnn. rewrite Hd, fmap_app, fmap_cons in Hnn.
    split; [done|]. split; [split; done|]. split.
    { assert (take_part number (l1 ++ l2) = None) as ->; [|done]. apply take_part_None. rewrite fmap_app, <- Hnum.
      rewrite <- Permutation_middle in Hnn. by apply NoDup_cons in Hnn as [? _]. }
    split; [unfold part_size; by rewrite E|]. intros m Hm. rewrite Hd. unfold part_size. clear -Hm Hnum.
    induction l1 as [|x l1 IH]; cbn [app take_part].
    + by rewrite (proj2 (Z.eqb_neq (part_number dp) m)) by congruence; destruct (take_part m l2) as [[? ?]|].
    + destruct (part_number x =? m); [done|].
      destruct (take_part m (l1 ++ l2)) as [[? ?]|], (take_part m (l1 ++ dp :: l2)) as [[? ?]|]; done.
  - unfold delete_partition, part_size. rewrite E. cbn [fst snd]. rewrite E. split; [done|]. split; [split; [discriminate|by intros ?]|].
    split; [done|]. split; [lia|done].
Qed.

Lemma disk_delete_effect_witness :
  let d := (create_partition 3 16384 1 (open 40000 0 true 0).1).1 in
  free_space (delete_partition 3 d).1 = free_space d + 16384.
Proof. intros d. destruct (disk_delete_effect d 3 sample_created_inv) as (_ & _ & _ & -> & _). reflexivity. Defined.

(** The same partition: the same blocks, in some order, with the same counts. *)
Definition same_part (x y : option DiskPart) : Prop :=
  match x, y with
  | Some p, Some q => part_number p = part_number q /\ qblocks p ≡ₚ qblocks q /\ dp_size p = dp_size q /\ num_partblocks p = num_partblocks q
  | None, None => True
  | _, _ => False
  end.

Lemma queues_same info n fb dps fb' dps' m : queues_ok info n fb dps -> queues_ok info n fb' dps' -> same_part (fst <$> take_part m dps') (fst <$> take_part m dps).
Proof.
  intros Q Q'. assert (Pm : part_blocks m dps' ≡ₚ part_blocks m dps) by (by rewrite (queues_part_blocks Q), (queues_part_blocks Q')).
  assert (G : forall ps p r, (forall dp, dp ∈ ps -> part_ok info dp) -> take_part m ps = Some (p, r) -> part_ok info p /\ part_number p = m /\ part_blocks m ps = qblocks p).
  { intros ps p r Ok E. unfold part_blocks. rewrite E. apply take_part_Some in E as (l1 & l2 & -> & _ & En). split; [apply Ok; set_solver|done]. }
  assert (N : forall p, part_ok info p -> qblocks p <> []) by (intros p (_ & _ & Hne & _) Hq; by apply fmap_nil_inv in Hq).
  destruct (take_part m dps') as [[p' r']|] eqn:E', (take_part m dps) as [[p r]|] eqn:E; cbn; [| | |done].
  - destruct (G _ _ _ (qo_parts _ _ _ _ Q) E) as (Ok & Em & Eb), (G _ _ _ (qo_parts _ _ _ _ Q') E') as (Ok' & Em' & Eb'). rewrite Eb, Eb' in Pm.
    destruct Ok as (S & L & _), Ok' as (S' & L' & _). split; [congruence|]. split; [done|]. rewrite S, S', L, L'. split; [by apply lensum_perm|]. apply Permutation_length in Pm. unfold qblocks in Pm. rewrite !length_fmap in Pm. lia.
  - destruct (G _ _ _ (qo_parts _ _ _ _ Q') E') as (Ok' & _ & Eb'). rewrite Eb' in Pm. unfold part_blocks in Pm. rewrite E in Pm. apply Permutation_nil_r in Pm. by apply (N p').
  - destruct (G _ _ _ (qo_parts _ _ _ _ Q) E) as (Ok & _ & Eb). rewrite Eb in Pm. unfold part_blocks in Pm. rewrite E' in Pm. symmetry in Pm. apply Permutation_nil_r in Pm. by apply (N p).
Qed.

(** C5: a disk comes back from its header: when a disk that is opened again reads the header
    that was in memory, it does not clear the disk, its header is that header, the same
    blocks of the array are free, with the same free space, and for every number it has the
    partition that was in memory, with the same blocks (so at the same places of the disk),
    size and count of blocks, or none if there was none; and it is well formed. *)
Theorem disk_recovery d d0 max start_done : disk_inv d -> magic (header d) = DISK_HEADER_MAGIC ->
  start d0 = start d -> num_usable_blocks d0 = num_usable_blocks d -> num_blocks (header d) = dlen d0 ->
  let d' := (openStart max true start_done (header d) d0).1 in
  disk_inv d' /\ header d' = header d /\ cleared d' = false /\ qblocks (free_blocks d') ≡ₚ qblocks (free_blocks d) /\ free_space d' = free_space d /\
  forall m, same_part (get_diskpart m d') (get_diskpart m d).
Proof.
  intros I Hm Hs Hu Hl. set (d1 := set_cleared (set_alloc d0 (header d) (free_space d) (wasted_space d0) (disk_parts d) (free_blocks d)) false).
  assert (I1 : disk_inv d1) by (destruct I; constructor; cbn; rewrite ?Hs, ?Hu; done). destruct (update_header_inv d1 I1) as [I' Eh].
  assert (Ed : exists hd, (openStart max true start_done (header d) d0).1 = set_handler (update_header d1) hd).
  { unfold openStart. cbn [negb]. rewrite Hm, Hl, !Z.eqb_refl. cbn [negb orb]. rewrite (recovered_from d1 (set_cleared (set_alloc d0 (header d) (free_space d0) (wasted_space d0) (disk_parts d0) (free_blocks d0)) false)) by done.
    unfold openDone. destruct start_done; cbn [fst]; by eexists. }
  destruct Ed as [hd Ed]. cbv zeta. rewrite Ed. clear Ed. pose proof (inv_queues _ I) as Q. pose proof (inv_queues _ I') as Q'.
  assert (En : nblks (update_header d1) = nblks d) by (unfold nblks; by rewrite Eh). rewrite Eh, En in Q'. change (header d1) with (header d) in *.
  split; [by destruct I'; constructor|]. cbn [header set_handler free_blocks free_space disk_parts cleared get_diskpart]. split; [done|]. split; [by rewrite update_cleared|].
  split; [by rewrite (queues_free Q), (queues_free Q')|]. split.
  - destruct (di_fsize _ I) as [-> _], (di_fsize _ I') as [-> _]. rewrite Eh. apply lensum_perm. by rewrite (queues_free Q), (queues_free Q').
  - intros m. by apply (queues_same (part_info (header d)) (nblks d) (free_blocks d) _ (free_blocks (update_header d1))).
Qed.

(** A disk with the partitions 3, of two blocks that are not next to each other, and 5, and
    a free block. *)
Definition recovery_disk : CacheDisk := (create_partition 3 16384 1 (create_partition 5 16384 1 (create_partition 3 20000 1 (open 90000 0 true 0).1).1).1).1.

Lemma recovery_disk_inv : disk_inv recovery_disk.
Proof.
  assert (G : forall d number size, disk_inv d -> 0 <= number < 2 ^ 16 -> blocks_per_part <= size < 2 ^ 32 -> dpb_queue (free_blocks d) <> [] -> disk_inv (create_partition number size 1 d).1).
  { intros d number size I Hn Hs Hq. destruct (create_created d number size 1 I Hn Hs Hq) as (d' & q & s & -> & Hq' & Ch & Cr). by apply (created_inv d number size 1 q s d'). }
  unfold recovery_disk. apply G; [apply G; [apply G| |unfold blocks_per_part; lia|vm_compute; discriminate]| |unfold blocks_per_part; lia|vm_compute; discriminate]; [|lia|unfold blocks_per_part; lia|vm_compute; discriminate|lia|lia].
  destruct (open_geometry 90000 0 true 0) as (G1 & G2 & G3 & ->); [unfold blocks_per_part; lia|lia|]. apply (delete_all_inv (set_handler (open 90000 0 false 0).1 clearDone_h) G1 G2 G3).
Qed.

Lemma disk_recovery_witness : let d' := (openStart 5 true true (header recovery_disk) (open 90000 0 false 0).1).1 in
  qblocks <$> get_diskpart 3 recovery_disk = Some [0; 2]%nat /\ same_part (get_diskpart 3 d') (get_diskpart 3 recovery_disk) /\
  qblocks <$> get_diskpart 5 recovery_disk = Some [1]%nat /\ same_part (get_diskpart 5 d') (get_diskpart 5 recovery_disk) /\ same_part (get_diskpart 4 d') None /\
  qblocks (free_blocks recovery_disk) = [3%nat] /\ qblocks (free_blocks d') ≡ₚ [3%nat].
Proof.
  destruct (disk_recovery recovery_disk (open 90000 0 false 0).1 5 true recovery_disk_inv ltac:(by vm_compute) ltac:(by vm_compute) ltac:(by vm_compute) ltac:(by vm_compute)) as (_ & _ & _ & F & _ & P). cbv zeta.
  split; [by vm_compute|]. split; [exact (P 3)|]. split; [by vm_compute|]. split; [exact (P 5)|]. split; [exact (P 4)|]. split; [by vm_compute|exact F].
Defined.

(** The length of a block has 26 bits, so clearing a disk of 2^26 store
    blocks (512 GB) or more records the usable space modulo 2^26: the rest of
    the disk is lost, although a partition may be up to 512 TB. *)
Theorem disk_clear_truncates d : (0 < length (part_info (header d)))%nat ->
  free_space (delete_all_partitions d) = num_usable_blocks d mod 2 ^ 26.
Proof.
  intros H. unfold delete_all_partitions, update_header. cbv zeta.
  cbn [header set_alloc set_cleared part_info num_diskpart_blks]. change (Z.to_nat 1) with 1%nat. cbn [seq foldl].
  rewrite list_lookup_total_insert_eq by done. reflexivity.
Qed.

Lemma disk_clear_truncates_witness :
  let d := (open (2 ^ 26 + 100) 0 false 0).1 in
  num_usable_blocks d = 2 ^ 26 + 89 /\ free_space (delete_all_partitions d) = 89.
Proof.
  intros d. assert (E : num_usable_blocks d = 2 ^ 26 + 89) by (vm_compute; reflexivity).
  split; [exact E|]. unfold d. rewrite disk_clear_truncates; [fold d; rewrite E; reflexivity|vm_compute; lia].
Defined.

(** When every free block is shorter than 128 MB and than the request, the
    longest is handed out as a partition block of length 0, and its space is
    lost. *)
Theorem disk_create_zero_length d number size scheme q0 qs :
  dpb_queue (free_blocks d) = q0 :: qs -> 0 < size < 2 ^ 32 ->
  (forall q, q ∈ q0 :: qs -> (q_b q < length (part_info (header d)))%nat /\
     0 <= q_len (part_info (header d)) q < Z.min size blocks_per_part) ->
  exists d' i, create_partition number size scheme d = (d', Some i) /\
    dpb_len (part_info (header d') !!! i) = 0 /\
    free_space d' = free_space d - dpb_len (part_info (header d) !!! i).
Proof.
  intros Eq Hs Hq. unfold create_partition. rewrite Eq, (proj2 (Z.eqb_neq size 0)) by lia.
  change (Z.shiftr MAX_PART_SIZE STORE_BLOCK_SHIFT) with (2 ^ 36). rewrite (proj2 (Z.leb_le size (2 ^ 36))) by lia.
  destruct (fit (part_info (header d)) size (q0 :: qs) q0) as [q found] eqn:Ef. apply fit_spec in Ef as [Hin Hfit].
  assert (Hqin : q ∈ q0 :: qs) by (apply elem_of_cons in Hin as [->|?]; [left|done]).
  destruct (Hq q Hqin) as [Hlt HL]. unfold q_len in HL. rewrite (wrapu32_id size) in Hfit by lia.
  destruct found; [destruct Hfit as [_ Hf]; unfold q_len in Hf; lia|].
  set (p := part_info (header d) !!! q_b q) in *.
  rewrite (Z.mod_small (dpb_len p)) by (unfold blocks_per_part in *; lia). rewrite Z.sub_diag.
  assert (Hi : i32 (dpb_len p - 0) = dpb_len p) by (rewrite wraps_id; unfold blocks_per_part in *; lia).
  rewrite Hi, Z.geb_leb, (proj2 (Z.leb_gt _ _)) by (unfold blocks_per_part in *; lia).
  destruct (add_to_part _ _ _ _) as [dps new]. eexists _, _. split; [reflexivity|].
  cbn [header set_alloc set_counts set_info part_info free_space]. by rewrite list_lookup_total_insert_eq.
Qed.

Lemma disk_create_zero_length_witness : exists d' i,
  create_partition 1 200 1 (open 100 0 true 0).1 = (d', Some i) /\ dpb_len (part_info (header d') !!! i) = 0.
Proof.
  destruct (disk_create_zero_length (open 100 0 true 0).1 1 200 1 (mkQ 0 false) []) as (d' & i & E & H & _).
  - reflexivity.
  - lia.
  - intros q Hq. apply list_elem_of_singleton in Hq as ->. vm_compute. split; [lia|split; congruence].
  - exists d', i. split; [exact E|exact H].
Defined.
