(* ===== verification/OpenDir.v ===== *)
(** The table of documents open for writing ([OpenDir] in
    [iocore/cache/CacheDir.cc] and [P_CacheDir.h]): the writers of a document,
    the readers that wait for them, and the queue of readers to be woken.

    A [CacheVC *] and an [OpenDirEntry *] are identifiers; [vcs] and [ods] are
    the objects behind them.  The handler of a woken reader belongs to the read
    path; here waking it is an output of the operation. *)

From S2P Require Import Prelude DirEntry.

Definition OPEN_DIR_BUCKETS : Z := 256.

(** The fields of a [CacheVC] the table uses. *)
Record CacheVC := mkVC { first_key : CacheKey; vc_od : option nat; open_read_timeout : bool }.

#[global] Instance CacheKey_inhabited : Inhabited CacheKey := populate (mkKey 0 0 0 0).
#[global] Instance CacheVC_inhabited : Inhabited CacheVC := populate (mkVC inhabitant None false).

Record OpenDirEntry := mkOD {
  writers : list nat;
  readers : list nat;
  num_writers : Z;     (* inku16 *)
  max_writers : Z;     (* inku16 *)
  od_first_dir : Dir;
  dont_update_directory : bool;
  move_resident_alt : bool;
  reading_vec : bool;
  writing_vec : bool
}.

Record OpenDir := mkOpenDir {
  bucket : list (list nat);
  delayed_readers : list nat;
  ods : gmap nat OpenDirEntry;
  vcs : gmap nat CacheVC;
  next_od : nat                        (* the next address the allocator returns *)
}.

Definition od_bucket (key : CacheKey) : nat := Z.to_nat (kw0 key mod OPEN_DIR_BUCKETS).

Definition vc (s : OpenDir) (c : nat) : CacheVC := vcs s !!! c.

(** [d->writers.head->first_key == key]. *)
Definition od_matches (s : OpenDir) (key : CacheKey) (d : nat) : bool :=
  match ods s !! d with
  | Some e => match writers e with w :: _ => bool_decide (first_key (vc s w) = key) | [] => false end
  | None => false
  end.

Definition set_od (c : CacheVC) (o : option nat) : CacheVC := mkVC (first_key c) o (open_read_timeout c).
Definition set_timeout (c : CacheVC) (b : bool) : CacheVC := mkVC (first_key c) (vc_od c) b.
Definition set_writers (e : OpenDirEntry) (w : list nat) (n : Z) : OpenDirEntry :=
  mkOD w (readers e) n (max_writers e) (od_first_dir e) (dont_update_directory e) (move_resident_alt e)
    (reading_vec e) (writing_vec e).
Definition set_readers (e : OpenDirEntry) (r : list nat) : OpenDirEntry :=
  mkOD (writers e) r (num_writers e) (max_writers e) (od_first_dir e) (dont_update_directory e)
    (move_resident_alt e) (reading_vec e) (writing_vec e).

(** ** Operations *)

Definition open_write (cont : nat) (allow_if_writers : bool) (max_w : Z) (s : OpenDir) : OpenDir * Z :=
  let key := first_key (vc s cont) in
  let b := od_bucket key in
  match head (filter (fun d => od_matches s key d = true) (bucket s !!! b)) with
  | Some d =>
    match ods s !! d with
    | Some e =>
      if allow_if_writers && (num_writers e <? max_writers e) then
        (mkOpenDir (bucket s) (delayed_readers s)
           (<[d := set_writers e (cont :: writers e) (u16 (num_writers e + 1))]> (ods s))
           (alter (fun c => set_od c (Some d)) cont (vcs s)) (next_od s), 1)
      else (s, 0)
    | None => (s, 0)
    end
  | None =>
    let od := next_od s in
    let e := mkOD [cont] [] 1 (u16 max_w) dir_clear false false false false in
    (mkOpenDir (alter (cons od) b (bucket s)) (delayed_readers s) (<[od := e]> (ods s))
       (alter (fun c => set_od c (Some od)) cont (vcs s)) (S od), 1)
  end.

(** What the lock of a reader's mutex does: held by another thread, taken, or
    missed. *)
Inductive lock_result := OtherThread | Locked | Missed.

(** The loop of [signal_readers]: the readers woken, and the new queue. *)
Fixpoint signal_go (lock : nat -> lock_result) (queue newly woken : list nat) : list nat * list nat :=
  match queue with
  | [] => (newly, woken)
  | c :: queue' =>
    match lock c with
    | OtherThread => signal_go lock queue' (newly ++ [c]) woken
    | Locked => signal_go lock queue' newly (woken ++ [c])
    | Missed => signal_go lock queue' (c :: newly) woken
    end
  end.

(** The third result is whether the event is scheduled again. *)
Definition signal_readers (lock : nat -> lock_result) (s : OpenDir) : OpenDir * list nat * bool :=
  let '(newly, woken) := signal_go lock (delayed_readers s) [] [] in
  (mkOpenDir (bucket s) newly (ods s)
     (foldl (fun m c => alter (fun x => set_timeout x false) c m) (vcs s) woken) (next_od s),
   woken, match newly with [] => false | _ => true end).

Definition close_write (lock : nat -> lock_result) (cont : nat) (s : OpenDir) : OpenDir * list nat :=
  match vc_od (vc s cont) ≫= fun d => e ← ods s !! d; Some (d, e) with
  | None => (s, [])
  | Some (d, e) =>
    let e1 := set_writers e (filter (fun w => w <> cont) (writers e)) (u16 (num_writers e - 1)) in
    let s1 := mkOpenDir (bucket s) (delayed_readers s) (<[d := e1]> (ods s)) (vcs s) (next_od s) in
    let '(s2, woken) :=
      match writers e1 with
      | [] =>
        let b := od_bucket (first_key (vc s cont)) in
        let s' := mkOpenDir (alter (filter (fun x => x <> d)) b (bucket s1)) (delayed_readers s1 ++ readers e1)
                    (ods s1) (vcs s1) (next_od s1) in
        let '(s'', w, _) := signal_readers lock s' in
        (mkOpenDir (bucket s'') (delayed_readers s'') (delete d (ods s'')) (vcs s'') (next_od s''), w)
      | _ => (s1, [])
      end in
    (mkOpenDir (bucket s2) (delayed_readers s2) (ods s2) (alter (fun c => set_od c None) cont (vcs s2)) (next_od s2),
     woken)
  end.

Definition open_read (key : CacheKey) (s : OpenDir) : option nat :=
  head (filter (fun d => od_matches s key d = true) (bucket s !!! od_bucket key)).

Definition wait (d cont : nat) (s : OpenDir) : OpenDir :=
  mkOpenDir (bucket s) (delayed_readers s) (alter (fun e => set_readers e (cont :: readers e)) d (ods s))
    (alter (fun c => set_timeout c true) cont (vcs s)) (next_od s).

Definition has_multiple_writers (e : OpenDirEntry) : bool := num_writers e >? 1.

(** ** Invariant *)

Record entry_ok (s : OpenDir) (d : nat) (e : OpenDirEntry) : Prop := {
  eo_writers : writers e <> [];
  eo_nodup : NoDup (writers e);
  eo_count : num_writers e = Z.of_nat (length (writers e));
  eo_limit : 0 <= max_writers e < 2 ^ 16 /\ num_writers e <= Z.max 1 (max_writers e);
  eo_owned : forall w, w ∈ writers e -> exists c, vcs s !! w = Some c /\ vc_od c = Some d
}.

(** The key all the writers of an entry have. *)
Definition entry_key (s : OpenDir) (d : nat) (key : CacheKey) : Prop :=
  exists e, ods s !! d = Some e /\ forall w, w ∈ writers e -> first_key (vc s w) = key.

(** Every entry is in the bucket of its key and in no other, its writers are
    the [CacheVC]s that point to it and agree on the key, and no key has two
    entries. *)
Record od_inv (s : OpenDir) : Prop := {
  oi_buckets : length (bucket s) = Z.to_nat OPEN_DIR_BUCKETS;
  oi_entry : forall d e, ods s !! d = Some e -> entry_ok s d e;
  oi_key : forall d, is_Some (ods s !! d) -> exists key, entry_key s d key;
  oi_bucket : forall b l d, bucket s !! b = Some l -> d ∈ l <-> exists key, entry_key s d key /\ od_bucket key = b;
  oi_unique : forall d d' key, entry_key s d key -> entry_key s d' key -> d = d';
  oi_fresh : forall d, is_Some (ods s !! d) -> (d < next_od s)%nat;
  oi_od : forall c x d, vcs s !! c = Some x -> vc_od x = Some d -> exists e, ods s !! d = Some e /\ c ∈ writers e
}.

(** The writers a key has. *)
Definition writers_of (key : CacheKey) (s : OpenDir) : list nat :=
  match open_read key s with Some d => match ods s !! d with Some e => writers e | None => [] end | None => [] end.

(** ** Lookup *)

Section inv.
Variable s : OpenDir.
Hypothesis I : od_inv s.

Lemma matches_key key d : od_matches s key d = true <-> entry_key s d key.
Proof.
  unfold od_matches, entry_key. split.
  - destruct (ods s !! d) as [e|] eqn:E; [|done]. destruct (writers e) as [|w ws] eqn:Ew; [done|].
    rewrite bool_decide_eq_true. intros Hk. destruct (oi_key _ I d) as (key0 & e' & E' & H); [by rewrite E|].
    rewrite E in E'. simplify_eq. exists e'. split; [done|].
    assert (Hw : w ∈ writers e') by (rewrite Ew; left). by rewrite (H w Hw).
  - intros (e & E & H). destruct (oi_entry _ I d e E) as [Hne _ _ _ _]. rewrite E.
    destruct (writers e) as [|w ws]; [done|]. apply bool_decide_eq_true, H. left.
Qed.

Lemma od_bucket_lookup key : exists l, bucket s !! od_bucket key = Some l.
Proof.
  apply lookup_lt_is_Some. rewrite (oi_buckets _ I). unfold od_bucket, OPEN_DIR_BUCKETS.
  pose proof (Z.mod_pos_bound (kw0 key) 256 ltac:(lia)). lia.
Qed.

(** A key is found exactly when an entry has it. *)
Lemma open_read_spec key d : open_read key s = Some d <-> entry_key s d key.
Proof.
  unfold open_read. destruct (od_bucket_lookup key) as [l Hl]. rewrite (list_lookup_total_correct _ _ _ Hl).
  assert (Hin : forall x, x ∈ filter (fun d => od_matches s key d = true) l <-> entry_key s x key).
  { intros x. rewrite list_elem_of_filter, matches_key, (oi_bucket _ I _ _ x Hl). split; [tauto|]. eauto. }
  split.
  - intros Hh. apply Hin. destruct (filter _ l) as [|y ys]; [done|]. injection Hh as ->. left.
  - intros Hk. pose proof (proj2 (Hin d) Hk) as Hd. destruct (filter _ l) as [|y ys]; [by apply elem_of_nil in Hd|].
    simpl. f_equal. apply (oi_unique _ I y d key); [|done]. apply Hin. left.
Qed.

Lemma open_read_None key : open_read key s = None <-> forall d, ~ entry_key s d key.
Proof.
  split.
  - intros H d Hk. apply open_read_spec in Hk. congruence.
  - intros H. destruct (open_read key s) as [d|] eqn:E; [|done]. by apply open_read_spec, H in E.
Qed.
End inv.

(** ** Updates that keep the keys *)

Lemma vc_alter m c f c' : (forall x, first_key (f x) = first_key x) ->
  first_key ((alter f c m : gmap nat CacheVC) !!! c') = first_key (m !!! c').
Proof.
  intros Hf. rewrite !lookup_total_alt. destruct (decide (c = c')) as [->|Hne].
  - rewrite lookup_alter_eq. by destruct (m !! c'); simpl.
  - by rewrite lookup_alter_ne.
Qed.

Lemma vc_fold (woken : list nat) m c' :
  first_key ((foldl (fun m c => alter (fun x => set_timeout x false) c m) m woken : gmap nat CacheVC) !!! c') =
  first_key (m !!! c').
Proof.
  revert m. induction woken as [|c l IH]; intros m; [done|]. cbn [foldl]. rewrite IH. by apply vc_alter.
Qed.

(** Clearing the timeout flags keeps who points where. *)
Lemma fold_od (woken : list nat) m c x :
  (foldl (fun m c => alter (fun x => set_timeout x false) c m) m woken : gmap nat CacheVC) !! c = Some x ->
  exists x', m !! c = Some x' /\ vc_od x = vc_od x'.
Proof.
  revert m. induction woken as [|c0 l IH]; intros m; cbn [foldl]; [eauto|]. intros H.
  destruct (IH _ H) as (x' & Hx & E). destruct (decide (c0 = c)) as [->|Hne].
  - rewrite lookup_alter_eq in Hx. destruct (m !! c) as [y|]; simplify_eq/=. eauto.
  - rewrite lookup_alter_ne in Hx by done. eauto.
Qed.

Lemma fold_od_back (woken : list nat) m c x : m !! c = Some x -> exists x',
  (foldl (fun m c => alter (fun x => set_timeout x false) c m) m woken : gmap nat CacheVC) !! c = Some x' /\ vc_od x' = vc_od x.
Proof.
  revert m x. induction woken as [|c0 l IH]; intros m x H; cbn [foldl]; [eauto|].
  destruct (decide (c0 = c)) as [->|Hne].
  - destruct (IH (alter (fun x => set_timeout x false) c m) (set_timeout x false)) as (x' & H1 & H2); [|eauto].
    by rewrite lookup_alter_eq, H.
  - apply IH. by rewrite lookup_alter_ne.
Qed.

(** Every reader queued is woken or queued again, none twice. *)
Lemma signal_go_perm lock queue newly woken : let r := signal_go lock queue newly woken in
  r.1 ++ r.2 ≡ₚ newly ++ woken ++ queue.
Proof.
  revert newly woken. induction queue as [|c queue IH]; intros newly woken; cbn [signal_go]; cbv zeta.
  - cbn [fst snd]. by rewrite app_nil_r.
  - destruct (lock c); rewrite IH; solve_Permutation.
Qed.

(** ** Opening for writing *)

Definition joined (s : OpenDir) (d : nat) (e : OpenDirEntry) (cont : nat) : OpenDir :=
  mkOpenDir (bucket s) (delayed_readers s)
    (<[d := set_writers e (cont :: writers e) (u16 (num_writers e + 1))]> (ods s))
    (alter (fun c => set_od c (Some d)) cont (vcs s)) (next_od s).

Lemma set_od_lookup (m : gmap nat CacheVC) cont o c x : m !! c = Some x ->
  exists x', alter (fun y => set_od y o) cont m !! c = Some x' /\ vc_od x' = if decide (c = cont) then o else vc_od x.
Proof.
  intros H. destruct (decide (c = cont)) as [->|Hne].
  - rewrite lookup_alter_eq, H. simpl. eauto.
  - rewrite lookup_alter_ne by done. eauto.
Qed.

Lemma set_od_inv (m : gmap nat CacheVC) cont o c x' : alter (fun y => set_od y o) cont m !! c = Some x' ->
  exists x, m !! c = Some x /\ vc_od x' = if decide (c = cont) then o else vc_od x.
Proof.
  destruct (decide (c = cont)) as [->|Hne].
  - rewrite lookup_alter_eq. destruct (m !! cont) as [x|]; [|done]. simpl. intros [= <-]. eauto.
  - rewrite lookup_alter_ne by done. eauto.
Qed.

Lemma joined_inv s d e cont x : od_inv s -> ods s !! d = Some e -> vcs s !! cont = Some x -> vc_od x = None ->
  entry_key s d (first_key x) -> num_writers e < max_writers e ->
  od_inv (joined s d e cont) /\ forall d' k, entry_key (joined s d e cont) d' k <-> entry_key s d' k.
Proof.
  intros I He Hc Hno Hkey Hlt. destruct (oi_entry _ I d e He) as [E1 E2 E3 E4 E5].
  assert (Hx : first_key (vc s cont) = first_key x) by (unfold vc; by rewrite (lookup_total_correct _ _ _ Hc)).
  assert (Hnin : cont ∉ writers e).
  { intros Hin. destruct (E5 cont Hin) as (c & H1 & H2). congruence. }
  assert (Hvc : forall c, first_key (vc (joined s d e cont) c) = first_key (vc s c)) by (intros c; unfold vc; cbn [vcs joined]; by apply vc_alter).
  assert (Hk : forall d' k, entry_key (joined s d e cont) d' k <-> entry_key s d' k).
  { intros d' k. unfold entry_key. cbn [ods joined]. destruct (decide (d = d')) as [<-|Hne].
    - rewrite lookup_insert_eq. split.
      + intros (e' & [= <-] & H). exists e. split; [done|]. intros w Hw. rewrite <- Hvc. apply H. by right.
      + intros (e' & He' & H). rewrite He in He'. injection He' as <-. eexists. split; [done|]. intros w Hw. rewrite Hvc.
        apply elem_of_cons in Hw as [->|Hw]; [|by apply H]. destruct Hkey as (e2 & He2 & H2).
        rewrite He in He2. injection He2 as <-.
        destruct (writers e) as [|w0 ws]; [done|]. rewrite Hx, <- (H2 w0) by left. apply H. left.
    - rewrite lookup_insert_ne by done. split; intros (e' & H1 & H2); exists e'; (split; [done|]); intros w Hw;
        specialize (H2 w Hw); by rewrite Hvc in *. }
  split; [|done]. constructor.
  - apply (oi_buckets _ I).
  - intros d' e'. cbn [ods joined]. intros [[<- <-]|[Hne He']]%lookup_insert_Some.
    + constructor; cbn [writers num_writers max_writers set_writers]; [done|by constructor| |rewrite wrapu_id by lia; lia|].
      * rewrite wrapu_id by lia. cbn [length]. lia.
      * cbn [vcs joined]. intros w [->|Hw]%elem_of_cons.
        -- destruct (set_od_lookup (vcs s) cont (Some d) cont x Hc) as (x' & -> & H). rewrite decide_True in H by done. eauto.
        -- destruct (E5 w Hw) as (c & H1 & H2). destruct (set_od_lookup (vcs s) cont (Some d) w c H1) as (x' & -> & H).
           rewrite decide_False in H by (by intros ->). exists x'. split; [done|congruence].
    + destruct (oi_entry _ I d' e' He') as [F1 F2 F3 F4 F5]. constructor; try done. cbn [vcs joined]. intros w Hw.
      destruct (F5 w Hw) as (c & H1 & H2). destruct (set_od_lookup (vcs s) cont (Some d) w c H1) as (x' & -> & H).
      assert (w <> cont) by (intros ->; congruence). rewrite decide_False in H by done. exists x'. split; [done|congruence].
  - intros d'. cbn [ods joined]. intros Hs. destruct (oi_key _ I d') as [k Hk']; [|exists k; by apply Hk].
    destruct (decide (d = d')) as [<-|Hne]; [by rewrite He|by rewrite lookup_insert_ne in Hs].
  - intros b l d' Hb. rewrite (oi_bucket _ I b l d' Hb). by setoid_rewrite Hk.
  - intros d1 d2 k H1 H2. apply Hk in H1, H2. by apply (oi_unique _ I d1 d2 k).
  - intros d'. cbn [ods joined next_od]. intros Hs. apply (oi_fresh _ I).
    destruct (decide (d = d')) as [<-|Hne]; [by rewrite He|by rewrite lookup_insert_ne in Hs].
  - intros c x' d'. cbn [vcs joined ods]. intros Hc' Hod. apply set_od_inv in Hc' as (x0 & H0 & Ho). rewrite Ho in Hod.
    destruct (decide (c = cont)) as [->|Hne].
    + simplify_eq. rewrite lookup_insert_eq. eexists. split; [done|left].
    + destruct (oi_od _ I c x0 d' H0 Hod) as (e' & He' & Hin). destruct (decide (d = d')) as [<-|Hne'].
      * rewrite lookup_insert_eq. simplify_eq. eexists. split; [done|by right].
      * rewrite lookup_insert_ne by done. eauto.
Qed.

Definition opened (s : OpenDir) (key : CacheKey) (cont : nat) (max_w : Z) : OpenDir :=
  mkOpenDir (alter (cons (next_od s)) (od_bucket key) (bucket s)) (delayed_readers s)
    (<[next_od s := mkOD [cont] [] 1 (u16 max_w) dir_clear false false false false]> (ods s))
    (alter (fun c => set_od c (Some (next_od s))) cont (vcs s)) (S (next_od s)).

Lemma opened_inv s cont x max_w : od_inv s -> vcs s !! cont = Some x -> vc_od x = None ->
  (forall d, ~ entry_key s d (first_key x)) ->
  let s' := opened s (first_key x) cont max_w in
  od_inv s' /\ forall d k, entry_key s' d k <-> (d = next_od s /\ k = first_key x) \/ entry_key s d k.
Proof.
  intros I Hc Hno Hnone s'.
  assert (Hfresh : ods s !! next_od s = None).
  { destruct (ods s !! next_od s) eqn:E; [|done]. pose proof (oi_fresh _ I (next_od s)) as H. rewrite E in H.
    specialize (H ltac:(eauto)). lia. }
  assert (Hx : first_key (vc s cont) = first_key x) by (unfold vc; by rewrite (lookup_total_correct _ _ _ Hc)).
  assert (Hvc : forall c, first_key (vc s' c) = first_key (vc s c)) by (intros c; unfold vc; cbn [vcs s' opened]; by apply vc_alter).
  assert (Hk : forall d k, entry_key s' d k <-> (d = next_od s /\ k = first_key x) \/ entry_key s d k).
  { intros d k. unfold entry_key. cbn [ods s' opened]. destruct (decide (next_od s = d)) as [<-|Hne].
    - rewrite lookup_insert_eq, Hfresh. split.
      + intros (e & [= <-] & H). left. split; [done|]. rewrite <- (H cont) by left. by rewrite Hvc.
      + intros [[_ ->]|(e & H & _)]; [|done]. eexists. split; [done|]. intros w Hw.
        apply list_elem_of_singleton in Hw as ->. by rewrite Hvc.
    - rewrite lookup_insert_ne by done. setoid_rewrite Hvc. split; [by right|].
      intros [[? _]|H]; [congruence|done]. }
  split; [|done]. constructor.
  - cbn [bucket s' opened]. by rewrite length_alter, (oi_buckets _ I).
  - intros d e. cbn [ods s' opened]. intros [[<- <-]|[Hne He]]%lookup_insert_Some.
    + constructor; cbn [writers num_writers max_writers]; [done|apply NoDup_singleton|done| |].
      * pose proof (wrapu_range 16 max_w ltac:(lia)). lia.
      * cbn [vcs s' opened]. intros w Hw. apply list_elem_of_singleton in Hw as ->.
        destruct (set_od_lookup (vcs s) cont (Some (next_od s)) cont x Hc) as (x' & -> & H).
        rewrite decide_True in H by done. eauto.
    + destruct (oi_entry _ I d e He) as [F1 F2 F3 F4 F5]. constructor; try done. cbn [vcs s' opened]. intros w Hw.
      destruct (F5 w Hw) as (c & H1 & H2). destruct (set_od_lookup (vcs s) cont (Some (next_od s)) w c H1) as (x' & -> & H).
      assert (w <> cont) by (intros ->; congruence). rewrite decide_False in H by done. exists x'. split; [done|congruence].
  - intros d. cbn [ods s' opened]. intros Hs. destruct (decide (next_od s = d)) as [<-|Hne].
    + exists (first_key x). apply Hk. by left.
    + rewrite lookup_insert_ne in Hs by done. destruct (oi_key _ I d Hs) as [k H]. exists k. apply Hk. by right.
  - intros b l d. cbn [bucket s' opened]. intros Hb. setoid_rewrite Hk.
    assert (Hold : ~ exists k, entry_key s (next_od s) k) by (intros (k & e & H & _); congruence).
    destruct (decide (od_bucket (first_key x) = b)) as [<-|Hne].
    + destruct (od_bucket_lookup s I (first_key x)) as [l0 Hl0]. rewrite list_lookup_alter_eq, Hl0 in Hb. injection Hb as <-.
      rewrite elem_of_cons, (oi_bucket _ I _ _ d Hl0). split.
      * intros [->|(k & H1 & H2)]; eauto 6.
      * intros (k & [[-> ->]|H] & H2); eauto.
    + rewrite list_lookup_alter_ne in Hb by done. rewrite (oi_bucket _ I _ _ d Hb). split.
      * intros (k & H1 & H2). eauto.
      * intros (k & [[-> ->]|H] & H2); [done|eauto].
  - intros d1 d2 k H1 H2. apply Hk in H1, H2. destruct H1 as [[-> ->]|H1], H2 as [[-> H2]|H2]; [done| | |].
    + by apply Hnone in H2.
    + rewrite H2 in H1. by apply Hnone in H1.
    + by apply (oi_unique _ I d1 d2 k).
  - intros d. cbn [ods s' opened next_od]. intros Hs. destruct (decide (next_od s = d)) as [<-|Hne]; [lia|].
    rewrite lookup_insert_ne in Hs by done. pose proof (oi_fresh _ I d Hs). lia.
  - intros c x' d. cbn [vcs s' opened ods]. intros Hc' Hod. apply set_od_inv in Hc' as (x0 & H0 & Ho). rewrite Ho in Hod.
    destruct (decide (c = cont)) as [->|Hne].
    + injection Hod as <-. rewrite lookup_insert_eq. eexists. split; [done|left].
    + destruct (oi_od _ I c x0 d H0 Hod) as (e & He & Hin). rewrite lookup_insert_ne by congruence. eauto.
Qed.

(** ** Closing *)

(** The table after a writer of [d] left, [m] the [CacheVC]s at that time. *)
Definition left_ (s : OpenDir) (d : nat) (e : OpenDirEntry) (cont : nat) : OpenDir :=
  mkOpenDir (bucket s) (delayed_readers s)
    (<[d := set_writers e (filter (fun w => w <> cont) (writers e)) (u16 (num_writers e - 1))]> (ods s))
    (alter (fun c => set_od c None) cont (vcs s)) (next_od s).

Lemma filter_out_length (l : list nat) c : c ∈ l -> NoDup l -> S (length (filter (fun w => w <> c) l)) = length l.
Proof.
  intros Hin Hn. induction l as [|x l IH]; [by apply elem_of_nil in Hin|]. apply NoDup_cons in Hn as [Hni Hn].
  destruct (decide (x = c)) as [->|Hne].
  - rewrite filter_cons_False by (intros H; by apply H). cbn [length]. f_equal.
    assert (filter (fun w => w <> c) l = l) as ->; [|done]. clear -Hni. induction l as [|y l IH]; [done|].
    apply not_elem_of_cons in Hni as [H1 H2]. rewrite filter_cons_True by congruence. by rewrite IH.
  - rewrite filter_cons_True by done. cbn [length]. rewrite IH; [done| |done].
    apply elem_of_cons in Hin as [->|?]; done.
Qed.

Lemma left_inv s d e cont x : od_inv s -> vcs s !! cont = Some x -> vc_od x = Some d -> ods s !! d = Some e ->
  filter (fun w => w <> cont) (writers e) <> [] ->
  od_inv (left_ s d e cont) /\ forall d' k, entry_key (left_ s d e cont) d' k <-> entry_key s d' k.
Proof.
  intros I Hc Hod He Hne. destruct (oi_entry _ I d e He) as [E1 E2 E3 E4 E5].
  destruct (oi_od _ I cont x d Hc Hod) as (e1 & He1 & Hin). rewrite He in He1. injection He1 as <-.
  pose proof (filter_out_length (writers e) cont Hin E2) as Hlen.
  assert (Hvc : forall c, first_key (vc (left_ s d e cont) c) = first_key (vc s c)) by (intros c; unfold vc; cbn [vcs left_]; by apply vc_alter).
  assert (Hk : forall d' k, entry_key (left_ s d e cont) d' k <-> entry_key s d' k).
  { intros d' k. unfold entry_key. cbn [ods left_]. setoid_rewrite Hvc. destruct (decide (d = d')) as [<-|Hned].
    - rewrite lookup_insert_eq. split.
      + intros (e' & [= <-] & H). cbn [writers set_writers] in H.
        destruct (oi_key _ I d) as (k0 & e0 & He0 & H0); [by rewrite He|]. rewrite He in He0. injection He0 as <-.
        exists e. split; [done|]. destruct (filter _ (writers e)) as [|w0 ws] eqn:Ef; [done|].
        assert (Hw0 : w0 ∈ writers e).
        { assert (Hf : w0 ∈ filter (fun w => w <> cont) (writers e)) by (rewrite Ef; left). by apply list_elem_of_filter in Hf as [_ ?]. }
        assert (k = k0) as -> by (rewrite <- (H w0) by left; by apply H0). done.
      + intros (e' & He' & H). rewrite He in He'. injection He' as <-. eexists. split; [done|]. cbn [writers set_writers].
        intros w [_ Hw]%list_elem_of_filter. by apply H.
    - by rewrite lookup_insert_ne by done. }
  split; [|done]. constructor.
  - apply (oi_buckets _ I).
  - intros d' e'. cbn [ods left_]. intros [[<- <-]|[Hned He']]%lookup_insert_Some.
    + constructor; cbn [writers num_writers max_writers set_writers]; [done|by apply NoDup_filter| |rewrite wrapu_id by lia; lia|].
      * rewrite wrapu_id by lia. lia.
      * cbn [vcs left_]. intros w [Hw Hwi]%list_elem_of_filter. destruct (E5 w Hwi) as (c & H1 & H2).
        destruct (set_od_lookup (vcs s) cont None w c H1) as (x' & -> & H). rewrite decide_False in H by done.
        exists x'. split; [done|congruence].
    + destruct (oi_entry _ I d' e' He') as [F1 F2 F3 F4 F5]. constructor; try done. cbn [vcs left_]. intros w Hw.
      destruct (F5 w Hw) as (c & H1 & H2). destruct (set_od_lookup (vcs s) cont None w c H1) as (x' & -> & H).
      assert (w <> cont) by (intros ->; congruence). rewrite decide_False in H by done. exists x'. split; [done|congruence].
  - intros d'. cbn [ods left_]. intros Hs. destruct (oi_key _ I d') as [k Hk']; [|exists k; by apply Hk].
    destruct (decide (d = d')) as [<-|Hned]; [by rewrite He|by rewrite lookup_insert_ne in Hs].
  - intros b l d' Hb. rewrite (oi_bucket _ I b l d' Hb). by setoid_rewrite Hk.
  - intros d1 d2 k H1 H2. apply Hk in H1, H2. by apply (oi_unique _ I d1 d2 k).
  - intros d'. cbn [ods left_ next_od]. intros Hs. apply (oi_fresh _ I).
    destruct (decide (d = d')) as [<-|Hned]; [by rewrite He|by rewrite lookup_insert_ne in Hs].
  - intros c x' d'. cbn [vcs left_ ods]. intros Hc' Hod'. apply set_od_inv in Hc' as (x0 & H0 & Ho). rewrite Ho in Hod'.
    destruct (decide (c = cont)) as [->|Hnec]; [done|].
    destruct (oi_od _ I c x0 d' H0 Hod') as (e' & He' & Hin'). destruct (decide (d = d')) as [<-|Hned].
    + rewrite lookup_insert_eq. rewrite He in He'. injection He' as <-. eexists. split; [done|].
      cbn [writers set_writers]. by apply list_elem_of_filter.
    + rewrite lookup_insert_ne by done. eauto.
Qed.

Definition removed (s : OpenDir) (d cont : nat) (key : CacheKey) (newly woken : list nat) : OpenDir :=
  mkOpenDir (alter (filter (fun x => x <> d)) (od_bucket key) (bucket s)) newly (delete d (ods s))
    (alter (fun c => set_od c None) cont
       (foldl (fun m c => alter (fun x => set_timeout x false) c m) (vcs s) woken)) (next_od s).

Lemma removed_inv s d e cont x newly woken : od_inv s -> vcs s !! cont = Some x -> vc_od x = Some d -> ods s !! d = Some e ->
  filter (fun w => w <> cont) (writers e) = [] ->
  let s' := removed s d cont (first_key x) newly woken in
  od_inv s' /\ forall d' k, entry_key s' d' k <-> d' <> d /\ entry_key s d' k.
Proof.
  intros I Hc Hod He Hnil s'. destruct (oi_entry _ I d e He) as [E1 E2 E3 E4 E5].
  destruct (oi_od _ I cont x d Hc Hod) as (e1 & He1 & Hin). rewrite He in He1. injection He1 as <-.
  assert (Honly : forall w, w ∈ writers e -> w = cont).
  { intros w Hw. destruct (decide (w = cont)) as [|Hne]; [done|]. exfalso.
    assert (Hf : w ∈ filter (fun w => w <> cont) (writers e)) by (by apply list_elem_of_filter).
    rewrite Hnil in Hf. by apply elem_of_nil in Hf. }
  assert (Hx : first_key (vc s cont) = first_key x) by (unfold vc; by rewrite (lookup_total_correct _ _ _ Hc)).
  assert (Hd : entry_key s d (first_key x)).
  { exists e. split; [done|]. intros w Hw. by rewrite (Honly w Hw). }
  assert (Hvc : forall c, first_key (vc s' c) = first_key (vc s c)).
  { intros c. unfold vc. cbn [vcs s' removed]. rewrite vc_alter by done. apply vc_fold. }
  assert (Hk : forall d' k, entry_key s' d' k <-> d' <> d /\ entry_key s d' k).
  { intros d' k. unfold entry_key. cbn [ods s' removed]. setoid_rewrite Hvc. destruct (decide (d = d')) as [<-|Hned].
    - rewrite lookup_delete_eq. split; [intros (? & ? & _); done|intros [? _]; done].
    - rewrite lookup_delete_ne by done. split; [intros H; split; [congruence|done]|by intros [_ H]]. }
  assert (Hown : forall d' e' w, ods s !! d' = Some e' -> d' <> d -> w ∈ writers e' ->
    exists c, vcs s' !! w = Some c /\ vc_od c = Some d').
  { intros d' e' w He' Hned Hw. destruct (oi_entry _ I d' e' He') as [_ _ _ _ F5]. destruct (F5 w Hw) as (c & H1 & H2).
    destruct (fold_od_back woken (vcs s) w c H1) as (c1 & H3 & H4). cbn [vcs s' removed].
    destruct (set_od_lookup _ cont None w c1 H3) as (x' & -> & H). assert (w <> cont) by (intros ->; congruence).
    rewrite decide_False in H by done. exists x'. split; [done|congruence]. }
  split; [|done]. constructor.
  - cbn [bucket s' removed]. by rewrite length_alter, (oi_buckets _ I).
  - intros d' e'. cbn [ods s' removed]. intros [Hned He']%lookup_delete_Some.
    destruct (oi_entry _ I d' e' He') as [F1 F2 F3 F4 F5]. constructor; try done. intros w Hw. by apply (Hown d' e').
  - intros d'. cbn [ods s' removed]. intros [e' [Hned He']%lookup_delete_Some].
    destruct (oi_key _ I d') as [k H]; [by rewrite He'|]. exists k. apply Hk. done.
  - intros b l d'. cbn [bucket s' removed]. intros Hb. setoid_rewrite Hk.
    destruct (decide (od_bucket (first_key x) = b)) as [<-|Hneb].
    + destruct (od_bucket_lookup s I (first_key x)) as [l0 Hl0]. rewrite list_lookup_alter_eq, Hl0 in Hb. injection Hb as <-.
      rewrite list_elem_of_filter, (oi_bucket _ I _ _ d' Hl0). split; [intros (? & k & ? & ?)|intros (k & (? & ?) & ?)]; eauto 6.
    + rewrite list_lookup_alter_ne in Hb by done. rewrite (oi_bucket _ I _ _ d' Hb). split.
      * intros (k & H1 & H2). exists k. split; [|done]. split; [|done]. intros ->.
        destruct H1 as (e1 & He1 & H1). rewrite He in He1. injection He1 as <-. apply Hneb. rewrite <- H2.
        f_equal. rewrite <- (H1 cont Hin). done.
      * intros (k & (_ & H1) & H2). eauto.
  - intros d1 d2 k [_ H1]%Hk [_ H2]%Hk. by apply (oi_unique _ I d1 d2 k).
  - intros d'. cbn [ods s' removed next_od]. intros [e' [_ He']%lookup_delete_Some]. apply (oi_fresh _ I). by rewrite He'.
  - intros c x' d'. cbn [vcs s' removed ods]. intros Hc' Hod'. apply set_od_inv in Hc' as (x0 & H0 & Ho). rewrite Ho in Hod'.
    destruct (decide (c = cont)) as [->|Hnec]; [done|]. apply fold_od in H0 as (x1 & H1 & H2). rewrite H2 in Hod'.
    destruct (oi_od _ I c x1 d' H1 Hod') as (e' & He' & Hin'). assert (d' <> d).
    { intros ->. rewrite He in He'. injection He' as <-. by apply Hnec, Honly. }
    rewrite lookup_delete_ne by congruence. eauto.
Qed.

(** The table without entries, for some [CacheVC]s that are not writers. *)
Definition empty_od (m : gmap nat CacheVC) : OpenDir := mkOpenDir (replicate (Z.to_nat OPEN_DIR_BUCKETS) []) [] ∅ m 0.

Lemma empty_od_inv m : (forall c x, m !! c = Some x -> vc_od x = None) -> od_inv (empty_od m).
Proof.
  intros Hm. assert (Hno : forall d k, ~ entry_key (empty_od m) d k) by (intros d k (e & H & _); simpl in H; by rewrite lookup_empty in H).
  constructor.
  - apply length_replicate.
  - intros d e H. simpl in H. by rewrite lookup_empty in H.
  - intros d [e H]. simpl in H. by rewrite lookup_empty in H.
  - intros b l d Hb. cbn [bucket empty_od] in Hb. apply lookup_replicate in Hb as [-> _].
    split; [intros H; by apply elem_of_nil in H|intros (k & H & _); by apply Hno in H].
  - intros d d' k H. by apply Hno in H.
  - intros d [e H]. simpl in H. by rewrite lookup_empty in H.
  - intros c x d Hc Ho. simpl in Hc. rewrite (Hm c x Hc) in Ho. done.
Qed.

(** Two [CacheVC]s of one document. *)
Definition two_vcs : gmap nat CacheVC :=
  {[ 1%nat := mkVC (mkKey 7 0 0 0) None false; 2%nat := mkVC (mkKey 7 0 0 0) None false ]}.

Lemma two_vcs_inv : od_inv (empty_od two_vcs).
Proof.
  apply empty_od_inv. intros c x Hc. unfold two_vcs in Hc.
  apply lookup_insert_Some in Hc as [[_ <-]|[_ Hc]]; [done|]. apply lookup_singleton_Some in Hc as [_ <-]. done.
Qed.

Lemma sample_open : od_inv (open_write 1 true 5 (empty_od two_vcs)).1.
Proof.
  apply (opened_inv (empty_od two_vcs) 1 (mkVC (mkKey 7 0 0 0) None false) 5 two_vcs_inv); [reflexivity|reflexivity|].
  intros d (e & H & _). simpl in H. by rewrite lookup_empty in H.
Qed.

(** ** The documents *)

(** The documents that are open: their writers, the last one first, and their limits. *)
Definition Documents : Type := CacheKey -> option (list nat * Z).

Definition view (s : OpenDir) : Documents := fun key => d ← open_read key s; (fun e => (writers e, max_writers e)) <$> ods s !! d.

Definition opens (allow : bool) (doc : option (list nat * Z)) : bool := match doc with None => true | Some (ws, limit) => allow && (Z.of_nat (length ws) <? limit) end.

Definition view_open (key0 : CacheKey) (cont : nat) (allow : bool) (max_w : Z) (a : Documents) : Documents := fun key =>
  if bool_decide (key = key0) then match a key with None => Some ([cont], max_w) | Some (ws, limit) => Some (if opens allow (a key) then (cont :: ws, limit) else (ws, limit)) end else a key.

Definition view_close (key0 : CacheKey) (cont : nat) (a : Documents) : Documents := fun key =>
  if bool_decide (key = key0) then '(ws, limit) ← a key; match filter (fun w => w <> cont) ws with [] => None | ws' => Some (ws', limit) end else a key.

Lemma view_entry s : od_inv s -> forall key d e, entry_key s d key -> ods s !! d = Some e -> view s key = Some (writers e, max_writers e).
Proof. intros I key d e Hk He. unfold view. rewrite (proj2 (open_read_spec s I key d) Hk). cbn [mbind option_bind]. by rewrite He. Qed.

Lemma entry_key_eq s : od_inv s -> forall d key key', entry_key s d key -> entry_key s d key' -> key' = key.
Proof.
  intros I d key key' (e & He & H) (e' & He' & H'). rewrite He in He'. injection He' as <-. destruct (writers e) as [|w ws] eqn:Ew; [by destruct (eo_writers _ _ _ (oi_entry _ I d e He))|].
  rewrite <- (H w), <- (H' w); [done|left|left].
Qed.

Lemma view_frame s s' key : od_inv s -> od_inv s' -> (forall d, entry_key s' d key <-> entry_key s d key) -> (forall d, entry_key s d key -> ods s' !! d = ods s !! d) -> view s' key = view s key.
Proof.
  intros I I' Hk O. unfold view. destruct (open_read key s) as [d|] eqn:Er.
  - pose proof (proj1 (open_read_spec s I key d) Er) as Hd. rewrite (proj2 (open_read_spec s' I' key d) (proj2 (Hk d) Hd)). cbn [mbind option_bind]. by rewrite O.
  - rewrite (proj2 (open_read_None s' I' key)); [done|]. intros d Hd%Hk. by apply (proj1 (open_read_None s I key) Er d).
Qed.

(** A refused opening changes nothing. *)
Lemma open_refused cont allow max_w s : (open_write cont allow max_w s).2 = 0 -> open_write cont allow max_w s = (s, 0).
Proof.
  unfold open_write. destruct (head _) as [d|]; [|done]. destruct (ods s !! d) as [e|]; [|done]. by destruct (_ && _).
Qed.

(** ** Theorems *)

(** opening for writing, in any consistent table. *)
Lemma open_write_step s cont x allow max_w : od_inv s -> vcs s !! cont = Some x -> vc_od x = None -> 0 <= max_w < 2 ^ 16 ->
  let r := open_write cont allow max_w s in
  od_inv r.1 /\ r.2 = (if opens allow (view s (first_key x)) then 1 else 0) /\
  forall key, view r.1 key = view_open (first_key x) cont allow max_w (view s) key.
Proof.
  intros I Hc Hno Hm. assert (Hx : first_key (vc s cont) = first_key x) by (unfold vc; by rewrite (lookup_total_correct _ _ _ Hc)).
  unfold open_write. rewrite Hx. fold (open_read (first_key x) s). unfold view_open, opens. destruct (open_read (first_key x) s) as [d|] eqn:Er.
  - pose proof (proj1 (open_read_spec s I _ d) Er) as Hk. pose proof Hk as (e & He & _). rewrite He. rewrite (view_entry s I _ _ _ Hk He).
    pose proof (eo_count _ _ _ (oi_entry _ I d e He)) as Ec. rewrite <- Ec. destruct (allow && (num_writers e <? max_writers e)) eqn:Ea; cbn zeta; cbn [fst snd].
    + pose proof Ea as [_ Hlt]%andb_true_iff. apply Z.ltb_lt in Hlt. fold (joined s d e cont). destruct (joined_inv s d e cont x I He Hc Hno Hk Hlt) as [I' Hk'].
      split; [exact I'|]. split; [done|]. intros key. case_bool_decide as Ek.
      * subst key. by rewrite (view_entry _ I' _ d _ (proj2 (Hk' d _) Hk) (lookup_insert_eq _ _ _)), (view_entry s I _ _ _ Hk He), <- Ec, Ea.
      * apply view_frame; [done|done|intros d'; apply Hk'|]. intros d' Hd'. cbn [ods joined]. apply lookup_insert_ne. intros <-. by apply Ek, (entry_key_eq s I d).
    + split; [done|]. split; [done|]. intros key. case_bool_decide as Ek; [|done]. subst key. by rewrite (view_entry s I _ _ _ Hk He), <- Ec, Ea.
  - cbv zeta. cbn [fst snd]. fold (opened s (first_key x) cont max_w). pose proof (proj1 (open_read_None s I _) Er) as Hn.
    destruct (opened_inv s cont x max_w I Hc Hno Hn) as [I' Hk']. assert (V : view s (first_key x) = None) by (unfold view; by rewrite Er). rewrite V. cbn.
    split; [exact I'|]. split; [done|]. intros key. case_bool_decide as Ek.
    + subst key. rewrite (view_entry _ I' _ (next_od s) _ (proj2 (Hk' _ _) (or_introl (conj eq_refl eq_refl))) (lookup_insert_eq _ _ _)), V. cbn. by rewrite wrapu_id by lia.
    + apply view_frame; [done|done| |].
      * intros d'. rewrite Hk'. split; [intros [[_ ->]|]; done|by right].
      * intros d' (e' & He' & _). cbn [ods opened]. apply lookup_insert_ne. pose proof (oi_fresh _ I d' (mk_is_Some _ _ He')). lia.
Qed.

(** closing, in any consistent table. *)
Lemma close_write_step lock s cont x d : od_inv s -> vcs s !! cont = Some x -> vc_od x = Some d ->
  let r := close_write lock cont s in
  od_inv r.1 /\ forall key, view r.1 key = view_close (first_key x) cont (view s) key.
Proof.
  intros I Hc Hod. assert (Hvc : vc s cont = x) by (unfold vc; by rewrite (lookup_total_correct _ _ _ Hc)).
  destruct (oi_od _ I cont x d Hc Hod) as (e & He & Hin). assert (Hkd : entry_key s d (first_key x)).
  { destruct (oi_key _ I d) as (k & e' & He' & H); [by rewrite He|]. rewrite He in He'. injection He' as <-. exists e. split; [done|]. by rewrite <- (H cont Hin), Hvc in H. }
  unfold close_write, view_close. rewrite Hvc, Hod. cbn [mbind option_bind]. rewrite He. cbn [mbind option_bind writers set_writers].
  destruct (filter (fun w => w <> cont) (writers e)) as [|w0 ws] eqn:Ef.
  - unfold signal_readers. cbn [delayed_readers readers set_writers bucket ods vcs next_od].
    destruct (signal_go lock (delayed_readers s ++ readers e) [] []) as [newly woken]. cbv zeta. cbn [fst snd delayed_readers bucket ods vcs next_od]. rewrite delete_insert_eq.
    fold (removed s d cont (first_key x) newly woken). destruct (removed_inv s d e cont x newly woken I Hc Hod He Ef) as [I' Hk]. split; [exact I'|].
    intros key. case_bool_decide as Ek.
    + subst key. rewrite (view_entry s I _ _ _ Hkd He). cbn [mbind option_bind]. rewrite Ef. unfold view. rewrite (proj2 (open_read_None _ I' _)); [done|]. intros d' [Hne Hd']%Hk. by apply Hne, (oi_unique _ I d' d (first_key x)).
    + apply view_frame; [done|done| |].
      * intros d'. rewrite Hk. split; [by intros [_ ?]|]. intros H. split; [|done]. intros ->. by apply Ek, (entry_key_eq s I d).
      * intros d' Hd'. cbn [ods removed]. apply lookup_delete_ne. intros <-. by apply Ek, (entry_key_eq s I d).
  - cbv zeta. cbn [fst snd delayed_readers bucket ods vcs next_od]. rewrite <- Ef. fold (left_ s d e cont).
    destruct (left_inv s d e cont x I Hc Hod He) as [I' Hk]; [by rewrite Ef|]. split; [exact I'|]. intros key. case_bool_decide as Ek.
    + subst key. rewrite (view_entry _ I' _ d _ (proj2 (Hk d _) Hkd) (lookup_insert_eq _ _ _)), (view_entry s I _ _ _ Hkd He). cbn. by rewrite Ef.
    + apply view_frame; [done|done|intros d'; apply Hk|]. intros d' Hd'. cbn [ods left_]. apply lookup_insert_ne. intros <-. by apply Ek, (entry_key_eq s I d).
Qed.

(** Changes that touch neither the writers nor where a [CacheVC] points. *)
Lemma same_writers s s' : od_inv s -> bucket s' = bucket s -> next_od s' = next_od s ->
  (forall c, first_key (vc s' c) = first_key (vc s c)) ->
  (forall c x', vcs s' !! c = Some x' -> exists x, vcs s !! c = Some x /\ vc_od x' = vc_od x) ->
  (forall c x, vcs s !! c = Some x -> exists x', vcs s' !! c = Some x' /\ vc_od x' = vc_od x) ->
  (forall d, (fun e => (writers e, num_writers e, max_writers e)) <$> ods s' !! d = (fun e => (writers e, num_writers e, max_writers e)) <$> ods s !! d) ->
  od_inv s' /\ forall key, view s' key = view s key.
Proof.
  intros I B N K V1 V2 O.
  assert (O1 : forall d e', ods s' !! d = Some e' -> exists e, ods s !! d = Some e /\ writers e' = writers e /\ num_writers e' = num_writers e /\ max_writers e' = max_writers e).
  { intros d e' H. specialize (O d). rewrite H in O. destruct (ods s !! d) as [e|]; [|done]. injection O as W1 W2 W3. by exists e. }
  assert (O2 : forall d e, ods s !! d = Some e -> exists e', ods s' !! d = Some e' /\ writers e' = writers e /\ num_writers e' = num_writers e /\ max_writers e' = max_writers e).
  { intros d e H. specialize (O d). rewrite H in O. destruct (ods s' !! d) as [e'|]; [|done]. injection O as W1 W2 W3. by exists e'. }
  assert (Hk : forall d k, entry_key s' d k <-> entry_key s d k).
  { intros d k. split; intros (e & He & H); [destruct (O1 d e He) as (e' & E & W & _)|destruct (O2 d e He) as (e' & E & W & _)]; exists e'; (split; [done|]); intros w Hw; [rewrite <- K; apply H; by rewrite W|rewrite K; apply H; by rewrite <- W]. }
  assert (I' : od_inv s').
  { constructor.
    - rewrite B. apply (oi_buckets _ I).
    - intros d e' He'. destruct (O1 d e' He') as (e & He & W & Nw & M). destruct (oi_entry _ I d e He) as [E1 E2 E3 E4 E5]. constructor; rewrite ?W, ?Nw, ?M; [done..|].
      intros w Hw. destruct (E5 w Hw) as (c & H1 & H2). destruct (V2 w c H1) as (c' & H3 & H4). exists c'. by rewrite H4.
    - intros d [e' He']. destruct (O1 d e' He') as (e & He & _). destruct (oi_key _ I d (mk_is_Some _ _ He)) as [k Hd]. exists k. by apply Hk.
    - intros b l d Hb. rewrite B in Hb. rewrite (oi_bucket _ I b l d Hb). by setoid_rewrite Hk.
    - intros d1 d2 k H1 H2. apply Hk in H1, H2. by apply (oi_unique _ I d1 d2 k).
    - intros d [e' He']. destruct (O1 d e' He') as (e & He & _). rewrite N. by apply (oi_fresh _ I), (mk_is_Some _ _ He).
    - intros c x' d Hc Hod. destruct (V1 c x' Hc) as (x & Hx & Ho). rewrite Ho in Hod. destruct (oi_od _ I c x d Hx Hod) as (e & He & Hin). destruct (O2 d e He) as (e' & He' & W & _). exists e'. by rewrite W. }
  split; [exact I'|]. intros key. unfold view. destruct (open_read key s) as [d|] eqn:Er.
  - pose proof (proj1 (open_read_spec s I key d) Er) as Hd. rewrite (proj2 (open_read_spec s' I' key d) (proj2 (Hk d key) Hd)). cbn [mbind option_bind].
    destruct Hd as (e & He & _). destruct (O2 d e He) as (e' & He' & W & _ & M). rewrite He, He'. cbn. by rewrite W, M.
  - rewrite (proj2 (open_read_None s' I' key)); [done|]. intros d Hd%Hk. by apply (proj1 (open_read_None s I key) Er d).
Qed.

Lemma wait_step s d cont : od_inv s -> od_inv (wait d cont s) /\ forall key, view (wait d cont s) key = view s key.
Proof.
  intros I. apply same_writers; [done|done|done|intros c; unfold vc, wait; cbn [vcs]; by apply vc_alter| | |]; cbn [vcs ods wait].
  - intros c x' H. destruct (decide (cont = c)) as [->|Hne]; [|rewrite lookup_alter_ne in H by done; eauto]. rewrite lookup_alter_eq in H. destruct (vcs s !! c); [|done]. injection H as <-. eauto.
  - intros c x H. destruct (decide (cont = c)) as [->|Hne]; [|rewrite lookup_alter_ne by done; eauto]. rewrite lookup_alter_eq, H. cbn. eauto.
  - intros d'. destruct (decide (d = d')) as [->|Hne]; [|by rewrite lookup_alter_ne]. rewrite lookup_alter_eq. by destruct (ods s !! d').
Qed.

Lemma signal_step lock s : od_inv s -> let s' := (signal_readers lock s).1.1 in od_inv s' /\ forall key, view s' key = view s key.
Proof.
  intros I. unfold signal_readers. destruct (signal_go lock (delayed_readers s) [] []) as [newly woken]. cbn [fst]. apply same_writers; cbn [bucket next_od vcs ods]; [done|done|done| | | |done].
  - intros c. apply vc_fold.
  - intros c x' H. apply fold_od in H as (x & H & E). by exists x.
  - intros c x H. by apply fold_od_back.
Qed.

(** A table in use: operations one after the other, from a table without entries, with
    what they do to the writers and limits of the documents. *)
Inductive od_run : OpenDir -> Documents -> Prop :=
| run_start m : (forall c x, m !! c = Some x -> vc_od x = None) -> od_run (empty_od m) (fun _ => None)
| run_open s a cont x allow max_w : od_run s a -> vcs s !! cont = Some x -> vc_od x = None -> 0 <= max_w < 2 ^ 16 ->
    od_run (open_write cont allow max_w s).1 (view_open (first_key x) cont allow max_w a)
| run_close s a lock cont x d : od_run s a -> vcs s !! cont = Some x -> vc_od x = Some d ->
    od_run (close_write lock cont s).1 (view_close (first_key x) cont a)
| run_wait s a d cont : od_run s a -> od_run (wait d cont s) a
| run_signal s a lock : od_run s a -> od_run (signal_readers lock s).1.1 a.

Lemma view_open_ext key cont allow max_w a a' : (forall k, a k = a' k) -> forall k, view_open key cont allow max_w a k = view_open key cont allow max_w a' k.
Proof. intros E k. unfold view_open. case_bool_decide; by rewrite E. Qed.

Lemma view_close_ext key cont a a' : (forall k, a k = a' k) -> forall k, view_close key cont a k = view_close key cont a' k.
Proof. intros E k. unfold view_close. case_bool_decide; by rewrite E. Qed.

Lemma run_ok s a : od_run s a -> od_inv s /\ forall key, view s key = a key.
Proof.
  induction 1 as [m Hm|s a cont x allow max_w _ [I V] Hc Hno Hm|s a lock cont x d _ [I V] Hc Hod|s a d cont _ [I V]|s a lock _ [I V]].
  - pose proof (empty_od_inv m Hm) as I. split; [done|]. intros key. unfold view. rewrite (proj2 (open_read_None _ I key)); [done|]. intros d (e & H & _). cbn in H. by rewrite lookup_empty in H.
  - destruct (open_write_step s cont x allow max_w I Hc Hno Hm) as (I' & _ & V'). split; [done|]. intros key. rewrite V'. by apply view_open_ext.
  - destruct (close_write_step lock s cont x d I Hc Hod) as [I' V']. split; [done|]. intros key. rewrite V'. by apply view_close_ext.
  - destruct (wait_step s d cont I) as [I' V']. split; [done|]. intros key. by rewrite V'.
  - destruct (signal_step lock s I) as [I' V']. split; [done|]. intros key. by rewrite V'.
Qed.

(** C7: the table of open documents is a map from documents to their writers and the limit
    that the first of them set: in every state that opening, closing, waiting and signalling
    reach from an empty table, opening succeeds exactly when the document has no writer, or
    the caller accepts others and they are fewer than that limit; the caller is then a
    writer of the document, sets the limit when it is the first, and nothing changes for
    other documents; when it fails nothing changes. *)
Theorem open_write_effect s a cont x allow max_w : od_run s a -> vcs s !! cont = Some x -> vc_od x = None -> 0 <= max_w < 2 ^ 16 ->
  let r := open_write cont allow max_w s in
  od_inv r.1 /\ (forall key, view s key = a key) /\ (forall key, key <> first_key x -> view r.1 key = a key) /\
  match a (first_key x) with
  | None => r.2 = 1 /\ view r.1 (first_key x) = Some ([cont], max_w)
  | Some (ws, limit) =>
      if allow && (Z.of_nat (length ws) <? limit) then r.2 = 1 /\ view r.1 (first_key x) = Some (cont :: ws, limit)
      else r = (s, 0)
  end.
Proof.
  intros R Hc Hno Hm. destruct (run_ok s a R) as [I V]. pose proof (open_write_step s cont x allow max_w I Hc Hno Hm) as (I' & Er & V'). cbv zeta in *.
  split; [exact I'|]. split; [exact V|]. split; [intros key Hne; rewrite V'; unfold view_open; rewrite bool_decide_eq_false_2 by done; apply V|].
  specialize (V' (first_key x)). unfold view_open, opens in *. rewrite bool_decide_eq_true_2 in V' by done. rewrite V in *. destruct (a (first_key x)) as [[ws limit]|] eqn:Ea; [|by rewrite Er].
  destruct (allow && (Z.of_nat (length ws) <? limit)) eqn:Eo; [by rewrite Er|]. by apply open_refused.
Qed.

(** Three [CacheVC]s of one document: the second writer is within the limit of two, the
    third is not. *)
Definition three_vcs : gmap nat CacheVC := <[3%nat := mkVC (mkKey 7 0 0 0) None false]> two_vcs.

Lemma open_write_effect_witness : let s1 := (open_write 1 true 2 (empty_od three_vcs)).1 in let s2 := (open_write 2 true 9 s1).1 in
  view s1 (mkKey 7 0 0 0) = Some ([1%nat], 2) /\ view s2 (mkKey 7 0 0 0) = Some ([2%nat; 1%nat], 2) /\ open_write 3 true 9 s2 = (s2, 0).
Proof.
  cbv zeta. assert (R0 : od_run (empty_od three_vcs) (fun _ => None)).
  { apply run_start. intros c x Hc. unfold three_vcs, two_vcs in Hc. apply lookup_insert_Some in Hc as [[_ <-]|[_ Hc]]; [done|]. apply lookup_insert_Some in Hc as [[_ <-]|[_ Hc]]; [done|]. by apply lookup_singleton_Some in Hc as [_ <-]. }
  pose proof (run_open _ _ 1 (mkVC (mkKey 7 0 0 0) None false) true 2 R0 eq_refl eq_refl ltac:(lia)) as R1. pose proof (run_open _ _ 2 (mkVC (mkKey 7 0 0 0) None false) true 9 R1 eq_refl eq_refl ltac:(lia)) as R2.
  destruct (open_write_effect _ _ 1 _ true 2 R0 eq_refl eq_refl ltac:(lia)) as (_ & _ & _ & _ & V1). destruct (open_write_effect _ _ 2 _ true 9 R1 eq_refl eq_refl ltac:(lia)) as (_ & _ & _ & _ & V2).
  destruct (open_write_effect _ _ 3 (mkVC (mkKey 7 0 0 0) None false) true 9 R2 eq_refl eq_refl ltac:(lia)) as (_ & _ & _ & V3). split; [exact V1|]. split; [exact V2|exact V3].
Defined.

(** a writer that closes leaves the others in place; when it was the last,
    the document is no longer open, and every reader that waited for it or was
    delayed before is woken or stays queued, none lost and none twice. *)
Theorem close_write_effect lock s cont x d e : od_inv s -> vcs s !! cont = Some x -> vc_od x = Some d -> ods s !! d = Some e ->
  let key := first_key x in
  let r := close_write lock cont s in
  od_inv r.1 /\ writers_of key r.1 = filter (fun w => w <> cont) (writers e) /\
  (filter (fun w => w <> cont) (writers e) = [] ->
     open_read key r.1 = None /\ delayed_readers r.1 ++ r.2 ≡ₚ delayed_readers s ++ readers e) /\
  (filter (fun w => w <> cont) (writers e) <> [] -> r.2 = [] /\ delayed_readers r.1 = delayed_readers s).
Proof.
  intros I Hc Hod He key. assert (Hvc : vc s cont = x) by (unfold vc; by rewrite (lookup_total_correct _ _ _ Hc)).
  assert (Hkd : entry_key s d key).
  { destruct (oi_key _ I d) as (k & e' & He' & H); [by rewrite He|]. rewrite He in He'. injection He' as <-.
    destruct (oi_od _ I cont x d Hc Hod) as (e1 & He1 & Hin). rewrite He in He1. injection He1 as <-.
    exists e. split; [done|]. assert (k = key) as <- by (rewrite <- (H cont Hin), Hvc; done). done. }
  unfold close_write. rewrite Hvc, Hod. cbn [mbind option_bind]. rewrite He. cbn [mbind option_bind writers set_writers].
  destruct (filter (fun w => w <> cont) (writers e)) as [|w0 ws] eqn:Ef.
  - unfold signal_readers. cbn [delayed_readers readers set_writers bucket ods vcs next_od].
    destruct (signal_go lock (delayed_readers s ++ readers e) [] []) as [newly woken] eqn:Es.
    pose proof (signal_go_perm lock (delayed_readers s ++ readers e) [] []) as Hp. rewrite Es in Hp. cbn [fst snd app] in Hp.
    cbv zeta. cbn [fst snd delayed_readers bucket ods vcs next_od]. rewrite delete_insert_eq.
    fold (removed s d cont (first_key x) newly woken).
    destruct (removed_inv s d e cont x newly woken I Hc Hod He Ef) as [I' Hk]. fold key in I', Hk |- *.
    assert (Hnone : open_read key (removed s d cont key newly woken) = None).
    { apply (open_read_None _ I'). intros d' [Hne Hd']%Hk. apply Hne. by apply (oi_unique _ I d' d key). }
    split; [exact I'|]. split; [unfold writers_of; by rewrite Hnone|]. split; [|done]. intros _. split; [exact Hnone|exact Hp].
  - cbv zeta. cbn [fst snd delayed_readers bucket ods vcs next_od]. rewrite <- Ef. fold (left_ s d e cont).
    destruct (left_inv s d e cont x I Hc Hod He) as [I' Hk]; [by rewrite Ef|].
    assert (Er : open_read key (left_ s d e cont) = Some d) by (by apply (open_read_spec _ I'), Hk).
    split; [exact I'|]. split; [unfold writers_of; rewrite Er; cbn [ods left_]; by rewrite lookup_insert_eq|].
    rewrite Ef. split; [done|]. done.
Qed.

Lemma close_write_effect_witness :
  let s := (open_write 1 true 5 (empty_od two_vcs)).1 in
  od_inv (close_write (fun _ => Locked) 1 s).1 /\ open_read (mkKey 7 0 0 0) (close_write (fun _ => Locked) 1 s).1 = None.
Proof.
  intros s. pose proof sample_open as I. destruct (close_write_effect (fun _ => Locked) s 1 (mkVC (mkKey 7 0 0 0) (Some 0%nat) false) 0
    (mkOD [1%nat] [] 1 5 dir_clear false false false false) I) as (H1 & _ & H2 & _);
    [reflexivity|reflexivity|reflexivity|]. split; [exact H1|]. by apply H2.
Defined.
