(* ===== verification/ParseRules.v ===== *)
(** The character classes and string scanners of [libinktomi++/ParseRules.h]
    and [ParseRules.cc].

    A [char] is a signed byte, a [Z] in [-128, 128).  A NUL-terminated string
    is the list of its characters without the NUL; reading past the list gives
    the NUL.  The class tests are the definitions from which the build computes
    the [parseRulesCType] table. *)

From S2P Require Import Prelude.
From Stdlib Require Import Ascii.
From Stdlib Require String.

Definition ch (a : ascii) : Z := Z.of_N (N_of_ascii a).
Definition chars (s : string) : list Z := ch <$> String.list_ascii_of_string s.
Definition one_of (c : Z) (l : list Z) : bool := existsb (Z.eqb c) l.
Definition in_range (lo hi c : Z) : bool := (lo <=? c) && (c <=? hi).

(** The character a string pointer points to. *)
Definition cur (s : list Z) : Z := match s with [] => 0 | c :: _ => c end.

Definition CHAR_SP : Z := 32.
Definition CHAR_HT : Z := 9.
Definition CHAR_LF : Z := 10.
Definition CHAR_VT : Z := 11.
Definition CHAR_NP : Z := 12.
Definition CHAR_CR : Z := 13.

(** ** Character tests *)

Definition is_char (c : Z) : bool := (0 <=? c) && (u8 c <=? 127).
Definition is_upalpha (c : Z) : bool := in_range 65 90 c.
Definition is_loalpha (c : Z) : bool := in_range 97 122 c.
Definition is_alpha (c : Z) : bool := is_upalpha c || is_loalpha c.
Definition is_digit (c : Z) : bool := in_range 48 57 c.
Definition is_alnum (c : Z) : bool := is_alpha c || is_digit c.
Definition is_ctl (c : Z) : bool := in_range 0 31 c || (c =? 127).
Definition is_ws (c : Z) : bool := (c =? CHAR_SP) || (c =? CHAR_HT).
Definition is_hex (c : Z) : bool := in_range 65 70 c || in_range 97 102 c || in_range 48 57 c.
Definition is_cr (c : Z) : bool := c =? CHAR_CR.
Definition is_lf (c : Z) : bool := c =? CHAR_LF.
Definition is_splf (c : Z) : bool := (c =? CHAR_SP) || (c =? CHAR_LF).
Definition is_spcr (c : Z) : bool := (c =? CHAR_SP) || (c =? CHAR_CR).
Definition is_wslfcr (c : Z) : bool := is_ws c || is_splf c || is_spcr c.
Definition is_extra (c : Z) : bool := one_of c (chars "!*'(),").
Definition is_safe (c : Z) : bool := one_of c (chars "$-_.+").
Definition is_unsafe (c : Z) : bool := is_ctl c || one_of c (34 :: chars " #%<>").
Definition is_reserved (c : Z) : bool := one_of c (chars ";/?:@&=").
Definition is_national (c : Z) : bool := one_of c (chars "{}|\^~[]`").
Definition is_unreserved (c : Z) : bool :=
  is_alpha c || is_digit c || is_safe c || is_extra c || is_national c.
Definition is_punct (c : Z) : bool := one_of c (34 :: chars "!#%&'()*+,-./:;<=>?@[\]^_`{|}~").
Definition is_end_of_url (c : Z) : bool := (c =? 0) || (c =? 10) || (c =? 32) || is_ctl c.
Definition is_escape (seq : list Z) : bool :=
  (cur seq =? ch "%") && is_hex (cur (drop 1 seq)) && is_hex (cur (drop 2 seq)).
Definition is_uchar (seq : list Z) : bool := is_unreserved (cur seq) || is_escape seq.
(** The bit of the table, and the test that uses it. *)
Definition pchar_bit (c : Z) : bool := is_unreserved c || one_of c (chars ":@&=+").
Definition is_pchar (seq : list Z) : bool :=
  if negb (cur seq =? ch "%") then pchar_bit (cur seq)
  else is_hex (cur (drop 1 seq)) && is_hex (cur (drop 2 seq)).
Definition is_tspecials (c : Z) : bool := one_of c (34 :: CHAR_SP :: CHAR_HT :: chars "()<>@,;:\/[]?={}").
Definition is_token (c : Z) : bool := is_char c && negb (is_ctl c || is_tspecials c).
Definition is_eow (c : Z) : bool := (c =? 0) || (c =? 13) || (c =? 10).
Definition is_wildmat (c : Z) : bool := one_of c (chars "*?[\").
Definition is_sep (c : Z) : bool := (c =? 0) || one_of c (chars ",:!") || is_wslfcr c.
Definition is_empty (c : Z) : bool := (c =? ch "#") || is_wslfcr c.
Definition is_space (c : Z) : bool := one_of c [CHAR_SP; CHAR_HT; CHAR_LF; CHAR_VT; CHAR_NP; CHAR_CR].
Definition is_control (c : Z) : bool := (u8 c <? 32) || (u8 c =? 127).
Definition is_mime_sep (c : Z) : bool := one_of c (34 :: 9 :: chars "()<>@,;\/[]?{} ").
Definition is_http_field_name (c : Z) : bool :=
  negb ((c =? ch ":") || (is_mime_sep c && negb (c =? ch "@"))).
Definition is_http_field_value (c : Z) : bool := negb (one_of c [CHAR_CR; CHAR_LF; 34; ch ","]).

Definition ink_toupper (c : Z) : Z := if in_range 97 122 c then c - 32 else c.
Definition ink_tolower (c : Z) : Z := if in_range 65 90 c then c + 32 else c.

(** ** String scanners *)

Fixpoint strncasecmp_eow (s1 s2 : list Z) (count : nat) : bool :=
  match count with
  | O => true
  | S n =>
    let a := cur s1 in
    let b := cur s2 in
    if negb (ink_tolower a =? ink_tolower b) then is_eow a && is_eow b
    else strncasecmp_eow (drop 1 s1) (drop 1 s2) n
  end.

Fixpoint strlen_eow (s : list Z) : nat :=
  match s with
  | [] => 0
  | c :: s' => if is_eow c then 0 else S (strlen_eow s')
  end.

(** The occurrence found, as its offset. *)
Fixpoint strstr_eow_go (i : nat) (s1 s2 : list Z) (s2_len : nat) : option nat :=
  match s1 with
  | [] => None
  | c :: s1' =>
    if is_eow c then None
    else if (ink_tolower c =? ink_tolower (cur s2)) && strncasecmp_eow s1 s2 s2_len then Some i
    else strstr_eow_go (S i) s1' s2 s2_len
  end.
Definition strstr_eow (s1 s2 : list Z) : option nat := strstr_eow_go 0 s1 s2 (strlen_eow s2).

Fixpoint strcasestr_go (i : nat) (s1 s2 : list Z) : option nat :=
  match s1 with
  | [] => None
  | c :: s1' =>
    if (ink_tolower c =? ink_tolower (cur s2)) && strncasecmp_eow s1 s2 (length s2) then Some i
    else strcasestr_go (S i) s1' s2
  end.
Definition strcasestr (s1 s2 : list Z) : option nat := strcasestr_go 0 s1 s2.

Fixpoint memchr_go (i : nat) (s : list Z) (c : Z) (n : nat) : option nat :=
  match n with
  | O => None
  | S n' => if cur s =? c then Some i else memchr_go (S i) (drop 1 s) c n'
  end.
Definition memchr (s : list Z) (c : Z) (max_length : nat) : option nat := memchr_go 0 s c max_length.

Fixpoint strchr_go (i : nat) (s : list Z) (c : Z) : option nat :=
  match s with
  | [] => None
  | x :: s' => if x =? c then Some i else strchr_go (S i) s' c
  end.
Definition strchr (s : list Z) (c : Z) : option nat := strchr_go 0 s c.

(** ** Numbers *)

Definition ink_get_hex (c : Z) : Z := if is_digit c then c - 48 else ink_tolower c - 97 + 10.

(** Skip the characters of a class. *)
Fixpoint skip_while (p : Z -> bool) (s : list Z) : list Z :=
  match s with
  | [] => []
  | c :: s' => if negb (c =? 0) && p c then skip_while p s' else s
  end.

(** Fold the leading characters of a class into a number. *)
Fixpoint scan_num (p : Z -> bool) (f : Z -> Z -> Z) (s : list Z) (num : Z) : Z :=
  match s with
  | [] => num
  | c :: s' => if negb (c =? 0) && p c then scan_num p f s' (f num c) else num
  end.

(** The four [ink_ato*] functions for one width: [w] wraps the result. *)
Definition ato_signed (w : Z -> Z) (str : list Z) : Z :=
  let s := skip_while is_wslfcr str in
  if (cur s =? ch "0") && (cur (drop 1 s) =? ch "x") then
    scan_num is_hex (fun num c => w (Z.shiftl num 4 + ink_get_hex c)) (drop 2 s) 0
  else
    let negative := cur s =? ch "-" in
    let s1 := if negative then drop 1 s else s in
    let num := scan_num is_digit (fun num c => w (num * 10 - (c - 48))) s1 0 in
    if negative then num else w (- num).

Definition ink_atoi (str : list Z) : Z := ato_signed (fun x => i32 x) str.
Definition ink_atoll (str : list Z) : Z := ato_signed (fun x => i64 x) str.

Definition ink_atoui (str : list Z) : Z :=
  let s := skip_while is_wslfcr str in
  if (cur s =? ch "0") && (cur (drop 1 s) =? ch "x") then
    scan_num is_hex (fun num c => u32 (Z.shiftl num 4 + ink_get_hex c)) (drop 2 s) 0
  else scan_num is_digit (fun num c => u32 (num * 10 + (c - 48))) s 0.

(** [ink_atoi(str, len)]: each loop also counts [len] down. *)
Fixpoint skip_while_n (p : Z -> bool) (s : list Z) (len : Z) : list Z * Z :=
  match s with
  | [] => (s, len)
  | c :: s' =>
    if negb (c =? 0) && p c then
      if 0 <? len then skip_while_n p s' (i32 (len - 1)) else (s, i32 (len - 1))
    else (s, len)
  end.

Fixpoint scan_num_n (p : Z -> bool) (f : Z -> Z -> Z) (s : list Z) (len num : Z) : Z :=
  match s with
  | [] => num
  | c :: s' =>
    if negb (c =? 0) && p c && (0 <? len) then scan_num_n p f s' (i32 (len - 1)) (f num c) else num
  end.

Definition ink_atoi_n (str : list Z) (len : Z) : Z :=
  let '(s, len1) := skip_while_n is_wslfcr str len in
  if (cur s =? ch "0") && (cur (drop 1 s) =? ch "x") then
    scan_num_n is_hex (fun num c => i32 (Z.shiftl num 4 + ink_get_hex c)) (drop 2 s) len1 0
  else
    let negative := cur s =? ch "-" in
    let s1 := if negative then drop 1 s else s in
    let num := scan_num_n is_digit (fun num c => i32 (num * 10 - (c - 48))) s1 len1 0 in
    if negative then num else i32 (- num).

(** ** Buffers in memory

    [mem] is the memory from address 0 of a machine word on; [ptr] an index. *)

Definition lower_at (i : nat) (mem : list Z) : list Z := alter ink_tolower i mem.

Fixpoint lower_run (k i : nat) (mem : list Z) : list Z :=
  match k with O => mem | S k' => lower_run k' (S i) (lower_at i mem) end.

(** One 32-bit word at [i]. *)
Definition lower_word (i : nat) (mem : list Z) : list Z := lower_run 4 i mem.

Fixpoint lower_words (k i : nat) (mem : list Z) : list Z :=
  match k with O => mem | S k' => lower_words k' (i + 4) (lower_word i mem) end.

(** The fall-through [switch] on a padding of 0 to 3: that many bytes, and
    none for other values. *)
Definition pad_run (pad : nat) : nat := if (pad <=? 3)%nat then pad else 0%nat.

Definition ink_tolower_buffer (ptr n : nat) (mem : list Z) : list Z :=
  if (n <? 8)%nat then lower_run n ptr mem
  else
    let fpad := (4 - ptr mod 4)%nat in
    let words := ((n - fpad) / 4)%nat in
    let bpad := (n - fpad - words * 4)%nat in
    let mem1 := lower_run (pad_run fpad) ptr mem in
    let ptr1 := (ptr + pad_run fpad)%nat in
    let mem2 := lower_words words ptr1 mem1 in
    lower_run (pad_run bpad) ptr1 mem2.

(** ** Decimal output: the [%u] and [%d] of [snprintf] *)

Fixpoint udec (fuel : nat) (v : Z) (acc : list Z) : list Z :=
  match fuel with
  | O => acc
  | S f => let acc' := (48 + v mod 10) :: acc in if v <? 10 then acc' else udec f (v / 10) acc'
  end.
Definition sprintf_u (v : Z) : list Z := udec 20 v [].
Definition sprintf_d (v : Z) : list Z := if v <? 0 then ch "-" :: udec 20 (- v) [] else udec 20 v [].

(** Every [char]. *)
Definition all_chars : list Z := (fun n => Z.of_nat n - 128) <$> seq 0 256.

(** ** Digits *)

(** The number a list of digits spells. *)
Definition spell (num : Z) (l : list Z) : Z := foldl (fun a c => a * 10 + (c - 48)) num l.

Lemma spell_app n l1 l2 : spell n (l1 ++ l2) = spell (spell n l1) l2.
Proof. apply foldl_app. Qed.

Lemma udec_app fuel v acc : udec fuel v acc = udec fuel v [] ++ acc.
Proof.
  revert v acc. induction fuel as [|f IH]; intros v acc; [done|]. cbn [udec].
  destruct (v <? 10); [done|]. rewrite (IH (v / 10) (_ :: acc)), (IH (v / 10) [_]), <- app_assoc. done.
Qed.

Lemma udec_spec fuel v : 0 <= v < 10 ^ Z.of_nat fuel ->
  spell 0 (udec fuel v []) = v /\ Forall (fun c => is_digit c = true) (udec fuel v []).
Proof.
  revert v. induction fuel as [|f IH]; intros v Hv; [simpl in *; split; [lia|done]|]. cbn [udec].
  pose proof (Z.mod_pos_bound v 10 ltac:(lia)) as Hm.
  assert (Hd : is_digit (48 + v mod 10) = true).
  { unfold is_digit, in_range. apply andb_true_iff. split; apply Z.leb_le; lia. }
  destruct (Z.ltb_spec v 10).
  - rewrite (Z.mod_small v 10) in * by lia. split; [cbn; lia|by constructor].
  - rewrite udec_app. destruct (IH (v / 10)) as [H1 H2].
    { rewrite Nat2Z.inj_succ, Z.pow_succ_r in Hv by lia. split; [apply Z.div_pos; lia|apply Z.div_lt_upper_bound; lia]. }
    split; [|apply Forall_app; split; [done|by constructor]].
    rewrite spell_app, H1. cbn. pose proof (Z.div_mod v 10 ltac:(lia)). lia.
Qed.

Lemma udec_cons fuel v : exists c l, udec (S fuel) v [] = c :: l.
Proof. cbn [udec]. destruct (v <? 10); [eauto|]. rewrite udec_app. destruct (udec fuel (v / 10) []) as [|c l]; simpl; eauto. Qed.

Lemma digit_range c : is_digit c = true -> 48 <= c <= 57.
Proof. unfold is_digit, in_range. intros H. bsimp. lia. Qed.

(** A digit is no NUL, white space or sign. *)
Lemma digit_other c : is_digit c = true ->
  c =? 0 = false /\ is_wslfcr c = false /\ c =? 45 = false /\ is_space c = false /\ is_ws c = false /\ c =? 120 = false.
Proof.
  intros H%digit_range.
  assert (Hc : In c (map (fun n => 48 + Z.of_nat n) (seq 0 10))).
  { apply in_map_iff. exists (Z.to_nat (c - 48)). split; [lia|apply in_seq; lia]. }
  revert c H Hc. intros c _ Hc. cbn in Hc. repeat destruct Hc as [<-|Hc]; try done; repeat split; reflexivity.
Qed.

Lemma scan_digits f l num : Forall (fun c => is_digit c = true) l -> scan_num is_digit f l num = foldl f num l.
Proof.
  revert num. induction l as [|c l IH]; intros num H; [done|]. apply Forall_cons in H as [Hc Hl]. cbn [scan_num foldl].
  destruct (digit_other c Hc) as [-> _]. rewrite Hc. by apply IH.
Qed.

(** A digit loop that wraps at every step computes the wrapped value. *)
Lemma wraps_fold w (sgn : Z) l num : 0 < w ->
  wraps w (foldl (fun a c => wraps w (a * 10 + sgn * (c - 48))) num l) =
  wraps w (foldl (fun a c => a * 10 + sgn * (c - 48)) num l).
Proof.
  intros Hw. assert (E : forall x y, x mod 2 ^ w = y mod 2 ^ w -> wraps w x = wraps w y).
  { intros x y H. unfold wraps. f_equal. rewrite Z.add_mod, H, <- Z.add_mod by lia. done. }
  assert (Em : forall x, wraps w x mod 2 ^ w = x mod 2 ^ w).
  { intros x. unfold wraps. rewrite Zminus_mod, Z.mod_mod, <- Zminus_mod by lia. f_equal. lia. }
  apply E. assert (G : forall a b, a mod 2 ^ w = b mod 2 ^ w ->
    foldl (fun a c => wraps w (a * 10 + sgn * (c - 48))) a l mod 2 ^ w =
    foldl (fun a c => a * 10 + sgn * (c - 48)) b l mod 2 ^ w); [|by apply G].
  induction l as [|c l IH]; intros a b H; [done|]. cbn [foldl]. apply IH. rewrite Em.
  rewrite Z.add_mod, Z.mul_mod, H, <- Z.mul_mod, <- Z.add_mod by lia. done.
Qed.

Lemma wraps_fold_step w sgn l num : 0 < w -> l <> [] ->
  foldl (fun a c => wraps w (a * 10 + sgn * (c - 48))) num l =
  wraps w (foldl (fun a c => a * 10 + sgn * (c - 48)) num l).
Proof.
  intros Hw Hl. rewrite <- wraps_fold by done. symmetry. apply wraps_id; [done|].
  destruct l as [|x l _] using rev_ind; [done|]. rewrite foldl_app. cbn [foldl]. by apply wraps_range.
Qed.

(** The loop of the signed functions counts down. *)
Lemma spell_neg l num : foldl (fun a c => a * 10 + -1 * (c - 48)) num l = - spell (- num) l.
Proof.
  revert num. induction l as [|c l IH]; intros num; cbn; [lia|]. rewrite IH. do 2 f_equal. lia.
Qed.

Lemma foldl_ext {A B} (f g : A -> B -> A) l a : (forall a b, f a b = g a b) -> foldl f a l = foldl g a l.
Proof. intros H. revert a. induction l as [|b l IH]; intros a; [done|]. cbn. by rewrite H. Qed.

Lemma neg_digits w l : 0 < w -> l <> [] ->
  foldl (fun num c => wraps w (num * 10 - (c - 48))) 0 l = wraps w (- spell 0 l).
Proof.
  intros Hw Hl. rewrite (foldl_ext _ (fun a c => wraps w (a * 10 + -1 * (c - 48)))) by (intros; f_equal; lia).
  rewrite wraps_fold_step, spell_neg by done. done.
Qed.

Lemma pos_digits w l : 0 < w -> l <> [] ->
  foldl (fun num c => wraps w (num * 10 + (c - 48))) 0 l = wraps w (spell 0 l).
Proof.
  intros Hw Hl. rewrite (foldl_ext _ (fun a c => wraps w (a * 10 + 1 * (c - 48)))) by (intros; f_equal; lia).
  rewrite wraps_fold_step by done. f_equal. apply foldl_ext. intros. lia.
Qed.

Lemma upos_digits w l num : 0 <= w -> 0 <= num < 2 ^ w ->
  foldl (fun num c => wrapu w (num * 10 + (c - 48))) num l = wrapu w (spell num l).
Proof.
  intros Hw. revert num. induction l as [|c l IH]; intros num Hn; [symmetry; by apply wrapu_id|]. cbn [foldl].
  rewrite IH by (by apply wrapu_range). unfold spell at 2. cbn [foldl]. fold (spell (num * 10 + (c - 48)) l).
  assert (G : forall l a b, wrapu w a = wrapu w b -> wrapu w (spell a l) = wrapu w (spell b l)).
  { induction l0 as [|x l0 IHl]; intros a b E; [done|]. cbn. apply IHl. unfold wrapu in *.
    rewrite Z.add_mod, Z.mul_mod, E, <- Z.mul_mod, <- Z.add_mod by lia. done. }
  apply G. unfold wrapu. by rewrite Z.mod_mod by lia.
Qed.

Lemma udec_head v c l : 0 <= v < 10 ^ 20 -> udec 20 v [] = c :: l -> is_digit c = true /\
  Forall (fun c => is_digit c = true) (c :: l) /\ spell 0 (c :: l) = v.
Proof.
  intros Hv E. destruct (udec_spec 20 v Hv) as [H1 H2]. rewrite E in *.
  split; [by apply Forall_cons in H2 as [? _]|done].
Qed.

Lemma digit_not_x l : Forall (fun c => is_digit c = true) l -> cur (drop 1 l) =? 120 = false.
Proof.
  destruct l as [|a [|b l]]; [done|done|]. intros H. apply Forall_cons in H as [_ H].
  apply Forall_cons in H as [H _]. by apply digit_other.
Qed.

Lemma ato_signed_ok w v : 0 < w <= 64 -> - 2 ^ (w - 1) <= v < 2 ^ (w - 1) ->
  ato_signed (wraps w) (sprintf_d v) = v.
Proof.
  intros Hw Hv. assert (Hb : 2 ^ (w - 1) <= 2 ^ 63) by (apply Z.pow_le_mono_r; lia).
  unfold sprintf_d, ato_signed. destruct (Z.ltb_spec v 0) as [Hn|Hn].
  - destruct (udec_cons 19 (- v)) as (c & l & E). rewrite E.
    destruct (udec_head (- v) c l ltac:(lia) E) as (Hc & Hl & Hs).
    change (ch "-") with 45. change (skip_while is_wslfcr (45 :: c :: l)) with (45 :: c :: l).
    change (cur (45 :: c :: l)) with 45. change (45 =? ch "0") with false. cbn [andb].
    change (45 =? 45) with true. cbn match. cbn [drop].
    rewrite scan_digits, neg_digits, Hs by (done || lia). rewrite wraps_id by lia. lia.
  - destruct (udec_cons 19 v) as (c & l & E). rewrite E.
    destruct (udec_head v c l ltac:(lia) E) as (Hc & Hl & Hs). destruct (digit_other c Hc) as (H0 & H1 & H2 & _).
    cbn [skip_while]. rewrite H0, H1. cbn [andb negb]. change (cur (c :: l)) with c.
    change (ch "x") with 120. rewrite (digit_not_x (c :: l) Hl), andb_false_r.
    change (ch "-") with 45. rewrite H2, scan_digits, neg_digits, Hs by (done || lia).
    rewrite (wraps_id w (- v)) by lia. rewrite wraps_id by lia. lia.
Qed.

(** ** Theorems *)

(** The number parsers invert decimal output over the whole range of their
    type, the most negative value included. *)
Theorem ink_ato_roundtrip :
  (forall v, - 2 ^ 31 <= v < 2 ^ 31 -> ink_atoi (sprintf_d v) = v) /\
  (forall v, - 2 ^ 63 <= v < 2 ^ 63 -> ink_atoll (sprintf_d v) = v) /\
  (forall v, 0 <= v < 2 ^ 32 -> ink_atoui (sprintf_u v) = v).
Proof.
  split; [|split]; intros v Hv.
  - apply (ato_signed_ok 32); lia.
  - apply (ato_signed_ok 64); lia.
  - unfold sprintf_u, ink_atoui. destruct (udec_cons 19 v) as (c & l & E). rewrite E.
    destruct (udec_head v c l ltac:(lia) E) as (Hc & Hl & Hs). destruct (digit_other c Hc) as (H0 & H1 & _).
    cbn [skip_while]. rewrite H0, H1. cbn [andb negb]. change (ch "x") with 120.
    rewrite (digit_not_x (c :: l) Hl), andb_false_r, scan_digits by done.
    rewrite upos_digits by lia. rewrite Hs. apply wrapu_id. lia.
Qed.

Lemma ink_ato_roundtrip_witness : ink_atoi (sprintf_d (- 2 ^ 31)) = - 2 ^ 31 /\ ink_atoui (sprintf_u 4294967295) = 4294967295.
Proof. destruct ink_ato_roundtrip as (H1 & _ & H3). split; [apply H1|apply H3]; lia. Defined.

(** The character classes fit together on every [char]: an ASCII character
    is exactly one of control, separator and token, the tab apart, which is a
    control and a separator; it is unsafe, reserved or unreserved, and no
    character is two of these; a token character may occur in a field name,
    and letters and digits are tokens and unreserved; letter case conversion is
    consistent. *)
Theorem char_classes c : - 128 <= c < 128 ->
  (is_char c = true -> Zbool (is_ctl c) + Zbool (is_tspecials c) + Zbool (is_token c) = 1 + Zbool (c =? CHAR_HT)) /\
  (is_char c = true -> is_unsafe c || is_reserved c || is_unreserved c = true) /\
  (Zbool (is_unsafe c) + Zbool (is_reserved c) + Zbool (is_unreserved c) <= 1) /\
  (is_token c = true -> is_http_field_name c = true) /\
  (is_alnum c = true -> is_token c = true /\ is_unreserved c = true) /\
  ink_tolower (ink_toupper c) = ink_tolower c.
Proof.
  intros Hc. assert (Hin : In c all_chars).
  { apply in_map_iff. exists (Z.to_nat (c + 128)). split; [lia|apply in_seq; lia]. }
  assert (G : forallb (fun c =>
    implb (is_char c) (Zbool (is_ctl c) + Zbool (is_tspecials c) + Zbool (is_token c) =? 1 + Zbool (c =? CHAR_HT)) &&
    implb (is_char c) (is_unsafe c || is_reserved c || is_unreserved c) &&
    (Zbool (is_unsafe c) + Zbool (is_reserved c) + Zbool (is_unreserved c) <=? 1) &&
    implb (is_token c) (is_http_field_name c) &&
    implb (is_alnum c) (is_token c && is_unreserved c) &&
    (ink_tolower (ink_toupper c) =? ink_tolower c)) all_chars = true) by (vm_compute; reflexivity).
  rewrite forallb_forall in G. specialize (G c Hin). bsimp.
  repeat match goal with H : implb _ _ = true |- _ => rewrite implb_true_iff in H end.
  split_and!; auto.
  - intros Ha. apply Z.eqb_eq. auto.
  - intros Ha. apply andb_true_iff. auto.
Qed.

Lemma char_classes_witness : is_token 45 = true /\ is_http_field_name 45 = true.
Proof.
  split; [reflexivity|]. destruct (char_classes 45) as (_ & _ & _ & H & _); [lia|]. apply H. reflexivity.
Defined.

(** ** Buffers *)

Lemma lower_run_lookup k i mem j : lower_run k i mem !! j =
  if decide (i <= j < i + k)%nat then ink_tolower <$> mem !! j else mem !! j.
Proof.
  revert i mem. induction k as [|k IH]; intros i mem; cbn [lower_run]; [by rewrite decide_False by lia|].
  rewrite IH. unfold lower_at. destruct (decide (j = i)) as [->|Hne].
  - rewrite decide_False, decide_True by lia. apply list_lookup_alter_eq.
  - rewrite list_lookup_alter_ne by done. destruct (decide (S i <= j < S i + k)%nat).
    + by rewrite decide_True by lia.
    + by rewrite decide_False by lia.
Qed.

Lemma lower_run_app k1 k2 i mem : lower_run (k1 + k2) i mem = lower_run k2 (i + k1) (lower_run k1 i mem).
Proof.
  revert i mem. induction k1 as [|k IH]; intros i mem; cbn [lower_run Nat.add]; [by rewrite Nat.add_0_r|].
  rewrite IH. f_equal. lia.
Qed.

Lemma lower_words_run k i mem : lower_words k i mem = lower_run (4 * k) i mem.
Proof.
  revert i mem. induction k as [|k IH]; intros i mem; cbn [lower_words]; [done|].
  rewrite IH. unfold lower_word. rewrite <- lower_run_app. f_equal. lia.
Qed.

Lemma tolower_idem c : ink_tolower (ink_tolower c) = ink_tolower c.
Proof.
  unfold ink_tolower, in_range. destruct ((65 <=? c) && (c <=? 90)) eqn:E; bsimp.
  - destruct ((65 <=? c + 32) && (c + 32 <=? 90)) eqn:E2; bsimp; lia.
  - by rewrite E.
Qed.

Lemma lower_run_sub k k' i mem : (k' <= k)%nat -> lower_run k' i (lower_run k i mem) = lower_run k i mem.
Proof.
  intros H. apply list_eq. intros j. rewrite !lower_run_lookup.
  destruct (decide (i <= j < i + k')%nat); [|done]. rewrite decide_True by lia.
  destruct (mem !! j); [|done]. simpl. by rewrite tolower_idem.
Qed.

(** [ink_tolower_buffer] on eight bytes or more converts only the leading
    bytes up to the last whole word counted, not the bytes after it: the tail
    is taken at the start of the words again, and an aligned buffer loses a
    whole word. *)
Theorem tolower_buffer_effect ptr n mem j : (8 <= n)%nat ->
  let fpad := (4 - ptr mod 4)%nat in
  let done := (pad_run fpad + 4 * ((n - fpad) / 4))%nat in
  ink_tolower_buffer ptr n mem !! j =
    (if decide (ptr <= j < ptr + done)%nat then ink_tolower <$> mem !! j else mem !! j) /\
  (ptr mod 4 = 0 -> done <= n - 4)%nat.
Proof.
  intros Hn fpad done. assert (Hm : (ptr mod 4 < 4)%nat) by (apply Nat.mod_upper_bound; lia). split.
  - unfold ink_tolower_buffer. destruct (Nat.ltb_spec n 8); [lia|]. fold fpad.
    rewrite lower_words_run. set (w := ((n - fpad) / 4)%nat) in *.
    assert (Hw : (1 <= w)%nat) by (unfold w; apply Nat.div_le_lower_bound; lia).
    rewrite lower_run_sub by (unfold pad_run; destruct (Nat.leb_spec (n - fpad - w * 4) 3); lia).
    rewrite <- lower_run_app, lower_run_lookup. reflexivity.
  - intros H0. unfold done, fpad. rewrite H0. change (pad_run (4 - 0)) with 0%nat. change (4 - 0)%nat with 4%nat.
    pose proof (Nat.mul_div_le (n - 4) 4 ltac:(lia)). lia.
Qed.

Lemma tolower_buffer_effect_witness :
  ink_tolower_buffer 0 8 (chars "ABCDEFGH") = chars "abcdEFGH" /\
  ink_tolower_buffer 0 8 (chars "ABCDEFGH") !! 4%nat = Some (ch "E").
Proof.
  split; [reflexivity|]. destruct (tolower_buffer_effect 0 8 (chars "ABCDEFGH") 4) as [-> _]; [lia|reflexivity].
Defined.

(** * [ParseRules::scan_while] ([libinktomi++/ParseRules.cc]): the scan for the
    first character outside a class, a machine word at a time.

    [mem] is the memory from an address divisible by four on, [ptr] an index
    into it.  [ctype] is the class table, [parseRulesCType].  A read outside
    [mem] is [None]. *)

Section scan.
Variable ctype : Z -> Z.
Variable mem : list Z.
Variable bitmask : Z.

Definition is_type (c : Z) : Z := Z.land (ctype c) bitmask.

(** [!is_type(mem[i], bitmask)]. *)
Definition outside (i : nat) : option bool := c ← mem !! i; Some (is_type c =? 0).

(** Test the bytes at [tests] in order, each with the pointer it returns. *)
Fixpoint first_outside (tests : list (nat * nat)) : option (option nat) :=
  match tests with
  | [] => Some None
  | (i, r) :: tests' =>
    o ← outside i;
    if (o : bool) then Some (Some r) else first_outside tests'
  end.

(** The word loop from [i], [words] words long; [Some None] when it ran to the
    end. *)
Fixpoint scan_words (words i : nat) : option (option nat) :=
  match words with
  | O => Some None
  | S w =>
    c0 ← mem !! i; c1 ← mem !! (i + 1)%nat; c2 ← mem !! (i + 2)%nat; c3 ← mem !! (i + 3)%nat;
    let result := Z.land (Z.land (Z.land (is_type c0) (is_type c1)) (is_type c2)) (is_type c3) in
    if result =? 0 then
      Some (Some (if is_type c0 =? 0 then i else if is_type c1 =? 0 then (i + 1)%nat
                  else if is_type c2 =? 0 then (i + 2)%nat else (i + 3)%nat))
    else scan_words w (i + 4)
  end.

Definition scan_while (ptr n : nat) : option (option nat) :=
  let align_off := (ptr mod 4)%nat in
  let align_ptr := (ptr - align_off)%nat in
  let f_bytes := (if align_off =? 0 then 0 else 4 - align_off)%nat in
  let words := Z.shiftr (u64 (Z.of_nat n - Z.of_nat f_bytes)) 2 in
  if words =? 0 then first_outside ((fun i => ((ptr + i)%nat, (ptr + i)%nat)) <$> seq 0 n)
  else
    let w := Z.to_nat words in
    let wptr := (align_ptr + if align_off =? 0 then 0 else 4)%nat in
    let b_bytes := Z.to_nat (u64 (Z.of_nat n - u64 (Z.shiftl words 2 + Z.of_nat f_bytes))) in
    r1 ← first_outside
           match align_off with
           | 1 => [(align_ptr + 1, ptr + 1); (align_ptr + 2, ptr + 2); (align_ptr + 3, ptr + 3)]
           | 2 => [(align_ptr + 2, ptr + 2); (align_ptr + 3, ptr + 3)]
           | 3 => [(align_ptr + 3, ptr + 3)]
           | _ => []
           end%nat;
    match r1 with
    | Some r => Some (Some r)
    | None =>
      r2 ← scan_words w wptr;
      match r2 with
      | Some r => Some (Some r)
      | None =>
        let tail := (wptr + w * 4)%nat in
        first_outside
          match b_bytes with
          | 1 => [(tail, tail)]
          | 2 => [(tail, tail); (tail + 1, tail + 1)]
          | 3 => [(tail, tail); (tail + 1, tail + 1); (tail + 2, tail + 2)]
          | _ => []
          end%nat
      end
    end.

(** The reference: the first of [n] bytes from [i] outside the class. *)
Fixpoint scan_ref (n i : nat) : option (option nat) :=
  match n with
  | O => Some None
  | S n' => o ← outside i; if (o : bool) then Some (Some i) else scan_ref n' (S i)
  end.

(** ** Proof *)

Lemma first_outside_ref n i : first_outside ((fun k => ((i + k)%nat, (i + k)%nat)) <$> seq 0 n) = scan_ref n i.
Proof.
  revert i. induction n as [|n IH]; intros i; [done|]. cbn [seq fmap list_fmap first_outside scan_ref].
  rewrite Nat.add_0_r. destruct (outside i) as [[]|]; [done| |done]. cbn [mbind option_bind].
  rewrite <- IH, <- fmap_S_seq, <- list_fmap_compose. f_equal. apply list_fmap_ext. intros k x _. cbn. f_equal; lia.
Qed.

Lemma scan_ref_app n1 n2 i : scan_ref (n1 + n2) i =
  r ← scan_ref n1 i; match r with Some x => Some (Some x) | None => scan_ref n2 (i + n1) end.
Proof.
  revert i. induction n1 as [|n1 IH]; intros i; cbn [scan_ref Nat.add mbind option_bind]; [by rewrite Nat.add_0_r|].
  destruct (outside i) as [[]|]; [done| |done]. cbn [mbind option_bind]. rewrite IH. by rewrite Nat.add_succ_r.
Qed.

(** A class of one bit: every test gives the bit or nothing. *)
Hypothesis one_bit : exists b, 0 <= b /\ bitmask = 2 ^ b.

Lemma is_type_cases c : is_type c = 0 \/ is_type c = bitmask.
Proof.
  unfold is_type. destruct one_bit as (b & Hb & ->). destruct (Z.testbit (ctype c) b) eqn:E; [right|left];
    apply Z.bits_inj'; intros n Hn; rewrite Z.land_spec, ?Z.bits_0; (destruct (decide (n = b)) as [->|Hne];
    [rewrite Z.pow2_bits_true by lia|rewrite Z.pow2_bits_false by lia]); rewrite ?E, ?andb_false_r, ?andb_true_r; done.
Qed.

Lemma bitmask_nonzero : bitmask <> 0.
Proof. destruct one_bit as (b & Hb & ->). pose proof (Z.pow_pos_nonneg 2 b). lia. Qed.

Lemma scan_words_ref w i : (i + 4 * w <= length mem)%nat -> scan_words w i = scan_ref (4 * w) i.
Proof.
  revert i. induction w as [|w IH]; intros i Hi; [done|]. replace (4 * S w)%nat with (4 + 4 * w)%nat by lia.
  rewrite scan_ref_app. cbn [scan_words].
  destruct (lookup_lt_is_Some_2 mem i) as [c0 E0]; [lia|]. destruct (lookup_lt_is_Some_2 mem (i + 1)) as [c1 E1]; [lia|].
  destruct (lookup_lt_is_Some_2 mem (i + 2)) as [c2 E2]; [lia|]. destruct (lookup_lt_is_Some_2 mem (i + 3)) as [c3 E3]; [lia|].
  rewrite E0, E1, E2, E3. cbn [mbind option_bind scan_ref]. unfold outside.
  replace (S i) with (i + 1)%nat by lia. replace (S (i + 1)) with (i + 2)%nat by lia. replace (S (i + 2)) with (i + 3)%nat by lia.
  rewrite E0, E1, E2, E3. cbn [mbind option_bind]. pose proof bitmask_nonzero as Hm. apply Z.eqb_neq in Hm.
  destruct (is_type_cases c0) as [->| ->]; [done|]. rewrite Hm.
  destruct (is_type_cases c1) as [->| ->]; [rewrite Z.land_0_r; done|]. rewrite Hm, Z.land_diag.
  destruct (is_type_cases c2) as [->| ->]; [rewrite Z.land_0_r; done|]. rewrite Hm, Z.land_diag.
  destruct (is_type_cases c3) as [->| ->]; [rewrite Z.land_0_r; done|]. rewrite Hm, Z.land_diag, Hm.
  apply IH. lia.
Qed.

Lemma scan_while_aligned_ref ptr n : (ptr mod 4 = 0)%nat -> (ptr + n <= length mem)%nat -> Z.of_nat n < 2 ^ 32 ->
  scan_while ptr n = scan_ref n ptr.
Proof.
  intros Ha Hl Hn. unfold scan_while. rewrite Ha. cbn [Nat.eqb]. rewrite Z.sub_0_r, wrapu_id by lia.
  rewrite Z.shiftr_div_pow2 by lia. change (2 ^ 2) with (Z.of_nat 4). rewrite <- Nat2Z.inj_div.
  destruct (Z.eqb_spec (Z.of_nat (n / 4)) 0) as [|_]; [apply first_outside_ref|].
  rewrite Nat2Z.id, !Nat.sub_0_r, !Nat.add_0_r, !Z.add_0_r.
  cbn [first_outside mbind option_bind]. pose proof (Nat.div_mod_eq n 4) as Hd. pose proof (Nat.mod_upper_bound n 4 ltac:(lia)) as Hr.
  set (w := (n / 4)%nat) in *. set (b := (n mod 4)%nat) in *. rewrite scan_words_ref by lia.
  assert (Hb : Z.to_nat (u64 (Z.of_nat n - u64 (Z.shiftl (Z.of_nat w) 2))) = b).
  { rewrite Z.shiftl_mul_pow2 by lia. rewrite (wrapu_id 64 (Z.of_nat w * 2 ^ 2)), wrapu_id by lia. lia. }
  rewrite Hb, Hd, scan_ref_app. replace (w * 4)%nat with (4 * w)%nat by lia.
  destruct (scan_ref (4 * w) ptr) as [[r|]|]; [done| |done]. cbn [mbind option_bind]. rewrite <- first_outside_ref.
  clearbody b. destruct b as [|[|[|[|b]]]]; [done|..|lia]; cbn [seq fmap list_fmap]; rewrite ?Nat.add_0_r; reflexivity.
Qed.
End scan.

(** ** Theorems *)

(** On an aligned buffer and a class of one bit the word-wise scan is the
    byte-wise one: it returns the first character outside the class. *)
Theorem scan_while_aligned ctype mem b ptr n : 0 <= b -> (ptr mod 4 = 0)%nat -> (ptr + n <= length mem)%nat ->
  Z.of_nat n < 2 ^ 32 -> scan_while ctype mem (2 ^ b) ptr n = scan_ref ctype mem (2 ^ b) n ptr.
Proof. intros Hb. apply scan_while_aligned_ref. by exists b. Qed.

(** The digit class of the table. *)
Definition digit_table (c : Z) : Z := if is_digit c then 2 ^ 4 else 0.

Lemma scan_while_aligned_witness : scan_while digit_table (chars "1234567x9") (2 ^ 4) 0 9 = Some (Some 7%nat).
Proof. rewrite scan_while_aligned; [reflexivity|lia|reflexivity|vm_compute; lia|lia]. Defined.

(** On a buffer one past an aligned address, a first character outside the
    class is reported one place too far; and with fewer bytes than the padding
    to the next word the count of words wraps around, so that the scan of one
    byte reports a character beyond it. *)
Theorem scan_while_misaligned :
  scan_while digit_table (chars "-x12345678") (2 ^ 4) 1 9 = Some (Some 2%nat) /\
  scan_ref digit_table (chars "-x12345678") (2 ^ 4) 9 1 = Some (Some 1%nat) /\
  scan_while digit_table (chars "-1234x67") (2 ^ 4) 1 1 = Some (Some 5%nat) /\
  scan_ref digit_table (chars "-1234x67") (2 ^ 4) 1 1 = Some None.
Proof.
  split; [vm_compute; reflexivity|]. split; [vm_compute; reflexivity|]. split; [|vm_compute; reflexivity].
  unfold scan_while. change (1 mod 4)%nat with 1%nat. cbn [Nat.eqb Nat.sub].
  change (Z.shiftr (u64 (Z.of_nat 1 - Z.of_nat 3)) 2) with (2 ^ 62 - 1). change (2 ^ 62 - 1 =? 0) with false. cbv iota.
  assert (Hw : exists w, Z.to_nat (2 ^ 62 - 1) = S w) by (exists (Z.to_nat (2 ^ 62 - 2)); lia).
  destruct Hw as [w ->]. reflexivity.
Qed.
