(* ===== verification/MimeDate.v ===== *)
(** Numbers and dates in MIME headers ([proxy/hdrs/MIME.cc]): the formatters
    and parsers of integers and of HTTP dates.

    A buffer [(buf, end)] is the list of its characters.  The day- and
    month-name automata are compiled by [libinktomi++/Regex.cc]; here they are
    the parameters [day_match] and [month_match]: the index of the name the
    whole string is, or a negative number. *)

From S2P Require Import Prelude ParseRules.
From Stdlib Require Import Ascii.

(** ** Integers *)

(** The result of a formatter: the characters written and the length
    returned.  [snprintf] cuts at [buf_len]. *)
Definition snprintf (s : list Z) (buf_len : nat) : list Z * Z := (take (buf_len - 1) s, Z.of_nat (length s)).

(** The digit of [val] after [k] divisions by ten. *)
Definition digit_of (val : Z) (k : nat) : Z := 48 + Nat.iter k (fun v => v `quot` 10) val `rem` 10.

(** The last [k] digits, as the straight-line code writes them. *)
Definition digits_of (k : nat) (val : Z) : list Z := rev (map (digit_of val) (seq 0 k)).

Definition mime_format_small (val : Z) : list Z * Z :=
  if val <? 100 then
    if val <? 10 then ([48 + val], 1) else (digits_of 2 val, 2)
  else if val <? 1000 then (digits_of 3 val, 3)
  else if val <? 10000 then (digits_of 4 val, 4)
  else (digits_of 5 val, 5).

Definition mime_format_int (val : Z) (buf_len : nat) : list Z * Z :=
  if (val <? 0) || (val >=? 100000) then snprintf (sprintf_d val) buf_len else mime_format_small val.

Definition mime_format_uint (val : Z) (buf_len : nat) : list Z * Z :=
  if val >=? 100000 then snprintf (sprintf_u val) buf_len else mime_format_small val.

(** Digit loops bounded by [end] only: a NUL is not a digit. *)
Fixpoint scan_digits_end (f : Z -> Z -> Z) (buf : list Z) (num : Z) : Z * list Z :=
  match buf with
  | [] => (num, [])
  | c :: buf' => if is_digit c then scan_digits_end f buf' (f num c) else (num, buf)
  end.

Fixpoint skip_class (p : Z -> bool) (buf : list Z) : list Z :=
  match buf with
  | [] => []
  | c :: buf' => if p c then skip_class p buf' else buf
  end.

Definition mime_parse_int (buf : list Z) : Z :=
  match buf with
  | [] => 0
  | c :: buf' =>
    if is_digit c then (scan_digits_end (fun num c => i32 (num * 10 + (c - 48))) buf' (c - 48)).1
    else
      let b := skip_class is_space buf in
      let negative := match b with [] => false | x :: _ => x =? ch "-" end in
      let b1 := if negative then drop 1 b else b in
      let num := (scan_digits_end (fun num c => i32 (num * 10 - (c - 48))) b1 0).1 in
      if negative then num else i32 (- num)
  end.

Definition mime_parse_uint (buf : list Z) : Z :=
  match buf with
  | [] => 0
  | c :: buf' =>
    if is_digit c then (scan_digits_end (fun num c => u32 (num * 10 + (c - 48))) buf' (c - 48)).1
    else (scan_digits_end (fun num c => u32 (num * 10 + (c - 48))) (skip_class is_space buf) 0).1
  end.

(** ** Days to month, day and year *)

Definition DAYS_OFFSET : Z := 25508.

(** [months]: the month of a day counted from March, by its runs. *)
Definition months : list Z :=
  replicate 32 2 ++ replicate 30 3 ++ replicate 31 4 ++ replicate 30 5 ++ replicate 31 6 ++ replicate 31 7 ++
  replicate 30 8 ++ replicate 31 9 ++ replicate 30 10 ++ replicate 31 11 ++ replicate 31 0 ++ replicate 29 1.

Definition days : list Z := [305; 336; -1; 30; 60; 91; 121; 152; 183; 213; 244; 274].

(** The last day before March of the year [1900 + year]. *)
Definition year_base (year : Z) : Z :=
  year * 365 + year `quot` 4 - year `quot` 100 + (year `quot` 100 + 3) `quot` 4 - DAYS_OFFSET - 1.

(** [while (dp < mday)]: the year and the base of the one before it. *)
Fixpoint find_year (fuel : nat) (mday year d dp : Z) : option (Z * Z) :=
  if dp <? mday then
    match fuel with
    | O => None
    | S f => find_year f mday (year + 1) dp (year_base (year + 1))
    end
  else Some (year, d).

(** [None] is the "bad date" assertion, which leaves the results unset. *)
Definition mime_days_since_epoch_to_mdy_slowcase (days_since_jan_1_1970 : Z) : option (Z * Z * Z) :=
  let mday := i32 days_since_jan_1_1970 in
  let year := mday `quot` 365 + 69 in
  let d0 := year_base year in
  '(year1, d1) ← find_year (Z.to_nat (mday `quot` 365 + 8)) mday year d0 d0;
  let d := mday - d1 in
  if (d <? 0) || (d >? 366) then None
  else
    let month := months !!! Z.to_nat d in
    let year2 := if month >? 1 then year1 - 1 else year1 in
    Some (month, d - days !!! Z.to_nat month - 1, year2 + 1900).

(** The table of [mime_init_date_format_table]: the first day and the entries
    for the 733 days around now, each cut to the widths of [MDY]. *)
Definition mime_init_date_format_table (now_secs : Z) : Z * list (option (Z * Z * Z)) :=
  let now_days := i32 (now_secs `quot` (60 * 60 * 24)) in
  let first_days := now_days - 366 in
  let num_days := now_days + 366 - first_days + 1 in
  (u32 first_days,
   (fun i => '(m, d, y) ← mime_days_since_epoch_to_mdy_slowcase (u32 (first_days + Z.of_nat i));
             Some (u8 m, u8 d, u16 y)) <$> seq 0 (Z.to_nat num_days)).

Definition mime_days_since_epoch_to_mdy (table : Z * list (option (Z * Z * Z))) (days_since_jan_1_1970 : Z)
  : option (Z * Z * Z) :=
  let first := table.1 in
  let last := u32 (first + 732) in
  if (days_since_jan_1_1970 >=? first) && (days_since_jan_1_1970 <=? last)
  then table.2 !!! Z.to_nat (i32 (days_since_jan_1_1970 - first))
  else mime_days_since_epoch_to_mdy_slowcase days_since_jan_1_1970.

(** ** Formatting a date *)

Definition daystrs : list (list Z) :=
  [chars "Sun"; chars "Mon"; chars "Tue"; chars "Wed"; chars "Thu"; chars "Fri"; chars "Sat"].
Definition monthstrs : list (list Z) :=
  [chars "Jan"; chars "Feb"; chars "Mar"; chars "Apr"; chars "May"; chars "Jun";
   chars "Jul"; chars "Aug"; chars "Sep"; chars "Oct"; chars "Nov"; chars "Dec"].
(** "00" to "99". *)
Definition digitstrs : list (list Z) := (fun n => [48 + Z.of_nat n / 10; 48 + Z.of_nat n mod 10]) <$> seq 0 100.

Definition year_digits (year : Z) : list Z :=
  if (year >=? 2000) && (year <=? 2009) then [50; 48; 48; (year - 2000) + 48]
  else if (year >=? 1990) && (year <=? 1999) then [49; 57; 57; (year - 1990) + 48]
  else
    [(year `quot` 10 `quot` 10 `quot` 10) `rem` 10 + 48; (year `quot` 10 `quot` 10) `rem` 10 + 48;
     (year `quot` 10) `rem` 10 + 48; year `rem` 10 + 48].

(** The 29 characters; [None] when the days cannot be converted. *)
Definition mime_format_date (table : Z * list (option (Z * Z * Z))) (value : Z) : option (list Z) :=
  let sec := value `rem` 60 in
  let v1 := value `quot` 60 in
  let min := v1 `rem` 60 in
  let v2 := v1 `quot` 60 in
  let hour := v2 `rem` 24 in
  let v3 := v2 `quot` 24 in
  let wday := (4 + v3) `rem` 7 in
  '(month, mday, year) ← mime_days_since_epoch_to_mdy table (u32 v3);
  Some (daystrs !!! Z.to_nat wday ++ [44; 32] ++ digitstrs !!! Z.to_nat mday ++ [32] ++
        monthstrs !!! Z.to_nat month ++ [32] ++ year_digits year ++ [32] ++
        digitstrs !!! Z.to_nat hour ++ [58] ++ digitstrs !!! Z.to_nat min ++ [58] ++
        digitstrs !!! Z.to_nat sec ++ [32] ++ chars "GMT").

(** ** Parsing a date *)

Record tm := mkTm { tm_mday : Z; tm_mon : Z; tm_year : Z; tm_hour : Z; tm_min : Z; tm_sec : Z }.

(** Three characters as an [unsigned int]; a [char] is signed. *)
Definition three_char (a b c : Z) : Z := u32 (Z.lor (Z.lor (Z.shiftl a 16) (Z.shiftl b 8)) c).

Definition wday_search (w : Z) : Z :=
  if w <=? 0x53756E then
    if w =? 0x467269 then 5 else if w =? 0x4D6F6E then 1 else if w =? 0x536174 then 6
    else if w =? 0x53756E then 0 else -1
  else if w =? 0x546875 then 4 else if w =? 0x547565 then 2 else if w =? 0x576564 then 3 else -1.

Definition mon_search (m : Z) : Z :=
  if m <=? 0x4A756C then
    if m <=? 0x446563 then
      if m =? 0x417072 then 3 else if m =? 0x417567 then 7 else if m =? 0x446563 then 11 else -1
    else if m =? 0x466562 then 1 else if m =? 0x4A616E then 0 else if m =? 0x4A756C then 6 else -1
  else
    if m <=? 0x4D6179 then
      if m =? 0x4A756E then 5 else if m =? 0x4D6172 then 2 else if m =? 0x4D6179 then 4 else -1
    else if m =? 0x4E6F76 then 10 else if m =? 0x4F6374 then 9 else if m =? 0x536570 then 8 else -1.

Section parse.
Variables day_match month_match : list Z -> Z.

Definition mime_parse_rfc822_date_fastcase (buf : list Z) : option tm :=
  let c := fun i => buf !!! i in
  let d := fun i => c i - 48 in
  let wday0 := wday_search (three_char (c 0%nat) (c 1%nat) (c 2%nat)) in
  let wday := if wday0 <? 0 then day_match buf else wday0 in
  if wday <? 0 then None
  else
    let mon0 := mon_search (three_char (c 8%nat) (c 9%nat) (c 10%nat)) in
    let mon := if mon0 <? 0 then month_match buf else mon0 in
    if mon <? 0 then None
    else if negb (c 19%nat =? ch ":") || negb (c 22%nat =? ch ":") then None
    else
      Some (mkTm (d 5%nat * 10 + d 6%nat) mon
              (d 12%nat * 1000 + d 13%nat * 100 + d 14%nat * 10 + d 15%nat - 1900)
              (d 17%nat * 10 + d 18%nat) (d 20%nat * 10 + d 21%nat) (d 23%nat * 10 + d 24%nat)).

(** Skip to a name, and match the run of letters. *)
Definition parse_name (match_ : list Z -> Z) (buf : list Z) : option (Z * list Z) :=
  let b := skip_class (fun c => negb (c =? 0) && negb (is_alpha c)) buf in
  let e := skip_class (fun c => negb (c =? 0) && is_alpha c) b in
  let r := match_ (take (length b - length e) b) in
  if r <? 0 then None else Some (r, e).

Definition mime_parse_day (buf : list Z) : option (Z * list Z) := parse_name day_match buf.
Definition mime_parse_month (buf : list Z) : option (Z * list Z) := parse_name month_match buf.

Definition mime_parse_integer (buf : list Z) : option (Z * list Z) :=
  let b := skip_class (fun c => negb (c =? 0) && negb (is_digit c) && negb (c =? ch "-")) buf in
  match b with
  | [] => None
  | c :: b' =>
    if c =? 0 then None
    else
      let negative := c =? ch "-" in
      let '(val, e) := scan_digits_end (fun v c => i32 (v * 10 + (c - 48))) (if negative then b' else b) 0 in
      Some (if negative then i32 (- val) else val, e)
  end.

Definition mime_parse_mday (buf : list Z) : option (Z * list Z) := mime_parse_integer buf.

Definition mime_parse_year (buf : list Z) : option (Z * list Z) :=
  let b := skip_class (fun c => negb (c =? 0) && negb (is_digit c)) buf in
  match b with
  | [] => None
  | c :: _ =>
    if c =? 0 then None
    else
      let '(val, e) := scan_digits_end (fun v c => i32 (v * 10 + (c - 48))) b 0 in
      Some (if val >=? 1900 then val - 1900 else if val <? 70 then val + 100 else val, e)
  end.

Definition mime_parse_time (buf : list Z) : option (Z * Z * Z * list Z) :=
  '(hour, b1) ← mime_parse_integer buf;
  '(min, b2) ← mime_parse_integer b1;
  '(sec, b3) ← mime_parse_integer b2;
  Some (hour, min, sec, b3).

(** Day, month, year, time: the NNTP, RFC 822 and RFC 850 orders. *)
Definition parse_dmy (buf : list Z) : option tm :=
  '(mday, b1) ← mime_parse_mday buf;
  '(mon, b2) ← mime_parse_month b1;
  '(year, b3) ← mime_parse_year b2;
  '(h, m, s, _) ← mime_parse_time b3;
  Some (mkTm mday mon year h m s).

(** Month, day, time, year: the order of [asctime]. *)
Definition parse_asctime (buf : list Z) : option tm :=
  '(mon, b1) ← mime_parse_month buf;
  '(mday, b2) ← mime_parse_mday b1;
  '(h, m, s, b3) ← mime_parse_time b2;
  '(year, _) ← mime_parse_year b3;
  Some (mkTm mday mon year h m s).

Definition parse_fields (buf : list Z) : option tm :=
  let b := skip_class is_ws buf in
  if match b with c :: _ => is_digit c | [] => false end then parse_dmy b
  else if (29 <=? length b)%nat && (b !!! 3%nat =? ch ",") then mime_parse_rfc822_date_fastcase b
  else
    '(_, b1) ← mime_parse_day b;
    let b2 := skip_class is_ws b1 in
    if match b2 with c :: _ => (c =? ch ",") || is_digit c | [] => false end then parse_dmy b2
    else parse_asctime b2.

(** The days since the epoch of a date, the year counted from 1900. *)
Definition date_days (mday0 month year : Z) : Z :=
  let mday := mday0 + days !!! Z.to_nat month in
  let year1 := if month <? 2 then year - 1 else year in
  mday + (year1 * 365 + year1 `quot` 4 - year1 `quot` 100 + (year1 `quot` 100 + 3) `quot` 4) - DAYS_OFFSET.

(** The seconds since the epoch of a broken-down time. *)
Definition tm_seconds (t : tm) : Z :=
  if tm_year t >? 137 then 2147483647
  else if tm_year t <? 70 then 0
  else i32 (((date_days (tm_mday t) (tm_mon t) (tm_year t) * 24 + tm_hour t) * 60 + tm_min t) * 60 + tm_sec t).

Definition mime_parse_date (buf : list Z) : Z :=
  match parse_fields buf with Some t => tm_seconds t | None => 0 end.
End parse.

(** ** Reference calendar *)

Definition leap (y : Z) : bool := ((y mod 4 =? 0) && negb (y mod 100 =? 0)) || (y mod 400 =? 0).

Definition month_length (m y : Z) : Z :=
  if m =? 1 then if leap y then 29 else 28
  else if one_of m [3; 5; 8; 10] then 30 else 31.

(** The day after (month from 0, day from 1, year). *)
Definition next_date (date : Z * Z * Z) : Z * Z * Z :=
  let '(m, d, y) := date in
  if d <? month_length m y then (m, d + 1, y)
  else if m <? 11 then (m + 1, 1, y) else (0, 1, y + 1).

(** The date [n] days after January 1, 1970. *)
Definition civil (n : nat) : Z * Z * Z := Nat.iter n next_date (0, 1, 1970).

(** * Theorems about MIME numbers and dates: formatting and parsing are inverse,
    the fast paths agree with the general ones, and the day conversion is the
    Gregorian calendar. *)

(** ** Integers *)

Lemma scan_end f l num : Forall (fun c => is_digit c = true) l -> scan_digits_end f l num = (foldl f num l, []).
Proof.
  revert num. induction l as [|c l IH]; intros num H; [done|]. apply Forall_cons in H as [Hc Hl].
  cbn [scan_digits_end foldl]. rewrite Hc. by apply IH.
Qed.

(** Truncating and flooring division agree on naturals. *)
Lemma quot10 x : 0 <= x -> x `quot` 10 = x / 10 /\ x `rem` 10 = x mod 10 /\ 0 <= x / 10 /\ 10 * (x / 10) <= x < 10 * (x / 10) + 10.
Proof.
  intros Hx. split; [apply Z.quot_div_nonneg; lia|]. split; [apply Z.rem_mod_nonneg; lia|].
  split; [apply Z.div_pos; lia|]. pose proof (Z.div_mod x 10 ltac:(lia)). pose proof (Z.mod_pos_bound x 10 ltac:(lia)). lia.
Qed.

Ltac ten x := let Hq := fresh "Hq" in let Hr := fresh "Hr" in
  destruct (quot10 x) as (Hq & Hr & ? & ?); [lia|]; rewrite ?Hq, ?Hr.

(** The straight-line code writes what [snprintf] would. *)
Lemma format_small_spec v : 0 <= v < 100000 -> mime_format_small v = (udec 20 v [], Z.of_nat (length (udec 20 v []))).
Proof.
  intros Hv. unfold mime_format_small, digits_of, digit_of. cbn [seq map rev app Nat.iter nat_rect].
  ten v. ten (v / 10). ten (v / 10 / 10). ten (v / 10 / 10 / 10). ten (v / 10 / 10 / 10 / 10).
  assert (S1 : forall f x acc, x < 10 -> udec (S f) x acc = (48 + x mod 10) :: acc)
    by (intros f x acc Hx; cbn [udec]; by rewrite (proj2 (Z.ltb_lt x 10)) by lia).
  assert (S2 : forall f x acc, 10 <= x -> udec (S f) x acc = udec f (x / 10) ((48 + x mod 10) :: acc))
    by (intros f x acc Hx; cbn [udec]; by rewrite (proj2 (Z.ltb_ge x 10)) by lia).
  destruct (Z.ltb_spec v 100); [destruct (Z.ltb_spec v 10)|destruct (Z.ltb_spec v 1000); [|destruct (Z.ltb_spec v 10000)]].
  - rewrite S1 by lia. rewrite Z.mod_small by lia. reflexivity.
  - rewrite S2, S1 by lia. reflexivity.
  - rewrite S2, S2, S1 by lia. reflexivity.
  - rewrite S2, S2, S2, S1 by lia. reflexivity.
  - rewrite S2, S2, S2, S2, S1 by lia. reflexivity.
Qed.

Lemma parse_udec v : 0 <= v < 2 ^ 31 -> mime_parse_int (udec 20 v []) = v.
Proof.
  intros Hv. destruct (udec_cons 19 v) as (c & l & E). destruct (udec_head v c l ltac:(lia) E) as (Hc & Hl & Hs).
  rewrite E. cbn [mime_parse_int]. rewrite Hc. pose proof (digit_range c Hc).
  apply Forall_cons in Hl as [_ Hl]. rewrite scan_end by done. cbn [fst].
  assert (G : foldl (fun num c => i32 (num * 10 + (c - 48))) (c - 48) l =
    foldl (fun num c => i32 (num * 10 + (c - 48))) 0 (c :: l)).
  { cbn [foldl]. f_equal. rewrite wraps_id; lia. }
  rewrite G, pos_digits, Hs by (done || lia). apply wraps_id; lia.
Qed.

(** ** Theorems on integers *)

(** Parsing inverts formatting for every 32-bit signed integer, through
    the straight-line code and through [snprintf], given room for the text. *)
Theorem mime_int_roundtrip v buf_len : - 2 ^ 31 <= v < 2 ^ 31 -> (12 <= buf_len)%nat ->
  mime_parse_int (mime_format_int v buf_len).1 = v /\
  (mime_format_int v buf_len).2 = Z.of_nat (length (mime_format_int v buf_len).1).
Proof.
  intros Hv Hb. unfold mime_format_int.
  assert (Hlen : forall x, 0 <= x <= 2 ^ 31 -> (length (udec 20 x []) <= 10)%nat).
  { intros x Hx. assert (G : forall f y, 0 <= y < 10 ^ Z.of_nat (S f) -> (length (udec 20 y []) <= S f)%nat \/ (19 < f)%nat).
    { assert (G' : forall f k y, (f <= k)%nat -> 0 <= y < 10 ^ Z.of_nat (S f) -> (length (udec (S k) y []) <= S f)%nat).
      { induction f as [|f IH]; intros k y Hk Hy; cbn [udec].
        - rewrite (proj2 (Z.ltb_lt y 10)) by (change (10 ^ Z.of_nat 1) with 10 in Hy; lia). done.
        - destruct (y <? 10); [simpl; lia|]. rewrite udec_app, length_app. destruct k as [|k]; [lia|].
          specialize (IH k (y / 10) ltac:(lia)). cbn [length].
          assert (0 <= y / 10 < 10 ^ Z.of_nat (S f)).
          { rewrite (Nat2Z.inj_succ (S f)), Z.pow_succ_r in Hy by lia. split; [apply Z.div_pos; lia|apply Z.div_lt_upper_bound; lia]. }
          specialize (IH H). lia. }
      intros f y Hy. destruct (decide (19 < f)%nat); [by right|left]. apply G'; [lia|done]. }
    destruct (G 9%nat x) as [?|?]; [change (10 ^ Z.of_nat 10) with 10000000000; lia|done|lia]. }
  destruct (Z.ltb_spec v 0) as [Hn|Hn]; [|rewrite Z.geb_leb; destruct (Z.leb_spec 100000 v)]; cbn [orb].
  - unfold snprintf, sprintf_d. rewrite (proj2 (Z.ltb_lt v 0)) by lia. cbn [fst snd].
    rewrite take_ge by (cbn [length]; specialize (Hlen (- v) ltac:(lia)); lia). split; [|done].
    destruct (udec_cons 19 (- v)) as (c & l & E). destruct (udec_head (- v) c l ltac:(lia) E) as (Hc & Hl & Hs).
    rewrite E. unfold mime_parse_int. change (is_digit (ch "-")) with false. cbn match.
    change (skip_class is_space (ch "-" :: c :: l)) with (ch "-" :: c :: l). cbn match. rewrite Z.eqb_refl. cbn [drop].
    rewrite scan_end by done. cbn [fst]. rewrite neg_digits, Hs, Z.opp_involutive by (done || lia). apply wraps_id; lia.
  - unfold snprintf, sprintf_d. rewrite (proj2 (Z.ltb_ge v 0)) by lia. cbn [fst snd].
    rewrite take_ge by (specialize (Hlen v ltac:(lia)); lia). split; [|done]. apply parse_udec. lia.
  - rewrite format_small_spec by lia. cbn [fst snd]. split; [|done]. apply parse_udec. lia.
Qed.

Lemma mime_int_roundtrip_witness : mime_parse_int (mime_format_int (- 2 ^ 31) 16).1 = - 2 ^ 31 /\ mime_parse_int (mime_format_int 4711 16).1 = 4711.
Proof. split; apply (mime_int_roundtrip _ 16); lia. Defined.

(** ** The calendar *)

Definition date_eqb (a b : Z * Z * Z) : bool :=
  let '(m, d, y) := a in let '(m', d', y') := b in (m =? m') && (d =? d') && (y =? y').

(** Walk the calendar and the two conversions side by side. *)
Fixpoint walk_dates (k : nat) (n : Z) (date : Z * Z * Z) : bool :=
  match k with
  | O => true
  | S k' =>
    match mime_days_since_epoch_to_mdy_slowcase n with
    | Some x =>
      if date_eqb x date && (date_days date.1.2 date.1.1 (date.2 - 1900) =? n)
      then walk_dates k' (n + 1) (next_date date) else false
    | None => false
    end
  end.

Lemma walk_dates_spec k n date j : walk_dates k n date = true -> (j < k)%nat ->
  let x := Nat.iter j next_date date in
  mime_days_since_epoch_to_mdy_slowcase (n + Z.of_nat j) = Some x /\
  date_days x.1.2 x.1.1 (x.2 - 1900) = n + Z.of_nat j.
Proof.
  revert n date j. induction k as [|k IH]; intros n date j H Hj; [lia|]. cbn [walk_dates] in H.
  destruct (mime_days_since_epoch_to_mdy_slowcase n) as [x|] eqn:E; [|done].
  destruct (date_eqb x date && _) eqn:Ed; [|done]. apply andb_true_iff in Ed as [Ed Eb].
  destruct j as [|j].
  - apply Z.eqb_eq in Eb. rewrite Z.add_0_r. cbn [Nat.iter nat_rect]. split; [|exact Eb]. rewrite E.
    f_equal. destruct x as [[m d] y], date as [[m' d'] y']. cbn in Ed. bsimp. by subst.
  - rewrite Nat2Z.inj_succ. replace (n + Z.succ (Z.of_nat j)) with (n + 1 + Z.of_nat j) by lia.
    rewrite Nat.iter_succ_r. apply (IH _ _ j H). lia.
Qed.

(** January 1, 2038. *)
Definition last_day : Z := 24837.

Lemma walk_ok : walk_dates (Z.to_nat last_day) 0 (0, 1, 1970) = true.
Proof. vm_compute. reflexivity. Qed.

Lemma slowcase_civil n : 0 <= n < last_day ->
  mime_days_since_epoch_to_mdy_slowcase n = Some (civil (Z.to_nat n)) /\
  date_days (civil (Z.to_nat n)).1.2 (civil (Z.to_nat n)).1.1 ((civil (Z.to_nat n)).2 - 1900) = n.
Proof.
  intros Hn. destruct (walk_dates_spec _ _ _ (Z.to_nat n) walk_ok) as [H1 H2]; [lia|].
  rewrite Z.add_0_l, Z2Nat.id in * by lia. done.
Qed.

(** Every date the calendar reaches is well formed. *)
Definition date_ok (y0 : Z) (date : Z * Z * Z) : Prop :=
  let '(m, d, y) := date in 0 <= m <= 11 /\ 1 <= d <= 31 /\ y0 <= y.

Lemma month_length_range m y : 28 <= month_length m y <= 31.
Proof. unfold month_length. destruct (m =? 1); [destruct (leap y)|destruct (one_of m _)]; lia. Qed.

Lemma civil_ok n : date_ok 1970 (civil n) /\ (civil n).2 <= 1970 + Z.of_nat n.
Proof.
  unfold civil. induction n as [|n IH]; [cbn; lia|]. cbn [Nat.iter nat_rect]. rewrite Nat2Z.inj_succ.
  change (nat_rect _ _ _ n) with (Nat.iter n next_date (0, 1, 1970)).
  destruct (Nat.iter n next_date (0, 1, 1970)) as [[m d] y]. cbn in IH. unfold next_date. pose proof (month_length_range m y).
  destruct (Z.ltb_spec d (month_length m y)); [cbn; lia|]. destruct (Z.ltb_spec m 11); cbn; lia.
Qed.

(** The last year of the range. *)
Lemma civil_year n : 0 <= n < last_day -> (civil (Z.to_nat n)).2 <= 2037.
Proof.
  intros Hn.
  assert (Hm : forall a b, (a <= b)%nat -> (civil a).2 <= (civil b).2).
  { intros a b Hab. induction Hab as [|b Hab IH]; [lia|]. etransitivity; [exact IH|]. unfold civil at 2.
    cbn [Nat.iter nat_rect]. change (nat_rect _ _ _ b) with (civil b). destruct (civil b) as [[m d] y]. unfold next_date.
    destruct (d <? month_length m y); [cbn; lia|]. destruct (m <? 11); cbn; lia. }
  etransitivity; [apply (Hm _ (Z.to_nat 24836)); unfold last_day in Hn; lia|]. vm_compute. discriminate.
Qed.

(** ** Text of a date *)

Lemma daystr w : 0 <= w < 7 -> exists a b c, daystrs !!! Z.to_nat w = [a; b; c] /\
  wday_search (three_char a b c) = w /\ is_ws a = false /\ is_digit a = false.
Proof.
  intros Hw. assert (w = 0 \/ w = 1 \/ w = 2 \/ w = 3 \/ w = 4 \/ w = 5 \/ w = 6) as Hc by lia.
  destruct Hc as [->|[->|[->|[->|[->|[->| ->]]]]]]; eexists _, _, _; (split; [vm_compute; reflexivity|]); done.
Qed.

Lemma monthstr m : 0 <= m <= 11 -> exists a b c, monthstrs !!! Z.to_nat m = [a; b; c] /\ mon_search (three_char a b c) = m.
Proof.
  intros Hm. assert (G : forallZ 12 (fun m => match monthstrs !!! Z.to_nat m with
    | [a; b; c] => mon_search (three_char a b c) =? m | _ => false end) 0 = true) by (vm_compute; reflexivity).
  apply (forallZ_spec _ _ _ m) in G; [|lia]. cbv beta in G. destruct (monthstrs !!! Z.to_nat m) as [|a [|b [|c [|]]]]; try done.
  exists a, b, c. split; [done|]. by apply Z.eqb_eq.
Qed.

Lemma digitstr k : 0 <= k < 100 -> exists a b, digitstrs !!! Z.to_nat k = [a; b] /\ (a - 48) * 10 + (b - 48) = k.
Proof.
  intros Hk. unfold digitstrs. rewrite list_lookup_total_alt. rewrite list_lookup_fmap, lookup_seq_lt by lia.
  cbn. eexists _, _. split; [reflexivity|]. rewrite Z2Nat.id by lia. pose proof (Z.div_mod k 10 ltac:(lia)). lia.
Qed.

Lemma yearstr y : 1970 <= y <= 2037 -> exists a b c d, year_digits y = [a; b; c; d] /\
  (a - 48) * 1000 + (b - 48) * 100 + (c - 48) * 10 + (d - 48) = y.
Proof.
  intros Hy. assert (G : forallZ 68 (fun y => match year_digits y with
    | [a; b; c; d] => (a - 48) * 1000 + (b - 48) * 100 + (c - 48) * 10 + (d - 48) =? y | _ => false end) 1970 = true)
    by (vm_compute; reflexivity).
  apply (forallZ_spec _ _ _ y) in G; [|lia]. cbv beta in G. destruct (year_digits y) as [|a [|b [|c [|d [|]]]]]; try done.
  exists a, b, c, d. split; [done|]. by apply Z.eqb_eq.
Qed.

(** The table answers as the slow case does. *)
Lemma table_slowcase now_secs n : 366 * 86400 <= now_secs < (last_day - 366) * 86400 -> 0 <= n < 2 ^ 32 ->
  mime_days_since_epoch_to_mdy (mime_init_date_format_table now_secs) n = mime_days_since_epoch_to_mdy_slowcase n.
Proof.
  intros Hnow Hn. unfold mime_days_since_epoch_to_mdy, mime_init_date_format_table. cbn [fst snd].
  change (60 * 60 * 24) with 86400. unfold last_day in Hnow. rewrite Z.quot_div_nonneg by lia.
  assert (Hd : 366 <= now_secs / 86400 < 24837 - 366).
  { split; [apply Z.div_le_lower_bound; lia|apply Z.div_lt_upper_bound; lia]. }
  rewrite (wraps_id 32 (now_secs / 86400)) by lia. set (nd := now_secs / 86400) in *. clearbody nd.
  rewrite (wrapu_id 32 (nd - 366)) by lia. rewrite (wrapu_id 32 (nd - 366 + 732)) by lia.
  destruct (Z.geb_spec n (nd - 366)); [|done]. destruct (Z.leb_spec n (nd - 366 + 732)); [|done]. cbn [andb].
  rewrite (wraps_id 32 (n - (nd - 366))) by lia.
  rewrite list_lookup_total_alt, list_lookup_fmap, lookup_seq_lt by lia. cbn [fmap option_fmap option_map default].
  rewrite Nat.add_0_l, Z2Nat.id by lia. replace (nd - 366 + (n - (nd - 366))) with n by lia. rewrite wrapu_id by lia.
  destruct (slowcase_civil n) as [-> _]; [unfold last_day; lia|].
  destruct (civil_ok (Z.to_nat n)) as [Hok Hy]. destruct (civil (Z.to_nat n)) as [[m d] y]. cbn in Hok, Hy.
  cbn [mbind option_bind]. rewrite !wrapu_id by lia. reflexivity.
Qed.

(** What formatting writes, and what the fast parser reads from it. *)
Lemma format_parse_fields dm mm table n h m s :
  0 <= n < last_day -> 0 <= h < 24 -> 0 <= m < 60 -> 0 <= s < 60 ->
  mime_days_since_epoch_to_mdy table n = mime_days_since_epoch_to_mdy_slowcase n ->
  exists text, mime_format_date table (((n * 24 + h) * 60 + m) * 60 + s) = Some text /\ length text = 29%nat /\
    parse_fields dm mm text = Some (mkTm (civil (Z.to_nat n)).1.2 (civil (Z.to_nat n)).1.1
      ((civil (Z.to_nat n)).2 - 1900) h m s).
Proof.
  intros Hn Hh Hm Hs Ht. unfold mime_format_date. unfold last_day in Hn.
  assert (Hdm : forall q r k, 0 <= q -> 0 <= r < k -> (q * k + r) `quot` k = q /\ (q * k + r) `rem` k = r).
  { intros q r k Hq Hr. rewrite Z.quot_div_nonneg, Z.rem_mod_nonneg by nia. rewrite Z.div_add_l, Z.div_small by lia.
    split; [lia|]. rewrite Z.add_comm, Z.mod_add, Z.mod_small by lia. done. }
  destruct (Hdm ((n * 24 + h) * 60 + m) s 60) as [-> ->]; [lia|lia|].
  destruct (Hdm (n * 24 + h) m 60) as [-> ->]; [lia|lia|]. destruct (Hdm n h 24) as [-> ->]; [lia|lia|].
  rewrite (wrapu_id 32 n) by lia. rewrite Ht. destruct (slowcase_civil n) as [-> _]; [unfold last_day; lia|].
  destruct (civil_ok (Z.to_nat n)) as [Hok _]. pose proof (civil_year n ltac:(unfold last_day; lia)) as Hy.
  destruct (civil (Z.to_nat n)) as [[mo d] y]. cbn in Hok, Hy. cbn [mbind option_bind fst snd].
  rewrite (Z.rem_mod_nonneg (4 + n) 7) by lia.
  destruct (daystr ((4 + n) mod 7)) as (d0 & d1 & d2 & -> & Hw & Hws & Hdg); [apply Z.mod_pos_bound; lia|].
  destruct (digitstr d) as (a0 & a1 & -> & Hd); [lia|]. destruct (monthstr mo) as (m0 & m1 & m2 & -> & Hmo); [lia|].
  destruct (yearstr y) as (y0 & y1 & y2 & y3 & -> & Hyr); [lia|].
  destruct (digitstr h) as (h0 & h1 & -> & Hhr); [lia|]. destruct (digitstr m) as (n0 & n1 & -> & Hmn); [lia|].
  destruct (digitstr s) as (s0 & s1 & -> & Hsc); [lia|]. change (chars "GMT") with [71; 77; 84].
  cbn [app]. eexists. split; [reflexivity|]. split; [reflexivity|].
  unfold parse_fields. cbn [skip_class]. rewrite Hws, Hdg.
  match goal with |- context [(29 <=? length ?l)%nat] => change (29 <=? length l)%nat with true end.
  match goal with |- context [?l !!! 3%nat =? ch ","] => change (l !!! 3%nat =? ch ",") with true end. cbn [andb].
  unfold mime_parse_rfc822_date_fastcase. cbn [lookup_total list_lookup_total].
  rewrite Hw, Hmo. rewrite (proj2 (Z.ltb_ge ((4 + n) mod 7) 0)) by (apply Z.mod_pos_bound; lia).
  rewrite (proj2 (Z.ltb_ge ((4 + n) mod 7) 0)) by (apply Z.mod_pos_bound; lia).
  rewrite !(proj2 (Z.ltb_ge mo 0)) by lia. change (58 =? ch ":") with true. cbn [negb orb].
  rewrite Hd, Hyr, Hhr, Hmn, Hsc. reflexivity.
Qed.

(** A reference automaton for the names: the index of the name equal to the
    string, letter case aside. *)
Definition name_match (names : list (list Z)) (s : list Z) : Z :=
  match list_find (fun x => map ink_tolower x = map ink_tolower s) names with
  | Some (i, _) => Z.of_nat i
  | None => -2
  end.

(** ** Theorems on dates *)

(** from the epoch to the end of 2037 the conversion of days to month, day
    and year is the Gregorian calendar counted day by day, and the parser's
    conversion back is its inverse. *)
Theorem mdy_calendar n : (n < Z.to_nat last_day)%nat ->
  mime_days_since_epoch_to_mdy_slowcase (Z.of_nat n) = Some (civil n) /\
  let '(m, d, y) := civil n in date_days d m (y - 1900) = Z.of_nat n.
Proof.
  intros Hn. destruct (slowcase_civil (Z.of_nat n)) as [H1 H2]; [lia|]. rewrite Nat2Z.id in *.
  split; [done|]. by destruct (civil n) as [[m d] y].
Qed.

Lemma mdy_calendar_witness : mime_days_since_epoch_to_mdy_slowcase (Z.of_nat 59) = Some (civil 59) /\
  civil 59 = (2, 1, 1970).
Proof.
  destruct (mdy_calendar 59) as [H _]; [unfold last_day; lia|]. split; [exact H|vm_compute; reflexivity].
Defined.

(** With the lookup table of any start-up time up to 2036, the fast
    conversion is the slow one on every day. *)
Theorem mdy_fast_table now_secs n :
  366 * 86400 <= now_secs < (last_day - 366) * 86400 -> 0 <= n < 2 ^ 32 ->
  mime_days_since_epoch_to_mdy (mime_init_date_format_table now_secs) n = mime_days_since_epoch_to_mdy_slowcase n.
Proof. apply table_slowcase. Qed.

Lemma mdy_fast_table_witness : mime_days_since_epoch_to_mdy (mime_init_date_format_table 1258500000) 14565 = Some (10, 17, 2009).
Proof. rewrite mdy_fast_table; [vm_compute; reflexivity|unfold last_day; lia|lia]. Defined.

(** C8: a date written by the proxy is read back as the same second, for every
    second from the epoch to the end of 2037, whatever the name automata do:
    the fast parser reads its own format. *)
Theorem date_roundtrip day_match month_match now_secs t :
  366 * 86400 <= now_secs < (last_day - 366) * 86400 -> 0 <= t < last_day * 86400 ->
  exists text, mime_format_date (mime_init_date_format_table now_secs) t = Some text /\ length text = 29%nat /\
    mime_parse_date day_match month_match text = t.
Proof.
  intros Hnow Ht. unfold last_day in Ht.
  set (n := t / 86400). set (r := t mod 86400). pose proof (Z.div_mod t 86400 ltac:(lia)) as E1. fold n r in E1.
  pose proof (Z.mod_pos_bound t 86400 ltac:(lia)) as Hr. fold r in Hr.
  set (h := r / 3600). set (r2 := r mod 3600). pose proof (Z.div_mod r 3600 ltac:(lia)) as E2. fold h r2 in E2.
  pose proof (Z.mod_pos_bound r 3600 ltac:(lia)) as Hr2. fold r2 in Hr2.
  set (m := r2 / 60). set (s := r2 mod 60). pose proof (Z.div_mod r2 60 ltac:(lia)) as E3. fold m s in E3.
  pose proof (Z.mod_pos_bound r2 60 ltac:(lia)) as Hs. fold s in Hs. clearbody n r h r2 m s.
  assert (Hn : 0 <= n < last_day) by (unfold last_day; lia). assert (Hh : 0 <= h < 24) by lia. assert (Hm : 0 <= m < 60) by lia.
  destruct (format_parse_fields day_match month_match (mime_init_date_format_table now_secs) n h m s Hn Hh Hm Hs)
    as (text & F & L & P).
  { apply table_slowcase; unfold last_day in *; lia. }
  replace t with (((n * 24 + h) * 60 + m) * 60 + s) by lia. exists text. split; [done|]. split; [done|].
  unfold mime_parse_date. rewrite P. unfold tm_seconds. cbn [tm_year tm_mday tm_mon tm_hour tm_min tm_sec].
  destruct (slowcase_civil n Hn) as [_ Hd]. pose proof (civil_year n Hn). destruct (civil_ok (Z.to_nat n)) as [Hok _].
  rewrite Hd. destruct (civil (Z.to_nat n)) as [[mo d] y]. cbn in *.
  rewrite Z.gtb_ltb, (proj2 (Z.ltb_ge 137 (y - 1900))), (proj2 (Z.ltb_ge (y - 1900) 70)) by lia.
  apply wraps_id; lia.
Qed.

Lemma date_roundtrip_witness : exists text, mime_format_date (mime_init_date_format_table 1258500000) 784111777 = Some text /\
  mime_parse_date (fun _ => -2) (fun _ => -2) text = 784111777.
Proof.
  destruct (date_roundtrip (fun _ => -2) (fun _ => -2) 1258500000 784111777) as (text & F & _ & P);
    [unfold last_day; lia|unfold last_day; lia|]. exists text. split; [exact F|exact P].
Defined.

(** A date of 29 characters or more with a comma in the fourth place whose
    month is not spelled in the usual letter case is rejected: the fallback
    hands the month automaton the text from its first character on, which is
    longer than any month name. *)
Theorem date_month_case_rejected day_match month_match buf :
  (forall s, (9 < length s)%nat -> month_match s < 0) ->
  is_ws (buf !!! 0%nat) = false -> is_digit (buf !!! 0%nat) = false -> (29 <= length buf)%nat -> buf !!! 3%nat = ch "," ->
  mon_search (three_char (buf !!! 8%nat) (buf !!! 9%nat) (buf !!! 10%nat)) < 0 ->
  mime_parse_date day_match month_match buf = 0.
Proof.
  intros Hmm Hws Hdg Hlen Hcomma Hmon. unfold mime_parse_date, parse_fields.
  destruct buf as [|c0 buf']; [simpl in Hlen; lia|]. change ((c0 :: buf') !!! 0%nat) with c0 in *. set (buf := c0 :: buf') in *.
  assert (Hskip : skip_class is_ws buf = buf) by (unfold buf; cbn [skip_class]; by rewrite Hws). rewrite Hskip.
  unfold buf at 1. cbv iota. rewrite Hdg. rewrite (proj2 (Nat.leb_le 29 (length buf)) Hlen), Hcomma, Z.eqb_refl. cbn [andb].
  unfold mime_parse_rfc822_date_fastcase. cbv zeta. destruct (_ <? 0) eqn:Ew; [done|].
  rewrite (proj2 (Z.ltb_lt _ _) Hmon). rewrite (proj2 (Z.ltb_lt (month_match buf) 0)); [done|]. apply Hmm. lia.
Qed.

(** The same date with "Nov" and with "nov". *)
Lemma date_month_case_rejected_witness :
  mime_parse_date (name_match daystrs) (name_match monthstrs) (chars "Sun, 06 nov 1994 08:49:37 GMT") = 0 /\
  mime_parse_date (name_match daystrs) (name_match monthstrs) (chars "Sun, 06 Nov 1994 08:49:37 GMT") = 784111777.
Proof.
  split; [|vm_compute; reflexivity]. apply date_month_case_rejected; try (vm_compute; first [reflexivity|congruence|lia]).
  intros s Hs. unfold name_match. destruct (list_find _ monthstrs) as [[i x]|] eqn:E; [|done]. exfalso.
  apply list_find_Some in E as (Hi & He & _). apply (f_equal length) in He. rewrite !length_map in He.
  assert (Hx : length x = 3%nat); [|lia]. apply list_elem_of_lookup_2 in Hi. unfold monthstrs in Hi.
  repeat (apply elem_of_cons in Hi as [->|Hi]; [reflexivity|]). by apply elem_of_nil in Hi.
Defined.
