(* ===== verification/Base64.v ===== *)
(** Base 64 ([libinktomi++/ink_base64.cc]): the two decoders, the encoder and
    the encoder into a caller's buffer.

    Input of [unsigned char] is a list of [Z] in [0, 256); a [char] is signed.
    Reading past the list gives the terminating NUL.  An allocated result is
    the list of bytes the code writes before the final NUL; [output_len] is its
    length.  A table read outside the table, undefined in C++, is [None]. *)

From S2P Require Import Prelude ParseRules.
From Stdlib Require Import Ascii.

(** ** Tables *)

(** The [codes] table of the decoder, as its loops fill it. *)
Definition dec_codes (c : Z) : Z :=
  if in_range 65 90 c then c - 65
  else if in_range 97 122 c then c - 97 + 26
  else if in_range 48 57 c then c - 48 + 52
  else if c =? ch "+" then 62
  else if c =? ch "/" then 63
  else 0.

(** [codes] of the encoder, and [six2pr]. *)
Definition enc_codes : list Z := chars "ABCDEFGHIJKLMNOPQRSTUVWXYZabcdefghijklmnopqrstuvwxyz0123456789+/".
Definition six2pr : list Z := enc_codes.

Definition range (a n : nat) : list Z := Z.of_nat <$> seq a n.

Definition printableToSixBit : list Z :=
  replicate 43 64 ++ [62] ++ replicate 3 64 ++ [63] ++ range 52 10 ++ replicate 7 64 ++ range 0 26 ++
  replicate 6 64 ++ range 26 26 ++ replicate 133 64.

Definition enc (k : Z) : Z := enc_codes !!! Z.to_nat k.

(** [input[i]]. *)
Definition at_ (input : list Z) (i : nat) : Z := input !!! i.

(** ** Decoding into new memory *)

(** Three bytes from four codes. *)
Definition dec3 (code : Z -> Z) (input : list Z) : list Z :=
  let d i := code (u8 (at_ input i)) in
  [u8 (Z.lor (Z.shiftl (d 0%nat) 2) (Z.shiftr (d 1%nat) 4));
   u8 (Z.lor (Z.shiftl (d 1%nat) 4) (Z.shiftr (d 2%nat) 2));
   u8 (Z.lor (Z.shiftl (d 2%nat) 6) (d 3%nat))].

(** [while (len > 0)]: one round for every four characters, or part of four. *)
Fixpoint decode_go (fuel : nat) (input : list Z) (len : Z) : list Z :=
  match fuel with
  | O => []
  | S f => if 0 <? len then dec3 dec_codes input ++ decode_go f (drop 4 input) (len - 4) else []
  end.

(** The characters before the first '=' among the first [input_len]. *)
Fixpoint cipher_len (input : list Z) (input_len : nat) : nat :=
  match input_len with
  | O => 0
  | S n => if at_ input 0 =? ch "=" then 0 else S (cipher_len (drop 1 input) n)
  end.

Definition ink_base64_decode (input : list Z) (input_len : nat) : list Z :=
  let len := cipher_len input input_len in
  decode_go len input (Z.of_nat len).

(** ** Encoding *)

(** Four characters from three bytes, the tail in signed [char]s. *)
Definition enc4 (a b c : Z) : list Z :=
  [enc (Z.land (Z.shiftr a 2) 63);
   enc (Z.lor (Z.shiftl (Z.land a 3) 4) (Z.land (Z.shiftr b 4) 15));
   enc (Z.lor (Z.shiftl (Z.land b 15) 2) (Z.land (Z.shiftr c 6) 15));
   enc (Z.land c 63)].

Definition schar (b : Z) : Z := wraps 8 b.

Fixpoint ink_base64_encode_unsigned (input : list Z) : list Z :=
  match input with
  | a :: b :: c :: input' => enc4 a b c ++ ink_base64_encode_unsigned input'
  | [] => []
  | [a] => take 2 (enc4 (schar a) 0 0) ++ [ch "="; ch "="]
  | [a; b] => take 3 (enc4 (schar a) (schar b) 0) ++ [ch "="]
  end.

Definition ink_base64_encode (input : list Z) : list Z := ink_base64_encode_unsigned ((fun c => u8 c) <$> input).

(** ** Decoding into a caller's buffer *)

Definition DECODE (c : Z) : Z := printableToSixBit !!! Z.to_nat (u8 c).
Definition MAX_PRINT_VAL : Z := 63.

(** The scan of the first loop: the table is indexed with the signed [char], so
    a character of 128 or more reads before the table. *)
Fixpoint printable_len (input : list Z) : option nat :=
  match input with
  | [] => Some 0%nat
  | c :: input' =>
    if c <? 0 then None
    else if DECODE c <=? MAX_PRINT_VAL then n ← printable_len input'; Some (S n) else Some 0%nat
  end.

(** The bytes written by the decoding loop: three for every four characters,
    or part of four. *)
Fixpoint decode_buf_go (fuel : nat) (input : list Z) (inBytes : Z) : list Z :=
  match fuel with
  | O => []
  | S f => if 0 <? inBytes then dec3 DECODE input ++ decode_buf_go f (drop 4 input) (inBytes - 4) else []
  end.

(** [inBytes] after the check of the output size. *)
Definition limit_in (inBytes outBufSize : Z) : Z :=
  if ((inBytes + 3) `quot` 4) * 3 >? outBufSize - 1 then ((outBufSize - 1) * 4) `quot` 3 else inBytes.

(** The bytes the loop writes at [outBuffer], and the number of them the
    function returns, where it writes a NUL. *)
Definition ink_base64_decode_buf (input : list Z) (outBufSize : Z) : option (list Z * Z) :=
  n ← printable_len input;
  let inBytes := limit_in (Z.of_nat n) outBufSize in
  let out := decode_buf_go (Z.to_nat inBytes) input inBytes in
  let decodedBytes := Z.of_nat (length out) in
  let inputBytesDecoded := 4 * (decodedBytes `quot` 3) in
  if Z.land (inBytes - inputBytesDecoded) 3 =? 0 then Some (out, decodedBytes)
  else if inputBytesDecoded <? 2 then None
  else if DECODE (at_ input (Z.to_nat (inputBytesDecoded - 2))) >? MAX_PRINT_VAL then Some (out, decodedBytes - 2)
  else Some (out, decodedBytes - 1).

(** ** Encoding into a caller's buffer *)

(** [six2pr[*bufin >> 2]] with a negative [char] is outside the table. *)
Definition uu4 (a b c : Z) : option (list Z) :=
  if a <? 0 then None
  else Some [six2pr !!! Z.to_nat (Z.shiftr a 2);
             six2pr !!! Z.to_nat (Z.lor (Z.land (Z.shiftl a 4) 48) (Z.land (Z.shiftr b 4) 15));
             six2pr !!! Z.to_nat (Z.lor (Z.land (Z.shiftl b 2) 60) (Z.land (Z.shiftr c 6) 3));
             six2pr !!! Z.to_nat (Z.land c 63)].

Fixpoint uuencode_go (fuel : nat) (buf : list Z) (left : Z) : option (list Z) :=
  match fuel with
  | O => Some []
  | S f =>
    if 0 <? left then
      q ← uu4 (at_ buf 0) (at_ buf 1) (at_ buf 2);
      r ← uuencode_go f (drop 3 buf) (left - 3);
      Some (q ++ r)
    else Some []
  end.

Definition ink_base64_uuencode (bufin : list Z) (nbytes : nat) : option (list Z) :=
  out ← uuencode_go nbytes bufin (Z.of_nat nbytes);
  Some (match (nbytes mod 3)%nat with
        | 2%nat => take (length out - 1) out ++ [ch "="]
        | 1%nat => take (length out - 2) out ++ [ch "="; ch "="]
        | _ => out
        end).

(** ** Six-bit groups *)

Definition byte (x : Z) : Prop := 0 <= x < 256.

Lemma enc_dec k : 0 <= k < 64 -> dec_codes (u8 (enc k)) = k /\ DECODE (enc k) = k /\ 0 <= enc k < 128 /\ enc k <> ch "=".
Proof.
  intros Hk. assert (G : forallZ 64 (fun k => (dec_codes (u8 (enc k)) =? k) && (DECODE (enc k) =? k) &&
    ((0 <=? enc k) && (enc k <? 128)) && negb (enc k =? ch "=")) 0 = true) by (vm_compute; reflexivity).
  apply (forallZ_spec _ _ _ k) in G; [|lia]. cbv beta in G. bsimp. auto.
Qed.

Lemma land_ones_range x w : 0 <= w -> 0 <= Z.land x (Z.ones w) < 2 ^ w.
Proof. intros. rewrite Z.land_ones by lia. apply Z.mod_pos_bound. lia. Qed.

(** The four codes of three bytes are six-bit numbers. *)
Lemma lor_range x y w : 0 <= w -> 0 <= x < 2 ^ w -> 0 <= y < 2 ^ w -> 0 <= Z.lor x y < 2 ^ w.
Proof.
  intros Hw Hx Hy. rewrite <- (wrapu_id w x), <- (wrapu_id w y) by lia.
  replace (Z.lor (wrapu w x) (wrapu w y)) with (wrapu w (Z.lor x y)); [by apply wrapu_range|]. bitblast.
Qed.

Lemma enc4_codes a b c : byte a -> byte b -> byte c ->
  0 <= Z.land (Z.shiftr a 2) 63 < 64 /\
  0 <= Z.lor (Z.shiftl (Z.land a 3) 4) (Z.land (Z.shiftr b 4) 15) < 64 /\
  0 <= Z.lor (Z.shiftl (Z.land b 15) 2) (Z.land (Z.shiftr c 6) 15) < 64 /\
  0 <= Z.land c 63 < 64.
Proof.
  unfold byte. intros Ha Hb Hc.
  pose proof (land_ones_range (Z.shiftr a 2) 6 ltac:(lia)). pose proof (land_ones_range a 2 ltac:(lia)).
  pose proof (land_ones_range (Z.shiftr b 4) 4 ltac:(lia)). pose proof (land_ones_range b 4 ltac:(lia)).
  pose proof (land_ones_range (Z.shiftr c 6) 4 ltac:(lia)). pose proof (land_ones_range c 6 ltac:(lia)).
  change (Z.ones 6) with 63 in *. change (Z.ones 2) with 3 in *. change (Z.ones 4) with 15 in *.
  split; [lia|]. split; [|split; [|lia]]; apply (lor_range _ _ 6); try lia; rewrite Z.shiftl_mul_pow2 by lia; lia.
Qed.

(** Three bytes are recovered from their codes. *)
Lemma codes_bytes a b c : byte a -> byte b -> byte c ->
  let k0 := Z.land (Z.shiftr a 2) 63 in
  let k1 := Z.lor (Z.shiftl (Z.land a 3) 4) (Z.land (Z.shiftr b 4) 15) in
  let k2 := Z.lor (Z.shiftl (Z.land b 15) 2) (Z.land (Z.shiftr c 6) 15) in
  let k3 := Z.land c 63 in
  u8 (Z.lor (Z.shiftl k0 2) (Z.shiftr k1 4)) = a /\ u8 (Z.lor (Z.shiftl k1 4) (Z.shiftr k2 2)) = b /\
  u8 (Z.lor (Z.shiftl k2 6) k3) = c.
Proof.
  unfold byte. intros Ha Hb Hc. cbv zeta. rewrite <- (wrapu_id 8 a), <- (wrapu_id 8 b), <- (wrapu_id 8 c) by lia.
  change 63 with (Z.ones 6). change 3 with (Z.ones 2). change 15 with (Z.ones 4).
  split; [|split]; bitblast.
Qed.

Lemma dec3_enc4 (code : Z -> Z) a b c r : (forall k, 0 <= k < 64 -> code (u8 (enc k)) = k) ->
  byte a -> byte b -> byte c -> dec3 code (enc4 a b c ++ r) = [a; b; c].
Proof.
  intros Hcode Ha Hb Hc. destruct (enc4_codes a b c Ha Hb Hc) as (K0 & K1 & K2 & K3).
  destruct (codes_bytes a b c Ha Hb Hc) as (E0 & E1 & E2). unfold dec3, enc4, at_. cbn [app lookup_total list_lookup_total].
  rewrite !Hcode by done. rewrite E0, E1, E2. reflexivity.
Qed.

(** The signed tail encodes as the unsigned bytes. *)
Lemma enc4_schar a b : byte a -> byte b -> enc4 (schar a) (schar b) 0 = enc4 a b 0.
Proof.
  assert (G : forall x, byte x -> Z.land (Z.shiftr (schar x) 2) 63 = Z.land (Z.shiftr x 2) 63 /\
    Z.land (schar x) 3 = Z.land x 3 /\ Z.land (Z.shiftr (schar x) 4) 15 = Z.land (Z.shiftr x 4) 15 /\
    Z.land (schar x) 15 = Z.land x 15).
  { intros x Hx. assert (F : forallZ 256 (fun x => (Z.land (Z.shiftr (schar x) 2) 63 =? Z.land (Z.shiftr x 2) 63) &&
      (Z.land (schar x) 3 =? Z.land x 3) && (Z.land (Z.shiftr (schar x) 4) 15 =? Z.land (Z.shiftr x 4) 15) &&
      (Z.land (schar x) 15 =? Z.land x 15)) 0 = true) by (vm_compute; reflexivity).
    apply (forallZ_spec _ _ _ x) in F; [|unfold byte in Hx; lia]. cbv beta in F. bsimp. auto. }
  intros Ha Hb. destruct (G a Ha) as (A1 & A2 & _ & _), (G b Hb) as (_ & _ & B3 & B4).
  unfold enc4. by rewrite A1, A2, B3, B4.
Qed.

(** Induction three at a time. *)
Lemma list_ind3 {A} (P : list A -> Prop) :
  P [] -> (forall a, P [a]) -> (forall a b, P [a; b]) -> (forall a b c l, P l -> P (a :: b :: c :: l)) -> forall l, P l.
Proof.
  intros H0 H1 H2 H3 l. remember (length l) as n eqn:E. revert l E. induction (lt_wf n) as [n _ IH]. intros l ->.
  destruct l as [|a [|b [|c l]]]; [done|done|done|]. apply H3. eapply IH; [|reflexivity]. simpl. lia.
Qed.

(** The characters before the padding. *)
Fixpoint clen (x : list Z) : nat :=
  match x with
  | _ :: _ :: _ :: x' => 4 + clen x'
  | [] => 0 | [_] => 2 | [_; _] => 3
  end%nat.

Definition pad (x : list Z) : nat := ((3 - length x mod 3) mod 3)%nat.

Lemma pad_3 a b c x : pad (a :: b :: c :: x) = pad x.
Proof. unfold pad. cbn [length]. replace (S (S (S (length x)))) with (length x + 1 * 3)%nat by lia. by rewrite Nat.Div0.mod_add. Qed.

Lemma enc_not_eq k : 0 <= k < 64 -> (enc k =? 61) = false.
Proof. intros Hk. destruct (enc_dec k Hk) as (_ & _ & _ & H). by apply Z.eqb_neq. Qed.

Lemma cipher_len_enc x : Forall byte x -> cipher_len (ink_base64_encode_unsigned x) (length (ink_base64_encode_unsigned x)) = clen x.
Proof.
  induction x as [|a|a b|a b c x IH] using list_ind3; intros H.
  - done.
  - apply Forall_cons in H as [Ha _]. cbn [ink_base64_encode_unsigned].
    change (enc4 (schar a) 0 0) with (enc4 (schar a) (schar 0) 0). rewrite enc4_schar by (unfold byte in *; lia).
    destruct (enc4_codes a 0 0 Ha) as (K0 & K1 & _); [unfold byte; lia..|].
    unfold enc4. cbn [take app length cipher_len drop]. unfold at_. cbn [lookup_total list_lookup_total].
    change (ch "=") with 61. rewrite !enc_not_eq by done. reflexivity.
  - apply Forall_cons in H as [Ha H]. apply Forall_cons in H as [Hb _]. cbn [ink_base64_encode_unsigned].
    rewrite enc4_schar by done. destruct (enc4_codes a b 0 Ha Hb) as (K0 & K1 & K2 & _); [unfold byte; lia|].
    unfold enc4. cbn [take app length cipher_len drop]. unfold at_. cbn [lookup_total list_lookup_total].
    change (ch "=") with 61. rewrite !enc_not_eq by done. reflexivity.
  - apply Forall_cons in H as [Ha H]. apply Forall_cons in H as [Hb H]. apply Forall_cons in H as [Hc H].
    cbn [ink_base64_encode_unsigned]. destruct (enc4_codes a b c Ha Hb Hc) as (K0 & K1 & K2 & K3).
    unfold enc4. cbn [app length cipher_len drop]. unfold at_. cbn [lookup_total list_lookup_total].
    change (ch "=") with 61. rewrite !enc_not_eq by done. cbn [clen]. rewrite drop_0, IH by done. reflexivity.
Qed.

Lemma decode_go_enc x fuel : Forall byte x -> (clen x <= fuel)%nat ->
  decode_go fuel (ink_base64_encode_unsigned x) (Z.of_nat (clen x)) = x ++ replicate (pad x) 0.
Proof.
  revert fuel. induction x as [|a|a b|a b c x IH] using list_ind3; intros fuel H Hf.
  - by destruct fuel.
  - apply Forall_cons in H as [Ha _]. cbn [ink_base64_encode_unsigned clen] in *.
    change (enc4 (schar a) 0 0) with (enc4 (schar a) (schar 0) 0). rewrite enc4_schar by (unfold byte in *; lia).
    destruct fuel as [|[|fuel]]; [lia|lia|]. cbn [decode_go]. change (0 <? Z.of_nat 2) with true. cbv iota.
    change (0 <? Z.of_nat 2 - 4) with false. cbv iota. rewrite app_nil_r.
    pose proof (dec3_enc4 dec_codes a 0 0 [] (fun k Hk => proj1 (enc_dec k Hk)) Ha) as E.
    change ([a] ++ replicate (pad [a]) 0) with [a; 0; 0]. rewrite <- E by (unfold byte; lia). unfold enc4. reflexivity.
  - apply Forall_cons in H as [Ha H]. apply Forall_cons in H as [Hb _]. cbn [ink_base64_encode_unsigned clen] in *.
    rewrite enc4_schar by done.
    destruct fuel as [|[|fuel]]; [lia|lia|]. cbn [decode_go]. change (0 <? Z.of_nat 3) with true. cbv iota.
    change (0 <? Z.of_nat 3 - 4) with false. cbv iota. rewrite app_nil_r.
    pose proof (dec3_enc4 dec_codes a b 0 [] (fun k Hk => proj1 (enc_dec k Hk)) Ha Hb) as E.
    change (([a; b] ++ replicate (pad [a; b]) 0)) with [a; b; 0]. rewrite <- E by (unfold byte; lia). unfold enc4. reflexivity.
  - apply Forall_cons in H as [Ha H]. apply Forall_cons in H as [Hb H]. apply Forall_cons in H as [Hc H].
    cbn [ink_base64_encode_unsigned clen] in *. destruct fuel as [|fuel]; [lia|]. cbn [decode_go].
    rewrite (proj2 (Z.ltb_lt 0 _)) by lia. rewrite dec3_enc4 by (done || (intros k Hk; apply (enc_dec k Hk))).
    change (drop 4 (enc4 a b c ++ ink_base64_encode_unsigned x)) with (ink_base64_encode_unsigned x).
    replace (Z.of_nat (4 + clen x) - 4) with (Z.of_nat (clen x)) by lia. rewrite IH by (done || lia). by rewrite pad_3.
Qed.

(** ** The decoder into a buffer *)

Lemma DECODE_enc k : 0 <= k < 64 -> DECODE (u8 (enc k)) = k.
Proof.
  intros Hk. destruct (enc_dec k Hk) as (_ & H & Hr & _). rewrite wrapu_id by lia. done.
Qed.

Lemma printable_step k r : 0 <= k < 64 -> printable_len (enc k :: r) = n ← printable_len r; Some (S n).
Proof.
  intros Hk. destruct (enc_dec k Hk) as (_ & H & Hr & _). cbn [printable_len].
  rewrite (proj2 (Z.ltb_ge (enc k) 0)) by lia. rewrite H. unfold MAX_PRINT_VAL. by rewrite (proj2 (Z.leb_le k 63)) by lia.
Qed.

Lemma printable_len_enc x : Forall byte x -> printable_len (ink_base64_encode_unsigned x) = Some (clen x).
Proof.
  induction x as [|a|a b|a b c x IH] using list_ind3; intros H.
  - done.
  - apply Forall_cons in H as [Ha _]. cbn [ink_base64_encode_unsigned].
    change (enc4 (schar a) 0 0) with (enc4 (schar a) (schar 0) 0). rewrite enc4_schar by (unfold byte in *; lia).
    destruct (enc4_codes a 0 0 Ha) as (K0 & K1 & _); [unfold byte; lia..|].
    unfold enc4. cbn [take app]. rewrite !printable_step by done. reflexivity.
  - apply Forall_cons in H as [Ha H]. apply Forall_cons in H as [Hb _]. cbn [ink_base64_encode_unsigned].
    rewrite enc4_schar by done. destruct (enc4_codes a b 0 Ha Hb) as (K0 & K1 & K2 & _); [unfold byte; lia|].
    unfold enc4. cbn [take app]. rewrite !printable_step by done. reflexivity.
  - apply Forall_cons in H as [Ha H]. apply Forall_cons in H as [Hb H]. apply Forall_cons in H as [Hc H].
    cbn [ink_base64_encode_unsigned]. destruct (enc4_codes a b c Ha Hb Hc) as (K0 & K1 & K2 & K3).
    unfold enc4. cbn [app]. rewrite !printable_step, IH by done. reflexivity.
Qed.

(** The last group of the encoding. *)
Lemma enc_shape x : Forall byte x -> exists g,
  (length x + pad x = 3 * g /\ clen x + pad x = 4 * g /\ pad x <= 2)%nat /\
  (pad x <> 0%nat -> (1 <= g)%nat /\
   (pad x = 2%nat -> at_ (ink_base64_encode_unsigned x) (4 * g - 2) = ch "=") /\
   (pad x = 1%nat -> DECODE (at_ (ink_base64_encode_unsigned x) (4 * g - 2)) <= 63)).
Proof.
  induction x as [|a|a b|a b c x IH] using list_ind3; intros H.
  - exists 0%nat. split; [vm_compute; lia|]. intros Hp. by destruct Hp.
  - exists 1%nat. split; [vm_compute; lia|]. intros _. split; [lia|]. done.
  - exists 1%nat. split; [vm_compute; lia|]. intros _. split; [lia|]. split; [done|]. intros _.
    apply Forall_cons in H as [Ha H]. apply Forall_cons in H as [Hb _]. cbn [ink_base64_encode_unsigned].
    rewrite enc4_schar by done. destruct (enc4_codes a b 0 Ha Hb) as (_ & _ & K2 & _); [unfold byte; lia|].
    unfold enc4, at_. cbn [take app Nat.mul Nat.add Nat.sub lookup_total list_lookup_total].
    destruct (enc_dec _ K2) as (_ & -> & _). lia.
  - apply Forall_cons in H as [_ H]. apply Forall_cons in H as [_ H]. apply Forall_cons in H as [_ H].
    destruct (IH H) as (g & (G1 & G2 & G3) & G4). exists (S g). rewrite pad_3. cbn [length clen ink_base64_encode_unsigned].
    split; [lia|]. intros Hp. destruct (G4 Hp) as (G5 & G6 & G7). split; [lia|].
    assert (E : forall l, at_ (enc4 a b c ++ l) (4 * S g - 2) = at_ l (4 * g - 2)).
    { intros l. unfold at_. rewrite !list_lookup_total_alt, lookup_app_r by (cbn; lia). do 2 f_equal. cbn. lia. }
    by rewrite E.
Qed.

Lemma dec3_length code l : length (dec3 code l) = 3%nat.
Proof. reflexivity. Qed.

Lemma decode_buf_go_enc x fuel : Forall byte x -> (clen x <= fuel)%nat ->
  exists junk, decode_buf_go fuel (ink_base64_encode_unsigned x) (Z.of_nat (clen x)) = x ++ junk /\ length junk = pad x.
Proof.
  revert fuel. induction x as [|a|a b|a b c x IH] using list_ind3; intros fuel H Hf.
  - exists []. by destruct fuel.
  - apply Forall_cons in H as [Ha _]. cbn [ink_base64_encode_unsigned clen] in *.
    change (enc4 (schar a) 0 0) with (enc4 (schar a) (schar 0) 0). rewrite enc4_schar by (unfold byte in *; lia).
    destruct fuel as [|[|fuel]]; [lia|lia|]. cbn [decode_buf_go]. change (0 <? Z.of_nat 2) with true. cbv iota.
    change (0 <? Z.of_nat 2 - 4) with false. cbv iota. rewrite app_nil_r.
    pose proof (dec3_enc4 DECODE a 0 0 [] DECODE_enc Ha ltac:(unfold byte; lia) ltac:(unfold byte; lia)) as E.
    unfold enc4 in E. rewrite app_nil_r in E. unfold dec3 in E |- *.
    pose proof (f_equal (fun l => l !!! 0%nat) E) as E0. cbn [lookup_total list_lookup_total] in E0.
    eexists [_; _]. split; [|reflexivity]. cbn [app]. f_equal. exact E0.
  - apply Forall_cons in H as [Ha H]. apply Forall_cons in H as [Hb _]. cbn [ink_base64_encode_unsigned clen] in *.
    rewrite enc4_schar by done.
    destruct fuel as [|[|fuel]]; [lia|lia|]. cbn [decode_buf_go]. change (0 <? Z.of_nat 3) with true. cbv iota.
    change (0 <? Z.of_nat 3 - 4) with false. cbv iota. rewrite app_nil_r.
    pose proof (dec3_enc4 DECODE a b 0 [] DECODE_enc Ha Hb ltac:(unfold byte; lia)) as E.
    unfold enc4 in E. rewrite app_nil_r in E. unfold dec3 in E |- *.
    pose proof (f_equal (fun l => l !!! 0%nat) E) as E0. pose proof (f_equal (fun l => l !!! 1%nat) E) as E1.
    cbn [lookup_total list_lookup_total] in E0, E1.
    eexists [_]. split; [|reflexivity]. cbn [app]. f_equal; [exact E0|]. f_equal. exact E1.
  - apply Forall_cons in H as [Ha H]. apply Forall_cons in H as [Hb H]. apply Forall_cons in H as [Hc H].
    cbn [ink_base64_encode_unsigned clen] in *. destruct fuel as [|fuel]; [lia|]. cbn [decode_buf_go].
    rewrite (proj2 (Z.ltb_lt 0 _)) by lia. rewrite dec3_enc4 by (done || apply DECODE_enc).
    change (drop 4 (enc4 a b c ++ ink_base64_encode_unsigned x)) with (ink_base64_encode_unsigned x).
    replace (Z.of_nat (4 + clen x) - 4) with (Z.of_nat (clen x)) by lia.
    destruct (IH fuel H ltac:(lia)) as (junk & -> & Hj). exists junk. split; [done|]. by rewrite pad_3.
Qed.

(** ** Theorems *)

(** C9: decoding the encoding of any bytes gives them back, followed by zero
    bytes up to a multiple of three, which the length returned includes. *)
Theorem base64_roundtrip x : Forall byte x ->
  ink_base64_decode (ink_base64_encode_unsigned x) (length (ink_base64_encode_unsigned x)) = x ++ replicate (pad x) 0.
Proof. intros H. unfold ink_base64_decode. rewrite cipher_len_enc by done. by apply decode_go_enc. Qed.

Lemma base64_roundtrip_witness : ink_base64_decode (ink_base64_encode_unsigned [255; 0; 129; 7]) 8 = [255; 0; 129; 7] ++ [0; 0].
Proof.
  change 8%nat with (length (ink_base64_encode_unsigned [255; 0; 129; 7])). rewrite base64_roundtrip; [reflexivity|].
  repeat constructor; unfold byte; lia.
Defined.

(** With room for the whole groups, decoding into a buffer returns the
    exact number of bytes encoded, and they are the first of the buffer. *)
Theorem base64_buf_roundtrip x outBufSize : Forall byte x -> Z.of_nat (length x + pad x) < outBufSize ->
  exists out, ink_base64_decode_buf (ink_base64_encode_unsigned x) outBufSize = Some (out, Z.of_nat (length x)) /\
    take (length x) out = x /\ Z.of_nat (length out) < outBufSize.
Proof.
  intros H Ho. unfold ink_base64_decode_buf. rewrite printable_len_enc by done. cbn [mbind option_bind].
  destruct (enc_shape x H) as (g & (G1 & G2 & G3) & G4).
  assert (Hlim : limit_in (Z.of_nat (clen x)) outBufSize = Z.of_nat (clen x)).
  { unfold limit_in. assert (Hq : (Z.of_nat (clen x) + 3) `quot` 4 = Z.of_nat g).
    { symmetry. apply (Z.quot_unique _ _ _ (3 - Z.of_nat (pad x))); lia. }
    rewrite Hq, Z.gtb_ltb, (proj2 (Z.ltb_ge _ _)); [done|lia]. }
  rewrite Hlim, Nat2Z.id. destruct (decode_buf_go_enc x (clen x) H ltac:(lia)) as (junk & -> & Hj).
  assert (Hl : Z.of_nat (length (x ++ junk)) = 3 * Z.of_nat g) by (rewrite length_app; lia). rewrite Hl.
  assert (Hq3 : (3 * Z.of_nat g) `quot` 3 = Z.of_nat g) by (rewrite Z.mul_comm; apply Z.quot_mul; lia). rewrite Hq3.
  assert (Htake : take (length x) (x ++ junk) = x) by apply take_app_length.
  assert (Hpad : pad x = 0%nat \/ pad x = 1%nat \/ pad x = 2%nat) by lia. destruct Hpad as [Hp|Hpad].
  - replace (Z.of_nat (clen x) - 4 * Z.of_nat g) with 0 by lia. cbn. exists (x ++ junk).
    split; [do 2 f_equal; lia|]. split; [done|lia].
  - destruct (G4 ltac:(lia)) as (Hg & F2 & F1).
    replace (Z.to_nat (4 * Z.of_nat g - 2)) with (4 * g - 2)%nat by lia.
    destruct Hpad as [Hp|Hp].
    + replace (Z.of_nat (clen x) - 4 * Z.of_nat g) with (-1) by lia. change (Z.land (-1) 3 =? 0) with false. cbv iota.
      rewrite (proj2 (Z.ltb_ge _ _)) by lia. unfold MAX_PRINT_VAL. rewrite Z.gtb_ltb, (proj2 (Z.ltb_ge _ _)) by (by apply F1).
      exists (x ++ junk). split; [do 2 f_equal; lia|]. split; [done|lia].
    + replace (Z.of_nat (clen x) - 4 * Z.of_nat g) with (-2) by lia. change (Z.land (-2) 3 =? 0) with false. cbv iota.
      rewrite (proj2 (Z.ltb_ge _ _)) by lia. rewrite (F2 Hp). change (DECODE (ch "=") >? MAX_PRINT_VAL) with true. cbv iota.
      exists (x ++ junk). split; [do 2 f_equal; lia|]. split; [done|lia].
Qed.

Lemma base64_buf_roundtrip_witness : exists out,
  ink_base64_decode_buf (ink_base64_encode_unsigned [255; 0; 129; 7]) 7 = Some (out, 4) /\ take 4 out = [255; 0; 129; 7].
Proof.
  destruct (base64_buf_roundtrip [255; 0; 129; 7] 7) as (out & E & H & _);
    [repeat constructor; unfold byte; lia|vm_compute; reflexivity|]. exists out. split; [exact E|exact H].
Defined.

(** The cut to the output size counts part of a group as nothing, but the
    loop writes three bytes for it: with room for 3k+2 bytes and a longer
    input it writes 3k+3 bytes, one past the end of the buffer. *)
Theorem base64_buf_overflow input n k : printable_len input = Some n -> (4 * k + 4 <= n)%nat ->
  exists out r, ink_base64_decode_buf input (3 * Z.of_nat k + 2) = Some (out, r) /\
    Z.of_nat (length out) = 3 * Z.of_nat k + 3.
Proof.
  intros Hn Hk. unfold ink_base64_decode_buf. rewrite Hn. cbn [mbind option_bind].
  assert (Hlim : limit_in (Z.of_nat n) (3 * Z.of_nat k + 2) = 4 * Z.of_nat k + 1).
  { unfold limit_in.
    assert (Z.of_nat k + 1 <= (Z.of_nat n + 3) `quot` 4).
    { rewrite Z.quot_div_nonneg by lia. apply Z.div_le_lower_bound; lia. }
    rewrite Z.gtb_ltb, (proj2 (Z.ltb_lt _ _)) by lia. symmetry. apply (Z.quot_unique _ _ _ 1); lia. }
  rewrite Hlim.
  assert (Hlen : forall k fuel inp, (k < fuel)%nat ->
    length (decode_buf_go fuel inp (4 * Z.of_nat k + 1)) = (3 * k + 3)%nat).
  { clear. induction k as [|k IH]; intros fuel inp Hf; (destruct fuel as [|fuel]; [lia|]); cbn [decode_buf_go].
    - change (0 <? 4 * Z.of_nat 0 + 1) with true. cbv iota. rewrite length_app, dec3_length.
      destruct fuel; [done|]. cbn [decode_buf_go]. reflexivity.
    - rewrite (proj2 (Z.ltb_lt 0 _)) by lia. rewrite length_app, dec3_length.
      replace (4 * Z.of_nat (S k) + 1 - 4) with (4 * Z.of_nat k + 1) by lia. rewrite IH by lia. lia. }
  set (out := decode_buf_go _ _ _). assert (Ho : Z.of_nat (length out) = 3 * Z.of_nat k + 3) by (unfold out; rewrite Hlen; lia).
  assert (Hq3 : Z.of_nat (length out) `quot` 3 = Z.of_nat k + 1)
    by (rewrite Ho; replace (3 * Z.of_nat k + 3) with ((Z.of_nat k + 1) * 3) by lia; apply Z.quot_mul; lia).
  rewrite Hq3.
  destruct (_ =? 0); [eexists _, _; split; [reflexivity|lia]|]. rewrite (proj2 (Z.ltb_ge _ _)) by lia.
  destruct (_ >? _); (eexists _, _; split; [reflexivity|lia]).
Qed.

Lemma base64_buf_overflow_witness : exists out r,
  ink_base64_decode_buf (chars "aGVsbG8h") 5 = Some (out, r) /\ Z.of_nat (length out) = 6.
Proof. apply (base64_buf_overflow (chars "aGVsbG8h") 8 1); [reflexivity|lia]. Defined.
