(* ===== verification/IOBuffer.v ===== *)
(** The chained buffers all data moves through ([iocore/eventsystem]:
    [IOBuffer.cc], [P_IOBuffer.h], [I_IOBuffer.h]): blocks, the buffer that
    writes to their end, and the readers that consume them, and the interface
    a client of a reader relies on.

    A block is the bytes between [_start] and [_end] and the room behind them;
    blocks are cut from shared memory, but a clone has no room and no byte
    between the two marks is ever written again, so blocks are values.  The
    [next] pointers of a chain are the order of the list [blocks]; a pointer to
    a block is its place in it. *)

From S2P Require Import Prelude.

Definition INK64_MAX : Z := 2 ^ 63 - 1.
Definition MAX_MIOBUFFER_READERS : nat := 5.

Record IOBufferBlock := mkBlk { b_data : list Z; write_avail : Z }.

#[global] Instance IOBufferBlock_inhabited : Inhabited IOBufferBlock := populate (mkBlk [] 0).

Record IOBufferReader := mkRd { r_block : option nat; start_offset : Z; size_limit : Z }.

Record MIOBuffer := mkMio {
  blocks : list IOBufferBlock;
  writer : option nat;
  block_size : Z;                          (* of the blocks it adds *)
  water_mark : Z;
  readers : list (option IOBufferReader)   (* [None] is not allocated *)
}.

Definition blk_avail (b : IOBufferBlock) : Z := Z.of_nat (length (b_data b)).

(** ** Readers *)

(** The walk of [skip_empty_blocks] and of [consume] over the blocks from the
    current one, number [k], at offset [off]. *)
Fixpoint skip_blocks (bs : list IOBufferBlock) (k : nat) (off : Z) : nat * Z :=
  match bs with
  | b :: ((b' :: _) as bs') =>
    if negb (blk_avail b' =? 0) && (off >=? blk_avail b) then skip_blocks bs' (S k) (off - blk_avail b) else (k, off)
  | _ => (k, off)
  end.

Definition skip_empty_blocks (bs : list IOBufferBlock) (r : IOBufferReader) : IOBufferReader :=
  match r_block r with
  | None => r
  | Some k => let '(k', o) := skip_blocks (drop k bs) k (start_offset r) in mkRd (Some k') o (size_limit r)
  end.

Definition consume (bs : list IOBufferBlock) (n : Z) (r : IOBufferReader) : IOBufferReader :=
  let off := start_offset r + n in
  let lim := if size_limit r =? INK64_MAX then size_limit r else size_limit r - n in
  match r_block r with
  | None => mkRd None off lim
  | Some k => let '(k', o) := skip_blocks (drop k bs) k off in mkRd (Some k') o lim
  end.

(** The blocks from the current one on. *)
Definition chain_from (bs : list IOBufferBlock) (r : IOBufferReader) : list IOBufferBlock :=
  match r_block r with None => [] | Some k => drop k bs end.

Definition read_avail (bs : list IOBufferBlock) (r : IOBufferReader) : Z :=
  let t := foldl (fun t b => t + blk_avail b) 0 (chain_from bs r) - start_offset r in
  if negb (size_limit r =? INK64_MAX) && (t >? size_limit r) then size_limit r else t.

Definition block_count (bs : list IOBufferBlock) (r : IOBufferReader) : Z := Z.of_nat (length (chain_from bs r)).

(** [start()] and [block_read_avail()]: the bytes from the start to the end of
    the current block.  Both first move the reader with [skip_empty_blocks]. *)
Definition block_read_avail (bs : list IOBufferBlock) (r : IOBufferReader) : Z :=
  let r1 := skip_empty_blocks bs r in
  match r_block r1 with None => 0 | Some k => blk_avail (bs !!! k) - start_offset r1 end.

Definition start (bs : list IOBufferBlock) (r : IOBufferReader) : list Z :=
  let r1 := skip_empty_blocks bs r in
  match r_block r1 with None => [] | Some k => drop (Z.to_nat (start_offset r1)) (b_data (bs !!! k)) end.

(** [operator[]]: [None] is the static error character. *)
Fixpoint char_at_go (bs : list IOBufferBlock) (i : Z) : option Z :=
  match bs with
  | [] => None
  | b :: bs' => if blk_avail b >? i then b_data b !! Z.to_nat i else char_at_go bs' (i - blk_avail b)
  end.

Definition char_at (bs : list IOBufferBlock) (r : IOBufferReader) (i : Z) : option Z :=
  char_at_go (chain_from bs r) (i + start_offset r).

(** The index of the first [c] among the first [n] bytes of [s]. *)
Fixpoint ink_memchr (s : list Z) (c : Z) (n : nat) : option nat :=
  match n, s with
  | S n', x :: s' => if x =? c then Some 0%nat else S <$> ink_memchr s' c n'
  | _, _ => None
  end.

Fixpoint memchr_go (bs : list IOBufferBlock) (c len offset o : Z) : option Z :=
  match bs with
  | [] => None
  | b :: bs' =>
    if len =? 0 then None
    else
      let max_bytes := blk_avail b - offset in
      if max_bytes <=? 0 then memchr_go bs' c len (- max_bytes) o
      else
        let bytes := if (len <? 0) || (len >=? max_bytes) then max_bytes else len in
        match ink_memchr (drop (Z.to_nat offset) (b_data b)) c (Z.to_nat bytes) with
        | Some p => Some (o + Z.of_nat p)
        | None => memchr_go bs' c (len - bytes) 0 (o + bytes)
        end
  end.

Definition memchr (bs : list IOBufferBlock) (r : IOBufferReader) (c len offset : Z) : Z :=
  let o := offset + start_offset r in
  match memchr_go (chain_from bs r) c len o o with Some i => i - start_offset r | None => -1 end.

(** The bytes [memcpy] stores. *)
Fixpoint memcpy_go (bs : list IOBufferBlock) (len offset : Z) : list Z :=
  match bs with
  | [] => []
  | b :: bs' =>
    if len =? 0 then []
    else
      let max_bytes := blk_avail b - offset in
      if max_bytes <=? 0 then memcpy_go bs' len (- max_bytes)
      else
        let bytes := if (len <? 0) || (len >=? max_bytes) then max_bytes else len in
        take (Z.to_nat bytes) (drop (Z.to_nat offset) (b_data b)) ++ memcpy_go bs' (len - bytes) 0
  end.

Definition memcpy (bs : list IOBufferBlock) (r : IOBufferReader) (len offset : Z) : list Z :=
  memcpy_go (chain_from bs r) len (offset + start_offset r).

(** The loop of [read]: [None] is a loop that has not ended. *)
Fixpoint read_go (fuel : nat) (bs : list IOBufferBlock) (n : Z) (r : IOBufferReader) : option (list Z * IOBufferReader) :=
  if n =? 0 then Some ([], r)
  else match fuel with
  | O => None
  | S fuel' =>
    let l := if n <? block_read_avail bs r then n else block_read_avail bs r in
    let got := take (Z.to_nat l) (start bs r) in
    '(rest, r') ← read_go fuel' bs (n - l) (consume bs l (skip_empty_blocks bs r));
    Some (got ++ rest, r')
  end.

Definition read (bs : list IOBufferBlock) (len : Z) (r : IOBufferReader) : option (list Z * IOBufferReader) :=
  let max_bytes := read_avail bs r in
  let bytes := if len <=? max_bytes then len else max_bytes in
  read_go (Z.to_nat bytes) bs bytes r.

(** ** The buffer *)

Definition set_blocks (m : MIOBuffer) (bs : list IOBufferBlock) (w : option nat) : MIOBuffer :=
  mkMio bs w (block_size m) (water_mark m) (readers m).

Definition set_readers (m : MIOBuffer) (rs : list (option IOBufferReader)) : MIOBuffer :=
  mkMio (blocks m) (writer m) (block_size m) (water_mark m) rs.

Definition init_readers (m : MIOBuffer) : MIOBuffer :=
  set_readers m ((fun o => match o with
    | Some r => Some match r_block r with None => mkRd (writer m) (start_offset r) (size_limit r) | _ => r end
    | None => None end) <$> readers m).

(** The last loop of [append_block_internal]. *)
Fixpoint advance_writer (fuel : nat) (bs : list IOBufferBlock) (w : nat) : nat :=
  match fuel, bs !! S w with
  | S fuel', Some b' =>
    if (write_avail (bs !!! w) =? 0) && negb (blk_avail b' =? 0) then advance_writer fuel' bs (S w) else w
  | _, _ => w
  end.

(** [b] is a single block.  What hung after the writer is dropped. *)
Definition append_block_internal (b : IOBufferBlock) (m : MIOBuffer) : MIOBuffer :=
  match writer m with
  | None => init_readers (set_blocks m [b] (Some 0%nat))
  | Some w =>
    let bs := take (S w) (blocks m) ++ [b] in
    let w1 := if blk_avail b =? 0 then w else S w in
    set_blocks m bs (Some (advance_writer (length bs) bs w1))
  end.

Definition add_block (m : MIOBuffer) : MIOBuffer := append_block_internal (mkBlk [] (block_size m)) m.

(** [new_MIOBuffer]: an empty buffer with one block. *)
Definition new_MIOBuffer (size : Z) : MIOBuffer :=
  mkMio [mkBlk [] size] (Some 0%nat) size 0 (replicate MAX_MIOBUFFER_READERS None).

Definition current_write_avail (m : MIOBuffer) : Z :=
  match writer m with
  | None => 0
  | Some w => foldl (fun t b => t + write_avail b) 0 (drop w (blocks m))
  end.

Definition allocated (m : MIOBuffer) : list IOBufferReader := omap (fun o => o) (readers m).

Definition max_read_avail (m : MIOBuffer) : Z :=
  match allocated m, writer m with
  | [], Some w => blk_avail (blocks m !!! w)
  | rs, _ => foldl (fun s r => Z.max s (read_avail (blocks m) r)) 0 rs
  end.

Definition max_block_count (m : MIOBuffer) : Z :=
  foldl (fun s r => Z.max s (block_count (blocks m) r)) 0 (allocated m).

Definition high_water (m : MIOBuffer) : bool := max_read_avail m >? water_mark m.
Definition current_low_water (m : MIOBuffer) : bool := current_write_avail m <=? water_mark m.

Definition check_add_block (m : MIOBuffer) : MIOBuffer :=
  if negb (high_water m) && current_low_water m then add_block m else m.

Definition mio_write_avail (m : MIOBuffer) : MIOBuffer * Z :=
  let m' := check_add_block m in (m', current_write_avail m').

(** A slot for a new reader; without one the process stops. *)
Definition free_slot (m : MIOBuffer) : option nat :=
  head (filter (fun i => readers m !!! i = None) (seq 0 MAX_MIOBUFFER_READERS)).

Definition put_reader (i : nat) (r : IOBufferReader) (m : MIOBuffer) : MIOBuffer :=
  set_readers m (<[i := Some r]> (readers m)).

Definition alloc_reader (m : MIOBuffer) : option (MIOBuffer * nat) :=
  i ← free_slot m; Some (put_reader i (mkRd (writer m) 0 INK64_MAX) m, i).

Definition clone_reader (r : IOBufferReader) (m : MIOBuffer) : option (MIOBuffer * nat) :=
  i ← free_slot m; Some (put_reader i r m, i).

Definition dealloc_reader (i : nat) (m : MIOBuffer) : MIOBuffer := set_readers m (<[i := None]> (readers m)).

(** Copy into the writer's block. *)
Definition fill_writer (w : nat) (s : list Z) (m : MIOBuffer) : MIOBuffer :=
  let b := blocks m !!! w in
  set_blocks m (<[w := mkBlk (b_data b ++ s) (write_avail b - Z.of_nat (length s))]> (blocks m)) (writer m).

(** [fill(len)] after [s] was stored in the room of the blocks. *)
Fixpoint fill_go (fuel : nat) (s : list Z) (m : MIOBuffer) : option MIOBuffer :=
  match fuel with
  | O => None
  | S fuel' =>
    w ← writer m;
    let f := write_avail (blocks m !!! w) in
    if f <? Z.of_nat (length s) then
      fill_go fuel' (drop (Z.to_nat f) s) (set_blocks (fill_writer w (take (Z.to_nat f) s) m)
        (blocks (fill_writer w (take (Z.to_nat f) s) m)) (Some (S w)))
    else Some (fill_writer w s m)
  end.

Definition fill (s : list Z) (m : MIOBuffer) : option MIOBuffer := fill_go (S (length (blocks m))) s m.

(** [write(buf, len)]: [None] is a loop that has not ended. *)
Fixpoint write_go (fuel : nat) (buf : list Z) (m : MIOBuffer) : option MIOBuffer :=
  match buf with
  | [] => Some m
  | _ =>
    match fuel with
    | O => None
    | S fuel' =>
      let m1 := match writer m with None => add_block m | Some _ => m end in
      w ← writer m1;
      let f := Z.min (write_avail (blocks m1 !!! w)) (Z.of_nat (length buf)) in
      let m2 := if f >? 0 then fill_writer w (take (Z.to_nat f) buf) m1 else m1 in
      let buf' := if f >? 0 then drop (Z.to_nat f) buf else buf in
      let m3 := match buf' with
                | [] => m2
                | _ => match blocks m2 !! S w with
                       | None => add_block m2
                       | Some _ => set_blocks m2 (blocks m2) (Some (S w))
                       end
                end in
      write_go fuel' buf' m3
    end
  end.

Definition write (buf : list Z) (m : MIOBuffer) : option MIOBuffer := write_go (3 * length buf + 3) buf m.

(** [write(reader, len, offset)]: clones of the blocks [bs] the reader is at. *)
Fixpoint write_reader_go (bs : list IOBufferBlock) (len offset : Z) (m : MIOBuffer) : MIOBuffer * Z :=
  match bs with
  | [] => (m, len)
  | b :: bs' =>
    if len >? 0 then
      let max_bytes := blk_avail b - offset in
      if max_bytes <=? 0 then write_reader_go bs' len (- max_bytes) m
      else
        let bytes := if len >=? max_bytes then max_bytes else len in
        let bb := mkBlk (take (Z.to_nat bytes) (drop (Z.to_nat offset) (b_data b))) 0 in
        write_reader_go bs' (len - bytes) 0 (append_block_internal bb m)
    else (m, len)
  end.

(** The result is the number of bytes written. *)
Definition write_reader (bs : list IOBufferBlock) (r : IOBufferReader) (alen offset : Z) (m : MIOBuffer) : MIOBuffer * Z :=
  let '(m', unsent) := write_reader_go (chain_from bs r) alen (offset + start_offset r) m in (m', alen - unsent).

(** * Theorems about the chained buffers: a reader is a position in one sequence
    of bytes whatever the blocks are, and everything written is appended to
    what every reader sees.  The class [ByteReader] is what a client relies on,
    and its instance discharges it for the readers of [IOBuffer]. *)

(** ** What a client of a reader relies on *)

Class ByteReader (R : Type) := {
  br_avail : R -> Z;                 (* read_avail() *)
  br_block : R -> list Z;            (* start(), block_read_avail() bytes of it *)
  br_consume : Z -> R -> R;
  br_bytes : R -> list Z;            (* the bytes ahead *)
  br_ok : R -> Prop;
  br_avail_spec r : br_ok r -> br_avail r = Z.of_nat (length (br_bytes r));
  br_block_prefix r : br_ok r -> exists rest, br_bytes r = br_block r ++ rest;
  br_block_progress r : br_ok r -> br_bytes r <> [] -> br_block r <> [];
  br_consume_spec r n : br_ok r -> 0 <= n <= Z.of_nat (length (br_bytes r)) ->
    br_ok (br_consume n r) /\ br_bytes (br_consume n r) = drop (Z.to_nat n) (br_bytes r)
}.

(** ** Chains *)

Definition bytes_of (bs : list IOBufferBlock) : list Z := concat (b_data <$> bs).

Definition no_data (b : IOBufferBlock) : Prop := b_data b = [].

(** No data behind an empty block. *)
Fixpoint packed (bs : list IOBufferBlock) : Prop :=
  match bs with [] => True | b :: bs' => (b_data b = [] -> Forall no_data bs') /\ packed bs' end.

(** The first block of a chain may be empty. *)
Definition chain_ok (bs : list IOBufferBlock) : Prop := packed (tail bs).

Definition rd_bytes (bs : list IOBufferBlock) (r : IOBufferReader) : list Z :=
  drop (Z.to_nat (start_offset r)) (bytes_of (chain_from bs r)).

Record rd_ok (bs : list IOBufferBlock) (r : IOBufferReader) : Prop := {
  ro_limit : size_limit r = INK64_MAX;
  ro_offset : 0 <= start_offset r <= Z.of_nat (length (bytes_of (chain_from bs r)));
  ro_chain : chain_ok (chain_from bs r);
  ro_block : match r_block r with Some k => (k < length bs)%nat | None => True end
}.

Lemma bytes_of_cons b bs : bytes_of (b :: bs) = b_data b ++ bytes_of bs.
Proof. done. Qed.

Lemma bytes_of_app l1 l2 : bytes_of (l1 ++ l2) = bytes_of l1 ++ bytes_of l2.
Proof. unfold bytes_of. by rewrite fmap_app, concat_app. Qed.

Lemma bytes_of_no_data bs : Forall no_data bs -> bytes_of bs = [].
Proof. induction 1 as [|b bs Hb _ IH]; [done|]. by rewrite bytes_of_cons, Hb, IH. Qed.

Lemma blk_avail_0 b : (blk_avail b =? 0) = true <-> b_data b = [].
Proof.
  unfold blk_avail. rewrite Z.eqb_eq. destruct (b_data b); split; intros H; [done..| |done]. cbn [length] in H. lia.
Qed.

Lemma drop_bytes b bs (n : Z) : blk_avail b <= n ->
  drop (Z.to_nat n) (bytes_of (b :: bs)) = drop (Z.to_nat (n - blk_avail b)) (bytes_of bs).
Proof.
  intros Hn. unfold blk_avail in *. rewrite bytes_of_cons, drop_app_ge by lia. f_equal. lia.
Qed.

(** ** Moving over blocks *)

Lemma skip_blocks_spec bs k off k' o' : chain_ok bs -> bs <> [] -> 0 <= off <= Z.of_nat (length (bytes_of bs)) ->
  skip_blocks bs k off = (k', o') ->
  exists j, k' = (k + j)%nat /\ (j < length bs)%nat /\ chain_ok (drop j bs) /\
    0 <= o' <= blk_avail (bs !!! j) /\
    drop (Z.to_nat o') (bytes_of (drop j bs)) = drop (Z.to_nat off) (bytes_of bs) /\
    (o' < Z.of_nat (length (bytes_of (drop j bs))) -> o' < blk_avail (bs !!! j)).
Proof.
  revert k off. induction bs as [|b bs IH]; intros k off Hc Hne Ho E; [done|].
  assert (Hstop : (k', o') = (k, off) -> off <= blk_avail b ->
    (off < Z.of_nat (length (bytes_of (b :: bs))) -> off < blk_avail b) ->
    exists j, k' = (k + j)%nat /\ (j < length (b :: bs))%nat /\ chain_ok (drop j (b :: bs)) /\
    0 <= o' <= blk_avail ((b :: bs) !!! j) /\
    drop (Z.to_nat o') (bytes_of (drop j (b :: bs))) = drop (Z.to_nat off) (bytes_of (b :: bs)) /\
    (o' < Z.of_nat (length (bytes_of (drop j (b :: bs)))) -> o' < blk_avail ((b :: bs) !!! j))).
  { intros [= -> ->] Hle Hp. exists 0%nat. rewrite drop_0. split_and!; [lia|cbn; lia|done|lia|done|done|done]. }
  assert (Hl : Z.of_nat (length (bytes_of (b :: bs))) = blk_avail b + Z.of_nat (length (bytes_of bs)))
    by (rewrite (bytes_of_cons b), length_app; unfold blk_avail; lia).
  destruct bs as [|b' bs'].
  { change (bytes_of []) with (@nil Z) in Hl. cbn [length] in Hl. apply Hstop; [by cbn in E|lia|lia]. }
  cbn [skip_blocks] in E. destruct (blk_avail b' =? 0) eqn:E0; cbn [negb andb] in E.
  { apply blk_avail_0 in E0. destruct Hc as [Hc _]. rewrite (bytes_of_cons b'), E0, (bytes_of_no_data bs') in Hl by auto.
    cbn [app length] in Hl. apply Hstop; [done|lia|lia]. }
  destruct (Z.geb_spec off (blk_avail b)) as [Hge|Hlt]; [|apply Hstop; [done|lia|done]].
  destruct Hc as [_ Hc]. assert (Hd := drop_bytes b (b' :: bs') off Hge).
  destruct (IH (S k) (off - blk_avail b) Hc ltac:(done) ltac:(lia) E) as (j & -> & Hj & Hc' & Ho' & Hd' & Hp).
  exists (S j). split; [lia|]. cbn [drop]. split_and!; [cbn in *; lia|done|apply Ho'..| |done].
  by rewrite Hd', Hd.
Qed.

(** A move of the reader to offset [off] of its chain. *)
Lemma move_spec bs k off lim k' o' : (k < length bs)%nat -> chain_ok (drop k bs) ->
  0 <= off <= Z.of_nat (length (bytes_of (drop k bs))) -> lim = INK64_MAX -> skip_blocks (drop k bs) k off = (k', o') ->
  rd_ok bs (mkRd (Some k') o' lim) /\ rd_bytes bs (mkRd (Some k') o' lim) = drop (Z.to_nat off) (bytes_of (drop k bs)) /\
  o' <= blk_avail (bs !!! k') /\ (rd_bytes bs (mkRd (Some k') o' lim) <> [] -> o' < blk_avail (bs !!! k')).
Proof.
  intros Hk Hc Ho Hl E. assert (Hne : drop k bs <> []).
  { intros H0. apply (f_equal length) in H0. rewrite length_drop in H0. cbn in H0. lia. }
  destruct (skip_blocks_spec _ _ _ _ _ Hc Hne Ho E) as (j & -> & Hj & Hc' & Ho' & Hd & Hp).
  rewrite length_drop in Hj. rewrite drop_drop in *. rewrite list_lookup_total_alt, lookup_drop, <- list_lookup_total_alt in Hp, Ho'.
  unfold rd_bytes. cbn [chain_from r_block start_offset]. assert (Hkj : (k + j < length bs)%nat) by lia.
  assert (Hcap : Z.of_nat (length (bytes_of (drop (k + j) bs))) >= blk_avail (bs !!! (k + j)%nat)).
  { destruct (lookup_lt_is_Some_2 bs _ Hkj) as [b Hb]. rewrite (drop_S _ _ _ Hb), bytes_of_cons, length_app.
    rewrite (list_lookup_total_correct _ _ _ Hb). unfold blk_avail. lia. }
  split; [split; cbn [chain_from r_block start_offset size_limit]; [done|lia|done|done]|]. split; [done|]. split; [lia|].
  intros Hb. apply Hp. destruct (decide (o' < Z.of_nat (length (bytes_of (drop (k + j) bs))))) as [|Hge]; [done|].
  exfalso. apply Hb. apply drop_ge. lia.
Qed.

Lemma skip_empty_spec bs r : rd_ok bs r ->
  rd_ok bs (skip_empty_blocks bs r) /\ rd_bytes bs (skip_empty_blocks bs r) = rd_bytes bs r /\
  match r_block (skip_empty_blocks bs r) with
  | Some k => start_offset (skip_empty_blocks bs r) <= blk_avail (bs !!! k) /\
              (rd_bytes bs r <> [] -> start_offset (skip_empty_blocks bs r) < blk_avail (bs !!! k))
  | None => rd_bytes bs r = []
  end.
Proof.
  intros [H1 H2 H3 H4]. unfold skip_empty_blocks. destruct r as [[k|] off lim]; cbn [r_block start_offset size_limit chain_from] in *.
  - destruct (skip_blocks (drop k bs) k off) as [k' o'] eqn:E.
    destruct (move_spec _ _ _ _ _ _ H4 H3 H2 H1 E) as (A & B & C & D). split; [done|]. split; [done|].
    cbn [r_block start_offset]. rewrite B in D. done.
  - split; [by split|]. split; [done|]. unfold rd_bytes. cbn. apply drop_nil.
Qed.

Lemma start_prefix bs r : rd_ok bs r -> exists rest, rd_bytes bs r = start bs r ++ rest.
Proof.
  intros H. destruct (skip_empty_spec bs r H) as (A & B & C). unfold start. destruct (r_block _) as [k|] eqn:Ek; [|by rewrite C; exists []].
  destruct C as [C _], A as [_ A _ Hk]. rewrite Ek in Hk. destruct (lookup_lt_is_Some_2 bs k Hk) as [b Hb].
  rewrite <- B. unfold rd_bytes, chain_from. rewrite Ek, (drop_S _ _ _ Hb), bytes_of_cons, (list_lookup_total_correct _ _ _ Hb) in *.
  exists (bytes_of (drop (S k) bs)). unfold blk_avail in C. rewrite drop_app_le by lia. done.
Qed.

Lemma block_read_avail_start bs r : rd_ok bs r -> block_read_avail bs r = Z.of_nat (length (start bs r)).
Proof.
  intros H. destruct (skip_empty_spec bs r H) as (A & B & C). unfold block_read_avail, start.
  destruct (r_block _) as [k|]; [|done]. rewrite length_drop. destruct C as [C _], A as [_ A _ _]. unfold blk_avail in *. lia.
Qed.

Lemma start_progress bs r : rd_ok bs r -> rd_bytes bs r <> [] -> start bs r <> [].
Proof.
  intros H Hb. destruct (skip_empty_spec bs r H) as (A & B & C). unfold start. destruct (r_block _) as [k|]; [|done].
  destruct C as [_ C]. specialize (C Hb). destruct A as [_ A _ _].
  intros H0. apply (f_equal length) in H0. rewrite length_drop in H0. cbn in H0. unfold blk_avail in C. lia.
Qed.

Lemma fold_avail bs t : foldl (fun t b => t + blk_avail b) t bs = t + Z.of_nat (length (bytes_of bs)).
Proof.
  revert t. induction bs as [|b bs IH]; intros t; cbn [foldl]; [cbn; lia|].
  rewrite IH, bytes_of_cons, length_app. unfold blk_avail. lia.
Qed.

Lemma read_avail_bytes bs r : rd_ok bs r -> read_avail bs r = Z.of_nat (length (rd_bytes bs r)).
Proof.
  intros [H1 H2 _ _]. unfold read_avail, rd_bytes. rewrite H1, fold_avail, length_drop, Z.eqb_refl. cbn [negb andb]. lia.
Qed.

Lemma consume_spec bs r n : rd_ok bs r -> 0 <= n <= Z.of_nat (length (rd_bytes bs r)) ->
  rd_ok bs (consume bs n r) /\ rd_bytes bs (consume bs n r) = drop (Z.to_nat n) (rd_bytes bs r).
Proof.
  intros [H1 H2 H3 H4] Hn. unfold rd_bytes in Hn. rewrite length_drop in Hn. unfold consume.
  destruct r as [[k|] off lim]; cbn [r_block start_offset size_limit chain_from] in *; subst lim; rewrite Z.eqb_refl.
  - destruct (skip_blocks (drop k bs) k (off + n)) as [k' o'] eqn:E.
    destruct (move_spec bs k (off + n) INK64_MAX k' o' H4 H3 ltac:(lia) eq_refl E) as (A & -> & _). split; [done|].
    unfold rd_bytes. cbn. rewrite drop_drop. f_equal. lia.
  - cbn in *. split; [split; cbn; [done|lia|done|done]|]. unfold rd_bytes. cbn. by rewrite !drop_nil.
Qed.

#[global] Program Instance IOBufferReader_ByteReader : ByteReader (list IOBufferBlock * IOBufferReader) := {
  br_avail r := read_avail r.1 r.2;
  br_block r := start r.1 r.2;
  br_consume n r := (r.1, consume r.1 n r.2);
  br_bytes r := rd_bytes r.1 r.2;
  br_ok r := rd_ok r.1 r.2
}.
Solve Obligations with intros [bs r]; eauto using read_avail_bytes, start_prefix, start_progress, consume_spec.

(** ** Random access *)

Lemma memcpy_go_spec bs len off : 0 <= len -> 0 <= off ->
  memcpy_go bs len off = take (Z.to_nat len) (drop (Z.to_nat off) (bytes_of bs)).
Proof.
  revert len off. induction bs as [|b bs IH]; intros len off Hl Ho; cbn [memcpy_go];
    [change (bytes_of []) with (@nil Z); by rewrite drop_nil, take_nil|].
  destruct (Z.eqb_spec len 0) as [->|]; [done|]. destruct (Z.leb_spec (blk_avail b - off) 0).
  - rewrite IH, drop_bytes by lia. do 3 f_equal. lia.
  - rewrite (proj2 (Z.ltb_ge len 0)) by lia. cbn [orb]. unfold blk_avail in *. rewrite bytes_of_cons, drop_app_le by lia.
    destruct (Z.geb_spec len (Z.of_nat (length (b_data b)) - off)).
    + rewrite IH by lia. rewrite (take_app_ge _ _ (Z.to_nat len)) by (rewrite length_drop; lia).
      rewrite take_ge by (rewrite length_drop; lia). rewrite drop_0, length_drop. do 2 f_equal. lia.
    + rewrite IH, Z.sub_diag by lia. cbn [Z.to_nat take]. rewrite app_nil_r, take_app_le by (rewrite length_drop; lia). done.
Qed.

Lemma ink_memchr_app s1 s2 c n : ink_memchr (s1 ++ s2) c n =
  match ink_memchr s1 c n with
  | Some p => Some p
  | None => (fun p => (length s1 + p)%nat) <$> ink_memchr s2 c (n - length s1)
  end.
Proof.
  revert n. induction s1 as [|x s1 IH]; intros n.
  { cbn [app length]. rewrite Nat.sub_0_r. replace (ink_memchr [] c n) with (@None nat) by (by destruct n).
    by destruct (ink_memchr s2 c n). }
  destruct n as [|n]; cbn [app ink_memchr]; [by destruct s2|]. destruct (x =? c); [done|]. rewrite IH.
  cbn [length Nat.sub]. destruct (ink_memchr s1 c n); [done|]. by destruct (ink_memchr s2 _ _).
Qed.

Lemma ink_memchr_short s c n m : (length s <= n)%nat -> (length s <= m)%nat -> ink_memchr s c n = ink_memchr s c m.
Proof.
  revert n m. induction s as [|x s IH]; intros n m Hn Hm; [by destruct n, m|]. cbn in Hn, Hm.
  destruct n, m; [lia..|]. cbn. destruct (_ =? _); [done|]. by rewrite (IH n m) by lia.
Qed.

Lemma memchr_go_spec bs c len off o : 0 <= len -> 0 <= off ->
  memchr_go bs c len off o = (fun p => o + Z.of_nat p) <$> ink_memchr (drop (Z.to_nat off) (bytes_of bs)) c (Z.to_nat len).
Proof.
  revert len off o. induction bs as [|b bs IH]; intros len off o Hl Ho; cbn [memchr_go].
  { change (bytes_of []) with (@nil Z). rewrite drop_nil. by destruct (Z.to_nat len). }
  destruct (Z.eqb_spec len 0) as [->|]; [by destruct (drop _ _)|]. destruct (Z.leb_spec (blk_avail b - off) 0).
  { rewrite IH, drop_bytes by lia. do 3 f_equal. f_equal. lia. }
  rewrite (proj2 (Z.ltb_ge len 0)) by lia. cbn [orb]. unfold blk_avail in *. rewrite bytes_of_cons, drop_app_le, ink_memchr_app by lia.
  destruct (Z.geb_spec len (Z.of_nat (length (b_data b)) - off)).
  - rewrite (ink_memchr_short _ c _ (Z.to_nat len)) by (rewrite length_drop; lia).
    destruct (ink_memchr (drop _ _) _ _); [done|]. rewrite IH, length_drop by lia. rewrite drop_0, <- option_fmap_compose.
    replace (Z.to_nat (len - (Z.of_nat (length (b_data b)) - off))) with (Z.to_nat len - (length (b_data b) - Z.to_nat off))%nat by lia.
    apply option_fmap_ext. intros p. cbn. lia.
  - destruct (ink_memchr (drop _ _) _ _); [done|]. rewrite IH, Z.sub_diag by lia. rewrite length_drop.
    replace (Z.to_nat len - _)%nat with 0%nat by lia. cbn [Z.to_nat]. by destruct (drop _ _), (bytes_of bs).
Qed.

Lemma char_at_go_spec bs i : 0 <= i -> char_at_go bs i = bytes_of bs !! Z.to_nat i.
Proof.
  revert i. induction bs as [|b bs IH]; intros i Hi; cbn [char_at_go]; [done|]. rewrite bytes_of_cons. unfold blk_avail.
  destruct (Z.gtb_spec (Z.of_nat (length (b_data b))) i).
  - rewrite lookup_app_l by lia. done.
  - rewrite IH, lookup_app_r by lia. f_equal. lia.
Qed.

Lemma read_go_spec fuel bs r n : rd_ok bs r -> 0 <= n <= Z.of_nat (length (rd_bytes bs r)) -> n <= Z.of_nat fuel ->
  exists r', read_go fuel bs n r = Some (take (Z.to_nat n) (rd_bytes bs r), r') /\ rd_ok bs r' /\
    rd_bytes bs r' = drop (Z.to_nat n) (rd_bytes bs r).
Proof.
  revert r n. induction fuel as [|fuel IH]; intros r n H Hn Hf; cbn [read_go].
  { replace n with 0 by lia. exists r. done. }
  destruct (Z.eqb_spec n 0) as [->|]; [by exists r|].
  destruct (skip_empty_spec bs r H) as (A & B & _). rewrite block_read_avail_start by done.
  destruct (start_prefix bs r H) as [rest Hs]. assert (Hne : start bs r <> []).
  { apply start_progress; [done|]. intros E. rewrite E in Hn. cbn in Hn. lia. }
  assert (0 < length (start bs r))%nat by (destruct (start bs r); [done|cbn; lia]).
  set (l := if n <? _ then _ else _). assert (Hl : 0 < l <= n /\ l <= Z.of_nat (length (start bs r)))
    by (unfold l; destruct (Z.ltb_spec n (Z.of_nat (length (start bs r)))); lia).
  rewrite <- B in Hn. destruct (consume_spec bs _ l A ltac:(lia)) as [A' B']. rewrite B in *.
  destruct (IH _ (n - l) A' ltac:(rewrite B', length_drop; lia) ltac:(lia)) as (r' & E & R1 & R2). rewrite E.
  exists r'. cbn [mbind option_bind]. split; [|split; [done|]].
  - rewrite B'. replace (take (Z.to_nat l) (start bs r)) with (take (Z.to_nat l) (rd_bytes bs r))
      by (rewrite Hs, take_app_le by lia; done).
    rewrite take_take_drop. do 3 f_equal. lia.
  - rewrite R2, B', drop_drop. f_equal. lia.
Qed.

(** ** Writing *)

Definition has_data (b : IOBufferBlock) : Prop := b_data b <> [].
Definition unused (b : IOBufferBlock) : Prop := b_data b = [] /\ 0 < write_avail b.

(** The writer is at [b], after [l1]; what follows is [l2].  Only the first
    block of a chain may be empty. *)
Record wshape (m : MIOBuffer) (l1 : list IOBufferBlock) (b : IOBufferBlock) (l2 : list IOBufferBlock) : Prop := {
  ws_blocks : blocks m = l1 ++ b :: l2;
  ws_writer : writer m = Some (length l1);
  ws_before : Forall has_data (tail l1);
  ws_after : Forall unused l2;
  ws_room : 0 <= write_avail b;
  ws_size : 0 < block_size m
}.

Definition filled (l1 : list IOBufferBlock) (b : IOBufferBlock) : Prop := l1 = [] \/ has_data b.

(** [m'] shows [s] after what [m] shows, to any reader up to its writer. *)
Definition shows_more (m m' : MIOBuffer) (s : list Z) : Prop :=
  readers m' = readers m /\ block_size m' = block_size m /\
  forall w, writer m = Some w -> exists w', writer m' = Some w' /\ (w <= w')%nat /\
    forall k, (k <= w)%nat -> bytes_of (drop k (blocks m')) = bytes_of (drop k (blocks m)) ++ s.

Lemma shows_more_refl m : shows_more m m [].
Proof. split_and!; [done..|]. intros w Hw. exists w. split_and!; [done|lia|]. intros k _. by rewrite app_nil_r. Qed.

Lemma shows_more_trans m1 m2 m3 s1 s2 : shows_more m1 m2 s1 -> shows_more m2 m3 s2 -> shows_more m1 m3 (s1 ++ s2).
Proof.
  intros (R1 & B1 & H1) (R2 & B2 & H2). split; [congruence|]. split; [congruence|]. intros w Hw.
  destruct (H1 w Hw) as (w2 & Hw2 & Hle & E1). destruct (H2 w2 Hw2) as (w3 & Hw3 & Hle' & E2).
  exists w3. split_and!; [done|lia|]. intros k Hk. rewrite E2, E1 by lia. by rewrite app_assoc.
Qed.

Lemma advance_writer_end bs w : (bs !! S w = None) \/ (exists b, bs !! S w = Some b /\ b_data b = []) ->
  forall fuel, advance_writer fuel bs w = w.
Proof.
  intros [H|(b & H & Hb)] [|fuel]; cbn [advance_writer]; rewrite ?H; [done..|].
  apply blk_avail_0 in Hb. by rewrite Hb, andb_false_r.
Qed.

Lemma drop_mid {A} (k : nat) (l1 : list A) l2 l2' : (k <= length l1)%nat -> drop k (l1 ++ l2) = drop k l1 ++ l2 /\
  drop k (l1 ++ l2') = drop k l1 ++ l2'.
Proof. intros. by rewrite !drop_app_le. Qed.

Lemma shape_tail l1 b : Forall has_data (tail l1) -> filled l1 b -> Forall has_data (tail (l1 ++ [b])).
Proof.
  intros H [->|Hb]; [done|]. destruct l1 as [|x l1]; [done|]. cbn in *. apply Forall_app. split; [done|]. by constructor.
Qed.

(** The writer moves to the next block, or gets one when there is none. *)
Lemma next_block m l1 b b' l2 : wshape m l1 b (b' :: l2) -> filled l1 b ->
  let m' := set_blocks m (blocks m) (Some (S (length l1))) in
  wshape m' (l1 ++ [b]) b' l2 /\ shows_more m m' [].
Proof.
  intros [H1 H2 H3 H4 H5 H6] Hb m'. apply Forall_cons in H4 as [[H41 H42] H43]. split.
  - split; cbn; [by rewrite H1, <- app_assoc|rewrite length_app; cbn; f_equal; lia|by apply shape_tail|done|lia|done].
  - split_and!; [done..|]. intros w Hw. rewrite H2 in Hw. injection Hw as <-. exists (S (length l1)).
    split_and!; [done|lia|]. intros k _. by rewrite app_nil_r.
Qed.

Lemma add_block_end m l1 b : wshape m l1 b [] ->
  wshape (add_block m) l1 b [mkBlk [] (block_size m)] /\ shows_more m (add_block m) [].
Proof.
  intros [H1 H2 H3 H4 H5 H6]. unfold add_block, append_block_internal. rewrite H2, H1.
  change (blk_avail (mkBlk [] (block_size m)) =? 0) with true. cbv iota zeta.
  rewrite (take_ge _ (S (length l1))) by (rewrite length_app; cbn; lia).
  rewrite advance_writer_end.
  2:{ right. exists (mkBlk [] (block_size m)). split; [|done]. rewrite <- app_assoc, lookup_app_r by lia.
      replace (S (length l1) - length l1)%nat with 1%nat by lia. done. }
  split.
  - split; cbn; [by rewrite <- app_assoc|done|done| |done|done]. repeat constructor; done.
  - split_and!; [done..|]. intros w Hw. rewrite H2 in Hw. injection Hw as <-. exists (length l1). split_and!; [done|lia|].
    intros k Hk. cbn [blocks set_blocks]. rewrite H1, <- app_assoc.
    destruct (drop_mid k l1 (b :: []) ([b] ++ [mkBlk [] (block_size m)]) Hk) as [-> ->].
    rewrite !bytes_of_app. cbn. by rewrite !app_nil_r.
Qed.

Lemma fill_shape m l1 b l2 s : wshape m l1 b l2 -> Z.of_nat (length s) <= write_avail b -> s <> [] ->
  let b1 := mkBlk (b_data b ++ s) (write_avail b - Z.of_nat (length s)) in
  wshape (fill_writer (length l1) s m) l1 b1 l2 /\ has_data b1 /\ shows_more m (fill_writer (length l1) s m) s.
Proof.
  intros [H1 H2 H3 H4 H5 H6] Hs Hne b1. unfold fill_writer. rewrite H1.
  rewrite list_lookup_total_alt, lookup_app_r, Nat.sub_diag by lia. cbn [lookup list_lookup default from_option id].
  rewrite insert_app_r_alt, Nat.sub_diag by lia. cbn [insert list_insert]. fold b1. unfold shows_more. split_and!.
  - split; unfold b1; cbn; [done..|lia|done].
  - unfold has_data, b1. cbn. intros E. apply app_eq_nil in E as [_ E]. done.
  - done.
  - done.
  - intros w Hw. rewrite H2 in Hw. injection Hw as <-. exists (length l1). split_and!; [done|lia|].
    intros k Hk. cbn [blocks set_blocks]. rewrite H1. destruct (drop_mid k l1 (b :: l2) (b1 :: l2) Hk) as [-> ->].
    rewrite !bytes_of_app, !bytes_of_cons. cbn [b_data b1]. rewrite <- !app_assoc. do 2 f_equal.
    rewrite (bytes_of_no_data l2), !app_nil_r; [done|]. eapply Forall_impl; [exact H4|]. by intros x [? _].
Qed.

(** The rounds before the writer has room. *)
Definition rounds (b : IOBufferBlock) (l2 : list IOBufferBlock) : nat :=
  if write_avail b =? 0 then match l2 with [] => 2%nat | _ => 1%nat end else 0%nat.

Lemma step_writer m l1 b l2 : wshape m l1 b l2 -> filled l1 b -> write_avail b = 0 ->
  let m' := match blocks m !! S (length l1) with
            | None => add_block m
            | Some _ => set_blocks m (blocks m) (Some (S (length l1)))
            end in
  exists l1' b' l2', wshape m' l1' b' l2' /\ (filled l1' b' \/ 0 < write_avail b') /\ shows_more m m' [] /\
    (rounds b' l2' < rounds b l2)%nat.
Proof.
  intros W F E0. cbv zeta. assert (Hl : blocks m !! S (length l1) = head l2).
  { rewrite (ws_blocks _ _ _ _ W), lookup_app_r by lia. replace (S (length l1) - length l1)%nat with 1%nat by lia. by destruct l2. }
  rewrite Hl. unfold rounds at 2. rewrite E0, Z.eqb_refl. destruct l2 as [|b' l2']; cbn [head].
  - destruct (add_block_end _ _ _ W) as [W2 S2]. eexists _, _, _. split_and!; [exact W2|by left|done|].
    unfold rounds. rewrite E0, Z.eqb_refl. lia.
  - destruct (next_block _ _ _ _ _ W F) as [W2 S2]. eexists _, _, _.
    pose proof (ws_after _ _ _ _ W) as Hun. apply Forall_cons in Hun as [[_ Hun] _].
    split_and!; [exact W2|by right|done|]. unfold rounds. rewrite (proj2 (Z.eqb_neq _ _)) by lia. lia.
Qed.

Lemma write_go_spec fuel buf m l1 b l2 : wshape m l1 b l2 -> buf <> [] -> filled l1 b \/ 0 < write_avail b ->
  (3 * length buf + rounds b l2 <= fuel)%nat ->
  exists m' l1' b' l2', write_go fuel buf m = Some m' /\ wshape m' l1' b' l2' /\ filled l1' b' /\ shows_more m m' buf.
Proof.
  revert buf m l1 b l2. induction fuel as [|fuel IH]; intros buf m l1 b l2 W Hne Hb Hf.
  { destruct buf; [done|]. cbn in Hf. lia. }
  cbn [write_go]. destruct buf as [|c buf0] eqn:Ebuf; [done|]. rewrite <- Ebuf in *. clear c buf0 Ebuf.
  rewrite (ws_writer _ _ _ _ W). rewrite (ws_writer _ _ _ _ W). cbn [mbind option_bind].
  assert (Hlk : blocks m !!! length l1 = b).
  { rewrite (ws_blocks _ _ _ _ W), list_lookup_total_alt, lookup_app_r, Nat.sub_diag by lia. done. }
  rewrite Hlk. pose proof (ws_room _ _ _ _ W) as Hroom. assert (0 < length buf)%nat by (destruct buf; [done|cbn; lia]).
  set (f := Z.min (write_avail b) (Z.of_nat (length buf))). destruct (Z.gtb_spec f 0) as [Hpos|Hzero].
  - destruct (fill_shape m l1 b l2 (take (Z.to_nat f) buf) W) as (W1 & D1 & S1);
      [rewrite length_take; lia|intros E; apply (f_equal length) in E; rewrite length_take in E; cbn in E; lia|].
    set (m2 := fill_writer _ _ _) in *. set (b1 := mkBlk _ _) in *.
    destruct (drop (Z.to_nat f) buf) as [|c r] eqn:Ed.
    { exists m2, l1, b1, l2. assert (Et : take (Z.to_nat f) buf = buf).
      { apply take_ge. apply (f_equal length) in Ed. rewrite length_drop in Ed. cbn in Ed. lia. }
      rewrite Et in S1. split_and!; [by destruct fuel|done|by right|done]. }
    assert (Hfull : write_avail b1 = 0).
    { apply (f_equal length) in Ed. rewrite length_drop in Ed. cbn [length] in Ed. unfold b1. cbn. rewrite length_take. lia. }
    assert (Hlen : (length (c :: r) < length buf)%nat) by (rewrite <- Ed, length_drop; lia).
    assert (Hsplit : buf = take (Z.to_nat f) buf ++ (c :: r)) by (rewrite <- Ed; by rewrite take_drop).
    destruct (step_writer _ _ _ _ W1 (or_intror D1) Hfull) as (l1' & b' & l2' & W2 & F2 & S2 & R2).
    assert (rounds b1 l2 <= 2)%nat by (unfold rounds; rewrite Hfull; destruct l2; cbn; lia).
    destruct (IH (c :: r) _ _ _ _ W2 ltac:(done) F2 ltac:(lia)) as (m' & l1'' & b'' & l2'' & E & W3 & F3 & S3).
    exists m', l1'', b'', l2''. split_and!; [done|done|done|]. rewrite Hsplit. eapply shows_more_trans; [exact S1|].
    exact (shows_more_trans _ _ _ _ _ S2 S3).
  - assert (E0 : write_avail b = 0) by lia. destruct buf as [|c r] eqn:Eb; [done|]. rewrite <- Eb in *.
    assert (Hfl : filled l1 b) by (destruct Hb; [done|lia]).
    destruct (step_writer _ _ _ _ W Hfl E0) as (l1' & b' & l2' & W2 & F2 & S2 & R2).
    destruct (IH buf _ _ _ _ W2 ltac:(by rewrite Eb) F2 ltac:(lia)) as (m' & l1'' & b'' & l2'' & E & W3 & F3 & S3).
    exists m', l1'', b'', l2''. split_and!; [done|done|done|]. exact (shows_more_trans _ _ _ _ _ S2 S3).
Qed.

Lemma append_data_block m l1 b l2 bb : wshape m l1 b l2 -> filled l1 b -> has_data bb -> write_avail bb = 0 ->
  wshape (append_block_internal bb m) (l1 ++ [b]) bb [] /\ shows_more m (append_block_internal bb m) (b_data bb).
Proof.
  intros [H1 H2 H3 H4 H5 H6] F Hd Hr. unfold append_block_internal. rewrite H2, H1.
  assert (Hz : (blk_avail bb =? 0) = false) by (apply not_true_iff_false; intros E; by apply blk_avail_0 in E).
  assert (Htk : take (S (length l1)) (l1 ++ b :: l2) = l1 ++ [b]).
  { rewrite take_app_ge by lia. replace (S (length l1) - length l1)%nat with 1%nat by lia. done. }
  rewrite Hz, Htk. cbv zeta. rewrite advance_writer_end.
  2:{ left. apply lookup_ge_None. rewrite !length_app. cbn. lia. }
  split.
  - split; cbn; [done|rewrite length_app; cbn; f_equal; lia|by apply shape_tail|done|lia|done].
  - split_and!; [done..|]. intros w Hw. rewrite H2 in Hw. injection Hw as <-. exists (S (length l1)). split_and!; [done|lia|].
    intros k Hk. cbn [blocks set_blocks]. rewrite H1, <- app_assoc.
    destruct (drop_mid k l1 (b :: l2) ([b] ++ [bb]) Hk) as [-> ->]. rewrite !bytes_of_app, (bytes_of_cons b l2).
    rewrite (bytes_of_no_data l2) by (eapply Forall_impl; [exact H4|]; by intros x [? _]).
    unfold bytes_of at 2 3. cbn. by rewrite !app_nil_r, app_assoc.
Qed.

Lemma write_reader_go_spec bs len off m l1 b l2 : wshape m l1 b l2 -> filled l1 b -> 0 <= len -> 0 <= off ->
  let s := take (Z.to_nat len) (drop (Z.to_nat off) (bytes_of bs)) in
  exists m' l1' b' l2', write_reader_go bs len off m = (m', len - Z.of_nat (length s)) /\ wshape m' l1' b' l2' /\ filled l1' b' /\
    shows_more m m' s.
Proof.
  revert len off m l1 b l2. induction bs as [|x bs IH]; intros len off m l1 b l2 W F Hl Ho; cbn [write_reader_go].
  { change (bytes_of []) with (@nil Z). rewrite drop_nil, take_nil. exists m, l1, b, l2. cbn [length]. rewrite Z.sub_0_r.
    split_and!; [done..|apply shows_more_refl]. }
  destruct (Z.gtb_spec len 0) as [Hpos|Hz].
  2:{ replace len with 0 by lia. exists m, l1, b, l2. split_and!; [done..|apply shows_more_refl]. }
  destruct (Z.leb_spec (blk_avail x - off) 0) as [Hs|Hs].
  { rewrite drop_bytes by lia. replace (off - blk_avail x) with (- (blk_avail x - off)) by lia. by apply (IH _ _ _ l1 b l2); [..|lia]. }
  unfold blk_avail in *. rewrite bytes_of_cons, drop_app_le by lia.
  set (here := drop (Z.to_nat off) (b_data x)). assert (Hh : Z.of_nat (length here) = Z.of_nat (length (b_data x)) - off)
    by (unfold here; rewrite length_drop; lia).
  set (bytes := if _ >=? _ then _ else _). assert (Hbytes : bytes = Z.min len (Z.of_nat (length here)))
    by (unfold bytes; destruct (Z.geb_spec len (Z.of_nat (length (b_data x)) - off)); lia).
  clearbody bytes. set (bb := mkBlk (take (Z.to_nat bytes) here) 0).
  destruct (append_data_block m l1 b l2 bb W F) as [W1 S1]; [|done|].
  { unfold has_data, bb. cbn. intros E. apply (f_equal length) in E. rewrite length_take in E. cbn in E. lia. }
  assert (Hd : has_data bb).
  { unfold has_data, bb. cbn. intros E. apply (f_equal length) in E. rewrite length_take in E. cbn in E. lia. }
  destruct (IH (len - bytes) 0 _ _ _ _ W1 (or_intror Hd) ltac:(lia) ltac:(lia)) as (m' & l1' & b' & l2' & E & W2 & F2 & S2).
  assert (Hs2 : take (Z.to_nat len) (here ++ bytes_of bs) = take (Z.to_nat bytes) here ++ take (Z.to_nat (len - bytes)) (bytes_of bs)).
  { rewrite take_app. f_equal; [|f_equal; clear -Hbytes Hl; lia]. destruct (decide (len <= Z.of_nat (length here))); [f_equal; lia|].
    rewrite !take_ge by lia. done. }
  change (Z.to_nat 0) with 0%nat in E, S2. rewrite drop_0 in E, S2. exists m', l1', b', l2'. rewrite Hs2. split_and!; [|done|done|].
  - rewrite E. f_equal. rewrite length_app, !length_take. lia.
  - exact (shows_more_trans _ _ _ _ _ S1 S2).
Qed.

(** ** Buffers with their readers *)

Record mio_inv (m : MIOBuffer) : Prop := {
  mi_shape : exists l1 b l2, wshape m l1 b l2 /\ filled l1 b;
  mi_readers r : Some r ∈ readers m -> size_limit r = INK64_MAX /\ exists k w, r_block r = Some k /\ writer m = Some w /\
    (k <= w)%nat /\ 0 <= start_offset r <= Z.of_nat (length (bytes_of (drop k (blocks m))))
}.

Lemma packed_app l1 l2 : Forall has_data l1 -> packed l2 -> packed (l1 ++ l2).
Proof. induction 1 as [|x l1 Hx _ IH]; intros H2; [done|]. cbn. split; [intros E; by destruct Hx|auto]. Qed.

Lemma packed_unused l : Forall unused l -> packed l.
Proof.
  induction 1 as [|x l Hx Hl IH]; [done|]. cbn. split; [|done]. intros _. eapply Forall_impl; [exact Hl|]. by intros y [? _].
Qed.

Lemma mio_reader_ok m r : mio_inv m -> Some r ∈ readers m -> rd_ok (blocks m) r.
Proof.
  intros [(l1 & b & l2 & [H1 H2 H3 H4 _ _] & F) Hr] Hin. destruct (Hr r Hin) as (Hl & k & w & Hk & Hw & Hle & Ho).
  rewrite H2 in Hw. injection Hw as <-. split; [done|unfold chain_from; by rewrite Hk| |].
  - unfold chain_from, chain_ok. rewrite Hk, H1, drop_app_le by done. apply packed_unused in H4 as H4'.
    destruct (decide (k = length l1)) as [->|].
    { by rewrite drop_all. }
    destruct (drop k l1) as [|x l] eqn:Ed; [apply (f_equal length) in Ed; rewrite length_drop in Ed; cbn in Ed; lia|].
    cbn [app tail]. apply packed_app.
    + destruct l1 as [|y l1']; [by rewrite drop_nil in Ed|]. cbn [tail] in H3. destruct k as [|k]; cbn in Ed; [by injection Ed as -> ->|].
      apply Forall_drop with (n := k) in H3. rewrite Ed in H3. by apply Forall_cons in H3 as [_ ?].
    + destruct F as [->|F]; [by rewrite drop_nil in Ed|]. cbn. split; [by intros ?|done].
  - rewrite Hk, H1, length_app. cbn. lia.
Qed.

Lemma shows_more_readers m m' s : mio_inv m -> shows_more m m' s -> (exists l1 b l2, wshape m' l1 b l2 /\ filled l1 b) ->
  mio_inv m' /\ readers m' = readers m /\
  forall r, Some r ∈ readers m -> rd_bytes (blocks m') r = rd_bytes (blocks m) r ++ s.
Proof.
  intros I (HR & HB & HS) Hshape. split_and!; [split; [done|]|done|].
  - intros r Hin. rewrite HR in Hin. destruct (mi_readers _ I r Hin) as (Hl & k & w & Hk & Hw & Hle & Ho).
    destruct (HS w Hw) as (w' & Hw' & Hww & Hb). split; [done|]. exists k, w'. rewrite Hb, length_app by done.
    split_and!; [done|done|lia|lia|lia].
  - intros r Hin. destruct (mi_readers _ I r Hin) as (Hl & k & w & Hk & Hw & Hle & Ho).
    destruct (HS w Hw) as (w' & Hw' & Hww & Hb). unfold rd_bytes, chain_from. rewrite Hk, Hb, drop_app_le by lia. done.
Qed.

Lemma new_MIOBuffer_inv size : 0 < size -> mio_inv (new_MIOBuffer size).
Proof.
  intros H. split.
  - exists [], (mkBlk [] size), []. split; [split; cbn; [done..|lia|done]|by left].
  - intros r Hin. cbn in Hin. repeat (apply elem_of_cons in Hin as [Hin|Hin]; [done|]). by apply elem_of_nil in Hin.
Qed.

Lemma alloc_reader_inv m m' i : mio_inv m -> alloc_reader m = Some (m', i) -> mio_inv m'.
Proof.
  intros I E. unfold alloc_reader in E. destruct (free_slot m) as [j|]; [|done]. cbn in E. injection E as <- <-.
  destruct I as [(l1 & b & l2 & W & F) Hr]. split.
  - exists l1, b, l2. by split; [destruct W|].
  - intros r Hin. cbn [put_reader set_readers readers] in Hin. apply list_elem_of_lookup in Hin as [x Hx].
    destruct (decide (x = j)) as [->|Hne].
    + destruct (decide (j < length (readers m))%nat) as [Hlt|Hge].
      * rewrite list_lookup_insert_eq in Hx by done. injection Hx as <-. split; [done|]. exists (length l1), (length l1).
        rewrite (ws_writer _ _ _ _ W). cbn. rewrite (ws_writer _ _ _ _ W). split_and!; [done|done|lia|lia|lia].
      * rewrite list_insert_ge in Hx by lia. apply list_elem_of_lookup_2 in Hx. by apply Hr in Hx.
    + rewrite list_lookup_insert_ne in Hx by done. apply list_elem_of_lookup_2 in Hx. by apply Hr in Hx.
Qed.

(** ** Theorems *)

(** A buffer of four byte blocks with a reader at its start. *)
Definition small_buffer : MIOBuffer :=
  match alloc_reader (new_MIOBuffer 4) with Some (m, _) => m | None => new_MIOBuffer 4 end.

Lemma small_buffer_inv : mio_inv small_buffer.
Proof. apply (alloc_reader_inv (new_MIOBuffer 4) _ 0); [apply new_MIOBuffer_inv; lia|reflexivity]. Qed.

(** a copying write ends, and every reader of the buffer sees the bytes
    after those it saw, whatever the block boundaries. *)
Theorem iobuffer_write_effect m buf : mio_inv m ->
  exists m', write buf m = Some m' /\ mio_inv m' /\ readers m' = readers m /\
    forall r, Some r ∈ readers m -> rd_bytes (blocks m') r = rd_bytes (blocks m) r ++ buf.
Proof.
  intros I. destruct (mi_shape _ I) as (l1 & b & l2 & W & F). unfold write. destruct (decide (buf = [])) as [->|Hne].
  - exists m. split_and!; [done..|]. intros r _. by rewrite app_nil_r.
  - destruct (write_go_spec (3 * length buf + 3) buf m l1 b l2 W Hne (or_introl F)) as (m' & l1' & b' & l2' & E & W' & F' & S').
    { unfold rounds. destruct (_ =? _), l2; lia. }
    exists m'. split; [done|]. eapply shows_more_readers; eauto 10.
Qed.

Lemma iobuffer_write_effect_witness : exists m', write [1; 2; 3; 4; 5; 6; 7; 8; 9; 10] small_buffer = Some m' /\
  length (blocks m') = 3%nat /\ rd_bytes (blocks m') (mkRd (Some 0%nat) 0 INK64_MAX) = [1; 2; 3; 4; 5; 6; 7; 8; 9; 10].
Proof.
  destruct (iobuffer_write_effect small_buffer [1; 2; 3; 4; 5; 6; 7; 8; 9; 10] small_buffer_inv) as (m' & E & _ & _ & H).
  exists m'. split; [exact E|]. split; [vm_compute in E; injection E as <-; reflexivity|]. rewrite H; [reflexivity|]. left.
Defined.

(** a write by reference from a reader moves the smaller of the length
    asked for and what the reader has, returns that number, and shows exactly
    these bytes to every reader of the buffer; the source is unchanged. *)
Theorem iobuffer_transfer_effect m bs r n : mio_inv m -> rd_ok bs r -> 0 <= n ->
  let s := take (Z.to_nat n) (rd_bytes bs r) in
  exists m', write_reader bs r n 0 m = (m', Z.of_nat (length s)) /\ mio_inv m' /\ readers m' = readers m /\
    forall r', Some r' ∈ readers m -> rd_bytes (blocks m') r' = rd_bytes (blocks m) r' ++ s.
Proof.
  intros I Hr Hn s. destruct (mi_shape _ I) as (l1 & b & l2 & W & F). unfold write_reader.
  destruct (write_reader_go_spec (chain_from bs r) n (0 + start_offset r) m l1 b l2 W F Hn) as (m' & l1' & b' & l2' & E & W' & F' & S');
    [destruct (ro_offset _ _ Hr); lia|].
  cbv zeta in E. rewrite E. rewrite Z.add_0_l in *. exists m'. split; [f_equal; unfold s, rd_bytes; lia|].
  eapply shows_more_readers; eauto 10.
Qed.

Lemma iobuffer_transfer_effect_witness :
  exists m', write_reader [mkBlk [1; 2; 3] 0; mkBlk [4; 5; 6] 0] (mkRd (Some 0%nat) 1 INK64_MAX) 3 0 small_buffer = (m', 3) /\
    rd_bytes (blocks m') (mkRd (Some 0%nat) 0 INK64_MAX) = [2; 3; 4].
Proof.
  destruct (iobuffer_transfer_effect small_buffer [mkBlk [1; 2; 3] 0; mkBlk [4; 5; 6] 0] (mkRd (Some 0%nat) 1 INK64_MAX) 3)
    as (m' & E & _ & _ & H); [exact small_buffer_inv| |lia|].
  - split; cbn; [done|lia|split; [done|done]|lia].
  - exists m'. split; [exact E|]. rewrite H; [reflexivity|]. left.
Defined.

(** reading, copying, indexing and searching through a reader are the
    operations on one sequence of bytes, across all block boundaries: [read]
    ends with the bytes asked for and moves past them, [memcpy] and the index
    look ahead, and [memchr] gives the first occurrence or -1. *)
Theorem iobuffer_read_effect bs r n off c : rd_ok bs r -> 0 <= n -> 0 <= off ->
  (exists r', read bs n r = Some (take (Z.to_nat n) (rd_bytes bs r), r') /\ rd_ok bs r' /\
     rd_bytes bs r' = drop (Z.to_nat n) (rd_bytes bs r)) /\
  memcpy bs r n off = take (Z.to_nat n) (drop (Z.to_nat off) (rd_bytes bs r)) /\
  char_at bs r off = rd_bytes bs r !! Z.to_nat off /\
  memchr bs r c n off = match ink_memchr (drop (Z.to_nat off) (rd_bytes bs r)) c (Z.to_nat n) with
                        | Some i => off + Z.of_nat i | None => -1 end.
Proof.
  intros H Hn Ho. destruct (ro_offset _ _ H) as [H0 _].
  assert (Hd : drop (Z.to_nat (off + start_offset r)) (bytes_of (chain_from bs r)) = drop (Z.to_nat off) (rd_bytes bs r))
    by (unfold rd_bytes; rewrite drop_drop; f_equal; lia).
  split_and!.
  - unfold read. rewrite read_avail_bytes by done. set (l := if _ <=? _ then _ else _).
    assert (Hl : 0 <= l <= Z.of_nat (length (rd_bytes bs r)) /\ (l = n \/ l = Z.of_nat (length (rd_bytes bs r)) /\ l < n))
      by (unfold l; destruct (Z.leb_spec n (Z.of_nat (length (rd_bytes bs r)))); lia).
    destruct (read_go_spec (Z.to_nat l) bs r l H) as (r' & E & R1 & R2); [lia|lia|]. exists r'. rewrite E, R2.
    destruct Hl as [_ [->|[-> Hlt]]]; [done|]. rewrite !Nat2Z.id, firstn_all, drop_all, take_ge, drop_ge by lia. done.
  - unfold memcpy. rewrite memcpy_go_spec by lia. by rewrite Hd.
  - unfold char_at, rd_bytes. rewrite char_at_go_spec, lookup_drop by lia. f_equal. lia.
  - unfold memchr. rewrite memchr_go_spec, Hd by lia. destruct (ink_memchr _ _ _); cbn; [lia|done].
Qed.

Lemma iobuffer_read_effect_witness :
  let bs := [mkBlk [1; 2; 3] 0; mkBlk [4; 5; 6] 0] in let r := mkRd (Some 0%nat) 1 INK64_MAX in
  memcpy bs r 3 1 = [3; 4; 5] /\ memchr bs r 5 9 0 = 3.
Proof.
  cbv zeta. destruct (iobuffer_read_effect [mkBlk [1; 2; 3] 0; mkBlk [4; 5; 6] 0] (mkRd (Some 0%nat) 1 INK64_MAX) 3 1 5)
    as (_ & H1 & _); [|lia|lia|].
  { split; cbn; [done|lia|split; [done|done]|lia]. }
  destruct (iobuffer_read_effect [mkBlk [1; 2; 3] 0; mkBlk [4; 5; 6] 0] (mkRd (Some 0%nat) 1 INK64_MAX) 9 0 5)
    as (_ & _ & _ & H2); [|lia|lia|].
  { split; cbn; [done|lia|split; [done|done]|lia]. }
  rewrite H1, H2. split; reflexivity.
Defined.
