(* ===== verification/Chunked.v ===== *)
(** The chunked transfer coding of the tunnel ([ChunkedHandler] in
    [proxy/http2/HttpTunnel.cc] and [HttpTunnel.h]) and the event handlers of
    the producers that use it.

    The input is any reader with the interface [ByteReader].  A buffer written
    to is the list of the bytes written, which is what its readers see
    ([iobuffer_write_effect], [iobuffer_transfer_effect]).  Whether its
    consumers are too far behind (the limits [max_chunked_ahead_bytes] and
    [max_chunked_ahead_blocks]) depends on how much of it they have read: it is
    the parameter [ahead] of each call of a handler, the answers to the tests
    that are made during the call.  They are distinguished by the bytes written
    before each, which are more at every test of a call, so that any answers can
    be given; and every call has its own, so that a pause ends when the
    consumers have read on and call back ([chunked_reenable],
    [add_chunked_reenable]). *)

From S2P Require Import Prelude ParseRules IOBuffer.
From Stdlib Require Import Ascii.

Definition min_block_transfer_bytes : Z := 256.
Definition max_chunk_size : Z := 4096.

Inductive ChunkedState :=
| CHUNK_READ_CHUNK | CHUNK_READ_SIZE_START | CHUNK_READ_SIZE | CHUNK_READ_SIZE_CRLF
| CHUNK_READ_TRAILER_BLANK | CHUNK_READ_TRAILER_CR | CHUNK_READ_TRAILER_LINE
| CHUNK_READ_ERROR | CHUNK_READ_DONE | CHUNK_WRITE_CHUNK | CHUNK_WRITE_DONE | CHUNK_FLOW_CONTROL.

#[global] Instance ChunkedState_eq_dec : EqDecision ChunkedState.
Proof. solve_decision. Defined.

(** The events of a producer that matter here. *)
Inductive vc_event := READ_READY | READ_COMPLETE | PRECOMPLETE | EOS | OTHER_EVENT.

Record ChunkedHandler := mkCH {
  state : ChunkedState;
  cur_chunk_size : Z;
  bytes_left : Z;
  running_sum : Z;
  num_digits : Z;
  dechunked_buffer : option (list Z);   (* [None]: chunked content is passed through *)
  dechunked_size : Z;
  chunked_buffer : list Z;
  chunked_size : Z;
  truncation : bool;
  last_server_event : vc_event
}.

Definition set_state (h : ChunkedHandler) (st : ChunkedState) : ChunkedHandler :=
  mkCH st (cur_chunk_size h) (bytes_left h) (running_sum h) (num_digits h) (dechunked_buffer h) (dechunked_size h)
       (chunked_buffer h) (chunked_size h) (truncation h) (last_server_event h).

Definition set_sum (h : ChunkedHandler) (sum digits : Z) : ChunkedHandler :=
  mkCH (state h) (cur_chunk_size h) (bytes_left h) sum digits (dechunked_buffer h) (dechunked_size h)
       (chunked_buffer h) (chunked_size h) (truncation h) (last_server_event h).

Definition set_chunk (h : ChunkedHandler) (size : Z) : ChunkedHandler :=
  mkCH (state h) size size (running_sum h) (num_digits h) (dechunked_buffer h) (dechunked_size h)
       (chunked_buffer h) (chunked_size h) (truncation h) (last_server_event h).

(** [moved] bytes of the chunk, and what the dechunked buffer got of them. *)
Definition set_moved (h : ChunkedHandler) (moved : Z) (s : list Z) : ChunkedHandler :=
  mkCH (state h) (cur_chunk_size h) (bytes_left h - moved) (running_sum h) (num_digits h)
       (match dechunked_buffer h with Some out => Some (out ++ s) | None => None end)
       (match dechunked_buffer h with Some _ => i32 (dechunked_size h + moved) | None => dechunked_size h end)
       (chunked_buffer h) (chunked_size h) (truncation h) (last_server_event h).

Definition put_chunked (h : ChunkedHandler) (s : list Z) : ChunkedHandler :=
  mkCH (state h) (cur_chunk_size h) (bytes_left h) (running_sum h) (num_digits h) (dechunked_buffer h) (dechunked_size h)
       (chunked_buffer h ++ s) (i32 (chunked_size h + Z.of_nat (length s))) (truncation h) (last_server_event h).

Definition set_event (h : ChunkedHandler) (ev : vc_event) : ChunkedHandler :=
  mkCH (state h) (cur_chunk_size h) (bytes_left h) (running_sum h) (num_digits h) (dechunked_buffer h) (dechunked_size h)
       (chunked_buffer h) (chunked_size h) (truncation h) ev.

Definition set_truncation (h : ChunkedHandler) : ChunkedHandler :=
  mkCH (state h) (cur_chunk_size h) (bytes_left h) (running_sum h) (num_digits h) (dechunked_buffer h) (dechunked_size h)
       (chunked_buffer h) (chunked_size h) true (last_server_event h).

(** The actions that give a producer a handler; content that arrives and
    leaves without the coding has none. *)
Inductive chunking_action := TCA_CHUNK_CONTENT | TCA_DECHUNK_CONTENT | TCA_PASSTHRU_CHUNKED_CONTENT.

(** [set_producer_chunking_action] and [init]; [dechunking] is whether content
    that is passed through is dechunked for the cache as well. *)
Definition chunked_init (action : chunking_action) (dechunking : bool) : ChunkedHandler :=
  let buf := match action with
             | TCA_CHUNK_CONTENT => None
             | TCA_DECHUNK_CONTENT => Some []
             | TCA_PASSTHRU_CHUNKED_CONTENT => if dechunking then Some [] else None
             end in
  let st := match action with TCA_CHUNK_CONTENT => CHUNK_WRITE_CHUNK | _ => CHUNK_READ_SIZE end in
  mkCH st 0 0 0 0 buf 0 [] 0 false OTHER_EVENT.

(** ** Decoding *)

(** The value of a hexadecimal digit, as [read_size] adds it. *)
Definition hex_digit (c : Z) : Z := if is_digit c then c - 48 else ink_tolower c - 97 + 10.

(** The inner loop of [read_size] over the bytes of a block: the handler, the
    bytes used and [done]. *)
Fixpoint size_scan (s : list Z) (h : ChunkedHandler) (bytes_used : Z) : ChunkedHandler * Z * bool :=
  match s with
  | [] => (h, bytes_used, false)
  | c :: s' =>
    let used := bytes_used + 1 in
    match state h with
    | CHUNK_READ_SIZE =>
      if is_hex c then size_scan s' (set_sum h (i32 (i32 (running_sum h * 16) + hex_digit c)) (i32 (num_digits h + 1))) used
      else if (num_digits h =? 0) || (running_sum h <? 0) then (set_state h CHUNK_READ_ERROR, used, true)
      else size_scan s' (set_state h CHUNK_READ_SIZE_CRLF) used
    | CHUNK_READ_SIZE_CRLF =>
      if is_lf c
      then (set_state (set_chunk h (running_sum h))
              (if running_sum h =? 0 then CHUNK_READ_TRAILER_BLANK else CHUNK_READ_CHUNK), used, true)
      else size_scan s' h used
    | CHUNK_READ_SIZE_START =>
      if is_lf c then size_scan s' (set_state (set_sum h 0 0) CHUNK_READ_SIZE) used else size_scan s' h used
    | _ => size_scan s' h used
    end
  end.

(** The inner loop of [read_trailer]. *)
Fixpoint trailer_scan (s : list Z) (h : ChunkedHandler) (bytes_used : Z) : ChunkedHandler * Z * bool :=
  match s with
  | [] => (h, bytes_used, false)
  | c :: s' =>
    let used := bytes_used + 1 in
    if is_cr c then
      trailer_scan s' (set_state h (match state h with CHUNK_READ_TRAILER_BLANK => CHUNK_READ_TRAILER_CR
                                    | _ => CHUNK_READ_TRAILER_LINE end)) used
    else if is_lf c then
      match state h with
      | CHUNK_READ_TRAILER_CR | CHUNK_READ_TRAILER_BLANK => (set_state h CHUNK_READ_DONE, used, true)
      | _ => trailer_scan s' (set_state h CHUNK_READ_TRAILER_BLANK) used
      end
    else trailer_scan s' (set_state h CHUNK_READ_TRAILER_LINE) used
  end.

Section handler.
Context {R : Type} `{!ByteReader R}.
Variable ahead : list Z -> bool.

(** The outer loop of [read_size] and [read_trailer], over the blocks; [None]
    is a loop that has not ended. *)
Fixpoint scan_blocks (scan : list Z -> ChunkedHandler -> Z -> ChunkedHandler * Z * bool) (fuel : nat)
  (r : R) (h : ChunkedHandler) : option (R * ChunkedHandler) :=
  if br_avail r >? 0 then
    match fuel with
    | O => None
    | S fuel' =>
      let '(h', used, done) := scan (br_block r) h 0 in
      if (done : bool) then Some (br_consume used r, h') else scan_blocks scan fuel' (br_consume used r) h'
    end
  else Some (r, h).

Definition read_size (r : R) (h : ChunkedHandler) : option (R * ChunkedHandler) :=
  scan_blocks size_scan (Z.to_nat (br_avail r)) r h.

Definition read_trailer (r : R) (h : ChunkedHandler) : option (R * ChunkedHandler) :=
  scan_blocks trailer_scan (Z.to_nat (br_avail r)) r h.

(** The loop of [transfer_bytes]: large amounts are moved by reference, as
    many as the chunk still has, small ones are copied from the block. *)
Fixpoint transfer_go (fuel : nat) (r : R) (h : ChunkedHandler) : option (R * ChunkedHandler) :=
  if bytes_left h >? 0 then
    let to_move := Z.min (bytes_left h) (Z.of_nat (length (br_block r))) in
    if to_move <=? 0 then Some (r, h)
    else match fuel with
    | O => None
    | S fuel' =>
      let s := if to_move >=? min_block_transfer_bytes then take (Z.to_nat (bytes_left h)) (br_bytes r)
               else take (Z.to_nat to_move) (br_block r) in
      let moved := Z.of_nat (length s) in
      if moved >? 0 then transfer_go fuel' (br_consume moved r) (set_moved h moved s) else Some (r, h)
    end
  else Some (r, h).

Definition transfer_bytes (r : R) (h : ChunkedHandler) : option (R * ChunkedHandler) :=
  match dechunked_buffer h with
  | None =>
    let moved := Z.min (bytes_left h) (br_avail r) in
    Some (br_consume moved r, set_moved h moved [])
  | Some _ => transfer_go (Z.to_nat (br_avail r)) r h
  end.

Definition read_chunk (r : R) (h : ChunkedHandler) : option (R * ChunkedHandler) :=
  '(r', h') ← transfer_bytes r h;
  Some (r', if bytes_left h' =? 0 then
              set_state h' (match dechunked_buffer h' with
                            | Some out => if ahead out then CHUNK_FLOW_CONTROL else CHUNK_READ_SIZE_START
                            | None => CHUNK_READ_SIZE_START
                            end)
            else h').

Definition finished (st : ChunkedState) : bool :=
  match st with CHUNK_READ_DONE | CHUNK_READ_ERROR => true | _ => false end.

(** [None]: a loop that has not ended, or the release assertion on a state of
    the encoder. *)
Fixpoint process_go (fuel : nat) (r : R) (h : ChunkedHandler) : option (R * ChunkedHandler * bool) :=
  if (br_avail r >? 0) && negb (finished (state h)) then
    match fuel with
    | O => None
    | S fuel' =>
      match state h with
      | CHUNK_READ_SIZE | CHUNK_READ_SIZE_CRLF | CHUNK_READ_SIZE_START => '(r', h') ← read_size r h; process_go fuel' r' h'
      | CHUNK_READ_CHUNK => '(r', h') ← read_chunk r h; process_go fuel' r' h'
      | CHUNK_READ_TRAILER_BLANK | CHUNK_READ_TRAILER_CR | CHUNK_READ_TRAILER_LINE =>
        '(r', h') ← read_trailer r h; process_go fuel' r' h'
      | CHUNK_FLOW_CONTROL => Some (r, h, false)
      | _ => None
      end
    end
  else Some (r, h, finished (state h)).

Definition process_chunked_content (r : R) (h : ChunkedHandler) : option (R * ChunkedHandler * bool) :=
  process_go (Z.to_nat (br_avail r)) r h.

(** [HttpTunnel::producer_handler_chunked]: the event passed on.  [read_vio] is
    whether a read from the server is under way, which the flow control state
    stops. *)
Definition producer_handler_chunked (read_vio : bool) (ev : vc_event) (r : R) (h : ChunkedHandler) : option (R * ChunkedHandler * vc_event) :=
  match ev with
  | OTHER_EVENT => Some (r, h, ev)
  | _ =>
    '(r', h', done) ← process_chunked_content r (set_event h ev);
    if bool_decide (state h' = CHUNK_READ_ERROR) then Some (r', set_truncation h', EOS)
    else if read_vio && bool_decide (state h' = CHUNK_FLOW_CONTROL) then Some (r', h', READ_READY)
    else match ev with
    | READ_READY => Some (r', h', if (done : bool) then READ_COMPLETE else READ_READY)
    | _ => Some (r', if (done : bool) then h' else set_truncation h', ev)
    end
  end.

(** [chunked_reenable]: a consumer has read on, and [below] says whether its data is below
    the limits.  The event that the tunnel is called with, if it is. *)
Definition chunked_reenable (below read_vio : bool) (r : R) (h : ChunkedHandler) : option (R * ChunkedHandler * option vc_event) :=
  if bool_decide (state h <> CHUNK_FLOW_CONTROL) then Some (r, h, None)
  else if below then '(r', h', ev) ← producer_handler_chunked read_vio (last_server_event h) r (set_state h CHUNK_READ_SIZE_START); Some (r', h', Some ev)
  else Some (r, h, None).

(** ** Encoding *)

(** The [%x] of [snprintf]. *)
Definition hex_char (d : Z) : Z := if d <? 10 then 48 + d else 97 + (d - 10).

Fixpoint xdec (fuel : nat) (v : Z) (acc : list Z) : list Z :=
  match fuel with
  | O => acc
  | S f => if v <? 16 then hex_char v :: acc else xdec f (v / 16) (hex_char (v mod 16) :: acc)
  end.

Definition sprintf_x (v : Z) : list Z := xdec 8 v [].

Definition crlf : list Z := [13; 10].

(** [init_max_chunk_buf]. *)
Definition max_chunk_buf : list Z := sprintf_x max_chunk_size ++ crlf.

(** The loop of [generate_chunked_content] over the bytes [s] of
    [dechunked_reader]: the bytes left, the handler, and whether the flow
    control stopped it. *)
Fixpoint generate_go (fuel : nat) (server_done : bool) (s : list Z) (h : ChunkedHandler)
  : option (list Z * ChunkedHandler * bool) :=
  if negb (Z.of_nat (length s) =? 0) && negb (bool_decide (state h = CHUNK_WRITE_DONE)) then
    match fuel with
    | O => None
    | S fuel' =>
      let write_val := Z.min max_chunk_size (Z.of_nat (length s)) in
      if negb server_done && ahead (chunked_buffer h) then Some (s, set_state h CHUNK_FLOW_CONTROL, true)
      else
        let h1 := set_state h CHUNK_WRITE_CHUNK in
        let h2 := put_chunked h1 (if write_val =? max_chunk_size then max_chunk_buf else sprintf_x write_val ++ crlf) in
        let h3 := put_chunked h2 (take (Z.to_nat write_val) s) in
        let h4 := put_chunked h3 crlf in
        generate_go fuel' server_done (drop (Z.to_nat write_val) s) h4
    end
  else Some (s, h, false).

Definition generate_chunked_content (s : list Z) (h : ChunkedHandler) : option (list Z * ChunkedHandler * bool) :=
  let server_done := match last_server_event h with EOS | READ_COMPLETE | PRECOMPLETE => true | _ => false end in
  '(s', h', stopped) ← generate_go (length s) server_done s h;
  if (stopped : bool) then Some (s', h', false)
  else if server_done then Some (s', put_chunked (set_state h' CHUNK_WRITE_DONE) ([48] ++ crlf ++ crlf), true)
  else Some (s', h', false).

(** [HttpTunnel::producer_handler_dechunked]: the event itself is passed on. *)
Definition producer_handler_dechunked (ev : vc_event) (s : list Z) (h : ChunkedHandler) : option (list Z * ChunkedHandler) :=
  match ev with
  | OTHER_EVENT => Some (s, h)
  | _ => '(s', h', _) ← generate_chunked_content s (set_event h ev); Some (s', h')
  end.

(** [add_chunked_reenable]; and whether the server is told to go on. *)
Definition add_chunked_reenable (below : bool) (s : list Z) (h : ChunkedHandler) : option (list Z * ChunkedHandler * bool) :=
  if bool_decide (state h <> CHUNK_FLOW_CONTROL) then Some (s, h, true)
  else if below then
    '(s', h') ← producer_handler_dechunked (last_server_event h) s (set_state h CHUNK_WRITE_CHUNK);
    Some (s', h', bool_decide (state h' <> CHUNK_FLOW_CONTROL))
  else Some (s, h, false).
End handler.
