(* ===== verification/ChunkedFacts.v ===== *)
(** Theorems about the decoder of the chunked coding: it is one state machine over
    the bytes, however they are cut into blocks, calls and pauses. *)

From S2P Require Import Prelude ParseRules IOBuffer Chunked.
From Stdlib Require Import Ascii.

(** ** The decoder as a machine over single bytes *)

Section machine.
Variable ahead : list Z -> bool.

(** The state after the last byte of a chunk. *)
Definition after_chunk (h : ChunkedHandler) : ChunkedState :=
  match dechunked_buffer h with
  | Some out => if ahead out then CHUNK_FLOW_CONTROL else CHUNK_READ_SIZE_START
  | None => CHUNK_READ_SIZE_START
  end.

Definition chunk_step (h : ChunkedHandler) (c : Z) : ChunkedHandler :=
  match state h with
  | CHUNK_READ_CHUNK =>
    let h1 := set_moved h 1 [c] in if bytes_left h1 =? 0 then set_state h1 (after_chunk h1) else h1
  | CHUNK_READ_SIZE | CHUNK_READ_SIZE_CRLF | CHUNK_READ_SIZE_START => (size_scan [c] h 0).1.1
  | CHUNK_READ_TRAILER_BLANK | CHUNK_READ_TRAILER_CR | CHUNK_READ_TRAILER_LINE => (trailer_scan [c] h 0).1.1
  | _ => h
  end.

Definition halted (st : ChunkedState) : bool := finished st || bool_decide (st = CHUNK_FLOW_CONTROL).

(** Feed bytes until the machine halts; the bytes not fed are left. *)
Fixpoint run (s : list Z) (h : ChunkedHandler) : ChunkedHandler * list Z :=
  match s with
  | [] => (h, [])
  | c :: s' => if halted (state h) then (h, s) else run s' (chunk_step h c)
  end.

Definition chunk_inv (h : ChunkedHandler) : Prop :=
  match state h with
  | CHUNK_READ_CHUNK => 0 < bytes_left h
  | CHUNK_READ_SIZE_CRLF => 0 <= running_sum h
  | CHUNK_WRITE_CHUNK | CHUNK_WRITE_DONE => False
  | _ => True
  end.

Lemma run_halted s h : halted (state h) = true -> run s h = (h, s).
Proof. intros H. destruct s; cbn; [done|]. by rewrite H. Qed.

Lemma run_cons c s h : halted (state h) = false -> run (c :: s) h = run s (chunk_step h c).
Proof. intros H. cbn. by rewrite H. Qed.

Lemma run_app s1 s2 h h1 : run s1 h = (h1, []) -> run (s1 ++ s2) h = run s2 h1.
Proof.
  revert h. induction s1 as [|c s1 IH]; intros h E; cbn in *; [by injection E as ->|].
  destruct (halted (state h)); [done|]. auto.
Qed.

(** ** The scanning loops *)

Definition size_state (st : ChunkedState) : Prop :=
  st = CHUNK_READ_SIZE \/ st = CHUNK_READ_SIZE_CRLF \/ st = CHUNK_READ_SIZE_START.

Definition trailer_state (st : ChunkedState) : Prop :=
  st = CHUNK_READ_TRAILER_BLANK \/ st = CHUNK_READ_TRAILER_CR \/ st = CHUNK_READ_TRAILER_LINE.

(** A scan of a block feeds some of its bytes, and all unless it is done. *)
Definition scan_sound (scan : list Z -> ChunkedHandler -> Z -> ChunkedHandler * Z * bool) (P : ChunkedState -> Prop) : Prop :=
  forall s h u, P (state h) -> chunk_inv h -> exists n h' d, scan s h u = (h', u + Z.of_nat n, d) /\
    (n <= length s)%nat /\ (s <> [] -> (0 < n)%nat) /\ chunk_inv h' /\
    (forall t, run (s ++ t) h = run (drop n s ++ t) h') /\ (d = false -> n = length s /\ P (state h')).

(** One byte of a scan that goes on. *)
Lemma scan_more (scan : list Z -> ChunkedHandler -> Z -> ChunkedHandler * Z * bool) P c s h u h1 :
  (exists n h' d, scan s h1 (u + 1) = (h', u + 1 + Z.of_nat n, d) /\
    (n <= length s)%nat /\ (s <> [] -> (0 < n)%nat) /\ chunk_inv h' /\
    (forall t, run (s ++ t) h1 = run (drop n s ++ t) h') /\ (d = false -> n = length s /\ P (state h'))) ->
  halted (state h) = false -> chunk_step h c = h1 ->
  exists n h' d, scan s h1 (u + 1) = (h', u + Z.of_nat n, d) /\
    (n <= length (c :: s))%nat /\ (c :: s <> [] -> (0 < n)%nat) /\ chunk_inv h' /\
    (forall t, run ((c :: s) ++ t) h = run (drop n (c :: s) ++ t) h') /\ (d = false -> n = length (c :: s) /\ P (state h')).
Proof.
  intros (n & h' & d & E & H1 & H2 & H3 & H4 & H5) Hh Hs. exists (S n), h', d. rewrite E.
  split_and!; [f_equal; f_equal; lia|cbn; lia|lia|done| |].
  - intros t. cbn [app drop]. by rewrite run_cons, Hs.
  - intros Hd. destruct (H5 Hd) as [-> ?]. done.
Qed.

(** One byte at which a scan is done. *)
Lemma scan_stop (P : ChunkedState -> Prop) c s h u h1 : chunk_inv h1 -> halted (state h) = false -> chunk_step h c = h1 ->
  exists n h' d, (h1, u + 1, true) = (h', u + Z.of_nat n, d) /\
    (n <= length (c :: s))%nat /\ (c :: s <> [] -> (0 < n)%nat) /\ chunk_inv h' /\
    (forall t, run ((c :: s) ++ t) h = run (drop n (c :: s) ++ t) h') /\ (d = false -> n = length (c :: s) /\ P (state h')).
Proof.
  intros H1 H2 H3. exists 1%nat, h1, true. split_and!; [done|cbn; lia|lia|done| |done].
  intros t. cbn [app drop]. rewrite run_cons, H3 by done. by rewrite drop_0.
Qed.

Lemma scan_nil (P : ChunkedState -> Prop) h u : P (state h) -> chunk_inv h ->
  exists n h' d, (h, u, false) = (h', u + Z.of_nat n, d) /\
    (n <= length (@nil Z))%nat /\ (@nil Z <> [] -> (0 < n)%nat) /\ chunk_inv h' /\
    (forall t, run ([] ++ t) h = run (drop n [] ++ t) h') /\ (d = false -> n = length (@nil Z) /\ P (state h')).
Proof. intros HP HI. exists 0%nat, h, false. split_and!; [f_equal; f_equal; lia|done..]. Qed.

Lemma size_scan_sound : scan_sound size_scan size_state.
Proof.
  intros s. induction s as [|c s IH]; intros h u HP HI; [by apply scan_nil|].
  assert (Hh : halted (state h) = false) by (by destruct HP as [-> |[-> | ->]]).
  assert (Hst : chunk_step h c = (size_scan [c] h 0).1.1) by (unfold chunk_step; by destruct HP as [-> |[-> | ->]]).
  cbn [size_scan] in *. unfold chunk_inv in HI. destruct HP as [Es|[Es|Es]]; rewrite Es in *.
  - destruct (is_hex c); [|destruct ((num_digits h =? 0) || (running_sum h <? 0)) eqn:Eb].
    + apply scan_more; [|by rewrite Es|done]. apply IH; [by left|]. unfold chunk_inv. cbn. by rewrite Es.
    + apply scan_stop; [done|by rewrite Es|done].
    + apply scan_more; [|by rewrite Es|done]. apply IH; [by right; left|]. unfold chunk_inv. cbn.
      apply orb_false_iff in Eb as [_ Eb]. lia.
  - destruct (is_lf c).
    + apply scan_stop; [|by rewrite Es|done]. unfold chunk_inv. cbn. destruct (Z.eqb_spec (running_sum h) 0); [done|lia].
    + apply scan_more; [|by rewrite Es|done]. apply IH; [by right; left|]. unfold chunk_inv. by rewrite Es.
  - destruct (is_lf c).
    + apply scan_more; [|by rewrite Es|done]. apply IH; [by left|done].
    + apply scan_more; [|by rewrite Es|done]. apply IH; [by right; right|]. unfold chunk_inv. by rewrite Es.
Qed.

Lemma trailer_scan_sound : scan_sound trailer_scan trailer_state.
Proof.
  intros s. induction s as [|c s IH]; intros h u HP HI; [by apply scan_nil|].
  assert (Hh : halted (state h) = false) by (by destruct HP as [-> |[-> | ->]]).
  assert (Hst : chunk_step h c = (trailer_scan [c] h 0).1.1) by (unfold chunk_step; by destruct HP as [-> |[-> | ->]]).
  cbn [trailer_scan] in *. destruct (is_cr c); [|destruct (is_lf c)].
  - apply scan_more; [|done|done]. apply IH; [unfold trailer_state; destruct HP as [-> |[-> | ->]]; cbn; auto|].
    unfold chunk_inv. cbn. by destruct (state h).
  - destruct HP as [Es|[Es|Es]]; rewrite Es in *.
    1,2: apply scan_stop; [done|by rewrite Es|done].
    apply scan_more; [|by rewrite Es|done]. apply IH; [by left|done].
  - apply scan_more; [|done|done]. apply IH; [by right; right|done].
Qed.
End machine.

(** ** The decoder on any reader *)

Lemma set_moved_moved h a b s1 s2 : set_moved (set_moved h a s1) b s2 = set_moved h (a + b) (s1 ++ s2).
Proof.
  unfold set_moved. cbn. replace (bytes_left h - a - b) with (bytes_left h - (a + b)) by lia.
  destruct (dechunked_buffer h); cbn; [|done]. rewrite app_assoc, wraps_add_l by lia. by rewrite Z.add_assoc.
Qed.

Lemma set_moved_none h a s1 s2 : dechunked_buffer h = None -> set_moved h a s1 = set_moved h a s2.
Proof. intros E. unfold set_moved. by rewrite E. Qed.

Section reader.
Context {R : Type} `{!ByteReader R}.
Variable ahead : list Z -> bool.
Notation mrun := (run ahead).

(** A part of the decoder advances: it ends, and feeds some bytes. *)
Definition advances (f : R -> ChunkedHandler -> option (R * ChunkedHandler)) (r : R) (h : ChunkedHandler) : Prop :=
  exists r' h', f r h = Some (r', h') /\ br_ok r' /\ chunk_inv h' /\ mrun (br_bytes r) h = mrun (br_bytes r') h' /\
    (length (br_bytes r') < length (br_bytes r))%nat.

Lemma avail_pos r : br_ok r -> (br_avail r >? 0) = negb (bool_decide (br_bytes r = [])).
Proof.
  intros H. rewrite br_avail_spec by done. case_bool_decide as E; [by rewrite E|].
  destruct (br_bytes r); [done|]. cbn [length negb]. apply Z.gtb_lt. lia.
Qed.

Lemma scan_blocks_advances scan P fuel r h : scan_sound ahead scan P -> br_ok r -> P (state h) -> chunk_inv h ->
  br_bytes r <> [] -> (length (br_bytes r) <= fuel)%nat -> advances (scan_blocks scan fuel) r h.
Proof.
  intros HS. revert r h. induction fuel as [|fuel IH]; intros r h Hr HP HI Hne Hf; unfold advances; cbn [scan_blocks].
  { destruct (br_bytes r); [done|]. cbn in Hf. lia. }
  rewrite avail_pos, bool_decide_false by done. cbn [negb].
  destruct (HS (br_block r) h 0 HP HI) as (n & h' & d & E & H1 & H2 & H3 & H4 & H5). rewrite E, Z.add_0_l.
  destruct (br_block_prefix r Hr) as [rest Hp]. specialize (H2 (br_block_progress r Hr Hne)).
  destruct (br_consume_spec r (Z.of_nat n) Hr) as [Hr' Hb']; [rewrite Hp, length_app; lia|].
  rewrite Nat2Z.id, Hp, drop_app_le in Hb' by lia. assert (Hlt : (length (br_bytes (br_consume (Z.of_nat n) r)) < length (br_bytes r))%nat).
  { rewrite Hb', Hp, !length_app, length_drop. lia. }
  assert (Hrun : mrun (br_bytes r) h = mrun (br_bytes (br_consume (Z.of_nat n) r)) h') by (rewrite Hb', Hp; apply H4).
  destruct d; [by eexists _, _|]. destruct (H5 eq_refl) as [_ HP'].
  destruct (decide (br_bytes (br_consume (Z.of_nat n) r) = [])) as [Ee|Ene].
  - exists (br_consume (Z.of_nat n) r), h'. split_and!; [|done..].
    destruct fuel; cbn [scan_blocks]; by rewrite avail_pos, bool_decide_true by done.
  - destruct (IH _ _ Hr' HP' H3 Ene ltac:(lia)) as (r2 & h2 & E2 & A & B & C & D).
    exists r2, h2. split_and!; [done|done|done|congruence|lia].
Qed.

(** Bytes of a chunk, all or part of it. *)
Lemma run_chunk s t h : state h = CHUNK_READ_CHUNK -> s <> [] -> Z.of_nat (length s) <= bytes_left h ->
  let h1 := set_moved h (Z.of_nat (length s)) s in
  mrun (s ++ t) h = mrun t (if bytes_left h1 =? 0 then set_state h1 (after_chunk ahead h1) else h1).
Proof.
  revert h. induction s as [|c s IH]; intros h Hst Hne Hl; [done|]. cbn [length] in *.
  cbn [app]. rewrite run_cons by (by rewrite Hst). unfold chunk_step. rewrite Hst. cbv zeta.
  destruct s as [|c' s'].
  { cbn [length app]. change (Z.of_nat 1) with 1. done. }
  assert (Hb : bytes_left (set_moved h 1 [c]) = bytes_left h - 1) by done. cbn [length] in *.
  rewrite Hb at 1. rewrite (proj2 (Z.eqb_neq (bytes_left h - 1) 0)) by lia.
  rewrite IH; [|done|done|cbn [length]; lia]. cbv zeta. rewrite set_moved_moved. cbn [length app].
  replace (1 + Z.of_nat (S (length s'))) with (Z.of_nat (S (S (length s')))) by lia. done.
Qed.

Lemma transfer_go_stop fuel r h : br_ok r -> bytes_left h <= 0 \/ br_bytes r = [] -> transfer_go fuel r h = Some (r, h).
Proof.
  intros Hr H. assert (Hb : br_bytes r = [] -> br_block r = []).
  { intros E. destruct (br_block_prefix r Hr) as [t Ht]. rewrite E in Ht. by destruct (br_block r). }
  destruct fuel; cbn [transfer_go]; destruct (Z.gtb_spec (bytes_left h) 0); try done;
    (destruct H as [H|H]; [lia|]); rewrite (Hb H), (proj2 (Z.leb_le _ 0)) by (cbn [length]; lia); done.
Qed.

Lemma transfer_go_spec fuel r h out : br_ok r -> dechunked_buffer h = Some out -> 0 < bytes_left h -> br_bytes r <> [] ->
  (length (br_bytes r) <= fuel)%nat ->
  let s := take (Z.to_nat (bytes_left h)) (br_bytes r) in
  exists r', transfer_go fuel r h = Some (r', set_moved h (Z.of_nat (length s)) s) /\ br_ok r' /\
    br_bytes r' = drop (length s) (br_bytes r).
Proof.
  revert r h out. induction fuel as [|fuel IH]; intros r h out Hr Ho Hb Hne Hf; cbv zeta.
  { destruct (br_bytes r); [done|]. cbn in Hf. lia. }
  cbn [transfer_go]. destruct (Z.gtb_spec (bytes_left h) 0); [|lia]. destruct (br_block_prefix r Hr) as [rest Hp].
  assert (Hblk : (0 < length (br_block r))%nat).
  { pose proof (br_block_progress r Hr Hne). destruct (br_block r); [done|cbn; lia]. }
  destruct (Z.leb_spec (Z.min (bytes_left h) (Z.of_nat (length (br_block r)))) 0); [lia|].
  set (s := if _ >=? _ then _ else _). assert (Hs : exists n, s = take n (br_bytes r) /\ (0 < n <= length (br_bytes r))%nat /\
    Z.of_nat n <= bytes_left h).
  { assert ((length (br_block r) <= length (br_bytes r))%nat) by (rewrite Hp, length_app; lia).
    unfold s. destruct (_ >=? _).
    - exists (Z.to_nat (Z.min (bytes_left h) (Z.of_nat (length (br_bytes r))))). split; [|lia].
      destruct (decide (bytes_left h <= Z.of_nat (length (br_bytes r)))); [f_equal; lia|rewrite !take_ge by lia; done].
    - eexists. rewrite Hp at 1. split; [symmetry; apply take_app_le; lia|lia]. }
  destruct Hs as (n & -> & Hn & Hnb). rewrite length_take_le by lia. rewrite (proj2 (Z.gtb_lt _ 0)) by lia.
  destruct (br_consume_spec r (Z.of_nat n) Hr) as [Hr' Hb']; [lia|]. rewrite Nat2Z.id in Hb'.
  set (h1 := set_moved h (Z.of_nat n) (take n (br_bytes r))). assert (Hl1 : bytes_left h1 = bytes_left h - Z.of_nat n) by done.
  destruct (decide (bytes_left h1 <= 0 \/ drop n (br_bytes r) = [])) as [Hstop|Hgo].
  - rewrite transfer_go_stop by (rewrite ?Hb'; tauto). eexists. split; [|split; [exact Hr'|]].
    + unfold h1. assert (E : take n (br_bytes r) = take (Z.to_nat (bytes_left h)) (br_bytes r)).
      { destruct Hstop as [Hz|Hz]; [f_equal; lia|]. apply (f_equal length) in Hz. rewrite length_drop in Hz. cbn in Hz.
        rewrite !take_ge by lia. done. }
      rewrite <- E, length_take_le by lia. done.
    + rewrite Hb'. rewrite length_take. destruct Hstop as [Hz|Hz]; [f_equal; lia|].
      rewrite Hz. apply (f_equal length) in Hz. rewrite length_drop in Hz. cbn in Hz. rewrite drop_ge by lia. done.
  - assert (Hlt : (length (br_bytes (br_consume (Z.of_nat n) r)) <= fuel)%nat) by (rewrite Hb', length_drop; lia).
    destruct (IH (br_consume (Z.of_nat n) r) h1 (out ++ take n (br_bytes r))) as (r' & E & Hr2 & Hb2); [done| |lia| |done|].
    { unfold h1, set_moved. cbn. by rewrite Ho. } { rewrite Hb'. tauto. }
    exists r'. rewrite E. rewrite Hb', Hl1 in *. unfold h1. rewrite set_moved_moved, take_take_drop.
    replace (n + Z.to_nat (bytes_left h - Z.of_nat n))%nat with (Z.to_nat (bytes_left h)) by lia.
    rewrite !length_take, length_drop in *. split_and!; [|done|].
    + do 3 f_equal. lia.
    + rewrite Hb2, drop_drop. f_equal. lia.
Qed.

Lemma read_chunk_advances r h : br_ok r -> state h = CHUNK_READ_CHUNK -> 0 < bytes_left h -> br_bytes r <> [] ->
  advances (read_chunk ahead) r h.
Proof.
  intros Hr Hst Hb Hne. set (s := take (Z.to_nat (bytes_left h)) (br_bytes r)).
  assert (Hs : s <> [] /\ Z.of_nat (length s) <= bytes_left h /\ (0 < length s)%nat).
  { unfold s. rewrite length_take. assert (0 < length (br_bytes r))%nat by (destruct (br_bytes r); [done|cbn; lia]).
    split; [|lia]. intros E. apply (f_equal length) in E. rewrite length_take in E. cbn in E. lia. }
  destruct Hs as (Hs1 & Hs2 & Hs3).
  assert (T : exists r', transfer_bytes r h = Some (r', set_moved h (Z.of_nat (length s)) s) /\ br_ok r' /\
    br_bytes r' = drop (length s) (br_bytes r)).
  { unfold transfer_bytes. destruct (dechunked_buffer h) as [out|] eqn:Eo.
    - eapply transfer_go_spec; [done..|]. rewrite br_avail_spec by done. lia.
    - rewrite br_avail_spec by done. assert (Hm : Z.min (bytes_left h) (Z.of_nat (length (br_bytes r))) = Z.of_nat (length s))
        by (unfold s; rewrite length_take; lia).
      rewrite Hm. destruct (br_consume_spec r (Z.of_nat (length s)) Hr) as [Hr' Hb']; [unfold s in *; rewrite length_take in *; lia|].
      exists (br_consume (Z.of_nat (length s)) r). rewrite Nat2Z.id in Hb'. by rewrite (set_moved_none h _ [] s). }
  destruct T as (r' & E & Hr' & Hb'). unfold advances, read_chunk. rewrite E. cbn [mbind option_bind].
  assert (Hsplit : br_bytes r = s ++ br_bytes r').
  { rewrite Hb'. unfold s. rewrite length_take. destruct (decide (Z.to_nat (bytes_left h) <= length (br_bytes r))%nat).
    - rewrite Nat.min_l by done. by rewrite take_drop.
    - rewrite Nat.min_r by lia. rewrite drop_all, app_nil_r, take_ge by lia. done. }
  eexists _, _. split; [done|]. split; [done|]. split; [|split].
  - unfold chunk_inv. destruct (Z.eqb_spec (bytes_left (set_moved h (Z.of_nat (length s)) s)) 0) as [|Hnz].
    + cbn. destruct (dechunked_buffer h); [by destruct (ahead _)|done].
    + cbn [state set_moved bytes_left] in *. rewrite Hst. lia.
  - rewrite Hsplit at 1. rewrite run_chunk by done. cbv zeta. unfold after_chunk. done.
  - rewrite Hsplit, length_app. lia.
Qed.

Lemma process_go_spec fuel r h : br_ok r -> chunk_inv h -> (length (br_bytes r) <= fuel)%nat ->
  exists r' h', process_go ahead fuel r h = Some (r', h', finished (state h')) /\ br_ok r' /\ chunk_inv h' /\
    mrun (br_bytes r) h = (h', br_bytes r').
Proof.
  revert r h. induction fuel as [|fuel IH]; intros r h Hr HI Hf.
  { assert (E : br_bytes r = []) by (destruct (br_bytes r); [done|cbn in Hf; lia]).
    cbn [process_go]. rewrite avail_pos, bool_decide_true by done. exists r, h. split_and!; [done..|by rewrite E]. }
  cbn [process_go]. rewrite avail_pos by done. case_bool_decide as Hne; cbn [negb andb].
  { exists r, h. split_and!; [done..|by rewrite Hne]. }
  destruct (finished (state h)) eqn:Ef; cbn [negb].
  { exists r, h. rewrite Ef. split_and!; [done..|]. apply run_halted. unfold halted. by rewrite Ef. }
  assert (Hgo : forall f, advances f r h -> exists r' h', ('(r', h') ← f r h; process_go ahead fuel r' h') =
    Some (r', h', finished (state h')) /\ br_ok r' /\ chunk_inv h' /\ mrun (br_bytes r) h = (h', br_bytes r')).
  { intros f (r1 & h1 & E & H1 & H2 & H3 & H4). rewrite E. cbn [mbind option_bind]. rewrite H3. apply IH; [done|done|lia]. }
  assert (Hfuel : (length (br_bytes r) <= Z.to_nat (br_avail r))%nat) by (rewrite br_avail_spec by done; lia).
  destruct (state h) eqn:Es; try done.
  1: { apply (Hgo (read_chunk ahead)). apply read_chunk_advances; [done|done| |done]. unfold chunk_inv in HI. by rewrite Es in HI. }
  1-3: apply (Hgo read_size); apply (scan_blocks_advances size_scan size_state); [apply size_scan_sound|done| |done|done|done];
    rewrite Es; unfold size_state; auto.
  1-3: apply (Hgo read_trailer); apply (scan_blocks_advances trailer_scan trailer_state); [apply trailer_scan_sound|done| |done|done|done];
    rewrite Es; unfold trailer_state; auto.
  - unfold chunk_inv in HI. by rewrite Es in HI.
  - unfold chunk_inv in HI. by rewrite Es in HI.
  - exists r, h. rewrite Es. split_and!; [done..|]. apply run_halted. by rewrite Es.
Qed.
End reader.

(** ** Pauses *)

(** The handler without what the calls leave in it: the event, the truncation, and a pause,
    after which the decoder goes on with the end of the chunk. *)
Definition resumed (st : ChunkedState) : ChunkedState := match st with CHUNK_FLOW_CONTROL => CHUNK_READ_SIZE_START | _ => st end.

Definition core (h : ChunkedHandler) : ChunkedHandler :=
  mkCH (resumed (state h)) (cur_chunk_size h) (bytes_left h) (running_sum h) (num_digits h) (dechunked_buffer h) (dechunked_size h) (chunked_buffer h) (chunked_size h) false OTHER_EVENT.

Definition never (out : list Z) : bool := false.

Lemma core_step ahead h c : state h <> CHUNK_FLOW_CONTROL -> core (chunk_step ahead h c) = chunk_step never (core h) c.
Proof.
  intros N. unfold chunk_step. cbn [core state]. destruct (state h) eqn:E; cbn [resumed]; try done; try (by unfold core; rewrite E).
  - cbv zeta. unfold after_chunk, core, set_moved. cbn. destruct (bytes_left h - 1 =? 0); cbn; rewrite ?E; [|done]. destruct (dechunked_buffer h); cbn; [|done]. by destruct (ahead _).
  - cbn [size_scan core state]. rewrite E. cbn [resumed]. destruct (is_lf c); cbn; unfold core; cbn; by rewrite ?E.
  - cbn [size_scan core state]. rewrite E. cbn [resumed num_digits running_sum]. destruct (is_hex c); cbn; [unfold core; cbn; by rewrite ?E|]. destruct (_ || _); done.
  - cbn [size_scan core state]. rewrite E. cbn [resumed running_sum]. destruct (is_lf c); cbn; [|unfold core; cbn; by rewrite ?E]. unfold core; cbn. by destruct (running_sum h =? 0).
  - cbn [trailer_scan core state]. rewrite E. cbn [resumed]. destruct (is_cr c), (is_lf c); done.
  - cbn [trailer_scan core state]. rewrite E. cbn [resumed]. destruct (is_cr c), (is_lf c); done.
  - cbn [trailer_scan core state]. rewrite E. cbn [resumed]. destruct (is_cr c), (is_lf c); done.
Qed.

Lemma core_halted h : state h <> CHUNK_FLOW_CONTROL -> halted (state (core h)) = halted (state h).
Proof. cbn. by destruct (state h). Qed.

(** The bytes a machine takes with pauses, a machine takes that makes none. *)
Lemma core_run ahead t h h1 t1 : state h <> CHUNK_FLOW_CONTROL -> run ahead t h = (h1, t1) ->
  exists u, t = u ++ t1 /\ run never u (core h) = (core h1, []) /\ (t1 = [] \/ halted (state h1) = true).
Proof.
  revert h. induction t as [|c t IH]; intros h N; cbn [run]; [intros [= <- <-]; exists []; cbn; auto|].
  destruct (halted (state h)) eqn:Hh; [intros [= <- <-]; exists []; cbn; auto|]. intros E. pose proof (core_step ahead h c N) as Es.
  destruct (decide (state (chunk_step ahead h c) = CHUNK_FLOW_CONTROL)) as [F|F].
  - rewrite run_halted in E by (by rewrite F). injection E as <- <-. exists [c]. split; [done|]. split; [|right; by rewrite F]. cbn [run]. rewrite core_halted, Hh by done. by rewrite Es.
  - destruct (IH _ F E) as (u & -> & R & D). exists (c :: u). split; [done|]. split; [|done]. cbn [run]. rewrite core_halted, Hh by done. by rewrite <- Es.
Qed.

Lemma step_event ahead h c : last_server_event (chunk_step ahead h c) = last_server_event h /\ truncation (chunk_step ahead h c) = truncation h.
Proof.
  unfold chunk_step. destruct (state h) eqn:E; try done; cbn [size_scan trailer_scan]; rewrite ?E;
    repeat match goal with |- context [if ?b then _ else _] => destruct b end; done.
Qed.

Lemma run_event ahead s h : last_server_event (run ahead s h).1 = last_server_event h /\ truncation (run ahead s h).1 = truncation h.
Proof.
  revert h. induction s as [|c s IH]; intros h; cbn; [done|]. destruct (halted (state h)); [done|]. destruct (IH (chunk_step ahead h c)) as [-> ->]. apply step_event.
Qed.

Lemma step_no_pause h c : state h <> CHUNK_FLOW_CONTROL -> state (chunk_step never h c) <> CHUNK_FLOW_CONTROL.
Proof.
  intros N. unfold chunk_step. destruct (state h) eqn:E; try done; cbn [size_scan trailer_scan]; rewrite ?E;
    repeat match goal with |- context [if ?b then _ else _] => destruct b end; cbn; rewrite ?E; try done. unfold after_chunk. by destruct (dechunked_buffer _).
Qed.

Lemma run_no_pause s h : state h <> CHUNK_FLOW_CONTROL -> state (run never s h).1 <> CHUNK_FLOW_CONTROL.
Proof. revert h. induction s as [|c s IH]; intros h N; cbn; [done|]. destruct (halted (state h)); [done|]. by apply IH, step_no_pause. Qed.

Section calls.
Context {R : Type} `{!ByteReader R}.

Definition last_event (ev : vc_event) : bool := match ev with EOS | READ_COMPLETE | PRECOMPLETE => true | _ => false end.

(** What a call of the handler of a producer comes to: it ends, takes some bytes of the
    reader in the way of the machine without pauses, and all of them unless it halts; and
    when it reports a truncation. *)
Definition called (v : bool) (ev : vc_event) (r : R) (h : ChunkedHandler) (r' : R) (h' : ChunkedHandler) : Prop :=
  br_ok r' /\ chunk_inv h' /\ (exists u, br_bytes r = u ++ br_bytes r' /\ run never u (core h) = (core h', [])) /\ (br_bytes r' = [] \/ halted (state h') = true) /\
  last_server_event h' = ev /\
  truncation h' = truncation h || bool_decide (state h' = CHUNK_READ_ERROR) || (last_event ev && negb (finished (state h')) && negb (v && bool_decide (state h' = CHUNK_FLOW_CONTROL))).

Lemma handler_called ahead v ev (r : R) h : br_ok r -> chunk_inv h -> ev <> OTHER_EVENT ->
  exists r' h' ev', producer_handler_chunked ahead v ev r h = Some (r', h', ev') /\ called v ev r h r' h' /\ (state h' = CHUNK_READ_ERROR -> ev' = EOS) /\
    (state h <> CHUNK_FLOW_CONTROL -> (forall out, ahead out = false) -> state h' <> CHUNK_FLOW_CONTROL).
Proof.
  intros Hr HI Ne. destruct (process_go_spec ahead (Z.to_nat (br_avail r)) r (set_event h ev) Hr HI) as (r1 & h1 & E & Hr1 & HI1 & Hrun); [rewrite br_avail_spec by done; lia|].
  assert (U : (exists u, br_bytes r = u ++ br_bytes r1 /\ run never u (core h) = (core h1, [])) /\ (br_bytes r1 = [] \/ halted (state h1) = true)).
  { destruct (decide (state h = CHUNK_FLOW_CONTROL)) as [F|F].
    - rewrite run_halted in Hrun by (cbn [state set_event]; by rewrite F). injection Hrun as <- <-. split; [by exists []|right; cbn [state set_event]; by rewrite F].
    - destruct (core_run ahead _ _ _ _ (F : state (set_event h ev) <> _) Hrun) as (u & Eu & Ru & D). split; [by exists u|done]. }
  destruct U as [U D]. pose proof (run_event ahead (br_bytes r) (set_event h ev)) as [Le Lt]. rewrite Hrun in Le, Lt. cbn [fst last_server_event truncation set_event] in Le, Lt.
  assert (Np : state h <> CHUNK_FLOW_CONTROL -> (forall out, ahead out = false) -> state h1 <> CHUNK_FLOW_CONTROL).
  { intros F A. assert (X : run ahead (br_bytes r) (set_event h ev) = run never (br_bytes r) (set_event h ev)).
    { clear - A. generalize (set_event h ev). induction (br_bytes r) as [|c s IH]; intros g; [done|]. cbn [run]. destruct (halted (state g)); [done|]. rewrite IH. f_equal. unfold chunk_step, after_chunk. destruct (state g); try done. cbv zeta. destruct (_ =? 0); [|done]. destruct (dechunked_buffer _); [|done]. by rewrite A. }
    pose proof (run_no_pause (br_bytes r) (set_event h ev) F) as Y. by rewrite <- X, Hrun in Y. }
  assert (Ec : producer_handler_chunked ahead v ev r h =
    (if bool_decide (state h1 = CHUNK_READ_ERROR) then Some (r1, set_truncation h1, EOS)
     else if v && bool_decide (state h1 = CHUNK_FLOW_CONTROL) then Some (r1, h1, READ_READY)
     else match ev with READ_READY => Some (r1, h1, if finished (state h1) then READ_COMPLETE else READ_READY) | _ => Some (r1, if finished (state h1) then h1 else set_truncation h1, ev) end)).
  { unfold producer_handler_chunked, process_chunked_content. destruct ev; try done; rewrite E; done. }
  rewrite Ec. case_bool_decide as E1.
  { eexists _, _, _. split; [done|]. split; [|by split]. split_and!; try done. cbn [truncation set_truncation state]. rewrite E1. cbn. by rewrite orb_true_r. }
  assert (G : forall b, b = last_event ev && negb (finished (state h1)) && negb (v && bool_decide (state h1 = CHUNK_FLOW_CONTROL)) ->
    called v ev r h r1 (if b then set_truncation h1 else h1) /\ (state (if b then set_truncation h1 else h1) = CHUNK_READ_ERROR -> False) /\ (state h <> CHUNK_FLOW_CONTROL -> (forall out, ahead out = false) -> state (if b then set_truncation h1 else h1) <> CHUNK_FLOW_CONTROL)).
  { intros b Eb. destruct b; (split; [|by split]); split_and!; try done; cbn [truncation set_truncation state]; rewrite <- Eb, (bool_decide_false _ E1); [by rewrite orb_true_r|by rewrite Lt, !orb_false_r]. }
  destruct (v && bool_decide (state h1 = CHUNK_FLOW_CONTROL)) eqn:Ev.
  { destruct (G false) as (G1 & G2 & G3); [by rewrite andb_false_r|]. eexists _, _, _. split; [done|]. split; [exact G1|]. by split. }
  destruct ev; try done; cbn [last_event] in G.
  - destruct (G false) as (G1 & G2 & G3); [done|]. eexists _, _, _. split; [done|]. split; [exact G1|]. by split.
  - destruct (G (negb (finished (state h1)))) as (G1 & G2 & G3); [by rewrite andb_true_r|]. eexists _, _, _. split; [done|]. destruct (finished (state h1)); (split; [exact G1|]; by split).
  - destruct (G (negb (finished (state h1)))) as (G1 & G2 & G3); [by rewrite andb_true_r|]. eexists _, _, _. split; [done|]. destruct (finished (state h1)); (split; [exact G1|]; by split).
  - destruct (G (negb (finished (state h1)))) as (G1 & G2 & G3); [by rewrite andb_true_r|]. eexists _, _, _. split; [done|]. destruct (finished (state h1)); (split; [exact G1|]; by split).
Qed.

(** The pauses of a decoder end one after the other. *)
Fixpoint resume (aheads : list (list Z -> bool)) (v : bool) (r : R) (h : ChunkedHandler) : option (R * ChunkedHandler) :=
  match aheads with [] => Some (r, h) | ahead :: aheads' => '(r', h', _) ← chunked_reenable ahead true v r h; resume aheads' v r' h' end.

Lemma reenable_called ahead v (r : R) h : br_ok r -> chunk_inv h -> last_server_event h = READ_READY -> (br_bytes r = [] \/ halted (state h) = true) ->
  exists r' h' ev, chunked_reenable ahead true v r h = Some (r', h', ev) /\ br_ok r' /\ chunk_inv h' /\ (exists u, br_bytes r = u ++ br_bytes r' /\ run never u (core h) = (core h', [])) /\
    (br_bytes r' = [] \/ halted (state h') = true) /\ last_server_event h' = READ_READY /\ (truncation h = bool_decide (state h = CHUNK_READ_ERROR) -> truncation h' = bool_decide (state h' = CHUNK_READ_ERROR)) /\
    ((forall out, ahead out = false) -> state h' <> CHUNK_FLOW_CONTROL).
Proof.
  intros Hr HI L D. unfold chunked_reenable. case_bool_decide as F.
  - exists r, h, None. split; [done|]. split; [done|]. split; [done|]. split; [by exists []|]. by split_and!.
  - rewrite L. destruct (handler_called ahead v READ_READY r (set_state h CHUNK_READ_SIZE_START) Hr I) as (r' & h' & ev & E & (Hr' & HI' & (u & Eu & Ru) & D' & L' & T) & _ & Np); [done|].
    rewrite E. cbn [mbind option_bind]. eexists _, _, _. split; [done|]. split; [done|]. split; [done|]. split; [exists u; split; [done|]|].
    { rewrite <- Ru. f_equal. unfold core. cbn. by rewrite F. }
    split; [done|]. split; [done|]. split; [|intros A; by apply Np]. intros Th. rewrite T. cbn [truncation set_state last_event andb]. rewrite Th, F. cbn. by rewrite orb_false_r.
Qed.

Lemma resume_called aheads v (r : R) h : br_ok r -> chunk_inv h -> last_server_event h = READ_READY -> (br_bytes r = [] \/ halted (state h) = true) ->
  truncation h = bool_decide (state h = CHUNK_READ_ERROR) ->
  exists r' h' u, resume (aheads ++ [never]) v r h = Some (r', h') /\ br_bytes r = u ++ br_bytes r' /\ run never u (core h) = (core h', []) /\ (br_bytes r' = [] \/ finished (state h') = true) /\
    state h' <> CHUNK_FLOW_CONTROL /\ truncation h' = bool_decide (state h' = CHUNK_READ_ERROR).
Proof.
  revert r h. induction aheads as [|ahead aheads IH]; intros r h Hr HI L D T; cbn [app resume].
  - destruct (reenable_called never v r h Hr HI L D) as (r' & h' & ev & -> & _ & _ & (u & Eu & Ru) & D' & _ & T' & Np). cbn [mbind option_bind]. specialize (Np ltac:(done)). exists r', h', u. split_and!; try done; [|by apply T'].
    destruct D' as [D'|D']; [by left|]. right. by destruct (state h').
  - destruct (reenable_called ahead v r h Hr HI L D) as (r1 & h1 & ev & -> & Hr1 & HI1 & (u1 & Eu1 & Ru1) & D1 & L1 & T1 & _). cbn [mbind option_bind]. destruct (IH r1 h1 Hr1 HI1 L1 D1 (T1 T)) as (r2 & h2 & u2 & E2 & Eu2 & Ru2 & D2 & N2 & T2).
    exists r2, h2, (u1 ++ u2). split; [done|]. split; [by rewrite Eu1, Eu2, <- app_assoc|]. split; [by rewrite (run_app _ _ _ _ _ Ru1)|]. by split.
Qed.
End calls.

(** ** Theorems *)

(** Content of two blocks, cut in the middle of a chunk. *)
Definition two_blocks : list IOBufferBlock * IOBufferReader :=
  ([mkBlk (chars "6;x=y" ++ crlf ++ chars "abc") 0; mkBlk (chars "def" ++ crlf ++ chars "0" ++ crlf ++ crlf ++ chars "rest") 0],
   mkRd (Some 0%nat) 0 INK64_MAX).

Lemma two_blocks_ok : br_ok two_blocks.
Proof. split; cbn; [done|lia|split; done|lia]. Qed.

(** on any reader, however its bytes are cut into blocks, and from any
    state between two bytes, decoding ends; it consumes exactly the bytes the
    machine over single bytes takes until it halts, and stops in its state.
    Calls in sequence therefore decode the concatenation of their inputs. *)
Theorem chunked_decode_effect {R} `{!ByteReader R} ahead (r : R) h : br_ok r -> chunk_inv h ->
  exists r' h', process_chunked_content ahead r h = Some (r', h', finished (state h')) /\ br_ok r' /\ chunk_inv h' /\
    run ahead (br_bytes r) h = (h', br_bytes r').
Proof. intros Hr HI. apply process_go_spec; [done|done|]. rewrite br_avail_spec by done. lia. Qed.

Lemma chunked_decode_effect_witness : exists r' h',
  process_chunked_content (fun _ => false) two_blocks (chunked_init TCA_DECHUNK_CONTENT false) = Some (r', h', true) /\
  dechunked_buffer h' = Some (chars "abcdef") /\ br_bytes r' = chars "rest".
Proof.
  destruct (chunked_decode_effect (fun _ => false) two_blocks (chunked_init TCA_DECHUNK_CONTENT false) two_blocks_ok I)
    as (r' & h' & E & _ & _ & H). exists r', h'. vm_compute in H. injection H as <- Hb. split; [exact E|]. split; [reflexivity|].
  symmetry. exact Hb.
Defined.

(** The size of a chunk is summed in an [int] and tested only when the
    digits end: nine digits that announce 4 GB are read as the last chunk, of
    size 0, and 4 GB and five bytes as five bytes. *)
Theorem chunk_size_overflows :
  let line s := (run (fun _ => false) (chars s ++ crlf) (chunked_init TCA_DECHUNK_CONTENT false)).1 in
  state (line "100000000") = CHUNK_READ_TRAILER_BLANK /\
  state (line "100000005") = CHUNK_READ_CHUNK /\ bytes_left (line "100000005") = 5.
Proof. vm_compute. done. Qed.
