(* ===== verification/ChunkedGrammar.v ===== *)
(** The grammar of chunked content and the theorems against it: what the
    decoder takes for complete and what it rejects, over any calls and pauses,
    and that it inverts the encoder. *)

From S2P Require Import Prelude ParseRules IOBuffer Chunked ChunkedFacts.
From Stdlib Require Import Ascii.

(** ** The grammar *)

Definition hex_step (a c : Z) : Z := a * 16 + hex_digit c.

Definition hex (d : list Z) : Prop := Forall (fun c => is_hex c = true) d.
Definition no_lf (s : list Z) : Prop := Forall (fun c => is_lf c = false) s.

#[local] Hint Extern 0 (no_lf []) => constructor : core.
#[local] Hint Extern 0 (hex []) => constructor : core.
#[local] Hint Extern 0 (Forall _ []) => constructor : core.

(** The size that digits announce, as an [int]. *)
Definition size_of (d : list Z) : Z := i32 (foldl hex_step 0 d).

(** The number of the digits, as an [int]. *)
Definition digits_of (d : list Z) : Z := i32 (Z.of_nat (length d)).

(** The line of a size: the digits, a byte that is none, anything, and a line feed. *)
Inductive size_line : list Z -> Z -> Prop :=
| size_line_intro d c junk : hex d -> digits_of d <> 0 -> is_hex c = false -> no_lf junk -> 0 <= size_of d ->
    size_line (d ++ c :: junk ++ [CHAR_LF]) (size_of d).

(** Chunks, and what they carry. *)
Inductive chunks : list Z -> list Z -> Prop :=
| chunks_nil : chunks [] []
| chunks_snoc enc out l v data junk : chunks enc out -> size_line l v -> 0 < v -> Z.of_nat (length data) = v -> no_lf junk ->
    chunks (enc ++ l ++ data ++ junk ++ [CHAR_LF]) (out ++ data).

(** A line of the trailer that does not end it. *)
Definition header_line (l : list Z) : Prop := no_lf l /\ l <> [] /\ l <> [CHAR_CR].
Definition trailing (lines : list (list Z)) : list Z := concat ((fun l => l ++ [CHAR_LF]) <$> lines).

(** Complete content: chunks, a last one of size 0, and a trailer that ends in a blank line. *)
Inductive chunked : list Z -> list Z -> Prop :=
| chunked_intro enc out l lines cr : chunks enc out -> size_line l 0 -> Forall header_line lines -> cr = [] \/ cr = [CHAR_CR] ->
    chunked (enc ++ l ++ trailing lines ++ cr ++ [CHAR_LF]) out.

(** Malformed content: where the size of a chunk belongs there are no digits, or digits that
    are negative as an [int]. *)
Inductive malformed : list Z -> Prop :=
| malformed_intro enc out d c : chunks enc out -> hex d -> is_hex c = false -> digits_of d = 0 \/ size_of d < 0 ->
    malformed (enc ++ d ++ [c]).

Lemma chunks_app a x b y : chunks a x -> chunks b y -> chunks (a ++ b) (x ++ y).
Proof.
  intros Ha Hb. induction Hb as [|enc out l v data junk _ IH Hl Hv Hd Hj]; [by rewrite !app_nil_r|]. rewrite !(app_assoc a), !(app_assoc x). by eapply chunks_snoc.
Qed.

Lemma size_of_snoc d c : size_of (d ++ [c]) = i32 (i32 (size_of d * 16) + hex_digit c).
Proof. unfold size_of. rewrite foldl_app. cbn [foldl]. unfold hex_step at 1. by rewrite wraps_mul_l, wraps_add_l by lia. Qed.

Lemma digits_of_snoc d c : digits_of (d ++ [c]) = i32 (digits_of d + 1).
Proof. unfold digits_of. rewrite length_app, wraps_add_l by lia. f_equal. cbn. lia. Qed.

Lemma trailing_snoc lines l : trailing (lines ++ [l]) = trailing lines ++ l ++ [CHAR_LF].
Proof. unfold trailing. rewrite fmap_app, concat_app. cbn. by rewrite app_nil_r. Qed.

Lemma is_lf_eq c : is_lf c = true -> c = CHAR_LF.
Proof. intros H. by apply Z.eqb_eq in H. Qed.

Lemma is_cr_eq c : is_cr c = true -> c = CHAR_CR.
Proof. intros H. by apply Z.eqb_eq in H. Qed.

Lemma header_line_snoc w c : no_lf w -> is_lf c = false -> w <> [] \/ is_cr c = false -> header_line (w ++ [c]).
Proof.
  intros Hw Hc H. split; [by apply Forall_app; split; [|constructor]|]. split; [by destruct w|]. intros E. destruct w as [|x w]; [|by destruct w].
  injection E as ->. by destruct H.
Qed.

(** ** The machine keeps to the grammar *)

Section grammar.
(** The buffer of the handler at its start. *)
Variable b : option (list Z).

Definition holds (h : ChunkedHandler) (out : list Z) : Prop := dechunked_buffer h = (fun _ => out) <$> b.

(** What has been taken when the machine is in a state. *)
Definition parsed (u : list Z) (h : ChunkedHandler) : Prop :=
  exists enc out part, u = enc ++ part /\ chunks enc out /\
  match state h with
  | CHUNK_READ_SIZE => hex part /\ running_sum h = size_of part /\ num_digits h = digits_of part /\ holds h out
  | CHUNK_READ_SIZE_CRLF => exists d c junk, part = d ++ c :: junk /\ hex d /\ digits_of d <> 0 /\ is_hex c = false /\ no_lf junk /\ 0 <= size_of d /\
      running_sum h = size_of d /\ holds h out
  | CHUNK_READ_CHUNK => exists l v data, part = l ++ data /\ size_line l v /\ 0 < bytes_left h /\ Z.of_nat (length data) + bytes_left h = v /\ holds h (out ++ data)
  | CHUNK_READ_SIZE_START => exists l v data junk, part = l ++ data ++ junk /\ size_line l v /\ 0 < v /\ Z.of_nat (length data) = v /\ no_lf junk /\ holds h (out ++ data)
  | CHUNK_READ_TRAILER_BLANK => exists l lines, part = l ++ trailing lines /\ size_line l 0 /\ Forall header_line lines /\ holds h out
  | CHUNK_READ_TRAILER_CR => exists l lines, part = l ++ trailing lines ++ [CHAR_CR] /\ size_line l 0 /\ Forall header_line lines /\ holds h out
  | CHUNK_READ_TRAILER_LINE => exists l lines w, part = l ++ trailing lines ++ w /\ size_line l 0 /\ Forall header_line lines /\ header_line w /\ holds h out
  | CHUNK_READ_DONE => chunked u out /\ holds h out
  | CHUNK_READ_ERROR => malformed u
  | _ => False
  end.

Lemma parsed_size u h c : parsed u h -> state h = CHUNK_READ_SIZE \/ state h = CHUNK_READ_SIZE_CRLF -> parsed (u ++ [c]) (chunk_step never h c).
Proof.
  intros (enc & out & part & -> & Hc & H) [E|E]; rewrite E in H; unfold chunk_step, parsed; rewrite E; cbn [size_scan]; rewrite E.
  - destruct H as (Hx & Hs & Hn & Hh). destruct (is_hex c) eqn:Ec; cbn [fst].
    { exists enc, out, (part ++ [c]). cbn [state set_sum running_sum num_digits]. rewrite E. split; [by rewrite app_assoc|]. split; [done|].
      split; [by apply Forall_app; split; [|constructor]|]. by rewrite size_of_snoc, digits_of_snoc, Hs, Hn. }
    rewrite Hs, Hn. destruct (Z.eqb_spec (digits_of part) 0) as [E0|E0]; cbn [orb]; [|destruct (Z.ltb_spec (size_of part) 0) as [L|L]]; cbn [fst state set_state].
    + exists enc, out, (part ++ [c]). split; [by rewrite app_assoc|]. split; [done|]. rewrite <- app_assoc. apply (malformed_intro enc out); auto.
    + exists enc, out, (part ++ [c]). split; [by rewrite app_assoc|]. split; [done|]. rewrite <- app_assoc. apply (malformed_intro enc out); auto.
    + exists enc, out, (part ++ [c]). split; [by rewrite app_assoc|]. split; [done|]. exists part, c, []. by split_and!.
  - destruct H as (d & x & junk & -> & Hx & Hn & Hc' & Hj & H0 & Hs & Hh). destruct (is_lf c) eqn:Ec; cbn [fst].
    + apply is_lf_eq in Ec as ->. assert (L : size_line (d ++ x :: junk ++ [CHAR_LF]) (size_of d)) by by constructor. rewrite Hs. cbn [state set_state bytes_left set_chunk].
      exists enc, out, (d ++ x :: junk ++ [CHAR_LF]). split; [by rewrite <- !app_assoc|]. split; [done|]. destruct (Z.eqb_spec (size_of d) 0) as [Z0|Z0].
      * exists (d ++ x :: junk ++ [CHAR_LF]), []. rewrite Z0 in L. split; [by rewrite app_nil_r|]. by split_and!.
      * exists (d ++ x :: junk ++ [CHAR_LF]), (size_of d), []. split; [by rewrite app_nil_r|]. cbn. rewrite app_nil_r. split_and!; try done; lia.
    + exists enc, out, (d ++ x :: junk ++ [c]). rewrite E. split; [by rewrite <- !app_assoc|]. split; [done|]. exists d, x, (junk ++ [c]). split_and!; try done. by apply Forall_app; split; [|constructor].
Qed.

Lemma parsed_chunk u h c : parsed u h -> state h = CHUNK_READ_CHUNK \/ state h = CHUNK_READ_SIZE_START -> parsed (u ++ [c]) (chunk_step never h c).
Proof.
  intros (enc & out & part & -> & Hc & H) [E|E]; rewrite E in H; unfold chunk_step, parsed; rewrite E.
  - destruct H as (l & v & data & -> & Hl & Hb & Hv & Hh). cbv zeta. cbn [bytes_left set_moved].
    assert (Hh' : holds (set_moved h 1 [c]) (out ++ data ++ [c])) by (unfold holds, set_moved in *; cbn; rewrite Hh; destruct b; cbn; by rewrite ?app_assoc).
    exists enc, out, (l ++ data ++ [c]). destruct (Z.eqb_spec (bytes_left h - 1) 0) as [Z0|Z0].
    + assert (A : after_chunk never (set_moved h 1 [c]) = CHUNK_READ_SIZE_START) by (unfold after_chunk; by destruct (dechunked_buffer _)). rewrite A. cbn [state set_state].
      split; [by rewrite <- !app_assoc|]. split; [done|]. exists l, v, (data ++ [c]), []. split; [by rewrite app_nil_r|]. rewrite length_app. cbn [length]. split_and!; try done; lia.
    + cbn [state set_moved]. rewrite E. split; [by rewrite <- !app_assoc|]. split; [done|]. exists l, v, (data ++ [c]). rewrite length_app. cbn [length bytes_left set_moved]. split_and!; try done; lia.
  - destruct H as (l & v & data & junk & -> & Hl & Hv & Hd & Hj & Hh). cbn [size_scan]. rewrite E. destruct (is_lf c) eqn:Ec; cbn [fst].
    + apply is_lf_eq in Ec as ->. cbn [state set_state running_sum num_digits set_sum]. exists (enc ++ l ++ data ++ junk ++ [CHAR_LF]), (out ++ data), [].
      split; [by rewrite app_nil_r, <- !app_assoc|]. split; [by eapply chunks_snoc|]. split; [constructor|]. by split_and!.
    + exists enc, out, (l ++ data ++ junk ++ [c]). rewrite E. split; [by rewrite <- !app_assoc|]. split; [done|]. exists l, v, data, (junk ++ [c]). split_and!; try done. by apply Forall_app; split; [|constructor].
Qed.

Lemma parsed_trailer u h c : parsed u h -> trailer_state (state h) -> parsed (u ++ [c]) (chunk_step never h c).
Proof.
  intros (enc & out & part & -> & Hc & H) E. assert (S : chunk_step never h c = (trailer_scan [c] h 0).1.1) by (unfold chunk_step; by destruct E as [-> |[-> | ->]]).
  rewrite S. cbn [trailer_scan]. unfold parsed. destruct (is_cr c) eqn:Er; [apply is_cr_eq in Er as ->|destruct (is_lf c) eqn:Ef; [apply is_lf_eq in Ef as ->|]]; cbn [fst];
    destruct E as [E|[E|E]]; rewrite E in *; cbn [fst state set_state].
  - destruct H as (l & lines & -> & Hl & Hs & Hh). exists enc, out, (l ++ trailing lines ++ [CHAR_CR]). split; [by rewrite <- !app_assoc|]. split; [done|]. by exists l, lines.
  - destruct H as (l & lines & -> & Hl & Hs & Hh). exists enc, out, (l ++ trailing lines ++ [CHAR_CR; CHAR_CR]). split; [by rewrite <- !app_assoc|]. split; [done|]. exists l, lines, [CHAR_CR; CHAR_CR].
    split_and!; try done. apply (header_line_snoc [CHAR_CR]); [by repeat constructor|done|by left].
  - destruct H as (l & lines & w & -> & Hl & Hs & (Hw & Hw' & _) & Hh). exists enc, out, (l ++ trailing lines ++ w ++ [CHAR_CR]). split; [by rewrite <- !app_assoc|]. split; [done|].
    exists l, lines, (w ++ [CHAR_CR]). split_and!; try done. apply header_line_snoc; [done|done|by left].
  - destruct H as (l & lines & -> & Hl & Hs & Hh). exists enc, out, (l ++ trailing lines ++ [CHAR_LF]). split; [by rewrite <- !app_assoc|]. split; [done|].
    rewrite <- !app_assoc. split; [|done]. by apply (chunked_intro enc out l lines []); [| | |left].
  - destruct H as (l & lines & -> & Hl & Hs & Hh). exists enc, out, (l ++ trailing lines ++ [CHAR_CR; CHAR_LF]). split; [by rewrite <- !app_assoc|]. split; [done|].
    rewrite <- !app_assoc. split; [|done]. by apply (chunked_intro enc out l lines [CHAR_CR]); [| | |right].
  - destruct H as (l & lines & w & -> & Hl & Hs & Hw & Hh). exists enc, out, (l ++ trailing (lines ++ [w])). split; [by rewrite trailing_snoc, <- !app_assoc|]. split; [done|].
    exists l, (lines ++ [w]). split_and!; try done. by apply Forall_app; split; [|constructor].
  - destruct H as (l & lines & -> & Hl & Hs & Hh). exists enc, out, (l ++ trailing lines ++ [c]). split; [by rewrite <- !app_assoc|]. split; [done|].
    exists l, lines, [c]. split_and!; try done. apply (header_line_snoc []); [constructor|done|by right].
  - destruct H as (l & lines & -> & Hl & Hs & Hh). exists enc, out, (l ++ trailing lines ++ [CHAR_CR; c]). split; [by rewrite <- !app_assoc|]. split; [done|].
    exists l, lines, [CHAR_CR; c]. split_and!; try done. apply (header_line_snoc [CHAR_CR]); [by repeat constructor|done|by left].
  - destruct H as (l & lines & w & -> & Hl & Hs & (Hw & Hw' & _) & Hh). exists enc, out, (l ++ trailing lines ++ w ++ [c]). split; [by rewrite <- !app_assoc|]. split; [done|].
    exists l, lines, (w ++ [c]). split_and!; try done. apply header_line_snoc; [done|done|by left].
Qed.

Lemma parsed_run s u h h' : parsed u h -> run never s h = (h', []) -> parsed (u ++ s) h'.
Proof.
  revert u h. induction s as [|c s IH]; intros u h H E; cbn [run] in E; [injection E as <-; by rewrite app_nil_r|]. destruct (halted (state h)) eqn:Hh; [done|].
  change (c :: s) with ([c] ++ s). rewrite app_assoc. apply (IH _ (chunk_step never h c)); [|done]. pose proof H as (enc & out & part & _ & _ & H').
  destruct (state h) eqn:Es; try done; try (apply parsed_size; auto; fail); try (apply parsed_chunk; auto; fail); apply parsed_trailer; unfold trailer_state; auto.
Qed.
End grammar.

(** ** The machine takes the grammar *)

Section complete.
Variable b : option (list Z).
Notation mrun := (run never).

(** The decoder between chunks. *)
Definition at_size (h : ChunkedHandler) (out : list Z) : Prop :=
  state h = CHUNK_READ_SIZE /\ running_sum h = 0 /\ num_digits h = 0 /\ holds b h out.

Lemma run_digits d t h : state h = CHUNK_READ_SIZE -> hex d ->
  mrun (d ++ t) h = mrun t (set_sum h (foldl (fun a c => i32 (i32 (a * 16) + hex_digit c)) (running_sum h) d) (foldl (fun n _ => i32 (n + 1)) (num_digits h) d)).
Proof.
  intros Hst Hd. revert h Hst. induction Hd as [|c d Hc _ IH]; intros h Hst; cbn [app foldl]; [by destruct h|].
  rewrite run_cons by (by rewrite Hst). unfold chunk_step. rewrite Hst. cbn [size_scan]. rewrite Hst, Hc. cbn [fst]. by rewrite IH.
Qed.

Lemma run_at_size d t h out : at_size h out -> hex d -> mrun (d ++ t) h = mrun t (set_sum h (size_of d) (digits_of d)).
Proof.
  intros (H1 & H2 & H3 & _) Hd. rewrite run_digits, H2, H3 by done. do 2 f_equal.
  - unfold size_of. change 0 with (i32 0) at 1. generalize 0. clear. induction d as [|c d IH]; intros a; [done|]. cbn [foldl]. by rewrite wraps_mul_l, wraps_add_l by lia.
  - unfold digits_of. change 0 with (i32 0). change (Z.of_nat (length d)) with (0 + Z.of_nat (length d)). generalize 0. clear.
    induction d as [|c d IH]; intros a; cbn [foldl length]; [by rewrite Z.add_0_r|]. rewrite wraps_add_l, IH by lia. f_equal. lia.
Qed.

(** What is skipped up to a line feed. *)
Lemma run_skip s t h : no_lf s -> state h = CHUNK_READ_SIZE_CRLF \/ state h = CHUNK_READ_SIZE_START -> mrun (s ++ t) h = mrun t h.
Proof.
  intros Hs E. induction Hs as [|c s Hc _ IH]; [done|]. cbn [app]. rewrite run_cons by (by destruct E as [-> | ->]). unfold chunk_step.
  destruct E as [E|E]; rewrite E; cbn [size_scan]; by rewrite E, Hc.
Qed.

Lemma run_size_line l v t h out : at_size h out -> size_line l v -> exists h', mrun (l ++ t) h = mrun t h' /\
  state h' = (if v =? 0 then CHUNK_READ_TRAILER_BLANK else CHUNK_READ_CHUNK) /\ bytes_left h' = v /\ holds b h' out.
Proof.
  intros Ha [d c junk Hd Hn Hc Hj H0]. rewrite <- app_assoc. rewrite (run_at_size _ _ _ out) by done. destruct Ha as (H1 & _ & _ & H4).
  cbn [app]. rewrite run_cons by (cbn; by rewrite H1). unfold chunk_step at 1. cbn [state set_sum]. rewrite H1. cbn [size_scan state set_sum num_digits running_sum]. rewrite H1, Hc.
  rewrite (proj2 (Z.eqb_neq _ 0)), (proj2 (Z.ltb_ge _ 0)) by done. cbn [orb fst]. rewrite <- app_assoc, run_skip by auto.
  cbn [app]. rewrite run_cons by done. unfold chunk_step. cbn [state set_state size_scan]. change (is_lf CHAR_LF) with true. cbn [fst]. by eexists.
Qed.

Lemma run_chunks enc out t h o : at_size h o -> chunks enc out -> exists h', mrun (enc ++ t) h = mrun t h' /\ at_size h' (o ++ out).
Proof.
  intros Ha Hc. revert t. induction Hc as [|enc out l v data junk _ IH Hl Hv Hd Hj]; intros t; [exists h; by rewrite app_nil_r|].
  destruct (IH (l ++ data ++ junk ++ CHAR_LF :: t)) as (h1 & E1 & A1). destruct (run_size_line l v (data ++ junk ++ CHAR_LF :: t) h1 _ A1 Hl) as (h2 & E2 & S2 & B2 & H2).
  rewrite (proj2 (Z.eqb_neq v 0)) in S2 by lia. rewrite <- !app_assoc. cbn [app]. rewrite E1, E2.
  rewrite run_chunk; [|done|by intros ->; cbn in Hd; lia|lia]. cbv zeta. cbn [bytes_left set_moved]. rewrite B2, Hd, Z.sub_diag. cbn [Z.eqb].
  replace (after_chunk never _) with CHUNK_READ_SIZE_START by (unfold after_chunk; by destruct (dechunked_buffer _)).
  rewrite run_skip by auto. rewrite run_cons by done. unfold chunk_step. cbn [state set_state size_scan]. change (is_lf CHAR_LF) with true. cbn [fst].
  eexists. split; [done|]. split_and!; try done. unfold holds in *. cbn. rewrite H2. destruct b; cbn; by rewrite ?app_assoc.
Qed.

Lemma run_line w t h : header_line w -> state h = CHUNK_READ_TRAILER_BLANK -> mrun (w ++ CHAR_LF :: t) h = mrun t (set_state h CHUNK_READ_TRAILER_BLANK).
Proof.
  intros (Hw & Hne & Hcr) E.
  assert (L : forall s g, no_lf s -> state g = CHUNK_READ_TRAILER_LINE -> mrun (s ++ CHAR_LF :: t) g = mrun t (set_state g CHUNK_READ_TRAILER_BLANK)).
  { intros s g Hs. revert g. induction Hs as [|c s Hc _ IH]; intros g Eg; cbn [app]; rewrite run_cons by (by rewrite Eg); unfold chunk_step; rewrite Eg; cbn [trailer_scan]; [by rewrite Eg|].
    rewrite Hc, Eg. destruct (is_cr c); cbn [fst]; by rewrite IH. }
  destruct Hw as [|c w Hc Hw]; [done|]. cbn [app]. rewrite run_cons by (by rewrite E). unfold chunk_step. rewrite E. cbn [trailer_scan]. rewrite Hc, E. destruct (is_cr c) eqn:Er; cbn [fst]; [|by rewrite L].
  apply is_cr_eq in Er as ->. destruct Hw as [|c' w Hc' Hw]; [done|]. cbn [app]. rewrite run_cons by done. unfold chunk_step. cbn [state set_state trailer_scan]. rewrite Hc'. destruct (is_cr c'); cbn [fst]; by rewrite L.
Qed.

Lemma run_trailing lines t h : Forall header_line lines -> state h = CHUNK_READ_TRAILER_BLANK -> mrun (trailing lines ++ t) h = mrun t h.
Proof.
  intros Hl E. induction Hl as [|w lines Hw _ IH]; [done|]. unfold trailing in *. cbn [fmap list_fmap concat]. rewrite <- !app_assoc. cbn [app].
  rewrite run_line by done. replace (set_state h CHUNK_READ_TRAILER_BLANK) with h; [done|]. destruct h. cbn in E. by subst.
Qed.

(** Complete content is taken as such, and no byte after it. *)
Lemma run_complete enc out t h : at_size h [] -> chunked enc out -> exists h', mrun (enc ++ t) h = (h', t) /\ state h' = CHUNK_READ_DONE /\ holds b h' out.
Proof.
  intros Ha [enc' out' l lines cr Hc Hl Hs Hr]. rewrite <- !app_assoc. destruct (run_chunks enc' out' (l ++ trailing lines ++ cr ++ [CHAR_LF] ++ t) h [] Ha Hc) as (h1 & -> & A1).
  destruct (run_size_line l 0 (trailing lines ++ cr ++ [CHAR_LF] ++ t) h1 _ A1 Hl) as (h2 & -> & S2 & _ & H2). cbn [Z.eqb] in S2. rewrite run_trailing by done. destruct Hr as [-> | ->]; cbn [app].
  - rewrite run_cons by (by rewrite S2). unfold chunk_step. rewrite S2. cbn [trailer_scan]. change (is_cr CHAR_LF) with false. change (is_lf CHAR_LF) with true. rewrite S2. cbn [fst]. rewrite run_halted by done. by eexists.
  - rewrite run_cons by (by rewrite S2). unfold chunk_step. rewrite S2. cbn [trailer_scan]. change (is_cr CHAR_CR) with true. rewrite S2. cbn [fst].
    rewrite run_cons by done. cbn [state set_state trailer_scan]. change (is_cr CHAR_LF) with false. change (is_lf CHAR_LF) with true. cbn [fst]. rewrite run_halted by done. by eexists.
Qed.

(** Malformed content ends in the error state. *)
Lemma run_malformed s t h : at_size h [] -> malformed s -> exists h', mrun (s ++ t) h = (h', t) /\ state h' = CHUNK_READ_ERROR.
Proof.
  intros Ha [enc out d c Hc Hd Hx Hbad]. rewrite <- !app_assoc. destruct (run_chunks enc out (d ++ [c] ++ t) h [] Ha Hc) as (h1 & -> & A1).
  rewrite (run_at_size _ _ _ _ A1) by done. destruct A1 as (S1 & _). cbn [app]. rewrite run_cons by (cbn; by rewrite S1). unfold chunk_step. cbn [state set_sum]. rewrite S1.
  cbn [size_scan state set_sum]. rewrite S1, Hx. cbn [num_digits running_sum set_sum]. assert (B : (digits_of d =? 0) || (size_of d <? 0) = true).
  { destruct Hbad as [-> |L]; [done|]. rewrite (proj2 (Z.ltb_lt _ _) L). apply orb_true_r. }
  rewrite B. cbn [fst]. rewrite run_halted by done. by eexists.
Qed.
End complete.

(** ** Decoding over any calls *)

Section decoding.
Context {R : Type} `{!ByteReader R}.
Variable (action : chunking_action) (dechunking : bool).
Hypothesis reads : action <> TCA_CHUNK_CONTENT.
Notation init := (chunked_init action dechunking).

(** The tunnel calls the handler: with an event, or because the consumers have read on. *)
Inductive decode_call (v : bool) (r : R) (h : ChunkedHandler) (ev : vc_event) (r' : R) (h' : ChunkedHandler) (passed : vc_event) : Prop :=
| by_event ahead : producer_handler_chunked ahead v ev r h = Some (r', h', passed) -> decode_call v r h ev r' h' passed
| by_drain ahead : last_server_event h = ev -> chunked_reenable ahead true v r h = Some (r', h', Some passed) -> decode_call v r h ev r' h' passed.

(** The states of a decoder and of its reader, with the bytes that have arrived: they
    arrive in any pieces between the calls, whose events and pauses are any. *)
Inductive decodes : list Z -> R -> ChunkedHandler -> Prop :=
| decodes_init r : br_ok r -> decodes (br_bytes r) r init
| decodes_call s r h more v r1 ev r2 h2 passed : decodes s r h -> br_ok r1 -> br_bytes r1 = br_bytes r ++ more ->
    decode_call v r1 h ev r2 h2 passed -> decodes (s ++ more) r2 h2.

(** What a call comes to. *)
Lemma decode_call_spec v (r : R) h ev r' h' passed : br_ok r -> chunk_inv h -> (state h = CHUNK_FLOW_CONTROL -> last_server_event h <> OTHER_EVENT) ->
  decode_call v r h ev r' h' passed -> (ev = OTHER_EVENT /\ r' = r /\ h' = h) \/ (ev <> OTHER_EVENT /\ called v ev r h r' h' /\ (state h' = CHUNK_READ_ERROR -> passed = EOS)).
Proof.
  intros Hr HI Hf [ahead E|ahead L E].
  - assert (De : ev = OTHER_EVENT \/ ev <> OTHER_EVENT) by (destruct ev; auto). destruct De as [->|Ne]; [injection E as <- <- <-; by left|]. right. split; [done|].
    destruct (handler_called ahead v ev r h Hr HI Ne) as (r1 & h1 & p1 & E1 & C & P & _). rewrite E in E1. injection E1 as <- <- <-. by split.
  - unfold chunked_reenable in E. case_bool_decide as F; [done|]. rewrite L in E.
    assert (Ne : ev <> OTHER_EVENT) by (rewrite <- L; auto). right. split; [done|].
    destruct (handler_called ahead v ev r (set_state h CHUNK_READ_SIZE_START) Hr I Ne) as (r1 & h1 & p1 & E1 & C & P & _). rewrite E1 in E. cbn in E. injection E as <- <- <-. split; [|done].
    unfold called in *. cbn [truncation set_state] in C. replace (core h) with (core (set_state h CHUNK_READ_SIZE_START)); [done|]. unfold core. cbn. by rewrite F.
Qed.

Lemma decodes_spec s r h : decodes s r h -> br_ok r /\ chunk_inv h /\ (state h = CHUNK_FLOW_CONTROL -> last_server_event h <> OTHER_EVENT) /\
  (state h = CHUNK_READ_ERROR -> truncation h = true) /\ exists u, s = u ++ br_bytes r /\ run never u init = (core h, []).
Proof.
  induction 1 as [r Hr|s r h more v r1 ev r2 h2 passed _ (Hr & HI & Hf & He & u & -> & Hu) Hr1 Eb Hc].
  { split; [done|]. assert (S : state init = CHUNK_READ_SIZE) by by destruct action. split; [by unfold chunk_inv; rewrite S|]. rewrite S. split; [done|]. split; [done|]. exists []. split; [done|]. cbn. by destruct action. }
  destruct (decode_call_spec v r1 h ev r2 h2 passed Hr1 HI Hf Hc) as [(_ & -> & ->)|(Ne & (A & B & (w & Ew & Rw) & _ & L & T) & _)].
  - split_and!; try done. exists u. by rewrite <- app_assoc, <- Eb.
  - split; [done|]. split; [done|]. rewrite L. split; [done|]. split; [intros E; rewrite T, E; cbn; by rewrite orb_true_r|].
    exists (u ++ w). rewrite <- !app_assoc, <- Eb, Ew. split; [done|]. by rewrite (run_app _ _ _ _ _ Hu).
Qed.

Lemma parsed_init u h : run never u init = (h, []) -> parsed (dechunked_buffer init) u h.
Proof.
  intros E. apply (parsed_run (dechunked_buffer init) u [] init); [|done]. exists [], [], []. split; [done|]. split; [constructor|].
  replace (state init) with CHUNK_READ_SIZE by by destruct action. by destruct action, dechunking.
Qed.

Lemma at_size_init : at_size (dechunked_buffer init) init [].
Proof. by destruct action, dechunking. Qed.

(** The last call: the server is done. *)
Lemma last_call s r h more v r1 ev r2 h2 passed : decodes s r h -> truncation h = false -> br_ok r1 -> br_bytes r1 = br_bytes r ++ more ->
  decode_call v r1 h ev r2 h2 passed -> last_event ev = true -> state h2 <> CHUNK_FLOW_CONTROL ->
  (truncation h2 = false <-> state h2 = CHUNK_READ_DONE) /\ (state h2 = CHUNK_READ_ERROR -> passed = EOS) /\
  exists u, s ++ more = u ++ br_bytes r2 /\ run never u init = (core h2, []) /\ (br_bytes r2 = [] \/ halted (state h2) = true).
Proof.
  intros Hd Ht Hr1 Eb Hc Hl Nf. destruct (decodes_spec s r h Hd) as (Hr & HI & Hf & _ & u & -> & Hu).
  destruct (decode_call_spec v r1 h ev r2 h2 passed Hr1 HI Hf Hc) as [(-> & _)|(Ne & (A & B & (w & Ew & Rw) & D & _ & T) & P)]; [done|].
  split; [|split; [done|]].
  - rewrite T, Ht, Hl. cbn [orb andb]. rewrite (bool_decide_false _ Nf), andb_false_r. cbn [negb]. rewrite andb_true_r. by destruct (state h2).
  - exists (u ++ w). rewrite <- !app_assoc, <- Eb, Ew. split; [done|]. by rewrite (run_app _ _ _ _ _ Hu).
Qed.

(** The machine that has taken all it takes of some content has read it as the machine
    alone does. *)
Lemma taken s u t h h1 rest : s = u ++ t -> run never u init = (core h, []) -> t = [] \/ halted (state h) = true -> state h <> CHUNK_FLOW_CONTROL ->
  run never s init = (h1, rest) -> h1 = core h /\ rest = t.
Proof.
  intros -> Hu Ht Nf. rewrite (run_app _ _ _ _ _ Hu). destruct Ht as [->|Hh]; [cbn; by intros [= <- <-]|]. rewrite run_halted by (by rewrite core_halted). by intros [= <- <-].
Qed.

(** C35: when the server is done, after any calls, with the bytes in any pieces and any
    pauses, the decoder reports a truncation unless what has arrived begins with complete
    content (chunks, a chunk of size 0 and a trailer), which is then what it has decoded and
    consumed; and when it begins with content that is malformed (no digits or a negative size
    where a chunk begins), the decoder ends in its error state and passes the end of the stream
    on.  The exception is a decoder that holds data back because its consumers are behind.
    Sizes are those of an [int] ([size_of]), so that content whose sizes overflow is complete or
    malformed as they come out ([chunk_size_overflows]). *)
Theorem chunked_truncation s (r : R) h more v (r1 : R) ev : decodes s r h -> truncation h = false -> br_ok r1 -> br_bytes r1 = br_bytes r ++ more -> last_event ev = true ->
  (exists r2 h2 passed, decode_call v r1 h ev r2 h2 passed) /\
  forall r2 h2 passed, decode_call v r1 h ev r2 h2 passed -> state h2 <> CHUNK_FLOW_CONTROL ->
    (truncation h2 = false <-> exists content body, chunked content body /\ s ++ more = content ++ br_bytes r2) /\
    (forall content body rest, chunked content body -> s ++ more = content ++ rest ->
       truncation h2 = false /\ br_bytes r2 = rest /\ dechunked_buffer h2 = (fun _ => body) <$> dechunked_buffer init) /\
    (forall bad rest, malformed bad -> s ++ more = bad ++ rest -> truncation h2 = true /\ state h2 = CHUNK_READ_ERROR /\ passed = EOS).
Proof.
  intros Hd Ht Hr1 Eb Hl. split.
  { destruct (decodes_spec s r h Hd) as (_ & HI & _). destruct (handler_called (fun _ => false) v ev r1 h Hr1 HI) as (r2 & h2 & p & E & _); [by intros ->|]. exists r2, h2, p. by apply (by_event v r1 h ev r2 h2 p (fun _ => false)). }
  intros r2 h2 passed Hc Nf. destruct (last_call _ _ _ _ _ _ _ _ _ _ Hd Ht Hr1 Eb Hc Hl Nf) as (T & P & u & Es & Hu & D).
  assert (S : forall st, resumed (state h2) = st -> st <> CHUNK_READ_SIZE_START -> state h2 = st) by (intros st <-; by destruct (state h2)).
  split; [|split].
  - rewrite T. split.
    + intros E. destruct (parsed_init u (core h2) Hu) as (enc & out & part & -> & _ & H). cbn [state core] in H. rewrite E in H. cbn [resumed] in H. destruct H as [H _]. by exists (enc ++ part), out.
    + intros (content & body & Hch & E). destruct (run_complete _ content body (br_bytes r2) init at_size_init Hch) as (h1 & R1 & S1 & _). rewrite <- E in R1.
      destruct (taken _ _ _ _ _ _ Es Hu D Nf R1) as [-> _]. apply (S CHUNK_READ_DONE S1). done.
  - intros content body rest Hch E. destruct (run_complete _ content body rest init at_size_init Hch) as (h1 & R1 & S1 & B1). rewrite <- E in R1.
    destruct (taken _ _ _ _ _ _ Es Hu D Nf R1) as [-> ->]. split; [apply T, (S CHUNK_READ_DONE S1); done|]. by split.
  - intros bad rest Hm E. destruct (run_malformed _ bad rest init at_size_init Hm) as (h1 & R1 & S1). rewrite <- E in R1.
    destruct (taken _ _ _ _ _ _ Es Hu D Nf R1) as [-> _]. assert (Se : state h2 = CHUNK_READ_ERROR) by (apply (S CHUNK_READ_ERROR S1); done).
    split; [|split; [done|auto]]. apply not_false_iff_true. intros E2. apply T in E2. congruence.
Qed.
End decoding.

(** ** The encoder *)

Definition enc_chunk (s : list Z) : list Z := sprintf_x (Z.of_nat (length s)) ++ crlf ++ s ++ crlf.

Lemma hex_char_ok d : 0 <= d < 16 -> is_hex (hex_char d) = true /\ hex_digit (hex_char d) = d.
Proof.
  intros H. assert (G : forallb (fun n => let d := Z.of_nat n in is_hex (hex_char d) && (hex_digit (hex_char d) =? d)) (seq 0 16) = true) by reflexivity.
  rewrite forallb_forall in G. specialize (G (Z.to_nat d)). rewrite Z2Nat.id in G by lia. apply andb_true_iff in G as [G1 G2].
  - split; [done|]. by apply Z.eqb_eq.
  - apply in_seq. lia.
Qed.

Lemma xdec_spec fuel v acc : 0 <= v < 16 ^ Z.of_nat fuel -> exists l, xdec fuel v acc = l ++ acc /\
  (length l <= fuel)%nat /\ ((0 < fuel)%nat -> l <> []) /\ hex l /\ foldl hex_step 0 l = v.
Proof.
  revert v acc. induction fuel as [|fuel IH]; intros v acc Hv; cbn [xdec].
  { exists []. cbn in Hv. split_and!; [done|done|lia|done|cbn; lia]. }
  destruct (Z.ltb_spec v 16).
  - destruct (hex_char_ok v ltac:(lia)) as [H1 H2]. exists [hex_char v].
    split_and!; [done|cbn; lia|done|by repeat constructor|]. cbn. unfold hex_step. lia.
  - rewrite Nat2Z.inj_succ, Z.pow_succ_r in Hv by lia.
    destruct (IH (v / 16) (hex_char (v mod 16) :: acc)) as (l & E & L1 & L2 & L3 & L4).
    { split; [apply Z.div_pos; lia|apply Z.div_lt_upper_bound; lia]. }
    pose proof (Z.mod_pos_bound v 16 ltac:(lia)) as Hm. destruct (hex_char_ok (v mod 16) Hm) as [H1 H2].
    exists (l ++ [hex_char (v mod 16)]). rewrite E. split_and!.
    + by rewrite <- app_assoc.
    + rewrite length_app. cbn. lia.
    + intros _ E'. apply app_eq_nil in E' as [_ E']. done.
    + apply Forall_app. split; [done|]. by repeat constructor.
    + rewrite foldl_app, L4. cbn. unfold hex_step. rewrite H2. pose proof (Z.div_mod v 16). lia.
Qed.

(** What the encoder writes is in the grammar. *)
Lemma sprintf_size_line v : 0 <= v < 2 ^ 31 -> size_line (sprintf_x v ++ crlf) v.
Proof.
  intros Hv. destruct (xdec_spec 8 v [] ltac:(change (16 ^ Z.of_nat 8) with (2 ^ 32); lia)) as (l & E & L1 & L2 & L3 & L4).
  unfold sprintf_x. rewrite E, app_nil_r. assert (Hs : size_of l = v) by (unfold size_of; rewrite L4; apply wraps_id; lia). rewrite <- Hs.
  apply (size_line_intro l 13 []); [done| |done|done|lia]. unfold digits_of. rewrite wraps_id by lia. specialize (L2 ltac:(lia)). destruct l; [done|cbn; lia].
Qed.

Definition chunk_ok (c : list Z) : Prop := c <> [] /\ Z.of_nat (length c) < 2 ^ 31.

Lemma enc_chunks_ok cs : Forall chunk_ok cs -> chunks (concat (enc_chunk <$> cs)) (concat cs).
Proof.
  induction 1 as [|c cs [Hc Hl] _ IH]; [constructor|]. cbn [fmap list_fmap concat]. apply chunks_app; [|done].
  unfold enc_chunk. rewrite (app_assoc (sprintf_x _)).
  apply (chunks_snoc [] [] (sprintf_x (Z.of_nat (length c)) ++ crlf) (Z.of_nat (length c)) c [13]); [constructor|apply sprintf_size_line; lia| |done|by repeat constructor].
  destruct c; [done|cbn; lia].
Qed.

Lemma enc_body_ok cs : Forall chunk_ok cs -> chunked (concat (enc_chunk <$> cs) ++ [48] ++ crlf ++ crlf) (concat cs).
Proof.
  intros H. change ([48] ++ crlf ++ crlf) with ((sprintf_x 0 ++ crlf) ++ trailing [] ++ [CHAR_CR] ++ [CHAR_LF]). apply chunked_intro; [by apply enc_chunks_ok|by apply sprintf_size_line|constructor|by right].
Qed.

Lemma generate_go_spec ahead fuel done_ s h : (length s <= fuel)%nat -> state h <> CHUNK_WRITE_DONE ->
  exists cs s' h' stopped, generate_go ahead fuel done_ s h = Some (s', h', stopped) /\ s = concat cs ++ s' /\
    Forall chunk_ok cs /\ chunked_buffer h' = chunked_buffer h ++ concat (enc_chunk <$> cs) /\ state h' <> CHUNK_WRITE_DONE /\
    (stopped = false -> s' = []) /\ (done_ = true -> stopped = false) /\ (stopped = true -> state h' = CHUNK_FLOW_CONTROL) /\
    last_server_event h' = last_server_event h.
Proof.
  revert s h. induction fuel as [|fuel IH]; intros s h Hf Hst; cbn [generate_go].
  { assert (s = []) as -> by (destruct s; [done|cbn in Hf; lia]). cbn [length Z.of_nat Z.eqb negb andb].
    exists [], [], h, false. cbn. rewrite app_nil_r. split_and!; done. }
  rewrite (bool_decide_false _ Hst). cbn [negb]. rewrite andb_true_r. destruct (Z.eqb_spec (Z.of_nat (length s)) 0) as [E0|E0]; cbn [negb].
  { assert (s = []) as -> by (destruct s; [done|cbn in E0; lia]). exists [], [], h, false. cbn. rewrite app_nil_r. split_and!; done. }
  destruct (negb done_ && ahead (chunked_buffer h)) eqn:Efl.
  { eexists [], s, _, true. split; [done|]. cbn. rewrite app_nil_r. split_and!; [done..| |done|done]. by destruct done_. }
  set (v := Z.min max_chunk_size (Z.of_nat (length s))). assert (Hv : 0 < v <= 4096 /\ v <= Z.of_nat (length s))
    by (unfold v, max_chunk_size; lia).
  set (c := take (Z.to_nat v) s). assert (Hc : Z.of_nat (length c) = v) by (unfold c; rewrite length_take; lia).
  assert (Hline : (if v =? max_chunk_size then max_chunk_buf else sprintf_x v ++ crlf) = sprintf_x v ++ crlf)
    by (destruct (Z.eqb_spec v max_chunk_size) as [->|]; done).
  rewrite Hline. set (h4 := put_chunked _ _).
  assert (Hout : chunked_buffer h4 = chunked_buffer h ++ enc_chunk c).
  { unfold h4, enc_chunk. cbn [chunked_buffer put_chunked set_state]. rewrite Hc, <- !app_assoc. done. }
  destruct (IH (drop (Z.to_nat v) s) h4) as (cs & s' & h' & st & E & H1 & H2 & H3 & H4 & H5 & H6 & H7 & H8).
  { rewrite length_drop. lia. } { done. }
  exists (c :: cs), s', h', st. rewrite E. split_and!; [done| | | |done|done|done|done|done].
  - cbn [concat]. rewrite <- app_assoc, <- H1. unfold c. by rewrite take_drop.
  - constructor; [|done]. split; [|lia]. intros Ee. rewrite Ee in Hc. cbn in Hc. lia.
  - rewrite H3, Hout, <- app_assoc. done.
Qed.

(** What happens to the producer that encodes: bytes arrive and it is called with an event, or
    its consumers have read on. *)
Inductive producer_step :=
| Arrive (ahead : list Z -> bool) (ev : vc_event) (bytes : list Z)
| Drained (ahead : list Z -> bool) (below : bool).

Definition arrived (st : producer_step) : list Z := match st with Arrive _ _ bytes => bytes | Drained _ _ => [] end.

(** A step while the server is under way. *)
Definition under_way (st : producer_step) : Prop := match st with Arrive _ ev _ => last_event ev = false | Drained _ _ => True end.

Definition produce_step (st : producer_step) (s : list Z) (h : ChunkedHandler) : option (list Z * ChunkedHandler) :=
  match st with
  | Arrive ahead ev bytes => producer_handler_dechunked ahead ev (s ++ bytes) h
  | Drained ahead below => '(s', h', _) ← add_chunked_reenable ahead below s h; Some (s', h')
  end.

Fixpoint produce (steps : list producer_step) (s : list Z) (h : ChunkedHandler) : option (list Z * ChunkedHandler) :=
  match steps with [] => Some (s, h) | st :: steps' => '(s', h') ← produce_step st s h; produce steps' s' h' end.

(** The producer before the server is done. *)
Definition producing (h : ChunkedHandler) : Prop :=
  state h <> CHUNK_WRITE_DONE /\ last_event (last_server_event h) = false.

Lemma handler_ready ahead ev s h : producing h -> last_event ev = false -> exists cs s' h', producer_handler_dechunked ahead ev s h = Some (s', h') /\ s = concat cs ++ s' /\ Forall chunk_ok cs /\
  chunked_buffer h' = chunked_buffer h ++ concat (enc_chunk <$> cs) /\ producing h'.
Proof.
  intros [Hs Hl] He. destruct ev; try done.
  - unfold producer_handler_dechunked, generate_chunked_content. cbn [last_server_event set_event].
    destruct (generate_go_spec ahead (length s) false s (set_event h READ_READY) ltac:(lia) Hs) as (cs & s1 & h1 & st & -> & H1 & H2 & H3 & H4 & _ & _ & _ & H8). cbn [mbind option_bind].
    replace (if st then Some (s1, h1, false) else Some (s1, h1, false)) with (Some (s1, h1, false)) by (by destruct st). exists cs, s1, h1. split; [done|]. split_and!; try done. split; [done|by rewrite H8].
  - exists [], s, h. split_and!; try done. by rewrite app_nil_r.
Qed.

Lemma produce_step_spec st s h : producing h -> under_way st -> exists cs s' h', produce_step st s h = Some (s', h') /\ s ++ arrived st = concat cs ++ s' /\ Forall chunk_ok cs /\
  chunked_buffer h' = chunked_buffer h ++ concat (enc_chunk <$> cs) /\ producing h'.
Proof.
  intros Hp Hu. destruct st as [ahead ev bytes|ahead below]; cbn [produce_step arrived]; [by apply handler_ready|]. rewrite app_nil_r.
  assert (G : exists cs s' h', Some (s, h) = Some (s', h') /\ s = concat cs ++ s' /\ Forall chunk_ok cs /\ chunked_buffer h' = chunked_buffer h ++ concat (enc_chunk <$> cs) /\ producing h').
  { exists [], s, h. split_and!; try done. by rewrite app_nil_r. }
  unfold add_chunked_reenable. case_bool_decide; [done|]. destruct below; [|done].
  destruct (handler_ready ahead (last_server_event h) s (set_state h CHUNK_WRITE_CHUNK)) as (cs & s' & h' & -> & H'); [by split; [|apply Hp]|apply Hp|]. by exists cs, s', h'.
Qed.

Lemma produce_spec steps s h : producing h -> Forall under_way steps -> exists cs s' h', produce steps s h = Some (s', h') /\ s ++ concat (arrived <$> steps) = concat cs ++ s' /\ Forall chunk_ok cs /\
  chunked_buffer h' = chunked_buffer h ++ concat (enc_chunk <$> cs) /\ producing h'.
Proof.
  intros Hp Hs. revert s h Hp. induction Hs as [|st steps Hu _ IH]; intros s h Hp; cbn [produce fmap list_fmap concat].
  { exists [], s, h. rewrite !app_nil_r. by split_and!. }
  destruct (produce_step_spec st s h Hp Hu) as (cs & s1 & h1 & -> & E1 & O1 & B1 & P1). cbn [mbind option_bind]. destruct (IH s1 h1 P1) as (cs' & s2 & h2 & -> & E2 & O2 & B2 & P2).
  exists (cs ++ cs'), s2, h2. rewrite concat_app, fmap_app, concat_app. split; [done|]. split; [|split; [by apply Forall_app|split; [|done]]].
  - by rewrite (app_assoc s), E1, <- !app_assoc, E2.
  - by rewrite B2, B1, <- app_assoc.
Qed.

Lemma produce_app e1 e2 s h : produce (e1 ++ e2) s h = '(s', h') ← produce e1 s h; produce e2 s' h'.
Proof. revert s h. induction e1 as [|st e1 IH]; intros s h; [done|]. cbn [app produce]. destruct (produce_step st s h) as [[s' h']|]; [|done]. cbn [mbind option_bind]. apply IH. Qed.

(** A pause of the encoder ends when its consumers have read on: what it held back is written. *)
Lemma pause_ends s h : producing h -> last_server_event h = READ_READY -> state h = CHUNK_FLOW_CONTROL ->
  exists cs h', add_chunked_reenable never true s h = Some ([], h', true) /\ s = concat cs /\ chunked_buffer h' = chunked_buffer h ++ concat (enc_chunk <$> cs).
Proof.
  intros [_ _] L F. unfold add_chunked_reenable. rewrite bool_decide_false by auto. rewrite L. unfold producer_handler_dechunked, generate_chunked_content. cbn [last_server_event set_event].
  assert (G : forall fuel s h, state h = CHUNK_WRITE_CHUNK -> (length s <= fuel)%nat -> exists s' h', generate_go never fuel false s h = Some (s', h', false) /\ state h' = CHUNK_WRITE_CHUNK).
  { clear. induction fuel as [|fuel IH]; intros s h E Hf; cbn [generate_go]; destruct s as [|c s]; cbn [length] in *; try lia; cbn [Z.of_nat Z.eqb negb andb]; try by eexists _, _.
    rewrite E. cbn [bool_decide andb negb never]. apply IH; [done|]. rewrite length_drop. cbn [length]. unfold max_chunk_size. lia. }
  destruct (G (length s) s (set_event (set_state h CHUNK_WRITE_CHUNK) READ_READY)) as (s' & h' & E & E'); [done|lia|].
  destruct (generate_go_spec never (length s) false s (set_event (set_state h CHUNK_WRITE_CHUNK) READ_READY)) as (cs & s2 & h2 & st & E2 & -> & _ & B & _ & Z2 & _); [lia|done|].
  rewrite E in E2. injection E2 as <- <- <-. rewrite E, (Z2 eq_refl), app_nil_r. cbn [mbind option_bind]. rewrite bool_decide_true by (by rewrite E'). by exists cs, h'.
Qed.

(** C34: what the encoder writes for a body that arrives in any pieces, with any pauses of the
    flow control and any ends of them, is chunked content that carries that body; and a decoder
    that finds it in a reader, in any blocks and with anything after it, decodes it, with any
    pauses of its own (each call has its answers to the flow control; the last of the calls
    after the first makes no pause), to that body, consumes it and nothing more, and reports no
    truncation. *)
Theorem chunked_roundtrip {R} `{!ByteReader R} steps ahead ev last dahead daheads v (r : R) extra : Forall under_way steps -> last_event ev = true ->
  let body := concat (arrived <$> steps) ++ last in
  exists h, produce (steps ++ [Arrive ahead ev last]) [] (chunked_init TCA_CHUNK_CONTENT false) = Some ([], h) /\ chunked (chunked_buffer h) body /\
    (br_ok r -> br_bytes r = chunked_buffer h ++ extra ->
     exists r1 h1 passed r2 h2, producer_handler_chunked dahead v READ_READY r (chunked_init TCA_DECHUNK_CONTENT false) = Some (r1, h1, passed) /\
       resume (daheads ++ [never]) v r1 h1 = Some (r2, h2) /\
       state h2 = CHUNK_READ_DONE /\ dechunked_buffer h2 = Some body /\ br_bytes r2 = extra /\ truncation h2 = false).
Proof.
  intros Hs Hev body. destruct (produce_spec steps [] (chunked_init TCA_CHUNK_CONTENT false) ltac:(by split) Hs) as (cs & s1 & h1 & E1 & B1 & O1 & C1 & [N1 _]).
  destruct (generate_go_spec ahead (length (s1 ++ last)) true (s1 ++ last) (set_event h1 ev) ltac:(lia) N1) as (cs2 & s2 & h2 & st & E2 & B2 & O2 & C2 & _ & Z2 & F2 & _).
  specialize (F2 eq_refl) as ->. specialize (Z2 eq_refl) as ->. rewrite app_nil_r in B2.
  exists (put_chunked (set_state h2 CHUNK_WRITE_DONE) ([48] ++ crlf ++ crlf)). split; [|].
  { rewrite produce_app, E1. cbn [mbind option_bind produce produce_step]. unfold producer_handler_dechunked, generate_chunked_content. destruct ev; try done; cbn [last_server_event set_event]; by rewrite E2. }
  cbn [chunked_buffer put_chunked set_state]. rewrite C2. cbn [chunked_buffer set_event]. rewrite C1. cbn [chunked_buffer chunked_init app].
  assert (Eb : body = concat (cs ++ cs2)) by (unfold body; cbn [app] in B1; by rewrite B1, <- app_assoc, B2, concat_app). rewrite Eb, <- concat_app, <- fmap_app.
  assert (Hc := enc_body_ok (cs ++ cs2) ltac:(by apply Forall_app)). split; [exact Hc|]. intros Hr Hb.
  destruct (handler_called dahead v READ_READY r (chunked_init TCA_DECHUNK_CONTENT false) Hr I ltac:(done)) as (r1 & g1 & p & E3 & (Hr1 & HI1 & (w & Ew & Rw) & D1 & L1 & T1) & _).
  destruct (resume_called daheads v r1 g1 Hr1 HI1 L1 D1) as (r2 & g2 & u & E4 & Eu & Ru & D2 & N2 & T2); [rewrite T1; cbn [truncation chunked_init last_event andb orb]; by rewrite orb_false_r|].
  exists r1, g1, p, r2, g2. split; [done|]. split; [done|].
  destruct (run_complete (Some []) _ _ extra (chunked_init TCA_DECHUNK_CONTENT false) ltac:(by split_and!) Hc) as (g3 & R3 & S3 & H3).
  assert (X : g3 = core g2 /\ extra = br_bytes r2).
  { apply (taken TCA_DECHUNK_CONTENT false (br_bytes r) (w ++ u) (br_bytes r2)); [by rewrite <- app_assoc, <- Eu|by rewrite (run_app _ _ _ _ _ Rw)| |done|by rewrite Hb].
    destruct D2 as [D2|D2]; [by left|right; unfold halted; by rewrite D2]. }
  destruct X as [-> ->]. cbn [state core] in S3. assert (S : state g2 = CHUNK_READ_DONE) by by destruct (state g2). split; [done|]. split; [exact H3|]. split; [done|]. by rewrite T2, S.
Qed.

(** ** Concrete content *)

Definition block (s : list Z) : IOBufferBlock := mkBlk s 0.
Definition reader (bs : list (list Z)) : list IOBufferBlock * IOBufferReader := (block <$> bs, mkRd (Some 0%nat) 0 INK64_MAX).
Definition always (out : list Z) : bool := true.

(** The encoder pauses at the first bytes and goes on when they have been read; the decoder
    pauses after both chunks. *)
Lemma chunked_roundtrip_witness :
  let steps := [Arrive always READ_READY (chars "hello"); Drained always false; Drained never true] in
  let r := reader [chars "5" ++ crlf ++ chars "hel"; chars "lo" ++ crlf ++ chars "6" ++ crlf ++ chars " world" ++ crlf ++ chars "0" ++ crlf ++ crlf ++ chars "rest"] in
  produce steps [] (chunked_init TCA_CHUNK_CONTENT false) <> None /\
  (state <$> (snd <$> produce (take 2 steps) [] (chunked_init TCA_CHUNK_CONTENT false))) = Some CHUNK_FLOW_CONTROL /\
  exists r1 h1 passed r2 h2, producer_handler_chunked always true READ_READY r (chunked_init TCA_DECHUNK_CONTENT false) = Some (r1, h1, passed) /\ state h1 = CHUNK_FLOW_CONTROL /\
    resume ([always] ++ [never]) true r1 h1 = Some (r2, h2) /\ dechunked_buffer h2 = Some (chars "hello world") /\ br_bytes r2 = chars "rest".
Proof.
  cbv zeta. split; [by vm_compute|]. split; [by vm_compute|].
  destruct (chunked_roundtrip [Arrive always READ_READY (chars "hello"); Drained always false; Drained never true] always EOS (chars " world") always [always] true
    (reader [chars "5" ++ crlf ++ chars "hel"; chars "lo" ++ crlf ++ chars "6" ++ crlf ++ chars " world" ++ crlf ++ chars "0" ++ crlf ++ crlf ++ chars "rest"]) (chars "rest"))
    as (h & E & _ & G); [by repeat constructor|done|].
  destruct G as (r1 & h1 & p & r2 & h2 & E1 & E2 & _ & B & F & _); [split; cbn; [done|lia|split; done|lia]|vm_compute in E; injection E as <-; by vm_compute|].
  exists r1, h1, p, r2, h2. split; [exact E1|]. split; [vm_compute in E1; by injection E1 as _ <- _|]. split; [exact E2|]. by split.
Defined.

Definition first_piece : list Z := chars "5" ++ crlf ++ chars "hel".
Definition good_rest : list Z := chars "lo" ++ crlf ++ chars "0" ++ crlf ++ chars "x: y" ++ crlf ++ crlf.
Definition bad_rest : list Z := chars "lo" ++ crlf ++ chars "zz" ++ crlf.

Lemma sample_chunks : chunks (chars "5" ++ crlf ++ chars "hello" ++ crlf) (chars "hello").
Proof. exact (chunks_snoc [] [] (sprintf_x 5 ++ crlf) 5 (chars "hello") [13] chunks_nil (sprintf_size_line 5 ltac:(lia)) ltac:(lia) eq_refl ltac:(by repeat constructor)). Qed.

Lemma sample_chunked : chunked (first_piece ++ good_rest) (chars "hello").
Proof.
  apply (chunked_intro (chars "5" ++ crlf ++ chars "hello" ++ crlf) (chars "hello") (sprintf_x 0 ++ crlf) [chars "x: y" ++ [13]] [13]); [apply sample_chunks|by apply sprintf_size_line| |by right].
  constructor; [|done]. by split; [repeat constructor|].
Qed.

Lemma sample_malformed : malformed (first_piece ++ chars "lo" ++ crlf ++ chars "z").
Proof. apply (malformed_intro (chars "5" ++ crlf ++ chars "hello" ++ crlf) (chars "hello") [] 122); [apply sample_chunks|done|done|by left]. Qed.

(** After a first piece of a chunk, the rest of the content and the end of the stream: as it
    should be, and with a size that is none. *)
Lemma chunked_truncation_witness : exists r h passed,
  producer_handler_chunked never true READ_READY (reader [first_piece]) (chunked_init TCA_DECHUNK_CONTENT false) = Some (r, h, passed) /\
  let ends rest r2 h2 passed := producer_handler_chunked never true EOS (block <$> [first_piece; rest], r.2) h = Some (r2, h2, passed) in
  (exists r2 h2 passed, ends (good_rest ++ chars "more") r2 h2 passed /\ truncation h2 = false /\ br_bytes r2 = chars "more" /\ dechunked_buffer h2 = Some (chars "hello")) /\
  (exists r2 h2 passed, ends bad_rest r2 h2 passed /\ truncation h2 = true /\ passed = EOS).
Proof.
  destruct (producer_handler_chunked never true READ_READY (reader [first_piece]) (chunked_init TCA_DECHUNK_CONTENT false)) as [[[r h] p]|] eqn:E; [|vm_compute in E; discriminate E].
  exists r, h, p. split; [reflexivity|]. intros ends.
  assert (O : br_ok (reader [first_piece])) by (split; cbn; [done|lia|done|lia]).
  assert (D : decodes TCA_DECHUNK_CONTENT false (br_bytes (reader [first_piece]) ++ []) r h).
  { apply (decodes_call TCA_DECHUNK_CONTENT false (br_bytes (reader [first_piece])) (reader [first_piece]) (chunked_init TCA_DECHUNK_CONTENT false) [] true (reader [first_piece]) READ_READY r h p);
      [by constructor|done|by rewrite app_nil_r|exact (by_event _ _ _ _ _ _ _ never E)]. }
  rewrite app_nil_r in D. change (br_bytes (reader [first_piece])) with first_piece in D.
  vm_compute in E. injection E as <- <- <-. split.
  - destruct (producer_handler_chunked never true EOS (block <$> [first_piece; good_rest ++ chars "more"], mkRd (Some 0%nat) 6 INK64_MAX) (mkCH CHUNK_READ_CHUNK 5 2 5 1 (Some (chars "hel")) 3 [] 0 false READ_READY)) as [[[r2 h2] p2]|] eqn:E2; [|vm_compute in E2; discriminate E2].
    exists r2, h2, p2. destruct (chunked_truncation TCA_DECHUNK_CONTENT false ltac:(done) first_piece _ _ (good_rest ++ chars "more") true
      (block <$> [first_piece; good_rest ++ chars "more"], mkRd (Some 0%nat) 6 INK64_MAX) EOS D) as [_ G]; [done|split; cbn; [done|lia|split; done|lia]|by vm_compute|done|].
    destruct (G r2 h2 p2 (by_event _ _ _ _ _ _ _ never E2)) as (_ & G2 & _); [vm_compute in E2; by injection E2 as _ <- _|].
    destruct (G2 (first_piece ++ good_rest) (chars "hello") (chars "more") sample_chunked) as (T & B & H); [by rewrite <- app_assoc|].
    split; [exact E2|]. split; [exact T|]. split; [exact B|exact H].
  - destruct (producer_handler_chunked never true EOS (block <$> [first_piece; bad_rest], mkRd (Some 0%nat) 6 INK64_MAX) (mkCH CHUNK_READ_CHUNK 5 2 5 1 (Some (chars "hel")) 3 [] 0 false READ_READY)) as [[[r2 h2] p2]|] eqn:E2; [|vm_compute in E2; discriminate E2].
    exists r2, h2, p2. destruct (chunked_truncation TCA_DECHUNK_CONTENT false ltac:(done) first_piece _ _ bad_rest true
      (block <$> [first_piece; bad_rest], mkRd (Some 0%nat) 6 INK64_MAX) EOS D) as [_ G]; [done|split; cbn; [done|lia|split; done|lia]|by vm_compute|done|].
    destruct (G r2 h2 p2 (by_event _ _ _ _ _ _ _ never E2)) as (_ & _ & G3); [vm_compute in E2; by injection E2 as _ <- _|].
    destruct (G3 (first_piece ++ chars "lo" ++ crlf ++ chars "z") (chars "z" ++ crlf) sample_malformed) as (T & _ & P); [reflexivity|].
    split; [exact E2|]. split; [exact T|exact P].
Defined.
