(* ===== verification/EventQueue.v ===== *)
(** The queue of timed events of a thread ([iocore/eventsystem]:
    [I_PriorityEventQueue.h], [PQ-List.cc]): ten lists, the one an event is in
    tells how far ahead it is due, and [check_ready] moves events forward as
    time passes.

    An [Event *] is an identifier; [events] holds the objects.  Times are in
    nanoseconds. *)

From S2P Require Import Prelude.

Definition N_PQ_LIST : nat := 10.
Definition HRTIME_MSECONDS (x : Z) : Z := x * 1000000.
Definition HRTIME_DAY : Z := 24 * 60 * 60 * 1000 * 1000000.
Definition HRTIME_YEAR : Z := 365 * HRTIME_DAY + HRTIME_DAY `quot` 4.
Definition HRTIME_FOREVER : Z := 10 * (10 * HRTIME_YEAR).
Definition PQ_BUCKET_TIME (i : nat) : Z := Z.shiftl (HRTIME_MSECONDS 5) (Z.of_nat i).

(** The fields of an [Event] the queue uses. *)
Record Event := mkEvent { timeout_at : Z; cancelled : bool; in_the_priority_queue : bool; in_heap : nat }.

Record PriorityEventQueue := mkPQ {
  after : list (list nat);
  last_check_time : Z;
  last_check_buckets : Z;              (* inku32 *)
  events : gmap nat Event
}.

(** [Event]s exist before they are queued: [evs] are those of the program. *)
Definition new_queue (now : Z) (evs : gmap nat Event) : PriorityEventQueue :=
  mkPQ (replicate N_PQ_LIST []) now (u32 (now `quot` PQ_BUCKET_TIME 0)) evs.

Definition set_after (q : PriorityEventQueue) (a : list (list nat)) : PriorityEventQueue :=
  mkPQ a (last_check_time q) (last_check_buckets q) (events q).

Definition set_events (q : PriorityEventQueue) (m : gmap nat Event) : PriorityEventQueue :=
  mkPQ (after q) (last_check_time q) (last_check_buckets q) m.

Definition set_checked (q : PriorityEventQueue) (now buckets : Z) : PriorityEventQueue :=
  mkPQ (after q) now buckets (events q).

Definition in_queue (b : bool) (i : nat) (x : Event) : Event := mkEvent (timeout_at x) (cancelled x) b i.

(** The list an event due in [t] belongs to: the decision tree of [enqueue]. *)
Definition bucket_for (t : Z) : nat :=
  if t <=? PQ_BUCKET_TIME 3 then
    if t <=? PQ_BUCKET_TIME 1 then if t <=? PQ_BUCKET_TIME 0 then 0%nat else 1%nat
    else if t <=? PQ_BUCKET_TIME 2 then 2%nat else 3%nat
  else if t <=? PQ_BUCKET_TIME 7 then
    if t <=? PQ_BUCKET_TIME 5 then if t <=? PQ_BUCKET_TIME 4 then 4%nat else 5%nat
    else if t <=? PQ_BUCKET_TIME 6 then 6%nat else 7%nat
  else if t <=? PQ_BUCKET_TIME 8 then 8%nat else 9%nat.

(** The loop it replaces, kept in the source as [#if 0]. *)
Fixpoint bucket_loop (fuel : nat) (t : Z) (i : nat) : nat :=
  match fuel with
  | O => i
  | S f => if (t >? PQ_BUCKET_TIME i) && (i <? N_PQ_LIST - 1)%nat then bucket_loop f t (S i) else i
  end.

Definition enqueue (e : nat) (now : Z) (q : PriorityEventQueue) : PriorityEventQueue :=
  match events q !! e with
  | None => q
  | Some x =>
    let i := bucket_for (timeout_at x - now) in
    set_events (set_after q (alter (fun l => l ++ [e]) i (after q))) (<[e := in_queue true i x]> (events q))
  end.

Definition remove (e : nat) (q : PriorityEventQueue) : PriorityEventQueue :=
  match events q !! e with
  | None => q
  | Some x =>
    set_events (set_after q (alter (filter (fun y => y <> e)) (in_heap x) (after q))) (<[e := in_queue false (in_heap x) x]> (events q))
  end.

Definition dequeue_ready (q : PriorityEventQueue) : PriorityEventQueue * option nat :=
  match after q !!! 0%nat with
  | [] => (q, None)
  | e :: l =>
    (set_events (set_after q (<[0%nat := l]> (after q))) (alter (fun x => in_queue false (in_heap x) x) e (events q)), Some e)
  end.

(** [while (todo_buckets) { k++; todo_buckets >>= 1; }] *)
Fixpoint bit_count (fuel : nat) (todo : Z) : nat :=
  match fuel with
  | O => 0%nat
  | S f => if todo =? 0 then 0%nat else S (bit_count f (Z.shiftr todo 1))
  end.

(** [for (j = i; j > 0 && tt <= PQ_BUCKET_TIME(j - 1);) j--;] *)
Fixpoint move_down (j : nat) (tt : Z) : nat :=
  match j with
  | O => 0%nat
  | S j' => if tt <=? PQ_BUCKET_TIME j' then move_down j' tt else j
  end.

(** One event taken from list [i]; a cancelled one is freed. *)
Definition recheck (now : Z) (i : nat) (q : PriorityEventQueue) (e : nat) : PriorityEventQueue :=
  match events q !! e with
  | None => q
  | Some x =>
    if cancelled x then set_events q (delete e (events q))
    else
      let j := move_down i (timeout_at x - now) in
      set_events (set_after q (alter (fun l => l ++ [e]) j (after q)))
                 (<[e := mkEvent (timeout_at x) (cancelled x) (in_the_priority_queue x) j]> (events q))
  end.

Definition recheck_list (now : Z) (q : PriorityEventQueue) (i : nat) : PriorityEventQueue :=
  foldl (recheck now i) (set_after q (<[i := []]> (after q))) (after q !!! i).

Definition check_ready (now : Z) (q : PriorityEventQueue) : PriorityEventQueue :=
  let check_buckets := u32 (now `quot` PQ_BUCKET_TIME 0) in
  let todo := Z.land (Z.lxor check_buckets (last_check_buckets q)) (Z.shiftl 1 (Z.of_nat N_PQ_LIST - 1) - 1) in
  let k := bit_count 32 todo in
  foldl (recheck_list now) (set_checked q now check_buckets) (seq 1 k).

(** The loop of [EThread::execute] over the ready events, without the handlers
    it calls: the events in the order it gets them. *)
Fixpoint drain (fuel : nat) (q : PriorityEventQueue) : list nat :=
  match fuel with
  | O => []
  | S f => match dequeue_ready q with (q', Some e) => e :: drain f q' | (_, None) => [] end
  end.

Fixpoint earliest_go (ls : list (list nat)) (i : nat) (last : Z) : Z :=
  match ls with
  | [] => last + HRTIME_FOREVER
  | [] :: ls' => earliest_go ls' (S i) last
  | _ => last + PQ_BUCKET_TIME i `quot` 2
  end.

Definition earliest_timeout (q : PriorityEventQueue) : Z := earliest_go (after q) 0 (last_check_time q).

(** ** Arithmetic of the lists *)

Lemma PQ_BUCKET_TIME_pow i : PQ_BUCKET_TIME i = 5000000 * 2 ^ Z.of_nat i.
Proof. unfold PQ_BUCKET_TIME, HRTIME_MSECONDS. rewrite Z.shiftl_mul_pow2 by lia. done. Qed.

Lemma PQ_BUCKET_TIME_pos i : 0 < PQ_BUCKET_TIME i.
Proof. rewrite PQ_BUCKET_TIME_pow. pose proof (Z.pow_pos_nonneg 2 (Z.of_nat i)). lia. Qed.

Lemma move_down_spec i tt : (move_down i tt <= i)%nat /\
  (forall j, move_down i tt = S j -> PQ_BUCKET_TIME j < tt) /\ (move_down i tt = 0%nat -> (0 < i)%nat -> tt <= PQ_BUCKET_TIME 0).
Proof.
  induction i as [|i (IH1 & IH2 & IH3)]; cbn [move_down]; [split_and!; [lia|done|lia]|].
  destruct (Z.leb_spec tt (PQ_BUCKET_TIME i)).
  - split_and!; [lia|done|]. intros E _. destruct i as [|i]; [done|]. apply IH3; [done|lia].
  - split_and!; [lia| |done]. intros j [= <-]. done.
Qed.

Lemma bucket_for_spec t : (bucket_for t < N_PQ_LIST)%nat /\ (forall j, bucket_for t = S j -> PQ_BUCKET_TIME j < t).
Proof.
  unfold bucket_for, N_PQ_LIST.
  repeat match goal with |- context [t <=? ?x] => destruct (Z.leb_spec t x) end; (split; [lia|]).
  all: intros j E; try discriminate E.
  all: injection E as <-; done.
Qed.

Lemma bucket_for_zero t : bucket_for t = 0%nat -> t <= PQ_BUCKET_TIME 0.
Proof.
  unfold bucket_for. repeat match goal with |- context [t <=? ?x] => destruct (Z.leb_spec t x) end; done.
Qed.

Lemma bit_count_spec fuel t : 0 <= t < 2 ^ Z.of_nat fuel -> t < 2 ^ Z.of_nat (bit_count fuel t) /\
  forall n, t < 2 ^ Z.of_nat n -> (bit_count fuel t <= n)%nat.
Proof.
  revert t. induction fuel as [|fuel IH]; intros t Ht; cbn [bit_count]; [split; [tauto|lia]|].
  destruct (Z.eqb_spec t 0) as [->|Hne]; [split; [by cbn|lia]|].
  rewrite Nat2Z.inj_succ, Z.pow_succ_r in Ht by lia. rewrite Z.shiftr_div_pow2 by lia. change (2 ^ 1) with 2.
  destruct (IH (t / 2)) as [H1 H2].
  { split; [apply Z.div_pos; lia|apply Z.div_lt_upper_bound; lia]. }
  pose proof (Z.div_mod t 2 ltac:(lia)). pose proof (Z.mod_pos_bound t 2 ltac:(lia)). split.
  - rewrite Nat2Z.inj_succ, Z.pow_succ_r by lia. lia.
  - intros [|n] Hn; [cbn in Hn; lia|]. rewrite Nat2Z.inj_succ, Z.pow_succ_r in Hn by lia.
    specialize (H2 n ltac:(lia)). lia.
Qed.

(** The part of the bits from [d] on that two nearby counts have in common. *)
Lemma same_cell x y d : 0 <= x <= y -> y <= x + 256 -> 0 <= d <= 8 ->
  Z.land (Z.lxor (y mod 2 ^ 32) (x mod 2 ^ 32)) 511 < 2 ^ d -> x / 2 ^ d = y / 2 ^ d.
Proof.
  intros Hxy Hle Hd Hlt. set (v := Z.land _ _) in *.
  assert (Hv0 : 0 <= v) by (apply Z.land_nonneg; right; lia).
  assert (Hbits : (x mod 512) / 2 ^ d = (y mod 512) / 2 ^ d).
  { rewrite <- !Z.shiftr_div_pow2 by lia. apply Z.bits_inj'. intros n Hn. rewrite !Z.shiftr_spec by lia.
    change 512 with (2 ^ 9). destruct (decide (n + d < 9)) as [Hlow|Hhigh]; [|by rewrite !Z.mod_pow2_bits_high by lia].
    rewrite !Z.mod_pow2_bits_low by lia. assert (Hb : Z.testbit v (n + d) = false).
    { destruct (decide (v = 0)) as [->|]; [apply Z.bits_0|]. apply Z.bits_above_log2; [done|].
      assert (Z.log2 v < d) by (apply Z.log2_lt_pow2; lia). lia. }
    unfold v in Hb. rewrite Z.land_spec, Z.lxor_spec, !Z.mod_pow2_bits_low in Hb by lia.
    change 511 with (Z.ones 9) in Hb. rewrite Z.ones_spec_low, andb_true_r in Hb by lia.
    by destruct (Z.testbit x (n + d)), (Z.testbit y (n + d)). }
  assert (Hp : 0 < 2 ^ d <= 256) by (split; [apply Z.pow_pos_nonneg; lia|change 256 with (2 ^ 8); apply Z.pow_le_mono_r; lia]).
  pose proof (Z.div_mod x 512 ltac:(lia)) as Ex. pose proof (Z.div_mod y 512 ltac:(lia)) as Ey.
  pose proof (Z.mod_pos_bound x 512 ltac:(lia)) as Hx. pose proof (Z.mod_pos_bound y 512 ltac:(lia)) as Hy.
  pose proof (Z.div_mod (x mod 512) (2 ^ d) ltac:(lia)) as Ex'. pose proof (Z.div_mod (y mod 512) (2 ^ d) ltac:(lia)) as Ey'.
  pose proof (Z.mod_pos_bound (x mod 512) (2 ^ d) ltac:(lia)) as Hx'. pose proof (Z.mod_pos_bound (y mod 512) (2 ^ d) ltac:(lia)) as Hy'.
  assert (Eq : x / 512 = y / 512) by (rewrite Hbits in Ex'; lia).
  assert (E512 : 512 = 2 ^ (9 - d) * 2 ^ d) by (rewrite <- Z.pow_add_r by lia; replace (9 - d + d) with 9 by lia; done).
  assert (E512' : forall q, 512 * q = 2 ^ (9 - d) * q * 2 ^ d) by (intros q; rewrite E512; ring).
  rewrite Ex, Ey, Eq, E512', !Z.div_add_l by lia. lia.
Qed.

(** * The queue of timed events: its lists agree with the flags of the events,
    no event is ready later than the check that follows its time, and none is
    ready more than the width of the first list (5 ms) early. *)

(** ** Lists and events agree *)

Definition queued (q : PriorityEventQueue) (e : nat) (x : Event) : Prop := events q !! e = Some x /\ in_the_priority_queue x = true.

(** List [i] holds exactly the queued events whose [in_heap] is [i], each once. *)
Record pq_wf (q : PriorityEventQueue) : Prop := {
  wf_len : length (after q) = N_PQ_LIST;
  wf_nodup : forall i l, after q !! i = Some l -> NoDup l;
  wf_in : forall i l e, after q !! i = Some l -> e ∈ l -> exists x, queued q e x /\ in_heap x = i;
  wf_out : forall e x, queued q e x -> exists l, after q !! in_heap x = Some l /\ e ∈ l }.

(** An uncancelled event waiting in list [S j] is due after the end of the
    interval of length [PQ_BUCKET_TIME j] that contains [L]. *)
Definition cell_end (L : Z) (j : nat) : Z := (L / PQ_BUCKET_TIME j + 1) * PQ_BUCKET_TIME j.

Lemma cell_end_bounds L j : L < cell_end L j <= L + PQ_BUCKET_TIME j.
Proof.
  unfold cell_end. pose proof (PQ_BUCKET_TIME_pos j).
  pose proof (Z.div_mod L (PQ_BUCKET_TIME j) ltac:(lia)). pose proof (Z.mod_pos_bound L (PQ_BUCKET_TIME j) ltac:(lia)). lia.
Qed.

Lemma cell_end_mono L L' j : L <= L' -> cell_end L j <= cell_end L' j.
Proof.
  intros H. unfold cell_end. pose proof (PQ_BUCKET_TIME_pos j) as Hp.
  apply Z.mul_le_mono_nonneg_r; [lia|]. apply (Z.div_le_mono _ _ _ Hp) in H. lia.
Qed.

(** [cell_end] for a list depends only on the bits of the bucket count that
    [check_ready] compares. *)
Lemma cell_end_bucket L j : 0 <= L -> cell_end L j = (L / PQ_BUCKET_TIME 0 / 2 ^ Z.of_nat j + 1) * PQ_BUCKET_TIME j.
Proof.
  intros HL. unfold cell_end. rewrite !PQ_BUCKET_TIME_pow. change (2 ^ Z.of_nat 0) with 1.
  rewrite Z.div_div; [|lia|apply Z.pow_pos_nonneg; lia]. by replace (5000000 * 1) with 5000000 by lia.
Qed.

Record pq_times (now : Z) (q : PriorityEventQueue) : Prop := {
  pt_last : 0 <= last_check_time q <= now;
  pt_buckets : last_check_buckets q = u32 (last_check_time q / PQ_BUCKET_TIME 0);
  pt_late : forall e x j, queued q e x -> cancelled x = false -> in_heap x = S j -> cell_end (last_check_time q) j < timeout_at x;
  pt_early : forall e x, queued q e x -> cancelled x = false -> in_heap x = 0%nat -> timeout_at x <= now + PQ_BUCKET_TIME 0 }.

(** ** What rechecking a list does *)

Definition rechecked (now : Z) (i : nat) (x : Event) : option Event :=
  if cancelled x then None
  else Some (mkEvent (timeout_at x) (cancelled x) (in_the_priority_queue x) (move_down i (timeout_at x - now))).

Definition goes (now : Z) (i j : nat) (m : gmap nat Event) (e : nat) : Prop :=
  match m !! e ≫= rechecked now i with Some x => in_heap x = j | None => False end.

#[export] Instance goes_dec now i j m e : Decision (goes now i j m e).
Proof. unfold goes. destruct (_ ≫= _); apply _. Defined.

Lemma recheck_events now i q e y :
  events (recheck now i q e) !! y = if decide (y = e) then events q !! e ≫= rechecked now i else events q !! y.
Proof.
  unfold recheck, rechecked. destruct (events q !! e) as [x|] eqn:Ex; cbn.
  - destruct (cancelled x) eqn:Ec; cbn; destruct (decide (y = e)) as [->|]; rewrite ?lookup_delete_eq, ?lookup_insert_eq; try done.
    + by rewrite lookup_delete_ne.
    + by rewrite lookup_insert_ne.
  - by destruct (decide (y = e)) as [->|].
Qed.

Lemma goes_spec now i j m e :
  goes now i j m e <-> exists x, m !! e = Some x /\ cancelled x = false /\ move_down i (timeout_at x - now) = j.
Proof.
  unfold goes, rechecked. destruct (m !! e) as [x|]; cbn; [|split; [done|intros (? & ? & _); done]].
  destruct (cancelled x) eqn:Ec; cbn.
  - split; [done|]. intros (y & [= <-] & ? & _). congruence.
  - split; [intros <-; eauto|]. by intros (y & [= <-] & _ & ?).
Qed.

Lemma recheck_after now i q e j :
  after (recheck now i q e) !! j = (fun l => l ++ filter (goes now i j (events q)) [e]) <$> after q !! j.
Proof.
  assert (Hno : ~ goes now i j (events q) e -> forall o : option (list nat),
    o = (fun l => l ++ filter (goes now i j (events q)) [e]) <$> o).
  { intros Hg [l|]; [|done]. cbn [fmap option_fmap option_map]. by rewrite filter_cons_False, filter_nil, app_nil_r. }
  pose proof (goes_spec now i j (events q) e) as Hg. unfold recheck. destruct (events q !! e) as [x|]; [|apply Hno; rewrite Hg; intros (? & ? & _); done].
  destruct (cancelled x) eqn:Ec; [apply Hno; rewrite Hg; intros (? & [= <-] & ? & _); congruence|]. cbn [set_events set_after after].
  destruct (decide (move_down i (timeout_at x - now) = j)) as [<-|Hne].
  - rewrite list_lookup_alter_eq, filter_cons_True by (apply Hg; eauto). done.
  - rewrite list_lookup_alter_ne by done. apply Hno. rewrite Hg. intros (? & [= <-] & _ & ?). done.
Qed.

Lemma recheck_fold now i l q : NoDup l ->
  let q' := foldl (recheck now i) q l in
  (forall y, events q' !! y = if decide (y ∈ l) then events q !! y ≫= rechecked now i else events q !! y) /\
  (forall j, after q' !! j = (fun k => k ++ filter (goes now i j (events q)) l) <$> after q !! j) /\
  last_check_time q' = last_check_time q /\ last_check_buckets q' = last_check_buckets q.
Proof.
  revert q. induction l as [|e l IH]; intros q Hnd; cbn zeta.
  - split_and!; [|intros j; cbn; destruct (after q !! j); cbn; by rewrite ?app_nil_r|done..].
    intros y. by rewrite decide_False by apply not_elem_of_nil.
  - apply NoDup_cons in Hnd as [Hne Hnd]. cbn [foldl]. destruct (IH (recheck now i q e) Hnd) as (H1 & H2 & H3 & H4).
    split_and!.
    + intros y. rewrite H1, recheck_events. destruct (decide (y = e)) as [->|Hye].
      * by rewrite decide_False, decide_True by (done || by left).
      * destruct (decide (y ∈ l)); [by rewrite decide_True by by right|].
        by rewrite decide_False by (rewrite elem_of_cons; naive_solver).
    + intros j. rewrite H2, recheck_after. destruct (after q !! j) as [k|]; cbn [fmap option_fmap option_map]; [|done]. f_equal.
      rewrite <- app_assoc. f_equal. change (e :: l) with ([e] ++ l). rewrite filter_app. f_equal.
      apply filter_ext_in. intros y Hy. unfold goes. rewrite recheck_events, decide_False by (intros ->; done). done.
    + rewrite H3. unfold recheck. repeat (case_match; try done).
    + rewrite H4. unfold recheck. repeat (case_match; try done).
Qed.

Lemma recheck_fold_length now i l q : length (after (foldl (recheck now i) q l)) = length (after q).
Proof.
  revert q. induction l as [|e l IH]; intros q; [done|]. cbn [foldl]. rewrite IH. unfold recheck.
  destruct (events q !! e) as [x|]; [|done]. destruct (cancelled x); [done|]. cbn. by rewrite length_alter.
Qed.

Section recheck_list.
Context (now : Z) (q : PriorityEventQueue) (i : nat).
Context (Hwf : pq_wf q) (Hi : (i < N_PQ_LIST)%nat).
Let q' := recheck_list now q i.

Lemma list_lookup_i : after q !! i = Some (after q !!! i).
Proof. apply list_lookup_lookup_total_lt. by rewrite (wf_len q Hwf). Qed.

Lemma in_list_i e : e ∈ after q !!! i <-> exists x, queued q e x /\ in_heap x = i.
Proof.
  split; [apply (wf_in q Hwf), list_lookup_i|]. intros (x & Hx & <-).
  destruct (wf_out q Hwf e x Hx) as (l & Hl & He). by rewrite (list_lookup_total_correct _ _ _ Hl).
Qed.

Lemma recheck_list_fold :
  (forall y, events q' !! y = if decide (y ∈ after q !!! i) then events q !! y ≫= rechecked now i else events q !! y) /\
  (forall j, after q' !! j = (fun k => (if decide (j = i) then [] else k) ++ filter (goes now i j (events q)) (after q !!! i)) <$> after q !! j) /\
  last_check_time q' = last_check_time q /\ last_check_buckets q' = last_check_buckets q.
Proof.
  unfold q', recheck_list. pose proof list_lookup_i as Hl.
  destruct (recheck_fold now i (after q !!! i) (set_after q (<[i := []]> (after q))) (wf_nodup q Hwf i _ Hl)) as (H1 & H2 & H3 & H4).
  split_and!; [exact H1| |exact H3|exact H4]. intros j. rewrite H2. cbn [set_after after events].
  destruct (decide (j = i)) as [->|Hne]; [|by rewrite list_lookup_insert_ne].
  rewrite list_lookup_insert_eq by (rewrite (wf_len q Hwf); done). by rewrite Hl.
Qed.

(** An event queued afterwards was queued before, with the same time: it is
    in the same list, or it was in list [i] and moved down. *)
Lemma recheck_list_queued e x' : queued q' e x' <->
  exists x, queued q e x /\ ((in_heap x <> i /\ x' = x) \/ (in_heap x = i /\ rechecked now i x = Some x')).
Proof.
  destruct recheck_list_fold as (H1 & _). unfold queued at 1. rewrite H1. pose proof (in_list_i e) as Hin.
  destruct (decide (e ∈ after q !!! i)) as [He|He].
  - apply Hin in He as (x & [Hx Hq] & Hh). rewrite Hx. cbn. split.
    + intros [Hr _]. exists x. split; [done|]. by right.
    + intros (y & [Hy _] & [[? ->]|[_ Hr]]); rewrite Hx in Hy; simplify_eq; split; [done|].
      unfold rechecked in Hr. destruct (cancelled y); simplify_eq. done.
  - split; [intros H; exists x'; split; [done|]|].
    + left. split; [|done]. intros Hh. apply He, Hin. by exists x'.
    + intros (y & Hy & [[_ ->]|[Hh _]]); [done|]. destruct He. apply Hin. by exists y.
Qed.

Lemma recheck_list_wf : pq_wf q'.
Proof.
  destruct recheck_list_fold as (H1 & H2 & _). pose proof list_lookup_i as Hl. split.
  - unfold q', recheck_list. rewrite recheck_fold_length. cbn. rewrite length_insert. apply (wf_len q Hwf).
  - intros j l Hj. rewrite H2 in Hj. apply fmap_Some in Hj as (k & Hk & ->).
    pose proof (wf_nodup q Hwf _ _ Hk) as Hnk. pose proof (NoDup_filter (goes now i j (events q)) _ (wf_nodup q Hwf _ _ Hl)) as Hnf.
    apply NoDup_app. destruct (decide (j = i)) as [->|Hne]; [split_and!; [constructor|intros y Hy; by apply not_elem_of_nil in Hy|done]|].
    split_and!; [done| |done]. intros y Hy. rewrite list_elem_of_filter. intros [_ Hyi]. apply in_list_i in Hyi as (x & [Hx _] & Hh).
    destruct (wf_in q Hwf j k y Hk Hy) as (z & [Hz _] & Hhz). rewrite Hx in Hz. by simplify_eq.
  - intros j l e Hj He. rewrite H2 in Hj. apply fmap_Some in Hj as (k & Hk & ->).
    apply elem_of_app in He as [He|He].
    + destruct (decide (j = i)) as [->|Hne]; [by apply not_elem_of_nil in He|].
      destruct (wf_in q Hwf j k e Hk He) as (x & Hx & Hh). exists x. split; [|done].
      apply recheck_list_queued. exists x. split; [done|]. left. split; [lia|done].
    + apply list_elem_of_filter in He as [Hg He]. apply in_list_i in He as (x & [Hx Hq] & Hh).
      unfold goes in Hg. rewrite Hx in Hg. cbn in Hg. destruct (rechecked now i x) as [x'|] eqn:Er; [|done].
      exists x'. split; [|done]. apply recheck_list_queued. exists x. split; [done|]. by right.
  - intros e x' Hq'. apply recheck_list_queued in Hq' as (x & Hx & Hcase). destruct Hcase as [[Hne ->]|[Hh Hr]].
    + destruct (wf_out q Hwf e x Hx) as (l & Hl' & He). rewrite H2, Hl'. cbn. eexists; split; [done|].
      rewrite decide_False by done. apply elem_of_app. by left.
    + assert (Hle : (in_heap x' <= i)%nat).
      { unfold rechecked in Hr. destruct (cancelled x); simplify_eq. cbn. apply move_down_spec. }
      destruct (lookup_lt_is_Some_2 (after q) (in_heap x')) as [k Hk]; [rewrite (wf_len q Hwf); lia|].
      rewrite H2, Hk. cbn. eexists; split; [done|]. apply elem_of_app. right. apply list_elem_of_filter.
      split; [unfold goes; destruct Hx as [-> _]; cbn; by rewrite Hr|]. apply in_list_i. by exists x.
Qed.
End recheck_list.

(** An event that is queued, not cancelled, and due at [t]. *)
Definition waiting (q : PriorityEventQueue) (e : nat) (t : Z) : Prop :=
  exists x, queued q e x /\ cancelled x = false /\ timeout_at x = t.

Lemma recheck_list_waiting now q i e t : pq_wf q -> (i < N_PQ_LIST)%nat ->
  waiting (recheck_list now q i) e t <-> waiting q e t.
Proof.
  intros Hwf Hi. unfold waiting. split.
  - intros (x' & Hx' & Hc & Ht). apply recheck_list_queued in Hx' as (x & Hx & [[_ ->]|[_ Hr]]); [eauto| |done..].
    unfold rechecked in Hr. destruct (cancelled x) eqn:Ec; simplify_eq. eauto.
  - intros (x & Hx & Hc & Ht). destruct (decide (in_heap x = i)) as [Hh|Hh].
    + exists (mkEvent (timeout_at x) (cancelled x) (in_the_priority_queue x) (move_down i (timeout_at x - now))).
      split; [|done]. apply recheck_list_queued; [done..|]. exists x. split; [done|]. right. unfold rechecked. by rewrite Hc.
    + exists x. split; [|done]. apply recheck_list_queued; [done..|]. eauto 6.
Qed.

(** ** [check_ready] *)

(** The state in the loop of [check_ready], lists up to [i] rechecked at [now]
    and the others as they were at the check at [L]. *)
Record checking (L now : Z) (i : nat) (q : PriorityEventQueue) : Prop := {
  ck_wf : pq_wf q;
  ck_time : last_check_time q = now;
  ck_buckets : last_check_buckets q = u32 (now / PQ_BUCKET_TIME 0);
  ck_late : forall e x j, queued q e x -> cancelled x = false -> in_heap x = S j ->
    cell_end (if (S j <=? i)%nat then now else L) j < timeout_at x;
  ck_early : forall e x, queued q e x -> cancelled x = false -> in_heap x = 0%nat -> timeout_at x <= now + PQ_BUCKET_TIME 0 }.

Lemma checking_step L now i q : (S i < N_PQ_LIST)%nat -> L <= now -> checking L now i q -> checking L now (S i) (recheck_list now q (S i)).
Proof.
  intros Hi HL [Hwf Ht Hb Hl He]. destruct (recheck_list_fold now q (S i) Hwf Hi) as (_ & _ & H3 & H4).
  pose proof (move_down_spec (S i)) as Hmd. split; [by apply recheck_list_wf|congruence..| |].
  - intros e x' j Hq Hc Hh. apply recheck_list_queued in Hq as (x & Hx & [[Hne ->]|[Hhx Hr]]); [| |done..].
    + specialize (Hl e x j Hx Hc Hh). destruct (Nat.leb_spec (S j) (S i)), (Nat.leb_spec (S j) i); done || lia.
    + unfold rechecked in Hr. destruct (cancelled x); [done|apply (inj Some) in Hr as <-]. cbn [cancelled in_heap timeout_at] in *. destruct (Hmd (timeout_at x - now)) as (Hle & Hgt & _).
      specialize (Hgt j Hh). rewrite Hh in Hle. destruct (Nat.leb_spec (S j) (S i)); [|lia]. pose proof (cell_end_bounds now j). lia.
  - intros e x' Hq Hc Hh. apply recheck_list_queued in Hq as (x & Hx & [[Hne ->]|[Hhx Hr]]); [by eapply He| |done..].
    unfold rechecked in Hr. destruct (cancelled x); [done|apply (inj Some) in Hr as <-]. cbn [cancelled in_heap timeout_at] in *. destruct (Hmd (timeout_at x - now)) as (_ & _ & H0).
    specialize (H0 Hh ltac:(lia)). lia.
Qed.

Lemma checking_loop L now k q : (k < N_PQ_LIST)%nat -> L <= now -> checking L now 0 q ->
  let q' := foldl (recheck_list now) q (seq 1 k) in
  checking L now k q' /\ (forall e t, waiting q' e t <-> waiting q e t) /\ dom (events q') ⊆ dom (events q).
Proof.
  induction k as [|k IH]; intros Hk HL H0; cbn zeta; [done|].
  destruct (IH ltac:(lia) HL H0) as (H1 & H2 & H3). rewrite seq_S, foldl_app. cbn [foldl Nat.add].
  split_and!; [by apply checking_step| |].
  - intros e t. rewrite <- H2. apply recheck_list_waiting; [apply H1|done].
  - etrans; [|exact H3]. destruct (recheck_list_fold now _ (S k) (ck_wf _ _ _ _ H1) Hk) as (He & _).
    intros y. rewrite !elem_of_dom, He. case_decide; [|done]. intros [x Hx]. apply bind_Some in Hx as (z & Hz & _). by exists z.
Qed.

Definition MAX_CHECK_GAP : Z := 256 * PQ_BUCKET_TIME 0.

(** The number of lists [check_ready] rechecks. *)
Definition check_count (now : Z) (q : PriorityEventQueue) : nat :=
  bit_count 32 (Z.land (Z.lxor (u32 (now `quot` PQ_BUCKET_TIME 0)) (last_check_buckets q)) (Z.shiftl 1 (Z.of_nat N_PQ_LIST - 1) - 1)).

Lemma check_count_spec now q (todo := Z.land (Z.lxor (u32 (now `quot` PQ_BUCKET_TIME 0)) (last_check_buckets q)) 511) :
  (check_count now q < N_PQ_LIST)%nat /\ todo < 2 ^ Z.of_nat (check_count now q).
Proof.
  assert (Ht : 0 <= todo < 512).
  { unfold todo. change 511 with (Z.ones 9). rewrite Z.land_ones by lia. apply Z.mod_pos_bound. lia. }
  unfold check_count. change (Z.shiftl 1 (Z.of_nat N_PQ_LIST - 1) - 1) with 511. fold todo.
  clearbody todo. destruct (bit_count_spec 32 todo) as [H1 H2]; [change (2 ^ Z.of_nat 32) with 4294967296; lia|]. split; [|done].
  specialize (H2 9%nat). change (2 ^ Z.of_nat 9) with 512 in H2. unfold N_PQ_LIST. lia.
Qed.

(** Lists that are not rechecked are those whose interval has not ended. *)
Lemma check_count_cell now q j : 0 <= last_check_time q -> last_check_buckets q = u32 (last_check_time q / PQ_BUCKET_TIME 0) ->
  last_check_time q <= now <= last_check_time q + MAX_CHECK_GAP -> (check_count now q <= j)%nat -> (S j < N_PQ_LIST)%nat ->
  cell_end (last_check_time q) j = cell_end now j.
Proof.
  intros H0 Hb Hnow Hk Hj. rewrite !cell_end_bucket by lia. destruct (check_count_spec now q) as [_ Ht].
  rewrite Hb in Ht. rewrite Z.quot_div_nonneg in Ht by (pose proof (PQ_BUCKET_TIME_pos 0); lia).
  unfold wrapu in Ht. pose proof (PQ_BUCKET_TIME_pos 0) as Hp.
  rewrite (same_cell (last_check_time q / PQ_BUCKET_TIME 0) (now / PQ_BUCKET_TIME 0) (Z.of_nat j)); [done|..].
  - split; [apply Z.div_pos; lia|apply Z.div_le_mono; lia].
  - rewrite <- Z.div_add by lia. apply Z.div_le_mono; [done|]. unfold MAX_CHECK_GAP in Hnow. lia.
  - unfold N_PQ_LIST in Hj. lia.
  - eapply Z.lt_le_trans; [exact Ht|]. apply Z.pow_le_mono_r; lia.
Qed.

Lemma check_ready_spec now q : pq_wf q -> pq_times now q -> now <= last_check_time q + MAX_CHECK_GAP ->
  let q' := check_ready now q in
  pq_wf q' /\ pq_times now q' /\ last_check_time q' = now /\ (forall e t, waiting q' e t <-> waiting q e t) /\ dom (events q') ⊆ dom (events q).
Proof.
  intros Hwf [HL Hb Hlate Hearly] Hgap. cbn zeta. unfold check_ready. fold (check_count now q).
  destruct (check_count_spec now q) as [Hk _]. pose proof (PQ_BUCKET_TIME_pos 0) as Hp.
  set (q0 := set_checked q now _).
  assert (H0 : checking (last_check_time q) now 0 q0).
  { split; [by destruct Hwf; split|done| |intros e x j Hq Hc Hh; by apply (Hlate e)|done].
    cbn. by rewrite Z.quot_div_nonneg by lia. }
  destruct (checking_loop _ _ _ _ Hk (proj2 HL) H0) as (H1 & H2 & H3).
  destruct H1 as [Hw Ht Hbk Hl He]. split_and!; [done| |done|done|done]. split; [lia| | |].
  - by rewrite Ht.
  - intros e x j Hq Hc Hh. rewrite Ht. specialize (Hl e x j Hq Hc Hh). destruct (Nat.leb_spec (S j) (check_count now q)); [done|].
    rewrite <- (check_count_cell now q); [done|lia|done|lia|lia|].
    destruct (wf_out _ Hw e x Hq) as (l & Hl' & _). apply lookup_lt_Some in Hl'. rewrite (wf_len _ Hw) in Hl'. lia.
  - done.
Qed.

(** ** The other operations *)

Lemma pq_wf_iff q : pq_wf q <-> length (after q) = N_PQ_LIST /\ (forall e x, queued q e x -> (in_heap x < N_PQ_LIST)%nat) /\
  (forall i l, after q !! i = Some l -> NoDup l /\ forall e, e ∈ l <-> exists x, queued q e x /\ in_heap x = i).
Proof.
  split.
  - intros H. split_and!; [apply H| |].
    + intros e x Hx. destruct (wf_out q H e x Hx) as (l & Hl & _). apply lookup_lt_Some in Hl. by rewrite <- (wf_len q H).
    + intros i l Hl. split; [by eapply wf_nodup|]. intros e. split; [by apply (wf_in q H)|].
      intros (x & Hx & <-). destruct (wf_out q H e x Hx) as (l' & Hl' & He). congruence.
  - intros (H1 & H2 & H3). split; [done|intros; by eapply H3| |].
    + intros i l e Hl. by apply (H3 i l Hl).
    + intros e x Hx. destruct (lookup_lt_is_Some_2 (after q) (in_heap x)) as [l Hl]; [rewrite H1; by eapply H2|].
      exists l. split; [done|]. apply (H3 _ _ Hl). eauto.
Qed.

(** Changes to events that leave each event in its list, or out of the queue. *)
Lemma pq_wf_frame q m : pq_wf q ->
  (forall e i, (exists x, m !! e = Some x /\ in_the_priority_queue x = true /\ in_heap x = i) <-> (exists x, queued q e x /\ in_heap x = i)) ->
  pq_wf (set_events q m).
Proof.
  rewrite !pq_wf_iff. intros (H1 & H2 & H3) Hm. split_and!; [done| |].
  - intros e x [Hx Hq]. destruct (proj1 (Hm e (in_heap x))) as (y & Hy & <-); [eauto|]. by eapply H2.
  - intros i l Hl. destruct (H3 i l Hl) as [Hn Hi]. split; [done|]. intros e. rewrite Hi, <- Hm. unfold queued. cbn. naive_solver.
Qed.

Lemma enqueue_wf e now q x : pq_wf q -> events q !! e = Some x -> in_the_priority_queue x = false -> pq_wf (enqueue e now q).
Proof.
  rewrite !pq_wf_iff. intros (H1 & H2 & H3) Hx Hq. unfold enqueue. rewrite Hx.
  pose proof (proj1 (bucket_for_spec (timeout_at x - now))) as Hb. set (i := bucket_for _) in *. split_and!.
  - cbn. by rewrite length_alter.
  - intros y z [Hz Hqz]. cbn in Hz. apply lookup_insert_Some in Hz as [[_ <-]|[_ Hz]]; [done|]. by eapply H2.
  - intros j l Hl. cbn in Hl. assert (Hnot : forall j l, after q !! j = Some l -> e ∉ l).
    { intros j' l' Hl' He. apply (H3 _ _ Hl') in He as (z & [Hz Hqz] & _). rewrite Hx in Hz. congruence. }
    assert (Hins : forall y, y <> e -> (exists z, queued q y z /\ in_heap z = j) <->
      (exists z, queued (set_events (set_after q (alter (fun l => l ++ [e]) i (after q))) (<[e := in_queue true i x]> (events q))) y z /\ in_heap z = j)).
    { intros y Hy. unfold queued. cbn. by rewrite lookup_insert_ne. }
    destruct (decide (j = i)) as [->|Hne].
    + rewrite list_lookup_alter_eq in Hl. apply fmap_Some in Hl as (k & Hk & ->). destruct (H3 _ _ Hk) as [Hn Hi]. split.
      * apply NoDup_app. split_and!; [done| |apply NoDup_singleton]. intros y Hy ->%list_elem_of_singleton. by eapply Hnot.
      * intros y. rewrite elem_of_app, list_elem_of_singleton. destruct (decide (y = e)) as [->|Hy].
        -- split; [intros _|by right]. exists (in_queue true i x). unfold queued. cbn. by rewrite lookup_insert_eq.
        -- rewrite <- Hins, <- Hi by done. naive_solver.
    + rewrite list_lookup_alter_ne in Hl by done. destruct (H3 _ _ Hl) as [Hn Hi]. split; [done|]. intros y.
      destruct (decide (y = e)) as [->|Hy]; [|by rewrite <- Hins, <- Hi by done].
      split; [intros He; by destruct (Hnot _ _ Hl)|]. intros (z & [Hz _] & Hh). cbn in Hz. rewrite lookup_insert_eq in Hz.
      injection Hz as <-. by cbn in Hh.
Qed.

(** Taking [e] out: its list loses it and its flag is cleared. *)
Lemma unqueue_wf q e x : pq_wf q -> queued q e x ->
  pq_wf (set_events (set_after q (alter (filter (fun y => y <> e)) (in_heap x) (after q))) (<[e := in_queue false (in_heap x) x]> (events q))).
Proof.
  rewrite !pq_wf_iff. intros (H1 & H2 & H3) [Hx Hq]. split_and!.
  - cbn. by rewrite length_alter.
  - intros y z [Hz Hqz]. cbn in Hz. apply lookup_insert_Some in Hz as [[_ <-]|[_ Hz]]; [done|]. by eapply H2.
  - intros j l Hl. cbn in Hl. set (q' := set_events _ _).
    assert (Hins : forall y, (exists z, queued q' y z /\ in_heap z = j) <-> y <> e /\ exists z, queued q y z /\ in_heap z = j).
    { intros y. unfold queued. cbn. destruct (decide (y = e)) as [->|]; [|rewrite lookup_insert_ne by done; naive_solver].
      rewrite lookup_insert_eq. split; [intros (z & [[= <-] ?] & _); done|tauto]. }
    destruct (decide (j = in_heap x)) as [->|Hne].
    + rewrite list_lookup_alter_eq in Hl. apply fmap_Some in Hl as (k & Hk & ->). destruct (H3 _ _ Hk) as [Hn Hi].
      split; [by apply NoDup_filter|]. intros y. by rewrite list_elem_of_filter, Hins, Hi.
    + rewrite list_lookup_alter_ne in Hl by done. destruct (H3 _ _ Hl) as [Hn Hi]. split; [done|]. intros y.
      rewrite Hins, <- Hi. split; [|tauto]. intros Hy. split; [|done]. intros ->.
      apply Hi in Hy as (z & [Hz _] & Hh). rewrite Hx in Hz. congruence.
Qed.

Lemma remove_wf e q x : pq_wf q -> queued q e x -> pq_wf (remove e q).
Proof. intros Hwf Hx. unfold remove. destruct (Hx) as [-> _]. by apply unqueue_wf. Qed.

(** Dequeuing is removing the first ready event. *)
Lemma dequeue_ready_remove q q' e : pq_wf q -> dequeue_ready q = (q', Some e) ->
  exists x l, queued q e x /\ in_heap x = 0%nat /\ after q !! 0%nat = Some (e :: l) /\ q' = remove e q.
Proof.
  intros Hwf Hd. unfold dequeue_ready in Hd. assert (Hlt : (0 < N_PQ_LIST)%nat) by (unfold N_PQ_LIST; lia).
  pose proof (list_lookup_i q 0 Hwf Hlt) as Hl. destruct (after q !!! 0%nat) as [|a l] eqn:Ea; [done|]. injection Hd as <- <-.
  destruct (wf_in q Hwf 0%nat _ a Hl ltac:(by left)) as (x & Hx & Hh). exists x, l. split_and!; [done..|].
  unfold remove. destruct Hx as [Hxe Hq]. rewrite Hxe, Hh. f_equal; [f_equal|].
  - apply list_eq. intros [|j].
    + rewrite list_lookup_alter_eq, list_lookup_insert_eq, Hl by (rewrite (wf_len q Hwf); done). cbn [fmap option_fmap option_map]. f_equal.
      pose proof (wf_nodup q Hwf _ _ Hl) as [Hn _]%NoDup_cons. rewrite filter_cons_False by tauto. symmetry. apply filter_id_in.
      by intros y Hy ->.
    + by rewrite list_lookup_alter_ne, list_lookup_insert_ne.
  - rewrite <- Hh. apply map_eq. intros y. destruct (decide (y = a)) as [->|].
    + by rewrite lookup_alter_eq, lookup_insert_eq, Hxe.
    + by rewrite lookup_alter_ne, lookup_insert_ne.
Qed.

(** An event queued after a step was queued before it in the same list, or is
    put in the list of its distance from the clock. *)
Lemma pq_times_frame now now' q q' : pq_times now q -> now <= now' ->
  last_check_time q' = last_check_time q -> last_check_buckets q' = last_check_buckets q ->
  (forall e x', queued q' e x' -> cancelled x' = false ->
    (exists x, queued q e x /\ cancelled x = false /\ timeout_at x' = timeout_at x /\ in_heap x' = in_heap x) \/
    in_heap x' = bucket_for (timeout_at x' - now')) ->
  pq_times now' q'.
Proof.
  intros [HL Hb Hl He] Hnow E1 E2 H. split; rewrite ?E1, ?E2; [lia|done| |].
  - intros e x' j Hq Hc Hh. destruct (H e x' Hq Hc) as [(x & Hx & Hcx & -> & Ex)|Hn]; [rewrite Ex in Hh; by eapply Hl|].
    rewrite Hn in Hh. apply bucket_for_spec in Hh. pose proof (cell_end_bounds (last_check_time q) j). lia.
  - intros e x' Hq Hc Hh. destruct (H e x' Hq Hc) as [(x & Hx & Hcx & -> & Ex)|Hn].
    + rewrite Ex in Hh. specialize (He e x Hx Hcx Hh). lia.
    + rewrite Hn in Hh. apply bucket_for_zero in Hh. lia.
Qed.

(** ** Runs of a thread *)

(** What a thread does with its queue, at the time of its clock: time passes;
    an event out of the queue is allocated, initialised or rescheduled, or
    freed; an event is cancelled; the queue's operations.  When the thread is [timely],
    [check_ready] is called at most [MAX_CHECK_GAP] (1.28 s) after the previous time. *)
Inductive pq_step (timely : bool) : Z * PriorityEventQueue -> Z * PriorityEventQueue -> Prop :=
  | step_tick now now' q : now <= now' -> pq_step timely (now, q) (now', q)
  | step_set now q e x : (forall y, ~ queued q e y) -> in_the_priority_queue x = false ->
      pq_step timely (now, q) (now, set_events q (<[e := x]> (events q)))
  | step_free now q e : (forall y, ~ queued q e y) -> pq_step timely (now, q) (now, set_events q (delete e (events q)))
  | step_cancel now q e x : events q !! e = Some x ->
      pq_step timely (now, q) (now, set_events q (<[e := mkEvent (timeout_at x) true (in_the_priority_queue x) (in_heap x)]> (events q)))
  | step_enqueue now q e x : events q !! e = Some x -> in_the_priority_queue x = false -> pq_step timely (now, q) (now, enqueue e now q)
  | step_remove now q e x : queued q e x -> pq_step timely (now, q) (now, remove e q)
  | step_dequeue now q : pq_step timely (now, q) (now, (dequeue_ready q).1)
  | step_check now q : (timely = true -> now <= last_check_time q + MAX_CHECK_GAP) -> pq_step timely (now, q) (now, check_ready now q).

Definition pq_inv (s : Z * PriorityEventQueue) : Prop := pq_wf s.2 /\ pq_times s.1 s.2.

Lemma new_queue_inv now evs : 0 <= now -> (forall e x, evs !! e = Some x -> in_the_priority_queue x = false) ->
  pq_inv (now, new_queue now evs).
Proof.
  intros Hnow Hevs. assert (Hno : forall e x, ~ queued (new_queue now evs) e x) by (intros e x [Hx Hq]; apply Hevs in Hx; congruence).
  split.
  - apply pq_wf_iff. split_and!; [done|intros e x Hx; by apply Hno in Hx|]. intros i l Hl.
    apply (lookup_replicate N_PQ_LIST []) in Hl as [-> _]. split; [constructor|]. intros e. split; [by intros ?%not_elem_of_nil|].
    intros (x & Hx & _). by apply Hno in Hx.
  - split; [done| |intros e x j Hx; by apply Hno in Hx|intros e x Hx; by apply Hno in Hx].
    cbn. rewrite Z.quot_div_nonneg; [done|done|apply PQ_BUCKET_TIME_pos].
Qed.

Lemma queued_unqueue q e x y z : queued (set_events (set_after q (alter (filter (fun y => y <> e)) (in_heap x) (after q))) (<[e := in_queue false (in_heap x) x]> (events q))) y z ->
  queued q y z.
Proof. intros [Hz Hq]. cbn in Hz. apply lookup_insert_Some in Hz as [[_ <-]|[_ Hz]]; done. Qed.

Lemma remove_inv now q e x : pq_inv (now, q) -> queued q e x -> pq_inv (now, remove e q).
Proof.
  intros [Hwf Ht] Hx. cbn in *. split; [by eapply remove_wf|]. unfold remove. destruct (Hx) as [-> _].
  apply (pq_times_frame now now q); [done..|]. intros y z Hz%queued_unqueue Hc. left. eauto.
Qed.

Lemma set_wf q e x : pq_wf q -> (forall y, ~ queued q e y) -> in_the_priority_queue x = false -> pq_wf (set_events q (<[e := x]> (events q))).
Proof.
  intros Hwf H Hx. apply pq_wf_frame; [done|]. intros y i. destruct (decide (y = e)) as [->|].
  - rewrite lookup_insert_eq. split; [intros (z & [= <-] & ? & _); congruence|]. intros (z & Hz & _). destruct (H z Hz).
  - rewrite lookup_insert_ne by done. unfold queued. naive_solver.
Qed.

Lemma free_wf q e : pq_wf q -> (forall y, ~ queued q e y) -> pq_wf (set_events q (delete e (events q))).
Proof.
  intros Hwf H. apply pq_wf_frame; [done|]. intros y i. destruct (decide (y = e)) as [->|].
  - rewrite lookup_delete_eq. split; [intros (z & ? & _); done|]. intros (z & Hz & _). destruct (H z Hz).
  - rewrite lookup_delete_ne by done. unfold queued. naive_solver.
Qed.

Lemma cancel_wf q e x : pq_wf q -> events q !! e = Some x -> pq_wf (set_events q (<[e := mkEvent (timeout_at x) true (in_the_priority_queue x) (in_heap x)]> (events q))).
Proof.
  intros Hwf H. apply pq_wf_frame; [done|]. intros y i. destruct (decide (y = e)) as [->|].
  - rewrite lookup_insert_eq. unfold queued. rewrite H. naive_solver.
  - rewrite lookup_insert_ne by done. unfold queued. naive_solver.
Qed.

Lemma pq_step_inv s s' : pq_step true s s' -> pq_inv s -> pq_inv s'.
Proof.
  intros Hst Hinv. destruct (Hinv) as [Hwf Ht]. destruct Hst; cbn in *.
  - split; [done|]. apply (pq_times_frame now now' q); [done..|]. intros e x Hx Hc. left. eauto.
  - split; cbn.
    + by apply set_wf.
    + apply (pq_times_frame now now q); [done..|]. intros y z [Hz Hq] Hc. cbn in Hz. left.
      apply lookup_insert_Some in Hz as [[_ <-]|[_ Hz]]; [congruence|]. exists z. done.
  - split; cbn.
    + by apply free_wf.
    + apply (pq_times_frame now now q); [done..|]. intros y z [Hz Hq] Hc. cbn in Hz. left.
      apply lookup_delete_Some in Hz as [_ Hz]. exists z. done.
  - split; cbn.
    + by apply cancel_wf.
    + apply (pq_times_frame now now q); [done..|]. intros y z [Hz Hq] Hc. cbn in Hz. left.
      apply lookup_insert_Some in Hz as [[_ <-]|[_ Hz]]; [done|]. exists z. done.
  - split; cbn; [by eapply enqueue_wf|]. unfold enqueue. rewrite H. apply (pq_times_frame now now q); [done..|].
    intros y z [Hz Hq] Hc. cbn in Hz. apply lookup_insert_Some in Hz as [[_ <-]|[_ Hz]]; [by right|]. left. by exists z.
  - by eapply remove_inv.
  - destruct (dequeue_ready q) as [q' [e|]] eqn:Ed.
    + destruct (dequeue_ready_remove q q' e Hwf Ed) as (x & l & Hx & _ & _ & ->). by eapply remove_inv.
    + unfold dequeue_ready in Ed. destruct (after q !!! 0%nat); by simplify_eq/=.
  - destruct (check_ready_spec now q Hwf Ht (H eq_refl)) as (H1 & H2 & _). done.
Qed.

Lemma pq_run_inv s s' : rtc (pq_step true) s s' -> pq_inv s -> pq_inv s'.
Proof. induction 1 as [|s1 s2 s3 Hst _ IH]; [done|]. intros H. apply IH. by eapply pq_step_inv. Qed.

(** However late [check_ready] is called, the lists stay as they should be. *)
Lemma check_ready_wf now q : pq_wf q -> pq_wf (check_ready now q).
Proof.
  intros Hwf. unfold check_ready. fold (check_count now q). destruct (check_count_spec now q) as [Hk _]. set (q0 := set_checked q now _).
  assert (H0 : pq_wf q0) by (by destruct Hwf; split). clearbody q0. clear Hwf. induction (check_count now q) as [|k IH]; [done|]. rewrite seq_S, foldl_app. cbn [foldl Nat.add]. apply recheck_list_wf; [apply IH; lia|done].
Qed.

Lemma pq_step_wf timely s s' : pq_step timely s s' -> pq_wf s.2 -> pq_wf s'.2.
Proof.
  intros Hst Hwf. destruct Hst; cbn in *.
  - done.
  - by apply set_wf.
  - by apply free_wf.
  - by apply cancel_wf.
  - by eapply enqueue_wf.
  - by eapply remove_wf.
  - destruct (dequeue_ready q) as [q' [e|]] eqn:Ed.
    + destruct (dequeue_ready_remove q q' e Hwf Ed) as (x & l & Hx & _ & _ & ->). by eapply remove_wf.
    + unfold dequeue_ready in Ed. destruct (after q !!! 0%nat); by simplify_eq/=.
  - by apply check_ready_wf.
Qed.

Lemma pq_run_wf timely s s' : rtc (pq_step timely) s s' -> pq_wf s.2 -> pq_wf s'.2.
Proof. induction 1 as [|s1 s2 s3 Hst _ IH]; [done|]. intros H. apply IH. by eapply pq_step_wf. Qed.

Lemma drain_ready q n l : after q !! 0%nat = Some l -> (length l <= n)%nat -> drain n q = l.
Proof.
  revert q l. induction n as [|n IH]; intros q l Hl Hn; [by destruct l; cbn in Hn; [|lia]|].
  cbn [drain]. unfold dequeue_ready. rewrite (list_lookup_total_correct _ _ _ Hl). destruct l as [|e l]; [done|].
  f_equal. apply IH; [|cbn in Hn; lia]. cbn. apply list_lookup_insert_eq. by eapply lookup_lt_Some.
Qed.

(** ** Theorems *)

(** C33: in every state a thread can reach with its queue, however late it checks it, list
    [i] holds each event that has [in_the_priority_queue] set and [in_heap] equal to [i], no
    other and none twice, and every event that has the flag set is in a list. *)
Theorem pq_lists_agree now0 evs now q i : 0 <= now0 -> (forall e x, evs !! e = Some x -> in_the_priority_queue x = false) ->
  rtc (pq_step false) (now0, new_queue now0 evs) (now, q) -> (i < N_PQ_LIST)%nat ->
  NoDup (after q !!! i) /\
  (forall e, e ∈ after q !!! i <-> exists x, events q !! e = Some x /\ in_the_priority_queue x = true /\ in_heap x = i) /\
  (forall e x, events q !! e = Some x -> in_the_priority_queue x = true -> (in_heap x < N_PQ_LIST)%nat).
Proof.
  intros H0 He Hrun Hi. destruct (new_queue_inv now0 evs H0 He) as [W _]. pose proof (pq_run_wf _ _ _ Hrun W) as Hwf. cbn in Hwf.
  pose proof (list_lookup_i q i Hwf Hi) as Hl. split; [by eapply wf_nodup|]. split.
  - intros e. rewrite (in_list_i now q i Hwf Hi). unfold queued. naive_solver.
  - intros e x Hx Hq. apply pq_wf_iff in Hwf as (_ & Hb & _). by apply (Hb e).
Qed.

Section runs.
Context (now0 : Z) (evs : gmap nat Event).
Context (Hnow0 : 0 <= now0) (Hevs : forall e x, evs !! e = Some x -> in_the_priority_queue x = false).
Context (now : Z) (q : PriorityEventQueue) (Hrun : rtc (pq_step true) (now0, new_queue now0 evs) (now, q)).

Lemma reachable_inv : pq_wf q /\ pq_times now q.
Proof. apply (pq_run_inv _ _ Hrun). by apply new_queue_inv. Qed.

(** C31: as long as a thread checks its queue in time, which is when every [check_ready],
    from the first to this one, comes within 256 times 5 ms of the one before it (the first
    of the creation of the queue), an event that waits in the queue uncancelled and whose
    time has come is handed out by the loop that follows this [check_ready].  After one late
    check events may be overdue even if the next is in time ([overdue_after_gap]). *)
Theorem event_delivered e t : waiting q e t -> t <= now -> now <= last_check_time q + 256 * PQ_BUCKET_TIME 0 ->
  let q' := check_ready now q in e ∈ drain (length (after q' !!! 0%nat)) q'.
Proof.
  intros Hw Ht Hgap. destruct reachable_inv as [Hwf Hti].
  destruct (check_ready_spec now q Hwf Hti Hgap) as (Hwf' & Hti' & Hlast & Hwait & _).
  apply Hwait in Hw as (x & Hx & Hc & Hxt). destruct (wf_out _ Hwf' e x Hx) as (l & Hl & He).
  assert (H0 : in_heap x = 0%nat).
  { destruct (in_heap x) as [|j] eqn:Eh; [done|]. pose proof (pt_late _ _ Hti' e x j Hx Hc Eh) as Hlate.
    pose proof (cell_end_bounds (last_check_time (check_ready now q)) j). rewrite Hlast in *. lia. }
  rewrite H0 in Hl. cbn zeta. rewrite (list_lookup_total_correct _ _ _ Hl). by rewrite (drain_ready _ _ l).
Qed.

(** an event handed out that was not cancelled is due at most 5 ms after
    the thread's clock: no event fires earlier than that. *)
Theorem event_not_early q' e x : dequeue_ready q = (q', Some e) -> events q !! e = Some x -> cancelled x = false ->
  timeout_at x <= now + HRTIME_MSECONDS 5.
Proof.
  intros Hd Hx Hc. destruct reachable_inv as [Hwf Hti].
  destruct (dequeue_ready_remove q q' e Hwf Hd) as (y & l & Hy & Hh & _). destruct (Hy) as [Hye _].
  rewrite Hx in Hye. simplify_eq. by apply (pt_early _ _ Hti e y).
Qed.

(** [check_ready] neither loses nor duplicates nor revives an event: the
    events that wait uncancelled are the same after it, with the same times,
    and it creates none. *)
Theorem check_ready_keeps : now <= last_check_time q + 256 * PQ_BUCKET_TIME 0 ->
  (forall e t, waiting (check_ready now q) e t <-> waiting q e t) /\
  (forall e, events q !! e = None -> events (check_ready now q) !! e = None) /\
  last_check_time (check_ready now q) = now.
Proof.
  intros Hgap. destruct reachable_inv as [Hwf Hti]. destruct (check_ready_spec now q Hwf Hti Hgap) as (_ & _ & Hlast & Hw & Hd).
  split_and!; [done| |done]. intros e He. apply not_elem_of_dom. apply not_elem_of_dom in He. set_solver.
Qed.
End runs.

(** The tests [enqueue] uses choose the list the loop kept in the source as
    [#if 0] chooses. *)
Theorem bucket_for_loop t : bucket_for t = bucket_loop N_PQ_LIST t 0.
Proof.
  assert (Hm : forall i, PQ_BUCKET_TIME i <= PQ_BUCKET_TIME (S i)).
  { intros i. rewrite !PQ_BUCKET_TIME_pow, Nat2Z.inj_succ, Z.pow_succ_r by lia. pose proof (Z.pow_pos_nonneg 2 (Z.of_nat i)). lia. }
  pose proof (Hm 0%nat). pose proof (Hm 1%nat). pose proof (Hm 2%nat). pose proof (Hm 3%nat). pose proof (Hm 4%nat).
  pose proof (Hm 5%nat). pose proof (Hm 6%nat). pose proof (Hm 7%nat). clear Hm.
  unfold bucket_for, N_PQ_LIST. cbn [bucket_loop Nat.ltb Nat.leb Nat.sub].
  rewrite !Z.gtb_ltb, ?andb_true_r, ?andb_false_r.
  repeat match goal with
  | |- context [PQ_BUCKET_TIME ?i <? t] => destruct (Z.ltb_spec (PQ_BUCKET_TIME i) t)
  | |- context [t <=? PQ_BUCKET_TIME ?i] => destruct (Z.leb_spec t (PQ_BUCKET_TIME i))
  end; try done; lia.
Qed.

(** A thread that has one event, due 1 s from now. *)
Definition sample_queue : PriorityEventQueue := enqueue 1 0 (new_queue 0 {[ 1%nat := mkEvent (HRTIME_MSECONDS 1000) false false 0 ]}).

(** When 512 times 5 ms (2.56 s) pass between two checks, the bits compared
    are equal and [check_ready] moves nothing: an event that was due 1.56 s
    before stays behind. *)
Theorem check_ready_gap : let now := 512 * PQ_BUCKET_TIME 0 in let q' := check_ready now sample_queue in
  waiting q' 1 (HRTIME_MSECONDS 1000) /\ HRTIME_MSECONDS 1000 + HRTIME_MSECONDS 1560 = now /\ drain 1 q' = [].
Proof. split_and!; [|vm_compute; done..]. exists (mkEvent (HRTIME_MSECONDS 1000) false true 8). by vm_compute. Qed.

(** A later check that is in time does not find it either. *)
Theorem overdue_after_gap : let q1 := check_ready (512 * PQ_BUCKET_TIME 0) sample_queue in let now := 513 * PQ_BUCKET_TIME 0 in let q2 := check_ready now q1 in
  now <= last_check_time q1 + PQ_BUCKET_TIME 0 /\ HRTIME_MSECONDS 1000 < now /\ waiting q2 1 (HRTIME_MSECONDS 1000) /\ drain 1 q2 = [].
Proof. split_and!; [by vm_compute|by vm_compute| |by vm_compute]. exists (mkEvent (HRTIME_MSECONDS 1000) false true 8). by vm_compute. Qed.

(** The run behind the witnesses: the event is queued at time 0, checked every
    second, and due at the second check. *)
Lemma sample_run timely : rtc (pq_step timely) (0, new_queue 0 {[ 1%nat := mkEvent (HRTIME_MSECONDS 1000) false false 0 ]}) (HRTIME_MSECONDS 1000, sample_queue).
Proof.
  apply (rtc_l _ _ (0, sample_queue)).
  - unfold sample_queue. eapply step_enqueue; [apply lookup_singleton_eq|done].
  - apply rtc_once, step_tick. by vm_compute.
Qed.

Lemma sample_events e x : ({[ 1%nat := mkEvent (HRTIME_MSECONDS 1000) false false 0 ]} : gmap nat Event) !! e = Some x -> in_the_priority_queue x = false.
Proof. intros [_ <-]%lookup_singleton_Some. done. Qed.

Lemma sample_waiting : waiting sample_queue 1 (HRTIME_MSECONDS 1000).
Proof. exists (mkEvent (HRTIME_MSECONDS 1000) false true 8). by vm_compute. Qed.

(** The event that a late check does not move is in its list all the same, and after a
    check that is not late in another one. *)
Lemma pq_lists_agree_witness : let q1 := check_ready (512 * PQ_BUCKET_TIME 0) sample_queue in let q2 := check_ready (1023 * PQ_BUCKET_TIME 0) q1 in
  1%nat ∈ after q1 !!! 8%nat /\ 1%nat ∉ after q2 !!! 8%nat /\ 1%nat ∈ after q2 !!! 0%nat.
Proof.
  intros q1 q2. assert (R1 : rtc (pq_step false) (0, new_queue 0 {[ 1%nat := mkEvent (HRTIME_MSECONDS 1000) false false 0 ]}) (512 * PQ_BUCKET_TIME 0, q1)).
  { etrans; [apply (sample_run false)|]. apply (rtc_l _ _ (512 * PQ_BUCKET_TIME 0, sample_queue)); [apply step_tick; by vm_compute|]. by apply rtc_once, step_check. }
  assert (R2 : rtc (pq_step false) (0, new_queue 0 {[ 1%nat := mkEvent (HRTIME_MSECONDS 1000) false false 0 ]}) (1023 * PQ_BUCKET_TIME 0, q2)).
  { etrans; [apply R1|]. apply (rtc_l _ _ (1023 * PQ_BUCKET_TIME 0, q1)); [apply step_tick; by vm_compute|]. by apply rtc_once, step_check. }
  destruct (pq_lists_agree 0 _ _ _ 8 ltac:(lia) sample_events R1 ltac:(vm_compute; lia)) as (_ & H1 & _). destruct (pq_lists_agree 0 _ _ _ 8 ltac:(lia) sample_events R2 ltac:(vm_compute; lia)) as (_ & H2 & _).
  destruct (pq_lists_agree 0 _ _ _ 0 ltac:(lia) sample_events R2 ltac:(vm_compute; lia)) as (_ & H3 & _).
  split; [|split].
  - apply H1. exists (mkEvent (HRTIME_MSECONDS 1000) false true 8). by vm_compute.
  - rewrite H2. intros (x & Hx & _ & Hh). vm_compute in Hx. by simplify_eq.
  - apply H3. exists (mkEvent (HRTIME_MSECONDS 1000) false true 0). by vm_compute.
Defined.

Lemma event_delivered_witness : let q' := check_ready (HRTIME_MSECONDS 1000) sample_queue in 1%nat ∈ drain (length (after q' !!! 0%nat)) q'.
Proof.
  apply (event_delivered 0 _ ltac:(lia) sample_events _ _ (sample_run true) 1 (HRTIME_MSECONDS 1000) sample_waiting); by vm_compute.
Defined.

Lemma check_ready_keeps_witness : waiting (check_ready (HRTIME_MSECONDS 1000) sample_queue) 1 (HRTIME_MSECONDS 1000).
Proof.
  apply (check_ready_keeps 0 _ ltac:(lia) sample_events _ _ (sample_run true)); [by vm_compute|exact sample_waiting].
Defined.

Lemma event_not_early_witness : HRTIME_MSECONDS 1000 <= HRTIME_MSECONDS 1000 + HRTIME_MSECONDS 5.
Proof.
  assert (Hrun : rtc (pq_step true) (0, new_queue 0 {[ 1%nat := mkEvent (HRTIME_MSECONDS 1000) false false 0 ]})
    (HRTIME_MSECONDS 1000, check_ready (HRTIME_MSECONDS 1000) sample_queue)).
  { eapply rtc_r; [exact (sample_run true)|]. apply step_check. by vm_compute. }
  by apply (event_not_early 0 _ ltac:(lia) sample_events _ _ Hrun
    (dequeue_ready (check_ready (HRTIME_MSECONDS 1000) sample_queue)).1 1 (mkEvent (HRTIME_MSECONDS 1000) false true 0)); vm_compute.
Defined.
