(* ===== verification/ProtectedQueue.v ===== *)
(** The queue through which threads hand events to each other, and the signals
    that wake a sleeping thread ([iocore/eventsystem]: [ProtectedQueue.cc],
    [P_ProtectedQueue.h], and the part of [EThread::execute] that sleeps).

    A thread is its [id], an event an identifier.  A thread that gives another
    thread its first event does not signal it at once: it notes it in its array
    [ethreads_to_be_signalled], and [flush_signals] signals all of them.  The
    array is a vector while it has room; when the number of threads noted
    reaches the number of threads it becomes a direct map, slot [i] for thread
    [i]. *)

From S2P Require Import Prelude.

Definition MAX_EVENT_THREADS : nat := 200.

(** ** The array of threads to signal *)

Notation sig_array := (list (option nat)).

(** [while (cur) { next = sig_e[cur->id]; if (next == cur) break; ... }] *)
Fixpoint place (fuel : nat) (cur : option nat) (sig_e : sig_array) : sig_array :=
  match fuel, cur with
  | O, _ | _, None => sig_e
  | S f, Some c =>
    let next := sig_e !!! c in
    if decide (next = Some c) then sig_e else place f next (<[c := Some c]> sig_e)
  end.

(** One turn of the loop that makes the vector a direct map. *)
Definition to_direct_slot (sig_e : sig_array) (i : nat) : sig_array :=
  let s := place (S (length sig_e)) (sig_e !!! i) sig_e in
  match s !!! i with
  | Some k => if decide (k = i) then s else <[i := None]> s
  | None => s
  end.

Definition to_direct_map (t : nat) (sig_e : sig_array) : sig_array := foldl to_direct_slot sig_e (seq 0 t).

(** The part of [ProtectedQueue::enqueue] that notes [e_ethread]: [t] is
    [n_ethreads_to_be_signalled], [n] is [eventProcessor.n_ethreads]. *)
Definition note_signal (n e_ethread : nat) (t : nat) (sig_e : sig_array) : nat * sig_array :=
  if (n <=? t + 1)%nat then
    let '(t', s) := if (t + 1 =? n)%nat then (S t, to_direct_map t sig_e) else (t, sig_e) in
    (t', <[e_ethread := Some e_ethread]> s)
  else (S t, <[t := Some e_ethread]> sig_e).

(** ** Threads *)

(** A thread runs, or is in [dequeue_timed] with the lock of its queue held
    and the queue found empty, or waits for a signal. *)
Inductive phase := Running | Checking | Waiting.

#[export] Instance phase_eq_dec : EqDecision phase.
Proof. solve_decision. Defined.

Record EThread := mkEThread {
  al : list nat;                        (* the atomic list, last pushed first *)
  localQueue : list nat;
  n_ethreads_to_be_signalled : nat;
  ethreads_to_be_signalled : sig_array;
  thread_phase : phase
}.

(** All the threads, the flags of the events, and the threads a caller that is
    not an event thread is about to signal. *)
Record Threads := mkThreads {
  all_ethreads : list EThread;
  in_the_prot_queue : gset nat;
  direct_signals : list nat
}.

Definition n_ethreads (s : Threads) : nat := length (all_ethreads s).

Definition new_thread : EThread := mkEThread [] [] 0 (replicate MAX_EVENT_THREADS None) Running.
Definition start (n_event_threads : nat) : Threads := mkThreads (replicate n_event_threads new_thread) ∅ [].

Definition set_queues (t : EThread) (a l : list nat) : EThread :=
  mkEThread a l (n_ethreads_to_be_signalled t) (ethreads_to_be_signalled t) (thread_phase t).
Definition set_signals (t : EThread) (p : nat * sig_array) : EThread := mkEThread (al t) (localQueue t) p.1 p.2 (thread_phase t).
Definition set_phase (t : EThread) (p : phase) : EThread :=
  mkEThread (al t) (localQueue t) (n_ethreads_to_be_signalled t) (ethreads_to_be_signalled t) p.

Definition set_threads (s : Threads) (l : list EThread) : Threads := mkThreads l (in_the_prot_queue s) (direct_signals s).
Definition set_flags (s : Threads) (f : gset nat) : Threads := mkThreads (all_ethreads s) f (direct_signals s).
Definition set_direct (s : Threads) (d : list nat) : Threads := mkThreads (all_ethreads s) (in_the_prot_queue s) d.

(** [ProtectedQueue::enqueue] of event [e] on the queue of thread [b], called
    by thread [inserting_thread], or by a caller that has no array. *)
Definition enqueue (inserting_thread : option nat) (b e : nat) (s : Threads) : Threads :=
  match all_ethreads s !! b with
  | None => s
  | Some tb =>
    let was_empty := bool_decide (al tb = []) in
    let s1 := set_flags (set_threads s (<[b := set_queues tb (e :: al tb) (localQueue tb)]> (all_ethreads s)))
                        ({[e]} ∪ in_the_prot_queue s) in
    if was_empty && negb (bool_decide (inserting_thread = Some b)) then
      match inserting_thread with
      | None => set_direct s1 (b :: direct_signals s1)
      | Some a =>
        set_threads s1 (alter (fun ta => set_signals ta (note_signal (n_ethreads s1) b (n_ethreads_to_be_signalled ta) (ethreads_to_be_signalled ta)))
                              a (all_ethreads s1))
      end
    else s1
  end.

(** [signal]: a waiting thread runs again. *)
Definition wake (t : EThread) : EThread := match thread_phase t with Waiting => set_phase t Running | _ => t end.
Definition signal (b : nat) (s : Threads) : Threads := set_threads s (alter wake b (all_ethreads s)).

(** One turn of the loop of [flush_signals]. *)
Definition flush_slot (a : nat) (s : Threads) (i : nat) : Threads :=
  match all_ethreads s !! a with
  | None => s
  | Some ta =>
    match ethreads_to_be_signalled ta !! i with
    | Some (Some b) =>
      let s1 := signal b s in
      set_threads s1 (alter (fun ta => set_signals ta (n_ethreads_to_be_signalled ta, <[i := None]> (ethreads_to_be_signalled ta))) a (all_ethreads s1))
    | _ => s
    end
  end.

Definition flush_done (a : nat) (s : Threads) : Threads :=
  set_threads s (alter (fun ta => set_signals ta (0%nat, ethreads_to_be_signalled ta)) a (all_ethreads s)).

Definition flush_signals (a : nat) (s : Threads) : Threads :=
  match all_ethreads s !! a with
  | None => s
  | Some ta => flush_done a (foldl (flush_slot a) s (seq 0 (n_ethreads_to_be_signalled ta `min` n_ethreads s)))
  end.

(** The second half of [dequeue_timed]: the atomic list, emptied and inverted,
    goes to the end of the local queue, less the events that were cancelled. *)
Definition popall (cancelled : nat -> bool) (t : EThread) : EThread :=
  set_queues t [] (localQueue t ++ filter (fun e => cancelled e = false) (reverse (al t))).

Definition enqueue_local (a e : nat) (s : Threads) : Threads :=
  set_flags (set_threads s (alter (fun t => set_queues t (al t) (localQueue t ++ [e])) a (all_ethreads s))) ({[e]} ∪ in_the_prot_queue s).

Definition dequeue_local (a : nat) (s : Threads) : Threads * option nat :=
  match localQueue <$> all_ethreads s !! a with
  | Some (e :: l) =>
    (set_flags (set_threads s (alter (fun t => set_queues t (al t) l) a (all_ethreads s))) (in_the_prot_queue s ∖ {[e]}), Some e)
  | _ => (s, None)
  end.

Definition remove (a e : nat) (s : Threads) : Threads :=
  set_flags (set_threads s (alter (fun t =>
    if decide (e ∈ al t) then set_queues t (filter (fun y => y <> e) (al t)) (localQueue t)
    else set_queues t (al t) (filter (fun y => y <> e) (localQueue t))) a (all_ethreads s))) (in_the_prot_queue s ∖ {[e]}).

(** ** Placing threads in the direct map *)

Definition misplaced (s : sig_array) : nat := length (filter (fun j => s !! j <> Some (Some j)) (seq 0 (length s))).

Lemma misplaced_insert s c : (c < length s)%nat -> s !! c <> Some (Some c) -> (misplaced (<[c := Some c]> s) < misplaced s)%nat.
Proof.
  intros Hc Hne. unfold misplaced. rewrite length_insert.
  rewrite (filter_ext_in _ (fun j => j <> c /\ s !! j <> Some (Some j))).
  - rewrite <- list_filter_filter. eapply (length_filter_lt _ _ c); [|tauto].
    apply list_elem_of_filter. split; [done|]. apply elem_of_seq. lia.
  - intros j _. destruct (decide (j = c)) as [->|]; [rewrite list_lookup_insert_eq by done; naive_solver|].
    rewrite list_lookup_insert_ne by done. naive_solver.
Qed.

Lemma misplaced_length s : (misplaced s <= length s)%nat.
Proof. unfold misplaced. etrans; [apply length_filter|]. by rewrite length_seq. Qed.

Lemma elem_insert_some (s : sig_array) c k next : (c < length s)%nat -> s !! c = Some next ->
  (Some k ∈ <[c := Some c]> s \/ next = Some k) <-> (Some k ∈ s \/ c = k).
Proof.
  intros Hc Hn. rewrite !list_elem_of_lookup. split.
  - intros [[j Hj]| ->]; [|left; eauto]. destruct (decide (j = c)) as [->|Hjc].
    + rewrite list_lookup_insert_eq in Hj by done. right. congruence.
    + rewrite list_lookup_insert_ne in Hj by done. left. eauto.
  - intros [[j Hj]|<-]; [|left; exists c; by apply list_lookup_insert_eq].
    destruct (decide (j = c)) as [->|Hjc]; [right; congruence|]. left. exists j. by rewrite list_lookup_insert_ne.
Qed.

Lemma place_spec fuel cur s : (misplaced s < fuel)%nat -> (forall k, Some k ∈ s \/ cur = Some k -> (k < length s)%nat) ->
  let s' := place fuel cur s in
  length s' = length s /\ (forall k, Some k ∈ s' <-> Some k ∈ s \/ cur = Some k) /\
  (forall j, s' !! j = s !! j \/ s' !! j = Some (Some j)) /\ (forall c, cur = Some c -> s' !! c = Some (Some c)).
Proof.
  revert cur s. induction fuel as [|f IH]; intros cur s Hm Hb; [lia|]. cbn [place].
  destruct cur as [c|]; cbn zeta; [|split_and!; naive_solver].
  assert (Hc : (c < length s)%nat) by (apply Hb; by right).
  pose proof (list_lookup_lookup_total_lt s c Hc) as Hl. set (next := s !!! c) in *.
  destruct (decide (next = Some c)) as [Hn|Hn].
  { rewrite Hn in Hl. split_and!; [done| |tauto|by intros ? [= <-]].
    intros k. split; [tauto|]. intros [?|[= <-]]; [done|]. apply list_elem_of_lookup. eauto. }
  pose proof (elem_insert_some s c) as Hel.
  destruct (IH next (<[c := Some c]> s)) as (H1 & H2 & H3 & _).
  - pose proof (misplaced_insert s c Hc). rewrite Hl in *. assert (Some next <> Some (Some c)) by congruence. naive_solver lia.
  - intros k Hk. rewrite length_insert. apply Hb. apply (Hel k next Hc Hl) in Hk as [?| ->]; [by left|by right].
  - rewrite length_insert in H1. split_and!; [done| | |].
    + intros k. rewrite H2, (Hel k next Hc Hl). naive_solver.
    + intros j. destruct (H3 j) as [Hj|Hj]; [|by right]. rewrite Hj. destruct (decide (j = c)) as [->|]; [right; by apply list_lookup_insert_eq|].
      left. by apply list_lookup_insert_ne.
    + intros ? [= <-]. destruct (H3 c) as [Hj|Hj]; [|done]. rewrite Hj. by apply list_lookup_insert_eq.
Qed.

(** * The array of threads to signal never loses a thread, and no thread sleeps
    on a queue that has events unless a thread that runs is about to wake it. *)

Lemma list_lookup_alter_Some {A} (f : A -> A) (l : list A) i j y :
  alter f i l !! j = Some y -> (j = i /\ exists x, l !! i = Some x /\ y = f x) \/ (j <> i /\ l !! j = Some y).
Proof.
  destruct (decide (j = i)) as [->|]; [|rewrite list_lookup_alter_ne by done; by right].
  rewrite list_lookup_alter_eq. intros (x & -> & ->)%fmap_Some. left. eauto.
Qed.

(** ** The array *)

(** Up to slot [i] a direct map, with the threads of [s0]. *)
Record direct_upto (s0 : sig_array) (i : nat) (s : sig_array) : Prop := {
  du_len : length s = length s0;
  du_mem : forall k, Some k ∈ s <-> Some k ∈ s0;
  du_low : forall j k, (j < i)%nat -> s !! j = Some (Some k) -> k = j;
  du_high : forall j, (i <= j)%nat -> s !! j = s0 !! j \/ s !! j = Some (Some j) }.

Lemma to_direct_slot_spec s0 i s : (i < length s0)%nat -> (forall k, Some k ∈ s0 -> (k < length s0)%nat) ->
  direct_upto s0 i s -> direct_upto s0 (S i) (to_direct_slot s i).
Proof.
  intros Hi Hb [Hl Hm Hlow Hhigh]. rewrite <- Hl in Hi. pose proof (list_lookup_lookup_total_lt s i Hi) as Hcur.
  assert (Hcm : forall k, s !!! i = Some k -> Some k ∈ s) by (intros k E; rewrite E in Hcur; apply list_elem_of_lookup; eauto).
  destruct (place_spec (S (length s)) (s !!! i) s) as (H1 & H2 & H3 & H4).
  { pose proof (misplaced_length s). lia. }
  { intros k Hk. rewrite Hl. apply Hb, Hm. destruct Hk; [done|by apply Hcm]. }
  unfold to_direct_slot. set (s' := place _ _ _) in *.
  assert (Hmem : forall k, Some k ∈ s' <-> Some k ∈ s0) by (intros k; rewrite H2, <- Hm; naive_solver).
  assert (Hi' : (i < length s')%nat) by lia. pose proof (list_lookup_lookup_total_lt s' i Hi') as Hs'.
  assert (Hlow' : forall j k, (j < i)%nat -> s' !! j = Some (Some k) -> k = j).
  { intros j k Hj Hk. destruct (H3 j) as [E|E]; rewrite E in Hk; [by eapply Hlow|congruence]. }
  assert (Hhigh' : forall j, (i <= j)%nat -> s' !! j = s0 !! j \/ s' !! j = Some (Some j)).
  { intros j Hj. destruct (H3 j) as [E|E]; [rewrite E; by apply Hhigh|by right]. }
  destruct (s' !!! i) as [k|] eqn:Ek; [destruct (decide (k = i)) as [->|Hki]|].
  - split; [lia|done| |intros j Hj; apply Hhigh'; lia]. intros j k Hj Hk.
    destruct (decide (j = i)) as [->|]; [rewrite Hs' in Hk; congruence|]. apply Hlow'; [lia|done].
  - assert (Hck : s !!! i = Some k) by (destruct (H3 i) as [E|E]; rewrite Hs' in E; [rewrite Hcur in E|]; congruence).
    pose proof (H4 k Hck) as Hkk. split.
    + rewrite length_insert. lia.
    + intros y. rewrite <- Hmem, !list_elem_of_lookup. split; intros [j Hj].
      * destruct (decide (j = i)) as [->|]; [by rewrite list_lookup_insert_eq in Hj by done|].
        rewrite list_lookup_insert_ne in Hj by done. eauto.
      * destruct (decide (j = i)) as [->|]; [|exists j; by rewrite list_lookup_insert_ne].
        rewrite Hs' in Hj. injection Hj as ->. exists y. by rewrite list_lookup_insert_ne.
    + intros j y Hj Hy. destruct (decide (j = i)) as [->|]; [by rewrite list_lookup_insert_eq in Hy by done|].
      rewrite list_lookup_insert_ne in Hy by done. apply Hlow'; [lia|done].
    + intros j Hj. rewrite list_lookup_insert_ne by lia. apply Hhigh'. lia.
  - split; [lia|done| |intros j Hj; apply Hhigh'; lia]. intros j k Hj Hk.
    destruct (decide (j = i)) as [->|]; [rewrite Hs' in Hk; congruence|]. apply Hlow'; [lia|done].
Qed.

Lemma to_direct_map_spec t s : (t <= length s)%nat -> (forall k, Some k ∈ s -> (k < length s)%nat) ->
  direct_upto s t (to_direct_map t s).
Proof.
  intros Ht Hb. unfold to_direct_map. induction t as [|t IH].
  - split; [done|done|lia|]. intros j _. by left.
  - rewrite seq_S, foldl_app. cbn [foldl Nat.add]. apply to_direct_slot_spec; [lia|done|]. apply IH. lia.
Qed.

(** The array of a thread, of [n] threads in all: empty from slot [t] on, and a
    direct map when [t] is [n]. *)
Record sig_wf (n t : nat) (s : sig_array) : Prop := {
  sw_len : length s = MAX_EVENT_THREADS;
  sw_n : (n <= MAX_EVENT_THREADS)%nat;
  sw_t : (t <= n)%nat;
  sw_ids : forall k, Some k ∈ s -> (k < n)%nat;
  sw_free : forall j k, (t <= j)%nat -> s !! j <> Some (Some k);
  sw_direct : t = n -> forall j k, s !! j = Some (Some k) -> k = j }.

Lemma elem_insert_free (s : sig_array) i e k : (i < length s)%nat -> (forall k, s !! i = Some (Some k) -> k = e) ->
  Some k ∈ <[i := Some e]> s <-> Some k ∈ s \/ k = e.
Proof.
  intros Hi Hfree. rewrite !list_elem_of_lookup. split.
  - intros [j Hj]. destruct (decide (j = i)) as [->|]; [rewrite list_lookup_insert_eq in Hj by done; right; congruence|].
    rewrite list_lookup_insert_ne in Hj by done. eauto.
  - intros [[j Hj]| ->]; [|exists i; by apply list_lookup_insert_eq].
    destruct (decide (j = i)) as [->|]; [|exists j; by rewrite list_lookup_insert_ne].
    exists i. rewrite list_lookup_insert_eq by done. by rewrite (Hfree k Hj).
Qed.

Lemma sig_wf_insert_direct n s e : sig_wf n n s -> (e < n)%nat ->
  sig_wf n n (<[e := Some e]> s) /\ forall k, Some k ∈ <[e := Some e]> s <-> Some k ∈ s \/ k = e.
Proof.
  intros [Hl Hn Ht Hids Hfree Hd] He.
  assert (Hmem : forall k, Some k ∈ <[e := Some e]> s <-> Some k ∈ s \/ k = e).
  { intros k. apply elem_insert_free; [lia|]. intros y Hy. by apply (Hd eq_refl). }
  split; [|done]. split; [by rewrite length_insert|done|done| | |].
  - intros k [Hk| ->]%Hmem; [by apply Hids|done].
  - intros j k Hj. rewrite list_lookup_insert_ne by lia. by apply Hfree.
  - intros _ j k Hk. destruct (decide (j = e)) as [->|]; [rewrite list_lookup_insert_eq in Hk by lia; congruence|].
    rewrite list_lookup_insert_ne in Hk by done. by apply (Hd eq_refl).
Qed.

Lemma sig_wf_to_direct n t s : sig_wf n t s -> (t + 1 = n)%nat ->
  sig_wf n n (to_direct_map t s) /\ forall k, Some k ∈ to_direct_map t s <-> Some k ∈ s.
Proof.
  intros [Hl Hn Ht Hids Hfree _] Htn.
  destruct (to_direct_map_spec t s) as [D1 D2 D3 D4]; [lia|intros k Hk%Hids; lia|]. split; [|done].
  assert (Hd : forall j k, to_direct_map t s !! j = Some (Some k) -> k = j).
  { intros j k Hk. destruct (decide (j < t)%nat) as [|Hj]; [by eapply D3|]. destruct (D4 j ltac:(lia)) as [E|E]; [|congruence].
    rewrite E in Hk. by apply Hfree in Hk; [|lia]. }
  split; [lia|done|done| | |done].
  - intros k Hk%D2. by apply Hids.
  - intros j k Hj Hk. pose proof (Hd j k Hk) as ->. assert (Hm : Some j ∈ s) by (apply D2, list_elem_of_lookup; eauto). apply Hids in Hm. lia.
Qed.

Lemma note_signal_spec n e t s : sig_wf n t s -> (e < n)%nat ->
  let p := note_signal n e t s in sig_wf n p.1 p.2 /\ forall k, Some k ∈ p.2 <-> Some k ∈ s \/ k = e.
Proof.
  intros Hwf He. unfold note_signal. destruct (Nat.leb_spec n (t + 1)).
  - destruct (Nat.eqb_spec (t + 1) n) as [Etn|Hne]; cbn.
    + destruct (sig_wf_to_direct n t s Hwf Etn) as [Hw Hm]. replace (S t) with n by lia.
      destruct (sig_wf_insert_direct n _ e Hw He) as [Hw' Hm']. split; [done|]. intros k. by rewrite Hm', Hm.
    + assert (t = n) as -> by (pose proof (sw_t _ _ _ Hwf); lia). by apply sig_wf_insert_direct.
  - cbn. destruct Hwf as [Hl Hn Ht Hids Hfree _]. assert (Htl : (t < length s)%nat) by lia.
    assert (Hmem : forall k, Some k ∈ <[t := Some e]> s <-> Some k ∈ s \/ k = e).
    { intros k. apply elem_insert_free; [done|]. intros y Hy. by apply Hfree in Hy. }
    split; [|done]. split; [by rewrite length_insert|done|lia| | |lia].
    + intros k [Hk| ->]%Hmem; [by apply Hids|done].
    + intros j k Hj. rewrite list_lookup_insert_ne by lia. apply Hfree. lia.
Qed.

Lemma sig_wf_clear n t s i : sig_wf n t s -> sig_wf n t (<[i := None]> s).
Proof.
  intros [Hl Hn Ht Hids Hfree Hd].
  assert (Hsub : forall j k, <[i := None]> s !! j = Some (Some k) -> s !! j = Some (Some k)).
  { intros j k Hk. destruct (decide (j = i)) as [->|]; [|by rewrite list_lookup_insert_ne in Hk].
    apply list_lookup_insert_Some in Hk as [(_ & ? & _)|[? _]]; done. }
  split; [by rewrite length_insert|done|done| | |].
  - intros k [j Hj]%list_elem_of_lookup. apply Hids, list_elem_of_lookup. eauto.
  - intros j k Hj Hk. by eapply Hfree, Hsub.
  - intros E j k Hk. by eapply Hd, Hsub.
Qed.

Lemma sig_wf_zero n s : sig_wf n 0 s -> forall k, Some k ∉ s.
Proof. intros H k [j Hj]%list_elem_of_lookup. by apply (sw_free _ _ _ H j k) in Hj; [|lia]. Qed.

(** ** The protocol of the threads *)

Definition running (s : Threads) (a : nat) : Prop := exists t, all_ethreads s !! a = Some t /\ thread_phase t = Running.
Definition not_checking (s : Threads) (b : nat) : Prop := forall t, all_ethreads s !! b = Some t -> thread_phase t <> Checking.

(** [dequeue_timed] with [sleep] is [st_check], [st_wait] and the end of the
    wait, or nothing when the queue has events, and then [st_popall].  [signal]
    needs the lock that a thread in [Checking] holds.  [EThread::execute]
    flushes the signals it has noted before it sleeps. *)
Inductive thread_step : Threads -> Threads -> Prop :=
  | st_enqueue s ins b e : (b < n_ethreads s)%nat -> (forall a, ins = Some a -> running s a) -> e ∉ in_the_prot_queue s ->
      thread_step s (enqueue ins b e s)
  | st_direct s d1 b d2 : direct_signals s = d1 ++ b :: d2 -> not_checking s b -> thread_step s (signal b (set_direct s (d1 ++ d2)))
  | st_flush_slot s a i : running s a ->
      (forall t b, all_ethreads s !! a = Some t -> ethreads_to_be_signalled t !! i = Some (Some b) -> not_checking s b) ->
      thread_step s (flush_slot a s i)
  | st_flush_done s a t : all_ethreads s !! a = Some t -> thread_phase t = Running ->
      (forall i b, (i < n_ethreads_to_be_signalled t `min` n_ethreads s)%nat -> ethreads_to_be_signalled t !! i <> Some (Some b)) ->
      thread_step s (flush_done a s)
  | st_check s a t : all_ethreads s !! a = Some t -> thread_phase t = Running -> n_ethreads_to_be_signalled t = 0%nat -> al t = [] ->
      thread_step s (set_threads s (alter (fun t => set_phase t Checking) a (all_ethreads s)))
  | st_wait s a t : all_ethreads s !! a = Some t -> thread_phase t = Checking ->
      thread_step s (set_threads s (alter (fun t => set_phase t Waiting) a (all_ethreads s)))
  | st_timeout s a t : all_ethreads s !! a = Some t -> thread_phase t = Waiting -> thread_step s (signal a s)
  | st_popall s a cancelled : running s a -> thread_step s (set_threads s (alter (popall cancelled) a (all_ethreads s)))
  | st_enqueue_local s a e : running s a -> e ∉ in_the_prot_queue s -> thread_step s (enqueue_local a e s)
  | st_dequeue_local s a : running s a -> thread_step s (dequeue_local a s).1
  | st_remove s a e : running s a -> thread_step s (remove a e s).

(** Some thread has [b] in its array. *)
Definition noted (s : Threads) (b : nat) : Prop :=
  exists a ta, all_ethreads s !! a = Some ta /\ Some b ∈ ethreads_to_be_signalled ta.

Record threads_inv (s : Threads) : Prop := {
  ti_sig : forall a t, all_ethreads s !! a = Some t -> sig_wf (n_ethreads s) (n_ethreads_to_be_signalled t) (ethreads_to_be_signalled t);
  ti_idle : forall a t, all_ethreads s !! a = Some t -> thread_phase t <> Running -> n_ethreads_to_be_signalled t = 0%nat;
  ti_wake : forall b t, all_ethreads s !! b = Some t -> thread_phase t <> Running -> al t <> [] -> b ∈ direct_signals s \/ noted s b }.

(** A step of one thread that keeps its array. *)
Lemma threads_inv_alter s a f fl : threads_inv s ->
  (forall t, all_ethreads s !! a = Some t ->
    ethreads_to_be_signalled (f t) = ethreads_to_be_signalled t /\
    sig_wf (n_ethreads s) (n_ethreads_to_be_signalled (f t)) (ethreads_to_be_signalled t) /\
    (thread_phase (f t) <> Running -> n_ethreads_to_be_signalled (f t) = 0%nat /\
       (al (f t) <> [] -> thread_phase t <> Running /\ al t <> []))) ->
  threads_inv (set_flags (set_threads s (alter f a (all_ethreads s))) fl).
Proof.
  intros [H1 H2 H3] Hf. unfold n_ethreads in *.
  assert (Hnoted : forall b, noted s b -> noted (set_flags (set_threads s (alter f a (all_ethreads s))) fl) b).
  { intros b (c & tc & Hc & Hb). destruct (decide (c = a)) as [->|].
    - exists a, (f tc). cbn. rewrite list_lookup_alter_eq, Hc. destruct (Hf tc Hc) as [-> _]. done.
    - exists c, tc. cbn. by rewrite list_lookup_alter_ne. }
  split; unfold n_ethreads; cbn; rewrite ?length_alter; intros c t Hc; apply list_lookup_alter_Some in Hc as [(-> & u & Hu & ->)|[_ Hc]].
  - destruct (Hf u Hu) as (-> & Hw & _). done.
  - by eapply H1.
  - intros Hr. by apply (Hf u Hu).
  - by apply H2 with c.
  - intros Hr Ha. destruct (Hf u Hu) as (_ & _ & Hx). destruct (Hx Hr) as [_ Hy]. destruct (Hy Ha).
    destruct (H3 a u Hu) as [|?%Hnoted]; [done|done|by left|by right].
  - intros Hr Ha. destruct (H3 c t Hc Hr Ha) as [|?%Hnoted]; [by left|by right].
Qed.

(** The same without a change of flags. *)
Lemma threads_inv_alter' s a f : threads_inv s ->
  (forall t, all_ethreads s !! a = Some t ->
    ethreads_to_be_signalled (f t) = ethreads_to_be_signalled t /\
    sig_wf (n_ethreads s) (n_ethreads_to_be_signalled (f t)) (ethreads_to_be_signalled t) /\
    (thread_phase (f t) <> Running -> n_ethreads_to_be_signalled (f t) = 0%nat /\
       (al (f t) <> [] -> thread_phase t <> Running /\ al t <> []))) ->
  threads_inv (set_threads s (alter f a (all_ethreads s))).
Proof. intros Hi Hf. apply (threads_inv_alter s a f (in_the_prot_queue s) Hi Hf). Qed.

Lemma running_phase s a t : running s a -> all_ethreads s !! a = Some t -> thread_phase t = Running.
Proof. intros (u & Hu & Hp) Ht. congruence. Qed.

(** A signalled thread that does not hold its lock runs. *)
Lemma signal_lookup s b c t : all_ethreads (signal b s) !! c = Some t ->
  exists u, all_ethreads s !! c = Some u /\ al t = al u /\ ethreads_to_be_signalled t = ethreads_to_be_signalled u /\
  n_ethreads_to_be_signalled t = n_ethreads_to_be_signalled u /\
  (thread_phase t <> Running -> thread_phase u <> Running) /\ (not_checking s c -> b = c -> thread_phase t = Running).
Proof.
  unfold signal, wake. cbn. intros [(-> & u & Hu & ->)|[Hne Hc]]%list_lookup_alter_Some.
  - exists u. split; [done|]. destruct (thread_phase u) eqn:Ep; cbn; split_and!; try done; intros Hn _; try done. by specialize (Hn u Hu).
  - exists t. split_and!; done || naive_solver.
Qed.

Lemma signal_noted s b c : noted (signal b s) c <-> noted s c.
Proof.
  split.
  - intros (a & ta & Ha & Hc). apply signal_lookup in Ha as (u & Hu & _ & E & _). exists a, u. by rewrite <- E.
  - intros (a & ta & Ha & Hc). destruct (decide (a = b)) as [->|].
    + exists b, (wake ta). cbn. rewrite list_lookup_alter_eq, Ha. split; [done|]. unfold wake. by destruct (thread_phase ta).
    + exists a, ta. cbn. by rewrite list_lookup_alter_ne.
Qed.

Lemma signal_inv s b d : threads_inv s -> not_checking s b -> (forall c, c ∈ direct_signals s -> c <> b -> c ∈ d) ->
  threads_inv (signal b (set_direct s d)).
Proof.
  intros [H1 H2 H3] Hn Hd. assert (Hlen : n_ethreads (signal b (set_direct s d)) = n_ethreads s) by (unfold n_ethreads; cbn; apply length_alter).
  split; rewrite ?Hlen; intros c t Hc; apply signal_lookup in Hc as (u & Hu & Ea & Es & En & Hp & Hb).
  - rewrite En, Es. by eapply H1.
  - rewrite En. eauto.
  - intros Hr Hal. rewrite signal_noted. destruct (decide (b = c)) as [->|Hbc]; [by rewrite Hb in Hr|].
    rewrite Ea in Hal. destruct (H3 c u Hu (Hp Hr) Hal) as [?|?]; [left; cbn; by apply Hd|by right].
Qed.

(** [b] gets an event, and is in [direct_signals] or noted. *)
Lemma push_inv s b tb s' : threads_inv s -> all_ethreads s !! b = Some tb ->
  n_ethreads s' = n_ethreads s ->
  (forall c t, all_ethreads s' !! c = Some t -> exists u, all_ethreads s !! c = Some u /\ thread_phase t = thread_phase u /\
    (al t = al u \/ c = b) /\ sig_wf (n_ethreads s) (n_ethreads_to_be_signalled t) (ethreads_to_be_signalled t) /\
    (thread_phase u <> Running -> n_ethreads_to_be_signalled t = n_ethreads_to_be_signalled u)) ->
  (forall c, c ∈ direct_signals s -> c ∈ direct_signals s') -> (forall c, noted s c -> noted s' c) ->
  b ∈ direct_signals s' \/ noted s' b -> threads_inv s'.
Proof.
  intros [H1 H2 H3] Hb Hn Ht Hd Hnt Hsig. split; rewrite ?Hn; intros c t Hc; apply Ht in Hc as (u & Hu & Ep & Ea & Hw & En).
  - done.
  - rewrite Ep. intros Hr. rewrite En by done. by eapply H2.
  - rewrite Ep. intros Hr Hal. destruct (decide (c = b)) as [->|Hne]; [done|].
    destruct Ea as [Ea|]; [|done]. rewrite Ea in Hal. destruct (H3 c u Hu Hr Hal) as [?|?]; [left; by apply Hd|right; by apply Hnt].
Qed.

Lemma insert_as_alter {A} (l : list A) i x f : l !! i = Some x -> <[i := f x]> l = alter f i l.
Proof.
  intros Hx. apply list_eq. intros j. destruct (decide (j = i)) as [->|].
  - rewrite list_lookup_insert_eq by (by eapply lookup_lt_Some). by rewrite list_lookup_alter_eq, Hx.
  - by rewrite list_lookup_insert_ne, list_lookup_alter_ne.
Qed.

Lemma enqueue_inv s ins b e : threads_inv s -> (b < n_ethreads s)%nat -> (forall a, ins = Some a -> running s a) ->
  threads_inv (enqueue ins b e s).
Proof.
  intros Hinv Hb Hrun. destruct (lookup_lt_is_Some_2 _ _ Hb) as [tb Htb]. unfold enqueue. rewrite Htb.
  set (push := fun t => set_queues t (e :: al t) (localQueue t)). change (set_queues tb _ _) with (push tb).
  rewrite (insert_as_alter _ _ _ push Htb). set (s1 := set_flags _ _).
  assert (Hs1 : forall c t, all_ethreads s1 !! c = Some t -> exists u, all_ethreads s !! c = Some u /\ thread_phase t = thread_phase u /\
    (al t = al u \/ c = b) /\ n_ethreads_to_be_signalled t = n_ethreads_to_be_signalled u /\ ethreads_to_be_signalled t = ethreads_to_be_signalled u).
  { intros c t [(-> & u & Hu & ->)|[_ Hc]]%list_lookup_alter_Some; [exists u|exists t]; split_and!; auto. }
  assert (Hn1 : n_ethreads s1 = n_ethreads s) by apply length_alter.
  destruct (bool_decide (al tb = [])) eqn:Eal; [apply bool_decide_eq_true in Eal|apply bool_decide_eq_false in Eal].
  2:{ cbn. apply threads_inv_alter; [done|]. intros t Ht. rewrite Htb in Ht. injection Ht as <-. split_and!; [done|exact (ti_sig s Hinv b tb Htb)|].
      intros Hr. split; [exact (ti_idle s Hinv b tb Htb Hr)|done]. }
  destruct (bool_decide (ins = Some b)) eqn:Eins; [apply bool_decide_eq_true in Eins|apply bool_decide_eq_false in Eins]; cbn [andb negb].
  { apply threads_inv_alter; [done|]. intros t Ht. rewrite Htb in Ht. injection Ht as <-. split_and!; [done|exact (ti_sig s Hinv b tb Htb)|].
    intros Hr. destruct Hr. exact (running_phase s b tb (Hrun b Eins) Htb). }
  destruct ins as [a|].
  - assert (Hab : a <> b) by congruence. destruct (Hrun a eq_refl) as (ta & Hta & Hpa).
    pose proof (ti_sig s Hinv a ta Hta) as Hwa. rewrite Hn1. destruct (note_signal_spec _ b _ _ Hwa Hb) as [Hw Hm].
    set (s2 := set_threads _ _).
    assert (Ha2 : all_ethreads s2 !! a = Some (set_signals ta (note_signal (n_ethreads s) b (n_ethreads_to_be_signalled ta) (ethreads_to_be_signalled ta)))).
    { cbn. rewrite list_lookup_alter_eq, list_lookup_alter_ne by done. by rewrite Hta. }
    apply (push_inv s b tb s2 Hinv Htb).
    + unfold n_ethreads. cbn. rewrite length_alter. apply length_alter.
    + intros c t Hc. destruct (decide (c = a)) as [->|Hca].
      * rewrite Ha2 in Hc. injection Hc as <-. exists ta. split_and!; [done|done|by left|done|]. by intros [].
      * cbn in Hc. rewrite list_lookup_alter_ne in Hc by done. destruct (Hs1 c t Hc) as (u & Hu & Ep & Ea & En & Es).
        exists u. split_and!; [done|done|done| |done]. rewrite En, Es. by eapply ti_sig.
    + done.
    + intros c (d & td & Hd & Hc). destruct (decide (d = a)) as [->|Hda].
      * eexists a, _. split; [exact Ha2|]. cbn. apply Hm. left. rewrite Hta in Hd. by injection Hd as ->.
      * destruct (decide (d = b)) as [->|Hdb].
        -- exists b, (push td). cbn. rewrite list_lookup_alter_ne, list_lookup_alter_eq, Hd by done. done.
        -- exists d, td. cbn. by rewrite !list_lookup_alter_ne by done.
    + right. eexists a, _. split; [exact Ha2|]. cbn. apply Hm. by right.
  - apply (push_inv s b tb _ Hinv Htb).
    + exact Hn1.
    + intros c t Hc. destruct (Hs1 c t Hc) as (u & Hu & Ep & Ea & En & Es). exists u. rewrite En, Es. split_and!; try done. by eapply ti_sig.
    + intros c Hc. by right.
    + intros c (d & td & Hd & Hc). destruct (decide (d = b)) as [->|Hdb].
      * exists b, (push td). cbn. by rewrite list_lookup_alter_eq, Hd.
      * exists d, td. cbn. by rewrite list_lookup_alter_ne.
    + left. by left.
Qed.

Lemma flush_slot_inv s a i : threads_inv s -> running s a ->
  (forall t b, all_ethreads s !! a = Some t -> ethreads_to_be_signalled t !! i = Some (Some b) -> not_checking s b) ->
  threads_inv (flush_slot a s i).
Proof.
  intros Hinv (ta & Hta & Hpa) Hnc. unfold flush_slot. rewrite Hta.
  destruct (ethreads_to_be_signalled ta !! i) as [[b|]|] eqn:Ei; [|done..].
  set (clear := fun t => set_signals t _). set (s' := set_threads _ _).
  assert (Hs' : forall c t, all_ethreads s' !! c = Some t -> exists u, all_ethreads s !! c = Some u /\ al t = al u /\
    n_ethreads_to_be_signalled t = n_ethreads_to_be_signalled u /\
    ethreads_to_be_signalled t = (if decide (c = a) then <[i := None]> (ethreads_to_be_signalled u) else ethreads_to_be_signalled u) /\
    (thread_phase t <> Running -> thread_phase u <> Running /\ c <> b)).
  { intros c t Hc. apply list_lookup_alter_Some in Hc as [(-> & v & Hv & ->)|[Hca Hv]]; apply signal_lookup in Hv as (u & Hu & Ea & Es & En & Hp & Hb); exists u.
    - rewrite decide_True by done. cbn. rewrite Ea, Es, En. split_and!; try done. intros Hr. split; [by apply Hp|]. intros ->. apply Hr, Hb; [|done].
      exact (Hnc ta _ Hta Ei).
    - rewrite decide_False by done. split_and!; try done. intros Hr. split; [by apply Hp|]. intros ->. apply Hr, Hb; [|done]. exact (Hnc ta _ Hta Ei). }
  assert (Hlen : n_ethreads s' = n_ethreads s) by (unfold n_ethreads; cbn; by rewrite !length_alter).
  split; rewrite ?Hlen; intros c t Hc; destruct (Hs' c t Hc) as (u & Hu & Ea & En & Es & Hp).
  - rewrite En, Es. pose proof (ti_sig s Hinv c u Hu). case_decide; [by apply sig_wf_clear|done].
  - intros Hr. rewrite En. eapply ti_idle; [done..|]. by apply Hp.
  - intros Hr Hal. destruct (Hp Hr) as [Hru Hcb]. rewrite Ea in Hal.
    destruct (ti_wake s Hinv c u Hu Hru Hal) as [?|(d & td & Hd & Hm)]; [by left|right].
    assert (is_Some (all_ethreads s' !! d)) as [td' Hd'].
    { apply lookup_lt_is_Some. apply lookup_lt_Some in Hd. unfold n_ethreads in Hlen. by rewrite Hlen. }
    exists d, td'. split; [done|]. destruct (Hs' d td' Hd') as (v & Hv & _ & _ & Esd & _). rewrite Hd in Hv. injection Hv as <-.
    rewrite Esd. case_decide as Hda; [|done]. subst d. rewrite Hta in Hd. injection Hd as <-.
    apply list_elem_of_lookup in Hm as [j Hj]. apply list_elem_of_lookup. exists j. rewrite list_lookup_insert_ne; [done|]. intros ->. congruence.
Qed.

Lemma thread_step_inv s s' : thread_step s s' -> threads_inv s -> threads_inv s'.
Proof.
  intros Hst Hinv. destruct Hst.
  - by apply enqueue_inv.
  - apply signal_inv; [done|done|]. intros c. rewrite H, !elem_of_app, elem_of_cons. naive_solver.
  - by apply flush_slot_inv.
  - apply threads_inv_alter'; [done|]. intros u Hu. rewrite H in Hu. injection Hu as <-. pose proof (ti_sig s Hinv a t H) as [Hl Hn Ht Hids Hfree Hd].
    split_and!; [done| |]; cbn; [|by intros []]. split; try done; [lia| |].
    + intros j k _. destruct (decide (j < n_ethreads_to_be_signalled t)%nat); [apply H1; unfold n_ethreads in *; lia|apply Hfree; lia].
    + intros E j k Hk. apply list_elem_of_lookup_2 in Hk as Hk'. apply Hids in Hk'. lia.
  - apply threads_inv_alter'; [done|]. intros u Hu. rewrite H in Hu. injection Hu as <-. split_and!; [done|exact (ti_sig s Hinv a t H)|].
    intros _. split; [done|]. intros Ha. by destruct (Ha H2).
  - apply threads_inv_alter'; [done|]. intros u Hu. rewrite H in Hu. injection Hu as <-. split_and!; [done|exact (ti_sig s Hinv a t H)|].
    intros _. assert (thread_phase t <> Running) by congruence. split; [by eapply (ti_idle s Hinv a t)|]. done.
  - replace s with (set_direct s (direct_signals s)) at 1 by (by destruct s). apply signal_inv; [done| |done].
    intros u Hu. congruence.
  - apply threads_inv_alter'; [done|]. intros u Hu. split_and!; [done|exact (ti_sig s Hinv a u Hu)|].
    intros []. exact (running_phase s a u H Hu).
  - apply threads_inv_alter; [done|]. intros u Hu. split_and!; [done|exact (ti_sig s Hinv a u Hu)|].
    intros []. exact (running_phase s a u H Hu).
  - unfold dequeue_local. destruct (localQueue <$> _) as [[|e l]|]; [done| |done]. apply threads_inv_alter; [done|].
    intros u Hu. split_and!; [done|exact (ti_sig s Hinv a u Hu)|]. intros []. exact (running_phase s a u H Hu).
  - apply threads_inv_alter; [done|]. intros u Hu. assert (Hp : thread_phase u = Running) by (by apply (running_phase s a)).
    case_decide; (split_and!; [done|exact (ti_sig s Hinv a u Hu)|by intros []]).
Qed.

(** The array of a new thread, and after [flush_signals]. *)
Definition empty_array : nat * sig_array := (0%nat, replicate MAX_EVENT_THREADS None).

Lemma empty_array_wf n : (n <= MAX_EVENT_THREADS)%nat -> sig_wf n empty_array.1 empty_array.2.
Proof.
  intros Hn. cbn [empty_array fst snd].
  assert (Hnone : forall j k, replicate MAX_EVENT_THREADS (@None nat) !! j <> Some (Some k)) by (intros j k [? _]%lookup_replicate; done).
  split; [apply length_replicate|done|lia| | |].
  - intros k [j Hj]%list_elem_of_lookup. by apply Hnone in Hj.
  - intros j k _. apply Hnone.
  - intros _ j k Hk. by apply Hnone in Hk.
Qed.

Lemma start_inv n : (n <= MAX_EVENT_THREADS)%nat -> threads_inv (start n).
Proof.
  intros Hn. assert (Hl : forall a t, all_ethreads (start n) !! a = Some t -> t = new_thread) by (intros a t [-> _]%lookup_replicate; done).
  assert (Hc : n_ethreads (start n) = n) by apply length_replicate.
  split; rewrite ?Hc; intros a t ->%Hl; [|done..]. by apply empty_array_wf.
Qed.

Lemma threads_run_inv s s' : rtc thread_step s s' -> threads_inv s -> threads_inv s'.
Proof. induction 1 as [|s1 s2 s3 Hst _ IH]; [done|]. intros H. apply IH. by eapply thread_step_inv. Qed.

(** C32: no wake-up is lost: whatever the threads do, and in whatever order, when
    a thread waits although its queue has events, the caller that put them there
    is about to signal it, or a thread that runs has it in the part of its array
    that its next [flush_signals] signals. *)
Theorem no_lost_wakeup n s b t : (n <= MAX_EVENT_THREADS)%nat -> rtc thread_step (start n) s ->
  all_ethreads s !! b = Some t -> thread_phase t = Waiting -> al t <> [] ->
  b ∈ direct_signals s \/
  exists a ta i, all_ethreads s !! a = Some ta /\ thread_phase ta = Running /\
    (i < n_ethreads_to_be_signalled ta `min` n_ethreads s)%nat /\ ethreads_to_be_signalled ta !! i = Some (Some b).
Proof.
  intros Hn Hrun Hb Hp Hal. pose proof (threads_run_inv _ _ Hrun (start_inv n Hn)) as Hinv.
  destruct (ti_wake s Hinv b t Hb) as [?|(a & ta & Ha & Hm)]; [congruence|done|by left|right].
  pose proof (ti_sig s Hinv a ta Ha) as Hw. apply list_elem_of_lookup in Hm as Hi. destruct Hi as [i Hi].
  exists a, ta, i. split_and!; [done| | |done].
  - destruct (thread_phase ta) eqn:Ep; [done|..]; exfalso; pose proof (ti_idle s Hinv a ta Ha) as E; rewrite Ep in E;
      rewrite E in Hw by done; by apply (sig_wf_zero _ _ Hw b).
  - destruct (decide (i < n_ethreads_to_be_signalled ta)%nat) as [Hlt|Hge]; [pose proof (sw_t _ _ _ Hw); lia|].
    destruct (sw_free _ _ _ Hw i b); [lia|done].
Qed.

(** ** Arrays after any sequence of notes *)

(** The threads that [flush_signals] finds in the array are exactly those
    noted since it was empty, however many they are, in whatever order they came
    and however often each came: neither the change from a vector to a direct
    map nor the notes after it lose one or leave one out of reach. *)
Theorem noted_threads n l : (n <= MAX_EVENT_THREADS)%nat -> (forall b, b ∈ l -> (b < n)%nat) ->
  let '(t, s) := foldl (fun p b => note_signal n b p.1 p.2) empty_array l in
  forall b, b ∈ l <-> exists i, (i < t `min` n)%nat /\ s !! i = Some (Some b).
Proof.
  intros Hn Hl. assert (H : let p := foldl (fun p b => note_signal n b p.1 p.2) empty_array l in
    sig_wf n p.1 p.2 /\ forall b, Some b ∈ p.2 <-> b ∈ l).
  { induction l as [|b l IH] using rev_ind; cbn zeta.
    - split; [by apply empty_array_wf|]. intros b. split; [|by intros ?%not_elem_of_nil].
      intros [j [? _]%lookup_replicate]%list_elem_of_lookup. done.
    - rewrite foldl_app. cbn [foldl]. destruct IH as [Hw Hm]; [intros c Hc; apply Hl, elem_of_app; by left|].
      destruct (note_signal_spec n b _ _ Hw) as [Hw' Hm']; [apply Hl, elem_of_app; right; by left|]. split; [done|].
      intros c. rewrite Hm', Hm, elem_of_app, list_elem_of_singleton. done. }
  cbn zeta in H. destruct (foldl _ empty_array l) as [t s]. cbn [fst snd] in H. destruct H as [Hw Hm].
  intros b. rewrite <- Hm, list_elem_of_lookup. split; [|intros (i & _ & Hi); eauto]. intros [i Hi]. exists i. split; [|done].
  destruct (decide (i < t)%nat) as [|Hge]; [pose proof (sw_t _ _ _ Hw); lia|]. destruct (sw_free _ _ _ Hw i b); [lia|done].
Qed.

(** With three threads the third note makes the array a direct map. *)
Lemma noted_threads_witness :
  let '(t, s) := foldl (fun p b => note_signal 3 b p.1 p.2) empty_array [2; 0; 2; 1]%nat in
  forall b, b ∈ [2; 0; 2; 1]%nat <-> exists i, (i < t `min` 3)%nat /\ s !! i = Some (Some b).
Proof.
  apply (noted_threads 3 [2; 0; 2; 1]%nat); [unfold MAX_EVENT_THREADS; lia|].
  intros b Hb. repeat (apply elem_of_cons in Hb as [-> | Hb]; [lia|]). by apply not_elem_of_nil in Hb.
Defined.

(** ** What [flush_signals] does *)

Record flushed (s : Threads) (a : nat) (ta : EThread) (m : nat) (s' : Threads) : Prop := {
  fl_len : length (all_ethreads s') = length (all_ethreads s);
  fl_other : forall b, b <> a ->
    all_ethreads s' !! b = (if decide (Some b ∈ take m (ethreads_to_be_signalled ta)) then wake <$> all_ethreads s !! b else all_ethreads s !! b);
  fl_self : exists ta', all_ethreads s' !! a = Some ta' /\ thread_phase ta' = Running /\ al ta' = al ta /\ localQueue ta' = localQueue ta /\
    (forall j b, ethreads_to_be_signalled ta' !! j = Some (Some b) <-> (m <= j)%nat /\ ethreads_to_be_signalled ta !! j = Some (Some b)) }.

Lemma take_S_member (s : sig_array) m b : Some b ∈ take (S m) s <-> Some b ∈ take m s \/ s !! m = Some (Some b).
Proof.
  destruct (s !! m) as [x|] eqn:E.
  - rewrite (take_S_r _ _ _ E), elem_of_app, list_elem_of_singleton. naive_solver.
  - apply lookup_ge_None in E. rewrite !take_ge by lia. naive_solver.
Qed.

Lemma wake_wake t : wake (wake t) = wake t.
Proof. unfold wake. by destruct (thread_phase t) eqn:E; cbn; rewrite ?E. Qed.

Lemma wake_running t : thread_phase t = Running -> wake t = t.
Proof. unfold wake. by intros ->. Qed.

Lemma flush_slot_flushed s a ta m s' : flushed s a ta m s' -> flushed s a ta (S m) (flush_slot a s' m).
Proof.
  intros [Hlen Hoth (ta' & Ha & Hp & Eal & El & Hsig)]. unfold flush_slot. rewrite Ha.
  assert (Hslot : forall b, ethreads_to_be_signalled ta' !! m = Some (Some b) <-> ethreads_to_be_signalled ta !! m = Some (Some b)).
  { intros b. rewrite Hsig. naive_solver lia. }
  assert (Hskip : (forall b, ethreads_to_be_signalled ta' !! m <> Some (Some b)) -> flushed s a ta (S m) s').
  { intros Hno. split; [done| |].
    - intros c Hc. rewrite Hoth by done. erewrite decide_ext; [done|]. rewrite take_S_member, <- Hslot. naive_solver.
    - exists ta'. split_and!; [done..|]. intros j c. rewrite Hsig. split; intros [? Hjc]; (split; [|done]); [|lia].
      destruct (decide (j = m)) as [->|]; [by apply Hslot, Hno in Hjc|lia]. }
  destruct (ethreads_to_be_signalled ta' !! m) as [[b|]|] eqn:Em; [clear Hskip|by apply Hskip..].
  - pose proof (proj1 (Hslot b) eq_refl) as Eb. split.
    + cbn. by rewrite !length_alter.
    + intros c Hc. cbn. rewrite list_lookup_alter_ne by done. destruct (decide (c = b)) as [->|Hcb].
      * rewrite list_lookup_alter_eq, Hoth by done. rewrite (decide_True (P := Some b ∈ take (S m) _)) by (apply take_S_member; by right).
        case_decide; [|done]. destruct (all_ethreads s !! b); cbn; [by rewrite wake_wake|done].
      * rewrite list_lookup_alter_ne, Hoth by done. erewrite decide_ext; [done|]. rewrite take_S_member. naive_solver.
    + exists (set_signals ta' (n_ethreads_to_be_signalled ta', <[m := None]> (ethreads_to_be_signalled ta'))). split_and!; [|done..|].
      * cbn. rewrite list_lookup_alter_eq. destruct (decide (a = b)) as [->|].
        -- rewrite list_lookup_alter_eq, Ha. cbn. by rewrite wake_running.
        -- by rewrite list_lookup_alter_ne, Ha by done.
      * intros j c. cbn. destruct (decide (j = m)) as [->|].
        -- rewrite list_lookup_insert_eq by (by eapply lookup_lt_Some). split; [done|lia].
        -- rewrite list_lookup_insert_ne, Hsig by done. split; intros [? ?]; (split; [lia|done]).
Qed.

Lemma flush_slots_flushed s a ta m : all_ethreads s !! a = Some ta -> thread_phase ta = Running ->
  flushed s a ta m (foldl (flush_slot a) s (seq 0 m)).
Proof.
  intros Ha Hp. induction m as [|m IH].
  - split; [done| |].
    + intros b Hb. cbn. rewrite decide_False; [done|apply not_elem_of_nil].
    + exists ta. split_and!; try done. intros j b. split; [intros ?; split; [lia|done]|tauto].
  - rewrite seq_S, foldl_app. cbn [foldl Nat.add]. by apply flush_slot_flushed.
Qed.

(** In a run of the threads, when no thread holds the lock of its queue,
    [flush_signals] leaves the array of its thread empty and the count zero,
    every thread that was in the array runs afterwards, and a thread that was not
    is as it was. *)
Theorem flush_signals_effect n s a ta : (n <= MAX_EVENT_THREADS)%nat -> rtc thread_step (start n) s ->
  (forall b, not_checking s b) -> all_ethreads s !! a = Some ta -> thread_phase ta = Running ->
  let s' := flush_signals a s in
  (exists ta', all_ethreads s' !! a = Some ta' /\ n_ethreads_to_be_signalled ta' = 0%nat /\ forall b, Some b ∉ ethreads_to_be_signalled ta') /\
  (forall b t, Some b ∈ ethreads_to_be_signalled ta -> all_ethreads s' !! b = Some t -> thread_phase t = Running) /\
  (forall b, b <> a -> Some b ∉ ethreads_to_be_signalled ta -> all_ethreads s' !! b = all_ethreads s !! b).
Proof.
  intros Hn Hrun Hnc Ha Hp. cbn zeta. pose proof (threads_run_inv _ _ Hrun (start_inv n Hn)) as Hinv.
  pose proof (ti_sig s Hinv a ta Ha) as Hw. unfold flush_signals. rewrite Ha. set (m := Nat.min _ _).
  assert (Hm : m = n_ethreads_to_be_signalled ta) by (pose proof (sw_t _ _ _ Hw); unfold m; lia).
  destruct (flush_slots_flushed s a ta m Ha Hp) as [Hlen Hoth (ta' & Ha' & Hp' & _ & _ & Hsig)].
  assert (Htake : forall b, Some b ∈ take m (ethreads_to_be_signalled ta) <-> Some b ∈ ethreads_to_be_signalled ta).
  { intros b. split; [intros Hb; rewrite <- (take_drop m), elem_of_app; by left|]. intros [i Hi]%list_elem_of_lookup.
    apply list_elem_of_lookup. exists i. rewrite lookup_take_lt; [done|]. destruct (decide (i < m)%nat) as [|Hge]; [done|].
    destruct (sw_free _ _ _ Hw i b); [lia|done]. }
  unfold flush_done. cbn. split_and!.
  - eexists. rewrite list_lookup_alter_eq, Ha'. split_and!; [done|done|]. cbn. intros b [i Hi]%list_elem_of_lookup.
    apply Hsig in Hi as [Hi1 Hi2]. destruct (sw_free _ _ _ Hw i b); [lia|done].
  - intros b t Hb Ht. apply list_lookup_alter_Some in Ht as [(-> & u & Hu & ->)|[Hne Ht]]; [cbn; congruence|].
    rewrite Hoth, decide_True in Ht by (done || by apply Htake). apply fmap_Some in Ht as (u & Hu & ->).
    unfold wake. destruct (thread_phase u) eqn:Ep; try done. by destruct (Hnc b u Hu).
  - intros b Hb Hni. rewrite list_lookup_alter_ne, Hoth, decide_False by (done || by rewrite Htake). done.
Qed.

(** Two threads: thread 1 sleeps, and thread 0 gives it event 7. *)
Definition sample_asleep : Threads :=
  let s := set_threads (start 2) (alter (fun t => set_phase t Checking) 1%nat (all_ethreads (start 2))) in
  set_threads s (alter (fun t => set_phase t Waiting) 1%nat (all_ethreads s)).
Definition sample_threads : Threads := enqueue (Some 0%nat) 1 7 sample_asleep.

Lemma sample_threads_run : rtc thread_step (start 2) sample_threads.
Proof.
  eapply rtc_l; [eapply (st_check _ 1%nat); reflexivity|]. eapply rtc_l; [eapply (st_wait _ 1%nat); reflexivity|].
  apply rtc_once. apply (st_enqueue sample_asleep (Some 0%nat) 1 7); [cbn; lia| |].
  - intros a [= <-]. by exists new_thread.
  - cbn. set_solver.
Qed.

Lemma no_lost_wakeup_witness : exists a ta i, all_ethreads sample_threads !! a = Some ta /\ thread_phase ta = Running /\
    (i < n_ethreads_to_be_signalled ta `min` n_ethreads sample_threads)%nat /\ ethreads_to_be_signalled ta !! i = Some (Some 1%nat).
Proof.
  destruct (no_lost_wakeup 2 sample_threads 1 (mkEThread [7%nat] [] 0 (replicate MAX_EVENT_THREADS None) Waiting)
    ltac:(unfold MAX_EVENT_THREADS; lia) sample_threads_run) as [H|H]; [reflexivity|reflexivity|done| |exact H].
  by apply not_elem_of_nil in H.
Defined.

Lemma flush_signals_effect_witness : forall t, all_ethreads (flush_signals 0 sample_threads) !! 1%nat = Some t -> thread_phase t = Running.
Proof.
  pose proof (flush_signals_effect 2 sample_threads 0 (mkEThread [] [] 1 (<[0%nat := Some 1%nat]> (replicate MAX_EVENT_THREADS None)) Running)
    ltac:(unfold MAX_EVENT_THREADS; lia) sample_threads_run) as H. destruct H as (_ & H & _); [|reflexivity|reflexivity|].
  - intros [|[|b]] t Ht; vm_compute in Ht; [by injection Ht as <-|by injection Ht as <-|by destruct b].
  - intros t. apply (H 1%nat). cbn. by left.
Defined.

(** A thread takes the events other threads gave it in the order they were
    given, after those already in its local queue; events cancelled meanwhile
    are left out, and nothing stays behind in the atomic list. *)
Theorem handoff_order (cancelled : nat -> bool) s b t es : all_ethreads s !! b = Some t -> al t = [] ->
  let s' := foldl (fun s (p : option nat * nat) => enqueue p.1 b p.2 s) s es in
  al <$> alter (popall cancelled) b (all_ethreads s') !! b = Some [] /\
  localQueue <$> alter (popall cancelled) b (all_ethreads s') !! b = Some (localQueue t ++ filter (fun e => cancelled e = false) es.*2).
Proof.
  intros Ht Hal. cbn zeta.
  assert (H : exists t', all_ethreads (foldl (fun s (p : option nat * nat) => enqueue p.1 b p.2 s) s es) !! b = Some t' /\
    al t' = reverse es.*2 /\ localQueue t' = localQueue t).
  { induction es as [|[ins e] es IH] using rev_ind; [by exists t|]. destruct IH as (u & Hu & Ea & El).
    rewrite foldl_app. cbn [foldl fst snd]. revert Hu. generalize (foldl (fun s (p : option nat * nat) => enqueue p.1 b p.2 s) s es).
    intros s0 Hu. unfold enqueue. rewrite Hu. pose proof (lookup_lt_Some _ _ _ Hu) as Hlt.
    rewrite fmap_app, reverse_app. cbn [fmap list_fmap]. rewrite reverse_singleton, <- Ea.
    case_match; [destruct ins as [a|]|]; cbn.
    - destruct (decide (a = b)) as [->|Hab].
      + rewrite list_lookup_alter_eq, list_lookup_insert_eq by done. eexists. split; [reflexivity|]. done.
      + rewrite list_lookup_alter_ne, list_lookup_insert_eq by done. eexists. split; [reflexivity|]. done.
    - rewrite list_lookup_insert_eq by done. eexists. split; [reflexivity|]. done.
    - rewrite list_lookup_insert_eq by done. eexists. split; [reflexivity|]. done. }
  destruct H as (u & Hu & Ea & El). rewrite list_lookup_alter_eq, Hu. cbn. by rewrite Ea, El, reverse_involutive.
Qed.

Lemma handoff_order_witness :
  localQueue <$> alter (popall (fun e => (e =? 8)%nat)) 1%nat
    (all_ethreads (foldl (fun s (p : option nat * nat) => enqueue p.1 1 p.2 s) (start 2) [(Some 0, 7); (None, 8); (Some 0, 9)]%nat)) !! 1%nat =
  Some [7; 9]%nat.
Proof.
  apply (handoff_order (fun e => (e =? 8)%nat) (start 2) 1 new_thread [(Some 0, 7); (None, 8); (Some 0, 9)]%nat); reflexivity.
Defined.
