(* ===== verification/RandTable.v ===== *)
(** The random sequences with which the cache and the cluster fill their hash
    tables ([next_rand] of [iocore/cache/P_CacheInternal.h], [next_rnd15] of
    [iocore/cluster/ClusterHash.cc]), and the search for a free slot that both
    tables use.

    A table is a map from the indices [0 .. 32706]; a search is bounded by
    [2^32] turns, the period of the sequence, counted in binary so that it can
    be evaluated. *)

From S2P Require Import Prelude.

Definition next_rand (seed : Z) : Z := u32 (1103515145 * seed + 12345).

(** [next_rnd15] keeps the low 15 bits. *)
Definition next_rnd15 (seed : Z) : Z := Z.land (u32 (1103515145 * seed + 12345)) 32767.

(** At most [p] turns of a loop that yields [inr] when it ends. *)
Fixpoint iter_until {A B} (step : A -> A + B) (p : positive) (x : A) : A + B :=
  match p with
  | xH => step x
  | xO p' => match iter_until step p' x with inl y => iter_until step p' y | inr r => inr r end
  | xI p' =>
    match step x with
    | inr r => inr r
    | inl y => match iter_until step p' y with inl z => iter_until step p' z | inr r => inr r end
    end
  end.

Definition HASH_TABLE_SIZE : Z := 32707.
Definition RAND_PERIOD : positive := 4294967296.

Definition empty_table (empty : Z) : gmap Z Z := list_to_map ((fun i => (i, empty)) <$> seqZ 0 HASH_TABLE_SIZE).

(** [do { i = next_rand(&rnd) % SIZE; } while (table[i] != empty)]: the seed and
    the index at the end. *)
Definition probe_step (table : gmap Z Z) (empty : Z) (seed : Z) : Z + (Z * Z) :=
  let seed' := next_rand seed in
  let i := seed' mod HASH_TABLE_SIZE in
  if decide (table !! i = Some empty) then inr (seed', i) else inl seed'.

Definition probe (table : gmap Z Z) (empty : Z) (seed : Z) : option (Z * Z) :=
  match iter_until (probe_step table empty) RAND_PERIOD seed with inr r => Some r | inl _ => None end.

(** ** Bounded loops *)

Fixpoint iter_until_nat {A B} (step : A -> A + B) (n : nat) (x : A) : A + B :=
  match n with
  | O => inl x
  | S n' => match step x with inl y => iter_until_nat step n' y | inr r => inr r end
  end.

Lemma iter_until_nat_add {A B} (step : A -> A + B) n m x :
  iter_until_nat step (n + m) x = match iter_until_nat step n x with inl y => iter_until_nat step m y | inr r => inr r end.
Proof. revert x. induction n as [|n IH]; intros x; [done|]. cbn. destruct (step x); [apply IH|done]. Qed.

Lemma iter_until_spec {A B} (step : A -> A + B) p x : iter_until step p x = iter_until_nat step (Pos.to_nat p) x.
Proof.
  revert x. induction p as [p IH|p IH|]; intros x; cbn [iter_until].
  - rewrite Pos2Nat.inj_xI. replace (2 * Pos.to_nat p)%nat with (Pos.to_nat p + Pos.to_nat p)%nat by lia.
    cbn [iter_until_nat]. destruct (step x) as [y|]; [|done]. rewrite iter_until_nat_add, IH. destruct (iter_until_nat step _ y); [by rewrite IH|done].
  - rewrite Pos2Nat.inj_xO. replace (2 * Pos.to_nat p)%nat with (Pos.to_nat p + Pos.to_nat p)%nat by lia.
    rewrite iter_until_nat_add, IH. destruct (iter_until_nat step _ x); [by rewrite IH|done].
  - change (Pos.to_nat 1) with 1%nat. cbn [iter_until_nat]. by destruct (step x).
Qed.

(** ** The sequences run through all numbers *)

Definition affine (x : Z) : Z := 1103515145 * x + 12345.

Lemma affine_congr x y m : x mod m = y mod m -> affine x mod m = affine y mod m.
Proof. intros H. unfold affine. by rewrite Zplus_mod, (Zplus_mod (_ * y)), Zmult_mod, (Zmult_mod _ y), H. Qed.

(** Two to the [k] turns are [x |-> A x + C], where [A] is 1 modulo [2^(k+2)]
    and [C] is an odd multiple of [2^k]. *)
Lemma affine_pow k : exists A C, (forall x, Nat.iter (2 ^ k) affine x = (1 + 2 ^ (Z.of_nat k + 2) * A) * x + 2 ^ Z.of_nat k * (1 + 2 * C)).
Proof.
  induction k as [|k (A & C & IH)].
  - exists 275878786, 6172. intros x. cbn [Nat.pow Nat.iter nat_rect]. unfold affine. lia.
  - set (a := 2 ^ Z.of_nat k) in *.
    exists (A + 2 * a * A * A), (C + a * A * (1 + 2 * C)). intros x.
    replace (2 ^ S k)%nat with (2 ^ k + 2 ^ k)%nat by (cbn; lia). rewrite Nat.iter_add, !IH.
    rewrite Nat2Z.inj_succ. replace (Z.succ (Z.of_nat k) + 2) with (Z.of_nat k + 3) by lia. rewrite Z.pow_succ_r by lia.
    rewrite !Z.pow_add_r by lia. fold a. change (2 ^ 2) with 4. change (2 ^ 3) with 8. ring.
Qed.

Lemma mod_pow_cases k u v : 0 <= k -> u mod 2 ^ k = v mod 2 ^ k -> u mod 2 ^ (k + 1) = v mod 2 ^ (k + 1) \/ (u + 2 ^ k) mod 2 ^ (k + 1) = v mod 2 ^ (k + 1).
Proof.
  intros Hk H. rewrite Z.pow_add_r by lia. change (2 ^ 1) with 2. pose proof (Z.pow_pos_nonneg 2 k ltac:(lia) Hk) as Hp.
  set (a := 2 ^ k) in *. clearbody a.
  pose proof (Z.div_mod u a ltac:(lia)) as Eu. pose proof (Z.div_mod v a ltac:(lia)) as Ev. rewrite H in Eu.
  assert (exists d, v = u + a * d) as [d ->] by (exists (v / a - u / a); lia).
  pose proof (Z.div_mod d 2 ltac:(lia)) as Ed. pose proof (Z.mod_pos_bound d 2 ltac:(lia)) as Hd. set (q := d / 2) in *. clearbody q.
  assert (d = 2 * q \/ d = 2 * q + 1) as [-> | ->] by lia; [left|right].
  - replace (u + a * (2 * q)) with (u + q * (a * 2)) by ring. by rewrite Z.mod_add by lia.
  - replace (u + a * (2 * q + 1)) with (u + a + q * (a * 2)) by ring. by rewrite Z.mod_add by lia.
Qed.

Lemma affine_orbit k x y : exists n, (n < 2 ^ k)%nat /\ Nat.iter n affine x mod 2 ^ Z.of_nat k = y mod 2 ^ Z.of_nat k.
Proof.
  induction k as [|k (n & Hn & IH)]; [exists 0%nat; split; [cbn; lia|]; change (2 ^ Z.of_nat 0) with 1; by rewrite !Z.mod_1_r|].
  rewrite Nat2Z.inj_succ. replace (Z.succ (Z.of_nat k)) with (Z.of_nat k + 1) by lia.
  destruct (mod_pow_cases (Z.of_nat k) _ _ ltac:(lia) IH) as [E|E].
  - exists n. split; [cbn; lia|done].
  - exists (2 ^ k + n)%nat. split; [cbn; lia|]. rewrite Nat.iter_add. destruct (affine_pow k) as (A & C & Hp). rewrite Hp, <- E.
    set (z := Nat.iter n affine x). rewrite !Z.pow_add_r by lia. change (2 ^ 1) with 2. change (2 ^ 2) with 4.
    set (a := 2 ^ Z.of_nat k). replace ((1 + a * 4 * A) * z + a * (1 + 2 * C)) with (z + a + (2 * A * z + C) * (a * 2)) by ring.
    rewrite Z.mod_add; [done|]. pose proof (Z.pow_pos_nonneg 2 (Z.of_nat k)). unfold a. lia.
Qed.

(** [next_rand] and [next_rnd15] are the sequence modulo a power of 2. *)
Lemma lcg_orbit (f : Z -> Z) (k : nat) : (forall x, f x = affine x mod 2 ^ Z.of_nat k) ->
  forall x y, 0 <= x < 2 ^ Z.of_nat k -> 0 <= y < 2 ^ Z.of_nat k -> exists n, Z.of_nat n < 2 ^ Z.of_nat k /\ Nat.iter n f x = y.
Proof.
  intros Hf x y Hx Hy. assert (Hp : 0 < 2 ^ Z.of_nat k) by lia.
  destruct (affine_orbit k x y) as (n & Hn & E). exists n. split; [pose proof (Nat2Z.inj_pow 2 k) as Ep; change (Z.of_nat 2) with 2 in Ep; lia|].
  assert (H : forall m, Nat.iter m f x = Nat.iter m affine x mod 2 ^ Z.of_nat k).
  { induction m as [|m IH]; [cbn; by rewrite Z.mod_small|]. rewrite !Nat.iter_succ, IH, Hf. apply affine_congr. by rewrite Z.mod_mod by lia. }
  by rewrite H, E, Z.mod_small.
Qed.

Lemma next_rand_affine x : next_rand x = affine x mod 2 ^ Z.of_nat 32.
Proof. done. Qed.

Lemma next_rnd15_affine x : next_rnd15 x = affine x mod 2 ^ Z.of_nat 15.
Proof.
  unfold next_rnd15, affine, wrapu. change 32767 with (Z.ones 15). rewrite Z.land_ones by lia.
  rewrite <- Znumtheory.Zmod_div_mod; [done|lia|lia|]. by exists (2 ^ 17).
Qed.

Lemma next_rand_range x : 0 <= next_rand x < 4294967296.
Proof. rewrite next_rand_affine. change (2 ^ Z.of_nat 32) with 4294967296. apply Z.mod_pos_bound. lia. Qed.

(** The sequence of [next_rand] from any 32-bit seed reaches every 32-bit
    number, and that of [next_rnd15] from any 15-bit seed every 15-bit number,
    within one period: 'it generates all the numbers within 1 period which is
    all we need'. *)
Theorem rand_full_period :
  (forall x y, 0 <= x < 2 ^ 32 -> 0 <= y < 2 ^ 32 -> exists n, Z.of_nat n < 2 ^ 32 /\ Nat.iter n next_rand x = y) /\
  (forall x y, 0 <= x < 2 ^ 15 -> 0 <= y < 2 ^ 15 -> exists n, Z.of_nat n < 2 ^ 15 /\ Nat.iter n next_rnd15 x = y).
Proof. split; [apply (lcg_orbit next_rand 32), next_rand_affine|apply (lcg_orbit next_rnd15 15), next_rnd15_affine]. Qed.

(** ** A search ends when there is a free slot *)

Lemma iter_until_nat_reach {A B} (step : A -> A + B) (g : A -> A) n x :
  (forall y z, step y = inl z -> z = g y) -> (exists r, step (Nat.iter n g x) = inr r) ->
  forall m, (n < m)%nat -> exists j r, (j <= n)%nat /\ step (Nat.iter j g x) = inr r /\ iter_until_nat step m x = inr r.
Proof.
  intros Hg. revert x. induction n as [|n IH]; intros x [r Hr] [|m] Hm; [lia| |lia|].
  - exists 0%nat, r. split_and!; [lia|done|]. cbn [Nat.iter nat_rect] in Hr. cbn [iter_until_nat]. by rewrite Hr.
  - cbn [iter_until_nat]. destruct (step x) as [y|r'] eqn:Es; [|exists 0%nat, r'; split_and!; [lia|done|done]].
    rewrite (Hg _ _ Es). destruct (IH (g x)) with m as (j & r' & Hj & H1 & H2); [exists r; by rewrite <- Nat.iter_succ_r|lia|].
    exists (S j), r'. split_and!; [lia| |done]. by rewrite Nat.iter_succ_r.
Qed.

Lemma probe_found table empty seed i : table !! i = Some empty -> 0 <= i < HASH_TABLE_SIZE ->
  exists seed' j, probe table empty seed = Some (seed', j) /\ table !! j = Some empty /\ 0 <= j < HASH_TABLE_SIZE /\ 0 <= seed' < 4294967296.
Proof.
  intros Hi Hr. unfold probe. rewrite iter_until_spec. pose proof (next_rand_range seed) as Hs.
  destruct (lcg_orbit next_rand 32 next_rand_affine (next_rand seed) i) as (n & Hn & En);
    [exact Hs|unfold HASH_TABLE_SIZE in Hr; change (2 ^ Z.of_nat 32) with 4294967296; lia|].
  destruct (iter_until_nat_reach (probe_step table empty) next_rand n seed) with (m := Pos.to_nat RAND_PERIOD) as (j & [s' k] & _ & Hstep & ->).
  - intros y z. unfold probe_step. case_decide; congruence.
  - unfold probe_step. rewrite <- Nat.iter_swap, En, Z.mod_small by done. rewrite decide_True by done. eauto.
  - change (2 ^ Z.of_nat 32) with (Z.pos RAND_PERIOD) in Hn. lia.
  - unfold probe_step in Hstep. case_decide as Hd; [|done]. injection Hstep as <- <-. eexists _, _.
    split_and!; [done|done|apply Z.mod_pos_bound; unfold HASH_TABLE_SIZE; lia..|apply next_rand_range|apply next_rand_range].
Qed.

(** ** Counting slots *)

Definition count_slots (table : gmap Z Z) (v : Z) : Z :=
  Z.of_nat (length (filter (fun i => table !! i = Some v) (seqZ 0 HASH_TABLE_SIZE))).

Lemma filter_add_one {A} (P Q : A -> Prop) `{!forall x, Decision (P x), !forall x, Decision (Q x)} (l : list A) a :
  NoDup l -> a ∈ l -> ~ P a -> (forall x, Q x <-> P x \/ x = a) -> length (filter Q l) = S (length (filter P l)).
Proof.
  intros Hnd Ha HP HQ. apply list_elem_of_split in Ha as (l1 & l2 & ->). apply NoDup_app in Hnd as (_ & Hd & Hnd).
  apply NoDup_cons in Hnd as [Hn2 _].
  assert (E : forall l : list A, a ∉ l -> filter Q l = filter P l).
  { intros k Hl. apply filter_ext_in. intros x Hx. rewrite HQ. split; [intros [?| ->]; done|tauto]. }
  rewrite !filter_app, filter_cons_True, filter_cons_False, !E, !length_app by (done || (apply HQ; by right) || (intros Hi; apply (Hd a Hi); by left)).
  cbn. lia.
Qed.

(** Filling a slot that held [v0]. *)
Lemma count_slots_insert table i v0 v w : 0 <= i < HASH_TABLE_SIZE -> table !! i = Some v0 -> v <> v0 ->
  count_slots (<[i := v]> table) w = count_slots table w + (if decide (w = v) then 1 else if decide (w = v0) then -1 else 0).
Proof.
  intros Hi H0 Hv. unfold count_slots.
  assert (Hin : i ∈ seqZ 0 HASH_TABLE_SIZE) by (apply elem_of_seqZ; lia). pose proof (NoDup_seqZ 0 HASH_TABLE_SIZE) as Hnd.
  assert (Hlk : forall j, (<[i := v]> table) !! j = Some w <-> (j = i /\ w = v) \/ (j <> i /\ table !! j = Some w)).
  { intros j. rewrite lookup_insert_Some. naive_solver. }
  destruct (decide (w = v)) as [->|Hwv]; [|destruct (decide (w = v0)) as [->|Hw0]].
  - rewrite (filter_add_one (fun j => table !! j = Some v) (fun j => (<[i := v]> table) !! j = Some v) _ i); [lia|done|done|congruence|].
    intros j. rewrite Hlk. destruct (decide (j = i)) as [->|]; [|naive_solver]. naive_solver.
  - rewrite (filter_add_one (fun j => (<[i := v]> table) !! j = Some v0) (fun j => table !! j = Some v0) _ i); [lia|done|done| |].
    + rewrite lookup_insert_eq. congruence.
    + intros j. rewrite Hlk. destruct (decide (j = i)) as [->|]; naive_solver.
  - erewrite filter_ext_in; [rewrite Z.add_0_r; reflexivity|]. intros j _. rewrite Hlk. destruct (decide (j = i)) as [->|]; [|naive_solver]. naive_solver.
Qed.

Lemma lookup_empty_table v i : 0 <= i < HASH_TABLE_SIZE -> empty_table v !! i = Some v.
Proof.
  intros Hi. unfold empty_table. apply elem_of_list_to_map_1.
  - rewrite <- list_fmap_compose, (list_fmap_ext _ id), list_fmap_id; [apply NoDup_seqZ|done].
  - apply list_elem_of_fmap. exists i. split; [done|]. apply elem_of_seqZ. lia.
Qed.

Lemma count_empty_table v w : count_slots (empty_table v) w = if decide (w = v) then HASH_TABLE_SIZE else 0.
Proof.
  unfold count_slots. destruct (decide (w = v)) as [->|Hne].
  - rewrite filter_id_in by (intros i Hi%elem_of_seqZ; apply lookup_empty_table; lia). rewrite length_seqZ. unfold HASH_TABLE_SIZE. lia.
  - rewrite (filter_ext_in _ (fun _ => False)).
    + generalize (seqZ 0 HASH_TABLE_SIZE). intros l. induction l; [done|]. by rewrite filter_cons_False by tauto.
    + intros i Hi%elem_of_seqZ. rewrite lookup_empty_table by lia. naive_solver.
Qed.

(** A slot that is counted is there. *)
Lemma count_slots_pos table v : 0 < count_slots table v -> exists i, 0 <= i < HASH_TABLE_SIZE /\ table !! i = Some v.
Proof.
  unfold count_slots. intros H. destruct (filter _ _) as [|i l] eqn:E; [cbn in H; lia|]. exists i.
  assert (Hi : i ∈ filter (fun i => table !! i = Some v) (seqZ 0 HASH_TABLE_SIZE)) by (rewrite E; by left).
  apply list_elem_of_filter in Hi as [Hv Hi%elem_of_seqZ]. split; [lia|done].
Qed.

Lemma count_slots_zero table v i : count_slots table v = 0 -> 0 <= i < HASH_TABLE_SIZE -> table !! i <> Some v.
Proof.
  unfold count_slots. intros H Hi Hv. assert (Hin : i ∈ filter (fun i => table !! i = Some v) (seqZ 0 HASH_TABLE_SIZE)).
  { apply list_elem_of_filter. split; [done|]. apply elem_of_seqZ. lia. }
  destruct (filter _ _); [by apply not_elem_of_nil in Hin|]. cbn in H. lia.
Qed.

Lemma count_slots_nonneg table v : 0 <= count_slots table v.
Proof. unfold count_slots. lia. Qed.

Lemma rand_full_period_witness : exists n, Z.of_nat n < 2 ^ 32 /\ Nat.iter n next_rand 1 = 77.
Proof. apply rand_full_period; lia. Defined.
