(* ===== verification/PartHash.v ===== *)
(** Which partition holds a document ([iocore/cache/Cache.cc]:
    [build_part_hash_table], [Cache::key_to_part]): a table of 32707 slots, in
    which each partition on a good disk has a share in proportion to its size,
    at the places its own random sequence finds free. *)

From S2P Require Import Prelude RandTable.

Definition PART_HASH_TABLE_SIZE : Z := 32707.
Definition PART_HASH_EMPTY : Z := 65535.
Definition INK_BLOCK_SHIFT : Z := 9.
Definition DIR_TAG_WIDTH : Z := 12.

(** The fields of a [Part] the table depends on: the errors of its disk, its
    length in bytes and the 64-bit value [hash_id_md5.fold()]. *)
Record Part := mkPart { disk_num_errors : Z; part_len : Z; hash_fold : Z }.

Record CacheHostRecord := mkHostRecord { parts : list Part; part_hash_table : option (gmap Z Z) }.

Definition DISK_BAD (cache_config_max_disk_errors : Z) (p : Part) : bool := cache_config_max_disk_errors <=? disk_num_errors p.

Definition part_blocks (p : Part) : Z := Z.shiftr (part_len p) INK_BLOCK_SHIFT.

(** The partitions on good disks, each with its index: [mapping] and [p]. *)
Fixpoint good_parts (max_errors : Z) (ps : list Part) (i : Z) : list (Z * Part) :=
  match ps with
  | [] => []
  | p :: ps' => if DISK_BAD max_errors p then good_parts max_errors ps' (i + 1) else (i, p) :: good_parts max_errors ps' (i + 1)
  end.

Definition total_blocks (l : list (Z * Part)) : Z := foldr (fun x n => part_blocks x.2 + n) 0 l.

Definition forpart_init (total : Z) (l : list (Z * Part)) : list Z :=
  (fun x => (PART_HASH_TABLE_SIZE * part_blocks x.2) / total) <$> l.

Definition sum_Z (l : list Z) : Z := foldr Z.add 0 l.

(** [for (i = 0; i < extra; i++) forpart[i % num_parts]++;] *)
Definition spread (extra : nat) (forpart : list Z) : list Z :=
  foldl (fun f i => alter (Z.add 1) (i mod length forpart)%nat f) forpart (seq 0 extra).

Definition forpart_final (l : list (Z * Part)) : list Z :=
  let f := forpart_init (total_blocks l) l in spread (Z.to_nat (PART_HASH_TABLE_SIZE - sum_Z f)) f.

Record Fill := mkFill { ttable : gmap Z Z; forpart : list Z; rnd : list Z; left : Z; d : nat }.

(** The loop that fills the table, for [num] partitions with the indices
    [mapping]. *)
Fixpoint fill (fuel num : nat) (mapping : list Z) (st : Fill) : option (gmap Z Z) :=
  if left st =? 0 then Some (ttable st)
  else
    match fuel with
    | O => None
    | S f =>
      let next := (S (d st) mod num)%nat in
      if forpart st !!! d st =? 0 then fill f num mapping (mkFill (ttable st) (forpart st) (rnd st) (left st) next)
      else
        match probe (ttable st) PART_HASH_EMPTY (rnd st !!! d st) with
        | None => None
        | Some (seed, i) =>
          fill f num mapping (mkFill (<[i := wrapu 16 (mapping !!! d st)]> (ttable st)) (alter (Z.add (-1)) (d st) (forpart st))
                                     (<[d st := seed]> (rnd st)) (left st - 1) next)
        end
    end.

(** [None] if the loop has not ended; a record on bad disks only has no table. *)
Definition build_part_hash_table (max_errors : Z) (cp : CacheHostRecord) : option CacheHostRecord :=
  let l := good_parts max_errors (parts cp) 0 in
  let num := length l in
  if (num =? 0)%nat then Some (mkHostRecord (parts cp) None)
  else
    t ← fill (Z.to_nat PART_HASH_TABLE_SIZE * num) num l.*1
          (mkFill (empty_table PART_HASH_EMPTY) (forpart_final l) ((fun x => wrapu 32 (hash_fold x.2)) <$> l) PART_HASH_TABLE_SIZE 0);
    Some (mkHostRecord (parts cp) (Some t)).

(** [Cache::key_to_part]: the generic record, the number of entries of the host
    table, the length of the host name, the record [Match] found, and word 2 of
    the key.  The result is [None] where the code reads outside an array. *)
Definition key_to_part (gen_host_rec : CacheHostRecord) (m_numEntries host_len : Z) (matched : option CacheHostRecord) (word2 : Z) : option Part :=
  let h := Z.shiftr word2 DIR_TAG_WIDTH mod PART_HASH_TABLE_SIZE in
  let pick (r : CacheHostRecord) (t : gmap Z Z) := i ← t !! h; parts r !! Z.to_nat i in
  let generic :=
    match part_hash_table gen_host_rec with
    | Some t => pick gen_host_rec t
    | None => parts gen_host_rec !! 0%nat
    end in
  if (0 <? m_numEntries) && negb (host_len =? 0) then
    match matched with
    | Some r => match part_hash_table r with Some t => pick r t | None => generic end
    | None => generic
    end
  else generic.

(** ** The partitions on good disks *)

Lemma good_parts_spec max_errors ps i k p : 0 <= i ->
  (k, p) ∈ good_parts max_errors ps i <-> i <= k /\ ps !! Z.to_nat (k - i) = Some p /\ DISK_BAD max_errors p = false.
Proof.
  revert i. induction ps as [|p0 ps IH]; intros i Hi; cbn [good_parts].
  - split; [by intros ?%not_elem_of_nil|]. rewrite lookup_nil. naive_solver.
  - assert (Htl : i + 1 <= k /\ ps !! Z.to_nat (k - (i + 1)) = Some p /\ DISK_BAD max_errors p = false <->
                  i < k /\ (p0 :: ps) !! Z.to_nat (k - i) = Some p /\ DISK_BAD max_errors p = false).
    { split; intros (Hk & Hl & Hd); (split_and!; [lia| |done]); replace (Z.to_nat (k - i)) with (S (Z.to_nat (k - (i + 1)))) in * by lia; done. }
    assert (Hhd : i = k -> (p0 :: ps) !! Z.to_nat (k - i) = Some p0) by (intros ->; by rewrite Z.sub_diag).
    destruct (DISK_BAD max_errors p0) eqn:Ed.
    + rewrite IH, Htl by lia. split; [intros (? & ? & ?); split_and!; [lia|done|done]|]. intros (Hk & Hl & Hd).
      split_and!; [|done|done]. destruct (decide (i = k)) as [E|]; [|lia]. specialize (Hhd E). congruence.
    + rewrite elem_of_cons, IH, Htl by lia. split.
      * intros [[= -> ->]|(? & ? & ?)]; [|split_and!; [lia|done|done]]. rewrite Hhd by done. split_and!; [lia|done|done].
      * intros (Hk & Hl & Hd). destruct (decide (i = k)) as [->|]; [left; rewrite Hhd in Hl by done; congruence|].
        right. split_and!; [lia|done|done].
Qed.

Lemma good_parts_NoDup max_errors ps i : 0 <= i -> NoDup (good_parts max_errors ps i).*1.
Proof.
  revert i. induction ps as [|p ps IH]; intros i Hi; cbn [good_parts]; [constructor|].
  destruct (DISK_BAD max_errors p); [apply IH; lia|]. cbn [fmap list_fmap]. apply NoDup_cons. split; [|apply IH; lia].
  intros ([k q] & E & Hin)%list_elem_of_fmap. cbn in E. subst k. apply good_parts_spec in Hin; lia.
Qed.

(** ** Shares *)

Lemma sum_Z_alter l i v g : l !! i = Some v -> sum_Z (alter g i l) = sum_Z l - v + g v.
Proof.
  revert i. induction l as [|x l IH]; intros [|i] H; try done; cbn in *; [injection H as ->; lia|].
  change (x + sum_Z (alter g i l) = x + sum_Z l - v + g v). rewrite (IH i H). lia.
Qed.

Lemma sum_Z_pos l : Forall (Z.le 0) l -> 0 < sum_Z l -> exists k, (k < length l)%nat /\ 0 < l !!! k.
Proof.
  induction 1 as [|x l Hx Hl IH]; cbn; [lia|]. intros H. destruct (decide (0 < x)); [exists 0%nat; split; [lia|done]|].
  destruct IH as (k & Hk & Hp); [unfold sum_Z; lia|]. exists (S k). split; [lia|done].
Qed.

Lemma sum_Z_zero l k v : Forall (Z.le 0) l -> sum_Z l = 0 -> l !! k = Some v -> v = 0.
Proof.
  intros Hl. assert (Hn : forall l, Forall (Z.le 0) l -> 0 <= sum_Z l) by (induction 1; cbn; [lia|unfold sum_Z in *; lia]).
  revert k. induction Hl as [|x l Hx Hl IH]; intros k Hs Hk; [done|]. specialize (Hn l Hl). cbn in Hs. fold (sum_Z l) in Hs.
  destruct k as [|k]; cbn in Hk; [injection Hk as <-; lia|]. apply (IH k); [lia|done].
Qed.

(** Rounding down loses less than one slot per partition. *)
Lemma forpart_init_sum T l : 0 < T -> T * sum_Z (forpart_init T l) <= PART_HASH_TABLE_SIZE * total_blocks l <=
  T * (sum_Z (forpart_init T l) + Z.of_nat (length l)) /\ (l <> [] -> PART_HASH_TABLE_SIZE * total_blocks l < T * (sum_Z (forpart_init T l) + Z.of_nat (length l))).
Proof.
  intros HT. induction l as [|[i p] l (IH & _)]; [cbn; split; [lia|done]|].
  cbn [forpart_init fmap list_fmap sum_Z foldr total_blocks snd length].
  change (foldr Z.add 0 _) with (sum_Z (forpart_init T l)). change (foldr _ 0 l) with (total_blocks l).
  set (x := PART_HASH_TABLE_SIZE * part_blocks p). pose proof (Z.div_mod x T ltac:(lia)). pose proof (Z.mod_pos_bound x T HT).
  rewrite Nat2Z.inj_succ. split; [|intros _]; unfold x in *; nia.
Qed.

Lemma forpart_init_nonneg T l : 0 < T -> Forall (fun x => 0 <= part_blocks x.2) l -> Forall (Z.le 0) (forpart_init T l).
Proof.
  intros HT H. unfold forpart_init. rewrite Forall_fmap. eapply Forall_impl; [exact H|]. intros x Hx. cbv beta in Hx.
  apply Z.div_pos; [unfold PART_HASH_TABLE_SIZE; lia|done].
Qed.

Lemma spread_spec n f : (n <= length f)%nat -> length (spread n f) = length f /\ sum_Z (spread n f) = sum_Z f + Z.of_nat n /\
  forall k, spread n f !! k = (fun v => v + (if (k <? n)%nat then 1 else 0)) <$> f !! k.
Proof.
  unfold spread. induction n as [|n IH]; intros Hn.
  - cbn [seq foldl]. split_and!; [done|lia|]. intros k. destruct (f !! k) as [v|]; [|done]. cbn. by rewrite Z.add_0_r.
  - rewrite seq_S, foldl_app. cbn [foldl Nat.add]. destruct (IH ltac:(lia)) as (H1 & H2 & H3). rewrite Nat.mod_small by lia.
    destruct (lookup_lt_is_Some_2 f n ltac:(lia)) as [v Hv]. split_and!.
    + by rewrite length_alter.
    + rewrite (sum_Z_alter _ _ (v + 0)); [rewrite H2; lia|]. by rewrite H3, Hv, Nat.ltb_irrefl.
    + intros k. destruct (decide (k = n)) as [->|Hne].
      * rewrite list_lookup_alter_eq, H3, Hv. cbn [fmap option_fmap option_map]. rewrite Nat.ltb_irrefl.
        destruct (Nat.ltb_spec n (S n)); [|lia]. f_equal. lia.
      * rewrite list_lookup_alter_ne, H3 by done. destruct (Nat.ltb_spec k n), (Nat.ltb_spec k (S n)); done || lia.
Qed.

(** The slots of each partition: its share rounded down, and one more for the
    first few, so that the shares make up the table. *)
Lemma forpart_final_spec l (f := forpart_init (total_blocks l) l) (extra := PART_HASH_TABLE_SIZE - sum_Z f) :
  l <> [] -> 0 < total_blocks l -> Forall (fun x => 0 <= part_blocks x.2) l ->
  0 <= extra < Z.of_nat (length l) /\ length (forpart_final l) = length l /\ sum_Z (forpart_final l) = PART_HASH_TABLE_SIZE /\
  Forall (Z.le 0) (forpart_final l) /\
  forall k, forpart_final l !! k = (fun x => PART_HASH_TABLE_SIZE * part_blocks x.2 / total_blocks l + (if Z.of_nat k <? extra then 1 else 0)) <$> (l !! k).
Proof.
  intros Hne HT Hb. destruct (forpart_init_sum (total_blocks l) l HT) as [[H1 H2] H3]. specialize (H3 Hne). fold f in H1, H2, H3.
  assert (He : 0 <= extra < Z.of_nat (length l)) by (unfold extra; nia).
  assert (Hlf : length f = length l) by apply length_fmap.
  destruct (spread_spec (Z.to_nat extra) f) as (S1 & S2 & S3); [lia|].
  assert (Hk : forall k, forpart_final l !! k = (fun x => PART_HASH_TABLE_SIZE * part_blocks x.2 / total_blocks l + (if Z.of_nat k <? extra then 1 else 0)) <$> l !! k).
  { intros k. unfold forpart_final. fold f. fold extra. rewrite S3. unfold f, forpart_init. rewrite list_lookup_fmap.
    destruct (l !! k); cbn [fmap option_fmap option_map]; [|done]. do 2 f_equal. destruct (Nat.ltb_spec k (Z.to_nat extra)), (Z.ltb_spec (Z.of_nat k) extra); done || lia. }
  split_and!; [lia|lia| | | |done].
  - unfold forpart_final. fold f. fold extra. lia.
  - unfold forpart_final. fold f. fold extra. lia.
  - apply Forall_lookup. intros k v Hv. rewrite Hk in Hv. apply fmap_Some in Hv as (x & Hx & ->).
    rewrite Forall_lookup in Hb. specialize (Hb k x Hx). pose proof (Z.div_pos (PART_HASH_TABLE_SIZE * part_blocks x.2) (total_blocks l)).
    unfold PART_HASH_TABLE_SIZE in *. destruct (Z.ltb_spec (Z.of_nat k) extra); lia.
Qed.

(** ** The loop that fills the table *)

Section fill_loop.
Context (mapping quota : list Z) (num : nat).
Context (Hnum : (0 < num)%nat) (Hml : length mapping = num) (Hnd : NoDup mapping) (Hm : Forall (fun m => 0 <= m < PART_HASH_EMPTY) mapping).

(** The free slots are as many as the slots still due, and each partition has
    the slots that are not due to it any more. *)
Record fill_inv (st : Fill) : Prop := {
  fi_len : length (forpart st) = num;
  fi_d : (d st < num)%nat;
  fi_nonneg : Forall (Z.le 0) (forpart st);
  fi_left : left st = sum_Z (forpart st);
  fi_empty : count_slots (ttable st) PART_HASH_EMPTY = left st;
  fi_count : forall k m v, mapping !! k = Some m -> forpart st !! k = Some v -> quota !! k = Some (count_slots (ttable st) m + v);
  fi_values : forall i, 0 <= i < HASH_TABLE_SIZE -> exists v, ttable st !! i = Some v /\ (v = PART_HASH_EMPTY \/ v ∈ mapping) }.

Definition filled (t : gmap Z Z) : Prop :=
  (forall i, 0 <= i < HASH_TABLE_SIZE -> exists v, t !! i = Some v /\ v ∈ mapping) /\
  (forall k m, mapping !! k = Some m -> quota !! k = Some (count_slots t m)).

Lemma fill_inv_done st : fill_inv st -> left st = 0 -> filled (ttable st).
Proof.
  intros [Hl Hd Hn Hleft He Hc Hv] H0. split.
  - intros i Hi. destruct (Hv i Hi) as (v & Ev & [-> |Hin]); [|eauto]. rewrite H0 in He. by apply (count_slots_zero _ _ i He) in Ev.
  - intros k m Hk. destruct (lookup_lt_is_Some_2 (forpart st) k) as [v Ev]; [rewrite Hl, <- Hml; by eapply lookup_lt_Some|].
    rewrite (Hc k m v Hk Ev). rewrite (sum_Z_zero _ _ _ Hn ltac:(lia) Ev). by rewrite Z.add_0_r.
Qed.

Lemma fill_inv_skip st : fill_inv st -> fill_inv (mkFill (ttable st) (forpart st) (rnd st) (left st) (S (d st) mod num)%nat).
Proof. intros []. split; try done. cbn. apply Nat.mod_upper_bound. lia. Qed.

(** One slot is taken. *)
Lemma fill_inv_place st i r : fill_inv st -> 0 < forpart st !!! d st -> 0 <= i < HASH_TABLE_SIZE -> ttable st !! i = Some PART_HASH_EMPTY ->
  fill_inv (mkFill (<[i := wrapu 16 (mapping !!! d st)]> (ttable st)) (alter (Z.add (-1)) (d st) (forpart st)) r (left st - 1) (S (d st) mod num)%nat).
Proof.
  intros [Hl Hd Hn Hleft He Hc Hv] Hpos Hi Hti. pose proof (list_lookup_lookup_total_lt (forpart st) (d st) ltac:(lia)) as Ef.
  pose proof (list_lookup_lookup_total_lt mapping (d st) ltac:(lia)) as Em. set (v := forpart st !!! d st) in *. set (m := mapping !!! d st) in *.
  pose proof (proj1 (Forall_lookup _ _) Hm _ _ Em) as Hmr. cbv beta in Hmr. unfold PART_HASH_EMPTY in Hmr.
  rewrite wrapu_id by (change (2 ^ 16) with 65536; lia). assert (Hne : m <> PART_HASH_EMPTY) by (unfold PART_HASH_EMPTY; lia).
  assert (Hcount : forall w, count_slots (<[i := m]> (ttable st)) w = count_slots (ttable st) w + (if decide (w = m) then 1 else if decide (w = PART_HASH_EMPTY) then -1 else 0)).
  { intros w. by apply count_slots_insert. }
  split; cbn [forpart ttable d left].
  - by rewrite length_alter.
  - apply Nat.mod_upper_bound. lia.
  - apply Forall_lookup. intros k w Hw. destruct (decide (k = d st)) as [->|].
    + rewrite list_lookup_alter_eq, Ef in Hw. injection Hw as <-. lia.
    + rewrite list_lookup_alter_ne in Hw by done. by apply (proj1 (Forall_lookup _ _) Hn k).
  - rewrite (sum_Z_alter _ _ _ _ Ef). lia.
  - rewrite Hcount, decide_False, decide_True by done. lia.
  - intros k m' w Hk Hw. rewrite Hcount. destruct (decide (k = d st)) as [->|Hkd].
    + rewrite list_lookup_alter_eq, Ef in Hw. injection Hw as <-. rewrite Em in Hk. injection Hk as <-.
      rewrite decide_True by done. rewrite (Hc _ _ _ Em Ef). f_equal. lia.
    + rewrite list_lookup_alter_ne in Hw by done. rewrite (Hc k m' w Hk Hw). rewrite decide_False by (intros ->; apply Hkd; by eapply NoDup_lookup).
      rewrite decide_False; [f_equal; lia|]. intros ->. pose proof (proj1 (Forall_lookup _ _) Hm _ _ Hk) as Hx. cbv beta in Hx. lia.
  - intros j Hj. destruct (decide (j = i)) as [->|].
    + rewrite lookup_insert_eq. exists m. split; [done|]. right. by eapply list_elem_of_lookup_2.
    + rewrite lookup_insert_ne by done. by apply Hv.
Qed.

(** Within [num] turns the loop comes to a partition that is due a slot. *)
Lemma fill_next_due st : fill_inv st -> 0 < left st -> exists j, (j < num)%nat /\ 0 < forpart st !!! ((d st + j) mod num)%nat.
Proof.
  intros [Hl Hd Hn Hleft _ _ _] H0. destruct (sum_Z_pos (forpart st) Hn ltac:(lia)) as (k & Hk & Hp).
  exists ((k + (num - d st)) mod num)%nat. split; [apply Nat.mod_upper_bound; lia|].
  rewrite Nat.Div0.add_mod_idemp_r. replace (d st + (k + (num - d st)))%nat with (k + 1 * num)%nat by lia.
  rewrite Nat.Div0.mod_add, Nat.mod_small by lia. done.
Qed.

Lemma fill_spec fuel st j : fill_inv st ->
  left st = 0 \/ (0 < left st /\ (j < num)%nat /\ 0 < forpart st !!! ((d st + j) mod num)%nat /\ (left st - 1) * Z.of_nat num + Z.of_nat j + 1 <= Z.of_nat fuel) ->
  exists t, fill fuel num mapping st = Some t /\ filled t.
Proof.
  revert st j. induction fuel as [|fuel IH]; intros st j Hinv Hcase.
  { destruct Hcase as [H0|(? & ? & _ & ?)]; [|nia]. cbn. rewrite H0. exists (ttable st). split; [done|by apply fill_inv_done]. }
  cbn [fill]. destruct (Z.eqb_spec (left st) 0) as [H0|H0]; [exists (ttable st); split; [done|by apply fill_inv_done]|].
  destruct Hcase as [?|(Hleft & Hj & Hdue & Hfuel)]; [done|]. pose proof (fi_d st Hinv) as Hd.
  assert (Hge : 0 <= forpart st !!! d st).
  { apply (proj1 (Forall_lookup _ _) (fi_nonneg st Hinv) (d st)). apply list_lookup_lookup_total_lt. rewrite (fi_len st Hinv). done. }
  destruct (Z.eqb_spec (forpart st !!! d st) 0) as [Hz|Hz].
  - destruct j as [|j]; [rewrite Nat.add_0_r, Nat.mod_small in Hdue by done; lia|].
    apply (IH _ j (fill_inv_skip st Hinv)). right. cbn. split_and!; [done|lia| |lia].
    rewrite Nat.Div0.add_mod_idemp_l. by replace (S (d st) + j)%nat with (d st + S j)%nat by lia.
  - destruct (count_slots_pos (ttable st) PART_HASH_EMPTY) as (i0 & Hi0 & Ei0); [rewrite (fi_empty st Hinv); done|].
    destruct (probe_found (ttable st) PART_HASH_EMPTY (rnd st !!! d st) i0 Ei0 Hi0) as (seed & i & -> & Ei & Hi & _).
    pose proof (fill_inv_place st i (<[d st := seed]> (rnd st)) Hinv ltac:(lia) Hi Ei) as Hinv'.
    destruct (decide (left st = 1)) as [E1|E1]; [apply (IH _ 0%nat Hinv'); left; cbn; lia|].
    destruct (fill_next_due _ Hinv') as (j' & Hj' & Hdue'); [cbn; lia|]. apply (IH _ j' Hinv'). right. cbn in *. split_and!; [lia|done|done|nia].
Qed.

End fill_loop.

(** ** Theorems *)

Section build.
Context (max_errors : Z) (cp : CacheHostRecord).
Context (Hlen : (Z.of_nat (length (parts cp)) < PART_HASH_EMPTY)%Z).
Context (Hblocks : forall p, p ∈ parts cp -> DISK_BAD max_errors p = false -> 0 < part_blocks p).
Context (Hgood : exists p, p ∈ parts cp /\ DISK_BAD max_errors p = false).
Let l := good_parts max_errors (parts cp) 0.

Lemma good_parts_elem k p : (k, p) ∈ l -> 0 <= k < Z.of_nat (length (parts cp)) /\ parts cp !! Z.to_nat k = Some p /\
  DISK_BAD max_errors p = false /\ 0 < part_blocks p.
Proof.
  intros (Hk & Hp & Hd)%good_parts_spec; [|lia]. rewrite Z.sub_0_r in Hp. pose proof (lookup_lt_Some _ _ _ Hp).
  split_and!; [lia|lia|done|done|]. apply Hblocks; [|done]. by eapply list_elem_of_lookup_2.
Qed.

Lemma good_parts_total : l <> [] /\ 0 < total_blocks l /\ Forall (fun x => 0 <= part_blocks x.2) l.
Proof.
  assert (Hf : Forall (fun x => 0 < part_blocks x.2) l).
  { apply Forall_forall. intros [k p] (_ & _ & _ & H)%good_parts_elem. done. }
  assert (Hne : l <> []).
  { destruct Hgood as (p & [k Hk]%list_elem_of_lookup & Hd). intros El.
    assert (Hin : (Z.of_nat k, p) ∈ l) by (apply good_parts_spec; [lia|]; rewrite Z.sub_0_r, Nat2Z.id; split_and!; [lia|done|done]).
    rewrite El in Hin. by apply not_elem_of_nil in Hin. }
  split_and!; [done| |].
  - assert (Hp : forall k, Forall (fun x => 0 < part_blocks x.2) k -> 0 <= total_blocks k) by (induction 1; unfold total_blocks in *; cbn in *; lia).
    revert Hne Hf. generalize l as k. intros [|x k] Hne Hf; [done|]. inversion_clear Hf as [|? ? Hx Hk]. specialize (Hp k Hk).
    unfold total_blocks in *. cbn in *. lia.
  - eapply Forall_impl; [exact Hf|]. intros x Hx. cbv beta in *. lia.
Qed.

Lemma build_spec : exists t, build_part_hash_table max_errors cp = Some (mkHostRecord (parts cp) (Some t)) /\ filled l.*1 (forpart_final l) t.
Proof.
  destruct good_parts_total as (Hne & HT & Hb). destruct (forpart_final_spec l Hne HT Hb) as (He & Hfl & Hs & Hnn & Hk).
  assert (Hnum : (0 < length l)%nat) by (apply Nat.neq_0_lt_0; intros E%nil_length_inv; contradiction).
  unfold build_part_hash_table. fold l. destruct (Nat.eqb_spec (length l) 0) as [|_]; [lia|].
  assert (Hml : length l.*1 = length l) by apply length_fmap.
  assert (Hnd : NoDup l.*1) by (apply good_parts_NoDup; lia).
  assert (Hmr : Forall (fun m => 0 <= m < PART_HASH_EMPTY) l.*1).
  { apply Forall_fmap, Forall_forall. intros [k p] (Hk' & _)%good_parts_elem. cbn. lia. }
  set (st := mkFill _ _ _ _ _). assert (Hinv : fill_inv l.*1 (forpart_final l) (length l) st).
  { split; cbn [st forpart ttable d left]; [lia|lia|done|lia| | |].
    - by rewrite count_empty_table, decide_True.
    - intros k m v Hm Hv. rewrite count_empty_table, decide_False; [by rewrite Z.add_0_l|]. intros ->.
      pose proof (proj1 (Forall_lookup _ _) Hmr _ _ Hm) as Hx. cbv beta in Hx. lia.
    - intros i Hi. exists PART_HASH_EMPTY. split; [by apply lookup_empty_table|by left]. }
  destruct (fill_next_due l.*1 (forpart_final l) (length l) Hnum Hml st Hinv ltac:(cbn; unfold PART_HASH_TABLE_SIZE; lia)) as (j & Hj & Hdue).
  destruct (fill_spec l.*1 (forpart_final l) (length l) Hnum Hml Hnd Hmr (Z.to_nat PART_HASH_TABLE_SIZE * length l) st j Hinv) as (t & -> & Ht).
  { right. cbn [st left]. split_and!; [done|done|done|]. rewrite Nat2Z.inj_mul, Z2Nat.id by (unfold PART_HASH_TABLE_SIZE; lia). nia. }
  exists t. split; [done|done].
Qed.

Lemma filled_good t i : filled l.*1 (forpart_final l) t -> 0 <= i < 32707 ->
  exists k p, t !! i = Some k /\ parts cp !! Z.to_nat k = Some p /\ DISK_BAD max_errors p = false.
Proof.
  intros [Hv _] Hi. destruct (Hv i Hi) as (v & Ev & ([k p] & -> & Hin)%list_elem_of_fmap).
  apply good_parts_elem in Hin as (_ & Hp & Hd & _). eauto.
Qed.

(** when some partition is on a good disk, building the table ends, however
    the random sequences go; every slot then holds the index of a partition on a
    good disk, and each such partition has the slots in proportion to its size,
    rounded down or one more. *)
Theorem part_hash_table_shares : exists t, build_part_hash_table max_errors cp = Some (mkHostRecord (parts cp) (Some t)) /\
  (forall i, 0 <= i < 32707 -> exists k p, t !! i = Some k /\ parts cp !! Z.to_nat k = Some p /\ DISK_BAD max_errors p = false) /\
  (forall k p, parts cp !! k = Some p -> DISK_BAD max_errors p = false ->
    let share := (32707 * part_blocks p) / total_blocks (good_parts max_errors (parts cp) 0) in
    share <= count_slots t (Z.of_nat k) <= share + 1).
Proof.
  destruct build_spec as (t & Et & Hft). pose proof (proj2 Hft) as Hc. destruct good_parts_total as (Hne & HT & Hb).
  destruct (forpart_final_spec l Hne HT Hb) as (_ & _ & _ & _ & Hk). exists t. split_and!; [done| |].
  - intros i Hi. by apply filled_good.
  - intros k p Hp Hd. cbn zeta. fold l. assert (Hin : (Z.of_nat k, p) ∈ l).
    { apply good_parts_spec; [lia|]. rewrite Z.sub_0_r, Nat2Z.id. split_and!; [lia|done|done]. }
    apply list_elem_of_lookup in Hin as [j Hj]. assert (Hmj : l.*1 !! j = Some (Z.of_nat k)) by (by rewrite list_lookup_fmap, Hj).
    pose proof (Hc j _ Hmj) as Hq. rewrite Hk, Hj in Hq. cbn [fmap option_fmap option_map snd] in Hq. injection Hq as Hq.
    rewrite <- Hq. unfold PART_HASH_TABLE_SIZE. destruct (_ <? _); lia.
Qed.

(** with the table built, [key_to_part] finds for every key, whatever the
    host table holds, a partition on a good disk of the record it uses. *)
Theorem key_to_part_good cp' m_numEntries host_len matched word2 : build_part_hash_table max_errors cp = Some cp' ->
  matched = None \/ matched = Some cp' \/ (0 <? m_numEntries) && negb (host_len =? 0) = false ->
  exists p, key_to_part cp' m_numEntries host_len matched word2 = Some p /\ p ∈ parts cp /\ DISK_BAD max_errors p = false.
Proof.
  destruct build_spec as (t & -> & Hft). intros [= <-] Hm.
  set (h := Z.shiftr word2 DIR_TAG_WIDTH mod PART_HASH_TABLE_SIZE). assert (Hh : 0 <= h < 32707) by (apply Z.mod_pos_bound; unfold PART_HASH_TABLE_SIZE; lia).
  destruct (filled_good t h Hft Hh) as (k & p & Ek & Ep & Hd). exists p. split_and!; [|by eapply list_elem_of_lookup_2|done].
  assert (Hpick : (i ← t !! h; parts cp !! Z.to_nat i) = Some p) by (by rewrite Ek).
  unfold key_to_part. fold h. cbn [part_hash_table parts]. destruct Hm as [->|[->| ->]]; [by case_match|by case_match|done].
Qed.
End build.

(** Three partitions, the second on a bad disk. *)
Definition sample_record : CacheHostRecord := mkHostRecord [mkPart 0 512000 77; mkPart 9 5000 3; mkPart 0 1536000 12345678901] None.

Lemma sample_record_blocks p : p ∈ parts sample_record -> DISK_BAD 5 p = false -> 0 < part_blocks p.
Proof. intros Hp _. repeat (apply elem_of_cons in Hp as [-> |Hp]; [by vm_compute|]). by apply not_elem_of_nil in Hp. Qed.

Lemma sample_record_good : exists p, p ∈ parts sample_record /\ DISK_BAD 5 p = false.
Proof. exists (mkPart 0 512000 77). split; [by left|done]. Qed.

Lemma part_hash_table_shares_witness : exists t, build_part_hash_table 5 sample_record = Some (mkHostRecord (parts sample_record) (Some t)) /\
  8176 <= count_slots t 0 <= 8177 /\ 24530 <= count_slots t 2 <= 24531.
Proof.
  destruct (part_hash_table_shares 5 sample_record ltac:(done) sample_record_blocks sample_record_good) as (t & E & _ & H).
  exists t. split_and!; [exact E|apply (H 0%nat _ eq_refl eq_refl)..|apply (H 2%nat _ eq_refl eq_refl)|apply (H 2%nat _ eq_refl eq_refl)].
Defined.

Lemma key_to_part_good_witness : exists cp' p, build_part_hash_table 5 sample_record = Some cp' /\
  key_to_part cp' 1 7 (Some cp') 4096 = Some p /\ DISK_BAD 5 p = false.
Proof.
  destruct (build_spec 5 sample_record ltac:(done) sample_record_blocks sample_record_good) as (t & E & _).
  destruct (key_to_part_good 5 sample_record ltac:(done) sample_record_blocks sample_record_good _ 1 7 _ 4096 E (or_intror (or_introl eq_refl)))
    as (p & Hp & _ & Hd).
  eauto 6.
Defined.
