(* ===== verification/ClusterHash.v ===== *)
(** Which machine of a cluster owns an object ([iocore/cluster/ClusterHash.cc],
    [ClusterConfig.cc], [P_ClusterCache.h]): the table of 32707 slots of a
    configuration, the configurations with one machine more or less, and the
    search for a machine through the past configurations.

    A [ClusterMachine *] is a record whose [machine_id] stands for the address.
    The history of configurations is the list that [link.next] makes. *)

From S2P Require Import Prelude RandTable.
From Stdlib Require Import Sorted.

Definition CLUSTER_MAX_MACHINES : Z := 256.
Definition CLUSTER_HASH_TABLE_SIZE : Z := 32707.
Definition CLUSTER_HASH_EMPTY : Z := 255.
Definition CONFIGURATION_HISTORY_PROBE_DEPTH : nat := 1.
Definition CLUSTER_CONFIGURATION_TIMEOUT : Z := 24 * 60 * 60 * 1000 * 1000000.

Definition machineClusterHash : bool := true.
Definition boundClusterHash : bool := false.

Record ClusterMachine := mkMachine { machine_id : nat; ip : Z; dead : bool }.

Record ClusterConfiguration := mkConfiguration {
  machines : list ClusterMachine;
  hash_table : gmap Z Z;
  changed : Z
}.

Definition n_machines (c : ClusterConfiguration) : nat := length (machines c).

Definition machine_hash (c : ClusterConfiguration) (hash_value : Z) : option ClusterMachine :=
  i ← hash_table c !! (hash_value mod CLUSTER_HASH_TABLE_SIZE); machines c !! Z.to_nat i.

(** ** Building the table *)

(** [mine = total / (n_machines - i); mach[i] = mine; total -= mine;] *)
Fixpoint machine_shares (n : nat) (total : Z) : list Z :=
  match n with
  | O => []
  | S n' => let mine := total `quot` Z.of_nat n in mine :: machine_shares n' (total - mine)
  end.

Definition ip_seed (ip : Z) : Z :=
  Z.lxor (Z.lxor (Z.land (Z.shiftr ip 15) 32767) (Z.land ip 32767)) (Z.shiftr ip 30).

Record MFill := mkMFill { m_table : gmap Z Z; mach : list Z; m_rnd : list Z; m_left : Z; cur : nat }.

(** The loop of [build_hash_table_machine]; [bound] is [boundClusterHash]. *)
Fixpoint machine_fill (fuel n : nat) (bound : bool) (st : MFill) : option (gmap Z Z) :=
  if m_left st =? 0 then Some (m_table st)
  else
    match fuel with
    | O => None
    | S f =>
      let next := (S (cur st) mod n)%nat in
      if (mach st !!! cur st =? 0) && bound then machine_fill f n bound (mkMFill (m_table st) (mach st) (m_rnd st) (m_left st) next)
      else
        match probe (m_table st) CLUSTER_HASH_EMPTY (m_rnd st !!! cur st) with
        | None => None
        | Some (seed, i) =>
          machine_fill f n bound (mkMFill (<[i := wrapu 8 (Z.of_nat (cur st))]> (m_table st)) (alter (fun x => u32 (x - 1)) (cur st) (mach st))
                                          (<[cur st := seed]> (m_rnd st)) (m_left st - 1) next)
        end
    end.

Definition build_hash_table_machine (bound : bool) (c : ClusterConfiguration) : option ClusterConfiguration :=
  let n := n_machines c in
  t ← machine_fill (Z.to_nat CLUSTER_HASH_TABLE_SIZE * n) n bound
        (mkMFill (empty_table CLUSTER_HASH_EMPTY) (machine_shares n CLUSTER_HASH_TABLE_SIZE) ((fun m => u32 (ip_seed (ip m))) <$> machines c)
                 CLUSTER_HASH_TABLE_SIZE 0);
  Some (mkConfiguration (machines c) t (changed c)).

(** The random numbers of a slot until one is the index of a machine. *)
Definition bucket_step (n : nat) (bound : bool) (mach : list Z) (seed : Z) : Z + Z :=
  let seed' := next_rand seed in
  let x := seed' mod CLUSTER_MAX_MACHINES in
  if (x >=? Z.of_nat n) || ((mach !!! Z.to_nat x =? 0) && bound) then inl seed' else inr x.

Fixpoint bucket_fill (slots : list Z) (n : nat) (bound : bool) (mach : list Z) (t : gmap Z Z) : option (gmap Z Z) :=
  match slots with
  | [] => Some t
  | i :: slots' =>
    match iter_until (bucket_step n bound mach) RAND_PERIOD i with
    | inl _ => None
    | inr x => bucket_fill slots' n bound (alter (fun y => u32 (y - 1)) (Z.to_nat x) mach) (<[i := x]> t)
    end
  end.

Definition build_hash_table_bucket (bound : bool) (c : ClusterConfiguration) : option ClusterConfiguration :=
  let n := n_machines c in
  t ← bucket_fill (seqZ 0 CLUSTER_HASH_TABLE_SIZE) n bound (machine_shares n CLUSTER_HASH_TABLE_SIZE) (hash_table c);
  Some (mkConfiguration (machines c) t (changed c)).

Definition build_cluster_hash_table (c : ClusterConfiguration) : option ClusterConfiguration :=
  if machineClusterHash then build_hash_table_machine boundClusterHash c else build_hash_table_bucket boundClusterHash c.

(** ** Configurations *)

Fixpoint insert_machine (m : ClusterMachine) (l : list ClusterMachine) : list ClusterMachine :=
  match l with
  | [] => [m]
  | x :: l' => if ip x >? ip m then m :: x :: l' else x :: insert_machine m l'
  end.

(** The new configuration, whose [link.next] is [c]; [None] where the assertion
    on the number of machines stops the program. *)
Definition configuration_add_machine (now : Z) (c : ClusterConfiguration) (m : ClusterMachine) : option ClusterConfiguration :=
  let l := insert_machine m (machines c) in
  if Z.of_nat (length l) <? CLUSTER_MAX_MACHINES then build_cluster_hash_table (mkConfiguration l (hash_table c) now) else None.

(** [for (i = 0; i < n_machines - 1; i++) if (m == machines[i]) m = machines[i] = machines[i + 1]; n_machines--;] *)
Fixpoint shift_down (m : ClusterMachine) (l : list ClusterMachine) : list ClusterMachine :=
  match l with
  | [] => []
  | x :: l' =>
    match l' with
    | [] => []
    | y :: _ => if decide (machine_id m = machine_id x) then y :: shift_down y l' else x :: shift_down m l'
    end
  end.

Definition configuration_remove_machine (now : Z) (c : ClusterConfiguration) (m : ClusterMachine) : option ClusterConfiguration :=
  let l := shift_down m (machines c) in
  if (0 <? length l)%nat then build_cluster_hash_table (mkConfiguration l (hash_table c) now) else None.

(** ** Machines of the past *)

Definition machine_in_vector (m : ClusterMachine) (mm : list ClusterMachine) (len : nat) : bool :=
  existsb (fun x => (machine_id m =? machine_id x)%nat) (take len mm).

(** What a call yields: the entries of [depth_list], or a read through NULL. *)
Inductive depth_result := DepthList (l : list (option ClusterMachine)) | NullDereference.

(** [hist] is the current configuration and those before it.  The loop runs
    while [!cc]. *)
Definition cluster_machine_depth_list (hist : list ClusterConfiguration) (hash : Z) : depth_result :=
  match hist with
  | [] => NullDereference
  | cc :: past =>
    match machine_hash cc hash with
    | None => NullDereference
    | Some m => match past with [] => NullDereference | _ :: _ => DepthList [Some m] end
    end
  end.

(** The loop of [cluster_machine_at_depth] over [next_cc]: [with_depth] says
    whether [pprobe_depth] was given; the result has the new [probe_depth] and
    [past_probes]. *)
Fixpoint at_depth_go (now : Z) (this_machine : nat) (with_depth : bool) (hash : Z) (next_cc : list ClusterConfiguration)
    (probe_depth tprobe_depth : nat) (past_probes : option (list ClusterMachine)) : option ClusterMachine * nat * option (list ClusterMachine) :=
  let fail := (None, probe_depth, past_probes) in
  if (CONFIGURATION_HISTORY_PROBE_DEPTH <? probe_depth)%nat then fail
  else
    match next_cc with
    | [] => fail
    | cc :: next =>
      match tprobe_depth with
      | S t =>
        if changed cc >? now + CLUSTER_CONFIGURATION_TIMEOUT then fail
        else at_depth_go now this_machine with_depth hash next probe_depth t past_probes
      | O =>
        match machine_hash cc hash with
        | None => fail
        | Some m =>
          let seen := match past_probes with Some l => machine_in_vector m l probe_depth | None => false end in
          let ok := negb ((machine_id m =? this_machine)%nat || seen || dead m) in
          let past' := match past_probes with
                       | Some l => Some (if (probe_depth <? CONFIGURATION_HISTORY_PROBE_DEPTH)%nat then take probe_depth l ++ m :: drop (S probe_depth) l else l)
                       | None => None
                       end in
          if ok then (Some m, S probe_depth, past')
          else if with_depth then at_depth_go now this_machine with_depth hash next (S probe_depth) 0 past'
          else (None, S probe_depth, past')
        end
      end
    end.

Definition cluster_machine_at_depth (now : Z) (this_machine : nat) (hist : list ClusterConfiguration) (hash : Z)
    (pprobe_depth : option nat) (past_probes : option (list ClusterMachine)) : option ClusterMachine * nat * option (list ClusterMachine) :=
  let probe_depth := default 0%nat pprobe_depth in
  at_depth_go now this_machine (bool_decide (is_Some pprobe_depth)) hash hist probe_depth probe_depth past_probes.

(** * The table of a cluster configuration gives every machine its share, and the
    search for a machine finds only machines worth asking. *)

(** ** The table by machine *)

(** The slots machine [k] of [n] has after [j] turns of the round. *)
Definition turns (n j k : Z) : Z := (j + n - 1 - k) / n.

Lemma turns_step n q r k : 0 <= r < n -> 0 <= k < n -> turns n (q * n + r + 1) k = turns n (q * n + r) k + (if decide (k = r) then 1 else 0).
Proof.
  intros Hr Hk. unfold turns. destruct (decide (k = r)) as [->|Hne].
  - replace (q * n + r + 1 + n - 1 - r) with (0 + (q + 1) * n) by ring. replace (q * n + r + n - 1 - r) with (n - 1 + q * n) by ring.
    rewrite !Z.div_add by lia. rewrite !Z.div_small by lia. lia.
  - replace (q * n + r + 1 + n - 1 - k) with (r + n - k + q * n) by ring. replace (q * n + r + n - 1 - k) with (r + n - 1 - k + q * n) by ring.
    rewrite !Z.div_add by lia. destruct (decide (k < r)).
    + rewrite <- (Z.div_unique (r + n - k) n 1 (r - k)), <- (Z.div_unique (r + n - 1 - k) n 1 (r - 1 - k)); lia.
    + rewrite !Z.div_small by lia. lia.
Qed.

Lemma turns_share n k : 0 <= k < n -> CLUSTER_HASH_TABLE_SIZE / n <= turns n CLUSTER_HASH_TABLE_SIZE k <= CLUSTER_HASH_TABLE_SIZE / n + 1.
Proof.
  intros Hk. unfold turns. split.
  - apply Z.div_le_mono; lia.
  - rewrite <- Z.div_add by lia. apply Z.div_le_mono; lia.
Qed.

Section machine_table.
Context (n : nat) (Hn : (0 < n)%nat) (Hn255 : Z.of_nat n <= CLUSTER_HASH_EMPTY).

Record mfill_inv (st : MFill) : Prop := {
  mf_left : 0 <= m_left st <= CLUSTER_HASH_TABLE_SIZE;
  mf_cur : Z.of_nat (cur st) = (CLUSTER_HASH_TABLE_SIZE - m_left st) mod Z.of_nat n;
  mf_empty : count_slots (m_table st) CLUSTER_HASH_EMPTY = m_left st;
  mf_count : forall k, 0 <= k < Z.of_nat n -> count_slots (m_table st) k = turns (Z.of_nat n) (CLUSTER_HASH_TABLE_SIZE - m_left st) k;
  mf_values : forall i, 0 <= i < HASH_TABLE_SIZE -> exists v, m_table st !! i = Some v /\ (v = CLUSTER_HASH_EMPTY \/ 0 <= v < Z.of_nat n) }.

Definition mfilled (t : gmap Z Z) : Prop :=
  (forall i, 0 <= i < HASH_TABLE_SIZE -> exists v, t !! i = Some v /\ 0 <= v < Z.of_nat n) /\
  (forall k, 0 <= k < Z.of_nat n -> count_slots t k = turns (Z.of_nat n) CLUSTER_HASH_TABLE_SIZE k).

Lemma mfill_inv_place st i r mc : mfill_inv st -> 0 < m_left st -> 0 <= i < HASH_TABLE_SIZE -> m_table st !! i = Some CLUSTER_HASH_EMPTY ->
  mfill_inv (mkMFill (<[i := wrapu 8 (Z.of_nat (cur st))]> (m_table st)) mc r (m_left st - 1) (S (cur st) mod n)%nat).
Proof.
  intros [Hl Hc He Hk Hv] Hpos Hi Hti. set (j := CLUSTER_HASH_TABLE_SIZE - m_left st) in *.
  assert (Hcur : 0 <= Z.of_nat (cur st) < Z.of_nat n) by (rewrite Hc; apply Z.mod_pos_bound; lia).
  unfold CLUSTER_HASH_EMPTY in Hn255. rewrite wrapu_id by (change (2 ^ 8) with 256; lia).
  assert (Hcount : forall w, count_slots (<[i := Z.of_nat (cur st)]> (m_table st)) w =
    count_slots (m_table st) w + (if decide (w = Z.of_nat (cur st)) then 1 else if decide (w = CLUSTER_HASH_EMPTY) then -1 else 0)).
  { intros w. apply count_slots_insert; [done|done|unfold CLUSTER_HASH_EMPTY; lia]. }
  pose proof (Z.div_mod j (Z.of_nat n) ltac:(lia)) as Ej. rewrite <- Hc in Ej.
  assert (Ej1 : CLUSTER_HASH_TABLE_SIZE - (m_left st - 1) = j + 1) by (unfold j; lia).
  split; cbn [m_table m_left cur]; rewrite ?Ej1.
  - lia.
  - rewrite Nat2Z.inj_mod, Nat2Z.inj_succ, Hc. rewrite <- Z.add_1_r, Zplus_mod_idemp_l. done.
  - rewrite Hcount, decide_False, decide_True by (done || (unfold CLUSTER_HASH_EMPTY; lia)). lia.
  - intros k Hkn. rewrite Hcount, (Hk k Hkn). replace j with (j / Z.of_nat n * Z.of_nat n + Z.of_nat (cur st)) by lia.
    rewrite turns_step by lia. destruct (decide (k = Z.of_nat (cur st))); [done|]. rewrite decide_False by (unfold CLUSTER_HASH_EMPTY; lia). done.
  - intros x Hx. destruct (decide (x = i)) as [->|].
    + rewrite lookup_insert_eq. eexists. split; [done|]. by right.
    + rewrite lookup_insert_ne by done. by apply Hv.
Qed.

Lemma machine_fill_spec fuel st : mfill_inv st -> m_left st <= Z.of_nat fuel -> exists t, machine_fill fuel n false st = Some t /\ mfilled t.
Proof.
  assert (Hdone : forall st, mfill_inv st -> m_left st = 0 -> mfilled (m_table st)).
  { intros s [Hl Hc He Hk Hv] H0. rewrite H0 in *. rewrite Z.sub_0_r in *. split; [|done].
    intros i Hi. destruct (Hv i Hi) as (v & Ev & [-> |?]); [|eauto]. by apply (count_slots_zero _ _ i He) in Ev. }
  revert st. induction fuel as [|fuel IH]; intros st Hinv Hf.
  - pose proof (mf_left st Hinv). assert (H0 : m_left st = 0) by lia. cbn. rewrite H0. exists (m_table st). split; [done|by apply Hdone].
  - cbn [machine_fill]. destruct (Z.eqb_spec (m_left st) 0) as [H0|H0]; [exists (m_table st); split; [done|by apply Hdone]|].
    rewrite andb_false_r. pose proof (mf_left st Hinv) as Hl.
    destruct (count_slots_pos (m_table st) CLUSTER_HASH_EMPTY) as (i0 & Hi0 & Ei0); [rewrite (mf_empty st Hinv); lia|].
    destruct (probe_found (m_table st) CLUSTER_HASH_EMPTY (m_rnd st !!! cur st) i0 Ei0 Hi0) as (seed & i & -> & Ei & Hi & _).
    apply IH; [apply mfill_inv_place; [done|lia|done|done]|]. cbn [m_left]. lia.
Qed.

Lemma machine_fill_start r mc : exists t, machine_fill (Z.to_nat CLUSTER_HASH_TABLE_SIZE * n) n false (mkMFill (empty_table CLUSTER_HASH_EMPTY) mc r CLUSTER_HASH_TABLE_SIZE 0) = Some t /\ mfilled t.
Proof.
  apply machine_fill_spec.
  - split; cbn [m_left m_table cur]; unfold CLUSTER_HASH_EMPTY in *.
    + unfold CLUSTER_HASH_TABLE_SIZE. lia.
    + rewrite Z.sub_diag, Z.mod_0_l by lia. done.
    + by rewrite count_empty_table, decide_True.
    + intros k Hk. rewrite count_empty_table, decide_False by lia. unfold turns. rewrite Z.div_small; lia.
    + intros i Hi. eexists. split; [by apply lookup_empty_table|by left].
  - cbn [m_left]. rewrite Nat2Z.inj_mul, Z2Nat.id by (unfold CLUSTER_HASH_TABLE_SIZE; lia). unfold CLUSTER_HASH_TABLE_SIZE. nia.
Qed.
End machine_table.

(** A table all of whose slots are machines of the configuration. *)
Definition table_ok (c : ClusterConfiguration) : Prop :=
  forall h, exists m, machine_hash c h = Some m /\ m ∈ machines c.

Lemma table_ok_intro c : (forall i, 0 <= i < HASH_TABLE_SIZE -> exists v, hash_table c !! i = Some v /\ 0 <= v < Z.of_nat (n_machines c)) -> table_ok c.
Proof.
  intros H h. destruct (H (h mod CLUSTER_HASH_TABLE_SIZE)) as (v & Ev & Hv); [apply Z.mod_pos_bound; done|].
  destruct (lookup_lt_is_Some_2 (machines c) (Z.to_nat v)) as [m Hm]; [unfold n_machines in Hv; lia|].
  exists m. split; [unfold machine_hash; by rewrite Ev|by eapply list_elem_of_lookup_2].
Qed.

Lemma build_ok c : (0 < n_machines c)%nat -> Z.of_nat (n_machines c) < CLUSTER_MAX_MACHINES ->
  exists c', build_cluster_hash_table c = Some c' /\ machines c' = machines c /\ changed c' = changed c /\ table_ok c' /\ mfilled (n_machines c) (hash_table c').
Proof.
  intros H0 Hmax. unfold build_cluster_hash_table, build_hash_table_machine, machineClusterHash, boundClusterHash.
  assert (Hn255 : Z.of_nat (n_machines c) <= CLUSTER_HASH_EMPTY) by (unfold CLUSTER_MAX_MACHINES, CLUSTER_HASH_EMPTY in *; lia).
  destruct (machine_fill_start (n_machines c) H0 Hn255 ((fun m => u32 (ip_seed (ip m))) <$> machines c) (machine_shares (n_machines c) CLUSTER_HASH_TABLE_SIZE)) as (t & -> & Ht).
  eexists. split; [reflexivity|]. split_and!; [done|done| |exact Ht]. apply table_ok_intro. apply Ht.
Qed.

(** ** The table by slot *)

Lemma bucket_found n mach seed : (0 < n)%nat -> exists x, iter_until (bucket_step n false mach) RAND_PERIOD seed = inr x /\ 0 <= x < Z.of_nat n.
Proof.
  intros Hn. rewrite iter_until_spec. pose proof (next_rand_range seed) as Hs.
  destruct (lcg_orbit next_rand 32 next_rand_affine (next_rand seed) 0) as (k & Hk & Ek); [exact Hs|change (2 ^ Z.of_nat 32) with 4294967296; lia|].
  destruct (iter_until_nat_reach (bucket_step n false mach) next_rand k seed) with (m := Pos.to_nat RAND_PERIOD) as (j & x & _ & Hstep & ->).
  - intros y z. unfold bucket_step. case_match; congruence.
  - unfold bucket_step. rewrite <- Nat.iter_swap, Ek, Z.mod_0_l, andb_false_r by (unfold CLUSTER_MAX_MACHINES; lia). destruct (Z.geb_spec 0 (Z.of_nat n)); [lia|]. eexists. reflexivity.
  - change (2 ^ Z.of_nat 32) with (Z.pos RAND_PERIOD) in Hk. lia.
  - exists x. split; [done|]. unfold bucket_step in Hstep. rewrite andb_false_r, orb_false_r in Hstep. set (y := next_rand (Nat.iter j next_rand seed)) in *.
    revert Hstep. destruct (Z.geb_spec (y mod CLUSTER_MAX_MACHINES) (Z.of_nat n)); intros Hstep; [discriminate Hstep|]. injection Hstep as Hstep. subst x.
    pose proof (Z.mod_pos_bound y CLUSTER_MAX_MACHINES ltac:(unfold CLUSTER_MAX_MACHINES; lia)). lia.
Qed.

Lemma bucket_fill_spec n slots mach t : (0 < n)%nat -> exists t', bucket_fill slots n false mach t = Some t' /\
  (forall i, i ∈ slots -> exists v, t' !! i = Some v /\ 0 <= v < Z.of_nat n) /\ (forall i, i ∉ slots -> t' !! i = t !! i).
Proof.
  intros Hn. revert mach t. induction slots as [|i slots IH]; intros mach t; cbn [bucket_fill].
  - exists t. split_and!; [done| |done]. by intros i ?%not_elem_of_nil.
  - destruct (bucket_found n mach i Hn) as (x & -> & Hx). destruct (IH (alter (fun y => u32 (y - 1)) (Z.to_nat x) mach) (<[i := x]> t)) as (t' & -> & H1 & H2).
    exists t'. split_and!; [done| |].
    + intros k Hk. destruct (decide (k ∈ slots)) as [Hin|Hout]; [by apply H1|]. apply elem_of_cons in Hk as [-> |?]; [|done].
      exists x. rewrite H2 by done. by rewrite lookup_insert_eq.
    + intros k [Hki Hk]%not_elem_of_cons. rewrite H2, lookup_insert_ne by done. done.
Qed.

(** ** Theorems *)

(** with fewer than 256 machines, and at least one, building the table ends;
    every slot holds the index of a machine, and each of the [n] machines owns
    the 32707 slots divided by [n], rounded down, or one more. *)
Theorem cluster_hash_shares c : (0 < n_machines c)%nat -> Z.of_nat (n_machines c) < CLUSTER_MAX_MACHINES ->
  exists c', build_cluster_hash_table c = Some c' /\ machines c' = machines c /\
    (forall hash_value, exists m, machine_hash c' hash_value = Some m /\ m ∈ machines c) /\
    (forall k, 0 <= k < Z.of_nat (n_machines c) ->
      CLUSTER_HASH_TABLE_SIZE / Z.of_nat (n_machines c) <= count_slots (hash_table c') k <= CLUSTER_HASH_TABLE_SIZE / Z.of_nat (n_machines c) + 1).
Proof.
  intros H0 Hmax. destruct (build_ok c H0 Hmax) as (c' & E & Em & _ & Hok & _ & Hc). exists c'. split_and!; [done|done| |].
  - intros h. rewrite <- Em. apply Hok.
  - intros k Hk. rewrite Hc by done. by apply turns_share.
Qed.

(** The table by slot ([machineClusterHash] off) is also built in full from
    any number of machines up to 256: every slot holds the index of a machine. *)
Theorem bucket_hash_total c : (0 < n_machines c)%nat ->
  exists c', build_hash_table_bucket false c = Some c' /\ machines c' = machines c /\
    forall hash_value, exists m, machine_hash c' hash_value = Some m /\ m ∈ machines c.
Proof.
  intros H0. unfold build_hash_table_bucket.
  destruct (bucket_fill_spec (n_machines c) (seqZ 0 CLUSTER_HASH_TABLE_SIZE) (machine_shares (n_machines c) CLUSTER_HASH_TABLE_SIZE) (hash_table c) H0) as (t & -> & Ht & _).
  eexists. split_and!; [reflexivity|done|]. apply (table_ok_intro (mkConfiguration (machines c) t (changed c))). intros i Hi. apply Ht, elem_of_seqZ.
  unfold HASH_TABLE_SIZE in Hi. unfold CLUSTER_HASH_TABLE_SIZE. lia.
Qed.

Lemma insert_machine_perm m l : insert_machine m l ≡ₚ m :: l.
Proof. induction l as [|x l IH]; cbn; [done|]. destruct (_ >? _); [done|]. rewrite IH. apply Permutation_swap. Qed.

Definition ip_sorted (l : list ClusterMachine) : Prop := StronglySorted (fun x y => ip x <= ip y) l.

Lemma insert_machine_sorted m l : ip_sorted l -> ip_sorted (insert_machine m l).
Proof.
  unfold ip_sorted. induction 1 as [|x l Hl IH Hx]; cbn; [repeat constructor|]. destruct (Z.gtb_spec (ip x) (ip m)).
  - constructor; [by constructor|]. constructor; [lia|]. eapply Forall_impl; [exact Hx|]. intros y Hy. cbv beta in *. lia.
  - constructor; [done|]. rewrite insert_machine_perm. by constructor.
Qed.

(** Adding a machine to a configuration of fewer than 255 yields a
    configuration that has the same machines and the new one, in the order of
    their addresses if they were in that order, and whose table is complete. *)
Theorem add_machine_effect now c m : Z.of_nat (n_machines c) < 255 ->
  exists c', configuration_add_machine now c m = Some c' /\ machines c' ≡ₚ m :: machines c /\
    (ip_sorted (machines c) -> ip_sorted (machines c')) /\ changed c' = now /\ table_ok c'.
Proof.
  intros Hn. unfold configuration_add_machine. pose proof (insert_machine_perm m (machines c)) as Hp. pose proof (Permutation_length Hp) as Hl. cbn in Hl.
  rewrite Hl. unfold n_machines, CLUSTER_MAX_MACHINES in *. destruct (Z.ltb_spec (Z.of_nat (S (length (machines c)))) 256); [|lia].
  destruct (build_ok (mkConfiguration (insert_machine m (machines c)) (hash_table c) now)) as (c' & -> & Em & Ec & Hok & _).
  - unfold n_machines. cbn. lia.
  - unfold n_machines, CLUSTER_MAX_MACHINES. cbn [machines]. lia.
  - exists c'. rewrite Em. split_and!; [done|done| |done|done]. apply insert_machine_sorted.
Qed.

Lemma shift_down_in m l : NoDup (machine_id <$> l) -> machine_id m ∈ machine_id <$> l -> shift_down m l = filter (fun x => machine_id x <> machine_id m) l.
Proof.
  revert m. induction l as [|x l IH]; intros m Hnd Hin; [done|]. cbn [shift_down]. cbn in Hnd. apply NoDup_cons in Hnd as [Hx Hnd].
  destruct (decide (machine_id m = machine_id x)) as [E|E].
  - rewrite filter_cons_False by (rewrite E; tauto). rewrite (filter_id_in _ l).
    2:{ intros y Hy Ey. apply Hx. rewrite <- E, <- Ey. by apply list_elem_of_fmap_2. }
    destruct l as [|y l]; [done|]. f_equal. rewrite IH; [|done|by left]. cbn in Hnd. apply NoDup_cons in Hnd as [Hy _].
    rewrite filter_cons_False by tauto. apply filter_id_in. intros z Hz Ez. apply Hy. rewrite <- Ez. by apply list_elem_of_fmap_2.
  - rewrite filter_cons_True by congruence. cbn in Hin. apply elem_of_cons in Hin as [?|Hin]; [done|].
    destruct l as [|y l]; [by apply not_elem_of_nil in Hin|]. f_equal. by apply IH.
Qed.

Lemma shift_down_length m l : length (shift_down m l) = pred (length l).
Proof.
  revert m. induction l as [|x l IH]; intros m; [done|]. cbn [shift_down]. destruct l as [|y l]; [done|].
  case_decide; cbn [length pred]; f_equal; apply IH.
Qed.

(** Removing a machine of a configuration of several yields one with exactly
    the others, in the same order, and a complete table. *)
Theorem remove_machine_effect now c m : (1 < n_machines c)%nat -> Z.of_nat (n_machines c) < CLUSTER_MAX_MACHINES ->
  NoDup (machine_id <$> machines c) -> machine_id m ∈ machine_id <$> machines c ->
  exists c', configuration_remove_machine now c m = Some c' /\ machines c' = filter (fun x => machine_id x <> machine_id m) (machines c) /\ table_ok c'.
Proof.
  intros H1 Hmax Hnd Hin. unfold configuration_remove_machine. pose proof (shift_down_in m (machines c) Hnd Hin) as Es.
  pose proof shift_down_length as Hlen.
  rewrite Hlen. unfold n_machines in *. destruct (Nat.ltb_spec 0 (pred (length (machines c)))); [|lia].
  destruct (build_ok (mkConfiguration (shift_down m (machines c)) (hash_table c) now)) as (c' & -> & Em & _ & Hok & _).
  - unfold n_machines. cbn [machines]. rewrite Hlen. lia.
  - unfold n_machines. cbn [machines]. rewrite Hlen. lia.
  - exists c'. rewrite Em. split_and!; [done|exact Es|done].
Qed.

(** [cluster_machine_depth_list] tests [!cc] where it means [cc]: with no
    past configuration it reads through the null pointer, and with one it never
    looks at it, whatever machine it names. *)
Theorem depth_list_past cc past hash m : machine_hash cc hash = Some m ->
  cluster_machine_depth_list [cc] hash = NullDereference /\
  (past <> [] -> cluster_machine_depth_list (cc :: past) hash = DepthList [Some m]).
Proof. intros Hm. unfold cluster_machine_depth_list. rewrite Hm. split; [done|]. by destruct past. Qed.

Lemma at_depth_found now self with_depth hash hist pd tpd past m pd' past' :
  at_depth_go now self with_depth hash hist pd tpd past = (Some m, pd', past') ->
  machine_id m <> self /\ dead m = false /\ (forall l, past = Some l -> pd = 0%nat \/ m ∉ take pd l) /\
  (pd < pd' <= S CONFIGURATION_HISTORY_PROBE_DEPTH)%nat /\ exists cc, cc ∈ hist /\ machine_hash cc hash = Some m.
Proof.
  revert pd tpd past. induction hist as [|cc hist IH]; intros pd tpd past; cbn [at_depth_go]; (destruct (Nat.ltb_spec CONFIGURATION_HISTORY_PROBE_DEPTH pd) as [|Hpd]; [done|]); [done|].
  destruct tpd as [|tpd].
  - destruct (machine_hash cc hash) as [m0|] eqn:Em; [|done]. set (seen := match past with Some _ => _ | None => false end).
    set (past1 := match past with Some _ => _ | None => None end).
    destruct (negb _) eqn:Eok.
    + intros [= <- <- _]. apply negb_true_iff in Eok. rewrite !orb_false_iff in Eok. destruct Eok as [[Hs Hseen] Hd].
      apply Nat.eqb_neq in Hs. split_and!; [done|done| |lia|lia|exists cc; split; [by left|done]].
      intros l ->. right. intros Hin. unfold seen, machine_in_vector in Hseen. apply not_true_iff_false in Hseen. apply Hseen, existsb_exists.
      exists m0. split; [by apply list_elem_of_In|]. apply Nat.eqb_refl.
    + destruct with_depth; [|done]. intros H. apply IH in H as (H1 & H2 & H3 & H4 & cc' & Hcc & Hm). split_and!; [done|done| |lia|lia|exists cc'; split; [by right|done]].
      intros l ->. assert (pd = 0%nat \/ pd = 1%nat) as [-> | ->] by (unfold CONFIGURATION_HISTORY_PROBE_DEPTH in *; lia); [by left|right].
      unfold CONFIGURATION_HISTORY_PROBE_DEPTH in *. lia.
  - destruct (_ >? _); [done|]. intros H. apply IH in H as (H1 & H2 & H3 & H4 & cc' & Hcc & Hm).
    split_and!; [done|done|done|lia|lia|]. exists cc'. split; [by right|done].
Qed.

(** A machine that [cluster_machine_at_depth] yields is not this machine, is
    not dead, is none of those probed before, owns the object in the current or a
    past configuration, and the depth grows with the search and stays within the
    bound. *)
Theorem machine_at_depth_sound now self hist hash pprobe_depth past m pd' past' :
  cluster_machine_at_depth now self hist hash pprobe_depth past = (Some m, pd', past') ->
  machine_id m <> self /\ dead m = false /\ (forall l, past = Some l -> m ∉ take (default 0%nat pprobe_depth) l) /\
  (default 0 pprobe_depth < pd' <= 2)%nat /\ exists cc, cc ∈ hist /\ machine_hash cc hash = Some m.
Proof.
  intros H. unfold cluster_machine_at_depth in H. apply at_depth_found in H as (H1 & H2 & H3 & H4 & H5).
  split_and!; [done|done| |lia|unfold CONFIGURATION_HISTORY_PROBE_DEPTH in H4; lia|done].
  intros l Hl. destruct (H3 l Hl) as [-> |?]; [apply not_elem_of_nil|done].
Qed.

(** Three machines. *)
Definition sample_machines : list ClusterMachine := [mkMachine 1 167772161 false; mkMachine 2 167772162 false; mkMachine 3 167772163 true].
Definition sample_configuration : ClusterConfiguration := mkConfiguration sample_machines ∅ 0.

Lemma cluster_hash_shares_witness : exists c', build_cluster_hash_table sample_configuration = Some c' /\ 10902 <= count_slots (hash_table c') 2 <= 10903.
Proof.
  destruct (cluster_hash_shares sample_configuration) as (c' & E & _ & _ & H); [cbn; lia|done|]. exists c'. split; [exact E|].
  apply (H 2). cbn. lia.
Defined.

Lemma bucket_hash_total_witness : exists c', build_hash_table_bucket false sample_configuration = Some c' /\ machines c' = sample_machines.
Proof. destruct (bucket_hash_total sample_configuration) as (c' & E & Em & _); [cbn; lia|]. exists c'. split; [exact E|exact Em]. Defined.

Lemma add_machine_effect_witness : exists c', configuration_add_machine 5 sample_configuration (mkMachine 4 9 false) = Some c' /\
  machines c' ≡ₚ mkMachine 4 9 false :: sample_machines.
Proof. destruct (add_machine_effect 5 sample_configuration (mkMachine 4 9 false)) as (c' & E & Hp & _); [done|]. exists c'. split; [exact E|exact Hp]. Defined.

Lemma remove_machine_effect_witness : exists c', configuration_remove_machine 5 sample_configuration (mkMachine 2 167772162 false) = Some c' /\
  machines c' = [mkMachine 1 167772161 false; mkMachine 3 167772163 true].
Proof.
  destruct (remove_machine_effect 5 sample_configuration (mkMachine 2 167772162 false)) as (c' & E & Em & _);
    [cbn; lia|done|cbn; apply (bool_decide_unpack _); by vm_compute|cbn; apply (bool_decide_unpack _); by vm_compute|].
  exists c'. split; [exact E|exact Em].
Defined.

(** A configuration whose table sends hash 0 to its machine. *)
Definition small_configuration (m : ClusterMachine) : ClusterConfiguration := mkConfiguration [m] {[ 0 := 0 ]} 0.

Lemma depth_list_past_witness : cluster_machine_depth_list [small_configuration (mkMachine 1 5 false)] 0 = NullDereference.
Proof. apply (depth_list_past (small_configuration (mkMachine 1 5 false)) [] 0 (mkMachine 1 5 false)). by vm_compute. Defined.

Lemma machine_at_depth_sound_witness : exists m, cluster_machine_at_depth 0 1 [small_configuration (mkMachine 1 5 false); small_configuration (mkMachine 2 6 false)] 0 (Some 0%nat) (Some []) =
  (Some m, 2%nat, Some [mkMachine 1 5 false]) /\ machine_id m <> 1%nat.
Proof.
  exists (mkMachine 2 6 false). split; [by vm_compute|].
  apply (machine_at_depth_sound 0 1 [small_configuration (mkMachine 1 5 false); small_configuration (mkMachine 2 6 false)] 0 (Some 0%nat) (Some [])
    (mkMachine 2 6 false) 2 (Some [mkMachine 1 5 false])). by vm_compute.
Defined.
