(* ===== verification/HttpFreshness.v ===== *)
(** What the cache may store and serve ([proxy/http2]: [HttpTransact.cc],
    [HttpTransactHeaders.cc]): the age and the freshness of a stored response,
    whether a response may be stored, and whether a stored one may be served
    although it is stale.

    A header is what these functions read of it: the cooked values of
    [MIME.h], the presence of fields, the values of a few.  [int] is 32 bits
    and wraps; [time_t] is 64 bits, and no sum of times here leaves its range. *)

From S2P Require Import Prelude ParseRules.

Definition NUM_SECONDS_IN_ONE_YEAR : Z := 31536000.
Definition UNDEFINED_TIME : Z := 0.
Definition MAXINT : Z := 2147483647.

Definition CC_MAX_AGE : Z := Z.shiftl 1 0.
Definition CC_NO_CACHE : Z := Z.shiftl 1 1.
Definition CC_NO_STORE : Z := Z.shiftl 1 2.
Definition CC_MAX_STALE : Z := Z.shiftl 1 4.
Definition CC_MIN_FRESH : Z := Z.shiftl 1 5.
Definition CC_PUBLIC : Z := Z.shiftl 1 7.
Definition CC_PRIVATE : Z := Z.shiftl 1 8.
Definition CC_MUST_REVALIDATE : Z := Z.shiftl 1 9.
Definition CC_PROXY_REVALIDATE : Z := Z.shiftl 1 10.
Definition CC_S_MAXAGE : Z := Z.shiftl 1 11.
Definition CC_NEED_REVALIDATE_ONCE : Z := Z.shiftl 1 12.

(** Fields whose presence matters; [WWW_AUTH] is the internal [@WWW-Auth]. *)
Inductive field := EXPIRES | LAST_MODIFIED | AUTHORIZATION | WWW_AUTHENTICATE | WWW_AUTH | SET_COOKIE | COOKIE | IF_MODIFIED_SINCE | RANGE | MAX_FORWARDS.

Inductive method := GET | HEAD | POST | PUT | DELETE | PURGE | PUSH | OTHER_METHOD.
Inductive scheme := HTTP | HTTPS | FTP | OTHER_SCHEME.

#[export] Instance method_eq_dec : EqDecision method.
Proof. solve_decision. Defined.
#[export] Instance scheme_eq_dec : EqDecision scheme.
Proof. solve_decision. Defined.

Record URL := mkURL { url_scheme : scheme; url_params : option (list Z); url_query : option (list Z); url_path : option (list Z) }.

Record HTTPHdr := mkHdr {
  cooked_cc_mask : Z; cooked_cc_max_age : Z; cooked_cc_s_maxage : Z; cooked_cc_max_stale : Z; cooked_cc_min_fresh : Z;
  cooked_pragma_no_cache : bool;
  presence : field -> bool;
  hdr_date : Z; hdr_expires : Z; hdr_last_modified : Z; hdr_age : Z; hdr_max_forwards : Z;
  content_type : option (list Z);
  hdr_method : method; hdr_status : Z; hdr_url : URL
}.

Definition cc_set (h : HTTPHdr) (mask : Z) : bool := negb (Z.land (cooked_cc_mask h) mask =? 0).

(** The lines of [cache.config] that match, and the parameters of the proxy. *)
Record CacheControlResult := mkCC {
  revalidate_after : Z; ttl_in_cache : Z; never_cache : bool;
  ignore_client_no_cache : bool; ignore_server_no_cache : bool; ignore_client_cc_max_age : bool
}.

Record HttpConfigParams := mkConfig {
  cache_heuristic_min_lifetime : Z; cache_heuristic_max_lifetime : Z; cache_guaranteed_min_lifetime : Z; cache_guaranteed_max_lifetime : Z;
  freshness_fuzz_time : Z; cache_when_to_revalidate : Z; cache_max_stale_age : Z;
  cache_http : bool; cache_ftp : bool; cache_range_lookup : bool; cache_urls_that_look_dynamic : bool; cache_ignore_auth : Z;
  cache_responses_to_cookies : Z; cache_required_headers : Z; negative_caching_enabled : bool; cache_ims_on_client_no_cache : bool
}.

(** ** Age *)

(** [HttpTransactHeaders::calculate_document_age] *)
Definition calculate_document_age (request_time response_time : Z) (base_response : HTTPHdr) (base_response_date now : Z) : Z :=
  let age_value := if hdr_age base_response >? 0 then hdr_age base_response else 0 in
  let date_value := if base_response_date >? 0 then base_response_date else 0 in
  let now_value := Z.max now response_time in
  let apparent_age := if date_value >? 0 then Z.max 0 (response_time - date_value) else 0 in
  let corrected_received_age := Z.max apparent_age age_value in
  let response_delay := response_time - request_time in
  let corrected_initial_age := corrected_received_age + response_delay in
  let resident_time := now_value - response_time in
  corrected_initial_age + resident_time.

(** ** How long a response is fresh *)

Definition one_year (x : Z) : Z := Z.min (Z.max 0 x) NUM_SECONDS_IN_ONE_YEAR.

Section freshness_limit.
(** [(int) (t * cache_heuristic_lm_factor)], in floating point. *)
Context (lm_share : Z -> Z).

(** The limit before it is clipped, and whether it is a guess.
    [read_while_write] is [is_readwhilewrite_inprogress()]. *)
Definition raw_freshness_limit (config : HttpConfigParams) (response : HTTPHdr) (response_date request_sent_time plugin_set_expire_time : Z)
    (read_while_write : bool) : Z * bool :=
  if cc_set response (Z.lor CC_S_MAXAGE CC_MAX_AGE) then
    (one_year (if cc_set response CC_S_MAXAGE then cooked_cc_s_maxage response else cooked_cc_max_age response), false)
  else
    let '(expires_set, expires_value) :=
      if negb (plugin_set_expire_time =? UNDEFINED_TIME) then (true, plugin_set_expire_time)
      else (presence response EXPIRES, hdr_expires response) in
    let date_set := response_date >? 0 in
    let date_value := if date_set then response_date else request_sent_time in
    if expires_set && negb read_while_write then
      let expires_value := if (expires_value =? UNDEFINED_TIME) || (expires_value <=? date_value) then date_value else expires_value in
      (one_year (wraps 32 (expires_value - date_value)), false)
    else
      let last_modified_set := presence response LAST_MODIFIED && negb (hdr_last_modified response =? UNDEFINED_TIME) in
      let last_modified_value := Z.min (hdr_last_modified response) date_value in
      if date_set && last_modified_set then (Z.max (wraps 32 (lm_share (date_value - last_modified_value))) 0, true)
      else (cache_heuristic_min_lifetime config, true).

(** [HttpTransact::calculate_document_freshness_limit] *)
Definition calculate_document_freshness_limit (config : HttpConfigParams) (response : HTTPHdr)
    (response_date request_sent_time plugin_set_expire_time : Z) (read_while_write : bool) : Z * bool :=
  let '(limit, heuristic) := raw_freshness_limit config response response_date request_sent_time plugin_set_expire_time read_while_write in
  let min_bound := Z.max 0 (cache_guaranteed_min_lifetime config) in
  let max_bound := Z.min NUM_SECONDS_IN_ONE_YEAR (cache_guaranteed_max_lifetime config) in
  let min_bound := if heuristic then Z.max min_bound (cache_heuristic_min_lifetime config) else min_bound in
  let max_bound := if heuristic then Z.min max_bound (cache_heuristic_max_lifetime config) else max_bound in
  let limit := if limit >? max_bound then max_bound else limit in
  let limit := if limit <? min_bound then min_bound else limit in
  (limit, heuristic).

Inductive Freshness_t := FRESHNESS_FRESH | FRESHNESS_WARNING | FRESHNESS_STALE.

(** What of the transaction the decision depends on.  [freshness_fuzz] is the
    random number of seconds [calculate_freshness_fuzz] yields. *)
Record FreshState := mkFresh {
  cache_control : CacheControlResult;
  now : Z; request_sent_time : Z; response_received_time : Z; plugin_set_expire_time : Z;
  read_while_write : bool;
  freshness_fuzz : Z -> Z
}.

(** The administrator's override of the calculation. *)
Definition when_to_revalidate (config : HttpConfigParams) (client_request : HTTPHdr) (heuristic : bool) : option Freshness_t :=
  if cache_when_to_revalidate config =? 0 then None
  else if bool_decide (url_scheme (hdr_url client_request) = HTTP) then
    if cache_when_to_revalidate config =? 1 then if heuristic then Some FRESHNESS_STALE else None
    else if cache_when_to_revalidate config =? 2 then Some FRESHNESS_STALE
    else if cache_when_to_revalidate config =? 3 then Some FRESHNESS_FRESH
    else if cache_when_to_revalidate config =? 4 then if presence client_request IF_MODIFIED_SINCE then Some FRESHNESS_STALE else None
    else None
  else None.

(** The limit as the client's directives change it, and whether it asks for a
    revalidation. *)
Definition client_age_limit (cc : CacheControlResult) (client_request : HTTPHdr) (os_specifies_revalidate : bool) (fresh_limit : Z) : Z * bool :=
  let age_limit := fresh_limit in
  if cc_set client_request (Z.lor (Z.lor CC_MAX_STALE CC_MIN_FRESH) CC_MAX_AGE) then
    let age_limit :=
      if cc_set client_request CC_MAX_STALE && negb os_specifies_revalidate then
        if negb (cooked_cc_max_stale client_request =? MAXINT) then wraps 32 (age_limit + cooked_cc_max_stale client_request)
        else cooked_cc_max_stale client_request
      else age_limit in
    let age_limit :=
      if cc_set client_request CC_MIN_FRESH then Z.min age_limit (wraps 32 (fresh_limit - cooked_cc_min_fresh client_request)) else age_limit in
    if negb (ignore_client_cc_max_age cc) && cc_set client_request CC_MAX_AGE then
      (Z.min age_limit (cooked_cc_max_age client_request), cooked_cc_max_age client_request =? 0)
    else (age_limit, false)
  else (age_limit, false).

(** The fresh limit and the age that [what_is_document_freshness] compares. *)
Definition fuzzed_limit (s : FreshState) (config : HttpConfigParams) (cached_obj_response : HTTPHdr) : Z * bool :=
  let '(limit, heuristic) :=
    calculate_document_freshness_limit config cached_obj_response (hdr_date cached_obj_response) (request_sent_time s)
      (plugin_set_expire_time s) (read_while_write s) in
  let limit :=
    if freshness_fuzz_time config >=? 0 then Z.min NUM_SECONDS_IN_ONE_YEAR (Z.max 0 (wraps 32 (limit - freshness_fuzz s limit))) else limit in
  (limit, heuristic).

Definition current_age (s : FreshState) (cached_obj_response : HTTPHdr) : Z :=
  Z.min NUM_SECONDS_IN_ONE_YEAR
    (wraps 32 (calculate_document_age (request_sent_time s) (response_received_time s) cached_obj_response (hdr_date cached_obj_response) (now s))).

(** [HttpTransact::what_is_document_freshness] *)
Definition what_is_document_freshness (s : FreshState) (config : HttpConfigParams) (client_request cached_obj_response : HTTPHdr) : Freshness_t :=
  let cc := cache_control s in
  if ttl_in_cache cc >? 0 then
    if wraps 32 (now s - response_received_time s) >? ttl_in_cache cc then FRESHNESS_STALE else FRESHNESS_FRESH
  else
    let os_specifies_revalidate := cc_set cached_obj_response (Z.lor CC_MUST_REVALIDATE CC_PROXY_REVALIDATE) in
    if cc_set cached_obj_response CC_NEED_REVALIDATE_ONCE && (revalidate_after cc <=? 0) then FRESHNESS_STALE
    else
      let '(fresh_limit, heuristic) := fuzzed_limit s config cached_obj_response in
      let age := current_age s cached_obj_response in
      match when_to_revalidate config client_request heuristic with
      | Some f => f
      | None =>
        let '(age_limit, do_revalidate) := client_age_limit cc client_request os_specifies_revalidate fresh_limit in
        let age_limit := if revalidate_after cc >=? 0 then revalidate_after cc else age_limit in
        if do_revalidate || (age >? age_limit) then FRESHNESS_STALE
        else if age >? fresh_limit then if os_specifies_revalidate then FRESHNESS_STALE else FRESHNESS_WARNING
        else FRESHNESS_FRESH
      end.
End freshness_limit.

(** ** What may be stored *)

Definition is_method_cacheable (m : method) : bool := bool_decide (m = GET) || bool_decide (m = HEAD).
Definition is_method_cache_lookupable (m : method) : bool := match m with OTHER_METHOD => false | _ => true end.

(** [HttpTransact.cc]: cache control says no ([-1]), yes ([1]) or nothing. *)
Definition response_cacheable_indicated_by_cc (response : HTTPHdr) : Z :=
  if cc_set response (Z.lor CC_NO_STORE CC_PRIVATE) then -1
  else if cc_set response (Z.lor (Z.lor (Z.lor (Z.lor CC_PUBLIC CC_MAX_AGE) CC_S_MAXAGE) CC_MUST_REVALIDATE) CC_PROXY_REVALIDATE) then 1
  else 0.

Definition does_server_allow_response_to_be_stored (resp : HTTPHdr) : bool :=
  negb (cc_set resp (Z.lor (Z.lor CC_NO_CACHE CC_NO_STORE) CC_PRIVATE) || cooked_pragma_no_cache resp).

Definition does_client_request_permit_cached_response (c : CacheControlResult) (h : HTTPHdr) : bool :=
  if negb (ignore_client_no_cache c) then negb (cc_set h CC_NO_CACHE) && negb (cooked_pragma_no_cache h) else true.

Definition does_client_request_permit_dns_caching (c : CacheControlResult) (h : HTTPHdr) : bool :=
  negb (cooked_pragma_no_cache h && cc_set h CC_NO_CACHE && negb (ignore_client_no_cache c)).

Definition does_client_request_permit_storing (c : CacheControlResult) (h : HTTPHdr) : bool :=
  if negb (ignore_client_no_cache c) then negb (cc_set h CC_NO_STORE) else true.

Definition starts_with (prefix s : list Z) : bool := bool_decide (take (length prefix) s = prefix).
Definition str_image : list Z := [105; 109; 97; 103; 101].
Definition str_text : list Z := [116; 101; 120; 116].

(** [do_cookies_prevent_caching]; 1 ignores cookies, 0 forbids all. *)
Definition do_cookies_prevent_caching (cookies_conf : Z) (request response : HTTPHdr) (cached_request : option HTTPHdr) : bool :=
  if cookies_conf =? 1 then false
  else if cookies_conf =? 0 then true
  else if negb (presence response SET_COOKIE) && negb (presence request COOKIE) &&
          match cached_request with Some r => negb (presence r COOKIE) | None => true end then false
  else
    let is_type p := match content_type response with Some t => starts_with p t | None => false end in
    if cookies_conf =? 2 then negb (is_type str_image)
    else if is_type str_text then
      negb ((cookies_conf =? 4) && (negb (presence response SET_COOKIE) || cc_set response CC_PUBLIC))
    else false.

(** [url_looks_dynamic]: the path from its end against ["asp"], where [p] is the
    index of the character compared and [t] that in [".asp"]. *)
Fixpoint ends_in_asp (p : nat) (path : list Z) (t : list Z) : bool :=
  match p, t with
  | O, _ => false
  | S p', c :: t' => if ink_tolower (path !!! p) =? ink_tolower c then match t' with [] => true | _ => ends_in_asp p' path t' end else false
  | _, [] => true
  end.

Fixpoint contains_cgi (path : list Z) : bool :=
  match path with
  | [] => false
  | a :: r =>
    match r with
    | b :: c :: _ => (((a =? 99) || (a =? 67)) && ((b =? 103) || (b =? 71)) && ((c =? 105) || (c =? 73))) || contains_cgi r
    | _ => false
    end
  end.

(** An empty path is compared from one character before its start: the model
    takes paths that are absent or not empty. *)
Definition url_looks_dynamic (u : URL) : bool :=
  if bool_decide (url_scheme u = HTTP) || bool_decide (url_scheme u = HTTPS) then
    if bool_decide (is_Some (url_params u)) then true
    else if bool_decide (is_Some (url_query u)) then true
    else
      match url_path u with
      | None => false
      | Some path => ends_in_asp (length path - 1) path [112; 115; 97] || contains_cgi path
      end
  else false.

Inductive RangeSetup_t := RANGE_NONE | RANGE_TRANSFORM | RANGE_NOT_SATISFIABLE | RANGE_NOT_HANDLED | RANGE_REVALIDATE.
Inductive CacheAuth_t := CACHE_AUTH_NONE | CACHE_AUTH_FRESH | CACHE_AUTH_STALE | CACHE_AUTH_SERVE.

#[export] Instance range_setup_eq_dec : EqDecision RangeSetup_t.
Proof. solve_decision. Defined.

(** The state the decisions on storing read and change. *)
Record State := mkState {
  st_cache_control : CacheControlResult;
  tunnelling : bool; lookup_count : Z; st_method : method; st_scheme : scheme;
  client_request : HTTPHdr;
  range_setup : RangeSetup_t;
  does_client_permit_lookup : bool; does_client_permit_storing : bool;
  does_server_permit_storing : bool; does_config_permit_storing : bool;
  ftp_username : option (list Z); ftp_is_directory : bool;
  no_negative_cache : bool;
  www_auth_content : CacheAuth_t; api_skip_cache_lookup : bool; api_server_response_no_store : bool
}.

Definition set_flags (s : State) (auth : CacheAuth_t) (skip no_store : bool) : State :=
  mkState (st_cache_control s) (tunnelling s) (lookup_count s) (st_method s) (st_scheme s) (client_request s) (range_setup s)
    (does_client_permit_lookup s) (does_client_permit_storing s) (does_server_permit_storing s) (does_config_permit_storing s)
    (ftp_username s) (ftp_is_directory s) (no_negative_cache s) auth skip no_store.

Definition is_request_cache_lookupable (config : HttpConfigParams) (s : State) : bool * State :=
  let cc := st_cache_control s in
  if tunnelling s then (false, s)
  else if lookup_count s >? 0 then (true, s)
  else if negb (cache_http config) then (false, s)
  else if negb (is_method_cache_lookupable (st_method s)) then (false, s)
  else if negb (cache_urls_that_look_dynamic config) && url_looks_dynamic (hdr_url (client_request s)) && (ttl_in_cache cc <=? 0) &&
          negb ((if presence (client_request s) MAX_FORWARDS then hdr_max_forwards (client_request s) else -1) =? 0) then (false, s)
  else if negb (cache_range_lookup config) && presence (client_request s) RANGE then (false, s)
  else if api_skip_cache_lookup s then (false, set_flags s (www_auth_content s) false (api_server_response_no_store s))
  else (true, s).

Definition str_anonymous : list Z := [97; 110; 111; 110; 121; 109; 111; 117; 115].
Definition str_ftp : list Z := [102; 116; 112].

(** An FTP document that has a user name, or is a directory, is not stored. *)
Definition ftp_forbids_storing (config : HttpConfigParams) (s : State) : bool :=
  bool_decide (st_scheme s = FTP) &&
  (match ftp_username s with
   | Some u => negb (bool_decide (u = [])) && negb (bool_decide (u = str_anonymous)) && negb (bool_decide (u = str_ftp))
   | None => false
   end || negb (cache_ftp config) || ftp_is_directory s).

(** Headers that a 200 must have to be stored. *)
Definition required_headers_missing (config : HttpConfigParams) (s : State) (response : HTTPHdr) : bool :=
  (hdr_status response =? 200) && (ttl_in_cache (st_cache_control s) <=? 0) &&
  (let no_expiry := negb (presence response EXPIRES) && negb (cc_set response (Z.lor CC_MAX_AGE CC_S_MAXAGE)) in
   if cache_required_headers config =? 1 then no_expiry && (hdr_last_modified response =? 0)
   else if cache_required_headers config =? 2 then no_expiry else false).

(** [HttpTransact::is_response_cacheable] *)
Definition is_response_cacheable (config : HttpConfigParams) (s0 : State) (request response : HTTPHdr) : bool * State :=
  let cc := st_cache_control s0 in
  if negb (is_method_cacheable (hdr_method request)) then (false, s0)
  else
  let '(lookupable, s) := is_request_cache_lookupable config s0 in
  if negb lookupable then (false, s)
  else if bool_decide (range_setup s = RANGE_NOT_HANDLED) then (false, s)
  else if (ttl_in_cache cc <=? 0) && do_cookies_prevent_caching (cache_responses_to_cookies config) request response None then (false, s)
  else if presence response WWW_AUTHENTICATE && (cache_ignore_auth config =? 0) then (false, s)
  else if negb (does_server_permit_storing s) && negb (ignore_server_no_cache cc) && (ttl_in_cache cc <=? 0) then (false, s)
  else if (negb (does_config_permit_storing s) && negb (ignore_server_no_cache cc) && (ttl_in_cache cc <=? 0)) || never_cache cc then (false, s)
  else if negb (does_client_permit_storing s) && negb (ignore_client_no_cache cc) then (false, s)
  else if required_headers_missing config s response then (false, s)
  else if hdr_status response =? 206 then (false, s)
  else if ftp_forbids_storing config s then (false, s)
  else
    let indicator := response_cacheable_indicated_by_cc response in
    if indicator >? 0 then (true, set_flags s CACHE_AUTH_NONE (api_skip_cache_lookup s) (api_server_response_no_store s))
    else if (indicator <? 0) && negb (ttl_in_cache cc >? 0) && negb (ignore_server_no_cache cc) then (false, s)
    else if presence response EXPIRES then (true, s)
    else if (hdr_status response =? 302) || (hdr_status response =? 307) then (false, s)
    else if bool_decide (hdr_method request = POST) && negb (ttl_in_cache cc >? 0) then (false, s)
    else if api_server_response_no_store s then (false, set_flags s (www_auth_content s) (api_skip_cache_lookup s) false)
    else if negb (negative_caching_enabled config) || no_negative_cache s then
      ((hdr_status response =? 200) || (hdr_status response =? 304) || (hdr_status response =? 203) || (hdr_status response =? 301) ||
       (hdr_status response =? 300) || (hdr_status response =? 410), s)
    else (true, s).

(** ** What may be served *)

Inductive Authentication_t := AUTHENTICATION_SUCCESS | AUTHENTICATION_MUST_REVALIDATE | AUTHENTICATION_MUST_PROXY | AUTHENTICATION_CACHE_AUTH.

#[export] Instance authentication_eq_dec : EqDecision Authentication_t.
Proof. solve_decision. Defined.

Definition AuthenticationNeeded (config : HttpConfigParams) (request obj_response : HTTPHdr) : Authentication_t :=
  let cache_auth := presence obj_response WWW_AUTH && bool_decide (hdr_method request = GET) in
  if presence request AUTHORIZATION && (cache_ignore_auth config =? 0) then
    if cc_set obj_response CC_MUST_REVALIDATE || cc_set obj_response CC_PROXY_REVALIDATE then AUTHENTICATION_MUST_REVALIDATE
    else if cc_set obj_response CC_PUBLIC then AUTHENTICATION_SUCCESS
    else if cache_auth then AUTHENTICATION_CACHE_AUTH else AUTHENTICATION_MUST_PROXY
  else if cache_auth then AUTHENTICATION_CACHE_AUTH else AUTHENTICATION_SUCCESS.

Definition is_cache_response_returnable (config : HttpConfigParams) (s : State) (cached_request cached_response : HTTPHdr) : bool :=
  if never_cache (st_cache_control s) then false
  else if negb (does_client_permit_lookup s) then false
  else if negb (is_method_cacheable (st_method s)) then false
  else negb ((ttl_in_cache (st_cache_control s) <=? 0) &&
             do_cookies_prevent_caching (cache_responses_to_cookies config) (client_request s) cached_response (Some cached_request)).

Definition STALE_MASK : Z :=
  Z.lor (Z.lor (Z.lor (Z.lor (Z.lor CC_MUST_REVALIDATE CC_PROXY_REVALIDATE) CC_NEED_REVALIDATE_ONCE) CC_NO_CACHE) CC_NO_STORE) CC_S_MAXAGE.

(** [sent] and [received] are the times kept with the stored object. *)
Definition is_stale_cache_response_returnable (config : HttpConfigParams) (s : State) (now sent received : Z) (cached_response : HTTPHdr) : bool :=
  if negb (does_client_permit_lookup s) then false
  else if cc_set cached_response STALE_MASK || cooked_pragma_no_cache cached_response then false
  else if wraps 32 (calculate_document_age sent received cached_response (hdr_date cached_response) now) >? cache_max_stale_age config then false
  else bool_decide (AuthenticationNeeded config (client_request s) cached_response = AUTHENTICATION_SUCCESS).

(** * What is served as fresh is fresh, what is stored may be stored, and where
    32-bit arithmetic and the order of the tests break this. *)

(** ** Age and limit *)

Lemma document_age_bounds req resp h date now : req <= resp ->
  let age := calculate_document_age req resp h date now in
  Z.max 0 (hdr_age h) <= age /\ Z.max 0 (now - resp) <= age /\ (0 < date -> Z.max now resp - date <= age).
Proof.
  intros Hr. unfold calculate_document_age. cbn zeta.
  destruct (Z.gtb_spec (hdr_age h) 0), (Z.gtb_spec date 0); rewrite ?Z.gtb_ltb; cbn; try destruct (Z.ltb_spec 0 date); split_and!; lia.
Qed.

Section limit.
Context (lm_share : Z -> Z).

(** The freshness limit is never negative, never below the guaranteed
    minimum, and never above a year nor above the guaranteed maximum unless the
    minimum is; a guess also stays within the heuristic bounds. *)
Theorem freshness_limit_bounds config response date sent plugin rww :
  let '(limit, heuristic) := calculate_document_freshness_limit lm_share config response date sent plugin rww in
  let low := Z.max (Z.max 0 (cache_guaranteed_min_lifetime config)) (if heuristic then cache_heuristic_min_lifetime config else 0) in
  let high := Z.min (Z.min NUM_SECONDS_IN_ONE_YEAR (cache_guaranteed_max_lifetime config))
                    (if heuristic then cache_heuristic_max_lifetime config else NUM_SECONDS_IN_ONE_YEAR) in
  low <= limit <= Z.max low high.
Proof.
  unfold calculate_document_freshness_limit. destruct (raw_freshness_limit _ _ _ _ _ _ _) as [l h].
  destruct h; repeat (rewrite ?Z.gtb_ltb; match goal with |- context [?a <? ?b] => destruct (Z.ltb_spec a b) end); unfold NUM_SECONDS_IN_ONE_YEAR in *; lia.
Qed.
End limit.

(** ** Freshness *)

Lemma cc_set_lor h a b : cc_set h (Z.lor a b) = cc_set h a || cc_set h b.
Proof.
  unfold cc_set. rewrite Z.land_lor_distr_r.
  destruct (Z.eqb_spec (Z.land (cooked_cc_mask h) a) 0) as [Ea|Ea], (Z.eqb_spec (Z.land (cooked_cc_mask h) b) 0) as [Eb|Eb];
    destruct (Z.eqb_spec (Z.lor (Z.land (cooked_cc_mask h) a) (Z.land (cooked_cc_mask h) b)) 0) as [E|E]; try done.
  - rewrite Ea, Eb in E. done.
  - apply Z.lor_eq_0_iff in E as [? ?]. done.
  - apply Z.lor_eq_0_iff in E as [? ?]. done.
  - apply Z.lor_eq_0_iff in E as [? ?]. done.
Qed.

Section freshness.
Context (lm_share : Z -> Z) (s : FreshState) (config : HttpConfigParams) (request response : HTTPHdr).

Let age : Z := calculate_document_age (request_sent_time s) (response_received_time s) response (hdr_date response) (now s).
Let limit : Z := (fuzzed_limit lm_share s config response).1.
Let os_revalidate : bool := cc_set response CC_MUST_REVALIDATE || cc_set response CC_PROXY_REVALIDATE.

(** No line of the configuration overrides the calculation. *)
Definition no_override : Prop :=
  ttl_in_cache (cache_control s) <= 0 /\ cache_when_to_revalidate config = 0 /\ revalidate_after (cache_control s) < 0.

(** The sums that [int] arithmetic makes stay in range. *)
Definition in_int_range : Prop :=
  0 <= age < 2 ^ 31 /\ 0 <= limit < 2 ^ 31 /\ 0 <= cooked_cc_min_fresh request < 2 ^ 31 /\
  (cooked_cc_max_stale request = MAXINT \/ 0 <= cooked_cc_max_stale request /\ limit + cooked_cc_max_stale request < 2 ^ 31).

Lemma client_age_limit_spec : in_int_range ->
  let '(age_limit, revalidate) := client_age_limit (cache_control s) request os_revalidate limit in
  age_limit = Z.min (Z.min
     (if cc_set request CC_MAX_STALE && negb os_revalidate then
        if cooked_cc_max_stale request =? MAXINT then MAXINT else limit + cooked_cc_max_stale request else limit)
     (if cc_set request CC_MIN_FRESH then limit - cooked_cc_min_fresh request else MAXINT))
     (if negb (ignore_client_cc_max_age (cache_control s)) && cc_set request CC_MAX_AGE then cooked_cc_max_age request else MAXINT) /\
  revalidate = negb (ignore_client_cc_max_age (cache_control s)) && cc_set request CC_MAX_AGE && (cooked_cc_max_age request =? 0).
Proof.
  intros (_ & Hl & Hmf & Hms). unfold client_age_limit. rewrite !cc_set_lor.
  assert (Ew : wraps 32 (limit - cooked_cc_min_fresh request) = limit - cooked_cc_min_fresh request).
  { apply wraps_id; [lia|]. change (2 ^ (32 - 1)) with 2147483648. change (2 ^ 31) with 2147483648 in *. lia. }
  assert (Em : cooked_cc_max_stale request <> MAXINT -> wraps 32 (limit + cooked_cc_max_stale request) = limit + cooked_cc_max_stale request).
  { intros Hne. apply wraps_id; [lia|]. change (2 ^ (32 - 1)) with 2147483648. change (2 ^ 31) with 2147483648 in *. lia. }
  rewrite Ew. change (2 ^ 31) with 2147483648 in *. unfold MAXINT in *.
  destruct (Z.eqb_spec (cooked_cc_max_stale request) 2147483647) as [E|E]; [|rewrite (Em E)];
    destruct (cc_set request CC_MAX_STALE), (cc_set request CC_MIN_FRESH), (cc_set request CC_MAX_AGE), os_revalidate, (ignore_client_cc_max_age (cache_control s));
    cbn [orb andb negb]; (split; [lia|done]).
Qed.

(** C38: when no line of the configuration overrides the calculation and no sum
    overflows, a document served as fresh is no older than its limit, than the
    client's max-age, and fresh for the client's min-fresh; one served with a
    warning is past its limit by no more than the client's max-stale, and the
    server asked for no revalidation; one called stale is past a limit of the
    server's or the client's, or has to be revalidated. *)
Theorem freshness_sound : no_override -> in_int_range ->
  let a := Z.min NUM_SECONDS_IN_ONE_YEAR age in
  let client_max_age := negb (ignore_client_cc_max_age (cache_control s)) && cc_set request CC_MAX_AGE in
  match what_is_document_freshness lm_share s config request response with
  | FRESHNESS_FRESH =>
    a <= limit /\ (cc_set request CC_MIN_FRESH = true -> a <= limit - cooked_cc_min_fresh request) /\
    (client_max_age = true -> a <= cooked_cc_max_age request)
  | FRESHNESS_WARNING =>
    limit < a /\ cc_set request CC_MAX_STALE = true /\ os_revalidate = false /\
    (cooked_cc_max_stale request = MAXINT \/ a <= limit + cooked_cc_max_stale request)
  | FRESHNESS_STALE =>
    limit < a \/ cc_set response CC_NEED_REVALIDATE_ONCE = true \/
    (cc_set request CC_MIN_FRESH = true /\ limit - cooked_cc_min_fresh request < a) \/
    (client_max_age = true /\ (cooked_cc_max_age request = 0 \/ cooked_cc_max_age request < a))
  end.
Proof.
  intros (Httl & Hwhen & Hrev) Hr. cbn zeta. unfold what_is_document_freshness. rewrite cc_set_lor. fold os_revalidate.
  destruct (Z.gtb_spec (ttl_in_cache (cache_control s)) 0); [lia|]. destruct (Z.leb_spec (revalidate_after (cache_control s)) 0); [|lia].
  destruct (cc_set response CC_NEED_REVALIDATE_ONCE) eqn:En; cbn [andb]; [tauto|].
  pose proof (client_age_limit_spec Hr) as Hspec. fold limit os_revalidate in Hspec.
  destruct Hr as (Ha & Hl & Hmf & Hms). fold age limit in Ha, Hl, Hms.
  assert (Eage : current_age s response = Z.min NUM_SECONDS_IN_ONE_YEAR age).
  { unfold current_age. fold age. rewrite wraps_id; [done|lia|]. change (2 ^ (32 - 1)) with (2 ^ 31). lia. }
  rewrite Eage. unfold limit in *. destruct (fuzzed_limit lm_share s config response) as [fl h]. cbn [fst] in *.
  unfold when_to_revalidate. rewrite Hwhen. cbn [Z.eqb].
  destruct (client_age_limit _ _ _ _) as [al rv]. destruct Hspec as [-> ->].
  rewrite Z.geb_leb. destruct (Z.leb_spec 0 (revalidate_after (cache_control s))); [lia|].
  change (2 ^ 31) with 2147483648 in *. unfold MAXINT, NUM_SECONDS_IN_ONE_YEAR in *. rewrite !Z.gtb_ltb.
  set (a := Z.min 31536000 age) in *. assert (Hay : a <= 31536000) by lia. clearbody a.
  destruct (cc_set request CC_MAX_STALE), (cc_set request CC_MIN_FRESH), (cc_set request CC_MAX_AGE), os_revalidate, (ignore_client_cc_max_age (cache_control s));
    cbn [orb andb negb];
    repeat match goal with
    | |- context [?x =? ?y] => destruct (Z.eqb_spec x y)
    | |- context [?x <? ?y] => destruct (Z.ltb_spec x y)
    end; cbn [orb]; try lia; split_and!; try done; lia.
Qed.
End freshness.

(** ** Examples that the theorem's conditions exclude *)

Definition plain_url : URL := mkURL HTTP None None (Some [97]).
Definition no_fields : field -> bool := fun _ => false.

Definition plain_request (mask max_age max_stale min_fresh : Z) : HTTPHdr :=
  mkHdr mask max_age 0 max_stale min_fresh false no_fields 0 0 0 0 (-1) None GET 0 plain_url.

(** A 200 with Date, Age and Expires or [max-age]. *)
Definition plain_response (mask max_age date expires age : Z) (fields : field -> bool) : HTTPHdr :=
  mkHdr mask max_age 0 0 0 false fields date expires 0 age (-1) None GET 200 plain_url.

Definition default_cc : CacheControlResult := mkCC (-1) (-1) false false false false.

(** The defaults of [records.config]: 1 h to 1 day for a guess, 0 to a year
    otherwise; no fuzz. *)
Definition default_config : HttpConfigParams :=
  mkConfig 3600 86400 0 31536000 (-1) 0 604800 true true true true 0 1 0 false true.

(** A response received at [received], asked for at time [now]. *)
Definition at_time (sent received now : Z) : FreshState := mkFresh default_cc now sent received 0 false (fun _ => 0).

(** a response that came with [Age: 2147483647], the largest number the
    field can hold, and [max-age=60] is called fresh one second later: the age
    no longer fits an [int] and turns negative. *)
Theorem age_overflow_fresh (lm_share : Z -> Z) :
  let response := plain_response CC_MAX_AGE 60 1000000000 0 2147483647 no_fields in
  let s := at_time 1000000000 1000000000 1000000001 in
  calculate_document_age (request_sent_time s) (response_received_time s) response (hdr_date response) (now s) = 2147483648 /\
  what_is_document_freshness lm_share s default_config (plain_request 0 0 0 0) response = FRESHNESS_FRESH.
Proof. by vm_compute. Qed.

(** A response whose [Expires] is [2^31] seconds (68 years) after its date is
    called stale after one second, and one that expires a second sooner is fresh:
    the difference is cut to 32 bits before it is bounded.  A client that allows
    2147483646 seconds past the limit gets a stale answer for the same reason. *)
Theorem expires_overflow_stale (lm_share : Z -> Z) :
  let has_expires f := match f with EXPIRES => true | _ => false end in
  let response e := plain_response 0 0 1000000000 (1000000000 + e) 0 has_expires in
  let s := at_time 1000000000 1000000000 1000000001 in
  let fresh request e := what_is_document_freshness lm_share s default_config request (response e) in
  fresh (plain_request 0 0 0 0) 2147483648 = FRESHNESS_STALE /\ fresh (plain_request 0 0 0 0) 2147483647 = FRESHNESS_FRESH /\
  fresh (plain_request CC_MAX_STALE 0 2147483646 0) 100 = FRESHNESS_STALE.
Proof. by vm_compute. Qed.

Lemma freshness_sound_witness :
  what_is_document_freshness (fun t => t / 10) (at_time 1000000000 1000000000 1000000100) default_config (plain_request CC_MAX_STALE 0 50 0)
    (plain_response CC_MAX_AGE 60 1000000000 0 0 no_fields) = FRESHNESS_WARNING /\ 60 < 100 <= 60 + 50.
Proof.
  pose proof (freshness_sound (fun t => t / 10) (at_time 1000000000 1000000000 1000000100) default_config (plain_request CC_MAX_STALE 0 50 0)
    (plain_response CC_MAX_AGE 60 1000000000 0 0 no_fields)) as H. split; [by vm_compute|].
  assert (H1 : no_override (at_time 1000000000 1000000000 1000000100) default_config) by (vm_compute; intuition discriminate).
  assert (H2 : in_int_range (fun t => t / 10) (at_time 1000000000 1000000000 1000000100) default_config (plain_request CC_MAX_STALE 0 50 0)
    (plain_response CC_MAX_AGE 60 1000000000 0 0 no_fields)).
  { unfold in_int_range. split_and!; [by vm_compute..|]. right. by vm_compute. }
  specialize (H H1 H2). vm_compute in H. destruct H as (Ha & _ & _ & [Hb|Hb]); [discriminate Hb|]. split; [exact Ha|exact Hb].
Defined.

(** ** Storing *)

Lemma lookupable_keeps config s b s' : is_request_cache_lookupable config s = (b, s') ->
  st_cache_control s' = st_cache_control s /\ does_client_permit_storing s' = does_client_permit_storing s /\
  does_server_permit_storing s' = does_server_permit_storing s /\ does_config_permit_storing s' = does_config_permit_storing s /\
  range_setup s' = range_setup s /\ (b = true -> tunnelling s = false /\ s' = s).
Proof.
  unfold is_request_cache_lookupable. intros H.
  repeat (match type of H with context [if ?c then _ else _] => destruct c eqn:? end); injection H as <- <-; split_and!; done.
Qed.

(** C39: a response that may be stored answers a GET or a HEAD, is not a partial
    content, is not under a [never-cache] line; if it says no-store or private,
    or the server forbids storing, then a ttl or [ignore-server-no-cache]
    overrides it; if the client forbids storing, [ignore-client-no-cache] does. *)
Theorem cacheable_sound config s request response s' : is_response_cacheable config s request response = (true, s') ->
  let cc := st_cache_control s in
  (hdr_method request = GET \/ hdr_method request = HEAD) /\ hdr_status response <> 206 /\ never_cache cc = false /\ tunnelling s = false /\
  (does_server_permit_storing s = false \/ cc_set response CC_NO_STORE || cc_set response CC_PRIVATE = true ->
     0 < ttl_in_cache cc \/ ignore_server_no_cache cc = true) /\
  (does_client_permit_storing s = false -> ignore_client_no_cache cc = true).
Proof.
  unfold is_response_cacheable. intros H. cbn zeta. destruct (is_method_cacheable (hdr_method request)) eqn:Em; cbn [negb] in H; [|done].
  destruct (is_request_cache_lookupable config s) as [b s1] eqn:El. destruct (lookupable_keeps config s b s1 El) as (_ & _ & _ & _ & _ & Hb).
  destruct b; cbn [negb] in H; [|done]. destruct (Hb eq_refl) as [Ht ->]. clear Hb El.
  unfold is_method_cacheable in Em. apply orb_true_iff in Em. rewrite !bool_decide_eq_true in Em.
  destruct (bool_decide (range_setup s = RANGE_NOT_HANDLED)); [done|]. destruct (_ && do_cookies_prevent_caching _ _ _ _); [done|].
  destruct (presence response WWW_AUTHENTICATE && _); [done|].
  destruct (negb (does_server_permit_storing s) && _ && _) eqn:Es; [done|]. destruct (_ || never_cache _) eqn:En; [done|].
  destruct (negb (does_client_permit_storing s) && _) eqn:Ec; [done|]. destruct (required_headers_missing config s response); [done|].
  destruct (Z.eqb_spec (hdr_status response) 206) as [|H206]; [done|]. destruct (ftp_forbids_storing config s); [done|].
  apply orb_false_iff in En as [_ En]. split_and!; [done|done|done|done| |].
  - intros Hno. destruct (Z.leb_spec (ttl_in_cache (st_cache_control s)) 0) as [Httl|]; [|by left]. right.
    destruct (ignore_server_no_cache (st_cache_control s)) eqn:Ei; [done|exfalso].
    destruct Hno as [Hs|Hcc]; [by rewrite Hs in Es|]. unfold response_cacheable_indicated_by_cc in H. rewrite cc_set_lor, Hcc in H. cbn in H.
    destruct (Z.gtb_spec (ttl_in_cache (st_cache_control s)) 0); [lia|]. done.
  - intros Hc. rewrite Hc in Ec. cbn in Ec. by apply negb_false_iff in Ec.
Qed.

Definition default_state : State :=
  mkState default_cc false 1 GET HTTP (plain_request 0 0 0 0) RANGE_NONE true true true true None false false CACHE_AUTH_NONE false false.

Lemma cacheable_sound_witness : hdr_status (plain_response CC_MAX_AGE 60 1 0 0 no_fields) <> 206.
Proof.
  apply (cacheable_sound default_config default_state (plain_request 0 0 0 0) (plain_response CC_MAX_AGE 60 1 0 0 no_fields) default_state).
  by vm_compute.
Defined.

(** A plug-in that asks for a response not to be stored is heard only when
    the response says nothing of caching: with [max-age], or with [Expires], the
    same response is stored. *)
Theorem plugin_no_store_ignored :
  let s := set_flags default_state CACHE_AUTH_NONE false true in
  let has_expires f := match f with EXPIRES => true | _ => false end in
  let store mask fields := (is_response_cacheable default_config s (plain_request 0 0 0 0) (plain_response mask 60 1 0 0 fields)).1 in
  api_server_response_no_store s = true /\
  store 0 no_fields = false /\ store CC_MAX_AGE no_fields = true /\ store 0 has_expires = true.
Proof. by vm_compute. Qed.

(** ** Serving stale *)

(** A stale response is returned only to a client that allows a stored one,
    only if neither must-revalidate, proxy-revalidate, no-cache, no-store nor
    s-maxage is set on it, and to a request with credentials only if the response
    is public (or credentials are ignored). *)
Theorem stale_returnable_sound config s now sent received response : is_stale_cache_response_returnable config s now sent received response = true ->
  does_client_permit_lookup s = true /\
  cc_set response CC_MUST_REVALIDATE = false /\ cc_set response CC_PROXY_REVALIDATE = false /\ cc_set response CC_NO_CACHE = false /\
  cc_set response CC_NO_STORE = false /\ cc_set response CC_S_MAXAGE = false /\ cooked_pragma_no_cache response = false /\
  (presence (client_request s) AUTHORIZATION = true -> cache_ignore_auth config = 0 -> cc_set response CC_PUBLIC = true).
Proof.
  unfold is_stale_cache_response_returnable, STALE_MASK. rewrite !cc_set_lor. destruct (does_client_permit_lookup s); [|done]. cbn [negb].
  destruct (_ || cooked_pragma_no_cache response) eqn:Em; [done|]. rewrite !orb_false_iff in Em. destruct Em as [[[[[[Em1 Em2] _] Em4] Em5] Em6] Em7].
  destruct (_ >? _); [done|]. rewrite bool_decide_eq_true. intros Ha. split_and!; try done. intros Hp Hi.
  unfold AuthenticationNeeded in Ha. rewrite Hp, Hi, Em1, Em2 in Ha. cbn in Ha. destruct (cc_set response CC_PUBLIC); [done|]. by destruct (_ && _).
Qed.

Lemma stale_returnable_sound_witness : cc_set (plain_response CC_MAX_AGE 60 1000000000 0 0 no_fields) CC_NO_STORE = false.
Proof.
  apply (stale_returnable_sound default_config default_state 1000000100 1000000000 1000000000 (plain_response CC_MAX_AGE 60 1000000000 0 0 no_fields)).
  by vm_compute.
Defined.
