(* ===== verification/HdrToken.v ===== *)
(** The well-known strings of the header system ([proxy/hdrs/HdrToken.cc],
    [HdrToken.h]): their table, the token types, and the two ways a string is
    looked up, a hash table of the common ones and an automaton of all of them.

    A well-known string is its index in the table; the index [-1] is no
    well-known string.  The automaton is compiled by [Regex.cc], or read from the
    file [hdrtoken.dat], when the proxy starts: the class [TokenDFA] states what
    it is compiled from. *)

From S2P Require Import Prelude ParseRules.

Definition _hdrtoken_strs : list (list Z) := chars <$> [
    "Accept"; "Accept-Charset"; "Accept-Encoding"; "Accept-Language"; "Accept-Ranges"; "Age"; "Allow"; "Approved"; "Authorization"; "Bytes";
    "Cache-Control"; "Client-ip"; "Connection"; "Content-Base"; "Content-Encoding"; "Content-Language"; "Content-Length"; "Content-Location";
    "Content-MD5"; "Content-Range"; "Content-Type"; "Control"; "Cookie"; "Date"; "Distribution"; "Etag"; "Expect"; "Expires"; "Followup-To"; "From";
    "Host"; "If-Match"; "If-Modified-Since"; "If-None-Match"; "If-Range"; "If-Unmodified-Since"; "Keep-Alive"; "Keywords"; "Last-Modified"; "Lines";
    "Location"; "Max-Forwards"; "Message-ID"; "MIME-Version"; "Newsgroups"; "Organization"; "Path"; "Pragma"; "Proxy-Authenticate";
    "Proxy-Authorization"; "Proxy-Connection"; "Public"; "Range"; "References"; "Referer"; "Reply-To"; "Retry-After"; "Sender"; "Server";
    "Set-Cookie"; "Subject"; "Summary"; "TE"; "Transfer-Encoding"; "Upgrade"; "User-Agent"; "Vary"; "Via"; "Warning"; "Www-Authenticate"; "Xref";
    "@DataInfo"; "compress"; "deflate"; "gzip"; "identity"; "max-age"; "max-stale"; "min-fresh"; "must-revalidate"; "no-cache"; "no-store";
    "no-transform"; "only-if-cached"; "private"; "proxy-revalidate"; "s-maxage"; "need-revalidate-once"; "none"; "chunked"; "close"; "*"; "file";
    "ftp"; "gopher"; "http"; "https"; "mailto"; "news"; "nntp"; "prospero"; "telnet"; "tunnel"; "wais"; "pnm"; "rtsp"; "rtspu"; "mms"; "mmsu"; "mmst";
    "CONNECT"; "DELETE"; "GET"; "HEAD"; "ICP_QUERY"; "OPTIONS"; "POST"; "PURGE"; "PUT"; "TRACE"; "PUSH"; "X-ID"; "X-Forwarded-For"
  ]%string.

Inductive HdrTokenType := HDRTOKEN_TYPE_OTHER | HDRTOKEN_TYPE_FIELD | HDRTOKEN_TYPE_METHOD | HDRTOKEN_TYPE_SCHEME | HDRTOKEN_TYPE_CACHE_CONTROL.

#[export] Instance HdrTokenType_eq_dec : EqDecision HdrTokenType.
Proof. solve_decision. Defined.

Definition _hdrtoken_strs_type_initializers : list (list Z * HdrTokenType) := prod_map chars id <$> [
    ("file", HDRTOKEN_TYPE_SCHEME); ("ftp", HDRTOKEN_TYPE_SCHEME); ("gopher", HDRTOKEN_TYPE_SCHEME); ("http", HDRTOKEN_TYPE_SCHEME);
    ("https", HDRTOKEN_TYPE_SCHEME); ("mailto", HDRTOKEN_TYPE_SCHEME); ("news", HDRTOKEN_TYPE_SCHEME); ("nntp", HDRTOKEN_TYPE_SCHEME);
    ("prospero", HDRTOKEN_TYPE_SCHEME); ("telnet", HDRTOKEN_TYPE_SCHEME); ("tunnel", HDRTOKEN_TYPE_SCHEME); ("wais", HDRTOKEN_TYPE_SCHEME);
    ("pnm", HDRTOKEN_TYPE_SCHEME); ("rtsp", HDRTOKEN_TYPE_SCHEME); ("rtspu", HDRTOKEN_TYPE_SCHEME); ("mms", HDRTOKEN_TYPE_SCHEME);
    ("mmsu", HDRTOKEN_TYPE_SCHEME); ("mmst", HDRTOKEN_TYPE_SCHEME); ("CONNECT", HDRTOKEN_TYPE_METHOD); ("DELETE", HDRTOKEN_TYPE_METHOD);
    ("GET", HDRTOKEN_TYPE_METHOD); ("HEAD", HDRTOKEN_TYPE_METHOD); ("ICP_QUERY", HDRTOKEN_TYPE_METHOD); ("OPTIONS", HDRTOKEN_TYPE_METHOD);
    ("POST", HDRTOKEN_TYPE_METHOD); ("PURGE", HDRTOKEN_TYPE_METHOD); ("PUT", HDRTOKEN_TYPE_METHOD); ("TRACE", HDRTOKEN_TYPE_METHOD);
    ("PUSH", HDRTOKEN_TYPE_METHOD); ("max-age", HDRTOKEN_TYPE_CACHE_CONTROL); ("max-stale", HDRTOKEN_TYPE_CACHE_CONTROL);
    ("min-fresh", HDRTOKEN_TYPE_CACHE_CONTROL); ("must-revalidate", HDRTOKEN_TYPE_CACHE_CONTROL); ("no-cache", HDRTOKEN_TYPE_CACHE_CONTROL);
    ("no-store", HDRTOKEN_TYPE_CACHE_CONTROL); ("no-transform", HDRTOKEN_TYPE_CACHE_CONTROL); ("only-if-cached", HDRTOKEN_TYPE_CACHE_CONTROL);
    ("private", HDRTOKEN_TYPE_CACHE_CONTROL); ("proxy-revalidate", HDRTOKEN_TYPE_CACHE_CONTROL); ("public", HDRTOKEN_TYPE_CACHE_CONTROL);
    ("s-maxage", HDRTOKEN_TYPE_CACHE_CONTROL); ("need-revalidate-once", HDRTOKEN_TYPE_CACHE_CONTROL)
  ]%string.

Definition _hdrtoken_commonly_tokenized_strs : list (list Z) := chars <$> [
    "Accept"; "Accept-Charset"; "Accept-Encoding"; "Accept-Language"; "Age"; "Cache-Control"; "Client-ip"; "Connection"; "Content-Length";
    "Content-Location"; "Content-Type"; "Cookie"; "Date"; "Expires"; "Host"; "If-Modified-Since"; "Keep-Alive"; "Last-Modified"; "Pragma";
    "Proxy-Connection"; "max-age"; "no-cache"; "no-store"; "private"; "close"; "http"; "GET"; "POST"
  ]%string.

(** ** The automaton *)

(** Equality of strings of which the case does not matter
    ([RE_CASE_INSENSITIVE]). *)
Definition same_name (s t : list Z) : bool := bool_decide (ink_tolower <$> s = ink_tolower <$> t).

Fixpoint name_index (s : list Z) (names : list (list Z)) (i : Z) : option Z :=
  match names with
  | [] => None
  | n :: names' => if same_name s n then Some i else name_index s names' (i + 1)
  end.

(** [DFA::match] on the automaton compiled from the table of the well-known
    strings: the index of the one that matches, or a negative number. *)
Class TokenDFA := {
  dfa_match : list Z -> Z;
  dfa_match_spec s : match name_index s _hdrtoken_strs 0 with Some i => dfa_match s = i | None => dfa_match s < 0 end
}.

(** ** Lookup *)

Definition HDRTOKEN_HASH_TABLE_SIZE : nat := 128.
Definition HDRTOKEN_HASH_TABLE_MASK : Z := 127.

Definition hdrtoken_hash (s : list Z) : Z :=
  let l := Z.of_nat (length s) in
  let c := fun i => u8 (nth i s 0) in
  if l =? 0 then 0
  else
    let '(c1, c2, c3) :=
      if l >=? 3 then (c 0%nat, c (length s - 1)%nat, c (length s - 2)%nat)
      else if l =? 1 then (c 0%nat, c 0%nat, c 0%nat)
      else (c 0%nat, c 1%nat, c 1%nat) in
    Z.land (u32 (u32 (Z.shiftl (u32 (l - 3)) 3) + Z.land (Z.lxor (c1 + c2) c3) 31 / 5)) HDRTOKEN_HASH_TABLE_MASK.

Section tokenize.
Context `{TokenDFA}.

Definition hdrtoken_tokenize_dfa (s : list Z) : Z := let i := dfa_match s in if i <? 0 then -1 else i.

Definition hdrtoken_index_to_wks (i : Z) : list Z := nth (Z.to_nat i) _hdrtoken_strs [].

(** The token types [hdrtoken_init] sets. *)
Definition hdrtoken_str_token_types : list HdrTokenType :=
  foldl (fun ts '(name, t) => <[Z.to_nat (hdrtoken_tokenize_dfa name) := t]> ts)
        (replicate (length _hdrtoken_strs) HDRTOKEN_TYPE_OTHER) _hdrtoken_strs_type_initializers.

Definition hdrtoken_index_to_token_type (i : Z) : HdrTokenType := nth (Z.to_nat i) hdrtoken_str_token_types HDRTOKEN_TYPE_OTHER.

(** One round of [hdrtoken_hash_init]; [None] is the [abort] on a name that is
    not well known or on a collision, which the code delays to the end. *)
Definition hash_enter (name : list Z) (table : list (option Z)) : option (list (option Z)) :=
  let wks_idx := hdrtoken_tokenize_dfa name in
  if wks_idx <? 0 then None
  else
    let slot := Z.to_nat (hdrtoken_hash (hdrtoken_index_to_wks wks_idx)) in
    match nth slot table None with
    | Some _ => None
    | None => Some (<[slot := Some wks_idx]> table)
    end.

Definition hdrtoken_hash_init : option (list (option Z)) :=
  forM _hdrtoken_commonly_tokenized_strs hash_enter (replicate HDRTOKEN_HASH_TABLE_SIZE None).

(** [hash_table] is what [hdrtoken_hash_init] made; [wks] is the index of the
    well-known string the argument points to, when it points to one. *)
Definition hdrtoken_tokenize (hash_table : list (option Z)) (wks : option Z) (s : list Z) : Z :=
  match wks with
  | Some i => i
  | None =>
    match nth (Z.to_nat (hdrtoken_hash s)) hash_table None with
    | Some i => if bool_decide (hdrtoken_index_to_wks i = s) then i else hdrtoken_tokenize_dfa s
    | None => hdrtoken_tokenize_dfa s
    end
  end.
End tokenize.

(** ** Facts *)

(** The table searched from the front: the reference for the automaton, and an
    implementation of its interface. *)
Definition find_token (s : list Z) : Z := default (-1) (name_index s _hdrtoken_strs 0).

#[export, refine] Instance linear_dfa : TokenDFA := { dfa_match := find_token }.
Proof. intros s. unfold find_token. destruct (name_index s _hdrtoken_strs 0); [done|simpl; lia]. Defined.

(** The hash table and the types, evaluated. *)
Definition common_table : list (option Z) := Eval vm_compute in default [] (@hdrtoken_hash_init linear_dfa).
Definition token_types : list HdrTokenType := Eval vm_compute in @hdrtoken_str_token_types linear_dfa.

#[global] Arguments _hdrtoken_strs : simpl never.
#[global] Arguments common_table : simpl never.
#[global] Arguments token_types : simpl never.

Lemma name_index_range s names i j : name_index s names i = Some j -> i <= j < i + Z.of_nat (length names).
Proof. revert i. induction names as [|n names IH]; intros i; [done|]. simpl. case_match; [intros [= ->]; lia|]. intros E%IH. lia. Qed.

Lemma tokenize_dfa_find `{TokenDFA} s : hdrtoken_tokenize_dfa s = find_token s.
Proof.
  unfold hdrtoken_tokenize_dfa, find_token. pose proof (dfa_match_spec s) as E.
  destruct (name_index s _hdrtoken_strs 0) as [i|] eqn:N; simpl.
  - rewrite E. apply name_index_range in N. by rewrite (proj2 (Z.ltb_ge i 0)) by lia.
  - by rewrite (proj2 (Z.ltb_lt _ 0)) by done.
Qed.

Section facts.
Context `{TokenDFA}.

Lemma hash_init_table : hdrtoken_hash_init = Some common_table.
Proof.
  unfold hdrtoken_hash_init. rewrite (forM_ext _ (@hash_enter linear_dfa)); [by vm_compute|].
  intros n t. unfold hash_enter. by rewrite tokenize_dfa_find, (@tokenize_dfa_find linear_dfa).
Qed.

Lemma token_types_table : hdrtoken_str_token_types = token_types.
Proof.
  unfold hdrtoken_str_token_types. transitivity (@hdrtoken_str_token_types linear_dfa); [|by vm_compute].
  unfold hdrtoken_str_token_types. apply foldl_ext. intros ts [n t].
  by rewrite tokenize_dfa_find, (@tokenize_dfa_find linear_dfa).
Qed.

Lemma nth_forallb {A} (p : A -> bool) l i d x : forallb p l = true -> nth i l d = x -> x <> d -> p x = true.
Proof.
  intros F E N. rewrite forallb_forall in F. apply F. rewrite <- E. apply nth_In.
  destruct (decide (i < length l)%nat) as [|G]; [done|]. by rewrite nth_overflow in E by lia.
Qed.

(** Every string of the hash table is the first of its name in the table of all
    strings. *)
Lemma common_table_found : forallb (fun o => match o with None => true | Some i => find_token (hdrtoken_index_to_wks i) =? i end) common_table = true.
Proof. by vm_compute. Qed.

(** The table of the common strings holds no two strings in one slot, and the
    lookup through it finds for every string what the automaton finds: the
    well-known string equal to it but for case, if there is one. *)
Theorem tokenize_hash_agrees s : hdrtoken_hash_init = Some common_table /\ hdrtoken_tokenize common_table None s = find_token s /\
  hdrtoken_tokenize_dfa s = find_token s.
Proof.
  split_and!; [apply hash_init_table| |apply tokenize_dfa_find].
  unfold hdrtoken_tokenize. rewrite tokenize_dfa_find.
  destruct (nth _ common_table None) as [i|] eqn:E; [|done].
  case_bool_decide as D; [|done]. apply (nth_forallb _ _ _ _ _ common_table_found) in E; [|done].
  cbv beta iota in E. rewrite D in E. symmetry. by apply Z.eqb_eq.
Qed.
End facts.
