(* ===== verification/MimePrint.v ===== *)
(** What the parsers and printers of the header library share
    ([proxy/hdrs/MIME.h], [MIME.cc]): the results of a parser, and printing into
    a buffer that may be shorter than the text, a piece at a time. *)

From S2P Require Import Prelude.

Inductive MIMEParseResult := PARSE_ERROR | PARSE_DONE | PARSE_OK | PARSE_CONT.

#[export] Instance MIMEParseResult_eq_dec : EqDecision MIMEParseResult.
Proof. solve_decision. Defined.

(** [err < 0]. *)
Definition is_error (err : MIMEParseResult) : bool := match err with PARSE_ERROR => true | _ => false end.

(** ** Printing *)

(** The state of a print: how much of the buffer is used, how many characters
    are still to be skipped, and the characters written from the first call on. *)
Record PrintState := mkPrint { buf_index : Z; chars_to_skip : Z; printed : list Z }.

Definition mime_mem_print (buf_length : Z) (src : list Z) (st : PrintState) : bool * PrintState :=
  let src_l := Z.of_nat (length src) in
  if (chars_to_skip st >? 0) && (chars_to_skip st >=? src_l) then (true, mkPrint (buf_index st) (chars_to_skip st - src_l) (printed st))
  else
    let '(src, skip) := if chars_to_skip st >? 0 then (drop (Z.to_nat (chars_to_skip st)) src, 0) else (src, chars_to_skip st) in
    let src_l := Z.of_nat (length src) in
    let copy_l := Z.min (buf_length - buf_index st) src_l in
    (src_l =? copy_l,
     if copy_l >? 0 then mkPrint (buf_index st + copy_l) skip (printed st ++ take (Z.to_nat copy_l) src) else mkPrint (buf_index st) skip (printed st)).

(** A sequence of [TRY(mime_mem_print(...))]. *)
Fixpoint try_print (buf_length : Z) (pieces : list (list Z)) (st : PrintState) : bool * PrintState :=
  match pieces with
  | [] => (true, st)
  | p :: ps => let '(ok, st') := mime_mem_print buf_length p st in if ok then try_print buf_length ps st' else (false, st')
  end.

(** ** Facts *)

(** What printing [src] does to the state, as one function of the characters. *)
Definition print_spec (len : nat) (src : list Z) (i k : nat) (o : list Z) : bool * PrintState :=
  let out := take (len - i) (drop k src) in
  (bool_decide (length (drop k src) <= len - i)%nat, mkPrint (Z.of_nat (i + length out)) (Z.of_nat (k - length src)) (o ++ out)).

Lemma mem_print_spec len src i k o : (i <= len)%nat ->
  mime_mem_print (Z.of_nat len) src (mkPrint (Z.of_nat i) (Z.of_nat k) o) = print_spec len src i k o.
Proof.
  intros Hi. unfold mime_mem_print, print_spec. simpl. destruct (Z.gtb_spec (Z.of_nat k) 0); simpl.
  - destruct (Z.geb_spec (Z.of_nat k) (Z.of_nat (length src))); simpl.
    + rewrite (drop_ge src) by lia. cbn [length]. rewrite take_nil, app_nil_r, bool_decide_true by lia. cbn [length]. do 2 f_equal; lia.
    + rewrite Nat2Z.id. replace (Z.of_nat (k - length src)) with 0 by lia. apply pair_eq; split.
      * rewrite length_drop. case_bool_decide; [apply Z.eqb_eq|apply Z.eqb_neq]; lia.
      * destruct (Z.gtb_spec (Z.min (Z.of_nat len - Z.of_nat i) (Z.of_nat (length (drop k src)))) 0) as [G|G]; rewrite length_drop in G.
        -- rewrite !length_take, length_drop. f_equal; [lia|]. f_equal.
           destruct (decide (len - i <= length src - k)%nat); [f_equal; lia|].
           rewrite !take_ge; [done|rewrite length_drop; lia..].
        -- replace (len - i)%nat with 0%nat by lia. simpl. rewrite app_nil_r. f_equal. lia.
  - assert (k = 0%nat) as -> by lia. simpl. rewrite Nat.sub_0_l, drop_0. apply pair_eq; split.
    + case_bool_decide; [apply Z.eqb_eq|apply Z.eqb_neq]; lia.
    + destruct (Z.gtb_spec (Z.min (Z.of_nat len - Z.of_nat i) (Z.of_nat (length src))) 0) as [G|G].
      * rewrite length_take. f_equal; [lia|]. f_equal.
        destruct (decide (len - i <= length src)%nat); [f_equal; lia|]. rewrite !take_ge; [done|lia..].
      * destruct src as [|c src]; [rewrite take_nil; simpl; rewrite app_nil_r; f_equal; lia|].
        simpl in G. replace (len - i)%nat with 0%nat by lia. simpl. rewrite app_nil_r. f_equal. lia.
Qed.

Lemma print_spec_nil len i k o : (i <= len)%nat -> print_spec len [] i k o = (true, mkPrint (Z.of_nat i) (Z.of_nat k) o).
Proof.
  intros Hi. unfold print_spec. rewrite drop_nil, take_nil, app_nil_r. cbn [length]. rewrite bool_decide_true by lia. do 2 f_equal; lia.
Qed.

(** Printing [a] and then, if it fits, [b]. *)
Lemma print_spec_app len a b i k o : (i <= len)%nat -> print_spec len (a ++ b) i k o =
  let '(ok, st) := print_spec len a i k o in
  if ok then print_spec len b (i + length (take (len - i) (drop k a))) (k - length a) (o ++ take (len - i) (drop k a)) else (false, st).
Proof.
  intros Hi. unfold print_spec. destruct (decide (length (drop k a) <= len - i)%nat) as [B|B].
  - rewrite (bool_decide_true (length (drop k a) <= len - i)%nat) by done. cbv beta iota zeta.
    rewrite (take_ge (drop k a)), drop_app by lia. rewrite (take_app_ge (drop k a)) by lia.
    rewrite !length_app, <- app_assoc. replace (len - (i + length (drop k a)))%nat with (len - i - length (drop k a))%nat by lia.
    f_equal; [apply bool_decide_ext; lia|]. f_equal; lia.
  - rewrite (bool_decide_false (length (drop k a) <= len - i)%nat) by done. cbv beta iota zeta.
    rewrite drop_app, length_app, bool_decide_false, take_app_le by lia. do 2 f_equal.
    assert (k < length a)%nat by (rewrite length_drop in B; lia). rewrite length_app. lia.
Qed.

(** A sequence of prints is one print of the strings joined. *)
Lemma try_print_spec len ps i k o : (i <= len)%nat ->
  try_print (Z.of_nat len) ps (mkPrint (Z.of_nat i) (Z.of_nat k) o) = print_spec len (concat ps) i k o.
Proof.
  revert i k o. induction ps as [|p ps IH]; intros i k o Hi; simpl; [by rewrite print_spec_nil|].
  rewrite mem_print_spec, print_spec_app by done. unfold print_spec at 1 2. case_bool_decide; [|done].
  apply IH. rewrite length_take. lia.
Qed.
