(* ===== verification/URL.v ===== *)
(** URLs ([proxy/hdrs/URL.cc], [URL.h]): the parsed form, the setters, the
    parsers, printing into a buffer piece by piece, the cached printed form,
    unescaping, and the bytes a cache key is the digest of.

    A [char] is a signed byte.  A string a pointer and a length stand for is the
    list of its characters, and [None] is the null pointer; the lengths have 16
    bits, and a longer string is cut to its length modulo [2^16], as the setters
    do.  [copy_strings] decides who owns the characters, which matters for the
    host only, whose memory is reused.  [None] as a result is a crash: a read
    past the end of the input or a write through a null pointer. *)

From S2P Require Import Prelude ParseRules HdrToken MimePrint.
From Stdlib Require Import Ascii.

Inductive URLType := URL_TYPE_NONE | URL_TYPE_HTTP | URL_TYPE_HTTPS | URL_TYPE_FTP | URL_TYPE_MMS | URL_TYPE_MMSU | URL_TYPE_MMST | URL_TYPE_RTSP.

#[export] Instance URLType_eq_dec : EqDecision URLType.
Proof. solve_decision. Defined.

Record URLStrings := mkStrs {
  m_scheme : option (list Z); m_user : option (list Z); m_password : option (list Z); m_host : option (list Z); m_port_str : option (list Z);
  m_path : option (list Z); m_params : option (list Z); m_query : option (list Z); m_fragment : option (list Z)
}.

Record URLImpl := mkURL {
  strs : URLStrings;
  m_capacity_host : Z;
  m_scheme_wks_idx : Z; m_port : Z; m_url_type : URLType; m_type_code : Z;
  m_ptr_printed_string : option (list Z); m_len_printed_string : Z; clean : bool
}.

Definition url_create : URLImpl := mkURL (mkStrs None None None None None None None None None) 0 (-1) 0 URL_TYPE_NONE 0 None 0 false.

(** [memset] leaves [clean] false; [url_clear] also. *)
Definition url_clear (u : URLImpl) : URLImpl := url_create.

Definition set_strs (u : URLImpl) (s : URLStrings) : URLImpl :=
  mkURL s (m_capacity_host u) (m_scheme_wks_idx u) (m_port u) (m_url_type u) (m_type_code u) (m_ptr_printed_string u) (m_len_printed_string u) (clean u).

Definition set_printed (u : URLImpl) (p : option (list Z)) (l : Z) (c : bool) : URLImpl :=
  mkURL (strs u) (m_capacity_host u) (m_scheme_wks_idx u) (m_port u) (m_url_type u) (m_type_code u) p l c.

Definition is_null {A} (p : option A) : bool := match p with None => true | Some _ => false end.

Definition url_called_set (u : URLImpl) : URLImpl :=
  set_printed u (m_ptr_printed_string u) (m_len_printed_string u) (is_null (m_ptr_printed_string u)).

Definition url_clear_string_ref (u : URLImpl) : URLImpl :=
  match m_ptr_printed_string u with Some _ => set_printed u None 0 true | None => u end.

Definition url_nuke_proxy_stuff (u : URLImpl) : URLImpl :=
  let s := strs u in
  mkURL (mkStrs None None None None None (m_path s) (m_params s) (m_query s) (m_fragment s))
        (m_capacity_host u) (-1) 0 (m_url_type u) (m_type_code u) (m_ptr_printed_string u) (m_len_printed_string u) (clean u).

Definition url_copy_onto_as_server_url (s_url d_url : URLImpl) : URLImpl :=
  let d := url_clear_string_ref (url_nuke_proxy_stuff d_url) in
  let s := strs s_url in
  mkURL (mkStrs None None None None None (m_path s) (m_params s) (m_query s) (m_fragment s))
        (m_capacity_host d) (m_scheme_wks_idx d) (m_port d) (m_url_type s_url) (m_type_code s_url)
        (m_ptr_printed_string d) (m_len_printed_string d) (clean d).

(** ** Setters *)

(** [mime_str_u16_set], whose parameter [s_len] has 16 bits. *)
Definition mime_str_u16_set (s_str : option (list Z)) : option (list Z) :=
  match s_str with None => None | Some v => Some (take (Z.to_nat (u16 (Z.of_nat (length v)))) v) end.

#[global] Arguments mime_str_u16_set : simpl never.

(** [if (length == 0) value = NULL]. *)
Definition drop_empty (value : option (list Z)) : option (list Z) := match value with Some [] => None | _ => value end.

Definition url_user_set (value : option (list Z)) (u0 : URLImpl) : URLImpl :=
  let u := url_called_set u0 in let s := strs u in
  set_strs u (mkStrs (m_scheme s) (mime_str_u16_set (drop_empty value)) (m_password s) (m_host s) (m_port_str s) (m_path s) (m_params s) (m_query s) (m_fragment s)).

Definition url_password_set (value : option (list Z)) (u0 : URLImpl) : URLImpl :=
  let u := url_called_set u0 in let s := strs u in
  set_strs u (mkStrs (m_scheme s) (m_user s) (mime_str_u16_set (drop_empty value)) (m_host s) (m_port_str s) (m_path s) (m_params s) (m_query s) (m_fragment s)).

Definition url_path_set (value : option (list Z)) (u0 : URLImpl) : URLImpl :=
  let u := url_called_set u0 in let s := strs u in
  set_strs u (mkStrs (m_scheme s) (m_user s) (m_password s) (m_host s) (m_port_str s) (mime_str_u16_set (drop_empty value)) (m_params s) (m_query s) (m_fragment s)).

Definition url_params_set (value : option (list Z)) (u0 : URLImpl) : URLImpl :=
  let u := url_called_set u0 in let s := strs u in
  set_strs u (mkStrs (m_scheme s) (m_user s) (m_password s) (m_host s) (m_port_str s) (m_path s) (mime_str_u16_set value) (m_query s) (m_fragment s)).

Definition url_query_set (value : option (list Z)) (u0 : URLImpl) : URLImpl :=
  let u := url_called_set u0 in let s := strs u in
  set_strs u (mkStrs (m_scheme s) (m_user s) (m_password s) (m_host s) (m_port_str s) (m_path s) (m_params s) (mime_str_u16_set value) (m_fragment s)).

Definition url_fragment_set (value : option (list Z)) (u0 : URLImpl) : URLImpl :=
  let u := url_called_set u0 in let s := strs u in
  set_strs u (mkStrs (m_scheme s) (m_user s) (m_password s) (m_host s) (m_port_str s) (m_path s) (m_params s) (m_query s) (mime_str_u16_set value)).

Definition url_type_set (typecode : Z) (u0 : URLImpl) : URLImpl :=
  let u := url_called_set u0 in
  mkURL (strs u) (m_capacity_host u) (m_scheme_wks_idx u) (m_port u) (m_url_type u) (u8 typecode) (m_ptr_printed_string u) (m_len_printed_string u) (clean u).

Definition set_host (u : URLImpl) (h : option (list Z)) (capacity : Z) : URLImpl :=
  let s := strs u in
  mkURL (mkStrs (m_scheme s) (m_user s) (m_password s) h (m_port_str s) (m_path s) (m_params s) (m_query s) (m_fragment s)) capacity
        (m_scheme_wks_idx u) (m_port u) (m_url_type u) (m_type_code u) (m_ptr_printed_string u) (m_len_printed_string u) (clean u).

(** The last branch copies into the memory the host has, and does not ask
    whether it has any. *)
Definition url_host_set (copy_string : bool) (value : option (list Z)) (u0 : URLImpl) : option URLImpl :=
  let u := url_called_set u0 in
  match value with
  | None | Some [] => Some (set_host u (match m_host (strs u) with Some _ => Some [] | None => None end) (m_capacity_host u))
  | Some v =>
    let l := Z.of_nat (length v) in
    let h := mime_str_u16_set (Some v) in
    if negb copy_string then Some (set_host u h (m_capacity_host u))
    else if m_capacity_host u <? l then Some (set_host u h (u16 l))
    else match m_host (strs u) with Some _ => Some (set_host u h (m_capacity_host u)) | None => None end
  end.

(** The loop of [url_port_set] over the digits. *)
Fixpoint port_value (p : Z) (value : list Z) : Z :=
  match value with [] => p | c :: v => if is_digit c then port_value (u16 (p * 10 + (c - 48))) v else p end.

Definition set_port (u : URLImpl) (str : option (list Z)) (p : Z) : URLImpl :=
  let s := strs u in
  mkURL (mkStrs (m_scheme s) (m_user s) (m_password s) (m_host s) str (m_path s) (m_params s) (m_query s) (m_fragment s)) (m_capacity_host u)
        (m_scheme_wks_idx u) p (m_url_type u) (m_type_code u) (m_ptr_printed_string u) (m_len_printed_string u) (clean u).

Definition url_port_set (value : option (list Z)) (u : URLImpl) : URLImpl :=
  set_port (url_called_set u) (mime_str_u16_set (drop_empty value)) (port_value 0 (default [] value)).

Definition url_port_set_number (port : Z) (u : URLImpl) : URLImpl :=
  set_port (url_called_set u) (mime_str_u16_set (Some (sprintf_u port))) (u16 port).

(** ** Schemes *)

Section schemes.
Context `{TokenDFA} (hash_table : list (option Z)).

(** [hdrtoken_string_to_wks] on a scheme, when [url_init] sets up its names. *)
Definition scheme_wks (name : string) : Z := hdrtoken_tokenize hash_table None (chars name).

Definition scheme_type (wks : Z) : URLType :=
  if wks =? scheme_wks "http" then URL_TYPE_HTTP
  else if wks =? scheme_wks "ftp" then URL_TYPE_FTP
  else if wks =? scheme_wks "mms" then URL_TYPE_MMS
  else if wks =? scheme_wks "mmsu" then URL_TYPE_MMSU
  else if wks =? scheme_wks "mmst" then URL_TYPE_MMST
  else if wks =? scheme_wks "rtsp" then URL_TYPE_RTSP
  else if wks =? scheme_wks "https" then URL_TYPE_HTTPS
  else URL_TYPE_HTTP.

Definition url_scheme_set (value : option (list Z)) (scheme_wks_idx : Z) (u0 : URLImpl) : URLImpl :=
  let u := url_called_set u0 in let s := strs u in
  mkURL (mkStrs (mime_str_u16_set (drop_empty value)) (m_user s) (m_password s) (m_host s) (m_port_str s) (m_path s) (m_params s) (m_query s) (m_fragment s))
        (m_capacity_host u) scheme_wks_idx (m_port u)
        (if scheme_wks_idx >=? 0 then scheme_type scheme_wks_idx else URL_TYPE_HTTP)
        (m_type_code u) (m_ptr_printed_string u) (m_len_printed_string u) (clean u).

(** ** Parsing

    The input is [s]; a pointer into it is an index, and [end] its length.  A
    label of the source is a function on the characters from [cur] on; where
    [GETNEXT] jumps to [done] at the end of the input, the function is applied
    to no characters. *)

(** The characters from [a] to [b]. *)
Definition sub (s : list Z) (a b : nat) : list Z := take (b - a) (drop a s).

(** [((s[0] ^ p[0]) | (s[1] ^ p[1]) | ...) == 0]. *)
Definition xor_match (s pat : list Z) : bool := foldr Z.lor 0 (zip_with Z.lxor s pat) =? 0.

(** The pointers of [url_parse_internet]. *)
Record IPtrs := mkIP {
  user_start : option nat; user_end : option nat; pass_start : option nat; pass_end : option nat;
  host_start : option nat; host_end : option nat; port_start : option nat; port_end : option nat
}.

Fixpoint parse_port2 (l : list Z) (cur : nat) (p : IPtrs) : nat * IPtrs :=
  match l with
  | [] => (cur, p)
  | c :: l' =>
    if c =? ch "/" then (S cur, mkIP (user_start p) (user_end p) (pass_start p) (pass_end p) (host_start p) (host_end p) (port_start p) (Some cur))
    else parse_port2 l' (S cur) p
  end.

Definition parse_port1 (l : list Z) (cur : nat) (p : IPtrs) : nat * IPtrs :=
  match l with
  | [] => (cur, p)
  | _ => parse_port2 l cur (mkIP (user_start p) (user_end p) (pass_start p) (pass_end p) (host_start p) (host_end p) (Some cur) (port_end p))
  end.

Fixpoint parse_host2 (l : list Z) (cur : nat) (p : IPtrs) : nat * IPtrs :=
  match l with
  | [] => (cur, p)
  | c :: l' =>
    let p' := mkIP (user_start p) (user_end p) (pass_start p) (pass_end p) (host_start p) (Some cur) (port_start p) (port_end p) in
    if c =? ch ":" then parse_port1 l' (S cur) p'
    else if c =? ch "/" then (S cur, p')
    else parse_host2 l' (S cur) p
  end.

Definition parse_host1 (l : list Z) (cur : nat) (p : IPtrs) : nat * IPtrs :=
  match l with
  | [] => (cur, p)
  | _ => parse_host2 l cur (mkIP (user_start p) (user_end p) (pass_start p) (pass_end p) (Some cur) (host_end p) (port_start p) (port_end p))
  end.

Definition pass_offset : Z := 16.
Definition pass_mask : Z := u8 (Z.land (ch "@" + pass_offset) (ch "/" + pass_offset)).

Fixpoint parse_pass2 (l : list Z) (cur : nat) (p : IPtrs) : nat * IPtrs :=
  match l with
  | [] => (cur, p)
  | c :: l' =>
    if Z.land (u8 c + pass_offset) pass_mask =? pass_mask then
      if c =? ch "/" then (S cur, mkIP None None None (pass_end p) (user_start p) (user_end p) (pass_start p) (Some cur))
      else if c =? ch "@" then
        parse_host1 l' (S cur) (mkIP (user_start p) (user_end p) (pass_start p) (Some cur) (host_start p) (host_end p) (port_start p) (port_end p))
      else parse_pass2 l' (S cur) p
    else parse_pass2 l' (S cur) p
  end.

Definition parse_pass1 (l : list Z) (cur : nat) (p : IPtrs) : nat * IPtrs :=
  match l with
  | [] => (cur, p)
  | _ => parse_pass2 l cur (mkIP (user_start p) (user_end p) (Some cur) (pass_end p) (host_start p) (host_end p) (port_start p) (port_end p))
  end.

Definition user_offset : Z := 61.
Definition user_mask : Z := u8 (Z.land (Z.land (ch ":" + user_offset) (ch "@" + user_offset)) (ch "/" + user_offset)).

Fixpoint parse_user2 (l : list Z) (cur : nat) (p : IPtrs) : nat * IPtrs :=
  match l with
  | [] => (cur, p)
  | c :: l' =>
    let p' := mkIP (user_start p) (Some cur) (pass_start p) (pass_end p) (host_start p) (host_end p) (port_start p) (port_end p) in
    if Z.land (u8 c + user_offset) user_mask =? user_mask then
      if c =? ch ":" then parse_pass1 l' (S cur) p'
      else if c =? ch "@" then parse_host1 l' (S cur) p'
      else if c =? ch "/" then (S cur, mkIP None (user_end p) (pass_start p) (pass_end p) (user_start p) (Some cur) (port_start p) (port_end p))
      else parse_user2 l' (S cur) p
    else parse_user2 l' (S cur) p
  end.

Definition parse_user1 (s : list Z) (cur : nat) : nat * IPtrs :=
  parse_user2 (drop cur s) cur (mkIP (Some cur) None None None None None None None).

(** A string between two pointers, the second of which may not be set. *)
Definition between (s : list Z) (start end_ : option nat) (cur : nat) : option (list Z) :=
  match start with None => None | Some a => Some (sub s a (default cur end_)) end.

Definition set_if {A} (set : option A -> URLImpl -> URLImpl) (v : option A) (u : URLImpl) : URLImpl := match v with None => u | Some _ => set v u end.

(** The end of [url_parse_internet], from [done] on. *)
Definition internet_done (copy_strings : bool) (s : list Z) (cur : nat) (p0 : IPtrs) (u : URLImpl) : option URLImpl :=
  let p := match host_start p0 with
           | None => mkIP None None None None (user_start p0) (user_end p0) (pass_start p0) (pass_end p0)
           | Some _ => p0
           end in
  let u1 := set_if url_user_set (between s (user_start p) (user_end p) cur) u in
  let u2 := set_if url_password_set (between s (pass_start p) (pass_end p) cur) u1 in
  u3 ← match between s (host_start p) (host_end p) cur with
       | None => Some u2
       | Some h => url_host_set copy_strings (Some h) u2
       end;
  Some (set_if url_port_set (between s (port_start p) (port_end p) cur) u3).

(** Where the user or host starts, behind [://]; [None] is [eof]. *)
Definition skip_slashes (s : list Z) (cur : nat) : option nat :=
  let at_ := fun i => nth i s 0 in
  if (3 <? length s - cur)%nat && xor_match (drop cur s) (chars "://") then Some (cur + 3)%nat
  else if negb (at_ cur =? ch ":") then Some cur
  else if (length s <=? cur + 1)%nat then None
  else if negb (at_ (cur + 1)%nat =? ch "/") then Some (cur + 1)%nat
  else if (length s <=? cur + 2)%nat then None
  else if negb (at_ (cur + 2)%nat =? ch "/") then Some (cur + 2)%nat
  else if (length s <=? cur + 3)%nat then None
  else Some (cur + 3)%nat.

Definition url_parse_internet (copy_strings : bool) (s : list Z) (start : nat) (u : URLImpl) : option (MIMEParseResult * URLImpl * nat) :=
  if (length s <=? start)%nat then None
  else
    match skip_slashes s start with
    | None => Some (PARSE_ERROR, u, start)
    | Some cur =>
      let '(cur', p) := parse_user1 s cur in
      u' ← internet_done copy_strings s cur' p u;
      Some (PARSE_DONE, u', cur')
    end.

(** [done] of [url_parse_ftp], and the two ways to it. *)
Definition ftp_done (s : list Z) (path_start path_end : option nat) (typecode : Z) (cur : nat) (u : URLImpl) : MIMEParseResult * URLImpl * nat :=
  let u1 := set_if url_path_set (between s path_start path_end cur) u in
  (PARSE_DONE, if typecode =? 0 then u1 else url_type_set typecode u1, cur).

(** The index of the first [c] in [l], whose first character is number [cur]. *)
Fixpoint find_char (c : Z) (l : list Z) (cur : nat) : option nat :=
  match l with
  | [] => None
  | x :: l' => if x =? c then Some cur else find_char c l' (S cur)
  end.

Definition url_parse_ftp (copy_strings : bool) (s : list Z) (start : nat) (u : URLImpl) : option (MIMEParseResult * URLImpl * nat) :=
  '(err, u1, cur) ← url_parse_internet copy_strings s start u;
  match is_error err with
  | true => Some (err, u1, cur)
  | false =>
    if (cur =? length s)%nat then Some (ftp_done s None None 0 cur u1)
    else
      match find_char (ch ";") (drop cur s) cur with
      | None => Some (ftp_done s (Some cur) None 0 (length s) u1)
      | Some semi =>
        let t := drop (S semi) s in                       (* from [parse_type1] *)
        match t with
        | [] => Some (ftp_done s (Some cur) (Some semi) 0 (length s) u1)
        | _ =>
          if bool_decide (take 5 t = chars "type=") && (length t =? 6)%nat
          then Some (ftp_done s (Some cur) (Some semi) (nth 5 t 0) (semi + 6) u1)
          else Some (PARSE_ERROR, u1, cur)
        end
      end
  end.

(** The pointers of [url_parse_http]. *)
Record HPtrs := mkHP {
  path_end : option nat; params_start : option nat; params_end : option nat; query_start : option nat; query_end : option nat;
  fragment_start : option nat; fragment_end : option nat
}.

(** From the [#] at [cur] on. *)
Definition parse_fragment1 (l' : list Z) (cur : nat) (p : HPtrs) : nat * HPtrs :=
  (S cur, mkHP (path_end p) (params_start p) (params_end p) (query_start p) (query_end p) (Some (S cur))
            (match l' with [] => fragment_end p | _ => Some (S cur + length l')%nat end)).

Fixpoint parse_query2 (l : list Z) (cur : nat) (p : HPtrs) : nat * HPtrs :=
  match l with
  | [] => (cur, p)
  | c :: l' =>
    if c =? ch "#" then
      parse_fragment1 l' cur (mkHP (path_end p) (params_start p) (params_end p) (query_start p) (Some cur) (fragment_start p) (fragment_end p))
    else parse_query2 l' (S cur) p
  end.

(** From the [?] at [cur] on. *)
Definition parse_query1 (l' : list Z) (cur : nat) (p : HPtrs) : nat * HPtrs :=
  parse_query2 l' (S cur) (mkHP (path_end p) (params_start p) (params_end p) (Some (S cur)) (query_end p) (fragment_start p) (fragment_end p)).

Fixpoint parse_params2 (l : list Z) (cur : nat) (p : HPtrs) : nat * HPtrs :=
  match l with
  | [] => (cur, p)
  | c :: l' =>
    let p' := mkHP (path_end p) (params_start p) (Some cur) (query_start p) (query_end p) (fragment_start p) (fragment_end p) in
    if c =? ch "?" then parse_query1 l' cur p'
    else if c =? ch "#" then parse_fragment1 l' cur p'
    else parse_params2 l' (S cur) p
  end.

(** From the [;] at [cur] on. *)
Definition parse_params1 (l' : list Z) (cur : nat) (p : HPtrs) : nat * HPtrs :=
  parse_params2 l' (S cur) (mkHP (path_end p) (Some (S cur)) (params_end p) (query_start p) (query_end p) (fragment_start p) (fragment_end p)).

Definition path_mask : Z := Z.land (Z.land (ch ";") (ch "?")) (ch "#").

Fixpoint parse_path2 (l : list Z) (cur : nat) (p : HPtrs) : nat * HPtrs :=
  match l with
  | [] => (cur, p)
  | c :: l' =>
    let p' := mkHP (Some cur) (params_start p) (params_end p) (query_start p) (query_end p) (fragment_start p) (fragment_end p) in
    if Z.land c path_mask =? path_mask then
      if c =? ch ";" then parse_params1 l' cur p'
      else if c =? ch "?" then parse_query1 l' cur p'
      else if c =? ch "#" then parse_fragment1 l' cur p'
      else parse_path2 l' (S cur) p
    else parse_path2 l' (S cur) p
  end.

(** The end of [url_parse_http], from [done] on. *)
Definition http_done (s : list Z) (path_start : option nat) (cur : nat) (p : HPtrs) (u : URLImpl) : URLImpl :=
  let u1 := set_if url_path_set (between s path_start (path_end p) cur) u in
  let u2 := set_if url_params_set (between s (params_start p) (params_end p) cur) u1 in
  let u3 := set_if url_query_set (between s (query_start p) (query_end p) cur) u2 in
  set_if url_fragment_set (between s (fragment_start p) (fragment_end p) cur) u3.

Definition no_hptrs : HPtrs := mkHP None None None None None None None.

Definition url_parse_http (copy_strings : bool) (s : list Z) (start : nat) (u : URLImpl) : option (MIMEParseResult * URLImpl * nat) :=
  '(err, u1, cur) ← url_parse_internet copy_strings s start u;
  match is_error err with
  | true => Some (err, u1, cur)
  | false =>
    if (cur =? length s)%nat then Some (PARSE_DONE, http_done s None cur no_hptrs u1, cur)
    else let '(cur', p) := parse_path2 (drop cur s) cur no_hptrs in Some (PARSE_DONE, http_done s (Some cur) cur' p u1, cur')
  end.

Definition url_parse_http_no_path_component_breakdown (copy_strings : bool) (s : list Z) (start : nat) (u : URLImpl)
    : option (MIMEParseResult * URLImpl * nat) :=
  '(err, u1, cur) ← url_parse_internet copy_strings s start u;
  match is_error err with
  | true => Some (err, u1, cur)
  | false =>
    let path_start := if (cur =? length s)%nat then None else Some cur in
    Some (PARSE_DONE, set_if url_path_set (between s path_start None (length s)) u1, length s)
  end.

(** [None] is [eof]: white space only. *)
Fixpoint skip_ws (l : list Z) (cur : nat) : option nat :=
  match l with
  | [] => None
  | c :: l' => if is_ws c then skip_ws l' (S cur) else Some cur
  end.

(** The end of the scheme that starts at [cur], and which it is; [None] when
    there is no well-known scheme. *)
Definition parse_scheme (s : list Z) (cur : nat) : option (nat * Z) :=
  if (5 <=? length s - cur)%nat && xor_match (drop cur s) (chars "http:") then Some ((cur + 4)%nat, scheme_wks "http")
  else
    match find_char (ch ":") (drop cur s) cur with
    | None => None
    | Some e =>
      let wks := hdrtoken_tokenize hash_table None (sub s cur e) in
      if (wks <? 0) || bool_decide (hdrtoken_index_to_token_type wks <> HDRTOKEN_TYPE_SCHEME) then None else Some (e, wks)
    end.

(** The text the two parsers share; [parse_http] is where they differ. *)
Definition url_parse_with (parse_http : bool -> list Z -> nat -> URLImpl -> option (MIMEParseResult * URLImpl * nat))
    (copy_strings : bool) (s : list Z) (start : nat) (u : URLImpl) : option (MIMEParseResult * URLImpl * nat) :=
  if (length s <=? start)%nat then None
  else
    match skip_ws (drop start s) start with
    | None => Some (PARSE_ERROR, u, start)
    | Some cur =>
      match parse_scheme s cur with
      | None => parse_http copy_strings s cur u
      | Some (e, wks) =>
        let u1 := url_scheme_set (Some (sub s cur e)) wks u in
        if wks =? scheme_wks "ftp" then url_parse_ftp copy_strings s e u1 else parse_http copy_strings s e u1
      end
    end.

Definition url_parse := url_parse_with url_parse_http.
Definition url_parse_no_path_component_breakdown := url_parse_with url_parse_http_no_path_component_breakdown.
End schemes.

(** ** Printing *)

Definition piece (before : list (list Z)) (s : option (list Z)) (after : list (list Z)) : list (list Z) :=
  match s with None => [] | Some v => before ++ v :: after end.

Section print.
Context `{TokenDFA} (hash_table : list (option Z)).

Definition is_file (u : URLImpl) : bool := (m_scheme_wks_idx u >=? 0) && (m_scheme_wks_idx u =? scheme_wks hash_table "file").

Definition has_port (u : URLImpl) : bool := negb (is_null (m_port_str (strs u))) && negb (m_port u =? 0).

(** The arguments of the calls of [mime_mem_print] in [url_print], in order. *)
Definition url_pieces (u : URLImpl) : list (list Z) :=
  let s := strs u in
  piece [] (m_scheme s) [chars (if is_file u then ":" else "://")] ++
  piece [] (m_user s) (piece [chars ":"] (m_password s) [] ++ [chars "@"]) ++
  piece [] (m_host s) (if has_port u then piece [chars ":"] (m_port_str s) [] else []) ++
  [chars "/"] ++ piece [] (m_path s) [] ++
  (if bool_decide (m_url_type u = URL_TYPE_FTP) then if m_type_code u =? 0 then [] else [chars ";type="; [wraps 8 (m_type_code u)]]
   else piece [chars ";"] (m_params s) [] ++ piece [chars "?"] (m_query s) [] ++ piece [chars "#"] (m_fragment s) []).

Definition url_print (u : URLImpl) (buf_length : Z) (st : PrintState) : bool * PrintState := try_print buf_length (url_pieces u) st.

Definition url_length_get (u : URLImpl) : Z :=
  let s := strs u in
  let len := fun p => match p with None => 0 | Some v => Z.of_nat (length v) end in
  (match m_scheme s with None => 0 | Some v => Z.of_nat (length v) + (if is_file u then 1 else 3) end) +
  (match m_user s with None => 0 | Some v => Z.of_nat (length v) + 1 + match m_password s with None => 0 | Some w => Z.of_nat (length w) + 1 end end) +
  (match m_host s with None => 0 | Some v => Z.of_nat (length v) + (if has_port u then len (m_port_str s) + 1 else 0) end) +
  (match m_path s with None => 1 | Some v => Z.of_nat (length v) + 1 end) +
  (if bool_decide (m_url_type u = URL_TYPE_FTP) then if m_type_code u =? 0 then 0 else 7
   else (match m_params s with None => 0 | Some v => Z.of_nat (length v) + 1 end) +
        (match m_query s with None => 0 | Some v => Z.of_nat (length v) + 1 end) +
        (match m_fragment s with None => 0 | Some v => Z.of_nat (length v) + 1 end)).

(** The characters [url_print] writes to a new buffer. *)
Definition print_new (u : URLImpl) (len : Z) : list Z := printed (snd (url_print u len (mkPrint 0 0 []))).

(** The string and its length, without the NUL written behind it. *)
Definition url_string_get_ref (u : URLImpl) : list Z * Z * URLImpl :=
  match m_ptr_printed_string u with
  | Some p => if clean u then (p, m_len_printed_string u, u)
              else let len := url_length_get u in let buf := print_new u len in (buf, len, set_printed u (Some buf) (u16 len) true)
  | None => let len := url_length_get u in let buf := print_new u len in (buf, len, set_printed u (Some buf) (u16 len) true)
  end.

(** [with_heap]: the caller asks for the printed string to be kept. *)
Definition url_string_get (with_heap : bool) (u : URLImpl) : list Z * Z * URLImpl :=
  let len := url_length_get u in
  let buf := print_new u len in
  (buf, len, if with_heap then set_printed u (Some buf) (u16 len) true else u).

Definition url_string_get_buf (dstbuf_size : Z) (u : URLImpl) : option (list Z * Z) :=
  if dstbuf_size >? 0 then
    let len := url_length_get u in
    let len := if len >=? dstbuf_size then dstbuf_size - 1 else len in
    Some (print_new u len, len)
  else None.

(** [url_to_string]: the characters and the NUL; [None] is the release
    assertion that their number is the one computed before. *)
Definition url_to_string (u : URLImpl) : option (list Z) :=
  let s := strs u in
  let str :=
    concat (piece [] (m_scheme s) [chars (if is_file u then ":" else "://")] ++
            piece [] (m_user s) (piece [chars ":"] (m_password s) [] ++ [chars "@"]) ++
            piece [] (m_host s) (piece [chars ":"] (m_port_str s) []) ++
            piece [] (m_path s) [] ++
            (if bool_decide (m_url_type u = URL_TYPE_FTP) then if m_type_code u =? 0 then [] else [chars ";type="; [wraps 8 (m_type_code u)]]
             else piece [chars ";"] (m_params s) [] ++ piece [chars "?"] (m_query s) [] ++ piece [chars "#"] (m_fragment s) [])) ++ [0] in
  if Z.of_nat (length str) =? url_length_get u + 1 then Some str else None.
End print.

(** ** Escapes *)

Definition hex_value (c : Z) : Z := if is_alpha c then ink_toupper c - ch "A" + 10 else c - ch "0".

(** The loop of [unescape_str] and, with [ink_tolower] for [conv], of
    [unescape_str_tolower]: [s] is the whole string, [t] the place in it and
    [room] what is left of the buffer.  The result is what is written, the
    place and the state. *)
Fixpoint unescape_go (fuel : nat) (conv : Z -> Z) (s : list Z) (t : nat) (room : nat) (state : Z) (out : list Z) : option (list Z * nat * Z) :=
  if (t <? length s)%nat && (0 <? room)%nat then
    match fuel with
    | O => None
    | S f =>
      let c := nth t s 0 in
      let before := fun k => nth (t - k) s 0 in
      let put := fun x t' state' => unescape_go f conv s t' (room - 1) state' (out ++ [x]) in
      if state =? 0 then
        if c =? ch "%" then unescape_go f conv s (S t) room 1 out else put (conv c) (S t) 0
      else if state =? 1 then
        if is_hex c then unescape_go f conv s (S t) room 2 out else put (conv (before 1%nat)) t 0
      else if state =? 2 then
        if is_hex c then put (wraps 8 (hex_value (before 1%nat) * 16 + hex_value c)) (S t) 0 else put (conv (before 2%nat)) t 3
      else put (conv (before 1%nat)) t 0
    end
  else Some (out, t, state).

(** [ink_memcpy_until_char]: what is copied of the first [n] characters. *)
Fixpoint memcpy_until_char (src : list Z) (n : nat) (c : Z) : list Z :=
  match n, src with
  | S n', x :: src' => if u8 x =? u8 c then [] else x :: memcpy_until_char src' n' c
  | _, _ => []
  end.

Definition unescape_fuel (s : list Z) (t : nat) : nat := 4 * (length s - t) + 4.

Definition unescape_str (s : list Z) (t room : nat) (state : Z) : option (list Z * nat * Z) :=
  let min_len := Nat.min (length s - t) room in
  let copied := memcpy_until_char (drop t s) min_len (ch "%") in
  let copy_len := length copied in
  if (copy_len =? min_len)%nat then Some (copied, (t + copy_len)%nat, state)
  else unescape_go (unescape_fuel s t) id s (t + copy_len) (room - copy_len) state copied.

Definition unescape_str_tolower (s : list Z) (t room : nat) (state : Z) : option (list Z * nat * Z) :=
  unescape_go (unescape_fuel s t) ink_tolower s t room state [].

Definition url_unescapify (s : list Z) : option (list Z) := '(out, _, _) ← unescape_str s 0 (length s) 0; Some out.

(** ** The bytes of a cache key *)

Definition url_canonicalize_port (type : URLType) (port : Z) : Z :=
  if port =? 0 then
    match type with
    | URL_TYPE_HTTP => 80 | URL_TYPE_FTP => 21 | URL_TYPE_HTTPS => 443
    | URL_TYPE_MMS | URL_TYPE_MMSU | URL_TYPE_MMST => 1755
    | URL_TYPE_RTSP => 554
    | URL_TYPE_NONE => port
    end
  else port.

(** The two bytes of the port in memory, lowest first. *)
Definition port_bytes (u : URLImpl) : list Z :=
  let port := u16 (url_canonicalize_port (m_url_type u) (m_port u)) in [wraps 8 (port mod 256); wraps 8 (port / 256)].

Definition BUFSIZE : nat := 512.

(** The strings [strs[i]] of [url_MD5_get_general], and whether one is the host. *)
Definition key_strs (u : URLImpl) : list (bool * option (list Z)) :=
  let s := strs u in
  [(false, m_scheme s); (false, Some (chars "://")); (false, m_user s); (false, Some (chars ":")); (false, m_password s); (false, Some (chars "@"));
   (true, m_host s); (false, Some (chars "/")); (false, m_path s)] ++
  (if bool_decide (m_url_type u = URL_TYPE_FTP) then [(false, Some (chars ";type=")); (false, Some [wraps 8 (m_type_code u)]); (false, None); (false, None)]
   else [(false, Some (chars ";")); (false, m_params s); (false, Some (chars "?")); (false, m_query s)]).

(** The [while] loop over one string: [hashed] are the bytes given to the hash
    and [buf] those in the buffer. *)
Fixpoint key_loop (fuel : nat) (host : bool) (s : list Z) (t : nat) (state : Z) (hashed buf : list Z) : option (list Z * list Z) :=
  if (t <? length s)%nat then
    match fuel with
    | O => None
    | S f =>
      '(out, t', state') ← (if host then unescape_str_tolower else unescape_str) s t (BUFSIZE - length buf)%nat state;
      let buf' := buf ++ out in
      if (length buf' =? BUFSIZE)%nat then key_loop f host s t' state' (hashed ++ buf') [] else key_loop f host s t' state' hashed buf'
    end
  else Some (hashed, buf).

Definition key_string (x : bool * option (list Z)) (st : list Z * list Z) : option (list Z * list Z) :=
  match x with
  | (_, None) => Some st
  | (host, Some s) => key_loop (4 * length s + 4) host s 0 0 (fst st) (snd st)
  end.

(** All bytes given to the hash. *)
Definition url_MD5_get_general (u : URLImpl) : option (list Z) :=
  '(hashed, buf) ← forM (key_strs u) key_string ([], []); Some (hashed ++ buf ++ port_bytes u).

Definition url_MMH_get_fast (u : URLImpl) : list Z :=
  let s := strs u in let str := fun p => default [] p in
  str (m_scheme s) ++ chars "://" ++ chars ":" ++ chars "@" ++ (ink_tolower <$> str (m_host s)) ++ chars "/" ++ str (m_path s) ++ chars ";" ++ chars "?" ++
  port_bytes u.

Definition has_char (c : Z) (p : option (list Z)) : bool := existsb (Z.eqb c) (default [] p).

Definition url_MD5_get (url_hash_method : Z) (u : URLImpl) : option (list Z) :=
  let s := strs u in let len := fun p => Z.of_nat (length (default [] p)) in
  if negb (url_hash_method =? 0) && bool_decide (m_url_type u = URL_TYPE_HTTP) &&
     (len (m_user s) + len (m_password s) + len (m_params s) + len (m_query s) =? 0) &&
     (3 + 1 + 1 + 1 + 1 + 1 + 2 + len (m_scheme s) + len (m_host s) + len (m_path s) <? Z.of_nat BUFSIZE) &&
     negb (has_char (ch "%") (m_host s)) && negb (has_char (ch "%") (m_path s))
  then Some (url_MMH_get_fast u) else url_MD5_get_general u.

(** [url_host_MD5_get]: here the port is an [int] of four bytes. *)
Definition url_host_MD5_get (u : URLImpl) : list Z :=
  let s := strs u in let port := url_canonicalize_port (m_url_type u) (m_port u) in
  default [] (m_scheme s) ++ chars "://" ++ default [] (m_host s) ++ chars ":" ++
  ((fun k => wraps 8 (port / 256 ^ k mod 256)) <$> [0; 1; 2; 3]).

(** ** Escaping for the log ([LogUtils::escapify_url]) *)

Definition codes_to_escape : list Z :=
  [255; 255; 255; 255; 180; 0; 0; 10; 0; 0; 0; 30; 128; 0; 0; 31; 0; 0; 0; 0; 0; 0; 0; 0; 0; 0; 0; 0; 0; 0; 0; 0].

Definition to_escape (c : Z) : bool := negb (Z.land (nth (Z.to_nat (u8 c / 8)) codes_to_escape 0) (Z.shiftl 1 (7 - u8 c mod 8)) =? 0).

Definition hex_digits : list Z := chars "0123456789ABCDEF".

Definition escape_char (c : Z) : list Z :=
  if to_escape c then [ch "%"; nth (Z.to_nat (u8 c / 16)) hex_digits 0; nth (Z.to_nat (u8 c mod 16)) hex_digits 0] else [c].

Definition escapify_url (url : list Z) : list Z * Z :=
  let count := Z.of_nat (length (filter (fun c => to_escape c = true) url)) in
  if count =? 0 then (url, Z.of_nat (length url)) else (concat (escape_char <$> url), Z.of_nat (length url) + 2 * count).
