(* ===== verification/URLFacts.v ===== *)
(** Theorems on URLs: printing, the cached printed form, the round trip of
    printing and parsing, and the bytes of a cache key. *)

From S2P Require Import Prelude ParseRules HdrToken MimePrint URL.
From Stdlib Require Import Ascii.

(** ** Printing *)

Lemma concat_piece b s a : concat (piece b s a) = match s with None => [] | Some v => concat b ++ v ++ concat a end.
Proof. destruct s; simpl; [|done]. rewrite concat_app. simpl. done. Qed.

(** The length of a concatenation of pieces. *)
Ltac text_length := simpl; repeat (rewrite ?length_app, ?app_nil_r; simpl); lia.

Section printing.
Context `{TokenDFA} (hash_table : list (option Z)).

(** The whole printed form. *)
Definition url_text (u : URLImpl) : list Z := concat (url_pieces hash_table u).

Lemma url_length_text u : url_length_get hash_table u = Z.of_nat (length (url_text u)).
Proof.
  unfold url_length_get, url_text, url_pieces. rewrite !concat_app, !length_app, !Nat2Z.inj_add, !Z.add_assoc.
  assert (forall a a' b b' c c' d d' e e' one : Z, a = a' -> b = b' -> c = c' -> d = one + d' -> e = e' ->
    a + b + c + d + e = a' + b' + c' + one + d' + e') as G by lia.
  apply G; clear G.
  - by destruct (m_scheme _), (is_file _ u); text_length.
  - by destruct (m_user _), (m_password _); text_length.
  - unfold has_port. by destruct (m_host _), (m_port_str _), (m_port u =? 0); text_length.
  - by destruct (m_path _); text_length.
  - case_bool_decide; [by destruct (m_type_code u =? 0)|].
    by destruct (m_params _), (m_query _), (m_fragment _); text_length.
Qed.

Lemma url_print_spec u len i k : (i <= len)%nat ->
  url_print hash_table u (Z.of_nat len) (mkPrint (Z.of_nat i) (Z.of_nat k) []) = print_spec len (url_text u) i k [].
Proof. intros Hi. unfold url_print, url_text. by apply try_print_spec. Qed.

Lemma print_new_text u : print_new hash_table u (url_length_get hash_table u) = url_text u.
Proof.
  unfold print_new. rewrite url_length_text, (url_print_spec u _ 0 0) by lia. unfold print_spec. simpl.
  by rewrite drop_0, Nat.sub_0_r, firstn_all.
Qed.
End printing.

(** ** The printed form is kept, and current *)

Section current.
Context `{TokenDFA} (hash_table : list (option Z)).

(** The operations that set a part of a URL. *)
Inductive url_setter : URLImpl -> URLImpl -> Prop :=
| set_scheme v i u : url_setter u (url_scheme_set hash_table v i u)
| set_user v u : url_setter u (url_user_set v u)
| set_password v u : url_setter u (url_password_set v u)
| set_host_ c v u u' : url_host_set c v u = Some u' -> url_setter u u'
| set_port_ v u : url_setter u (url_port_set v u)
| set_port_number n u : url_setter u (url_port_set_number n u)
| set_path v u : url_setter u (url_path_set v u)
| set_params v u : url_setter u (url_params_set v u)
| set_query v u : url_setter u (url_query_set v u)
| set_fragment v u : url_setter u (url_fragment_set v u)
| set_type c u : url_setter u (url_type_set c u).

(** What a client does with a URL: sets parts, parses into it, clears it, makes
    a server's form of another URL of it, or asks for its text. *)
Inductive url_step : URLImpl -> URLImpl -> Prop :=
| step_set u u' : url_setter u u' -> url_step u u'
| step_parse copy s start u r u' n : url_parse hash_table copy s start u = Some (r, u', n) -> url_step u u'
| step_clear u : url_step u (url_clear u)
| step_clear_ref u : url_step u (url_clear_string_ref u)
| step_server s u : url_step u (url_copy_onto_as_server_url s u)
| step_ref u : url_step u (url_string_get_ref hash_table u).2
| step_get b u : url_step u (url_string_get hash_table b u).2.

(** A string that is kept and not marked is the text of the URL. *)
Definition text_ok (u : URLImpl) : Prop :=
  clean u = true -> forall p, m_ptr_printed_string u = Some p -> p = url_text hash_table u /\ m_len_printed_string u = u16 (Z.of_nat (length p)).

Lemma marked_ok u : clean u = is_null (m_ptr_printed_string u) -> text_ok u.
Proof. intros E C p P. by rewrite C, P in E. Qed.

Lemma setter_ok u u' : url_setter u u' -> text_ok u'.
Proof.
  intros []; try (apply marked_ok; done). apply marked_ok. unfold url_host_set in H0.
  destruct v as [[|x v]|]; simplify_eq; try done. destruct (negb c); simplify_eq; try done.
  case_match; simplify_eq; try done. case_match; by simplify_eq.
Qed.

Lemma setters_ok u u' : rtc url_setter u u' -> text_ok u -> text_ok u'.
Proof. induction 1 as [|u1 u2 u3 S _ IH]; [done|]. intros _. eapply IH, setter_ok, S. Qed.

Lemma set_if_setters {A} (f : option A -> URLImpl -> URLImpl) v u : (forall v u, url_setter u (f v u)) -> rtc url_setter u (set_if f v u).
Proof. intros F. destruct v; [apply rtc_once, F|apply rtc_refl]. Qed.

Lemma internet_setters copy s start u r u' n : url_parse_internet copy s start u = Some (r, u', n) -> rtc url_setter u u'.
Proof.
  unfold url_parse_internet. case_match; [done|]. destruct (skip_slashes s start) as [c|]; [|intros [= <- <- <-]; apply rtc_refl].
  destruct (parse_user1 s c) as [c' p]. unfold internet_done. intros E.
  apply bind_Some in E as (u3 & E & [= <- <- <-]). apply bind_Some in E as (u2 & E & [= <-]).
  etrans; [apply (set_if_setters url_user_set), set_user|].
  etrans; [apply (set_if_setters url_password_set), set_password|].
  etrans; [|apply (set_if_setters url_port_set), set_port_].
  case_match; [|by injection E as ->]. eapply rtc_once, set_host_, E.
Qed.

Lemma parse_setters copy s start u r u' n : url_parse hash_table copy s start u = Some (r, u', n) -> rtc url_setter u u'.
Proof.
  assert (HTTP : forall s i u r u' n, url_parse_http copy s i u = Some (r, u', n) -> rtc url_setter u u').
  { clear. intros s i u r u' n E. unfold url_parse_http in E. apply bind_Some in E as ([[e u1] c] & I%internet_setters & E).
    etrans; [exact I|]. destruct (is_error e); [injection E as <- <- <-; apply rtc_refl|].
    assert (D : forall a b p, rtc url_setter u1 (http_done s a b p u1)).
    { intros a b p. unfold http_done. etrans; [apply (set_if_setters url_path_set), set_path|].
      etrans; [apply (set_if_setters url_params_set), set_params|]. etrans; [apply (set_if_setters url_query_set), set_query|].
      apply (set_if_setters url_fragment_set), set_fragment. }
    case_match; [by injection E as <- <- <-|]. destruct (parse_path2 _ _ _). by injection E as <- <- <-. }
  assert (FTP : forall s i u r u' n, url_parse_ftp copy s i u = Some (r, u', n) -> rtc url_setter u u').
  { clear. intros s i u r u' n E. unfold url_parse_ftp in E. apply bind_Some in E as ([[e u1] c] & I%internet_setters & E).
    etrans; [exact I|]. destruct (is_error e); [injection E as <- <- <-; apply rtc_refl|].
    assert (D : forall a b t k, rtc url_setter u1 (ftp_done s a b t k u1).1.2).
    { intros a b t k. unfold ftp_done. simpl. etrans; [apply (set_if_setters url_path_set), set_path|]. destruct (t =? 0);
        [apply rtc_refl|apply rtc_once, set_type]. }
    assert (G : forall a b t k, Some (ftp_done s a b t k u1) = Some (r, u', n) -> rtc url_setter u1 u').
    { intros a b t k F. specialize (D a b t k). assert (E' : ftp_done s a b t k u1 = (r, u', n)) by congruence. by rewrite E' in D. }
    destruct (c =? length s)%nat; [by eapply G|]. destruct (find_char _ _ _) as [semi|]; [|by eapply G].
    destruct (drop (S semi) s); [by eapply G|]. destruct (_ && _); [by eapply G|]. injection E as <- <- <-. apply rtc_refl. }
  unfold url_parse, url_parse_with. case_match; [done|]. case_match; [|intros [= <- <- <-]; apply rtc_refl].
  case_match; [|apply HTTP]. case_match; case_match; intros E; (eapply rtc_l; [apply set_scheme|]); [by eapply FTP|by eapply HTTP].
Qed.

Lemma set_printed_ok u : text_ok (set_printed u (Some (url_text hash_table u)) (u16 (Z.of_nat (length (url_text hash_table u)))) true).
Proof. intros _ p [= <-]. done. Qed.

(** [url_string_get_ref] answers with the text; its length, when it was kept,
    modulo [2^16]. *)
Lemma get_ref_text u : text_ok u -> exists l u', url_string_get_ref hash_table u = (url_text hash_table u, l, u') /\
  (l = Z.of_nat (length (url_text hash_table u)) \/ l = u16 (Z.of_nat (length (url_text hash_table u)))) /\ text_ok u' /\ strs u' = strs u.
Proof.
  intros T. unfold url_string_get_ref. rewrite print_new_text, url_length_text.
  assert (N : exists l u', (url_text hash_table u, Z.of_nat (length (url_text hash_table u)),
      set_printed u (Some (url_text hash_table u)) (u16 (Z.of_nat (length (url_text hash_table u)))) true) = (url_text hash_table u, l, u') /\
    (l = Z.of_nat (length (url_text hash_table u)) \/ l = u16 (Z.of_nat (length (url_text hash_table u)))) /\ text_ok u' /\ strs u' = strs u).
  { do 2 eexists. split_and!; [done|by left|apply set_printed_ok|done]. }
  destruct (m_ptr_printed_string u) as [p|] eqn:P; [|done]. destruct (clean u) eqn:C; [|done].
  destruct (T C p P) as [-> E]. do 2 eexists. split_and!; [done|by right|done|done].
Qed.

Lemma url_step_ok u u' : url_step u u' -> text_ok u -> text_ok u'.
Proof.
  intros S T. destruct S; [by eapply setter_ok|eapply setters_ok; [by eapply parse_setters|done]|done| | | |].
  - unfold url_clear_string_ref. by destruct (m_ptr_printed_string u).
  - unfold url_copy_onto_as_server_url, url_clear_string_ref. simpl.
    destruct (m_ptr_printed_string u) eqn:P; simpl; intros C q Q; simpl in Q; congruence.
  - destruct (get_ref_text u T) as (l & u' & -> & _ & ? & _). done.
  - unfold url_string_get. rewrite print_new_text, url_length_text. destruct b; [apply set_printed_ok|done].
Qed.

(** however a URL was made, by parsing, setting its parts or copying,
    [url_string_get_ref] answers with its current text: the string kept from an
    earlier call is used only while no part has changed; the length it reports
    is right for texts below 64 KB. *)
Theorem url_string_current u : rtc url_step url_create u -> exists l u',
  url_string_get_ref hash_table u = (url_text hash_table u, l, u') /\ strs u' = strs u /\
  (Z.of_nat (length (url_text hash_table u)) < 2 ^ 16 -> l = Z.of_nat (length (url_text hash_table u))).
Proof.
  intros R. assert (T : text_ok u).
  { assert (G : text_ok url_create) by done. revert G. induction R as [|u1 u2 u3 S _ IH]; [done|]. intros G. eapply IH, url_step_ok; done. }
  destruct (get_ref_text u T) as (l & u' & E & L & _ & U). exists l, u'. split_and!; [done|done|].
  intros B. destruct L as [->| ->]; [done|]. apply wrapu_id. lia.
Qed.
End current.

(** ** Parsing what was printed *)

Lemma sub_at (s w r : list Z) a b : drop a s = w ++ r -> b = (a + length w)%nat -> sub s a b = w.
Proof. intros E ->. unfold sub. rewrite E. replace (a + length w - a)%nat with (length w) by lia. apply take_app_length. Qed.

Lemma drop_past (s w r : list Z) a b : drop a s = w ++ r -> b = (a + length w)%nat -> drop b s = r.
Proof. intros E ->. rewrite <- drop_drop, E. apply drop_app_length. Qed.

(** None of the characters of [bad] is in [w]. *)
Definition free_of (bad : string) (w : list Z) : Prop := Forall (fun c => one_of c (chars bad) = false) w.

Lemma eqb_ne (c d : Z) : (c =? d) = false <-> c <> d.
Proof. apply Z.eqb_neq. Qed.

Lemma mem_sub_neq bad c d : one_of c (chars bad) = false -> d ∈ chars bad -> c <> d.
Proof.
  intros E I ->. unfold one_of in E. assert (existsb (Z.eqb d) (chars bad) = true) as X; [|congruence].
  apply existsb_exists. exists d. split; [by apply list_elem_of_In|apply Z.eqb_refl].
Qed.

(** A part that may be missing, behind its separator. *)
Definition opt (c : Z) (v : option (list Z)) : list Z := match v with None => [] | Some w => c :: w end.

Lemma fragment_spec s l cur p w : drop cur s = l ++ ch "#" :: w -> fragment_start p = None -> fragment_end p = None ->
  exists cur' p', parse_fragment1 w (cur + length l) p = (cur', p') /\
    path_end p' = path_end p /\ params_start p' = params_start p /\ params_end p' = params_end p /\ query_start p' = query_start p /\
    query_end p' = query_end p /\ between s (fragment_start p') (fragment_end p') cur' = Some w.
Proof.
  intros E F1 F2. unfold parse_fragment1. do 2 eexists. split_and!; [done..|]. simpl. f_equal.
  apply (sub_at _ w []).
  - rewrite app_nil_r. apply (drop_past s (l ++ [ch "#"]) _ cur); [by rewrite <- app_assoc|rewrite length_app; simpl; lia].
  - rewrite F2. destruct w; simpl; lia.
Qed.

Lemma query_spec s cur p w f : drop cur s = w ++ opt (ch "#") f -> free_of "#" w -> query_end p = None -> fragment_start p = None -> fragment_end p = None ->
  exists cur' p', parse_query2 (w ++ opt (ch "#") f) cur p = (cur', p') /\
    path_end p' = path_end p /\ params_start p' = params_start p /\ params_end p' = params_end p /\ query_start p' = query_start p /\
    default cur' (query_end p') = (cur + length w)%nat /\ between s (fragment_start p') (fragment_end p') cur' = f.
Proof.
  revert cur. induction w as [|c w IH]; intros cur E W Q F1 F2; simpl.
  - destruct f as [f|]; simpl.
    + destruct (fragment_spec s [] cur (mkHP (path_end p) (params_start p) (params_end p) (query_start p) (Some cur) (fragment_start p) (fragment_end p)) f)
        as (cur' & p' & R & A1 & A2 & A3 & A4 & A5 & A6); [done..|]. simpl in R. rewrite Nat.add_0_r in R. rewrite R.
      exists cur', p'. split_and!; try done. rewrite A5. simpl. lia.
    + exists cur, p. split_and!; try done; [rewrite Q; simpl; lia|]. by rewrite F1.
  - apply Forall_cons in W as [N W]. rewrite (proj2 (eqb_ne c (ch "#"))) by (eapply mem_sub_neq; [exact N|simpl; set_solver]).
    destruct (IH (S cur)) as (cur' & p' & R & A); [|done..|].
    + apply (drop_past s [c] _ cur); [done|simpl; lia].
    + exists cur', p'. rewrite R. destruct A as (A1 & A2 & A3 & A4 & A5 & A6). split_and!; try done. rewrite A5. lia.
Qed.

Lemma query1_spec s cur p w f : drop cur s = ch "?" :: w ++ opt (ch "#") f -> free_of "#" w ->
  query_end p = None -> fragment_start p = None -> fragment_end p = None ->
  exists cur' p', parse_query1 (w ++ opt (ch "#") f) cur p = (cur', p') /\
    path_end p' = path_end p /\ params_start p' = params_start p /\ params_end p' = params_end p /\
    between s (query_start p') (query_end p') cur' = Some w /\ between s (fragment_start p') (fragment_end p') cur' = f.
Proof.
  intros E W Q F1 F2. assert (D : drop (S cur) s = w ++ opt (ch "#") f) by (apply (drop_past s [ch "?"] _ cur); [done|simpl; lia]).
  destruct (query_spec s (S cur) (mkHP (path_end p) (params_start p) (params_end p) (Some (S cur)) (query_end p) (fragment_start p) (fragment_end p)) w f)
    as (cur' & p' & R & A1 & A2 & A3 & A4 & A5 & A6); [done..|].
  exists cur', p'. split_and!; try done. rewrite A4. simpl. f_equal. by eapply sub_at.
Qed.

(** The rest of a path or of parameters. *)
Ltac from_question Q := destruct Q as (cur' & p' & R & A1 & A2 & A3 & A4 & A5); [done..|]; exists cur', p'; simpl in R, A1, A2, A3 |- *.
Ltac from_fragment Q := destruct Q as (cur' & p' & R & A1 & A2 & A3 & A4 & A5 & A6); [done..|]; exists cur', p'; simpl in R, A1, A2, A3, A4, A5 |- *.

Lemma params_spec s cur p w q f : drop cur s = w ++ opt (ch "?") q ++ opt (ch "#") f -> free_of "?#" w -> (forall v, q = Some v -> free_of "#" v) ->
  params_end p = None -> query_start p = None -> query_end p = None -> fragment_start p = None -> fragment_end p = None ->
  exists cur' p', parse_params2 (w ++ opt (ch "?") q ++ opt (ch "#") f) cur p = (cur', p') /\
    path_end p' = path_end p /\ params_start p' = params_start p /\ default cur' (params_end p') = (cur + length w)%nat /\
    between s (query_start p') (query_end p') cur' = q /\ between s (fragment_start p') (fragment_end p') cur' = f.
Proof.
  intros E W FQ P Q1 Q2 F1 F2. revert cur E. induction w as [|c w IH]; intros cur E.
  - set (p1 := mkHP (path_end p) (params_start p) (Some cur) (query_start p) (query_end p) (fragment_start p) (fragment_end p)).
    destruct q as [q|]; [|destruct f as [f|]]; simpl.
    + from_question (query1_spec s cur p1 q f E (FQ q eq_refl)). split_and!; try done. rewrite A3. simpl. lia.
    + from_fragment (fragment_spec s [] cur p1 f E). rewrite Nat.add_0_r in R. split_and!; try done; [rewrite A3; simpl; lia|].
      by rewrite A4, Q1.
    + exists cur, p. rewrite P, Q1, F1. by split_and!; try done; simpl; lia.
  - apply Forall_cons in W as [N W]. simpl. rewrite (proj2 (eqb_ne c (ch "?"))), (proj2 (eqb_ne c (ch "#"))) by (eapply mem_sub_neq; [exact N|simpl; set_solver]).
    destruct (IH W (S cur)) as (cur' & p' & R & A1 & A2 & A3 & A4); [apply (drop_past s [c] _ cur); [done|simpl; lia]|].
    exists cur', p'. rewrite R. destruct A4. split_and!; try done. rewrite A3. lia.
Qed.

Lemma params1_spec s cur p w q f : drop cur s = ch ";" :: w ++ opt (ch "?") q ++ opt (ch "#") f -> free_of "?#" w -> (forall v, q = Some v -> free_of "#" v) ->
  params_end p = None -> query_start p = None -> query_end p = None -> fragment_start p = None -> fragment_end p = None ->
  exists cur' p', parse_params1 (w ++ opt (ch "?") q ++ opt (ch "#") f) cur p = (cur', p') /\
    path_end p' = path_end p /\ between s (params_start p') (params_end p') cur' = Some w /\
    between s (query_start p') (query_end p') cur' = q /\ between s (fragment_start p') (fragment_end p') cur' = f.
Proof.
  intros E W FQ P Q1 Q2 F1 F2.
  assert (D : drop (S cur) s = w ++ opt (ch "?") q ++ opt (ch "#") f) by (apply (drop_past s [ch ";"] _ cur); [done|simpl; lia]).
  destruct (params_spec s (S cur) (mkHP (path_end p) (Some (S cur)) (params_end p) (query_start p) (query_end p) (fragment_start p) (fragment_end p)) w q f)
    as (cur' & p' & R & A1 & A2 & A3 & A4); [done..|].
  exists cur', p'. destruct A4. split_and!; try done. rewrite A2. simpl. f_equal. by eapply sub_at.
Qed.

Lemma path_spec s cur w a q f : drop cur s = w ++ opt (ch ";") a ++ opt (ch "?") q ++ opt (ch "#") f -> free_of ";?#" w ->
  (forall v, a = Some v -> free_of "?#" v) -> (forall v, q = Some v -> free_of "#" v) ->
  exists cur' p', parse_path2 (w ++ opt (ch ";") a ++ opt (ch "?") q ++ opt (ch "#") f) cur no_hptrs = (cur', p') /\
    sub s cur (default cur' (path_end p')) = w /\ between s (params_start p') (params_end p') cur' = a /\
    between s (query_start p') (query_end p') cur' = q /\ between s (fragment_start p') (fragment_end p') cur' = f.
Proof.
  intros E W FA FQ. assert (G : exists cur' p', parse_path2 (w ++ opt (ch ";") a ++ opt (ch "?") q ++ opt (ch "#") f) cur no_hptrs = (cur', p') /\
    default cur' (path_end p') = (cur + length w)%nat /\ between s (params_start p') (params_end p') cur' = a /\
    between s (query_start p') (query_end p') cur' = q /\ between s (fragment_start p') (fragment_end p') cur' = f).
  { revert cur E. induction w as [|c w IH]; intros cur E.
    - set (p1 := mkHP (Some cur) None None None None None None).
      destruct a as [a|]; [|destruct q as [q|]; [|destruct f as [f|]]]; simpl.
      + destruct (params1_spec s cur p1 a q f E (FA a eq_refl) FQ) as (cur' & p' & R & A1 & A2); [done..|].
        exists cur', p'. destruct A2 as (? & ? & ?). split_and!; try done. rewrite A1. simpl. lia.
      + from_question (query1_spec s cur p1 q f E (FQ q eq_refl)). split_and!; try done; [rewrite A1; simpl; lia|]. by rewrite A2.
      + from_fragment (fragment_spec s [] cur p1 f E). rewrite Nat.add_0_r in R. split_and!; try done; [rewrite A1; simpl; lia|by rewrite A2|by rewrite A4].
      + exists cur, no_hptrs. by split_and!; try done; simpl; lia.
    - apply Forall_cons in W as [N W]. simpl.
      rewrite (proj2 (eqb_ne c (ch ";"))), (proj2 (eqb_ne c (ch "?"))), (proj2 (eqb_ne c (ch "#"))) by (eapply mem_sub_neq; [exact N|simpl; set_solver]).
      destruct (IH W (S cur)) as (cur' & p' & R & A1 & A2); [apply (drop_past s [c] _ cur); [done|simpl; lia]|].
      exists cur', p'. rewrite R. destruct A2 as (? & ? & ?). split_and!; try done; [by destruct (_ =? path_mask)|rewrite A1; lia]. }
  destruct G as (cur' & p' & R & A1 & A2). exists cur', p'. destruct A2 as (? & ? & ?). split_and!; try done. rewrite A1. by eapply sub_at.
Qed.

(** *** The authority *)

Lemma port_scan w l cur p : free_of "/" w -> parse_port2 (w ++ l) cur p = parse_port2 l (cur + length w) p.
Proof.
  revert cur. induction w as [|c w IH]; intros cur W; simpl; [by rewrite Nat.add_0_r|]. apply Forall_cons in W as [N W].
  rewrite (proj2 (eqb_ne c (ch "/"))) by (eapply mem_sub_neq; [exact N|simpl; set_solver]). rewrite IH by done. f_equal. lia.
Qed.

Lemma host_scan w l cur p : free_of ":@/" w -> parse_host2 (w ++ l) cur p = parse_host2 l (cur + length w) p.
Proof.
  revert cur. induction w as [|c w IH]; intros cur W; simpl; [by rewrite Nat.add_0_r|]. apply Forall_cons in W as [N W].
  rewrite (proj2 (eqb_ne c (ch ":"))), (proj2 (eqb_ne c (ch "/"))) by (eapply mem_sub_neq; [exact N|simpl; set_solver]). rewrite IH by done. f_equal. lia.
Qed.

Lemma pass_scan w l cur p : free_of "@/" w -> parse_pass2 (w ++ l) cur p = parse_pass2 l (cur + length w) p.
Proof.
  revert cur. induction w as [|c w IH]; intros cur W; simpl; [by rewrite Nat.add_0_r|]. apply Forall_cons in W as [N W].
  rewrite (proj2 (eqb_ne c (ch "@"))), (proj2 (eqb_ne c (ch "/"))) by (eapply mem_sub_neq; [exact N|simpl; set_solver]).
  rewrite IH by done. replace (S cur + length w)%nat with (cur + S (length w))%nat by lia. by destruct (_ =? pass_mask).
Qed.

Lemma user_scan w l cur p : free_of ":@/" w -> parse_user2 (w ++ l) cur p = parse_user2 l (cur + length w) p.
Proof.
  revert cur. induction w as [|c w IH]; intros cur W; simpl; [by rewrite Nat.add_0_r|]. apply Forall_cons in W as [N W].
  rewrite (proj2 (eqb_ne c (ch ":"))), (proj2 (eqb_ne c (ch "@"))), (proj2 (eqb_ne c (ch "/"))) by (eapply mem_sub_neq; [exact N|simpl; set_solver]).
  rewrite IH by done. replace (S cur + length w)%nat with (cur + S (length w))%nat by lia. by destruct (_ =? user_mask).
Qed.

(** Where there is a character left, the first label only notes the place. *)
Lemma host1_host2 l cur a b c d e f g h : l <> [] -> parse_host1 l cur (mkIP a b c d e f g h) = parse_host2 l cur (mkIP a b c d (Some cur) f g h).
Proof. by destruct l. Qed.

Lemma port1_port2 l cur a b c d e f g h : l <> [] -> parse_port1 l cur (mkIP a b c d e f g h) = parse_port2 l cur (mkIP a b c d e f (Some cur) h).
Proof. by destruct l. Qed.

Lemma pass1_pass2 l cur a b c d e f g h : l <> [] -> parse_pass1 l cur (mkIP a b c d e f g h) = parse_pass2 l cur (mkIP a b (Some cur) d e f g h).
Proof. by destruct l. Qed.

Lemma app_cons_ne {A} (l r : list A) x : l ++ x :: r <> [].
Proof. by destruct l. Qed.
#[local] Hint Resolve app_cons_ne : core.

(** The rest of the authority from the host on, with what was found before. *)
Definition host_text (host : list Z) (port : option (list Z)) : list Z := host ++ opt (ch ":") port.

Lemma host1_spec s cur a b c d host port tail : drop cur s = host_text host port ++ ch "/" :: tail -> host <> [] -> free_of ":@/" host ->
  (forall v, port = Some v -> free_of "@/" v) ->
  exists p, parse_host1 (host_text host port ++ ch "/" :: tail) cur (mkIP a b c d None None None None) = (cur + length (host_text host port) + 1, p)%nat /\
    user_start p = a /\ user_end p = b /\ pass_start p = c /\ pass_end p = d /\ host_start p = Some cur /\
    (forall k, between s (host_start p) (host_end p) k = Some host) /\ (forall k, between s (port_start p) (port_end p) k = port).
Proof.
  unfold host_text. intros E N H P. rewrite <- app_assoc in E |- *.
  assert (SH : sub s cur (cur + length host) = host) by (by eapply sub_at).
  rewrite host1_host2 by (by destruct host). rewrite host_scan by done. destruct port as [port|]; simpl.
  - assert (D : drop (S (cur + length host)) s = port ++ ch "/" :: tail) by (apply (drop_past s (host ++ [ch ":"]) _ cur); [by rewrite <- app_assoc|rewrite length_app; simpl; lia]).
    rewrite port1_port2 by auto. rewrite port_scan by (eapply Forall_impl; [by apply P|]; intros z Z; simpl in Z; unfold one_of in *; simpl in *; apply orb_false_iff in Z; apply Z).
    simpl. eexists. split; [f_equal; rewrite length_app; simpl; lia|]. simpl. split_and!; try done; intros k; f_equal; [done|by eapply sub_at].
  - eexists. split; [f_equal; rewrite app_nil_r; lia|]. simpl. split_and!; try done. intros k. by f_equal.
Qed.

Definition user_text (user pass : option (list Z)) : list Z :=
  match user with None => [] | Some v => v ++ opt (ch ":") pass ++ [ch "@"] end.

Definition auth_text (user pass : option (list Z)) (host : list Z) (port : option (list Z)) : list Z := user_text user pass ++ host_text host port.

Lemma free_weaken bad bad' w : free_of bad w -> (forall c, c ∈ chars bad' -> c ∈ chars bad) -> free_of bad' w.
Proof.
  intros F S. eapply Forall_impl; [exact F|]. intros c N. unfold one_of. apply not_true_is_false. intros (d & I & ->%Z.eqb_eq)%existsb_exists.
  by eapply (mem_sub_neq _ _ d N); [apply S, list_elem_of_In|].
Qed.

(** [url_parse_internet] on an authority finds its parts and stops behind the
    slash. *)
Lemma auth_spec s st copy user pass host port tail u : drop st s = auth_text user pass host port ++ ch "/" :: tail ->
  host <> [] -> free_of ":@/" host -> (forall v, user = Some v -> free_of ":@/" v) -> (forall v, pass = Some v -> free_of "@/" v) ->
  (forall v, port = Some v -> free_of "@/" v) -> (user = None -> pass = None) ->
  exists p, parse_user1 s st = (st + length (auth_text user pass host port) + 1, p)%nat /\ forall cur,
    internet_done copy s cur p u =
      u3 ← url_host_set copy (Some host) (set_if url_password_set pass (set_if url_user_set user u)); Some (set_if url_port_set port u3).
Proof.
  intros E N H U W P UP. unfold parse_user1. rewrite E. unfold auth_text in *. destruct user as [user|]; simpl in *.
  - rewrite <- !app_assoc in E |- *. rewrite user_scan by auto. destruct pass as [pass|]; simpl.
    + assert (D1 : drop (S (st + length user)) s = pass ++ ch "@" :: host_text host port ++ ch "/" :: tail)
        by (apply (drop_past s (user ++ [ch ":"]) _ st); [by rewrite E, <- !app_assoc|rewrite length_app; simpl; lia]).
      assert (D2 : drop (S (S (st + length user + length pass))) s = host_text host port ++ ch "/" :: tail)
        by (apply (drop_past s (pass ++ [ch "@"]) _ (S (st + length user))); [by rewrite D1, <- !app_assoc|rewrite length_app; simpl; lia]).
      rewrite <- app_assoc. rewrite pass1_pass2 by (simpl; auto). rewrite pass_scan by auto. simpl.
      destruct (host1_spec s _ (Some st) (Some (st + length user)%nat) (Some (S (st + length user))) (Some (S (st + length user + length pass))) host port tail D2)
        as (p & R & A1 & A2 & A3 & A4 & A5 & A6 & A7); [done..|].
      rewrite R. exists p. split; [f_equal; text_length|]. intros cur. unfold internet_done.
      rewrite A5. cbv zeta iota. rewrite A1, A2, A3, A4, A6, A7. simpl. rewrite (sub_at s user _ st _ E), (sub_at s pass _ _ _ D1) by done. done.
    + assert (D2 : drop (S (st + length user)) s = host_text host port ++ ch "/" :: tail)
        by (apply (drop_past s (user ++ [ch "@"]) _ st); [by rewrite E, <- !app_assoc|rewrite length_app; simpl; lia]).
      destruct (host1_spec s _ (Some st) (Some (st + length user)%nat) None None host port tail D2) as (p & R & A1 & A2 & A3 & A4 & A5 & A6 & A7); [done..|].
      rewrite R. exists p. split; [f_equal; text_length|]. intros cur. unfold internet_done.
      rewrite A5. cbv zeta iota. rewrite A1, A2, A3, A4, A6, A7. simpl. by rewrite (sub_at s user _ st _ E) by done.
  - rewrite (UP eq_refl). unfold host_text in *. rewrite <- !app_assoc in E |- *. rewrite user_scan by done. destruct port as [port|]; simpl.
    + assert (D1 : drop (S (st + length host)) s = port ++ ch "/" :: tail)
        by (apply (drop_past s (host ++ [ch ":"]) _ st); [by rewrite E, <- !app_assoc|rewrite length_app; simpl; lia]).
      rewrite pass1_pass2 by auto. rewrite pass_scan by auto. simpl. eexists. split; [f_equal; rewrite length_app; simpl; lia|].
      intros cur. unfold internet_done. simpl. by rewrite (sub_at s host _ st _ E), (sub_at s port _ _ _ D1) by done.
    + eexists. split; [f_equal; rewrite app_nil_r; lia|]. intros cur. unfold internet_done. simpl. by rewrite (sub_at s host _ st _ E) by done.
Qed.

(** *** The scheme *)

Lemma xor_match_take s pat : (length pat <= length s)%nat -> xor_match s pat = bool_decide (take (length pat) s = pat).
Proof.
  unfold xor_match. revert s. induction pat as [|c pat IH]; intros s L; [by destruct s|]. destruct s as [|x s]; [simpl in L; lia|]. simpl in L |- *.
  specialize (IH s ltac:(lia)). destruct (decide (x = c)) as [->|N].
  - rewrite Z.lxor_nilpotent, Z.lor_0_l, IH. apply bool_decide_ext. split; congruence.
  - rewrite bool_decide_false by congruence. apply Z.eqb_neq. intros [E _]%Z.lor_eq_0_iff. by apply Z.lxor_eq in E.
Qed.

Lemma find_char_app c w l cur : Forall (fun x => x <> c) w -> find_char c (w ++ c :: l) cur = Some (cur + length w)%nat.
Proof.
  revert cur. induction w as [|x w IH]; intros cur W; simpl; [rewrite Z.eqb_refl; f_equal; lia|]. apply Forall_cons in W as [N W].
  rewrite (proj2 (eqb_ne x c)) by done. rewrite IH by done. f_equal. lia.
Qed.

Lemma find_char_none c w cur : Forall (fun x => x <> c) w -> find_char c w cur = None.
Proof.
  revert cur. induction w as [|x w IH]; intros cur W; simpl; [done|]. apply Forall_cons in W as [N W]. rewrite (proj2 (eqb_ne x c)) by done. auto.
Qed.

Lemma name_index_name s names i j : name_index s names i = Some j -> exists n, nth_error names (Z.to_nat (j - i)) = Some n /\ same_name s n = true.
Proof.
  revert i. induction names as [|n names IH]; intros i; simpl; [done|]. destruct (same_name s n) eqn:SN.
  - intros [= ->]. exists n. by replace (j - j) with 0 by lia.
  - intros E. pose proof (name_index_range _ _ _ _ E). destruct (IH _ E) as (m & M & Q). exists m. split; [|done].
    replace (Z.to_nat (j - i)) with (S (Z.to_nat (j - (i + 1)))) by lia. done.
Qed.

(** The number of a well-known scheme. *)
Definition is_scheme (i : Z) : Prop := 0 <= i /\ nth (Z.to_nat i) token_types HDRTOKEN_TYPE_OTHER = HDRTOKEN_TYPE_SCHEME.

Lemma scheme_names : forallb (fun '(t, n) => if bool_decide (t = HDRTOKEN_TYPE_SCHEME) then forallb is_loalpha n && (0 <? length n)%nat && (length n <? 100)%nat else true)
  (zip token_types _hdrtoken_strs) = true.
Proof. by vm_compute. Qed.

Lemma zip_nth {A B} (l : list A) (k : list B) i d x y : nth i l d = x -> x <> d -> nth_error k i = Some y -> In (x, y) (zip l k).
Proof.
  revert k i. induction l as [|a l IH]; intros k i; destruct i; destruct k; simpl; intros E N K; simplify_eq; auto. right. by eapply IH.
Qed.

(** A spelling of a scheme has letters only. *)
Lemma scheme_letters v : is_scheme (find_token v) -> v <> [] /\ (length v < 100)%nat /\ Forall (fun c => is_alpha c = true) v.
Proof.
  intros [P T]. unfold find_token in *. destruct (name_index v _hdrtoken_strs 0) as [i|] eqn:E; [|simpl in P; lia]. cbn [default] in P, T.
  apply name_index_name in E as (n & N & S). rewrite Z.sub_0_r in N. apply bool_decide_eq_true in S.
  pose proof scheme_names as F. rewrite forallb_forall in F. specialize (F _ (zip_nth _ _ _ _ _ _ T ltac:(done) N)). simpl in F.
  apply andb_true_iff in F as [[A B%Nat.ltb_lt]%andb_true_iff C%Nat.ltb_lt]. rewrite forallb_forall in A.
  assert (L : length v = length n) by (rewrite <- (length_fmap ink_tolower v), S; apply length_fmap).
  split_and!; [intros ->; simpl in L; lia|lia|].
  assert (X : Forall (fun c => is_loalpha c = true) (ink_tolower <$> v)).
  { rewrite S. apply Forall_forall. intros c (d & -> & D)%list_elem_of_fmap. specialize (A d (proj1 (list_elem_of_In _ _) D)).
    replace (ink_tolower d) with d; [done|]. unfold is_loalpha, in_range in A. apply andb_true_iff in A as [A1%Z.leb_le A2%Z.leb_le].
    unfold ink_tolower, in_range. by rewrite (proj2 (Z.leb_gt d 90)), andb_false_r by lia. }
  apply Forall_fmap in X. eapply Forall_impl; [exact X|]. intros c. unfold compose, is_alpha, is_upalpha, is_loalpha, ink_tolower. intros Y.
  destruct (in_range 65 90 c); [done|]. by rewrite Y.
Qed.

#[local] Opaque find_token.

Section roundtrip.
Context `{TokenDFA}.
Notation table := common_table.

Lemma scheme_wks_find name : scheme_wks table name = find_token (chars name).
Proof. unfold scheme_wks. apply tokenize_hash_agrees. Qed.

Lemma parse_scheme_spec v r : is_scheme (find_token v) -> parse_scheme table (v ++ ch ":" :: r) 0 = Some (length v, find_token v).
Proof.
  intros S. destruct (scheme_letters v S) as (N & _ & A). unfold parse_scheme. rewrite drop_0, Nat.sub_0_r.
  assert (C : Forall (fun x => x <> ch ":") v) by (eapply Forall_impl; [exact A|]; intros c Hc ->; done).
  destruct (_ && _) eqn:F.
  - apply andb_true_iff in F as [L%Nat.leb_le X]. rewrite xor_match_take in X by done. apply bool_decide_eq_true in X. rewrite scheme_wks_find.
    assert (v = chars "http") as ->; [|done]. clear S N A.
    change (chars "http:") with [104; 116; 116; 112; 58] in *. change (ch ":") with 58 in *. change (chars "http") with [104; 116; 116; 112].
    do 4 (destruct v as [|? v]; [by destruct r|apply Forall_cons in C as [? C]]).
    destruct v as [|x v]; simpl in X; simplify_eq; [done|]. by apply Forall_cons in C as [? C].
  - rewrite find_char_app by done. cbv beta iota. unfold sub. rewrite drop_0, Nat.sub_0_r, Nat.add_0_l, take_app_length.
    destruct (tokenize_hash_agrees v) as (_ & -> & _). unfold hdrtoken_index_to_token_type. rewrite token_types_table.
    destruct S as [P T]. rewrite (proj2 (Z.ltb_ge _ 0)) by done. rewrite bool_decide_false; [done|]. intros G. by apply G.
Qed.

(** *** Well-formed URLs *)

Definition short (v : list Z) : Prop := Z.of_nat (length v) < 2 ^ 16.
Definition part_ok (bad : string) (v : option (list Z)) : Prop := forall w, v = Some w -> w <> [] /\ short w /\ free_of bad w.
Definition tail_ok (bad : string) (v : option (list Z)) : Prop := forall w, v = Some w -> short w /\ free_of bad w.

(** A URL with a well-known scheme and a host, none of whose parts has a
    character that ends it, and whose fields agree: the type with the scheme,
    the port with its digits. *)
Record url_wf (u : URLImpl) : Prop := {
  wf_scheme : exists v, m_scheme (strs u) = Some v /\ m_scheme_wks_idx u = find_token v /\ is_scheme (find_token v) /\ find_token v <> find_token (chars "file");
  wf_type : m_url_type u = scheme_type table (m_scheme_wks_idx u);
  wf_user : part_ok ":@/" (m_user (strs u));
  wf_password : part_ok "@/" (m_password (strs u)) /\ (m_user (strs u) = None -> m_password (strs u) = None);
  wf_host : exists v, m_host (strs u) = Some v /\ v <> [] /\ short v /\ free_of ":@/" v;
  wf_port : match m_port_str (strs u) with
            | None => m_port u = 0
            | Some v => v <> [] /\ short v /\ Forall (fun c => is_digit c = true) v /\ m_port u = port_value 0 v /\ m_port u <> 0
            end;
  wf_path : part_ok ";?#" (m_path (strs u));
  wf_rest : if bool_decide (m_url_type u = URL_TYPE_FTP)
            then 0 <= m_type_code u < 256 /\ m_params (strs u) = None /\ m_query (strs u) = None /\ m_fragment (strs u) = None
            else m_type_code u = 0 /\ tail_ok "?#" (m_params (strs u)) /\ tail_ok "#" (m_query (strs u)) /\ tail_ok "" (m_fragment (strs u))
}.

(** The text behind the slash. *)
Definition rest_text (u : URLImpl) : list Z :=
  default [] (m_path (strs u)) ++
  (if bool_decide (m_url_type u = URL_TYPE_FTP) then if m_type_code u =? 0 then [] else chars ";type=" ++ [wraps 8 (m_type_code u)]
   else opt (ch ";") (m_params (strs u)) ++ opt (ch "?") (m_query (strs u)) ++ opt (ch "#") (m_fragment (strs u))).

Lemma url_text_parts u v host : url_wf u -> m_scheme (strs u) = Some v -> m_host (strs u) = Some host ->
  url_text table u = v ++ chars "://" ++ auth_text (m_user (strs u)) (m_password (strs u)) host (m_port_str (strs u)) ++ ch "/" :: rest_text u.
Proof.
  intros W E Eh. unfold url_text, url_pieces. rewrite E, Eh. destruct (wf_scheme u W) as (v' & E' & I & S & NF). rewrite E in E'. injection E' as <-.
  assert (is_file table u = false) as ->.
  { unfold is_file. rewrite scheme_wks_find, I, (proj2 (Z.eqb_neq _ _)) by done. apply andb_false_r. }
  unfold has_port. pose proof (wf_port u W) as P. rewrite !concat_app, !concat_piece. cbn [concat]. rewrite !app_nil_r, !app_nil_l, <- !app_assoc.
  do 2 f_equal. unfold auth_text, user_text, host_text, rest_text. rewrite <- !app_assoc. f_equal.
  { destruct (m_user (strs u)); [|done]. rewrite concat_app, concat_piece. destruct (m_password (strs u)); simpl; by rewrite ?app_nil_r, <- ?app_assoc. }
  f_equal. f_equal.
  { destruct (m_port_str (strs u)) as [p|]; [|done]. destruct P as (_ & _ & _ & _ & N). rewrite (proj2 (Z.eqb_neq _ _) N). simpl. by rewrite !app_nil_r. }
  change (chars "/") with [ch "/"]. cbn [app]. f_equal. f_equal; [destruct (m_path (strs u)); by rewrite ?app_nil_r|]. case_bool_decide.
  - by destruct (m_type_code u =? 0).
  - rewrite !concat_app, !concat_piece. destruct (m_params (strs u)), (m_query (strs u)), (m_fragment (strs u)); simpl; by rewrite ?app_nil_r, <- ?app_assoc.
Qed.

Lemma str_set_short w : short w -> mime_str_u16_set (Some w) = Some w.
Proof. intros S. unfold mime_str_u16_set. rewrite wrapu_id by (unfold short in S; lia). by rewrite Nat2Z.id, firstn_all. Qed.

Lemma str_set_ne w : w <> [] -> short w -> mime_str_u16_set (drop_empty (Some w)) = Some w.
Proof. intros N S. rewrite <- (str_set_short w S) at 2. by destruct w. Qed.

Lemma str_set_part bad v : part_ok bad v -> mime_str_u16_set (drop_empty v) = v.
Proof. intros P. destruct v as [w|]; [|done]. destruct (P w eq_refl) as (N & S & _). by apply str_set_ne. Qed.

Lemma str_set_tail bad v : tail_ok bad v -> mime_str_u16_set v = v.
Proof. intros P. destruct v as [w|]; [|done]. destruct (P w eq_refl) as [S _]. by apply str_set_short. Qed.

Lemma digits_free v : Forall (fun c => is_digit c = true) v -> free_of "@/" v.
Proof.
  intros D. eapply Forall_impl; [exact D|]. intros c E. apply andb_true_iff in E as [E1%Z.leb_le E2%Z.leb_le]. unfold one_of.
  apply not_true_is_false. intros (d & I & ->%Z.eqb_eq)%existsb_exists. change (chars "@/") with [64; 47] in I. simpl in I. lia.
Qed.

Lemma skip_slashes_spec s cur l : drop cur s = chars "://" ++ l -> l <> [] -> skip_slashes s cur = Some (cur + 3)%nat.
Proof.
  intros E N. assert (L : length (drop cur s) = (3 + length l)%nat) by (by rewrite E). rewrite length_drop in L.
  assert (0 < length l)%nat by (destruct l; [done|simpl; lia]).
  unfold skip_slashes. rewrite (proj2 (Nat.ltb_lt 3 (length s - cur))) by lia. rewrite xor_match_take by (rewrite length_drop; simpl; lia).
  rewrite E. by rewrite bool_decide_true.
Qed.

(** The URL as the parser leaves it; [cap] is the memory of the host. *)
Definition parsed (u : URLImpl) (s : URLStrings) (cap code : Z) : URLImpl :=
  mkURL s cap (m_scheme_wks_idx u) (m_port u) (m_url_type u) code None 0 true.

Lemma setters_roundtrip u v host copy : url_wf u -> m_scheme (strs u) = Some v -> m_host (strs u) = Some host -> exists cap,
  (u3 ← url_host_set copy (Some host) (set_if url_password_set (m_password (strs u)) (set_if url_user_set (m_user (strs u))
          (url_scheme_set table (Some v) (find_token v) url_create)));
   Some (set_if url_port_set (m_port_str (strs u)) u3)) =
  Some (parsed u (mkStrs (Some v) (m_user (strs u)) (m_password (strs u)) (Some host) (m_port_str (strs u)) None None None None) cap 0).
Proof.
  intros W Ev Eh. destruct (wf_scheme u W) as (v' & E' & I & S & _). rewrite Ev in E'. injection E' as <-.
  destruct (wf_host u W) as (h' & E' & Nh & Sh & _). rewrite Eh in E'. injection E' as <-.
  destruct (scheme_letters v S) as (Nv & Lv & _). unfold parsed. rewrite (wf_type u W), I.
  set (ty := scheme_type table (find_token v)). set (st := fun a b c d => mkStrs (Some v) a b c d None None None None).
  assert (url_scheme_set table (Some v) (find_token v) url_create = mkURL (st None None None None) 0 (find_token v) 0 ty 0 None 0 true) as ->.
  { unfold url_scheme_set, st. cbn [url_called_set set_printed url_create strs m_user m_password m_host m_port_str m_path m_params m_query m_fragment]. rewrite (proj2 (Z.geb_le _ _)) by apply S. do 2 f_equal.
    apply str_set_ne; [done|]. unfold short. lia. }
  assert (set_if url_user_set (m_user (strs u)) (mkURL (st None None None None) 0 (find_token v) 0 ty 0 None 0 true) =
    mkURL (st (m_user (strs u)) None None None) 0 (find_token v) 0 ty 0 None 0 true) as ->.
  { pose proof (str_set_part _ _ (wf_user u W)) as X. destruct (m_user (strs u)); [|done]. unfold url_user_set, set_if. by rewrite X. }
  assert (set_if url_password_set (m_password (strs u)) (mkURL (st (m_user (strs u)) None None None) 0 (find_token v) 0 ty 0 None 0 true) =
    mkURL (st (m_user (strs u)) (m_password (strs u)) None None) 0 (find_token v) 0 ty 0 None 0 true) as ->.
  { pose proof (str_set_part _ _ (proj1 (wf_password u W))) as X. destruct (m_password (strs u)); [|done]. unfold url_password_set, set_if. by rewrite X. }
  assert (exists cap, url_host_set copy (Some host) (mkURL (st (m_user (strs u)) (m_password (strs u)) None None) 0 (find_token v) 0 ty 0 None 0 true) =
    Some (mkURL (st (m_user (strs u)) (m_password (strs u)) (Some host) None) cap (find_token v) 0 ty 0 None 0 true)) as [cap ->].
  { unfold url_host_set. rewrite (str_set_short host Sh). destruct host as [|c host]; [done|]. destruct copy; simpl; by eexists. }
  exists cap. simpl. f_equal. pose proof (wf_port u W) as P. destruct (m_port_str (strs u)) as [p|]; [|simpl; by rewrite P].
  destruct P as (Np & Sp & _ & -> & _). unfold set_if, url_port_set, set_port. by rewrite (str_set_ne p Np Sp).
Qed.

Lemma internet_roundtrip u v host copy : url_wf u -> m_scheme (strs u) = Some v -> m_host (strs u) = Some host -> exists cap cur,
  url_parse_internet copy (url_text table u) (length v) (url_scheme_set table (Some v) (find_token v) url_create) =
    Some (PARSE_DONE, parsed u (mkStrs (Some v) (m_user (strs u)) (m_password (strs u)) (Some host) (m_port_str (strs u)) None None None None) cap 0, cur) /\
  drop cur (url_text table u) = rest_text u /\ (cur <= length (url_text table u))%nat.
Proof.
  intros W Ev Eh. pose proof (url_text_parts u v host W Ev Eh) as T. set (s := url_text table u) in *. clearbody s.
  destruct (wf_scheme u W) as (v' & E' & I & S & _). rewrite Ev in E'. injection E' as <-.
  destruct (wf_host u W) as (h' & E' & Nh & Sh & Fh). rewrite Eh in E'. injection E' as <-.
  destruct (wf_password u W) as [Wp Up]. pose proof (wf_port u W) as Wq. destruct (scheme_letters v S) as (Nv & Lv & _).
  assert (D0 : drop (length v) s = chars "://" ++ auth_text (m_user (strs u)) (m_password (strs u)) host (m_port_str (strs u)) ++ ch "/" :: rest_text u)
    by (rewrite T; apply drop_app_length).
  assert (D1 : drop (length v + 3) s = auth_text (m_user (strs u)) (m_password (strs u)) host (m_port_str (strs u)) ++ ch "/" :: rest_text u)
    by (by eapply drop_past).
  assert (LS : (length v + 3 + length (auth_text (m_user (strs u)) (m_password (strs u)) host (m_port_str (strs u))) + 1 <= length s)%nat)
    by (rewrite T, !length_app; simpl; lia).
  destruct (auth_spec s (length v + 3) copy _ _ _ _ _ (url_scheme_set table (Some v) (find_token v) url_create) D1 Nh Fh) as (p & R & A);
    [intros w Q; by apply (wf_user u W)|intros w Q; by apply Wp|intros w Q; rewrite Q in Wq; apply digits_free, Wq|done|].
  destruct (setters_roundtrip u v host copy W Ev Eh) as [cap X].
  unfold url_parse_internet. rewrite (proj2 (Nat.leb_gt (length s) (length v))) by lia.
  rewrite (skip_slashes_spec s _ _ D0 (app_cons_ne _ _ _)), R. cbv iota beta. rewrite A, X. exists cap. eexists. split; [done|]. split; [|done].
  eapply (drop_past s (auth_text _ _ _ _ ++ [ch "/"])); [by rewrite D1, <- app_assoc|]. rewrite length_app. simpl. lia.
Qed.

(** The rest of the parse on a URL of which the authority is known. *)
Lemma http_roundtrip u v host copy : url_wf u -> m_scheme (strs u) = Some v -> m_host (strs u) = Some host -> m_url_type u <> URL_TYPE_FTP -> exists cap n,
  url_parse_http copy (url_text table u) (length v) (url_scheme_set table (Some v) (find_token v) url_create) = Some (PARSE_DONE, parsed u (strs u) cap (m_type_code u), n).
Proof.
  intros W Ev Eh NF. destruct (internet_roundtrip u v host copy W Ev Eh) as (cap & cur & R & D & L). exists cap.
  pose proof (wf_rest u W) as T. pose proof (wf_path u W) as P. unfold rest_text in D. rewrite bool_decide_false in D, T by done.
  destruct T as (-> & T1 & T2 & T3). unfold url_parse_http. rewrite R. cbn [mbind option_bind].
  pose proof (str_set_part _ _ P) as XP. pose proof (str_set_tail _ _ T1) as X1. pose proof (str_set_tail _ _ T2) as X2. pose proof (str_set_tail _ _ T3) as X3.
  destruct (strs u) as [a b c d e path params query fragment] eqn:SU. simpl in * |-. simplify_eq.
  destruct (path_spec _ cur (default [] path) params query fragment D) as (cur' & p & R' & A1 & A2 & A3 & A4).
  { destruct path as [path|]; [by apply P|constructor]. }
  { intros w ->. by apply T1. }
  { intros w ->. by apply T2. }
  assert (G : forall ps k q, between (url_text table u) ps (path_end q) k = Some (default [] path) \/ (ps = None /\ path = None) ->
    between (url_text table u) (params_start q) (params_end q) k = params -> between (url_text table u) (query_start q) (query_end q) k = query ->
    between (url_text table u) (fragment_start q) (fragment_end q) k = fragment ->
    http_done (url_text table u) ps k q (parsed u (mkStrs (Some v) b c (Some host) e None None None None) cap 0) =
      parsed u (mkStrs (Some v) b c (Some host) e path params query fragment) cap 0).
  { intros ps k q B0 B1 B2 B3. unfold http_done. rewrite B1, B2, B3. clear B1 B2 B3.
    assert (set_if url_path_set (between (url_text table u) ps (path_end q) k) (parsed u (mkStrs (Some v) b c (Some host) e None None None None) cap 0) =
      parsed u (mkStrs (Some v) b c (Some host) e path None None None) cap 0) as ->.
    { destruct B0 as [->|[-> ->]]; [|done]. destruct path as [path|]; [|done]. change (default [] (Some path)) with path. unfold set_if, url_path_set. by rewrite XP. }
    destruct params, query, fragment; simpl; unfold url_params_set, url_query_set, url_fragment_set, parsed; simpl; rewrite ?X1, ?X2, ?X3; done. }
  destruct (Nat.eqb_spec cur (length (url_text table u))) as [->|N].
  - rewrite drop_all in D. symmetry in D. apply app_eq_nil in D as [D0 D]. apply app_eq_nil in D as [D1 D]. apply app_eq_nil in D as [D2 D3].
    destruct params, query, fragment; try done. eexists. do 3 f_equal. apply G; try done. right. split; [done|].
    destruct path as [path|]; [|done]. simpl in D0. by destruct (P path eq_refl) as [? _].
  - rewrite D, R'. eexists. do 3 f_equal. apply G; try done. left. simpl. by rewrite A1.
Qed.

Lemma ftp_roundtrip u v host copy : url_wf u -> m_scheme (strs u) = Some v -> m_host (strs u) = Some host -> m_url_type u = URL_TYPE_FTP -> exists cap n,
  url_parse_ftp copy (url_text table u) (length v) (url_scheme_set table (Some v) (find_token v) url_create) = Some (PARSE_DONE, parsed u (strs u) cap (m_type_code u), n).
Proof.
  intros W Ev Eh FT. destruct (internet_roundtrip u v host copy W Ev Eh) as (cap & cur & R & D & L). exists cap.
  pose proof (wf_rest u W) as T. pose proof (wf_path u W) as P. unfold rest_text in D. rewrite bool_decide_true in D, T by done.
  destruct T as (B & T1 & T2 & T3). unfold url_parse_ftp. rewrite R. cbn [mbind option_bind]. pose proof (str_set_part _ _ P) as XP.
  destruct (strs u) as [a b c d e path params query fragment] eqn:SU. simpl in * |-. simplify_eq. set (s := url_text table u) in *. clearbody s.
  assert (F : Forall (fun x => x <> ch ";") (default [] path)).
  { destruct path as [path|]; [|constructor]. destruct (P path eq_refl) as (_ & _ & F). eapply Forall_impl; [exact F|]. intros x N. eapply mem_sub_neq; [exact N|simpl; set_solver]. }
  assert (G : forall ps pe t k, between s ps pe k = Some (default [] path) \/ (ps = None /\ path = None) -> u8 t = m_type_code u -> (t = 0 <-> m_type_code u = 0) ->
    ftp_done s ps pe t k (parsed u (mkStrs (Some v) b c (Some host) e None None None None) cap 0) =
      (PARSE_DONE, parsed u (mkStrs (Some v) b c (Some host) e path None None None) cap (m_type_code u), k)).
  { intros ps pe t k B0 E Z. unfold ftp_done.
    assert (set_if url_path_set (between s ps pe k) (parsed u (mkStrs (Some v) b c (Some host) e None None None None) cap 0) =
      parsed u (mkStrs (Some v) b c (Some host) e path None None None) cap 0) as ->.
    { destruct B0 as [->|[-> ->]]; [|done]. destruct path as [path|]; [|done]. change (default [] (Some path)) with path. unfold set_if, url_path_set. by rewrite XP. }
    destruct (Z.eqb_spec t 0) as [->|N]; [by rewrite <- E|]. unfold url_type_set, parsed. simpl. by rewrite E. }
  destruct (Z.eqb_spec (m_type_code u) 0) as [Z|N].
  - rewrite app_nil_r in D. destruct (Nat.eqb_spec cur (length s)) as [->|N].
    + eexists. f_equal. apply G; [|by rewrite Z|by rewrite Z]. right. split; [done|]. rewrite drop_all in D.
      destruct path as [path|]; [|done]. simpl in D. subst path. by destruct (P [] eq_refl).
    + rewrite D, find_char_none by done. eexists. f_equal. apply G; [|by rewrite Z|by rewrite Z]. left. simpl. f_equal.
      eapply (sub_at _ _ []); [by rewrite app_nil_r|]. rewrite <- D, length_drop. lia.
  - assert (LS : (cur + length (default [] path) + 7 = length s)%nat).
    { assert (X : length (drop cur s) = (length (default [] path) + 7)%nat) by (rewrite D, length_app; done). rewrite length_drop in X. lia. }
    destruct (Nat.eqb_spec cur (length s)) as [|_]; [lia|]. rewrite D. change (chars ";type=" ++ [wraps 8 (m_type_code u)]) with (ch ";" :: chars "type=" ++ [wraps 8 (m_type_code u)]) in *.
    rewrite find_char_app by done.
    rewrite (drop_past s (default [] path ++ [ch ";"]) (chars "type=" ++ [wraps 8 (m_type_code u)]) cur); [|by rewrite <- app_assoc|rewrite length_app; simpl; lia].
    simpl. eexists. f_equal. apply G.
    + left. simpl. f_equal. by eapply sub_at.
    + unfold wrapu, wraps. rewrite Zminus_mod, Zmod_mod, <- Zminus_mod. replace (m_type_code u + 2 ^ (8 - 1) - 2 ^ (8 - 1)) with (m_type_code u) by lia. by apply Z.mod_small.
    + split; [|done]. intros E. exfalso. apply N. unfold wraps in E. change (2 ^ (8 - 1)) with 128 in E. change (2 ^ 8) with 256 in E.
      pose proof (Z.div_mod (m_type_code u + 128) 256). lia.
Qed.

Lemma scheme_tokens : find_token (chars "http") = 95 /\ find_token (chars "ftp") = 93 /\ find_token (chars "mms") = 107 /\ find_token (chars "mmsu") = 108 /\ find_token (chars "mmst") = 109 /\ find_token (chars "rtsp") = 105 /\ find_token (chars "https") = 96.
Proof. by vm_compute. Qed.

Lemma scheme_type_ftp i : scheme_type table i = URL_TYPE_FTP <-> i = find_token (chars "ftp").
Proof.
  unfold scheme_type. rewrite !scheme_wks_find. destruct scheme_tokens as (-> & -> & -> & -> & -> & -> & ->).
  destruct (Z.eqb_spec i 95), (Z.eqb_spec i 93), (Z.eqb_spec i 107), (Z.eqb_spec i 108), (Z.eqb_spec i 109), (Z.eqb_spec i 105), (Z.eqb_spec i 96);
    split; intros; first [done|lia].
Qed.

Lemma url_roundtrip_ok u copy : url_wf u -> exists cap n, url_parse table copy (url_text table u) 0 url_create =
  Some (PARSE_DONE, mkURL (strs u) cap (m_scheme_wks_idx u) (m_port u) (m_url_type u) (m_type_code u) None 0 true, n).
Proof.
  intros W. destruct (wf_scheme u W) as (v & Ev & I & S & _). destruct (wf_host u W) as (host & Eh & _).
  destruct (scheme_letters v S) as (Nv & _ & A). pose proof (url_text_parts u v host W Ev Eh) as T. change (chars "://") with (ch ":" :: chars "//") in T.
  unfold url_parse, url_parse_with. rewrite drop_0.
  assert (skip_ws (url_text table u) 0 = Some 0%nat) as ->.
  { rewrite T. destruct v as [|c v]; [done|]. apply Forall_cons in A as [A _]. simpl. unfold is_ws. destruct (Z.eqb_spec c CHAR_SP) as [->|]; [done|].
    destruct (Z.eqb_spec c CHAR_HT) as [->|]; [done|]. done. }
  rewrite (proj2 (Nat.leb_gt _ _)) by (rewrite T, length_app; destruct v; [done|simpl; lia]).
  assert (parse_scheme table (url_text table u) 0 = Some (length v, find_token v)) as -> by (rewrite T; by apply parse_scheme_spec).
  assert (sub (url_text table u) 0 (length v) = v) as -> by (eapply sub_at; [rewrite drop_0; exact T|done]).
  rewrite scheme_wks_find. assert (FT : m_url_type u = URL_TYPE_FTP <-> find_token v = find_token (chars "ftp")).
  { rewrite (wf_type u W), I. apply scheme_type_ftp. }
  destruct (Z.eqb_spec (find_token v) (find_token (chars "ftp"))) as [E|N].
  - by apply (ftp_roundtrip u v host), FT.
  - apply (http_roundtrip u v host); [done..|]. by rewrite FT.
Qed.

(** C36: a URL that has a well-known scheme (but for file:, which has a syntax of its
    own) and a host, whose port is not 0 (which is no port), and whose parts have no
    character that would end them, is parsed from its printed text into the same
    parts, port, type and type code, whether or not the parser copies strings. *)
Theorem url_roundtrip u copy : url_wf u -> exists cap n, url_parse table copy (url_text table u) 0 url_create =
  Some (PARSE_DONE, mkURL (strs u) cap (m_scheme_wks_idx u) (m_port u) (m_url_type u) (m_type_code u) None 0 true, n).
Proof. apply url_roundtrip_ok. Qed.
End roundtrip.

(** printing a URL into a buffer of any length, at any place and from any
    character on, writes the part of its text that fits, and reports success
    exactly when nothing is left; printing again from where it stopped continues
    the text.  The length computed beforehand is that of the text. *)
Theorem url_print_resumes `{TokenDFA} hash_table u len i k : 0 <= i <= len -> 0 <= k ->
  let '(ok, st) := url_print hash_table u len (mkPrint i k []) in
  printed st = take (Z.to_nat (len - i)) (drop (Z.to_nat k) (url_text hash_table u)) /\ buf_index st = i + Z.of_nat (length (printed st)) /\
  (ok = true <-> url_length_get hash_table u <= k + (len - i)).
Proof.
  intros Hi Hk. rewrite <- (Z2Nat.id i), <- (Z2Nat.id k), <- (Z2Nat.id len) by lia. rewrite url_print_spec by lia. unfold print_spec. simpl.
  split_and!; [do 2 f_equal; lia|lia|]. rewrite bool_decide_eq_true, length_drop, url_length_text. lia.
Qed.

Definition sample_url : URLImpl :=
  mkURL (mkStrs (Some (chars "HTTP")) (Some (chars "me")) (Some (chars "a:b")) (Some (chars "host.com")) (Some (chars "8080")) (Some (chars "a/b"))
          (Some []) (Some (chars "q;x?")) (Some (chars "#f"))) 0 95 8080 URL_TYPE_HTTP 0 None 0 true.

Lemma url_print_resumes_witness :
  printed (url_print common_table sample_url 10 (mkPrint 2 4 [])).2 = take 8 (drop 4 (chars "HTTP://me:a:b@host.com:8080/a/b;?q;x?##f")).
Proof.
  pose proof (url_print_resumes common_table sample_url 10 2 4 ltac:(lia) ltac:(lia)) as T.
  destruct (url_print common_table sample_url 10 (mkPrint 2 4 [])) as [ok st]. destruct T as (T & _). simpl. rewrite T. by vm_compute.
Defined.

Lemma url_string_current_witness : let u := url_path_set (Some (chars "x")) (url_string_get_ref common_table url_create).2 in
  exists l u', url_string_get_ref common_table u = (chars "/x", l, u') /\ l = 2.
Proof.
  intros u. destruct (url_string_current common_table u) as (l & u' & E & _ & L).
  { eapply rtc_l; [apply step_ref|]. apply rtc_once, step_set, set_path. }
  exists l, u'. split; [rewrite E; by vm_compute|]. rewrite L; by vm_compute.
Defined.

Lemma url_roundtrip_witness : exists cap n, url_parse common_table true (chars "HTTP://me:a:b@host.com:8080/a/b;?q;x?##f") 0 url_create =
  Some (PARSE_DONE, mkURL (strs sample_url) cap 95 8080 URL_TYPE_HTTP 0 None 0 true, n).
Proof.
  replace (chars "HTTP://me:a:b@host.com:8080/a/b;?q;x?##f") with (url_text common_table sample_url) by (by vm_compute).
  apply (url_roundtrip sample_url true). split.
  - exists (chars "HTTP"). by vm_compute.
  - by vm_compute.
  - intros w [= <-]. split_and!; [done|by vm_compute|by repeat constructor].
  - split; [|done]. intros w [= <-]. split_and!; [done|by vm_compute|by repeat constructor].
  - exists (chars "host.com"). split_and!; [done|done|by vm_compute|by repeat constructor].
  - simpl. split_and!; [done|by vm_compute|by repeat constructor|done|done].
  - intros w [= <-]. split_and!; [done|by vm_compute|by repeat constructor].
  - rewrite bool_decide_false by done. split_and!; [done| | |]; intros w [= <-]; (split; [by vm_compute|by repeat constructor]).
Defined.

(** ** What the code does not mean to do *)

(** [url_nuke_proxy_stuff] does not mark the kept string: asked for again, the
    text still has the host that was taken away. *)
Theorem url_nuke_stale : let u := url_nuke_proxy_stuff (url_string_get_ref common_table sample_url).2 in
  (url_string_get_ref common_table u).1.1 = chars "HTTP://me:a:b@host.com:8080/a/b;?q;x?##f" /\ url_text common_table u = chars "/a/b;?q;x?##f".
Proof. by vm_compute. Qed.

(** Nor does it clear [m_capacity_host]: setting a host that is not longer than
    the one before then copies through a null pointer. *)
Theorem url_nuke_host_set h h' : h <> [] -> h' <> [] -> (length h' <= length h)%nat -> Z.of_nat (length h) < 2 ^ 16 ->
  exists u1, url_host_set true (Some h) url_create = Some u1 /\ url_host_set true (Some h') (url_nuke_proxy_stuff u1) = None.
Proof.
  intros N N' L S. destruct h as [|c h]; [done|]. destruct h' as [|c' h']; [done|]. eexists. split; [done|].
  unfold url_host_set. cbn -[length]. rewrite wrapu_id by lia. by rewrite (proj2 (Z.ltb_ge _ _)) by lia.
Qed.

Lemma url_nuke_host_set_witness : exists u1, url_host_set true (Some (chars "host")) url_create = Some u1 /\
  url_host_set true (Some (chars "abc")) (url_nuke_proxy_stuff u1) = None.
Proof. apply (url_nuke_host_set (chars "host") (chars "abc")); [done|done|simpl; lia|simpl; lia]. Defined.

(** The digits of a port are summed in 16 bits: port 65616 is port 80. *)
Theorem url_port_wraps : exists u n, url_parse common_table true (chars "http://h:65616/") 0 url_create = Some (PARSE_DONE, u, n) /\
  m_port u = 80 /\ m_port_str (strs u) = Some (chars "65616").
Proof. do 2 eexists. split_and!; by vm_compute. Qed.

(** A [file:] URL is printed with one colon, but parsed as one with an
    authority: the first part of its path becomes the host, and each pass loses a
    slash. *)
Theorem url_file_reparsed : exists u n, url_parse common_table true (chars "file:/etc/passwd") 0 url_create = Some (PARSE_DONE, u, n) /\
  m_host (strs u) = Some (chars "etc") /\ url_text common_table u = chars "file:etc/passwd".
Proof. do 2 eexists. split_and!; by vm_compute. Qed.

(** [url_to_string] never writes the slash its length counts, and so stops the
    proxy for every URL whose port, if any, is not 0. *)
Theorem url_to_string_aborts `{TokenDFA} hash_table u : (m_port_str (strs u) <> None -> m_port u <> 0) -> url_to_string hash_table u = None.
Proof.
  intros P. unfold url_to_string. rewrite url_length_text.
  assert (E : has_port u = negb (is_null (m_port_str (strs u)))).
  { unfold has_port. destruct (m_port_str (strs u)); [|done]. by rewrite (proj2 (Z.eqb_neq _ _)) by (by apply P). }
  rewrite (proj2 (Z.eqb_neq _ _)); [done|]. unfold url_text, url_pieces. rewrite E, !concat_app, !length_app.
  destruct (m_port_str (strs u)); simpl; lia.
Qed.

Lemma url_to_string_aborts_witness : url_to_string common_table sample_url = None.
Proof. apply (url_to_string_aborts common_table sample_url). done. Defined.
