(* ===== verification/URLKey.v ===== *)
(** Theorems on the escapes of URLs and on the bytes of a cache key. *)

From S2P Require Import Prelude ParseRules HdrToken URL.
From Stdlib Require Import Ascii.

(** ** Escapes *)

Definition is_char8 (s : list Z) : Prop := Forall (fun c => -128 <= c < 128) s.

(** Every [%] is followed by two hexadecimal digits. *)
Fixpoint well_escaped (s : list Z) : bool :=
  match s with
  | [] => true
  | c :: r => if c =? ch "%" then match r with a :: b :: r' => is_hex a && is_hex b && well_escaped r' | _ => false end else well_escaped r
  end.

(** The characters a well-escaped string stands for. *)
Fixpoint decode (conv : Z -> Z) (s : list Z) : list Z :=
  match s with
  | [] => []
  | c :: r => if c =? ch "%" then match r with a :: b :: r' => wraps 8 (hex_value a * 16 + hex_value b) :: decode conv r' | _ => [] end
              else conv c :: decode conv r
  end.

(** The loop on a well-escaped string fills the buffer with what the string
    stands for, and stops between escapes. *)
Definition unescapes (conv : Z -> Z) (s : list Z) (t room : nat) (out : list Z) (r : option (list Z * nat * Z)) : Prop :=
  exists t', r = Some (out ++ take room (decode conv (drop t s)), t', 0) /\ well_escaped (drop t' s) = true /\
    decode conv (drop t' s) = drop room (decode conv (drop t s)).

Lemma drop_cons_lt (s : list Z) t c r : drop t s = c :: r -> (t < length s)%nat /\ nth t s 0 = c /\ drop (S t) s = r.
Proof.
  intros E. assert (L : length (drop t s) = S (length r)) by (by rewrite E). rewrite length_drop in L. split; [lia|]. split.
  - rewrite <- (take_drop t s), app_nth2, length_take, Nat.min_l, E; [by rewrite Nat.sub_diag|lia|rewrite length_take; lia].
  - change r with (drop 1 (c :: r)). rewrite <- E, drop_drop. f_equal. lia.
Qed.

Section steps.
Context (fuel : nat) (conv : Z -> Z) (s : list Z) (t room : nat) (out : list Z) (c : Z) (r : list Z) (E : drop t s = c :: r).

Lemma unescape_plain : c <> ch "%" -> unescape_go (S fuel) conv s t (S room) 0 out = unescape_go fuel conv s (S t) room 0 (out ++ [conv c]).
Proof.
  intros N. destruct (drop_cons_lt _ _ _ _ E) as (L & X & _). simpl. rewrite (proj2 (Nat.ltb_lt t (length s))) by done. simpl.
  by rewrite X, (proj2 (Z.eqb_neq _ _) N), Nat.sub_0_r.
Qed.

Lemma unescape_percent : c = ch "%" -> unescape_go (S fuel) conv s t (S room) 0 out = unescape_go fuel conv s (S t) (S room) 1 out.
Proof. intros N. destruct (drop_cons_lt _ _ _ _ E) as (L & X & _). simpl. rewrite (proj2 (Nat.ltb_lt t (length s))) by done. simpl. by rewrite X, N. Qed.

Lemma unescape_first : is_hex c = true -> unescape_go (S fuel) conv s t (S room) 1 out = unescape_go fuel conv s (S t) (S room) 2 out.
Proof. intros N. destruct (drop_cons_lt _ _ _ _ E) as (L & X & _). simpl. rewrite (proj2 (Nat.ltb_lt t (length s))) by done. simpl. by rewrite X, N. Qed.

Lemma unescape_second : is_hex c = true -> unescape_go (S fuel) conv s t (S room) 2 out =
  unescape_go fuel conv s (S t) room 0 (out ++ [wraps 8 (hex_value (nth (t - 1) s 0) * 16 + hex_value c)]).
Proof.
  intros N. destruct (drop_cons_lt _ _ _ _ E) as (L & X & _). simpl. rewrite (proj2 (Nat.ltb_lt t (length s))) by done. simpl.
  by rewrite X, N, Nat.sub_0_r.
Qed.
End steps.

Lemma unescape_go_spec conv s n t room out fuel : (length s - t <= n)%nat -> (n <= fuel)%nat -> well_escaped (drop t s) = true ->
  unescapes conv s t room out (unescape_go fuel conv s t room 0 out).
Proof.
  revert t room out fuel. induction n as [n IH] using lt_wf_ind. intros t room out fuel Hn Hf W. unfold unescapes.
  destruct room as [|room].
  { exists t. destruct fuel; simpl; rewrite andb_false_r; by rewrite app_nil_r, drop_0. }
  destruct (drop t s) as [|c r] eqn:E.
  { assert (L : (length s <= t)%nat) by (apply (f_equal length) in E; rewrite length_drop in E; simpl in E; lia).
    exists t. destruct fuel; simpl; rewrite (proj2 (Nat.ltb_ge t (length s))), E by done; simpl; by rewrite app_nil_r. }
  destruct (drop_cons_lt _ _ _ _ E) as (L & N & D). destruct fuel as [|fuel]; [lia|]. cbn [well_escaped decode] in W |- *.
  destruct (Z.eqb_spec c (ch "%")) as [->|NC].
  - destruct r as [|a [|b r]]; [done..|]. apply andb_true_iff in W as [[Ha Hb]%andb_true_iff W].
    destruct (drop_cons_lt _ _ _ _ D) as (L1 & N1 & D1). destruct (drop_cons_lt _ _ _ _ D1) as (L2 & N2 & D2).
    destruct fuel as [|[|fuel]]; [lia..|].
    rewrite (unescape_percent _ _ _ _ _ _ _ _ E eq_refl), (unescape_first _ _ _ _ _ _ _ _ D Ha), (unescape_second _ _ _ _ _ _ _ _ D1 Hb).
    replace (S (S t) - 1)%nat with (S t) by lia. rewrite N1.
    destruct (IH (length s - S (S (S t)))%nat ltac:(lia) (S (S (S t))) room (out ++ [wraps 8 (hex_value a * 16 + hex_value b)]) fuel) as (t' & R & A & B);
      [lia|lia|by rewrite D2|]. rewrite D2 in R, B. exists t'. rewrite R, <- app_assoc. done.
  - rewrite (unescape_plain _ _ _ _ _ _ _ _ E NC). destruct (IH (length s - S t)%nat ltac:(lia) (S t) room (out ++ [conv c]) fuel) as (t' & R & A & B); [lia|lia|by rewrite D|].
    rewrite D in R, B. exists t'. rewrite R, <- app_assoc. done.
Qed.

Lemma plain_decode conv w r : Forall (fun c => c <> ch "%") w -> decode conv (w ++ r) = (conv <$> w) ++ decode conv r.
Proof. induction 1 as [|c w N _ IH]; [done|]. simpl. rewrite (proj2 (Z.eqb_neq _ _) N). simpl. by f_equal. Qed.

Lemma plain_escaped w r : Forall (fun c => c <> ch "%") w -> well_escaped (w ++ r) = well_escaped r.
Proof. induction 1 as [|c w N _ IH]; [done|]. simpl. by rewrite (proj2 (Z.eqb_neq _ _) N). Qed.

(** [ink_memcpy_until_char] copies up to the first [%] or the end. *)
Lemma memcpy_until_spec src n : is_char8 src -> exists w r, src = w ++ r /\ memcpy_until_char src n (ch "%") = w /\ Forall (fun c => c <> ch "%") w /\ (length w <= n)%nat.
Proof.
  intros C. revert n. induction C as [|c src Hc C IH]; intros [|n]; simpl; [exists [], []; by split_and!; try done; simpl; lia|exists [], []; by split_and!; try done; simpl; lia| |].
  - exists [], (c :: src). split_and!; try done; simpl; lia.
  - change (u8 (ch "%")) with 37. destruct (Z.eqb_spec (u8 c) 37) as [E|E].
    + exists [], (c :: src). split_and!; try done; simpl; lia.
    + destruct (IH n) as (w & r & -> & M & P & L). exists (c :: w), r. rewrite M. split_and!; try done; [|simpl; lia].
      constructor; [|done]. intros ->. by apply E.
Qed.

Lemma unescape_str_spec s t room : is_char8 s -> well_escaped (drop t s) = true -> unescapes id s t room [] (unescape_str s t room 0).
Proof.
  intros C W. unfold unescape_str. set (m := Nat.min (length s - t) room).
  destruct (memcpy_until_spec (drop t s) m) as (w & r & E & -> & P & L); [by apply Forall_drop|].
  assert (D : drop (t + length w) s = r) by (rewrite <- drop_drop, E; apply drop_app_length).
  assert (Wr : well_escaped r = true) by (by rewrite E, plain_escaped in W).
  assert (Lw : (length s - t = length w + length r)%nat) by (rewrite <- length_drop, E, length_app; done).
  destruct (Nat.eqb_spec (length w) m) as [Em|Nm].
  - exists (t + length w)%nat. rewrite D, E, plain_decode, list_fmap_id by done. simpl.
    destruct (decide (length w = room)) as [<-|NR]; [by rewrite take_app_length, drop_app_length|].
    assert (r = []) as -> by (apply length_zero_iff_nil; lia). simpl. rewrite app_nil_r, take_ge, drop_ge by lia. done.
  - destruct (unescape_go_spec id s (length s - (t + length w)) (t + length w) (room - length w) w (unescape_fuel s t)) as (t' & R & A & B);
      [lia|unfold unescape_fuel; lia|by rewrite D|].
    exists t'. rewrite R, D in *. rewrite E, plain_decode, list_fmap_id by done. simpl.
    rewrite take_app_ge, drop_app_ge by lia. done.
Qed.

Lemma unescape_lower_spec s t room : well_escaped (drop t s) = true -> unescapes ink_tolower s t room [] (unescape_str_tolower s t room 0).
Proof. intros W. apply (unescape_go_spec _ _ (length s - t)); [lia|unfold unescape_fuel; lia|done]. Qed.

(** ** Keys *)

Definition key_conv (host : bool) : Z -> Z := if host then ink_tolower else id.

Lemma escaped_nonempty conv s : well_escaped s = true -> decode conv s = [] -> s = [].
Proof. destruct s as [|c [|a [|b r]]]; simpl; [done|..]; by destruct (c =? ch "%"). Qed.

Lemma decode_length conv s : (length (decode conv s) <= length s)%nat.
Proof.
  induction s as [s IH] using (induction_ltof1 _ (@length Z)); unfold ltof in IH. destruct s as [|c r]; simpl; [lia|]. destruct (c =? ch "%").
  - destruct r as [|a [|b r]]; simpl; [lia..|]. specialize (IH r ltac:(simpl; lia)). lia.
  - specialize (IH r ltac:(simpl; lia)). simpl. lia.
Qed.

Lemma key_loop_spec host s t fuel hashed buf : is_char8 s -> well_escaped (drop t s) = true -> (length buf < BUFSIZE)%nat ->
  (length (decode (key_conv host) (drop t s)) <= fuel)%nat -> exists hashed' buf',
  key_loop fuel host s t 0 hashed buf = Some (hashed', buf') /\ (length buf' < BUFSIZE)%nat /\ hashed' ++ buf' = hashed ++ buf ++ decode (key_conv host) (drop t s).
Proof.
  intros C. revert t hashed buf. induction fuel as [|fuel IH]; intros t hashed buf W B F.
  - assert (E : decode (key_conv host) (drop t s) = []) by (apply length_zero_iff_nil; lia). pose proof (escaped_nonempty _ _ W E) as E'.
    assert (L : (length s <= t)%nat) by (apply (f_equal length) in E'; rewrite length_drop in E'; simpl in E'; lia).
    exists hashed, buf. cbn [key_loop]. rewrite (proj2 (Nat.ltb_ge t (length s))) by done. rewrite E. by rewrite app_nil_r.
  - cbn [key_loop]. destruct (Nat.ltb_spec t (length s)) as [L|L].
    2: { exists hashed, buf. rewrite (drop_ge s) by lia. simpl. by rewrite app_nil_r. }
    set (room := (BUFSIZE - length buf)%nat). assert (R : (0 < room)%nat) by (unfold room; lia).
    assert (U : unescapes (key_conv host) s t room [] ((if host then unescape_str_tolower else unescape_str) s t room 0))
      by (destruct host; [by apply unescape_lower_spec|by apply unescape_str_spec]).
    destruct U as (t' & -> & W' & D). cbn [mbind option_bind]. simpl app. set (d := decode (key_conv host) (drop t s)) in *.
    assert (ND : (0 < length d)%nat).
    { destruct d eqn:Ed; [|simpl; lia]. apply escaped_nonempty in Ed; [|done]. apply (f_equal length) in Ed. rewrite length_drop in Ed. simpl in Ed. lia. }
    destruct (Nat.eqb_spec (length (buf ++ take room d)) BUFSIZE) as [E|E]; rewrite length_app, length_take in E.
    + destruct (IH t' (hashed ++ buf ++ take room d) []) as (h' & b' & -> & B' & X); [done|unfold BUFSIZE; simpl; lia|rewrite D, length_drop; lia|].
      exists h', b'. split_and!; try done. rewrite X, D. simpl. by rewrite <- !app_assoc, take_drop.
    + assert (G : (length d < room)%nat) by (unfold room in *; lia).
      destruct (IH t' hashed (buf ++ take room d)) as (h' & b' & -> & B' & X); [done|rewrite length_app, length_take; unfold room in *; lia|rewrite D, length_drop; lia|].
      exists h', b'. split_and!; try done. rewrite X, D, (drop_ge d), (take_ge d), app_nil_r by lia. done.
Qed.

(** What the strings of a key stand for. *)
Definition key_part (x : bool * option (list Z)) : list Z := match x with (_, None) => [] | (host, Some s) => decode (key_conv host) s end.

Definition key_text (u : URLImpl) : list Z := concat (key_part <$> key_strs u) ++ port_bytes u.

Definition key_ok (x : bool * option (list Z)) : Prop := match x with (_, None) => True | (_, Some s) => is_char8 s /\ well_escaped s = true end.

Lemma key_strings_spec l hashed buf : Forall key_ok l -> (length buf < BUFSIZE)%nat -> exists h' b',
  forM l key_string (hashed, buf) = Some (h', b') /\ h' ++ b' = hashed ++ buf ++ concat (key_part <$> l).
Proof.
  intros F. revert hashed buf. induction F as [|[host [s|]] l Hx _ IH]; intros hashed buf B; cbn [forM].
  - exists hashed, buf. simpl. by rewrite app_nil_r.
  - destruct Hx as [C W]. unfold key_string at 1. cbn [fst snd].
    destruct (key_loop_spec host s 0 (4 * length s + 4) hashed buf C) as (h1 & b1 & -> & B1 & X1); [by rewrite drop_0|done| |].
    { rewrite drop_0. pose proof (decode_length (key_conv host) s). lia. }
    destruct (IH h1 b1 B1) as (h' & b' & -> & X). exists h', b'. split; [done|]. rewrite X, app_assoc, X1, drop_0. cbn [fmap list_fmap concat key_part]. by rewrite <- !app_assoc.
  - unfold key_string at 1. destruct (IH hashed buf B) as (h' & b' & -> & X). by exists h', b'.
Qed.

Lemma key_general u : Forall key_ok (key_strs u) -> url_MD5_get_general u = Some (key_text u).
Proof.
  intros F. unfold url_MD5_get_general, key_text. destruct (key_strings_spec (key_strs u) [] [] F) as (h & b & -> & X); [unfold BUFSIZE; simpl; lia|].
  simpl in X |- *. by rewrite app_assoc, X.
Qed.

Lemma has_char_false c p : has_char c p = false -> Forall (fun x => x <> c) (default [] p).
Proof.
  unfold has_char. intros E. apply Forall_forall. intros x I ->. rewrite <- not_true_iff_false in E. apply E. apply existsb_exists.
  exists c. split; [by apply list_elem_of_In|apply Z.eqb_refl].
Qed.

Lemma key_part_empty h p : length (default [] p) = 0%nat -> key_part (h, p) = [].
Proof. destruct p as [[|]|]; simpl; [done|lia|done]. Qed.

Lemma key_part_plain (h : bool) p : Forall (fun x => x <> ch "%") (default [] p) -> key_part (h, p) = key_conv h <$> default [] p.
Proof. destruct p as [s|]; [|done]. intros P. simpl. rewrite <- (app_nil_r s) at 1. rewrite plain_decode by done. simpl. by rewrite app_nil_r. Qed.

(** C37: the bytes a cache key is the digest of are, for a URL whose parts are
    well escaped, those its parts stand for, joined by their separators and
    followed by the port; the host in lower case.  The fast path used with the
    MMH hash gives the hash the same bytes as the general path, in which parts
    are unescaped through a buffer of 512 bytes. *)
Theorem url_key_bytes u url_hash_method : Forall key_ok (key_strs u) -> has_char (ch "%") (m_scheme (strs u)) = false ->
  url_MD5_get url_hash_method u = Some (key_text u) /\ url_MD5_get_general u = Some (key_text u).
Proof.
  intros F Hs. pose proof (key_general u F) as G. split; [|done]. unfold url_MD5_get. destruct (_ && _) eqn:C; [|done].
  repeat (apply andb_true_iff in C as [C ?]). f_equal. unfold url_MMH_get_fast, key_text, key_strs.
  match goal with X : bool_decide (_ = URL_TYPE_HTTP) = true |- _ => apply bool_decide_eq_true in X; rewrite X end.
  rewrite bool_decide_false by done. match goal with X : (_ =? 0) = true |- _ => apply Z.eqb_eq in X end.
  repeat match goal with X : negb _ = true |- _ => apply negb_true_iff, has_char_false in X end. apply has_char_false in Hs.
  cbn [app fmap list_fmap concat].
  rewrite (key_part_empty _ (m_user _)), (key_part_empty _ (m_password _)), (key_part_empty _ (m_params _)), (key_part_empty _ (m_query _)) by lia.
  rewrite (key_part_plain false (m_scheme _)), (key_part_plain true (m_host _)), (key_part_plain false (m_path _)) by done.
  rewrite !(list_fmap_id (default [] _)). by rewrite <- !app_assoc.
Qed.

(** ** Escaping and unescaping *)

Lemma escape_chars : forallZ 256 (fun c =>
  if to_escape c then
    let a := nth (Z.to_nat (u8 c / 16)) hex_digits 0 in let b := nth (Z.to_nat (u8 c mod 16)) hex_digits 0 in
    is_hex a && is_hex b && (wraps 8 (hex_value a * 16 + hex_value b) =? c) && (-128 <=? a) && (a <? 128) && (-128 <=? b) && (b <? 128)
  else negb (c =? ch "%")) (-128) = true.
Proof. by vm_compute. Qed.

Lemma escape_char_decode c r : -128 <= c < 128 ->
  well_escaped (escape_char c ++ r) = well_escaped r /\ decode id (escape_char c ++ r) = c :: decode id r /\ is_char8 (escape_char c).
Proof.
  intros R. pose proof (forallZ_spec _ _ _ c escape_chars ltac:(simpl; lia)) as E. cbv beta zeta in E. unfold escape_char. destruct (to_escape c).
  - repeat (apply andb_true_iff in E as [E ?]). repeat match goal with X : (_ <=? _) = true |- _ => apply Z.leb_le in X | X : (_ <? _) = true |- _ => apply Z.ltb_lt in X end.
    set (a := nth (Z.to_nat (u8 c / 16)) hex_digits 0) in *. set (b := nth (Z.to_nat (u8 c mod 16)) hex_digits 0) in *.
    match goal with X : (wraps 8 _ =? c) = true |- _ => apply Z.eqb_eq in X; cbn [app well_escaped decode]; rewrite X end.
    rewrite Z.eqb_refl. rewrite E. match goal with X : is_hex b = true |- _ => rewrite X end. split_and!; [done..|].
    repeat constructor; try done; lia.
  - apply negb_true_iff in E. cbn [app well_escaped decode]. rewrite E. split_and!; [done..|]. by apply Forall_singleton.
Qed.

Lemma escape_string s : is_char8 s -> well_escaped (concat (escape_char <$> s)) = true /\ decode id (concat (escape_char <$> s)) = s /\ is_char8 (concat (escape_char <$> s)).
Proof.
  induction 1 as [|c s R _ (W & D & C)]; [by repeat constructor|]. cbn [fmap list_fmap concat].
  destruct (escape_char_decode c (concat (escape_char <$> s)) R) as (W1 & D1 & C1). rewrite W1, D1, D. split_and!; [done..|]. by apply Forall_app.
Qed.

Lemma escape_length s : Z.of_nat (length (concat (escape_char <$> s))) = Z.of_nat (length s) + 2 * Z.of_nat (length (filter (fun c => to_escape c = true) s)).
Proof.
  induction s as [|c s IH]; [done|]. cbn [fmap list_fmap concat]. rewrite length_app, Nat2Z.inj_add, IH, filter_cons. unfold escape_char.
  destruct (to_escape c); simpl; lia.
Qed.

Lemma escape_none s : length (filter (fun c => to_escape c = true) s) = 0%nat -> concat (escape_char <$> s) = s.
Proof.
  induction s as [|c s IH]; [done|]. rewrite filter_cons. cbn [fmap list_fmap concat]. unfold escape_char at 1.
  destruct (to_escape c); simpl; [lia|]. intros E. by rewrite IH.
Qed.

(** Escaping a string for the log and unescaping it gives the string back,
    for any bytes; the length reported with the escaped string is its length,
    so the memory allocated for it is enough. *)
Theorem escapify_roundtrip s : is_char8 s -> let '(e, len) := escapify_url s in
  len = Z.of_nat (length e) /\ url_unescapify e = Some s.
Proof.
  intros C. destruct (escape_string s C) as (W & D & CE). pose proof (escape_length s) as L.
  assert (escapify_url s = (concat (escape_char <$> s), Z.of_nat (length (concat (escape_char <$> s))))) as ->.
  { unfold escapify_url. rewrite L. destruct (Z.eqb_spec (Z.of_nat (length (filter (fun c => to_escape c = true) s))) 0) as [E|E]; [|done].
    rewrite (escape_none s) by lia. f_equal. lia. }
  split; [done|]. unfold url_unescapify. set (e := concat (escape_char <$> s)) in *.
  destruct (unescape_str_spec e 0 (length e) CE) as (t' & R & _); [by rewrite drop_0|]. rewrite R. simpl. rewrite drop_0, D.
  f_equal. apply take_ge. rewrite <- D. apply decode_length.
Qed.

Lemma escapify_roundtrip_witness : url_unescapify (escapify_url (chars "100% <sure>")).1 = Some (chars "100% <sure>").
Proof.
  pose proof (escapify_roundtrip (chars "100% <sure>")) as T. simpl in T. destruct T as [_ T]; [|exact T].
  vm_compute. repeat constructor; discriminate.
Defined.

(** A URL of a host and a path. *)
Definition simple_url (host path : list Z) : URLImpl :=
  mkURL (mkStrs (Some (chars "http")) None None (Some host) None (Some path) None None None) 0 95 0 URL_TYPE_HTTP 0 None 0 true.

Lemma url_key_bytes_witness : url_MD5_get 1 (simple_url (chars "A.com") (chars "%41b")) = Some (chars "http://:@a.com/Ab;?P" ++ [0]).
Proof.
  destruct (url_key_bytes (simple_url (chars "A.com") (chars "%41b")) 1) as [-> _]; [| |by vm_compute].
  - vm_compute. repeat constructor; discriminate.
  - by vm_compute.
Defined.

(** an escape that is cut off by the end of its part is lost: [/a], [/a%] and
    [/a%4] have the same cache key, so that a document stored for one is served
    for the others. *)
Theorem url_key_collision m : url_MD5_get m (simple_url (chars "h") (chars "a%4")) = url_MD5_get 0 (simple_url (chars "h") (chars "a")) /\
  url_MD5_get m (simple_url (chars "h") (chars "a%")) = url_MD5_get 0 (simple_url (chars "h") (chars "a")) /\
  url_MD5_get 0 (simple_url (chars "h") (chars "a")) = Some (chars "http://:@h/a;?P" ++ [0]).
Proof. unfold url_MD5_get. rewrite !andb_false_r. destruct (negb (m =? 0)); by vm_compute. Qed.

(** When the buffer of 512 bytes is full after the [%] of something that is no
    escape, the next call copies what follows before it looks at its state, and
    the character behind the [%] is lost: two different paths have one key. *)
Theorem url_key_buffer_end : let path := fun x => replicate 500 (ch "a") ++ [ch "%"; x; ch "z"; ch "b"] in
  url_MD5_get 0 (simple_url (chars "h") (path (ch "4"))) = url_MD5_get 0 (simple_url (chars "h") (path (ch "5"))) /\ path (ch "4") <> path (ch "5").
Proof. split; [by vm_compute|]. intros E. apply app_inv_head in E. discriminate. Qed.
