(* ===== verification/HdrFieldInfo.v ===== *)
(** What the header system knows of the well-known field names
    ([proxy/hdrs/HdrToken.cc], [HdrToken.h]): the bit that says a field of the
    name is present, the slot accelerator that points to it, and how its values
    may be written; and the masks of the directives of [Cache-Control]
    ([mime_init_cache_control_cooking_masks] in [MIME.cc]).

    As for the token types, the arrays are filled through the automaton; the facts
    evaluate them. *)

From S2P Require Import Prelude ParseRules HdrToken.

Definition HTIF_NONE : Z := 0.
Definition HTIF_COMMAS : Z := 1.
Definition HTIF_MULTVALS : Z := 2.
Definition HTIF_HOPBYHOP : Z := 4.
Definition HTIF_PROXYAUTH : Z := 8.

Definition MIME_SLOTID_NONE : Z := -1.

Record HdrTokenFieldInfo := mkInfo { info_slotid : Z; info_mask : Z; info_flags : Z }.

(** [TOK_64_CONST(1) << n]. *)
Definition bit (n : Z) : Z := Z.shiftl 1 n.

Definition _hdrtoken_strs_field_initializers : list (list Z * HdrTokenFieldInfo) := prod_map chars id <$> [
    ("Accept", mkInfo 0 (bit 0) (HTIF_COMMAS + HTIF_MULTVALS)); ("Accept-Charset", mkInfo 1 (bit 1) (HTIF_COMMAS + HTIF_MULTVALS));
    ("Accept-Encoding", mkInfo 2 (bit 2) (HTIF_COMMAS + HTIF_MULTVALS)); ("Accept-Language", mkInfo 3 (bit 3) (HTIF_COMMAS + HTIF_MULTVALS));
    ("Accept-Ranges", mkInfo (-1) (bit 4) (HTIF_COMMAS + HTIF_MULTVALS)); ("Age", mkInfo 4 (bit 5) (HTIF_NONE));
    ("Allow", mkInfo (-1) (bit 6) (HTIF_COMMAS + HTIF_MULTVALS)); ("Approved", mkInfo (-1) (0) (HTIF_NONE));
    ("Authorization", mkInfo 5 (bit 7) (HTIF_NONE)); ("Bytes", mkInfo (-1) (bit 8) (HTIF_NONE));
    ("Cache-Control", mkInfo 6 (bit 9) (HTIF_COMMAS + HTIF_MULTVALS)); ("Client-ip", mkInfo 7 (bit 10) (HTIF_NONE));
    ("Connection", mkInfo 8 (bit 11) (HTIF_COMMAS + HTIF_MULTVALS + HTIF_HOPBYHOP)); ("Content-Base", mkInfo (-1) (0) (HTIF_NONE));
    ("Content-Encoding", mkInfo 9 (bit 12) (HTIF_COMMAS + HTIF_MULTVALS)); ("Content-Language", mkInfo 10 (bit 13) (HTIF_COMMAS + HTIF_MULTVALS));
    ("Content-Length", mkInfo 11 (bit 14) (HTIF_NONE)); ("Content-Location", mkInfo (-1) (bit 15) (HTIF_NONE));
    ("Content-MD5", mkInfo (-1) (bit 16) (HTIF_NONE)); ("Content-Range", mkInfo (-1) (bit 17) (HTIF_NONE));
    ("Content-Type", mkInfo 12 (bit 18) (HTIF_NONE)); ("Control", mkInfo (-1) (0) (HTIF_NONE)); ("Cookie", mkInfo 13 (bit 19) (HTIF_MULTVALS));
    ("Date", mkInfo 14 (bit 20) (HTIF_NONE)); ("Distribution", mkInfo (-1) (0) (HTIF_NONE)); ("Etag", mkInfo (-1) (bit 21) (HTIF_NONE));
    ("Expires", mkInfo 15 (bit 22) (HTIF_NONE)); ("Followup-To", mkInfo (-1) (0) (HTIF_NONE)); ("From", mkInfo (-1) (bit 23) (HTIF_NONE));
    ("Host", mkInfo (-1) (bit 24) (HTIF_NONE)); ("If-Match", mkInfo 16 (bit 25) (HTIF_COMMAS + HTIF_MULTVALS));
    ("If-Modified-Since", mkInfo 17 (bit 26) (HTIF_NONE)); ("If-None-Match", mkInfo 18 (bit 27) (HTIF_COMMAS + HTIF_MULTVALS));
    ("If-Range", mkInfo 19 (bit 28) (HTIF_NONE)); ("If-Unmodified-Since", mkInfo 20 (bit 29) (HTIF_NONE));
    ("Keep-Alive", mkInfo (-1) (bit 30) (HTIF_HOPBYHOP)); ("Keywords", mkInfo (-1) (bit 31) (HTIF_NONE));
    ("Last-Modified", mkInfo 21 (bit 32) (HTIF_NONE)); ("Lines", mkInfo (-1) (bit 33) (HTIF_NONE)); ("Location", mkInfo (-1) (bit 34) (HTIF_MULTVALS));
    ("Max-Forwards", mkInfo (-1) (bit 35) (HTIF_NONE)); ("Message-ID", mkInfo (-1) (0) (HTIF_NONE)); ("Newsgroups", mkInfo (-1) (0) (HTIF_NONE));
    ("Organization", mkInfo (-1) (0) (HTIF_NONE)); ("Path", mkInfo (-1) (bit 36) (HTIF_NONE));
    ("Pragma", mkInfo 22 (bit 37) (HTIF_COMMAS + HTIF_MULTVALS)); ("Proxy-Authenticate", mkInfo (-1) (bit 38) (HTIF_HOPBYHOP + HTIF_PROXYAUTH));
    ("Proxy-Authorization", mkInfo (-1) (bit 39) (HTIF_HOPBYHOP + HTIF_PROXYAUTH));
    ("Proxy-Connection", mkInfo 23 (bit 40) (HTIF_COMMAS + HTIF_MULTVALS + HTIF_HOPBYHOP));
    ("Public", mkInfo (-1) (bit 41) (HTIF_COMMAS + HTIF_MULTVALS)); ("Range", mkInfo 24 (bit 42) (HTIF_COMMAS + HTIF_MULTVALS));
    ("References", mkInfo (-1) (0) (HTIF_NONE)); ("Referer", mkInfo (-1) (bit 43) (HTIF_NONE)); ("Reply-To", mkInfo (-1) (0) (HTIF_NONE));
    ("Retry-After", mkInfo (-1) (0) (HTIF_NONE)); ("Sender", mkInfo (-1) (0) (HTIF_NONE)); ("Server", mkInfo (-1) (bit 44) (HTIF_NONE));
    ("Set-Cookie", mkInfo 25 (bit 45) (HTIF_MULTVALS)); ("Subject", mkInfo (-1) (bit 46) (HTIF_NONE)); ("Summary", mkInfo (-1) (bit 47) (HTIF_NONE));
    ("TE", mkInfo 26 (bit 48) (HTIF_COMMAS + HTIF_MULTVALS + HTIF_HOPBYHOP)); ("Transfer-Encoding", mkInfo 27 (bit 49) (HTIF_COMMAS + HTIF_MULTVALS));
    ("Upgrade", mkInfo (-1) (bit 50) (HTIF_COMMAS + HTIF_MULTVALS + HTIF_HOPBYHOP)); ("User-Agent", mkInfo 28 (bit 51) (HTIF_NONE));
    ("Vary", mkInfo 29 (bit 52) (HTIF_COMMAS + HTIF_MULTVALS)); ("Via", mkInfo 30 (bit 53) (HTIF_COMMAS + HTIF_MULTVALS));
    ("Warning", mkInfo (-1) (bit 54) (HTIF_COMMAS + HTIF_MULTVALS)); ("Www-Authenticate", mkInfo 31 (bit 55) (HTIF_NONE));
    ("Xref", mkInfo (-1) (bit 61) (HTIF_NONE)); ("@DataInfo", mkInfo (-1) (bit 62) (HTIF_NONE));
    ("X-ID", mkInfo (-1) (0) (HTIF_COMMAS + HTIF_MULTVALS + HTIF_HOPBYHOP)); ("X-Forwarded-For", mkInfo (-1) (0) (HTIF_COMMAS + HTIF_MULTVALS))
  ]%string.

Definition MIME_COOKED_MASK_CC_MAX_AGE : Z := bit 0.
Definition MIME_COOKED_MASK_CC_NO_CACHE : Z := bit 1.
Definition MIME_COOKED_MASK_CC_NO_STORE : Z := bit 2.
Definition MIME_COOKED_MASK_CC_NO_TRANSFORM : Z := bit 3.
Definition MIME_COOKED_MASK_CC_MAX_STALE : Z := bit 4.
Definition MIME_COOKED_MASK_CC_MIN_FRESH : Z := bit 5.
Definition MIME_COOKED_MASK_CC_ONLY_IF_CACHED : Z := bit 6.
Definition MIME_COOKED_MASK_CC_PUBLIC : Z := bit 7.
Definition MIME_COOKED_MASK_CC_PRIVATE : Z := bit 8.
Definition MIME_COOKED_MASK_CC_MUST_REVALIDATE : Z := bit 9.
Definition MIME_COOKED_MASK_CC_PROXY_REVALIDATE : Z := bit 10.
Definition MIME_COOKED_MASK_CC_S_MAXAGE : Z := bit 11.
Definition MIME_COOKED_MASK_CC_NEED_REVALIDATE_ONCE : Z := bit 12.

Definition cc_mask_table : list (list Z * Z) := prod_map chars id <$> [
    ("max-age", MIME_COOKED_MASK_CC_MAX_AGE); ("no-cache", MIME_COOKED_MASK_CC_NO_CACHE); ("no-store", MIME_COOKED_MASK_CC_NO_STORE);
    ("no-transform", MIME_COOKED_MASK_CC_NO_TRANSFORM); ("max-stale", MIME_COOKED_MASK_CC_MAX_STALE);
    ("min-fresh", MIME_COOKED_MASK_CC_MIN_FRESH); ("only-if-cached", MIME_COOKED_MASK_CC_ONLY_IF_CACHED);
    ("public", MIME_COOKED_MASK_CC_PUBLIC); ("private", MIME_COOKED_MASK_CC_PRIVATE);
    ("must-revalidate", MIME_COOKED_MASK_CC_MUST_REVALIDATE); ("proxy-revalidate", MIME_COOKED_MASK_CC_PROXY_REVALIDATE);
    ("s-maxage", MIME_COOKED_MASK_CC_S_MAXAGE); ("need-revalidate-once", MIME_COOKED_MASK_CC_NEED_REVALIDATE_ONCE)
  ]%string.

Section infos.
Context `{TokenDFA}.

Definition default_info : HdrTokenFieldInfo := mkInfo MIME_SLOTID_NONE 0 HTIF_MULTVALS.

(** The field infos [hdrtoken_init] sets, and the masks that
    [mime_init_cache_control_cooking_masks] sets. *)
Definition hdrtoken_field_infos : list HdrTokenFieldInfo :=
  foldl (fun t '(name, info) => <[Z.to_nat (hdrtoken_tokenize_dfa name) := info]> t)
        (replicate (length _hdrtoken_strs) default_info) _hdrtoken_strs_field_initializers.

Definition hdrtoken_cc_masks (hash_table : list (option Z)) : list Z :=
  foldl (fun t '(name, mask) => <[Z.to_nat (hdrtoken_tokenize hash_table None name) := mask]> t)
        (replicate (length _hdrtoken_strs) 0) cc_mask_table.

Definition hdrtoken_index_to_slotid (i : Z) : Z := info_slotid (nth (Z.to_nat i) hdrtoken_field_infos default_info).
Definition hdrtoken_index_to_mask (i : Z) : Z := info_mask (nth (Z.to_nat i) hdrtoken_field_infos default_info).
Definition hdrtoken_index_to_flags (i : Z) : Z := info_flags (nth (Z.to_nat i) hdrtoken_field_infos default_info).
Definition hdrtoken_index_to_cc_mask (hash_table : list (option Z)) (i : Z) : Z := nth (Z.to_nat i) (hdrtoken_cc_masks hash_table) 0.
End infos.

(** ** Facts *)

Definition field_infos : list HdrTokenFieldInfo := Eval vm_compute in @hdrtoken_field_infos linear_dfa.
Definition cc_masks : list Z := Eval vm_compute in @hdrtoken_cc_masks linear_dfa common_table.

#[global] Arguments field_infos : simpl never.
#[global] Arguments cc_masks : simpl never.

Section facts.
Context `{TokenDFA}.

Lemma field_infos_table : hdrtoken_field_infos = field_infos.
Proof.
  unfold hdrtoken_field_infos. transitivity (@hdrtoken_field_infos linear_dfa); [|by vm_compute].
  unfold hdrtoken_field_infos. apply foldl_ext. intros ts [n t].
  by rewrite tokenize_dfa_find, (@tokenize_dfa_find linear_dfa).
Qed.

Lemma cc_masks_table : hdrtoken_cc_masks common_table = cc_masks.
Proof.
  unfold hdrtoken_cc_masks. transitivity (@hdrtoken_cc_masks linear_dfa common_table); [|by vm_compute].
  unfold hdrtoken_cc_masks. apply foldl_ext. intros ts [n t].
  destruct (tokenize_hash_agrees n) as (_ & -> & _). by destruct (@tokenize_hash_agrees linear_dfa n) as (_ & -> & _).
Qed.
End facts.
