(* ===== verification/MimeScanner.v ===== *)
(** The scanner that cuts the bytes of a header into lines ([proxy/hdrs/MIME.cc],
    from [_mime_scanner_init] to [mime_scanner_get]; [MIMEScanner] in [MIME.h]).

    The bytes from [*raw_input_s] to [raw_input_e] are a list.  Inside
    [mime_scanner_get] it is cut at [raw_input_c]: [pend] is what has been read
    and [rest] what has not.  The line buffer is the list of its [m_line_length]
    live bytes together with its size.  [None] as a result is a crash: a write past
    the line buffer, [ink_release_assert(0)], or a loop that does not end. *)

From S2P Require Import Prelude ParseRules MimePrint.

Inductive MIMEScannerState :=
  MIME_SCANNER_STATE_START | MIME_SCANNER_STATE_CHAR_2 | MIME_SCANNER_STATE_SCANNING_FOR_LF |
  MIME_SCANNER_STATE_SCANNING_FOR_CONTINUATION | MIME_SCANNER_STATE_EATING_WS | MIME_SCANNER_STATE_DONE.

#[export] Instance MIMEScannerState_eq_dec : EqDecision MIMEScannerState.
Proof. solve_decision. Defined.

Inductive MIMEScannerType := MIME_SCANNER_TYPE_LINE | MIME_SCANNER_TYPE_FIELD.

#[export] Instance MIMEScannerType_eq_dec : EqDecision MIMEScannerType.
Proof. solve_decision. Defined.

Record MIMEScanner := mkScanner { m_line : list Z; m_line_size : Z; m_state : MIMEScannerState }.

Definition _mime_scanner_init : MIMEScanner := mkScanner [] 0 MIME_SCANNER_STATE_START.
Definition mime_scanner_init : MIMEScanner := _mime_scanner_init.
Definition mime_scanner_clear (S : MIMEScanner) : MIMEScanner := _mime_scanner_init.

(** ** The line buffer *)

(** [while (free_size < data_size)]: the size the buffer grows to. *)
Fixpoint grow_line (fuel : nat) (line_length data_size line_size free_size : Z) : option Z :=
  match fuel with
  | O => None
  | S fuel' =>
    if free_size <? data_size
    then let line_size' := i32 (line_size * 2) in grow_line fuel' line_length data_size line_size' (i32 (line_size' - line_length))
    else Some line_size
  end.

Definition mime_scanner_append (S : MIMEScanner) (data : list Z) : option MIMEScanner :=
  let line_length := Z.of_nat (length (m_line S)) in
  let data_size := Z.of_nat (length data) in
  let free_size := i32 (m_line_size S - line_length) in
  line_size ← (if data_size >? free_size
               then grow_line 33 line_length data_size (if m_line_size S =? 0 then 128 else m_line_size S) free_size
               else Some (m_line_size S));
  if line_length + data_size <=? line_size then Some (mkScanner (m_line S ++ data) line_size (m_state S)) else None.

(** [if (m_line_length && m_line[m_line_length - 1] == c) --m_line_length]. *)
Definition drop_last_char (c : Z) (l : list Z) : option (list Z) :=
  match last l with Some d => if d =? c then Some (take (length l - 1) l) else None | None => None end.

(** The end of the line is taken off before a continuation line. *)
Definition strip_line_end (l : list Z) : list Z :=
  match drop_last_char CHAR_LF l with
  | Some l1 => default l1 (drop_last_char CHAR_CR l1)
  | None => l
  end.

(** ** The switch

    [memchr] for the end of the line: the bytes through it, and those after. *)
Fixpoint span_lf (s : list Z) : option (list Z * list Z) :=
  match s with
  | [] => None
  | c :: s' => if c =? CHAR_LF then Some ([c], s') else '(l, r) ← span_lf s'; Some (c :: l, r)
  end.

(** What a case does: whether it jumps to [loop] or breaks, the new state, and
    the bytes before and after [raw_input_c]. *)
Definition Switch : Type := bool * MIMEScannerState * list Z * list Z.

Section switch.
Variables (scan_type : MIMEScannerType) (eof : bool).

Definition case_scanning_for_continuation (pend rest : list Z) : Switch :=
  match rest with
  | [] => (false, if eof then MIME_SCANNER_STATE_DONE else MIME_SCANNER_STATE_SCANNING_FOR_CONTINUATION, pend, [])
  | c :: _ => (false, if negb (is_ws c) then MIME_SCANNER_STATE_DONE else MIME_SCANNER_STATE_EATING_WS, pend, rest)
  end.

Definition case_scanning_for_lf (pend rest : list Z) : Switch :=
  match span_lf rest with
  | None => (false, MIME_SCANNER_STATE_SCANNING_FOR_LF, pend ++ rest, [])
  | Some (l, r) =>
    if bool_decide (scan_type = MIME_SCANNER_TYPE_LINE) then (false, MIME_SCANNER_STATE_DONE, pend ++ l, r)
    else case_scanning_for_continuation (pend ++ l) r
  end.

Definition case_char_2 (pend rest : list Z) : Switch :=
  match rest with
  | [] => (false, MIME_SCANNER_STATE_CHAR_2, pend, [])
  | c :: r => if is_lf c then (false, MIME_SCANNER_STATE_DONE, pend ++ [c], r) else case_scanning_for_lf (pend ++ [c]) r
  end.

Definition case_start (pend rest : list Z) : Switch :=
  match rest with
  | [] => (false, MIME_SCANNER_STATE_START, pend, [])
  | c :: r =>
    if is_cr c then case_char_2 (pend ++ [c]) r
    else if is_lf c then (false, MIME_SCANNER_STATE_DONE, pend ++ [c], r)
    else (true, MIME_SCANNER_STATE_SCANNING_FOR_LF, pend ++ [c], r)
  end.

Fixpoint eat_ws (s : list Z) : list Z :=
  match s with [] => [] | c :: s' => if is_ws c then eat_ws s' else s end.

Definition case_eating_ws (rest : list Z) : Switch :=
  match eat_ws rest with
  | [] => (false, MIME_SCANNER_STATE_EATING_WS, [], [])
  | r => (true, MIME_SCANNER_STATE_SCANNING_FOR_LF, [], r)
  end.

Definition scan_switch (st : MIMEScannerState) (pend rest : list Z) : option Switch :=
  match st with
  | MIME_SCANNER_STATE_START => Some (case_start pend rest)
  | MIME_SCANNER_STATE_CHAR_2 => Some (case_char_2 pend rest)
  | MIME_SCANNER_STATE_SCANNING_FOR_LF => Some (case_scanning_for_lf pend rest)
  | MIME_SCANNER_STATE_SCANNING_FOR_CONTINUATION => Some (case_scanning_for_continuation pend rest)
  | MIME_SCANNER_STATE_EATING_WS => Some (case_eating_ws rest)
  | MIME_SCANNER_STATE_DONE => None
  end.

(** ** A line *)

(** The result, the input that is left, the output and whether it is part of the
    input, and the scanner. *)
Record Scan := mkScan {
  scan_result : MIMEParseResult; raw_rest : list Z; output : list Z; output_shares_raw_input : bool; scanner : MIMEScanner
}.

(** After the switch: the data is kept in the line buffer unless it is a whole
    line by itself.  The output and the scanner. *)
Definition save_data (st : MIMEScannerState) (pend : list Z) (S : MIMEScanner) : option (list Z * bool * MIMEScanner) :=
  match st, m_line S with
  | MIME_SCANNER_STATE_DONE, [] => Some (pend, true, S)
  | _, _ =>
    S1 ← match pend with
         | [] => Some S
         | _ =>
           S1 ← mime_scanner_append S pend;
           Some (match st with
                 | MIME_SCANNER_STATE_EATING_WS => mkScanner (strip_line_end (m_line S1)) (m_line_size S1) (m_state S1)
                 | _ => S1
                 end)
         end;
    Some (m_line S1, false, S1)
  end.

Definition set_state (S : MIMEScanner) (st : MIMEScannerState) : MIMEScanner := mkScanner (m_line S) (m_line_size S) st.

Fixpoint scan_loop (fuel : nat) (S : MIMEScanner) (pend rest : list Z) : option Scan :=
  match fuel with
  | O => None
  | Datatypes.S fuel' =>
    '(again, st, pend', rest') ← scan_switch (m_state S) pend rest;
    let S' := set_state S st in
    if (again : bool) then scan_loop fuel' S' pend' rest'
    else
      '(out, shares, S1) ← save_data st pend' S';
      match st, rest' with
      | MIME_SCANNER_STATE_DONE, _ => Some (mkScan PARSE_OK rest' out shares (mkScanner [] (m_line_size S1) MIME_SCANNER_STATE_START))
      | _, _ :: _ => scan_loop fuel' S1 [] rest'
      | _, [] =>
        let r := if negb eof then PARSE_CONT else match m_line S1 with [] => PARSE_DONE | _ => PARSE_ERROR end in
        Some (mkScan r [] out shares S1)
      end
  end.

Definition scan_fuel (raw_input : list Z) : nat := 3 * length raw_input + 3.

Definition scan_general (S : MIMEScanner) (raw_input : list Z) : option Scan := scan_loop (scan_fuel raw_input) S [] raw_input.

(** The fast path: a whole line in the input that needs no look further. *)
Definition scan_fastpath (S : MIMEScanner) (raw_input : list Z) : option (list Z * list Z) :=
  match m_line S, m_state S, raw_input with
  | [], MIME_SCANNER_STATE_START, c :: r =>
    if c >? 13 then
      match span_lf r with
      | Some (l, r') =>
        if bool_decide (scan_type = MIME_SCANNER_TYPE_LINE) || match r' with d :: _ => negb (is_ws d) | [] => false end
        then Some (c :: l, r') else None
      | None => None
      end
    else match r with d :: r' => if is_cr c && is_lf d then Some ([c; d], r') else None | [] => None end
  | _, _, _ => None
  end.

Definition mime_scanner_get (S : MIMEScanner) (raw_input : list Z) : option Scan :=
  match scan_fastpath S raw_input with
  | Some (line, rest) => Some (mkScan PARSE_OK rest line true S)
  | None => scan_general S raw_input
  end.
End switch.

(** * Theorems on the scanner of header lines: what one call does, as one function
    of the bytes; that the fast path agrees with the general one; and that the
    lines do not depend on how the input is cut, except at one place. *)

Notation START := MIME_SCANNER_STATE_START (only parsing).
Notation CHAR_2 := MIME_SCANNER_STATE_CHAR_2 (only parsing).
Notation FOR_LF := MIME_SCANNER_STATE_SCANNING_FOR_LF (only parsing).
Notation FOR_CONT := MIME_SCANNER_STATE_SCANNING_FOR_CONTINUATION (only parsing).
Notation EATING_WS := MIME_SCANNER_STATE_EATING_WS (only parsing).
Notation DONE := MIME_SCANNER_STATE_DONE (only parsing).

(** ** The reference: a machine that reads one byte at a time

    From the state [st] with [line] collected: the complete line and the bytes
    after it, or the state in which the bytes ran out. *)
Section reference.
Variable scan_type : MIMEScannerType.

Fixpoint unfold_line (st : MIMEScannerState) (line s : list Z) : (list Z * list Z) + (MIMEScannerState * list Z) :=
  match s with
  | [] => inr (st, line)
  | c :: r =>
    let in_line :=
      if is_lf c then if bool_decide (scan_type = MIME_SCANNER_TYPE_LINE) then inl (line ++ [c], r) else unfold_line FOR_CONT (line ++ [c]) r
      else unfold_line FOR_LF (line ++ [c]) r in
    match st with
    | START => if is_cr c then unfold_line CHAR_2 (line ++ [c]) r else if is_lf c then inl (line ++ [c], r) else unfold_line FOR_LF (line ++ [c]) r
    | CHAR_2 => if is_lf c then inl (line ++ [c], r) else unfold_line FOR_LF (line ++ [c]) r
    | FOR_LF => in_line
    | FOR_CONT => if is_ws c then unfold_line EATING_WS (strip_line_end line) r else inl (line, s)
    | EATING_WS => if is_ws c then unfold_line EATING_WS line r else in_line
    | DONE => inl (line, s)
    end
  end.

Lemma unfold_for_lf line s : unfold_line FOR_LF line s =
  match span_lf s with
  | None => inr (FOR_LF, line ++ s)
  | Some (l, r) => if bool_decide (scan_type = MIME_SCANNER_TYPE_LINE) then inl (line ++ l, r) else unfold_line FOR_CONT (line ++ l) r
  end.
Proof.
  revert line. induction s as [|c s IH]; intros line; simpl; [by rewrite app_nil_r|]. unfold is_lf. destruct (c =? CHAR_LF); [done|].
  rewrite IH. destruct (span_lf s) as [[l r]|]; simpl; by rewrite <- app_assoc.
Qed.

Lemma unfold_eating line s : unfold_line EATING_WS line s =
  match eat_ws s with [] => inr (EATING_WS, line) | r => unfold_line FOR_LF line r end.
Proof. revert line. induction s as [|c s IH]; intros line; [done|]. cbn [unfold_line eat_ws]. destruct (is_ws c); [apply IH|done]. Qed.
End reference.

Lemma span_lf_length s l r : span_lf s = Some (l, r) -> s = l ++ r /\ l <> [] /\ last l = Some CHAR_LF.
Proof.
  revert l r. induction s as [|c s IH]; intros l r; simpl; [done|].
  case_match eqn:E; [intros [= <- <-]; apply Z.eqb_eq in E; by subst|].
  destruct (span_lf s) as [[l' r']|]; simpl; [|done]. intros [= <- <-]. destruct (IH l' r') as (-> & N & L); [done|].
  split_and!; [done..|]. destruct l'; [done|]. exact L.
Qed.

Lemma eat_ws_length s : (length (eat_ws s) <= length s)%nat.
Proof. induction s as [|c s IH]; simpl; [lia|]. case_match; simpl; lia. Qed.

Lemma eat_ws_head s c r : eat_ws s = c :: r -> is_ws c = false.
Proof. induction s as [|d s IH]; simpl; [done|]. case_match eqn:E; [done|]. by intros [= <- <-]. Qed.

(** ** The line buffer *)

Definition MAX_LINE : Z := 2 ^ 30.

(** The size of the line buffer is zero or a power of two, and it holds the
    line. *)
Definition scanner_ok (S : MIMEScanner) : Prop :=
  Z.of_nat (length (m_line S)) <= m_line_size S /\
  (m_line_size S = 0 \/ exists k, 8 <= k <= 30 /\ m_line_size S = 2 ^ k).

Lemma i32_id x : - 2 ^ 31 <= x < 2 ^ 31 -> i32 x = x.
Proof. intros. apply wraps_id; [lia|]. done. Qed.

Lemma grow_line_ok fuel len n k : 7 <= k <= 30 -> 0 <= len -> len <= 2 ^ k -> len + n <= MAX_LINE -> (31 <= Z.of_nat fuel + k) ->
  exists k', k <= k' <= 30 /\ grow_line fuel len n (2 ^ k) (i32 (2 ^ k - len)) = Some (2 ^ k') /\ len + n <= 2 ^ k'.
Proof.
  revert k. induction fuel as [|fuel IH]; intros k Hk Hl Hlk Hn Hf; [lia|].
  assert (B : 2 ^ k <= 2 ^ 30) by (apply Z.pow_le_mono_r; lia).
  simpl. rewrite i32_id by lia. destruct (Z.ltb_spec (2 ^ k - len) n).
  - assert (k < 30). { destruct (decide (k = 30)) as [->|]; [unfold MAX_LINE in Hn; lia|lia]. }
    assert (P : 2 ^ (k + 1) = 2 ^ k * 2) by (rewrite Z.pow_add_r by lia; lia).
    assert (2 ^ (k + 1) <= 2 ^ 30) by (apply Z.pow_le_mono_r; lia).
    rewrite (i32_id (2 ^ k * 2)), <- P by lia.
    destruct (IH (k + 1)) as (k' & ? & ? & ?); [lia|done|rewrite P; lia|done|lia|]. exists k'. split_and!; [lia..|done|done].
  - exists k. split_and!; [lia..|done|lia].
Qed.

Lemma append_ok S data : scanner_ok S -> Z.of_nat (length (m_line S) + length data) <= MAX_LINE ->
  exists size, mime_scanner_append S data = Some (mkScanner (m_line S ++ data) size (m_state S)) /\
    scanner_ok (mkScanner (m_line S ++ data) size (m_state S)).
Proof.
  intros (L & K) B. unfold mime_scanner_append, scanner_ok. cbn [m_line m_line_size m_state]. rewrite length_app.
  assert (m_line_size S <= 2 ^ 30). { destruct K as [->|(k & ? & ->)]; [lia|]. apply Z.pow_le_mono_r; lia. }
  rewrite i32_id by lia. rewrite Z.gtb_ltb. destruct (Z.ltb_spec (m_line_size S - Z.of_nat (length (m_line S))) (Z.of_nat (length data))).
  - destruct K as [K|(k & Hk & K)].
    + rewrite K in *. simpl Z.eqb. cbv iota. assert (length (m_line S) = 0%nat) as -> by lia.
      change (grow_line 33 (Z.of_nat 0) (Z.of_nat (length data)) 128 (0 - Z.of_nat 0)) with
        (if 0 <? Z.of_nat (length data) then grow_line 32 0 (Z.of_nat (length data)) (2 ^ 8) (i32 (2 ^ 8 - 0)) else Some 128).
      rewrite (proj2 (Z.ltb_lt 0 _)) by lia. destruct (grow_line_ok 32 0 (Z.of_nat (length data)) 8) as (k' & ? & -> & ?); [lia..|].
      simpl. rewrite (proj2 (Z.leb_le _ _)) by lia. eexists. split_and!; [done|lia|]. right. exists k'. split; [lia|done].
    + rewrite K. assert (2 ^ k <> 0) by lia. rewrite (proj2 (Z.eqb_neq _ _)) by done.
      destruct (grow_line_ok 33 (Z.of_nat (length (m_line S))) (Z.of_nat (length data)) k) as (k' & ? & E & ?); [lia..|].
      rewrite i32_id in E by lia. rewrite E. simpl. rewrite (proj2 (Z.leb_le _ _)) by lia. eexists. split_and!; [done|lia|].
      right. exists k'. split; [lia|done].
  - simpl. rewrite (proj2 (Z.leb_le _ _)) by lia. eexists. split_and!; [done|lia|done].
Qed.

Lemma strip_length l : (length (strip_line_end l) <= length l)%nat.
Proof.
  assert (D : forall c x y, drop_last_char c x = Some y -> (length y <= length x)%nat).
  { intros c x y. unfold drop_last_char. destruct (last x); [|done]. case_match; [|done]. intros [= <-]. rewrite length_take. lia. }
  unfold strip_line_end. destruct (drop_last_char CHAR_LF l) as [l1|] eqn:E; [|done]. apply D in E.
  destruct (drop_last_char CHAR_CR l1) as [l2|] eqn:E2; simpl; [apply D in E2|]; lia.
Qed.

Lemma scanner_ok_shorter l l' n st st' : (length l' <= length l)%nat -> scanner_ok (mkScanner l n st) -> scanner_ok (mkScanner l' n st').
Proof. intros ? [? ?]. split; simpl in *; [lia|done]. Qed.

(** ** One call *)

Section call.
Variables (scan_type : MIMEScannerType) (eof : bool).
Notation unfold_line := (unfold_line scan_type).
Notation scan_loop := (scan_loop scan_type eof).

(** A whole line is handed out and the scanner is as new. *)
Definition hands_out (line rest : list Z) (R : Scan) : Prop :=
  scan_result R = PARSE_OK /\ raw_rest R = rest /\ output R = line /\ m_line (scanner R) = [] /\ m_state (scanner R) = START.

(** The outcome of a call, given that of the machine: at the end of the input a
    line that waits for a continuation is whole. *)
Definition outcome (o : (list Z * list Z) + (MIMEScannerState * list Z)) (R : Scan) : Prop :=
  scanner_ok (scanner R) /\
  match o with
  | inl (line, rest) => hands_out line rest R
  | inr (st, line) =>
    if eof && bool_decide (st = FOR_CONT) then hands_out line [] R
    else scan_result R = (if eof then match line with [] => PARSE_DONE | _ => PARSE_ERROR end else PARSE_CONT) /\
         raw_rest R = [] /\ output R = line /\ m_line (scanner R) = line /\ m_state (scanner R) = st
  end.

(** The part of a round after the switch. *)
Definition after_switch (fuel : nat) (S : MIMEScanner) (sw : Switch) : option Scan :=
  let '(again, st, pend', rest') := sw in
  if again then scan_loop fuel (set_state S st) pend' rest'
  else
    '(out, shares, S1) ← save_data st pend' (set_state S st);
    match st, rest' with
    | DONE, _ => Some (mkScan PARSE_OK rest' out shares (mkScanner [] (m_line_size S1) START))
    | _, _ :: _ => scan_loop fuel S1 [] rest'
    | _, [] => Some (mkScan (if negb eof then PARSE_CONT else match m_line S1 with [] => PARSE_DONE | _ => PARSE_ERROR end) [] out shares S1)
    end.

#[local] Arguments after_switch : simpl never.

Lemma scan_loop_round fuel S pend rest :
  scan_loop (Datatypes.S fuel) S pend rest = sw ← scan_switch scan_type eof (m_state S) pend rest; after_switch fuel S sw.
Proof. unfold after_switch. simpl. by destruct (scan_switch _ _ _ _ _) as [[[[? ?] ?] ?]|]. Qed.

Definition fits (S : MIMEScanner) (data : list Z) : Prop := Z.of_nat (length (m_line S) + length data) <= MAX_LINE.

Lemma save_data_ok st pend S : scanner_ok S -> fits S pend -> exists shares S1 out, save_data st pend S = Some (out, shares, S1) /\
  scanner_ok S1 /\ m_state S1 = m_state S /\
  (st = DONE -> out = m_line S ++ pend) /\
  (st <> DONE -> out = m_line S1 /\ m_line S1 = if bool_decide (st = EATING_WS /\ pend <> []) then strip_line_end (m_line S ++ pend) else m_line S ++ pend).
Proof.
  intros HS B. destruct (append_ok S pend HS B) as (n & A & HA). unfold save_data. rewrite A. clear A B.
  destruct (decide (st = DONE /\ m_line S = [])) as [[-> ->]|N]; [by eexists _, _, _|].
  assert (forall X Y : option (list Z * bool * MIMEScanner), match st, m_line S with DONE, [] => X | _, _ => Y end = Y) as ->.
  { intros X Y. destruct st, (m_line S); try done. tauto. }
  destruct pend as [|c pend].
  { rewrite app_nil_r. eexists _, _, _. split_and!; [done..|]. intros _. split; [done|]. rewrite bool_decide_false; [done|]. by intros [_ []]. }
  simpl. destruct (decide (st = EATING_WS)) as [->|NE].
  - eexists _, _, _. split_and!; [done| |done|done|].
    + eapply scanner_ok_shorter, HA. apply strip_length.
    + intros _. split; [done|]. by rewrite bool_decide_true.
  - eexists _, _, _. split; [by destruct st|]. split_and!; by destruct st.
Qed.

(** The end of a round in which the line is complete, or the input used up. *)
Lemma after_done fuel S pend rest : scanner_ok S -> fits S pend ->
  exists R, after_switch fuel S (false, DONE, pend, rest) = Some R /\ outcome (inl (m_line S ++ pend, rest)) R.
Proof.
  intros HS B. unfold after_switch. destruct (save_data_ok DONE pend (set_state S DONE)) as (sh & S1 & out & -> & [H1 K1] & _ & O & _); [done..|].
  eexists. split; [done|]. split; [|by rewrite O]. split; simpl; [lia|done].
Qed.

Lemma after_empty fuel S st pend : scanner_ok S -> fits S pend -> st <> DONE -> (st = EATING_WS -> pend = []) -> (st = FOR_CONT -> eof = false) ->
  exists R, after_switch fuel S (false, st, pend, []) = Some R /\ outcome (inr (st, m_line S ++ pend)) R.
Proof.
  intros HS B D E C. unfold after_switch. destruct (save_data_ok st pend (set_state S st)) as (sh & S1 & out & -> & H1 & M & _ & O); [done..|].
  destruct (O D) as [-> L]. rewrite bool_decide_false in L by tauto. simpl in L, M.
  exists (mkScan (if negb eof then PARSE_CONT else match m_line S1 with [] => PARSE_DONE | _ => PARSE_ERROR end) [] (m_line S1) sh S1).
  split; [by destruct st|]. split; [done|]. simpl. rewrite L.
  destruct eof; simpl; [|done]. rewrite bool_decide_false by (intros X; by specialize (C X)). done.
Qed.
(** A round that starts in [st] with enough fuel. *)
Definition rank (st : MIMEScannerState) : nat := match st with EATING_WS => 1 | _ => 0 end.

Definition at_continuation (st : MIMEScannerState) (rest : list Z) : bool :=
  bool_decide (st = FOR_CONT) && match rest with c :: _ => is_ws c | [] => false end.

Definition loop_ok (fuel : nat) : Prop := forall S pend rest,
  scanner_ok S -> fits S (pend ++ rest) -> m_state S <> DONE -> (pend = [] \/ m_state S = FOR_LF) ->
  at_continuation (m_state S) rest = false -> (3 * length rest + rank (m_state S) < fuel)%nat ->
  exists R, scan_loop fuel S pend rest = Some R /\ outcome (unfold_line (m_state S) (m_line S ++ pend) rest) R.

Section round.
Variables (fuel : nat) (S : MIMEScanner).
Hypothesis HS : scanner_ok S.
Hypothesis IH : loop_ok fuel.

(** A round that comes to the end of a line, or to where the white space of a
    continuation may be, with [pend] read. *)
Lemma round_continuation pend rest : fits S (pend ++ rest) -> pend <> [] -> (3 * length rest + 1 < fuel)%nat ->
  exists R, after_switch fuel S (case_scanning_for_continuation eof pend rest) = Some R /\ outcome (unfold_line FOR_CONT (m_line S ++ pend) rest) R.
Proof.
  intros B N F. assert (B' : fits S pend) by (unfold fits in *; rewrite length_app in B; lia).
  unfold case_scanning_for_continuation. destruct rest as [|c r].
  - destruct eof eqn:HE.
    + destruct (after_done fuel S pend [] HS B') as (R & E & O & H). exists R. split; [exact E|]. split; [done|]. simpl. by rewrite HE.
    + apply after_empty; done.
  - simpl. destruct (is_ws c) eqn:W; simpl negb; cbv iota; [|by apply after_done].
    unfold after_switch. destruct (save_data_ok EATING_WS pend (set_state S EATING_WS)) as (sh & S1 & out & -> & H1 & M & _ & O); [done..|].
    destruct (O ltac:(done)) as [-> L]. rewrite bool_decide_true in L by done. simpl in L, M. simpl mbind.
    destruct (IH S1 [] (c :: r)) as (R & E & H); [done| |by rewrite M|by left|by rewrite M|rewrite M; simpl in *; lia|].
    { unfold fits in *. rewrite L. pose proof (strip_length (m_line S ++ pend)). rewrite !length_app in *. simpl in *. lia. }
    exists R. split; [done|]. rewrite M, L, app_nil_r in H. simpl in H. by rewrite W in H.
Qed.

Lemma round_lf pend rest : fits S (pend ++ rest) -> (3 * length rest <= fuel)%nat ->
  exists R, after_switch fuel S (case_scanning_for_lf scan_type eof pend rest) = Some R /\ outcome (unfold_line FOR_LF (m_line S ++ pend) rest) R.
Proof.
  intros B F. unfold case_scanning_for_lf. rewrite unfold_for_lf. destruct (span_lf rest) as [[l r]|] eqn:E.
  - destruct (span_lf_length _ _ _ E) as (-> & N & _). rewrite <- app_assoc. rewrite app_assoc in B.
    case_bool_decide.
    + apply after_done; [done|]. unfold fits in *. rewrite !length_app in *. lia.
    + apply round_continuation; [done|by destruct pend|]. destruct l; [done|]. rewrite length_app in F. simpl in F. lia.
  - rewrite <- app_assoc. apply after_empty; done.
Qed.

Lemma round_char_2 pend rest : fits S (pend ++ rest) -> (3 * length rest <= fuel)%nat ->
  exists R, after_switch fuel S (case_char_2 scan_type eof pend rest) = Some R /\ outcome (unfold_line CHAR_2 (m_line S ++ pend) rest) R.
Proof.
  intros B F. unfold case_char_2. destruct rest as [|c r]; [apply after_empty; try done; by rewrite app_nil_r in B|].
  assert (B' : fits S ((pend ++ [c]) ++ r)) by by rewrite <- app_assoc. simpl. rewrite <- app_assoc. destruct (is_lf c).
  - apply after_done; [done|]. unfold fits in *. rewrite !length_app in *. lia.
  - apply round_lf; [done|]. simpl in F. lia.
Qed.
End round.

Lemma scan_loop_ok fuel : loop_ok fuel.
Proof.
  induction fuel as [|fuel IH]; intros S pend rest HS B D P C F; [lia|].
  assert (EQ : forall st, set_state S st = mkScanner (m_line S) (m_line_size S) st) by done.
  rewrite scan_loop_round. destruct (m_state S) eqn:St; [destruct P as [->|]; [|done]|destruct P as [->|]; [|done]| |destruct P as [->|]; [|done]|destruct P as [->|]; [|done]|done]; cbn [scan_switch mbind option_bind]; simpl in F.
  - unfold case_start. destruct rest as [|c r]; [by apply after_empty|]. simpl in F. rewrite app_nil_r. simpl.
    destruct (is_cr c); [by apply round_char_2; [..|lia]|]. destruct (is_lf c).
    + apply after_done; [done|]. unfold fits in *. simpl in *. lia.
    + destruct (IH (set_state S FOR_LF) [c] r) as (R & E & H); [done..|by right|done|simpl; lia|]. by exists R.
  - apply round_char_2; [done..|lia].
  - apply round_lf; [done..|lia].
  - destruct rest as [|c r]; simpl.
    + destruct eof eqn:HE; [|by apply after_empty].
      destruct (after_done fuel S [] [] HS B) as (R & E & O & H). exists R. split; [exact E|]. split; [done|]. simpl. by rewrite HE.
    + unfold at_continuation in C. simpl in C. rewrite C. simpl. apply after_done; [done|]. unfold fits in *. simpl in *. lia.
  - unfold case_eating_ws. rewrite unfold_eating. pose proof (eat_ws_length rest). destruct (eat_ws rest) as [|c r] eqn:E.
    + apply after_empty; try done. unfold fits in *. simpl in *. lia.
    + destruct (IH (set_state S FOR_LF) [] (c :: r)) as (R & E' & H'); [done| |done|by left|done|simpl in *; lia|by exists R].
      unfold fits in *. simpl in *. lia.
Qed.

(** The general path from the start of a call.  Where the input begins with white
    space after a line, the end of that line is not taken off. *)
Lemma scan_general_ok S raw : scanner_ok S -> fits S raw -> m_state S <> DONE -> exists R, scan_general scan_type eof S raw = Some R /\
  outcome (unfold_line (if at_continuation (m_state S) raw then EATING_WS else m_state S) (m_line S) raw) R.
Proof.
  intros HS B D. unfold scan_general, scan_fuel. destruct (at_continuation (m_state S) raw) eqn:C.
  - unfold at_continuation in C. apply andb_true_iff in C as [C W]. apply bool_decide_eq_true in C.
    destruct raw as [|c r]; [done|]. replace (3 * length (c :: r) + 3)%nat with (Datatypes.S (3 * length (c :: r) + 2)) by lia.
    rewrite scan_loop_round, C. cbn [scan_switch mbind option_bind case_scanning_for_continuation]. rewrite W. simpl negb. cbv iota.
    destruct (scan_loop_ok (3 * length (c :: r) + 2) (set_state S EATING_WS) [] (c :: r)) as (R & E & O); [done..|by left|done|simpl; lia|].
    exists R. simpl m_state in O. simpl m_line in O. by rewrite app_nil_r in O.
  - destruct (scan_loop_ok (3 * length raw + 3) S [] raw) as (R & E & O); [done..|by left|done| |exists R; by rewrite app_nil_r in O].
    destruct (m_state S); simpl; lia.
Qed.
End call.

(** The fast path is the general path: the same line, the same rest, the same
    scanner. *)
Theorem scan_fastpath_agrees scan_type eof S raw line rest : scan_fastpath scan_type S raw = Some (line, rest) ->
  scan_general scan_type eof S raw = Some (mkScan PARSE_OK rest line true S).
Proof.
  destruct S as [l n st]. unfold scan_fastpath. simpl. destruct l; [|done]. destruct st; try done. destruct raw as [|c r]; [done|].
  unfold scan_general, scan_fuel. replace (3 * length (c :: r) + 3)%nat with (Datatypes.S (Datatypes.S (3 * length (c :: r) + 1))) by lia.
  destruct (Z.gtb_spec c 13) as [G|G].
  - destruct (span_lf r) as [[l r']|] eqn:E; [|done]. intros H. cbn [scan_loop scan_switch m_state mbind option_bind case_start].
    unfold is_cr, is_lf. rewrite !(proj2 (Z.eqb_neq c _)) by (unfold CHAR_CR, CHAR_LF; lia). simpl. unfold case_scanning_for_lf. rewrite E.
    case_bool_decide; simpl in *; [by injection H as <- <-|]. destruct r' as [|d r']; [done|]. simpl. destruct (is_ws d); [done|].
    simpl in *. by injection H as <- <-.
  - destruct r as [|d r']; [done|]. destruct (is_cr c) eqn:C; [|done]. destruct (is_lf d) eqn:L; [|done]. intros [= <- <-].
    cbn [scan_loop scan_switch m_state mbind option_bind case_start]. rewrite C. simpl. by rewrite L.
Qed.

(** A call of the scanner, on any input, in any state. *)
Lemma scanner_get_ok scan_type eof S raw : scanner_ok S -> fits S raw -> m_state S <> DONE -> exists R, mime_scanner_get scan_type eof S raw = Some R /\
  outcome eof (unfold_line scan_type (if at_continuation (m_state S) raw then EATING_WS else m_state S) (m_line S) raw) R.
Proof.
  intros HS B D. destruct (scan_general_ok scan_type eof S raw HS B D) as (R & E & O). unfold mime_scanner_get.
  destruct (scan_fastpath scan_type S raw) as [[line rest]|] eqn:F; [|by exists R].
  apply (scan_fastpath_agrees _ eof) in F. rewrite F in E. injection E as <-. by eexists.
Qed.

(** ** Input that arrives in pieces *)

Section pieces.
Variable scan_type : MIMEScannerType.
Notation unfold_line := (unfold_line scan_type).

Lemma unfold_app st line p q : unfold_line st line (p ++ q) =
  match unfold_line st line p with inl (l, r) => inl (l, r ++ q) | inr (st', line') => unfold_line st' line' q end.
Proof.
  revert st line. induction p as [|c p IH]; intros st line; [done|]. rewrite <- app_comm_cons. cbn [MimeScanner.unfold_line].
  destruct st; rewrite ?IH; try done; repeat (case_match; try done).
Qed.

Lemma unfold_cont_lf st line s line' : unfold_line st line s = inr (FOR_CONT, line') -> (s = [] /\ st = FOR_CONT) \/ last s = Some CHAR_LF.
Proof.
  revert st line. induction s as [|c s IH]; intros st line; [intros [= -> ->]; by left|]. intros H. right. cbn [MimeScanner.unfold_line] in H.
  assert (G : forall st' l', unfold_line st' l' s = inr (FOR_CONT, line') -> (st' = FOR_CONT -> c = CHAR_LF) -> last (c :: s) = Some CHAR_LF).
  { intros st' l' E L. destruct (IH _ _ E) as [[-> ->]|E']; [simpl; by rewrite L|]. by destruct s. }
  unfold is_lf in H. destruct (Z.eqb_spec c CHAR_LF); destruct st; try done; repeat (case_match; try done); by eapply G.
Qed.

Definition starts_ws (p : list Z) : bool := match p with c :: _ => is_ws c | [] => false end.

(** No piece begins with white space right after the end of a line. *)
Fixpoint cuts_ok (after_lf : bool) (pieces : list (list Z)) : bool :=
  match pieces with
  | [] => true
  | p :: ps => negb (after_lf && starts_ws p) && cuts_ok (match last p with Some c => is_lf c | None => after_lf end) ps
  end.

Lemma cuts_ok_next b p ps st line st' line' : cuts_ok b (p :: ps) = true -> (st = FOR_CONT -> b = true) ->
  unfold_line st line p = inr (st', line') ->
  exists b', cuts_ok b' ps = true /\ (st' = FOR_CONT -> b' = true).
Proof.
  simpl. intros [_ C]%andb_true_iff HB E. eexists. split; [exact C|]. intros ->.
  destruct (unfold_cont_lf _ _ _ _ E) as [[-> ->]|L]; [by apply HB|]. by rewrite L.
Qed.

(** The line that pieces of input give, handed to the scanner one after the
    other. *)
Fixpoint scan_pieces (S : MIMEScanner) (pieces : list (list Z)) : option (Scan * list (list Z)) :=
  match pieces with
  | [] => Some (mkScan PARSE_CONT [] (m_line S) false S, [])
  | p :: ps =>
    R ← mime_scanner_get scan_type false S p;
    match scan_result R with PARSE_CONT => scan_pieces (scanner R) ps | _ => Some (R, ps) end
  end.

Lemma unfold_not_done st line s st' line' : st <> DONE -> unfold_line st line s = inr (st', line') -> st' <> DONE.
Proof.
  revert st line. induction s as [|c s IH]; intros st line D; [by intros [= <- <-]|]. cbn [MimeScanner.unfold_line].
  destruct st; try done; repeat (case_match; try done); by apply IH.
Qed.

Lemma unfold_length st line s st' line' : unfold_line st line s = inr (st', line') -> (length line' <= length line + length s)%nat.
Proof.
  revert st line. induction s as [|c s IH]; intros st line; [intros [= <- <-]; simpl; lia|]. cbn [MimeScanner.unfold_line].
  pose proof (strip_length line).
  destruct st; try done; repeat (case_match; try done); intros E%IH; rewrite ?length_app in E; simpl in *; lia.
Qed.

(** The line a text begins with does not depend on how the text arrives, as long
    as no cut falls between the end of a line and the white space of its
    continuation. *)
Lemma scan_pieces_ok S pieces b : scanner_ok S -> fits S (concat pieces) -> m_state S <> DONE ->
  cuts_ok b pieces = true -> (m_state S = FOR_CONT -> b = true) ->
  exists R ps, scan_pieces S pieces = Some (R, ps) /\ scanner_ok (scanner R) /\
  match unfold_line (m_state S) (m_line S) (concat pieces) with
  | inl (line, rest) => hands_out line (raw_rest R) R /\ raw_rest R ++ concat ps = rest
  | inr (st, line) => scan_result R = PARSE_CONT /\ ps = [] /\ m_line (scanner R) = line /\ m_state (scanner R) = st
  end.
Proof.
  revert S b. induction pieces as [|p ps IH]; intros S b HS B D C HB; [by eexists _, []|].
  simpl concat in *. rewrite unfold_app. cbn [scan_pieces].
  assert (B' : fits S p) by (unfold fits in *; rewrite length_app in B; lia).
  destruct (scanner_get_ok scan_type false S p HS B' D) as (R & -> & H1 & O). cbn [mbind option_bind].
  assert (at_continuation (m_state S) p = false) as NC.
  { unfold at_continuation. case_bool_decide as E; [|done]. rewrite (HB E) in C. simpl in C.
    apply andb_true_iff in C as [C _]. by apply negb_true_iff in C. }
  rewrite NC in O. destruct (unfold_line (m_state S) (m_line S) p) as [[line rest]|[st line]] eqn:E.
  - destruct O as (R1 & R2 & R3 & R4 & R5). rewrite R1. exists R, ps. rewrite R2. done.
  - simpl in O. destruct O as (R1 & R2 & R3 & R4 & R5). rewrite R1.
    destruct (cuts_ok_next _ _ _ _ _ _ _ C HB E) as (b' & C' & HB').
    pose proof (unfold_length _ _ _ _ _ E). pose proof (unfold_not_done _ _ _ _ _ D E).
    destruct (IH (scanner R) b') as (R' & ps' & E' & O'); [done| |by rewrite R5|done|by rewrite R5|].
    { unfold fits in *. rewrite R4. rewrite length_app in B. lia. }
    exists R', ps'. by rewrite R4, R5 in O'.
Qed.
End pieces.
