(* ===== verification/MimeHdr.v ===== *)
(** The storage of MIME headers ([proxy/hdrs/MIME.cc], [MIME.h]; the iterator of
    comma-separated values from [HdrUtils.cc], [HdrUtils.h]).

    A header keeps its fields in blocks of 16 slots; a block is the list of its
    slots below [m_freetop], and the list of the blocks is that of the links
    [m_next], its last one [m_fblock_list_tail].  A pointer to a field is the number
    of its slot.  A string pointer is the list of the characters from it on; the
    length kept beside it says how many belong to the string.  [None] as a result
    is a crash: a dereference of the null pointer, or a loop that does not end. *)

From S2P Require Import Prelude ParseRules MimeDate HdrToken MimePrint URL HdrFieldInfo.
From Stdlib Require Import Ascii.

Inductive MIMEReadiness :=
  MIME_FIELD_SLOT_READINESS_EMPTY | MIME_FIELD_SLOT_READINESS_DETACHED | MIME_FIELD_SLOT_READINESS_LIVE | MIME_FIELD_SLOT_READINESS_DELETED.

#[export] Instance MIMEReadiness_eq_dec : EqDecision MIMEReadiness.
Proof. solve_decision. Defined.

(** The two bits of [m_flags] are [m_dup_head] and [m_cooked]. *)
Record MIMEField := mkField {
  m_ptr_name : list Z; m_ptr_value : option (list Z); m_next_dup : option nat; m_wks_idx : Z; m_len_name : Z; m_len_value : Z;
  m_n_v_raw_printable : bool; m_n_v_raw_printable_pad : Z; m_readiness : MIMEReadiness; m_dup_head : bool; m_cooked : bool
}.

Definition MIME_FIELD_BLOCK_SLOTS : nat := 16.
Definition MIME_FIELD_SLOTNUM_MASK : Z := 15.
Definition MIME_FIELD_SLOTNUM_MAX : Z := MIME_FIELD_SLOTNUM_MASK - 1.
Definition MIME_FIELD_SLOTNUM_UNKNOWN : Z := MIME_FIELD_SLOTNUM_MAX.

Record MIMECookedCacheControl := mkCC { m_mask : Z; m_secs_max_age : Z; m_secs_s_maxage : Z; m_secs_max_stale : Z; m_secs_min_fresh : Z }.
Record MIMECooked := mkCooked { m_cache_control : MIMECookedCacheControl; m_no_cache : bool }.

Record MIMEHdrImpl := mkHdr { m_presence_bits : Z; m_slot_accelerators : list Z; m_cooked_stuff : MIMECooked; m_fblocks : list (list MIMEField) }.

(** ** Fields *)

Definition is_live (f : MIMEField) : bool := bool_decide (m_readiness f = MIME_FIELD_SLOT_READINESS_LIVE).
Definition has_dups (f : MIMEField) : bool := negb (is_null (m_next_dup f)).

Definition set_next_dup (n : option nat) (f : MIMEField) : MIMEField :=
  mkField (m_ptr_name f) (m_ptr_value f) n (m_wks_idx f) (m_len_name f) (m_len_value f) (m_n_v_raw_printable f) (m_n_v_raw_printable_pad f)
    (m_readiness f) (m_dup_head f) (m_cooked f).
Definition set_readiness (r : MIMEReadiness) (f : MIMEField) : MIMEField :=
  mkField (m_ptr_name f) (m_ptr_value f) (m_next_dup f) (m_wks_idx f) (m_len_name f) (m_len_value f) (m_n_v_raw_printable f)
    (m_n_v_raw_printable_pad f) r (m_dup_head f) (m_cooked f).
Definition set_dup_head (b : bool) (f : MIMEField) : MIMEField :=
  mkField (m_ptr_name f) (m_ptr_value f) (m_next_dup f) (m_wks_idx f) (m_len_name f) (m_len_value f) (m_n_v_raw_printable f)
    (m_n_v_raw_printable_pad f) (m_readiness f) b (m_cooked f).

(** The string of a pointer and a length. *)
Definition str_of (p : list Z) (len : Z) : list Z := take (Z.to_nat len) p.
Definition field_name (f : MIMEField) : list Z := str_of (m_ptr_name f) (m_len_name f).
Definition field_value (f : MIMEField) : list Z := str_of (default [] (m_ptr_value f)) (m_len_value f).

(** [memset] to zero, then the two members that are not. *)
Definition mime_field_init : MIMEField := mkField [] None None (-1) 0 0 false 0 MIME_FIELD_SLOT_READINESS_DETACHED false false.

Definition field_at (mh : MIMEHdrImpl) (n : nat) : option MIMEField :=
  blk ← m_fblocks mh !! (n / MIME_FIELD_BLOCK_SLOTS)%nat; blk !! (n mod MIME_FIELD_BLOCK_SLOTS)%nat.

Definition set_fblocks (mh : MIMEHdrImpl) (b : list (list MIMEField)) : MIMEHdrImpl :=
  mkHdr (m_presence_bits mh) (m_slot_accelerators mh) (m_cooked_stuff mh) b.

Definition upd (n : nat) (g : MIMEField -> MIMEField) (mh : MIMEHdrImpl) : MIMEHdrImpl :=
  set_fblocks mh (alter (alter g (n mod MIME_FIELD_BLOCK_SLOTS)%nat) (n / MIME_FIELD_BLOCK_SLOTS)%nat (m_fblocks mh)).

(** ** Presence bits and slot accelerators *)

Section storage.
Context `{TokenDFA} (hash_table : list (option Z)).

Definition wks_of (name : string) : Z := hdrtoken_tokenize hash_table None (chars name).

Definition mime_field_presence_get (mh : MIMEHdrImpl) (wks_idx : Z) : bool :=
  let mask := hdrtoken_index_to_mask wks_idx in
  if mask =? 0 then true else negb (Z.land (m_presence_bits mh) mask =? 0).

Definition set_presence (mh : MIMEHdrImpl) (b : Z) : MIMEHdrImpl := mkHdr b (m_slot_accelerators mh) (m_cooked_stuff mh) (m_fblocks mh).

Definition mime_hdr_presence_set (wks_idx : Z) (mh : MIMEHdrImpl) : MIMEHdrImpl :=
  let mask := hdrtoken_index_to_mask wks_idx in
  if negb (mask =? 0) then set_presence mh (Z.lor (m_presence_bits mh) mask) else mh.

Definition mime_hdr_presence_unset (wks_idx : Z) (mh : MIMEHdrImpl) : MIMEHdrImpl :=
  let mask := hdrtoken_index_to_mask wks_idx in
  if negb (mask =? 0) then set_presence mh (Z.land (m_presence_bits mh) (u64 (Z.lnot mask))) else mh.

Definition mime_hdr_get_accelerator_slotnum (mh : MIMEHdrImpl) (slot_id : Z) : Z :=
  let word := nth (Z.to_nat (slot_id / 8)) (m_slot_accelerators mh) 0 in
  Z.land (Z.shiftr word (slot_id mod 8 * 4)) 15.

Definition mime_hdr_set_accelerator_slotnum (slot_id slot_num : Z) (mh : MIMEHdrImpl) : MIMEHdrImpl :=
  let word_index := Z.to_nat (slot_id / 8) in
  let word := nth word_index (m_slot_accelerators mh) 0 in
  let shift := slot_id mod 8 * 4 in
  let mask := u32 (Z.lnot (u32 (Z.shiftl MIME_FIELD_SLOTNUM_MASK shift))) in
  let graft := u32 (Z.shiftl slot_num shift) in
  mkHdr (m_presence_bits mh) (<[word_index := Z.lor (Z.land word mask) graft]> (m_slot_accelerators mh)) (m_cooked_stuff mh) (m_fblocks mh).

(** [field] is the slot and [f] what is in it. *)
Definition mime_hdr_set_accelerators_and_presence_bits (field : nat) (f : MIMEField) (mh : MIMEHdrImpl) : MIMEHdrImpl :=
  if m_wks_idx f <? 0 then mh
  else
    let mh1 := mime_hdr_presence_set (m_wks_idx f) mh in
    let slot_id := hdrtoken_index_to_slotid (m_wks_idx f) in
    if negb (slot_id =? MIME_SLOTID_NONE) then
      mime_hdr_set_accelerator_slotnum slot_id
        (if Z.of_nat field <? MIME_FIELD_SLOTNUM_UNKNOWN then Z.of_nat field else MIME_FIELD_SLOTNUM_UNKNOWN) mh1
    else mh1.

Definition mime_hdr_unset_accelerators_and_presence_bits (f : MIMEField) (mh : MIMEHdrImpl) : MIMEHdrImpl :=
  if m_wks_idx f <? 0 then mh
  else
    let mh1 := mime_hdr_presence_unset (m_wks_idx f) mh in
    let slot_id := hdrtoken_index_to_slotid (m_wks_idx f) in
    if negb (slot_id =? MIME_SLOTID_NONE) then mime_hdr_set_accelerator_slotnum slot_id MIME_FIELD_SLOTNUM_MAX mh1 else mh1.

(** ** Search *)

(** [strncasecmp(s, t, n) == 0]: a NUL in both ends the comparison. *)
Fixpoint strncasecmp_eq (s t : list Z) (n : nat) : bool :=
  match n with
  | O => true
  | S n' => (ink_tolower (cur s) =? ink_tolower (cur t)) && ((cur s =? 0) || strncasecmp_eq (drop 1 s) (drop 1 t) n')
  end.

Fixpoint search_slots (p : MIMEField -> bool) (slots : list MIMEField) (slot : nat) : option nat :=
  match slots with
  | [] => None
  | f :: slots' => if p f then Some slot else search_slots p slots' (S slot)
  end.

Fixpoint search_blocks (p : MIMEField -> bool) (blocks : list (list MIMEField)) (first : nat) : option nat :=
  match blocks with
  | [] => None
  | b :: blocks' =>
    match search_slots p b first with Some i => Some i | None => search_blocks p blocks' (first + MIME_FIELD_BLOCK_SLOTS) end
  end.

Definition _mime_hdr_field_list_search_by_wks (mh : MIMEHdrImpl) (wks_idx : Z) : option nat :=
  search_blocks (fun f => is_live f && (m_wks_idx f =? wks_idx)) (m_fblocks mh) 0.

Definition _mime_hdr_field_list_search_by_string (mh : MIMEHdrImpl) (name : list Z) : option nat :=
  let len := Z.of_nat (length name) in
  search_blocks (fun f => is_live f && (len =? m_len_name f) && strncasecmp_eq (m_ptr_name f) name (Z.to_nat len)) (m_fblocks mh) 0.

Definition _mime_hdr_field_list_search_by_slotnum (mh : MIMEHdrImpl) (slotnum : nat) : option nat :=
  if (slotnum <? MIME_FIELD_BLOCK_SLOTS)%nat then
    match m_fblocks mh with
    | b :: _ => if (length b <=? slotnum)%nat then None else Some slotnum
    | [] => None
    end
  else
    match m_fblocks mh !! (slotnum / MIME_FIELD_BLOCK_SLOTS)%nat with
    | None => None
    | Some b => if (length b <=? slotnum mod MIME_FIELD_BLOCK_SLOTS)%nat then None else Some slotnum
    end.

(** A name is a well-known string, by its index, or any other string. *)
Inductive Name := Wks (wks_idx : Z) | Str (s : list Z).

Definition mime_hdr_field_find (mh : MIMEHdrImpl) (name : Name) : option nat :=
  match name with
  | Wks w =>
    let mask := hdrtoken_index_to_mask w in
    let slot_id := hdrtoken_index_to_slotid w in
    if negb (mask =? 0) && (Z.land (m_presence_bits mh) mask =? 0) then None
    else if negb (slot_id =? MIME_SLOTID_NONE) then
      let slotnum := mime_hdr_get_accelerator_slotnum mh slot_id in
      if negb (slotnum =? MIME_FIELD_SLOTNUM_UNKNOWN) then _mime_hdr_field_list_search_by_slotnum mh (Z.to_nat slotnum)
      else _mime_hdr_field_list_search_by_wks mh w
    else _mime_hdr_field_list_search_by_wks mh w
  | Str s => _mime_hdr_field_list_search_by_string mh s
  end.

Definition mime_field_name_get (f : MIMEField) : Name := if m_wks_idx f >=? 0 then Wks (m_wks_idx f) else Str (field_name f).

(** The [idx]-th live field. *)
Fixpoint get_slots (idx : nat) (slots : list MIMEField) (slot : nat) : nat + nat :=
  match slots with
  | [] => inr idx
  | f :: slots' =>
    if is_live f then match idx with O => inl slot | S idx' => get_slots idx' slots' (S slot) end else get_slots idx slots' (S slot)
  end.

Fixpoint get_blocks (idx : nat) (blocks : list (list MIMEField)) (first : nat) : option nat :=
  match blocks with
  | [] => None
  | b :: blocks' =>
    match get_slots idx b first with inl i => Some i | inr idx' => get_blocks idx' blocks' (first + MIME_FIELD_BLOCK_SLOTS) end
  end.

Definition mime_hdr_field_get (mh : MIMEHdrImpl) (idx : nat) : option nat := get_blocks idx (m_fblocks mh) 0.

Definition mime_hdr_field_get_slotnum (mh : MIMEHdrImpl) (slotnum : nat) : option nat := _mime_hdr_field_list_search_by_slotnum mh slotnum.

Definition mime_hdr_fields_count (mh : MIMEHdrImpl) : nat := list_sum ((fun b => length (filter (fun f => is_live f = true) b)) <$> m_fblocks mh).

(** A pointer that is in no block has no slot number. *)
Definition mime_hdr_field_slotnum (mh : MIMEHdrImpl) (field : nat) : Z :=
  if (field <? length (m_fblocks mh) * MIME_FIELD_BLOCK_SLOTS)%nat then Z.of_nat field else -1.

(** ** Comma-separated values

    [find_csv] over one value.  The labels [parse_value] and [parse_value_quote]
    are told apart by [quote], the character before [cur] in the second; [l] is
    the characters from [cur] on.  The end, the start and the last character of
    the value found. *)
Fixpoint csv_scan (sep : Z) (quote : option Z) (l : list Z) (cur csv_start : nat) (last_data : option nat) : nat * nat * option nat :=
  match l with
  | [] => (cur, csv_start, last_data)
  | c :: r =>
    match quote with
    | None =>
      if (sep =? ch ",") && negb (bool_decide (r = [])) && (c >? ch ",") then csv_scan sep None r (S cur) csv_start (Some cur)
      else if c =? sep then (cur, csv_start, last_data)
      else if c =? 34 then csv_scan sep (Some c) r (S cur) (if (cur =? csv_start)%nat then S csv_start else csv_start) last_data
      else csv_scan sep None r (S cur) csv_start (if is_ws c then last_data else Some cur)
    | Some prev =>
      if (c =? 34) && negb (prev =? 92) then csv_scan sep None r (S cur) csv_start last_data
      else csv_scan sep (Some c) r (S cur) csv_start (Some cur)
    end
  end.

Fixpoint csv_skip_ws (l : list Z) (cur : nat) : list Z * nat :=
  match l with [] => (l, cur) | c :: r => if is_ws c then csv_skip_ws r (S cur) else (l, cur) end.

Definition find_csv_in (sep : Z) (value : list Z) (start : nat) : nat * option nat * option nat :=
  if (length value <=? start)%nat then (start, None, None)
  else
    match csv_skip_ws (drop start value) start with
    | ([], cur) => (cur, None, None)
    | (l, cur) => let '(e, s, d) := csv_scan sep None l cur cur None in (e, Some s, d)
    end.

Record HdrCsvIter := mkIter {
  m_value : list Z; m_csv_start : option nat; m_csv_len : Z; m_csv_end : nat; m_cur_field : nat; m_follow_dups : bool; m_separator : Z
}.

Definition field_init (mh : MIMEHdrImpl) (m : nat) (it : HdrCsvIter) : option HdrCsvIter :=
  f ← field_at mh m;
  Some (mkIter (field_value f) (if is_null (m_ptr_value f) then None else Some 0%nat) (m_csv_len it) (m_csv_end it) m (m_follow_dups it) (m_separator it)).

Fixpoint find_csv (fuel : nat) (mh : MIMEHdrImpl) (it : HdrCsvIter) : option HdrCsvIter :=
  match fuel with
  | O => None
  | S fuel' =>
    let '(e, s, d) := find_csv_in (m_separator it) (m_value it) (default 0%nat (m_csv_start it)) in
    let found := fun len => mkIter (m_value it) s len e (m_cur_field it) (m_follow_dups it) (m_separator it) in
    match d with
    | Some last_data => Some (found (Z.of_nat last_data - Z.of_nat (default 0%nat s) + 1))
    | None =>
      f ← field_at mh (m_cur_field it);
      match m_next_dup f with
      | Some n => if m_follow_dups it then it' ← field_init mh n it; find_csv fuel' mh it' else Some (found 0)
      | None => Some (found 0)
      end
    end
  end.

(** The dups a search may go through. *)
Definition dups_fuel (mh : MIMEHdrImpl) : nat := S (length (concat (m_fblocks mh))).

Definition get_current (it : HdrCsvIter) : option (list Z) :=
  s ← m_csv_start it; Some (str_of (drop s (m_value it)) (m_csv_len it)).

Definition get_first (sep : Z) (mh : MIMEHdrImpl) (m : nat) (follow_dups : bool) : option HdrCsvIter :=
  it ← field_init mh m (mkIter [] None 0 0 m follow_dups sep);
  match m_csv_start it with Some _ => find_csv (dups_fuel mh) mh it | None => Some it end.

Definition get_next (mh : MIMEHdrImpl) (it : HdrCsvIter) : option HdrCsvIter :=
  match m_csv_start it with
  | Some _ =>
    find_csv (dups_fuel mh) mh
      (mkIter (m_value it) (Some (S (m_csv_end it))) (m_csv_len it) (m_csv_end it) (m_cur_field it) (m_follow_dups it) (m_separator it))
  | None => Some it
  end.

(** [for (s = get_first(...); s != NULL; s = get_next(...))]: the values seen. *)
Fixpoint csv_loop (fuel : nat) (mh : MIMEHdrImpl) (it : HdrCsvIter) : option (list (list Z)) :=
  match fuel with
  | O => None
  | S fuel' =>
    match get_current it with
    | None => Some []
    | Some v => it' ← get_next mh it; vs ← csv_loop fuel' mh it'; Some (v :: vs)
    end
  end.

(** Every value ends at a character of its own or opens another field. *)
Definition csv_fuel (mh : MIMEHdrImpl) : nat := S (list_sum ((fun f => S (length (field_value f))) <$> concat (m_fblocks mh))).

Definition csv_values (sep : Z) (mh : MIMEHdrImpl) (m : nat) (follow_dups : bool) : option (list (list Z)) :=
  it ← get_first sep mh m follow_dups; csv_loop (csv_fuel mh) mh it.

Definition count_values (sep : Z) (mh : MIMEHdrImpl) (m : nat) (follow_dups : bool) : option nat := length <$> csv_values sep mh m follow_dups.

Definition get_nth (sep : Z) (mh : MIMEHdrImpl) (m : nat) (n : nat) (follow_dups : bool) : option (option (list Z)) :=
  (fun vs => vs !! n) <$> csv_values sep mh m follow_dups.

(** ** Cooked values *)

Definition MAXINT : Z := 2 ^ 31 - 1.

Definition MIME_WKSIDX_CACHE_CONTROL : Z := wks_of "Cache-Control".
Definition MIME_WKSIDX_PRAGMA : Z := wks_of "Pragma".

Definition set_cooked_stuff (mh : MIMEHdrImpl) (c : MIMECooked) : MIMEHdrImpl := mkHdr (m_presence_bits mh) (m_slot_accelerators mh) c (m_fblocks mh).

(** [changing] is the index of the name of the field that changes, if one is
    given. *)
Definition cooks_cache_control (changing : option Z) : bool := match changing with Some w => negb (w =? MIME_WKSIDX_PRAGMA) | None => true end.
Definition cooks_pragma (changing : option Z) : bool := match changing with Some w => negb (w =? MIME_WKSIDX_CACHE_CONTROL) | None => true end.

Definition mime_hdr_cooked_stuff_init (changing : option Z) (c : MIMECooked) : MIMECooked :=
  mkCooked (if cooks_cache_control changing then mkCC 0 0 0 0 0 else m_cache_control c) (if cooks_pragma changing then false else m_no_cache c).

(** The token a value begins with, and the rest of it. *)
Fixpoint span_token (v : list Z) : list Z * list Z :=
  match v with
  | [] => ([], [])
  | c :: r => if is_token c then let '(t, e) := span_token r in (c :: t, e) else ([], v)
  end.

Definition or_mask (mask : Z) (cc : MIMECookedCacheControl) : MIMECookedCacheControl :=
  mkCC (Z.lor (m_mask cc) mask) (m_secs_max_age cc) (m_secs_s_maxage cc) (m_secs_max_stale cc) (m_secs_min_fresh cc).

Definition cc_with_value : Z :=
  Z.lor (Z.lor (Z.lor MIME_COOKED_MASK_CC_MAX_AGE MIME_COOKED_MASK_CC_S_MAXAGE) MIME_COOKED_MASK_CC_MAX_STALE) MIME_COOKED_MASK_CC_MIN_FRESH.

Definition cook_directive (v : list Z) (cc : MIMECookedCacheControl) : MIMECookedCacheControl :=
  let '(token, c) := span_token v in
  let wks := hdrtoken_tokenize hash_table None token in
  if wks >=? 0 then
    let mask := hdrtoken_index_to_cc_mask hash_table wks in
    let cc1 := or_mask mask cc in
    if negb (Z.land mask cc_with_value =? 0) then
      match mime_parse_integer c with
      | Some (value, _) =>
        if wks =? wks_of "max-age" then mkCC (m_mask cc1) value (m_secs_s_maxage cc1) (m_secs_max_stale cc1) (m_secs_min_fresh cc1)
        else if wks =? wks_of "min-fresh" then mkCC (m_mask cc1) (m_secs_max_age cc1) (m_secs_s_maxage cc1) (m_secs_max_stale cc1) value
        else if wks =? wks_of "max-stale" then mkCC (m_mask cc1) (m_secs_max_age cc1) (m_secs_s_maxage cc1) value (m_secs_min_fresh cc1)
        else if wks =? wks_of "s-maxage" then mkCC (m_mask cc1) (m_secs_max_age cc1) value (m_secs_max_stale cc1) (m_secs_min_fresh cc1)
        else cc1
      | None =>
        if wks =? wks_of "max-stale" then mkCC (m_mask cc1) (m_secs_max_age cc1) (m_secs_s_maxage cc1) MAXINT (m_secs_min_fresh cc1) else cc1
      end
    else cc1
  else cc.

(** [ptr_len_casecmp(s, len, t, ...) == 0]. *)
Definition ptr_len_caseeq (s t : list Z) : bool := bool_decide (ink_tolower <$> s = ink_tolower <$> t).

Definition cook_cache_control (mh : MIMEHdrImpl) (cc : MIMECookedCacheControl) : option MIMECookedCacheControl :=
  match mime_hdr_field_find mh (Wks MIME_WKSIDX_CACHE_CONTROL) with
  | None => Some cc
  | Some m =>
    f ← field_at mh m;
    let mask :=
      if has_dups f then 0
      else if ptr_len_caseeq (field_value f) (chars "public") then MIME_COOKED_MASK_CC_PUBLIC
      else if ptr_len_caseeq (field_value f) (chars "private,no-cache") then Z.lor MIME_COOKED_MASK_CC_PRIVATE MIME_COOKED_MASK_CC_NO_CACHE
      else 0 in
    if mask =? 0 then vs ← csv_values (ch ",") mh m true; Some (foldl (fun cc v => cook_directive v cc) (or_mask mask cc) vs)
    else Some (or_mask mask cc)
  end.

Definition is_no_cache (v : list Z) : bool :=
  let wks := hdrtoken_tokenize hash_table None (span_token v).1 in (wks >=? 0) && (wks =? wks_of "no-cache").

Definition cook_pragma (mh : MIMEHdrImpl) (no_cache : bool) : option bool :=
  match mime_hdr_field_find mh (Wks MIME_WKSIDX_PRAGMA) with
  | None => Some no_cache
  | Some m =>
    f ← field_at mh m;
    if negb (has_dups f) && ptr_len_caseeq (field_value f) (chars "no-cache") then Some true
    else vs ← csv_values (ch ",") mh m true; Some (foldl (fun b v => if is_no_cache v then true else b) no_cache vs)
  end.

Definition recompute_cooked_stuff (changing : option Z) (mh : MIMEHdrImpl) : option MIMEHdrImpl :=
  let c := mime_hdr_cooked_stuff_init changing (m_cooked_stuff mh) in
  cc ← (if cooks_cache_control changing then cook_cache_control mh (m_cache_control c) else Some (m_cache_control c));
  nc ← (if cooks_pragma changing then cook_pragma mh (m_no_cache c) else Some (m_no_cache c));
  Some (set_cooked_stuff mh (mkCooked cc nc)).
End storage.
