(* ===== verification/MimeHdrOps.v ===== *)
(** The operations that change a MIME header ([proxy/hdrs/MIME.cc], and the
    methods of [MIMEHdr] in [MIME.h]): creating, attaching, detaching and deleting
    fields, and setting their names and values.

    As in [MimeHdr], [None] is a crash.  The string heap is not modelled: a string
    that is copied and one that is shared are the same list. *)

From S2P Require Import Prelude ParseRules MimeDate HdrToken MimePrint URL HdrFieldInfo MimeHdr.
From Stdlib Require Import Ascii.

Definition mime_hdr_init : MIMEHdrImpl := mkHdr 0 (replicate 4 (2 ^ 32 - 1)) (mkCooked (mkCC 0 0 0 0 0) false) [[]].
Definition mime_hdr_create : MIMEHdrImpl := mime_hdr_init.
Definition mime_hdr_fields_clear (mh : MIMEHdrImpl) : MIMEHdrImpl := mime_hdr_init.

(** The field a new slot is made for, and the header with it. *)
Definition mime_field_create (mh : MIMEHdrImpl) : nat * MIMEHdrImpl :=
  let blocks := m_fblocks mh in
  let tail := (length blocks - 1)%nat in
  let freetop := length (default [] (blocks !! tail)) in
  if (MIME_FIELD_BLOCK_SLOTS <=? freetop)%nat
  then ((length blocks * MIME_FIELD_BLOCK_SLOTS)%nat, set_fblocks mh (blocks ++ [[mime_field_init]]))
  else ((tail * MIME_FIELD_BLOCK_SLOTS + freetop)%nat, set_fblocks mh (alter (fun b => b ++ [mime_field_init]) tail blocks)).

Section ops.
Context `{TokenDFA} (hash_table : list (option Z)).
Notation CACHE_CONTROL := (MIME_WKSIDX_CACHE_CONTROL hash_table).
Notation PRAGMA := (MIME_WKSIDX_PRAGMA hash_table).

Definition is_cooked_name (wks_idx : Z) : bool := (wks_idx =? CACHE_CONTROL) || (wks_idx =? PRAGMA).

(** The string and the index of a name. *)
Definition name_str (name : Name) : list Z := match name with Wks w => hdrtoken_index_to_wks w | Str s => s end.
Definition name_tokenize (name : Name) : Z := match name with Wks w => hdrtoken_tokenize hash_table (Some w) [] | Str s => hdrtoken_tokenize hash_table None s end.

(** ** Names and values *)

Definition set_name (wks_idx : Z) (ptr : list Z) (len : Z) (f : MIMEField) : MIMEField :=
  mkField ptr (m_ptr_value f) (m_next_dup f) wks_idx len (m_len_value f) (m_n_v_raw_printable f) (m_n_v_raw_printable_pad f)
    (m_readiness f) (m_dup_head f) (m_cooked f || is_cooked_name wks_idx).

Definition set_value (ptr : option (list Z)) (len : Z) (f : MIMEField) : MIMEField :=
  mkField (m_ptr_name f) ptr (m_next_dup f) (m_wks_idx f) (m_len_name f) (wrapu 24 len) false (m_n_v_raw_printable_pad f)
    (m_readiness f) (m_dup_head f) (m_cooked f).

Definition set_raw (printable : bool) (pad : Z) (f : MIMEField) : MIMEField :=
  mkField (m_ptr_name f) (m_ptr_value f) (m_next_dup f) (m_wks_idx f) (m_len_name f) (m_len_value f) printable pad
    (m_readiness f) (m_dup_head f) (m_cooked f).

Definition mime_field_name_set (field : nat) (wks_idx : Z) (name : list Z) (mh : MIMEHdrImpl) : MIMEHdrImpl :=
  let s := default [] (mime_str_u16_set (Some name)) in
  upd field (set_name wks_idx s (Z.of_nat (length s))) mh.

(** [if (is_live() && is_cooked()) recompute_cooked_stuff(field)]. *)
Definition recook (field : nat) (mh : MIMEHdrImpl) : option MIMEHdrImpl :=
  f ← field_at mh field;
  if is_live f && m_cooked f then recompute_cooked_stuff hash_table (Some (m_wks_idx f)) mh else Some mh.

Definition mime_field_value_set (field : nat) (value : option (list Z)) (mh : MIMEHdrImpl) : option MIMEHdrImpl :=
  recook field (upd field (set_value value (Z.of_nat (length (default [] value)))) mh).

Definition mime_field_value_set_int (field : nat) (value : Z) (mh : MIMEHdrImpl) : option MIMEHdrImpl :=
  let '(buf, len) := mime_format_int value 16 in mime_field_value_set field (Some (str_of buf len)) mh.

Definition mime_field_value_set_uint (field : nat) (value : Z) (mh : MIMEHdrImpl) : option MIMEHdrImpl :=
  let '(buf, len) := mime_format_uint value 16 in mime_field_value_set field (Some (str_of buf len)) mh.

Definition mime_field_value_get_int (f : MIMEField) : Z := mime_parse_int (field_value f).
Definition mime_field_value_get_uint (f : MIMEField) : Z := mime_parse_uint (field_value f).

(** Name and value that stay where they are, [n_v_raw_length] characters of a line
    from the name on: the branch of [mime_field_name_value_set] without copies. *)
Definition set_name_value (wks_idx : Z) (name : list Z) (name_length : Z) (value : list Z) (value_length : Z)
    (n_v_raw_printable : bool) (n_v_raw_length : Z) (f : MIMEField) : MIMEField :=
  let n_v_raw_pad := u32 (n_v_raw_length - (name_length + value_length)) in
  let f1 := set_value (Some value) value_length (set_name wks_idx name (u16 name_length) f) in
  if n_v_raw_printable && (n_v_raw_pad <=? 7) then set_raw true n_v_raw_pad f1 else set_raw false (m_n_v_raw_printable_pad f) f1.

Definition mime_field_name_value_set (field : nat) (wks_idx : Z) (name : list Z) (name_length : Z) (value : list Z) (value_length : Z)
    (n_v_raw_printable : bool) (n_v_raw_length : Z) (mh : MIMEHdrImpl) : option MIMEHdrImpl :=
  recook field (upd field (set_name_value wks_idx name name_length value value_length n_v_raw_printable n_v_raw_length) mh).

Definition mime_field_value_append (field : nat) (value : list Z) (prepend_comma : bool) (separator : Z) (mh : MIMEHdrImpl) : option MIMEHdrImpl :=
  f ← field_at mh field;
  let sep := if prepend_comma && negb (m_len_value f =? 0) then [separator; CHAR_SP] else [] in
  let new_str := field_value f ++ sep ++ value in
  recook field (upd field (set_value (Some new_str) (Z.of_nat (length new_str))) mh).

Definition mime_field_create_named (name : Name) (mh : MIMEHdrImpl) : nat * MIMEHdrImpl :=
  let '(field, mh1) := mime_field_create mh in
  (field, mime_field_name_set field (name_tokenize name) (name_str name) mh1).

(** ** Attach and detach *)

(** The walk down the dup list.  [next_slotnum] is not computed again in the
    loop. *)
Fixpoint attach_walk (fuel : nat) (mh : MIMEHdrImpl) (field_slotnum next_slotnum : Z) (prev_dup : nat) (prev_slotnum : Z) (next_dup : option nat)
    : option (nat * Z * option nat) :=
  match fuel with
  | O => None
  | S fuel' =>
    if prev_slotnum <? field_slotnum then
      match next_dup with
      | None => Some (prev_dup, prev_slotnum, next_dup)
      | Some n =>
        if next_slotnum >? field_slotnum then Some (prev_dup, prev_slotnum, next_dup)
        else f ← field_at mh n; attach_walk fuel' mh field_slotnum next_slotnum n next_slotnum (m_next_dup f)
      end
    else Some (prev_dup, prev_slotnum, next_dup)
  end.

(** The field becomes the head of the dups of its name. *)
Definition attach_head (field : nat) (f : MIMEField) (mh : MIMEHdrImpl) : MIMEHdrImpl :=
  mime_hdr_set_accelerators_and_presence_bits field f (upd field (set_dup_head true) mh).

Definition link_field (mh : MIMEHdrImpl) (field : nat) (f : MIMEField) (prev_dup : option nat) : option MIMEHdrImpl :=
  match prev_dup with
  | Some p =>
    pf ← field_at mh p;
    let next_dup := m_next_dup pf in
    let field_slotnum := mime_hdr_field_slotnum mh field in
    let next_slotnum := match next_dup with Some n => mime_hdr_field_slotnum mh n | None => -1 end in
    '(prev, prev_slotnum, next) ← attach_walk (dups_fuel mh) mh field_slotnum next_slotnum p (mime_hdr_field_slotnum mh p) next_dup;
    Some (if prev_slotnum >? field_slotnum
          then attach_head field f (upd prev (set_dup_head false) (upd field (set_next_dup (Some prev)) mh))
          else upd field (set_next_dup next) (upd prev (set_next_dup (Some field)) (upd field (set_dup_head false) mh)))
  | None => Some (attach_head field f mh)
  end.

Definition mime_hdr_field_attach (field : nat) (check_for_dups : bool) (prev_dup : option nat) (mh : MIMEHdrImpl) : option MIMEHdrImpl :=
  f ← field_at mh field;
  if negb (bool_decide (m_readiness f = MIME_FIELD_SLOT_READINESS_DETACHED)) then Some mh
  else
    not_head ← match prev_dup with Some p => pf ← field_at mh p; Some (negb (m_dup_head pf)) | None => Some false end;
    let prev_dup := if check_for_dups || (not_head : bool) then mime_hdr_field_find mh (mime_field_name_get f) else prev_dup in
    mh2 ← link_field (upd field (set_readiness MIME_FIELD_SLOT_READINESS_LIVE) mh) field f prev_dup;
    if negb (is_null (m_ptr_value f)) && m_cooked f then recompute_cooked_stuff hash_table (Some (m_wks_idx f)) mh2 else Some mh2.

(** [while (prev && (prev->m_next_dup != field)) prev = prev->m_next_dup]. *)
Fixpoint find_prev (fuel : nat) (mh : MIMEHdrImpl) (field : nat) (prev : option nat) : option (option nat) :=
  match fuel with
  | O => None
  | S fuel' =>
    match prev with
    | None => Some None
    | Some p => f ← field_at mh p; if bool_decide (m_next_dup f = Some field) then Some prev else find_prev fuel' mh field (m_next_dup f)
    end
  end.

Definition unlink_field (field : nat) (f : MIMEField) (mh : MIMEHdrImpl) : option MIMEHdrImpl :=
  if m_dup_head f then
    match m_next_dup f with
    | None => Some (mime_hdr_unset_accelerators_and_presence_bits f mh)
    | Some n => nf ← field_at mh n; Some (mime_hdr_set_accelerators_and_presence_bits n nf (upd n (set_dup_head true) mh))
    end
  else
    prev ← find_prev (dups_fuel mh) mh field (mime_hdr_field_find mh (mime_field_name_get f));
    p ← prev;
    Some (upd p (set_next_dup (m_next_dup f)) mh).

(** One field. *)
Definition detach_one (field : nat) (mh : MIMEHdrImpl) : option MIMEHdrImpl :=
  f ← field_at mh field;
  mh1 ← unlink_field field f mh;
  let mh2 := upd field (fun f => set_next_dup None (set_readiness MIME_FIELD_SLOT_READINESS_DETACHED f)) mh1 in
  if m_cooked f then recompute_cooked_stuff hash_table (Some (m_wks_idx f)) mh2 else Some mh2.

(** The tail recursion of [mime_hdr_field_detach]. *)
Fixpoint detach_all (fuel : nat) (field : nat) (mh : MIMEHdrImpl) : option MIMEHdrImpl :=
  match fuel with
  | O => None
  | S fuel' =>
    f ← field_at mh field;
    mh1 ← detach_one field mh;
    match m_next_dup f with Some n => detach_all fuel' n mh1 | None => Some mh1 end
  end.

Definition mime_hdr_field_detach (field : nat) (detach_all_dups : bool) (mh : MIMEHdrImpl) : option MIMEHdrImpl :=
  if detach_all_dups then detach_all (dups_fuel mh) field mh else detach_one field mh.

Definition mime_field_destroy (field : nat) (mh : MIMEHdrImpl) : MIMEHdrImpl := upd field (set_readiness MIME_FIELD_SLOT_READINESS_DELETED) mh.

Fixpoint delete_all (fuel : nat) (field : option nat) (mh : MIMEHdrImpl) : option MIMEHdrImpl :=
  match fuel with
  | O => None
  | S fuel' =>
    match field with
    | None => Some mh
    | Some n => f ← field_at mh n; mh1 ← mime_hdr_field_detach n false mh; delete_all fuel' (m_next_dup f) (mime_field_destroy n mh1)
    end
  end.

Definition mime_hdr_field_delete (field : nat) (delete_all_dups : bool) (mh : MIMEHdrImpl) : option MIMEHdrImpl :=
  if delete_all_dups then delete_all (S (dups_fuel mh)) (Some field) mh
  else mh1 ← mime_hdr_field_detach field false mh; Some (mime_field_destroy field mh1).

(** ** By name *)

(** Exactly one attached field of the name, ready for its value. *)
Definition mime_hdr_prepare_for_value_set (name : Name) (mh : MIMEHdrImpl) : option (nat * MIMEHdrImpl) :=
  let create := fun wks_idx mh =>
    let '(field, mh1) := mime_field_create mh in
    mh2 ← mime_hdr_field_attach field false None (mime_field_name_set field wks_idx (name_str name) mh1);
    Some (field, mh2) in
  match mime_hdr_field_find mh name with
  | None => create (name_tokenize name) mh
  | Some field =>
    f ← field_at mh field;
    match m_next_dup f with
    | None => Some (field, mh)
    | Some _ => mh1 ← mime_hdr_field_delete field true mh; create (m_wks_idx f) mh1
    end
  end.

Definition value_set (name : Name) (value : list Z) (mh : MIMEHdrImpl) : option MIMEHdrImpl :=
  '(field, mh1) ← mime_hdr_prepare_for_value_set name mh; mime_field_value_set field (Some value) mh1.

Definition value_set_int (name : Name) (value : Z) (mh : MIMEHdrImpl) : option MIMEHdrImpl :=
  '(field, mh1) ← mime_hdr_prepare_for_value_set name mh; mime_field_value_set_int field value mh1.

Definition value_get (name : Name) (mh : MIMEHdrImpl) : option (list Z) :=
  n ← mime_hdr_field_find mh name; f ← field_at mh n; Some (field_value f).

Definition value_get_int (name : Name) (mh : MIMEHdrImpl) : Z :=
  match (n ← mime_hdr_field_find mh name; field_at mh n) with Some f => mime_field_value_get_int f | None => 0 end.

Definition field_delete (name : Name) (mh : MIMEHdrImpl) : option MIMEHdrImpl :=
  match mime_hdr_field_find mh name with Some n => mime_hdr_field_delete n true mh | None => Some mh end.

(** [while (field->m_next_dup) field = field->m_next_dup]. *)
Fixpoint last_dup (fuel : nat) (mh : MIMEHdrImpl) (field : nat) : option nat :=
  match fuel with
  | O => None
  | S fuel' => f ← field_at mh field; match m_next_dup f with Some n => last_dup fuel' mh n | None => Some field end
  end.

Definition value_append (name : Name) (value : list Z) (prepend_comma : bool) (separator : Z) (mh : MIMEHdrImpl) : option MIMEHdrImpl :=
  match mime_hdr_field_find mh name with
  | Some n => l ← last_dup (dups_fuel mh) mh n; mime_field_value_append l value prepend_comma separator mh
  | None =>
    let '(field, mh1) := mime_field_create_named name mh in
    mh2 ← mime_hdr_field_attach field true None mh1; mime_field_value_set field (Some value) mh2
  end.

(** ** Printing *)

Definition mime_field_length_get (f : MIMEField) : Z :=
  m_len_name f + m_len_value f + (if m_n_v_raw_printable f then m_n_v_raw_printable_pad f else 4).

Definition mime_hdr_length_get (mh : MIMEHdrImpl) : Z :=
  i32 (foldl (fun n f => if is_live f then u32 (n + mime_field_length_get f) else n) 2 (concat (m_fblocks mh))).

(** The pieces a field is printed in. *)
Definition field_pieces (f : MIMEField) : list (list Z) :=
  if m_n_v_raw_printable f then [str_of (m_ptr_name f) (m_len_name f + m_len_value f + m_n_v_raw_printable_pad f)]
  else [field_name f; chars ": "; field_value f; [CHAR_CR; CHAR_LF]].

(** [true] when the field fits; where nothing is to be skipped and the field fits,
    its bytes are copied at once. *)
Definition mime_field_print (f : MIMEField) (buf_length : Z) (st : PrintState) : bool * PrintState :=
  if cur (m_ptr_name f) =? ch "@" then (true, st)
  else
    let total_len := mime_field_length_get f in
    if (chars_to_skip st =? 0) && (total_len <=? buf_length - buf_index st)
    then (true, mkPrint (buf_index st + total_len) (chars_to_skip st) (printed st ++ concat (field_pieces f)))
    else try_print buf_length (field_pieces f) st.

Fixpoint print_fields (fs : list MIMEField) (buf_length : Z) (st : PrintState) : bool * PrintState :=
  match fs with
  | [] => mime_mem_print buf_length [CHAR_CR; CHAR_LF] st
  | f :: fs' =>
    if is_live f then let '(ok, st') := mime_field_print f buf_length st in if ok then print_fields fs' buf_length st' else (false, st')
    else print_fields fs' buf_length st
  end.

Definition mime_hdr_print (mh : MIMEHdrImpl) (buf_length : Z) (st : PrintState) : bool * PrintState := print_fields (concat (m_fblocks mh)) buf_length st.
End ops.
