(* ===== verification/MimeHdrFacts.v ===== *)
(** Facts on the storage of MIME headers: the blocks as one list of slots, the
    presence bits and slot accelerators as functions of the names, and the
    invariant of a header. *)

From S2P Require Import Prelude ParseRules MimeDate HdrToken MimePrint URL HdrFieldInfo MimeHdr MimeHdrOps.
From Stdlib Require Import Ascii.

#[local] Opaque find_token.
#[local] Arguments Nat.div : simpl never.
#[local] Arguments Nat.modulo : simpl never.
#[local] Arguments Nat.leb : simpl never.

(** ** Blocks *)

Notation BS := MIME_FIELD_BLOCK_SLOTS (only parsing).

(** Only the last block may have free slots. *)
Fixpoint blocks_ok (blocks : list (list MIMEField)) : Prop :=
  match blocks with
  | [] => False
  | [b] => (length b <= BS)%nat
  | b :: blocks' => length b = BS /\ blocks_ok blocks'
  end.

Definition slots (mh : MIMEHdrImpl) : list MIMEField := concat (m_fblocks mh).

Lemma blocks_ok_cons b b' bs : blocks_ok (b :: b' :: bs) <-> length b = BS /\ blocks_ok (b' :: bs).
Proof. done. Qed.

Lemma div_mod_block n : n = (BS * (n / BS) + n mod BS)%nat /\ (n mod BS < BS)%nat.
Proof. split; [apply Nat.div_mod_eq|apply Nat.mod_upper_bound; unfold MIME_FIELD_BLOCK_SLOTS; lia]. Qed.

Lemma next_fblock n : (BS <= n)%nat -> (n / BS = S ((n - BS) / BS))%nat /\ (n mod BS = (n - BS) mod BS)%nat.
Proof.
  intros. replace n with ((n - BS) + 1 * BS)%nat at 1 3 by lia.
  rewrite Nat.div_add, Nat.Div0.mod_add by (unfold MIME_FIELD_BLOCK_SLOTS; lia). lia.
Qed.

Lemma first_block n : (n < BS)%nat -> (n / BS = 0)%nat /\ (n mod BS = n)%nat.
Proof. intros. split; [by apply Nat.div_small|by apply Nat.mod_small]. Qed.

Lemma blocks_lookup blocks n : blocks_ok blocks -> (b ← blocks !! (n / BS)%nat; b !! (n mod BS)%nat) = concat blocks !! n.
Proof.
  revert n. induction blocks as [|b [|b' bs] IH]; intros n; [done| |].
  - simpl. intros L. rewrite app_nil_r. destruct (decide (n < BS)%nat) as [Hn|Hn].
    + destruct (first_block n Hn) as [-> ->]. done.
    + destruct (next_fblock n ltac:(lia)) as [-> _]. simpl. symmetry. apply lookup_ge_None. lia.
  - rewrite blocks_ok_cons. intros [L OK]. change (concat (b :: b' :: bs)) with (b ++ concat (b' :: bs)).
    destruct (decide (n < BS)%nat) as [Hn|Hn].
    + destruct (first_block n Hn) as [-> ->]. simpl. rewrite lookup_app_l by lia. done.
    + destruct (next_fblock n ltac:(lia)) as [-> ->]. rewrite lookup_app_r, L by lia. by rewrite <- IH.
Qed.

Lemma alter_outside {A} (g : A -> A) n l : (length l <= n)%nat -> alter g n l = l.
Proof.
  intros. rewrite <- (list_alter_id id l n) at 2 by done. apply list_alter_ext; [|done].
  intros x Hx%lookup_lt_Some. lia.
Qed.

Lemma concat_alter blocks n (g : MIMEField -> MIMEField) : blocks_ok blocks ->
  concat (alter (alter g (n mod BS)%nat) (n / BS)%nat blocks) = alter g n (concat blocks).
Proof.
  revert n. induction blocks as [|b [|b' bs] IH]; intros n; [done| |].
  - simpl. intros L. rewrite app_nil_r. destruct (decide (n < BS)%nat) as [Hn|Hn].
    + destruct (first_block n Hn) as [-> ->]. simpl. by rewrite app_nil_r.
    + destruct (next_fblock n ltac:(lia)) as [-> _]. simpl. rewrite app_nil_r. symmetry. apply alter_outside. lia.
  - rewrite blocks_ok_cons. intros [L OK]. change (concat (b :: b' :: bs)) with (b ++ concat (b' :: bs)).
    destruct (decide (n < BS)%nat) as [Hn|Hn].
    + destruct (first_block n Hn) as [-> ->]. simpl. rewrite alter_app_l by lia. done.
    + destruct (next_fblock n ltac:(lia)) as [-> ->].
      change (alter (alter g ((n - BS) mod BS)%nat) (S ((n - BS) / BS)) (b :: b' :: bs))
        with (b :: alter (alter g ((n - BS) mod BS)%nat) ((n - BS) / BS)%nat (b' :: bs)).
      cbn [concat]. rewrite IH by done. replace n with (length b + (n - BS))%nat at 2 by lia. by rewrite alter_app_r.
Qed.

Lemma blocks_ok_lengths blocks blocks' : length <$> blocks = length <$> blocks' -> blocks_ok blocks -> blocks_ok blocks'.
Proof.
  revert blocks'. induction blocks as [|b [|b' bs] IH]; intros [|c [|c' cs]] E; try done; simpl in E.
  - injection E as E. simpl. lia.
  - rewrite !blocks_ok_cons. injection E as E E' E2. intros [L OK]. split; [lia|]. apply IH; [|done]. simpl. congruence.
Qed.

Lemma search_slots_app p a b i : search_slots p (a ++ b) i = match search_slots p a i with Some j => Some j | None => search_slots p b (i + length a) end.
Proof.
  revert i. induction a as [|f a IH]; intros i; simpl; [by rewrite Nat.add_0_r|]. case_match; [done|]. rewrite IH.
  by replace (S i + length a)%nat with (i + S (length a))%nat by lia.
Qed.

Lemma search_blocks_slots p blocks i : blocks_ok blocks -> search_blocks p blocks i = search_slots p (concat blocks) i.
Proof.
  revert i. induction blocks as [|b [|b' bs] IH]; intros i; [done| |].
  - intros _. simpl. rewrite app_nil_r. by case_match.
  - rewrite blocks_ok_cons. intros [L OK]. cbn [search_blocks]. change (concat (b :: b' :: bs)) with (b ++ concat (b' :: bs)).
    rewrite search_slots_app. case_match; [done|]. rewrite <- IH, L by done. done.
Qed.

Lemma blocks_length blocks : blocks_ok blocks -> (length (concat blocks) <= length blocks * BS)%nat.
Proof.
  induction blocks as [|b [|b' bs] IH]; [done|intros L; cbn [blocks_ok concat] in *; rewrite app_nil_r; cbn [length]; lia|].
  rewrite blocks_ok_cons. intros [L OK]. specialize (IH OK). change (concat (b :: b' :: bs)) with (b ++ concat (b' :: bs)).
  rewrite length_app. simpl length in *. lia.
Qed.

Section hdr.
Context (mh : MIMEHdrImpl) (OK : blocks_ok (m_fblocks mh)).

Lemma field_at_slots n : field_at mh n = slots mh !! n.
Proof. by apply blocks_lookup. Qed.

Lemma slots_upd n g : slots (upd n g mh) = alter g n (slots mh).
Proof. by apply concat_alter. Qed.

Lemma upd_blocks_ok n g : blocks_ok (m_fblocks (upd n g mh)).
Proof.
  eapply blocks_ok_lengths, OK. simpl. symmetry. apply list_eq. intros i. rewrite !list_lookup_fmap.
  destruct (decide (i = n / BS)%nat) as [->|Hi]; [|by rewrite list_lookup_alter_ne].
  rewrite list_lookup_alter_eq. destruct (m_fblocks mh !! _); simpl; [|done]. by rewrite length_alter.
Qed.

Lemma slotnum_slots n : (n < length (slots mh))%nat -> mime_hdr_field_slotnum mh n = Z.of_nat n.
Proof. intros L. unfold mime_hdr_field_slotnum. pose proof (blocks_length _ OK). unfold slots in L. rewrite (proj2 (Nat.ltb_lt _ _)) by lia. done. Qed.

Lemma search_by_slotnum n : _mime_hdr_field_list_search_by_slotnum mh n = if decide (n < length (slots mh))%nat then Some n else None.
Proof.
  pose proof (blocks_lookup _ n OK) as L. unfold _mime_hdr_field_list_search_by_slotnum, slots.
  assert (E : forall b : list MIMEField, (n mod BS < length b)%nat -> is_Some (b !! (n mod BS)%nat)) by (intros b; apply lookup_lt_is_Some).
  assert (G : forall o : option (list MIMEField), (b ← o; b !! (n mod BS)%nat) = concat (m_fblocks mh) !! n ->
    match o with Some b => if (length b <=? n mod BS)%nat then None else Some n | None => None end =
    if decide (n < length (concat (m_fblocks mh)))%nat then Some n else None).
  { intros [b|] Eb; simpl in Eb; symmetry in Eb.
    - destruct (Nat.leb_spec (length b) (n mod BS)).
      + rewrite decide_False; [done|]. apply Nat.nlt_ge, lookup_ge_None. rewrite Eb. apply lookup_ge_None. lia.
      + rewrite decide_True; [done|]. apply lookup_lt_is_Some. rewrite Eb. apply E. lia.
    - rewrite decide_False; [done|]. by apply Nat.nlt_ge, lookup_ge_None. }
  destruct (Nat.ltb_spec n BS) as [Hn|Hn]; [|by apply G].
  destruct (first_block n Hn) as [D M]. rewrite D, M in *. destruct (m_fblocks mh) as [|b bs]; [done|]. rewrite <- (G (Some b)); [done|exact L].
Qed.
End hdr.

Lemma create_slots mh : blocks_ok (m_fblocks mh) ->
  let '(field, mh') := mime_field_create mh in
  field = length (slots mh) /\ slots mh' = slots mh ++ [mime_field_init] /\ blocks_ok (m_fblocks mh') /\
  m_presence_bits mh' = m_presence_bits mh /\ m_slot_accelerators mh' = m_slot_accelerators mh /\ m_cooked_stuff mh' = m_cooked_stuff mh.
Proof.
  unfold mime_field_create, slots. generalize (m_fblocks mh). intros blocks.
  assert (G : blocks_ok blocks ->
    let tail := (length blocks - 1)%nat in let freetop := length (default [] (blocks !! tail)) in
    length (concat blocks) = (tail * BS + freetop)%nat /\
    if (BS <=? freetop)%nat then freetop = BS /\ blocks_ok (blocks ++ [[mime_field_init]])
    else blocks_ok (alter (fun b => b ++ [mime_field_init]) tail blocks) /\
         concat (alter (fun b => b ++ [mime_field_init]) tail blocks) = concat blocks ++ [mime_field_init]).
  { clear. induction blocks as [|b [|b' bs] IH]; [done| |].
    - simpl. intros L. rewrite app_nil_r. split; [done|]. destruct (Nat.leb_spec BS (length b)).
      + split; [lia|]. split; [lia|]. unfold MIME_FIELD_BLOCK_SLOTS. lia.
      + rewrite !app_nil_r, length_app. simpl. split; [lia|done].
    - rewrite blocks_ok_cons. intros [L OK]. specialize (IH OK). cbv zeta in *.
      replace (length (b :: b' :: bs) - 1)%nat with (S (length (b' :: bs) - 1)) by (simpl; lia).
      change ((b :: b' :: bs) !! S (length (b' :: bs) - 1)) with ((b' :: bs) !! (length (b' :: bs) - 1)%nat).
      change (concat (b :: b' :: bs)) with (b ++ concat (b' :: bs)).
      change (alter (fun b => b ++ [mime_field_init]) (S (length (b' :: bs) - 1)) (b :: b' :: bs)) with
        (b :: alter (fun b => b ++ [mime_field_init]) (length (b' :: bs) - 1)%nat (b' :: bs)).
      destruct IH as [IH1 IH2]. rewrite length_app. split; [lia|]. case_match.
      + destruct IH2 as [IH2 IH3]. split; [done|]. split; [lia|]. exact IH3.
      + destruct IH2 as [IH2 IH3]. change (concat (b :: ?x)) with (b ++ concat x). rewrite IH3, app_assoc. split; [|done].
        destruct (alter _ _ (b' :: bs)); [done|]. by split. }
  intros OK. destruct (G OK) as [G1 G2]. clear G. case_match eqn:E.
  - destruct G2 as [F G2]. cbn [set_fblocks m_fblocks m_presence_bits m_slot_accelerators m_cooked_stuff]. rewrite concat_app. split_and!; try done.
    rewrite G1, F. destruct blocks; [done|]. simpl length. lia.
  - destruct G2 as [G2 G3]. cbn [set_fblocks m_fblocks m_presence_bits m_slot_accelerators m_cooked_stuff]. split_and!; done.
Qed.

(** ** Names *)

Definition lower (s : list Z) : list Z := ink_tolower <$> s.

Lemma same_name_lower s t : same_name s t = true <-> lower s = lower t.
Proof. unfold same_name, lower. by rewrite bool_decide_eq_true. Qed.

Lemma name_index_ext s t names i : lower s = lower t -> name_index s names i = name_index t names i.
Proof. intros E. revert i. induction names as [|n names IH]; intros i; [done|]. simpl. unfold same_name. fold (lower s) (lower t). by rewrite E, IH. Qed.

Lemma name_index_nth s names i j : name_index s names i = Some j -> lower s = lower (nth (Z.to_nat (j - i)) names []).
Proof.
  revert i. induction names as [|n names IH]; intros i; [done|]. cbn [name_index]. destruct (same_name s n) eqn:E.
  - intros [= ->]. rewrite Z.sub_diag. by apply same_name_lower.
  - intros N. pose proof (name_index_range _ _ _ _ N). apply IH in N. rewrite N.
    replace (Z.to_nat (j - i)) with (S (Z.to_nat (j - (i + 1)))) by lia. done.
Qed.

Definition n_wks : Z := 123.

(** A well-known name is known by its index. *)
Definition valid_wks (w : Z) : Prop := 0 <= w < n_wks /\ find_token (hdrtoken_index_to_wks w) = w.

Definition wks_key (w : Z) : list Z := lower (hdrtoken_index_to_wks w).

#[local] Transparent find_token.
Lemma find_token_ext s t : lower s = lower t -> find_token s = find_token t.
Proof. intros E. unfold find_token. by rewrite (name_index_ext s t). Qed.

Lemma find_token_key s : 0 <= find_token s -> valid_wks (find_token s) /\ lower s = wks_key (find_token s).
Proof.
  unfold find_token at 1 3. destruct (name_index s _hdrtoken_strs 0) as [j|] eqn:N; simpl; [|lia]. intros _.
  assert (F : find_token s = j) by (unfold find_token; by rewrite N).
  pose proof (name_index_range _ _ _ _ N) as R. apply name_index_nth in N. rewrite Z.sub_0_r in N.
  rewrite F. split; [|done]. split; [|by rewrite <- (find_token_ext s)].
  assert (length _hdrtoken_strs = 123%nat) as E by by vm_compute. rewrite E in R. unfold n_wks. lia.
Qed.

Lemma find_token_neg s : find_token s < 0 -> find_token s = -1.
Proof. unfold find_token. destruct (name_index s _hdrtoken_strs 0) as [j|] eqn:N; simpl; [|lia]. apply name_index_range in N. lia. Qed.
#[local] Opaque find_token.

(** Names with the same index have the same key. *)
Lemma find_token_inj s t : 0 <= find_token s -> (find_token s = find_token t <-> lower s = lower t).
Proof.
  intros P. split; [|apply find_token_ext]. intros E. destruct (find_token_key s P) as [_ ->]. rewrite E in *. by destruct (find_token_key t P) as [_ ->].
Qed.

(** ** The table of the names *)

Definition slotid (w : Z) : Z := info_slotid (nth (Z.to_nat w) field_infos default_info).
Definition mask (w : Z) : Z := info_mask (nth (Z.to_nat w) field_infos default_info).

(** A name that has an accelerator has a presence bit; no two names share an
    accelerator or a bit. *)
Definition names_apart (w w' : Z) : bool :=
  (w =? w') || ((Z.land (mask w) (mask w') =? 0) && ((slotid w =? -1) || negb (slotid w =? slotid w'))).

Lemma names_apart_all : forallZ 123 (fun w => forallZ 123 (names_apart w) 0) 0 = true.
Proof. by vm_compute. Qed.

Lemma names_table : forallZ 123 (fun w => (0 <=? mask w) && (mask w <? 2 ^ 64) &&
  ((slotid w =? -1) || ((0 <=? slotid w) && (slotid w <? 32) && negb (mask w =? 0)))) 0 = true.
Proof. by vm_compute. Qed.

Lemma names_disjoint w w' : 0 <= w < n_wks -> 0 <= w' < n_wks -> w <> w' ->
  Z.land (mask w) (mask w') = 0 /\ (slotid w <> -1 -> slotid w <> slotid w').
Proof.
  unfold n_wks. intros Hw Hw' N. pose proof (forallZ_spec _ _ _ w names_apart_all ltac:(lia)) as A. cbv beta in A.
  pose proof (forallZ_spec _ _ _ w' A ltac:(lia)) as B. unfold names_apart in B. rewrite (proj2 (Z.eqb_neq w w')) in B by done.
  simpl in B. apply andb_true_iff in B as [B1 B2]. apply Z.eqb_eq in B1. split; [done|]. intros S.
  rewrite (proj2 (Z.eqb_neq (slotid w) (-1))) in B2 by done. simpl in B2. apply negb_true_iff in B2. by apply Z.eqb_neq in B2.
Qed.

Lemma names_facts w : 0 <= w < n_wks -> 0 <= mask w < 2 ^ 64 /\ (slotid w <> -1 -> 0 <= slotid w < 32 /\ mask w <> 0).
Proof.
  unfold n_wks. intros Hw. pose proof (forallZ_spec _ _ _ w names_table ltac:(lia)) as B. cbv beta in B.
  apply andb_true_iff in B as [B1 B2]. bsimp. split; [lia|]. intros S. rewrite (proj2 (Z.eqb_neq (slotid w) (-1))) in B2 by done. simpl in B2. bsimp. lia.
Qed.

Section tables.
Context `{TokenDFA}.

Lemma slotid_table w : hdrtoken_index_to_slotid w = slotid w.
Proof. unfold hdrtoken_index_to_slotid. by rewrite field_infos_table. Qed.

Lemma mask_table w : hdrtoken_index_to_mask w = mask w.
Proof. unfold hdrtoken_index_to_mask. by rewrite field_infos_table. Qed.
End tables.

#[global] Arguments slotid : simpl never.
#[global] Arguments mask : simpl never.

(** ** Slot accelerators: 32 numbers of four bits *)

Definition accel_words (a : list Z) : Prop := length a = 4%nat /\ Forall (fun x => 0 <= x < 2 ^ 32) a.

Definition nybble (word k : Z) : Z := Z.land (Z.shiftr word (k * 4)) 15.
Definition put_nybble (word k num : Z) : Z :=
  Z.lor (Z.land word (u32 (Z.lnot (u32 (Z.shiftl MIME_FIELD_SLOTNUM_MASK (k * 4)))))) (u32 (Z.shiftl num (k * 4))).

Lemma testbit_15 n : Z.testbit 15 n = (0 <=? n) && (n <? 4).
Proof. change 15 with (Z.ones 4). apply Z.testbit_ones. lia. Qed.

Lemma nybble_put word k k' num : 0 <= k < 8 -> 0 <= k' < 8 -> 0 <= num < 16 -> nybble (put_nybble word k num) k' = if k =? k' then num else nybble word k'.
Proof.
  intros Hk Hk' Hn. assert (HN : forall n, 4 <= n -> Z.testbit num n = false).
  { intros n L. destruct (decide (num = 0)) as [->|]; [apply Z.bits_0|]. apply Z.bits_above_log2; [lia|].
    apply Z.log2_lt_pow2; [lia|]. pose proof (Z.pow_le_mono_r 2 4 n). lia. }
  unfold nybble, put_nybble, MIME_FIELD_SLOTNUM_MASK. apply Z.bits_inj'. intros n Hn0.
  rewrite Z.land_spec, shiftr_testbit, Z.lor_spec, Z.land_spec, !wrapu_testbit, lnot_testbit, wrapu_testbit, !shiftl_testbit, !testbit_15 by lia.
  destruct (Z.eqb_spec k k') as [->|Ne].
  - replace (n + k' * 4 - k' * 4) with n by lia. destruct (Z.ltb_spec n 4).
    + zcmp. by rewrite andb_false_r, andb_true_r.
    + rewrite HN by lia. by rewrite !andb_false_r.
  - rewrite Z.land_spec, shiftr_testbit, testbit_15 by lia. destruct (Z.ltb_spec n 4).
    + assert (n + k' * 4 - k * 4 < 0 \/ 4 <= n + k' * 4 - k * 4) as [O|O] by lia; zcmp; rewrite ?HN by lia;
        rewrite ?andb_false_r, ?andb_true_r, ?orb_false_r; try done.
    + by rewrite !andb_false_r.
Qed.

Lemma put_nybble_range word k num : 0 <= word < 2 ^ 32 -> 0 <= k < 8 -> 0 <= put_nybble word k num < 2 ^ 32.
Proof.
  intros Hw Hk. assert (E : put_nybble word k num = u32 (put_nybble word k num)).
  { unfold put_nybble. apply Z.bits_inj'. intros n Hn. rewrite wrapu_testbit, !Z.lor_spec, !Z.land_spec, !wrapu_testbit by lia.
    destruct (Z.ltb_spec n 32); [done|]. by rewrite andb_false_r. }
  rewrite E. apply wrapu_range. lia.
Qed.

Lemma get_accelerator mh s : mime_hdr_get_accelerator_slotnum mh s = nybble (nth (Z.to_nat (s / 8)) (m_slot_accelerators mh) 0) (s mod 8).
Proof. done. Qed.

Section accelerators.
Context (mh : MIMEHdrImpl) (A : accel_words (m_slot_accelerators mh)).

Lemma set_accelerator s num :
  m_slot_accelerators (mime_hdr_set_accelerator_slotnum s num mh) =
  <[Z.to_nat (s / 8) := put_nybble (nth (Z.to_nat (s / 8)) (m_slot_accelerators mh) 0) (s mod 8) num]> (m_slot_accelerators mh).
Proof. done. Qed.

Lemma accelerator_index s : 0 <= s < 32 -> (Z.to_nat (s / 8) < 4)%nat /\ 0 <= s mod 8 < 8.
Proof. intros Hs. split; [|apply Z.mod_pos_bound; lia]. assert (s / 8 < 4) by (apply Z.div_lt_upper_bound; lia). pose proof (Z.div_pos s 8). lia. Qed.

Lemma set_accelerator_words s num : 0 <= s < 32 -> accel_words (m_slot_accelerators (mime_hdr_set_accelerator_slotnum s num mh)).
Proof.
  intros Hs. destruct A as [L F], (accelerator_index s Hs) as [I M]. rewrite set_accelerator. split; [by rewrite length_insert|].
  apply Forall_insert; [done|]. apply put_nybble_range; [|done]. rewrite Forall_nth in F. apply F. lia.
Qed.

Lemma get_set_accelerator s s' num : 0 <= s < 32 -> 0 <= s' < 32 -> 0 <= num < 16 ->
  mime_hdr_get_accelerator_slotnum (mime_hdr_set_accelerator_slotnum s num mh) s' = if s =? s' then num else mime_hdr_get_accelerator_slotnum mh s'.
Proof.
  intros Hs Hs' Hn. destruct A as [L F], (accelerator_index s Hs) as [I M], (accelerator_index s' Hs') as [I' M'].
  rewrite !get_accelerator, set_accelerator. rewrite (nth_lookup (<[_ := _]> _)).
  assert (D : s = 8 * (s / 8) + s mod 8) by (apply Z.div_mod; lia). assert (D' : s' = 8 * (s' / 8) + s' mod 8) by (apply Z.div_mod; lia).
  destruct (decide (s / 8 = s' / 8)) as [E|E].
  - rewrite E, list_lookup_insert_eq by lia. simpl default. rewrite nybble_put by done.
    destruct (Z.eqb_spec (s mod 8) (s' mod 8)), (Z.eqb_spec s s'); try done; lia.
  - pose proof (Z.div_pos s 8). pose proof (Z.div_pos s' 8). rewrite list_lookup_insert_ne by lia. rewrite <- nth_lookup.
    destruct (Z.eqb_spec s s'); [congruence|done].
Qed.
End accelerators.
