(* ===== verification/MimeHdrRep.v ===== *)
(** The invariant of a MIME header, and what attaching and detaching a field do.

    The fields of one name, whatever its case, are a class: the list of their
    slots in increasing order.  In a well-formed header the links [m_next_dup] run
    through every class in order, the head of a class is flagged, the presence bits
    are those of the names that have a class, and the accelerator of a name points
    to the head of its class. *)

From S2P Require Import Prelude ParseRules MimeDate HdrToken MimePrint URL HdrFieldInfo MimeHdr MimeHdrOps MimeHdrFacts.

#[local] Opaque find_token.
#[local] Arguments Nat.leb : simpl never.

(** ** Classes *)

Definition fkey (f : MIMEField) : list Z := lower (field_name f).
Definition in_class (k : list Z) (f : MIMEField) : bool := is_live f && bool_decide (fkey f = k).

Fixpoint class_from (fs : list MIMEField) (k : list Z) (i : nat) : list nat :=
  match fs with
  | [] => []
  | f :: fs' => if in_class k f then i :: class_from fs' k (S i) else class_from fs' k (S i)
  end.

Definition class (fs : list MIMEField) (k : list Z) : list nat := class_from fs k 0.

Lemma in_class_true k f : in_class k f = true <-> is_live f = true /\ fkey f = k.
Proof. unfold in_class. by rewrite andb_true_iff, bool_decide_eq_true. Qed.

Lemma class_from_app a b k i : class_from (a ++ b) k i = class_from a k i ++ class_from b k (i + length a).
Proof.
  revert i. induction a as [|f a IH]; intros i; simpl; [by rewrite Nat.add_0_r|].
  rewrite IH, Nat.add_succ_comm. by case_match.
Qed.

Lemma elem_class_from fs k o i : i ∈ class_from fs k o <-> exists f, (o <= i)%nat /\ fs !! (i - o)%nat = Some f /\ in_class k f = true.
Proof.
  revert o. induction fs as [|f fs IH]; intros o; simpl.
  { split; [by intros ?%elem_of_nil|by intros (? & _ & ? & _)]. }
  assert (E : i ∈ class_from fs k (S o) <-> exists g, (o < i)%nat /\ (f :: fs) !! (i - o)%nat = Some g /\ in_class k g = true).
  { rewrite IH. split; intros (g & L & E & C); exists g.
    - split_and!; [lia| |done]. replace (i - o)%nat with (S (i - S o)) by lia. done.
    - split_and!; [lia| |done]. replace (i - o)%nat with (S (i - S o)) in E by lia. done. }
  destruct (in_class k f) eqn:C.
  - rewrite elem_of_cons, E. split.
    + intros [->|(g & L & ? & ?)]; [exists f; rewrite Nat.sub_diag; split_and!; [lia|done|done]|exists g; split_and!; [lia|done|done]].
    + intros (g & L & E2 & C2). destruct (decide (i = o)) as [->|]; [by left|]. right. exists g. split_and!; [lia|done|done].
  - rewrite E. split; intros (g & L & E2 & C2); exists g; split_and!; try done; [lia|].
    destruct (decide (i = o)) as [->|]; [|lia]. rewrite Nat.sub_diag in E2. injection E2 as <-. congruence.
Qed.

Lemma elem_class fs k i : i ∈ class fs k <-> exists f, fs !! i = Some f /\ in_class k f = true.
Proof.
  unfold class. rewrite elem_class_from, Nat.sub_0_r. split; [intros (f & _ & ? & ?); eauto|intros (f & ? & ?); exists f; split_and!; [lia|done..]].
Qed.

Lemma class_from_ext fs fs' k i : length fs = length fs' ->
  (forall j f f', fs !! j = Some f -> fs' !! j = Some f' -> in_class k f = in_class k f') -> class_from fs k i = class_from fs' k i.
Proof.
  revert fs' i. induction fs as [|f fs IH]; intros [|f' fs'] i L E; try done. simpl in *. rewrite (E 0%nat f f') by done.
  rewrite (IH fs') by (try lia; intros j g g'; apply (E (S j))). done.
Qed.

Lemma class_ext fs fs' k : length fs = length fs' ->
  (forall j f f', fs !! j = Some f -> fs' !! j = Some f' -> in_class k f = in_class k f') -> class fs k = class fs' k.
Proof. apply class_from_ext. Qed.

Lemma NoDup_class fs k : NoDup (class fs k).
Proof.
  unfold class. generalize 0%nat. induction fs as [|f fs IH]; intros i; simpl; [constructor|]. case_match; [|done].
  constructor; [|done]. intros (g & L & _)%elem_class_from. lia.
Qed.

(** A class seen from the slot [n]: what is below it, and what above. *)
Definition below (fs : list MIMEField) (k : list Z) (n : nat) : list nat := class_from (take n fs) k 0.
Definition above (fs : list MIMEField) (k : list Z) (n : nat) : list nat := class_from (drop (S n) fs) k (S n).

Lemma class_split fs k n f : fs !! n = Some f -> class fs k = below fs k n ++ (if in_class k f then [n] else []) ++ above fs k n.
Proof.
  intros E. unfold class, below, above. rewrite <- (take_drop_middle fs n f E) at 1. rewrite class_from_app. f_equal.
  apply lookup_lt_Some in E. rewrite length_take, Nat.min_l by lia. simpl. by destruct (in_class k f).
Qed.

Lemma below_lt fs k n i : i ∈ below fs k n -> (i < n)%nat.
Proof. intros (f & _ & E & _)%elem_class_from. rewrite Nat.sub_0_r in E. apply lookup_lt_Some in E. rewrite length_take in E. lia. Qed.

Lemma above_gt fs k n i : i ∈ above fs k n -> (n < i)%nat.
Proof. intros (f & L & _)%elem_class_from. lia. Qed.

Lemma below_alter fs k n g : below (alter g n fs) k n = below fs k n.
Proof. unfold below. by rewrite take_alter_ge. Qed.

Lemma above_alter fs k n g : above (alter g n fs) k n = above fs k n.
Proof. unfold above. by rewrite drop_alter_lt by lia. Qed.

(** A change of one slot. *)
Lemma class_alter fs k n f g : fs !! n = Some f ->
  class (alter g n fs) k = below fs k n ++ (if in_class k (g f) then [n] else []) ++ above fs k n.
Proof.
  intros E. rewrite (class_split _ k n (g f)) by by rewrite list_lookup_alter_eq, E. by rewrite below_alter, above_alter.
Qed.

Lemma class_alter_same fs k n g : (forall f, in_class k (g f) = in_class k f) -> class (alter g n fs) k = class fs k.
Proof.
  intros G. apply class_ext; [apply length_alter|]. intros j f f'. destruct (decide (j = n)) as [->|].
  - rewrite list_lookup_alter_eq. destruct (fs !! n); simpl; [|done]. intros [= <-] [= <-]. apply G.
  - rewrite list_lookup_alter_ne by done. congruence.
Qed.

(** ** Links *)

Definition nxt (fs : list MIMEField) (i : nat) : option (option nat) := m_next_dup <$> fs !! i.

(** The links run through [l] and end in [t]. *)
Fixpoint lseg (fs : list MIMEField) (l : list nat) (t : option nat) : Prop :=
  match l with
  | [] => True
  | i :: l' => nxt fs i = Some (match l' with [] => t | j :: _ => Some j end) /\ lseg fs l' t
  end.

Definition head_or (l : list nat) (t : option nat) : option nat := match l with [] => t | j :: _ => Some j end.

Lemma dup_lseg_app fs a b t : lseg fs (a ++ b) t <-> lseg fs a (head_or b t) /\ lseg fs b t.
Proof.
  induction a as [|i a IH]; simpl; [tauto|]. rewrite IH. destruct a; simpl; [destruct b; simpl; tauto|tauto].
Qed.

Lemma lseg_ext fs fs' l t : (forall i, i ∈ l -> nxt fs i = nxt fs' i) -> lseg fs l t -> lseg fs' l t.
Proof.
  induction l as [|i l IH]; [done|]. simpl. intros E [L1 L2]. split; [rewrite <- E; [done|by left]|]. apply IH; [|done].
  intros j Hj. apply E. by right.
Qed.

Lemma nxt_alter fs n g i : nxt (alter g n fs) i = if decide (i = n) then m_next_dup ∘ g <$> fs !! n else nxt fs i.
Proof.
  unfold nxt. destruct (decide (i = n)) as [->|]; [|by rewrite list_lookup_alter_ne].
  rewrite list_lookup_alter_eq. by destruct (fs !! n).
Qed.

(** Every class is linked, and its head, and only its head, flagged. *)
Definition heads_ok (fs : list MIMEField) (k : list Z) : Prop :=
  forall i f, fs !! i = Some f -> in_class k f = true -> m_dup_head f = bool_decide (head (class fs k) = Some i).

Definition dups_ok (fs : list MIMEField) : Prop := forall k, lseg fs (class fs k) None /\ heads_ok fs k.

(** A change that touches no field of a class leaves its links. *)
Lemma dups_other fs fs' k : (forall i f, fs !! i = Some f -> in_class k f = true -> fs' !! i = Some f) ->
  class fs' k = class fs k -> lseg fs (class fs k) None /\ heads_ok fs k -> lseg fs' (class fs' k) None /\ heads_ok fs' k.
Proof.
  intros U E [L Hd]. rewrite E. split.
  - eapply lseg_ext, L. intros i Hi. apply elem_class in Hi as (f & Ef & Cf). unfold nxt. by rewrite Ef, (U i f).
  - intros i f Ef Cf. rewrite E. assert (Hi : i ∈ class fs k) by (rewrite <- E; apply elem_class; eauto).
    apply elem_class in Hi as (g & Eg & Cg). rewrite (U i g) in Ef by done. injection Ef as <-. by apply Hd.
Qed.

(** ** Presence bits and accelerators *)

Lemma wks_all_valid : forallZ 123 (fun w => find_token (hdrtoken_index_to_wks w) =? w) 0 = true.
Proof. by vm_compute. Qed.

Lemma wks_valid w : 0 <= w < n_wks -> valid_wks w.
Proof. intros Hw. split; [done|]. unfold n_wks in Hw. apply Z.eqb_eq. apply (forallZ_spec _ _ _ w wks_all_valid). lia. Qed.

Lemma wks_key_inj w w' : 0 <= w < n_wks -> 0 <= w' < n_wks -> wks_key w = wks_key w' -> w = w'.
Proof.
  intros [_ H]%wks_valid [_ H']%wks_valid E. rewrite <- H, <- H'. by apply find_token_ext.
Qed.

(** What is known of a field from its name. *)
Record field_ok (f : MIMEField) : Prop := {
  ok_wks : m_wks_idx f = find_token (field_name f);
  ok_len : 0 <= m_len_name f <= Z.of_nat (length (m_ptr_name f));
  ok_nonul : Forall (fun c => c <> 0) (field_name f);
  ok_value : 0 <= m_len_value f <= Z.of_nat (length (default [] (m_ptr_value f)));
  ok_cooked : m_wks_idx f = 10 \/ m_wks_idx f = 47 -> m_cooked f = true;
  ok_unlinked : is_live f = false -> m_next_dup f = None
}.

Lemma field_key f w : field_ok f -> 0 <= w < n_wks -> m_wks_idx f = w <-> fkey f = wks_key w.
Proof.
  intros [W _ _ _ _ _] V. rewrite W. split.
  - intros E. assert (P : 0 <= find_token (field_name f)) by lia. apply find_token_key in P as [_ P]. unfold fkey. by rewrite P, E.
  - intros E. destruct (wks_valid w V) as [_ <-]. by apply find_token_ext.
Qed.

Lemma field_wks_range f : field_ok f -> 0 <= m_wks_idx f -> 0 <= m_wks_idx f < n_wks.
Proof. intros [W _ _ _ _ _]. rewrite W. intros P. by apply find_token_key in P as [[? _] _]. Qed.

(** [hd] gives the head of the class of a name. *)
Section index.
Context `{TokenDFA}.

Definition presence_ok (bits : Z) (hd : list Z -> option nat) : Prop :=
  0 <= bits < 2 ^ 64 /\
  forall n, 0 <= n -> Z.testbit bits n = true <-> exists w, 0 <= w < n_wks /\ hd (wks_key w) <> None /\ Z.testbit (mask w) n = true.

Definition accel_ok (mh : MIMEHdrImpl) (hd : list Z -> option nat) : Prop :=
  accel_words (m_slot_accelerators mh) /\
  forall w h, 0 <= w < n_wks -> slotid w <> -1 -> hd (wks_key w) = Some h ->
    mime_hdr_get_accelerator_slotnum mh (slotid w) = Z.min (Z.of_nat h) MIME_FIELD_SLOTNUM_UNKNOWN.

Definition index_ok (mh : MIMEHdrImpl) (hd : list Z -> option nat) : Prop := presence_ok (m_presence_bits mh) hd /\ accel_ok mh hd.

Lemma index_ext mh mh' hd hd' : index_ok mh hd -> m_presence_bits mh' = m_presence_bits mh -> m_slot_accelerators mh' = m_slot_accelerators mh ->
  (forall w, 0 <= w < n_wks -> hd' (wks_key w) = hd (wks_key w)) -> index_ok mh' hd'.
Proof.
  intros [[P1 P2] [A1 A2]] Ep Ea E. split; [split|split]; rewrite ?Ep, ?Ea; try done.
  - intros n Hn. rewrite P2 by done. split; intros (w & V & N & T); exists w; (split; [done|]); (split; [|done]); [by rewrite E|by rewrite <- E].
  - intros w h V S N. unfold mime_hdr_get_accelerator_slotnum. rewrite Ea. apply A2; [done..|]. by rewrite <- E.
Qed.

Lemma mask_disjoint_bit w w' n : 0 <= w < n_wks -> 0 <= w' < n_wks -> Z.testbit (mask w) n = true -> Z.testbit (mask w') n = true -> w = w'.
Proof.
  intros V V' T T'. destruct (decide (w = w')) as [|N]; [done|]. destruct (names_disjoint w w' V V' N) as [D _].
  assert (B : Z.testbit (Z.land (mask w) (mask w')) n = true) by by rewrite Z.land_spec, T, T'. by rewrite D, Z.bits_0 in B.
Qed.

(** The name [w0] gets the head [k]. *)
Lemma index_set mh hd hd' k f : index_ok mh hd -> field_ok f ->
  hd' (fkey f) = Some k -> (forall k', k' <> fkey f -> hd' k' = hd k') ->
  index_ok (mime_hdr_set_accelerators_and_presence_bits k f mh) hd'.
Proof.
  intros [[P1 P2] [A1 A2]] F Hk Hne. unfold mime_hdr_set_accelerators_and_presence_bits. destruct (Z.ltb_spec (m_wks_idx f) 0) as [N|N].
  { apply (index_ext mh _ hd); [by split|done..|]. intros w V. apply Hne. intros E. symmetry in E. apply (field_key f w F V) in E. lia. }
  pose proof (field_wks_range f F N) as V0. set (w0 := m_wks_idx f) in *.
  assert (K0 : fkey f = wks_key w0) by by apply field_key.
  assert (Hw : forall w, 0 <= w < n_wks -> w <> w0 -> hd' (wks_key w) = hd (wks_key w)).
  { intros w V Ne. apply Hne. rewrite K0. intros E. by apply Ne, (wks_key_inj w w0). }
  destruct (names_facts w0 V0) as [M0 S0].
  assert (PR : presence_ok (m_presence_bits (mime_hdr_presence_set w0 mh)) hd').
  { unfold mime_hdr_presence_set. rewrite mask_table.
    assert (B : m_presence_bits (if negb (mask w0 =? 0) then set_presence mh (Z.lor (m_presence_bits mh) (mask w0)) else mh) = Z.lor (m_presence_bits mh) (mask w0)).
    { destruct (Z.eqb_spec (mask w0) 0) as [->|Nz]; [by rewrite Z.lor_0_r|done]. }
    rewrite B. split.
    - assert (E : Z.lor (m_presence_bits mh) (mask w0) = u64 (Z.lor (m_presence_bits mh) (mask w0))).
      { apply Z.bits_inj'. intros n Hn. rewrite wrapu_testbit, Z.lor_spec by lia. destruct (Z.ltb_spec n 64); [done|].
        rewrite <- (wrapu_id 64 (m_presence_bits mh)), <- (wrapu_id 64 (mask w0)), !wrapu_testbit by lia. by rewrite (proj2 (Z.ltb_ge n 64)) by lia. }
      rewrite E. apply wrapu_range. lia.
    - intros n Hn. rewrite Z.lor_spec, orb_true_iff, P2 by done. split.
      + intros [(w & V & C & T)|T]; [|exists w0; split_and!; [lia..|by rewrite <- K0, Hk|done]].
        exists w. split_and!; [lia..| |done]. destruct (decide (w = w0)) as [->|]; [by rewrite <- K0, Hk|by rewrite Hw].
      + intros (w & V & C & T). destruct (decide (w = w0)) as [->|Ne]; [by right|]. left. exists w. split_and!; [lia..|by rewrite <- Hw|done]. }
  assert (PA : m_slot_accelerators (mime_hdr_presence_set w0 mh) = m_slot_accelerators mh) by (unfold mime_hdr_presence_set; by case_match).
  rewrite slotid_table. destruct (Z.eqb_spec (slotid w0) MIME_SLOTID_NONE) as [S1|S1]; cbn [negb].
  - split; [done|]. split; [by rewrite PA|]. intros w h V S Hh. unfold mime_hdr_get_accelerator_slotnum. rewrite PA. apply A2; [done..|].
    rewrite <- Hw; [done|done|]. intros ->. done.
  - destruct (S0 S1) as [SR _].
    assert (A' : accel_words (m_slot_accelerators (mime_hdr_presence_set w0 mh))) by by rewrite PA.
    set (num := if Z.of_nat k <? MIME_FIELD_SLOTNUM_UNKNOWN then Z.of_nat k else MIME_FIELD_SLOTNUM_UNKNOWN).
    assert (EN : num = Z.min (Z.of_nat k) MIME_FIELD_SLOTNUM_UNKNOWN) by (unfold num; destruct (Z.ltb_spec (Z.of_nat k) MIME_FIELD_SLOTNUM_UNKNOWN); lia).
    split; [done|]. split; [by apply set_accelerator_words|]. intros w h V S Hh. destruct (names_facts w V) as [_ SW]. destruct (SW S) as [SR' _].
    rewrite get_set_accelerator; [|done..|rewrite EN; unfold MIME_FIELD_SLOTNUM_UNKNOWN, MIME_FIELD_SLOTNUM_MAX, MIME_FIELD_SLOTNUM_MASK; lia].
    destruct (decide (w = w0)) as [->|Ne].
    + rewrite Z.eqb_refl. rewrite <- K0, Hk in Hh. injection Hh as <-. done.
    + destruct (names_disjoint w w0 V V0 Ne) as [_ D]. rewrite (proj2 (Z.eqb_neq _ _)) by (intros X; by apply (D S)).
      unfold mime_hdr_get_accelerator_slotnum. rewrite PA. apply A2; [done..|]. by rewrite <- Hw.
Qed.

(** The name of [f] has no field any more. *)
Lemma index_unset mh hd hd' f : index_ok mh hd -> field_ok f ->
  hd' (fkey f) = None -> (forall k', k' <> fkey f -> hd' k' = hd k') ->
  index_ok (mime_hdr_unset_accelerators_and_presence_bits f mh) hd'.
Proof.
  intros [[P1 P2] [A1 A2]] F Hk Hne. unfold mime_hdr_unset_accelerators_and_presence_bits. destruct (Z.ltb_spec (m_wks_idx f) 0) as [N|N].
  { apply (index_ext mh _ hd); [by split|done..|]. intros w V. apply Hne. intros E. symmetry in E. apply (field_key f w F V) in E. lia. }
  pose proof (field_wks_range f F N) as V0. set (w0 := m_wks_idx f) in *.
  assert (K0 : fkey f = wks_key w0) by by apply field_key.
  assert (Hw : forall w, 0 <= w < n_wks -> w <> w0 -> hd' (wks_key w) = hd (wks_key w)).
  { intros w V Ne. apply Hne. rewrite K0. intros E. by apply Ne, (wks_key_inj w w0). }
  destruct (names_facts w0 V0) as [M0 S0].
  assert (PR : presence_ok (m_presence_bits (mime_hdr_presence_unset w0 mh)) hd').
  { unfold mime_hdr_presence_unset. rewrite mask_table.
    assert (B : m_presence_bits (if negb (mask w0 =? 0) then set_presence mh (Z.land (m_presence_bits mh) (u64 (Z.lnot (mask w0)))) else mh) =
      Z.ldiff (m_presence_bits mh) (mask w0)).
    { destruct (Z.eqb_spec (mask w0) 0) as [->|Nz]; [by rewrite Z.ldiff_0_r|]. simpl. apply Z.bits_inj'. intros n Hn.
      rewrite Z.land_spec, wrapu_testbit, Z.lnot_spec, Z.ldiff_spec by lia. destruct (Z.ltb_spec n 64); [done|].
      rewrite <- (wrapu_id 64 (m_presence_bits mh)), wrapu_testbit by lia. by rewrite (proj2 (Z.ltb_ge n 64)) by lia. }
    rewrite B. split.
    - assert (E : Z.ldiff (m_presence_bits mh) (mask w0) = u64 (Z.ldiff (m_presence_bits mh) (mask w0))).
      { apply Z.bits_inj'. intros n Hn. rewrite wrapu_testbit, Z.ldiff_spec by lia. destruct (Z.ltb_spec n 64); [done|].
        rewrite <- (wrapu_id 64 (m_presence_bits mh)), wrapu_testbit by lia. by rewrite (proj2 (Z.ltb_ge n 64)) by lia. }
      rewrite E. apply wrapu_range. lia.
    - intros n Hn. rewrite Z.ldiff_spec, andb_true_iff, negb_true_iff, P2 by done. split.
      + intros [(w & V & C & T) T0]. exists w. split_and!; [lia..| |done]. rewrite Hw; [done|done|]. intros ->. congruence.
      + intros (w & V & C & T). assert (Ne : w <> w0) by (intros ->; by rewrite <- K0, Hk in C). split.
        * exists w. split_and!; [lia..|by rewrite <- Hw|done].
        * destruct (Z.testbit (mask w0) n) eqn:T0; [|done]. by destruct Ne, (mask_disjoint_bit w w0 n). }
  assert (PA : m_slot_accelerators (mime_hdr_presence_unset w0 mh) = m_slot_accelerators mh) by (unfold mime_hdr_presence_unset; by case_match).
  assert (AO : forall w h, 0 <= w < n_wks -> slotid w <> -1 -> hd' (wks_key w) = Some h -> w <> w0 /\ hd (wks_key w) = Some h).
  { intros w h V S Hh. assert (Ne : w <> w0) by (intros ->; by rewrite <- K0, Hk in Hh). split; [done|]. by rewrite <- Hw. }
  rewrite slotid_table. destruct (Z.eqb_spec (slotid w0) MIME_SLOTID_NONE) as [S1|S1]; cbn [negb].
  - split; [done|]. split; [by rewrite PA|]. intros w h V S Hh. unfold mime_hdr_get_accelerator_slotnum. rewrite PA. apply A2; [done..|]. by apply AO.
  - destruct (S0 S1) as [SR _].
    assert (A' : accel_words (m_slot_accelerators (mime_hdr_presence_unset w0 mh))) by by rewrite PA.
    split; [done|]. split; [by apply set_accelerator_words|]. intros w h V S Hh. destruct (names_facts w V) as [_ SW]. destruct (SW S) as [SR' _].
    destruct (AO w h V S Hh) as [Ne Hh']. rewrite get_set_accelerator; [|done..].
    destruct (names_disjoint w w0 V V0 Ne) as [_ D]. rewrite (proj2 (Z.eqb_neq _ _)) by (intros X; by apply (D S)).
    unfold mime_hdr_get_accelerator_slotnum. rewrite PA. by apply A2.
Qed.
End index.

(** ** The invariant, without the cooked values *)

Section rep.
Context `{TokenDFA}.

Definition heads (fs : list MIMEField) (k : list Z) : option nat := head (class fs k).

Record hdr_ok (mh : MIMEHdrImpl) : Prop := {
  hdr_blocks : blocks_ok (m_fblocks mh);
  hdr_fields : Forall field_ok (slots mh);
  hdr_dups : dups_ok (slots mh);
  hdr_index : index_ok mh (heads (slots mh))
}.

(** ** Search *)

Lemma search_class p fs k i : (forall f, f ∈ fs -> p f = in_class k f) -> search_slots p fs i = head (class_from fs k i).
Proof.
  revert i. induction fs as [|f fs IH]; intros i E; [done|]. simpl. rewrite (E f) by by left.
  destruct (in_class k f); [done|]. apply IH. intros g Hg. apply E. by right.
Qed.

Lemma strncasecmp_lower a b n : (n <= length a)%nat -> (n <= length b)%nat -> Forall (fun c => c <> 0) (take n b) ->
  strncasecmp_eq a b n = true <-> lower (take n a) = lower (take n b).
Proof.
  revert a b. induction n as [|n IH]; intros [|x a] [|y b] La Lb N; try done; simpl in *; try lia.
  apply Forall_cons in N as [Ny N]. rewrite andb_true_iff, Z.eqb_eq. split.
  - intros [E R]. rewrite E. f_equal. apply IH; [lia..|done|]. destruct (Z.eqb_spec x 0) as [->|]; [|done].
    unfold ink_tolower, in_range in E. simpl in E. repeat (case_match); bsimp; lia.
  - intros E. injection E as E R. split; [done|]. rewrite drop_0, orb_true_iff. right. rewrite drop_0. apply IH; [lia..|done|done].
Qed.

(** The name of a header looked for. *)
Definition name_key (n : Name) : list Z := match n with Wks w => wks_key w | Str s => lower s end.

(** A name that may be looked for: a well-known one, or one without a NUL. *)
Definition name_ok (n : Name) : Prop :=
  match n with Wks w => 0 <= w < n_wks | Str s => Forall (fun c => c <> 0) s end.

Lemma search_by_string mh s : hdr_ok mh -> Forall (fun c => c <> 0) s -> _mime_hdr_field_list_search_by_string mh s = heads (slots mh) (lower s).
Proof.
  intros [B F _ _] N. unfold _mime_hdr_field_list_search_by_string. rewrite search_blocks_slots by done. apply search_class.
  intros f Hf. rewrite Forall_forall in F. destruct (F f Hf) as [_ L _ _ _ _]. unfold in_class. rewrite <- andb_assoc. f_equal.
  apply eq_bool_prop_intro. rewrite !Is_true_true, andb_true_iff, Z.eqb_eq, bool_decide_eq_true, Nat2Z.id.
  assert (Len : length (field_name f) = Z.to_nat (m_len_name f)) by (unfold field_name, str_of; rewrite length_take; lia).
  unfold fkey. split.
  - intros [E C]. apply strncasecmp_lower in C; [|lia|done|by rewrite take_ge]. rewrite (take_ge s) in C by lia. rewrite <- C.
    unfold field_name, str_of. by rewrite <- E, Nat2Z.id.
  - intros E. assert (Ls : length (lower s) = length s) by apply length_fmap. rewrite <- E in Ls. unfold lower in Ls. rewrite length_fmap, Len in Ls.
    split; [lia|]. apply strncasecmp_lower; [lia|done|by rewrite take_ge|]. rewrite (take_ge s), <- E by lia. unfold field_name, str_of. do 2 f_equal. lia.
Qed.

Lemma search_by_wks mh w : hdr_ok mh -> 0 <= w < n_wks -> _mime_hdr_field_list_search_by_wks mh w = heads (slots mh) (wks_key w).
Proof.
  intros [B F _ _] V. unfold _mime_hdr_field_list_search_by_wks. rewrite search_blocks_slots by done. apply search_class.
  intros f Hf. rewrite Forall_forall in F. unfold in_class. f_equal.
  apply eq_bool_prop_intro. rewrite !Is_true_true, Z.eqb_eq, bool_decide_eq_true. by apply field_key; [apply F|].
Qed.

(** A name has its presence bit exactly when it has a field. *)
Lemma presence_class mh w : hdr_ok mh -> 0 <= w < n_wks -> mask w <> 0 ->
  Z.land (m_presence_bits mh) (mask w) = 0 <-> heads (slots mh) (wks_key w) = None.
Proof.
  intros [_ _ _ [[P1 P2] _]] V M. destruct (names_facts w V) as [MR _]. split.
  - intros E. destruct (heads (slots mh) (wks_key w)) as [h|] eqn:Hd; [|done]. exfalso. apply M. apply Z.bits_inj'. intros n Hn. rewrite Z.bits_0.
    destruct (Z.testbit (mask w) n) eqn:T; [|done]. assert (Z.testbit (Z.land (m_presence_bits mh) (mask w)) n = true) as X.
    { rewrite Z.land_spec, T, andb_true_r. apply P2; [done|]. exists w. rewrite Hd. split_and!; [lia..|done|done]. }
    by rewrite E, Z.bits_0 in X.
  - intros Hd. apply Z.bits_inj'. intros n Hn. rewrite Z.land_spec, Z.bits_0. destruct (Z.testbit (mask w) n) eqn:T; [|by rewrite andb_false_r].
    rewrite andb_true_r. destruct (Z.testbit (m_presence_bits mh) n) eqn:T2; [|done]. apply P2 in T2 as (w' & V' & N' & T'); [|done].
    by rewrite (mask_disjoint_bit w' w n) in N' by done.
Qed.

(** Looking a field up, through the presence bits, the accelerators or a search,
    finds the head of the class of the name. *)
Lemma field_find_ok mh n : hdr_ok mh -> name_ok n -> mime_hdr_field_find mh n = heads (slots mh) (name_key n).
Proof.
  intros OK N. destruct n as [w|s]; cbn [name_ok name_key mime_hdr_field_find] in *; [|by apply search_by_string].
  rewrite mask_table, slotid_table. destruct (Z.eqb_spec (mask w) 0) as [M|M]; cbn [negb andb].
  - destruct (Z.eqb_spec (slotid w) MIME_SLOTID_NONE) as [S|S]; [by apply search_by_wks|]. by destruct (names_facts w N) as [_ [_ X]].
  - pose proof (presence_class mh w OK N M) as P. destruct (Z.eqb_spec (Z.land (m_presence_bits mh) (mask w)) 0) as [Z0|Z0]; cbn [negb].
    { symmetry. by apply P. }
    destruct (Z.eqb_spec (slotid w) MIME_SLOTID_NONE) as [S|S]; [by apply search_by_wks|].
    destruct (heads (slots mh) (wks_key w)) as [h|] eqn:Hd; [|tauto].
    destruct (hdr_index mh OK) as [_ [_ A]]. rewrite (A w h N S Hd).
    destruct (Z.eqb_spec (Z.min (Z.of_nat h) MIME_FIELD_SLOTNUM_UNKNOWN) MIME_FIELD_SLOTNUM_UNKNOWN) as [U|U]; cbn [negb].
    { rewrite <- Hd. by apply search_by_wks. }
    rewrite Z.min_l, Nat2Z.id by lia. rewrite search_by_slotnum by apply OK. rewrite decide_True; [done|].
    assert (Hh : h ∈ class (slots mh) (wks_key w)) by (unfold heads in Hd; destruct (class _ _); [done|]; injection Hd as ->; by left).
    apply elem_class in Hh as (f & Ef & _). by apply lookup_lt_Some in Ef.
Qed.

(** The name of a field, as a name to look for. *)
Lemma field_name_key f : field_ok f -> name_ok (mime_field_name_get f) /\ name_key (mime_field_name_get f) = fkey f.
Proof.
  intros F. unfold mime_field_name_get. destruct (Z.geb_spec (m_wks_idx f) 0); simpl.
  - pose proof (field_wks_range f F ltac:(done)) as V. split; [done|]. symmetry. by apply field_key.
  - split; [apply F|done].
Qed.
End rep.

(** ** Links and heads

    Two lists of slots with the same fields but for links and flags. *)

Definition erase (f : MIMEField) : MIMEField := set_next_dup None (set_dup_head false f).

Lemma in_class_erase k f : in_class k (erase f) = in_class k f.
Proof. done. Qed.

Lemma class_erase fs fs' k : erase <$> fs = erase <$> fs' -> class fs k = class fs' k.
Proof.
  intros E. apply class_ext; [by rewrite <- (length_fmap erase), E, length_fmap|]. intros j f f' Hf Hf'.
  assert (X : erase f = erase f').
  { assert (Y : (erase <$> fs) !! j = Some (erase f)) by by rewrite list_lookup_fmap, Hf.
    rewrite E, list_lookup_fmap, Hf' in Y. apply (inj Some) in Y. by symmetry. }
  change (in_class k (erase f) = in_class k (erase f')). by rewrite X.
Qed.

Lemma erase_alter (fs : list MIMEField) (n : nat) g : (forall f, erase (g f) = erase f) -> erase <$> alter g n fs = erase <$> fs.
Proof.
  intros G. apply list_eq. intros i. rewrite !list_lookup_fmap. destruct (decide (i = n)) as [->|]; [|by rewrite list_lookup_alter_ne].
  rewrite list_lookup_alter_eq. destruct (fs !! n); simpl; [|done]. by rewrite G.
Qed.

Lemma lookup_alter_case {A} (g : A -> A) n (l : list A) i : alter g n l !! i = if decide (i = n) then g <$> l !! n else l !! i.
Proof. destruct (decide (i = n)) as [->|]; [by rewrite list_lookup_alter_eq|by rewrite list_lookup_alter_ne]. Qed.

Section insertion.
Variables (fs : list MIMEField) (k : nat) (f : MIMEField).
Hypothesis OK : dups_ok fs.
Hypothesis Hk : fs !! k = Some f.
Hypothesis Dead : is_live f = false.
Hypothesis Unlinked : m_next_dup f = None.

Let K := fkey f.
Let l1 := below fs K k.
Let l2 := above fs K k.
Let fs1 := alter (set_readiness MIME_FIELD_SLOT_READINESS_LIVE) k fs.

Lemma insertion_old : class fs K = l1 ++ l2.
Proof. rewrite (class_split fs K k f Hk). unfold in_class. by rewrite Dead. Qed.

Lemma insertion_new : class fs1 K = l1 ++ k :: l2.
Proof.
  unfold fs1. rewrite (class_alter fs K k f _ Hk). unfold in_class. simpl. by rewrite bool_decide_true by done.
Qed.

Lemma insertion_other k' : k' <> K -> class fs1 k' = class fs k'.
Proof.
  intros N. unfold fs1. rewrite (class_alter fs k' k f _ Hk), (class_split fs k' k f Hk). unfold in_class. rewrite Dead. simpl.
  rewrite bool_decide_false; [done|]. unfold K in N. intros E. by rewrite <- E in N.
Qed.

(** [fs2] differs from [fs1] in links and flags of the class only. *)
Lemma insertion_others fs2 : erase <$> fs2 = erase <$> fs1 -> (forall i, i <> k -> i ∉ class fs K -> fs2 !! i = fs !! i) ->
  lseg fs2 (l1 ++ k :: l2) None -> (forall i g, fs2 !! i = Some g -> i ∈ l1 ++ k :: l2 -> m_dup_head g = bool_decide (head (l1 ++ k :: l2) = Some i)) ->
  dups_ok fs2.
Proof.
  intros E U L Hd k'. destruct (decide (k' = K)) as [->|N].
  - rewrite (class_erase _ _ _ E), insertion_new. split; [done|]. intros i g Hg C. rewrite (class_erase _ _ _ E), insertion_new.
    apply Hd; [done|]. rewrite <- insertion_new, <- (class_erase _ _ _ E). apply elem_class. eauto.
  - apply (dups_other fs); [|by rewrite (class_erase _ _ _ E), insertion_other|apply OK].
    intros i g Hg C. rewrite U; [done| |].
    + intros ->. rewrite Hk in Hg. injection Hg as <-. unfold in_class in C. by rewrite Dead in C.
    + intros (g' & Hg' & C')%elem_class. rewrite Hg in Hg'. injection Hg' as <-. apply in_class_true in C as [_ C], C' as [_ C']. congruence.
Qed.

Lemma insertion_not_old : k ∉ l1 ++ l2.
Proof. rewrite elem_of_app. intros [I%below_lt|I%above_gt]; lia. Qed.

(** The links of the class before. *)
Lemma insertion_links : lseg fs1 l1 (head l2) /\ lseg fs1 l2 None.
Proof.
  destruct (OK K) as [L _]. rewrite insertion_old, dup_lseg_app in L.
  assert (E : forall i, i ∈ l1 ++ l2 -> nxt fs i = nxt fs1 i).
  { intros i Hi. unfold fs1. rewrite nxt_alter, decide_False; [done|]. intros ->. by apply insertion_not_old. }
  destruct L as [La Lb]. split; (eapply lseg_ext; [intros i Hi; apply E, elem_of_app; tauto|]); [|done]. by destruct l2.
Qed.

Lemma insertion_flags i g : i ∈ l1 ++ l2 -> fs !! i = Some g -> m_dup_head g = bool_decide (head (l1 ++ l2) = Some i).
Proof.
  intros Hi Hg. destruct (OK K) as [_ Hd]. rewrite <- insertion_old in *. apply Hd; [done|]. apply elem_class in Hi as (g' & Hg' & C). congruence.
Qed.

(** No field of the name yet. *)
Lemma insert_alone : l1 = [] -> l2 = [] -> dups_ok (alter (set_dup_head true) k fs1).
Proof.
  intros E1 E2. apply insertion_others; rewrite ?E1, ?E2; simpl.
  - by apply erase_alter.
  - intros i N _. rewrite lookup_alter_case, decide_False by done. unfold fs1. by rewrite lookup_alter_case, decide_False.
  - split; [|done]. rewrite nxt_alter, decide_True by done. unfold fs1. rewrite lookup_alter_case, decide_True, Hk by done. simpl. by rewrite Unlinked.
  - intros i g Hg Hi. apply list_elem_of_singleton in Hi as ->. rewrite lookup_alter_case, decide_True in Hg by done.
    apply fmap_Some in Hg as (g' & _ & ->). by rewrite bool_decide_true.
Qed.

(** A field before all others of its name. *)
Lemma insert_head p l : l1 = [] -> l2 = p :: l ->
  dups_ok (alter (set_dup_head true) k (alter (set_dup_head false) p (alter (set_next_dup (Some p)) k fs1))).
Proof.
  intros E1 E2. destruct insertion_links as [_ L]. rewrite E2 in L.
  assert (Np : p <> k). { intros ->. apply insertion_not_old. rewrite E2, elem_of_app. right. by left. }
  assert (Hp : exists g, fs !! p = Some g). { assert (I : p ∈ class fs K) by (rewrite insertion_old, E1, E2; by left). apply elem_class in I as (g & ? & _). eauto. }
  destruct Hp as [gp Hp].
  assert (LK : forall i, alter (set_dup_head true) k (alter (set_dup_head false) p (alter (set_next_dup (Some p)) k fs1)) !! i =
    if decide (i = k) then Some (set_dup_head true (set_next_dup (Some p) (set_readiness MIME_FIELD_SLOT_READINESS_LIVE f)))
    else if decide (i = p) then Some (set_dup_head false gp) else fs !! i).
  { intros i. rewrite lookup_alter_case. destruct (decide (i = k)) as [->|N].
    - rewrite lookup_alter_case, decide_False by done. rewrite lookup_alter_case, decide_True by done. unfold fs1.
      by rewrite lookup_alter_case, decide_True, Hk.
    - rewrite lookup_alter_case. destruct (decide (i = p)) as [->|N2]; rewrite lookup_alter_case, decide_False by done; unfold fs1;
        rewrite lookup_alter_case, decide_False by done; [by rewrite Hp|done]. }
  apply insertion_others; rewrite ?E1, ?E2; simpl.
  - by rewrite !erase_alter by done.
  - intros i N C. rewrite LK, !decide_False; [done| |done]. intros ->. apply C. rewrite insertion_old, E1, E2. by left.
  - split; [unfold nxt; by rewrite LK, decide_True|]. change (lseg (alter (set_dup_head true) k (alter (set_dup_head false) p (alter (set_next_dup (Some p)) k fs1))) (p :: l) None).
    eapply lseg_ext, L. intros i Hi. assert (Ni : i <> k). { intros ->. apply insertion_not_old. rewrite E2, elem_of_app. by right. }
    unfold nxt. rewrite LK, (decide_False (P := i = k)) by done. unfold fs1. rewrite lookup_alter_case, decide_False by done.
    destruct (decide (i = p)) as [->|]; [by rewrite Hp|done].
  - intros i g Hg Hi. rewrite LK in Hg. destruct (decide (i = k)) as [->|Ni]; [injection Hg as <-; by rewrite bool_decide_true|].
    rewrite (bool_decide_false (Some k = Some i)) by congruence. destruct (decide (i = p)) as [->|Np2]; [by injection Hg as <-|].
    apply elem_of_cons in Hi as [|Hi]; [done|]. rewrite (insertion_flags i g); [|by rewrite E1, E2|done].
    rewrite E1, E2. simpl. rewrite bool_decide_false; [done|]. congruence.
Qed.

(** A field after another of its name. *)
Lemma insert_after p l : l1 = l ++ [p] ->
  dups_ok (alter (set_next_dup (head l2)) k (alter (set_next_dup (Some k)) p (alter (set_dup_head false) k fs1))).
Proof.
  intros E1. destruct insertion_links as [La Lb]. rewrite E1, dup_lseg_app in La. destruct La as [La Lp].
  assert (Np : p <> k). { intros ->. apply insertion_not_old. rewrite E1, !elem_of_app. left. right. by left. }
  assert (Ip : p ∈ l1 ++ l2) by (rewrite E1, !elem_of_app; left; right; by left).
  assert (Hp : exists g, fs !! p = Some g). { rewrite <- insertion_old in Ip. apply elem_class in Ip as (g & ? & _). eauto. }
  destruct Hp as [gp Hp].
  set (fs2 := alter (set_next_dup (head l2)) k (alter (set_next_dup (Some k)) p (alter (set_dup_head false) k fs1))).
  assert (LK : forall i, fs2 !! i =
    if decide (i = k) then Some (set_next_dup (head l2) (set_dup_head false (set_readiness MIME_FIELD_SLOT_READINESS_LIVE f)))
    else if decide (i = p) then Some (set_next_dup (Some k) gp) else fs !! i).
  { intros i. unfold fs2. rewrite lookup_alter_case. destruct (decide (i = k)) as [->|N].
    - rewrite lookup_alter_case, decide_False by done. rewrite lookup_alter_case, decide_True by done. unfold fs1.
      by rewrite lookup_alter_case, decide_True, Hk.
    - rewrite lookup_alter_case. destruct (decide (i = p)) as [->|N2]; rewrite lookup_alter_case, decide_False by done; unfold fs1;
        rewrite lookup_alter_case, decide_False by done; [by rewrite Hp|done]. }
  assert (KP : forall i, i ∈ l ++ l2 -> i <> k). { intros i Hi ->. apply insertion_not_old. rewrite E1. set_solver. }
  assert (SR : forall i, i ∈ l ++ l2 -> i <> p).
  { intros i Hi ->. pose proof (NoDup_class fs K) as ND. rewrite insertion_old, E1, <- app_assoc in ND. apply NoDup_app in ND as (_ & N1 & N2).
    simpl in N2. apply NoDup_cons in N2 as [N2 _]. apply elem_of_app in Hi as [Hi|Hi]; [|done]. apply (N1 p Hi). by left. }
  assert (NX : forall i, i ∈ l ++ l2 -> nxt fs1 i = nxt fs2 i).
  { intros i Hi. unfold nxt. rewrite LK, !decide_False by auto. unfold fs1. rewrite lookup_alter_case, decide_False by auto. done. }
  apply insertion_others.
  - unfold fs2. by rewrite !erase_alter by done.
  - intros i N C. rewrite LK, !decide_False; [done| |done]. intros ->. apply C. by rewrite insertion_old.
  - rewrite E1, <- app_assoc. apply dup_lseg_app. split; [|split; [unfold nxt; by rewrite LK, decide_False, decide_True|split]].
    + eapply lseg_ext, La. intros i Hi. apply NX. apply elem_of_app. by left.
    + unfold nxt. rewrite LK, decide_True by done. by destruct l2.
    + eapply lseg_ext, Lb. intros i Hi. apply NX. apply elem_of_app. by right.
  - intros i g Hg Hi. assert (HD : head (l1 ++ k :: l2) = head (l1 ++ l2)) by (rewrite E1; by destruct l). rewrite HD.
    assert (HK : head (l1 ++ l2) <> Some k).
    { intros X. apply insertion_not_old. destruct (l1 ++ l2) as [|x r]; [done|]. injection X as ->. by left. }
    rewrite LK in Hg. destruct (decide (i = k)) as [->|Ni]; [injection Hg as <-; by rewrite bool_decide_false|].
    destruct (decide (i = p)) as [->|Nip]; [injection Hg as <-; exact (insertion_flags p gp Ip Hp)|].
    apply insertion_flags; [|done]. apply elem_of_app in Hi as [Hi|Hi]; [set_solver|]. apply elem_of_cons in Hi as [|Hi]; [done|set_solver].
Qed.
End insertion.

(** ** Removing a field from its class *)

Section removal.
Variables (fs : list MIMEField) (k : nat) (f : MIMEField).
Hypothesis OK : dups_ok fs.
Hypothesis Hk : fs !! k = Some f.
Hypothesis Live : is_live f = true.

Let K := fkey f.
Let l1 := below fs K k.
Let l2 := above fs K k.

Lemma removal_old : class fs K = l1 ++ k :: l2.
Proof. rewrite (class_split fs K k f Hk). unfold in_class. by rewrite Live, bool_decide_true. Qed.

Lemma removal_not : k ∉ l1 ++ l2.
Proof. rewrite elem_of_app. intros [I%below_lt|I%above_gt]; lia. Qed.

Lemma removal_links : lseg fs l1 (Some k) /\ nxt fs k = Some (head l2) /\ lseg fs l2 None.
Proof.
  destruct (OK K) as [L _]. rewrite removal_old, dup_lseg_app in L. simpl in L. destruct L as (La & Lk & Lb). split_and!; [done| |done].
  by destruct l2.
Qed.

Lemma removal_flags i g : i ∈ l1 ++ k :: l2 -> fs !! i = Some g -> m_dup_head g = bool_decide (head (l1 ++ k :: l2) = Some i).
Proof.
  intros Hi Hg. destruct (OK K) as [_ Hd]. rewrite <- removal_old in *. apply Hd; [done|]. apply elem_class in Hi as (g' & Hg' & C). congruence.
Qed.

(** The field out of the list and the flags set: [fs2] differs from [fs] in links
    and flags of the class, and in [k], which is not live. *)
Lemma removal_classes fs2 : length fs2 = length fs ->
  (forall i, i <> k -> erase <$> fs2 !! i = erase <$> fs !! i) -> (forall g, fs2 !! k = Some g -> is_live g = false) ->
  class fs2 K = l1 ++ l2 /\ forall k', k' <> K -> class fs2 k' = class fs k'.
Proof.
  intros Len E D.
  assert (G : exists g, fs2 !! k = Some g) by (apply lookup_lt_is_Some; rewrite Len; by apply lookup_lt_Some in Hk).
  destruct G as [g Hg].
  assert (Ea : forall j, erase <$> alter (fun _ => g) k fs !! j = erase <$> fs2 !! j).
  { intros j. rewrite lookup_alter_case. destruct (decide (j = k)) as [->|N]; [by rewrite Hk, Hg|by rewrite E]. }
  assert (C : forall k', class fs2 k' = class (alter (fun _ => g) k fs) k').
  { intros k'. apply class_erase. apply list_eq. intros j. by rewrite !list_lookup_fmap, Ea. }
  split; [|intros k' N]; rewrite C, (class_alter fs _ k f _ Hk); unfold in_class; rewrite (D g Hg); [done|].
  rewrite (class_split fs k' k f Hk). unfold in_class. rewrite (bool_decide_false (fkey f = k')); [by rewrite andb_false_r|]. intros X. by apply N.
Qed.

Lemma removal_others fs2 : length fs2 = length fs ->
  (forall i, i <> k -> erase <$> fs2 !! i = erase <$> fs !! i) -> (forall g, fs2 !! k = Some g -> is_live g = false) ->
  (forall i, i ∉ class fs K -> fs2 !! i = fs !! i) ->
  lseg fs2 (l1 ++ l2) None -> (forall i g, fs2 !! i = Some g -> i ∈ l1 ++ l2 -> m_dup_head g = bool_decide (head (l1 ++ l2) = Some i)) ->
  dups_ok fs2.
Proof.
  intros Len E D U L Hd k'. destruct (removal_classes fs2 Len E D) as [C1 C2]. destruct (decide (k' = K)) as [->|N].
  - rewrite C1. split; [done|]. intros i g Hg C. rewrite C1. apply Hd; [done|]. rewrite <- C1. apply elem_class. eauto.
  - apply (dups_other fs); [|by rewrite C2|apply OK]. intros i g Hg C. rewrite U; [done|]. intros (g' & Hg' & C')%elem_class.
    rewrite Hg in Hg'. injection Hg' as <-. apply in_class_true in C as [_ C], C' as [_ C']. congruence.
Qed.

Definition dead (g : MIMEField) : MIMEField := set_next_dup None (set_readiness MIME_FIELD_SLOT_READINESS_DETACHED g).

Lemma class_member i : i ∈ class fs K -> exists g, fs !! i = Some g.
Proof. intros (g & ? & _)%elem_class. eauto. Qed.

(** The head of the class, which flags the next one, if there is one. *)
Lemma remove_head : l1 = [] -> dups_ok (alter dead k (match l2 with [] => fs | n :: _ => alter (set_dup_head true) n fs end)).
Proof.
  intros E1. destruct removal_links as (_ & _ & Lb).
  assert (Nn : forall i, i ∈ l2 -> i <> k). { intros i Hi ->. apply removal_not. apply elem_of_app. by right. }
  set (fs2 := alter dead k _).
  assert (LK : forall i, fs2 !! i = if decide (i = k) then Some (dead f) else if decide (Some i = head l2) then set_dup_head true <$> fs !! i else fs !! i).
  { intros i. unfold fs2. rewrite lookup_alter_case. destruct l2 as [|n l]; simpl.
    - destruct (decide (i = k)); [by rewrite Hk|]. done.
    - rewrite !lookup_alter_case. assert (n <> k) by (apply Nn; by left). rewrite (decide_False (P := k = n)) by done. destruct (decide (i = k)); [by rewrite Hk|].
      destruct (decide (i = n)) as [->|]; [by rewrite decide_True|]. rewrite decide_False by congruence. done. }
  apply removal_others.
  - unfold fs2. rewrite length_alter. destruct l2; [done|]. by rewrite length_alter.
  - intros i N. rewrite LK, decide_False by done. case_decide; [|done]. by destruct (fs !! i).
  - intros g. rewrite LK, decide_True by done. by intros [= <-].
  - intros i N. rewrite removal_old, E1 in N. simpl in N. rewrite LK, !decide_False; [done| |set_solver]. intros X. apply N. right. destruct l2; [done|].
    injection X as ->. by left.
  - rewrite E1. simpl. eapply lseg_ext, Lb. intros i Hi. unfold nxt. rewrite LK, decide_False by auto. case_decide; [|done]. by destruct (fs !! i).
  - intros i g Hg Hi. rewrite E1 in Hi |- *. simpl in *. rewrite LK, decide_False in Hg by auto. destruct (decide (Some i = head l2)) as [X|X].
    + rewrite bool_decide_true by done. apply fmap_Some in Hg as (g' & _ & ->). done.
    + rewrite bool_decide_false by done. rewrite (removal_flags i g); [|rewrite E1; by right|done]. rewrite E1. simpl. apply bool_decide_eq_false. intros [= ->]. by apply (Nn i).
Qed.

(** A field that follows [p]. *)
Lemma remove_after p l : l1 = l ++ [p] -> dups_ok (alter dead k (alter (set_next_dup (m_next_dup f)) p fs)).
Proof.
  intros E1. destruct removal_links as (La & Lk & Lb). rewrite E1, dup_lseg_app in La. destruct La as [La _].
  assert (Fn : m_next_dup f = head l2) by (unfold nxt in Lk; rewrite Hk in Lk; by injection Lk). rewrite Fn.
  assert (Nn : forall i, i ∈ l1 ++ l2 -> i <> k). { intros i Hi ->. by apply removal_not. }
  assert (Np : p <> k). { apply Nn. rewrite E1. set_solver. }
  assert (ND : NoDup (l1 ++ k :: l2)) by (rewrite <- removal_old; apply NoDup_class).
  assert (SR : forall i, i ∈ l ++ l2 -> i <> p).
  { intros i Hi ->. rewrite E1, <- app_assoc in ND. apply NoDup_app in ND as (_ & N1 & N2). simpl in N2. apply NoDup_cons in N2 as [N2 _].
    apply elem_of_app in Hi as [Hi|Hi]; [apply (N1 p Hi); by left|apply N2; by right]. }
  set (fs2 := alter dead k _).
  assert (LK : forall i, fs2 !! i = if decide (i = k) then Some (dead f) else if decide (i = p) then set_next_dup (head l2) <$> fs !! i else fs !! i).
  { intros i. unfold fs2. rewrite !lookup_alter_case. rewrite (decide_False (P := k = p)) by done. destruct (decide (i = k)); [by rewrite Hk|].
    by destruct (decide (i = p)) as [->|]. }
  assert (NX : forall i, i ∈ l ++ l2 -> nxt fs i = nxt fs2 i).
  { intros i Hi. unfold nxt. rewrite LK, !decide_False; [done|auto|]. apply Nn. rewrite E1. set_solver. }
  assert (HD : head (l1 ++ k :: l2) = head (l1 ++ l2)) by (rewrite E1; by destruct l).
  apply removal_others.
  - unfold fs2. by rewrite !length_alter.
  - intros i N. rewrite LK, decide_False by done. case_decide; [|done]. by destruct (fs !! i).
  - intros g. rewrite LK, decide_True by done. by intros [= <-].
  - intros i N. rewrite removal_old, E1 in N. rewrite LK, !decide_False; [done|set_solver..].
  - rewrite E1, <- app_assoc. apply dup_lseg_app. split; [|split].
    + eapply lseg_ext, La. intros i Hi. apply NX. apply elem_of_app. by left.
    + unfold nxt. rewrite LK, decide_False, decide_True by done. destruct (class_member p) as [g Hg]; [rewrite removal_old, E1; set_solver|].
      rewrite Hg. simpl. by destruct l2.
    + eapply lseg_ext, Lb. intros i Hi. apply NX. apply elem_of_app. by right.
  - intros i g Hg Hi. rewrite <- HD. rewrite LK, decide_False in Hg by auto.
    assert (Hi' : i ∈ l1 ++ k :: l2) by set_solver.
    destruct (decide (i = p)); [|by apply removal_flags]. apply fmap_Some in Hg as (g' & Hg & ->). exact (removal_flags i g' Hi' Hg).
Qed.
End removal.
