(* ===== verification/MimeHdrAttach.v ===== *)
(** What attaching and detaching one field do to a well-formed MIME header, apart
    from its cooked values: [link_field] and [unlink_field] of [MimeHdrOps]. *)

From S2P Require Import Prelude ParseRules MimeDate HdrToken MimePrint URL HdrFieldInfo MimeHdr MimeHdrOps MimeHdrFacts MimeHdrRep.

#[local] Opaque find_token.

Notation LIVE := MIME_FIELD_SLOT_READINESS_LIVE (only parsing).
Notation DETACHED := MIME_FIELD_SLOT_READINESS_DETACHED (only parsing).

(** ** Changes that keep the fields well formed *)

Lemma fields_alter fs n g : Forall field_ok fs -> (forall f, fs !! n = Some f -> field_ok f -> field_ok (g f)) -> Forall field_ok (alter g n fs).
Proof. intros F G. apply Forall_alter; [done|]. intros f Hf X. by apply G. Qed.

Lemma field_ok_head b f : field_ok f -> field_ok (set_dup_head b f).
Proof. by intros []; constructor. Qed.

Lemma field_ok_live f : field_ok f -> field_ok (set_readiness LIVE f).
Proof. intros []; by constructor. Qed.

Lemma field_ok_next n f : is_live f = true -> field_ok f -> field_ok (set_next_dup n f).
Proof. intros L []; constructor; try done. unfold is_live in *. simpl in *. congruence. Qed.

Lemma field_ok_unlink r f : field_ok f -> field_ok (set_next_dup None (set_readiness r f)).
Proof. intros []; by constructor. Qed.

Lemma class_length fs k : (length (class fs k) <= length fs)%nat.
Proof.
  unfold class. generalize 0%nat. induction fs as [|f fs IH]; intros i; simpl; [lia|]. specialize (IH (S i)). case_match; simpl; lia.
Qed.


Lemma snoc_case {A} (l : list A) : l = [] \/ exists l' x, l = l' ++ [x].
Proof. induction l as [|x l _] using rev_ind; [by left|right; eauto]. Qed.

Lemma set_accelerators_slots `{TokenDFA} k f mh : slots (mime_hdr_set_accelerators_and_presence_bits k f mh) = slots mh /\
  m_fblocks (mime_hdr_set_accelerators_and_presence_bits k f mh) = m_fblocks mh /\
  m_cooked_stuff (mime_hdr_set_accelerators_and_presence_bits k f mh) = m_cooked_stuff mh.
Proof. unfold mime_hdr_set_accelerators_and_presence_bits, mime_hdr_presence_set. repeat case_match; done. Qed.

Lemma unset_accelerators_slots `{TokenDFA} f mh : slots (mime_hdr_unset_accelerators_and_presence_bits f mh) = slots mh /\
  m_fblocks (mime_hdr_unset_accelerators_and_presence_bits f mh) = m_fblocks mh /\
  m_cooked_stuff (mime_hdr_unset_accelerators_and_presence_bits f mh) = m_cooked_stuff mh.
Proof. unfold mime_hdr_unset_accelerators_and_presence_bits, mime_hdr_presence_unset. repeat case_match; done. Qed.

(** ** Attach *)

(** Where the walk finds the right place: the field is before the second of the
    class, or after all. *)
Definition attach_pos (l : list nat) (k : nat) : Prop :=
  match l with _ :: p1 :: _ => (p1 < k)%nat -> Forall (fun i => i < k)%nat l | _ => True end.

Lemma attach_walk_end fuel mh k ns prev ps r : blocks_ok (m_fblocks mh) -> lseg (slots mh) (prev :: r) None -> ps < k -> ns < k -> (length r < fuel)%nat ->
  exists q ps', attach_walk fuel mh k ns prev ps (head r) = Some (q, ps', None) /\ last (prev :: r) = Some q /\ ps' < k.
Proof.
  intros B. revert prev ps r. induction fuel as [|fuel IH]; intros prev ps r L Hp Hn Hf; [lia|]. cbn [attach_walk].
  rewrite (proj2 (Z.ltb_lt _ _)) by done. destruct r as [|n r]; cbn [head]; [by exists prev, ps|].
  rewrite Z.gtb_ltb, (proj2 (Z.ltb_ge _ _)) by lia. destruct L as [_ L]. assert (L' := L). destruct L' as [Ln _]. unfold nxt in Ln. simpl in Hf.
  rewrite field_at_slots by done. destruct (slots mh !! n) as [f|] eqn:En; [|done]. simpl in Ln. injection Ln as Ln. cbn [mbind option_bind].
  rewrite Ln. destruct (IH n ns r L) as (q & ps' & E & Hl & ?); [done..|lia|]. exists q, ps'. split_and!; [|done|done].
  rewrite <- E. by destruct r.
Qed.

#[local] Hint Resolve upd_blocks_ok : ts.
#[local] Hint Resolve field_ok_head field_ok_live field_ok_unlink : ts.

Section attach.
Context `{TokenDFA} (mh : MIMEHdrImpl) (k : nat) (f : MIMEField).
Hypothesis OK : hdr_ok mh.
Hypothesis Hk : slots mh !! k = Some f.
Hypothesis Det : m_readiness f = DETACHED.

Let K := fkey f.
Let mh1 := upd k (set_readiness LIVE) mh.

Lemma attach_dead : is_live f = false.
Proof. unfold is_live. by rewrite Det. Qed.

Lemma attach_field_ok : field_ok f.
Proof. destruct OK as [_ F _ _]. rewrite Forall_forall in F. apply F. by eapply list_elem_of_lookup_2. Qed.

Lemma attach_slots1 : blocks_ok (m_fblocks mh1) /\ slots mh1 = alter (set_readiness LIVE) k (slots mh) /\ Forall field_ok (slots mh1).
Proof.
  destruct OK as [B F _ _]. unfold mh1. rewrite slots_upd by done. split_and!; [by apply upd_blocks_ok|done|].
  apply fields_alter; [done|]. auto with ts.
Qed.

(** A header with the links in place. *)
Lemma attach_done mh2 : blocks_ok (m_fblocks mh2) -> Forall field_ok (slots mh2) -> dups_ok (slots mh2) ->
  erase <$> slots mh2 = erase <$> slots mh1 ->
  index_ok mh2 (heads (slots mh2)) -> m_cooked_stuff mh2 = m_cooked_stuff mh ->
  hdr_ok mh2 /\ erase <$> slots mh2 = erase <$> alter (set_readiness LIVE) k (slots mh) /\ m_cooked_stuff mh2 = m_cooked_stuff mh.
Proof. intros. destruct attach_slots1 as (_ & <- & _). done. Qed.

Lemma attach_heads fs2 : erase <$> fs2 = erase <$> slots mh1 ->
  heads fs2 K = head (below (slots mh) K k ++ k :: above (slots mh) K k) /\ forall k', k' <> K -> heads fs2 k' = heads (slots mh) k'.
Proof.
  intros E. destruct attach_slots1 as (_ & S1 & _). unfold heads. split; [|intros k' N]; rewrite (class_erase _ _ _ E), S1.
  - f_equal. by apply insertion_new.
  - f_equal. by apply (insertion_other (slots mh) k f Hk attach_dead).
Qed.

(** The field at the head of its class. *)
Lemma attach_head_ok mh2 : blocks_ok (m_fblocks mh2) -> slots mh2 = slots mh2 -> m_presence_bits mh2 = m_presence_bits mh ->
  m_slot_accelerators mh2 = m_slot_accelerators mh -> m_cooked_stuff mh2 = m_cooked_stuff mh ->
  Forall field_ok (slots mh2) -> erase <$> slots mh2 = erase <$> slots mh1 -> below (slots mh) K k = [] ->
  dups_ok (alter (set_dup_head true) k (slots mh2)) ->
  hdr_ok (attach_head k f mh2) /\ erase <$> slots (attach_head k f mh2) = erase <$> alter (set_readiness LIVE) k (slots mh) /\
  m_cooked_stuff (attach_head k f mh2) = m_cooked_stuff mh.
Proof.
  intros B _ P A C F E Bl D. unfold attach_head. destruct (set_accelerators_slots k f (upd k (set_dup_head true) mh2)) as (S2 & B2 & C2).
  rewrite slots_upd in S2 by done. assert (E' : erase <$> alter (set_dup_head true) k (slots mh2) = erase <$> slots mh1) by by rewrite erase_alter.
  destruct (attach_heads _ E') as [Hd1 Hd2]. rewrite Bl in Hd1. simpl in Hd1.
  apply attach_done; rewrite ?S2, ?B2, ?C2; try done; [by apply upd_blocks_ok|apply fields_alter; auto with ts|].
  apply (index_set _ (heads (slots mh))); [|apply attach_field_ok|done|done].
  eapply index_ext; [apply OK|done..].
Qed.

(** The walk finds the last field of the class before the new one. *)
Lemma attach_walk_ok p l : attach_pos (below (slots mh) K k ++ above (slots mh) K k) k -> below (slots mh) K k = l ++ [p] ->
  exists ps p0, head (below (slots mh) K k ++ above (slots mh) K k) = Some p0 /\ ps < Z.of_nat k /\ exists pf, field_at mh1 p0 = Some pf /\
    attach_walk (dups_fuel mh1) mh1 (mime_hdr_field_slotnum mh1 k) (match m_next_dup pf with Some n => mime_hdr_field_slotnum mh1 n | None => -1 end)
      p0 (mime_hdr_field_slotnum mh1 p0) (m_next_dup pf) = Some (p, ps, head (above (slots mh) K k)).
Proof.
  destruct attach_slots1 as (B1 & S1 & F1). pose proof attach_dead as Dead. pose proof (hdr_dups mh OK) as D.
  destruct (insertion_links (slots mh) k f D Hk Dead) as [La Lb]. fold K in La, Lb. rewrite <- S1 in La, Lb.
  pose proof (insertion_old (slots mh) k f Hk Dead) as Old. fold K in Old.
  pose proof (class_length (slots mh) K) as CL. rewrite Old, length_app in CL.
  assert (Kl : (k < length (slots mh1))%nat) by (rewrite S1, length_alter; by apply lookup_lt_Some in Hk).
  pose proof (below_lt (slots mh) K k) as BL. pose proof (above_gt (slots mh) K k) as AG.
  assert (SN : forall i, i ∈ below (slots mh) K k ++ above (slots mh) K k -> mime_hdr_field_slotnum mh1 i = Z.of_nat i).
  { intros i Hi. apply slotnum_slots; [done|]. rewrite S1, length_alter. rewrite <- Old in Hi. apply elem_class in Hi as (g & Hg & _). by apply lookup_lt_Some in Hg. }
  set (l1 := below (slots mh) K k) in *. set (l2 := above (slots mh) K k) in *. intros AP E1.
  assert (DF : exists n, dups_fuel mh1 = S n /\ (length l1 <= n)%nat).
  { exists (length (slots mh1)). split; [done|]. rewrite S1, length_alter. lia. }
  destruct DF as (n & -> & Ln). rewrite slotnum_slots by done.
  destruct l1 as [|p0 r] eqn:El; [by destruct l|]. destruct La as [Lp La].
  unfold nxt in Lp. destruct (slots mh1 !! p0) as [pf|] eqn:Ep; [|done]. simpl in Lp. injection Lp as Lp.
  assert (G0 : (p0 < k)%nat) by (apply BL; by left).
  destruct r as [|p1 r].
  - exists (Z.of_nat p0), p0. split; [done|]. split; [lia|]. exists pf. split; [by rewrite field_at_slots|]. cbn [attach_walk].
    rewrite (SN p0) by (by left). rewrite (proj2 (Z.ltb_lt _ _)) by lia. destruct l; [|by destruct l]. injection E1 as <-.
    rewrite Lp. destruct l2 as [|q l2]; cbn [head]; [done|]. assert (k < q)%nat by (apply AG; by left).
    rewrite (SN q) by (right; by left). rewrite Z.gtb_ltb, (proj2 (Z.ltb_lt _ _)) by lia. done.
  - assert (G1 : (p1 < k)%nat) by (apply BL; right; by left). simpl in AP. specialize (AP G1).
    assert (l2 = []) as E2. { destruct l2 as [|q l2]; [done|]. assert (k < q)%nat by (apply AG; by left).
      rewrite Forall_forall in AP. specialize (AP q ltac:(set_solver)). lia. }
    rewrite E2 in *.
    destruct (attach_walk_end (S n) mh1 (Z.of_nat k) (Z.of_nat p1) p0 (Z.of_nat p0) (p1 :: r)) as (q & ps & W & Hl & Hq); [done| |lia..|simpl in *; lia|].
    { split; [|done]. unfold nxt. rewrite Ep. simpl. by rewrite Lp. }
    exists ps, p0. split; [done|]. split; [done|]. exists pf. split; [by rewrite field_at_slots|]. rewrite E1, last_snoc in Hl. injection Hl as <-.
    rewrite Lp, (SN p1) by (right; by left). rewrite (SN p0) by (by left). exact W.
Qed.

(** [link_field] puts the field into its class. *)
Lemma link_field_ok : attach_pos (class (slots mh) K) k -> exists mh2, link_field mh1 k f (heads (slots mh) K) = Some mh2 /\
  hdr_ok mh2 /\ erase <$> slots mh2 = erase <$> alter (set_readiness LIVE) k (slots mh) /\ m_cooked_stuff mh2 = m_cooked_stuff mh.
Proof.
  intros AP. destruct attach_slots1 as (B1 & S1 & F1). pose proof attach_dead as Dead. pose proof (ok_unlinked f attach_field_ok Dead) as Un.
  pose proof (hdr_dups mh OK) as D. unfold heads. pose proof (insertion_old (slots mh) k f Hk Dead) as Old. fold K in Old.
  pose proof (insertion_not_old (slots mh) k f) as Nk. fold K in Nk.
  destruct (insertion_links (slots mh) k f D Hk Dead) as [La Lb]. fold K in La, Lb. rewrite <- S1 in La, Lb.
  assert (Kl : (k < length (slots mh1))%nat) by (rewrite S1, length_alter; by apply lookup_lt_Some in Hk).
  pose proof (insert_alone (slots mh) k f D Hk Dead Un) as IA. fold K in IA. rewrite <- S1 in IA.
  pose proof (insert_head (slots mh) k f D Hk Dead) as IH. fold K in IH. rewrite <- S1 in IH.
  pose proof (insert_after (slots mh) k f D Hk Dead) as IN. fold K in IN. rewrite <- S1 in IN.
  rewrite Old in *. set (l1 := below (slots mh) K k) in *. set (l2 := above (slots mh) K k) in *.
  destruct (snoc_case l1) as [E1|(l & p & E1)].
  - (* the field is the first *)
    rewrite E1 in *. simpl. destruct l2 as [|p l] eqn:E2; simpl.
    { eexists. split; [done|]. apply attach_head_ok; auto. }
    destruct Lb as [Ln Lb]. unfold nxt in Ln. rewrite field_at_slots by done. destruct (slots mh1 !! p) as [pf|] eqn:Ep; [|done]. cbn [mbind option_bind].
    assert (Gp : (k < p)%nat) by (apply (above_gt (slots mh) K); fold l2; rewrite E2; by left).
    rewrite !slotnum_slots by (done || by eapply lookup_lt_Some). cbn [attach_walk dups_fuel]. unfold dups_fuel. cbn [attach_walk].
    rewrite (proj2 (Z.ltb_ge _ _)) by lia. cbn [mbind option_bind]. rewrite Z.gtb_ltb, (proj2 (Z.ltb_lt _ _)) by lia. eexists. split; [done|].
    assert (B2 : blocks_ok (m_fblocks (upd k (set_next_dup (Some p)) mh1))) by auto with ts.
    assert (S2 : slots (upd p (set_dup_head false) (upd k (set_next_dup (Some p)) mh1)) = alter (set_dup_head false) p (alter (set_next_dup (Some p)) k (slots mh1)))
      by by rewrite !slots_upd by auto with ts.
    apply attach_head_ok; rewrite ?S2; auto with ts.
    + apply fields_alter; [|auto with ts]. apply fields_alter; [done|]. intros g Hg. apply field_ok_next.
      rewrite S1, lookup_alter_case, decide_True, Hk in Hg by done. by injection Hg as <-.
    + by rewrite !erase_alter by done.
    + by apply (IH p l).
  - (* the field follows [p] *)
    assert (WALK : exists ps p0, head (l1 ++ l2) = Some p0 /\ ps < Z.of_nat k /\ exists pf, field_at mh1 p0 = Some pf /\
      attach_walk (dups_fuel mh1) mh1 (mime_hdr_field_slotnum mh1 k) (match m_next_dup pf with Some n => mime_hdr_field_slotnum mh1 n | None => -1 end)
        p0 (mime_hdr_field_slotnum mh1 p0) (m_next_dup pf) = Some (p, ps, head l2)) by exact (attach_walk_ok p l AP E1).
    destruct WALK as (ps & p0 & Hh & Hps & pf & Epf & W). rewrite Hh. unfold link_field. rewrite Epf. cbn [mbind option_bind]. rewrite W. cbn [mbind option_bind].
    rewrite slotnum_slots by done. rewrite Z.gtb_ltb, (proj2 (Z.ltb_ge _ _)) by lia. eexists. split; [done|].
    assert (S2 : slots (upd k (set_next_dup (head l2)) (upd p (set_next_dup (Some k)) (upd k (set_dup_head false) mh1))) =
      alter (set_next_dup (head l2)) k (alter (set_next_dup (Some k)) p (alter (set_dup_head false) k (slots mh1)))) by by rewrite !slots_upd by auto with ts.
    assert (E2 : erase <$> alter (set_next_dup (head l2)) k (alter (set_next_dup (Some k)) p (alter (set_dup_head false) k (slots mh1))) = erase <$> slots mh1)
      by by rewrite !erase_alter by done.
    assert (LV : forall i g, i ∈ k :: l1 -> slots mh1 !! i = Some g -> is_live g = true).
    { intros i g Hi Hg. assert (C : i ∈ class (slots mh1) K).
      { rewrite S1. pose proof (insertion_new (slots mh) k f Hk) as X. fold K in X. fold l1 l2 in X. rewrite X. set_solver. }
      apply elem_class in C as (g' & Hg' & C). rewrite Hg in Hg'. injection Hg' as <-. by apply in_class_true in C as [C _]. }
    assert (Npk : p <> k). { intros ->. apply Nk. rewrite E1. set_solver. }
    apply attach_done; rewrite ?S2; auto with ts.
    + apply fields_alter; [apply fields_alter; [apply fields_alter; [done|auto with ts]|]|].
      * intros g Hg. rewrite lookup_alter_case, decide_False in Hg by done. apply field_ok_next. apply (LV p g); [|done]. rewrite E1. set_solver.
      * intros g Hg. apply field_ok_next. rewrite lookup_alter_case, decide_False, lookup_alter_case, decide_True in Hg by done.
        apply fmap_Some in Hg as (g' & Hg & ->). apply (LV k g'); [by left|done].
    + by apply (IN Un p l).
    + destruct (attach_heads _ E2) as [Hd1 Hd2]. fold l1 l2 in Hd1. eapply index_ext; [apply OK|done..|]. intros w V.
      destruct (decide (wks_key w = K)) as [->|Ne]; [|by apply Hd2]. rewrite Hd1. unfold heads. rewrite Old, E1. by destruct l.
Qed.
End attach.

(** ** Detach *)

Lemma erase_dead f g : erase f = erase g -> erase (dead f) = erase (dead g).
Proof. destruct f, g. unfold erase, dead, set_next_dup, set_dup_head, set_readiness. simpl. intros E. congruence. Qed.

Lemma find_prev_ok fuel mh k x r : blocks_ok (m_fblocks mh) -> lseg (slots mh) (x :: r) (Some k) -> k ∉ r -> (length (x :: r) <= fuel)%nat ->
  find_prev fuel mh k (Some x) = Some (last (x :: r)).
Proof.
  intros B. revert x r. induction fuel as [|fuel IH]; intros x r L N Hf; [simpl in Hf; lia|]. cbn [find_prev]. destruct L as [Lx L].
  rewrite field_at_slots by done. unfold nxt in Lx. destruct (slots mh !! x) as [f|]; [|done]. simpl in Lx. injection Lx as Lx. cbn [mbind option_bind].
  rewrite Lx. destruct r as [|y r]; [by rewrite bool_decide_true|]. rewrite bool_decide_false by (intros [= ->]; apply N; by left).
  rewrite (IH y r); [done|done|by intros ?; apply N; right|simpl in *; lia].
Qed.

Section detach.
Context `{TokenDFA} (mh : MIMEHdrImpl) (k : nat) (f : MIMEField).
Hypothesis OK : hdr_ok mh.
Hypothesis Hk : slots mh !! k = Some f.
Hypothesis Live : is_live f = true.

Let K := fkey f.

Lemma detach_field_ok i g : slots mh !! i = Some g -> field_ok g.
Proof. destruct OK as [_ F _ _]. rewrite Forall_forall in F. intros Hg. apply F. by eapply list_elem_of_lookup_2. Qed.

(** The header after the links are mended and the field is marked. *)
Lemma detach_done mh1 : blocks_ok (m_fblocks mh1) -> Forall field_ok (slots mh1) -> erase <$> slots mh1 = erase <$> slots mh ->
  dups_ok (alter dead k (slots mh1)) ->
  index_ok mh1 (heads (alter dead k (slots mh1))) -> m_cooked_stuff mh1 = m_cooked_stuff mh ->
  hdr_ok (upd k dead mh1) /\ erase <$> slots (upd k dead mh1) = erase <$> alter dead k (slots mh) /\ m_cooked_stuff (upd k dead mh1) = m_cooked_stuff mh.
Proof.
  intros B F E D I C. split; [|split; [|done]].
  - split; [by apply upd_blocks_ok| | |]; rewrite slots_upd by done; [|done|].
    + apply fields_alter; [done|]. unfold dead. auto with ts.
    + eapply index_ext; [exact I|done..].
  - rewrite slots_upd by done. apply list_eq. intros i. assert (X := f_equal (fun l => l !! i) E). cbv beta in X. rewrite !list_lookup_fmap in *.
    rewrite !lookup_alter_case. case_decide as Q; [subst i|done]. rewrite Hk in *. destruct (slots mh1 !! k); [|done]. simpl in *. f_equal.
    apply (inj Some) in X. by apply erase_dead.
Qed.

Lemma detach_heads fs1 : erase <$> fs1 = erase <$> slots mh ->
  heads (alter dead k fs1) K = head (below (slots mh) K k ++ above (slots mh) K k) /\ forall k', k' <> K -> heads (alter dead k fs1) k' = heads (slots mh) k'.
Proof.
  intros E. assert (X : forall i, erase <$> fs1 !! i = erase <$> slots mh !! i).
  { intros i. assert (Y := f_equal (fun l => l !! i) E). cbv beta in Y. by rewrite !list_lookup_fmap in Y. }
  destruct (removal_classes (slots mh) k f Hk (alter dead k fs1)) as [C1 C2].
  - rewrite length_alter. by rewrite <- (length_fmap erase), E, length_fmap.
  - intros i N. by rewrite lookup_alter_case, decide_False.
  - intros g. rewrite lookup_alter_case, decide_True by done. intros (g' & _ & ->)%fmap_Some. done.
  - unfold heads. split; [exact (f_equal head C1)|]. intros k' N. by rewrite C2.
Qed.

(** The links are mended around the field. *)
Lemma unlink_field_ok : exists mh1, unlink_field k f mh = Some mh1 /\
  hdr_ok (upd k dead mh1) /\ erase <$> slots (upd k dead mh1) = erase <$> alter dead k (slots mh) /\ m_cooked_stuff (upd k dead mh1) = m_cooked_stuff mh.
Proof.
  pose proof (hdr_dups mh OK) as D. pose proof (hdr_blocks mh OK) as B. pose proof (detach_field_ok k f Hk) as Fk.
  pose proof (removal_old (slots mh) k f Hk Live) as Old. fold K in Old.
  destruct (removal_links (slots mh) k f D Hk Live) as (La & Lk & Lb). fold K in La, Lk, Lb.
  assert (Hf : m_dup_head f = bool_decide (head (below (slots mh) K k ++ k :: above (slots mh) K k) = Some k))
    by (apply (removal_flags (slots mh) k f D Hk Live); [set_solver|done]).
  pose proof (remove_head (slots mh) k f D Hk Live) as RH. fold K in RH.
  pose proof (remove_after (slots mh) k f D Hk Live) as RA. fold K in RA.
  pose proof (below_lt (slots mh) K k) as BL. pose proof (above_gt (slots mh) K k) as AG.
  pose proof (removal_not (slots mh) k f) as Nk. fold K in Nk.
  pose proof (class_length (slots mh) K) as CL. rewrite Old, length_app in CL.
  pose proof detach_heads as DH.
  set (l1 := below (slots mh) K k) in *. set (l2 := above (slots mh) K k) in *.
  unfold nxt in Lk. rewrite Hk in Lk. simpl in Lk. injection Lk as Lk. unfold unlink_field. rewrite Lk.
  destruct (snoc_case l1) as [E1|(l & p & E1)].
  - rewrite E1 in Hf. rewrite Hf, bool_decide_true by done. specialize (RH E1). destruct l2 as [|n l] eqn:E2; cbn [head].
    + eexists. split; [done|]. destruct (unset_accelerators_slots f mh) as (S1 & B1 & C1). destruct (DH (slots mh)) as [Hd1 Hd2]; [done|].
      apply detach_done; rewrite ?S1, ?B1; try done; [apply OK|]. rewrite E1 in Hd1. apply (index_unset _ (heads (slots mh))); [apply OK|done..].
    + rewrite field_at_slots by done. assert (Hn : exists g, slots mh !! n = Some g /\ in_class K g = true) by (apply elem_class; rewrite Old; set_solver).
      destruct Hn as (nf & Hn & Cn). rewrite Hn. cbn [mbind option_bind]. eexists. split; [done|].
      destruct (set_accelerators_slots n nf (upd n (set_dup_head true) mh)) as (S1 & B1 & C1). rewrite slots_upd in S1 by done.
      assert (E : erase <$> alter (set_dup_head true) n (slots mh) = erase <$> slots mh) by by apply erase_alter.
      destruct (DH _ E) as [Hd1 Hd2]. rewrite E1 in Hd1. apply in_class_true in Cn as [_ Cn].
      apply detach_done; rewrite ?S1, ?B1, ?C1; try done; [by apply upd_blocks_ok|apply fields_alter; [apply OK|auto with ts]|].
      apply (index_set _ (heads (slots mh))); [|by eapply detach_field_ok|by rewrite Cn|by rewrite Cn]. eapply index_ext; [apply OK|done..].
  - assert (HD : head (l1 ++ k :: l2) = head l1) by (rewrite E1; by destruct l).
    rewrite Hf, bool_decide_false.
    2: { intros X. rewrite HD in X. apply Nk, elem_of_app. left. destruct l1; [done|]. injection X as ->. by left. }
    destruct (field_name_key f Fk) as [NO NK]. rewrite field_find_ok by done. rewrite NK. unfold heads. fold K. rewrite Old, HD.
    destruct l1 as [|x r] eqn:El; [by destruct l|]. cbn [head]. rewrite (find_prev_ok _ mh k x r); [|done..| |].
    2: { intros I. apply Nk, elem_of_app. left. by right. }
    2: { unfold dups_fuel. fold (slots mh). simpl in *. lia. }
    rewrite E1, last_snoc. cbn [mbind option_bind]. eexists. split; [done|].
    assert (E : erase <$> alter (set_next_dup (head l2)) p (slots mh) = erase <$> slots mh) by by apply erase_alter.
    destruct (DH _ E) as [Hd1 Hd2].
    apply detach_done; rewrite ?slots_upd by done; try done; [by apply upd_blocks_ok| | |].
    + apply fields_alter; [apply OK|]. intros g Hg. apply field_ok_next. assert (C : p ∈ class (slots mh) K) by (rewrite Old, E1; set_solver).
      apply elem_class in C as (g' & Hg' & C). rewrite Hg in Hg'. injection Hg' as <-. by apply in_class_true in C as [C _].
    + rewrite <- Lk. by apply (RA p l).
    + eapply index_ext; [apply OK|done..|]. intros w V. destruct (decide (wks_key w = K)) as [->|Ne]; [|by apply Hd2].
      rewrite Hd1. unfold heads. by rewrite Old, HD.
Qed.
End detach.
