(* ===== verification/MimeCooked.v ===== *)
(** The comma-separated values of a header field and its dups, and the cooked
    [Cache-Control] and [Pragma] of a MIME header.

    The reference [csv_run] reads the values of a class of fields one after the
    other; the iterator is proved to end and to give the same values. *)

From S2P Require Import Prelude ParseRules MimeDate HdrToken MimePrint URL HdrFieldInfo MimeHdr MimeHdrOps MimeHdrFacts MimeHdrRep.
From Stdlib Require Import Ascii.

#[local] Opaque find_token.
#[local] Arguments Nat.leb : simpl never.

(** ** The reference *)

Section csv.
Variables (sep : Z) (val : nat -> list Z).

(** Where the reading stands: the field, the end of the last value, its start and
    length, and the fields that follow. *)
Record CsvState := mkCsv { cs_field : nat; cs_end : nat; cs_start : option nat; cs_len : Z; cs_rest : list nat }.

(** From [start] in the value of [i] on. *)
Fixpoint csv_find (i start : nat) (rest : list nat) : CsvState :=
  let '(e, s, d) := find_csv_in sep (val i) start in
  match d with
  | Some last_data => mkCsv i e s (Z.of_nat last_data - Z.of_nat (default 0%nat s) + 1) rest
  | None => match rest with j :: rest' => csv_find j 0 rest' | [] => mkCsv i e s 0 [] end
  end.

Fixpoint csv_run (fuel : nat) (st : CsvState) : list (list Z) :=
  match fuel with
  | O => []
  | S fuel' =>
    match cs_start st with
    | None => []
    | Some s => str_of (drop s (val (cs_field st))) (cs_len st) :: csv_run fuel' (csv_find (cs_field st) (S (cs_end st)) (cs_rest st))
    end
  end.

(** What is left to read. *)
Definition csv_left (l : list nat) : nat := list_sum ((fun i => S (length (val i))) <$> l).
Lemma csv_left_cons j r : csv_left (j :: r) = (S (length (val j)) + csv_left r)%nat.
Proof. done. Qed.

Definition csv_measure (st : CsvState) : nat :=
  (length (val (cs_field st)) - cs_end st) + csv_left (cs_rest st) + match cs_start st with Some _ => 1 | None => 0 end.

Lemma csv_scan_end quote l cur s d : (cur <= (csv_scan sep quote l cur s d).1.1)%nat.
Proof.
  revert quote cur s d. induction l as [|c l IH]; intros quote cur s d; simpl; [lia|].
  assert (G : forall q x y, (cur <= (csv_scan sep q l (S cur) x y).1.1)%nat) by (intros q x y; specialize (IH q (S cur) x y); lia).
  destruct quote as [p|]; repeat case_match; simpl; try lia; apply G.
Qed.

Lemma csv_skip_ws_end l cur : (cur <= (csv_skip_ws l cur).2)%nat.
Proof. revert cur. induction l as [|c l IH]; intros cur; simpl; [lia|]. case_match; simpl; [|lia]. specialize (IH (S cur)). lia. Qed.

Lemma find_csv_in_end value start : let '(e, s, d) := find_csv_in sep value start in
  (start <= e)%nat /\ ((s <> None \/ d <> None) -> (start < length value)%nat).
Proof.
  unfold find_csv_in. destruct (Nat.leb_spec (length value) start); [split; [lia|naive_solver]|].
  pose proof (csv_skip_ws_end (drop start value) start) as W. destruct (csv_skip_ws (drop start value) start) as [l cur]. simpl in W.
  destruct l as [|c l]; [split; [lia|naive_solver]|].
  pose proof (csv_scan_end None (c :: l) cur cur None) as C. destruct (csv_scan sep None (c :: l) cur cur None) as [[e s] d]. simpl in C. split; [lia|auto].
Qed.

Lemma csv_find_measure i start rest : (csv_measure (csv_find i start rest) <= (length (val i) - start) + csv_left rest + 1)%nat /\
  (cs_start (csv_find i start rest) <> None -> (start < length (val i))%nat \/ (1 <= length rest)%nat).
Proof.
  revert i start. induction rest as [|j rest IH]; intros i start; cbn [csv_find]; pose proof (find_csv_in_end (val i) start) as E;
    destruct (find_csv_in sep (val i) start) as [[e s] d]; destruct E as [E1 E2].
  - destruct d; unfold csv_measure; simpl; split; try (intros ?; left; apply E2; auto); destruct s; lia.
  - destruct d.
    + unfold csv_measure. simpl. split; [destruct s; lia|]. intros ?. left. apply E2. auto.
    + destruct (IH j 0%nat) as [I1 I2]. split; [|right; simpl; lia]. rewrite csv_left_cons. lia.
Qed.

Lemma csv_find_rest i start rest : (length (cs_rest (csv_find i start rest)) <= length rest)%nat.
Proof.
  revert i start. induction rest as [|j rest IH]; intros i start; cbn [csv_find]; destruct (find_csv_in sep (val i) start) as [[e s] [d|]]; simpl; try lia.
  specialize (IH j 0%nat). lia.
Qed.

Lemma csv_next_measure st : cs_start st <> None -> (csv_measure (csv_find (cs_field st) (S (cs_end st)) (cs_rest st)) < csv_measure st)%nat.
Proof.
  intros N. unfold csv_measure at 2. destruct (cs_start st) as [s|] eqn:Es; [|done]. destruct (cs_rest st) as [|j rest] eqn:Er; cbn [csv_find];
    pose proof (find_csv_in_end (val (cs_field st)) (S (cs_end st))) as E;
    destruct (find_csv_in sep (val (cs_field st)) (S (cs_end st))) as [[e s'] d]; destruct E as [E1 E2].
  - assert (X : match s' with Some _ => (S (cs_end st) < length (val (cs_field st)))%nat | None => True end) by (destruct s'; [apply E2; naive_solver|done]).
    destruct d; unfold csv_measure, csv_left; simpl; destruct s'; lia.
  - destruct d.
    + assert (S (cs_end st) < length (val (cs_field st)))%nat by (apply E2; naive_solver). unfold csv_measure. simpl. destruct s'; lia.
    + destruct (csv_find_measure j 0 rest) as [I _]. rewrite csv_left_cons. lia.
Qed.

(** More fuel does not change a reading that ends. *)
Lemma csv_run_fuel f1 f2 st : (csv_measure st < f1)%nat -> (csv_measure st < f2)%nat -> csv_run f1 st = csv_run f2 st.
Proof.
  revert f2 st. induction f1 as [|f1 IH]; intros [|f2] st H1 H2; try lia. cbn [csv_run]. destruct (cs_start st) as [s|] eqn:E; [|done].
  assert (L : (csv_measure (csv_find (cs_field st) (S (cs_end st)) (cs_rest st)) < csv_measure st)%nat) by (apply csv_next_measure; by rewrite E).
  f_equal. apply IH; lia.
Qed.
End csv.

(** The values of a class of fields; a null pointer in the first ends them. *)
Definition slot_value (fs : list MIMEField) (i : nat) : list Z := match fs !! i with Some f => field_value f | None => [] end.

Definition class_csv (sep : Z) (fs : list MIMEField) (l : list nat) : list (list Z) :=
  match l with
  | [] => []
  | i :: r =>
    match fs !! i with
    | Some f => if is_null (m_ptr_value f) then [] else csv_run sep (slot_value fs) (S (S (csv_left (slot_value fs) l))) (csv_find sep (slot_value fs) i 0 r)
    | None => []
    end
  end.

(** ** Values that are plain lists

    Items without commas and quotes, separated by commas, each after any white
    space. *)
Definition plain_char (c : Z) : bool := negb (c =? ch ",") && negb (c =? 34).

Definition plain (d : list Z) : bool :=
  forallb plain_char d && match d with c :: _ => negb (is_ws c) | [] => false end && match last d with Some c => negb (is_ws c) | None => false end.

Fixpoint csv_text (ds : list (list Z * list Z)) : list Z :=
  match ds with
  | [] => []
  | [(w, d)] => w ++ d
  | (w, d) :: ds' => w ++ d ++ ch "," :: csv_text ds'
  end.

Definition csv_items (ds : list (list Z * list Z)) : list (list Z) := ds.*2.

Definition item_ok (x : list Z * list Z) : bool := forallb is_ws x.1 && plain x.2.

Lemma csv_scan_plain d tail cur s ld : d <> [] -> forallb plain_char d = true -> (forall c, last d = Some c -> is_ws c = false) ->
  (tail = [] \/ exists t, tail = ch "," :: t) ->
  csv_scan (ch ",") None (d ++ tail) cur s ld = ((cur + length d)%nat, s, Some (cur + length d - 1)%nat).
Proof.
  revert cur ld. induction d as [|c d IH]; intros cur ld N F L T; [done|]. simpl in F. apply andb_true_iff in F as [Fc F].
  unfold plain_char in Fc. apply andb_true_iff in Fc as [Fc Fq]. apply negb_true_iff in Fc, Fq. cbn [app csv_scan length]. rewrite Fc, Fq.
  destruct d as [|c' d].
  - specialize (L c eq_refl). rewrite L. assert (E : forall x, csv_scan (ch ",") None tail (S cur) s (Some x) = (S cur, s, Some x)).
    { intros x. destruct T as [->|[t ->]]; [done|]. simpl. by rewrite andb_false_r. }
    simpl app. rewrite E. cbn [length]. replace (cur + 1)%nat with (S cur) by lia. replace (S cur - 1)%nat with cur by lia. by destruct (_ && _).
  - assert (E : forall x, csv_scan (ch ",") None ((c' :: d) ++ tail) (S cur) s x = (cur + S (length (c' :: d)), s, Some (cur + S (length (c' :: d)) - 1))%nat).
    { intros x. rewrite IH by done. do 2 f_equal; [|f_equal]; simpl; lia. }
    rewrite !E. by destruct (_ && _).
Qed.

Lemma csv_skip_ws_app w l cur : forallb is_ws w = true -> (match l with c :: _ => is_ws c = false | [] => True end) ->
  csv_skip_ws (w ++ l) cur = (l, (cur + length w)%nat).
Proof.
  revert cur. induction w as [|c w IH]; intros cur F Hl; simpl in *.
  - destruct l; [by rewrite Nat.add_0_r|]. simpl. by rewrite Hl, Nat.add_0_r.
  - apply andb_true_iff in F as [-> F]. rewrite IH by done. f_equal. lia.
Qed.

Lemma find_csv_item pre w d tail : item_ok (w, d) = true -> (tail = [] \/ exists t, tail = ch "," :: t) ->
  find_csv_in (ch ",") (pre ++ w ++ d ++ tail) (length pre) =
    ((length pre + length w + length d)%nat, Some (length pre + length w)%nat, Some (length pre + length w + length d - 1)%nat).
Proof.
  unfold item_ok, plain. simpl. intros I T. apply andb_true_iff in I as [Iw I]. apply andb_true_iff in I as [I Il]. apply andb_true_iff in I as [Id Ih].
  destruct d as [|c d]; [done|]. unfold find_csv_in. rewrite (proj2 (Nat.leb_gt _ _)) by (rewrite !length_app; simpl; lia).
  rewrite drop_app_length. rewrite csv_skip_ws_app; [|done|by apply negb_true_iff in Ih]. simpl app. change (c :: d ++ tail) with ((c :: d) ++ tail).
  rewrite csv_scan_plain; [done|done|done| |done]. intros x Hx. rewrite Hx in Il. by apply negb_true_iff in Il.
Qed.

Section plain.
Variable val : nat -> list Z.
Notation find := (csv_find (ch ",") val).

Definition csv_all (st : CsvState) : list (list Z) := csv_run (ch ",") val (S (csv_measure val st)) st.

Lemma csv_all_next st : csv_all st = match cs_start st with
  | None => [] | Some s => str_of (drop s (val (cs_field st))) (cs_len st) :: csv_all (find (cs_field st) (S (cs_end st)) (cs_rest st)) end.
Proof.
  unfold csv_all at 1. cbn [csv_run]. destruct (cs_start st) eqn:E; [|done]. f_equal. unfold csv_all.
  pose proof (csv_next_measure (ch ",") val st ltac:(by rewrite E)) as M. apply csv_run_fuel; lia.
Qed.

Lemma csv_find_item i pre w d tail rest : item_ok (w, d) = true -> (tail = [] \/ exists t, tail = ch "," :: t) -> val i = pre ++ w ++ d ++ tail ->
  find i (length pre) rest = mkCsv i (length pre + length w + length d) (Some (length pre + length w)%nat) (Z.of_nat (length d)) rest.
Proof.
  intros I T E. pose proof (find_csv_item pre w d tail I T) as F. rewrite <- E in F.
  assert (X : find i (length pre) rest = let '(e, s, dd) := find_csv_in (ch ",") (val i) (length pre) in
    match dd with Some x => mkCsv i e s (Z.of_nat x - Z.of_nat (default 0%nat s) + 1) rest
    | None => match rest with j :: rest' => find j 0 rest' | [] => mkCsv i e s 0 [] end end) by by destruct rest.
  rewrite X, F. simpl default. f_equal. assert (d <> []). { unfold item_ok, plain in I. simpl in I. destruct d; [by rewrite andb_false_r in I|done]. }
  destruct d; [done|]. simpl length. lia.
Qed.

(** A plain value gives its items, and then those of the next field. *)
Lemma csv_all_text i pre ds rest : ds <> [] -> forallb item_ok ds = true -> val i = pre ++ csv_text ds ->
  csv_all (find i (length pre) rest) = csv_items ds ++ csv_all (find i (S (length (val i))) rest).
Proof.
  revert pre. induction ds as [|[w d] ds IH]; intros pre N F E; [done|]. cbn [forallb] in F. apply andb_true_iff in F as [Fi F].
  assert (ITEM : forall tail, (tail = [] \/ exists t, tail = ch "," :: t) -> val i = pre ++ w ++ d ++ tail ->
    csv_all (find i (length pre) rest) = d :: csv_all (find i (S (length pre + length w + length d)) rest)).
  { intros tail T Ev. rewrite csv_all_next, (csv_find_item i pre w d tail) by done. cbn [cs_start cs_field cs_len cs_end cs_rest]. f_equal.
    unfold str_of. rewrite Ev, Nat2Z.id, (app_assoc pre), drop_app_length', take_app_length by (rewrite length_app; lia). done. }
  destruct ds as [|x ds].
  - simpl in E. rewrite (ITEM []); [|by left|by rewrite app_nil_r]. simpl. f_equal. do 3 f_equal. rewrite E, !length_app. lia.
  - change (csv_text ((w, d) :: x :: ds)) with (w ++ d ++ ch "," :: csv_text (x :: ds)) in E.
    rewrite (ITEM (ch "," :: csv_text (x :: ds))) by (eauto || done). change (csv_items ((w, d) :: x :: ds)) with (d :: csv_items (x :: ds)). rewrite <- app_comm_cons. f_equal.
    etransitivity; [|apply (IH (pre ++ w ++ d ++ [ch ","]))]; [|done|done|rewrite E; by rewrite <- !app_assoc].
    do 2 f_equal. rewrite !length_app. simpl. lia.
Qed.

Lemma find_past i rest : find i (S (length (val i))) rest = match rest with j :: r => find j 0 r | [] => mkCsv i (S (length (val i))) None 0 [] end.
Proof. destruct rest; cbn [csv_find]; unfold find_csv_in; by rewrite (proj2 (Nat.leb_le _ _)) by lia. Qed.

(** The items of all fields, in order. *)
Lemma csv_all_fields i rest (dss : list (list (list Z * list Z))) ds : ds <> [] -> forallb item_ok ds = true -> val i = csv_text ds ->
  Forall2 (fun j ds => ds <> [] /\ forallb item_ok ds = true /\ val j = csv_text ds) rest dss ->
  csv_all (find i 0 rest) = csv_items ds ++ concat (csv_items <$> dss).
Proof.
  revert i ds dss. induction rest as [|j rest IH]; intros i ds dss N F E A; rewrite (csv_all_text i [] ds) by done; f_equal; rewrite find_past.
  - apply Forall2_nil_inv_l in A as ->. by rewrite csv_all_next.
  - apply Forall2_cons_inv_l in A as (ds' & dss' & (N' & F' & E') & A & ->). simpl. by apply IH.
Qed.
End plain.

(** ** The iterator *)

Section iterator.
Context (mh : MIMEHdrImpl) (B : blocks_ok (m_fblocks mh)) (sep : Z).
Let fs := slots mh.
Notation val := (slot_value fs).

(** The iterator is where the reading stands. *)
Record at_state (it : HdrCsvIter) (st : CsvState) : Prop := {
  at_value : m_value it = val (cs_field st); at_start : m_csv_start it = cs_start st; at_len : m_csv_len it = cs_len st;
  at_end : m_csv_end it = cs_end st; at_field : m_cur_field it = cs_field st; at_dups : m_follow_dups it = true; at_sep : m_separator it = sep;
  at_links : lseg fs (cs_field st :: cs_rest st) None
}.

Lemma find_csv_ok fuel it i start rest : (length rest < fuel)%nat -> m_value it = val i -> default 0%nat (m_csv_start it) = start -> m_cur_field it = i ->
  m_follow_dups it = true -> m_separator it = sep -> lseg fs (i :: rest) None ->
  exists it', find_csv fuel mh it = Some it' /\ at_state it' (csv_find sep val i start rest).
Proof.
  revert it i start rest. induction fuel as [|fuel IH]; intros it i start rest Hf Hv Hs Hc Hd Hp L; [lia|]. cbn [find_csv].
  rewrite Hv, Hs, Hp. assert (L' := L). destruct L' as [Ln L']. unfold nxt in Ln.
  assert (Efd : csv_find sep val i start rest = let '(e, s, d) := find_csv_in sep (val i) start in
    match d with
    | Some last_data => mkCsv i e s (Z.of_nat last_data - Z.of_nat (default 0%nat s) + 1) rest
    | None => match rest with j :: rest' => csv_find sep val j 0 rest' | [] => mkCsv i e s 0 [] end
    end) by by destruct rest.
  rewrite Efd. clear Efd. destruct (find_csv_in sep (val i) start) as [[e s] [d|]].
  { eexists. split; [done|]. by constructor. }
  rewrite field_at_slots, Hc by done. fold fs. destruct (fs !! i) as [f|] eqn:Ei; [|done]. simpl in Ln. injection Ln as Ln. cbn [mbind option_bind].
  rewrite Ln, Hd. destruct rest as [|j rest]; [eexists; split; [done|]; by constructor|].
  unfold field_init. rewrite field_at_slots by done. fold fs. assert (L2 := L'). destruct L2 as [Lj _]. unfold nxt in Lj.
  destruct (fs !! j) as [g|] eqn:Ej; [|done]. cbn [mbind option_bind]. apply IH; simpl; try done; [simpl in Hf; lia| |by destruct (is_null _)].
  unfold slot_value. by rewrite Ej.
Qed.

Lemma csv_loop_ok fuel it st : (csv_measure val st < fuel)%nat -> (length (cs_rest st) <= length fs)%nat -> at_state it st ->
  csv_loop fuel mh it = Some (csv_run sep val fuel st).
Proof.
  revert it st. induction fuel as [|fuel IH]; intros it st Hf Hl A; [lia|]. cbn [csv_loop csv_run]. unfold get_current. destruct A as [A1 A2 A3 A4 A5 A6 A7 A8].
  rewrite A2. destruct (cs_start st) as [s|] eqn:Es; [|done]. cbn [mbind option_bind]. unfold get_next. rewrite A2.
  destruct (find_csv_ok (dups_fuel mh) (mkIter (m_value it) (Some (S (m_csv_end it))) (m_csv_len it) (m_csv_end it) (m_cur_field it) (m_follow_dups it) (m_separator it))
    (cs_field st) (S (cs_end st)) (cs_rest st)) as (it' & -> & A'); simpl; try done; [unfold dups_fuel; fold (slots mh); fold fs; lia|by rewrite A4|].
  cbn [mbind option_bind]. pose proof (csv_next_measure sep val st) as M. rewrite Es in M. specialize (M ltac:(done)).
  pose proof (csv_find_rest sep val (cs_field st) (S (cs_end st)) (cs_rest st)) as R.
  rewrite (IH it' (csv_find sep val (cs_field st) (S (cs_end st)) (cs_rest st))) by (done || lia).
  cbn [mbind option_bind]. by rewrite A1, A3.
Qed.
End iterator.

Lemma class_left fs k : (csv_left (slot_value fs) (class fs k) <= list_sum ((fun f => S (length (field_value f))) <$> fs))%nat.
Proof.
  unfold class. assert (G : forall pre fs', pre ++ fs' = fs ->
    (csv_left (slot_value fs) (class_from fs' k (length pre)) <= list_sum ((fun f => S (length (field_value f))) <$> fs'))%nat); [|by apply (G [] fs)].
  intros pre fs'. revert pre. induction fs' as [|f fs' IH]; intros pre E; [done|]. cbn [class_from].
  specialize (IH (pre ++ [f])). rewrite length_app, Nat.add_1_r, <- app_assoc in IH. specialize (IH E).
  change (list_sum ((fun f => S (length (field_value f))) <$> f :: fs')) with (S (length (field_value f)) + list_sum ((fun f => S (length (field_value f))) <$> fs'))%nat.
  case_match; [|lia]. rewrite csv_left_cons. unfold slot_value at 1. rewrite <- E, list_lookup_middle by done. rewrite E. lia.
Qed.

(** The values of a field and its dups: the loop ends, and gives the reference. *)
Lemma csv_values_ok mh sep k i r : blocks_ok (m_fblocks mh) -> lseg (slots mh) (class (slots mh) k) None -> class (slots mh) k = i :: r ->
  csv_values sep mh i true = Some (class_csv sep (slots mh) (i :: r)).
Proof.
  intros B L C. rewrite C in L. unfold csv_values, get_first, field_init, class_csv. rewrite field_at_slots by done.
  assert (L' := L). destruct L' as [Ln _]. unfold nxt in Ln. destruct (slots mh !! i) as [f|] eqn:Ei; [|done]. cbn [mbind option_bind m_csv_start].
  destruct (m_ptr_value f) as [v|] eqn:Ev; cbn [is_null]; [|done].
  pose proof (class_left (slots mh) k) as CL. rewrite C in CL.
  assert (LR : (length r <= length (slots mh))%nat).
  { assert (X : (length (class (slots mh) k) <= length (slots mh))%nat); [|rewrite C in X; simpl in X; lia]. clear. unfold class. generalize 0%nat.
    induction (slots mh) as [|g fs IH]; intros n; simpl; [lia|]. specialize (IH (S n)). case_match; simpl; lia. }
  match goal with |- context [find_csv _ mh ?it] => set (it0 := it) end.
  destruct (find_csv_ok mh B sep (dups_fuel mh) it0 i 0 r) as (it & -> & A); try done; [unfold dups_fuel; fold (slots mh); lia|unfold slot_value; by rewrite Ei|].
  cbn [mbind option_bind]. pose proof (csv_find_measure sep (slot_value (slots mh)) i 0 r) as [M _]. rewrite csv_left_cons in CL.
  pose proof (csv_find_rest sep (slot_value (slots mh)) i 0 r) as R.
  rewrite (csv_loop_ok mh B sep _ it (csv_find sep (slot_value (slots mh)) i 0 r)); [| |lia|done].
  - f_equal. apply csv_run_fuel; [|rewrite csv_left_cons; lia]. unfold csv_fuel. fold (slots mh). lia.
  - unfold csv_fuel. fold (slots mh). lia.
Qed.

(** ** The cooked values as a function of the fields *)

Section cooked.
Context `{TokenDFA}.
Notation table := common_table.

Definition CC_KEY : list Z := wks_key 10.
Definition PRAGMA_KEY : list Z := wks_key 47.

Lemma wks_of_find name : wks_of table name = find_token (chars name).
Proof. unfold wks_of. by destruct (tokenize_hash_agrees (chars name)) as (_ & -> & _). Qed.

Lemma cache_control_index : MIME_WKSIDX_CACHE_CONTROL table = 10.
Proof. unfold MIME_WKSIDX_CACHE_CONTROL. rewrite wks_of_find. by vm_compute. Qed.

Lemma pragma_index : MIME_WKSIDX_PRAGMA table = 47.
Proof. unfold MIME_WKSIDX_PRAGMA. rewrite wks_of_find. by vm_compute. Qed.

Definition cook_values (vs : list (list Z)) : MIMECookedCacheControl := foldl (fun cc v => cook_directive table v cc) (mkCC 0 0 0 0 0) vs.

(** The values of the [Cache-Control] fields, folded: what the fast paths of the
    code are meant to give too. *)
Definition cooked_cc (fs : list MIMEField) : MIMECookedCacheControl := cook_values (class_csv (ch ",") fs (class fs CC_KEY)).

Definition cooked_no_cache (fs : list MIMEField) : bool :=
  foldl (fun b v => if is_no_cache table v then true else b) false (class_csv (ch ",") fs (class fs PRAGMA_KEY)).

Definition cooked_of (fs : list MIMEField) : MIMECooked := mkCooked (cooked_cc fs) (cooked_no_cache fs).

(** Case does not matter to the tests on characters. *)
Lemma lower_inv p c : forallZ 26 (fun c => Bool.eqb (p (c + 32)) (p c)) 65 = true -> p (ink_tolower c) = p c.
Proof.
  intros F. unfold ink_tolower, in_range. destruct (Z.leb_spec 65 c), (Z.leb_spec c 90); simpl; try done.
  apply eqb_prop. apply (forallZ_spec _ _ _ c F). lia.
Qed.

Lemma plain_lower v : plain (lower v) = plain v.
Proof.
  unfold plain, lower.
  assert (W : forall c, negb (is_ws (ink_tolower c)) = negb (is_ws c)) by (intros c; f_equal; by apply lower_inv).
  assert (E : forall c, plain_char (ink_tolower c) = plain_char c) by (intros c; by apply lower_inv).
  f_equal; [f_equal|].
  - induction v as [|c v IH]; [done|]. change (plain_char (ink_tolower c) && forallb plain_char (ink_tolower <$> v) = plain_char c && forallb plain_char v). by rewrite E, IH.
  - destruct v; [done|]. simpl. apply W.
  - rewrite fmap_last. destruct (last v); [|done]. simpl. apply W.
Qed.

Lemma span_token_lower v : span_token (lower v) = (lower (span_token v).1, lower (span_token v).2).
Proof.
  induction v as [|c v IH]; [done|]. unfold lower in *. cbn [fmap list_fmap span_token].
  rewrite (lower_inv is_token c) by by vm_compute. destruct (is_token c); [|done]. rewrite IH. by destruct (span_token v).
Qed.

(** A directive that takes no number is known by its token. *)
Lemma cook_directive_token v cc : Z.land (hdrtoken_index_to_cc_mask table (find_token (span_token v).1)) cc_with_value = 0 ->
  cook_directive table v cc = if find_token (span_token v).1 >=? 0 then or_mask (hdrtoken_index_to_cc_mask table (find_token (span_token v).1)) cc else cc.
Proof.
  intros E. unfold cook_directive. destruct (span_token v) as [t c]. cbn [fst] in *.
  destruct (tokenize_hash_agrees t) as (_ & -> & _). rewrite E. simpl negb. cbv iota. done.
Qed.

Lemma cc_mask_table w : hdrtoken_index_to_cc_mask table w = nth (Z.to_nat w) cc_masks 0.
Proof. unfold hdrtoken_index_to_cc_mask. by rewrite cc_masks_table. Qed.

(** A value equal to a directive but for case. *)
Lemma cook_word s v cc : lower v = lower s -> span_token s = (s, []) -> 0 <= find_token s ->
  Z.land (nth (Z.to_nat (find_token s)) cc_masks 0) cc_with_value = 0 ->
  cook_directive table v cc = or_mask (nth (Z.to_nat (find_token s)) cc_masks 0) cc.
Proof.
  intros E T P M. assert (X : lower (span_token v).1 = lower s).
  { transitivity (span_token (lower v)).1; [by rewrite span_token_lower|]. rewrite E, span_token_lower, T. done. }
  apply find_token_ext in X. rewrite cook_directive_token; rewrite X, cc_mask_table; [|done]. by rewrite Z.geb_leb, (proj2 (Z.leb_le 0 _)).
Qed.

Lemma split_lower v a c b : lower v = lower (a ++ c :: b) -> ink_tolower c = c -> in_range 65 122 c = false ->
  exists a' b', v = a' ++ c :: b' /\ lower a' = lower a /\ lower b' = lower b.
Proof.
  unfold lower. rewrite fmap_app. intros E Lc R. apply fmap_app_inv in E as (a' & r & E1 & E2 & ->). symmetry in E1, E2.
  rewrite fmap_cons in E2. destruct r as [|x b']; [done|]. simpl in E2. injection E2 as E2 E3.
  assert (x = c) as ->. { rewrite Lc in E2. unfold ink_tolower, in_range in *. destruct (Z.leb_spec 65 x), (Z.leb_spec x 90); simpl in *; lia. }
  by exists a', b'.
Qed.

(** The values of a class of plain fields. *)
Lemma class_csv_all fs i r f v : fs !! i = Some f -> m_ptr_value f = Some v ->
  class_csv (ch ",") fs (i :: r) = csv_all (slot_value fs) (csv_find (ch ",") (slot_value fs) i 0 r).
Proof.
  intros Ei Ev. unfold class_csv. rewrite Ei, Ev. cbn [is_null]. unfold csv_all.
  pose proof (csv_find_measure (ch ",") (slot_value fs) i 0 r) as [M _]. apply csv_run_fuel; rewrite ?csv_left_cons; lia.
Qed.

Lemma class_csv_plain fs l dss : l <> [] -> (forall i, i ∈ l -> exists f v, fs !! i = Some f /\ m_ptr_value f = Some v) ->
  Forall2 (fun i ds => ds <> [] /\ forallb item_ok ds = true /\ slot_value fs i = csv_text ds) l dss ->
  class_csv (ch ",") fs l = concat (csv_items <$> dss).
Proof.
  destruct l as [|i r]; [done|]. intros _ P F. destruct (P i) as (f & v & Ei & Ev); [by left|]. rewrite (class_csv_all fs i r f v) by done.
  apply Forall2_cons_inv_l in F as (ds & dss' & (N & I & E) & F & ->). simpl. by apply csv_all_fields.
Qed.

(** The fast paths give what reading the values would. *)
Lemma cook_public v : lower v = lower (chars "public") -> cook_values [v] = or_mask MIME_COOKED_MASK_CC_PUBLIC (mkCC 0 0 0 0 0) /\ plain v = true.
Proof.
  intros E. split.
  - unfold cook_values. cbn [foldl]. rewrite (cook_word (chars "public")); [by vm_compute|done|by vm_compute|by vm_compute|by vm_compute].
  - rewrite <- plain_lower, E. by vm_compute.
Qed.

Lemma cook_private v : lower v = lower (chars "private,no-cache") -> exists a b, v = a ++ ch "," :: b /\ plain a = true /\ plain b = true /\
  cook_values [a; b] = or_mask (Z.lor MIME_COOKED_MASK_CC_PRIVATE MIME_COOKED_MASK_CC_NO_CACHE) (mkCC 0 0 0 0 0).
Proof.
  intros E. destruct (split_lower v (chars "private") (ch ",") (chars "no-cache") E) as (a & b & -> & Ea & Eb); [done..|]. exists a, b.
  split_and!; [done|rewrite <- plain_lower, Ea; by vm_compute|rewrite <- plain_lower, Eb; by vm_compute|].
  unfold cook_values. cbn [foldl]. rewrite (cook_word (chars "private") a); [|done|by vm_compute|by vm_compute|by vm_compute].
  rewrite (cook_word (chars "no-cache") b); [by vm_compute|done|by vm_compute|by vm_compute|by vm_compute].
Qed.

Lemma cook_pragma_word v : lower v = lower (chars "no-cache") -> plain v = true /\ is_no_cache table v = true.
Proof.
  intros E. split; [rewrite <- plain_lower, E; by vm_compute|]. unfold is_no_cache.
  destruct (tokenize_hash_agrees (span_token v).1) as (_ & -> & _). rewrite wks_of_find.
  assert (X : lower (span_token v).1 = lower (chars "no-cache")).
  { transitivity (span_token (lower v)).1; [by rewrite span_token_lower|]. rewrite E. by vm_compute. }
  apply find_token_ext in X. rewrite X. by vm_compute.
Qed.

Lemma class_csv_single fs i f ds : fs !! i = Some f -> ds <> [] -> forallb item_ok ds = true -> field_value f = csv_text ds ->
  class_csv (ch ",") fs [i] = csv_items ds.
Proof.
  intros Ei N I E. assert (P : exists v, m_ptr_value f = Some v).
  { destruct (m_ptr_value f) as [v|] eqn:Ev; [eauto|]. unfold field_value, str_of in E. rewrite Ev in E. simpl in E. rewrite take_nil in E.
    destruct ds as [|[w d] ds]; [done|]. simpl in I. apply andb_true_iff in I as [I _]. unfold item_ok, plain in I. simpl in I.
    destruct d; [by rewrite !andb_false_r in I|]. destruct w, ds; done. }
  destruct P as [v Ev]. rewrite (class_csv_plain fs [i] [ds]); [simpl; by rewrite app_nil_r|done| |].
  - intros j ->%list_elem_of_singleton. eauto.
  - constructor; [|done]. split_and!; [done..|]. unfold slot_value. by rewrite Ei.
Qed.

Lemma class_head_links mh k m r : lseg (slots mh) (class (slots mh) k) None -> class (slots mh) k = m :: r ->
  exists f, slots mh !! m = Some f /\ has_dups f = negb (bool_decide (r = [])).
Proof.
  intros L C. rewrite C in L. destruct L as [L _]. unfold nxt in L. destruct (slots mh !! m) as [f|]; [|done]. exists f. split; [done|].
  simpl in L. injection L as L. unfold has_dups. rewrite L. by destruct r.
Qed.

Lemma cook_cache_control_ok mh : hdr_ok mh -> cook_cache_control table mh (mkCC 0 0 0 0 0) = Some (cooked_cc (slots mh)).
Proof.
  intros OK. unfold cook_cache_control. rewrite cache_control_index, field_find_ok by (done || (simpl; unfold n_wks; lia)).
  unfold cooked_cc, heads. change (name_key (Wks 10)) with CC_KEY. destruct (hdr_dups mh OK CC_KEY) as [L _].
  destruct (class (slots mh) CC_KEY) as [|m r] eqn:C; [done|]. cbn [head]. rewrite field_at_slots by apply OK.
  pose proof (class_head_links mh CC_KEY m r) as X. rewrite C in X. destruct (X L eq_refl) as (f & Ef & Hd). rewrite Ef. cbn [mbind option_bind].
  assert (G : forall mask, mask = 0 -> (if mask =? 0 then vs ← csv_values (ch ",") mh m true;
      Some (foldl (fun cc v => cook_directive table v cc) (or_mask mask (mkCC 0 0 0 0 0)) vs) else Some (or_mask mask (mkCC 0 0 0 0 0))) =
    Some (cook_values (class_csv (ch ",") (slots mh) (m :: r)))).
  { intros mask ->. rewrite Z.eqb_refl, (csv_values_ok mh (ch ",") CC_KEY m r); [done|apply OK|by rewrite C|done]. }
  rewrite Hd. destruct r as [|j r]; [|by apply G]. cbn [negb]. rewrite bool_decide_true by done. cbn [negb].
  destruct (ptr_len_caseeq (field_value f) (chars "public")) eqn:E1.
  { unfold ptr_len_caseeq in E1. apply bool_decide_eq_true in E1. destruct (cook_public (field_value f) E1) as [CV P].
    rewrite (class_csv_single _ m f [([], field_value f)]); [|done|done| |done]. { by rewrite <- CV. }
    unfold item_ok. simpl. by rewrite P. }
  destruct (ptr_len_caseeq (field_value f) (chars "private,no-cache")) eqn:E2; [|by apply G].
  unfold ptr_len_caseeq in E2. apply bool_decide_eq_true in E2. destruct (cook_private (field_value f) E2) as (a & b & E & Pa & Pb & CV).
  rewrite (class_csv_single _ m f [([], a); ([], b)]); [|done|done| |done]. { by rewrite <- CV. }
  unfold item_ok. simpl. by rewrite Pa, Pb.
Qed.

Lemma cook_pragma_ok mh : hdr_ok mh -> cook_pragma table mh false = Some (cooked_no_cache (slots mh)).
Proof.
  intros OK. unfold cook_pragma. rewrite pragma_index, field_find_ok by (done || (simpl; unfold n_wks; lia)).
  unfold cooked_no_cache, heads. change (name_key (Wks 47)) with PRAGMA_KEY. destruct (hdr_dups mh OK PRAGMA_KEY) as [L _].
  destruct (class (slots mh) PRAGMA_KEY) as [|m r] eqn:C; [done|]. cbn [head]. rewrite field_at_slots by apply OK.
  pose proof (class_head_links mh PRAGMA_KEY m r) as X. rewrite C in X. destruct (X L eq_refl) as (f & Ef & Hd). rewrite Ef. cbn [mbind option_bind].
  rewrite Hd. rewrite (csv_values_ok mh (ch ",") PRAGMA_KEY m r); [|apply OK|by rewrite C|done]. cbn [mbind option_bind].
  destruct r as [|j r]; [|done]. rewrite (bool_decide_true (@nil nat = [])) by done. cbn [negb andb].
  destruct (ptr_len_caseeq (field_value f) (chars "no-cache")) eqn:E1; [|done].
  unfold ptr_len_caseeq in E1. apply bool_decide_eq_true in E1. destruct (cook_pragma_word _ E1) as [P W].
  rewrite (class_csv_single _ m f [([], field_value f)]); [|done|done|unfold item_ok; simpl; by rewrite P|done]. simpl. by rewrite W.
Qed.

(** Recomputing the cooked values: the ones that may have changed are those of the
    fields, the other stay. *)
Lemma recompute_ok mh changing : hdr_ok mh -> recompute_cooked_stuff table changing mh =
  Some (set_cooked_stuff mh (mkCooked (if cooks_cache_control table changing then cooked_cc (slots mh) else m_cache_control (m_cooked_stuff mh))
    (if cooks_pragma table changing then cooked_no_cache (slots mh) else m_no_cache (m_cooked_stuff mh)))).
Proof.
  intros OK. unfold recompute_cooked_stuff, mime_hdr_cooked_stuff_init. cbn [m_cache_control m_no_cache].
  destruct (cooks_cache_control table changing), (cooks_pragma table changing);
    rewrite ?cook_cache_control_ok, ?cook_pragma_ok by done; done.
Qed.
End cooked.
