(* ===== verification/MimeHdrTheorems.v ===== *)
(** The theorems on the operations of a MIME header.

    What a header says is the list of its live fields, names and values in the order
    of the slots; the operations are specified on that list.  [hdr_rep] is the
    invariant they keep: links, presence bits and accelerators as in [MimeHdrRep],
    and cooked values that are those of the fields. *)

From S2P Require Import Prelude ParseRules MimeDate HdrToken MimePrint URL HdrFieldInfo MimeHdr MimeHdrOps MimeHdrFacts MimeHdrRep MimeHdrAttach MimeCooked.
From Stdlib Require Import Ascii.

#[local] Opaque find_token.
#[local] Hint Resolve upd_blocks_ok : ts.

(** ** Readings that do not change *)

Lemma csv_find_ext sep val val' i start rest : (forall j, j ∈ i :: rest -> val j = val' j) -> csv_find sep val i start rest = csv_find sep val' i start rest /\
  (forall j, j ∈ cs_field (csv_find sep val i start rest) :: cs_rest (csv_find sep val i start rest) -> j ∈ i :: rest).
Proof.
  revert i start. induction rest as [|r rest IH]; intros i start E; cbn [csv_find]; rewrite <- (E i) by (by left);
    destruct (find_csv_in sep (val i) start) as [[e s] [d|]]; simpl; try (split; [done|set_solver]).
  destruct (IH r 0%nat) as [I1 I2]; [intros j Hj; apply E; by right|]. split; [done|]. intros j Hj. right. by apply I2.
Qed.

Lemma csv_run_ext sep val val' fuel st : (forall j, j ∈ cs_field st :: cs_rest st -> val j = val' j) -> csv_run sep val fuel st = csv_run sep val' fuel st.
Proof.
  revert st. induction fuel as [|fuel IH]; intros st E; [done|]. cbn [csv_run]. destruct (cs_start st); [|done].
  destruct (csv_find_ext sep val val' (cs_field st) (S (cs_end st)) (cs_rest st) E) as [X1 X2].
  rewrite <- X1, <- (E (cs_field st)) by (by left). f_equal. apply IH. intros j Hj. apply E, X2, Hj.
Qed.

(** The value of a slot, and whether it is a null pointer. *)
Definition value_of (f : MIMEField) : option (list Z) := if is_null (m_ptr_value f) then None else Some (field_value f).

Lemma value_of_erase f g : erase f = erase g -> value_of f = value_of g.
Proof. destruct f, g. unfold erase, value_of, field_value, set_next_dup, set_dup_head. simpl. intros E. injection E; intros; by subst. Qed.

Lemma class_csv_ext sep fs fs' l : (forall i, i ∈ l -> value_of <$> fs' !! i = value_of <$> fs !! i) -> class_csv sep fs' l = class_csv sep fs l.
Proof.
  intros E. destruct l as [|i r]; [done|]. unfold class_csv.
  assert (V : forall j, j ∈ i :: r -> slot_value fs' j = slot_value fs j).
  { intros j Hj. specialize (E j Hj). unfold slot_value. destruct (fs' !! j) as [f'|], (fs !! j) as [f|]; try done. simpl in E. injection E as E.
    unfold value_of in E. unfold field_value in *. destruct (m_ptr_value f'), (m_ptr_value f); simpl in *; try done; [by injection E|].
    unfold str_of. by rewrite !take_nil. }
  assert (L : csv_left (slot_value fs') (i :: r) = csv_left (slot_value fs) (i :: r)).
  { unfold csv_left. f_equal. apply list_fmap_ext. intros n j Hj. rewrite V; [done|]. by eapply list_elem_of_lookup_2. }
  rewrite L. specialize (E i ltac:(by left)). destruct (fs' !! i) as [f'|], (fs !! i) as [f|]; try done. simpl in E. injection E as E.
  assert (N : is_null (m_ptr_value f') = is_null (m_ptr_value f)). { unfold value_of in E. by destruct (is_null (m_ptr_value f')), (is_null (m_ptr_value f)). }
  rewrite N. case_match; [done|]. destruct (csv_find_ext sep (slot_value fs') (slot_value fs) i 0 r V) as [X1 X2].
  rewrite <- X1. apply csv_run_ext. intros j Hj. by apply V, X2.
Qed.

Section theorems.
Context `{TokenDFA}.
Notation table := common_table.

Record hdr_rep (mh : MIMEHdrImpl) : Prop := { rep_ok : hdr_ok mh; rep_cooked : m_cooked_stuff mh = cooked_of (slots mh) }.

Definition same_csv (mh mh' : MIMEHdrImpl) (k : list Z) : Prop :=
  class_csv (ch ",") (slots mh') (class (slots mh') k) = class_csv (ch ",") (slots mh) (class (slots mh) k).

Lemma hdr_ok_cooked mh c : hdr_ok mh -> hdr_ok (set_cooked_stuff mh c).
Proof. intros [B F D I]. by split. Qed.

(** After a change, the cooked values are those of the fields: where they are
    computed again, and where the change does not concern them. *)
Lemma recooked mh mh' w (b : bool) : hdr_ok mh' -> m_cooked_stuff mh' = cooked_of (slots mh) ->
  (w = 47 -> same_csv mh mh' CC_KEY) -> (w = 10 -> same_csv mh mh' PRAGMA_KEY) ->
  (b = false -> same_csv mh mh' CC_KEY /\ same_csv mh mh' PRAGMA_KEY) ->
  exists mh2, (if b then recompute_cooked_stuff table (Some w) mh' else Some mh') = Some mh2 /\ hdr_rep mh2 /\ slots mh2 = slots mh'.
Proof.
  intros OK C P1 P2 N. assert (EC : forall x, same_csv mh mh' CC_KEY -> x = cooked_cc (slots mh) -> x = cooked_cc (slots mh')).
  { intros x S ->. unfold cooked_cc. by rewrite S. }
  assert (EP : forall x, same_csv mh mh' PRAGMA_KEY -> x = cooked_no_cache (slots mh) -> x = cooked_no_cache (slots mh')).
  { intros x S ->. unfold cooked_no_cache. by rewrite S. }
  destruct b.
  - rewrite recompute_ok by done. eexists. split; [done|]. split; [|done]. split; [by apply hdr_ok_cooked|]. simpl. unfold cooked_of. rewrite C.
    unfold cooked_of, cooks_cache_control, cooks_pragma. rewrite cache_control_index, pragma_index. simpl. f_equal.
    + destruct (Z.eqb_spec w 47); simpl; [|done]. by apply EC; [apply P1|].
    + destruct (Z.eqb_spec w 10); simpl; [|done]. by apply EP; [apply P2|].
  - destruct (N eq_refl) as [N1 N2]. exists mh'. split; [done|]. split; [|done]. split; [done|]. rewrite C. unfold cooked_of. f_equal; [by apply EC|by apply EP].
Qed.

(** A key of a cooked name is that of a name with its index. *)
Lemma cooked_key f : field_ok f -> (fkey f = CC_KEY <-> m_wks_idx f = 10) /\ (fkey f = PRAGMA_KEY <-> m_wks_idx f = 47).
Proof. intros F. split; symmetry; apply field_key; done || (unfold n_wks; lia). Qed.

(** ** The list of the fields *)

Definition content (f : MIMEField) : list Z * list Z := (field_name f, field_value f).
Definition contents (mh : MIMEHdrImpl) : list (list Z * list Z) := content <$> filter (fun f => is_live f = true) (slots mh).

(** The entry has the name of the key [k]. *)
Definition named (k : list Z) (x : list Z * list Z) : bool := bool_decide (lower x.1 = k).

Lemma contents_erase mh fs : erase <$> slots mh = erase <$> fs -> contents mh = content <$> filter (fun f => is_live f = true) fs.
Proof.
  unfold contents. generalize (slots mh). intros l. revert fs. induction l as [|f l IH]; intros [|g fs] E; try done.
  rewrite !fmap_cons in E. assert (E1 : erase f = erase g) by (by apply (f_equal (fun l => default (erase f) (head l))) in E).
  assert (E2 : erase <$> l = erase <$> fs) by (by apply (f_equal tail) in E). assert (L : is_live f = is_live g /\ content f = content g).
  { destruct f, g. unfold erase, set_next_dup, set_dup_head in E1. simpl in E1. unfold content, field_name, field_value, is_live. simpl. injection E1; intros; by subst. }
  destruct L as [L1 L2]. rewrite !filter_cons, L1. case_decide; [rewrite !fmap_cons, L2; f_equal|]; by apply IH.
Qed.

(** What the fields below and above a slot say. *)
Definition listed (fs : list MIMEField) : list (list Z * list Z) := content <$> filter (fun f => is_live f = true) fs.
Definition contents_below (mh : MIMEHdrImpl) (k : nat) : list (list Z * list Z) := listed (take k (slots mh)).
Definition contents_above (mh : MIMEHdrImpl) (k : nat) : list (list Z * list Z) := listed (drop (S k) (slots mh)).

Lemma listed_app a b : listed (a ++ b) = listed a ++ listed b.
Proof. unfold listed. by rewrite filter_app, fmap_app. Qed.

Lemma listed_cons f fs : listed (f :: fs) = if is_live f then content f :: listed fs else listed fs.
Proof. unfold listed. rewrite filter_cons. destruct (is_live f); [by rewrite decide_True|by rewrite decide_False]. Qed.

Lemma contents_alter mh mh' k f g : slots mh !! k = Some f -> erase <$> slots mh' = erase <$> alter g k (slots mh) ->
  contents mh' = contents_below mh k ++ (if is_live (g f) then [content (g f)] else []) ++ contents_above mh k.
Proof.
  intros Hk E. rewrite (contents_erase _ _ E). fold (listed (alter g k (slots mh))).
  rewrite <- (take_drop_middle (alter g k (slots mh)) k (g f)) by by rewrite list_lookup_alter_eq, Hk.
  rewrite listed_app, listed_cons, take_alter_ge, drop_alter_lt by lia. unfold contents_below, contents_above. by destruct (is_live (g f)).
Qed.

Lemma contents_at mh k f : slots mh !! k = Some f -> contents mh = contents_below mh k ++ (if is_live f then [content f] else []) ++ contents_above mh k.
Proof. intros Hk. apply (contents_alter mh mh k f id Hk). by rewrite list_alter_id. Qed.

(** ** Attach *)

Lemma class_value_same mh mh' k g f K : slots mh !! k = Some f -> erase <$> slots mh' = erase <$> alter g k (slots mh) ->
  class (slots mh') K = class (slots mh) K -> k ∉ class (slots mh) K -> same_csv mh mh' K.
Proof.
  intros Hk E C N. unfold same_csv. rewrite C. apply class_csv_ext. intros i Hi. assert (Ni : i <> k) by (by intros ->).
  assert (X := f_equal (fun l => l !! i) E). cbv beta in X. rewrite !list_lookup_fmap, lookup_alter_case, decide_False in X by done.
  destruct (slots mh' !! i) as [f'|], (slots mh !! i) as [g'|]; try done. simpl in *. f_equal. apply value_of_erase. by apply (inj Some) in X.
Qed.

(** The field is before the second of its name, or after all of them; and it has
    a value, or is the first of its name. *)
Definition attachable (mh : MIMEHdrImpl) (k : nat) (f : MIMEField) : Prop :=
  m_readiness f = DETACHED /\ attach_pos (class (slots mh) (fkey f)) k /\ (m_ptr_value f <> None \/ class (slots mh) (fkey f) = []).

(** The heads of the other classes, and their values, are as before. *)
Lemma attach_same mh mh2 k f K : slots mh !! k = Some f -> is_live f = false -> erase <$> slots mh2 = erase <$> alter (set_readiness LIVE) k (slots mh) ->
  K <> fkey f -> same_csv mh mh2 K.
Proof.
  intros Hk D E N. apply (class_value_same mh mh2 k (set_readiness LIVE) f); [done..| |].
  - rewrite (class_erase _ _ _ E). by apply (insertion_other (slots mh) k f).
  - intros (g & Hg & C)%elem_class. rewrite Hk in Hg. injection Hg as <-. apply in_class_true in C as [C _]. congruence.
Qed.

Lemma attach_ok mh k f (b : bool) : hdr_rep mh -> slots mh !! k = Some f -> attachable mh k f ->
  (b = true \/ class (slots mh) (fkey f) = []) ->
  exists mh', mime_hdr_field_attach table k b None mh = Some mh' /\ hdr_rep mh' /\ erase <$> slots mh' = erase <$> alter (set_readiness LIVE) k (slots mh).
Proof.
  intros [OK RC] Hk (Det & AP & HV) HB. unfold mime_hdr_field_attach. rewrite field_at_slots, Hk by apply OK. cbn [mbind option_bind].
  rewrite bool_decide_true by done. cbn [negb]. rewrite orb_false_r.
  assert (Fk : field_ok f). { pose proof (hdr_fields mh OK) as F. rewrite Forall_forall in F. apply F. by eapply list_elem_of_lookup_2. }
  assert (FD : (if b then mime_hdr_field_find mh (mime_field_name_get f) else None) = heads (slots mh) (fkey f)).
  { destruct (field_name_key f Fk) as [N K]. destruct b; [by rewrite field_find_ok, K|]. destruct HB as [|HB]; [done|]. unfold heads. by rewrite HB. }
  rewrite FD. destruct (link_field_ok mh k f OK Hk Det AP) as (mh2 & -> & OK2 & E2 & C2). cbn [mbind option_bind].
  assert (Dead : is_live f = false) by (unfold is_live; by rewrite Det).
  destruct (cooked_key f Fk) as [KC KP].
  destruct (recooked mh mh2 (m_wks_idx f) (negb (is_null (m_ptr_value f)) && m_cooked f) OK2) as (mh3 & E3 & R3 & S3).
  - by rewrite C2.
  - intros W. apply (attach_same mh mh2 k f); [done..|]. intros X. symmetry in X. apply KC in X. lia.
  - intros W. apply (attach_same mh mh2 k f); [done..|]. intros X. symmetry in X. apply KP in X. lia.
  - intros B. assert (G : forall K, K = CC_KEY \/ K = PRAGMA_KEY -> same_csv mh mh2 K).
    { intros K HK. destruct (decide (K = fkey f)) as [->|N]; [|by apply (attach_same mh mh2 k f)].
      assert (Co : m_cooked f = true) by (apply (ok_cooked f Fk); destruct HK as [HK|HK]; [left; by apply KC|right; by apply KP]).
      rewrite Co, andb_true_r in B. apply negb_false_iff in B. destruct HV as [HV|HV]; [by destruct (m_ptr_value f)|].
      unfold same_csv. rewrite HV. pose proof (insertion_new (slots mh) k f Hk) as IN. rewrite (class_erase _ _ _ E2), IN.
      pose proof (insertion_old (slots mh) k f Hk Dead) as IO. rewrite HV in IO. symmetry in IO. apply app_nil in IO as [-> ->].
      simpl. assert (X := f_equal (fun l => l !! k) E2). cbv beta in X. rewrite !list_lookup_fmap, lookup_alter_case, decide_True, Hk in X by done.
      destruct (slots mh2 !! k) as [g|]; [|done]. apply (inj Some), value_of_erase in X. unfold value_of in X. simpl in X. rewrite B in X.
      by destruct (is_null (m_ptr_value g)). }
    split; apply G; auto.
  - exists mh3. rewrite E3, S3. done.
Qed.

(** ** Creating and filling a field *)

Lemma init_rep : hdr_rep mime_hdr_init.
Proof.
  split; [|done]. split; [simpl; lia|done| |].
  - intros k. split; [done|]. by intros [|i] f.
  - split; split; simpl; [lia| | |done].
    + intros n Hn. rewrite Z.bits_0. split; [done|]. by intros (w & _ & N & _).
    + split; [done|]. by repeat constructor.
Qed.

Lemma field_of_slot mh k f : hdr_ok mh -> slots mh !! k = Some f -> field_ok f.
Proof. intros [_ F _ _] Hk. rewrite Forall_forall in F. apply F. by eapply list_elem_of_lookup_2. Qed.

(** Another header with the same classes and links. *)
Lemma hdr_ok_same mh mh' : hdr_ok mh -> blocks_ok (m_fblocks mh') -> Forall field_ok (slots mh') ->
  m_presence_bits mh' = m_presence_bits mh -> m_slot_accelerators mh' = m_slot_accelerators mh ->
  (forall k, class (slots mh') k = class (slots mh) k) ->
  (forall i f, slots mh !! i = Some f -> is_live f = true -> exists f', slots mh' !! i = Some f' /\ m_next_dup f' = m_next_dup f /\ m_dup_head f' = m_dup_head f) ->
  hdr_ok mh'.
Proof.
  intros [B F D I] B' F' P A C U. split; [done|done| |].
  - intros k. destruct (D k) as [L Hd]. rewrite C. split.
    + eapply lseg_ext, L. intros i (f & Hf & Cf)%elem_class. apply in_class_true in Cf as [Cf _]. destruct (U i f Hf Cf) as (f' & Hf' & N & _).
      unfold nxt. rewrite Hf, Hf'. simpl. by rewrite N.
    + intros i f' Hf' Cf'. rewrite C. assert (X : i ∈ class (slots mh) k) by (rewrite <- C; apply elem_class; eauto).
      apply elem_class in X as (f & Hf & Cf). pose proof Cf as Cl. apply in_class_true in Cl as [Cl _]. destruct (U i f Hf Cl) as (g & Hg & _ & E).
      rewrite Hf' in Hg. injection Hg as <-. rewrite E. by apply Hd.
  - eapply index_ext; [exact I|done..|]. intros w _. unfold heads. by rewrite C.
Qed.

Lemma class_upd mh k f g : blocks_ok (m_fblocks mh) -> slots mh !! k = Some f -> (forall K, in_class K (g f) = in_class K f) ->
  forall K, class (slots (upd k g mh)) K = class (slots mh) K.
Proof.
  intros B Hk G K. rewrite slots_upd by done. rewrite (class_alter _ K k f g Hk), (class_split _ K k f Hk). by rewrite G.
Qed.

(** Filling in a field that is not attached. *)
Lemma upd_detached mh k f g : hdr_rep mh -> slots mh !! k = Some f -> is_live f = false -> is_live (g f) = false -> field_ok (g f) ->
  hdr_rep (upd k g mh) /\ contents (upd k g mh) = contents mh.
Proof.
  intros [OK RC] Hk D D' F. assert (B := hdr_blocks mh OK).
  assert (C : forall K, class (slots (upd k g mh)) K = class (slots mh) K) by (apply (class_upd mh k f); [done..|]; intros K; unfold in_class; by rewrite D, D').
  split; [split|].
  - apply (hdr_ok_same mh); [done|auto with ts| |done|done|done|].
    + rewrite slots_upd by done. apply fields_alter; [apply OK|]. intros f' Hf' _. rewrite Hk in Hf'. by injection Hf' as <-.
    + intros i f' Hf' L. rewrite slots_upd by done. rewrite lookup_alter_case, decide_False; [eauto|]. intros ->. rewrite Hk in Hf'. injection Hf' as <-. congruence.
  - simpl. rewrite RC. assert (S : forall K, same_csv mh (upd k g mh) K).
    { intros K. unfold same_csv. rewrite C. apply class_csv_ext. intros i (f' & Hf' & Cf')%elem_class. rewrite slots_upd by done.
      rewrite lookup_alter_case, decide_False; [done|]. intros ->. rewrite Hk in Hf'. injection Hf' as <-. apply in_class_true in Cf' as [Cf' _]. congruence. }
    unfold cooked_of, cooked_cc, cooked_no_cache. by rewrite !(S _).
  - rewrite (contents_alter mh _ k f g Hk), (contents_at mh k f Hk) by by rewrite slots_upd. by rewrite D, D'.
Qed.

Lemma init_ok : field_ok mime_field_init.
Proof. constructor; simpl; try done. lia. Qed.

Lemma create_ok mh : hdr_rep mh -> let '(k, mh') := mime_field_create mh in
  hdr_rep mh' /\ k = length (slots mh) /\ slots mh' = slots mh ++ [mime_field_init] /\ contents mh' = contents mh.
Proof.
  intros [OK RC]. pose proof (create_slots mh (hdr_blocks mh OK)) as CS. destruct (mime_field_create mh) as [k mh'].
  destruct CS as (-> & S & B & P & A & C).
  assert (CL : forall K, class (slots mh') K = class (slots mh) K).
  { intros K. unfold class. rewrite S, class_from_app. simpl. by rewrite app_nil_r. }
  assert (LK : forall i f, slots mh !! i = Some f -> slots mh' !! i = Some f).
  { intros i f Hf. rewrite S, lookup_app_l; [done|]. by eapply lookup_lt_Some. }
  split_and!; [split|done|done|].
  - apply (hdr_ok_same mh); [done|done| |done|done|done|].
    + rewrite S. apply Forall_app. split; [apply OK|]. constructor; [apply init_ok|done].
    + intros i f Hf _. exists f. auto.
  - rewrite C, RC. assert (SC : forall K, same_csv mh mh' K).
    { intros K. unfold same_csv. rewrite CL. apply class_csv_ext. intros i (f & Hf & _)%elem_class. by rewrite Hf, (LK i f Hf). }
    unfold cooked_of, cooked_cc, cooked_no_cache. by rewrite !(SC _).
  - change (listed (slots mh') = listed (slots mh)). rewrite S, listed_app, listed_cons. simpl. by rewrite app_nil_r.
Qed.

(** A new field is behind all others. *)
Lemma attach_pos_last mh k K : (length (slots mh) <= S k)%nat -> k ∉ class (slots mh) K -> attach_pos (class (slots mh) K) k.
Proof.
  intros L N. assert (F : Forall (fun i => i < k)%nat (class (slots mh) K)).
  { apply Forall_forall. intros i Hi. assert (i <> k) by (intros ->; done). apply elem_class in Hi as (f & Hf & _). apply lookup_lt_Some in Hf. lia. }
  unfold attach_pos. destruct (class (slots mh) K) as [|a [|b l]]; done.
Qed.

(** A field created, filled in and attached: it is the last of the header. *)
Lemma add_field_ok mh g (b : bool) : hdr_rep mh -> let f := g mime_field_init in
  m_readiness f = DETACHED -> field_ok f -> (m_ptr_value f <> None \/ class (slots mh) (fkey f) = []) -> (b = true \/ class (slots mh) (fkey f) = []) ->
  let '(k, mh1) := mime_field_create mh in
  exists mh2, mime_hdr_field_attach table k b None (upd k g mh1) = Some mh2 /\ hdr_rep mh2 /\ contents mh2 = contents mh ++ [content f] /\
    k = length (slots mh) /\ erase <$> slots mh2 = (erase <$> slots mh) ++ [erase (set_readiness LIVE f)].
Proof.
  intros R f Det F HV HB. pose proof (create_ok mh R) as C. destruct (mime_field_create mh) as [k mh1]. destruct C as (R1 & -> & S1 & C1).
  assert (Hk : slots mh1 !! length (slots mh) = Some mime_field_init) by (rewrite S1, lookup_app_r, Nat.sub_diag by lia; done).
  assert (Dead : is_live f = false) by (unfold is_live; by rewrite Det).
  destruct (upd_detached mh1 _ _ g R1 Hk eq_refl Dead F) as [R2 C2]. assert (B1 := hdr_blocks mh1 (rep_ok mh1 R1)).
  assert (S2 : slots (upd (length (slots mh)) g mh1) = slots mh ++ [f]).
  { rewrite slots_upd, S1 by done. replace (length (slots mh)) with (length (slots mh) + 0)%nat at 1 by lia. by rewrite alter_app_r. }
  assert (Hk2 : slots (upd (length (slots mh)) g mh1) !! length (slots mh) = Some f) by (rewrite S2, lookup_app_r, Nat.sub_diag by lia; done).
  assert (CL : class (slots (upd (length (slots mh)) g mh1)) (fkey f) = class (slots mh) (fkey f)).
  { rewrite S2. unfold class. rewrite class_from_app. cbn [class_from]. assert (in_class (fkey f) f = false) as -> by (unfold in_class; by rewrite Dead). by rewrite app_nil_r. }
  destruct (attach_ok (upd (length (slots mh)) g mh1) (length (slots mh)) f b R2 Hk2) as (mh2 & E & R3 & E3).
  - split; [done|]. rewrite CL. split; [|done]. rewrite <- CL. apply attach_pos_last; [rewrite S2, length_app; simpl; lia|].
    intros (f' & Hf' & Cf)%elem_class. rewrite Hk2 in Hf'. injection Hf' as <-. unfold in_class in Cf. by rewrite Dead in Cf.
  - by rewrite CL.
  - exists mh2. split; [done|]. split; [done|]. split_and!; [|done|].
    + rewrite (contents_alter _ _ _ f _ Hk2 E3). unfold contents_below, contents_above. rewrite S2, drop_app_ge, take_app_length by lia.
      replace (S (length (slots mh)) - length (slots mh))%nat with 1%nat by lia. simpl drop. by rewrite app_nil_r.
    + rewrite E3, S2. replace (length (slots mh)) with (length (slots mh) + 0)%nat at 1 by lia. rewrite alter_app_r, fmap_app. done.
Qed.

(** ** Fields by name *)

Lemma class_contents fs K : omap (fun i => content <$> fs !! i) (class fs K) = filter (fun x => named K x = true) (listed fs).
Proof.
  unfold class. assert (G : forall pre fs', pre ++ fs' = fs ->
    omap (fun i => content <$> fs !! i) (class_from fs' K (length pre)) = filter (fun x => named K x = true) (listed fs')); [|by apply (G [] fs)].
  intros pre fs'. revert pre. induction fs' as [|f fs' IH]; intros pre E; [done|]. cbn [class_from].
  specialize (IH (pre ++ [f])). rewrite length_app, Nat.add_1_r, <- app_assoc in IH. specialize (IH E). rewrite listed_cons.
  unfold in_class. destruct (is_live f); simpl andb; [|done]. rewrite filter_cons. change (named K (content f)) with (bool_decide (fkey f = K)).
  destruct (bool_decide (fkey f = K)); [|done]. rewrite decide_True by done. simpl. rewrite <- E at 1. rewrite list_lookup_middle by done. simpl. by f_equal.
Qed.

(** The entries of a name. *)
Definition entries (K : list Z) (mh : MIMEHdrImpl) : list (list Z * list Z) := filter (fun x => named K x = true) (contents mh).

Lemma class_entries mh K : omap (fun i => content <$> slots mh !! i) (class (slots mh) K) = entries K mh.
Proof. apply class_contents. Qed.

Lemma class_entries_length mh K : length (class (slots mh) K) = length (entries K mh).
Proof.
  rewrite <- class_entries. assert (G : forall l, (forall i, i ∈ l -> exists f, slots mh !! i = Some f) ->
    length (omap (fun i => content <$> slots mh !! i) l) = length l).
  { induction l as [|i l IH]; intros A; [done|]. destruct (A i) as [f Hf]; [by left|]. cbn. rewrite Hf. cbn. f_equal. apply IH.
    intros j Hj. apply A. by right. }
  symmetry. apply G. intros i (f & Hf & _)%elem_class. eauto.
Qed.

Lemma class_nil mh K : class (slots mh) K = [] <-> entries K mh = [].
Proof. pose proof (class_entries_length mh K) as L. split; intros E; rewrite E in L; simpl in L; apply length_zero_iff_nil; lia. Qed.

(** Looking a name up gives the first entry of that name. *)
Lemma value_get_ok mh n : hdr_rep mh -> name_ok n -> value_get n mh = snd <$> head (entries (name_key n) mh).
Proof.
  intros [OK _] N. unfold value_get. rewrite field_find_ok by done. unfold heads. pose proof (class_entries mh (name_key n)) as E.
  destruct (class (slots mh) (name_key n)) as [|i l] eqn:C; simpl in E |- *; [by rewrite <- E|].
  rewrite field_at_slots by apply OK. assert (Hi : i ∈ class (slots mh) (name_key n)) by (rewrite C; by left).
  apply elem_class in Hi as (f & Hf & _). rewrite Hf in *. simpl in E |- *. by rewrite <- E.
Qed.

(** ** Setting a value *)

Lemma field_ok_value v len f : 0 <= len <= Z.of_nat (length (default [] v)) -> len < 2 ^ 24 -> field_ok f -> field_ok (set_value v len f).
Proof. intros L L2 []. constructor; try done. simpl. rewrite wrapu_id by lia. done. Qed.

Lemma value_set_live mh k f v : hdr_rep mh -> slots mh !! k = Some f -> is_live f = true -> Z.of_nat (length v) < 2 ^ 24 ->
  exists mh', mime_field_value_set table k (Some v) mh = Some mh' /\ hdr_rep mh' /\
    contents mh' = contents_below mh k ++ [(field_name f, v)] ++ contents_above mh k /\
    (forall K, class (slots mh') K = class (slots mh) K).
Proof.
  intros [OK RC] Hk L Len. assert (B := hdr_blocks mh OK). pose proof (field_of_slot mh k f OK Hk) as Fk. unfold mime_field_value_set. simpl default.
  set (g := set_value (Some v) (Z.of_nat (length v))). set (mh1 := upd k g mh).
  assert (S1 : slots mh1 = alter g k (slots mh)) by by apply slots_upd.
  assert (C1 : forall K, class (slots mh1) K = class (slots mh) K) by (by apply (class_upd mh k f)).
  assert (OK1 : hdr_ok mh1).
  { apply (hdr_ok_same mh); [done|by apply upd_blocks_ok| |done|done|done|].
    - rewrite S1. apply fields_alter; [apply OK|]. intros f' _. apply field_ok_value; simpl; lia.
    - intros i f' Hf' _. rewrite S1, lookup_alter_case. case_decide as D; [|eauto]. subst i. rewrite Hf'. eauto. }
  assert (SO : forall K, K <> fkey f -> same_csv mh mh1 K).
  { intros K N. apply (class_value_same mh mh1 k g f); [done|by rewrite S1|done|]. intros (g' & Hg & C)%elem_class. rewrite Hk in Hg. injection Hg as <-.
    apply in_class_true in C as [_ C]. congruence. }
  destruct (cooked_key f Fk) as [KC KP].
  assert (Hk1 : slots mh1 !! k = Some (g f)) by by rewrite S1, list_lookup_alter_eq, Hk.
  unfold recook. rewrite field_at_slots by (by apply upd_blocks_ok). fold mh1. rewrite Hk1. cbn [mbind option_bind].
  change (is_live (g f)) with (is_live f). rewrite L. simpl andb. change (m_cooked (g f)) with (m_cooked f). change (m_wks_idx (g f)) with (m_wks_idx f).
  destruct (recooked mh mh1 (m_wks_idx f) (m_cooked f) OK1) as (mh2 & E2 & R2 & S2).
  - by rewrite <- RC.
  - intros W. apply SO. intros X. symmetry in X. apply KC in X. lia.
  - intros W. apply SO. intros X. symmetry in X. apply KP in X. lia.
  - intros Co. split; apply SO; intros X; symmetry in X; [apply KC in X|apply KP in X]; by rewrite (ok_cooked f Fk) in Co by auto.
  - exists mh2. split; [done|]. split; [done|]. split; [|intros K; by rewrite S2].
    rewrite (contents_alter mh mh2 k f g Hk) by by rewrite S2, S1. change (is_live (g f)) with (is_live f). rewrite L. unfold g, content, field_value. simpl.
    rewrite wrapu_id by lia. unfold str_of. by rewrite Nat2Z.id, take_ge.
Qed.

(** ** Detach and delete *)

Lemma detach_ok mh k f : hdr_rep mh -> slots mh !! k = Some f -> is_live f = true ->
  exists mh', detach_one table k mh = Some mh' /\ hdr_rep mh' /\ erase <$> slots mh' = erase <$> alter dead k (slots mh).
Proof.
  intros [OK RC] Hk L. pose proof (field_of_slot mh k f OK Hk) as Fk. unfold detach_one. rewrite field_at_slots, Hk by apply OK. cbn [mbind option_bind].
  destruct (unlink_field_ok mh k f OK Hk L) as (mh1 & -> & OK1 & E1 & C1). cbn [mbind option_bind].
  change (upd k (fun f => set_next_dup None (set_readiness DETACHED f)) mh1) with (upd k dead mh1).
  assert (SO : forall K, K <> fkey f -> same_csv mh (upd k dead mh1) K).
  { intros K N. apply (class_value_same mh _ k dead f); [done|done| |].
    - rewrite (class_erase _ _ _ E1). rewrite (class_alter _ K k f dead Hk), (class_split _ K k f Hk). unfold in_class.
      change (fkey (dead f)) with (fkey f). rewrite !(bool_decide_false (fkey f = K)) by done. by rewrite !andb_false_r.
    - intros (g & Hg & C)%elem_class. rewrite Hk in Hg. injection Hg as <-. apply in_class_true in C as [_ C]. congruence. }
  destruct (cooked_key f Fk) as [KC KP].
  destruct (recooked mh (upd k dead mh1) (m_wks_idx f) (m_cooked f) OK1) as (mh2 & E2 & R2 & S2).
  - by rewrite C1.
  - intros W. apply SO. intros X. symmetry in X. apply KC in X. lia.
  - intros W. apply SO. intros X. symmetry in X. apply KP in X. lia.
  - intros Co. split; apply SO; intros X; symmetry in X; [apply KC in X|apply KP in X]; by rewrite (ok_cooked f Fk) in Co by auto.
  - exists mh2. split; [done|]. split; [done|]. by rewrite S2.
Qed.

(** One field deleted. *)
Lemma delete_one_ok mh k f : hdr_rep mh -> slots mh !! k = Some f -> is_live f = true ->
  exists mh', (mh1 ← detach_one table k mh; Some (mime_field_destroy k mh1)) = Some mh' /\ hdr_rep mh' /\
    contents mh' = contents_below mh k ++ contents_above mh k /\
    forall K, class (slots mh') K = below (slots mh) K k ++ above (slots mh) K k.
Proof.
  intros R Hk L. destruct (detach_ok mh k f R Hk L) as (mh1 & -> & R1 & E1). cbn [mbind option_bind]. eexists. split; [done|]. unfold mime_field_destroy.
  assert (X := f_equal (fun l => l !! k) E1). cbv beta in X. rewrite !list_lookup_fmap, lookup_alter_case, decide_True, Hk in X by done.
  destruct (slots mh1 !! k) as [g|] eqn:Hg; [|done]. simpl in X. apply (inj Some) in X.
  assert (D : is_live g = false). { apply (f_equal m_readiness) in X. unfold is_live. simpl in X. by rewrite X. }
  pose proof (field_of_slot mh1 k g (rep_ok _ R1) Hg) as Fg.
  assert (Fd : field_ok (set_readiness MIME_FIELD_SLOT_READINESS_DELETED g)).
  { destruct Fg as [? ? ? ? ? U]. constructor; try done. intros _. by apply U. }
  destruct (upd_detached mh1 k g (set_readiness MIME_FIELD_SLOT_READINESS_DELETED) R1 Hg D eq_refl Fd) as [R2 C2].
  split; [done|]. split.
  - rewrite C2. rewrite (contents_alter mh mh1 k f dead Hk E1). done.
  - intros K. rewrite (class_upd mh1 k g); [|apply R1|done|intros K'; unfold in_class; by rewrite D].
    by rewrite (class_erase _ _ _ E1), (class_alter _ K k f dead Hk).
Qed.

(** The entries of other names. *)
Definition others (K : list Z) (l : list (list Z * list Z)) : list (list Z * list Z) := filter (fun x => named K x = false) l.

Lemma filter_others K l : filter (fun x => named K x = true) (others K l) = [].
Proof.
  unfold others. induction l as [|x l IH]; [done|]. rewrite (filter_cons (fun x => named K x = false)). destruct (named K x) eqn:N; [by rewrite decide_False|].
  rewrite decide_True, filter_cons_False by (done || by rewrite N). exact IH.
Qed.

Lemma others_app K a b : others K (a ++ b) = others K a ++ others K b.
Proof. apply filter_app. Qed.

Lemma others_all K l : filter (fun x => named K x = true) l = [] -> others K l = l.
Proof.
  intros E. apply filter_id_in. intros x Hx. destruct (named K x) eqn:N; [|done]. exfalso.
  assert (X : x ∈ filter (fun x => named K x = true) l) by by apply list_elem_of_filter. by rewrite E in X; apply elem_of_nil in X.
Qed.

(** The head of a class and its field. *)
Lemma class_head_field mh K k r : hdr_rep mh -> class (slots mh) K = k :: r ->
  exists f, slots mh !! k = Some f /\ is_live f = true /\ fkey f = K /\ m_next_dup f = head r /\ below (slots mh) K k = [] /\ above (slots mh) K k = r.
Proof.
  intros [OK _] C. assert (Hk : k ∈ class (slots mh) K) by (rewrite C; by left). apply elem_class in Hk as (f & Hf & Cf).
  apply in_class_true in Cf as [L E]. exists f. assert (Sp := class_split (slots mh) K k f Hf). unfold in_class in Sp. rewrite L, E, bool_decide_true in Sp by done.
  simpl in Sp. rewrite C in Sp. assert (Bn : below (slots mh) K k = []).
  { destruct (below (slots mh) K k) as [|x l] eqn:Eb; [done|]. assert (x < k)%nat by (apply (below_lt (slots mh) K); rewrite Eb; by left).
    simpl in Sp. injection Sp as -> _. lia. }
  rewrite Bn in Sp. simpl in Sp. injection Sp as Sp. split_and!; try done.
  destruct (hdr_dups mh OK K) as [Li _]. rewrite C in Li. destruct Li as [Li _]. unfold nxt in Li. rewrite Hf in Li. simpl in Li. injection Li as Li.
  rewrite Li. by destruct r.
Qed.

Lemma delete_all_ok fuel mh K : hdr_rep mh -> (length (class (slots mh) K) < fuel)%nat ->
  exists mh', delete_all table fuel (head (class (slots mh) K)) mh = Some mh' /\ hdr_rep mh' /\ contents mh' = others K (contents mh).
Proof.
  revert mh. induction fuel as [|fuel IH]; intros mh R Hf; [lia|]. destruct (class (slots mh) K) as [|k r] eqn:C.
  - simpl. exists mh. split_and!; [done..|]. symmetry. apply others_all. change (entries K mh = []). by apply class_nil.
  - destruct (class_head_field mh K k r R C) as (f & Hk & L & E & N & Bl & Ab). cbn [head delete_all]. rewrite field_at_slots by apply R.
    rewrite Hk. cbn [mbind option_bind]. unfold mime_hdr_field_detach.
    destruct (delete_one_ok mh k f R Hk L) as (mh1 & D & R1 & C1 & CL). destruct (detach_one table k mh) as [mh0|]; [|done].
    cbn [mbind option_bind] in *. injection D as D. rewrite D, N. specialize (CL K). rewrite Bl, Ab in CL. simpl in CL.
    destruct (IH mh1 R1) as (mh' & E' & R' & C'); [rewrite CL; simpl in Hf; lia|]. rewrite CL in E'. exists mh'. split; [done|]. split; [done|].
    rewrite C', C1, (contents_at mh k f Hk), L, !others_app. f_equal. unfold others at 2. simpl. rewrite filter_cons_False; [done|].
    change (named K (content f)) with (bool_decide (fkey f = K)). by rewrite bool_decide_true.
Qed.

Lemma class_fuel mh K : (length (class (slots mh) K) < S (dups_fuel mh))%nat.
Proof. pose proof (class_length (slots mh) K). unfold dups_fuel. fold (slots mh). lia. Qed.

(** ** A name to be set *)

(** A name that fits in its field. *)
Definition good_name (n : Name) : Prop := name_ok n /\ match n with Wks _ => True | Str s => Z.of_nat (length s) < 2 ^ 16 end.

Lemma wks_strings : forallb (fun s => forallb (fun c => negb (c =? 0)) s && (Z.of_nat (length s) <? 65536)) _hdrtoken_strs = true.
Proof. by vm_compute. Qed.

Lemma good_name_str n : good_name n -> Forall (fun c => c <> 0) (name_str n) /\ Z.of_nat (length (name_str n)) < 2 ^ 16 /\
  name_tokenize table n = find_token (name_str n) /\ lower (name_str n) = name_key n.
Proof.
  destruct n as [w|s]; simpl; intros [N L].
  - assert (X : forallb (fun c => negb (c =? 0)) (hdrtoken_index_to_wks w) && (Z.of_nat (length (hdrtoken_index_to_wks w)) <? 65536) = true).
    { pose proof wks_strings as F. rewrite forallb_forall in F. unfold hdrtoken_index_to_wks. apply (F (nth (Z.to_nat w) _hdrtoken_strs [])). apply nth_In.
      assert (length _hdrtoken_strs = 123%nat) as -> by by vm_compute. unfold name_ok, n_wks in N. lia. }
    bsimp. destruct (wks_valid w N) as [_ V]. split_and!; [|done|by rewrite V|done].
    apply Forall_forall. intros c Hc ->. rewrite forallb_forall in H0. apply list_elem_of_In, H0 in Hc. done.
  - destruct (tokenize_hash_agrees s) as (_ & T & _). done.
Qed.

Lemma str_u16_id s : Z.of_nat (length s) < 2 ^ 16 -> default [] (mime_str_u16_set (Some s)) = s.
Proof. intros L. unfold mime_str_u16_set. rewrite wrapu_id by lia. simpl. by rewrite Nat2Z.id, take_ge. Qed.

Lemma named_field_ok s w : Forall (fun c => c <> 0) s -> w = find_token s -> field_ok (set_name table w s (Z.of_nat (length s)) mime_field_init).
Proof.
  intros N W. assert (FN : field_name (set_name table w s (Z.of_nat (length s)) mime_field_init) = s).
  { unfold field_name, str_of. simpl. by rewrite Nat2Z.id, take_ge. }
  constructor; rewrite ?FN; cbn [set_name m_wks_idx m_len_name m_ptr_name m_ptr_value m_len_value m_cooked mime_field_init orb]; try done; [lia|].
  unfold is_cooked_name. intros Q. rewrite cache_control_index. rewrite pragma_index. destruct Q as [-> | ->]; done.
Qed.

(** A name without fields gets an attached field without a value. *)
Lemma create_named_ok mh n w (b : bool) : hdr_rep mh -> good_name n -> w = find_token (name_str n) -> entries (name_key n) mh = [] ->
  let '(k, mh1) := mime_field_create mh in
  exists mh2, mime_hdr_field_attach table k b None (mime_field_name_set table k w (name_str n) mh1) = Some mh2 /\ hdr_rep mh2 /\
    contents mh2 = contents mh ++ [(name_str n, [])] /\
    exists f, slots mh2 !! k = Some f /\ is_live f = true /\ contents_below mh2 k = contents mh /\ contents_above mh2 k = [] /\ field_name f = name_str n.
Proof.
  intros R G W E. destruct (good_name_str n G) as (Nn & Ln & _ & Kn). unfold mime_field_name_set. rewrite str_u16_id by done.
  set (g := set_name table w (name_str n) (Z.of_nat (length (name_str n)))).
  assert (FN : field_name (g mime_field_init) = name_str n) by (unfold field_name, str_of; simpl; by rewrite Nat2Z.id, take_ge).
  assert (CN : class (slots mh) (fkey (g mime_field_init)) = []) by (unfold fkey; rewrite FN, Kn; by apply class_nil).
  pose proof (add_field_ok mh g b R eq_refl (named_field_ok _ w Nn W) (or_intror CN) (or_intror CN)) as A.
  destruct (mime_field_create mh) as [k mh1]. destruct A as (mh2 & -> & R2 & C2 & -> & E2). exists mh2. split; [done|]. split; [done|].
  split; [rewrite C2; unfold content; by rewrite FN|].
  assert (X := f_equal (fun l => l !! length (slots mh)) E2). cbv beta in X.
  rewrite list_lookup_fmap, lookup_app_r, length_fmap, Nat.sub_diag in X by (rewrite length_fmap; lia). simpl in X.
  destruct (slots mh2 !! length (slots mh)) as [f|] eqn:Hf; [|done]. simpl in X. apply (inj Some) in X. exists f. split; [done|].
  assert (Lf : is_live f = true) by (apply (f_equal is_live) in X; exact X). split; [done|].
  assert (Xn : field_name f = name_str n) by (apply (f_equal field_name) in X; rewrite <- FN; exact X).
  assert (Len : length (slots mh2) = S (length (slots mh))) by (rewrite <- (length_fmap erase (slots mh2)), E2, length_app, length_fmap; simpl; lia).
  assert (Ab : contents_above mh2 (length (slots mh)) = []) by (unfold contents_above; rewrite drop_ge by lia; done).
  split; [|done]. pose proof (contents_at mh2 _ f Hf) as CA. rewrite Lf, Ab, app_nil_r, C2 in CA. by apply app_inj_2 in CA as [? _].
Qed.

(** The entries of a name get the value [v]. *)
Definition overwrite (K v : list Z) (l : list (list Z * list Z)) : list (list Z * list Z) := (fun x => if named K x then (x.1, v) else x) <$> l.

(** The result of setting a name to a value: the only entry of the name is
    changed in place; entries that were several, or none, give way to one at the
    end. *)
Definition set_entry (n : Name) (v : list Z) (l : list (list Z * list Z)) : list (list Z * list Z) :=
  match filter (fun x => named (name_key n) x = true) l with
  | [_] => overwrite (name_key n) v l
  | _ => others (name_key n) l ++ [(name_str n, v)]
  end.

Lemma overwrite_none K v l : filter (fun x => named K x = true) l = [] -> overwrite K v l = l.
Proof.
  unfold overwrite. induction l as [|y l IH]; [done|]. rewrite filter_cons, fmap_cons. destruct (named K y); [by rewrite decide_True by done|].
  rewrite decide_False by done. intros E. by rewrite IH.
Qed.

Lemma overwrite_named K v l : filter (fun x => named K x = true) (overwrite K v l) = (fun x => (x.1, v)) <$> filter (fun x => named K x = true) l.
Proof.
  unfold overwrite. induction l as [|x l IH]; [done|]. rewrite fmap_cons, !filter_cons. destruct (named K x) eqn:N.
  - change (named K (x.1, v)) with (named K x). rewrite N, !decide_True by done. rewrite fmap_cons. by f_equal.
  - rewrite N, !decide_False by done. exact IH.
Qed.

Lemma overwrite_in_place K v a x b : named K x = true -> filter (fun x => named K x = true) (a ++ [x] ++ b) = [x] ->
  overwrite K v (a ++ [x] ++ b) = a ++ [(x.1, v)] ++ b.
Proof.
  intros N F. rewrite !filter_app in F. change (filter (fun x => named K x = true) [x]) with (filter (fun x => named K x = true) (x :: [])) in F.
  rewrite filter_cons_True in F by done. simpl in F.
  assert (A : filter (fun x => named K x = true) a = [] /\ filter (fun x => named K x = true) b = []).
  { destruct (filter _ a) as [|y l]; simpl in F; [by injection F|]. injection F as _ F. by destruct l. }
  destruct A as [Fa Fb]. pose proof (overwrite_none K v a Fa) as Ga. pose proof (overwrite_none K v b Fb) as Gb. unfold overwrite in *.
  rewrite !fmap_app, Ga, Gb. simpl. by rewrite N.
Qed.

Lemma set_entry_get mh' n v l : hdr_rep mh' -> good_name n -> contents mh' = set_entry n v l -> value_get n mh' = Some v.
Proof.
  intros R' G C'. destruct (good_name_str n G) as (_ & _ & _ & Kn). rewrite value_get_ok by (done || apply G). unfold entries. rewrite C'. unfold set_entry.
  assert (OT : filter (fun x => named (name_key n) x = true) (others (name_key n) l ++ [(name_str n, v)]) = [(name_str n, v)]).
  { rewrite filter_app, filter_others. simpl. rewrite filter_cons_True; [done|]. unfold named. by rewrite bool_decide_true. }
  destruct (filter (fun x => named (name_key n) x = true) l) as [|x [|y r]] eqn:F; rewrite ?OT; try done.
  by rewrite overwrite_named, F.
Qed.

(** Setting a name to a value. *)
Lemma value_set_ok mh n v : hdr_rep mh -> good_name n -> Z.of_nat (length v) < 2 ^ 24 ->
  exists mh', value_set table n v mh = Some mh' /\ hdr_rep mh' /\ contents mh' = set_entry n v (contents mh) /\ value_get n mh' = Some v.
Proof.
  intros R G L. destruct (good_name_str n G) as (Nn & Ln & Tn & Kn).
  assert (VG : forall mh', hdr_rep mh' -> contents mh' = set_entry n v (contents mh) -> value_get n mh' = Some v) by (intros; by eapply set_entry_get).
  unfold value_set, mime_hdr_prepare_for_value_set. rewrite field_find_ok by (apply R || apply G).
  unfold heads. destruct (class (slots mh) (name_key n)) as [|k r] eqn:C; cbn [head].
  - (* no field *)
    assert (E : entries (name_key n) mh = []) by by apply class_nil.
    pose proof (create_named_ok mh n (name_tokenize table n) false R G Tn E) as A. destruct (mime_field_create mh) as [k mh1].
    destruct A as (mh2 & -> & R2 & C2 & f & Hf & Lf & Bl & Ab & FN). cbn [mbind option_bind].
    destruct (value_set_live mh2 k f v R2 Hf Lf L) as (mh3 & E3 & R3 & C3 & _). exists mh3.
    assert (CE : contents mh3 = set_entry n v (contents mh)).
    { rewrite C3, Bl, Ab, FN. unfold set_entry. fold (entries (name_key n) mh). rewrite E. by rewrite others_all. }
    split_and!; [done|done|done|by apply VG].
  - destruct (class_head_field mh _ k r R C) as (f & Hk & Lf & Kf & Nf & _ & _). rewrite field_at_slots, Hk by apply R. cbn [mbind option_bind]. rewrite Nf.
    pose proof (class_entries_length mh (name_key n)) as CL. rewrite C in CL. simpl in CL.
    destruct r as [|k2 r]; cbn [head].
    + (* one field *)
      destruct (value_set_live mh k f v R Hk Lf L) as (mh3 & E3 & R3 & C3 & _). exists mh3.
      assert (CE : contents mh3 = set_entry n v (contents mh)).
      { rewrite C3. unfold set_entry. fold (entries (name_key n) mh).
        pose proof (class_entries mh (name_key n)) as EN. rewrite C in EN. simpl in EN. rewrite Hk in EN. simpl in EN. rewrite <- EN.
        assert (CA := contents_at mh k f Hk). rewrite Lf in CA. rewrite CA. symmetry. apply (overwrite_in_place (name_key n) v _ (content f)).
        - change (named (name_key n) (content f)) with (bool_decide (fkey f = name_key n)). by rewrite bool_decide_true.
        - rewrite <- CA. by symmetry. }
      cbn [mbind option_bind]. split_and!; [done|done|done|by apply VG].
    + (* several fields *)
      destruct (delete_all_ok (S (dups_fuel mh)) mh (name_key n) R (class_fuel mh _)) as (mh1 & D & R1 & C1). rewrite C in D. cbn [head] in D.
      unfold mime_hdr_field_delete. rewrite D. cbn [mbind option_bind].
      assert (E1 : entries (name_key n) mh1 = []).
      { unfold entries. rewrite C1. apply filter_others. }
      assert (W : m_wks_idx f = find_token (name_str n)).
      { rewrite (ok_wks f (field_of_slot mh k f (rep_ok mh R) Hk)). apply find_token_ext. change (lower (field_name f)) with (fkey f). by rewrite Kf, Kn. }
      pose proof (create_named_ok mh1 n (m_wks_idx f) false R1 G W E1) as A. destruct (mime_field_create mh1) as [k3 mh2].
      destruct A as (mh3 & -> & R3 & C3 & f3 & Hf3 & Lf3 & Bl & Ab & FN). cbn [mbind option_bind].
      destruct (value_set_live mh3 k3 f3 v R3 Hf3 Lf3 L) as (mh4 & E4 & R4 & C4 & _). exists mh4.
      assert (CE : contents mh4 = set_entry n v (contents mh)).
      { rewrite C4, Bl, Ab, FN, C1. unfold set_entry. fold (entries (name_key n) mh). destruct (entries (name_key n) mh) as [|x [|y l]]; done. }
      split_and!; [done|done|done|by apply VG].
Qed.

(** Setting a name to a value.  A name with one field has it changed in place; a
    name with several, or none, ends up with one field behind all others.  No other
    entry changes, the name then has that value, and the links, the index and the
    cooked values are those of the fields. *)
Theorem value_set_effect mh n v : hdr_rep mh -> good_name n -> Z.of_nat (length v) < 2 ^ 24 ->
  exists mh', value_set table n v mh = Some mh' /\ hdr_rep mh' /\ contents mh' = set_entry n v (contents mh) /\ value_get n mh' = Some v.
Proof. apply value_set_ok. Qed.

(** Deleting a name. *)
Lemma field_delete_ok mh n : hdr_rep mh -> name_ok n ->
  exists mh', field_delete table n mh = Some mh' /\ hdr_rep mh' /\ contents mh' = others (name_key n) (contents mh) /\ value_get n mh' = None.
Proof.
  intros R N. unfold field_delete. rewrite field_find_ok by (apply R || done). unfold heads.
  assert (VN : forall mh', hdr_rep mh' -> contents mh' = others (name_key n) (contents mh) -> value_get n mh' = None).
  { intros mh' R' C'. rewrite value_get_ok by done. unfold entries. rewrite C'.
    assert (filter (fun x => named (name_key n) x = true) (others (name_key n) (contents mh)) = []) as ->; [|done].
    apply filter_others. }
  destruct (delete_all_ok (S (dups_fuel mh)) mh (name_key n) R (class_fuel mh _)) as (mh1 & D & R1 & C1).
  destruct (class (slots mh) (name_key n)) as [|k r]; cbn [head] in D |- *.
  - exists mh1. injection D as ->. split_and!; [done..|by apply VN].
  - exists mh1. split_and!; [exact D|done|done|by apply VN].
Qed.

(** Deleting a name removes all its entries, and only those. *)
Theorem field_delete_effect mh n : hdr_rep mh -> name_ok n ->
  exists mh', field_delete table n mh = Some mh' /\ hdr_rep mh' /\ contents mh' = others (name_key n) (contents mh) /\ value_get n mh' = None.
Proof. apply field_delete_ok. Qed.
(** ** Appending to a value *)

Lemma last_dup_ok fuel mh l : hdr_rep mh -> (forall i, i ∈ l -> exists f, slots mh !! i = Some f) -> lseg (slots mh) l None ->
  (length l <= fuel)%nat -> match l with [] => True | i :: _ => last_dup fuel mh i = last l end.
Proof.
  intros R. revert fuel. induction l as [|i [|j l] IH]; intros fuel A Lk Hf; [done|..]; (destruct fuel as [|fuel]; [simpl in Hf; lia|]);
    destruct (A i) as [f Ef]; try (by left); destruct Lk as [Lk Lk']; unfold nxt in Lk; rewrite Ef in Lk; simpl in Lk; injection Lk as Lk;
    cbn [last_dup]; rewrite field_at_slots, Ef by apply R; cbn [mbind option_bind]; rewrite Lk; [done|].
  apply (IH fuel); [intros x Hx; apply A; by right|done|simpl in *; lia].
Qed.

(** The last entry of a name. *)
Fixpoint update_last (K : list Z) (g : list Z -> list Z) (l : list (list Z * list Z)) : list (list Z * list Z) :=
  match l with
  | [] => []
  | x :: r => if named K x && bool_decide (filter (fun x => named K x = true) r = []) then (x.1, g x.2) :: r else x :: update_last K g r
  end.

Lemma update_last_at K g a x b : named K x = true -> filter (fun x => named K x = true) b = [] -> update_last K g (a ++ x :: b) = a ++ (x.1, g x.2) :: b.
Proof.
  intros N E. induction a as [|y a IH]; simpl; [by rewrite N, bool_decide_true|]. rewrite (bool_decide_false (filter _ (a ++ x :: b) = [])).
  - by rewrite andb_false_r, IH.
  - rewrite filter_app, filter_cons_True by done. by destruct (filter _ a).
Qed.

(** The entries of the class before and behind one of its slots. *)
Lemma above_entries mh K k : above (slots mh) K k = [] -> filter (fun x => named K x = true) (contents_above mh k) = [].
Proof.
  unfold above, contents_above, listed. generalize (drop (S k) (slots mh)). intros fs. generalize (S k). induction fs as [|f fs IH]; intros i E; [done|].
  cbn [class_from] in E. rewrite filter_cons. unfold in_class in E. destruct (is_live f); [|rewrite decide_False by done; by apply (IH (S i))].
  rewrite decide_True, fmap_cons, filter_cons by done. change (named K (content f)) with (bool_decide (fkey f = K)).
  destruct (bool_decide (fkey f = K)); [done|]. rewrite decide_False by done. by apply (IH (S i)).
Qed.

(** The result of appending [v] to a name: to its last entry, after a separator and
    a space if one is asked for and there is something to separate from. *)
Definition joined (prepend_comma : bool) (separator : Z) (v old : list Z) : list Z :=
  old ++ (if prepend_comma && negb (bool_decide (old = [])) then [separator; CHAR_SP] else []) ++ v.

Definition append_entry (n : Name) (prepend_comma : bool) (separator : Z) (v : list Z) (l : list (list Z * list Z)) : list (list Z * list Z) :=
  match filter (fun x => named (name_key n) x = true) l with
  | [] => l ++ [(name_str n, v)]
  | _ => update_last (name_key n) (joined prepend_comma separator v) l
  end.

Lemma field_value_length f : field_ok f -> Z.of_nat (length (field_value f)) = m_len_value f.
Proof. intros F. destruct (ok_value f F). unfold field_value, str_of. rewrite length_take. lia. Qed.

Lemma class_last mh K i l k : class (slots mh) K = i :: l -> last (i :: l) = Some k ->
  exists f, slots mh !! k = Some f /\ is_live f = true /\ fkey f = K /\ above (slots mh) K k = [].
Proof.
  intros C E. assert (Hk : k ∈ class (slots mh) K) by (rewrite C; by apply last_Some_elem_of). apply elem_class in Hk as (f & Hf & Cf).
  pose proof (class_split (slots mh) K k f Hf) as Sp. rewrite Cf in Sp. apply in_class_true in Cf as [L Kf]. exists f. split_and!; [done..|].
  destruct (above (slots mh) K k) as [|a r] eqn:Ab using rev_ind; [done|]. exfalso. clear IHr. rewrite C in Sp. rewrite Sp in E.
  rewrite !app_assoc, last_snoc in E. injection E as ->. assert (k < k)%nat by (apply (above_gt (slots mh) K); rewrite Ab; apply elem_of_app; right; by left). lia.
Qed.

Lemma value_append_is_set mh k f v pc sep : hdr_ok mh -> slots mh !! k = Some f ->
  mime_field_value_append table k v pc sep mh = mime_field_value_set table k (Some (joined pc sep v (field_value f))) mh.
Proof.
  intros OK Hk. unfold mime_field_value_append. rewrite field_at_slots, Hk by apply OK. cbn [mbind option_bind].
  assert (E : negb (m_len_value f =? 0) = negb (bool_decide (field_value f = []))).
  { rewrite <- (field_value_length f) by by eapply field_of_slot. f_equal. case_bool_decide as B; [by rewrite B|]. apply Z.eqb_neq. by destruct (field_value f). }
  by rewrite E.
Qed.

Lemma value_append_ok mh n v pc sep : hdr_rep mh -> good_name n -> Z.of_nat (length v) < 2 ^ 24 ->
  Forall (fun x => Z.of_nat (length (joined pc sep v x.2)) < 2 ^ 24) (entries (name_key n) mh) ->
  exists mh', value_append table n v pc sep mh = Some mh' /\ hdr_rep mh' /\ contents mh' = append_entry n pc sep v (contents mh).
Proof.
  intros R G Lv Le. destruct (good_name_str n G) as (Nn & Ln & Tn & Kn). unfold value_append, append_entry. fold (entries (name_key n) mh).
  rewrite field_find_ok by (apply R || apply G). unfold heads. destruct (class (slots mh) (name_key n)) as [|i r] eqn:C; cbn [head].
  - assert (E : entries (name_key n) mh = []) by by apply class_nil. rewrite E. unfold mime_field_create_named.
    pose proof (create_named_ok mh n (name_tokenize table n) true R G Tn E) as A. destruct (mime_field_create mh) as [k mh1].
    destruct A as (mh2 & -> & R2 & C2 & f & Hf & Lf & Bl & Ab & FN). cbn [mbind option_bind].
    destruct (value_set_live mh2 k f v R2 Hf Lf Lv) as (mh3 & E3 & R3 & C3 & _). exists mh3. split_and!; [done|done|]. by rewrite C3, Bl, Ab, FN.
  - destruct (last (i :: r)) as [k|] eqn:La; [|by apply last_None in La]. destruct (class_last mh _ i r k C La) as (f & Hk & Lf & Kf & Ab).
    pose proof (last_dup_ok (dups_fuel mh) mh (i :: r) R) as LD. rewrite LD, La; cycle 1.
    { intros j Hj. rewrite <- C in Hj. apply elem_class in Hj as (g & Hg & _). eauto. }
    { rewrite <- C. apply (hdr_dups mh (rep_ok mh R)). }
    { rewrite <- C. pose proof (class_fuel mh (name_key n)). lia. }
    cbn [mbind option_bind]. rewrite (value_append_is_set mh k f) by (done || apply R).
    assert (CA := contents_at mh k f Hk). rewrite Lf in CA. assert (NF : named (name_key n) (content f) = true) by (unfold named; by apply bool_decide_true).
    assert (Fe : filter (fun x => named (name_key n) x = true) (contents_above mh k) = []) by by apply above_entries.
    assert (Hx : content f ∈ entries (name_key n) mh). { apply list_elem_of_filter. split; [done|]. rewrite CA. apply elem_of_app. right. by left. }
    rewrite Forall_forall in Le. specialize (Le _ Hx).
    destruct (value_set_live mh k f (joined pc sep v (field_value f)) R Hk Lf Le) as (mh3 & E3 & R3 & C3 & _). exists mh3. split_and!; [done|done|].
    rewrite C3. destruct (entries (name_key n) mh); [by apply elem_of_nil in Hx|]. rewrite CA. cbn [app]. by rewrite (update_last_at _ _ _ (content f)).
Qed.

(** Appending to a name: the value goes to the last field of the name, behind a
    separator if one is asked for and that field has a value; a name without fields
    gets one.  The other entries, and the order, do not change. *)
Theorem value_append_effect mh n v pc sep : hdr_rep mh -> good_name n -> Z.of_nat (length v) < 2 ^ 24 ->
  Forall (fun x => Z.of_nat (length (joined pc sep v x.2)) < 2 ^ 24) (entries (name_key n) mh) ->
  exists mh', value_append table n v pc sep mh = Some mh' /\ hdr_rep mh' /\ contents mh' = append_entry n pc sep v (contents mh).
Proof. apply value_append_ok. Qed.
End theorems.
