(* ===== verification/MimeParser.v ===== *)
(** The parser of MIME headers ([mime_parser_parse] in [proxy/hdrs/MIME.cc],
    [MIMEParser] in [MIME.h]): lines from [MimeScanner], fields into [MimeHdr].

    A line is the list of its bytes.  The strings of a field stay in the line, or in
    a copy of it: [must_copy_strings] decides which and does not show here.  [None]
    as a result is a crash, as in the files this one uses. *)

From S2P Require Import Prelude ParseRules MimeDate HdrToken MimePrint URL MimeScanner MimeHdr MimeHdrOps.
From Stdlib Require Import Ascii.

Record MIMEParser := mkParser { m_scanner : MIMEScanner; m_field : Z; m_field_flags : Z; m_parser_value : Z }.

Definition mime_parser_init : MIMEParser := mkParser mime_scanner_init 0 0 (-1).
Definition mime_parser_clear (parser : MIMEParser) : MIMEParser := mkParser (mime_scanner_clear (m_scanner parser)) 0 0 (-1).

(** ** A line *)

(** [while (last >= first && p( *last)) --last]. *)
Fixpoint drop_while (p : Z -> bool) (s : list Z) : list Z := match s with [] => [] | c :: s' => if p c then drop_while p s' else s end.
Definition strip_end (p : Z -> bool) (s : list Z) : list Z := rev (drop_while p (rev s)).

(** The end of the header, a line to be thrown away, or a field: the length of its
    name, where its value starts, and its length. *)
Inductive Line := EndOfHeader | Garbage | FieldLine (name_length value_first value_length : nat).

Definition parse_line (line : list Z) : Line :=
  if (2 <=? length line)%nat && (nth 0 line 0 =? CHAR_CR) && (nth 1 line 0 =? CHAR_LF) then EndOfHeader
  else if (1 <=? length line)%nat && (nth 0 line 0 =? CHAR_LF) then EndOfHeader
  else if negb (is_token (cur line)) && negb (cur line =? ch "@") then Garbage
  else
    match find_char (ch ":") line 0 with
    | None => Garbage
    | Some colon =>
      let name := strip_end is_ws (take colon line) in
      let value_first := (length line - length (drop_while is_ws (drop (S colon) line)))%nat in
      let value := strip_end is_wslfcr (drop value_first line) in
      FieldLine (length name) value_first (length value)
    end.

Section parser.
Context `{TokenDFA} (hash_table : list (option Z)).

(** Build and insert the new field object. *)
Definition add_line (line : list Z) (name_length value_first value_length : nat) (mh : MIMEHdrImpl) : option MIMEHdrImpl :=
  let field_name_wks_idx := hdrtoken_tokenize hash_table None (take name_length line) in
  let '(field, mh1) := mime_field_create mh in
  mh2 ← mime_field_name_value_set hash_table field field_name_wks_idx line (Z.of_nat name_length) (drop value_first line) (Z.of_nat value_length)
          true (Z.of_nat (length line)) mh1;
  mime_hdr_field_attach hash_table field true None mh2.

(** The result, the input that is left, the parser and the header. *)
Record Parse := mkParse { parse_result : MIMEParseResult; parse_rest : list Z; parse_scanner : MIMEScanner; parse_hdr : MIMEHdrImpl }.

Fixpoint parse_loop (fuel : nat) (eof : bool) (S : MIMEScanner) (raw : list Z) (mh : MIMEHdrImpl) : option Parse :=
  match fuel with
  | O => None
  | Datatypes.S fuel' =>
    R ← mime_scanner_get MIME_SCANNER_TYPE_FIELD eof S raw;
    match scan_result R with
    | PARSE_OK =>
      match parse_line (output R) with
      | EndOfHeader => Some (mkParse PARSE_DONE (raw_rest R) (scanner R) mh)
      | Garbage => parse_loop fuel' eof (scanner R) (raw_rest R) mh
      | FieldLine n v l => mh' ← add_line (output R) n v l mh; parse_loop fuel' eof (scanner R) (raw_rest R) mh'
      end
    | r => Some (mkParse r (raw_rest R) (scanner R) mh)
    end
  end.

(** Every line but one takes a byte of the input. *)
Definition parse_fuel (raw : list Z) : nat := length raw + 3.

Definition mime_parser_parse (parser : MIMEParser) (eof : bool) (raw : list Z) (mh : MIMEHdrImpl)
    : option (MIMEParseResult * list Z * MIMEParser * MIMEHdrImpl) :=
  P ← parse_loop (parse_fuel raw) eof (m_scanner parser) raw mh;
  Some (parse_result P, parse_rest P, mkParser (parse_scanner P) (m_field parser) (m_field_flags parser) (m_parser_value parser), parse_hdr P).

(** A header that arrives in pieces: the parser is called on one after the other
    until it asks for no more. *)
Fixpoint parse_pieces (parser : MIMEParser) (pieces : list (list Z)) (mh : MIMEHdrImpl)
    : option (MIMEParseResult * list (list Z) * MIMEParser * MIMEHdrImpl) :=
  match pieces with
  | [] => Some (PARSE_CONT, [], parser, mh)
  | p :: ps =>
    '(r, rest, parser', mh') ← mime_parser_parse parser false p mh;
    match r with PARSE_CONT => parse_pieces parser' ps mh' | _ => Some (r, rest :: ps, parser', mh') end
  end.
End parser.
