(* ===== verification/MimeParserFacts.v ===== *)
(** Theorems on the parser of MIME headers: what it makes of a text, that it does
    not matter how the text arrives, and the round trip with the printer. *)

From S2P Require Import Prelude ParseRules MimeDate HdrToken MimePrint URL MimeScanner MimeHdr MimeHdrOps MimeHdrFacts MimeHdrRep MimeHdrAttach MimeCooked MimeHdrTheorems MimeParser.
From Stdlib Require Import Ascii.

#[local] Opaque find_token.

Notation FIELD := MIME_SCANNER_TYPE_FIELD (only parsing).
Notation unfold_field := (unfold_line MIME_SCANNER_TYPE_FIELD).

(** ** The reference: the lines of a text *)

Inductive Outcome := Done (rest : list Z) | More (st : MIMEScannerState) (line : list Z).

(** From the state [st] with [line] collected, the text [s] has the field lines
    [ls], and then the header ends or the text does. *)
Inductive reads : MIMEScannerState -> list Z -> list Z -> list (list Z) -> Outcome -> Prop :=
  | reads_more st line s st' line' : unfold_field st line s = inr (st', line') -> reads st line s [] (More st' line')
  | reads_end st line s l r : unfold_field st line s = inl (l, r) -> parse_line l = EndOfHeader -> reads st line s [] (Done r)
  | reads_garbage st line s l r ls o : unfold_field st line s = inl (l, r) -> parse_line l = Garbage -> reads START [] r ls o -> reads st line s ls o
  | reads_field st line s l r n v k ls o : unfold_field st line s = inl (l, r) -> parse_line l = FieldLine n v k -> reads START [] r ls o -> reads st line s (l :: ls) o.

Lemma reads_det st line s ls o ls' o' : reads st line s ls o -> reads st line s ls' o' -> ls = ls' /\ o = o'.
Proof.
  intros R. revert ls' o'. induction R as [st line s st' line' E|st line s l r E P|st line s l r ls o E P R IH|st line s l r n v k ls o E P R IH];
    intros ls2 o2 R2; inversion R2; subst; rewrite E in *; simplify_eq; try done; try (rewrite P in *; simplify_eq).
  - by apply IH.
  - destruct (IH _ _ ltac:(eassumption)) as [-> ->]. done.
Qed.

Lemma reads_app_more st line p ls st' line' q ls' o : reads st line p ls (More st' line') -> reads st' line' q ls' o -> reads st line (p ++ q) (ls ++ ls') o.
Proof.
  intros R. remember (More st' line') as m eqn:Em. induction R as [st line s st2 line2 E|st line s l r E P|st line s l r ls o2 E P R IH|st line s l r n v k ls o2 E P R IH];
    intros Q; try done.
  - injection Em as -> ->. simpl. inversion Q; subst; [eapply reads_more|eapply reads_end|eapply reads_garbage|eapply reads_field]; rewrite ?unfold_app, ?E; done.
  - eapply reads_garbage; [by rewrite unfold_app, E|done|by apply IH].
  - simpl. eapply reads_field; [by rewrite unfold_app, E|done|by apply IH].
Qed.

Lemma reads_app_done st line p ls r q : reads st line p ls (Done r) -> reads st line (p ++ q) ls (Done (r ++ q)).
Proof.
  intros R. remember (Done r) as m eqn:Em. induction R as [st line s st2 line2 E|st line s l r' E P|st line s l r' ls o2 E P R IH|st line s l r' n v k ls o2 E P R IH]; try done.
  - injection Em as <-. eapply reads_end; [by rewrite unfold_app, E|done].
  - eapply reads_garbage; [by rewrite unfold_app, E|done|by apply IH].
  - eapply reads_field; [by rewrite unfold_app, E|done|by apply IH].
Qed.

(** What a line takes of the text. *)
Lemma strip_forall (P : Z -> Prop) l : Forall P l -> Forall P (strip_line_end l).
Proof.
  intros F. assert (D : forall c x y, Forall P x -> drop_last_char c x = Some y -> Forall P y).
  { intros c x y Fx. unfold drop_last_char. destruct (last x); [|done]. case_match; [|done]. intros [= <-]. by apply Forall_take. }
  unfold strip_line_end. destruct (drop_last_char CHAR_LF l) as [l1|] eqn:E; [|done]. apply D in E; [|done].
  destruct (drop_last_char CHAR_CR l1) as [l2|] eqn:E2; simpl; [by eapply D|done].
Qed.

Lemma unfold_takes (P : Z -> Prop) st line s : Forall P line -> Forall P s ->
  match unfold_field st line s with
  | inl (l, r) => Forall P l /\ Forall P r /\ (length l + length r <= length line + length s)%nat /\ exists x, s = x ++ r
  | inr (_, l) => Forall P l /\ (length l <= length line + length s)%nat
  end.
Proof.
  revert st line. induction s as [|c s IH]; intros st line Fl Fs; [simpl; split; [done|lia]|]. apply Forall_cons in Fs as [Fc Fs].
  assert (A : Forall P (line ++ [c])) by (apply Forall_app; by split; [|constructor]).
  assert (G : forall st' l', Forall P l' -> (length l' <= S (length line))%nat -> match unfold_field st' l' s with
    | inl (l, r) => Forall P l /\ Forall P r /\ (length l + length r <= length line + length (c :: s))%nat /\ exists x, c :: s = x ++ r
    | inr (_, l) => Forall P l /\ (length l <= length line + length (c :: s))%nat end).
  { intros st' l' F' L'. specialize (IH st' l' F' Fs). destruct (unfold_field st' l' s) as [[l r]|[st2 l]]; simpl.
    - destruct IH as (? & ? & ? & x & ->). split_and!; [done..|lia|]. by exists (c :: x).
    - destruct IH as [? ?]. split; [done|lia]. }
  assert (L1 : (length (line ++ [c]) <= S (length line))%nat) by (rewrite length_app; simpl; lia).
  assert (E : Forall P (line ++ [c]) /\ Forall P s /\ (length (line ++ [c]) + length s <= length line + length (c :: s))%nat /\ exists x, c :: s = x ++ s).
  { split_and!; [done..|rewrite length_app; simpl; lia|by exists [c]]. }
  assert (E0 : Forall P line /\ Forall P (c :: s) /\ (length line + length (c :: s) <= length line + length (c :: s))%nat /\ exists x, c :: s = x ++ c :: s).
  { split_and!; [done|by constructor|lia|by exists []]. }
  pose proof (strip_length line). pose proof (strip_forall P line Fl).
  cbn [unfold_line]. destruct st; repeat (match goal with |- context [if ?b then _ else _] => destruct b end); try done; apply G; done || lia.
Qed.

(** A line that starts at its first byte takes one. *)
Lemma unfold_start_shrinks line s l r : unfold_field START line s = inl (l, r) -> (length r < length s)%nat.
Proof.
  destruct s as [|c s]; [done|]. cbn [unfold_line]. assert (G : forall st l', unfold_field st l' s = inl (l, r) -> (length r < length (c :: s))%nat).
  { intros st l' E. pose proof (unfold_takes (fun _ => True) st l' s ltac:(by apply Forall_true) ltac:(by apply Forall_true)) as T. rewrite E in T.
    destruct T as (_ & _ & _ & x & ->). simpl. rewrite length_app. lia. }
  repeat case_match; try (by apply G). intros [= <- <-]. simpl. lia.
Qed.

Lemma reads_cont_lf st line s ls l' : reads st line s ls (More FOR_CONT l') -> (s = [] /\ st = FOR_CONT) \/ last s = Some CHAR_LF.
Proof.
  intros R. remember (More FOR_CONT l') as m eqn:Em. induction R as [st line s st2 line2 E|st line s l r E P|st line s l r ls o E P R IH|st line s l r n v k ls o E P R IH]; try done.
  - injection Em as -> ->. by eapply unfold_cont_lf.
  - pose proof (unfold_takes (fun _ => True) st line s ltac:(by apply Forall_true) ltac:(by apply Forall_true)) as T. rewrite E in T.
    destruct T as (_ & _ & _ & x & ->). destruct (IH Em) as [[_ ?]|L]; [done|]. right. by rewrite last_app, L.
  - pose proof (unfold_takes (fun _ => True) st line s ltac:(by apply Forall_true) ltac:(by apply Forall_true)) as T. rewrite E in T.
    destruct T as (_ & _ & _ & x & ->). destruct (IH Em) as [[_ ?]|L]; [done|]. right. by rewrite last_app, L.
Qed.

(** ** A line becomes a field *)

Definition line_entry (l : list Z) : list Z * list Z :=
  match parse_line l with FieldLine n v k => (take n l, take k (drop v l)) | _ => ([], []) end.

Lemma drop_while_suffix p s : exists x, s = x ++ drop_while p s.
Proof. induction s as [|c s [x IH]]; [by exists []|]. simpl. case_match; [|by exists []]. exists (c :: x). simpl. by f_equal. Qed.

Lemma strip_end_prefix p s : exists x, s = strip_end p s ++ x.
Proof. destruct (drop_while_suffix p (rev s)) as [x E]. exists (rev x). unfold strip_end. by rewrite <- rev_app_distr, <- E, rev_involutive. Qed.

Lemma find_char_at c l cur i : find_char c l cur = Some i -> (cur <= i < cur + length l)%nat.
Proof. revert cur. induction l as [|d l IH]; intros cur; simpl; [done|]. case_match; [intros [= ->]; lia|]. intros E%IH. lia. Qed.

Lemma drop_while_drop p n s : drop (length s - length (drop_while p (drop n s))) s = drop_while p (drop n s).
Proof.
  destruct (drop_while_suffix p (drop n s)) as [x E]. set (w := drop_while p (drop n s)) in *.
  assert (Es : s = (take n s ++ x) ++ w) by (by rewrite <- app_assoc, <- E, take_drop). rewrite Es at 1 2. rewrite length_app, Nat.add_sub. apply drop_app_length.
Qed.

(** The parts of a field line: the name before the colon, and the value after the
    white space behind it. *)
Lemma parse_line_parts l n v k : parse_line l = FieldLine n v k -> exists colon, find_char (ch ":") l 0 = Some colon /\
  (is_token (cur l) = true \/ cur l = ch "@") /\ take n l = strip_end is_ws (take colon l) /\ drop v l = drop_while is_ws (drop (S colon) l) /\
  take k (drop v l) = strip_end is_wslfcr (drop v l) /\ (n <= colon < v)%nat /\ (v + k <= length l)%nat.
Proof.
  unfold parse_line. destruct (_ && _); [done|]. destruct (_ && _); [done|]. destruct (_ && _) eqn:T; [done|].
  destruct (find_char (ch ":") l 0) as [colon|] eqn:F; [|done]. pose proof (find_char_at _ _ _ _ F) as B. intros [= <- <- <-]. exists colon.
  rewrite drop_while_drop. set (d := drop_while is_ws (drop (S colon) l)).
  assert (Ld : (length d <= length l - S colon)%nat). { destruct (drop_while_suffix is_ws (drop (S colon) l)) as [x E]. apply (f_equal length) in E. rewrite length_drop, length_app in E. unfold d. lia. }
  destruct (strip_end_prefix is_ws (take colon l)) as [x Ex]. destruct (strip_end_prefix is_wslfcr d) as [y Ey].
  assert (Ln : (length (strip_end is_ws (take colon l)) <= colon)%nat) by (apply (f_equal length) in Ex; rewrite length_take, length_app in Ex; lia).
  split; [done|]. split. { apply andb_false_iff in T as [T|T]; apply negb_false_iff in T; [by left|right; by apply Z.eqb_eq]. }
  split. { replace (take (length (strip_end is_ws (take colon l))) l) with (take (length (strip_end is_ws (take colon l))) (take colon l)) by (rewrite take_take; f_equal; lia). rewrite Ex at 2. by rewrite take_app_length. }
  split; [done|]. split. { rewrite Ey at 2. by rewrite take_app_length. }
  apply (f_equal length) in Ey. rewrite length_app in Ey. lia.
Qed.

(** The lengths of a field line are inside the line. *)
Lemma parse_line_bounds l n v k : parse_line l = FieldLine n v k -> (n <= v)%nat /\ (n <= length l)%nat /\ (v + k <= length l)%nat.
Proof. intros P. destruct (parse_line_parts l n v k P) as (colon & _ & _ & _ & _ & _ & ? & ?). lia. Qed.

Section parse.
Context `{TokenDFA}.
Notation table := common_table.

(** The field a line becomes, attached. *)
Definition line_field (l : list Z) : MIMEField :=
  match parse_line l with
  | FieldLine n v k => set_readiness LIVE (set_name_value table (find_token (take n l)) l (Z.of_nat n) (drop v l) (Z.of_nat k) true (Z.of_nat (length l)) mime_field_init)
  | _ => mime_field_init
  end.

(** The fields of the lines come after those that are there. *)
Definition added (mh : MIMEHdrImpl) (ls : list (list Z)) (mh' : MIMEHdrImpl) : Prop :=
  hdr_rep mh' /\ contents mh' = contents mh ++ (line_entry <$> ls) /\ erase <$> slots mh' = (erase <$> slots mh) ++ (erase ∘ line_field <$> ls).

Lemma added_nil mh : hdr_rep mh -> added mh [] mh.
Proof. intros R. split_and!; by rewrite ?app_nil_r. Qed.

Lemma added_app mh ls mh1 ls' mh2 : added mh ls mh1 -> added mh1 ls' mh2 -> added mh (ls ++ ls') mh2.
Proof. intros (_ & C1 & E1) (R & C2 & E2). split_and!; [done|by rewrite C2, C1, fmap_app, app_assoc|by rewrite E2, E1, fmap_app, app_assoc]. Qed.

Lemma set_name_value_ok l n k w v : (n <= length l)%nat -> (v + k <= length l)%nat -> Z.of_nat (length l) < 2 ^ 16 ->
  let f := set_name_value table w l (Z.of_nat n) (drop v l) (Z.of_nat k) true (Z.of_nat (length l)) mime_field_init in
  field_name f = take n l /\ field_value f = take k (drop v l) /\ m_readiness f = DETACHED /\ m_wks_idx f = w /\
  m_len_name f = Z.of_nat n /\ m_ptr_name f = l /\ m_ptr_value f = Some (drop v l) /\ m_len_value f = Z.of_nat k /\
  m_cooked f = is_cooked_name table w /\ m_next_dup f = None.
Proof.
  intros Bn Bv Ln. assert (WN : wrapu 16 (Z.of_nat n) = Z.of_nat n) by (apply wrapu_id; lia). assert (WK : wrapu 24 (Z.of_nat k) = Z.of_nat k) by (apply wrapu_id; lia).
  unfold set_name_value, field_name, field_value, str_of. destruct (true && _); simpl; rewrite ?WN, ?WK, ?Nat2Z.id; done.
Qed.

Lemma add_line_ok l n v k mh : hdr_rep mh -> parse_line l = FieldLine n v k -> Z.of_nat (length l) < 2 ^ 16 -> Forall (fun c => c <> 0) l ->
  exists mh', add_line table l n v k mh = Some mh' /\ added mh [l] mh'.
Proof.
  intros R PL Ln Nn. destruct (parse_line_bounds l n v k PL) as (_ & Bn & Bv). unfold add_line, added, line_field, line_entry. simpl fmap. rewrite PL.
  destruct (tokenize_hash_agrees (take n l)) as (_ & -> & _). set (w := find_token (take n l)).
  destruct (set_name_value_ok l n k w v Bn Bv Ln) as (G1 & G2 & G3 & G4 & G5 & G6 & G7 & G8 & G9 & G10).
  unfold mime_field_name_value_set. set (g := set_name_value table w l (Z.of_nat n) (drop v l) (Z.of_nat k) true (Z.of_nat (length l))) in *.
  assert (F : field_ok (g mime_field_init)).
  { constructor; rewrite ?G1, ?G3, ?G4, ?G5, ?G6, ?G7, ?G8, ?G9, ?G10; try done; [lia|by apply Forall_take|simpl; rewrite length_drop; lia|].
    unfold is_cooked_name. intros Q. rewrite cache_control_index. rewrite pragma_index. destruct Q as [-> | ->]; done. }
  pose proof (add_field_ok mh g true R ltac:(by rewrite G3) F ltac:(left; by rewrite G7) (or_introl eq_refl)) as A.
  pose proof (create_ok mh R) as C. destruct (mime_field_create mh) as [f1 mh1]. destruct C as (R1 & Ek & S1 & C1).
  destruct A as (mh2 & A & R2 & C2 & _ & E2). exists mh2.
  unfold recook. assert (B1 := hdr_blocks mh1 (rep_ok mh1 R1)). rewrite field_at_slots by by apply upd_blocks_ok. rewrite slots_upd by done.
  rewrite lookup_alter_case, decide_True, S1, Ek, lookup_app_r, Nat.sub_diag by (done || lia). cbn [lookup list_lookup fmap option_fmap option_map mbind option_bind].
  assert (is_live (g mime_field_init) = false) as -> by (unfold is_live; by rewrite G3). cbn [andb mbind option_bind]. rewrite <- Ek.
  split; [exact A|]. split; [done|]. rewrite C2, E2. unfold content. by rewrite G1, G2.
Qed.

(** ** One call of the parser *)

(** What the end of the input makes of an outcome: the result, the field lines that
    are still to come, and the rest.  At the end of the file a line that waits for a
    continuation is whole, and any other that is not is an error. *)
Definition closing (eof : bool) (o : Outcome) : MIMEParseResult * list (list Z) * list Z :=
  match o with
  | Done r => (PARSE_DONE, [], r)
  | More st line =>
    if eof then
      if bool_decide (st = FOR_CONT) then (PARSE_DONE, match parse_line line with FieldLine _ _ _ => [line] | _ => [] end, [])
      else (match line with [] => PARSE_DONE | _ => PARSE_ERROR end, [], [])
    else (PARSE_CONT, [], [])
  end.

(** Where the next call begins. *)
Definition scanner_at (o : Outcome) (S : MIMEScanner) : Prop :=
  scanner_ok S /\ match o with Done _ => m_line S = [] /\ m_state S = START | More st line => m_line S = line /\ m_state S = st end.

Definition parsed (eof : bool) (mh : MIMEHdrImpl) (ls : list (list Z)) (o : Outcome) (P : Parse) : Prop :=
  parse_result P = (closing eof o).1.1 /\ parse_rest P = (closing eof o).2 /\ added mh (ls ++ (closing eof o).1.2) (parse_hdr P) /\ (eof = false \/ (exists r, o = Done r) -> scanner_at o (parse_scanner P)).

(** The bytes collected and still to be read are few enough for 16-bit lengths, and
    none is a NUL. *)
Definition text_ok (line raw : list Z) : Prop := Z.of_nat (length line + length raw) < 2 ^ 16 /\ Forall (fun c => c <> 0) line /\ Forall (fun c => c <> 0) raw.

Definition need (st : MIMEScannerState) (raw : list Z) : nat := length raw + (if bool_decide (st = START) then 1 else 2).

Lemma unfold_text_ok st line raw l r : text_ok line raw -> unfold_field st line raw = inl (l, r) ->
  text_ok [] r /\ Z.of_nat (length l) < 2 ^ 16 /\ Forall (fun c => c <> 0) l /\ (need START r < need st raw)%nat.
Proof.
  intros (L & Fl & Fr) E. pose proof (unfold_takes (fun c => c <> 0) st line raw Fl Fr) as T. rewrite E in T. destruct T as (F1 & F2 & Ln & x & Ex).
  unfold text_ok. split_and!; simpl; [lia|done|done|lia|done|]. unfold need. rewrite (bool_decide_true (START = START)) by done.
  case_bool_decide as B; [rewrite B in E; apply unfold_start_shrinks in E; lia|]. rewrite Ex, length_app. lia.
Qed.

Lemma parsed_cons eof mh mh1 x ls o P : added mh [x] mh1 -> parsed eof mh1 ls o P -> parsed eof mh (x :: ls) o P.
Proof. intros A (P1 & P2 & P3 & P4). split_and!; try done. by eapply (added_app mh [x]). Qed.

(** The end of the file, with nothing collected. *)
Lemma parse_loop_eof fuel S mh : scanner_ok S -> m_line S = [] -> m_state S = START -> hdr_rep mh -> (1 <= fuel)%nat ->
  exists P, parse_loop table fuel true S [] mh = Some P /\ parse_result P = PARSE_DONE /\ parse_rest P = [] /\ parse_hdr P = mh.
Proof.
  intros HS L St R Hf. destruct fuel as [|fuel]; [lia|]. cbn [parse_loop].
  destruct (scanner_get_ok FIELD true S [] HS) as (Rs & -> & H1 & O); [unfold fits; rewrite L; done|by rewrite St|].
  rewrite L, St in O. simpl in O. destruct O as (O1 & O2 & _). cbn [mbind option_bind]. rewrite O1, O2. by eexists.
Qed.

(** The line that waits for a continuation at the end of the file. *)
Lemma parse_last_line fuel S st line mh : scanner_ok S -> m_line S = [] -> m_state S = START -> hdr_rep mh -> (1 <= fuel)%nat ->
  Z.of_nat (length line) < 2 ^ 16 -> Forall (fun c => c <> 0) line -> st = FOR_CONT ->
  exists P, match parse_line line with
    | EndOfHeader => Some (mkParse PARSE_DONE [] S mh)
    | Garbage => parse_loop table fuel true S [] mh
    | FieldLine n v l => mh' ← add_line table line n v l mh; parse_loop table fuel true S [] mh'
    end = Some P /\ parsed true mh [] (More st line) P.
Proof.
  intros HS L St R Hf Ll Fl ->. unfold parsed. cbn [closing]. rewrite bool_decide_true by done. cbn [fst snd app].
  assert (N : forall P : Parse, true = false \/ (exists r, More FOR_CONT line = Done r) -> scanner_at (More FOR_CONT line) (parse_scanner P)) by (intros P [|[? ?]]; done).
  destruct (parse_line line) as [| |n v k] eqn:PL.
  - eexists. split; [done|]. split_and!; [done|done|by apply added_nil|apply N].
  - destruct (parse_loop_eof fuel S mh HS L St R Hf) as (P & -> & P1 & P2 & P3). exists P. rewrite P3. split_and!; [done..|by apply added_nil|apply N].
  - destruct (add_line_ok line n v k mh R PL Ll Fl) as (mh1 & -> & A). cbn [mbind option_bind].
    destruct (parse_loop_eof fuel S mh1 HS L St (proj1 A) Hf) as (P & -> & P1 & P2 & P3). exists P. rewrite P3. split_and!; [done..|apply N].
Qed.

Lemma parse_loop_ok fuel eof S raw mh : hdr_rep mh -> scanner_ok S -> m_state S <> DONE -> at_continuation (m_state S) raw = false ->
  text_ok (m_line S) raw -> (need (m_state S) raw <= fuel)%nat ->
  exists ls o P, reads (m_state S) (m_line S) raw ls o /\ parse_loop table fuel eof S raw mh = Some P /\ parsed eof mh ls o P.
Proof.
  revert S raw mh. induction fuel as [|fuel IH]; intros S raw mh R HS D NC T Hf; [unfold need in Hf; case_bool_decide; lia|].
  cbn [parse_loop]. destruct (scanner_get_ok FIELD eof S raw HS) as (Rs & -> & H1 & O); [destruct T; unfold fits, MAX_LINE; lia|done|].
  rewrite NC in O. cbn [mbind option_bind]. destruct (unfold_field (m_state S) (m_line S) raw) as [[l r]|[st line]] eqn:E.
  - destruct O as (O1 & O2 & O3 & L1 & S1). rewrite O1, O2, O3. destruct (unfold_text_ok _ _ _ _ _ T E) as (T1 & Ll & Nl & Nd).
    assert (N1 : forall mh', hdr_rep mh' -> exists ls o P, reads START [] r ls o /\ parse_loop table fuel eof (scanner Rs) r mh' = Some P /\ parsed eof mh' ls o P).
    { intros mh' R'. rewrite <- L1, <- S1. apply IH; [done|done|by rewrite S1|by rewrite S1|by rewrite L1|rewrite S1; lia]. }
    destruct (parse_line l) as [| |n v k] eqn:PL.
    + eexists [], (Done r), _. split; [by eapply reads_end|]. split; [done|]. split_and!; simpl; [done|done|by apply added_nil|done].
    + destruct (N1 mh R) as (ls & o & P & Rd & Pl & Pd). exists ls, o, P. split; [by eapply reads_garbage|done].
    + destruct (add_line_ok l n v k mh R PL Ll Nl) as (mh1 & -> & A). cbn [mbind option_bind].
      destruct (N1 mh1 (proj1 A)) as (ls & o & P & Rd & Pl & Pd). exists (l :: ls), o, P. split; [by eapply reads_field|]. split; [done|]. by eapply parsed_cons.
  - destruct (eof && bool_decide (st = FOR_CONT)) eqn:B.
    + destruct O as (O1 & O2 & O3 & L1 & S1). rewrite O1, O2, O3. apply andb_true_iff in B as [-> B]. apply bool_decide_eq_true in B.
      pose proof (unfold_takes (fun c => c <> 0) (m_state S) _ _ (proj1 (proj2 T)) (proj2 (proj2 T))) as U. rewrite E in U. destruct U as [Fl Ln].
      assert (F1 : (1 <= fuel)%nat). { unfold need in Hf. case_bool_decide as B2; [|lia]. destruct raw; [|simpl in Hf; lia]. simpl in E. injection E as E _. congruence. }
      edestruct (parse_last_line fuel (scanner Rs) st line mh) as (P & E' & Pd); [done..|destruct T; lia|done|done|].
      exists [], (More st line), P. split; [by apply reads_more|]. by split.
    + destruct O as (O1 & O2 & O3 & O4 & O5). exists [], (More st line), (mkParse (scan_result Rs) (raw_rest Rs) (scanner Rs) mh).
      split; [by apply reads_more|]. unfold parsed. cbn [closing parse_result parse_rest parse_hdr parse_scanner].
      destruct eof; cbn [andb] in B; rewrite ?B; cbn [fst snd app]; rewrite O1, O2.
      * split; [by destruct line|]. split_and!; [done|done|by apply added_nil|by intros [|[? ?]]].
      * split; [done|]. split_and!; [done|done|by apply added_nil|by split].
Qed.

(** A whole call. *)
Lemma parse_ok parser eof raw mh : hdr_rep mh -> scanner_ok (m_scanner parser) -> m_state (m_scanner parser) <> DONE ->
  at_continuation (m_state (m_scanner parser)) raw = false -> text_ok (m_line (m_scanner parser)) raw ->
  exists ls o P, reads (m_state (m_scanner parser)) (m_line (m_scanner parser)) raw ls o /\ parsed eof mh ls o P /\
    mime_parser_parse table parser eof raw mh =
      Some (parse_result P, parse_rest P, mkParser (parse_scanner P) (m_field parser) (m_field_flags parser) (m_parser_value parser), parse_hdr P).
Proof.
  intros R HS D NC T. unfold mime_parser_parse.
  destruct (parse_loop_ok (parse_fuel raw) eof (m_scanner parser) raw mh R HS D NC T) as (ls & o & P & Rd & -> & Pd); [unfold need, parse_fuel; case_bool_decide; lia|].
  by exists ls, o, P.
Qed.

(** ** Input that arrives in pieces *)

Lemma reads_more_takes (P : Z -> Prop) st line s ls st' line' : reads st line s ls (More st' line') -> st <> DONE -> Forall P line -> Forall P s ->
  st' <> DONE /\ Forall P line' /\ (length line' <= length line + length s)%nat.
Proof.
  intros R. remember (More st' line') as m eqn:Em. assert (T := fun st line s F1 F2 => unfold_takes P st line s F1 F2).
  induction R as [st line s st2 line2 E|st line s l r E PL|st line s l r ls o E PL R IH|st line s l r n v k ls o E PL R IH]; try done; intros D F1 F2;
    specialize (T st line s F1 F2); rewrite E in T.
  - injection Em as -> ->. by split; [eapply unfold_not_done|].
  - destruct T as (_ & T2 & T3 & _), (IH Em) as (? & ? & Ln); try done. simpl in Ln. split_and!; [done..|lia].
  - destruct T as (_ & T2 & T3 & _), (IH Em) as (? & ? & Ln); try done. simpl in Ln. split_and!; [done..|lia].
Qed.

(** The parser and the header after the outcome [o] on the pieces. *)
Definition pieces_parsed (mh : MIMEHdrImpl) (ls : list (list Z)) (o : Outcome) (x : MIMEParseResult * list (list Z) * MIMEParser * MIMEHdrImpl) : Prop :=
  let '(r, rest, parser, mh') := x in
  r = (closing false o).1.1 /\ concat rest = (closing false o).2 /\ scanner_at o (m_scanner parser) /\
  added mh ls mh'.

Lemma parse_pieces_ok parser pieces b mh : hdr_rep mh -> scanner_ok (m_scanner parser) -> m_state (m_scanner parser) <> DONE ->
  cuts_ok b pieces = true -> (m_state (m_scanner parser) = FOR_CONT -> b = true) -> text_ok (m_line (m_scanner parser)) (concat pieces) ->
  exists ls o x, reads (m_state (m_scanner parser)) (m_line (m_scanner parser)) (concat pieces) ls o /\
    parse_pieces table parser pieces mh = Some x /\ pieces_parsed mh ls o x.
Proof.
  revert parser b mh. induction pieces as [|p ps IH]; intros parser b mh R HS D C HB T.
  { eexists [], _, _. split; [by apply reads_more|]. split; [done|]. split_and!; try done. by apply added_nil. }
  cbn [concat parse_pieces] in *. destruct T as (Ln & F1 & F2). apply Forall_app in F2 as [F2 F3]. rewrite length_app in Ln.
  assert (NC : at_continuation (m_state (m_scanner parser)) p = false).
  { unfold at_continuation. case_bool_decide as E; [|done]. rewrite (HB E) in C. simpl in C. apply andb_true_iff in C as [C _]. by apply negb_true_iff in C. }
  destruct (parse_ok parser false p mh R HS D NC) as (ls & o & P & Rd & (P1 & P2 & P4 & P5) & ->); [split_and!; [lia|done..]|].
  specialize (P5 (or_introl eq_refl)). cbn [mbind option_bind]. rewrite P1, P2. destruct o as [r|st line]; cbn [closing fst snd] in P4 |- *.
  - eexists ls, (Done _), _. split; [by apply reads_app_done|]. split; [done|]. rewrite app_nil_r in P4. by split_and!.
  - destruct P5 as (P5 & P6 & P7). rewrite app_nil_r in P4. destruct (reads_more_takes (fun c => c <> 0) _ _ _ _ _ _ Rd D F1 F2) as (D' & F1' & Ln').
    simpl in C. apply andb_true_iff in C as [_ C].
    edestruct (IH (mkParser (parse_scanner P) (m_field parser) (m_field_flags parser) (m_parser_value parser))) as (ls' & o' & x & Rd' & E' & X); cbn [m_scanner].
    1: apply P4. 1: done. 1: by rewrite P7. 1: exact C.
    + rewrite P7. intros ->. destruct (reads_cont_lf _ _ _ _ _ Rd) as [[-> Q]|Q]; [by apply HB|by rewrite Q].
    + rewrite P6. split_and!; [lia|done..].
    + cbn [m_scanner] in Rd', E'. rewrite P6, P7 in Rd'. exists (ls ++ ls'), o', x. split; [by eapply reads_app_more|]. split; [done|].
      destruct x as [[[r rest] parser'] mh']. destruct X as (X1 & X2 & X3 & X4). split_and!; try done. by eapply added_app.
Qed.

(** C11: A header does not depend on how it arrives.  Cut anywhere but between the end
    of a line and the white space of its continuation, and handed to the parser
    piece by piece, a text gives the result, the fields and the unread rest that it
    gives in one call; and the parser always returns. *)
Theorem parse_cut_independent mh raw pieces : hdr_rep mh -> text_ok [] raw -> concat pieces = raw -> cuts_ok false pieces = true ->
  exists r rest parser mh1 rests parser' mh2,
    mime_parser_parse table mime_parser_init false raw mh = Some (r, rest, parser, mh1) /\
    parse_pieces table mime_parser_init pieces mh = Some (r, rests, parser', mh2) /\
    concat rests = rest /\ contents mh2 = contents mh1 /\ hdr_rep mh1 /\ hdr_rep mh2 /\
    m_line (m_scanner parser') = m_line (m_scanner parser) /\ m_state (m_scanner parser') = m_state (m_scanner parser).
Proof.
  intros R T <- C. assert (HS : scanner_ok mime_scanner_init) by (split; [done|by left]).
  destruct (parse_ok mime_parser_init false (concat pieces) mh R HS) as (ls & o & P & Rd & (P1 & P2 & (P3 & P4 & _) & P5) & ->); [done..|].
  destruct (parse_pieces_ok mime_parser_init pieces false mh R HS) as (ls' & o' & x & Rd' & -> & X); [done..|].
  destruct (reads_det _ _ _ _ _ _ _ Rd Rd') as [<- <-]. destruct x as [[[r rests] parser'] mh2]. destruct X as (-> & X2 & (_ & X3) & X4 & X5 & _).
  specialize (P5 (or_introl eq_refl)) as (_ & P5).
  eexists _, _, _, _, _, _, _. split; [done|]. split; [by rewrite P1|]. split_and!; try done; [by rewrite X2, P2|rewrite X5, P4; destruct o; by rewrite app_nil_r|..];
    destruct o; destruct P5 as [P5 P6]; destruct X3 as [X3 X6]; simpl; congruence.
Qed.
End parse.
