(* ===== verification/MimeRoundtrip.v ===== *)
(** Printing MIME headers: what the printer writes, into buffers of any size, and
    that the parser reads it back. *)

From S2P Require Import Prelude ParseRules MimeDate HdrToken MimePrint URL URLFacts MimeScanner MimeHdr MimeHdrOps MimeHdrFacts MimeHdrRep MimeHdrAttach MimeCooked MimeHdrTheorems MimeParser MimeParserFacts.
From Stdlib Require Import Ascii.

#[local] Opaque find_token.

(** ** What is printed *)

(** A field on the wire. *)
Definition wire (f : MIMEField) : list Z := concat (field_pieces f).

(** A name that begins with an @ is internal, and not printed. *)
Definition visible (f : MIMEField) : bool := negb (cur (m_ptr_name f) =? ch "@").

Definition hdr_text (fs : list MIMEField) : list Z :=
  concat (wire <$> filter (fun f => is_live f && visible f = true) fs) ++ [CHAR_CR; CHAR_LF].

(** A line that is printed as it came is there to be printed. *)
Definition raw_ok (f : MIMEField) : Prop :=
  m_n_v_raw_printable f = true -> 0 <= m_n_v_raw_printable_pad f /\ m_len_name f + m_len_value f + m_n_v_raw_printable_pad f <= Z.of_nat (length (m_ptr_name f)).

Lemma str_of_length s n : 0 <= n <= Z.of_nat (length s) -> Z.of_nat (length (str_of s n)) = n.
Proof. intros. unfold str_of. rewrite length_take. lia. Qed.

Lemma wire_length f : field_ok f -> raw_ok f -> mime_field_length_get f = Z.of_nat (length (wire f)).
Proof.
  intros [_ Ln _ Lv _ _] R. unfold mime_field_length_get, wire, field_pieces. destruct (m_n_v_raw_printable f) eqn:E.
  - destruct (R E) as [R1 R2]. simpl. rewrite app_nil_r, str_of_length by lia. lia.
  - simpl. rewrite !length_app. simpl. rewrite length_app. simpl. unfold field_name, field_value.
    rewrite !Nat2Z.inj_add, !Nat2Z.inj_succ, Nat2Z.inj_add, (str_of_length (m_ptr_name f)), (str_of_length (default [] (m_ptr_value f))) by lia. simpl. lia.
Qed.

Lemma field_print_spec f len i k o : field_ok f -> raw_ok f -> (i <= len)%nat ->
  mime_field_print f (Z.of_nat len) (mkPrint (Z.of_nat i) (Z.of_nat k) o) = print_spec len (if visible f then wire f else []) i k o.
Proof.
  intros F R Hi. unfold mime_field_print, visible. destruct (cur (m_ptr_name f) =? ch "@"); cbn [negb]; [by rewrite print_spec_nil|].
  cbn [chars_to_skip buf_index printed]. rewrite (wire_length f F R). destruct (Z.eqb_spec (Z.of_nat k) 0); cbn [andb]; [|by apply try_print_spec].
  destruct (Z.leb_spec (Z.of_nat (length (wire f))) (Z.of_nat len - Z.of_nat i)); [|by apply try_print_spec].
  assert (k = 0%nat) as -> by lia. unfold print_spec. rewrite drop_0, bool_decide_true, take_ge by lia. do 2 f_equal; lia.
Qed.

Lemma print_fields_spec fs len i k o : Forall field_ok fs -> Forall (fun f => is_live f = true -> raw_ok f) fs -> (i <= len)%nat ->
  print_fields fs (Z.of_nat len) (mkPrint (Z.of_nat i) (Z.of_nat k) o) = print_spec len (hdr_text fs) i k o.
Proof.
  unfold hdr_text. revert i k o. induction fs as [|f fs IH]; intros i k o FO RO Hi; [by apply mem_print_spec|].
  apply Forall_cons in FO as [F FO], RO as [R RO]. cbn [print_fields]. rewrite filter_cons. destruct (is_live f); [|rewrite decide_False by done; by apply IH].
  rewrite field_print_spec by auto. set (w := if visible f then wire f else []).
  assert (E : concat (wire <$> (if decide (true && visible f = true) then f :: filter (fun f => is_live f && visible f = true) fs else filter (fun f => is_live f && visible f = true) fs)) =
    w ++ concat (wire <$> filter (fun f => is_live f && visible f = true) fs)).
  { unfold w. destruct (visible f); [by rewrite decide_True|by rewrite decide_False]. }
  rewrite E, <- app_assoc, print_spec_app by done. destruct (print_spec len w i k o) as [ok st] eqn:X. destruct ok; [|done].
  unfold print_spec in X. injection X as _ <-.
  rewrite IH by (done || rewrite length_take; lia). done.
Qed.

(** ** Lines that are read back *)

(** A line with one LF, at its end. *)
Definition one_line (l : list Z) : Prop := exists b, l = b ++ [CHAR_LF] /\ Forall (fun c => c <> CHAR_LF) b.
Definition is_field (l : list Z) : Prop := exists n v k, parse_line l = FieldLine n v k.

Lemma token_not_ws c : is_token c = true -> is_ws c = false.
Proof. unfold is_ws. destruct (Z.eqb_spec c CHAR_SP) as [->|_]; [by vm_compute|]. destruct (Z.eqb_spec c CHAR_HT) as [->|_]; [by vm_compute|done]. Qed.

(** A field line begins with a character that does not continue the line before. *)
Lemma field_first l : is_field l -> exists c r, l = c :: r /\ is_ws c = false.
Proof.
  intros (n & v & k & P). destruct l as [|c r]; [by vm_compute in P|]. exists c, r. split; [done|]. unfold parse_line in P. destruct (is_ws c) eqn:W; [|done].
  exfalso. repeat (case_match; try done). match goal with E : _ && _ = false |- _ => cbn [cur] in E; apply andb_false_iff in E as [E|E] end; apply negb_false_iff in H1.
  - by rewrite (token_not_ws c H1) in W.
  - apply Z.eqb_eq in H1 as ->. by vm_compute in W.
Qed.

Lemma span_lf_app b r : Forall (fun c => c <> CHAR_LF) b -> span_lf (b ++ CHAR_LF :: r) = Some (b ++ [CHAR_LF], r).
Proof. induction 1 as [|c b N _ IH]; [done|]. cbn [app span_lf]. rewrite (proj2 (Z.eqb_neq _ _)) by done. by rewrite IH. Qed.

Lemma unfold_one_line l c r : one_line l -> is_field l -> is_ws c = false -> unfold_field START [] (l ++ c :: r) = inl (l, c :: r).
Proof.
  intros (b & -> & F) Fl W. rewrite <- app_assoc. cbn [app].
  assert (G : forall line b, Forall (fun c => c <> CHAR_LF) b -> unfold_field FOR_LF line (b ++ CHAR_LF :: c :: r) = inl (line ++ b ++ [CHAR_LF], c :: r)).
  { intros line b' F'. rewrite unfold_for_lf, span_lf_app, bool_decide_false by done. cbn [unfold_line]. by rewrite W. }
  destruct Fl as (n & v & k & P). destruct b as [|d b]; [by vm_compute in P|]. apply Forall_cons in F as [D F]. cbn [app unfold_line].
  assert (L : forall x, x <> CHAR_LF -> is_lf x = false) by (intros x; by apply Z.eqb_neq). rewrite (L d D). destruct (is_cr d) eqn:C; [|by apply G].
  apply Z.eqb_eq in C as ->. destruct b as [|e b]; [by vm_compute in P|]. apply Forall_cons in F as [E F]. cbn [app unfold_line]. rewrite (L e E). by apply G.
Qed.

(** Lines one after the other, and the empty line that ends a header. *)
Lemma reads_lines ls : Forall (fun l => one_line l /\ is_field l) ls -> reads START [] (concat ls ++ [CHAR_CR; CHAR_LF]) ls (Done []).
Proof.
  induction 1 as [|l ls [O F] Fs IH]; [by eapply reads_end|]. cbn [concat]. rewrite <- app_assoc.
  assert (X : exists c r, concat ls ++ [CHAR_CR; CHAR_LF] = c :: r /\ is_ws c = false).
  { destruct Fs as [|l' ls' [_ F'] _]; [by eexists _, _|]. destruct (field_first l' F') as (c & r & -> & W). eexists _, _. split; [done|done]. }
  destruct X as (c & r & E & W). rewrite E in IH |- *. pose proof F as (n & v & k & P). eapply reads_field; [by apply unfold_one_line|done|done].
Qed.

(** The lines that are read have one LF, at the end. *)
Lemma drop_last_app c l x : drop_last_char c (l ++ [x]) = if x =? c then Some l else None.
Proof. unfold drop_last_char. rewrite last_snoc, length_app. simpl. case_match; [|done]. by rewrite Nat.add_sub, take_app_length. Qed.

Lemma strip_one_line l : one_line l -> Forall (fun c => c <> CHAR_LF) (strip_line_end l).
Proof.
  intros (b & -> & F). unfold strip_line_end. rewrite drop_last_app, Z.eqb_refl. unfold drop_last_char. destruct (last b); [|done].
  case_match; [|done]. by apply Forall_take.
Qed.

Lemma unfold_one_line_inv st line s l r : (match st with FOR_CONT => one_line line | DONE => False | _ => Forall (fun c => c <> CHAR_LF) line end) ->
  unfold_field st line s = inl (l, r) -> one_line l.
Proof.
  revert st line. induction s as [|c s IH]; intros st line I; [done|].
  assert (A : Forall (fun c => c <> CHAR_LF) line -> is_lf c = false -> Forall (fun c => c <> CHAR_LF) (line ++ [c])).
  { intros F L. apply Forall_app. split; [done|]. constructor; [by apply Z.eqb_neq|done]. }
  assert (B : Forall (fun c => c <> CHAR_LF) line -> is_lf c = true -> one_line (line ++ [c])) by (intros F L; apply Z.eqb_eq in L as ->; by exists line).
  assert (R : is_cr c = true -> is_lf c = false) by (intros X; apply Z.eqb_eq in X as ->; done).
  pose proof (strip_one_line line) as St. cbn [unfold_line]. destruct st; try done;
    repeat (match goal with |- context [if ?b then _ else _] => destruct b eqn:? end); try (intros E; eapply IH, E; cbv beta iota; by auto); try (intros [= <- <-]; by auto).
Qed.

Lemma reads_one_line s ls o : reads START [] s ls o -> Forall (fun l => one_line l /\ is_field l) ls.
Proof.
  assert (I : START = START /\ @nil Z = []) by done. revert I. generalize START at 1 3. generalize (@nil Z) at 1 3. intros line st I R. revert I.
  induction R as [st line s st' line' E|st line s l r E P|st line s l r ls o E P R IH|st line s l r n v k ls o E P R IH]; intros [-> ->]; [done|done|by apply IH|].
  constructor; [|by apply IH]. split; [|by eexists _, _, _]. by eapply (unfold_one_line_inv START []).
Qed.

(** ** Fields that are read back *)

Lemma drop_while_id p s : p (cur s) = false -> drop_while p s = s.
Proof. destruct s as [|c s]; [done|]. simpl. by intros ->. Qed.

Lemma drop_while_cur p s : p 0 = false -> p (cur (drop_while p s)) = false.
Proof. intros Z. induction s as [|c s IH]; [done|]. cbn [drop_while]. by destruct (p c) eqn:E. Qed.

Lemma drop_while_all p x s : Forall (fun c => p c = true) x -> drop_while p (x ++ s) = drop_while p s.
Proof. induction 1 as [|c x E _ IH]; [done|]. simpl. by rewrite E. Qed.

Definition last_not (p : Z -> bool) (s : list Z) : Prop := forall c, last s = Some c -> p c = false.

Lemma strip_end_id p s : last_not p s -> strip_end p s = s.
Proof.
  destruct s as [|d s _] using rev_ind; [done|]. intros L. specialize (L d ltac:(by rewrite last_snoc)). unfold strip_end.
  rewrite rev_app_distr. simpl. rewrite L. simpl. by rewrite rev_involutive.
Qed.

Lemma strip_end_app p s x : Forall (fun c => p c = true) x -> strip_end p (s ++ x) = strip_end p s.
Proof. intros F. unfold strip_end. rewrite rev_app_distr, drop_while_all; [done|]. by apply Forall_rev. Qed.

Lemma strip_end_last p s : last_not p (strip_end p s).
Proof.
  induction s as [|d s IH] using rev_ind; [by intros c|]. destruct (p d) eqn:E; [rewrite strip_end_app; [done|by constructor]|].
  rewrite strip_end_id; intros c; rewrite last_snoc; by intros [= <-].
Qed.

Lemma strip_end_split p s : exists x, s = strip_end p s ++ x /\ Forall (fun c => p c = true) x.
Proof.
  induction s as [|d s [x [E F]]] using rev_ind; [by exists []|]. destruct (p d) eqn:D.
  - exists (x ++ [d]). rewrite strip_end_app by (by constructor). split; [by rewrite app_assoc, <- E|]. apply Forall_app. by split; [|constructor].
  - exists []. split; [|done]. rewrite strip_end_id; [by rewrite app_nil_r|]. intros c. rewrite last_snoc. by intros [= <-].
Qed.

Lemma strip_end_forall (P : Z -> Prop) p s : Forall P s -> Forall P (strip_end p s).
Proof. destruct (strip_end_split p s) as (x & E & _). intros F. rewrite E in F. by apply Forall_app in F as [F _]. Qed.

Lemma strip_end_cur p s : p (cur s) = false -> cur (strip_end p s) = cur s.
Proof.
  destruct (strip_end_split p s) as (x & E & F). destruct (strip_end p s) as [|c t]; [|by rewrite E]. simpl in E. subst x.
  destruct F as [|c s D _]; [done|]. simpl. congruence.
Qed.

Lemma find_char_before c l i : find_char c l 0 = Some i -> Forall (fun x => x <> c) (take i l).
Proof.
  assert (G : forall n, find_char c l n = Some i -> Forall (fun x => x <> c) (take (i - n) l)).
  { intros n. revert n. induction l as [|d l IH]; intros n; simpl; [done|]. destruct (Z.eqb_spec d c); [intros [= ->]; by rewrite Nat.sub_diag|].
    intros E. pose proof (find_char_at _ _ _ _ E). apply IH in E. replace (i - n)%nat with (S (i - S n)) by lia. by constructor. }
  intros E%G. by rewrite Nat.sub_0_r in E.
Qed.

(** A name and a value that are read back as they were written. *)
Record clean (x : list Z * list Z) : Prop := {
  clean_first : is_token (cur x.1) = true \/ cur x.1 = ch "@";
  clean_name : Forall (fun c => c <> ch ":" /\ c <> CHAR_LF) x.1;
  clean_name_end : last_not is_ws x.1;
  clean_value : Forall (fun c => c <> CHAR_LF) x.2;
  clean_value_first : is_ws (cur x.2) = false;
  clean_value_end : last_not is_wslfcr x.2
}.

Definition plain_line (x : list Z * list Z) : list Z := x.1 ++ chars ": " ++ x.2 ++ [CHAR_CR; CHAR_LF].

Lemma first_char c : is_token c = true \/ c = ch "@" -> c <> CHAR_CR /\ c <> CHAR_LF /\ c <> 0 /\ c <> ch ":" /\ is_ws c = false.
Proof.
  intros [T| ->]; [|by vm_compute]. assert (E : forall d, is_token d = false -> c <> d) by (intros d D ->; congruence).
  split_and!; try (apply E; by vm_compute). by apply token_not_ws.
Qed.

Lemma plain_line_parse x : clean x -> parse_line (plain_line x) = FieldLine (length x.1) (length x.1 + 2) (length x.2).
Proof.
  destruct x as [n v]. intros [F N NE V VF VE]. unfold plain_line. cbn [fst snd] in *. destruct (first_char _ F) as (C1 & C2 & C3 & C4 & C5).
  destruct n as [|c n]; [done|]. cbn [cur] in *. unfold parse_line.
  assert (N0 : forall r, nth 0 ((c :: n) ++ r) 0 = c) by done. rewrite !N0. rewrite (proj2 (Z.eqb_neq c CHAR_CR)), (proj2 (Z.eqb_neq c CHAR_LF)) by done.
  rewrite !andb_false_r. cbn [andb]. assert (T : negb (is_token (cur ((c :: n) ++ chars ": " ++ v ++ [CHAR_CR; CHAR_LF]))) && negb (cur ((c :: n) ++ chars ": " ++ v ++ [CHAR_CR; CHAR_LF]) =? ch "@") = false).
  { cbn [cur app]. destruct F as [-> | ->]; [done|]. by rewrite andb_false_r. }
  rewrite T. change (chars ": " ++ v ++ [CHAR_CR; CHAR_LF]) with (ch ":" :: CHAR_SP :: v ++ [CHAR_CR; CHAR_LF]). set (name := c :: n) in *.
  rewrite find_char_app by (eapply Forall_impl; [exact N|by intros ? [? ?]]). cbn [Nat.add]. rewrite take_app_length, strip_end_id by done.
  replace (S (length name)) with (length name + 1)%nat by lia. rewrite drop_app_add. cbn [drop]. cbn [drop_while]. change (is_ws CHAR_SP) with true. cbv iota.
  rewrite drop_while_id. 2: { destruct v; [by vm_compute|done]. }
  assert (L : (length (name ++ ch ":" :: CHAR_SP :: v ++ [CHAR_CR; CHAR_LF]) - length (v ++ [CHAR_CR; CHAR_LF]) = length name + 2)%nat) by (rewrite length_app; cbn [length]; lia).
  rewrite L, drop_app_add. cbn [drop]. rewrite drop_0, strip_end_app, strip_end_id by (done || (repeat constructor)). done.
Qed.

Lemma plain_line_ok x : clean x -> one_line (plain_line x) /\ is_field (plain_line x) /\ line_entry (plain_line x) = x.
Proof.
  intros C. pose proof (plain_line_parse x C) as P. split; [|split; [by eexists _, _, _|]].
  - exists (x.1 ++ chars ": " ++ x.2 ++ [CHAR_CR]). split; [unfold plain_line; by rewrite <- !app_assoc|]. destruct C. rewrite !Forall_app. split_and!; try done.
    + eapply Forall_impl; [done|by intros ? [? ?]].
    + by repeat constructor.
    + by repeat constructor.
  - unfold line_entry. rewrite P. destruct x as [n v]. unfold plain_line. cbn [fst snd]. rewrite take_app_length, drop_app_add. cbn [drop app].
    change (drop 2 (chars ": " ++ v ++ [CHAR_CR; CHAR_LF])) with (v ++ [CHAR_CR; CHAR_LF]). by rewrite take_app_length.
Qed.

(** What the parser makes of a line is clean. *)
Lemma line_entry_clean l : one_line l -> is_field l -> clean (line_entry l).
Proof.
  intros (b & -> & F) (n & v & k & P). unfold line_entry. rewrite P. set (l := b ++ [CHAR_LF]) in *.
  destruct (parse_line_parts l n v k P) as (colon & Fc & T & -> & D & -> & B & Bl). destruct (first_char _ T) as (C1 & C2 & C3 & C4 & C5).
  pose proof (find_char_at _ _ _ _ Fc) as Bc. pose proof (find_char_before _ _ _ Fc) as Nc.
  assert (Cp : (0 < colon)%nat). { destruct l as [|c l']; [done|]. cbn [find_char] in Fc. cbn [cur] in C4. destruct (Z.eqb_spec c (ch ":")) as [|_]; [done|]. apply find_char_at in Fc. lia. }
  assert (Lb : length l = S (length b)) by (unfold l; rewrite length_app; simpl; lia).
  assert (Cu : cur (take colon l) = cur l) by (destruct l, colon; simpl in *; done || lia).
  constructor; cbn [fst snd].
  - rewrite strip_end_cur; rewrite Cu; done.
  - apply strip_end_forall, Forall_forall. intros c Hc. rewrite Forall_forall in Nc. split; [by apply Nc|]. rewrite Forall_forall in F. apply F.
    unfold l in Hc. rewrite take_app_le in Hc by lia. by eapply elem_of_take in Hc as (? & ? & _); eapply list_elem_of_lookup_2.
  - apply strip_end_last.
  - unfold l. destruct (decide (v <= length b)%nat).
    + rewrite drop_app_le by lia. rewrite strip_end_app by (repeat constructor). by apply strip_end_forall, Forall_drop.
    + rewrite drop_ge by (rewrite length_app; simpl; lia). done.
  - assert (W : is_ws (cur (drop v l)) = false) by (rewrite D; by apply drop_while_cur). destruct (strip_end_split is_wslfcr (drop v l)) as (x & E & _).
    destruct (strip_end is_wslfcr (drop v l)) as [|c t]; [by vm_compute|]. by rewrite E in W.
  - apply strip_end_last.
Qed.

(** What a field needs for its line to be read back. *)
Definition wire_ok (f : MIMEField) : Prop :=
  raw_ok f /\ field_name f <> [] /\ (visible f = true -> one_line (wire f) /\ is_field (wire f) /\ line_entry (wire f) = content f).

Lemma clean_nonempty x : clean x -> x.1 <> [].
Proof. intros C E. destruct (first_char _ (clean_first _ C)) as (_ & _ & N & _). by rewrite E in N. Qed.

Lemma plain_wire_ok f : m_n_v_raw_printable f = false -> clean (content f) -> wire_ok f.
Proof.
  intros N C. split; [intros E; congruence|]. split; [by apply (clean_nonempty _ C)|]. intros _.
  assert (W : wire f = plain_line (content f)) by (unfold wire, field_pieces; rewrite N; done).
  rewrite W. by apply plain_line_ok.
Qed.

Lemma wire_ok_erase f g : erase f = erase g -> wire_ok f -> wire_ok g.
Proof.
  assert (E : forall f, wire_ok (erase f) = wire_ok f) by done. intros X. by rewrite <- (E f), <- (E g), X.
Qed.

Section roundtrip.
Context `{TokenDFA}.
Notation table := common_table.

Lemma line_field_ok l : one_line l -> is_field l -> Z.of_nat (length l) < 2 ^ 16 -> wire_ok (line_field l) /\ content (line_field l) = line_entry l.
Proof.
  intros O F Ln. pose proof (line_entry_clean l O F) as C. pose proof F as (n & v & k & P). destruct (parse_line_bounds l n v k P) as (B1 & B2 & B3).
  destruct (set_name_value_ok l n k (find_token (take n l)) v B2 B3 Ln) as (G1 & G2 & _ & _ & G5 & G6 & _ & G8 & _).
  set (f := set_name_value table (find_token (take n l)) l (Z.of_nat n) (drop v l) (Z.of_nat k) true (Z.of_nat (length l)) mime_field_init) in *.
  assert (LF : line_field l = set_readiness LIVE f) by (unfold line_field; by rewrite P).
  assert (CE : content (line_field l) = line_entry l). { rewrite LF. change (content (set_readiness LIVE f)) with (content f). unfold content, line_entry. by rewrite P, G1, G2. }
  split; [|done]. rewrite <- CE in C. destruct (m_n_v_raw_printable (line_field l)) eqn:Raw; [|by apply plain_wire_ok].
  assert (Pad : m_n_v_raw_printable_pad (line_field l) = Z.of_nat (length l) - (Z.of_nat n + Z.of_nat k)).
  { rewrite LF in Raw |- *. change (m_n_v_raw_printable f = true) in Raw. change (m_n_v_raw_printable_pad (set_readiness LIVE f)) with (m_n_v_raw_printable_pad f).
    unfold f, set_name_value in Raw |- *. destruct (true && _); [|done]. simpl. apply wrapu_id; lia. }
  assert (X : m_len_name (line_field l) = Z.of_nat n /\ m_ptr_name (line_field l) = l /\ m_len_value (line_field l) = Z.of_nat k) by by rewrite LF.
  destruct X as (X1 & X2 & X3). split; [intros _; rewrite Pad, X1, X2, X3; lia|]. split; [by apply (clean_nonempty _ C)|]. intros _.
  assert (W : wire (line_field l) = l). { unfold wire, field_pieces. rewrite Raw, Pad, X1, X2, X3. simpl. rewrite app_nil_r. unfold str_of. apply take_ge. lia. }
  by rewrite W, CE.
Qed.

(** The entries that are printed. *)
Definition shown (l : list (list Z * list Z)) : list (list Z * list Z) := filter (fun x => cur x.1 <> ch "@") l.

Lemma visible_shown f : field_name f <> [] -> visible f = bool_decide (cur (content f).1 <> ch "@").
Proof.
  unfold visible, content, field_name, str_of. simpl. destruct (m_ptr_name f) as [|c r]; [by rewrite take_nil|]. destruct (Z.to_nat (m_len_name f)); [done|].
  intros _. simpl. destruct (Z.eqb_spec c (ch "@")); case_bool_decide; done.
Qed.

Lemma shown_lines fs : Forall (fun f => is_live f = true -> wire_ok f) fs ->
  line_entry <$> (wire <$> filter (fun f => is_live f && visible f = true) fs) = shown (listed fs) /\
  Forall (fun l => one_line l /\ is_field l) (wire <$> filter (fun f => is_live f && visible f = true) fs).
Proof.
  induction 1 as [|f fs W _ [IH1 IH2]]; [done|]. rewrite listed_cons, filter_cons. destruct (is_live f); [|by rewrite decide_False by done].
  destruct (W eq_refl) as (_ & N & V). pose proof (visible_shown f N) as Vs. unfold shown. rewrite filter_cons. destruct (visible f).
  - symmetry in Vs. apply bool_decide_eq_true in Vs. destruct (V eq_refl) as (V1 & V2 & V3). rewrite (decide_True (P := cur (content f).1 <> ch "@")) by done.
    rewrite decide_True by done. rewrite !fmap_cons, V3, IH1. split; [done|]. by constructor.
  - symmetry in Vs. apply bool_decide_eq_false in Vs. rewrite (decide_False (P := cur (content f).1 <> ch "@")) by done. by rewrite decide_False by done.
Qed.

(** What is printed is read back: the visible entries, in their order. *)
Lemma text_parses_from p fs : scanner_ok (m_scanner p) -> m_line (m_scanner p) = [] -> m_state (m_scanner p) = START ->
  Forall (fun f => is_live f = true -> wire_ok f) fs -> text_ok [] (hdr_text fs) ->
  exists parser mh, mime_parser_parse table p false (hdr_text fs) mime_hdr_init = Some (PARSE_DONE, [], parser, mh) /\
    hdr_rep mh /\ contents mh = shown (listed fs).
Proof.
  intros HS HL HT W T. destruct (shown_lines fs W) as [E F].
  destruct (parse_ok p false (hdr_text fs) mime_hdr_init init_rep) as (ls & o & P & Rd & (P1 & P2 & (R & C & _) & _) & ->); rewrite ?HL, ?HT; try done.
  rewrite HL, HT in Rd. destruct (reads_det _ _ _ _ _ _ _ Rd (reads_lines _ F)) as [-> ->]. cbn [closing fst snd] in P1, P2, C. rewrite P1, P2. eexists _, _. split; [done|]. split; [done|].
  rewrite C, app_nil_r. exact E.
Qed.

Lemma text_parses fs : Forall (fun f => is_live f = true -> wire_ok f) fs -> text_ok [] (hdr_text fs) ->
  exists parser mh, mime_parser_parse table mime_parser_init false (hdr_text fs) mime_hdr_init = Some (PARSE_DONE, [], parser, mh) /\
    hdr_rep mh /\ contents mh = shown (listed fs).
Proof. apply text_parses_from; [split; [done|by left]|done..]. Qed.

(** Printing is the same however the buffer is cut.  Whatever has been printed
    before ([i] bytes used of the buffer, [k] still to be skipped), the header prints
    as one string would: the lines of its live fields, but for names that begin
    with an @, and the empty line. *)
Theorem mime_print_effect mh len i k o : hdr_rep mh -> Forall (fun f => is_live f = true -> raw_ok f) (slots mh) -> (i <= len)%nat ->
  mime_hdr_print mh (Z.of_nat len) (mkPrint (Z.of_nat i) (Z.of_nat k) o) = print_spec len (hdr_text (slots mh)) i k o.
Proof. intros [[_ F _ _] _] R Hi. by apply print_fields_spec. Qed.

Lemma print_parse_ok mh len : hdr_rep mh -> Forall (fun f => is_live f = true -> wire_ok f) (slots mh) -> text_ok [] (hdr_text (slots mh)) ->
  (length (hdr_text (slots mh)) <= len)%nat ->
  exists n parser mh', mime_hdr_print mh (Z.of_nat len) (mkPrint 0 0 []) = (true, mkPrint n 0 (hdr_text (slots mh))) /\
    mime_parser_parse table mime_parser_init false (hdr_text (slots mh)) mime_hdr_init = Some (PARSE_DONE, [], parser, mh') /\
    hdr_rep mh' /\ contents mh' = shown (contents mh).
Proof.
  intros R W T L. destruct (text_parses (slots mh) W T) as (parser & mh' & Pp & R' & C'). exists (Z.of_nat (length (hdr_text (slots mh)))), parser, mh'.
  split; [|done]. change (mkPrint 0 0 []) with (mkPrint (Z.of_nat 0) (Z.of_nat 0) []).
  unfold mime_hdr_print. fold (slots mh). rewrite print_fields_spec; [|apply R| |lia]. 2: { eapply Forall_impl; [exact W|]. intros f Wf Lf. by apply Wf. }
  unfold print_spec. rewrite drop_0, Nat.sub_0_r, take_ge, bool_decide_true by lia. done.
Qed.

(** The round trip of MIME headers.  A header whose names and values are on one
    line, without white space around them, prints into a buffer that is big enough,
    and parsing what was printed gives its entries back in their order, but for the
    names that begin with an @. *)
Theorem mime_roundtrip mh len : hdr_rep mh -> Forall (fun f => is_live f = true -> wire_ok f) (slots mh) -> text_ok [] (hdr_text (slots mh)) ->
  (length (hdr_text (slots mh)) <= len)%nat ->
  exists n parser mh', mime_hdr_print mh (Z.of_nat len) (mkPrint 0 0 []) = (true, mkPrint n 0 (hdr_text (slots mh))) /\
    mime_parser_parse table mime_parser_init false (hdr_text (slots mh)) mime_hdr_init = Some (PARSE_DONE, [], parser, mh') /\
    hdr_rep mh' /\ contents mh' = shown (contents mh).
Proof. apply print_parse_ok. Qed.

(** ** A header that was parsed *)

Lemma reads_done_takes (P : Z -> Prop) st line s ls r : reads st line s ls (Done r) -> Forall P line -> Forall P s ->
  Forall (Forall P) ls /\ (length (concat ls) + length r < length line + length s)%nat.
Proof.
  intros R. remember (Done r) as m eqn:Em. assert (T := fun st line s F1 F2 => unfold_takes P st line s F1 F2).
  induction R as [st line s st2 line2 E|st line s l r0 E PL|st line s l r0 ls o E PL R IH|st line s l r0 n v k ls o E PL R IH]; try done; intros F1 F2;
    specialize (T st line s F1 F2); rewrite E in T; destruct T as (T1 & T2 & T3 & _).
  - injection Em as ->. split; [done|]. destruct l; [by vm_compute in PL|]. simpl in *. lia.
  - destruct (IH Em) as [I1 I2]; [done..|]. simpl in I2. split; [done|lia].
  - destruct (IH Em) as [I1 I2]; [done..|]. simpl in I2 |- *. rewrite length_app. split; [by constructor|lia].
Qed.

(** The line of a parsed field is not longer than the line it came in. *)
Lemma line_field_wire l : is_field l -> Z.of_nat (length l) < 2 ^ 16 -> Forall (fun c => c <> 0) l ->
  (length (wire (line_field l)) <= length l)%nat /\ Forall (fun c => c <> 0) (wire (line_field l)).
Proof.
  intros (n & v & k & P) Ln N. destruct (parse_line_bounds l n v k P) as (B1 & B2 & B3). unfold line_field. rewrite P.
  destruct (set_name_value_ok l n k (find_token (take n l)) v B2 B3 Ln) as (G1 & G2 & _ & _ & G5 & G6 & _ & G8 & _).
  set (f := set_name_value table (find_token (take n l)) l (Z.of_nat n) (drop v l) (Z.of_nat k) true (Z.of_nat (length l)) mime_field_init) in *.
  change (wire (set_readiness LIVE f)) with (wire f). unfold wire, field_pieces. destruct (m_n_v_raw_printable f) eqn:Raw.
  - simpl. rewrite app_nil_r, G6. unfold str_of. rewrite length_take. split; [lia|by apply Forall_take].
  - simpl. rewrite G1, G2, !length_app. simpl. rewrite length_app, !length_take, length_drop. simpl. split.
    + unfold f, set_name_value in Raw. destruct (Z.leb_spec (u32 (Z.of_nat (length l) - (Z.of_nat n + Z.of_nat k))) 7) as [|G]; [done|]. rewrite wrapu_id in G by lia. lia.
    + rewrite !Forall_app. split_and!; [by apply Forall_take|]. repeat (constructor; [done|]). rewrite Forall_app. split; [by apply Forall_take, Forall_drop|by repeat constructor].
Qed.

Lemma hdr_text_erase fs gs : erase <$> fs = erase <$> gs -> hdr_text fs = hdr_text gs.
Proof.
  assert (E : forall fs, hdr_text fs = hdr_text (erase <$> fs)); [|intros X; by rewrite (E fs), (E gs), X].
  clear fs gs. intros fs. unfold hdr_text. f_equal. induction fs as [|f fs IH]; [done|]. rewrite fmap_cons, !filter_cons.
  change (is_live (erase f) && visible (erase f)) with (is_live f && visible f). case_decide; [|done]. rewrite !fmap_cons. simpl. by rewrite IH.
Qed.

Lemma wire_ok_erased fs gs : erase <$> fs = erase <$> gs -> Forall (fun f => is_live f = true -> wire_ok f) gs -> Forall (fun f => is_live f = true -> wire_ok f) fs.
Proof.
  revert gs. induction fs as [|f fs IH]; intros [|g gs] E W; try done.
  rewrite !fmap_cons in E. apply Forall_cons in W as [Wg W]. assert (E1 : erase f = erase g) by (by apply (f_equal (fun l => default (erase f) (head l))) in E).
  assert (E2 : erase <$> fs = erase <$> gs) by (by apply (f_equal tail) in E). constructor; [|by apply (IH gs)]. intros L. apply (wire_ok_erase g); [done|].
  apply Wg. apply (f_equal is_live) in E1. change (is_live f = is_live g) in E1. congruence.
Qed.

Lemma lines_text ls : Forall (fun l => one_line l /\ is_field l) ls -> Forall (Forall (fun c => c <> 0)) ls -> Z.of_nat (length (concat ls)) < 2 ^ 16 ->
  Forall (fun f => is_live f = true -> wire_ok f) (line_field <$> ls) /\ Forall (fun c => c <> 0) (hdr_text (line_field <$> ls)) /\
  (length (hdr_text (line_field <$> ls)) <= length (concat ls) + 2)%nat.
Proof.
  intros F N. revert N. unfold hdr_text. induction F as [|l ls [O L] _ IH]; intros N Ln; [split; [done|]; split; [by repeat constructor|done]|].
  apply Forall_cons in N as [Nl N]. simpl in Ln. rewrite length_app in Ln. destruct IH as (I1 & I2 & I3); [done|lia|].
  destruct (line_field_ok l O L ltac:(lia)) as [W _]. destruct (line_field_wire l L ltac:(lia) Nl) as [W1 W2]. rewrite fmap_cons, filter_cons. cbn [concat].
  split; [by constructor|]. rewrite (length_app l). case_decide.
  - rewrite fmap_cons. cbn [concat]. rewrite <- app_assoc, Forall_app, length_app. split; [done|lia].
  - split; [done|lia].
Qed.

(** The header that a text parses to can be printed and read back. *)
Lemma parsed_wire_ok raw rest parser mh : text_ok [] raw -> Z.of_nat (length raw) + 1 < 2 ^ 16 ->
  mime_parser_parse table mime_parser_init false raw mime_hdr_init = Some (PARSE_DONE, rest, parser, mh) ->
  hdr_rep mh /\ Forall (fun f => is_live f = true -> wire_ok f) (slots mh) /\ text_ok [] (hdr_text (slots mh)) /\ (length (hdr_text (slots mh)) <= length raw + 1)%nat.
Proof.
  intros T Ln E. pose proof T as (Ln' & _ & N).
  destruct (parse_ok mime_parser_init false raw mime_hdr_init init_rep) as (ls & o & P & Rd & (P1 & P2 & (R & C & S) & _) & E'); [split; [done|by left]|done..|].
  rewrite E in E'. injection E' as E1 _ _ ->. rewrite <- E1 in P1. destruct o as [r|]; [|done]. cbn [closing fst snd] in C, S. rewrite app_nil_r in C, S.
  destruct (reads_done_takes (fun c => c <> 0) _ _ _ _ _ Rd (Forall_nil_2 _) N) as [Nl Sl]. simpl in Sl.
  destruct (lines_text ls (reads_one_line _ _ _ Rd) Nl) as (W & Nt & Lt); [simpl in *; lia|].
  assert (S' : erase <$> slots (parse_hdr P) = erase <$> (line_field <$> ls)) by (rewrite S; simpl; by rewrite list_fmap_compose).
  rewrite <- (hdr_text_erase _ _ S') in Nt, Lt. split; [done|]. split; [by eapply wire_ok_erased|]. split; [split; [simpl in *; lia|by split]|lia].
Qed.

(** C12: What the parser has read, it reads again.  The header that a text parses to
    prints as a text that is not longer (but for the CR of the empty line), whatever
    the lines were like, and that text parses to the same entries, but for the
    names that begin with an @. *)
Theorem mime_parse_print raw len rest parser mh : text_ok [] raw -> Z.of_nat (length raw) + 1 < 2 ^ 16 -> (length raw + 1 <= len)%nat ->
  mime_parser_parse table mime_parser_init false raw mime_hdr_init = Some (PARSE_DONE, rest, parser, mh) ->
  exists text n parser' mh', mime_hdr_print mh (Z.of_nat len) (mkPrint 0 0 []) = (true, mkPrint n 0 text) /\ (length text <= length raw + 1)%nat /\
    mime_parser_parse table mime_parser_init false text mime_hdr_init = Some (PARSE_DONE, [], parser', mh') /\
    contents mh' = shown (contents mh).
Proof.
  intros T Ln Hlen E. destruct (parsed_wire_ok raw rest parser mh T Ln E) as (R & W & T' & L).
  destruct (print_parse_ok mh len R W T') as (n & parser' & mh' & A1 & A2 & A3 & A4); [lia|]. by exists (hdr_text (slots mh)), n, parser', mh'.
Qed.
End roundtrip.
