(* ===== verification/MimeHdrSpec.v ===== *)
(** What a MIME header promises: a list of entries.  Any sequence of operations on a
    header does to its fields what the same operations of the specification do to a
    plain list of names and values. *)

From S2P Require Import Prelude ParseRules MimeDate HdrToken MimePrint URL MimeScanner MimeHdr MimeHdrOps MimeHdrFacts MimeHdrRep MimeHdrAttach MimeCooked MimeHdrTheorems MimeParser MimeParserFacts.
From Stdlib Require Import Ascii.

#[local] Opaque find_token.

(** ** The specification *)

Notation Entries := (list (list Z * list Z)) (only parsing).

(** The interface of a header, to its users. *)
Inductive HdrOp :=
  | OpSet (n : Name) (v : list Z)
  | OpAppend (n : Name) (v : list Z) (prepend_comma : bool) (separator : Z)
  | OpDelete (n : Name)
  | OpParse (raw : list Z).

(** The lines of a text, read from its first byte. *)
Definition spec_step (op : HdrOp) (l l' : Entries) : Prop :=
  match op with
  | OpSet n v => l' = set_entry n v l
  | OpAppend n v pc sep => l' = append_entry n pc sep v l
  | OpDelete n => l' = others (name_key n) l
  | OpParse raw => exists ls o, reads START [] raw ls o /\ l' = l ++ (line_entry <$> ls)
  end.

(** What the operation asks of its arguments: names and values that fit their
    lengths. *)
Definition op_ok (op : HdrOp) (l : Entries) : Prop :=
  match op with
  | OpSet n v => good_name n /\ Z.of_nat (length v) < 2 ^ 24
  | OpAppend n v pc sep => good_name n /\ Z.of_nat (length v) < 2 ^ 24 /\
      Forall (fun x => Z.of_nat (length (joined pc sep v x.2)) < 2 ^ 24) (filter (fun x => named (name_key n) x = true) l)
  | OpDelete n => name_ok n
  | OpParse raw => text_ok [] raw
  end.

Section spec.
Context `{TokenDFA}.
Notation table := common_table.

Definition run_op (op : HdrOp) (mh : MIMEHdrImpl) : option MIMEHdrImpl :=
  match op with
  | OpSet n v => value_set table n v mh
  | OpAppend n v pc sep => value_append table n v pc sep mh
  | OpDelete n => field_delete table n mh
  | OpParse raw => snd <$> mime_parser_parse table mime_parser_init false raw mh
  end.

Fixpoint run_ops (ops : list HdrOp) (mh : MIMEHdrImpl) : option MIMEHdrImpl :=
  match ops with [] => Some mh | op :: ops' => mh' ← run_op op mh; run_ops ops' mh' end.

(** The lists a specification goes through, with arguments that are in order at
    every step. *)
Inductive spec_run : list HdrOp -> Entries -> Entries -> Prop :=
  | spec_nil l : spec_run [] l l
  | spec_cons op ops l l1 l2 : op_ok op l -> spec_step op l l1 -> spec_run ops l1 l2 -> spec_run (op :: ops) l l2.

Lemma run_op_ok op mh l1 : hdr_rep mh -> op_ok op (contents mh) -> spec_step op (contents mh) l1 ->
  exists mh', run_op op mh = Some mh' /\ hdr_rep mh' /\ contents mh' = l1.
Proof.
  intros R OK St. destruct op as [n v|n v pc sep|n|raw]; cbn [run_op spec_step op_ok] in *.
  - destruct OK as [G L]. destruct (value_set_ok mh n v R G L) as (mh' & E & R' & C & _). exists mh'. by subst.
  - destruct OK as (G & L & F). destruct (value_append_ok mh n v pc sep R G L F) as (mh' & E & R' & C). exists mh'. by subst.
  - destruct (field_delete_ok mh n R OK) as (mh' & E & R' & C & _). exists mh'. by subst.
  - destruct St as (ls & o & Rd & ->). destruct (parse_ok mime_parser_init false raw mh R) as (ls' & o' & P & Rd' & (P1 & P2 & (R' & C & _) & _) & ->); [split; [done|by left]|done..|].
    destruct (reads_det _ _ _ _ _ _ _ Rd Rd') as [<- <-]. exists (parse_hdr P). split; [done|]. split; [done|]. rewrite C. destruct o; by rewrite app_nil_r.
Qed.

(** Every operation of the specification has a result. *)
Lemma spec_total op l : op_ok op l -> exists l', spec_step op l l'.
Proof.
  destruct op as [n v|n v pc sep|n|raw]; cbn [spec_step op_ok]; try (by eexists). intros T.
  destruct (parse_ok mime_parser_init false raw mime_hdr_init init_rep) as (ls & o & P & Rd & _); [split; [done|by left]|done..|]. by exists (l ++ (line_entry <$> ls)), ls, o.
Qed.

(** C10: A header is the list of its entries.  Any sequence of settings, appends,
    deletions and parses runs to its end without a crash, leaves the entries that the
    same sequence leaves on a plain list, and a header whose links, presence bits,
    slot accelerators and cooked values are those of its fields: looking a name up
    gives the first entry of the name, and computing the cooked values again changes
    nothing. *)
Theorem header_refines ops mh l : hdr_rep mh -> spec_run ops (contents mh) l ->
  exists mh', run_ops ops mh = Some mh' /\ contents mh' = l /\ hdr_rep mh' /\
    (forall n, name_ok n -> value_get n mh' = snd <$> head (filter (fun x => named (name_key n) x = true) l)) /\
    recompute_cooked_stuff table None mh' = Some mh'.
Proof.
  intros R S. remember (contents mh) as l0 eqn:E0. revert mh R E0. induction S as [l|op ops l l1 l2 OK St S IH]; intros mh R ->.
  - exists mh. split_and!; [done|done|done|intros n N; by apply value_get_ok|].
    rewrite recompute_ok by apply R. cbn [cooks_cache_control cooks_pragma]. change (mkCooked (cooked_cc (slots mh)) (cooked_no_cache (slots mh))) with (cooked_of (slots mh)).
    rewrite <- (rep_cooked mh R). by destruct mh.
  - destruct (run_op_ok op mh l1 R OK St) as (mh1 & E & R1 & C1). destruct (IH mh1 R1) as (mh' & E' & X); [done|]. exists mh'. cbn [run_ops]. rewrite E. by split.
Qed.

(** The cooked Cache-Control.  Setting Cache-Control to directives separated by
    commas leaves the masks and the numbers of those directives, whatever was there
    before. *)
Theorem cache_control_cooked mh ds : hdr_rep mh -> ds <> [] -> forallb item_ok ds = true -> Z.of_nat (length (csv_text ds)) < 2 ^ 24 ->
  exists mh', value_set table (Wks (MIME_WKSIDX_CACHE_CONTROL table)) (csv_text ds) mh = Some mh' /\
    m_cache_control (m_cooked_stuff mh') = cook_values (csv_items ds).
Proof.
  intros R N I L. rewrite cache_control_index. assert (G : good_name (Wks 10)) by (split; [simpl; unfold n_wks; lia|done]).
  destruct (value_set_ok mh (Wks 10) (csv_text ds) R G L) as (mh' & E & R' & C & _). exists mh'. split; [done|].
  assert (X : exists x, entries CC_KEY mh' = [(x, csv_text ds)]).
  { unfold entries. rewrite C. unfold set_entry. change (name_key (Wks 10)) with CC_KEY.
    assert (O : filter (fun x => named CC_KEY x = true) (others CC_KEY (contents mh) ++ [(name_str (Wks 10), csv_text ds)]) = [(name_str (Wks 10), csv_text ds)]).
    { rewrite filter_app, filter_others. simpl. rewrite filter_cons_True; [done|]. unfold named. by rewrite bool_decide_true. }
    destruct (filter (fun x => named CC_KEY x = true) (contents mh)) as [|x [|y r]] eqn:F; [by eexists|exists x.1; by rewrite overwrite_named, F|by eexists]. }
  destruct X as [x Ex]. rewrite (rep_cooked mh' R'). cbn [cooked_of m_cache_control]. unfold cooked_cc. f_equal.
  pose proof (class_entries_length mh' CC_KEY) as Ln. rewrite Ex in Ln. destruct (class (slots mh') CC_KEY) as [|k [|]] eqn:Ck; try done.
  pose proof (class_entries mh' CC_KEY) as CE. rewrite Ck, Ex in CE. simpl in CE. destruct (slots mh' !! k) as [f|] eqn:Hf; [|done]. simpl in CE. injection CE as _ CV.
  by apply (class_csv_single _ k f).
Qed.
End spec.
