(* ===== verification/MimeConcrete.v ===== *)
(** MIME headers on concrete texts: the theorems applied, and what the code does that
    it does not mean to. *)

From S2P Require Import Prelude ParseRules MimeDate HdrToken MimePrint URL HdrFieldInfo MimeScanner MimeHdr MimeHdrOps MimeHdrFacts MimeHdrRep MimeHdrAttach MimeCooked MimeHdrTheorems MimeParser MimeParserFacts MimeRoundtrip MimeHdrSpec.
From Stdlib Require Import Ascii.

Definition crlf : list Z := [CHAR_CR; CHAR_LF].
Definition line (s : String.string) : list Z := chars s ++ crlf.

(** The fields a text parses to, handed over in pieces. *)
Definition parsed_fields (pieces : list (list Z)) : option (MIMEParseResult * list (list Z * list Z)) :=
  (fun x : MIMEParseResult * list (list Z) * MIMEParser * MIMEHdrImpl => (x.1.1.1, contents x.2)) <$> parse_pieces common_table mime_parser_init pieces mime_hdr_init.

Definition printed_text (mh : MIMEHdrImpl) : list Z := printed (mime_hdr_print mh 4096 (mkPrint 0 0 [])).2.

Example parse_example : parsed_fields [line "Host: a" ++ chars "X:b"; crlf ++ line "Cookie:" ++ crlf] =
  Some (PARSE_DONE, [(chars "Host", chars "a"); (chars "X", chars "b"); (chars "Cookie", [])]).
Proof. by vm_compute. Qed.

(** ** What goes wrong *)

(** Cut between the end of a line and the white space of its continuation, a field
    keeps the end of the line inside its value ... *)
Lemma cut_keeps_line_end : parsed_fields [line "A: b" ++ line " Host: x" ++ crlf] = Some (PARSE_DONE, [(chars "A", chars "bHost: x")]) /\
  parsed_fields [line "A: b"; line " Host: x" ++ crlf] = Some (PARSE_DONE, [(chars "A", chars "b" ++ crlf ++ chars "Host: x")]).
Proof. by vm_compute. Qed.

(** ... and what is sent on is another header: a field the text did not have. *)
Lemma cut_injects_header : (x ← parse_pieces common_table mime_parser_init [line "A: b"; line " Host: x" ++ crlf] mime_hdr_init; parsed_fields [printed_text x.2]) =
  Some (PARSE_DONE, [(chars "A", chars "b"); (chars "Host", chars "x")]).
Proof. by vm_compute. Qed.

(** A continuation is joined to its line without the space that it stands for. *)
Lemma continuation_glued : parsed_fields [line "Cache-Control: no-store,a" ++ line "  b" ++ crlf] = Some (PARSE_DONE, [(chars "Cache-Control", chars "no-store,ab")]).
Proof. by vm_compute. Qed.

(** Lines of two CRs and an end of line are the end of the header when white space
    and an end of line follow. *)
Lemma cr_ends_header : parsed_fields [[CHAR_CR; CHAR_CR; CHAR_LF; CHAR_SP; CHAR_LF] ++ line "A: b" ++ crlf] = Some (PARSE_DONE, []).
Proof. by vm_compute. Qed.

(** The length of a name is kept in 16 bits. *)
Lemma long_name_cut w n rest v k len : Z.of_nat (length n) < 2 ^ 16 ->
  field_name (set_name_value common_table w (n ++ rest) (65536 + Z.of_nat (length n)) v k true len mime_field_init) = n.
Proof.
  intros L. assert (E : wrapu 16 (65536 + Z.of_nat (length n)) = Z.of_nat (length n)).
  { unfold wrapu. change 65536 with (1 * 2 ^ 16). rewrite Z.add_comm, Z.mod_add by lia. apply Z.mod_small. lia. }
  unfold set_name_value, field_name, str_of. destruct (true && _); simpl; rewrite E, Nat2Z.id; by rewrite take_app_length.
Qed.

(** Fields of one name are linked in the order of their slots; but one that is taken
    out and put back comes last, since the number of the next slot is not looked at
    again on the way. *)
Definition detach_reattach (mh : MIMEHdrImpl) (k : nat) : option MIMEHdrImpl :=
  mh1 ← mime_hdr_field_detach common_table k false mh; mime_hdr_field_attach common_table k true None mh1.

Definition four : list Z := line "X: 0" ++ line "X: 1" ++ line "X: 2" ++ line "X: 3" ++ crlf.

Lemma reattach_misorders : exists mh, snd <$> parse_pieces common_table mime_parser_init [four] mime_hdr_init = Some mh /\
  csv_values (ch ",") mh 0 true = Some (chars <$> ["0"; "1"; "2"; "3"]%string) /\
  (mh' ← detach_reattach mh 2; csv_values (ch ",") mh' 0 true) = Some (chars <$> ["0"; "1"; "3"; "2"]%string) /\
  (contents <$> detach_reattach mh 2) = Some (contents mh).
Proof. eexists. split; [by vm_compute|]. split_and!; by vm_compute. Qed.

(** An empty value in a list hides those behind it when another field of the name
    follows. *)
Lemma empty_value_hides : exists one two,
  snd <$> parse_pieces common_table mime_parser_init [line "Cache-Control: max-age=5,,no-store" ++ crlf] mime_hdr_init = Some one /\
  snd <$> parse_pieces common_table mime_parser_init [line "Cache-Control: max-age=5,,no-store" ++ line "Cache-Control: public" ++ crlf] mime_hdr_init = Some two /\
  csv_values (ch ",") one 0 true = Some [chars "max-age=5"; []; chars "no-store"] /\ csv_values (ch ",") two 0 true = Some [chars "max-age=5"; chars "public"].
Proof. eexists _, _. split; [by vm_compute|]. split; [by vm_compute|]. split; by vm_compute. Qed.

(** The length of a header counts the names that are not printed. *)
Lemma length_counts_hidden : exists mh, snd <$> parse_pieces common_table mime_parser_init [line "@x: y" ++ line "A: b" ++ crlf] mime_hdr_init = Some mh /\
  mime_hdr_length_get mh = 15 /\ length (printed_text mh) = 8%nat.
Proof. eexists. split; [by vm_compute|]. split; by vm_compute. Qed.

(** ** The theorems applied *)

Lemma text_ok_dec raw : (Z.of_nat (length raw) <? 2 ^ 16) && forallb (fun c => negb (c =? 0)) raw = true -> text_ok [] raw.
Proof.
  intros E. apply andb_true_iff in E as [E1 E2]. split; [simpl; lia|]. split; [done|]. apply Forall_forall. intros c Hc ->.
  rewrite forallb_forall in E2. apply list_elem_of_In, E2 in Hc. done.
Qed.

(** A header with two fields of a name, one of another, and one that is not printed. *)
Definition sample_text : list Z := line "Via: a" ++ line "Host: x" ++ line "Via: b" ++ line "@i: 1" ++ crlf.

Definition sample_fields : list (list Z * list Z) := [(chars "Via", chars "a"); (chars "Host", chars "x"); (chars "Via", chars "b"); (chars "@i", chars "1")].

Definition sample : MIMEHdrImpl := default mime_hdr_init (snd <$> mime_parser_parse common_table mime_parser_init false sample_text mime_hdr_init).

Lemma sample_contents : contents sample = sample_fields.
Proof. by vm_compute. Qed.

Lemma parse_rep raw mh : hdr_rep mh -> text_ok [] raw -> hdr_rep (default mh (snd <$> mime_parser_parse common_table mime_parser_init false raw mh)).
Proof.
  intros R T. destruct (parse_ok mime_parser_init false raw mh R) as (ls & o & P & _ & (_ & _ & (R' & _) & _) & ->); [split; [done|by left]|done..|]. done.
Qed.

Lemma sample_rep : hdr_rep sample.
Proof. apply parse_rep; [apply init_rep|]. apply text_ok_dec. by vm_compute. Qed.

Definition Via : Name := Str (chars "via").

Lemma via_good : good_name Via.
Proof. split; [|done]. simpl. by repeat constructor. Qed.

Lemma value_set_effect_witness : exists mh', value_set common_table Via (chars "c") sample = Some mh' /\ hdr_rep mh' /\
  contents mh' = [(chars "Host", chars "x"); (chars "@i", chars "1"); (chars "via", chars "c")] /\ value_get Via mh' = Some (chars "c").
Proof.
  destruct (value_set_effect sample Via (chars "c") sample_rep via_good eq_refl) as (mh' & E & R & C & V). exists mh'.
  rewrite sample_contents in C. split_and!; [exact E|exact R| |exact V]. rewrite C. by vm_compute.
Defined.

Lemma field_delete_effect_witness : exists mh', field_delete common_table Via sample = Some mh' /\ hdr_rep mh' /\
  contents mh' = [(chars "Host", chars "x"); (chars "@i", chars "1")] /\ value_get Via mh' = None.
Proof.
  destruct (field_delete_effect sample Via sample_rep (proj1 via_good)) as (mh' & E & R & C & V). exists mh'.
  rewrite sample_contents in C. split_and!; [exact E|exact R| |exact V]. rewrite C. by vm_compute.
Defined.

Lemma value_append_effect_witness : exists mh', value_append common_table Via (chars "c") true (ch ",") sample = Some mh' /\ hdr_rep mh' /\
  contents mh' = [(chars "Via", chars "a"); (chars "Host", chars "x"); (chars "Via", chars "b, c"); (chars "@i", chars "1")].
Proof.
  destruct (value_append_effect sample Via (chars "c") true (ch ",") sample_rep via_good eq_refl) as (mh' & E & R & C).
  { unfold entries. rewrite sample_contents. by repeat constructor. }
  exists mh'. rewrite sample_contents in C. split_and!; [exact E|exact R|]. rewrite C. by vm_compute.
Defined.

Lemma parse_cut_independent_witness : exists r rest parser mh1 rests parser' mh2,
  mime_parser_parse common_table mime_parser_init false (sample_text ++ chars "body") sample = Some (r, rest, parser, mh1) /\
  parse_pieces common_table mime_parser_init [take 7 sample_text; drop 7 sample_text ++ chars "bo"; chars "dy"] sample = Some (r, rests, parser', mh2) /\
  concat rests = rest /\ contents mh2 = contents mh1 /\ hdr_rep mh1 /\ hdr_rep mh2 /\
  m_line (m_scanner parser') = m_line (m_scanner parser) /\ m_state (m_scanner parser') = m_state (m_scanner parser).
Proof. apply parse_cut_independent; [apply sample_rep|apply text_ok_dec; by vm_compute|by vm_compute|by vm_compute]. Defined.

Lemma sample_printable : forallb (fun f => negb (m_n_v_raw_printable f) ||
  ((0 <=? m_n_v_raw_printable_pad f) && (m_len_name f + m_len_value f + m_n_v_raw_printable_pad f <=? Z.of_nat (length (m_ptr_name f))))) (slots sample) = true.
Proof. by vm_compute. Qed.

Lemma sample_raw : Forall (fun f => is_live f = true -> raw_ok f) (slots sample).
Proof.
  apply Forall_forall. intros f Hf _ Raw. pose proof sample_printable as F. rewrite forallb_forall in F.
  apply list_elem_of_In, F in Hf. rewrite Raw in Hf. simpl in Hf. apply andb_true_iff in Hf as [H1 H2]. lia.
Qed.

(** A buffer of ten bytes, three characters already printed. *)
Lemma mime_print_effect_witness : mime_hdr_print sample 10 (mkPrint 0 3 []) = (false, mkPrint 10 0 (chars ": a" ++ crlf ++ chars "Host:")).
Proof. etransitivity; [apply (mime_print_effect sample 10 0 3 [] sample_rep sample_raw); lia|by vm_compute]. Defined.

Lemma mime_parse_print_witness : exists text n parser' mh', mime_hdr_print sample 100 (mkPrint 0 0 []) = (true, mkPrint n 0 text) /\
  (length text <= length sample_text + 1)%nat /\
  mime_parser_parse common_table mime_parser_init false text mime_hdr_init = Some (PARSE_DONE, [], parser', mh') /\
  contents mh' = shown (contents sample).
Proof.
  destruct (mime_parser_parse common_table mime_parser_init false sample_text mime_hdr_init) as [[[[r rest] parser] mh]|] eqn:E; [|by vm_compute in E].
  assert (S : sample = mh) by (unfold sample; by rewrite E). assert (D : r = PARSE_DONE) by (vm_compute in E; by injection E as <- _ _ _). rewrite D in E. rewrite S.
  apply (mime_parse_print sample_text 100 rest parser mh); [apply text_ok_dec; by vm_compute|by vm_compute|apply leb_complete; by vm_compute|exact E].
Defined.


Definition sample_ops : list HdrOp := [OpSet Via (chars "c"); OpAppend (Wks 10) (chars "no-store") true (ch ","); OpDelete (Str (chars "HOST")); OpParse (line "A: 1")].

Lemma header_refines_witness : exists mh', run_ops sample_ops sample = Some mh' /\
  contents mh' = [(chars "@i", chars "1"); (chars "via", chars "c"); (hdrtoken_index_to_wks 10, chars "no-store")] /\ hdr_rep mh' /\
  (forall n, name_ok n -> value_get n mh' = snd <$> head (filter (fun x => named (name_key n) x = true) [(chars "@i", chars "1"); (chars "via", chars "c"); (hdrtoken_index_to_wks 10, chars "no-store")])) /\
  recompute_cooked_stuff common_table None mh' = Some mh'.
Proof.
  apply (header_refines sample_ops sample _ sample_rep). rewrite sample_contents.
  eapply (spec_cons _ _ _ (set_entry Via (chars "c") sample_fields)); [split; [apply via_good|done]|done|].
  eapply (spec_cons _ _ _ [(chars "Host", chars "x"); (chars "@i", chars "1"); (chars "via", chars "c"); (hdrtoken_index_to_wks 10, chars "no-store")]).
  { split; [split; [unfold name_ok, n_wks; lia|exact I]|]. split; [done|].
    assert (F : filter (fun x => named (name_key (Wks 10)) x = true) (set_entry Via (chars "c") sample_fields) = []) by (by vm_compute). rewrite F. constructor. }
  { by vm_compute. }
  eapply (spec_cons _ _ _ [(chars "@i", chars "1"); (chars "via", chars "c"); (hdrtoken_index_to_wks 10, chars "no-store")]); [by repeat constructor|by vm_compute|].
  eapply spec_cons; [apply text_ok_dec; by vm_compute| |apply spec_nil].
  exists [], (More MIME_SCANNER_STATE_SCANNING_FOR_CONTINUATION (line "A: 1")). split; [by apply reads_more|by vm_compute].
Defined.

Lemma cache_control_cooked_witness : exists mh', value_set common_table (Wks (MIME_WKSIDX_CACHE_CONTROL common_table)) (chars "max-age=60, no-store") sample = Some mh' /\
  m_cache_control (m_cooked_stuff mh') = mkCC (Z.lor MIME_COOKED_MASK_CC_MAX_AGE MIME_COOKED_MASK_CC_NO_STORE) 60 0 0 0.
Proof.
  destruct (cache_control_cooked sample [([], chars "max-age=60"); ([CHAR_SP], chars "no-store")] sample_rep) as (mh' & E & C); [done|by vm_compute|by vm_compute|].
  exists mh'. split; [exact E|]. rewrite C. by vm_compute.
Defined.
