(* ===== verification/HTTP.v ===== *)
(** HTTP headers ([proxy/hdrs/HTTP.cc], [HTTP.h]): the first line and the fields,
    parsed and printed.

    It composes the scanner of lines ([MimeScanner]), the parsers of URLs ([URL]) and
    of fields ([MimeParser]), and their printers.  As in those files, a string is the
    list of its bytes and [None] as a result a crash, or a read of memory that is
    neither the line nor the input. *)

From S2P Require Import Prelude ParseRules MimeDate HdrToken MimePrint URL MimeScanner MimeHdr MimeHdrOps MimeParser.
From Stdlib Require Import Ascii.

Inductive HTTPType := HTTP_TYPE_UNKNOWN | HTTP_TYPE_REQUEST | HTTP_TYPE_RESPONSE.

#[export] Instance HTTPType_eq_dec : EqDecision HTTPType.
Proof. solve_decision. Defined.

(** The union of [HTTPHdrImpl]. *)
Inductive HTTPUnion :=
  | Req (m_url_impl : option URLImpl) (m_ptr_method : option (list Z)) (m_method_wks_idx : Z)
  | Resp (m_ptr_reason : option (list Z)) (m_status : Z).

Record HTTPHdrImpl := mkHTTP { m_polarity : HTTPType; m_version : Z; m_u : HTTPUnion; m_fields_impl : MIMEHdrImpl }.

Record HTTPParser := mkHTTPParser { m_parsing_http : bool; m_mime_parser : MIMEParser }.

(** ** Versions *)

Definition HTTP_VERSION (a b : Z) : Z := Z.lor (i32 (Z.shiftl (Z.land a 65535) 16)) (Z.land b 65535).
Definition HTTP_MINOR (v : Z) : Z := Z.land v 65535.
Definition HTTP_MAJOR (v : Z) : Z := Z.land (Z.shiftr v 16) 65535.

Definition http_hdr_version_to_string (version : Z) : list Z :=
  chars "HTTP/" ++ [wraps 8 (ch "0" + HTTP_MAJOR version); ch "."; wraps 8 (ch "0" + HTTP_MINOR version)].

(** [while (is_digit( *s)) n = n * 10 + ( *s++ - '0')], in an [int]. *)
Fixpoint scan_int (n : Z) (s : list Z) : Z * list Z :=
  match s with
  | [] => (n, [])
  | c :: s' => if is_digit c then scan_int (i32 (i32 (n * 10) + (c - ch "0"))) s' else (n, s)
  end.

Definition either (c lo up : Z) : bool := (c =? up) || (c =? lo).

Definition http_parse_version (s : list Z) : Z :=
  if (length s <? 8)%nat then HTTP_VERSION 0 9
  else if either (nth 0 s 0) (ch "h") (ch "H") && either (nth 1 s 0) (ch "t") (ch "T") && either (nth 2 s 0) (ch "t") (ch "T") &&
          either (nth 3 s 0) (ch "p") (ch "P") && (nth 4 s 0 =? ch "/") then
    let '(maj, s1) := scan_int 0 (drop 5 s) in
    let '(min, _) := scan_int 0 (match s1 with c :: s2 => if c =? ch "." then s2 else s1 | [] => [] end) in
    HTTP_VERSION maj min
  else HTTP_VERSION 0 9.

Definition http_parse_status (s : list Z) : Z := (scan_int 0 (drop_while is_space s)).1.

(** ** Construction and parts *)

Definition http_hdr_init (polarity : HTTPType) : HTTPHdrImpl :=
  mkHTTP polarity (HTTP_VERSION 0 9) (if bool_decide (polarity = HTTP_TYPE_REQUEST) then Req (Some url_create) None (-1) else Resp None 0) mime_hdr_create.

Definition http_hdr_version_set (ver : Z) (hh : HTTPHdrImpl) : HTTPHdrImpl := mkHTTP (m_polarity hh) ver (m_u hh) (m_fields_impl hh).
Definition http_hdr_type_set (type : HTTPType) (hh : HTTPHdrImpl) : HTTPHdrImpl := mkHTTP type (m_version hh) (m_u hh) (m_fields_impl hh).
Definition set_u (u : HTTPUnion) (hh : HTTPHdrImpl) : HTTPHdrImpl := mkHTTP (m_polarity hh) (m_version hh) u (m_fields_impl hh).
Definition set_fields (mh : MIMEHdrImpl) (hh : HTTPHdrImpl) : HTTPHdrImpl := mkHTTP (m_polarity hh) (m_version hh) (m_u hh) mh.

Definition http_hdr_method_set (method : list Z) (method_wks_idx : Z) (hh : HTTPHdrImpl) : option HTTPHdrImpl :=
  match m_u hh with Req url _ _ => Some (set_u (Req url (mime_str_u16_set (Some method)) method_wks_idx) hh) | _ => None end.

Definition http_hdr_status_set (status : Z) (hh : HTTPHdrImpl) : option HTTPHdrImpl :=
  match m_u hh with Resp reason _ => Some (set_u (Resp reason (wraps 16 status)) hh) | _ => None end.

Definition http_hdr_reason_set (value : list Z) (hh : HTTPHdrImpl) : option HTTPHdrImpl :=
  match m_u hh with Resp _ status => Some (set_u (Resp (mime_str_u16_set (Some value)) status) hh) | _ => None end.

Definition http_hdr_method_get (hh : HTTPHdrImpl) : option (list Z) :=
  match m_u hh with Req _ method wks => if wks >=? 0 then Some (hdrtoken_index_to_wks wks) else method | _ => None end.

Definition http_hdr_status_get (hh : HTTPHdrImpl) : Z := match m_u hh with Resp _ status => status | _ => 0 end.

Definition http_parser_init : HTTPParser := mkHTTPParser true mime_parser_init.
Definition http_parser_clear (parser : HTTPParser) : HTTPParser := mkHTTPParser true (mime_parser_clear (m_mime_parser parser)).

(** ** Request lines

    A pointer into the line is an index, as in [URL]. *)

(** A line without a method, an empty line, or where the parts are. *)
Inductive ReqLine :=
  | NoMethod
  | BlankLine
  | RequestLine (method_start method_end url_start url_end : nat) (version : option (nat * nat)).

(** [cur] goes back from the end of the version: [r] is the characters from [cur]
    to the start of the line.  [GETPREV] fails where there is no other. *)
Fixpoint prev_digits (r : list Z) : list Z := match r with c :: r' => if is_digit c then prev_digits r' else r | [] => [] end.

Definition prev_char (lo up : Z) (r : list Z) : option (list Z) :=
  match r with c :: _ :: _ => if either c lo up then Some (drop 1 r) else None | _ => None end.

(** From [parse_version2] to [parse_url]: where the version starts. *)
Definition version_back (r : list Z) : option nat :=
  r1 ← prev_char (ch ".") (ch ".") (prev_digits r);
  r2 ← prev_char (ch "/") (ch "/") (prev_digits r1);
  r3 ← prev_char (ch "p") (ch "P") r2; r4 ← prev_char (ch "t") (ch "T") r3; r5 ← prev_char (ch "t") (ch "T") r4;
  match r5 with c :: r6 => if either c (ch "h") (ch "H") then Some (length r6) else None | [] => None end.

(** Where the version starts and ends. *)
Definition request_version (line : list Z) : option (nat * nat) :=
  let l1 := default line (drop_last_char CHAR_LF line) in
  let l2 := default l1 (drop_last_char CHAR_CR l1) in
  let l3 := strip_end is_ws l2 in
  version_start ← version_back (rev l3); Some (version_start, length l3).

(** From [parse_version1] to [done]. *)
Definition parse_version_url (line : list Z) (method_start method_end : nat) : ReqLine :=
  let version := request_version line in
  let url_start := (length line - length (drop_while is_ws (drop (S method_end) line)))%nat in
  let url_end := length (strip_end is_wslfcr (take (match version with Some (version_start, _) => version_start | None => length line end) line)) in
  RequestLine method_start method_end url_start url_end version.

Fixpoint find_ws (l : list Z) (cur : nat) : option nat := match l with [] => None | c :: l' => if is_ws c then Some cur else find_ws l' (S cur) end.

Definition parse_method1 (line : list Z) (start : nat) : ReqLine :=
  match skip_ws (drop start line) start with
  | None => NoMethod
  | Some method_start =>
    match find_ws (drop (S method_start) line) (S method_start) with
    | None => NoMethod
    | Some method_end => parse_version_url line method_start method_end
    end
  end.

Definition parse_request_line (line : list Z) : ReqLine :=
  if is_cr (cur line) then
    match drop 1 line with [] => NoMethod | c :: _ => if is_lf c then BlankLine else parse_method1 line 1 end
  else if is_lf (cur line) then BlankLine else parse_method1 line 0.

(** A GET with a version of two digits: the version, and where the URL ends. *)
Definition request_fastpath (line : list Z) : option (Z * nat) :=
  let n := length line in
  let e := fun k => nth (n - k) line 0 in
  if (16 <=? n)%nat && xor_match line (chars "GET") &&
     xor_match [e 10%nat; e 9%nat; e 8%nat; e 7%nat; e 6%nat; e 4%nat; e 2%nat; e 1%nat] (chars "HTTP/." ++ [CHAR_CR; CHAR_LF]) &&
     (is_digit (e 5%nat) && is_digit (e 3%nat)) &&
     (is_space (nth 3 line 0) && negb (is_space (nth 4 line 0)) && negb (is_space (e 12%nat)) && is_space (e 11%nat)) && negb (n - 11 <=? 4)%nat
  then Some (HTTP_VERSION (e 5%nat - ch "0") (e 3%nat - ch "0"), (n - 11)%nat)
  else None.

Section http.
Context `{TokenDFA} (hash_table : list (option Z)).

(** [url_parse] on a pointer that is not before its end, as it is when there is
    nothing between the method and the version: every test of the end comes after
    a step, so that the parser looks at two characters, and makes the first the host
    and the second the path. *)
Definition url_parse_at_end (copy_strings : bool) (line : list Z) (start : nat) (u : URLImpl) : option (MIMEParseResult * URLImpl) :=
  c ← line !! start;
  if is_ws c || (c =? ch ":") then Some (PARSE_ERROR, u)
  else
    d ← line !! S start;
    let host := if (c =? ch "@") || (c =? ch "/") then [] else [c] in
    u1 ← url_host_set copy_strings (Some host) u;
    let split := (d =? ch ";") || (d =? ch "?") || (d =? ch "#") in
    let u2 := url_path_set (Some (if split then [] else [d])) u1 in
    Some (PARSE_DONE,
          if d =? ch ";" then url_params_set (Some []) u2 else if d =? ch "?" then url_query_set (Some []) u2
          else if d =? ch "#" then url_fragment_set (Some []) u2 else u2).

(** [url_parse(heap, url, &url_start, url_end, copy)], where [line] and what follows it
    in memory can be read. *)
Definition url_parse_range (copy_strings : bool) (line : list Z) (start end_ : nat) (u : URLImpl) : option (MIMEParseResult * URLImpl) :=
  if (start <? end_)%nat then '(err, u', _) ← url_parse hash_table copy_strings (sub line start end_) 0 u; Some (err, u')
  else url_parse_at_end copy_strings line start u.

Notation Parsed := (option (MIMEParseResult * list Z * HTTPParser * HTTPHdrImpl)) (only parsing).

(** [mime_parser_parse] on the fields. *)
Definition parse_fields (eof : bool) (parser : HTTPParser) (raw : list Z) (hh : HTTPHdrImpl) : Parsed :=
  '(r, rest, mp, mh) ← mime_parser_parse hash_table (m_mime_parser parser) eof raw (m_fields_impl hh);
  Some (r, rest, mkHTTPParser (m_parsing_http parser) mp, set_fields mh hh).

(** [memory]: the line, and behind it the rest of the input if it is part of that.
    The method and the URL are known: the rest of [http_parser_parse_req].  [version]
    is set when the URL is right. *)
Definition parse_req_line (copy_strings eof : bool) (memory : list Z) (method : list Z) (method_wks_idx : Z) (url_start url_end : nat) (version : Z)
    (parser : HTTPParser) (raw : list Z) (hh : HTTPHdrImpl) : Parsed :=
  hh1 ← http_hdr_method_set method method_wks_idx hh;
  match m_u hh1 with
  | Req (Some url) m w =>
    '(err, url') ← url_parse_range copy_strings memory url_start url_end url;
    let hh2 := set_u (Req (Some url') m w) hh1 in
    if is_error err then Some (err, raw, parser, hh2)
    else
      let hh3 := http_hdr_version_set version hh2 in
      let parser' := mkHTTPParser false (m_mime_parser parser) in
      if version =? HTTP_VERSION 0 9 then Some (PARSE_DONE, raw, parser', hh3) else parse_fields eof parser' raw hh3
  | _ => None
  end.

Definition set_scanner (S : MIMEScanner) (parser : HTTPParser) : HTTPParser :=
  let mp := m_mime_parser parser in mkHTTPParser (m_parsing_http parser) (mkParser S (m_field mp) (m_field_flags mp) (m_parser_value mp)).

(** From [start] on: an empty line is passed over. *)
Fixpoint parse_req_go (fuel : nat) (must_copy_strings eof : bool) (parser : HTTPParser) (raw : list Z) (hh : HTTPHdrImpl) : Parsed :=
  match fuel with
  | O => None
  | Datatypes.S fuel' =>
    R ← mime_scanner_get MIME_SCANNER_TYPE_LINE eof (m_scanner (m_mime_parser parser)) raw;
    let parser1 := set_scanner (scanner R) parser in
    let hh1 := http_hdr_type_set HTTP_TYPE_REQUEST hh in
    let line := output R in
    let copy := must_copy_strings || negb (output_shares_raw_input R) in
    let memory := if output_shares_raw_input R then line ++ raw_rest R else line in
    match scan_result R with
    | PARSE_OK =>
      match request_fastpath line with
      | Some (version, url_end) =>
        parse_req_line copy eof memory (take 3 line) (hdrtoken_tokenize hash_table None (chars "GET")) 4 url_end version parser1 (raw_rest R) hh1
      | None =>
        match parse_request_line line with
        | BlankLine => parse_req_go fuel' copy eof parser1 (raw_rest R) hh1
        | NoMethod => Some (PARSE_ERROR, raw_rest R, parser1, hh1)
        | RequestLine method_start method_end url_start url_end version =>
          let method := sub line method_start method_end in
          parse_req_line copy eof memory method (hdrtoken_tokenize hash_table None method) url_start url_end
            (match version with Some (a, b) => http_parse_version (sub line a b) | None => HTTP_VERSION 0 9 end) parser1 (raw_rest R) hh1
        end
      end
    | PARSE_DONE => Some (PARSE_ERROR, raw_rest R, parser1, hh1)
    | r => Some (r, raw_rest R, parser1, hh1)
    end
  end.

(** Every empty line takes a byte of the input. *)
Definition http_parser_parse_req (parser : HTTPParser) (must_copy_strings eof : bool) (raw : list Z) (hh : HTTPHdrImpl) : Parsed :=
  if m_parsing_http parser then parse_req_go (Datatypes.S (length raw)) must_copy_strings eof parser raw hh else parse_fields eof parser raw hh.

(** A request that arrives in pieces. *)
Fixpoint parse_req_pieces (parser : HTTPParser) (pieces : list (list Z)) (hh : HTTPHdrImpl)
    : option (MIMEParseResult * list (list Z) * HTTPParser * HTTPHdrImpl) :=
  match pieces with
  | [] => Some (PARSE_CONT, [], parser, hh)
  | p :: ps =>
    '(r, rest, parser', hh') ← http_parser_parse_req parser false false p hh;
    match r with PARSE_CONT => parse_req_pieces parser' ps hh' | _ => Some (r, rest :: ps, parser', hh') end
  end.

(** ** Status lines *)

(** [eoh]: not a status line.  Otherwise the version, the status if there is one, and
    the reason if there is one. *)
Inductive RespLine := NoStatusLine | StatusLine (version : Z) (status : option Z) (reason : option (list Z)).

(** A version of two digits, a status of three and a reason. *)
Definition response_fastpath (line : list Z) : option RespLine :=
  let at_ := fun i => nth i line 0 in
  if (16 <=? length line)%nat &&
     xor_match [at_ 0%nat; at_ 1%nat; at_ 2%nat; at_ 3%nat; at_ 4%nat; at_ 6%nat; at_ 8%nat] (chars "HTTP/. ") &&
     (is_digit (at_ 5%nat) && is_digit (at_ 7%nat) && is_digit (at_ 9%nat) && is_digit (at_ 10%nat) && is_digit (at_ 11%nat) && negb (is_space (at_ 13%nat)))
  then
    let r := drop 13 (take (length line - 1) line) in
    Some (StatusLine (HTTP_VERSION (at_ 5%nat - ch "0") (at_ 7%nat - ch "0"))
            (Some ((at_ 9%nat - ch "0") * 100 + (at_ 10%nat - ch "0") * 10 + (at_ 11%nat - ch "0")))
            (Some (take 1 r ++ strip_end is_space (drop 1 r))))
  else None.

(** [if ( *cur matches) GETNEXT(eoh)]: the characters from [cur] on; none may be
    left over after a step. *)
Definition next_char (lo up : Z) (l : list Z) : option (list Z) :=
  match l with c :: _ :: _ => if either c lo up then Some (drop 1 l) else None | _ => None end.

Fixpoint next_digits (l : list Z) : list Z := match l with c :: l' => if is_digit c then next_digits l' else l | [] => [] end.

(** From [line_start] to [parse_status1]: what is left at the first white space. *)
Definition response_version (line : list Z) : option (list Z) :=
  l1 ← next_char (ch "h") (ch "H") line; l2 ← next_char (ch "t") (ch "T") l1; l3 ← next_char (ch "t") (ch "T") l2; l4 ← next_char (ch "p") (ch "P") l3;
  l5 ← next_char (ch "/") (ch "/") l4; l6 ← next_char (ch ".") (ch ".") (next_digits l5);
  let l7 := next_digits l6 in match l7 with c :: _ :: _ => if is_ws c then Some l7 else None | _ => None end.

Definition is_crlf (c : Z) : bool := is_cr c || is_lf c.

Definition parse_response_line (line : list Z) : RespLine :=
  match response_version line with
  | None => NoStatusLine
  | Some l =>
    let version := http_parse_version (take (length line - length l) line) in
    match drop_while is_ws (drop 1 l) with
    | [] => StatusLine version None None
    | l1 =>
      let l2 := next_digits l1 in
      (* [status_end] stays before a digit that is the last character *)
      let digits := match l2 with [] => take (length l1 - 1) l1 | _ => take (length l1 - length l2) l1 end in
      StatusLine version (Some (http_parse_status digits))
        (match l2 with
         | c :: l3 => if is_ws c then match drop_while is_ws l3 with [] => None | l4 => Some (strip_end is_crlf l4) end else None
         | [] => None
         end)
    end
  end.

Definition http_parser_parse_resp (parser : HTTPParser) (must_copy_strings eof : bool) (raw : list Z) (hh : HTTPHdrImpl) : Parsed :=
  if m_parsing_http parser then
    R ← mime_scanner_get MIME_SCANNER_TYPE_LINE eof (m_scanner (m_mime_parser parser)) raw;
    let parser1 := set_scanner (scanner R) parser in
    let hh1 := http_hdr_type_set HTTP_TYPE_RESPONSE hh in
    match scan_result R with
    | PARSE_OK =>
      match default (parse_response_line (output R)) (response_fastpath (output R)) with
      | NoStatusLine => Some (PARSE_DONE, raw, parser1, hh1)
      | StatusLine version status reason =>
        hh2 ← match status with Some s => http_hdr_status_set s (http_hdr_version_set version hh1) | None => Some (http_hdr_version_set version hh1) end;
        hh3 ← match reason with Some r => http_hdr_reason_set r hh2 | None => Some hh2 end;
        parse_fields eof (mkHTTPParser false (m_mime_parser parser1)) (raw_rest R) hh3
      end
    | r => Some (r, raw_rest R, parser1, hh1)
    end
  else parse_fields eof parser raw hh.

Fixpoint parse_resp_pieces (parser : HTTPParser) (pieces : list (list Z)) (hh : HTTPHdrImpl)
    : option (MIMEParseResult * list (list Z) * HTTPParser * HTTPHdrImpl) :=
  match pieces with
  | [] => Some (PARSE_CONT, [], parser, hh)
  | p :: ps =>
    '(r, rest, parser', hh') ← http_parser_parse_resp parser false false p hh;
    match r with PARSE_CONT => parse_resp_pieces parser' ps hh' | _ => Some (r, rest :: ps, parser', hh') end
  end.

(** ** Printing *)

(** [TRY(x)] and what follows. *)
Definition try_then (x : bool * PrintState) (k : PrintState -> bool * PrintState) : bool * PrintState := let '(ok, st) := x in if ok then k st else (false, st).

(** Bytes written without a test, where there is room. *)
Definition put (s : list Z) (st : PrintState) : PrintState := mkPrint (buf_index st + Z.of_nat (length s)) (chars_to_skip st) (printed st ++ s).

(** [if (bufsize - *bufindex >= n) ... else TRY(mime_mem_print(...))]. *)
Definition put_or_print (n : Z) (s : list Z) (bufsize : Z) (st : PrintState) : bool * PrintState :=
  if bufsize - buf_index st >=? n then (true, put s st) else mime_mem_print bufsize s st.

Definition http_hdr_print (hdr : HTTPHdrImpl) (bufsize : Z) (st : PrintState) : option (bool * PrintState) :=
  let fields := mime_hdr_print (m_fields_impl hdr) bufsize in
  let version := http_hdr_version_to_string (m_version hdr) in
  let crlf := [CHAR_CR; CHAR_LF] in
  if bool_decide (m_polarity hdr = HTTP_TYPE_REQUEST) then
    match m_u hdr with
    | Req _ None _ => Some (true, st)
    | Req url (Some method) _ =>
      Some (
        if (chars_to_skip st =? 0) && (bufsize - buf_index st >=? Z.of_nat (length method) + 1) then
          try_then (match url with
                    | None => (true, put (method ++ [CHAR_SP]) st)
                    | Some u =>
                      try_then (url_print hash_table u bufsize (put (method ++ [CHAR_SP]) st))
                        (fun st => if bufsize - buf_index st >=? 1 then (true, put [CHAR_SP] st) else (false, st))
                    end)
            (fun st => try_then (put_or_print 9 version bufsize st) (fun st => try_then (put_or_print 2 crlf bufsize st) fields))
        else
          try_then (try_print bufsize [method; [CHAR_SP]] st)
            (fun st => try_then (match url with
                                 | None => (true, st)
                                 | Some u => try_then (url_print hash_table u bufsize st) (mime_mem_print bufsize [CHAR_SP])
                                 end)
              (fun st => try_then (try_print bufsize [version; crlf] st) fields)))
    | _ => None
    end
  else
    match m_u hdr with
    | Resp reason status =>
      Some (
        if (chars_to_skip st =? 0) && (bufsize - buf_index st >=? 16) then
          let st1 := put (version ++ [CHAR_SP]) st in
          let '(num, len) := if status =? 200 then (chars "200", 3) else mime_format_int status (Z.to_nat (bufsize - buf_index st1)) in
          try_then (match reason with None => (true, put (str_of num len ++ [CHAR_SP]) st1) | Some r => mime_mem_print bufsize r (put (str_of num len ++ [CHAR_SP]) st1) end)
            (fun st => try_then (put_or_print 2 crlf bufsize st) fields)
        else
          let '(num, len) := mime_format_int status 32 in
          try_then (try_print bufsize ([version; [CHAR_SP]; str_of num len; [CHAR_SP]] ++ match reason with None => [] | Some r => [r] end ++ [crlf]) st) fields)
    | _ => None
    end.

Definition http_hdr_length_get (hdr : HTTPHdrImpl) : option Z :=
  let fields := mime_hdr_length_get (m_fields_impl hdr) in
  match m_polarity hdr, m_u hdr with
  | HTTP_TYPE_REQUEST, Req url method _ =>
    Some (Z.of_nat (length (default [] method)) + 1 + match url with Some u => url_length_get hash_table u | None => 0 end + 1 + 8 + 2 + fields)
  | HTTP_TYPE_RESPONSE, Resp reason _ => Some (Z.of_nat (length (default [] reason)) + 8 + 1 + 3 + 1 + 2 + fields)
  | HTTP_TYPE_UNKNOWN, _ => Some fields
  | _, _ => None
  end.
End http.
