(* ===== verification/HTTPFacts.v ===== *)
(** Theorems on HTTP headers: printing into buffers of any size, and what the parser
    makes of a first line. *)

From S2P Require Import Prelude ParseRules MimeDate HdrToken MimePrint URL URLFacts MimeScanner MimeHdr MimeHdrOps MimeHdrFacts MimeHdrRep MimeHdrAttach MimeCooked MimeHdrTheorems MimeParser MimeParserFacts MimeRoundtrip HTTP.
From Stdlib Require Import Ascii.

#[local] Opaque find_token.

Definition crlf : list Z := [CHAR_CR; CHAR_LF].

(** ** Printing *)

Section printing.
Context `{TokenDFA} (hash_table : list (option Z)).

(** The first line. *)
Definition first_line (hdr : HTTPHdrImpl) : list Z :=
  match m_u hdr with
  | Req url method _ =>
    default [] method ++ [CHAR_SP] ++ match url with Some u => url_text hash_table u ++ [CHAR_SP] | None => [] end ++ http_hdr_version_to_string (m_version hdr) ++ crlf
  | Resp reason status => http_hdr_version_to_string (m_version hdr) ++ [CHAR_SP] ++ udec 20 status [] ++ [CHAR_SP] ++ default [] reason ++ crlf
  end.

Definition http_text (hdr : HTTPHdrImpl) : list Z := first_line hdr ++ hdr_text (slots (m_fields_impl hdr)).

(** The header can be printed: the polarity says what is in the union, a request has
    a method, and a status is not negative. *)
Definition printable (hdr : HTTPHdrImpl) : Prop :=
  match m_polarity hdr, m_u hdr with
  | HTTP_TYPE_REQUEST, Req _ (Some _) _ => True
  | HTTP_TYPE_RESPONSE, Resp _ status => 0 <= status < 2 ^ 15
  | _, _ => False
  end.

Lemma try_then_spec len a b i k o K : (i <= len)%nat ->
  (forall i' o', (i' <= len)%nat -> K (mkPrint (Z.of_nat i') (Z.of_nat (k - length a)) o') = print_spec len b i' (k - length a) o') ->
  try_then (print_spec len a i k o) K = print_spec len (a ++ b) i k o.
Proof.
  intros Hi HK. rewrite print_spec_app by done. unfold try_then. destruct (print_spec len a i k o) as [ok st] eqn:E. destruct ok; [|done].
  unfold print_spec in E. injection E as _ <-. apply HK. rewrite length_take. lia.
Qed.

Lemma put_text_spec len s i o : (i + length s <= len)%nat -> (true, put s (mkPrint (Z.of_nat i) (Z.of_nat 0) o)) = print_spec len s i 0 o.
Proof. intros L. unfold put, print_spec. cbn [buf_index chars_to_skip printed]. rewrite drop_0, take_ge, bool_decide_true by lia. do 2 f_equal. lia. Qed.

Lemma put_then len s b i o K : (i + length s <= len)%nat ->
  (forall i' o', (i' <= len)%nat -> K (mkPrint (Z.of_nat i') (Z.of_nat 0) o') = print_spec len b i' 0 o') ->
  K (put s (mkPrint (Z.of_nat i) (Z.of_nat 0) o)) = print_spec len (s ++ b) i 0 o.
Proof.
  intros L HK. rewrite <- (try_then_spec len s b i 0 o K) by (lia || intros; by apply HK). rewrite <- put_text_spec by done. done.
Qed.

Lemma put_put s t st : put t (put s st) = put (s ++ t) st.
Proof. unfold put. cbn. rewrite app_assoc, length_app. f_equal. lia. Qed.

Lemma put_or_print_spec n len s i o : Z.of_nat (length s) <= n -> (i <= len)%nat ->
  put_or_print n s (Z.of_nat len) (mkPrint (Z.of_nat i) (Z.of_nat 0) o) = print_spec len s i 0 o.
Proof.
  intros L Hi. unfold put_or_print. cbn [buf_index]. rewrite Z.geb_leb. destruct (Z.leb_spec n (Z.of_nat len - Z.of_nat i)); [|by apply mem_print_spec].
  apply put_text_spec. lia.
Qed.

Lemma url_print_spec_at u len i k o : (i <= len)%nat ->
  url_print hash_table u (Z.of_nat len) (mkPrint (Z.of_nat i) (Z.of_nat k) o) = print_spec len (url_text hash_table u) i k o.
Proof. intros Hi. unfold url_print, url_text. by apply try_print_spec. Qed.

(** A space written where there is room, and nothing where there is not. *)
Lemma space_spec len i o : (i <= len)%nat ->
  (if Z.of_nat len - Z.of_nat i >=? 1 then (true, put [CHAR_SP] (mkPrint (Z.of_nat i) (Z.of_nat 0) o)) else (false, mkPrint (Z.of_nat i) (Z.of_nat 0) o)) =
  print_spec len [CHAR_SP] i 0 o.
Proof.
  intros Hi. rewrite Z.geb_leb. destruct (Z.leb_spec 1 (Z.of_nat len - Z.of_nat i)); [apply put_text_spec; simpl; lia|].
  unfold print_spec. rewrite drop_0. replace (len - i)%nat with 0%nat by lia. cbn. rewrite app_nil_r. do 2 f_equal. lia.
Qed.

Lemma status_digits s n : 0 <= s < 2 ^ 15 -> let '(num, len) := mime_format_int s n in str_of num len = udec 20 s [] /\ len = Z.of_nat (length (udec 20 s [])).
Proof.
  intros Hs. unfold mime_format_int. rewrite (proj2 (Z.ltb_ge s 0)), Z.geb_leb, (proj2 (Z.leb_gt 100000 s)) by lia. cbn [orb].
  rewrite format_small_spec by lia. unfold str_of. rewrite Nat2Z.id. by rewrite take_ge.
Qed.

Lemma status_length s : 0 <= s < 2 ^ 15 -> (length (udec 20 s []) <= 5)%nat.
Proof.
  intros Hs. pose proof (format_small_spec s ltac:(lia)) as E. apply (f_equal snd) in E. cbn [snd] in E. unfold mime_format_small in E.
  destruct (s <? 100), (s <? 10), (s <? 1000), (s <? 10000); cbn [snd] in E; lia.
Qed.

Lemma version_length v : length (http_hdr_version_to_string v) = 8%nat.
Proof. done. Qed.

Lemma zgeb_true a b : a >=? b = true -> b <= a.
Proof. rewrite Z.geb_leb. lia. Qed.

#[local] Opaque http_hdr_version_to_string.

Section fields.
Variables (mh : MIMEHdrImpl) (ver : Z) (len : nat).
Hypothesis R : hdr_rep mh.
Hypothesis W : Forall (fun f => is_live f = true -> raw_ok f) (slots mh).
Notation version := (http_hdr_version_to_string ver).
Notation fields := (mime_hdr_print mh (Z.of_nat len)).

Lemma fields_spec i k o : (i <= len)%nat -> fields (mkPrint (Z.of_nat i) (Z.of_nat k) o) = print_spec len (hdr_text (slots mh)) i k o.
Proof. intros Hi. apply print_fields_spec; [apply R|done|done]. Qed.

Lemma crlf_fields_spec i o : (i <= len)%nat ->
  try_then (put_or_print 2 crlf (Z.of_nat len) (mkPrint (Z.of_nat i) (Z.of_nat 0) o)) fields = print_spec len (crlf ++ hdr_text (slots mh)) i 0 o.
Proof. intros Hi. rewrite put_or_print_spec by done. apply try_then_spec; [done|]. intros. by apply fields_spec. Qed.

Lemma version_fields_spec i o : (i <= len)%nat ->
  try_then (put_or_print 9 version (Z.of_nat len) (mkPrint (Z.of_nat i) (Z.of_nat 0) o)) (fun st => try_then (put_or_print 2 crlf (Z.of_nat len) st) fields) =
  print_spec len (version ++ crlf ++ hdr_text (slots mh)) i 0 o.
Proof.
  intros Hi. rewrite put_or_print_spec by (rewrite ?version_length; done || lia). apply try_then_spec; [done|]. intros. rewrite Nat.sub_0_l. by apply crlf_fields_spec.
Qed.

Lemma pieces_fields_spec ps i k o : (i <= len)%nat ->
  try_then (try_print (Z.of_nat len) ps (mkPrint (Z.of_nat i) (Z.of_nat k) o)) fields = print_spec len (concat ps ++ hdr_text (slots mh)) i k o.
Proof. intros Hi. rewrite try_print_spec by done. apply try_then_spec; [done|]. intros. by apply fields_spec. Qed.

(** The URL and the space behind it, then the rest. *)
Lemma url_fields_spec u rest K space i k o : (i <= len)%nat ->
  (forall i' o', (i' <= len)%nat -> space (mkPrint (Z.of_nat i') (Z.of_nat (k - length (url_text hash_table u))) o') = print_spec len [CHAR_SP] i' (k - length (url_text hash_table u)) o') ->
  (forall i' o', (i' <= len)%nat -> K (mkPrint (Z.of_nat i') (Z.of_nat (k - length (url_text hash_table u ++ [CHAR_SP]))) o') = print_spec len rest i' (k - length (url_text hash_table u ++ [CHAR_SP])) o') ->
  try_then (try_then (url_print hash_table u (Z.of_nat len) (mkPrint (Z.of_nat i) (Z.of_nat k) o)) space) K = print_spec len ((url_text hash_table u ++ [CHAR_SP]) ++ rest) i k o.
Proof. intros Hi HS HK. rewrite url_print_spec_at by done. rewrite (try_then_spec len _ [CHAR_SP]) by done. by apply try_then_spec. Qed.

Lemma request_print url m w i k o : (i <= len)%nat -> let hdr := mkHTTP HTTP_TYPE_REQUEST ver (Req url (Some m) w) mh in
  http_hdr_print hash_table hdr (Z.of_nat len) (mkPrint (Z.of_nat i) (Z.of_nat k) o) = Some (print_spec len (http_text hdr) i k o).
Proof.
  intros Hi hdr. unfold http_hdr_print, http_text, first_line. cbn [hdr m_polarity m_u m_version m_fields_impl default]. rewrite bool_decide_true by done. f_equal.
  cbn [chars_to_skip buf_index]. destruct ((Z.of_nat k =? 0) && _) eqn:Room.
  - apply andb_true_iff in Room as [K Room%zgeb_true]. apply Z.eqb_eq in K. assert (k = 0%nat) as -> by lia. clear K.
    assert (L : (i + length (m ++ [CHAR_SP]) <= len)%nat) by (rewrite length_app; simpl; lia). rewrite <- !app_assoc, (app_assoc m). destruct url as [u|].
    + refine (put_then _ _ _ _ _ (fun st => try_then (try_then (url_print hash_table u (Z.of_nat len) st) _) _) L _). intros i1 o1 Hi1.
      apply url_fields_spec; [done|intros; by apply space_spec|intros; by apply version_fields_spec].
    + refine (put_then _ _ _ _ _ (fun st => try_then (true, st) _) L _). intros. by apply version_fields_spec.
  - rewrite <- !app_assoc, (app_assoc m). rewrite try_print_spec by done. cbn [concat]. rewrite app_nil_r. apply try_then_spec; [done|]. intros i1 o1 Hi1. destruct url as [u|].
    + apply url_fields_spec; [done|intros; by apply mem_print_spec|]. intros. rewrite pieces_fields_spec by done. cbn [concat]. by rewrite app_nil_r, <- app_assoc.
    + cbn [try_then]. rewrite pieces_fields_spec by done. cbn [concat]. by rewrite app_nil_r, <- app_assoc.
Qed.

Lemma response_print reason status i k o : (i <= len)%nat -> 0 <= status < 2 ^ 15 -> let hdr := mkHTTP HTTP_TYPE_RESPONSE ver (Resp reason status) mh in
  http_hdr_print hash_table hdr (Z.of_nat len) (mkPrint (Z.of_nat i) (Z.of_nat k) o) = Some (print_spec len (http_text hdr) i k o).
Proof.
  intros Hi Hs hdr. unfold http_hdr_print, http_text, first_line. cbn [hdr m_polarity m_u m_version m_fields_impl default]. rewrite bool_decide_false by done. f_equal.
  cbn [chars_to_skip buf_index]. destruct ((Z.of_nat k =? 0) && _) eqn:Room.
  - apply andb_true_iff in Room as [K Room%zgeb_true]. apply Z.eqb_eq in K. assert (k = 0%nat) as -> by lia. clear K.
    set (st1 := put _ _). set (n := Z.to_nat _). pose proof (status_digits status n Hs) as SD. pose proof (status_length status Hs) as SL.
    assert (N : exists num l, (if status =? 200 then (chars "200", 3) else mime_format_int status n) = (num, l) /\ str_of num l = udec 20 status []).
    { destruct (Z.eqb_spec status 200) as [->|]; [by eexists _, _|]. destruct (mime_format_int status n) as [num l]. destruct SD. by eexists _, _. }
    destruct N as (num & l & -> & ->). unfold st1. rewrite put_put.
    assert (L : (i + length ((http_hdr_version_to_string ver ++ [CHAR_SP]) ++ udec 20 status [] ++ [CHAR_SP]) <= len)%nat) by (rewrite !length_app, version_length; cbn [length]; lia).
    replace ((http_hdr_version_to_string ver ++ [CHAR_SP] ++ udec 20 status [] ++ [CHAR_SP] ++ default [] reason ++ crlf) ++ hdr_text (slots mh)) with
      (((http_hdr_version_to_string ver ++ [CHAR_SP]) ++ udec 20 status [] ++ [CHAR_SP]) ++ default [] reason ++ crlf ++ hdr_text (slots mh)) by by rewrite <- !app_assoc.
    refine (put_then _ _ _ _ _ (fun st => try_then (match reason with None => (true, st) | Some r => mime_mem_print _ r st end) _) L _). intros i1 o1 Hi1.
    destruct reason as [r|]; cbn [default]; [|cbn [app]; by apply crlf_fields_spec].
    rewrite mem_print_spec by done. apply try_then_spec; [done|]. intros. rewrite Nat.sub_0_l. by apply crlf_fields_spec.
  - pose proof (status_digits status 32 Hs) as SD. destruct (mime_format_int status 32) as [num l]. destruct SD as [SD _]. rewrite SD, pieces_fields_spec by done. f_equal.
    cbn [concat app]. rewrite concat_app, <- !app_assoc. destruct reason; cbn [concat default]; by rewrite ?app_nil_r, <- ?app_assoc.
Qed.
End fields.

Lemma http_print_ok hdr len i k o : printable hdr -> hdr_rep (m_fields_impl hdr) -> Forall (fun f => is_live f = true -> raw_ok f) (slots (m_fields_impl hdr)) -> (i <= len)%nat ->
  http_hdr_print hash_table hdr (Z.of_nat len) (mkPrint (Z.of_nat i) (Z.of_nat k) o) = Some (print_spec len (http_text hdr) i k o).
Proof.
  destruct hdr as [[| |] ver [url [m|] w|reason status] mh]; try done; intros P R W Hi; [by apply request_print|by apply response_print].
Qed.

(** Into a buffer that is big enough. *)
Lemma http_print_whole hdr len : printable hdr -> hdr_rep (m_fields_impl hdr) -> Forall (fun f => is_live f = true -> raw_ok f) (slots (m_fields_impl hdr)) ->
  (length (http_text hdr) <= len)%nat -> exists n, http_hdr_print hash_table hdr (Z.of_nat len) (mkPrint 0 0 []) = Some (true, mkPrint n 0 (http_text hdr)).
Proof.
  intros P R W L. exists (Z.of_nat (length (http_text hdr))). change (mkPrint 0 0 []) with (mkPrint (Z.of_nat 0) (Z.of_nat 0) []). rewrite http_print_ok by (done || lia).
  unfold print_spec. rewrite drop_0, Nat.sub_0_r, take_ge, bool_decide_true by lia. done.
Qed.

(** Printing an HTTP header is the same however the buffer is cut.  Whatever the
    buffer holds ([i] bytes of it) and whatever has been printed before ([k] bytes to
    be skipped), and whether the fast path for a first line that fits is taken or the
    general one, what is written is the first line and then the fields, as one string
    would be. *)
Theorem http_print_effect hdr len i k o : printable hdr -> hdr_rep (m_fields_impl hdr) -> Forall (fun f => is_live f = true -> raw_ok f) (slots (m_fields_impl hdr)) -> (i <= len)%nat ->
  http_hdr_print hash_table hdr (Z.of_nat len) (mkPrint (Z.of_nat i) (Z.of_nat k) o) = Some (print_spec len (http_text hdr) i k o).
Proof. apply http_print_ok. Qed.
End printing.
