(* ===== verification/HTTPRequest.v ===== *)
(** Requests: the round trip of the first line and the fields through the printer and
    the parser, whose fast path and slow path agree on what is printed. *)

From S2P Require Import Prelude ParseRules MimeDate HdrToken MimePrint URL URLFacts MimeScanner MimeHdr MimeHdrOps MimeHdrFacts MimeHdrRep MimeHdrAttach MimeCooked MimeHdrTheorems MimeParser MimeParserFacts MimeRoundtrip HTTP HTTPFacts.
From Stdlib Require Import Ascii.

#[local] Opaque find_token.

(** ** The line is found *)

(** A line that begins with neither CR nor LF is what comes up to its LF. *)
Lemma unfold_first_line b rest c r : b = c :: r -> is_cr c = false -> is_lf c = false -> Forall (fun c => c <> CHAR_LF) b ->
  unfold_line MIME_SCANNER_TYPE_LINE START [] (b ++ CHAR_LF :: rest) = inl (b ++ [CHAR_LF], rest).
Proof.
  intros -> C L F. cbn [app unfold_line]. rewrite C, L, unfold_for_lf, span_lf_app, bool_decide_true by (done || by apply Forall_cons in F as [_ F]). done.
Qed.

(** The scanner as it is at the start of a line. *)
Definition fresh (S : MIMEScanner) : Prop := scanner_ok S /\ m_line S = [] /\ m_state S = START.

Lemma init_fresh : fresh mime_scanner_init.
Proof. split; [split; [done|by left]|done]. Qed.

(** A line that ends at its LF and begins with neither CR nor LF. *)
Definition text_line (line : list Z) : Prop :=
  exists b c r, line = b ++ [CHAR_LF] /\ b = c :: r /\ is_cr c = false /\ is_lf c = false /\ Forall (fun c => c <> CHAR_LF) b.

Lemma scan_first_line S line rest : fresh S -> text_line line -> Z.of_nat (length (line ++ rest)) <= MAX_LINE ->
  exists R, mime_scanner_get MIME_SCANNER_TYPE_LINE false S (line ++ rest) = Some R /\ scan_result R = PARSE_OK /\ raw_rest R = rest /\
    output R = line /\ fresh (scanner R).
Proof.
  intros (HS & L & St) (b & c & r & -> & E & C & N & F) B. rewrite <- app_assoc in *. cbn [app] in *.
  destruct (scanner_get_ok MIME_SCANNER_TYPE_LINE false S (b ++ CHAR_LF :: rest) HS) as (R & G & H1 & O).
  { unfold fits. by rewrite L. }
  { by rewrite St. }
  exists R. split; [done|]. rewrite L, St in O. change (at_continuation START _) with false in O. cbv iota in O.
  rewrite (unfold_first_line b rest c r) in O by done. by destruct O as (-> & -> & -> & O4 & O5).
Qed.

(** ** Versions *)

(** A version that is printed with two digits. *)
Definition version_ok (v : Z) : Prop := exists a b, 0 <= a <= 9 /\ 0 <= b <= 9 /\ v = HTTP_VERSION a b.

Lemma digit_case a : 0 <= a <= 9 -> a ∈ [0; 1; 2; 3; 4; 5; 6; 7; 8; 9].
Proof. intros. assert (a = 0 \/ a = 1 \/ a = 2 \/ a = 3 \/ a = 4 \/ a = 5 \/ a = 6 \/ a = 7 \/ a = 8 \/ a = 9) by lia. set_solver. Qed.

Lemma version_cases (P : Z -> Z -> Prop) : Forall (fun a => Forall (P a) [0; 1; 2; 3; 4; 5; 6; 7; 8; 9]) [0; 1; 2; 3; 4; 5; 6; 7; 8; 9] ->
  forall a b, 0 <= a <= 9 -> 0 <= b <= 9 -> P a b.
Proof. rewrite Forall_forall. intros F a b Ha%digit_case Hb%digit_case. specialize (F a Ha). rewrite Forall_forall in F. by apply F. Qed.

Definition version_text (a b : Z) : list Z := chars "HTTP/" ++ [ch "0" + a; ch "."; ch "0" + b].

Lemma version_printed a b : 0 <= a <= 9 -> 0 <= b <= 9 -> http_hdr_version_to_string (HTTP_VERSION a b) = version_text a b.
Proof. revert a b. apply version_cases. repeat constructor. Qed.

Lemma version_parsed a b : 0 <= a <= 9 -> 0 <= b <= 9 -> http_parse_version (version_text a b) = HTTP_VERSION a b.
Proof. revert a b. apply version_cases. repeat constructor. Qed.

Lemma digit_char a : 0 <= a <= 9 -> is_digit (ch "0" + a) = true /\ is_space (ch "0" + a) = false /\ ch "0" + a - ch "0" = a.
Proof. intros H%digit_case. revert a H. apply Forall_forall. repeat constructor. Qed.

Lemma version_found r a b : 0 <= a <= 9 -> 0 <= b <= 9 -> version_back (rev (version_text a b) ++ r) = Some (length r).
Proof. revert a b. apply (version_cases (fun a b => version_back (rev (version_text a b) ++ r) = Some (length r))). repeat constructor. Qed.

(** ** The request line *)

Lemma find_ws_app w r n : Forall (fun c => is_ws c = false) w -> find_ws (w ++ CHAR_SP :: r) n = Some (n + length w)%nat.
Proof.
  intros F. revert n. induction F as [|c w E _ IH]; intros n; [cbn; f_equal; lia|]. cbn [app find_ws length]. rewrite E, IH. f_equal. lia.
Qed.

Lemma not_space_not_ws c : is_space c = false -> is_ws c = false /\ c <> CHAR_LF /\ c <> CHAR_CR /\ is_cr c = false /\ is_lf c = false.
Proof.
  unfold is_space, one_of, is_ws, is_cr, is_lf. cbn [existsb]. rewrite !(Z.eqb_sym c). intros E. repeat (apply orb_false_iff in E as [? E]).
  split_and!; try done; try (by apply orb_false_iff; split); apply Z.eqb_neq; by rewrite Z.eqb_sym.
Qed.

(** A method without white space; a URL on one line that does not end in white space
    or begin with it; a version that is printed with two digits. *)
Record line_ok (m u : list Z) (a b : Z) : Prop := {
  ok_method : m <> [] /\ Forall (fun c => is_space c = false) m;
  ok_url_line : Forall (fun c => c <> CHAR_LF) u;
  ok_url_first : u <> [] /\ is_ws (cur u) = false;
  ok_url_last : last_not is_wslfcr u;
  ok_major : 0 <= a <= 9;
  ok_minor : 0 <= b <= 9
}.

Lemma get_method m r : Forall (fun c => is_space c = false) m -> take 3 (m ++ CHAR_SP :: r) = chars "GET" -> is_space (nth 3 (m ++ CHAR_SP :: r) 0) = true -> m = chars "GET".
Proof.
  intros F. change (chars "GET") with [71; 69; 84]. unfold CHAR_SP.
  do 3 (destruct m as [|? m]; [by destruct r as [|? [|? ?]]|apply Forall_cons in F as [? F]]). cbn. intros [= -> -> ->].
  destruct m as [|d ?]; [done|]. apply Forall_cons in F as [F _]. cbn in *. congruence.
Qed.

Section line.
Variables (m u : list Z) (a b : Z).
Hypothesis OK : line_ok m u a b.

Let prefix : list Z := m ++ CHAR_SP :: u ++ [CHAR_SP].
Let line : list Z := prefix ++ version_text a b ++ crlf.

Lemma line_version : request_version line = Some (length prefix, length prefix + 8)%nat.
Proof.
  destruct (digit_char b (ok_minor _ _ _ _ OK)) as (_ & Sb & _). unfold request_version, line.
  replace (prefix ++ version_text a b ++ crlf) with (((prefix ++ version_text a b) ++ [CHAR_CR]) ++ [CHAR_LF]) by (by rewrite <- !app_assoc).
  rewrite drop_last_app, Z.eqb_refl. cbn [from_option id]. rewrite drop_last_app, Z.eqb_refl. cbn [from_option id].
  rewrite strip_end_id. 2: { intros c. rewrite last_app. intros [= <-]. by apply not_space_not_ws. }
  rewrite rev_app_distr, version_found by apply OK. cbn [mbind option_bind]. by rewrite length_rev, length_app.
Qed.

Lemma line_text : text_line line.
Proof.
  destruct (ok_method _ _ _ _ OK) as [Nm Fm]. assert (M : exists c m', m = c :: m') by (destruct m; [done|by eexists _, _]). destruct M as (c & m' & Em).
  pose proof Fm as F'. rewrite Em in F'. apply Forall_cons in F' as [Hc _]. destruct (not_space_not_ws c Hc) as (_ & _ & _ & Cc & Lc).
  exists (prefix ++ version_text a b ++ [CHAR_CR]), c, (m' ++ (CHAR_SP :: u ++ [CHAR_SP]) ++ version_text a b ++ [CHAR_CR]). split_and!; try done.
  - unfold line. by rewrite <- !app_assoc.
  - unfold prefix. rewrite Em. by rewrite <- app_assoc.
  - unfold prefix. rewrite !Forall_app. split_and!; [eapply Forall_impl; [exact Fm|]; intros d Hd; by apply not_space_not_ws| | |by repeat constructor].
    + constructor; [done|]. apply Forall_app. split; [apply OK|by repeat constructor].
    + pose proof (ok_major _ _ _ _ OK). pose proof (ok_minor _ _ _ _ OK). repeat (constructor; [unfold CHAR_LF, ch; cbn; lia|]). constructor.
Qed.

Lemma url_end_found : length (strip_end is_wslfcr prefix) = (length m + 1 + length u)%nat.
Proof.
  unfold prefix. replace (m ++ CHAR_SP :: u ++ [CHAR_SP]) with ((m ++ CHAR_SP :: u) ++ [CHAR_SP]) by (by rewrite <- app_assoc).
  rewrite strip_end_app by (by repeat constructor). rewrite strip_end_id; [rewrite length_app; cbn [length]; lia|].
  intros d. rewrite last_app. destruct (ok_url_first _ _ _ _ OK) as [Nu _]. destruct u as [|e u'] eqn:U; [done|]. change (last (CHAR_SP :: e :: u')) with (last (e :: u')).
  destruct (last (e :: u')) eqn:L; [|by apply last_None in L]. intros [= <-]. apply (ok_url_last _ _ _ _ OK). exact L.
Qed.

Lemma line_parsed : parse_request_line line = RequestLine 0 (length m) (S (length m)) (length m + 1 + length u) (Some (length prefix, length prefix + 8)%nat).
Proof.
  destruct (ok_method _ _ _ _ OK) as [Nm Fm]. destruct (ok_url_first _ _ _ _ OK) as [Nu Wu]. pose proof line_version as V. pose proof url_end_found as UE.
  assert (E : line = m ++ CHAR_SP :: u ++ CHAR_SP :: version_text a b ++ crlf) by (unfold line, prefix; rewrite <- !app_assoc; cbn [app]; by rewrite <- !app_assoc).
  assert (E2 : take (length prefix) line = prefix) by (unfold line; apply take_app_length).
  revert V E E2. generalize line. intros L V E E2. assert (M : exists c m', m = c :: m') by (destruct m; [done|by eexists _, _]). destruct M as (c & m' & Em).
  pose proof Fm as F'. rewrite Em in F'. apply Forall_cons in F' as [Hc F']. destruct (not_space_not_ws c Hc) as (Wc & _ & _ & Cc & Lc).
  assert (CL : cur L = c) by (by rewrite E, Em). unfold parse_request_line. rewrite CL, Cc, Lc. unfold parse_method1.
  assert (D0 : skip_ws (drop 0 L) 0 = Some 0%nat) by (rewrite E, Em; cbn [drop app skip_ws]; by rewrite Wc). rewrite D0.
  assert (D1 : find_ws (drop 1 L) 1 = Some (length m)).
  { rewrite E, Em. cbn [drop app]. rewrite drop_0, find_ws_app by (eapply Forall_impl; [exact F'|]; intros d Hd; by apply not_space_not_ws). done. }
  rewrite D1. unfold parse_version_url. rewrite V, E2, UE. f_equal. replace (S (length m)) with (length m + 1)%nat by lia. rewrite E at 2. rewrite drop_app_add. cbn [drop].
  rewrite drop_0, drop_while_id by (destruct u; done). rewrite E, length_app. cbn [length]. lia.
Qed.

(** What the fast path takes, the slow path would have made the same. *)
Lemma line_fastpath v e : request_fastpath line = Some (v, e) -> m = chars "GET" /\ v = HTTP_VERSION a b /\ e = (length m + 1 + length u)%nat.
Proof.
  destruct (digit_char a (ok_major _ _ _ _ OK)) as (_ & _ & Da), (digit_char b (ok_minor _ _ _ _ OK)) as (_ & _ & Db).
  assert (Ln : length line = (length prefix + 10)%nat) by (unfold line; by rewrite length_app). unfold request_fastpath. rewrite Ln.
  destruct (_ && _ && _ && _ && _ && _) eqn:C; [|done]. apply andb_true_iff in C as [[[[[_ CG]%andb_true_iff _]%andb_true_iff _]%andb_true_iff [[[CS _]%andb_true_iff _]%andb_true_iff _]%andb_true_iff]%andb_true_iff _].
  assert (N : forall k, (k <= 10)%nat -> nth (length prefix + 10 - k) line 0 = nth (10 - k) (version_text a b ++ crlf) 0).
  { intros k Hk. unfold line. replace (length prefix + 10 - k)%nat with (length prefix + (10 - k))%nat by lia. apply app_nth2_plus. }
  intros [= <- <-]. rewrite !N by lia. cbn [Nat.sub version_text chars app nth]. split.
  - assert (E : line = m ++ CHAR_SP :: u ++ CHAR_SP :: version_text a b ++ crlf) by (unfold line, prefix; rewrite <- !app_assoc; cbn [app]; by rewrite <- !app_assoc).
    apply (get_method m (u ++ CHAR_SP :: version_text a b ++ crlf)); rewrite <- ?E; [apply OK| |done].
    rewrite xor_match_take in CG by (rewrite Ln; cbn; lia). by apply bool_decide_eq_true in CG.
  - split; [change (HTTP_VERSION (ch "0" + a - ch "0") (ch "0" + b - ch "0") = HTTP_VERSION a b); by rewrite Da, Db|]. unfold prefix. rewrite length_app. cbn [length]. rewrite length_app. cbn. lia.
Qed.
End line.

(** ** The round trip *)

Section roundtrip.
Context `{TokenDFA}.
Notation table := common_table.

(** The URL as the parser leaves it; [cap] is the memory of the host. *)
Definition reparsed_url (u : URLImpl) (cap : Z) : URLImpl := mkURL (strs u) cap (m_scheme_wks_idx u) (m_port u) (m_url_type u) (m_type_code u) None 0 true.

(** The method and a URL that is read back. *)
Lemma req_line_ok copy eof memory us ue m u v parser raw hh : url_wf u -> short m -> m_u hh = Req (Some url_create) None (-1) -> (us < ue)%nat ->
  sub memory us ue = url_text table u -> v <> HTTP_VERSION 0 9 -> exists cap,
  parse_req_line table copy eof memory m (find_token m) us ue v parser raw hh =
    parse_fields table eof (mkHTTPParser false (m_mime_parser parser)) raw (http_hdr_version_set v (set_u (Req (Some (reparsed_url u cap)) (Some m) (find_token m)) hh)).
Proof.
  intros W Sm U Lt E V. destruct (url_roundtrip_ok u copy W) as (cap & n & P). exists cap. unfold parse_req_line, http_hdr_method_set. rewrite U, str_set_short by done.
  cbn [mbind option_bind set_u m_u]. unfold url_parse_range. rewrite (proj2 (Nat.ltb_lt _ _) Lt), E, P. cbn [mbind option_bind is_error]. by rewrite (proj2 (Z.eqb_neq _ _) V).
Qed.

Lemma request_line_text m u a b w mh : line_ok m (url_text table u) a b ->
  first_line table (mkHTTP HTTP_TYPE_REQUEST (HTTP_VERSION a b) (Req (Some u) (Some m) w) mh) = (m ++ CHAR_SP :: url_text table u ++ [CHAR_SP]) ++ version_text a b ++ crlf.
Proof.
  intros OK. unfold first_line. cbn [m_u m_version from_option id]. rewrite version_printed by apply OK. rewrite <- !app_assoc. cbn [app]. by rewrite <- !app_assoc.
Qed.

Lemma url_text_first u : url_wf u -> url_text table u <> [] /\ is_ws (cur (url_text table u)) = false.
Proof.
  intros W. destruct (wf_scheme u W) as (v & Ev & _ & S & _), (wf_host u W) as (host & Eh & _). rewrite (url_text_parts u v host W Ev Eh).
  destruct (scheme_letters v S) as (N & _ & A). destruct v as [|c v]; [done|]. apply Forall_cons in A as [A _]. split; [done|]. cbn [app cur].
  destruct (is_ws c) eqn:E; [|done]. apply orb_true_iff in E as [->%Z.eqb_eq| ->%Z.eqb_eq]; done.
Qed.

(** What a request needs to be read back: a method without white space, a URL the
    parser reads back, on one line and without white space at its end, a version of
    two digits other than 0.9, and fields that are read back. *)
Record request_ok (m : list Z) (u : URLImpl) (a b : Z) (mh : MIMEHdrImpl) : Prop := {
  req_method : m <> [] /\ short m /\ Forall (fun c => is_space c = false) m;
  req_url : url_wf u /\ Forall (fun c => c <> CHAR_LF) (url_text table u) /\ last_not is_wslfcr (url_text table u);
  req_version : 0 <= a <= 9 /\ 0 <= b <= 9 /\ HTTP_VERSION a b <> HTTP_VERSION 0 9;
  req_fields : hdr_rep mh /\ Forall (fun f => is_live f = true -> wire_ok f) (slots mh) /\ text_ok [] (hdr_text (slots mh))
}.

Lemma request_line_ok m u a b mh : request_ok m u a b mh -> line_ok m (url_text table u) a b.
Proof. intros [[? []] (W & ? & ?) (? & ? & _) _]. split; try done. by apply url_text_first. Qed.

Lemma fields_parse p mh hh : fresh (m_scanner (m_mime_parser p)) -> m_fields_impl hh = mime_hdr_init -> Forall (fun f => is_live f = true -> wire_ok f) (slots mh) ->
  text_ok [] (hdr_text (slots mh)) -> exists parser mh', parse_fields table false p (hdr_text (slots mh)) hh = Some (PARSE_DONE, [], parser, set_fields mh' hh) /\
    hdr_rep mh' /\ contents mh' = shown (contents mh).
Proof.
  intros (S1 & S2 & S3) E W T. unfold parse_fields. rewrite E. destruct (text_parses_from (m_mime_parser p) (slots mh) S1 S2 S3 W T) as (q & mh' & -> & R & C).
  eexists _, mh'. split; [done|]. by split.
Qed.

(** What the parser reads back. *)
Definition request_read (m : list Z) (u : URLImpl) (a b : Z) (mh : MIMEHdrImpl) (hdr' : HTTPHdrImpl) : Prop :=
  m_polarity hdr' = HTTP_TYPE_REQUEST /\ m_version hdr' = HTTP_VERSION a b /\ (exists cap, m_u hdr' = Req (Some (reparsed_url u cap)) (Some m) (find_token m)) /\
  hdr_rep (m_fields_impl hdr') /\ contents (m_fields_impl hdr') = shown (contents mh).

Lemma request_line_parses copy m u a b mh p line memory : request_ok m u a b mh -> fresh (m_scanner (m_mime_parser p)) ->
  line = (m ++ CHAR_SP :: url_text table u ++ [CHAR_SP]) ++ version_text a b ++ crlf -> (exists r, memory = line ++ r) ->
  exists parser hdr', parse_req_line table copy false memory m (find_token m) (S (length m)) (length m + 1 + length (url_text table u)) (HTTP_VERSION a b) p
      (hdr_text (slots mh)) (http_hdr_type_set HTTP_TYPE_REQUEST (http_hdr_init HTTP_TYPE_REQUEST)) = Some (PARSE_DONE, [], parser, hdr') /\ request_read m u a b mh hdr'.
Proof.
  intros [(Nm & Sm & Fm) (W & Nl & _) (_ & _ & V) (Rm & Wm & Tm)] Fr E (r & Er). destruct (url_text_first u W) as [Nu _].
  assert (Sb : sub memory (S (length m)) (length m + 1 + length (url_text table u)) = url_text table u).
  { rewrite Er, E. eapply (sub_at _ _ (CHAR_SP :: version_text a b ++ crlf ++ r)); [|lia]. rewrite <- !app_assoc. replace (S (length m)) with (length m + 1)%nat by lia.
    rewrite drop_app_add. cbn [drop app]. by rewrite drop_0, <- !app_assoc. }
  assert (Lt : (S (length m) < length m + 1 + length (url_text table u))%nat) by (destruct (url_text table u); [done|cbn [length]; lia]).
  destruct (req_line_ok copy false memory _ _ m u (HTTP_VERSION a b) p (hdr_text (slots mh)) (http_hdr_type_set HTTP_TYPE_REQUEST (http_hdr_init HTTP_TYPE_REQUEST))
    W Sm eq_refl Lt Sb V) as (cap & ->).
  set (hh := http_hdr_version_set _ _). destruct (fields_parse (mkHTTPParser false (m_mime_parser p)) mh hh Fr eq_refl Wm Tm) as (q & mh' & -> & R & C).
  eexists _, _. split; [done|]. split_and!; try done. by exists cap.
Qed.

Lemma request_parses copy w m u a b mh : request_ok m u a b mh -> let hdr := mkHTTP HTTP_TYPE_REQUEST (HTTP_VERSION a b) (Req (Some u) (Some m) w) mh in
  Z.of_nat (length (http_text table hdr)) <= MAX_LINE ->
  exists parser hdr', http_parser_parse_req table http_parser_init copy false (http_text table hdr) (http_hdr_init HTTP_TYPE_REQUEST) = Some (PARSE_DONE, [], parser, hdr') /\
    request_read m u a b mh hdr'.
Proof.
  intros R hdr B. pose proof (request_line_ok _ _ _ _ _ R) as OK. pose proof (request_line_text m u a b w mh OK) as T.
  unfold http_text in *. fold hdr in T. rewrite T in *. cbn [m_fields_impl hdr] in *. clear T hdr. set (line := _ ++ version_text a b ++ crlf) in *.
  destruct (scan_first_line mime_scanner_init line (hdr_text (slots mh)) init_fresh (line_text _ _ _ _ OK) B) as (S1 & G & R1 & R2 & R3 & Fr).
  assert (Fin := fun copy memory => request_line_parses copy m u a b mh (set_scanner (scanner S1) http_parser_init) line memory R Fr eq_refl).
  assert (Mem : exists r, (if output_shares_raw_input S1 then line ++ hdr_text (slots mh) else line) = line ++ r) by (case_match; [by eexists|by exists []; rewrite app_nil_r]).
  unfold http_parser_parse_req. cbn [http_parser_init m_parsing_http m_mime_parser m_scanner mime_parser_init parse_req_go]. rewrite G. cbn [mbind option_bind]. rewrite R1, R2, R3.
  assert (Tk : forall m, hdrtoken_tokenize table None m = find_token m) by (intros m0; by destruct (tokenize_hash_agrees m0) as (_ & -> & _)).
  destruct (request_fastpath line) as [[v e]|] eqn:FP.
  - destruct (line_fastpath _ _ _ _ OK v e FP) as (Em & -> & ->). rewrite Tk. replace (take 3 line) with m by (unfold line; by rewrite Em).
    change 4%nat with (S (length (chars "GET"))). rewrite <- Em. by apply Fin.
  - pose proof (line_parsed _ _ _ _ OK) as LP. fold line in LP. rewrite LP. cbv beta iota.
    assert (sub line 0 (length m) = m) as -> by (eapply sub_at; [rewrite drop_0; unfold line; rewrite <- !app_assoc; done|done]).
    rewrite Tk. rewrite (sub_at line (version_text a b) crlf) by (unfold line; by rewrite ?drop_app_length). rewrite version_parsed by apply OK. by apply Fin.
Qed.

(** C14: The round trip of requests.  A request with a method without white space, a
    URL that is read back, a version of two digits other than 0.9 (which has no fields) and fields that are read back
    prints into a buffer that is big enough, and the parser makes of the text the same
    method (looked up among the well-known ones), the same URL, the same version and the
    fields in their order, but for the names that begin with an @; and nothing of the
    input is left. *)
Theorem request_roundtrip copy w m u a b mh len : request_ok m u a b mh -> let hdr := mkHTTP HTTP_TYPE_REQUEST (HTTP_VERSION a b) (Req (Some u) (Some m) w) mh in
  (length (http_text table hdr) <= len)%nat -> Z.of_nat len <= MAX_LINE ->
  exists n parser hdr', http_hdr_print table hdr (Z.of_nat len) (mkPrint 0 0 []) = Some (true, mkPrint n 0 (http_text table hdr)) /\
    http_parser_parse_req table http_parser_init copy false (http_text table hdr) (http_hdr_init HTTP_TYPE_REQUEST) = Some (PARSE_DONE, [], parser, hdr') /\
    request_read m u a b mh hdr'.
Proof.
  intros R hdr L B. destruct (request_parses copy w m u a b mh R) as (parser & hdr' & P & RR); [fold hdr; lia|].
  destruct (req_fields _ _ _ _ _ R) as (Rm & Wm & _). destruct (http_print_whole table hdr len) as [n Pr]; [done|done| |done|].
  { eapply Forall_impl; [exact Wm|]. intros f Wf Lf. by apply Wf. }
  by exists n, parser, hdr'.
Qed.
End roundtrip.
