(* ===== verification/HTTPResponse.v ===== *)
(** Responses: the round trip of the status line and the fields through the printer
    and the parser. *)

From S2P Require Import Prelude ParseRules MimeDate HdrToken MimePrint URL URLFacts MimeScanner MimeHdr MimeHdrOps MimeHdrFacts MimeHdrRep MimeHdrAttach MimeCooked MimeHdrTheorems MimeParser MimeParserFacts MimeRoundtrip HTTP HTTPFacts HTTPRequest.
From Stdlib Require Import Ascii.

#[local] Opaque find_token.

(** ** The status line *)

Definition status_text (s : Z) : list Z := [ch "0" + s / 100; ch "0" + s / 10 mod 10; ch "0" + s mod 10].

Lemma status_cases (P : Z -> Prop) : Forall P (seqZ 100 900) -> forall s, 100 <= s <= 999 -> P s.
Proof. rewrite Forall_forall. intros F s Hs. apply F. apply elem_of_seqZ. lia. Qed.

(** A status of three digits. *)
Lemma status_printed s : 100 <= s <= 999 -> udec 20 s [] = status_text s /\ forallb is_digit (status_text s) = true.
Proof.
  revert s. apply status_cases. assert (E : forallb (fun s => bool_decide (udec 20 s [] = status_text s) && forallb is_digit (status_text s)) (seqZ 100 900) = true) by (by vm_compute).
  apply Forall_forall. intros s I. rewrite forallb_forall in E. apply list_elem_of_In in I. apply E in I. apply andb_true_iff in I as [I ?]. by apply bool_decide_eq_true in I.
Qed.

Lemma status_parsed s l : 100 <= s <= 999 -> next_digits (status_text s ++ CHAR_SP :: l) = CHAR_SP :: l /\ drop_while is_ws (status_text s ++ CHAR_SP :: l) = status_text s ++ CHAR_SP :: l /\
  http_parse_status (status_text s) = s.
Proof.
  intros Hs. destruct (status_printed s Hs) as [_ D]. unfold status_text in *. cbn [forallb] in D.
  apply andb_true_iff in D as [D3 D]. apply andb_true_iff in D as [D4 D]. apply andb_true_iff in D as [D5 _]. split_and!.
  - cbn [app next_digits]. by rewrite D3, D4, D5.
  - apply drop_while_id. cbn [app cur]. apply andb_true_iff in D3 as [D3 _]. apply Z.leb_le in D3. unfold is_ws, CHAR_SP, CHAR_HT. by rewrite !(proj2 (Z.eqb_neq _ _)) by lia.
  - revert s Hs D3 D4 D5. apply (status_cases (fun s => _ -> _ -> _ -> http_parse_status (status_text s) = s)).
    assert (E : forallb (fun s => http_parse_status (status_text s) =? s) (seqZ 100 900) = true) by (by vm_compute).
    apply Forall_forall. intros s I _ _ _. rewrite forallb_forall in E. apply list_elem_of_In in I. by apply E, Z.eqb_eq in I.
Qed.

Lemma version_skipped x l a b : 0 <= a <= 9 -> 0 <= b <= 9 -> response_version (version_text a b ++ CHAR_SP :: x :: l) = Some (CHAR_SP :: x :: l).
Proof. revert a b. apply (version_cases (fun a b => response_version (version_text a b ++ CHAR_SP :: x :: l) = Some (CHAR_SP :: x :: l))). repeat constructor. Qed.

Lemma status_value s : (ch "0" + s / 100 - ch "0") * 100 + (ch "0" + s / 10 mod 10 - ch "0") * 10 + (ch "0" + s mod 10 - ch "0") = s.
Proof. pose proof (Z.div_mod s 10). pose proof (Z.div_mod (s / 10) 10). rewrite Z.div_div in * by lia. change (10 * 10) with 100 in *. lia. Qed.

(** The reason: nothing, or text on one line without white space around it. *)
Definition reason_ok (r : list Z) : Prop :=
  r = [] \/ (is_space (cur r) = false /\ last_not is_space r /\ Forall (fun c => c <> CHAR_LF) r).

Definition status_line (a b s : Z) (r : list Z) : list Z := version_text a b ++ CHAR_SP :: status_text s ++ CHAR_SP :: r ++ crlf.

Lemma strip_reason r : r <> [] -> reason_ok r -> take 1 (r ++ [CHAR_CR]) ++ strip_end is_space (drop 1 (r ++ [CHAR_CR])) = r.
Proof.
  intros N [->|(F & L & _)]; [done|]. destruct r as [|c r]; [done|]. cbn [app take drop]. rewrite drop_0. cbn [app]. f_equal.
  rewrite strip_end_app by (by repeat constructor). apply strip_end_id. intros d Hd. apply L. destruct r; [done|]. exact Hd.
Qed.

Section line.
Variables (a b s : Z) (r : list Z).
Hypothesis Ha : 0 <= a <= 9.
Hypothesis Hb : 0 <= b <= 9.
Hypothesis Hs : 100 <= s <= 999.
Hypothesis Hr : reason_ok r.

Lemma response_fast : r <> [] -> response_fastpath (status_line a b s r) = Some (StatusLine (HTTP_VERSION a b) (Some s) (Some r)).
Proof.
  intros N. destruct (digit_char a Ha) as (D1 & _ & E1), (digit_char b Hb) as (D2 & _ & E2). destruct (status_printed s Hs) as [_ D]. unfold status_text in D. cbn [forallb] in D.
  apply andb_true_iff in D as [D3 D]. apply andb_true_iff in D as [D4 D]. apply andb_true_iff in D as [D5 _].
  assert (Ln : length (status_line a b s r) = (15 + length r)%nat) by (unfold status_line; cbn; rewrite length_app; cbn; lia).
  assert (Rest : drop 13 (take (length (status_line a b s r) - 1) (status_line a b s r)) = r ++ [CHAR_CR]).
  { rewrite Ln. replace (15 + length r - 1)%nat with (13 + (length r + 1))%nat by lia. unfold status_line, crlf. cbn. rewrite take_app_add. done. }
  unfold response_fastpath. rewrite Rest, strip_reason by done. rewrite Ln. rewrite (proj2 (Nat.leb_le _ _)) by (destruct r; [done|cbn; lia]).
  assert (S13 : is_space (nth 13 (status_line a b s r) 0) = false) by (destruct Hr as [->|[F _]]; [done|by destruct r]). rewrite S13.
  set (L := status_line a b s r) in *. change (nth 5 L 0) with (ch "0" + a). change (nth 7 L 0) with (ch "0" + b).
  change (nth 9 L 0) with (ch "0" + s / 100). change (nth 10 L 0) with (ch "0" + s / 10 mod 10). change (nth 11 L 0) with (ch "0" + s mod 10).
  change (xor_match _ (chars "HTTP/. ")) with true. by rewrite D1, D2, D3, D4, D5, status_value, E1, E2.
Qed.

(** Without a reason the line is too short for the fast path. *)
Lemma response_slow : r = [] -> response_fastpath (status_line a b s r) = None /\
  parse_response_line (status_line a b s r) = StatusLine (HTTP_VERSION a b) (Some s) (Some []).
Proof.
  intros ->. split; [done|]. destruct (status_parsed s crlf Hs) as (P1 & P2 & P3). unfold parse_response_line, status_line.
  pose proof (version_skipped (ch "0" + s / 100) [ch "0" + s / 10 mod 10; ch "0" + s mod 10; CHAR_SP; CHAR_CR; CHAR_LF] a b Ha Hb) as V.
  change (response_version (version_text a b ++ CHAR_SP :: status_text s ++ CHAR_SP :: [] ++ crlf) = Some (CHAR_SP :: status_text s ++ CHAR_SP :: crlf)) in V. rewrite V.
  change (drop 1 (CHAR_SP :: status_text s ++ CHAR_SP :: crlf)) with (status_text s ++ CHAR_SP :: crlf). rewrite P2. destruct (status_text s ++ CHAR_SP :: crlf) as [|c0 l0] eqn:E0; [done|]. rewrite P1, <- E0. cbn [app]. f_equal.
  - rewrite length_app. cbn [length app]. rewrite Nat.add_sub, take_app_length. by apply version_parsed.
  - rewrite length_app, Nat.add_sub, take_app_length. by f_equal.
Qed.
End line.

(** ** The round trip *)

Section roundtrip.
Context `{TokenDFA}.
Notation table := common_table.

(** What a response needs to be read back: a version of two digits, a status of
    three, a reason on one line without white space around it, and fields that are
    read back. *)
Record response_ok (a b s : Z) (reason : option (list Z)) (mh : MIMEHdrImpl) : Prop := {
  resp_version : 0 <= a <= 9 /\ 0 <= b <= 9;
  resp_status : 100 <= s <= 999;
  resp_reason : reason_ok (default [] reason) /\ short (default [] reason);
  resp_fields : hdr_rep mh /\ Forall (fun f => is_live f = true -> wire_ok f) (slots mh) /\ text_ok [] (hdr_text (slots mh))
}.

Lemma status_line_text a b s r : 0 <= a <= 9 -> 0 <= b <= 9 -> 100 <= s <= 999 -> reason_ok r -> text_line (status_line a b s r).
Proof.
  intros Ha Hb Hs Hr. destruct (status_printed s Hs) as [_ D]. exists (version_text a b ++ CHAR_SP :: status_text s ++ CHAR_SP :: r ++ [CHAR_CR]), (ch "H"). eexists. split_and!; try done.
  - unfold status_line. repeat (rewrite <- ?app_assoc; cbn [app]). done.
  - rewrite Forall_app, Forall_cons, Forall_app, Forall_cons, Forall_app. split_and!; [|done| |done| |by repeat constructor].
    + repeat (constructor; [unfold CHAR_LF, ch; cbn; lia|]). constructor.
    + apply Forall_forall. intros c I%list_elem_of_In. rewrite forallb_forall in D. apply D in I. intros ->. by vm_compute in I.
    + by destruct Hr as [->|(_ & _ & F)].
Qed.

Lemma response_line_read a b s r : 0 <= a <= 9 -> 0 <= b <= 9 -> 100 <= s <= 999 -> reason_ok r ->
  default (parse_response_line (status_line a b s r)) (response_fastpath (status_line a b s r)) = StatusLine (HTTP_VERSION a b) (Some s) (Some r).
Proof.
  intros Ha Hb Hs Hr. destruct (decide (r = [])) as [->|N]; [|by rewrite response_fast]. by destruct (response_slow a b s [] Ha Hb Hs Hr eq_refl) as [-> ->].
Qed.

Lemma response_text_line a b s reason mh : response_ok a b s reason mh ->
  first_line table (mkHTTP HTTP_TYPE_RESPONSE (HTTP_VERSION a b) (Resp reason s) mh) = status_line a b s (default [] reason).
Proof.
  intros [[Ha Hb] Hs _ _]. unfold first_line, status_line. cbn [m_u m_version]. rewrite version_printed by done. by destruct (status_printed s Hs) as [-> _].
Qed.

(** C15: The round trip of responses.  A response with a version of two digits, a status
    of three, a reason on one line and fields that are read back prints into a buffer
    that is big enough, and the parser makes of the text the same version, status and
    fields, but for the names that begin with an @, and the same reason, where no
    reason is read as an empty one. *)
Theorem response_roundtrip copy a b s reason mh len : response_ok a b s reason mh -> let hdr := mkHTTP HTTP_TYPE_RESPONSE (HTTP_VERSION a b) (Resp reason s) mh in
  (length (http_text table hdr) <= len)%nat -> Z.of_nat len <= MAX_LINE ->
  exists n parser hdr', http_hdr_print table hdr (Z.of_nat len) (mkPrint 0 0 []) = Some (true, mkPrint n 0 (http_text table hdr)) /\
    http_parser_parse_resp table http_parser_init copy false (http_text table hdr) (http_hdr_init HTTP_TYPE_RESPONSE) = Some (PARSE_DONE, [], parser, hdr') /\
    m_polarity hdr' = HTTP_TYPE_RESPONSE /\ m_version hdr' = HTTP_VERSION a b /\ m_u hdr' = Resp (Some (default [] reason)) s /\
    hdr_rep (m_fields_impl hdr') /\ contents (m_fields_impl hdr') = shown (contents mh).
Proof.
  intros R hdr L B. pose proof (response_text_line _ _ _ _ _ R) as T. destruct R as [[Ha Hb] Hs [Hr Sr] (Rm & Wm & Tm)].
  destruct (http_print_whole table hdr len) as [n Pr]; [cbn; lia|done| |done|].
  { eapply Forall_impl; [exact Wm|]. intros f Wf Lf. by apply Wf. }
  rewrite Pr. unfold http_text in *. unfold hdr in *. rewrite T in *. cbn [m_fields_impl] in *. clear T Pr hdr.
  destruct (scan_first_line mime_scanner_init (status_line a b s (default [] reason)) (hdr_text (slots mh)) init_fresh) as (S1 & G & R1 & R2 & R3 & Fr); [by apply status_line_text|lia|].
  unfold http_parser_parse_resp. cbn [http_parser_init m_parsing_http m_mime_parser m_scanner mime_parser_init]. rewrite G. cbn [mbind option_bind]. rewrite R1, R2, R3.
  rewrite response_line_read by done. unfold http_hdr_status_set, http_hdr_reason_set. cbn [http_hdr_version_set http_hdr_type_set http_hdr_init set_u m_u mbind option_bind bool_decide].
  change (m_u (http_hdr_version_set _ _)) with (Resp None 0). cbv beta iota. cbn [mbind option_bind set_u m_u]. rewrite str_set_short by done.
  rewrite wraps_id by lia.
  set (hh := mkHTTP HTTP_TYPE_RESPONSE (HTTP_VERSION a b) (Resp (Some (default [] reason)) s) mime_hdr_init).
  destruct (fields_parse (mkHTTPParser false (m_mime_parser (set_scanner (scanner S1) http_parser_init))) mh hh Fr eq_refl Wm Tm) as (q & mh' & X & Rm' & Cm).
  exists n, q, (set_fields mh' hh). split; [done|]. split; [exact X|by split_and!].
Qed.
End roundtrip.
