(* ===== verification/HTTPCuts.v ===== *)
(** A request does not depend on how it arrives: the first line, which may come after
    empty lines, and the fields. *)

From S2P Require Import Prelude ParseRules MimeDate HdrToken MimePrint URL URLFacts MimeScanner MimeHdr MimeHdrOps MimeHdrFacts MimeHdrRep MimeHdrAttach MimeCooked MimeHdrTheorems MimeParser MimeParserFacts MimeRoundtrip HTTP HTTPFacts HTTPRequest.
From Stdlib Require Import Ascii.

#[local] Opaque find_token.

Notation unfold_req := (unfold_line MIME_SCANNER_TYPE_LINE).

(** ** Who owns the strings

    It shows in the memory of the host and nowhere else. *)

Definition set_cap (c : Z) (u : URLImpl) : URLImpl :=
  mkURL (strs u) c (m_scheme_wks_idx u) (m_port u) (m_url_type u) (m_type_code u) (m_ptr_printed_string u) (m_len_printed_string u) (URL.clean u).

(** A parser of a URL that may copy strings or not. *)
Definition cap_of (c : Z) (x : MIMEParseResult * URLImpl * nat) : MIMEParseResult * URLImpl * nat := let '(r, u, n) := x in (r, set_cap c u, n).
Definition copy_free (f : bool -> option (MIMEParseResult * URLImpl * nat)) : Prop := exists x, forall copy, exists c, f copy = Some (cap_of c x).

Lemma copy_free_bind f K : copy_free f -> (forall x, exists y, forall c, K (cap_of c x) = Some (cap_of c y)) -> copy_free (fun copy => x ← f copy; K x).
Proof. intros [x F] G. destruct (G x) as [y E]. exists y. intros copy. destruct (F copy) as [c ->]. exists c. cbn [mbind option_bind]. apply E. Qed.

Lemma host_set_cap h u : m_capacity_host u = 0 -> exists u', forall copy, exists c, url_host_set copy (Some h) u = Some (set_cap c u').
Proof.
  intros C. exists (set_host (url_called_set u) (match h with [] => match m_host (strs u) with Some _ => Some [] | None => None end | _ => mime_str_u16_set (Some h) end) 0).
  intros copy. destruct u as [s cap wks port ty code p l cl]. simpl in C. subst cap. unfold url_host_set. destruct h as [|x h]; [by exists 0|].
  destruct copy; simpl; by eexists.
Qed.

Lemma set_if_keeps {A} (f : option A -> URLImpl -> URLImpl) v u : (forall v u, m_capacity_host (f v u) = m_capacity_host u) -> m_capacity_host (set_if f v u) = m_capacity_host u.
Proof. intros E. by destruct v; simpl. Qed.

Lemma set_if_cap {A} (f : option A -> URLImpl -> URLImpl) v c u : (forall v c u, f v (set_cap c u) = set_cap c (f v u)) -> set_if f v (set_cap c u) = set_cap c (set_if f v u).
Proof. intros E. by destruct v; simpl. Qed.

Lemma set_cap_same u : set_cap (m_capacity_host u) u = u.
Proof. by destruct u. Qed.

Lemma internet_done_cap s cur p u : m_capacity_host u = 0 -> exists u', forall copy, exists c, internet_done copy s cur p u = Some (set_cap c u').
Proof.
  intros C. unfold internet_done. set (q := match host_start p with None => _ | Some _ => _ end).
  set (u2 := set_if url_password_set _ _). assert (C2 : m_capacity_host u2 = 0) by (unfold u2; rewrite !set_if_keeps by done; done).
  destruct (between s (host_start q) (host_end q) cur) as [h|].
  - destruct (host_set_cap h u2 C2) as [u' E]. exists (set_if url_port_set (between s (port_start q) (port_end q) cur) u'). intros copy. destruct (E copy) as [c ->].
    exists c. cbn [mbind option_bind]. by rewrite set_if_cap by done.
  - exists (set_if url_port_set (between s (port_start q) (port_end q) cur) u2). intros _. exists 0. cbn [mbind option_bind]. do 2 f_equal.
    rewrite <- set_if_cap by done. by rewrite <- C2, set_cap_same.
Qed.

Lemma internet_cap s start u : (start < length s)%nat -> m_capacity_host u = 0 -> copy_free (fun copy => url_parse_internet copy s start u).
Proof.
  intros L C. unfold copy_free, url_parse_internet. rewrite (proj2 (Nat.leb_gt _ _)) by done. destruct (skip_slashes s start) as [cur|].
  - destruct (parse_user1 s cur) as [cur' p]. destruct (internet_done_cap s cur' p u C) as [u' E]. exists (PARSE_DONE, u', cur'). intros copy. destruct (E copy) as [c ->]. by exists c.
  - exists (PARSE_ERROR, u, start). intros _. exists 0. cbn [cap_of]. by rewrite <- C, set_cap_same.
Qed.

Lemma http_cap s start u : (start < length s)%nat -> m_capacity_host u = 0 -> copy_free (fun copy => url_parse_http copy s start u).
Proof.
  intros L C. apply copy_free_bind; [by apply internet_cap|]. intros [[r u1] n].
  assert (D : forall ps cur p c, http_done s ps cur p (set_cap c u1) = set_cap c (http_done s ps cur p u1)) by (intros; unfold http_done; by rewrite !set_if_cap by done).
  cbn [cap_of]. destruct (is_error r); [by exists (r, u1, n)|]. destruct (n =? length s)%nat; [|destruct (parse_path2 _ _ _) as [cur p]];
    (eexists (_, _, _); intros c; rewrite D; done).
Qed.

Lemma ftp_cap s start u : (start < length s)%nat -> m_capacity_host u = 0 -> copy_free (fun copy => url_parse_ftp copy s start u).
Proof.
  intros L C. apply copy_free_bind; [by apply internet_cap|]. intros [[r u1] n].
  assert (D : forall ps pe t cur c, ftp_done s ps pe t cur (set_cap c u1) = cap_of c (ftp_done s ps pe t cur u1)).
  { intros. unfold ftp_done. rewrite set_if_cap by done. by destruct (t =? 0). }
  cbn [cap_of]. destruct (is_error r); [by exists (r, u1, n)|]. destruct (n =? length s)%nat; [by eexists; intros c; rewrite D|].
  destruct (find_char _ _ _) as [semi|]; [|by eexists; intros c; rewrite D]. destruct (drop (S semi) s); [by eexists; intros c; rewrite D|].
  destruct (_ && _); [by eexists; intros c; rewrite D|by exists (PARSE_ERROR, u1, n)].
Qed.

Lemma skip_ws_at l n cur : skip_ws l n = Some cur -> (n <= cur < n + length l)%nat.
Proof. revert n. induction l as [|c l IH]; intros n; simpl; [done|]. destruct (is_ws c); [intros E%IH; lia|intros [= <-]; lia]. Qed.

Lemma parse_scheme_at `{TokenDFA} hash_table s cur e wks : (cur < length s)%nat -> parse_scheme hash_table s cur = Some (e, wks) -> (e < length s)%nat.
Proof.
  intros L. unfold parse_scheme. destruct (_ && _) eqn:F.
  - intros [= <- <-]. apply andb_true_iff in F as [F%Nat.leb_le _]. lia.
  - destruct (find_char _ _ _) as [x|] eqn:E; [|done]. apply find_char_at in E. rewrite length_drop in E. destruct (_ || _); [done|]. intros [= <- <-]. lia.
Qed.

Lemma url_parse_cap `{TokenDFA} hash_table s : s <> [] -> copy_free (fun copy => url_parse hash_table copy s 0 url_create).
Proof.
  intros N. unfold url_parse, url_parse_with. assert (L : (0 < length s)%nat) by (destruct s; [done|simpl; lia]). rewrite (proj2 (Nat.leb_gt _ _)) by done. rewrite drop_0.
  destruct (skip_ws s 0) as [cur|] eqn:W; [|exists (PARSE_ERROR, url_create, 0%nat); intros _; by exists 0].
  assert (Lc : (cur < length s)%nat) by (apply skip_ws_at in W; lia).
  destruct (parse_scheme hash_table s cur) as [[e wks]|] eqn:P; [|by apply http_cap]. assert (Le : (e < length s)%nat) by (by apply parse_scheme_at in P).
  destruct (wks =? scheme_wks hash_table "ftp"); [by apply ftp_cap|by apply http_cap].
Qed.

(** ** The first line of a text *)

(** The states a line without continuations goes through. *)
Definition line_state (st : MIMEScannerState) : Prop := st = START \/ st = CHAR_2 \/ st = FOR_LF.

Lemma unfold_req_step st line s : line_state st ->
  match unfold_req st line s with
  | inl (_, r) => (length r < length s)%nat /\ exists x, s = x ++ r
  | inr (st', line') => line_state st' /\ (length line' <= length line + length s)%nat
  end.
Proof.
  revert st line. induction s as [|c s IH]; intros st line L; [split; [done|lia]|].
  assert (G : forall st' l', line_state st' -> (length l' <= S (length line))%nat -> match unfold_req st' l' s with
    | inl (_, r) => (length r < length (c :: s))%nat /\ exists x, c :: s = x ++ r
    | inr (st'', line') => line_state st'' /\ (length line' <= length line + length (c :: s))%nat end).
  { intros st' l' L' Ll. specialize (IH st' l' L'). destruct (unfold_req st' l' s) as [[l r]|[st'' line']]; cbn [length].
    - destruct IH as [? [x ->]]. split; [lia|by exists (c :: x)].
    - destruct IH. split; [done|lia]. }
  assert (A : (length (line ++ [c]) <= S (length line))%nat) by (rewrite length_app; simpl; lia).
  assert (E : (length s < length (c :: s))%nat /\ exists x, c :: s = x ++ s) by (split; [simpl; lia|by exists [c]]).
  unfold line_state in *. cbn [unfold_line]. rewrite bool_decide_true by done.
  destruct L as [->|[->| ->]]; repeat (match goal with |- context [if ?b then _ else _] => destruct b end); try done; apply G; auto.
Qed.

(** A line that is passed over. *)
Definition blank (l : list Z) : Prop := request_fastpath l = None /\ parse_request_line l = BlankLine.

(** From the state [st] with [line] collected, the text [s] has the first line [l] and
    goes on with [r], or it ends. *)
Inductive first : MIMEScannerState -> list Z -> list Z -> (list Z * list Z) + (MIMEScannerState * list Z) -> Prop :=
  | first_more st line s o : unfold_req st line s = inr o -> first st line s (inr o)
  | first_line_found st line s l r : unfold_req st line s = inl (l, r) -> ~ blank l -> first st line s (inl (l, r))
  | first_blank st line s l r o : unfold_req st line s = inl (l, r) -> blank l -> first START [] r o -> first st line s o.

Lemma first_det st line s o o' : first st line s o -> first st line s o' -> o = o'.
Proof.
  intros F. revert o'. induction F as [st line s o E|st line s l r E B|st line s l r o E B F IH]; intros o' F'; inversion F'; subst; rewrite E in *; simplify_eq; try done. by apply IH.
Qed.

Lemma first_not_blank st line s l r : first st line s (inl (l, r)) -> ~ blank l.
Proof. intros F. remember (inl (l, r)) as o eqn:Eo. induction F as [st line s o1 E|st line s l1 r1 E B|st line s l1 r1 o1 E B F IH]; simplify_eq; [done|by apply IH]. Qed.

Lemma first_app_more st line p o q o' : first st line p (inr o) -> first o.1 o.2 q o' -> first st line (p ++ q) o'.
Proof.
  intros F. remember (inr o) as m eqn:Em. induction F as [st line s o1 E|st line s l r E B|st line s l r o1 E B F IH]; intros Q; try done.
  - injection Em as ->. destruct o as [st1 l1]. cbn [fst snd] in Q.
    inversion Q; subst; [apply first_more|apply first_line_found|eapply first_blank]; try done; by rewrite unfold_app, E.
  - eapply first_blank; [by rewrite unfold_app, E|done|by apply IH].
Qed.

Lemma first_app_line st line p l r q : first st line p (inl (l, r)) -> first st line (p ++ q) (inl (l, r ++ q)).
Proof.
  intros F. remember (inl (l, r)) as m eqn:Em. induction F as [st line s o1 E|st line s l1 r1 E B|st line s l1 r1 o1 E B F IH]; try done.
  - injection Em as -> ->. apply first_line_found; [by rewrite unfold_app, E|done].
  - eapply first_blank; [by rewrite unfold_app, E|done|by apply IH].
Qed.

Lemma first_takes st line s o : first st line s o -> line_state st ->
  match o with inl (_, r) => (length r < length s)%nat /\ exists x, s = x ++ r | inr (st', line') => line_state st' /\ (length line' <= length line + length s)%nat end.
Proof.
  induction 1 as [st line s [st1 l1] E|st line s l r E B|st line s l r o E B F IH]; intros L; pose proof (unfold_req_step st line s L) as U; rewrite E in U; try done.
  destruct U as [U1 [x ->]]. specialize (IH (or_introl eq_refl)). rewrite length_app in *. destruct o as [[l1 r1]|[st1 l1]].
  - destruct IH as [? [y ->]]. split; [lia|]. exists (x ++ y). by rewrite app_assoc.
  - destruct IH. split; [done|]. cbn [length] in *. lia.
Qed.

(** ** One call on the first line *)

Section calls.
Context `{TokenDFA}.
Notation table := common_table.
Notation hh0 := (http_hdr_init HTTP_TYPE_REQUEST).
Notation scan p := (m_scanner (m_mime_parser p)).

(** What is done with the first line. *)
Definition line_done (copy eof : bool) (memory line : list Z) (parser : HTTPParser) (raw : list Z) (hh : HTTPHdrImpl) : option (MIMEParseResult * list Z * HTTPParser * HTTPHdrImpl) :=
  match request_fastpath line with
  | Some (version, url_end) => parse_req_line table copy eof memory (take 3 line) (hdrtoken_tokenize table None (chars "GET")) 4 url_end version parser raw hh
  | None =>
    match parse_request_line line with
    | RequestLine ms me us ue version =>
      parse_req_line table copy eof memory (sub line ms me) (hdrtoken_tokenize table None (sub line ms me)) us ue
        (match version with Some (a, b) => http_parse_version (sub line a b) | None => HTTP_VERSION 0 9 end) parser raw hh
    | _ => Some (PARSE_ERROR, raw, parser, hh)
    end
  end.

Lemma blank_dec l : {blank l} + {~ blank l}.
Proof.
  unfold blank. destruct (request_fastpath l); [by right; intros [? _]|]. destruct (parse_request_line l); [right|left|right]; try done; by intros [_ ?].
Qed.

Lemma go_step fuel copy parser raw R : mime_scanner_get MIME_SCANNER_TYPE_LINE false (scan parser) raw = Some R -> scan_result R = PARSE_OK ->
  exists copy' memory, (exists x, memory = output R ++ x) /\
  parse_req_go table (S fuel) copy false parser raw hh0 =
    if blank_dec (output R) then parse_req_go table fuel copy' false (set_scanner (scanner R) parser) (raw_rest R) hh0
    else line_done copy' false memory (output R) (set_scanner (scanner R) parser) (raw_rest R) hh0.
Proof.
  intros G P. exists (copy || negb (output_shares_raw_input R)), (if output_shares_raw_input R then output R ++ raw_rest R else output R). split.
  { case_match; [by eexists|]. exists []. by rewrite app_nil_r. }
  cbn [parse_req_go]. rewrite G. cbn [mbind option_bind]. rewrite P. unfold line_done. destruct (blank_dec (output R)) as [[B1 B2]|B]; [by rewrite B1, B2|].
  destruct (request_fastpath (output R)) as [[v e]|] eqn:F; [done|]. destruct (parse_request_line (output R)) eqn:L; [done| |done]. by destruct B.
Qed.

(** The outcome of a call. *)
Definition first_called (o : (list Z * list Z) + (MIMEScannerState * list Z)) (parser : HTTPParser) (x : option (MIMEParseResult * list Z * HTTPParser * HTTPHdrImpl)) : Prop :=
  match o with
  | inl (l, r) => exists copy memory parser1, x = line_done copy false memory l parser1 r hh0 /\ fresh (scan parser1) /\ exists y, memory = l ++ y
  | inr (st, line) => exists parser1, x = Some (PARSE_CONT, [], parser1, hh0) /\ scanner_ok (scan parser1) /\ m_state (scan parser1) = st /\ m_line (scan parser1) = line /\
      m_parsing_http parser1 = m_parsing_http parser
  end.

Lemma go_ok fuel copy parser raw : scanner_ok (scan parser) -> line_state (m_state (scan parser)) -> Z.of_nat (length (m_line (scan parser)) + length raw) <= MAX_LINE -> (length raw < fuel)%nat ->
  exists o, first (m_state (scan parser)) (m_line (scan parser)) raw o /\ first_called o parser (parse_req_go table fuel copy false parser raw hh0).
Proof.
  revert copy parser raw. induction fuel as [|fuel IH]; intros copy parser raw HS L B F; [lia|].
  assert (NC : at_continuation (m_state (scan parser)) raw = false) by (destruct L as [->|[->| ->]]; done).
  destruct (scanner_get_ok MIME_SCANNER_TYPE_LINE false (scan parser) raw HS) as (R & G & H1 & O); [done|by destruct L as [->|[->| ->]]|]. rewrite NC in O.
  pose proof (unfold_req_step (m_state (scan parser)) (m_line (scan parser)) raw L) as U. destruct (unfold_req (m_state (scan parser)) (m_line (scan parser)) raw) as [[l r]|[st line]] eqn:E.
  - destruct O as (O1 & O2 & O3 & O4 & O5). destruct U as [U [x X]]. destruct (go_step fuel copy parser raw R G O1) as (copy' & memory & [y M] & ->). rewrite O3, O2 in *.
    destruct (blank_dec l) as [Bl|Bl].
    + edestruct (IH copy' (set_scanner (scanner R) parser) r) as (o & Fo & C); cbn [set_scanner m_mime_parser m_scanner] in *; rewrite ?O4, ?O5 in *; [done|by left|rewrite X, length_app in B; cbn [length]; lia|lia|].
      exists o. split; [by eapply first_blank|]. destruct o as [[? ?]|[? ?]]; exact C.
    + exists (inl (l, r)). split; [by apply first_line_found|]. exists copy', memory, (set_scanner (scanner R) parser). split; [done|]. split; [by split_and!|by exists y].
  - cbn [andb outcome] in O. destruct O as (O1 & O2 & O3 & O4 & O5). exists (inr (st, line)). split; [by apply first_more|]. exists (set_scanner (scanner R) parser).
    cbn [parse_req_go]. rewrite G. cbn [mbind option_bind]. rewrite O1, O2. by split_and!.
Qed.

(** ** What the first line makes of the header *)

(** The line has a URL: there is something between the method and the version. *)
Definition names_url (l : list Z) : Prop :=
  request_fastpath l = None -> match parse_request_line l with RequestLine _ _ us ue _ => (us < ue)%nat | _ => True end.

(** Headers that are the same but for the memory of the host and how the fields are
    stored. *)
Definition same_line (hh hh' : HTTPHdrImpl) : Prop :=
  m_polarity hh = m_polarity hh' /\ m_version hh = m_version hh' /\
  match m_u hh, m_u hh' with
  | Req (Some u) m w, Req (Some u') m' w' => (exists c, u' = set_cap c u) /\ m = m' /\ w = w'
  | x, y => x = y
  end.

(** What the line decides: to stop with a result, or to go on with the fields. *)
Definition decides (k : option MIMEParseResult) (hh' : HTTPHdrImpl) (raw : list Z) (parser : HTTPParser) (x : option (MIMEParseResult * list Z * HTTPParser * HTTPHdrImpl)) : Prop :=
  exists parser', m_mime_parser parser' = m_mime_parser parser /\
  match k with
  | Some r => r <> PARSE_CONT /\ x = Some (r, raw, parser', hh')
  | None => m_parsing_http parser' = false /\ x = parse_fields table false parser' raw hh'
  end.

Lemma req_line_decides l us ue m w v : (us < ue)%nat -> (ue <= length l)%nat -> exists k hh1, forall copy memory parser raw, (exists x, memory = l ++ x) ->
  exists hh', same_line hh1 hh' /\ m_fields_impl hh' = mime_hdr_init /\ decides k hh' raw parser (parse_req_line table copy false memory m w us ue v parser raw hh0).
Proof.
  intros Lt Le. assert (N : sub l us ue <> []). { intros E. apply (f_equal length) in E. unfold sub in E. rewrite length_take, length_drop in E. cbn in E. lia. }
  destruct (url_parse_cap table (sub l us ue) N) as [[[r u] n] E].
  assert (Sb : forall x, sub (l ++ x) us ue = sub l us ue).
  { intros x. unfold sub. rewrite drop_app_le by lia. apply take_app_le. rewrite length_drop. lia. }
  set (hdr := fun u v => mkHTTP HTTP_TYPE_REQUEST v (Req (Some u) (mime_str_u16_set (Some m)) w) mime_hdr_init).
  exists (if is_error r then Some r else if v =? HTTP_VERSION 0 9 then Some PARSE_DONE else None), (hdr u (if is_error r then HTTP_VERSION 0 9 else v)).
  intros copy memory parser raw [x ->]. destruct (E copy) as [c Ec]. exists (hdr (set_cap c u) (if is_error r then HTTP_VERSION 0 9 else v)).
  split; [split; [done|split; [done|by split; [exists c|]]]|].
  split; [done|]. unfold parse_req_line, http_hdr_method_set. change (m_u hh0) with (Req (Some url_create) None (-1)).
  cbv beta iota. cbn [mbind option_bind set_u m_u]. unfold url_parse_range. rewrite (proj2 (Nat.ltb_lt _ _) Lt), Sb, Ec. cbn [mbind option_bind cap_of].
  destruct (is_error r) eqn:Er; [exists parser; split_and!; by destruct r|]. exists (mkHTTPParser false (m_mime_parser parser)). split; [done|].
  by destruct (v =? HTTP_VERSION 0 9).
Qed.

Lemma line_decides l : ~ blank l -> names_url l -> exists k hh1, forall copy memory parser raw, (exists x, memory = l ++ x) ->
  exists hh', same_line hh1 hh' /\ m_fields_impl hh' = mime_hdr_init /\ decides k hh' raw parser (line_done copy false memory l parser raw hh0).
Proof.
  intros B N. unfold line_done. destruct (request_fastpath l) as [[v e]|] eqn:F.
  - apply req_line_decides; unfold request_fastpath in F; destruct (_ && _) eqn:C; try done; injection F as _ <-; [|lia].
    apply andb_true_iff in C as [_ C]. apply negb_true_iff, Nat.leb_gt in C. lia.
  - specialize (N F). assert (Stop : exists k hh1, forall (copy : bool) (memory : list Z) parser raw, (exists x, memory = l ++ x) ->
      exists hh', same_line hh1 hh' /\ m_fields_impl hh' = mime_hdr_init /\ decides k hh' raw parser (Some (PARSE_ERROR, raw, parser, hh0))).
    { exists (Some PARSE_ERROR), hh0. intros copy memory parser raw _. exists hh0. split; [split; [done|split; [done|by split; [exists 0|]]]|]. split; [done|]. by exists parser. }
    destruct (parse_request_line l) as [| |ms me us ue version] eqn:P; [exact Stop|exact Stop|]. apply req_line_decides; [done|].
    unfold parse_request_line, parse_method1 in P. assert (G : forall a b, parse_version_url l a b = RequestLine ms me us ue version -> (ue <= length l)%nat).
    { intros a b. unfold parse_version_url. intros [= _ _ _ <- _]. destruct (strip_end_split is_wslfcr (take match request_version l with Some (vs, _) => vs | None => length l end l)) as (x & X & _).
      apply (f_equal length) in X. rewrite length_app, length_take in X. lia. }
    repeat (case_match; try done); by eapply G.
Qed.

(** ** All the pieces *)

Definition resume (ps : list (list Z)) (x : MIMEParseResult * list Z * HTTPParser * HTTPHdrImpl) : option (MIMEParseResult * list (list Z) * HTTPParser * HTTPHdrImpl) :=
  let '(r, rest, parser', hh') := x in match r with PARSE_CONT => parse_req_pieces table parser' ps hh' | _ => Some (r, rest :: ps, parser', hh') end.

Lemma req_pieces_cons parser p ps hh : parse_req_pieces table parser (p :: ps) hh = x ← http_parser_parse_req table parser false false p hh; resume ps x.
Proof. cbn [parse_req_pieces]. by destruct (http_parser_parse_req _ _ _ _ _ _) as [[[[? ?] ?] ?]|]. Qed.

(** With the first line read, only the parser of fields is called. *)
Lemma req_pieces_fields parser pieces hh : m_parsing_http parser = false -> parse_req_pieces table parser pieces hh =
  '(r, rests, mp, mh) ← parse_pieces table (m_mime_parser parser) pieces (m_fields_impl hh); Some (r, rests, mkHTTPParser false mp, set_fields mh hh).
Proof.
  revert parser hh. induction pieces as [|p ps IH]; intros [b mp] hh E; cbn [m_parsing_http] in E; subst b; [by destruct hh|]. rewrite req_pieces_cons.
  cbn [parse_pieces http_parser_parse_req m_parsing_http m_mime_parser]. unfold parse_fields. cbn [m_mime_parser m_parsing_http].
  destruct (mime_parser_parse table mp false p (m_fields_impl hh)) as [[[[r rest] mp'] mh]|]; [|done]. cbn [mbind option_bind resume]. destruct r; try done. by rewrite IH.
Qed.

Lemma cuts_mono b ps : cuts_ok b ps = true -> cuts_ok false ps = true.
Proof. revert b. induction ps as [|p ps IH]; intros b; [done|]. cbn [cuts_ok]. intros [_ C]%andb_true_iff. cbn [andb negb]. destruct (last p); [done|by eapply IH]. Qed.

Lemma cuts_suffix b x p ps : cuts_ok b ((x ++ p) :: ps) = true -> cuts_ok false (p :: ps) = true.
Proof.
  cbn [cuts_ok]. intros [_ C]%andb_true_iff. cbn [andb negb]. rewrite last_app in C. destruct (last p); [done|by eapply cuts_mono].
Qed.

Lemma pieces_first parser pieces b : m_parsing_http parser = true -> scanner_ok (scan parser) -> line_state (m_state (scan parser)) ->
  Z.of_nat (length (m_line (scan parser)) + length (concat pieces)) <= MAX_LINE -> cuts_ok b pieces = true ->
  exists o, first (m_state (scan parser)) (m_line (scan parser)) (concat pieces) o /\
  match o with
  | inl (l, r) => exists copy memory parser1 p ps, p ++ concat ps = r /\ cuts_ok false (p :: ps) = true /\ fresh (scan parser1) /\ (exists y, memory = l ++ y) /\
      parse_req_pieces table parser pieces hh0 = x ← line_done copy false memory l parser1 p hh0; resume ps x
  | inr _ => exists parser1, parse_req_pieces table parser pieces hh0 = Some (PARSE_CONT, [], parser1, hh0)
  end.
Proof.
  revert parser b. induction pieces as [|p ps IH]; intros parser b PH HS L B C.
  { exists (inr (m_state (scan parser), m_line (scan parser))). split; [by apply first_more|]. by exists parser. }
  cbn [concat] in *. rewrite length_app in B. rewrite req_pieces_cons. unfold http_parser_parse_req. rewrite PH.
  destruct (go_ok (S (length p)) false parser p HS L) as (o & F & D); [lia|lia|]. pose proof (first_takes _ _ _ _ F L) as T. destruct o as [[l r]|[st line]].
  - destruct D as (copy & memory & parser1 & E & Fr & M). destruct T as [_ [x X]]. exists (inl (l, r ++ concat ps)). split; [by apply first_app_line|].
    exists copy, memory, parser1, r, ps. rewrite E. split_and!; try done. rewrite X in C. by eapply cuts_suffix.
  - destruct D as (parser1 & E & D1 & D2 & D3 & D4), T as [T1 T2]. rewrite E. cbn [mbind option_bind resume]. cbn [cuts_ok] in C. apply andb_true_iff in C as [_ C].
    edestruct (IH parser1) as (o & F' & D'); [by rewrite D4|done|by rewrite D2|rewrite D3; lia|exact C|]. rewrite D2, D3 in F'. exists o. split; [|exact D'].
    by apply (first_app_more _ _ _ (st, line)).
Qed.

(** The fields, in one call and in pieces. *)
Lemma fields_agree mp mp' p ps : fresh (m_scanner mp) -> fresh (m_scanner mp') -> text_ok [] (p ++ concat ps) -> cuts_ok false (p :: ps) = true ->
  exists r rest q mh rests q' mh', mime_parser_parse table mp false (p ++ concat ps) mime_hdr_init = Some (r, rest, q, mh) /\
    parse_pieces table mp' (p :: ps) mime_hdr_init = Some (r, rests, q', mh') /\ concat rests = rest /\ hdr_rep mh /\ hdr_rep mh' /\ contents mh = contents mh'.
Proof.
  intros (S1 & L1 & T1) (S2 & L2 & T2) T C.
  destruct (parse_ok mp false (p ++ concat ps) mime_hdr_init init_rep S1) as (ls & o & P & Rd & (P1 & P2 & (P3 & P4 & _) & _) & ->); rewrite ?T1, ?L1; try done.
  destruct (parse_pieces_ok mp' (p :: ps) false mime_hdr_init init_rep S2) as (ls' & o' & x & Rd' & -> & X); rewrite ?T2, ?L2; try done.
  rewrite T1, L1 in Rd. rewrite T2, L2 in Rd'. destruct (reads_det _ _ _ _ _ _ _ Rd Rd') as [<- <-]. destruct x as [[[r rests] q'] mh']. destruct X as (-> & X2 & _ & X4 & X5 & _).
  eexists _, _, _, _, _, _, _. split; [done|]. split; [by rewrite P1|]. split_and!; try done; [by rewrite X2, P2|]. rewrite X5, P4. destruct o; by rewrite app_nil_r.
Qed.

Lemma same_line_via hh hh1 hh2 : same_line hh hh1 -> same_line hh hh2 -> same_line hh1 hh2.
Proof.
  intros (P1 & V1 & U1) (P2 & V2 & U2). split; [congruence|]. split; [congruence|]. destruct (m_u hh) as [[u|] m w|re st]; [|by rewrite <- U1, <- U2..].
  destruct (m_u hh1) as [[u1|] ? ?|]; try done. destruct (m_u hh2) as [[u2|] ? ?|]; try done. destruct U1 as ([c1 ->] & <- & <-), U2 as ([c2 ->] & <- & <-). split; [by exists c2|done].
Qed.

(** C13: A request does not depend on how it arrives.  Cut anywhere but between the end
    of a line and the white space of its continuation, and handed to the parser piece
    by piece, a text (empty lines first, the request line, fields) gives the result,
    the method, the URL, the version, the fields and the unread rest that it gives in one
    call; and the parser always returns.  Only the memory the host has may differ.  The
    request line must have a URL: without one the parser reads on behind the line. *)
Theorem request_cut_independent copy raw pieces : text_ok [] raw -> concat pieces = raw -> cuts_ok false pieces = true ->
  (forall l r, first START [] raw (inl (l, r)) -> names_url l) ->
  exists r rest parser hh1 rests parser' hh2,
    http_parser_parse_req table http_parser_init copy false raw hh0 = Some (r, rest, parser, hh1) /\
    parse_req_pieces table http_parser_init pieces hh0 = Some (r, rests, parser', hh2) /\
    concat rests = rest /\ same_line hh1 hh2 /\ hdr_rep (m_fields_impl hh1) /\ hdr_rep (m_fields_impl hh2) /\
    contents (m_fields_impl hh1) = contents (m_fields_impl hh2).
Proof.
  intros T <- C NU. pose proof init_fresh as (I1 & I2 & I3). assert (B : Z.of_nat (length (concat pieces)) <= MAX_LINE) by (destruct T as [T _]; unfold MAX_LINE; cbn [length] in T; lia).
  destruct (go_ok (S (length (concat pieces))) copy http_parser_init (concat pieces) I1 (or_introl eq_refl) B ltac:(lia)) as (o & F & D).
  destruct (pieces_first http_parser_init pieces false eq_refl I1 (or_introl eq_refl) B C) as (o' & F' & D'). rewrite <- (first_det _ _ _ _ _ F F') in D'. clear o' F'.
  change (http_parser_parse_req table http_parser_init copy false (concat pieces) hh0) with (parse_req_go table (S (length (concat pieces))) copy false http_parser_init (concat pieces) hh0).
  destruct o as [[l r]|[st line]].
  - destruct D as (cp & memory & p1 & -> & Fr & M), D' as (cp' & memory' & p2 & p & ps & <- & C' & Fr' & M' & ->).
    assert (Bl : ~ blank l) by (apply first_not_blank in F; done). destruct (line_decides l Bl (NU _ _ F)) as (k & hh & K).
    destruct (K cp memory p1 (p ++ concat ps) M) as (hhA & SA & IA & q1 & Q1 & KA), (K cp' memory' p2 p M') as (hhB & SB & IB & q2 & Q2 & KB).
    pose proof (same_line_via _ _ _ SA SB) as SS. destruct k as [res|].
    + destruct KA as [N ->], KB as [_ ->]. cbn [mbind option_bind resume]. exists res, (p ++ concat ps), q1, hhA, (p :: ps), q2, hhB. rewrite IA, IB.
      split; [done|]. split; [by destruct res|]. by split_and!; try apply init_rep.
    + destruct KA as [Pa ->], KB as [Pb ->].
      assert (RB : (x ← parse_fields table false q2 p hhB; resume ps x) = parse_req_pieces table q2 (p :: ps) hhB) by (rewrite req_pieces_cons; unfold http_parser_parse_req; by rewrite Pb).
      rewrite RB, req_pieces_fields by done. unfold parse_fields. rewrite IA, IB, Q1, Q2.
      destruct (fields_agree (m_mime_parser p1) (m_mime_parser p2) p ps Fr Fr') as (r & rest & q & mh & rests & q' & mh' & -> & -> & E & R1 & R2 & E2); [|done|].
      { destruct (first_takes _ _ _ _ F (or_introl eq_refl)) as [_ [x X]]. rewrite X in T. destruct T as (T1 & _ & T2). rewrite length_app in T1. apply Forall_app in T2 as [_ T2]. split; [cbn [length] in *; lia|done]. }
      cbn [mbind option_bind]. eexists r, rest, _, _, rests, _, _. split; [done|]. split; [done|]. by split_and!.
  - destruct D as (p1 & -> & _), D' as (p2 & ->). exists PARSE_CONT, [], p1, hh0, [], p2, hh0. split_and!; try done; [|apply init_rep..]. split; [done|split; [done|by split; [exists 0|]]].
Qed.
End calls.
