(* ===== verification/HTTPConcrete.v ===== *)
(** HTTP headers on concrete texts: the theorems applied, and what the code does that
    it does not mean to. *)

From S2P Require Import Prelude ParseRules MimeDate HdrToken MimePrint URL URLFacts HdrFieldInfo MimeScanner MimeHdr MimeHdrOps MimeHdrFacts MimeHdrRep MimeHdrAttach MimeCooked MimeHdrTheorems MimeParser MimeParserFacts MimeRoundtrip MimeHdrSpec MimeConcrete HTTP HTTPFacts HTTPRequest HTTPResponse HTTPCuts.
From Stdlib Require Import Ascii.

(** What a request is read as: the result, the method, the URL and its host and path,
    the version, and the fields. *)
Definition request_seen (hh : HTTPHdrImpl) : option (list Z) * option (list Z) * option (list Z) * (Z * Z) * list (list Z * list Z) :=
  match m_u hh with
  | Req url method _ => (method, url ≫= (fun u => m_host (strs u)), url ≫= (fun u => m_path (strs u)), (HTTP_MAJOR (m_version hh), HTTP_MINOR (m_version hh)), contents (m_fields_impl hh))
  | Resp _ _ => (None, None, None, (0, 0), [])
  end.

Definition parsed_request (pieces : list (list Z)) :=
  (fun x : MIMEParseResult * list (list Z) * HTTPParser * HTTPHdrImpl => (x.1.1.1, request_seen x.2)) <$>
  parse_req_pieces common_table http_parser_init pieces (http_hdr_init HTTP_TYPE_REQUEST).

Definition parsed_response (pieces : list (list Z)) :=
  (fun x : MIMEParseResult * list (list Z) * HTTPParser * HTTPHdrImpl => (x.1.1.1, x.1.1.2, m_u x.2, (HTTP_MAJOR (m_version x.2), HTTP_MINOR (m_version x.2)), contents (m_fields_impl x.2))) <$>
  parse_resp_pieces common_table http_parser_init pieces (http_hdr_init HTTP_TYPE_RESPONSE).

Example request_example : parsed_request [crlf ++ chars "GET http://h/p HT"; chars "TP/1.1" ++ crlf ++ line "A: b" ++ crlf] =
  Some (PARSE_DONE, (Some (chars "GET"), Some (chars "h"), Some (chars "p"), (1, 1), [(chars "A", chars "b")])).
Proof. by vm_compute. Qed.

Example response_example : parsed_response [line "HTTP/1.1 404 Not Found" ++ line "A: b" ++ crlf] =
  Some (PARSE_DONE, [[]], Resp (Some (chars "Not Found")) 404, (1, 1), [(chars "A", chars "b")]).
Proof. by vm_compute. Qed.

(** ** What goes wrong *)

(** A request without a URL: the first letters of its version become the host and the
    path. *)
Lemma version_read_as_url : parsed_request [line "HEAD HTTP/1.0" ++ crlf] = Some (PARSE_DONE, (Some (chars "HEAD"), Some (chars "H"), Some (chars "T"), (1, 0), [])).
Proof. by vm_compute. Qed.

(** With nothing behind the method the parser looks at the two characters that end the
    line, and at those behind it when there are none. *)
Lemma line_end_read_as_url : parsed_request [line "GET "] = Some (PARSE_DONE, (Some (chars "GET"), Some [CHAR_CR], Some [CHAR_LF], (0, 9), [])) /\
  parsed_request [chars "GET " ++ [CHAR_LF] ++ chars "X"] = Some (PARSE_DONE, (Some (chars "GET"), Some [CHAR_LF], Some (chars "X"), (0, 9), [])).
Proof. by vm_compute. Qed.

(** The fast path for responses does not look at the character behind the status: a
    status of four digits loses the last, where the slow path reads all of them. *)
Lemma status_cut : parsed_response [line "HTTP/1.1 2004 OK" ++ crlf] = Some (PARSE_DONE, [[]], Resp (Some (chars "OK")) 2004, (1, 1), []) /\
  parsed_response [line "HTTP/1.1 2004OK" ++ crlf] = Some (PARSE_DONE, [[]], Resp (Some (chars "OK")) 200, (1, 1), []).
Proof. by vm_compute. Qed.

(** A version with a part of two digits is read and cannot be printed: 1.10 becomes
    [1.:], which is read as 1.0. *)
Lemma version_misprinted :
  (x ← parse_req_pieces common_table http_parser_init [line "GET http://h/ HTTP/1.10" ++ crlf] (http_hdr_init HTTP_TYPE_REQUEST);
   (fun y => printed y.2) <$> http_hdr_print common_table x.2 100 (mkPrint 0 0 [])) = Some (line "GET http://h/ HTTP/1.:" ++ crlf) /\
  http_parse_version (chars "HTTP/1.:") = HTTP_VERSION 1 0.
Proof. by vm_compute. Qed.

(** A response of HTTP/0.9, which has no header, is handed on from its first byte if
    its first line comes in one piece, and without what came before if it does not. *)
Lemma old_response_cut : (fun x => x.1.1.1.2) <$> parsed_response [chars "<html>" ++ [CHAR_LF]] = Some [chars "<html>" ++ [CHAR_LF]] /\
  (fun x => x.1.1.1.2) <$> parsed_response [chars "<ht"; chars "ml>" ++ [CHAR_LF]] = Some [chars "ml>" ++ [CHAR_LF]].
Proof. by vm_compute. Qed.

(** ** The theorems applied *)

Definition sample_request : HTTPHdrImpl := mkHTTP HTTP_TYPE_REQUEST (HTTP_VERSION 1 1) (Req (Some sample_url) (Some (chars "GET")) (-1)) sample.

(** The second ten bytes. *)
Lemma http_print_effect_witness : http_hdr_print common_table sample_request 10 (mkPrint 0 10 []) = Some (false, mkPrint 10 0 (chars "/me:a:b@ho")).
Proof. etransitivity; [apply (http_print_effect common_table sample_request 10 0 10 [] I sample_rep sample_raw); lia|by vm_compute]. Defined.

Lemma sample_wire : Forall (fun f => is_live f = true -> wire_ok f) (slots sample) /\ text_ok [] (hdr_text (slots sample)).
Proof.
  destruct (mime_parser_parse common_table mime_parser_init false sample_text mime_hdr_init) as [[[[r rest] parser] mh]|] eqn:E; [|by vm_compute in E].
  assert (S : sample = mh) by (unfold sample; by rewrite E). assert (D : r = PARSE_DONE) by (vm_compute in E; by injection E as <- _ _ _). rewrite D in E. rewrite S.
  destruct (parsed_wire_ok sample_text rest parser mh) as (_ & W & T & _); [apply text_ok_dec; by vm_compute|by vm_compute|exact E|]. exact (conj W T).
Qed.

Definition plain_url : URLImpl :=
  mkURL (mkStrs (Some (chars "http")) None None (Some (chars "host.com")) None (Some (chars "a b")) None (Some (chars "q")) None) 0 95 0 URL_TYPE_HTTP 0 None 0 true.

Lemma plain_url_wf : url_wf plain_url.
Proof.
  split; try done.
  - exists (chars "http"). by vm_compute.
  - exists (chars "host.com"). split_and!; [done|done|by vm_compute|by repeat constructor].
  - intros w [= <-]. split_and!; [done|by vm_compute|by repeat constructor].
  - rewrite bool_decide_false by done. split_and!; try done. intros w [= <-]. split; [by vm_compute|by repeat constructor].
Qed.

Lemma request_roundtrip_witness : exists n parser hdr',
  let hdr := mkHTTP HTTP_TYPE_REQUEST (HTTP_VERSION 1 1) (Req (Some plain_url) (Some (chars "GET")) (-1)) sample in
  http_hdr_print common_table hdr 500 (mkPrint 0 0 []) = Some (true, mkPrint n 0 (line "GET http://host.com/a b?q HTTP/1.1" ++ line "Via: a" ++ line "Host: x" ++ line "Via: b" ++ crlf)) /\
  http_parser_parse_req common_table http_parser_init true false (http_text common_table hdr) (http_hdr_init HTTP_TYPE_REQUEST) = Some (PARSE_DONE, [], parser, hdr') /\
  request_read (chars "GET") plain_url 1 1 sample hdr'.
Proof.
  destruct (request_roundtrip true (-1) (chars "GET") plain_url 1 1 sample 500) as (n & parser & hdr' & P & Q & R).
  - split; [|split; [apply plain_url_wf|split]|done|split; [apply sample_rep|apply sample_wire]].
    + split_and!; [done|by vm_compute|by repeat constructor].
    + vm_compute. repeat constructor; done.
    + intros c E. vm_compute in E. injection E as <-. by vm_compute.
  - apply leb_complete. by vm_compute.
  - done.
  - exists n, parser, hdr'. split; [etransitivity; [exact P|by vm_compute]|]. by split.
Defined.

Lemma response_roundtrip_witness : exists n parser hdr',
  let hdr := mkHTTP HTTP_TYPE_RESPONSE (HTTP_VERSION 1 0) (Resp (Some (chars "Not Found")) 404) sample in
  http_hdr_print common_table hdr 500 (mkPrint 0 0 []) = Some (true, mkPrint n 0 (line "HTTP/1.0 404 Not Found" ++ line "Via: a" ++ line "Host: x" ++ line "Via: b" ++ crlf)) /\
  http_parser_parse_resp common_table http_parser_init false false (http_text common_table hdr) (http_hdr_init HTTP_TYPE_RESPONSE) = Some (PARSE_DONE, [], parser, hdr') /\
  m_u hdr' = Resp (Some (chars "Not Found")) 404 /\ contents (m_fields_impl hdr') = [(chars "Via", chars "a"); (chars "Host", chars "x"); (chars "Via", chars "b")].
Proof.
  destruct (response_roundtrip false 1 0 404 (Some (chars "Not Found")) sample 500) as (n & parser & hdr' & P & Q & R).
  - split; [done|done| |split; [apply sample_rep|apply sample_wire]]. split; [right|by vm_compute]. split_and!; [done| |by repeat constructor].
    intros c E. vm_compute in E. injection E as <-. by vm_compute.
  - apply leb_complete. by vm_compute.
  - done.
  - exists n, parser, hdr'. split; [etransitivity; [exact P|by vm_compute]|]. split; [exact Q|]. destruct R as (_ & _ & U & _ & C). split; [exact U|]. rewrite C, sample_contents. by vm_compute.
Defined.

Definition sample_request_text : list Z := crlf ++ line "GET http://h/p HTTP/1.1" ++ line "A: b" ++ crlf ++ chars "body".

Lemma request_cut_independent_witness : exists r rest parser hh1 rests parser' hh2,
  http_parser_parse_req common_table http_parser_init false false sample_request_text (http_hdr_init HTTP_TYPE_REQUEST) = Some (r, rest, parser, hh1) /\
  parse_req_pieces common_table http_parser_init [take 5 sample_request_text; drop 5 (take 20 sample_request_text); drop 20 sample_request_text] (http_hdr_init HTTP_TYPE_REQUEST) = Some (r, rests, parser', hh2) /\
  concat rests = rest /\ same_line hh1 hh2 /\ hdr_rep (m_fields_impl hh1) /\ hdr_rep (m_fields_impl hh2) /\ contents (m_fields_impl hh1) = contents (m_fields_impl hh2).
Proof.
  apply request_cut_independent; [apply text_ok_dec; by vm_compute|by vm_compute|by vm_compute|].
  intros l r F. assert (G : first MIME_SCANNER_STATE_START [] sample_request_text (inl (line "GET http://h/p HTTP/1.1", line "A: b" ++ crlf ++ chars "body"))).
  { eapply first_blank; [by vm_compute|by vm_compute|]. apply first_line_found; [by vm_compute|]. intros [B _]. by vm_compute in B. }
  pose proof (first_det _ _ _ _ _ F G) as E. injection E as -> ->. intros B. by vm_compute in B.
Defined.
