(* ===== verification/LibC.v ===== *)
(** The functions of the C library that the readers of the configuration files use, on
    strings that are lists of characters without the NUL at the end. *)

From S2P Require Import Prelude ParseRules HdrToken.
From Stdlib Require Import Ascii.

(** What [sscanf] reads for [%d]: white space, a sign, digits; [None] without a digit.
    The number is kept as it is written: for one that does not fit an [int] C defines no
    result. *)
Fixpoint scan_digits (n : Z) (s : list Z) : option Z :=
  match s with
  | c :: s' => if is_digit c then Some (default (n * 10 + (c - ch "0")) (scan_digits (n * 10 + (c - ch "0")) s')) else None
  | [] => None
  end.

Fixpoint scan_d (s : list Z) : option Z :=
  match s with
  | c :: s' => if is_space c then scan_d s' else if c =? ch "-" then Z.opp <$> scan_digits 0 s' else if c =? ch "+" then scan_digits 0 s' else scan_digits 0 s
  | [] => None
  end.

Fixpoint skip_class (p : Z -> bool) (s : list Z) : list Z := match s with c :: s' => if p c then skip_class p s' else s | [] => [] end.

(** [atoi]. *)
Definition atoi (s : list Z) : Z := default 0 (scan_d s).

Definition strcasecmp_eq (s : list Z) (t : String.string) : bool := same_name s (chars t).

(** A string ends at the first NUL. *)
Fixpoint c_string (s : list Z) : list Z := match s with c :: s' => if c =? 0 then [] else c :: c_string s' | [] => [] end.

(** [strtol] with base 16, of a number that fits a [long]. *)
Definition xdigit_value (c : Z) : Z := if is_digit c then c - ch "0" else ink_tolower c - ch "a" + 10.

Fixpoint hex_number (n : Z) (s : list Z) : Z := match s with c :: s' => if is_hex c then hex_number (n * 16 + xdigit_value c) s' else n | [] => n end.

Definition hex_prefix (s : list Z) : list Z := match s with z :: x :: c :: s' => if (z =? ch "0") && (ink_tolower x =? ch "x") && is_hex c then c :: s' else s | _ => s end.

Definition strtol16 (s : list Z) : Z :=
  match skip_class is_space s with
  | c :: s' => if c =? ch "-" then - hex_number 0 (hex_prefix s') else if c =? ch "+" then hex_number 0 (hex_prefix s') else hex_number 0 (hex_prefix (c :: s'))
  | [] => 0
  end.

(** [htonl], on a machine with the low byte first. *)
Definition htonl (x : Z) : Z :=
  Z.lor (Z.lor (Z.shiftl (Z.land x 255) 24) (Z.shiftl (Z.land (Z.shiftr x 8) 255) 16))
        (Z.lor (Z.shiftl (Z.land (Z.shiftr x 16) 255) 8) (Z.land (Z.shiftr x 24) 255)).

(** [sscanf] with [%d] and what follows it. *)
Fixpoint skip_number (s : list Z) : list Z :=
  match s with
  | c :: s' => if is_space c then skip_number s' else if (c =? ch "-") || (c =? ch "+") then skip_class is_digit s' else skip_class is_digit s
  | [] => []
  end.

Definition scan_d_rest (s : list Z) : option (Z * list Z) := n ← scan_d s; Some (n, skip_number s).

(** [sscanf] with [%d], [%d:%d] and so on: the numbers it reads, at most [n]. *)
Fixpoint scan_ds (n : nat) (s : list Z) : list Z :=
  match n with
  | O => []
  | S n' =>
    match scan_d_rest s with
    | None => []
    | Some (x, rest) => x :: match rest with c :: rest' => if c =? ch ":" then scan_ds n' rest' else [] | [] => [] end
    end
  end.
