(* ===== verification/Tokenizer.v ===== *)
(** The string tokenizer ([libinktomi++/Tokenizer.cc], [Tokenizer.h]).

    A string is the list of its characters, without the NUL at its end.  The tokens
    are the list of what [addToken] was given; the nodes of sixteen pointers that hold
    them, and whether they are copies, do not show. *)

From S2P Require Import Prelude ParseRules.
From Stdlib Require Import Ascii.

Record Tokenizer := mkTok { strOfDelimit : list Z; maxTokens : Z; allow_empty_toks : bool; tokens : list (list Z) }.

Definition new_Tokenizer (StrOfDelimiters : list Z) : Tokenizer := mkTok StrOfDelimiters (-1) false [].

Definition isDelimiter (t : Tokenizer) (c : Z) : bool := one_of c (strOfDelimit t).

Definition addToken (t : Tokenizer) (tok : list Z) : Tokenizer := mkTok (strOfDelimit t) (maxTokens t) (allow_empty_toks t) (tokens t ++ [tok]).

Definition ReUse (t : Tokenizer) : Tokenizer := mkTok (strOfDelimit t) (maxTokens t) (allow_empty_toks t) [].

Fixpoint skip_delimiters (t : Tokenizer) (str : list Z) : list Z :=
  match str with c :: s => if isDelimiter t c then skip_delimiters t s else str | [] => [] end.

Fixpoint until_delimiter (t : Tokenizer) (str : list Z) : list Z :=
  match str with c :: s => if isDelimiter t c then [] else c :: until_delimiter t s | [] => [] end.

(** The loop over the characters: [tok] is what lies between [tokStart] and [str],
    [prior] is [priorCharWasDelimit], and the last part of the result is what is
    behind [str] when the limit stopped it. *)
Fixpoint token_loop (t : Tokenizer) (tok : list Z) (prior : bool) (str : list Z) : Tokenizer * list Z * bool * option (list Z) :=
  match str with
  | [] => (t, tok, prior, None)
  | c :: s =>
    if Z.of_nat (length (tokens t)) + 1 =? maxTokens t then (t, tok, prior, Some str)
    else if allow_empty_toks t then
      if isDelimiter t c then token_loop (addToken t tok) [] true s else token_loop t (tok ++ [c]) false s
    else
      if isDelimiter t c then (if prior then token_loop t (tok ++ [c]) true s else token_loop (addToken t tok) (tok ++ [c]) true s)
      else if prior then token_loop t [c] false s else token_loop t (tok ++ [c]) false s
  end.

(** [Initialize]: the number of tokens, and the tokens. *)
Definition Initialize (t0 : Tokenizer) (str : list Z) (allow_empty : bool) : Z * Tokenizer :=
  let t1 := mkTok (strOfDelimit t0) (maxTokens t0) allow_empty [] in
  let '(t, tok, prior, limit) := token_loop t1 [] true str in
  let '(tok, prior) :=
    match limit with
    | None => (tok, prior)
    | Some rest =>
      if allow_empty then (tok ++ until_delimiter t rest, false)
      else match skip_delimiters t rest with
           | [] => (tok, true)
           | last => (rev (skip_delimiters t (rev last)), false)
           end
    end in
  let t := if prior then t else addToken t tok in
  (Z.of_nat (length (tokens t)), t).

Definition get_token (t : Tokenizer) (index : nat) : option (list Z) := nth_error (tokens t) index.

Example tokens_example : tokens (Initialize (new_Tokenizer (chars ",; ")) (chars " a:1,,b:2; ") false).2 = [chars "a:1"; chars "b:2"].
Proof. by vm_compute. Qed.

Example empty_tokens_example : tokens (Initialize (new_Tokenizer (chars ",")) (chars ",a,,b") true).2 = [[]; chars "a"; []; chars "b"].
Proof. by vm_compute. Qed.

(** ** Theorems *)

Section facts.
Variable delimiters : list Z.
Notation is_delim := (fun c => one_of c delimiters).
Notation tok n e ts := (mkTok delimiters n e ts).

Lemma token_word t tok prior w s : maxTokens t = -1 -> allow_empty_toks t = false -> w <> [] -> Forall (fun c => isDelimiter t c = false) w ->
  token_loop t tok prior (w ++ s) = token_loop t (if prior then w else tok ++ w) false s.
Proof.
  intros M E N F. assert (L : forall k, Z.of_nat k + 1 =? -1 = false) by (intros; apply Z.eqb_neq; lia).
  revert tok prior N. induction F as [|c w D F IH]; intros tok prior N; [done|]. cbn [app token_loop]. rewrite M, L, E, D.
  destruct w as [|d w]; [by destruct prior|]. destruct prior; rewrite IH by done; [done|by rewrite <- app_assoc].
Qed.

(** Characters between tokens. *)
Lemma token_gap t tok d s : maxTokens t = -1 -> allow_empty_toks t = false -> Forall (fun c => isDelimiter t c = true) d -> exists tok', token_loop t tok true (d ++ s) = token_loop t tok' true s.
Proof.
  intros M E F. assert (L : forall k, Z.of_nat k + 1 =? -1 = false) by (intros; apply Z.eqb_neq; lia).
  revert tok. induction F as [|c d D F IH]; intros tok; [by exists tok|]. cbn [app token_loop]. rewrite M, L, E, D. apply IH.
Qed.

(** Words, each with the delimiters that follow it. *)
Definition spread_out (ws : list (list Z * list Z)) : list Z := concat ((fun x => x.1 ++ x.2) <$> ws).

Definition word_ok (x : list Z * list Z) : Prop := x.1 <> [] /\ Forall (fun c => one_of c delimiters = false) x.1 /\ x.2 <> [] /\ Forall (fun c => one_of c delimiters = true) x.2.

Lemma words_loop ws ts tk w : Forall word_ok ws -> Forall (fun c => one_of c delimiters = false) w -> exists tk',
  token_loop (tok (-1) false ts) tk true (spread_out ws ++ w) = (tok (-1) false (ts ++ ws.*1), if bool_decide (w = []) then tk' else w, bool_decide (w = []), None).
Proof.
  intros F Fw. revert ts tk. induction F as [|[v d] ws [N [V [Nd D]]] F IH]; intros ts tk.
  - rewrite app_nil_r. cbn [spread_out concat fmap list_fmap app]. case_bool_decide as E; [subst w; by exists tk|]. exists tk.
    pose proof (token_word (tok (-1) false ts) tk true w [] eq_refl eq_refl E Fw) as X. rewrite app_nil_r in X. by rewrite X.
  - unfold spread_out. cbn [fst snd fmap list_fmap concat] in *. fold (spread_out ws). rewrite <- !app_assoc. rewrite token_word by done. destruct d as [|c d]; [done|]. apply Forall_cons in D as [Dc D].
    cbn [app token_loop maxTokens allow_empty_toks tokens]. rewrite (proj2 (Z.eqb_neq _ _)) by lia. unfold isDelimiter at 1. cbn [strOfDelimit]. rewrite Dc.
    destruct (token_gap (addToken (tok (-1) false ts) v) (v ++ [c]) d (spread_out ws ++ w) eq_refl eq_refl D) as [tk1 ->].
    destruct (IH (ts ++ [v]) tk1) as [tk2 E]. exists tk2. unfold addToken. cbn [strOfDelimit maxTokens allow_empty_toks tokens]. rewrite E. by rewrite <- app_assoc.
Qed.

(** Words with any delimiters before, between and behind them are the tokens. *)
Lemma tokens_words d ws w : Forall (fun c => one_of c delimiters = true) d -> Forall word_ok ws -> Forall (fun c => one_of c delimiters = false) w ->
  tokens (Initialize (new_Tokenizer delimiters) (d ++ spread_out ws ++ w) false).2 = ws.*1 ++ (if bool_decide (w = []) then [] else [w]).
Proof.
  intros D F Fw. unfold Initialize. cbn [new_Tokenizer strOfDelimit maxTokens].
  destruct (token_gap (tok (-1) false []) [] d (spread_out ws ++ w) eq_refl eq_refl D) as [tk1 ->]. destruct (words_loop ws [] tk1 w F Fw) as [tk2 ->].
  cbn [snd app]. case_bool_decide; cbn [tokens addToken]; by rewrite ?app_nil_r.
Qed.
End facts.

Lemma number_of_tokens t str allow : (Initialize t str allow).1 = Z.of_nat (length (tokens (Initialize t str allow).2)).
Proof. unfold Initialize. destruct (token_loop _ _ _ _) as [[[t' tok] prior] limit]. by destruct (match limit with Some _ => _ | None => _ end) as [tok' prior']. Qed.

(** With empty tokens allowed the last token ends at the next delimiter, where the
    comment on [setMaxTokens] says that it is the rest of the string. *)
Lemma limit_drops_rest :
  tokens (Initialize (mkTok (chars ",") 2 false []) (chars "a,b,c") true).2 = [chars "a"; chars "b"] /\
  tokens (Initialize (mkTok (chars ",") 2 false []) (chars "a,b,c") false).2 = [chars "a"; chars "b,c"].
Proof. by vm_compute. Qed.
