(* ===== verification/ParentSelection.v ===== *)
(** Parent proxies ([proxy/ParentSelection.cc], [ParentSelection.h]): the records of
    parent.config, the choice of a parent for a request, and what happens when a parent
    fails.

    The records are shared by all transactions: a store [recs] from the identifiers of
    records to their contents, which every operation takes and returns.  An index into
    [parents] is a [Z], as the [int] of the code.  [None] as a result is a crash (a
    release assertion, a division by zero, a read outside the array) or a loop that
    does not end. *)

From S2P Require Import Prelude ParseRules HdrToken LibC Tokenizer.
From Stdlib Require Import Ascii.

Inductive ParentResultType := PARENT_UNDEFINED | PARENT_DIRECT | PARENT_SPECIFIED | PARENT_AGENT | PARENT_FAIL.

#[export] Instance ParentResultType_eq_dec : EqDecision ParentResultType.
Proof. solve_decision. Defined.

Record pRecord := mkParent { hostname : list Z; port : Z; failedAt : Z; failCount : Z; upAt : Z; scheme : option (list Z) }.

Inductive ParentRR_t := P_NO_ROUND_ROBIN | P_STRICT_ROUND_ROBIN | P_HASH_ROUND_ROBIN.

#[export] Instance ParentRR_t_eq_dec : EqDecision ParentRR_t.
Proof. solve_decision. Defined.

(** [parents] is [None] for the null pointer. *)
Record ParentRecord := mkRecord {
  line_num : Z; parents : option (list pRecord); record_scheme : option (list Z); round_robin : ParentRR_t; rr_next : Z; go_direct : bool
}.

Definition new_ParentRecord : ParentRecord := mkRecord 0 None None P_NO_ROUND_ROBIN 0 true.

Definition num_parents (rec : ParentRecord) : Z := Z.of_nat (length (default [] (parents rec))).

Definition set_parents (ps : option (list pRecord)) (rec : ParentRecord) : ParentRecord :=
  mkRecord (line_num rec) ps (record_scheme rec) (round_robin rec) (rr_next rec) (go_direct rec).

Definition recs := gmap nat ParentRecord.

(** [extApiRecord], or a record of the configuration. *)
Inductive RecRef := ExtApi | Rec (id : nat).

#[export] Instance RecRef_eq_dec : EqDecision RecRef.
Proof. solve_decision. Defined.

(** [epoch]: the table, by the number of the configuration it belongs to. *)
Record ParentResult := mkResult {
  r : ParentResultType; result_hostname : option (list Z); result_port : Z;
  line_number : Z; epoch : option nat; rec : option RecRef; last_parent : Z; start_parent : Z; wrap_around : bool; retry : bool
}.

Definition new_ParentResult : ParentResult := mkResult PARENT_UNDEFINED None 0 0 None None 0 0 false false.

Record ParentConfigParams := mkParams { ParentTable : nat; DefaultParent : option nat; ParentRetryTime : Z; ParentEnable : Z; FailThreshold : Z; DNS_ParentOnly : Z }.

(** Of a request: the time of the transaction, the address of the client, the parent
    set through the API, and the records whose lines [ControlMatcher] finds to match,
    in the order it tries them. *)
Record RequestData := mkRD { xact_start : Z; client_ip : Z; api_parent : option (option (list Z) * Z); matching : list nat }.

(** ** The choice of a parent *)

Section find.
Variables (config : ParentConfigParams) (xact_start : Z).

(** A parent that is up; one that may be tried again. *)
Definition parent_up (p : pRecord) : bool := (failedAt p =? 0) || (failCount p <? FailThreshold config).
Definition retry_due (p : pRecord) : bool := i32 (failedAt p + ParentRetryTime config) <? xact_start.

(** The loop over the parents from [cur_index]: the index chosen and whether it is a
    retry, or [None] when [start_parent] has been reached. *)
Fixpoint try_parents (fuel : nat) (ps : list pRecord) (start_parent : Z) (wrap_around : bool) (cur_index : Z) : option (option (Z * bool)) :=
  match fuel with
  | O => None
  | S fuel' =>
    if cur_index <? 0 then None
    else
      p ← ps !! Z.to_nat cur_index;
      if parent_up p then Some (Some (cur_index, false))
      else if wrap_around || retry_due p then Some (Some (cur_index, true))
      else
        let cur_index := Z.rem (cur_index + 1) (Z.of_nat (length ps)) in
        if u32 cur_index =? start_parent then Some None else try_parents fuel' ps start_parent wrap_around cur_index
  end.
End find.

Definition no_parents (rec : ParentRecord) (result : ParentResult) : ParentResult :=
  mkResult (if go_direct rec then PARENT_DIRECT else PARENT_FAIL) None 0 (line_number result) (epoch result) (ParentSelection.rec result) (last_parent result)
    (start_parent result) (wrap_around result) (retry result).

(** [start_parent] and [wrap_around] set. *)
Definition with_start (start : Z) (wrap : bool) (result : ParentResult) : ParentResult :=
  mkResult (r result) (result_hostname result) (result_port result) (line_number result) (epoch result) (rec result) (last_parent result) start wrap (retry result).

Definition choose (ps : list pRecord) (cur_index : Z) (parentRetry : bool) (result : ParentResult) : option ParentResult :=
  p ← ps !! Z.to_nat cur_index;
  Some (mkResult PARENT_SPECIFIED (Some (hostname p)) (port p) (line_number result) (epoch result) (rec result) (u32 cur_index)
          (start_parent result) (wrap_around result) parentRetry).

(** From the loop to the end: [cur_index] is set, and [start_parent] and [wrap_around]
    of the result. *)
Definition find_loop (config : ParentConfigParams) (xact_start : Z) (rec : ParentRecord) (ps : list pRecord) (cur_index : Z) (result : ParentResult) : option ParentResult :=
  let fuel := S (length ps) in
  found ← try_parents config xact_start fuel ps (start_parent result) (wrap_around result) cur_index;
  match found with
  | Some (i, parentRetry) => choose ps i parentRetry result
  | None =>
    if go_direct rec && (DNS_ParentOnly config =? 0) then Some (no_parents rec result)
    else
      (* FORCE_WRAP_AROUND, with [cur_index] at [start_parent] *)
      let result := with_start (start_parent result) true result in
      found ← try_parents config xact_start fuel ps (start_parent result) true (i32 (start_parent result));
      match found with Some (i, parentRetry) => choose ps i parentRetry result | None => None end
  end.

Definition FindParent (first_call : bool) (config : ParentConfigParams) (rdata : RequestData) (rec : ParentRecord) (result : ParentResult)
    : option (ParentResult * ParentRecord) :=
  let n := num_parents rec in
  let bypass_ok := go_direct rec && (DNS_ParentOnly config =? 0) in
  let go := fun cur_index result rec => ps ← parents rec; result' ← find_loop config (xact_start rdata) rec ps cur_index result; Some (result', rec) in
  if first_call then
    match parents rec with
    | None => Some (no_parents rec result, rec)
    | Some _ =>
      if n =? 0 then None
      else
        match round_robin rec with
        | P_STRICT_ROUND_ROBIN =>
          let cur := Z.rem (i32 (rr_next rec)) n in
          go cur (with_start (u32 cur) (wrap_around result) result)
             (mkRecord (line_num rec) (parents rec) (record_scheme rec) (round_robin rec) (u32 (rr_next rec + 1)) (go_direct rec))
        | P_HASH_ROUND_ROBIN => go (u32 (client_ip rdata) mod n) result rec
        | P_NO_ROUND_ROBIN => go 0 (with_start 0 (wrap_around result) result) rec
        end
    end
  else if n =? 0 then None
  else
    let cur_index := i32 (u32 (last_parent result + 1) mod n) in
    if u32 cur_index =? start_parent result then
      if bypass_ok then Some (no_parents rec result, rec) else go cur_index (with_start (start_parent result) true result) rec
    else go cur_index result rec.

(** ** The interface of the transactions *)

Definition apiParentExists (rdata : RequestData) : bool := match api_parent rdata with Some (Some _, port) => port >? 0 | _ => false end.

(** [UpdateMatch], on a record whose modifiers match. *)
Definition UpdateMatch (id : nat) (rec : ParentRecord) (result : ParentResult) : ParentResult :=
  if (line_number result <? 0) || (line_number result >? line_num rec)
  then mkResult (r result) (result_hostname result) (result_port result) (line_num rec) (epoch result) (Some (Rec id)) (last_parent result) (start_parent result)
         (wrap_around result) (retry result)
  else result.

Definition Match (st : recs) (ids : list nat) (result : ParentResult) : ParentResult :=
  foldl (fun result id => match st !! id with Some rec => UpdateMatch id rec result | None => result end) result ids.

Definition findParent (config : ParentConfigParams) (rdata : RequestData) (st : recs) (result : ParentResult) : option (ParentResult * recs) :=
  if ParentEnable config =? 0
  then Some (mkResult PARENT_DIRECT (result_hostname result) (result_port result) (line_number result) (epoch result) (rec result) (last_parent result)
               (start_parent result) (wrap_around result) (retry result), st)
  else
    let r0 := mkResult (r result) (result_hostname result) (result_port result) (-1) (Some (ParentTable config)) None 0 0 false (retry result) in
    let r1 := match api_parent rdata with
              | Some (Some name, port) =>
                if port >? 0 then mkResult PARENT_SPECIFIED (Some name) port (-1) None (Some ExtApi) 0 0 false (retry result) else r0
              | _ => r0
              end in
    let r2 := Match st (matching rdata) r1 in
    let use := fun id result => rec ← st !! id; '(result', rec') ← FindParent true config rdata rec result; Some (result', <[id := rec']> st) in
    match rec r2, DefaultParent config with
    | Some ExtApi, _ => Some (r2, st)
    | Some (Rec id), _ => use id r2
    | None, Some id => use id (mkResult (r r2) (result_hostname r2) (result_port r2) (line_number r2) (epoch r2) (Some (Rec id)) (last_parent r2) (start_parent r2) (wrap_around r2) (retry r2))
    | None, None =>
      Some (mkResult PARENT_DIRECT (result_hostname r2) (result_port r2) (line_number r2) (epoch r2) None (last_parent r2) (start_parent r2) (wrap_around r2) (retry r2), st)
    end.

Definition parentExists (config : ParentConfigParams) (rdata : RequestData) (st : recs) : option (bool * recs) :=
  '(junk, st') ← findParent config rdata st new_ParentResult; Some (bool_decide (r junk = PARENT_SPECIFIED), st').

(** [r] set. *)
Definition with_r (t : ParentResultType) (result : ParentResult) : ParentResult :=
  mkResult t (result_hostname result) (result_port result) (line_number result) (epoch result) (rec result) (last_parent result) (start_parent result)
    (wrap_around result) (retry result).

Definition nextParent (config : ParentConfigParams) (rdata : RequestData) (st : recs) (result : ParentResult) : option (ParentResult * recs) :=
  if negb (bool_decide (r result = PARENT_SPECIFIED)) then Some (with_r PARENT_FAIL result, st)
  else
    match rec result with
    | Some ExtApi => Some (with_r PARENT_FAIL result, st)
    | Some (Rec id) =>
      if bool_decide (epoch result = Some (ParentTable config)) then
        rec ← st !! id; '(result', rec') ← FindParent false config rdata rec result; Some (result', <[id := rec']> st)
      else None
    | None => None
    end.

(** A change of the parent a result stands for. *)
Definition change_parent (f : pRecord -> pRecord) (st : recs) (result : ParentResult) : option recs :=
  match rec result with
  | Some (Rec id) =>
    rec ← st !! id; ps ← parents rec;
    if last_parent result <? Z.of_nat (length ps) then Some (<[id := set_parents (Some (alter f (Z.to_nat (last_parent result)) ps)) rec]> st) else None
  | _ => None
  end.

Definition recordRetrySuccess (st : recs) (result : ParentResult) : option recs :=
  if negb (retry result) then None
  else if negb (bool_decide (r result = PARENT_SPECIFIED)) then Some st
  else if bool_decide (rec result = Some ExtApi) then Some st
  else change_parent (fun p => mkParent (hostname p) (port p) 0 0 (upAt p) (scheme p)) st result.

Definition mark_down (retry : bool) (now : Z) (p : pRecord) : pRecord :=
  if (failedAt p =? 0) || retry
  then mkParent (hostname p) (port p) (i32 now) (if retry then failCount p else 1) (upAt p) (scheme p)
  else mkParent (hostname p) (port p) (failedAt p) (i32 (failCount p + 1)) (upAt p) (scheme p).

Definition markParentDown (now : Z) (st : recs) (result : ParentResult) : option recs :=
  if negb (bool_decide (r result = PARENT_SPECIFIED)) then Some st
  else if bool_decide (rec result = Some ExtApi) then Some st
  else change_parent (mark_down (retry result) now) st result.

(** ** Reading the configuration *)

Definition DOMAIN_NAME_MAX : nat := 255.

Fixpoint find_colon (s : list Z) : option (list Z * list Z) :=
  match s with [] => None | c :: s' => if c =? ch ":" then Some ([], s') else '(a, b) ← find_colon s'; Some (c :: a, b) end.

(** One parent, or an error.  The memory it is written to is not cleared: [old] is what
    is there. *)
Definition process_parent (sch : option (list Z)) (old : Z * Z) (current : list Z) : list Z + pRecord :=
  match find_colon current with
  | None => inl (chars "No parent port specified")
  | Some (name, rest) =>
    match scan_d rest with
    | None => inl (chars "Malformed parent port")
    | Some p =>
      match skip_class is_wslfcr (skip_class is_digit rest) with
      | _ :: _ => inl (chars "Garbage trailing entry or invalid separator")
      | [] =>
        if (DOMAIN_NAME_MAX <? length name)%nat then inl (chars "Parent hostname is too long")
        else match name with
             | [] => inl (chars "Parent string is emtpy")
             | _ => inr (mkParent name p 0 (fst old) (snd old) sch)
             end
      end
    end
  end.

Fixpoint process_tokens (sch : option (list Z)) (memory : nat -> Z * Z) (i : nat) (toks : list (list Z)) : list Z + list pRecord :=
  match toks with
  | [] => inr []
  | current :: toks' =>
    match process_parent sch (memory i) current with
    | inl err => inl err
    | inr p => match process_tokens sch memory (S i) toks' with inl err => inl err | inr ps => inr (p :: ps) end
    end
  end.

Definition ProcessParents (memory : nat -> Z * Z) (val : list Z) (rec : ParentRecord) : option (list Z) * ParentRecord :=
  match parents rec with
  | Some _ => (Some (chars "Can not specify more than one set of parents"), rec)
  | None =>
    let '(numTok, pTok) := Initialize (new_Tokenizer (chars ",; " ++ [CHAR_HT; CHAR_CR])) val false in
    if numTok =? 0 then (Some (chars "No parents specified"), rec)
    else match process_tokens (record_scheme rec) memory 0 (tokens pTok) with
         | inl err => (Some err, rec)
         | inr ps => (None, set_parents (Some ps) rec)
         end
  end.

(** [DefaultInit] and [createDefaultParent]: a null or empty value makes no record. *)
Definition createDefaultParent (memory : nat -> Z * Z) (val : option (list Z)) : option ParentRecord :=
  match val with
  | None | Some [] => None
  | Some v =>
    match ProcessParents memory v (mkRecord 0 None None P_NO_ROUND_ROBIN 0 true) with (None, rec) => Some rec | (Some _, _) => None end
  end.

Section Init.
(** [ProcessModifiers] of [ControlBase], on the pairs the directives did not use: an
    error, or the value of the scheme modifier if there is one. *)
Variable ProcessModifiers : list (list Z * list Z) -> list Z + option (list Z).

(** One pair: an error, or whether it was used, and the record. *)
Definition init_pair (memory : nat -> Z * Z) (label val : list Z) (rec : ParentRecord) : option (list Z) * bool * ParentRecord :=
  let set_rr := fun rr => mkRecord (line_num rec) (parents rec) (record_scheme rec) rr (rr_next rec) (go_direct rec) in
  let set_direct := fun d => mkRecord (line_num rec) (parents rec) (record_scheme rec) (round_robin rec) (rr_next rec) d in
  if strcasecmp_eq label "round_robin" then
    if strcasecmp_eq val "true" then (None, true, set_rr P_HASH_ROUND_ROBIN)
    else if strcasecmp_eq val "strict" then (None, true, set_rr P_STRICT_ROUND_ROBIN)
    else if strcasecmp_eq val "false" then (None, true, set_rr P_NO_ROUND_ROBIN)
    else (Some (chars "invalid argument to round_robin directive"), true, set_rr P_NO_ROUND_ROBIN)
  else if strcasecmp_eq label "parent" then let '(err, rec') := ProcessParents memory val rec in (err, true, rec')
  else if strcasecmp_eq label "go_direct" then
    if strcasecmp_eq val "false" then (None, true, set_direct false)
    else if negb (strcasecmp_eq val "true") then (Some (chars "invalid argument to go_direct directive"), true, rec)
    else (None, true, set_direct true)
  else (None, false, rec).

(** All pairs: the error that stops it, the pairs left over, and the record. *)
Fixpoint init_pairs (memory : nat -> Z * Z) (pairs : list (list Z * list Z)) (rec : ParentRecord) : option (list Z) * list (list Z * list Z) * ParentRecord :=
  match pairs with
  | [] => (None, [], rec)
  | (label, val) :: pairs' =>
    match init_pair memory label val rec with
    | (Some err, _, rec') => (Some err, pairs', rec')
    | (None, used, rec') => let '(err, rest, rec'') := init_pairs memory pairs' rec' in (err, if used then rest else (label, val) :: rest, rec'')
    end
  end.

(** [num_el] is the count of the line as the caller left it; each pair that is used takes
    one off. *)
Definition Init (memory : nat -> Z * Z) (line num_el : Z) (pairs : list (list Z * list Z)) (rec : ParentRecord) : option (list Z) * ParentRecord :=
  let rec := mkRecord line (parents rec) None (round_robin rec) (rr_next rec) (go_direct rec) in
  match init_pairs memory pairs rec with
  | (Some err, _, rec') => (Some err, rec')
  | (None, rest, rec') =>
    match parents rec', go_direct rec', num_el - Z.of_nat (length pairs - length rest) >? 0 with
    | None, false, _ => (Some (chars "No parent specified in parent.config"), rec')
    | _, _, false => (None, rec')
    | _, _, _ =>
      match ProcessModifiers rest with
      | inl err => (Some err, rec')
      | inr None => (None, rec')
      | inr (Some s) =>
        (None, mkRecord (line_num rec') (map (fun p => mkParent (hostname p) (port p) (failedAt p) (failCount p) (upAt p) (Some s)) <$> parents rec') (Some s)
                 (round_robin rec') (rr_next rec') (go_direct rec'))
      end
    end
  end.
End Init.
