(* ===== verification/ParentSelectionFacts.v ===== *)
(** Theorems on parent proxies: which parent is chosen, that a transaction whose
    parents fail tries each of them at most once, and the configuration that is read. *)

From S2P Require Import Prelude ParseRules HdrToken LibC Tokenizer ParentSelection.
From Stdlib Require Import Ascii.

(** ** The order in which parents are tried *)

(** The indices from [cur] round to [start], which is not one of them unless it is
    [cur]. *)
Definition cyclic (n cur start : nat) : list nat := if (cur <? start)%nat then seq cur (start - cur) else seq cur (n - cur) ++ seq 0 start.

Lemma cyclic_length n cur start : (cur < n)%nat -> (start < n)%nat -> (0 < length (cyclic n cur start) <= n)%nat.
Proof. intros. unfold cyclic. destruct (Nat.ltb_spec cur start); rewrite ?length_app, !length_seq; lia. Qed.

Lemma cyclic_step n cur start : (cur < n)%nat -> (start < n)%nat ->
  cyclic n cur start = cur :: (if (S cur mod n =? start)%nat then [] else cyclic n (S cur mod n) start).
Proof.
  intros C S. unfold cyclic. destruct (decide (Datatypes.S cur = n)) as [E|E].
  - rewrite E, Nat.Div0.mod_same. destruct (Nat.ltb_spec cur start); [lia|]. replace (n - cur)%nat with 1%nat by lia. cbn [seq app]. f_equal.
    destruct (Nat.eqb_spec 0 start) as [<-|]; [done|]. rewrite (proj2 (Nat.ltb_lt 0 start)) by lia. by rewrite Nat.sub_0_r.
  - rewrite Nat.mod_small by lia. destruct (Nat.eqb_spec (Datatypes.S cur) start) as [<-|N].
    + rewrite (proj2 (Nat.ltb_lt _ _)) by lia. replace (Datatypes.S cur - cur)%nat with 1%nat by lia. done.
    + destruct (Nat.ltb_spec cur start).
      * rewrite (proj2 (Nat.ltb_lt _ _)) by lia. replace (start - cur)%nat with (Datatypes.S (start - Datatypes.S cur)) by lia. done.
      * rewrite (proj2 (Nat.ltb_ge _ _)) by lia. replace (n - cur)%nat with (Datatypes.S (n - Datatypes.S cur)) by lia. done.
Qed.

Lemma cyclic_nodup n cur start : NoDup (cyclic n cur start).
Proof.
  unfold cyclic. destruct (Nat.ltb_spec cur start); [apply NoDup_ListNoDup, seq_NoDup|]. apply NoDup_app. split_and!; [apply NoDup_ListNoDup, seq_NoDup| |apply NoDup_ListNoDup, seq_NoDup].
  intros i I J. apply list_elem_of_In, in_seq in I, J. lia.
Qed.

Lemma cyclic_bound n cur start i : (start < n)%nat -> i ∈ cyclic n cur start -> (i < n)%nat.
Proof. intros S. unfold cyclic. destruct (Nat.ltb_spec cur start); rewrite ?elem_of_app, !list_elem_of_In, !in_seq; lia. Qed.

(** ** The loop *)

Section loop.
Variables (config : ParentConfigParams) (t : Z) (ps : list pRecord).
Hypothesis Hn : Z.of_nat (length ps) < 2 ^ 31.

(** A parent that may be tried. *)
Definition usable (wrap : bool) (p : pRecord) : bool := parent_up config p || (wrap || retry_due config t p).

Definition usable_at (wrap : bool) (i : nat) : bool := match ps !! i with Some p => usable wrap p | None => false end.

(** The first parent in order that may be tried. *)
Definition first_usable (wrap : bool) (cur start : nat) : option nat := find (usable_at wrap) (cyclic (length ps) cur start).

Definition is_retry (i : nat) : bool := match ps !! i with Some p => negb (parent_up config p) | None => false end.

Lemma next_index cur : (cur < length ps)%nat -> Z.rem (Z.of_nat cur + 1) (Z.of_nat (length ps)) = Z.of_nat (S cur mod length ps).
Proof. intros C. rewrite Z.rem_mod_nonneg by lia. rewrite Nat2Z.inj_mod. f_equal. lia. Qed.

Lemma u32_index i : (i < length ps)%nat -> u32 (Z.of_nat i) = Z.of_nat i.
Proof. intros. apply wrapu_id; lia. Qed.

Lemma i32_index i : (i < length ps)%nat -> i32 (Z.of_nat i) = Z.of_nat i.
Proof. intros. apply wraps_id; lia. Qed.

Lemma try_parents_spec fuel wrap cur start : (cur < length ps)%nat -> (start < length ps)%nat -> (length (cyclic (length ps) cur start) <= fuel)%nat ->
  try_parents config t fuel ps (Z.of_nat start) wrap (Z.of_nat cur) = Some ((fun i => (Z.of_nat i, is_retry i)) <$> first_usable wrap cur start).
Proof.
  revert cur. induction fuel as [|fuel IH]; intros cur C S F; [pose proof (cyclic_length _ _ _ C S); lia|].
  cbn [try_parents]. rewrite (proj2 (Z.ltb_ge _ _)), Nat2Z.id by lia. unfold first_usable. rewrite cyclic_step in F |- * by done. cbn [find]. unfold usable_at at 1, usable.
  destruct (lookup_lt_is_Some_2 ps cur C) as [p Hp]. rewrite Hp. cbn [mbind option_bind]. destruct (parent_up config p) eqn:U; cbn [orb].
  { cbn [fmap option_fmap option_map]. unfold is_retry. by rewrite Hp, U. }
  destruct (wrap || retry_due config t p). { cbn [fmap option_fmap option_map]. unfold is_retry. by rewrite Hp, U. }
  rewrite next_index, u32_index by (done || apply Nat.mod_upper_bound; lia). destruct (Nat.eqb_spec (Datatypes.S cur mod length ps) start) as [->|N].
  - by rewrite Z.eqb_refl.
  - rewrite (proj2 (Z.eqb_neq _ _)) by lia. apply IH; [apply Nat.mod_upper_bound; lia|done|]. cbn [length] in F. lia.
Qed.

Lemma first_usable_wrap cur start : (cur < length ps)%nat -> (start < length ps)%nat -> first_usable true cur start = Some cur.
Proof.
  intros C S. unfold first_usable. rewrite cyclic_step by done. cbn [find]. unfold usable_at at 1, usable. destruct (lookup_lt_is_Some_2 ps cur C) as [p ->]. by rewrite orb_true_r.
Qed.

(** The result for the parent [i]. *)
Definition specified (i : nat) (wrap : bool) (result : ParentResult) : ParentResult :=
  mkResult PARENT_SPECIFIED (hostname <$> ps !! i) (default 0 (port <$> ps !! i)) (line_number result) (epoch result) (rec result) (Z.of_nat i) (start_parent result) wrap (is_retry i).

Definition bypass_ok (rc : ParentRecord) : bool := go_direct rc && (DNS_ParentOnly config =? 0).

(** What a search makes of the result. *)
Definition searched (rc : ParentRecord) (cur start : nat) (result : ParentResult) : ParentResult :=
  match first_usable (wrap_around result) cur start with
  | Some i => specified i (wrap_around result) result
  | None => if bypass_ok rc then no_parents rc result else specified start true result
  end.

Lemma choose_spec i b wrap result : (i < length ps)%nat -> b = is_retry i -> wrap_around result = wrap -> choose ps (Z.of_nat i) b result = Some (specified i wrap result).
Proof. intros I -> <-. unfold choose, specified. rewrite Nat2Z.id, u32_index by done. by destruct (lookup_lt_is_Some_2 ps i I) as [p ->]. Qed.

Lemma first_usable_bound wrap cur start i : (start < length ps)%nat -> first_usable wrap cur start = Some i -> (i < length ps)%nat.
Proof. intros S E. apply find_some in E as [E _]. apply list_elem_of_In in E. by apply (cyclic_bound _ cur start). Qed.

Lemma find_loop_spec rc cur start result : (cur < length ps)%nat -> (start < length ps)%nat -> start_parent result = Z.of_nat start ->
  find_loop config t rc ps (Z.of_nat cur) result = Some (searched rc cur start result).
Proof.
  intros C S E. unfold find_loop. rewrite E, try_parents_spec by (done || pose proof (cyclic_length _ _ _ C S); lia). cbn [mbind option_bind]. unfold searched.
  destruct (first_usable (wrap_around result) cur start) as [i|] eqn:F; cbn [fmap option_fmap option_map].
  - apply choose_spec; [by eapply first_usable_bound|done|done].
  - unfold bypass_ok. destruct (go_direct rc && _); [done|]. cbn [start_parent with_start]. rewrite ?E, i32_index, try_parents_spec, first_usable_wrap by (done || pose proof (cyclic_length _ _ _ S S); lia).
    cbn [mbind option_bind fmap option_fmap option_map]. rewrite (choose_spec start _ true) by done. unfold specified. cbn. by rewrite E.
Qed.
End loop.

(** ** A call of [FindParent] *)

Section call.
Variables (config : ParentConfigParams) (rd : RequestData) (rc : ParentRecord) (ps : list pRecord).
Hypothesis Hps : parents rc = Some ps.
Hypothesis Hn : 0 < Z.of_nat (length ps) < 2 ^ 31.
Hypothesis Hrr : 0 <= rr_next rc < 2 ^ 31.

Lemma num_ps : num_parents rc = Z.of_nat (length ps).
Proof. unfold num_parents. by rewrite Hps. Qed.

(** Where the first search begins, and where it is to end. *)
Definition first_index : nat :=
  match round_robin rc with P_STRICT_ROUND_ROBIN => Z.to_nat (rr_next rc mod Z.of_nat (length ps)) | P_HASH_ROUND_ROBIN => Z.to_nat (u32 (client_ip rd) mod Z.of_nat (length ps)) | P_NO_ROUND_ROBIN => 0 end.

Definition first_start (s : nat) : nat :=
  match round_robin rc with P_STRICT_ROUND_ROBIN => first_index | P_HASH_ROUND_ROBIN => s | P_NO_ROUND_ROBIN => 0 end.

Definition count_request : ParentRecord :=
  match round_robin rc with P_STRICT_ROUND_ROBIN => mkRecord (line_num rc) (parents rc) (record_scheme rc) (round_robin rc) (u32 (rr_next rc + 1)) (go_direct rc) | _ => rc end.

Lemma mod_index x : (Z.to_nat (x mod Z.of_nat (length ps)) < length ps)%nat.
Proof. pose proof (Z.mod_pos_bound x (Z.of_nat (length ps))). lia. Qed.

Lemma first_index_bound : (first_index < length ps)%nat.
Proof. unfold first_index. destruct (round_robin rc); [lia|apply mod_index|apply mod_index]. Qed.

Lemma first_start_bound s : (s < length ps)%nat -> (first_start s < length ps)%nat.
Proof. intros. unfold first_start. destruct (round_robin rc) eqn:E; [lia|apply first_index_bound|done]. Qed.

Lemma with_start_same result : with_start (start_parent result) (wrap_around result) result = result.
Proof. by destruct result. Qed.

Lemma find_first result s : start_parent result = Z.of_nat s -> (s < length ps)%nat ->
  FindParent true config rd rc result =
    Some (searched config (xact_start rd) ps rc first_index (first_start s) (with_start (Z.of_nat (first_start s)) (wrap_around result) result), count_request).
Proof.
  intros E S. pose proof first_index_bound as FB. unfold FindParent. rewrite Hps, num_ps, (proj2 (Z.eqb_neq _ _)) by lia. unfold first_start, count_request, first_index in *. destruct (round_robin rc) eqn:RR.
  - cbn [mbind option_bind]. change 0 with (Z.of_nat 0) at 1 2. by rewrite (find_loop_spec config (xact_start rd) ps (proj2 Hn) _ _ 0) by (done || lia).
  - rewrite wraps_id, Z.rem_mod_nonneg by lia. rewrite <- (Z2Nat.id (rr_next rc mod _)) by (apply Z.mod_pos_bound; lia). rewrite (u32_index ps (proj2 Hn)) by (done || lia). cbn [parents].
    cbn [mbind option_bind]. rewrite (find_loop_spec config (xact_start rd) ps (proj2 Hn) _ _ (Z.to_nat (rr_next rc mod Z.of_nat (length ps)))) by (done || lia). cbn [mbind option_bind]. by rewrite Nat2Z.id, ?Hps.
  - rewrite <- (Z2Nat.id (u32 (client_ip rd) mod _)) by (apply Z.mod_pos_bound; lia). rewrite <- E, with_start_same. cbn [mbind option_bind].
    rewrite (find_loop_spec config (xact_start rd) ps (proj2 Hn) _ _ s) by (done || lia). cbn [mbind option_bind]. by rewrite Nat2Z.id, ?Hps.
Qed.

Lemma find_next result l s : last_parent result = Z.of_nat l -> (l < length ps)%nat -> start_parent result = Z.of_nat s -> (s < length ps)%nat ->
  FindParent false config rd rc result =
    Some (if (S l mod length ps =? s)%nat
          then if bypass_ok config rc then no_parents rc result else searched config (xact_start rd) ps rc (S l mod length ps) s (with_start (Z.of_nat s) true result)
          else searched config (xact_start rd) ps rc (S l mod length ps) s result, rc).
Proof.
  intros EL L ES S. unfold FindParent. rewrite num_ps, (proj2 (Z.eqb_neq _ _)) by lia. rewrite EL, ES. rewrite (wrapu_id 32 (Z.of_nat l + 1)) by lia.
  replace (Z.of_nat l + 1) with (Z.of_nat (Datatypes.S l)) by lia. rewrite <- Nat2Z.inj_mod.
  assert (B : (Datatypes.S l mod length ps < length ps)%nat) by (apply Nat.mod_upper_bound; lia).
  rewrite (i32_index ps (proj2 Hn)), (u32_index ps (proj2 Hn)) by (done || lia). unfold bypass_ok. rewrite ?Hps. cbn [mbind option_bind].
  destruct (Nat.eqb_spec (Datatypes.S l mod length ps) s) as [E|N].
  - rewrite E, Z.eqb_refl. destruct (go_direct rc && _); [done|]. by rewrite (find_loop_spec config (xact_start rd) ps (proj2 Hn) _ _ s) by (done || lia).
  - rewrite (proj2 (Z.eqb_neq _ _)) by lia. by rewrite (find_loop_spec config (xact_start rd) ps (proj2 Hn) _ _ s) by (done || lia).
Qed.
End call.

(** ** A transaction whose parents fail *)

(** What is left to be tried after [l]. *)
Definition rest (n l s : nat) : list nat := if (S l mod n =? s)%nat then [] else cyclic n (S l mod n) s.

Lemma cyclic_rest n cur s i : (cur < n)%nat -> (s < n)%nat -> i ∈ cyclic n cur s -> exists pre, cyclic n cur s = pre ++ i :: rest n i s.
Proof.
  intros C S I. remember (length (cyclic n cur s)) as k eqn:K. revert cur C I K. induction k as [|k IH]; intros cur C I K; [pose proof (cyclic_length n cur s C S); lia|].
  rewrite cyclic_step in I, K |- * by done. apply elem_of_cons in I as [->|I]; [by exists []|].
  destruct (Nat.eqb_spec (Datatypes.S cur mod n) s) as [E|N]; [by apply not_elem_of_nil in I|]. injection K as K.
  destruct (IH (Datatypes.S cur mod n)%nat) as [pre ->]; [apply Nat.mod_upper_bound; lia|done|done|]. by exists (cur :: pre).
Qed.

Section failover.
Variables (config : ParentConfigParams) (rd : RequestData) (id n : nat) (direct : bool).
Hypothesis Hn : 0 < Z.of_nat n < 2 ^ 31.

(** The record at [id] in a store: it has [n] parents, up or down. *)
Definition has_parents (st : recs) : Prop := exists rc ps, st !! id = Some rc /\ parents rc = Some ps /\ length ps = n /\ go_direct rc = direct /\ 0 <= rr_next rc < 2 ^ 31.

(** The transaction has tried [l], of a search that ends at [s]; [wrap]: it has been round
    and takes the parents up or down. *)
Definition at_parent (wrap : bool) (l s : nat) (result : ParentResult) : Prop :=
  r result = PARENT_SPECIFIED /\ rec result = Some (Rec id) /\ epoch result = Some (ParentTable config) /\ wrap_around result = wrap /\
  last_parent result = Z.of_nat l /\ start_parent result = Z.of_nat s /\ (l < n)%nat /\ (s < n)%nat.

(** The parents tried one after the other, each of which fails, in the stores as they
    are then; and the last result. *)
Fixpoint failover (sts : list recs) (result : ParentResult) : option (list nat * ParentResult) :=
  match sts with
  | [] => Some ([], result)
  | st :: sts' =>
    '(result', _) ← nextParent config rd st result;
    if bool_decide (r result' = PARENT_SPECIFIED) then '(tried, final) ← failover sts' result'; Some (Z.to_nat (last_parent result') :: tried, final)
    else Some ([], result')
  end.

Lemma rest_nodup l s : (l < n)%nat -> (s < n)%nat -> NoDup (l :: rest n l s).
Proof. intros L S. pose proof (cyclic_step n l s L S) as E. unfold rest. rewrite <- E. apply cyclic_nodup. Qed.

Lemma rest_length l s : (l < n)%nat -> (s < n)%nat -> (length (rest n l s) < n)%nat.
Proof. intros L S. pose proof (cyclic_length n l s L S) as CL. rewrite cyclic_step in CL by done. fold (rest n l s) in CL. cbn [length] in CL. lia. Qed.

Lemma rest_suffix l s i : (l < n)%nat -> (s < n)%nat -> i ∈ rest n l s -> exists pre, rest n l s = pre ++ i :: rest n i s.
Proof.
  intros L S. unfold rest at 1 2. destruct (Datatypes.S l mod n =? s)%nat; [by intros ?%not_elem_of_nil|]. intros I. apply cyclic_rest; [apply Nat.mod_upper_bound; lia|done|done].
Qed.

Section bypass.
Hypothesis Bypass : direct && (DNS_ParentOnly config =? 0) = true.

Lemma searched_bypass rc ps cur s result : length ps = n -> go_direct rc = direct -> (cur < n)%nat -> (s < n)%nat -> wrap_around result = false -> start_parent result = Z.of_nat s ->
  rec result = Some (Rec id) -> epoch result = Some (ParentTable config) ->
  let result' := searched config (xact_start rd) ps rc cur s result in
  (exists i, i ∈ cyclic n cur s /\ at_parent false i s result') \/ r result' = PARENT_DIRECT.
Proof.
  intros L G C S W E R Ep. unfold searched. rewrite W. destruct (first_usable config (xact_start rd) ps false cur s) as [i|] eqn:F.
  - left. exists i. pose proof F as F'. apply find_some in F' as [I _]. rewrite L in I. split; [by apply list_elem_of_In|]. split_and!; try done.
    rewrite <- L. eapply first_usable_bound; [|exact F]. lia.
  - right. pose proof Bypass as [Hd _]%andb_true_iff. unfold bypass_ok. rewrite G, Bypass. unfold no_parents. cbn. by rewrite G, Hd.
Qed.

(** Each failure leaves fewer parents, and without one the transaction goes direct. *)
Lemma next_parent_moves st l s result : has_parents st -> at_parent false l s result ->
  exists result' st', nextParent config rd st result = Some (result', st') /\
    ((exists i, i ∈ rest n l s /\ at_parent false i s result') \/ r result' = PARENT_DIRECT).
Proof.
  intros (rc & ps & Hst & Hps & L & G & RR) (R & Rc & Ep & W & EL & ES & Ll & Ls). unfold nextParent. rewrite bool_decide_true by done. cbn [negb]. rewrite Rc, bool_decide_true by done.
  rewrite Hst. cbn [mbind option_bind]. rewrite (find_next config rd rc ps Hps ltac:(lia) result l s) by (done || lia). cbn [mbind option_bind]. eexists _, _. split; [done|].
  unfold rest. rewrite L. destruct (Nat.eqb_spec (S l mod n) s) as [E|N].
  - right. pose proof Bypass as [Hd _]%andb_true_iff. unfold bypass_ok. rewrite G, Bypass. unfold no_parents. cbn. by rewrite G, Hd.
  - apply searched_bypass; try done. apply Nat.mod_upper_bound. lia.
Qed.

Lemma failover_ok sts l s result : Forall has_parents sts -> at_parent false l s result -> (length (rest n l s) < length sts)%nat ->
  exists tried final, failover sts result = Some (tried, final) /\ r final = PARENT_DIRECT /\ sublist tried (rest n l s).
Proof.
  revert l result. induction sts as [|st sts IH]; intros l result F A Ln; [cbn in Ln; lia|]. apply Forall_cons in F as [F1 F].
  destruct (next_parent_moves st l s result F1 A) as (result' & st' & E & D). cbn [failover]. rewrite E. cbn [mbind option_bind]. destruct D as [(i & I & A')|D].
  - pose proof A' as (R' & _ & _ & _ & EL' & _). rewrite bool_decide_true by done. destruct A as (_ & _ & _ & _ & _ & _ & Ll & Ls).
    destruct (rest_suffix l s i Ll Ls I) as [pre P].
    destruct (IH i result' F A') as (tried & final & -> & D & Sb). { rewrite P, length_app in Ln. cbn [length] in Ln. lia. }
    cbn [mbind option_bind]. eexists _, final. split; [done|]. split; [done|]. rewrite EL', Nat2Z.id, P. apply sublist_inserts_l. by constructor.
  - rewrite bool_decide_false by (rewrite D; done). exists [], result'. split; [done|]. split; [done|apply sublist_nil_l].
Qed.
End bypass.

(** ** A transaction that may not go direct *)

Section no_bypass.
Hypothesis NoBypass : direct && (DNS_ParentOnly config =? 0) = false.

Lemma searched_parent rc ps cur s wrap result : length ps = n -> go_direct rc = direct -> (cur < n)%nat -> (s < n)%nat -> wrap_around result = wrap -> start_parent result = Z.of_nat s ->
  rec result = Some (Rec id) -> epoch result = Some (ParentTable config) ->
  exists wrap' i, at_parent wrap' i s (searched config (xact_start rd) ps rc cur s result) /\
    if wrap then wrap' = true /\ i = cur else (wrap' = true /\ i = s) \/ (wrap' = false /\ i ∈ cyclic n cur s).
Proof.
  intros L G C S W E R Ep. unfold searched. rewrite W. destruct wrap.
  - rewrite (first_usable_wrap config (xact_start rd) ps) by (rewrite L; done). by exists true, cur.
  - destruct (first_usable config (xact_start rd) ps false cur s) as [i|] eqn:F.
    + exists false, i. pose proof F as F'. apply find_some in F' as [I _]. rewrite L in I. split; [|right; split; [done|by apply list_elem_of_In]]. split_and!; try done. rewrite <- L. eapply first_usable_bound; [|exact F]. lia.
    + unfold bypass_ok. rewrite G, NoBypass. exists true, s. split; [done|by left].
Qed.

Lemma next_parent_goes_on st wrap l s result : has_parents st -> at_parent wrap l s result ->
  exists result' st' wrap' i, nextParent config rd st result = Some (result', st') /\ at_parent wrap' i s result' /\
    if wrap then wrap' = true /\ i = (S l mod n)%nat else (wrap' = true /\ i = s) \/ (wrap' = false /\ i ∈ rest n l s).
Proof.
  intros (rc & ps & Hst & Hps & L & G & RR) (R & Rc & Ep & W & EL & ES & Ll & Ls). unfold nextParent. rewrite bool_decide_true by done. cbn [negb]. rewrite Rc, bool_decide_true by done.
  rewrite Hst. cbn [mbind option_bind]. rewrite (find_next config rd rc ps Hps ltac:(lia) result l s) by (done || lia). cbn [mbind option_bind]. rewrite L. unfold rest.
  assert (M : (S l mod n < n)%nat) by (apply Nat.mod_upper_bound; lia). destruct (Nat.eqb_spec (S l mod n) s) as [E|N].
  - unfold bypass_ok. rewrite G, NoBypass. destruct (searched_parent rc ps (S l mod n) s true (with_start (Z.of_nat s) true result)) as (w' & i & A & Hw); [done..|]. destruct Hw as [-> ->].
    eexists _, _, true, _. split; [done|]. split; [exact A|]. destruct wrap; [done|by left].
  - destruct (searched_parent rc ps (S l mod n) s wrap result) as (w' & i & A & Hw); [done..|]. eexists _, _, w', i. split; [done|]. split; [exact A|exact Hw].
Qed.

(** Once round, the parents are taken in turn. *)
Lemma failover_turn sts l s result : Forall has_parents sts -> at_parent true l s result ->
  exists tried final, failover sts result = Some (tried, final) /\ r final = PARENT_SPECIFIED /\ tried = (fun k => ((l + k) mod n)%nat) <$> seq 1 (length sts).
Proof.
  revert l result. induction sts as [|st sts IH]; intros l result F A; cbn [failover length seq fmap list_fmap].
  - exists [], result. split; [done|]. by destruct A.
  - apply Forall_cons in F as [F1 F]. destruct (next_parent_goes_on st true l s result F1 A) as (result' & st' & w' & i & -> & A' & -> & ->). cbn [mbind option_bind]. pose proof A' as (R' & _ & _ & _ & EL' & _ & Li & _). rewrite bool_decide_true by done.
    destruct (IH _ _ F A') as (tried & final & -> & Rf & ->). cbn [mbind option_bind]. eexists _, final. split; [done|]. split; [done|]. rewrite EL', Nat2Z.id. f_equal; [by rewrite Nat.add_1_r|].
    rewrite <- (fmap_S_seq 1), <- list_fmap_compose. apply list_fmap_ext. intros j k _. cbn. rewrite Nat.Div0.add_mod_idemp_l. f_equal. lia.
Qed.

Lemma turn_covers l k i : (l < n)%nat -> (n <= k)%nat -> (i < n)%nat -> i ∈ (fun k => ((l + k) mod n)%nat) <$> seq 1 k.
Proof.
  intros L K I. apply list_elem_of_fmap. destruct (decide (l < i)%nat) as [Lt|Ge].
  - exists (i - l)%nat. split; [rewrite Nat.mod_small; lia|]. apply elem_of_seq. lia.
  - exists (n + i - l)%nat. split; [|apply elem_of_seq; lia]. replace (l + (n + i - l))%nat with (i + 1 * n)%nat by lia. rewrite Nat.Div0.mod_add. by rewrite Nat.mod_small.
Qed.

Lemma failover_goes_on sts wrap l s result : Forall has_parents sts -> at_parent wrap l s result ->
  exists tried final, failover sts result = Some (tried, final) /\ r final = PARENT_SPECIFIED /\ length tried = length sts /\ Forall (fun i => (i < n)%nat) tried /\
    ((length (if wrap then [] else rest n l s) + 1 + n <= length sts)%nat -> forall i, (i < n)%nat -> i ∈ tried).
Proof.
  revert wrap l result. induction sts as [|st sts IH]; intros wrap l result F A; cbn [failover].
  - exists [], result. destruct A as (R & _). split_and!; try done. cbn [length]. lia.
  - apply Forall_cons in F as [F1 F]. destruct (next_parent_goes_on st wrap l s result F1 A) as (result' & st' & w' & i & -> & A' & Hw). cbn [mbind option_bind]. pose proof A' as (R' & _ & _ & _ & EL' & _ & Li & _). rewrite bool_decide_true by done.
    destruct (IH w' i result' F A') as (tried & final & Fo & Rf & Lt & Bd & Cv). rewrite Fo. cbn [mbind option_bind]. eexists _, final. split; [done|]. split; [done|]. split; [cbn; lia|]. rewrite EL', Nat2Z.id. split; [by constructor|].
    intros Hl j Hj. right. cbn [length] in Hl. destruct A as (_ & _ & _ & _ & _ & _ & Ll & Ls). destruct w'.
    + destruct (failover_turn sts i s result' F A') as (tried' & final' & Fo' & _ & ->). rewrite Fo in Fo'. injection Fo' as -> _. apply turn_covers; [done|lia|done].
    + apply Cv; [|done]. destruct wrap; [by destruct Hw|]. destruct Hw as [[? _]|[_ I]]; [done|]. destruct (rest_suffix l s i Ll Ls I) as [pre P]. rewrite P, length_app in Hl. cbn [length] in Hl. lia.
Qed.
End no_bypass.
End failover.

Lemma find_keeps_rec config rd rc result result' rc' : FindParent true config rd rc result = Some (result', rc') -> rec result' = rec result.
Proof.
  assert (C : forall ps i b res res', choose ps i b res = Some res' -> rec res' = rec res) by (intros ps i b res res'; unfold choose; destruct (ps !! _); [by intros [= <-]|done]).
  assert (L : forall rc ps cur res res', find_loop config (xact_start rd) rc ps cur res = Some res' -> rec res' = rec res).
  { intros rc0 ps cur res res'. unfold find_loop. destruct (try_parents _ _ _ _ _ (wrap_around res) _) as [[[i b]|]|]; cbn [mbind option_bind]; [apply C| |done].
    destruct (_ && _); [by intros [= <-]|]. destruct (try_parents _ _ _ _ _ true _) as [[[i b]|]|]; cbn [mbind option_bind]; [|done..]. intros E. by apply C in E. }
  unfold FindParent. destruct (parents rc) as [ps|] eqn:P; [|by intros [= <- _]]. destruct (num_parents rc =? 0); [done|].
  destruct (round_robin rc); cbn [parents mbind option_bind];
    (destruct (find_loop _ _ _ _ _ _) as [res|] eqn:F; [|done]); cbn [mbind option_bind]; intros [= <- _]; by apply L in F.
Qed.

(** What [Match] leaves alone. *)
Definition same_search (a b : ParentResult) : Prop :=
  r a = r b /\ epoch a = epoch b /\ start_parent a = start_parent b /\ last_parent a = last_parent b /\ wrap_around a = wrap_around b.

Lemma match_keeps st ids result : same_search (Match st ids result) result /\ (rec result = None -> rec (Match st ids result) = None \/ exists id, rec (Match st ids result) = Some (Rec id)).
Proof.
  unfold Match. revert result. induction ids as [|i ids IH]; intros result; [by split; [|left]|]. cbn [foldl]. destruct (st !! i) as [rc|]; [|apply IH].
  unfold UpdateMatch. destruct (_ || _); [|apply IH]. destruct (IH (mkResult (r result) (result_hostname result) (result_port result) (line_num rc) (epoch result) (Some (Rec i))
    (last_parent result) (start_parent result) (wrap_around result) (retry result))) as [K R]. split; [exact K|]. intros _. right. clear K R IH.
  assert (G : forall ids result, (exists id, rec result = Some (Rec id)) -> exists id, rec (foldl (fun result id => match st !! id with Some rec => UpdateMatch id rec result | None => result end) result ids) = Some (Rec id)).
  { clear. induction ids as [|j ids IH]; intros result X; [done|]. cbn [foldl]. apply IH. destruct (st !! j); [|done]. unfold UpdateMatch. destruct (_ || _); [by eexists|done]. }
  apply G. by eexists.
Qed.

(** The record a transaction without a parent of the API comes to. *)
Lemma findParent_record config rd st result0 st1 id : apiParentExists rd = false -> findParent config rd st new_ParentResult = Some (result0, st1) -> rec result0 = Some (Rec id) ->
  exists result rc rc', FindParent true config rd rc result = Some (result0, rc') /\ st !! id = Some rc /\ rec result = Some (Rec id) /\
    epoch result = Some (ParentTable config) /\ start_parent result = 0 /\ wrap_around result = false.
Proof.
  intros A. unfold findParent. destruct (ParentEnable config =? 0); [by intros [= <- _]|].
  set (r1 := match api_parent rd with Some (Some _, _) => _ | _ => _ end).
  assert (R1 : r1 = mkResult PARENT_UNDEFINED None 0 (-1) (Some (ParentTable config)) None 0 0 false false).
  { unfold r1. unfold apiParentExists in A. destruct (api_parent rd) as [[[name|] p]|]; [|done..]. by rewrite A. }
  rewrite R1. clear R1 r1. destruct (match_keeps st (matching rd) (mkResult PARENT_UNDEFINED None 0 (-1) (Some (ParentTable config)) None 0 0 false false)) as [(_ & K2 & K3 & _ & K5) KR].
  set (r2 := Match st (matching rd) _) in *. assert (Use : forall i (res : ParentResult), rec res = Some (Rec i) -> (epoch res, start_parent res, wrap_around res) = (Some (ParentTable config), 0, false) ->
    (rc ← st !! i; '(result', rec') ← FindParent true config rd rc res; Some (result', <[i := rec']> st)) = Some (result0, st1) -> rec result0 = Some (Rec id) ->
    exists result rc rc', FindParent true config rd rc result = Some (result0, rc') /\ st !! id = Some rc /\ rec result = Some (Rec id) /\
    epoch result = Some (ParentTable config) /\ start_parent result = 0 /\ wrap_around result = false).
  { intros i res Er [= E1 E2 E3] E R0. destruct (st !! i) as [rc|] eqn:Si; [|done]. cbn [mbind option_bind] in E. destruct (FindParent true config rd rc res) as [[r' rc']|] eqn:F; [|done].
    cbn [mbind option_bind] in E. injection E as -> _. assert (rec result0 = rec res) as Same by (by eapply find_keeps_rec). rewrite R0, Er in Same. injection Same as ->. by exists res, rc, rc'. }
  destruct (KR eq_refl) as [N|[i I]].
  - rewrite N. destruct (DefaultParent config) as [i|]; [|by intros [= <- _]]. apply Use; [done|]. cbn. by rewrite K2, K3, K5.
  - rewrite I. apply Use; [done|]. by rewrite K2, K3, K5.
Qed.

(** C16: What a transaction does whose parents fail one after the other, when the API has
    not set its parent, the parents stay those of one record whose counter of requests is
    below 2^31, and whatever other transactions do to their state in the meantime.  If it
    may go to the server directly, it tries no parent twice and then goes direct, after at
    most as many failures as there are parents.  If it may not, it does not end by itself:
    every failure is followed, without delay or crash, by another parent, and when there are
    enough failures every parent is tried, whether it is marked down or not. *)
Theorem parent_failover config rd id n direct st0 sts result0 st1 : 0 < Z.of_nat n < 2 ^ 31 -> apiParentExists rd = false ->
  Forall (has_parents id n direct) (st0 :: sts) -> (n <= length sts)%nat ->
  findParent config rd st0 new_ParentResult = Some (result0, st1) -> rec result0 = Some (Rec id) -> r result0 = PARENT_SPECIFIED ->
  exists l tried final, last_parent result0 = Z.of_nat l /\ failover config rd sts result0 = Some (tried, final) /\ Forall (fun i => (i < n)%nat) (l :: tried) /\
    if direct && (DNS_ParentOnly config =? 0) then r final = PARENT_DIRECT /\ NoDup (l :: tried)
    else r final = PARENT_SPECIFIED /\ length tried = length sts /\ ((2 * n <= length sts)%nat -> forall i, (i < n)%nat -> i ∈ l :: tried).
Proof.
  intros Hn A Fs Ln E Rc R. apply Forall_cons in Fs as [F0 Fs].
  destruct (findParent_record config rd st0 result0 st1 id A E Rc) as (result & rc & rc' & FP & Si & Er & Ep & Es & Ew).
  destruct F0 as (rc0 & ps & S0 & Hps & Lp & G & RR). rewrite Si in S0. injection S0 as <-.
  rewrite (find_first config rd rc ps Hps ltac:(lia) RR result 0) in FP by (done || lia). injection FP as FP _. rewrite Ew in FP.
  assert (Bi := first_index_bound rd rc ps ltac:(lia)). assert (Bs := first_start_bound rd rc ps ltac:(lia) 0 ltac:(lia)). rewrite Lp in Bi, Bs. set (s := first_start rd rc ps 0) in *.
  destruct (direct && (DNS_ParentOnly config =? 0)) eqn:B.
  - edestruct (searched_bypass config rd id n direct B rc ps (first_index rd rc ps) s) as [(l & I & At)|D]; [..|rewrite FP in D; congruence]; [done..|].
    rewrite FP in At. pose proof At as (_ & _ & _ & _ & EL & _ & Ll & Ls). pose proof (rest_nodup n l s Ll Ls) as Nd.
    destruct (failover_ok config rd id n direct Hn B sts l s result0 Fs At) as (tried & final & Fo & D & Sb); [pose proof (rest_length n l s Ll Ls); lia|].
    exists l, tried, final. split_and!; try done.
    + constructor; [done|]. apply Forall_forall. intros i Ii. pose proof (elem_of_sublist _ _ _ Ii Sb) as Ii'. clear Ii. rename Ii' into Ii. unfold rest in Ii. destruct (_ =? _)%nat; [by apply not_elem_of_nil in Ii|]. by eapply cyclic_bound in Ii.
    + by eapply (sublist_NoDup _ (l :: rest n l s)), sublist_skip.
  - destruct (searched_parent config rd id n direct B rc ps (first_index rd rc ps) s false (with_start (Z.of_nat s) false result)) as (w & l & At & _); try done. rewrite FP in At. pose proof At as (_ & _ & _ & _ & EL & _ & Ll & Ls).
    destruct (failover_goes_on config rd id n direct Hn B sts w l s result0 Fs At) as (tried & final & Fo & Rf & Lt & Bd & Cv). exists l, tried, final. split_and!; try done; [by constructor|].
    intros L2 i Hi. right. apply Cv; [|done]. pose proof (rest_length n l s Ll Ls). destruct w; cbn [length]; lia.
Qed.
