(* ===== verification/ParentConfig.v ===== *)
(** Theorems on the records of parent.config and on parents that fail: the parents that
    are read are the ones that were written, and a parent is left out after as many
    failures as the configuration allows.  At the end are concrete runs. *)

From S2P Require Import Prelude ParseRules HdrToken LibC Tokenizer ParentSelection ParentSelectionFacts.
From Stdlib Require Import Ascii.

(** ** Reading a list of parents *)

Definition delimiters : list Z := chars ",; " ++ [CHAR_HT; CHAR_CR].

(** A name and a port, as they are written. *)
Definition print_parent (p : list Z * Z) : list Z := p.1 ++ ch ":" :: udec 20 p.2 [].

Definition parent_spec_ok (p : list Z * Z) : Prop :=
  p.1 <> [] /\ (length p.1 <= DOMAIN_NAME_MAX)%nat /\ Forall (fun c => one_of c (ch ":" :: delimiters) = false) p.1 /\ 0 <= p.2 < 2 ^ 31.

(** Parents, each with the characters behind it. *)
Definition print_parents (ps : list ((list Z * Z) * list Z)) : list Z := concat ((fun x => print_parent x.1 ++ x.2) <$> ps).

Definition all_delimiters (s : list Z) : Prop := Forall (fun c => one_of c delimiters = true) s.

(** The parent with the [i]th place of the array. *)
Definition new_parent (sch : option (list Z)) (memory : nat -> Z * Z) (i : nat) (p : list Z * Z) : pRecord :=
  mkParent p.1 p.2 0 (memory i).1 (memory i).2 sch.

Lemma find_colon_spec name s : Forall (fun c => one_of c (ch ":" :: delimiters) = false) name -> find_colon (name ++ ch ":" :: s) = Some (name, s).
Proof.
  induction 1 as [|c name N F IH]; [done|]. cbn [app find_colon]. unfold one_of in N. cbn [existsb] in N. apply orb_false_iff in N as [-> _]. by rewrite IH.
Qed.

Lemma scan_digits_spec s n : Forall (fun c => is_digit c = true) s -> s <> [] -> scan_digits n s = Some (spell n s).
Proof.
  intros F. revert n. induction F as [|c s D F IH]; intros n N; [done|]. cbn [scan_digits]. rewrite D. unfold spell. cbn [foldl]. change (ch "0") with 48.
  destruct s as [|d s]; [done|]. by rewrite IH.
Qed.

Lemma port_spec n : 0 <= n < 2 ^ 31 -> Forall (fun c => is_digit c = true) (udec 20 n []) /\ udec 20 n [] <> [] /\ scan_d (udec 20 n []) = Some n.
Proof.
  intros H. destruct (udec_spec 20 n) as [S F]; [lia|]. destruct (udec_cons 19 n) as (c & l & E). split; [done|]. rewrite E in *. split; [done|].
  cbn [scan_d]. pose proof (digit_range c (Forall_inv F)) as R. assert (is_space c = false) as ->.
  { unfold is_space, one_of. cbn [existsb]. unfold CHAR_SP, CHAR_HT, CHAR_LF, CHAR_VT, CHAR_NP, CHAR_CR. rewrite !(proj2 (Z.eqb_neq _ _)) by lia. done. }
  change (ch "-") with 45. change (ch "+") with 43. rewrite !(proj2 (Z.eqb_neq _ _)) by lia. rewrite scan_digits_spec by done. by rewrite S.
Qed.

Lemma skip_all (p : Z -> bool) s : Forall (fun c => p c = true) s -> skip_class p s = [].
Proof. induction 1 as [|c s H _ IH]; [done|]. cbn. by rewrite H. Qed.

Lemma process_parent_spec sch memory i p : parent_spec_ok p -> process_parent sch (memory i) (print_parent p) = inr (new_parent sch memory i p).
Proof.
  destruct p as [name n]. intros (N & L & F & B). cbn [fst snd] in *. destruct (port_spec n B) as (D & _ & S). unfold process_parent, print_parent. cbn [fst snd].
  rewrite find_colon_spec by done. rewrite S, (skip_all is_digit) by done. cbn [skip_class]. rewrite (proj2 (Nat.ltb_ge _ _)) by done. by destruct name.
Qed.

Lemma process_tokens_spec sch memory i ps : Forall parent_spec_ok ps -> process_tokens sch memory i (print_parent <$> ps) = inr (imap (fun k => new_parent sch memory (i + k)) ps).
Proof.
  intros F. revert i. induction F as [|p ps P F IH]; intros i; [done|]. rewrite fmap_cons. cbn [process_tokens imap]. rewrite process_parent_spec by done. rewrite IH.
  cbn. rewrite Nat.add_0_r. do 2 f_equal. apply imap_ext. intros k q _. cbn. f_equal; f_equal; f_equal; lia.
Qed.

Lemma digit_not_of c l : is_digit c = true -> forallb (fun d => negb (is_digit d)) l = true -> one_of c l = false.
Proof.
  intros D. unfold one_of. induction l as [|d l IH]; [done|]. cbn [forallb existsb]. intros [N F]%andb_true_iff. apply orb_false_iff. split; [|by apply IH].
  apply Z.eqb_neq. intros ->. by rewrite D in N.
Qed.

Lemma printed_word p : parent_spec_ok p -> print_parent p <> [] /\ Forall (fun c => one_of c delimiters = false) (print_parent p).
Proof.
  destruct p as [name n]. intros (N & _ & F & B). cbn [fst snd] in *. split; [by destruct name|]. unfold print_parent. cbn [fst snd]. apply Forall_app. split.
  - eapply Forall_impl; [exact F|]. intros c. unfold one_of. cbn [existsb]. by intros [_ ->]%orb_false_iff.
  - constructor; [done|]. destruct (port_spec n B) as (D & _). eapply Forall_impl; [exact D|]. intros c R. by apply digit_not_of.
Qed.

(** C18: What is written as a list of parents is read as these parents: each name and
    port in its place, in the order of the list, none of them marked down, with any of
    the delimiters before, between and behind them. *)
Theorem parents_roundtrip memory lead ps last rec :
  parents rec = None -> all_delimiters lead -> Forall (fun x => parent_spec_ok x.1 /\ x.2 <> [] /\ all_delimiters x.2) ps -> from_option parent_spec_ok True last ->
  ps.*1 ++ option_list last <> [] ->
  ProcessParents memory (lead ++ print_parents ps ++ from_option print_parent [] last) rec =
    (None, set_parents (Some (imap (new_parent (record_scheme rec) memory) (ps.*1 ++ option_list last))) rec).
Proof.
  intros P L F Fl N. unfold ProcessParents. rewrite P. fold delimiters.
  pose proof (tokens_words delimiters lead ((fun x => (print_parent x.1, x.2)) <$> ps) (from_option print_parent [] last) L) as T.
  pose proof (number_of_tokens (new_Tokenizer delimiters) (lead ++ print_parents ps ++ from_option print_parent [] last) false) as NT.
  unfold spread_out in T. rewrite <- list_fmap_compose in T. change (concat _) with (print_parents ps) in T.
  destruct (Initialize _ _ _) as [k t]. cbn [fst snd] in NT, T. subst k. rewrite T; clear T.
  2: { apply Forall_fmap. eapply Forall_impl; [exact F|]. intros [p d] (Ok & Nd & D). destruct (printed_word p Ok). by repeat split. }
  2: { destruct last as [p|]; [by apply printed_word|constructor]. }
  assert (E : ((fun x => (print_parent x.1, x.2)) <$> ps).*1 ++ (if bool_decide (from_option print_parent [] last = []) then [] else [from_option print_parent [] last])
    = print_parent <$> (ps.*1 ++ option_list last)).
  { rewrite fmap_app, <- !list_fmap_compose. f_equal. destruct last as [p|]; cbn [from_option option_list]; [|done]. rewrite bool_decide_false; [done|]. by apply printed_word. }
  rewrite E. rewrite (proj2 (Z.eqb_neq _ _)). 2: { rewrite length_fmap. destruct (_ ++ _); [done|cbn [length]; lia]. }
  rewrite process_tokens_spec; [done|]. apply Forall_app. split; [apply Forall_fmap; eapply Forall_impl; [exact F|by intros x [? _]]|by destruct last; constructor].
Qed.

(** ** Failures *)

(** The parent of a result in a store. *)
Definition parent_of (st : recs) (result : ParentResult) : option pRecord :=
  match rec result with Some (Rec id) => rc ← st !! id; ps ← parents rc; ps !! Z.to_nat (last_parent result) | _ => None end.

(** A result for a parent of a record, as a search leaves it. *)
Definition stands_for (st : recs) (result : ParentResult) (p : pRecord) : Prop :=
  r result = PARENT_SPECIFIED /\ parent_of st result = Some p.

Lemma change_parent_spec f st result p : stands_for st result p -> exists st', change_parent f st result = Some st' /\ stands_for st' result (f p).
Proof.
  intros [R P]. unfold parent_of, change_parent in *. destruct (rec result) as [[|id]|] eqn:Rc; [done| |done]. destruct (st !! id) as [rc|] eqn:S; [|done].
  cbn [mbind option_bind] in *. destruct (parents rc) as [ps|] eqn:Ps; [|done]. cbn [mbind option_bind] in *. pose proof (lookup_lt_Some _ _ _ P).
  rewrite (proj2 (Z.ltb_lt _ _)) by lia. eexists. split; [done|]. split; [done|]. unfold parent_of. rewrite Rc. lazy iota. unfold recs in *. rewrite (lookup_insert_eq (M:=gmap nat)). cbn [mbind option_bind parents set_parents].
  by rewrite list_lookup_alter_eq, P.
Qed.

(** What happens to a parent: a connection to it fails at a time or succeeds, and the
    parent had been chosen to be tried again or not.  A success is recorded only in the
    first case ([handle_response_from_parent] in [HttpTransact.cc]). *)
Inductive outcome := Failed (retried : bool) (now : Z) | Succeeded (retried : bool).

Definition with_retry (b : bool) (result : ParentResult) : ParentResult :=
  mkResult (r result) (result_hostname result) (result_port result) (line_number result) (epoch result) (rec result) (last_parent result) (start_parent result) (wrap_around result) b.

Definition happens (result : ParentResult) (st : option recs) (o : outcome) : option recs :=
  st ← st;
  match o with
  | Failed b now => markParentDown now st (with_retry b result)
  | Succeeded true => recordRetrySuccess st (with_retry true result)
  | Succeeded false => Some st
  end.

(** What happened since the last retry that succeeded. *)
Definition since_retry (os : list outcome) : list outcome := foldl (fun w o => match o with Succeeded true => [] | _ => w ++ [o] end) [] os.

(** The times of the failures, of retries or of others. *)
Definition failures (retried : bool) (os : list outcome) : list Z := omap (fun o => match o with Failed b now => if Bool.eqb b retried then Some now else None | _ => None end) os.

Definition fail_count (w : list outcome) : Z := Z.of_nat (length (failures false w)).

(** The last retry that failed, or else the first failure. *)
Definition failed_at (w : list outcome) : option Z := match last (failures true w) with Some t => Some t | None => head (failures false w) end.

Definition first_retried (os : list outcome) : bool := default false (head (omap (fun o => match o with Failed b _ => Some b | _ => None end) os)).

Definition outcome_ok (o : outcome) : Prop := match o with Failed _ now => 0 < now < 2 ^ 31 | Succeeded _ => True end.

Lemma failures_app b w w' : failures b (w ++ w') = failures b w ++ failures b w'.
Proof. apply omap_app. Qed.

Lemma failed_at_none w : failed_at w = None <-> failures true w = [] /\ failures false w = [].
Proof. unfold failed_at. destruct (failures true w) as [|x l] using rev_ind; [|rewrite last_snoc; split; [done|by intros [? _]; destruct l]]. cbn. by destruct (failures false w); split; try done; intros []. Qed.

(** The fields of a parent agree with what happened to it since the last retry that
    succeeded; [rest] is what happens next. *)
Definition agrees (w rest : list outcome) (p : pRecord) : Prop :=
  failedAt p = default 0 (failed_at w) /\ (forall t, failed_at w = Some t -> 0 < t < 2 ^ 31) /\ (failed_at w = None -> failCount p = 0 \/ first_retried rest = false) /\
  (failed_at w <> None -> failCount p = fail_count w).

Lemma agrees_down w b now rest p : agrees w (Failed b now :: rest) p -> 0 < now < 2 ^ 31 -> fail_count w + 1 < 2 ^ 31 -> agrees (w ++ [Failed b now]) rest (mark_down b now p).
Proof.
  intros (A & B & C & D) N L. unfold agrees, mark_down. assert (Z0 : (failedAt p =? 0) = bool_decide (failed_at w = None)).
  { rewrite A. case_bool_decide as F; [by rewrite F|]. destruct (failed_at w) as [t0|] eqn:E; [|done]. specialize (B t0 eq_refl). apply Z.eqb_neq. cbn. lia. }
  rewrite Z0. assert (FA : failed_at (w ++ [Failed b now]) = if b then Some now else match failed_at w with Some t0 => Some t0 | None => Some now end).
  { unfold failed_at. rewrite !failures_app. destruct b; cbn [failures omap list_omap Bool.eqb]; [by rewrite last_snoc|]. rewrite app_nil_r. destruct (last (failures true w)); [done|]. by destruct (failures false w). }
  assert (FC : fail_count (w ++ [Failed b now]) = fail_count w + (if b then 0 else 1)).
  { unfold fail_count. rewrite failures_app, length_app. destruct b; cbn; lia. }
  assert (C0 : failed_at w = None -> fail_count w = 0) by (intros F; apply failed_at_none in F as [_ F]; unfold fail_count; by rewrite F).
  rewrite FA, FC. destruct b.
  - rewrite orb_true_r. cbn [failedAt failCount default from_option]. split; [unfold id; apply wraps_id; lia|]. split; [by intros ? [= <-]|]. split; [done|]. intros _. destruct (decide (failed_at w = None)) as [F|F]; [|rewrite D by done; lia].
    destruct (C F) as [->|X]; [|done]. rewrite C0 by done. done.
  - rewrite orb_false_r. case_bool_decide as F.
    + rewrite F. cbn [failedAt failCount default from_option]. split; [unfold id; apply wraps_id; lia|]. split; [by intros ? [= <-]|]. split; [done|]. intros _. rewrite C0 by done. done.
    + destruct (failed_at w) as [t0|] eqn:E; [|done]. cbn [failedAt failCount default] in *. split; [done|]. split; [intros ? [= <-]; by apply B|]. split; [done|]. intros _. rewrite D by done. apply wraps_id; unfold fail_count in *; lia.
Qed.

Lemma happens_step st result p w o rest : stands_for st result p -> agrees w (o :: rest) p -> outcome_ok o -> fail_count w + 1 < 2 ^ 31 ->
  exists st' p', happens result (Some st) o = Some st' /\ stands_for st' result p' /\ agrees (match o with Succeeded true => [] | _ => w ++ [o] end) rest p'.
Proof.
  intros S A O L. pose proof S as [R P]. assert (NE : rec result <> Some ExtApi) by (intros E; unfold parent_of in P; by rewrite E in P).
  destruct o as [b now|[|]]; cbn [happens mbind option_bind].
  - unfold markParentDown. cbn [r with_retry rec]. rewrite bool_decide_true, bool_decide_false by done. cbn [negb].
    destruct (change_parent_spec (mark_down b now) st result p S) as (st' & E & S'). change (change_parent (mark_down (retry (with_retry b result)) now) st (with_retry b result)) with (change_parent (mark_down b now) st result).
    rewrite E. eexists _, _. split; [done|]. split; [exact S'|]. by apply agrees_down.
  - unfold recordRetrySuccess. cbn [r with_retry rec retry negb]. rewrite bool_decide_true, bool_decide_false by done. cbn [negb].
    destruct (change_parent_spec (fun p => mkParent (hostname p) (port p) 0 0 (upAt p) (scheme p)) st result p S) as (st' & E & S').
    eexists _, _. split; [exact E|]. split; [exact S'|]. split; [done|]. split; [done|]. split; [by left|done].
  - exists st, p. split; [done|]. split; [done|]. destruct A as (A & B & C & D). assert (Ef : forall b, failures b (w ++ [Succeeded false]) = failures b w) by (intros b; rewrite failures_app; apply app_nil_r).
    assert (Ea : failed_at (w ++ [Succeeded false]) = failed_at w) by (unfold failed_at; by rewrite !Ef). unfold agrees, fail_count. rewrite Ea, Ef. done.
Qed.

Lemma history_step result os : forall w st p, stands_for st result p -> agrees w os p -> Forall outcome_ok os -> Z.of_nat (length w + length os) < 2 ^ 31 ->
  exists st' p', foldl (happens result) (Some st) os = Some st' /\ stands_for st' result p' /\ agrees (foldl (fun w o => match o with Succeeded true => [] | _ => w ++ [o] end) w os) [] p'.
Proof.
  induction os as [|o os IH]; intros w st p S A O L; [by exists st, p|]. apply Forall_cons in O as [O Os]. cbn [length] in L.
  assert (Lw : fail_count w <= Z.of_nat (length w)). { unfold fail_count, failures. clear. induction w as [|x w IHw]; [done|]. cbn [omap list_omap length]. destruct x as [b now|b]; [destruct (Bool.eqb b false)|]; cbn [length]; lia. }
  destruct (happens_step st result p w o os S A O) as (st' & p' & E & S' & A'); [lia|]. cbn [foldl]. rewrite E. apply (IH _ _ p'); [done..|]. destruct o as [b now|[|]]; rewrite ?length_app; cbn [length]; lia.
Qed.

(** C17: A parent is left out when, since the last retry of it that succeeded,
    [FailThreshold] connections to it have failed that were not retries, and not before; it
    is due for a retry [ParentRetryTime] after the last retry that failed since then, or if
    there is none after the first failure; and a retry that succeeds makes it a parent like
    any other.  Neither a retry that fails nor a success without a retry changes the count. *)
Theorem parent_marked_down config t st result p os : stands_for st result p -> failedAt p = 0 -> failCount p = 0 \/ first_retried os = false -> Forall outcome_ok os ->
  Z.of_nat (length os) < 2 ^ 31 -> 0 < FailThreshold config ->
  exists st' p', foldl (happens result) (Some st) os = Some st' /\ stands_for st' result p' /\
    (parent_up config p' = true <-> fail_count (since_retry os) < FailThreshold config) /\
    match failed_at (since_retry os) with Some t0 => retry_due config t p' = (i32 (t0 + ParentRetryTime config) <? t) | None => failedAt p' = 0 end.
Proof.
  intros S F0 C0 O L T. destruct (history_step result os [] st p S) as (st' & p' & E & S' & A & B & _ & D); [by repeat split|done|done|]. exists st', p'. split; [done|]. split; [done|]. fold (since_retry os) in *. unfold parent_up, retry_due. rewrite A.
  destruct (failed_at (since_retry os)) as [t0|] eqn:Ef; cbn [default from_option].
  - specialize (B t0 eq_refl). unfold id. rewrite (proj2 (Z.eqb_neq _ _)) by lia. rewrite D by done. cbn [orb]. split; [apply Z.ltb_lt|done].
  - apply failed_at_none in Ef as [_ Ef]. unfold fail_count. rewrite Ef. cbn. split; [|done]. split; [lia|done].
Qed.

(** ** Concrete runs *)

Definition demo_config : ParentConfigParams := mkParams 1 None 300 1 2 0.
Definition demo_parents : list pRecord := [mkParent (chars "a") 80 0 0 0 None; mkParent (chars "b") 81 0 0 0 None].
Definition demo_record (rr : ParentRR_t) (next : Z) (ps : list pRecord) : ParentRecord := mkRecord 5 (Some ps) None rr next true.
Definition demo_store : recs := {[ 7%nat := demo_record P_STRICT_ROUND_ROBIN 3 demo_parents ]}.
Definition demo_request : RequestData := mkRD 1000 17 None [7%nat].

Lemma parents_roundtrip_witness :
  ProcessParents (fun _ => (9, 8)) (chars "; a:80, b:8080;") new_ParentRecord =
    (None, set_parents (Some [mkParent (chars "a") 80 0 9 8 None; mkParent (chars "b") 8080 0 9 8 None]) new_ParentRecord).
Proof.
  apply (parents_roundtrip (fun _ => (9, 8)) (chars "; ") [((chars "a", 80), chars ", "); ((chars "b", 8080), chars ";")] None new_ParentRecord).
  - done.
  - repeat constructor.
  - repeat constructor; try done; cbn; lia.
  - done.
  - done.
Defined.

Definition demo_result : ParentResult := mkResult PARENT_SPECIFIED (Some (chars "b")) 81 5 (Some 1%nat) (Some (Rec 7)) 1 1 false false.
(** The record may not be left for the server, and both parents are down. *)
Definition down_record (next : Z) : ParentRecord := mkRecord 5 (Some [mkParent (chars "a") 80 999 2 0 None; mkParent (chars "b") 81 999 2 0 None]) None P_STRICT_ROUND_ROBIN next false.
Definition parent_only : recs := {[ 7%nat := mkRecord 5 (Some demo_parents) None P_STRICT_ROUND_ROBIN 3 false ]}.
Definition parents_down : recs := {[ 7%nat := down_record 4 ]}.

(** A request that may go direct tries the second parent, then the first, and goes direct;
    one that may not, whose parents are both marked down in the meantime, goes round. *)
Lemma parent_failover_witness :
  (exists l tried final, 1 = Z.of_nat l /\ failover demo_config demo_request [demo_store; demo_store] demo_result = Some (tried, final) /\
    Forall (fun i => (i < 2)%nat) (l :: tried) /\ r final = PARENT_DIRECT /\ NoDup (l :: tried)) /\
  (exists l tried final, 1 = Z.of_nat l /\ failover demo_config demo_request [parents_down; parents_down; parents_down; parents_down] demo_result = Some (tried, final) /\
    Forall (fun i => (i < 2)%nat) (l :: tried) /\ r final = PARENT_SPECIFIED /\ length tried = 4%nat /\ ((4 <= 4)%nat -> forall i, (i < 2)%nat -> i ∈ l :: tried)).
Proof.
  split.
  - apply (parent_failover demo_config demo_request 7 2 true demo_store [demo_store; demo_store] demo_result (<[7%nat := demo_record P_STRICT_ROUND_ROBIN 4 demo_parents]> demo_store));
      [lia|done| |cbn; lia|by vm_compute|done|done].
    assert (H : has_parents 7 2 true demo_store) by (exists (demo_record P_STRICT_ROUND_ROBIN 3 demo_parents), demo_parents; cbn; split_and!; done || lia). by repeat constructor.
  - apply (parent_failover demo_config demo_request 7 2 false parent_only [parents_down; parents_down; parents_down; parents_down] demo_result (<[7%nat := mkRecord 5 (Some demo_parents) None P_STRICT_ROUND_ROBIN 4 false]> parent_only));
      [lia|done| |cbn; lia|by vm_compute|done|done].
    assert (H : has_parents 7 2 false parents_down) by (exists (down_record 4); eexists; cbn; split_and!; done || lia).
    constructor; [|by repeat constructor]. exists (mkRecord 5 (Some demo_parents) None P_STRICT_ROUND_ROBIN 3 false), demo_parents. cbn. split_and!; done || lia.
Defined.

(** Two failures take the parent out, although a connection in between succeeded; a retry
    that fails puts the next retry off, and one that succeeds brings the parent back. *)
Lemma parent_marked_down_witness : let result := mkResult PARENT_SPECIFIED None 81 5 (Some 1%nat) (Some (Rec 7)) 1 1 false false in
  (exists st' p', foldl (happens result) (Some demo_store) [Failed false 1000; Succeeded false; Failed false 1020; Failed true 1400] = Some st' /\
    stands_for st' result p' /\ (parent_up demo_config p' = true <-> 2 < 2) /\ retry_due demo_config 1600 p' = false) /\
  (exists st' p', foldl (happens result) (Some demo_store) [Failed false 1000; Failed false 1020; Failed true 1400; Succeeded true; Failed false 1800] = Some st' /\
    stands_for st' result p' /\ (parent_up demo_config p' = true <-> 1 < 2) /\ retry_due demo_config 2101 p' = true).
Proof.
  split.
  - apply (parent_marked_down demo_config 1600 demo_store (mkResult PARENT_SPECIFIED None 81 5 (Some 1%nat) (Some (Rec 7)) 1 1 false false) (mkParent (chars "b") 81 0 0 0 None) [Failed false 1000; Succeeded false; Failed false 1020; Failed true 1400]);
      [split; [done|by vm_compute]|done|by left|by repeat constructor|cbn; lia|done].
  - apply (parent_marked_down demo_config 2101 demo_store (mkResult PARENT_SPECIFIED None 81 5 (Some 1%nat) (Some (Rec 7)) 1 1 false false) (mkParent (chars "b") 81 0 0 0 None) [Failed false 1000; Failed false 1020; Failed true 1400; Succeeded true; Failed false 1800]);
      [split; [done|by vm_compute]|done|by left|by repeat constructor|cbn; lia|done].
Defined.

(** *** What modelling showed *)

(** A parent set through the API is given up for a parent of a line that matches, and the
    result then has no table: the first failure of that parent is a release assertion. *)
Lemma api_parent_overridden :
  let rd := mkRD 1000 17 (Some (Some (chars "api"), 3128)) [7%nat] in
  exists result st', findParent demo_config rd demo_store new_ParentResult = Some (result, st') /\
    result_hostname result = Some (chars "b") /\ rec result = Some (Rec 7) /\ epoch result = None /\ nextParent demo_config rd st' result = None.
Proof. eexists _, _. split; [vm_compute; reflexivity|]. split_and!; reflexivity. Qed.

(** The counter of the round robin is read as a signed number: from its 2^31st request
    on the index is negative and the read is before the array. *)
Lemma round_robin_overflows : FindParent true demo_config demo_request (demo_record P_STRICT_ROUND_ROBIN (2 ^ 31 + 1) demo_parents) new_ParentResult = None.
Proof. by vm_compute. Qed.

(** With the round robin by the address of the client the search ends at the parent 0,
    not where it began: the parents before the one of the address are not looked at. *)
Lemma hash_search_stops_early :
  fst <$> FindParent true demo_config demo_request
    (demo_record P_HASH_ROUND_ROBIN 0 [mkParent (chars "a") 80 0 0 0 None; mkParent (chars "b") 81 999 2 0 None]) new_ParentResult = Some (with_r PARENT_DIRECT new_ParentResult).
Proof. by vm_compute. Qed.

(** A port is any number that [sscanf] reads. *)
Lemma any_port : (ProcessParents (fun _ => (0, 0)) (chars "a:0 b:99999") new_ParentRecord).1 = None.
Proof. by vm_compute. Qed.

(** Of two lines that match the earlier one is taken, in whichever order they are tried;
    the comment on [UpdateMatch] says the one that appears later. *)
Lemma earlier_line_taken :
  let st : recs := {[ 1%nat := demo_record P_NO_ROUND_ROBIN 0 demo_parents; 2%nat := mkRecord 9 (Some demo_parents) None P_NO_ROUND_ROBIN 0 true ]} in
  let start := mkResult PARENT_UNDEFINED None 0 (-1) None None 0 0 false false in
  rec (Match st [1%nat; 2%nat] start) = Some (Rec 1) /\ rec (Match st [2%nat; 1%nat] start) = Some (Rec 1).
Proof. by vm_compute. Qed.
