(* ===== verification/MTHashtable.v ===== *)
(** The hash table of the congestion database ([proxy/congest/MT_hashtable.h]): buckets
    of chains, which grow after a collection of what is no longer needed, divided into
    partitions with a lock each.

    A chain is the list of its entries; the data of an entry is a pointer that is not
    null, and the null pointer is [None].  The function that collects an entry may change
    the objects the entries point to, and the state [St] is theirs.  The address of a link,
    which an iterator holds, is the bucket and the number of the link in its chain: an
    iterator is used under the lock of the partition, and no entry is added meanwhile.
    [None] for a whole operation is a division by zero, an allocation of a negative size or
    a read outside the array. *)

From S2P Require Import Prelude.

Definition MT_HASHTABLE_PARTITION_BITS : Z := 6.
Definition MT_HASHTABLE_PARTITIONS : Z := Z.shiftl 1 MT_HASHTABLE_PARTITION_BITS.
Definition MT_HASHTABLE_PARTITION_MASK : Z := MT_HASHTABLE_PARTITIONS - 1.
Definition MT_HASHTABLE_MAX_CHAIN_AVG_LEN : Z := 4.

(** [cur_buck] and [ppcur]. *)
Record HashTableIteratorState := mkIter { cur_buck : nat; link : nat }.

Record HashTable (D : Type) := mkTable { buckets : list (list (Z * D)); cur_size : Z }.
Arguments mkTable {D}.
Arguments buckets {D}.
Arguments cur_size {D}.

Definition bucket_num {D} (t : HashTable D) : Z := Z.of_nat (length (buckets t)).

Definition bucket_id (key a_bucket_num : Z) : nat := Z.to_nat (Z.lxor (Z.shiftr key MT_HASHTABLE_PARTITION_BITS) key mod a_bucket_num).

Section table.
Context {D : Type} `{EqDecision D} {St : Type}.
Variables (m_gc_func : option (D -> St -> bool * St)) (m_pre_gc_func : option (St -> St)).
Implicit Types (t : HashTable D) (st : St).

Definition new_HashTable (size : Z) : HashTable D := mkTable (replicate (Z.to_nat size) []) 0.

(** The loop that looks for a key in a chain; the data of its entry replaced; the entry
    taken out. *)
Fixpoint find_entry (key : Z) (chain : list (Z * D)) : option D :=
  match chain with (k, d) :: chain' => if k =? key then Some d else find_entry key chain' | [] => None end.

Fixpoint set_data (key : Z) (data : D) (chain : list (Z * D)) : list (Z * D) :=
  match chain with (k, d) :: chain' => if k =? key then (k, data) :: chain' else (k, d) :: set_data key data chain' | [] => [] end.

Fixpoint unlink (key : Z) (chain : list (Z * D)) : list (Z * D) :=
  match chain with (k, d) :: chain' => if k =? key then chain' else (k, d) :: unlink key chain' | [] => [] end.

(** ** Garbage collection and growth *)

Fixpoint gc_chain (gc : D -> St -> bool * St) (chain : list (Z * D)) (size : Z) st : list (Z * D) * Z * St :=
  match chain with
  | [] => ([], size, st)
  | (k, d) :: chain' =>
    let '(gone, st) := gc d st in
    if gone then gc_chain gc chain' (i32 (size - 1)) st
    else let '(chain', size, st) := gc_chain gc chain' size st in ((k, d) :: chain', size, st)
  end.

Fixpoint gc_buckets (gc : D -> St -> bool * St) (bs : list (list (Z * D))) (size : Z) st : list (list (Z * D)) * Z * St :=
  match bs with
  | [] => ([], size, st)
  | chain :: bs' =>
    let '(chain, size, st) := gc_chain gc chain size st in
    let '(bs', size, st) := gc_buckets gc bs' size st in (chain :: bs', size, st)
  end.

Definition GC t st : HashTable D * St :=
  match m_gc_func with
  | None => (t, st)
  | Some gc =>
    let st := match m_pre_gc_func with Some pre => pre st | None => st end in
    let '(bs, size, st) := gc_buckets gc (buckets t) (cur_size t) st in (mkTable bs size, st)
  end.

(** An entry moved to the front of its chain in the new array. *)
Definition move_entry (new_bucket_num : Z) (new_buckets : list (list (Z * D))) (e : Z * D) : list (list (Z * D)) :=
  alter (cons e) (bucket_id e.1 new_bucket_num) new_buckets.

Definition resize (size : Z) t : option (HashTable D) :=
  if size <=? 0 then None
  else Some (mkTable (foldl (foldl (move_entry size)) (replicate (Z.to_nat size) []) (buckets t)) (cur_size t)).

Definition full t : bool := Z.quot (cur_size t) (bucket_num t) >? MT_HASHTABLE_MAX_CHAIN_AVG_LEN.

(** ** Operations *)

Definition insert_entry (key : Z) (data : D) t st : option (option D * HashTable D * St) :=
  let id := bucket_id key (bucket_num t) in
  chain ← buckets t !! id;
  match find_entry key chain with
  | Some d => Some (if decide (data = d) then (None, t, st) else (Some d, mkTable (<[id := set_data key data chain]> (buckets t)) (cur_size t), st))
  | None =>
    let t := mkTable (<[id := (key, data) :: chain]> (buckets t)) (i32 (cur_size t + 1)) in
    if full t then
      let '(t, st) := GC t st in
      if full t then t ← resize (i32 (bucket_num t * 2)) t; Some (None, t, st) else Some (None, t, st)
    else Some (None, t, st)
  end.

Definition remove_entry (key : Z) t : option (option D * HashTable D) :=
  let id := bucket_id key (bucket_num t) in
  chain ← buckets t !! id;
  match find_entry key chain with
  | Some d => Some (Some d, mkTable (<[id := unlink key chain]> (buckets t)) (i32 (cur_size t - 1)))
  | None => Some (None, t)
  end.

Definition lookup_entry (key : Z) t : option (option D) :=
  chain ← buckets t !! bucket_id key (bucket_num t); Some (find_entry key chain).

(** ** Iteration *)

Definition first_entry (bucket : nat) t : option (option D * HashTableIteratorState) :=
  chain ← buckets t !! bucket; Some (snd <$> head chain, mkIter bucket 0).

(** [*ppcur]: the entry the link points to. *)
Definition cur_entry t (s : HashTableIteratorState) : option D := chain ← buckets t !! cur_buck s; snd <$> chain !! link s.

Definition next_entry t (s : HashTableIteratorState) : option D * HashTableIteratorState :=
  match cur_entry t s with
  | Some _ => let s' := mkIter (cur_buck s) (S (link s)) in (cur_entry t s', s')
  | None => (None, s)
  end.

Definition remove_current t (s : HashTableIteratorState) : option D * HashTable D :=
  match cur_entry t s with
  | Some d => (Some d, mkTable (alter (delete (link s)) (cur_buck s) (buckets t)) (i32 (cur_size t - 1)))
  | None => (None, t)
  end.

(** The first entry of the buckets from [i] on. *)
Fixpoint first_from (k i : nat) t (s : HashTableIteratorState) : option (option D * HashTableIteratorState) :=
  match k with
  | O => Some (None, s)
  | S k' => '(ret, s) ← first_entry i t; match ret with Some d => Some (Some d, s) | None => first_from k' (S i) t s end
  end.

(** *** Of a partition *)

Definition part_first t (s : HashTableIteratorState) : option (option D * HashTableIteratorState) := first_from (length (buckets t)) 0 t s.

Definition part_next t (s : HashTableIteratorState) : option (option D * HashTableIteratorState) :=
  match next_entry t s with
  | (Some d, s) => Some (Some d, s)
  | (None, s) => first_from (length (buckets t) - S (cur_buck s)) (S (cur_buck s)) t s
  end.

Definition part_cur t (s : HashTableIteratorState) : option (option D * HashTableIteratorState) :=
  match cur_entry t s with Some d => Some (Some d, s) | None => part_next t s end.

(** The loops of the database over the entries of a partition: an entry for which the
    test [gone] holds is taken out and released. *)
Fixpoint sweep (fuel : nat) (gone : D -> St -> bool * St) (release : D -> St -> St) (tmp : option D) (s : HashTableIteratorState) t st : option (HashTable D * St) :=
  match tmp, fuel with
  | None, _ => Some (t, st)
  | Some _, O => None
  | Some d, S fuel' =>
    let '(b, st) := gone d st in
    if b then
      let '(_, t) := remove_current t s in
      '(tmp, s) ← part_cur t s; sweep fuel' gone release tmp s t (release d st)
    else '(tmp, s) ← part_next t s; sweep fuel' gone release tmp s t st
  end.

Definition sweep_part (gone : D -> St -> bool * St) (release : D -> St -> St) t st : option (HashTable D * St) :=
  '(tmp, s) ← part_first t (mkIter 0 0); sweep (length (concat (buckets t))) gone release tmp s t st.

(** ** The table and its partitions *)

Definition part_num (key : Z) : nat := Z.to_nat (Z.land key MT_HASHTABLE_PARTITION_MASK).

Definition new_MTHashTable (size : Z) : list (HashTable D) := replicate (Z.to_nat MT_HASHTABLE_PARTITIONS) (new_HashTable size).

Definition mt_insert_entry (key : Z) (data : D) (m : list (HashTable D)) st : option (option D * list (HashTable D) * St) :=
  t ← m !! part_num key; '(old, t, st) ← insert_entry key data t st; Some (old, <[part_num key := t]> m, st).

Definition mt_remove_entry (key : Z) (m : list (HashTable D)) : option (option D * list (HashTable D)) :=
  t ← m !! part_num key; '(old, t) ← remove_entry key t; Some (old, <[part_num key := t]> m).

Definition mt_lookup_entry (key : Z) (m : list (HashTable D)) : option (option D) := t ← m !! part_num key; lookup_entry key t.
End table.

Example insert_twice :
  let ins := insert_entry (D := nat) (St := unit) None None in
  (r ← ins 70 1%nat (new_HashTable 2) tt; '(_, t, _) ← Some r; '(old, t, _) ← ins 70 2%nat t tt; Some (old, lookup_entry 70 t, lookup_entry 71 t, cur_size t)) =
    Some (Some 1%nat, Some (Some 2%nat), Some None, 1).
Proof. by vm_compute. Qed.

(** * Theorems on the hash table of the congestion database: a table is a finite map, each
    of its operations is the one of the map, collections and growth included, and an
    iteration comes to each entry once. *)

(** ** Lists of lists *)

Lemma concat_split {A} (bs : list (list A)) i chain : bs !! i = Some chain -> concat bs = concat (take i bs) ++ chain ++ concat (drop (S i) bs).
Proof. intros H. by rewrite <- (take_drop_middle bs i chain H) at 1; rewrite concat_app. Qed.

Lemma concat_insert {A} (bs : list (list A)) i chain chain' : bs !! i = Some chain ->
  concat (<[i := chain']> bs) = concat (take i bs) ++ chain' ++ concat (drop (S i) bs).
Proof.
  intros H. pose proof (lookup_lt_Some _ _ _ H). rewrite (concat_split _ i chain') by by apply list_lookup_insert_eq.
  by rewrite take_insert_ge, drop_insert_lt by lia.
Qed.

Lemma elem_of_concat {A} (bs : list (list A)) x : x ∈ concat bs <-> exists i chain, bs !! i = Some chain /\ x ∈ chain.
Proof.
  rewrite list_elem_of_In, in_concat. split.
  - intros (chain & C & X). apply list_elem_of_In, list_elem_of_lookup in C as [i C]. exists i, chain. by rewrite list_elem_of_In.
  - intros (i & chain & C & X). exists chain. split; [by eapply list_elem_of_In, list_elem_of_lookup_2|by apply list_elem_of_In].
Qed.

Section facts.
Context {D : Type} `{EqDecision D} {St : Type}.
Variables (m_gc_func : option (D -> St -> bool * St)) (m_pre_gc_func : option (St -> St)).
Implicit Types (t : HashTable D) (st : St) (d data : D) (chain l : list (Z * D)).

Definition entries t : list (Z * D) := concat (buckets t).

Definition contents t : gmap Z D := list_to_map (entries t).

(** A key belongs to the [i]th of [n] buckets. *)
Definition hashed (n : Z) (i : nat) (e : Z * D) : Prop := 0 <= e.1 < 2 ^ 64 /\ bucket_id e.1 n = i.

Definition all_hashed (n : Z) (bs : list (list (Z * D))) : Prop := forall i chain, bs !! i = Some chain -> Forall (hashed n i) chain.

(** What holds between operations: each entry in its bucket, no key twice, the count is
    right, and there are at most four entries to a bucket. *)
Definition table_wf t : Prop :=
  0 < bucket_num t /\ all_hashed (bucket_num t) (buckets t) /\ NoDup (entries t).*1 /\ cur_size t = Z.of_nat (length (entries t)) /\
  cur_size t < 2 ^ 31 /\ full t = false.

(** ** Chains *)

Lemma find_entry_some key chain d : find_entry key chain = Some d -> exists l1 l2, chain = l1 ++ (key, d) :: l2 /\ unlink key chain = l1 ++ l2 /\
  forall data, set_data key data chain = l1 ++ (key, data) :: l2.
Proof.
  induction chain as [|[k x] chain IH]; [done|]. cbn [find_entry unlink set_data]. destruct (Z.eqb_spec k key) as [->|N].
  - intros [= ->]. by exists [], chain.
  - intros F. destruct (IH F) as (l1 & l2 & -> & E1 & E2). exists ((k, x) :: l1), l2. cbn. rewrite E1. split; [done|]. split; [done|]. intros data. by rewrite E2.
Qed.

Lemma find_entry_none key chain : find_entry key chain = None -> key ∉ chain.*1.
Proof.
  induction chain as [|[k x] chain IH]; [intros _; apply not_elem_of_nil|]. cbn. destruct (Z.eqb_spec k key) as [|N]; [done|]. intros F. apply not_elem_of_cons. split; [done|by apply IH].
Qed.

Lemma find_entry_elem key d chain : (key, d) ∈ chain -> exists d', find_entry key chain = Some d'.
Proof.
  destruct (find_entry key chain) eqn:F; [by eexists|]. intros I. exfalso. eapply find_entry_none; [exact F|]. apply list_elem_of_fmap. by exists (key, d).
Qed.

Lemma bucket_id_lt key n : 0 < n -> (bucket_id key n < Z.to_nat n)%nat.
Proof. intros. unfold bucket_id. pose proof (Z.mod_pos_bound (Z.lxor (Z.shiftr key MT_HASHTABLE_PARTITION_BITS) key) n). lia. Qed.

Lemma bucket_exists key t : 0 < bucket_num t -> exists chain, buckets t !! bucket_id key (bucket_num t) = Some chain.
Proof. intros H. pose proof (bucket_id_lt key _ H). unfold bucket_num in *. apply lookup_lt_is_Some_2. lia. Qed.

(** What is looked for in the bucket of its key is looked for in the table. *)
Lemma find_bucket key t chain : table_wf t -> 0 <= key < 2 ^ 64 -> buckets t !! bucket_id key (bucket_num t) = Some chain -> find_entry key chain = contents t !! key.
Proof.
  intros (_ & H & N & _) K B. destruct (find_entry key chain) as [d|] eqn:F; symmetry.
  - apply elem_of_list_to_map; [done|]. apply elem_of_concat. exists (bucket_id key (bucket_num t)), chain. split; [done|].
    apply find_entry_some in F as (l1 & l2 & -> & _). apply elem_of_app. right. by constructor.
  - apply not_elem_of_list_to_map_1. intros I. apply list_elem_of_fmap in I as ([k d] & -> & I). apply elem_of_concat in I as (i & chain' & B' & I).
    pose proof (H i chain' B') as F'. rewrite Forall_forall in F'. destruct (F' _ I) as [_ <-]. rewrite B in B'. injection B' as <-. cbn [fst] in *. apply find_entry_elem in I as [d' I]. congruence.
Qed.

Lemma lookup_spec key t : table_wf t -> 0 <= key < 2 ^ 64 -> lookup_entry key t = Some (contents t !! key).
Proof.
  intros W K. pose proof W as (B & _). destruct (bucket_exists key t B) as [chain E]. unfold lookup_entry. rewrite E. cbn [mbind option_bind]. by rewrite (find_bucket key t chain).
Qed.

(** ** One bucket replaced *)

Lemma all_hashed_insert n bs i chain : all_hashed n bs -> Forall (hashed n i) chain -> all_hashed n (<[i := chain]> bs).
Proof.
  intros H F j c. destruct (decide (i = j)) as [<-|N].
  - intros E. pose proof (lookup_lt_Some _ _ _ E) as L. rewrite length_insert in L. rewrite list_lookup_insert_eq in E by done. by injection E as <-.
  - rewrite list_lookup_insert_ne by done. apply H.
Qed.

Lemma bucket_num_insert i chain t size : bucket_num (mkTable (<[i := chain]> (buckets t)) size) = bucket_num t.
Proof. unfold bucket_num. cbn [buckets]. by rewrite length_insert. Qed.

Lemma entries_perm {k d l} t : table_wf t -> entries t ≡ₚ (k, d) :: l -> contents t !! k = Some d /\ k ∉ l.*1 /\ NoDup l.*1 /\ delete k (contents t) = list_to_map l.
Proof.
  intros (_ & _ & N & _) P. assert (N' : NoDup ((k, d) :: l).*1) by by rewrite <- P. apply NoDup_cons in N' as [K N']. unfold contents.
  rewrite (list_to_map_proper _ _ N P). cbn [list_to_map]. split; [by apply lookup_insert_eq|]. split; [done|]. split; [done|].
  cbn. rewrite delete_insert_eq, delete_id; [done|]. by apply not_elem_of_list_to_map_1.
Qed.

Lemma remove_spec key t : table_wf t -> 0 <= key < 2 ^ 64 ->
  exists t', remove_entry key t = Some (contents t !! key, t') /\ table_wf t' /\ contents t' = delete key (contents t) /\ bucket_num t' = bucket_num t.
Proof.
  intros W K. pose proof W as (B & H & N & C & L & Fu). destruct (bucket_exists key t B) as [chain E]. unfold remove_entry. rewrite E. cbn [mbind option_bind].
  rewrite <- (find_bucket key t chain) by done. destruct (find_entry key chain) as [d|] eqn:F.
  - apply find_entry_some in F as (l1 & l2 & -> & -> & _). eexists. split; [done|].
    assert (P : entries t ≡ₚ (key, d) :: concat (<[bucket_id key (bucket_num t) := l1 ++ l2]> (buckets t))).
    { unfold entries. rewrite (concat_split _ _ _ E), (concat_insert _ _ _ _ E). rewrite <- !app_assoc. cbn [app]. by rewrite <- !Permutation_middle. }
    destruct (entries_perm t W P) as (_ & _ & N' & D'). pose proof (Permutation_length P) as PL. cbn [length] in PL.
    split; [|by rewrite D', bucket_num_insert]. unfold table_wf. rewrite bucket_num_insert. unfold entries. cbn [buckets cur_size]. rewrite (wraps_id 32) by lia.
    split_and!; try done; try lia.
    + apply all_hashed_insert; [done|]. pose proof (H _ _ E) as Fc. apply Forall_app in Fc as [F1 F2]. apply Forall_app. split; [done|by apply Forall_cons in F2 as [_ F2]].
    + unfold full in *. rewrite bucket_num_insert. cbn [cur_size]. rewrite Z.gtb_ltb in *. apply Z.ltb_ge in Fu. apply Z.ltb_ge. etransitivity; [|exact Fu]. apply Z.quot_le_mono; lia.
  - exists t. split; [done|]. split; [done|]. split; [|done]. rewrite delete_id; [done|]. by rewrite <- (find_bucket key t chain).
Qed.

(** ** Collection *)

(** A collection of a list of entries: those that stay, in their order. *)
Fixpoint gc_list (gc : D -> St -> bool * St) l st : list (Z * D) * St :=
  match l with
  | [] => ([], st)
  | (k, d) :: l' =>
    let '(gone, st) := gc d st in
    let '(l', st) := gc_list gc l' st in (if gone then l' else (k, d) :: l', st)
  end.

Lemma gc_list_app gc l1 l2 st : gc_list gc (l1 ++ l2) st = let '(l1', st) := gc_list gc l1 st in let '(l2', st) := gc_list gc l2 st in (l1' ++ l2', st).
Proof.
  revert st. induction l1 as [|[k d] l1 IH]; intros st; cbn [app gc_list]; [by destruct (gc_list gc l2 st)|].
  destruct (gc d st) as [gone st1]. rewrite IH. destruct (gc_list gc l1 st1) as [l1' st2], (gc_list gc l2 st2) as [l2' st3]. by destruct gone.
Qed.

Lemma gc_list_sublist gc l st : sublist (gc_list gc l st).1 l.
Proof.
  revert st. induction l as [|[k d] l IH]; intros st; [constructor|]. cbn [gc_list]. destruct (gc d st) as [gone st1]. specialize (IH st1).
  destruct (gc_list gc l st1) as [l' st2]. cbn [fst] in *. destruct gone; by constructor.
Qed.

Lemma gc_chain_spec gc chain size st : Z.of_nat (length chain) <= size < 2 ^ 31 ->
  gc_chain gc chain size st = let '(chain', st') := gc_list gc chain st in (chain', size - Z.of_nat (length chain) + Z.of_nat (length chain'), st').
Proof.
  revert size st. induction chain as [|[k d] chain IH]; intros size st L; cbn [gc_chain gc_list length] in *; [do 2 f_equal; lia|].
  destruct (gc d st) as [gone st1]. destruct gone.
  - rewrite wraps_id, IH by lia. destruct (gc_list gc chain st1) as [chain' st2]. do 2 f_equal. lia.
  - rewrite IH by lia. destruct (gc_list gc chain st1) as [chain' st2]. cbn [length]. do 2 f_equal. lia.
Qed.

Lemma gc_buckets_spec gc bs size st : Z.of_nat (length (concat bs)) <= size < 2 ^ 31 -> exists bs' size' st',
  gc_buckets gc bs size st = (bs', size', st') /\ gc_list gc (concat bs) st = (concat bs', st') /\ Forall2 sublist bs' bs /\
  size' = size - Z.of_nat (length (concat bs)) + Z.of_nat (length (concat bs')).
Proof.
  revert size st. induction bs as [|chain bs IH]; intros size st L; cbn [gc_buckets concat] in *.
  - eexists _, _, _. split; [done|]. split; [done|]. split; [done|]. cbn. lia.
  - rewrite length_app in L. rewrite gc_chain_spec by lia. rewrite gc_list_app. pose proof (gc_list_sublist gc chain st) as S. destruct (gc_list gc chain st) as [chain' st1].
    cbn [fst] in S. pose proof (sublist_length _ _ S). destruct (IH (size - Z.of_nat (length chain) + Z.of_nat (length chain')) st1) as (bs' & size' & st' & E & G & F & ->); [lia|].
    rewrite E, G. eexists _, _, _. split; [done|]. split; [done|]. split; [by constructor|]. cbn [concat]. rewrite !length_app. lia.
Qed.

Lemma all_hashed_sublist n bs bs' : all_hashed n bs -> Forall2 sublist bs' bs -> all_hashed n bs'.
Proof.
  intros H F i chain' E. destruct (Forall2_lookup_l _ _ _ _ _ F E) as (chain & E' & S). specialize (H i chain E'). eapply Forall_forall. intros e I.
  rewrite Forall_forall in H. apply H. by eapply elem_of_sublist.
Qed.

Lemma concat_sublist (bs' bs : list (list (Z * D))) : Forall2 sublist bs' bs -> sublist (concat bs') (concat bs).
Proof. induction 1; [constructor|]. cbn. by apply sublist_app. Qed.

(** The tables that are almost as they are between operations: only the average length
    of a chain may be too large. *)
Definition table_wf0 t : Prop :=
  0 < bucket_num t /\ all_hashed (bucket_num t) (buckets t) /\ NoDup (entries t).*1 /\ cur_size t = Z.of_nat (length (entries t)) /\ cur_size t < 2 ^ 31.

Lemma table_wf_iff t : table_wf t <-> table_wf0 t /\ full t = false.
Proof. unfold table_wf, table_wf0. naive_solver. Qed.

(** A table whose chains have lost some of their entries. *)
Lemma wf0_sublist t bs' : table_wf0 t -> Forall2 sublist bs' (buckets t) -> table_wf0 (mkTable bs' (Z.of_nat (length (concat bs')))).
Proof.
  intros (B & H & N & C & L) F. pose proof (Forall2_length _ _ _ F) as E. pose proof (concat_sublist _ _ F) as S. pose proof (sublist_length _ _ S).
  unfold table_wf0, bucket_num, entries in *. cbn [buckets cur_size] in *. rewrite E. split_and!; try done; [by eapply all_hashed_sublist| |lia].
  eapply sublist_NoDup; [exact N|]. by apply fmap_sublist.
Qed.

Lemma GC_spec t st : table_wf0 t -> exists t' st', GC m_gc_func m_pre_gc_func t st = (t', st') /\ table_wf0 t' /\ bucket_num t' = bucket_num t /\
  match m_gc_func with
  | None => t' = t /\ st' = st
  | Some gc => gc_list gc (entries t) (match m_pre_gc_func with Some pre => pre st | None => st end) = (entries t', st')
  end.
Proof.
  intros W. unfold GC. destruct m_gc_func as [gc|]; [|by eexists _, _]. pose proof W as (B & H & N & C & L). set (st1 := match m_pre_gc_func with Some pre => pre st | None => st end).
  destruct (gc_buckets_spec gc (buckets t) (cur_size t) st1) as (bs' & size' & st' & E & G & F & S); [unfold entries in C; lia|]. rewrite E. eexists _, _. split; [done|].
  assert (size' = Z.of_nat (length (concat bs'))) as -> by (unfold entries in C; lia). split; [by eapply wf0_sublist|].
  unfold bucket_num. cbn [buckets]. by rewrite (Forall2_length _ _ _ F).
Qed.

(** ** Growth *)

Lemma move_entry_spec n bs e : 0 < n -> length bs = Z.to_nat n -> all_hashed n bs -> 0 <= e.1 < 2 ^ 64 ->
  all_hashed n (move_entry n bs e) /\ length (move_entry n bs e) = Z.to_nat n /\ concat (move_entry n bs e) ≡ₚ e :: concat bs.
Proof.
  intros P L H K. pose proof (bucket_id_lt e.1 n P) as B. rewrite <- L in B. destruct (lookup_lt_is_Some_2 _ _ B) as [chain E].
  assert (M : move_entry n bs e = <[bucket_id e.1 n := e :: chain]> bs) by (apply list_eq; intros j; unfold move_entry; destruct (decide (j = bucket_id e.1 n)) as [->|N]; [by rewrite list_lookup_alter_eq, E, list_lookup_insert_eq|by rewrite list_lookup_alter_ne, list_lookup_insert_ne]). rewrite M. rewrite length_insert. split_and!; [|done|].
  - apply all_hashed_insert; [done|]. constructor; [done|by apply H].
  - rewrite (concat_insert _ _ _ _ E), (concat_split _ _ _ E). cbn [app]. symmetry. apply Permutation_middle.
Qed.

Lemma move_entries n l bs : 0 < n -> length bs = Z.to_nat n -> all_hashed n bs -> Forall (fun e => 0 <= e.1 < 2 ^ 64) l ->
  let bs' := foldl (move_entry n) bs l in all_hashed n bs' /\ length bs' = Z.to_nat n /\ concat bs' ≡ₚ l ++ concat bs.
Proof.
  intros P. revert bs. induction l as [|e l IH]; intros bs L H F; [by split_and!|]. apply Forall_cons in F as [K F]. destruct (move_entry_spec n bs e P L H K) as (H1 & L1 & C1).
  destruct (IH (move_entry n bs e) L1 H1 F) as (H2 & L2 & C2). cbn [foldl]. split_and!; try done. rewrite C2, C1. by rewrite <- Permutation_middle.
Qed.

Lemma moved_chains n (chains bs : list (list (Z * D))) : foldl (foldl (move_entry n)) bs chains = foldl (move_entry n) bs (concat chains).
Proof. revert bs. induction chains as [|c chains IH]; intros bs; [done|]. cbn [foldl concat]. by rewrite foldl_app. Qed.

Lemma resize_spec n t : table_wf0 t -> 0 < n -> exists t', resize n t = Some t' /\ table_wf0 t' /\ bucket_num t' = n /\ entries t' ≡ₚ entries t.
Proof.
  intros (B & H & N & C & L) P. unfold resize. rewrite (proj2 (Z.leb_gt _ _)) by done. eexists. split; [done|]. rewrite moved_chains. fold (entries t).
  assert (F : Forall (fun e : Z * D => 0 <= e.1 < 2 ^ 64) (entries t)).
  { apply Forall_forall. intros e I. apply elem_of_concat in I as (i & chain & E & I). specialize (H i chain E). rewrite Forall_forall in H. by apply H. }
  destruct (move_entries n (entries t) (replicate (Z.to_nat n) []) P) as (H1 & L1 & C1); [by rewrite length_replicate| |done|].
  { intros i chain E. apply lookup_replicate in E as [-> _]. constructor. }
  assert (C2 : concat (replicate (Z.to_nat n) (@nil (Z * D))) = []) by (clear; induction (Z.to_nat n); [done|by cbn]). rewrite C2, app_nil_r in C1.
  unfold table_wf0, bucket_num. cbn [buckets cur_size]. rewrite L1, Z2Nat.id by lia. unfold entries at 1 2 4. cbn [buckets]. split_and!; try done; try lia; [by rewrite C1|by rewrite C1].
Qed.

(** ** Insertion *)

(** A collection of a map: its entries in some order are asked one after the other. *)
Definition collected (m : gmap Z D) st (m' : gmap Z D) st' : Prop := exists l kept, NoDup l.*1 /\ list_to_map l = m /\ list_to_map kept = m' /\
  match m_gc_func with
  | None => kept = l /\ st' = st
  | Some gc => gc_list gc l (match m_pre_gc_func with Some pre => pre st | None => st end) = (kept, st')
  end.

(** What insertion answers: the data that it replaces. *)
Definition replaced (data : D) (old : option D) : option D := match old with Some d => if decide (data = d) then None else Some d | None => None end.

Lemma insert_new key data t chain : table_wf t -> 0 <= key < 2 ^ 64 -> cur_size t + 1 < 2 ^ 31 -> buckets t !! bucket_id key (bucket_num t) = Some chain ->
  find_entry key chain = None ->
  let t1 := mkTable (<[bucket_id key (bucket_num t) := (key, data) :: chain]> (buckets t)) (i32 (cur_size t + 1)) in
  table_wf0 t1 /\ bucket_num t1 = bucket_num t /\ contents t1 = <[key := data]> (contents t) /\ cur_size t1 = cur_size t + 1.
Proof.
  intros W K S E F t1. pose proof W as (B & H & N & C & L & Fu). assert (P : entries t1 ≡ₚ (key, data) :: entries t).
  { unfold entries, t1. cbn [buckets]. rewrite (concat_insert _ _ _ _ E), (concat_split _ _ _ E). symmetry. apply Permutation_middle. }
  assert (B1 : bucket_num t1 = bucket_num t) by apply bucket_num_insert. assert (S1 : cur_size t1 = cur_size t + 1) by (unfold t1; cbn [cur_size]; apply wraps_id; lia).
  assert (N1 : NoDup (entries t1).*1).
  { rewrite P. apply NoDup_cons. split; [|done]. rewrite (find_bucket key t chain) in F by done. by apply not_elem_of_list_to_map_2 in F. }
  split_and!; [|done| |done].
  - unfold table_wf0. rewrite B1. pose proof (Permutation_length P) as PL. cbn [length] in PL. split_and!; try done; try lia.
    apply all_hashed_insert; [done|]. constructor; [done|by apply H].
  - unfold contents. by rewrite (list_to_map_proper _ _ N1 P).
Qed.

Lemma set_data_spec key data t chain d : table_wf t -> 0 <= key < 2 ^ 64 -> buckets t !! bucket_id key (bucket_num t) = Some chain ->
  find_entry key chain = Some d ->
  let t1 := mkTable (<[bucket_id key (bucket_num t) := set_data key data chain]> (buckets t)) (cur_size t) in
  table_wf t1 /\ bucket_num t1 = bucket_num t /\ contents t1 = <[key := data]> (contents t).
Proof.
  intros W K E F t1. pose proof W as (B & H & N & C & L & Fu). assert (B1 : bucket_num t1 = bucket_num t) by apply bucket_num_insert.
  pose proof (find_entry_some _ _ _ F) as (l1 & l2 & -> & _ & Sd).
  set (l := concat (take (bucket_id key (bucket_num t)) (buckets t)) ++ (l1 ++ l2) ++ concat (drop (S (bucket_id key (bucket_num t))) (buckets t))).
  assert (P : entries t ≡ₚ (key, d) :: l). { unfold entries, l. rewrite (concat_split _ _ _ E), <- !app_assoc. cbn [app]. by rewrite <- !Permutation_middle. }
  assert (P1 : entries t1 ≡ₚ (key, data) :: l).
  { unfold entries, t1, l. cbn [buckets]. rewrite (concat_insert _ _ _ _ E), Sd, <- !app_assoc. cbn [app]. by rewrite <- !Permutation_middle. }
  destruct (entries_perm t W P) as (_ & N1 & N2 & D1). assert (N3 : NoDup (entries t1).*1) by (rewrite P1; by apply NoDup_cons).
  split_and!; [|done|].
  - unfold table_wf, full. rewrite B1. pose proof (Permutation_length P) as PL. pose proof (Permutation_length P1) as PL1. cbn [length] in *. cbn [cur_size t1]. split_and!; try done; try lia.
    apply all_hashed_insert; [done|]. rewrite Sd. pose proof (H _ _ E) as Fc. apply Forall_app in Fc as [F1 F2]. apply Forall_cons in F2 as [F2 F3]. apply Forall_app. split; [done|]. by constructor.
  - unfold contents at 1. rewrite (list_to_map_proper _ _ N3 P1). cbn. rewrite <- D1. by rewrite insert_delete_eq.
Qed.

Lemma full_iff t : full t = false <-> Z.quot (cur_size t) (bucket_num t) <= MT_HASHTABLE_MAX_CHAIN_AVG_LEN.
Proof. unfold full. rewrite Z.gtb_ltb. apply Z.ltb_ge. Qed.

Lemma grow_spec t st : table_wf0 t -> cur_size t <= 5 * bucket_num t -> exists t' st',
  (if full t then let '(t, st) := GC m_gc_func m_pre_gc_func t st in if full t then t ← resize (i32 (bucket_num t * 2)) t; Some (@None D, t, st) else Some (None, t, st)
   else Some (None, t, st)) = Some (None, t', st') /\ table_wf t' /\ (contents t' = contents t /\ st' = st \/ collected (contents t) st (contents t') st').
Proof.
  intros W S. destruct (full t) eqn:F; [|exists t, st; split; [done|]; split; [by apply table_wf_iff|by left]].
  destruct (GC_spec t st W) as (t1 & st1 & E & W1 & B1 & G). rewrite E. pose proof W1 as (P1 & _ & N1 & C1 & L1). pose proof W as (_ & _ & N & C & _).
  assert (S1 : cur_size t1 <= cur_size t).
  { destruct m_gc_func as [gc|]; [|destruct G as [-> _]; lia]. pose proof (gc_list_sublist gc (entries t) (match m_pre_gc_func with Some pre => pre st | None => st end)) as Sub.
    rewrite G in Sub. apply sublist_length in Sub. cbn [fst] in Sub. lia. }
  assert (Co : forall t', entries t' ≡ₚ entries t1 -> collected (contents t) st (contents t') st1).
  { intros t' P. exists (entries t), (entries t1). split_and!; [done|done| |by destruct m_gc_func; [|destruct G as [-> ->]]]. unfold contents. symmetry. apply list_to_map_proper; [|by symmetry].
    first [done|by rewrite P]. }
  destruct (full t1) eqn:F1.
  - assert (5 * bucket_num t <= cur_size t1) as Lo.
    { unfold full, MT_HASHTABLE_MAX_CHAIN_AVG_LEN in F1. rewrite Z.gtb_ltb in F1. apply Z.ltb_lt in F1. rewrite Z.quot_div_nonneg in F1 by lia. rewrite B1 in *.
      assert (5 <= cur_size t1 / bucket_num t) as F2 by lia. pose proof (Z.mul_div_le (cur_size t1) (bucket_num t)). nia. }
    rewrite (wraps_id 32) by lia. destruct (resize_spec (bucket_num t1 * 2) t1 W1 ltac:(lia)) as (t2 & R & W2 & B2 & P2). rewrite R. cbn [mbind option_bind].
    exists t2, st1. split; [done|]. split; [|right; by apply Co]. apply table_wf_iff. split; [done|]. apply full_iff. unfold MT_HASHTABLE_MAX_CHAIN_AVG_LEN.
    pose proof W2 as (_ & _ & _ & C2 & _). pose proof (Permutation_length P2). rewrite Z.quot_div_nonneg by lia.
    assert (cur_size t2 / bucket_num t2 < 3); [|lia]. apply Z.div_lt_upper_bound; lia.
  - exists t1, st1. split; [done|]. split; [by apply table_wf_iff|]. right. by apply Co.
Qed.

Lemma insert_spec key data t st : table_wf t -> 0 <= key < 2 ^ 64 -> cur_size t + 1 < 2 ^ 31 -> exists t' st',
  insert_entry m_gc_func m_pre_gc_func key data t st = Some (replaced data (contents t !! key), t', st') /\ table_wf t' /\
  (contents t' = <[key := data]> (contents t) /\ st' = st \/ contents t !! key = None /\ collected (<[key := data]> (contents t)) st (contents t') st').
Proof.
  intros W K S. pose proof W as (B & _ & _ & C & _ & Fu). destruct (bucket_exists key t B) as [chain E]. unfold insert_entry. rewrite E. cbn [mbind option_bind].
  rewrite <- (find_bucket key t chain) by done. destruct (find_entry key chain) as [d|] eqn:F; cbn [replaced].
  - destruct (decide (data = d)) as [->|N].
    + exists t, st. split; [done|]. split; [done|]. left. split; [|done]. symmetry. apply insert_id. by rewrite <- (find_bucket key t chain).
    + destruct (set_data_spec key data t chain d W K E F) as (W1 & B1 & C1). eexists _, _. split; [done|]. split; [done|]. by left.
  - destruct (insert_new key data t chain W K S E F) as (W1 & B1 & C1 & S1). set (t1 := mkTable _ _) in *.
    destruct (grow_spec t1 st W1) as (t2 & st2 & G & W2 & X).
    { rewrite B1, S1. apply full_iff in Fu. unfold MT_HASHTABLE_MAX_CHAIN_AVG_LEN in Fu. rewrite Z.quot_div_nonneg in Fu by lia. pose proof (Z.mul_succ_div_gt (cur_size t) (bucket_num t)). nia. }
    rewrite C1 in X. exists t2, st2. split; [exact G|]. split; [done|]. destruct X as [X|X]; [by left|by right].
Qed.

(** ** Iteration *)

(** The link at the entries [rest] of a chain whose first entries are [pre], in the
    bucket behind the buckets [front]. *)
Definition at_pos t (s : HashTableIteratorState) (front : list (list (Z * D))) (pre rest : list (Z * D)) (later : list (list (Z * D))) : Prop :=
  buckets t = front ++ (pre ++ rest) :: later /\ cur_buck s = length front /\ link s = length pre.

Lemma cur_entry_spec t s front pre rest later : at_pos t s front pre rest later -> cur_entry t s = snd <$> head rest.
Proof.
  intros (E & C & L). unfold cur_entry. rewrite E, C, list_lookup_middle by done. cbn [mbind option_bind]. rewrite L, lookup_app_r, Nat.sub_diag by done. by destruct rest.
Qed.

Lemma next_entry_spec t s front pre e rest later : at_pos t s front pre (e :: rest) later ->
  exists s', next_entry t s = (snd <$> head rest, s') /\ at_pos t s' front (pre ++ [e]) rest later.
Proof.
  intros P. unfold next_entry. rewrite (cur_entry_spec _ _ _ _ _ _ P). cbn [head fmap option_fmap option_map].
  assert (P' : at_pos t (mkIter (cur_buck s) (S (link s))) front (pre ++ [e]) rest later).
  { destruct P as (E & C & L). unfold at_pos. rewrite <- app_assoc. cbn [cur_buck link]. rewrite L, length_app, Nat.add_1_r. done. }
  eexists. split; [|exact P']. by rewrite (cur_entry_spec _ _ _ _ _ _ P').
Qed.

Lemma remove_current_spec t s front pre e rest later : at_pos t s front pre (e :: rest) later ->
  exists t', remove_current t s = (Some e.2, t') /\ at_pos t' s front pre rest later /\ cur_size t' = i32 (cur_size t - 1).
Proof.
  intros P. unfold remove_current. rewrite (cur_entry_spec _ _ _ _ _ _ P). destruct P as (E & C & L). eexists. split; [done|]. split; [|done]. unfold at_pos. cbn [buckets].
  split; [|done]. rewrite E, C, L, alter_app_r_alt by done. rewrite Nat.sub_diag. cbn. by rewrite delete_middle.
Qed.

(** From a link on: the next entry there is, with the link to it. *)
Definition found t front pre rest later (res : option (option D * HashTableIteratorState)) : Prop :=
  exists tmp s', res = Some (tmp, s') /\
  match rest ++ concat later with
  | [] => tmp = None
  | e :: more => tmp = Some e.2 /\ exists front' pre' rest' later', at_pos t s' front' pre' (e :: rest') later' /\ rest' ++ concat later' = more /\
      concat front' ++ pre' = concat front ++ pre
  end.

Lemma first_from_spec t s front later : buckets t = front ++ later -> found t front [] [] later (first_from (length later) (length front) t s).
Proof.
  revert front s. induction later as [|chain later IH]; intros front s E; unfold found; cbn [length first_from concat app]; [by exists None, s|].
  unfold first_entry. rewrite E, list_lookup_middle by done. cbn [mbind option_bind]. destruct chain as [|[k d] chain]; cbn [head fmap option_fmap option_map].
  - destruct (IH (front ++ [[]]) (mkIter (length front) 0)) as (tmp & s' & R & F); [by rewrite <- app_assoc|]. rewrite length_app, Nat.add_1_r in R.
    exists tmp, s'. split; [exact R|]. cbn [app] in F |- *. destruct (concat later) as [|e more]; [done|]. by rewrite concat_app, app_nil_r in F.
  - eexists _, _. split; [done|]. cbn [app]. split; [done|]. exists front, [], chain, later. by split_and!.
Qed.

Lemma part_next_end t s front pre later : at_pos t s front pre [] later -> found t front pre [] later (part_next t s).
Proof.
  intros P. unfold part_next, next_entry. rewrite (cur_entry_spec _ _ _ _ _ _ P). cbn [head fmap option_fmap option_map]. destruct P as (E & C & L). rewrite E, C.
  rewrite length_app. cbn [length]. replace (length front + S (length later) - S (length front))%nat with (length later) by lia.
  destruct (first_from_spec t s (front ++ [pre]) later) as (tmp & s' & R & F). { rewrite E, app_nil_r, <- app_assoc. done. }
  rewrite length_app, Nat.add_1_r in R. exists tmp, s'. split; [exact R|]. cbn [app] in *. destruct (concat later) as [|e more]; [done|]. rewrite concat_app in F. cbn [concat] in F. by rewrite !app_nil_r in F.
Qed.

Lemma found_here t s front pre e rest later : at_pos t s front pre (e :: rest) later -> found t front pre (e :: rest) later (Some (Some e.2, s)).
Proof. intros P. eexists _, _. split; [done|]. cbn [app]. split; [done|]. by exists front, pre, rest, later. Qed.

Lemma part_cur_spec t s front pre rest later : at_pos t s front pre rest later -> found t front pre rest later (part_cur t s).
Proof.
  intros P. unfold part_cur. rewrite (cur_entry_spec _ _ _ _ _ _ P). destruct rest as [|e rest]; cbn [head fmap option_fmap option_map]; [by apply part_next_end|by apply found_here].
Qed.

Lemma part_next_spec t s front pre e rest later : at_pos t s front pre (e :: rest) later -> found t front (pre ++ [e]) rest later (part_next t s).
Proof.
  intros P. unfold part_next. destruct (next_entry_spec _ _ _ _ _ _ _ P) as (s' & N & P'). rewrite N. destruct rest as [|e' rest]; cbn [head fmap option_fmap option_map].
  - assert (X : part_next t s' = first_from (length (buckets t) - S (cur_buck s')) (S (cur_buck s')) t s').
    { unfold part_next, next_entry. by rewrite (cur_entry_spec _ _ _ _ _ _ P'). }
    rewrite <- X. by apply part_next_end.
  - by apply found_here.
Qed.

Lemma Forall2_sublist_refl (bs : list (list (Z * D))) : Forall2 sublist bs bs.
Proof. by induction bs; constructor. Qed.

Lemma Forall2_sublist_trans (a b c : list (list (Z * D))) : Forall2 sublist a b -> Forall2 sublist b c -> Forall2 sublist a c.
Proof. intros F. revert c. induction F; intros c G; inversion G; subst; constructor; [by etrans|by apply IHF]. Qed.

(** A test and a release as one collecting function. *)
Definition swept (gone : D -> St -> bool * St) (release : D -> St -> St) (d : D) st : bool * St :=
  let '(b, st) := gone d st in (b, if b then release d st else st).

Lemma sweep_from gone release fuel t s front pre e rest later st kept st' :
  at_pos t s front pre (e :: rest) later -> (length ((e :: rest) ++ concat later) <= fuel)%nat -> Z.of_nat (length (entries t)) <= cur_size t < 2 ^ 31 ->
  gc_list (swept gone release) ((e :: rest) ++ concat later) st = (kept, st') ->
  exists t', sweep fuel gone release (Some e.2) s t st = Some (t', st') /\ entries t' = concat front ++ pre ++ kept /\ Forall2 sublist (buckets t') (buckets t) /\
    cur_size t' = cur_size t - Z.of_nat (length (entries t)) + Z.of_nat (length (entries t')).
Proof.
  revert t s front pre e rest later st kept. induction fuel as [|fuel IH]; intros t s front pre e rest later st kept P Fu S G; [cbn in Fu; lia|].
  destruct e as [k d]. cbn [app gc_list] in G. cbn [sweep snd]. unfold swept at 1 in G. destruct (gone d st) as [b st1]. cbn [app length] in Fu.
  assert (En : forall t front pre rest later s, at_pos t s front pre rest later -> entries t = concat front ++ pre ++ rest ++ concat later).
  { clear. intros t front pre rest later s (E & _). unfold entries. rewrite E, concat_app. cbn [concat]. by rewrite <- app_assoc. }
  destruct b.
  - destruct (gc_list _ (rest ++ concat later) (release d st1)) as [kept' st2] eqn:G'. injection G as <- <-.
    destruct (remove_current_spec _ _ _ _ _ _ _ P) as (t1 & R & P1 & S1). rewrite R. cbn [snd]. destruct (part_cur_spec _ _ _ _ _ _ P1) as (tmp & s1 & C & F). rewrite C. cbn [mbind option_bind].
    pose proof (En _ _ _ _ _ _ P) as E0. pose proof (En _ _ _ _ _ _ P1) as E1. assert (length (entries t) = Datatypes.S (length (entries t1))) as L by (rewrite E0, E1, !length_app; cbn [length]; lia).
    rewrite wraps_id in S1 by lia. assert (Sub : Forall2 sublist (buckets t1) (buckets t)).
    { destruct P as (-> & _), P1 as (-> & _). apply Forall2_app; [apply Forall2_sublist_refl|]. constructor; [|apply Forall2_sublist_refl]. apply sublist_app; [done|]. by apply sublist_cons. }
    destruct (rest ++ concat later) as [|e1 more] eqn:M.
    + subst tmp. cbn [gc_list] in G'. injection G' as <- <-. exists t1. split; [by destruct fuel|]. split; [by rewrite E1|]. split; [done|lia].
    + destruct F as (-> & front' & pre' & rest' & later' & P2 & M' & X). rewrite <- M', app_comm_cons in G'.
      destruct (IH t1 s1 front' pre' e1 rest' later' (release d st1) kept' P2) as (t' & -> & E' & Sub' & S'); [cbn [app length]; rewrite M'; cbn [length] in Fu; lia|lia|done|].
      exists t'. split; [done|]. split; [rewrite E', !app_assoc; by f_equal|]. split; [by eapply Forall2_sublist_trans|lia].
  - destruct (gc_list _ (rest ++ concat later) st1) as [kept' st2] eqn:G'. injection G as <- <-.
    destruct (part_next_spec _ _ _ _ _ _ _ P) as (tmp & s1 & C & F). rewrite C. cbn [mbind option_bind]. pose proof (En _ _ _ _ _ _ P) as E0.
    destruct (rest ++ concat later) as [|e1 more] eqn:M.
    + subst tmp. cbn [gc_list] in G'. injection G' as <- <-. exists t. split; [by destruct fuel|]. split; [rewrite E0; cbn [app]; by rewrite M|]. split; [apply Forall2_sublist_refl|lia].
    + destruct F as (-> & front' & pre' & rest' & later' & P2 & M' & X). rewrite <- M', app_comm_cons in G'.
      destruct (IH t s1 front' pre' e1 rest' later' st1 kept' P2) as (t' & -> & E' & Sub' & S'); [cbn [app length]; rewrite M'; cbn [length] in Fu; lia|lia|done|].
      exists t'. split; [done|]. split; [|done]. rewrite E', !app_assoc, X. by rewrite <- !app_assoc.
Qed.

(** The loop over a partition ends, and comes to each entry once. *)
Lemma sweep_spec gone release t st : table_wf0 t -> exists t' st', sweep_part gone release t st = Some (t', st') /\
  gc_list (swept gone release) (entries t) st = (entries t', st') /\ table_wf0 t' /\ bucket_num t' = bucket_num t.
Proof.
  intros W. pose proof W as (B & _ & _ & C & L). unfold sweep_part, part_first.
  destruct (first_from_spec t (mkIter 0 0) [] (buckets t) eq_refl) as (tmp & s & R & F). cbn [length] in R. rewrite R. cbn [mbind option_bind app] in *. fold (entries t) in *.
  destruct (entries t) as [|e more] eqn:E.
  - subst tmp. exists t, st. rewrite E. by split_and!.
  - destruct F as (-> & front & pre & rest & later & P & M & X). cbn in X. apply app_eq_nil in X as [X1 X2]. rewrite <- M, app_comm_cons.
    destruct (gc_list (swept gone release) ((e :: rest) ++ concat later) st) as [kept st'] eqn:G.
    destruct (sweep_from gone release (length ((e :: rest) ++ concat later)) t s front pre e rest later st kept st' P) as (t' & Sw & E' & Sub & S'); [done|rewrite E; lia|done|].
    rewrite X1, X2 in E'. cbn [app] in E'. exists t', st'. split; [exact Sw|]. split; [by rewrite E'|]. unfold bucket_num. rewrite (Forall2_length _ _ _ Sub). split; [|done].
    assert (t' = mkTable (buckets t') (Z.of_nat (length (concat (buckets t'))))) as ->; [|by eapply wf0_sublist]. destruct t' as [bs' n']. cbn [buckets cur_size] in *. f_equal. rewrite E in S'. rewrite S', C. unfold entries. cbn [buckets]. lia.
Qed.
End facts.

(** C27: A table is a finite map: a lookup, a removal and an insertion answer and do what
    they do on the map, whatever buckets there are; an insertion into a table whose chains
    have become too long may take out what the collecting function gives up and moves the
    rest to more buckets, so that afterwards the average chain has at most four entries. *)
Theorem hash_table_map {D St : Type} `{EqDecision D} (gc : option (D -> St -> bool * St)) (pre : option (St -> St)) key data (t : HashTable D) st :
  table_wf t -> 0 <= key < 2 ^ 64 -> cur_size t + 1 < 2 ^ 31 ->
  lookup_entry key t = Some (contents t !! key) /\
  (exists t', remove_entry key t = Some (contents t !! key, t') /\ table_wf t' /\ contents t' = delete key (contents t)) /\
  (exists t' st', insert_entry gc pre key data t st = Some (replaced data (contents t !! key), t', st') /\ table_wf t' /\
    (contents t' = <[key := data]> (contents t) /\ st' = st \/ contents t !! key = None /\ collected gc pre (<[key := data]> (contents t)) st (contents t') st')).
Proof.
  intros W K S. split; [by apply lookup_spec|]. split; [|by apply insert_spec]. destruct (remove_spec key t W K) as (t' & E & W' & C & _). by exists t'.
Qed.
