(* ===== verification/Congestion.v ===== *)
(** Congestion control ([proxy/congest/Congestion.h], [Congestion.cc]): the rules of
    congestion.config, the history of the failures of a server, and the state of a server
    under a rule.

    A rule is a value: it does not change once it is read, and how long its memory lives
    is not modelled.  Times are seconds.  What is signalled to the management is a list
    that the operations return. *)

From S2P Require Import Prelude ParseRules HdrToken LibC.
From Stdlib Require Import Ascii.

Inductive congestion_scheme_t := PER_IP | PER_HOST.

#[export] Instance congestion_scheme_eq_dec : EqDecision congestion_scheme_t.
Proof. solve_decision. Defined.

Record CongestionControlRecord := mkRule {
  line_num : Z; rank : Z; prefix : option (list Z); port : Z; congestion_scheme : congestion_scheme_t; error_page : option (list Z);
  max_connection_failures : Z; fail_window : Z; proxy_retry_interval : Z; client_wait_interval : Z; wait_interval_alpha : Z;
  live_os_conn_timeout : Z; live_os_conn_retries : Z; dead_os_conn_timeout : Z; dead_os_conn_retries : Z; max_connection : Z; snmp_enabled : Z
}.

#[export] Instance rule_eq_dec : EqDecision CongestionControlRecord.
Proof. solve_decision. Defined.

(** The values that a rule has where its line says nothing; the sizes of the type of a
    bin and of the history. *)
Definition DEFAULT_error_page : list Z := chars "congestion#retryAfter".
Definition CONG_RULE_MAX_max_connection_failures : Z := Z.shiftl 1 (2 * 8).
Definition CONG_RULE_ULIMITED_max_connection_failures : Z := -1.
Definition CONG_HIST_ENTRIES : nat := 17.

(** [setdefault]: the configured defaults are those of the rule [dflt]. *)
Definition setdefault (dflt : CongestionControlRecord) (line : Z) : CongestionControlRecord :=
  mkRule line 0 None 0 (congestion_scheme dflt) None (max_connection_failures dflt) (fail_window dflt) (proxy_retry_interval dflt) (client_wait_interval dflt)
    (wait_interval_alpha dflt) (live_os_conn_timeout dflt) (live_os_conn_retries dflt) (dead_os_conn_timeout dflt) (dead_os_conn_retries dflt) (max_connection dflt)
    (snmp_enabled dflt).

(** The name of the setting that is refused, if one is. *)
Definition validate_rule (rule : CongestionControlRecord) : option (list Z) :=
  let m := max_connection_failures rule in
  if (m >=? CONG_RULE_MAX_max_connection_failures) || ((m <=? 0) && negb (m =? CONG_RULE_ULIMITED_max_connection_failures)) then Some (chars "max_connection_failures")
  else if fail_window rule <? 1 then Some (chars "fail_window")
  else if proxy_retry_interval rule <? 1 then Some (chars "proxy_retry_interval")
  else if client_wait_interval rule <? 1 then Some (chars "client_wait_interval")
  else if wait_interval_alpha rule <? 1 then Some (chars "wait_interval_alpha")
  else if live_os_conn_timeout rule <? 1 then Some (chars "live_os_conn_timeout")
  else if live_os_conn_retries rule <? 1 then Some (chars "live_os_conn_retries")
  else if dead_os_conn_timeout rule <? 1 then Some (chars "dead_os_conn_timeout")
  else if dead_os_conn_retries rule <? 1 then Some (chars "dead_os_conn_retries")
  else None.

Section Init.
(** One pair of a line: the rule, and whether the pair was used up. *)
Definition init_pair (label val : list Z) (r : CongestionControlRecord) : CongestionControlRecord * bool :=
  let '(mkRule ln rk pre po sch err mcf fw pri cwi wia lt lr dt dr mc snmp) := r in
  if strcasecmp_eq label "max_connection_failures" then (mkRule ln rk pre po sch err (atoi val) fw pri cwi wia lt lr dt dr mc snmp, true)
  else if strcasecmp_eq label "fail_window" then (mkRule ln rk pre po sch err mcf (atoi val) pri cwi wia lt lr dt dr mc snmp, true)
  else if strcasecmp_eq label "proxy_retry_interval" then (mkRule ln rk pre po sch err mcf fw (atoi val) cwi wia lt lr dt dr mc snmp, true)
  else if strcasecmp_eq label "client_wait_interval" then (mkRule ln rk pre po sch err mcf fw pri (atoi val) wia lt lr dt dr mc snmp, true)
  else if strcasecmp_eq label "wait_interval_alpha" then (mkRule ln rk pre po sch err mcf fw pri cwi (atoi val) lt lr dt dr mc snmp, true)
  else if strcasecmp_eq label "live_os_conn_timeout" then (mkRule ln rk pre po sch err mcf fw pri cwi wia (atoi val) lr dt dr mc snmp, true)
  else if strcasecmp_eq label "live_os_conn_retries" then (mkRule ln rk pre po sch err mcf fw pri cwi wia lt (atoi val) dt dr mc snmp, true)
  else if strcasecmp_eq label "dead_os_conn_timeout" then (mkRule ln rk pre po sch err mcf fw pri cwi wia lt lr (atoi val) dr mc snmp, true)
  else if strcasecmp_eq label "dead_os_conn_retries" then (mkRule ln rk pre po sch err mcf fw pri cwi wia lt lr dt (atoi val) mc snmp, true)
  else if strcasecmp_eq label "max_connection" then (mkRule ln rk pre po sch err mcf fw pri cwi wia lt lr dt dr (atoi val) snmp, true)
  else if strcasecmp_eq label "congestion_scheme" then (mkRule ln rk pre po (if strcasecmp_eq val "per_host" then PER_HOST else PER_IP) err mcf fw pri cwi wia lt lr dt dr mc snmp, true)
  else if strcasecmp_eq label "error_page" then (mkRule ln rk pre po sch (Some val) mcf fw pri cwi wia lt lr dt dr mc snmp, true)
  else if strcasecmp_eq label "snmp" then (mkRule ln rk pre po sch err mcf fw pri cwi wia lt lr dt dr mc (if strcasecmp_eq val "on" then 1 else 0), true)
  else if strcasecmp_eq label "prefix" then (mkRule ln (i32 (rk + 1)) (Some val) po sch err mcf fw pri cwi wia lt lr dt dr mc snmp, false)
  else if strcasecmp_eq label "port" then (mkRule ln (i32 (rk + 2)) pre (u16 (atoi val)) sch err mcf fw pri cwi wia lt lr dt dr mc snmp, false)
  else (r, false).

Fixpoint init_pairs (pairs : list (list Z * list Z)) (r : CongestionControlRecord) : CongestionControlRecord * list (list Z * list Z) :=
  match pairs with
  | [] => (r, [])
  | (label, val) :: pairs' =>
    let '(r, used) := init_pair label val r in
    let '(r, rest) := init_pairs pairs' r in (r, if used then rest else (label, val) :: rest)
  end.

(** [ProcessModifiers] of [ControlBase], on the pairs that are left: an error, if there
    is one. *)
Variable ProcessModifiers : list (list Z * list Z) -> option (list Z).

(** [Init]: an error, or the rule.  [num_el] is the count of the line as the caller left
    it; each pair that is used takes one off. *)
Definition Init (dflt : CongestionControlRecord) (line num_el : Z) (pairs : list (list Z * list Z)) : list Z + CongestionControlRecord :=
  let '(r, rest) := init_pairs pairs (setdefault dflt line) in
  let modifiers := if num_el - Z.of_nat (List.length pairs - List.length rest) >? 0 then ProcessModifiers rest else None in
  match modifiers with
  | Some err => inl err
  | None =>
    let '(mkRule ln rk pre po sch err mcf fw pri cwi wia lt lr dt dr mc snmp) := r in
    let page := match err with None => Some DEFAULT_error_page | Some _ => err end in
    let r := mkRule ln rk pre po sch page mcf fw pri cwi wia lt lr dt dr mc snmp in
    match validate_rule r with
    | Some name => inl name
    | None => inr r
    end
  end.
End Init.

(** ** The rule for a request *)

(** What is matched: a server that has a rule, or a request, of which [CheckModifiers]
    says whether it agrees with the modifiers of a rule. *)
Inductive RequestData := RD_CONGEST_ENTRY (pRecord : CongestionControlRecord) | RD_HTTP (CheckModifiers : CongestionControlRecord -> bool).

(** [strncmp(p, s, strlen(p)) == 0]. *)
Fixpoint is_prefix (p s : list Z) : bool :=
  match p, s with [], _ => true | a :: p', b :: s' => (a =? b) && is_prefix p' s' | _ :: _, [] => false end.

(** The modifiers of a rule of some rank. *)
Definition rule_agrees (rdata : RequestData) (rule : CongestionControlRecord) : bool :=
  if rank rule >? 0 then
    match rdata with
    | RD_CONGEST_ENTRY p =>
      negb (negb (port rule =? 0) && negb (port rule =? port p)) &&
      match prefix rule, prefix p with None, _ => true | Some _, None => false | Some a, Some b => is_prefix a b end
    | RD_HTTP CheckModifiers => CheckModifiers rule
    end
  else true.

Definition UpdateMatch (rdata : RequestData) (record : option CongestionControlRecord) (rule : CongestionControlRecord) : option CongestionControlRecord :=
  let better := match record with None => true | Some r => (rank r <? rank rule) || ((line_num r >? line_num rule) && (rank r =? rank rule)) end in
  if better && rule_agrees rdata rule then Some rule else record.

(** The rules whose destination [ControlMatcher] finds to match, in the order it tries
    them. *)
Definition Match (rdata : RequestData) (matching : list CongestionControlRecord) : option CongestionControlRecord := foldl (UpdateMatch rdata) None matching.

(** The copy of a rule that servers refer to. *)
Definition rule_copy (r : CongestionControlRecord) : CongestionControlRecord :=
  let '(mkRule ln rk pre po sch page mcf fw pri cwi wia lt lr dt dr mc snmp) := r in mkRule ln 0 pre po sch page mcf fw pri cwi wia lt lr dt dr mc snmp.

Definition CongestionControlled (congestionControlEnabled : Z) (rdata : RequestData) (matching : list CongestionControlRecord) : option CongestionControlRecord :=
  if congestionControlEnabled =? 0 then None else rule_copy <$> Match rdata matching.

(** ** The history of failures *)

(** [bins] counts the failures of the last [CONG_HIST_ENTRIES] intervals of [bin_len]
    seconds, of which the first begins at [start]; [cur_index] is the bin of the last. *)
Record FailHistory := mkHist { start : Z; bin_len : Z; length : Z; bins : list Z; cur_index : Z; last_event : Z; events : Z }.

Definition entries_n : Z := Z.of_nat CONG_HIST_ENTRIES.

Definition new_FailHistory : FailHistory := mkHist 0 0 0 (replicate CONG_HIST_ENTRIES 0) 0 0 0.

Definition hist_init (window : Z) : FailHistory :=
  let b := Z.quot (i32 (window + entries_n)) entries_n in
  let b := if b <=? 0 then 1 else b in
  mkHist 0 b (i32 (b * entries_n)) (replicate CONG_HIST_ENTRIES 0) 0 0 0.

Definition init_event (t n : Z) (h : FailHistory) : FailHistory :=
  mkHist (i64 (t + bin_len h - Z.rem t (bin_len h) - length h)) (bin_len h) (length h) (u16 n :: replicate (CONG_HIST_ENTRIES - 1) 0) 0 t n.

(** The next bin becomes the last one. *)
Definition shift (h : FailHistory) : option FailHistory :=
  let c := cur_index h + 1 in
  let c := if c =? entries_n then 0 else c in
  b ← bins h !! Z.to_nat c;
  Some (mkHist (i64 (start h + bin_len h)) (bin_len h) (length h) (<[Z.to_nat c := 0]> (bins h)) c (last_event h) (i32 (events h - b))).

(** The [do] loop. *)
Fixpoint shift_until (fuel : nat) (t : Z) (h : FailHistory) : option FailHistory :=
  match fuel with
  | O => None
  | S fuel' => h ← shift h; if i64 (start h + length h) <? t then shift_until fuel' t h else Some h
  end.

Definition regist_event (t n : Z) (h : FailHistory) : option FailHistory :=
  if t <? start h then Some h
  else if t >? i64 (last_event h + length h) then Some (init_event t n h)
  else
    h ← (if t <? i64 (start h + length h) then
           if bin_len h =? 0 then None
           else
             let i := Z.to_nat (Z.rem (Z.quot (t - start h) (bin_len h) + 1 + cur_index h) entries_n) in
             Some (mkHist (start h) (bin_len h) (length h) (alter (fun b => u16 (b + n)) i (bins h)) (cur_index h) (last_event h) (events h))
         else
           h ← shift_until (S (S CONG_HIST_ENTRIES)) t h;
           Some (mkHist (start h) (bin_len h) (length h) (<[Z.to_nat (cur_index h) := u16 n]> (bins h)) (cur_index h) (last_event h) (events h)));
    Some (mkHist (start h) (bin_len h) (length h) (bins h) (cur_index h) (if last_event h <? t then t else last_event h) (i32 (events h + n))).

(** ** The state of a server *)

Inductive Signal := Congested | Alive.

#[export] Instance Signal_eq_dec : EqDecision Signal.
Proof. solve_decision. Defined.

(** [m_congested] and [m_M_congested] are 0 or 1. *)
Record CongestionEntry := mkEntry {
  m_key : Z; m_ip : Z; m_hostname : option (list Z); pRecord : CongestionControlRecord; m_history : FailHistory; m_last_congested : Z; m_congested : bool;
  m_stat_congested_conn_failures : Z; m_M_congested : bool; m_last_M_congested : Z; m_num_connections : Z; m_stat_congested_max_conn : Z; m_ref_count : Z
}.

Section update.
Implicit Types e : CongestionEntry.

Definition set_rule (rule : CongestionControlRecord) e : CongestionEntry :=
  mkEntry (m_key e) (m_ip e) (m_hostname e) rule (m_history e) (m_last_congested e) (m_congested e) (m_stat_congested_conn_failures e) (m_M_congested e)
    (m_last_M_congested e) (m_num_connections e) (m_stat_congested_max_conn e) (m_ref_count e).
Definition set_history (h : FailHistory) e : CongestionEntry :=
  mkEntry (m_key e) (m_ip e) (m_hostname e) (pRecord e) h (m_last_congested e) (m_congested e) (m_stat_congested_conn_failures e) (m_M_congested e)
    (m_last_M_congested e) (m_num_connections e) (m_stat_congested_max_conn e) (m_ref_count e).
Definition set_congested (b : bool) e : CongestionEntry :=
  mkEntry (m_key e) (m_ip e) (m_hostname e) (pRecord e) (m_history e) (m_last_congested e) b (m_stat_congested_conn_failures e) (m_M_congested e)
    (m_last_M_congested e) (m_num_connections e) (m_stat_congested_max_conn e) (m_ref_count e).
Definition set_last_congested (t : Z) e : CongestionEntry :=
  mkEntry (m_key e) (m_ip e) (m_hostname e) (pRecord e) (m_history e) t (m_congested e) (m_stat_congested_conn_failures e) (m_M_congested e)
    (m_last_M_congested e) (m_num_connections e) (m_stat_congested_max_conn e) (m_ref_count e).
Definition set_M_congested (b : bool) (t : Z) e : CongestionEntry :=
  mkEntry (m_key e) (m_ip e) (m_hostname e) (pRecord e) (m_history e) (m_last_congested e) (m_congested e) (m_stat_congested_conn_failures e) b
    t (m_num_connections e) (m_stat_congested_max_conn e) (m_ref_count e).
Definition set_connections (n : Z) e : CongestionEntry :=
  mkEntry (m_key e) (m_ip e) (m_hostname e) (pRecord e) (m_history e) (m_last_congested e) (m_congested e) (m_stat_congested_conn_failures e) (m_M_congested e)
    (m_last_M_congested e) n (m_stat_congested_max_conn e) (m_ref_count e).
Definition set_refs (n : Z) e : CongestionEntry :=
  mkEntry (m_key e) (m_ip e) (m_hostname e) (pRecord e) (m_history e) (m_last_congested e) (m_congested e) (m_stat_congested_conn_failures e) (m_M_congested e)
    (m_last_M_congested e) (m_num_connections e) (m_stat_congested_max_conn e) n.
Definition stat_inc_F e : CongestionEntry :=
  mkEntry (m_key e) (m_ip e) (m_hostname e) (pRecord e) (m_history e) (m_last_congested e) (m_congested e) (i32 (m_stat_congested_conn_failures e + 1)) (m_M_congested e)
    (m_last_M_congested e) (m_num_connections e) (m_stat_congested_max_conn e) (m_ref_count e).
Definition stat_inc_M e : CongestionEntry :=
  mkEntry (m_key e) (m_ip e) (m_hostname e) (pRecord e) (m_history e) (m_last_congested e) (m_congested e) (m_stat_congested_conn_failures e) (m_M_congested e)
    (m_last_M_congested e) (m_num_connections e) (i32 (m_stat_congested_max_conn e + 1)) (m_ref_count e).

(** The constructor, with one reference. *)
Definition new_CongestionEntry (hostname : option (list Z)) (ip : Z) (rule : CongestionControlRecord) (key : Z) : CongestionEntry :=
  mkEntry key ip hostname rule (hist_init (fail_window rule)) 0 false 0 false 0 0 0 1.

(** [snmp_sig_congested] and [snmp_sig_alive]. *)
Definition signal (s : Signal) e : list Signal := if snmp_enabled (pRecord e) =? 0 then [] else [s].

Definition F_congested e : bool := m_congested e.

Definition M_congested (t : Z) e : bool * CongestionEntry * list Signal :=
  if (max_connection (pRecord e) >=? 0) && (m_num_connections e >=? max_connection (pRecord e)) then
    if m_M_congested e then (true, e, []) else (true, set_M_congested true t e, signal Congested e)
  else (false, e, []).

Definition congested e : bool := F_congested e || m_M_congested e.

Definition usefulInfo (t : Z) e : bool :=
  (m_ref_count e >? 1) || m_congested e || (m_num_connections e >? 0) ||
  ((i64 (last_event (m_history e) + fail_window (pRecord e)) >? t) && (events (m_history e) >? 0)).

(** [now] is the clock and [random] what the generator gives. *)
Definition client_retry_after (now random : Z) e : option Z :=
  if wait_interval_alpha (pRecord e) =? 0 then None
  else
    let prat := if F_congested e then Z.max 0 (i32 (proxy_retry_interval (pRecord e) + last_event (m_history e) - now)) else 0 in
    Some (i32 (prat + client_wait_interval (pRecord e) + random mod u32 (wait_interval_alpha (pRecord e)))).

Definition proxy_retry (t : Z) e : bool := i64 (t - last_event (m_history e)) >=? proxy_retry_interval (pRecord e).

Definition connect_retries e : Z := if F_congested e then dead_os_conn_retries (pRecord e) else live_os_conn_retries (pRecord e).
Definition connect_timeout e : Z := if F_congested e then dead_os_conn_timeout (pRecord e) else live_os_conn_timeout (pRecord e).

Definition compCongested e : bool :=
  if m_congested e then true
  else if max_connection_failures (pRecord e) =? -1 then false
  else max_connection_failures (pRecord e) <=? events (m_history e).

Definition connection_opened e : CongestionEntry := set_connections (i32 (m_num_connections e + 1)) e.

Definition connection_closed e : CongestionEntry * list Signal :=
  let e := set_connections (i32 (m_num_connections e - 1)) e in
  if m_M_congested e then (set_M_congested false (m_last_M_congested e) e, signal Alive e) else (e, []).

Definition clearFailHistory e : CongestionEntry := set_congested false (set_history (hist_init (fail_window (pRecord e))) e).

(** [init]. *)
Definition init_rule (rule : CongestionControlRecord) e : CongestionEntry * list Signal :=
  let e := clearFailHistory (set_rule rule e) in
  if (max_connection rule >? m_num_connections e) && m_M_congested e then (set_M_congested false (m_last_M_congested e) e, signal Alive e) else (e, []).

Definition go_alive e : CongestionEntry * list Signal := if m_congested e then (set_congested false e, signal Alive e) else (e, []).

Definition applyNewRule (rule : CongestionControlRecord) e : CongestionEntry * list Signal :=
  if negb (fail_window (pRecord e) =? fail_window rule) then init_rule rule e
  else
    let mcf := max_connection_failures (pRecord e) in
    let e := set_rule rule e in
    let '(e, s1) :=
      if ((max_connection rule <? 0) || (max_connection rule >? m_num_connections e)) && m_M_congested e
      then (set_M_congested false (m_last_M_congested e) e, signal Alive e) else (e, []) in
    let '(e, s2) :=
      if max_connection_failures rule <? 0 then go_alive e
      else if mcf <? max_connection_failures rule then go_alive e
      else if (mcf >? max_connection_failures rule) && (events (m_history e) >=? max_connection_failures rule)
           then if m_congested e then (e, []) else (set_congested true e, signal Congested e)
           else (e, []) in
    (e, s1 ++ s2).

(** A failure, with the outcome of the attempt to lock the history. *)
Definition failed_at (lock : bool) (t : Z) e : option (CongestionEntry * list Signal) :=
  if max_connection_failures (pRecord e) =? -1 then Some (e, [])
  else if lock then
    h ← regist_event t 1 (m_history e);
    let e := set_history h e in
    if negb (m_congested e) && compCongested e
    then Some (set_last_congested (last_event h) (set_congested true e), signal Congested e)
    else Some (e, [])
  else Some (e, []).

(** [validate]: [None] when the server is under no rule any more, or under another one.
    [make_key] is a digest of the name or the address and what the rule says of port and
    prefix. *)
Definition validate (congestionControlEnabled : Z) (make_key : option (list Z) -> Z -> CongestionControlRecord -> Z) (matching : list CongestionControlRecord) e : option (CongestionEntry * list Signal) :=
  match CongestionControlled congestionControlEnabled (RD_CONGEST_ENTRY (pRecord e)) matching with
  | None => None
  | Some p => if make_key (m_hostname e) (m_ip e) p =? m_key e then Some (applyNewRule p e) else None
  end.
End update.
