(* ===== verification/FailHistoryFacts.v ===== *)
(** Theorems on the history of failures of a server: what it counts are the failures of
    a window whose length is known up to one bin. *)

From S2P Require Import Prelude ParseRules HdrToken LibC Congestion.

Local Notation len l := (Z.of_nat (List.length l)).

Lemma entries_17 : entries_n = 17.
Proof. done. Qed.

(** The bin for the [j]th interval. *)
Definition slot (c j : Z) : nat := Z.to_nat ((j + 1 + c) mod entries_n).

Lemma slot_inj c j k : 0 <= j < 17 -> 0 <= k < 17 -> slot c j = slot c k -> j = k.
Proof. unfold slot. rewrite ?entries_17. intros J K E. pose proof (Z.mod_pos_bound (j + 1 + c) 17 ltac:(lia)). pose proof (Z.mod_pos_bound (k + 1 + c) 17 ltac:(lia)). apply Z2Nat.inj in E; [|lia..]. Z.to_euclidean_division_equations. lia. Qed.

Lemma slot_lt c j : (slot c j < 17)%nat.
Proof. unfold slot. rewrite ?entries_17. pose proof (Z.mod_pos_bound (j + 1 + c) 17 ltac:(lia)). lia. Qed.

Lemma alter_lookup {A} (f : A -> A) (l : list A) (i : nat) x : l !! i = Some x -> alter f i l = <[i := f x]> l.
Proof.
  intros E. apply list_eq. intros j. destruct (decide (j = i)) as [->|N].
  - rewrite list_lookup_alter_eq, E, list_lookup_insert_eq; [done|]. by eapply lookup_lt_Some.
  - by rewrite list_lookup_alter_ne, list_lookup_insert_ne.
Qed.

(** The events [ts] are the ones counted, in the bins [L] from the oldest on, and [out],
    which are not counted. *)
Record counts (b : Z) (L : list (list Z)) (out ts : list Z) (h : FailHistory) : Prop := {
  ct_b : 0 < b < 2 ^ 26;
  ct_bin : bin_len h = b;
  ct_length : length h = 17 * b;
  ct_L : List.length L = 17%nat;
  ct_cur : 0 <= cur_index h < 17;
  ct_bins : List.length (bins h) = 17%nat;
  ct_bin_count : forall j l, L !! j = Some l -> bins h !! slot (cur_index h) (Z.of_nat j) = Some (len l);
  ct_times : forall j l, L !! j = Some l -> Forall (fun t => start h + Z.of_nat j * b <= t <= start h + (Z.of_nat j + 1) * b) l;
  ct_events : events h = len (concat L);
  ct_start : 0 <= start h < 2 ^ 62;
  ct_last : 0 <= last_event h <= start h + 17 * b;
  ct_out : Forall (fun t => t <= start h) out;
  ct_all : start h = 0 -> out = [];
  ct_perm : ts ≡ₚ concat L ++ out;
  ct_few : len ts < 2 ^ 16
}.

Lemma counts_init window : 0 <= window < 2 ^ 30 -> counts (bin_len (hist_init window)) (replicate 17 []) [] [] (hist_init window).
Proof.
  intros W. unfold hist_init. assert (E : i32 (window + entries_n) = window + 17) by (rewrite entries_17; apply wraps_id; lia).
  set (b := if _ <=? 0 then 1 else _). assert (B : 0 < b < 2 ^ 26).
  { unfold b. rewrite E, entries_17. rewrite Z.quot_div_nonneg by lia. pose proof (Z.div_lt_upper_bound (window + 17) 17 (2 ^ 26) ltac:(lia) ltac:(lia)). pose proof (Z.div_pos (window + 17) 17).
    destruct (Z.leb_spec ((window + 17) / 17) 0); lia. }
  assert (EL : i32 (b * entries_n) = 17 * b) by (rewrite entries_17, wraps_id; lia).
  split; cbn [bin_len length cur_index bins start last_event events]; try done; try (cbn; lia).
  - intros j l E'. apply lookup_replicate in E' as [-> L]. rewrite lookup_replicate_2; [done|]. apply slot_lt.
  - intros j l E'. apply lookup_replicate in E' as [-> L]. constructor.
Qed.

Section history.
Variables (b : Z).
Local Notation counts := (counts b).

Lemma counted_few L out ts h : counts L out ts h -> len (concat L) <= len ts.
Proof. intros C. pose proof (Permutation_length (ct_perm _ _ _ _ _ C)) as P. rewrite length_app in P. lia. Qed.

Lemma bin_few L out ts h j l : counts L out ts h -> L !! j = Some l -> 0 <= len l <= len ts.
Proof.
  intros C E. pose proof (counted_few _ _ _ _ C). pose proof (ct_few _ _ _ _ _ C). rewrite <- (take_drop_middle L j l E), concat_app in *. cbn [concat] in *. rewrite !length_app in *. lia.
Qed.

(** One interval on. *)
Lemma shift_counts l0 L out ts h : counts (l0 :: L) out ts h -> start h < 2 ^ 61 ->
  exists h', shift h = Some h' /\ counts (L ++ [[]]) (out ++ l0) ts h' /\ start h' = start h + b /\ last_event h' = last_event h.
Proof.
  intros C S. pose proof (ct_cur _ _ _ _ _ C) as Cu. pose proof (ct_b _ _ _ _ _ C) as Bb. pose proof (ct_L _ _ _ _ _ C) as LL. cbn [List.length] in LL. unfold shift.
  set (c := if cur_index h + 1 =? entries_n then 0 else cur_index h + 1). assert (Hc : 0 <= c < 17 /\ c = (cur_index h + 1) mod 17).
  { unfold c. rewrite entries_17. destruct (Z.eqb_spec (cur_index h + 1) 17) as [E|N]; [rewrite E; done|]. rewrite Z.mod_small by lia. lia. }
  destruct Hc as [Hc Ec]. assert (Sl : Z.to_nat c = slot (cur_index h) 0) by (unfold slot; rewrite ?entries_17; rewrite Ec; do 2 f_equal; lia).
  pose proof (ct_bin_count _ _ _ _ _ C 0 l0 eq_refl) as E0. change (Z.of_nat 0) with 0 in E0. rewrite Sl, E0. cbn [mbind option_bind]. eexists. split; [done|].
  assert (Se : forall j, 0 <= j < 16 -> slot c j = slot (cur_index h) (j + 1)).
  { intros j J. unfold slot. rewrite ?entries_17. f_equal. rewrite Ec. Z.to_euclidean_division_equations. lia. }
  pose proof (counted_few _ _ _ _ C) as F. pose proof (ct_few _ _ _ _ _ C). cbn [concat] in F. rewrite length_app in F. pose proof (ct_start _ _ _ _ _ C). pose proof (ct_last _ _ _ _ _ C).
  assert (E1 : i64 (start h + bin_len h) = start h + b) by (rewrite (ct_bin _ _ _ _ _ C); apply wraps_id; lia).
  cbn [start last_event]. rewrite E1. split; [|done]. split; cbn [bin_len length cur_index bins start last_event events]; rewrite ?E1; try apply C; try lia.
  - rewrite length_app. cbn. lia.
  - rewrite length_insert. apply C.
  - intros j l E. apply lookup_app_Some in E as [E|[J E]].
    + pose proof (lookup_lt_Some _ _ _ E). rewrite Se by lia. rewrite list_lookup_insert_ne.
      * replace (Z.of_nat j + 1) with (Z.of_nat (Datatypes.S j)) by lia. by apply (ct_bin_count _ _ _ _ _ C (Datatypes.S j)).
      * intros X. apply slot_inj in X; lia.
    + apply list_lookup_singleton_Some in E as [E <-]. assert (slot c (Z.of_nat j) = slot (cur_index h) 0) as ->.
      { rewrite <- Sl. unfold slot. rewrite ?entries_17. f_equal. replace (Z.of_nat j + 1 + c) with (c + 1 * 17) by lia. rewrite Z.mod_add, Z.mod_small by lia. done. }
      rewrite list_lookup_insert_eq; [done|]. rewrite (ct_bins _ _ _ _ _ C). apply slot_lt.
  - intros j l E. apply lookup_app_Some in E as [E|[J E]].
    + pose proof (ct_times _ _ _ _ _ C (Datatypes.S j) l E) as T. eapply Forall_impl; [exact T|]. cbn. intros t. lia.
    + apply list_lookup_singleton_Some in E as [E <-]. constructor.
  - rewrite (ct_events _ _ _ _ _ C). cbn [concat]. rewrite concat_app, !length_app. cbn. rewrite wraps_id; lia.
  - apply Forall_app. split; [eapply Forall_impl; [apply (ct_out _ _ _ _ _ C)|intros ?; cbn; lia]|]. pose proof (ct_times _ _ _ _ _ C 0%nat l0 eq_refl) as T. eapply Forall_impl; [exact T|]. intros x. cbn. lia.
  - rewrite (ct_perm _ _ _ _ _ C). cbn [concat]. rewrite concat_app. cbn. rewrite app_nil_r. rewrite <- app_assoc, (Permutation_app_comm l0), <- app_assoc. done.
Qed.

Lemma shift_until_counts fuel t L out ts h : counts L out ts h -> start h + 17 * b <= t <= start h + (17 + Z.of_nat fuel) * b -> (0 < fuel)%nat -> t < 2 ^ 60 ->
  exists h' L' out', shift_until fuel t h = Some h' /\ counts (L' ++ [[]]) out' ts h' /\ start h' + 16 * b <= t <= start h' + 17 * b /\ last_event h' = last_event h.
Proof.
  revert L out h. induction fuel as [|fuel IH]; intros L out h C T F B; [lia|]. destruct L as [|l0 L]; [by pose proof (ct_L _ _ _ _ _ C)|].
  pose proof (ct_b _ _ _ _ _ C). pose proof (ct_start _ _ _ _ _ C). destruct (shift_counts l0 L out ts h C) as (h1 & E & C1 & S1 & L1); [lia|]. cbn [shift_until]. rewrite E. cbn [mbind option_bind].
  rewrite (ct_length _ _ _ _ _ C1). rewrite wraps_id by lia. destruct (Z.ltb_spec (start h1 + 17 * b) t).
  - destruct fuel as [|fuel]; [lia|]. destruct (IH _ _ _ C1) as (h2 & L2 & out2 & E2 & C2 & S2 & La); [lia|lia|done|]. exists h2, L2, out2. by rewrite <- L1.
  - exists h1, L, (out ++ l0). split_and!; done || lia.
Qed.

(** An event put into a bin. *)
Lemma count_event t j L out ts h : counts L out ts h -> 0 <= j < 17 -> start h + j * b <= t <= start h + (j + 1) * b -> len ts + 1 < 2 ^ 16 -> forall h',
  h' = mkHist (start h) (bin_len h) (length h) (alter (fun x => u16 (x + 1)) (slot (cur_index h) j) (bins h)) (cur_index h) (if last_event h <? t then t else last_event h)
         (i32 (events h + 1)) ->
  counts (alter (cons t) (Z.to_nat j) L) out (t :: ts) h'.
Proof.
  intros C J T F h' ->. pose proof (ct_L _ _ _ _ _ C) as LL. destruct (lookup_lt_is_Some_2 L (Z.to_nat j)) as [l Hl]; [lia|]. pose proof (bin_few _ _ _ _ _ _ C Hl) as Bf.
  pose proof (counted_few _ _ _ _ C). pose proof (ct_start _ _ _ _ _ C). pose proof (ct_b _ _ _ _ _ C). pose proof (ct_last _ _ _ _ _ C).
  assert (P : concat (alter (cons t) (Z.to_nat j) L) ≡ₚ t :: concat L).
  { rewrite (alter_lookup _ _ _ _ Hl). rewrite (insert_take_drop _ _ _ (lookup_lt_Some _ _ _ Hl)). rewrite <- (take_drop_middle L _ _ Hl) at 3. rewrite !concat_app. cbn [concat app]. symmetry. apply Permutation_middle. }
  assert (Nb : forall k l, alter (cons t) (Z.to_nat j) L !! k = Some l -> (k = Z.to_nat j /\ exists l0, L !! k = Some l0 /\ l = t :: l0) \/ (k <> Z.to_nat j /\ L !! k = Some l)).
  { intros k l' E. destruct (decide (k = Z.to_nat j)) as [->|N].
    - left. split; [done|]. rewrite list_lookup_alter_eq, Hl in E. injection E as <-. by exists l.
    - right. by rewrite list_lookup_alter_ne in E. }
  split; cbn [bin_len length cur_index bins start last_event events]; try apply C; try lia.
  - rewrite length_alter. apply C.
  - rewrite length_alter. apply C.
  - intros k l' E. destruct (Nb _ _ E) as [(-> & l0 & E0 & ->)|[N E0]].
    + rewrite Z2Nat.id by lia. rewrite list_lookup_alter_eq. pose proof (ct_bin_count _ _ _ _ _ C _ _ E0) as X. rewrite Z2Nat.id in X by lia. rewrite X. cbn [fmap option_fmap option_map List.length].
      pose proof (bin_few _ _ _ _ _ _ C E0). f_equal. rewrite Hl in E0. injection E0 as <-. rewrite wrapu_id; lia.
    + pose proof (lookup_lt_Some _ _ _ E0). rewrite list_lookup_alter_ne; [by apply C|]. intros X. apply slot_inj in X; lia.
  - intros k l' E. destruct (Nb _ _ E) as [(-> & l0 & E0 & ->)|[N E0]]; [|by apply C]. constructor; [lia|]. by apply C.
  - rewrite (ct_events _ _ _ _ _ C), (Permutation_length P). cbn [List.length]. rewrite wraps_id; lia.
  - destruct (Z.ltb_spec (last_event h) t); nia.
  - rewrite P. cbn [app]. constructor. apply C.
  - cbn [List.length]. lia.
Qed.

Lemma slot_last c : 0 <= c < 17 -> slot c 16 = Z.to_nat c.
Proof. intros C. unfold slot. rewrite entries_17. replace (16 + 1 + c) with (c + 1 * 17) by lia. by rewrite Z.mod_add, Z.mod_small by lia. Qed.

(** A history that begins anew with one event. *)
Lemma init_counts t ts h : 0 < b < 2 ^ 26 -> bin_len h = b -> length h = 17 * b -> 17 * b < t < 2 ^ 60 -> Forall (fun x => x < t - 17 * b) ts -> len ts + 1 < 2 ^ 16 ->
  let h' := init_event t 1 h in counts (replicate 16 [] ++ [[t]]) ts (t :: ts) h' /\ 0 < start h' <= t - 16 * b /\ last_event h' = t.
Proof.
  intros B Eb El T F N h'. assert (S : start h' = t - t mod b - 16 * b).
  { unfold h', init_event. cbn [start]. rewrite Eb, El, Z.rem_mod_nonneg by lia. pose proof (Z.mod_pos_bound t b ltac:(lia)). rewrite wraps_id; lia. }
  pose proof (Z.mod_pos_bound t b ltac:(lia)) as M. assert (D : t - t mod b >= 17 * b).
  { pose proof (Z.div_mod t b ltac:(lia)). assert (17 <= t / b) by (apply Z.div_le_lower_bound; lia). nia. }
  split; [|split; [lia|done]]. split; cbn [h' init_event bin_len length cur_index bins last_event events]; rewrite ?Eb, ?El; fold h'; try done; try lia.
  - intros j l E. apply lookup_app_Some in E as [E|[J E]].
    + apply lookup_replicate in E as [-> E]. cbn [List.length]. assert (X : slot 0 (Z.of_nat j) = Datatypes.S j) by (unfold slot; rewrite entries_17, Z.mod_small by lia; lia).
      rewrite X. exact (lookup_replicate_2 16 0 j E).
    + rewrite length_replicate in *. apply list_lookup_singleton_Some in E as [E <-]. assert (j = 16%nat) as -> by lia. by change (slot 0 (Z.of_nat 16)) with 0%nat.
  - intros j l E. apply lookup_app_Some in E as [E|[J E]].
    + apply lookup_replicate in E as [-> E]. constructor.
    + rewrite length_replicate in *. apply list_lookup_singleton_Some in E as [E <-]. assert (j = 16%nat) as -> by lia. constructor; [|constructor]. rewrite S. lia.
  - eapply Forall_impl; [exact F|]. intros x. cbv beta. rewrite S. lia.
  - cbn [List.length]. lia.
Qed.

(** What holds of a history of the events [ts]. *)
Definition hist_ok (ts : list Z) (h : FailHistory) : Prop := exists L out, counts L out ts h /\
  (start h = 0 \/ start h <= last_event h - 16 * b) /\ Forall (fun t => t <= last_event h) ts /\ last_event h = foldr Z.max 0 ts.

Lemma regist_ok t ts h : hist_ok ts h -> 0 <= t < 2 ^ 60 -> Forall (fun t => t < 2 ^ 60) ts -> len ts + 1 < 2 ^ 16 -> exists h', regist_event t 1 h = Some h' /\ hist_ok (t :: ts) h'.
Proof.
  intros (L & out & C & S & Le & La) T Lt N. pose proof (ct_b _ _ _ _ _ C) as B. pose proof (ct_start _ _ _ _ _ C) as St. pose proof (ct_last _ _ _ _ _ C) as Lb. pose proof (ct_cur _ _ _ _ _ C) as Cu.
  assert (Lu : last_event h < 2 ^ 60). { rewrite La. clear -Lt. induction Lt; cbn; lia. }
  unfold regist_event. destruct (Z.ltb_spec t (start h)) as [T1|T1].
  { exists h. split; [done|]. exists L, (t :: out). split_and!; [|done| |cbn; lia].
    - split; try apply C; try lia; [constructor; [lia|apply C]| |cbn [List.length]; lia]. rewrite (ct_perm _ _ _ _ _ C). apply Permutation_middle.
    - constructor; [lia|done]. }
  rewrite Z.gtb_ltb, (ct_length _ _ _ _ _ C), wraps_id by lia. destruct (Z.ltb_spec (last_event h + 17 * b) t) as [T2|T2].
  { eexists. split; [done|]. destruct (init_counts t ts h) as (C' & S' & L'); try apply C; try done; try lia.
    { eapply Forall_impl; [exact Le|]. intros x. cbn. lia. }
    eexists _, _. split; [exact C'|]. split; [right; lia|]. rewrite L'. split; [constructor; [lia|]; eapply Forall_impl; [exact Le|]; intros x; cbn; lia|cbn; lia]. }
  rewrite wraps_id by lia. destruct (Z.ltb_spec t (start h + 17 * b)) as [T3|T3].
  - rewrite (ct_bin _ _ _ _ _ C), (proj2 (Z.eqb_neq b 0)) by lia. cbn [mbind option_bind bin_len length bins cur_index start last_event events]. eexists. split; [done|].
    set (j := (t - start h) / b). assert (J : 0 <= j < 17) by (split; [apply Z.div_pos; lia|apply Z.div_lt_upper_bound; lia]).
    assert (Sj : Z.to_nat (Z.rem (Z.quot (t - start h) b + 1 + cur_index h) entries_n) = slot (cur_index h) j).
    { unfold slot, j. rewrite Z.quot_div_nonneg, Z.rem_mod_nonneg by (rewrite ?entries_17; lia). done. }
    rewrite Sj. assert (Tj : start h + j * b <= t <= start h + (j + 1) * b).
    { unfold j. pose proof (Z.div_mod (t - start h) b ltac:(lia)). pose proof (Z.mod_pos_bound (t - start h) b ltac:(lia)). nia. }
    pose proof (count_event t j L out ts h C J Tj N _ eq_refl) as C'. rewrite (ct_bin _ _ _ _ _ C), (ct_length _ _ _ _ _ C) in C'. eexists _, _. split; [exact C'|]. cbn [start last_event].
    split; [destruct (Z.ltb_spec (last_event h) t); lia|]. split; [|destruct (Z.ltb_spec (last_event h) t); cbn; lia].
    constructor; [destruct (Z.ltb_spec (last_event h) t); lia|]. eapply Forall_impl; [exact Le|]. intros x. cbn. destruct (Z.ltb_spec (last_event h) t); lia.
  - destruct (shift_until_counts (Datatypes.S (Datatypes.S CONG_HIST_ENTRIES)) t L out ts h C) as (h1 & L1 & out1 & E & C1 & S1 & La1); [unfold CONG_HIST_ENTRIES; lia|lia|lia|].
    rewrite E. cbn [mbind option_bind bin_len length bins cur_index start last_event events]. eexists. split; [done|].
    pose proof (ct_cur _ _ _ _ _ C1) as Cu1. assert (L16 : (L1 ++ [[]]) !! 16%nat = Some []).
    { pose proof (ct_L _ _ _ _ _ C1) as X. rewrite length_app in X. cbn in X. apply list_lookup_middle. lia. }
    pose proof (ct_bin_count _ _ _ _ _ C1 _ _ L16) as B16. change (Z.of_nat 16) with 16 in B16. rewrite slot_last in B16 by done.
    assert (Al : <[Z.to_nat (cur_index h1) := u16 1]> (bins h1) = alter (fun x => u16 (x + 1)) (slot (cur_index h1) 16) (bins h1)) by by rewrite slot_last, (alter_lookup _ _ _ _ B16) by done.
    rewrite Al. pose proof (count_event t 16 _ _ ts h1 C1 ltac:(lia) ltac:(lia) N _ eq_refl) as C'. eexists _, _. split; [exact C'|]. cbn [start last_event]. rewrite La1.
    split; [destruct (Z.ltb_spec (last_event h) t); lia|]. split; [|destruct (Z.ltb_spec (last_event h) t); cbn; lia].
    constructor; [destruct (Z.ltb_spec (last_event h) t); lia|]. eapply Forall_impl; [exact Le|]. intros x. cbn. destruct (Z.ltb_spec (last_event h) t); lia.
Qed.

(** The number of the events of a list in a range. *)
Definition count_if (p : Z -> bool) (ts : list Z) : Z := len (List.filter p ts).

Lemma count_if_perm p ts ts' : ts ≡ₚ ts' -> count_if p ts = count_if p ts'.
Proof. intros P. unfold count_if. f_equal. induction P; cbn; repeat destruct (p _); cbn; lia. Qed.

Lemma count_if_app p ts ts' : count_if p (ts ++ ts') = count_if p ts + count_if p ts'.
Proof. unfold count_if. rewrite List.filter_app, length_app. lia. Qed.

Lemma count_if_none (p : Z -> bool) ts : Forall (fun t => p t = false) ts -> count_if p ts = 0.
Proof. induction 1 as [|t ts H _ IH]; [done|]. unfold count_if. cbn. by rewrite H. Qed.

Lemma count_if_all (p : Z -> bool) ts : Forall (fun t => p t = true) ts -> count_if p ts = len ts.
Proof. induction 1 as [|t ts H _ IH]; [done|]. unfold count_if in *. cbn. rewrite H. cbn [List.length]. lia. Qed.

Lemma count_if_le p ts : 0 <= count_if p ts <= len ts.
Proof. unfold count_if. pose proof (List.filter_length_le p ts). lia. Qed.

(** The events that count are those of the last sixteen to seventeen intervals. *)
Lemma hist_ok_window ts h : hist_ok ts h -> Forall (fun t => 0 <= t) ts ->
  count_if (fun t => last_event h - 16 * b <? t) ts <= events h <= count_if (fun t => last_event h - 17 * b <=? t) ts.
Proof.
  intros (L & out & C & S & Le & La) Nn. rewrite (ct_events _ _ _ _ _ C), !(count_if_perm _ _ _ (ct_perm _ _ _ _ _ C)), !count_if_app.
  pose proof (ct_last _ _ _ _ _ C) as Lb. split.
  - assert (count_if (fun t => last_event h - 16 * b <? t) out = 0) as ->; [|pose proof (count_if_le (fun t => last_event h - 16 * b <? t) (concat L)); lia].
    destruct S as [S|S]; [by rewrite (ct_all _ _ _ _ _ C S)|]. apply count_if_none. eapply Forall_impl; [apply (ct_out _ _ _ _ _ C)|]. intros t Ht. apply Z.ltb_ge. cbn in Ht. lia.
  - rewrite (count_if_all _ (concat L)); [pose proof (count_if_le (fun t => last_event h - 17 * b <=? t) out); lia|]. apply Forall_concat, Forall_lookup. intros j l E.
    pose proof (ct_times _ _ _ _ _ C j l E) as F. pose proof (ct_b _ _ _ _ _ C). eapply Forall_impl; [exact F|]. intros t Ht. cbn in Ht. apply Z.leb_le. nia.
Qed.
End history.

(** Failures one after the other. *)
Fixpoint regist_events (ts : list Z) (h : FailHistory) : option FailHistory :=
  match ts with [] => Some h | t :: ts' => h ← regist_event t 1 h; regist_events ts' h end.

Lemma regist_events_ok b ts' ts h : hist_ok b ts' h -> Forall (fun t => 0 <= t < 2 ^ 60) (ts ++ ts') -> len (ts ++ ts') < 2 ^ 16 ->
  exists h', regist_events ts h = Some h' /\ hist_ok b (rev ts ++ ts') h'.
Proof.
  revert ts' h. induction ts as [|t ts IH]; intros ts' h H F N; [by exists h|]. cbn [app List.length] in *. apply Forall_cons in F as [T F]. pose proof F as F'. apply Forall_app in F' as [_ Ft]. rewrite length_app in N.
  destruct (regist_ok b t ts' h H T) as (h1 & E & H1); [eapply Forall_impl; [exact Ft|]; intros x; cbn; lia|lia|]. cbn [regist_events]. rewrite E. cbn [mbind option_bind].
  destruct (IH (t :: ts') h1 H1) as (h2 & E2 & H2). { apply Forall_app. apply Forall_app in F as [F1 F2]. split; [done|by constructor]. } { rewrite length_app. cbn [List.length]. lia. }
  exists h2. split; [done|]. cbn [rev]. by rewrite <- app_assoc.
Qed.

Lemma hist_init_ok window : 0 <= window < 2 ^ 30 -> hist_ok (bin_len (hist_init window)) [] (hist_init window).
Proof. intros W. eexists _, _. split; [by apply counts_init|]. split; [by left|]. by split. Qed.

(** C28: The number of failures that a server is judged by is that of a sliding window:
    it counts every failure of the sixteen intervals before the last failure, and none
    older than seventeen, in whatever order the failures are reported, where an interval
    is the seventeenth part of the window of the rule rounded up.  So the window that is
    counted may be shorter than that of the rule, by nearly one interval, where
    [FeatureSpec.txt] has intervals of a sixteenth, so that it is at least as long
    ([window_cut_short]).  There are less than 2^16 failures in all, since a bin has 16
    bits ([bin_wraps]). *)
Theorem fail_history_window window ts : 0 <= window < 2 ^ 30 -> Forall (fun t => 0 <= t < 2 ^ 60) ts -> len ts < 2 ^ 16 ->
  exists h, regist_events ts (hist_init window) = Some h /\ last_event h = foldr Z.max 0 ts /\
    window < 17 * bin_len (hist_init window) <= window + 17 /\
    count_if (fun t => last_event h - 16 * bin_len (hist_init window) <? t) ts <= events h <=
      count_if (fun t => last_event h - 17 * bin_len (hist_init window) <=? t) ts.
Proof.
  intros W F N. pose proof (hist_init_ok window W) as H0. destruct (regist_events_ok _ [] ts _ H0) as (h & E & H); [by rewrite app_nil_r|by rewrite app_nil_r|]. rewrite app_nil_r in H.
  pose proof H as (L & out & C & _ & _ & La). exists h. split; [done|]. assert (P : rev ts ≡ₚ ts) by (symmetry; apply Permutation_rev). split.
  { rewrite La. clear -P. induction P; cbn; lia. }
  split.
  { unfold hist_init. cbn [bin_len]. rewrite entries_17, wraps_id, Z.quot_div_nonneg by lia. pose proof (Z.div_mod (window + 17) 17 ltac:(lia)). pose proof (Z.mod_pos_bound (window + 17) 17 ltac:(lia)).
    destruct (Z.leb_spec ((window + 17) / 17) 0); lia. }
  rewrite <- !(count_if_perm _ _ _ P). apply hist_ok_window; [done|]. rewrite P. eapply Forall_impl; [exact F|]. intros x. cbn. lia.
Qed.
