(* ===== verification/CongestionFacts.v ===== *)
(** Theorems on congestion control: the rule that is chosen for a request, when a server
    is held to be congested, and what is signalled. *)

From S2P Require Import Prelude ParseRules HdrToken LibC Congestion FailHistoryFacts.

Local Notation len l := (Z.of_nat (List.length l)).

(** ** The rule for a request *)

(** [r] is not to give way to [r']. *)
Definition as_good (r r' : CongestionControlRecord) : Prop := rank r' < rank r \/ rank r' = rank r /\ line_num r <= line_num r'.

(** The best of the rules whose modifiers agree. *)
Definition best_rule (rdata : RequestData) (rules : list CongestionControlRecord) (res : option CongestionControlRecord) : Prop :=
  match res with
  | None => forall r, r ∈ rules -> rule_agrees rdata r = false
  | Some r => r ∈ rules /\ rule_agrees rdata r = true /\ forall r', r' ∈ rules -> rule_agrees rdata r' = true -> as_good r r'
  end.

Lemma match_best rdata rules : best_rule rdata rules (Match rdata rules).
Proof.
  unfold Match. induction rules as [|r rules IH] using rev_ind; [intros r I; by apply not_elem_of_nil in I|]. rewrite foldl_app. cbn [foldl].
  set (res := foldl _ None rules) in *. unfold UpdateMatch. destruct res as [x|]; cbn in IH.
  - destruct IH as (I & A & B). destruct (rule_agrees rdata r) eqn:G.
    + rewrite andb_true_r, Z.gtb_ltb. destruct (Z.ltb_spec (rank x) (rank r)) as [R|R]; [|destruct (Z.ltb_spec (line_num r) (line_num x)) as [R2|R2]; [destruct (Z.eqb_spec (rank x) (rank r)) as [R3|R3]|]]; cbn.
      * split; [apply elem_of_app; right; by constructor|]. split; [done|]. intros r' [I'|I']%elem_of_app A'; [specialize (B r' I' A'); unfold as_good in *; lia|].
        apply list_elem_of_singleton in I' as ->. right. lia.
      * split; [apply elem_of_app; right; by constructor|]. split; [done|]. intros r' [I'|I']%elem_of_app A'; [specialize (B r' I' A'); unfold as_good in *; lia|].
        apply list_elem_of_singleton in I' as ->. right. lia.
      * split; [apply elem_of_app; by left|]. split; [done|]. intros r' [I'|I']%elem_of_app A'; [by apply B|]. apply list_elem_of_singleton in I' as ->. unfold as_good. lia.
      * split; [apply elem_of_app; by left|]. split; [done|]. intros r' [I'|I']%elem_of_app A'; [by apply B|]. apply list_elem_of_singleton in I' as ->. unfold as_good. lia.
    + rewrite andb_false_r. cbn. split; [apply elem_of_app; by left|]. split; [done|]. intros r' [I'|I']%elem_of_app A'; [by apply B|]. apply list_elem_of_singleton in I' as ->. congruence.
  - cbn [andb]. destruct (rule_agrees rdata r) eqn:G; cbn.
    + split; [apply elem_of_app; right; by constructor|]. split; [done|]. intros r' [I'|I']%elem_of_app A'; [by rewrite IH in A'|]. apply list_elem_of_singleton in I' as ->. right. lia.
    + intros r' [I'|I']%elem_of_app; [by apply IH|]. by apply list_elem_of_singleton in I' as ->.
Qed.

Lemma best_unique rdata rules res res' : (forall r r', r ∈ rules -> r' ∈ rules -> line_num r = line_num r' -> r = r') ->
  best_rule rdata rules res -> best_rule rdata rules res' -> res = res'.
Proof.
  intros U. destruct res as [r|], res' as [r'|]; cbn; [|intros (I & A & _) N; by rewrite N in A|intros N (I & A & _); by rewrite N in A|done].
  intros (I & A & B) (I' & A' & B'). f_equal. apply U; [done..|]. specialize (B r' I' A'). specialize (B' r I A). unfold as_good in *. lia.
Qed.

(** A request is under the rule of the highest rank whose modifiers agree with it, of
    those the one that comes first in the file, and under none only if none agrees;
    the order in which the rules are tried does not matter. *)
Theorem rule_chosen rdata rules rules' : (forall r r', r ∈ rules -> r' ∈ rules -> line_num r = line_num r' -> r = r') -> rules' ≡ₚ rules ->
  best_rule rdata rules (Match rdata rules) /\ Match rdata rules' = Match rdata rules.
Proof.
  intros U P. split; [apply match_best|]. apply (best_unique rdata rules); [done| |apply match_best]. pose proof (match_best rdata rules') as B. destruct (Match rdata rules') as [r|]; cbn in *.
  - destruct B as (I & A & B). split; [by rewrite <- P|]. split; [done|]. intros r' I'. apply B. by rewrite P.
  - intros r I. apply B. by rewrite P.
Qed.

(** ** When a server is congested *)

(** Failures of a server, each with whether the lock of the history was got. *)
Fixpoint failures (fs : list (bool * Z)) (e : CongestionEntry) : option (CongestionEntry * list Signal) :=
  match fs with [] => Some (e, []) | (lock, t) :: fs' => '(e, s) ← failed_at lock t e; '(e, s') ← failures fs' e; Some (e, s ++ s') end.

(** The times of those that are counted. *)
Definition counted (fs : list (bool * Z)) : list Z := omap (fun f : bool * Z => if f.1 then Some f.2 else None) fs.

Lemma missed_failure t e : failed_at false t e = Some (e, []).
Proof. unfold failed_at. by destruct (_ =? -1). Qed.

Lemma failures_counted fs e : failures fs e = failures ((fun t : Z => (true, t)) <$> counted fs) e.
Proof.
  revert e. induction fs as [|[[] t] fs IH]; intros e; [done| |].
  - change (counted ((true, t) :: fs)) with (t :: counted fs). cbn [fmap list_fmap failures]. destruct (failed_at true t e) as [[e1 s1]|]; [|done]. cbn [mbind option_bind]. by rewrite IH.
  - change (counted ((false, t) :: fs)) with (counted fs). cbn [failures]. rewrite missed_failure. cbn [mbind option_bind]. rewrite IH. by destruct (failures _ e) as [[]|].
Qed.

Lemma failed_at_spec t e h : max_connection_failures (pRecord e) <> -1 -> regist_event t 1 (m_history e) = Some h ->
  exists e' s, failed_at true t e = Some (e', s) /\ m_history e' = h /\ pRecord e' = pRecord e /\
    m_congested e' = m_congested e || (max_connection_failures (pRecord e) <=? events h).
Proof.
  intros M R. unfold failed_at. rewrite (proj2 (Z.eqb_neq _ _)) by done. rewrite R. cbn [mbind option_bind]. unfold compCongested. cbn [m_congested set_history pRecord m_history].
  rewrite (proj2 (Z.eqb_neq _ _)) by done. destruct (m_congested e) eqn:C; cbn [negb andb orb]; [by eexists _, _|].
  destruct (max_connection_failures (pRecord e) <=? events h); by eexists _, _.
Qed.

Lemma failures_spec ts e h : max_connection_failures (pRecord e) <> -1 -> regist_events ts (m_history e) = Some h ->
  exists e' s, failures ((fun t : Z => (true, t)) <$> ts) e = Some (e', s) /\ m_history e' = h /\ pRecord e' = pRecord e /\
    (m_congested e' = true <-> m_congested e = true \/ exists ts1 ts2 h1, ts = ts1 ++ ts2 /\ ts1 <> [] /\ regist_events ts1 (m_history e) = Some h1 /\ max_connection_failures (pRecord e) <= events h1).
Proof.
  revert e. induction ts as [|t ts IH]; intros e M R; cbn [regist_events fmap list_fmap failures] in *.
  - injection R as <-. eexists _, _. split; [done|]. split; [done|]. split; [done|]. split; [by left|]. intros [C|(ts1 & ts2 & h1 & E & N & _)]; [done|]. by destruct ts1.
  - destruct (regist_event t 1 (m_history e)) as [h0|] eqn:R0; [|done]. cbn [mbind option_bind] in R. destruct (failed_at_spec t e h0 M R0) as (e1 & s1 & F & H1 & P1 & C1). rewrite F. cbn [mbind option_bind].
    destruct (IH e1) as (e2 & s2 & F2 & H2 & P2 & C2); [by rewrite P1|by rewrite H1|]. rewrite F2. cbn [mbind option_bind]. eexists _, _. split; [done|]. split; [done|]. split; [by rewrite P2|].
    rewrite C2, C1, orb_true_iff, Z.leb_le, P1, H1. split.
    + intros [[C|C]|(ts1 & ts2 & h1 & -> & N & R1 & L)]; [by left|right; exists [t], ts, h0; cbn; by rewrite R0|]. right. exists (t :: ts1), ts2, h1. split_and!; try done. cbn [regist_events]. by rewrite R0.
    + intros [C|(ts1 & ts2 & h1 & E & N & R1 & L)]; [by left; left|]. destruct ts1 as [|t1 ts1]; [done|]. cbn [app] in E. injection E as <- ->. cbn [regist_events] in R1. rewrite R0 in R1. cbn [mbind option_bind] in R1.
      destruct ts1 as [|t2 ts1]; [injection R1 as <-; by left; right|]. right. by exists (t2 :: ts1), ts2, h1.
Qed.

(** C29: A server that was in order is congested after failures whenever the number of
    them that the rule allows falls into the last sixteen intervals of the window, and
    only if at some time it fell into seventeen.  The failures are those for which the lock
    of the history was got: the code does not count the others.  There are less than 2^16
    of them.  The number that is allowed is itself enough, where [FeatureSpec.txt] has more
    than it. *)
Theorem congestion_judged hostname ip rule key fs :
  let e := new_CongestionEntry hostname ip rule key in
  let b := bin_len (hist_init (fail_window rule)) in
  let ts := counted fs in
  1 <= max_connection_failures rule -> 0 <= fail_window rule < 2 ^ 30 -> Forall (fun t => 0 <= t < 2 ^ 60) ts -> len ts < 2 ^ 16 ->
  exists e' sigs, failures fs e = Some (e', sigs) /\
    (max_connection_failures rule <= count_if (fun t => foldr Z.max 0 ts - 16 * b <? t) ts -> F_congested e' = true) /\
    (F_congested e' = true -> exists ts1 ts2, ts = ts1 ++ ts2 /\ max_connection_failures rule <= count_if (fun t => foldr Z.max 0 ts1 - 17 * b <=? t) ts1).
Proof.
  intros e b ts M W F N. rewrite failures_counted. fold ts. clearbody ts. clear fs.
  assert (G : forall ts1 ts2, ts = ts1 ++ ts2 -> exists h, regist_events ts1 (hist_init (fail_window rule)) = Some h /\
    count_if (fun t => foldr Z.max 0 ts1 - 16 * b <? t) ts1 <= events h <= count_if (fun t => foldr Z.max 0 ts1 - 17 * b <=? t) ts1).
  { intros ts1 ts2 ->. apply Forall_app in F as [F1 _]. rewrite length_app in N. destruct (regist_events_ok _ [] ts1 _ (hist_init_ok _ W)) as (h & R & H); [by rewrite app_nil_r|rewrite app_nil_r; lia|].
    rewrite app_nil_r in H. exists h. split; [done|]. assert (P : rev ts1 ≡ₚ ts1) by (symmetry; apply Permutation_rev). pose proof H as (L & out & C & _ & _ & La).
    assert (foldr Z.max 0 ts1 = last_event h) as ->. { rewrite La. clear -P. induction P; cbn; lia. }
    rewrite <- !(count_if_perm _ _ _ P). apply hist_ok_window; [done|]. rewrite P. eapply Forall_impl; [exact F1|]. intros x. cbn. lia. }
  destruct (G ts [] ltac:(by rewrite app_nil_r)) as (h & R & B). destruct (failures_spec ts e h) as (e' & s & E & _ & _ & C); [cbn; lia|done|]. exists e', s. split; [done|]. unfold F_congested. rewrite C. split.
  - intros K. right. exists ts, [], h. rewrite app_nil_r. split_and!; try done; [|change (pRecord e) with rule; lia]. intros ->. unfold count_if in K. cbn in K. lia.
  - intros [K|(ts1 & ts2 & h1 & E1 & _ & R1 & L)]; [done|]. exists ts1, ts2. split; [done|]. destruct (G ts1 ts2 E1) as (h2 & R2 & B2). cbn [m_history e new_CongestionEntry pRecord] in *. rewrite R1 in R2. injection R2 as <-. lia.
Qed.

(** ** What is signalled *)

(** What can happen to a server. *)
Inductive CongestionOp := Failure (lock : bool) (t : Z) | Success | ConnectionCheck (t : Z) | Opened | Closed | NewRule (rule : CongestionControlRecord).

Definition run_op (op : CongestionOp) (e : CongestionEntry) : option (CongestionEntry * list Signal) :=
  match op with
  | Failure lock t => failed_at lock t e
  | Success => Some (go_alive e)
  | ConnectionCheck t => let '(_, e, s) := M_congested t e in Some (e, s)
  | Opened => Some (connection_opened e, [])
  | Closed => Some (connection_closed e)
  | NewRule rule => Some (applyNewRule rule e)
  end.

Fixpoint run_ops (ops : list CongestionOp) (e : CongestionEntry) : option (CongestionEntry * list Signal) :=
  match ops with [] => Some (e, []) | op :: ops' => '(e, s) ← run_op op e; '(e, s') ← run_ops ops' e; Some (e, s ++ s') end.

(** How often more it was signalled that the server is congested than that it is not. *)
Definition balance (s : list Signal) : Z := foldr (fun x n => match x with Congested => n + 1 | Alive => n - 1 end) 0 s.

Definition flags (e : CongestionEntry) : Z := Zbool (m_congested e) + Zbool (m_M_congested e).

Lemma balance_app s s' : balance (s ++ s') = balance s + balance s'.
Proof. unfold balance. induction s as [|[] s IH]; cbn [app foldr]; [done|lia|lia]. Qed.

(** The rules under which a server may come have the same window. *)
Definition op_ok (w : Z) (op : CongestionOp) : Prop := match op with NewRule rule => fail_window rule = w | _ => True end.

Definition told (e : CongestionEntry) : bool := negb (snmp_enabled (pRecord e) =? 0).

(** How often the reasons to be congested became more than they became fewer, in the steps
    at which the rule of the server has [snmp] on. *)
Fixpoint reported (ops : list CongestionOp) (e : CongestionEntry) : Z :=
  match ops with
  | [] => 0
  | op :: ops' => match run_op op e with Some (e', _) => (if told e' then flags e' - flags e else 0) + reported ops' e' | None => 0 end
  end.

(** The rules that come have [snmp] on, or off. *)
Definition op_snmp (on : bool) (op : CongestionOp) : Prop := match op with NewRule rule => negb (snmp_enabled rule =? 0) = on | _ => True end.

Lemma balance_signal x e : balance (signal x e) = if told e then balance [x] else 0.
Proof. unfold signal, told. by destruct (_ =? 0). Qed.

Lemma run_op_balance w op e e' s : op_ok w op -> fail_window (pRecord e) = w -> run_op op e = Some (e', s) ->
  balance s = (if told e' then flags e' - flags e else 0) /\ fail_window (pRecord e') = w /\ match op with NewRule rule => pRecord e' = rule | _ => pRecord e' = pRecord e end.
Proof.
  intros Ok W. assert (Z0 : forall b : bool, (if b then 0 else 0) = 0) by (by intros []).
  destruct op as [lock t| |t| | |rule]; cbn [run_op op_ok] in *.
  - unfold failed_at. destruct (_ =? -1); [intros [= <- <-]; rewrite Z.sub_diag, Z0; by split_and!|]. destruct lock; [|intros [= <- <-]; rewrite Z.sub_diag, Z0; by split_and!].
    destruct (regist_event _ _ _) as [h|]; [|done]. cbn [mbind option_bind]. destruct (negb _ && _) eqn:C; intros [= <- <-].
    + apply andb_true_iff in C as [C _]. apply negb_true_iff in C. cbn in C. rewrite balance_signal. unfold flags, told. cbn. rewrite C. split_and!; try done. destruct (snmp_enabled _ =? 0); cbn; [done|lia].
    + unfold flags. cbn. rewrite Z.sub_diag, Z0. by split_and!.
  - unfold go_alive. destruct (m_congested e) eqn:C; intros [= <- <-]; rewrite ?balance_signal; unfold flags, told; cbn; rewrite ?C; (split_and!; [|done..]); destruct (snmp_enabled _ =? 0); cbn; lia.
  - unfold M_congested. destruct (_ && _); [|intros [= <- <-]; rewrite Z.sub_diag, Z0; by split_and!].
    destruct (m_M_congested e) eqn:C; intros [= <- <-]; rewrite ?balance_signal; unfold flags, told; cbn; rewrite ?C; (split_and!; [|done..]); destruct (snmp_enabled _ =? 0); cbn; lia.
  - intros [= <- <-]. unfold flags. cbn. rewrite Z.sub_diag, Z0. by split_and!.
  - unfold connection_closed. cbn [m_M_congested set_connections]. destruct (m_M_congested e) eqn:C; intros [= <- <-]; rewrite ?balance_signal; unfold flags, told; cbn; rewrite ?C; (split_and!; [|done..]); destruct (snmp_enabled _ =? 0); cbn; lia.
  - unfold applyNewRule. rewrite W, Ok, Z.eqb_refl. cbn [negb].
    destruct (_ && m_M_congested _) eqn:CM; [apply andb_true_iff in CM as [_ CM]; cbn [m_M_congested set_rule] in CM|];
      (destruct (max_connection_failures rule <? 0); [|destruct (max_connection_failures (pRecord e) <? max_connection_failures rule); [|destruct ((max_connection_failures (pRecord e) >? _) && _)]]); unfold go_alive; cbn [m_congested set_rule set_M_congested];
      (destruct (m_congested e) eqn:C); lazy iota beta zeta; intros [= <- <-]; rewrite ?balance_app, ?balance_signal; unfold flags, told; cbn; rewrite ?CM, ?C; (split_and!; [|done..]); destruct (snmp_enabled _ =? 0); cbn; lia.
Qed.

(** Nothing is said under a rule that has it off. *)
Lemma unsignalled op e e' s : told e' = false -> run_op op e = Some (e', s) -> s = [].
Proof.
  assert (S : forall x e, told e = false -> signal x e = []) by (intros x e0; unfold signal, told; by destruct (_ =? 0)).
  destruct op as [lock t| |t| | |rule]; cbn [run_op]; intros T.
  - unfold failed_at. destruct (_ =? -1); [by intros [= _ <-]|]. destruct lock; [|by intros [= _ <-]]. destruct (regist_event _ _ _) as [h|]; [|done]. cbn [mbind option_bind]. destruct (negb _ && _); [|by intros [= _ <-]].
    intros [= <- <-]. by apply S.
  - unfold go_alive. destruct (m_congested e); [|by intros [= _ <-]]. intros [= <- <-]. by apply S.
  - unfold M_congested. destruct (_ && _); [|by intros [= _ <-]]. destruct (m_M_congested e); [by intros [= _ <-]|]. intros [= <- <-]. by apply S.
  - by intros [= _ <-].
  - unfold connection_closed. destruct (m_M_congested _); [|by intros [= _ <-]]. intros [= <- <-]. by apply S.
  - unfold applyNewRule, init_rule, clearFailHistory, go_alive. destruct (negb _); [destruct (_ && _); [|by intros [= _ <-]]; intros [= <- <-]; by apply S|].
    destruct (_ && m_M_congested _); cbn [m_congested set_rule set_M_congested];
      (destruct (max_connection_failures rule <? 0); [|destruct (max_connection_failures (pRecord e) <? max_connection_failures rule); [|destruct ((max_connection_failures (pRecord e) >? _) && _)]]);
      destruct (m_congested e); intros [= <- <-]; rewrite ?S; done.
Qed.

(** C30: What the management is told agrees with the state of a server: as long as the
    window of the rule stays the same, the signals that the server is congested are as many
    more than those that it is alive as the reasons to be congested became more in the
    steps at which its rule has [snmp] on.  So with rules that have it on, the difference
    is always that of the reasons the server has, and with rules that have it off there
    are no signals. *)
Theorem signal_balance w ops e e' s : Forall (op_ok w) ops -> fail_window (pRecord e) = w -> run_ops ops e = Some (e', s) ->
  balance s = reported ops e /\ (told e = true -> Forall (op_snmp true) ops -> balance s = flags e' - flags e) /\ (told e = false -> Forall (op_snmp false) ops -> s = []).
Proof.
  revert e s. induction ops as [|op ops IH]; intros e s Ok W; cbn [run_ops reported].
  - intros [= <- <-]. split_and!; try done. intros. cbn. lia.
  - apply Forall_cons in Ok as [Ok Os]. destruct (run_op op e) as [[e1 s1]|] eqn:R; [|done]. cbn [mbind option_bind]. destruct (run_ops ops e1) as [[e2 s2]|] eqn:R2; [|done]. cbn [mbind option_bind].
    intros [= -> <-]. destruct (run_op_balance w op e e1 s1 Ok W R) as (B & W1 & P1). destruct (IH e1 s2 Os W1 R2) as (I1 & I2 & I3). split; [by rewrite balance_app, B, I1|].
    assert (T : forall on, told e = on -> op_snmp on op -> told e1 = on) by (intros on Te To; unfold told in *; destruct op; rewrite P1; first [exact Te|exact To]). split.
    + intros Te [To Ts]%Forall_cons. rewrite balance_app, B, (T true Te To), (I2 (T true Te To) Ts). lia.
    + intros Te [To Ts]%Forall_cons. rewrite (I3 (T false Te To) Ts), app_nil_r. exact (unsignalled op e e1 s1 (T false Te To) R).
Qed.
