(* ===== verification/CongestionTables.v ===== *)
(** The partitions of the congestion database as one map, and the references that its
    entries hold. *)

From S2P Require Import Prelude ParseRules HdrToken LibC MTHashtable Congestion CongestionDB.

(** ** Counting *)

(** How often an entry is referred to in a list of the entries of a table. *)
Definition cnt (id : nat) (l : list (Z * nat)) : nat := List.length (filter (fun e => e.2 = id) l).

Definition one (d id : nat) : nat := if decide (id = d) then 1 else 0.

Lemma one_same d : one d d = 1%nat.
Proof. unfold one. by rewrite decide_True. Qed.

Lemma cnt_app id l l' : cnt id (l ++ l') = (cnt id l + cnt id l')%nat.
Proof. unfold cnt. by rewrite filter_app, length_app. Qed.

Lemma cnt_cons id k d l : cnt id ((k, d) :: l) = (one d id + cnt id l)%nat.
Proof. unfold cnt, one. rewrite filter_cons. cbn [snd]. destruct (decide (d = id)) as [->|N]; [by rewrite decide_True|by rewrite decide_False]. Qed.

#[export] Instance cnt_perm id : Proper (Permutation ==> eq) (cnt id).
Proof. intros l l' P. unfold cnt. by rewrite P. Qed.

Lemma cnt_pos id l : (0 < cnt id l)%nat <-> exists k, (k, id) ∈ l.
Proof.
  induction l as [|[k d] l IH]; [split; [cbn; lia|by intros [k ?%not_elem_of_nil]]|]. rewrite cnt_cons. unfold one. destruct (decide (id = d)) as [->|N].
  - split; [|lia]. intros _. exists k. by constructor.
  - cbn [Nat.add]. rewrite IH. split; intros [k' I]; exists k'; [by constructor|]. apply elem_of_cons in I as [[= _ ->]|I]; done.
Qed.

(** The references of a map. *)
Definition vcount (id : nat) (m : gmap Z nat) : nat := cnt id (map_to_list m).

Lemma vcount_list id l : NoDup l.*1 -> vcount id (list_to_map l) = cnt id l.
Proof. intros N. unfold vcount. by rewrite map_to_list_to_map. Qed.

Lemma vcount_insert id k d m : m !! k = None -> vcount id (<[k := d]> m) = (one d id + vcount id m)%nat.
Proof. intros N. unfold vcount. by rewrite map_to_list_insert, cnt_cons. Qed.

Lemma vcount_delete id k d m : m !! k = Some d -> vcount id m = (one d id + vcount id (delete k m))%nat.
Proof. intros E. unfold vcount. by rewrite <- (map_to_list_delete m k d E), cnt_cons. Qed.

Lemma vcount_replace id k d old m : m !! k = Some old -> (vcount id (<[k := d]> m) + one old id = one d id + vcount id m)%nat.
Proof. intros E. rewrite <- insert_delete_eq, vcount_insert by apply lookup_delete_eq. rewrite (vcount_delete id k old m E). lia. Qed.

(** ** The partitions *)

Notation tables_t := (list (HashTable nat)).

Definition mt_wf (m : tables_t) : Prop :=
  List.length m = 64%nat /\ forall p t, m !! p = Some t -> table_wf t /\ forall k d, contents t !! k = Some d -> part_num k = p.

(** What is found under a key. *)
Definition mt_get (m : tables_t) (k : Z) : option nat := t ← m !! part_num k; contents t !! k.

Definition all_entries (m : tables_t) : list (Z * nat) := concat (entries <$> m).

Lemma part_num_lt k : (part_num k < 64)%nat.
Proof.
  unfold part_num. change MT_HASHTABLE_PARTITION_MASK with (Z.ones 6). rewrite Z.land_ones by lia. pose proof (Z.mod_pos_bound k (2 ^ 6)). lia.
Qed.

Lemma mt_part m k : mt_wf m -> exists t, m !! part_num k = Some t /\ table_wf t /\ mt_get m k = contents t !! k.
Proof.
  intros [L H]. pose proof (part_num_lt k). destruct (lookup_lt_is_Some_2 m (part_num k)) as [t E]; [lia|]. exists t. split; [done|]. split; [by eapply H|]. unfold mt_get. by rewrite E.
Qed.

Lemma entries_count id t : table_wf t -> cnt id (entries t) = vcount id (contents t).
Proof. intros (_ & _ & N & _). unfold contents. by rewrite vcount_list. Qed.

(** One partition replaced. *)
Lemma mt_replace m p t t' : mt_wf m -> m !! p = Some t -> table_wf t' -> (forall k d, contents t' !! k = Some d -> part_num k = p) ->
  mt_wf (<[p := t']> m) /\ (forall k, mt_get (<[p := t']> m) k = if decide (part_num k = p) then contents t' !! k else mt_get m k) /\
  forall id, (cnt id (all_entries (<[p := t']> m)) + vcount id (contents t) = cnt id (all_entries m) + vcount id (contents t'))%nat.
Proof.
  intros [L H] E W P. pose proof (lookup_lt_Some _ _ _ E) as Lt. split_and!.
  - split; [by rewrite length_insert|]. intros q u Eq. destruct (decide (p = q)) as [<-|N].
    + rewrite list_lookup_insert_eq in Eq by done. by injection Eq as <-.
    + rewrite list_lookup_insert_ne in Eq by done. by apply H.
  - intros k. unfold mt_get. destruct (decide (part_num k = p)) as [->|N]; [by rewrite list_lookup_insert_eq|by rewrite list_lookup_insert_ne].
  - intros id. destruct (H p t E) as [Wt _]. rewrite <- !entries_count by done. unfold all_entries. rewrite list_fmap_insert.
    assert (E' : (entries <$> m) !! p = Some (entries t)) by by rewrite list_lookup_fmap, E.
    rewrite (concat_insert _ _ _ _ E'), (concat_split _ _ _ E'), !cnt_app. lia.
Qed.

Lemma mt_lookup_spec m k : mt_wf m -> 0 <= k < 2 ^ 64 -> mt_lookup_entry k m = Some (mt_get m k).
Proof. intros W K. destruct (mt_part m k W) as (t & E & Wt & ->). unfold mt_lookup_entry. rewrite E. cbn [mbind option_bind]. by apply lookup_spec. Qed.

(** The size of a table is that of the map. *)
Lemma cur_size_contents (t : HashTable nat) : table_wf t -> cur_size t = Z.of_nat (size (contents t)).
Proof.
  intros (_ & _ & N & C & _). rewrite C. f_equal. unfold contents. rewrite <- length_map_to_list. by rewrite map_to_list_to_map.
Qed.

(** Room for [n] more entries in each partition. *)
Definition room (n : Z) (t : HashTable nat) : Prop := cur_size t + n < 2 ^ 31.

Lemma mt_remove_spec m k : mt_wf m -> 0 <= k < 2 ^ 64 -> exists m', mt_remove_entry k m = Some (mt_get m k, m') /\ mt_wf m' /\
  (forall k', mt_get m' k' = if decide (k' = k) then None else mt_get m k') /\
  (forall id, (cnt id (all_entries m') + match mt_get m k with Some old => one old id | None => 0 end = cnt id (all_entries m))%nat) /\
  (forall p t', m' !! p = Some t' -> exists t, m !! p = Some t /\ cur_size t' <= cur_size t).
Proof.
  intros W K. destruct (mt_part m k W) as (t & E & Wt & G). destruct (remove_spec k t Wt K) as (t' & R & Wt' & C & _). unfold mt_remove_entry. rewrite E. cbn [mbind option_bind]. rewrite R.
  cbn [mbind option_bind]. rewrite G. eexists. split; [done|]. destruct (mt_replace m _ t t' W E Wt') as (W' & G' & N').
  { intros k' d. rewrite C. intros D. apply lookup_delete_Some in D as [_ D]. by eapply W. }
  split; [done|]. split_and!.
  - intros k'. rewrite G', C. destruct (decide (part_num k' = part_num k)) as [Ep|Np]; [|by rewrite decide_False by congruence].
    destruct (decide (k' = k)) as [->|N]; [by rewrite lookup_delete_eq|]. rewrite lookup_delete_ne by done. unfold mt_get. by rewrite Ep, E.
  - intros id. specialize (N' id). rewrite C in N'. destruct (contents t !! k) as [old|] eqn:O; [rewrite (vcount_delete id k old _ O) in N'; lia|]. rewrite delete_id in N' by done. lia.
  - intros p u Eu. destruct (decide (part_num k = p)) as [<-|N].
    + rewrite list_lookup_insert_eq in Eu by by eapply lookup_lt_Some. injection Eu as <-. exists t. split; [done|]. rewrite !cur_size_contents, C by done.
      rewrite map_size_delete. destruct (contents t !! k) ; cbn [id]; lia.
    + rewrite list_lookup_insert_ne in Eu by done. by exists u.
Qed.

(** ** References *)

Section bounded.
(** A bound of the counts of references. *)
Variable B : Z.

(** The references [c] are good in a store: nothing was used after it was freed, what is
    referred to is there and counts at least these references, identifiers are new, and no
    count is above the bound. *)
Definition safe (c : nat -> nat) (st : Store) : Prop :=
  dangling st = false /\ (forall id, (0 < c id)%nat -> exists e, heap st !! id = Some e /\ Z.of_nat (c id) <= m_ref_count e) /\
  (forall id e, heap st !! id = Some e -> (id < next_id st)%nat /\ m_ref_count e <= B) /\ B < 2 ^ 31.

Lemma safe_mono c c' st : (forall id, (c' id <= c id)%nat) -> safe c st -> safe c' st.
Proof. intros L (D & R & F & Bd). split; [done|]. split; [|done]. intros id P. specialize (L id). destruct (R id) as (e & E & Y); [lia|]. exists e. split; [done|lia]. Qed.

(** One entry replaced by another with at least the references. *)
Lemma safe_update c d e e' st : safe c st -> heap st !! d = Some e -> forall c',
  (forall id, id <> d -> (c' id <= c id)%nat) -> Z.of_nat (c' d) <= m_ref_count e' <= B -> safe c' (set_heap (<[d := e']> (heap st)) st).
Proof.
  intros (D & R & F & Bd) E c' O Y. split; [done|]. cbn [heap set_heap next_id]. split; [|split; [|done]].
  - intros id P. destruct (decide (id = d)) as [->|N].
    + exists e'. rewrite lookup_insert_eq. split; [done|lia].
    + rewrite lookup_insert_ne by done. specialize (O id N). destruct (R id) as (x & X & Z); [lia|]. exists x. split; [done|lia].
  - intros id x. destruct (decide (id = d)) as [->|N]; [rewrite lookup_insert_eq; intros [= <-]; destruct (F d e E); split; [done|lia]|rewrite lookup_insert_ne by done; apply F].
Qed.

Lemma safe_put c d st : safe (fun id => one d id + c id)%nat st -> safe c (put d st).
Proof.
  intros S. pose proof S as (D & R & F & Bd). destruct (R d) as (e & E & Y); [rewrite one_same; lia|]. rewrite one_same in Y. pose proof (F d e E) as [_ Ye]. unfold put. rewrite E. destruct (Z.eqb_spec (m_ref_count e) 1) as [M|M].
  - split; [done|]. cbn [heap set_heap next_id]. split; [|split; [|done]].
    + intros id P. destruct (decide (id = d)) as [->|N]; [lia|]. rewrite lookup_delete_ne by done. destruct (R id) as (x & X & Z); [lia|]. exists x. split; [done|]. unfold one in Z. rewrite decide_False in Z by done. lia.
    + intros id x H. apply lookup_delete_Some in H as [_ H]. by eapply F.
  - rewrite wraps_id by lia. eapply safe_update; [exact S|exact E| |].
    + intros id N. unfold one. rewrite decide_False by done. lia.
    + cbn [m_ref_count set_refs]. lia.
Qed.

(** A collecting function keeps its entries safe. *)
Definition safe_gc (gc : nat -> Store -> bool * Store) : Prop := forall c d st, safe (fun id => one d id + c id)%nat st ->
  let '(gone, st') := gc d st in safe (fun id => if gone then c id else one d id + c id)%nat st'.

Lemma safe_gc_list gc l r st : safe_gc gc -> safe (fun id => cnt id l + r id)%nat st ->
  let '(kept, st') := gc_list gc l st in safe (fun id => cnt id kept + r id)%nat st'.
Proof.
  intros G. revert r st. induction l as [|[k d] l IH]; intros r st S; [done|]. cbn [gc_list].
  assert (S1 : safe (fun id => one d id + (cnt id l + r id))%nat st) by (eapply safe_mono; [|exact S]; intros id; cbn beta; rewrite cnt_cons; lia).
  pose proof (G _ d st S1) as S2. destruct (gc d st) as [gone st1]. destruct gone.
  - specialize (IH r st1 S2). by destruct (gc_list gc l st1).
  - specialize (IH (fun id => one d id + r id)%nat st1). destruct (gc_list gc l st1) as [kept st2]. eapply safe_mono; [|apply IH; eapply safe_mono; [|exact S2]; intros id; cbn beta; lia].
    intros id. cbn beta. rewrite cnt_cons. lia.
Qed.

Lemma safe_congestEntryGC : safe_gc congestEntryGC.
Proof.
  intros c d st S. pose proof S as (_ & R & F & _). destruct (R d) as (e & E & Y); [rewrite one_same; lia|]. unfold congestEntryGC. rewrite E. destruct (usefulInfo _ e); [done|]. by apply safe_put.
Qed.

Lemma safe_pre c st : safe c st -> safe c (preCongestEntryGC st).
Proof. done. Qed.

Lemma safe_put_all : safe_gc (swept (fun _ st => (true, st)) put).
Proof. intros c d st S. cbn. by apply safe_put. Qed.

Lemma signal_refs rule e : m_ref_count (applyNewRule rule e).1 = m_ref_count e.
Proof.
  unfold applyNewRule, init_rule, go_alive. destruct (negb _); [by destruct (_ && _)|].
  destruct (_ && m_M_congested _); cbn [m_congested set_rule set_M_congested]; (destruct (max_connection_failures rule <? 0); [|destruct (max_connection_failures (pRecord e) <? _); [|destruct ((max_connection_failures (pRecord e) >? _) && _)]]);
    by destruct (m_congested e).
Qed.

Lemma safe_invalid make_key : safe_gc (swept (invalid make_key) put).
Proof.
  intros c d st S. pose proof S as (_ & R & F & _). destruct (R d) as (e & E & Y); [rewrite one_same; lia|]. unfold swept, invalid. rewrite E. unfold validate.
  destruct (CongestionControlled _ _ _) as [p|]; [|by apply safe_put]. destruct (_ =? _); [|by apply safe_put].
  destruct (applyNewRule p e) as [e' s] eqn:A. assert (M : m_ref_count e' = m_ref_count e) by (pose proof (signal_refs p e) as X; by rewrite A in X).
  assert (S' : safe (fun id => one d id + c id)%nat (set_heap (<[d := e']> (heap st)) st)); [|exact S'].
  eapply safe_update; [exact S|exact E|done|]. rewrite M. split; [done|by apply (F d e)].
Qed.

(** ** The operations of the table keep the references *)

Lemma part_count_le m p t id : mt_wf m -> m !! p = Some t -> (vcount id (contents t) <= cnt id (all_entries m))%nat.
Proof.
  intros [_ H] E. destruct (H p t E) as [W _]. rewrite <- entries_count by done. unfold all_entries.
  assert (E' : (entries <$> m) !! p = Some (entries t)) by by rewrite list_lookup_fmap, E. rewrite (concat_split _ _ _ E'), !cnt_app. lia.
Qed.

(** No table has grown by more than [n]. *)
Definition grown (n : Z) (m m' : tables_t) : Prop := forall p t', m' !! p = Some t' -> exists t, m !! p = Some t /\ cur_size t' <= cur_size t + n.

Lemma grown_insert n m p t t' : m !! p = Some t -> cur_size t' <= cur_size t + n -> 0 <= n -> grown n m (<[p := t']> m).
Proof.
  intros E S N q u Eu. destruct (decide (p = q)) as [<-|Np].
  - rewrite list_lookup_insert_eq in Eu by by eapply lookup_lt_Some. injection Eu as <-. by exists t.
  - rewrite list_lookup_insert_ne in Eu by done. exists u. split; [done|lia].
Qed.

(** What is kept of an entry for which no other key stands. *)
Lemma gc_keeps k d l st kept st' : gc_list congestEntryGC l st = (kept, st') -> (k, d) ∈ l -> (cnt d l <= 1)%nat ->
  (exists e, heap st !! d = Some e /\ 1 < m_ref_count e) -> (k, d) ∈ kept /\ heap st' !! d = heap st !! d.
Proof.
  intros G I C (e & E & R). revert st kept I C E G.
  assert (Other : forall l st kept st', gc_list congestEntryGC l st = (kept, st') -> cnt d l = 0%nat -> heap st' !! d = heap st !! d).
  { clear. induction l as [|[k d'] l IH]; intros st kept st' G C; cbn [gc_list] in G; [by injection G as _ <-|]. rewrite cnt_cons in C. unfold one in C. destruct (decide (d = d')) as [|N]; [lia|].
    destruct (congestEntryGC d' st) as [gone st1] eqn:X. destruct (gc_list congestEntryGC l st1) as [kept' st2] eqn:G'. injection G as _ <-. rewrite (IH _ _ _ G') by lia.
    unfold congestEntryGC in X. destruct (heap st !! d') as [e|] eqn:E; [|by injection X as _ <-]. destruct (usefulInfo _ e); injection X as _ <-; [done|]. unfold put. rewrite E. cbn [heap set_heap].
    destruct (_ =? 1); [by rewrite lookup_delete_ne|by rewrite lookup_insert_ne]. }
  induction l as [|[k' d'] l IH]; intros st kept I C E G; [by apply not_elem_of_nil in I|]. cbn [gc_list] in G. rewrite cnt_cons in C. destruct (congestEntryGC d' st) as [gone st1] eqn:X.
  destruct (gc_list congestEntryGC l st1) as [kept' st2] eqn:G'. injection G as <- <-. unfold one in C. destruct (decide (d = d')) as [<-|N].
  - apply elem_of_cons in I as [[= ->]|I]; [|exfalso; assert (0 < cnt d l)%nat by (apply cnt_pos; by exists k); lia].
    assert (X' : congestEntryGC d st = (false, st)). { unfold congestEntryGC. rewrite E. unfold usefulInfo. rewrite Z.gtb_ltb, (proj2 (Z.ltb_lt 1 (m_ref_count e))) by done. done. }
    rewrite X' in X. injection X as <- <-. split; [by constructor|]. by apply (Other _ _ _ _ G'); lia.
  - apply elem_of_cons in I as [[= _ ?]|I]; [done|]. assert (E1 : heap st1 !! d = heap st !! d).
    { unfold congestEntryGC in X. destruct (heap st !! d') as [e'|] eqn:E'; [|by injection X as _ <-]. destruct (usefulInfo _ e'); injection X as _ <-; [done|]. unfold put. rewrite E'. cbn [heap set_heap].
      destruct (_ =? 1); [by rewrite lookup_delete_ne|by rewrite lookup_insert_ne]. }
    destruct (IH st1 kept' I ltac:(lia) ltac:(congruence) G') as [I' E']. split; [destruct gone; [done|by constructor]|congruence].
Qed.

Notation insert_db := (mt_insert_entry (Some congestEntryGC) (Some preCongestEntryGC)).

Lemma mt_insert_spec m k d st r : mt_wf m -> 0 <= k < 2 ^ 64 -> (forall t, m !! part_num k = Some t -> room 1 t) ->
  safe (fun id => one d id + cnt id (all_entries m) + r id)%nat st ->
  exists m' st', insert_db k d m st = Some (replaced d (mt_get m k), m', st') /\ mt_wf m' /\ grown 1 m m' /\
    safe (fun id => match replaced d (mt_get m k) with Some old => one old id | None => 0 end + (cnt id (all_entries m') + r id))%nat st' /\
    (forall k' x, k' <> k -> mt_get m' k' = Some x -> mt_get m k' = Some x) /\
    (mt_get m k <> None \/ cnt d (all_entries m) = 0%nat /\ (exists e, heap st !! d = Some e /\ 1 < m_ref_count e) -> mt_get m' k = Some d) /\
    (cnt d (all_entries m) = 0%nat -> (exists e, heap st !! d = Some e /\ 1 < m_ref_count e) -> heap st' !! d = heap st !! d).
Proof.
  intros W K Ro S. destruct (mt_part m k W) as (t & E & Wt & G). destruct (insert_spec (Some congestEntryGC) (Some preCongestEntryGC) k d t st Wt K (Ro t E)) as (t' & st' & I & Wt' & X).
  unfold mt_insert_entry. rewrite E. cbn [mbind option_bind]. rewrite I. cbn [mbind option_bind]. rewrite G. exists (<[part_num k := t']> m), st'. split; [done|].
  assert (Sub : forall k' x, contents t' !! k' = Some x -> <[k := d]> (contents t) !! k' = Some x).
  { destruct X as [[-> _]|(_ & l & kept & N & <- & <- & Gc)]; [done|]. intros k' x Hx. pose proof (gc_list_sublist congestEntryGC l (preCongestEntryGC st)) as Sl. rewrite Gc in Sl. cbn [fst] in Sl.
    apply elem_of_list_to_map_2 in Hx. apply elem_of_list_to_map_1; [done|]. by eapply elem_of_sublist. }
  destruct (mt_replace m _ t t' W E Wt') as (W' & G' & N').
  { intros k' x Hx. apply Sub in Hx. destruct (decide (k' = k)) as [->|Nk]; [done|]. rewrite lookup_insert_ne in Hx by done. by eapply W. }
  split; [done|]. split.
  { apply (grown_insert 1 m _ t); [done| |lia]. rewrite !cur_size_contents by done. assert (contents t' ⊆ <[k := d]> (contents t)) as Sb by (apply map_subseteq_spec; exact Sub).
    apply map_subseteq_size in Sb. pose proof (map_size_insert k d (contents t)) as Sz. destruct (contents t !! k); cbn [id] in Sz; lia. }
  split_and!.
  - pose proof (fun id => part_count_le m _ t id W E) as Le. destruct X as [[C ->]|(Nk & l & kept & N & Cl & Ck & Gc)].
    + eapply safe_mono; [|exact S]. intros id. cbn beta. specialize (N' id). rewrite C in N'. destruct (contents t !! k) as [old|] eqn:O; cbn [replaced].
      * pose proof (vcount_replace id k d old _ O) as V. destruct (decide (d = old)) as [->|Nd]; lia.
      * rewrite (vcount_insert id k d _ O) in N'. lia.
    + rewrite Nk. cbn [replaced Nat.add]. assert (S1 : safe (fun id => cnt id l + (cnt id (all_entries m) - vcount id (contents t) + r id))%nat (preCongestEntryGC st)).
      { apply safe_pre. eapply safe_mono; [|exact S]. intros id. cbn beta. rewrite <- (vcount_list id l N), Cl, (vcount_insert id k d _ Nk). specialize (Le id). lia. }
      pose proof (safe_gc_list _ l _ _ safe_congestEntryGC S1) as S2. rewrite Gc in S2. eapply safe_mono; [|exact S2]. intros id. cbn beta. specialize (N' id). specialize (Le id).
      pose proof (gc_list_sublist congestEntryGC l (preCongestEntryGC st)) as Sl. rewrite Gc in Sl. cbn [fst] in Sl. rewrite <- Ck, vcount_list in N' by (eapply sublist_NoDup; [exact N|by apply fmap_sublist]). lia.
  - intros k' x Nk. rewrite G'. destruct (decide (part_num k' = part_num k)) as [Ep|_]; [|done]. intros Hx%Sub. rewrite lookup_insert_ne in Hx by done. unfold mt_get. by rewrite Ep, E.
  - intros Y. rewrite G', decide_True by done. destruct X as [[-> _]|(Nk & l & kept & N & Cl & Ck & Gc)]; [by rewrite lookup_insert_eq|]. destruct Y as [Y|[Y1 Y2]]; [done|].
    assert (In : (k, d) ∈ l) by (apply (elem_of_list_to_map_2 (M := gmap Z)); rewrite Cl; apply lookup_insert_eq).
    assert (C1 : (cnt d l <= 1)%nat). { rewrite <- (vcount_list d l N), Cl, (vcount_insert d k d _ Nk), one_same. pose proof (part_count_le m _ t d W E). lia. }
    destruct (gc_keeps k d l (preCongestEntryGC st) kept st' Gc In C1 Y2) as [Ik _]. rewrite <- Ck. apply elem_of_list_to_map_1; [|done].
    pose proof (gc_list_sublist congestEntryGC l (preCongestEntryGC st)) as Sl. rewrite Gc in Sl. cbn [fst] in Sl. eapply sublist_NoDup; [exact N|by apply fmap_sublist].
  - intros Y1 Y2. destruct X as [[_ ->]|(Nk & l & kept & N & Cl & Ck & Gc)]; [done|].
    assert (In : (k, d) ∈ l) by (apply (elem_of_list_to_map_2 (M := gmap Z)); rewrite Cl; apply lookup_insert_eq).
    assert (C1 : (cnt d l <= 1)%nat). { rewrite <- (vcount_list d l N), Cl, (vcount_insert d k d _ Nk), one_same. pose proof (part_count_le m _ t d W E). lia. }
    by destruct (gc_keeps k d l (preCongestEntryGC st) kept st' Gc In C1 Y2) as [_ ->].
Qed.

(** A sweep of a partition. *)
Lemma mt_sweep_spec m p gone release st r : mt_wf m -> (p < 64)%nat -> safe_gc (swept gone release) -> safe (fun id => cnt id (all_entries m) + r id)%nat st ->
  exists t' st', (t ← m !! p; '(t, st) ← sweep_part gone release t st; Some (<[p := t]> m, st)) = Some (<[p := t']> m, st') /\ mt_wf (<[p := t']> m) /\ grown 0 m (<[p := t']> m) /\
    safe (fun id => cnt id (all_entries (<[p := t']> m)) + r id)%nat st'.
Proof.
  intros W P Sg S. pose proof W as [L H]. destruct (lookup_lt_is_Some_2 m p) as [t E]; [lia|]. destruct (H p t E) as [Wt Hp]. pose proof Wt as Wt0. apply table_wf_iff in Wt0 as [W0 Fu].
  destruct (sweep_spec gone release t st W0) as (t' & st' & Sw & Gl & W0' & Bk). rewrite E. cbn [mbind option_bind]. rewrite Sw. cbn [mbind option_bind]. exists t', st'. split; [done|].
  pose proof (gc_list_sublist (swept gone release) (entries t) st) as Sl. rewrite Gl in Sl. cbn [fst] in Sl. pose proof (sublist_length _ _ Sl) as Ll.
  assert (Sz : cur_size t' <= cur_size t). { destruct W0 as (_ & _ & _ & C & _), W0' as (_ & _ & _ & C' & _). lia. }
  assert (Wt' : table_wf t').
  { apply table_wf_iff. split; [done|]. apply full_iff. apply full_iff in Fu. rewrite Bk. etransitivity; [|exact Fu]. apply Z.quot_le_mono; [apply W0|done]. }
  pose proof Wt as (_ & _ & N & _). pose proof Wt' as (_ & _ & N2 & _). destruct (mt_replace m p t t' W E Wt') as (W' & _ & N').
  { intros k d Hd. apply elem_of_list_to_map_2 in Hd. apply (Hp k d). apply elem_of_list_to_map_1; [done|]. by eapply elem_of_sublist. }
  split; [done|]. split; [apply (grown_insert 0 m p t); [done|lia|done]|].
  pose proof (fun id => part_count_le m p t id W E) as Le.
  assert (S1 : safe (fun id => cnt id (entries t) + (cnt id (all_entries m) - vcount id (contents t) + r id))%nat st).
  { eapply safe_mono; [|exact S]. intros id. cbn beta. rewrite (entries_count id t Wt). specialize (Le id). lia. }
  pose proof (safe_gc_list _ (entries t) _ _ Sg S1) as S2. rewrite Gl in S2. eapply safe_mono; [|exact S2]. intros id. cbn beta. specialize (N' id). specialize (Le id). rewrite (entries_count id t' Wt'). lia.
Qed.
End bounded.

(** A reference that is taken. *)
Lemma safe_get B c d st : safe B c st -> (0 < c d)%nat -> B + 1 < 2 ^ 31 -> safe (B + 1) (fun id => one d id + c id)%nat (get d st).
Proof.
  intros (D & R & F & _) P L. destruct (R d P) as (e & E & Y). pose proof (F d e E) as [N Ye]. unfold get. rewrite E, wraps_id by lia.
  apply (safe_update (B + 1) c d e); [split; [done|split; [done|split; [intros id x X; destruct (F id x X); split; [done|lia]|done]]]|done|intros id Ne; unfold one; by rewrite decide_False by done|].
  cbn [m_ref_count set_refs]. rewrite one_same. lia.
Qed.

(** A collection by a continuation that comes to an end has swept the partition, since at
    an entry it leaves it does not. *)
Lemma gc_loop_useful fuel now id e s t st : heap st !! id = Some e -> usefulInfo now e = true -> gc_loop fuel now (Some id) s t st = None.
Proof. intros E U. induction fuel as [|fuel IH]; [done|]. cbn [gc_loop]. by rewrite E, U. Qed.

Lemma gc_loop_sweep fuel now tmp s t st r : gc_loop fuel now tmp s t st = Some r -> sweep fuel (fun _ st => (true, st)) put tmp s t st = Some r.
Proof.
  revert tmp s t st. induction fuel as [|fuel IH]; intros [id|] s t st; cbn [gc_loop sweep]; try done. destruct (heap st !! id) as [e|] eqn:E; [|done]. destruct (usefulInfo now e) eqn:U; [by rewrite (gc_loop_useful fuel now id e s t st E U)|].
  destruct (remove_current t s) as [d' t']. destruct (part_cur t' s) as [[tmp s']|]; [|done]. cbn [mbind option_bind]. apply IH.
Qed.

Lemma sweep_more (gone : nat -> Store -> bool * Store) release fuel fuel' tmp s t st r : (fuel <= fuel')%nat -> sweep fuel gone release tmp s t st = Some r -> sweep fuel' gone release tmp s t st = Some r.
Proof.
  revert fuel' tmp s t st. induction fuel as [|fuel IH]; intros fuel' [id|] s t st L; [done|by destruct fuel'| |by destruct fuel']. destruct fuel' as [|fuel']; [lia|]. cbn [sweep]. destruct (gone id st) as [[|] st1].
  - destruct (remove_current t s) as [d' t']. destruct (part_cur t' s) as [[tmp s']|]; [|done]. cbn [mbind option_bind]. apply IH. lia.
  - destruct (part_next t s) as [[tmp s']|]; [|done]. cbn [mbind option_bind]. apply IH. lia.
Qed.

Lemma gc_part_swept fuel now p m st r : mt_wf m -> (p < 64)%nat -> gc_part fuel now p m st = Some r -> remove_all p m st = Some r.
Proof.
  intros W P. unfold gc_part, remove_all, sweep_part. pose proof W as [L H]. destruct (lookup_lt_is_Some_2 m p) as [t E]; [lia|]. rewrite E. cbn [mbind option_bind]. destruct (H p t E) as [Wt _]. apply table_wf_iff in Wt as [W0 _].
  destruct (sweep_spec (fun _ st => (true, st)) put t st W0) as (t' & st' & Sw & _). unfold sweep_part in Sw. destruct (part_first t (mkIter 0 0)) as [[tmp s]|]; [|done]. cbn [mbind option_bind] in *. rewrite Sw. cbn [mbind option_bind].
  destruct (gc_loop fuel now tmp s t st) as [[t1 st1]|] eqn:G; [|done]. cbn [mbind option_bind]. apply gc_loop_sweep in G. apply (sweep_more _ _ _ (Nat.max fuel (List.length (concat (buckets t)))) _ _ _ _ _ (Nat.le_max_l _ _)) in G.
  apply (sweep_more _ _ _ (Nat.max fuel (List.length (concat (buckets t)))) _ _ _ _ _ (Nat.le_max_r _ _)) in Sw. congruence.
Qed.
