(* ===== verification/CongestionSafe.v ===== *)
(** Theorems on the life of the entries of the congestion database: no entry is used
    after it was freed, every operation comes to an end, and a server has one entry. *)

From S2P Require Import Prelude ParseRules HdrToken LibC MTHashtable Congestion CongestionDB CongestionTables.

Section safe.
Variable make_key : option (list Z) -> Z -> CongestionControlRecord -> Z.
Hypothesis make_key_range : forall h ip r, 0 <= make_key h ip r < 2 ^ 64.

(** The references that requests hold. *)
Definition pend (param : CongestRequestParam) (id : nat) : nat := match param with ADD_RECORD _ d => one d id | _ => 0 end.

Definition pends (params : list CongestRequestParam) (id : nat) : nat := sum_list ((fun param => pend param id) <$> params).

Lemma pends_app l l' id : pends (l ++ l') id = (pends l id + pends l' id)%nat.
Proof. unfold pends. by rewrite fmap_app, sum_list_with_app || (rewrite fmap_app; induction (_ <$> l); cbn in *; lia). Qed.

Lemma pends_rev l id : pends (rev l) id = pends l id.
Proof. induction l as [|param l IH]; [done|]. cbn [rev]. rewrite pends_app, IH. unfold pends. cbn. lia. Qed.

(** The requests that are left for a partition. *)
Definition param_ok (part : nat) (param : CongestRequestParam) : Prop :=
  match param with ADD_RECORD key _ | REMOVE_RECORD key => 0 <= key < 2 ^ 64 | REMOVE_ALL_RECORDS q => q = part | REVALIDATE_BUCKET => True end.

Definition roomy (n : Z) (m : tables_t) : Prop := forall p t, m !! p = Some t -> room n t.

Lemma roomy_grown n k m m' : roomy (n + k) m -> grown k m m' -> roomy n m'.
Proof. intros R G p t' E. destruct (G p t' E) as (t & Et & S). specialize (R p t Et). unfold room in *. lia. Qed.

Lemma grown_refl m : grown 0 m m.
Proof. intros p t E. exists t. split; [done|lia]. Qed.

Lemma grown_trans a b m m' m'' : grown a m m' -> grown b m' m'' -> grown (a + b) m m''.
Proof. intros G G' p t E. destruct (G' p t E) as (t1 & E1 & S1). destruct (G p t1 E1) as (t2 & E2 & S2). exists t2. split; [done|lia]. Qed.

Lemma grown_mono a b m m' : a <= b -> grown a m m' -> grown b m m'.
Proof. intros L G p t E. destruct (G p t E) as (t1 & E1 & S1). exists t1. split; [done|lia]. Qed.

Lemma process_safe B part param m st r : mt_wf m -> (part < 64)%nat -> param_ok part param -> roomy 1 m -> safe B (fun id => pend param id + (cnt id (all_entries m) + r id))%nat st ->
  exists m' st', process make_key part param m st = Some (m', st') /\ mt_wf m' /\ grown 1 m m' /\ safe B (fun id => cnt id (all_entries m') + r id)%nat st'.
Proof.
  intros W P Ok R S. destruct param as [key d|key|q|]; cbn [process param_ok pend Nat.add] in *.
  - destruct (mt_insert_spec B m key d st r W Ok) as (m' & st' & E & W' & G & S' & _); [intros t Et; by eapply R|eapply safe_mono; [|exact S]; intros id; cbn beta; lia|].
    rewrite E. cbn [mbind option_bind]. eexists _, _. split; [done|]. split; [done|]. split; [done|]. unfold put_old. destruct (replaced d (mt_get m key)) as [old|]; [by apply safe_put|done].
  - destruct (mt_remove_spec m key W Ok) as (m' & E & W' & _ & N & G). rewrite E. cbn [mbind option_bind]. eexists _, _. split; [done|]. split; [done|]. split.
    { intros p t' Et. destruct (G p t' Et) as (t & Et' & Sz). exists t. split; [done|lia]. }
    unfold put_old. destruct (mt_get m key) as [old|]; [apply safe_put|]; (eapply safe_mono; [|exact S]); intros id; cbn beta; specialize (N id); lia.
  - subst q. destruct (mt_sweep_spec B m part _ put st r W P (safe_put_all B) S) as (t' & st' & E & W' & G & S'). exists (<[part := t']> m), st'. split; [exact E|]. split; [done|].
    split; [eapply grown_mono; [|exact G]; lia|done].
  - destruct (mt_sweep_spec B m part _ put st r W P (safe_invalid B make_key) S) as (t' & st' & E & W' & G & S'). exists (<[part := t']> m), st'. split; [exact E|]. split; [done|].
    split; [eapply grown_mono; [|exact G]; lia|done].
Qed.

Lemma run_requests_safe B part params m st r : mt_wf m -> (part < 64)%nat -> Forall (param_ok part) params -> roomy (Z.of_nat (List.length params)) m ->
  safe B (fun id => pends params id + (cnt id (all_entries m) + r id))%nat st ->
  exists m' st', run_requests make_key part params m st = Some (m', st') /\ mt_wf m' /\ grown (Z.of_nat (List.length params)) m m' /\ safe B (fun id => cnt id (all_entries m') + r id)%nat st'.
Proof.
  revert m st. induction params as [|param params IH]; intros m st W P F R S.
  - exists m, st. split; [done|]. split; [done|]. split; [apply grown_refl|done].
  - apply Forall_cons in F as [F1 F]. cbn [List.length] in R. destruct (process_safe B part param m st (fun id => pends params id + r id)%nat W P F1) as (m1 & st1 & E & W1 & G1 & S1).
    { intros p t Et. specialize (R p t Et). unfold room in *. lia. } { eapply safe_mono; [|exact S]. intros id. cbn beta. unfold pends. cbn [fmap list_fmap sum_list sum_list_with]. cbn. lia. }
    cbn [run_requests]. rewrite E. cbn [mbind option_bind]. destruct (IH m1 st1 W1 P F) as (m2 & st2 & E2 & W2 & G2 & S2).
    { eapply roomy_grown; [|exact G1]. intros p t Et. specialize (R p t Et). unfold room in *. lia. } { eapply safe_mono; [|exact S1]. intros id. cbn beta. lia. }
    exists m2, st2. split; [done|]. split; [done|]. split; [|done]. eapply grown_mono; [|by eapply grown_trans]. cbn [List.length]. lia.
Qed.

(** ** What holds between operations *)

(** [H] are the references that transactions hold, and [B] bounds the counts. *)
Record db_ok (B : Z) (H : nat -> nat) (db : CongestionDB) : Prop := {
  ok_tables : mt_wf (tables db);
  ok_lists : List.length (todo_lists db) = 64%nat;
  ok_params : forall part todo, todo_lists db !! part = Some todo -> Forall (param_ok part) todo;
  ok_safe : safe B (fun id => cnt id (all_entries (tables db)) + (pends (concat (todo_lists db)) id + H id))%nat (store db)
}.

(** No table is so full that the requests could make its size overflow. *)
Definition has_room (db : CongestionDB) : Prop := roomy (Z.of_nat (List.length (concat (todo_lists db))) + 1) (tables db).

Lemma todo_safe B H db part : db_ok B H db -> has_room db -> (part < 64)%nat -> exists db', RunTodoList make_key part db = Some db' /\ db_ok B H db' /\ roomy 1 (tables db').
Proof.
  intros [W L F S] R P. unfold RunTodoList. destruct (lookup_lt_is_Some_2 (todo_lists db) part) as [todo E]; [lia|]. rewrite E. cbn [mbind option_bind].
  pose proof (concat_split _ _ _ E) as C. set (others := concat (take part (todo_lists db)) ++ concat (drop (Datatypes.S part) (todo_lists db))).
  assert (Pe : forall id, pends (concat (todo_lists db)) id = (pends todo id + pends others id)%nat) by (intros id; rewrite C; unfold others; rewrite !pends_app; lia).
  assert (Ln : (List.length todo <= List.length (concat (todo_lists db)))%nat) by (rewrite C, !length_app; lia).
  destruct (run_requests_safe B part (rev todo) (tables db) (store db) (fun id => pends others id + H id)%nat W P) as (m & st & Rr & W' & G & S').
  { apply Forall_rev. by apply F. } { rewrite length_rev. intros p t Et. specialize (R p t Et). unfold room in *. lia. }
  { eapply safe_mono; [|exact S]. intros id. cbn beta. rewrite pends_rev, Pe. lia. }
  rewrite Rr. cbn [mbind option_bind]. eexists. split; [done|]. rewrite length_rev in G. split.
  - split; cbn [tables todo_lists store]; [done|by rewrite length_insert| |].
    + intros q todo' E'. destruct (decide (part = q)) as [<-|N]; [rewrite list_lookup_insert_eq in E' by lia; by injection E' as <-|rewrite list_lookup_insert_ne in E' by done; by apply F].
    + eapply safe_mono; [|exact S']. intros id. cbn beta. rewrite (concat_insert _ _ _ _ E). cbn [app]. fold others. lia.
  - cbn [tables]. eapply roomy_grown; [|exact G]. intros p t Et. specialize (R p t Et). unfold room in *. lia.
Qed.

(** A request that is left behind. *)
Lemma deferred_ok B H db part param : db_ok B (fun id => pend param id + H id)%nat db -> (part < 64)%nat -> param_ok part param ->
  db_ok B H (mkDB (tables db) (alter (cons param) part (todo_lists db)) (store db)).
Proof.
  intros [W L F S] P Ok. destruct (lookup_lt_is_Some_2 (todo_lists db) part) as [todo E]; [lia|].
  assert (A : alter (cons param) part (todo_lists db) = <[part := param :: todo]> (todo_lists db)).
  { apply list_eq. intros j. destruct (decide (j = part)) as [->|N]; [by rewrite list_lookup_alter_eq, E, list_lookup_insert_eq by lia|by rewrite list_lookup_alter_ne, list_lookup_insert_ne]. }
  rewrite A. split; cbn [tables todo_lists store]; [done|by rewrite length_insert| |].
  - intros q todo' E'. destruct (decide (part = q)) as [<-|N]; [rewrite list_lookup_insert_eq in E' by lia; injection E' as <-; constructor; [done|by apply F]|rewrite list_lookup_insert_ne in E' by done; by apply F].
  - eapply safe_mono; [|exact S]. intros id. cbn beta. rewrite (concat_insert _ _ _ _ E), (concat_split _ _ _ E), !pends_app. change (pends (param :: todo) id) with (pend param id + pends todo id)%nat. lia.
Qed.

(** A request, carried out or left behind. *)
Lemma request_ok B H db lock part param : db_ok B (fun id => pend param id + H id)%nat db -> has_room db -> (part < 64)%nat -> param_ok part param ->
  exists db', run_step make_key (request make_key lock part param) db = Some db' /\ db_ok B H db'.
Proof.
  intros D R P Ok. destruct lock; cbn [request run_step]; [|eexists; split; [done|by apply deferred_ok]].
  destruct (todo_safe B _ db part D R P) as (db1 & E1 & [W1 L1 F1 S1] & R1). rewrite E1. cbn [mbind option_bind].
  destruct (process_safe B part param (tables db1) (store db1) (fun id => pends (concat (todo_lists db1)) id + H id)%nat W1 P Ok R1) as (m & st & E & W2 & _ & S2).
  { eapply safe_mono; [|exact S1]. intros id. cbn beta. lia. }
  rewrite E. cbn [mbind option_bind]. eexists. split; [done|]. by split.
Qed.

(** ** The entry of a server *)

Lemma safe_alloc B c e st : safe B c st -> m_ref_count e = 1 -> 1 <= B -> heap st !! next_id st = None /\ c (next_id st) = 0%nat /\ safe B (fun id => one (next_id st) id + c id)%nat (alloc e st).2.
Proof.
  intros (D & R & F & Bd) M L. assert (N : heap st !! next_id st = None). { destruct (heap st !! next_id st) as [x|] eqn:X; [|done]. destruct (F _ _ X). lia. }
  assert (C : c (next_id st) = 0%nat). { destruct (c (next_id st)) as [|n] eqn:Cn; [done|]. destruct (R (next_id st)) as (x & X & _); [lia|congruence]. }
  split; [done|]. split; [done|]. split; [done|]. cbn [alloc snd heap next_id]. split; [|split; [|done]].
  - intros id P. destruct (decide (id = next_id st)) as [->|Ne].
    + exists e. rewrite lookup_insert_eq, one_same, C, M. done.
    + unfold one in *. rewrite decide_False in * by done. rewrite lookup_insert_ne by done. by apply R.
  - intros id x. destruct (decide (id = next_id st)) as [->|Ne]; [rewrite lookup_insert_eq; intros [= <-]; lia|]. rewrite lookup_insert_ne by done. intros X. destruct (F _ _ X). lia.
Qed.

Lemma safe_more B B' c st : B <= B' < 2 ^ 31 -> safe B c st -> safe B' c st.
Proof. intros L (D & R & F & Bd). split; [done|]. split; [done|]. split; [|lia]. intros id e E. destruct (F id e E). split; [done|lia]. Qed.

(** What a lookup leaves: the entry is the one of the key, with a reference for the
    caller, and new only if there was none. *)
Definition looked_up (key : Z) (e : CongestionEntry) (m : tables_t) (st : Store) (id : nat) (m' : tables_t) (st' : Store) : Prop :=
  mt_get m' key = Some id /\
  match mt_get m key with
  | Some old => id = old /\ m' = m /\ st' = get id st
  | None => heap st !! id = None /\ heap st' !! id = Some (set_refs 2 e) /\ forall k x, k <> key -> mt_get m' k = Some x -> mt_get m k = Some x
  end.

Lemma find_or_new_ok B hostname ip rule key m st r : mt_wf m -> roomy 1 m -> 0 <= key < 2 ^ 64 -> 1 <= B -> B + 1 < 2 ^ 31 -> safe B (fun id => cnt id (all_entries m) + r id)%nat st ->
  exists id m' st', find_or_new hostname ip rule key m st = Some (id, m', st') /\ mt_wf m' /\ safe (B + 1) (fun i => cnt i (all_entries m') + (one id i + r i))%nat st' /\
    looked_up key (new_CongestionEntry hostname ip rule key) m st id m' st'.
Proof.
  intros W R K B1 B2 S. unfold find_or_new, looked_up. rewrite mt_lookup_spec by done. cbn [mbind option_bind]. destruct (mt_get m key) as [old|] eqn:G.
  - exists old, m, (get old st). split; [done|]. split; [done|]. split; [|by rewrite G].
    destruct (mt_part m key W) as (t & E & Wt & G'). rewrite G' in G. pose proof (part_count_le m _ t old W E) as Le. rewrite (vcount_delete old key old _ G), one_same in Le.
    eapply safe_mono; [|apply (safe_get B _ old st S); lia]. intros id. cbn beta. lia.
  - set (e := new_CongestionEntry hostname ip rule key). destruct (safe_alloc B _ e st S eq_refl B1) as (N & C0 & S1).
    change (alloc e st) with (next_id st, (alloc e st).2). lazy iota beta. set (id := next_id st) in *. set (st1 := (alloc e st).2) in *.
    pose proof (safe_get B _ id st1 S1) as S2. cbn beta in S2. rewrite one_same in S2. specialize (S2 ltac:(lia) B2).
    assert (H2 : heap (get id st1) !! id = Some (set_refs 2 e)). { unfold st1, alloc, get. cbn [snd heap]. rewrite lookup_insert_eq. cbn [heap set_heap]. by rewrite lookup_insert_eq. }
    destruct (mt_insert_spec (B + 1) m key id (get id st1) (fun i => one id i + r i)%nat W K) as (m' & st' & E & W' & _ & S' & Oth & Here & Same); [intros t Et; by eapply R|eapply safe_mono; [|exact S2]; intros i; cbn beta; lia|].
    rewrite E. cbn [mbind option_bind]. rewrite G in S'. cbn [replaced Nat.add] in S'. exists id, m', st'. split; [done|]. split; [done|]. split; [done|].
    assert (Cz : cnt id (all_entries m) = 0%nat) by lia. assert (Ex : exists x, heap (get id st1) !! id = Some x /\ 1 < m_ref_count x) by (exists (set_refs 2 e); by split).
    split; [apply Here; by right|]. split; [done|]. split; [by rewrite Same|done].
Qed.

Lemma locked_lookup_ok B H db hostname ip rule key : db_ok B H db -> has_room db -> 1 <= B -> B + 1 < 2 ^ 31 -> 0 <= key < 2 ^ 64 -> exists id db', locked_lookup make_key hostname ip rule key db = Some (Found id, db') /\
  db_ok (B + 1) (fun i => one id i + H i)%nat db' /\ exists db1, RunTodoList make_key (part_num key) db = Some db1 /\
    looked_up key (new_CongestionEntry hostname ip rule key) (tables db1) (store db1) id (tables db') (store db').
Proof.
  intros D R B1 B2 K. unfold locked_lookup. destruct (todo_safe B H db (part_num key) D R (part_num_lt key)) as (db1 & E1 & [W1 L1 F1 S1] & R1). rewrite E1. cbn [mbind option_bind].
  destruct (find_or_new_ok B hostname ip rule key (tables db1) (store db1) (fun id => pends (concat (todo_lists db1)) id + H id)%nat W1 R1 K B1 B2 S1) as (id & m & st & E & W2 & S2 & Lu).
  rewrite E. cbn [mbind option_bind]. eexists id, _. split; [done|]. split; [|exists db1; by split]. split; cbn [tables todo_lists store]; try done. eapply safe_mono; [|exact S2]. intros i. cbn beta. lia.
Qed.

(** ** Histories *)

(** A change to an entry by a transaction, or of the clock or the configuration: the
    references stay. *)
Definition keeps_refs (change : Store -> Store) : Prop := forall st, dangling (change st) = dangling st /\ next_id (change st) = next_id st /\
  forall id, m_ref_count <$> heap (change st) !! id = m_ref_count <$> heap st !! id.

(** No count of references is at the end of its [int], so that another may be taken. *)
Definition MAX_REFS : Z := 2 ^ 31 - 1.

Definition few_refs (db : CongestionDB) : Prop := forall id e, heap (store db) !! id = Some e -> m_ref_count e < MAX_REFS.

(** What can happen to the database while transactions hold the references [H]: requests,
    carried out or left behind; lookups; a transaction that adds an entry it holds,
    releases one, or changes one; and a collection of a partition that comes to an end. *)
Inductive reach : CongestionDB -> (nat -> nat) -> Prop :=
| reach_new size st : 0 < size < 2 ^ 31 -> heap st = ∅ -> dangling st = false -> reach (new_CongestionDB size st) (fun _ => 0%nat)
| reach_request db H lock part param db' : reach db H -> has_room db -> (part < 64)%nat -> param_ok part param -> (forall key d, param <> ADD_RECORD key d) ->
    run_step make_key (request make_key lock part param) db = Some db' -> reach db' H
| reach_add db H lock key d db' : reach db H -> has_room db -> few_refs db -> 0 <= key < 2 ^ 64 -> (0 < H d)%nat -> run_steps make_key (addRecord make_key lock key d) db = Some db' -> reach db' H
| reach_lookup db H lock hostname ip CheckModifiers res db' : reach db H -> has_room db -> few_refs db -> get_congest_entry make_key lock hostname ip CheckModifiers db = Some (res, db') ->
    reach db' (fun i => match res with Found id => one id i + H i | _ => H i end)%nat
| reach_cont db H cancelled lock hostname ip rule res db' : reach db H -> has_room db -> few_refs db -> cont_get_congest_entry make_key cancelled lock (make_key hostname ip rule) hostname ip rule db = Some (res, db') ->
    reach db' (fun i => match res with Found id => one id i + H i | _ => H i end)%nat
| reach_gc db H fuel now part db' : reach db H -> has_room db -> (part < 64)%nat -> run_step make_key (Locked part (gc_part fuel now part)) db = Some db' -> reach db' H
| reach_release db H id : reach db H -> (0 < H id)%nat -> reach (mkDB (tables db) (todo_lists db) (put id (store db))) (fun i => H i - one id i)%nat
| reach_change db H change : reach db H -> keeps_refs change -> reach (mkDB (tables db) (todo_lists db) (change (store db))) H.

Lemma db_ok_mono B H H' db : (forall id, (H' id <= H id)%nat) -> db_ok B H db -> db_ok B H' db.
Proof. intros L [W Ln F S]. split; [done..|]. eapply safe_mono; [|exact S]. intros id. specialize (L id). cbn beta. lia. Qed.

Lemma db_ok_more B B' H db : B <= B' < 2 ^ 31 -> db_ok B H db -> db_ok B' H db.
Proof. intros L [W Ln F S]. split; [done..|]. by apply (safe_more B). Qed.

(** What the operations that take a reference ask of the bound. *)
Lemma few_refs_ok H db : db_ok MAX_REFS H db -> few_refs db -> db_ok (MAX_REFS - 1) H db.
Proof. intros [W Ln F (D & R & N & _)] Fw. split; [done..|]. split; [done|]. split; [done|]. split; [|done]. intros id e E. destruct (N id e E). specialize (Fw id e E). split; [done|lia]. Qed.

Lemma new_db_ok size st : 0 < size < 2 ^ 31 -> heap st = ∅ -> dangling st = false -> db_ok MAX_REFS (fun _ => 0%nat) (new_CongestionDB size st).
Proof.
  intros B E D. assert (T : forall A n, concat (replicate n (@nil A)) = []) by (clear; intros A n; induction n; [done|by cbn]).
  assert (N : entries (@new_HashTable nat size) = []) by apply T. split; cbn [new_CongestionDB tables todo_lists store].
  - split; [unfold new_MTHashTable; by rewrite length_replicate|]. intros p t Et. apply lookup_replicate in Et as [-> _]. split.
    + unfold table_wf, bucket_num, full. rewrite N. cbn [new_HashTable buckets cur_size]. rewrite length_replicate. split_and!; try done; try lia.
      * intros i chain Ei. apply lookup_replicate in Ei as [-> _]. constructor.
      * constructor.
    + intros k d. unfold contents. rewrite N. done.
  - by rewrite length_replicate.
  - intros part todo Et. apply lookup_replicate in Et as [-> _]. constructor.
  - assert (Z0 : forall id, cnt id (all_entries (new_MTHashTable size)) = 0%nat).
    { intros id. unfold all_entries, new_MTHashTable. rewrite fmap_replicate, N. by rewrite T. }
    split; [done|]. split; [|split; [intros id e; by rewrite E|done]]. intros id P. rewrite Z0, T in P. unfold pends in P. cbn in P. lia.
Qed.

Lemma put_ok B H db id : db_ok B H db -> (0 < H id)%nat -> db_ok B (fun i => H i - one id i)%nat (mkDB (tables db) (todo_lists db) (put id (store db))).
Proof.
  intros [W L F S] P. split; [done..|]. cbn [tables todo_lists store]. apply safe_put. eapply safe_mono; [|exact S]. intros i. cbn beta. unfold one. destruct (decide (i = id)) as [->|]; lia.
Qed.

Lemma change_ok B H db change : db_ok B H db -> keeps_refs change -> db_ok B H (mkDB (tables db) (todo_lists db) (change (store db))).
Proof.
  intros [W L F (D & R & N & Bd)] K. split; [done..|]. cbn [tables todo_lists store]. destruct (K (store db)) as (K1 & K2 & K3). split; [by rewrite K1|]. split; [|split; [|done]].
  - intros id P. destruct (R id P) as (e & E & Y). specialize (K3 id). rewrite E in K3. cbn in K3. destruct (heap (change (store db)) !! id) as [e'|] eqn:E'; [|done]. injection K3 as K3. exists e'. split; [done|lia].
  - intros id e E. specialize (K3 id). rewrite E in K3. rewrite K2. destruct (heap (store db) !! id) as [e'|] eqn:E'; [|done]. injection K3 as K3. rewrite K3. by apply (N id e').
Qed.

Lemma get_ok B H db d : db_ok B H db -> (0 < H d)%nat -> B + 1 < 2 ^ 31 -> db_ok (B + 1) (fun i => one d i + H i)%nat (mkDB (tables db) (todo_lists db) (get d (store db))).
Proof.
  intros [W L F S] P Bd. split; [done..|]. cbn [tables todo_lists store]. eapply safe_mono; [|apply (safe_get B _ d _ S); lia]. intros i. cbn beta. lia.
Qed.

Lemma lookup_ok B H db lock hostname ip CheckModifiers : db_ok B H db -> has_room db -> 1 <= B -> B + 1 < 2 ^ 31 -> exists res db', get_congest_entry make_key lock hostname ip CheckModifiers db = Some (res, db') /\
  db_ok (B + 1) (fun i => match res with Found id => one id i + H i | _ => H i end)%nat db'.
Proof.
  intros D R B1 B2. assert (D' : db_ok (B + 1) H db) by (by apply (db_ok_more B); [lia|]). unfold get_congest_entry. destruct (_ && _); [by eexists _, _|]. destruct (CongestionControlled _ _ _) as [p|]; [|by eexists _, _]. destruct (_ && _); [by eexists _, _|]. destruct lock; [|by eexists _, _].
  destruct (locked_lookup_ok B H db hostname ip p (make_key hostname ip p) D R B1 B2 (make_key_range _ _ _)) as (id & db' & E & Ok & _). by eexists _, _.
Qed.

Lemma cont_ok B H db cancelled lock hostname ip rule : db_ok B H db -> has_room db -> 1 <= B -> B + 1 < 2 ^ 31 -> exists res db', cont_get_congest_entry make_key cancelled lock (make_key hostname ip rule) hostname ip rule db = Some (res, db') /\
  db_ok (B + 1) (fun i => match res with Found id => one id i + H i | _ => H i end)%nat db'.
Proof.
  intros D R B1 B2. assert (D' : db_ok (B + 1) H db) by (by apply (db_ok_more B); [lia|]). unfold cont_get_congest_entry. destruct cancelled; [by eexists _, _|]. destruct lock; [|by eexists _, _].
  destruct (locked_lookup_ok B H db hostname ip rule (make_key hostname ip rule) D R B1 B2 (make_key_range _ _ _)) as (id & db' & E & Ok & _). by eexists _, _.
Qed.

Lemma add_ok B H db lock key d : db_ok B H db -> has_room db -> B + 1 < 2 ^ 31 -> 0 <= key < 2 ^ 64 -> (0 < H d)%nat -> exists db', run_steps make_key (addRecord make_key lock key d) db = Some db' /\ db_ok (B + 1) H db'.
Proof.
  intros D R Bd K P. pose proof (get_ok B H db d D P Bd) as D1. destruct (request_ok (B + 1) H _ lock (part_num key) (ADD_RECORD key d) D1) as (db' & E & D'); [exact R|apply part_num_lt|exact K|].
  exists db'. split; [|done]. unfold run_steps, addRecord. cbn [forM]. change (run_step make_key (Outside (get d)) db) with (Some (mkDB (tables db) (todo_lists db) (get d (store db)))). cbv iota. by rewrite E.
Qed.

(** A collection that ends has removed every entry of its partition. *)
Lemma gc_ok B H db fuel now part db' : db_ok B H db -> has_room db -> (part < 64)%nat -> run_step make_key (Locked part (gc_part fuel now part)) db = Some db' -> db_ok B H db'.
Proof.
  intros D R P E. cbn [run_step] in E. destruct (todo_safe B H db part D R P) as (db1 & E1 & [W1 L1 F1 S1] & R1). rewrite E1 in E. cbn [mbind option_bind] in E.
  destruct (gc_part fuel now part (tables db1) (store db1)) as [[m st]|] eqn:G; [|done]. cbn [mbind option_bind] in E. injection E as <-. apply gc_part_swept in G; [|done|done].
  destruct (process_safe B part (REMOVE_ALL_RECORDS part) (tables db1) (store db1) (fun id => pends (concat (todo_lists db1)) id + H id)%nat W1 P eq_refl R1) as (m' & st' & E & W2 & _ & S2).
  { eapply safe_mono; [|exact S1]. intros id. cbn beta. cbn [pend]. lia. }
  cbn [process] in E. rewrite G in E. injection E as <- <-. by split.
Qed.

Lemma reach_ok db H : reach db H -> db_ok MAX_REFS H db.
Proof.
  induction 1 as [size st B E D|db H lock part param db' _ D R P Ok Na E|db H lock key d db' _ D R Fw K P E|db H lock h ip ck res db' _ D R Fw E|db H ca lock h ip rule res db' _ D R Fw E|db H fuel now part db' _ D R P E|db H id _ D P|db H change _ D K].
  - by apply new_db_ok.
  - destruct (request_ok MAX_REFS H db lock part param) as (db2 & E2 & D2); try done; [|congruence]. eapply db_ok_mono; [|exact D]. intros id. destruct param as [key d|key|q|]; cbn; [by destruct (Na key d)|lia..].
  - destruct (add_ok _ H db lock key d (few_refs_ok H db D Fw) R ltac:(done) K P) as (db2 & E2 & D2). rewrite E in E2. injection E2 as ->. exact D2.
  - destruct (lookup_ok _ H db lock h ip ck (few_refs_ok H db D Fw) R ltac:(done) ltac:(done)) as (res2 & db2 & E2 & D2). rewrite E in E2. by injection E2 as <- <-.
  - destruct (cont_ok _ H db ca lock h ip rule (few_refs_ok H db D Fw) R ltac:(done) ltac:(done)) as (res2 & db2 & E2 & D2). rewrite E in E2. by injection E2 as <- <-.
  - by eapply gc_ok.
  - by apply put_ok.
  - by apply change_ok.
Qed.
End safe.


(** A lookup that gets the lock comes to an end with the entry of the server: the
    one that is there, or a new one without failures that stays, and the caller holds a
    reference to it; the entries of other servers are at most fewer. *)
Theorem server_entry make_key db H hostname ip rule key : (forall h ip r, 0 <= make_key h ip r < 2 ^ 64) -> reach make_key db H -> has_room db -> few_refs db -> 0 <= key < 2 ^ 64 ->
  exists id db' db1, locked_lookup make_key hostname ip rule key db = Some (Found id, db') /\ RunTodoList make_key (part_num key) db = Some db1 /\
    looked_up key (new_CongestionEntry hostname ip rule key) (tables db1) (store db1) id (tables db') (store db').
Proof.
  intros K R Ro Fw B. destruct (locked_lookup_ok make_key (MAX_REFS - 1) H db hostname ip rule key) as (id & db' & E & _ & db1 & E1 & Lu); try done; [by apply few_refs_ok; [apply (reach_ok make_key K)|]|]. by exists id, db', db1.
Qed.
