(* ===== verification/CongestionConcrete.v ===== *)
(** Concrete runs of congestion control, and what modelling showed. *)

From S2P Require Import Prelude ParseRules HdrToken LibC MTHashtable Congestion FailHistoryFacts CongestionFacts CongestionDB CongestionTables CongestionSafe.
From Stdlib Require Import Ascii.

Definition demo_rule : CongestionControlRecord := mkRule 3 0 None 0 PER_IP (Some DEFAULT_error_page) 5 120 10 300 30 60 2 15 1 10 1.
Definition port_rule : CongestionControlRecord := mkRule 7 2 None 8080 PER_IP (Some DEFAULT_error_page) 3 120 10 300 30 60 2 15 1 10 1.
Definition demo_server : CongestionEntry := new_CongestionEntry (Some (chars "host")) 17 demo_rule 99.

Lemma hash_table_map_witness :
  lookup_entry 70 (new_HashTable (D := nat) 2) = Some None /\
  (exists t', remove_entry 70 (new_HashTable (D := nat) 2) = Some (None, t') /\ table_wf t' /\ contents t' = delete 70 (contents (new_HashTable 2))) /\
  (exists t' st', insert_entry (D := nat) None None 70 1%nat (new_HashTable 2) tt = Some (None, t', st') /\ table_wf t' /\
    (contents t' = <[70 := 1%nat]> (contents (new_HashTable 2)) /\ st' = tt \/
     contents (D := nat) (new_HashTable 2) !! 70 = None /\ collected (D := nat) None None (<[70 := 1%nat]> (contents (new_HashTable 2))) tt (contents t') st')).
Proof.
  apply (hash_table_map (D := nat) (St := unit) None None 70 1%nat (new_HashTable 2) tt).
  - unfold table_wf. split_and!; try done.
    + intros i chain E. apply lookup_replicate in E as [-> _]. constructor.
    + constructor.
  - done.
  - done.
Defined.

Lemma rule_chosen_witness :
  best_rule (RD_HTTP (fun _ => true)) [demo_rule; port_rule] (Some port_rule) /\ Match (RD_HTTP (fun _ => true)) [port_rule; demo_rule] = Some port_rule.
Proof.
  apply (rule_chosen (RD_HTTP (fun _ => true)) [demo_rule; port_rule] [port_rule; demo_rule]).
  - intros r r' I I'. repeat (apply elem_of_cons in I as [->|I]); repeat (apply elem_of_cons in I' as [->|I']); try done; by apply not_elem_of_nil in I || apply not_elem_of_nil in I'.
  - apply Permutation_swap.
Defined.

Lemma fail_history_window_witness : exists h, regist_events [1000; 1003; 990; 1300] (hist_init 120) = Some h /\ last_event h = 1300 /\
  120 < 17 * 8 <= 120 + 17 /\ 1 <= events h <= 1.
Proof.
  destruct (fail_history_window 120 [1000; 1003; 990; 1300]) as (h & E & La & B & C).
  - lia.
  - repeat constructor; lia.
  - cbn. lia.
  - exists h. split; [exact E|]. split; [exact La|]. split; [exact B|]. rewrite La in C. exact C.
Defined.

(** Five failures within the window, and one that is not counted. *)
Lemma congestion_judged_witness : exists e' sigs, failures [(true, 1000); (true, 1001); (false, 1001); (true, 1002); (true, 1010); (true, 1100)] demo_server = Some (e', sigs) /\
  (5 <= 5 -> F_congested e' = true) /\
  (F_congested e' = true -> exists ts1 ts2, [1000; 1001; 1002; 1010; 1100] = ts1 ++ ts2 /\ 5 <= count_if (fun t => foldr Z.max 0 ts1 - 17 * 8 <=? t) ts1).
Proof.
  apply (congestion_judged (Some (chars "host")) 17 demo_rule 99 [(true, 1000); (true, 1001); (false, 1001); (true, 1002); (true, 1010); (true, 1100)]).
  - cbn. lia.
  - cbn. lia.
  - unfold counted; cbn [omap list_omap fst snd]; repeat constructor; lia.
  - cbn. lia.
Defined.

(** In a window of an hour the interval is 212 seconds: of two failures less than an hour
    apart only one is counted. *)
Lemma window_cut_short : bin_len (hist_init 3600) = 212 /\ (h ← regist_events [1000000; 1003599] (hist_init 3600); Some (events h)) = Some 1.
Proof. by vm_compute. Qed.

(** As many failures as the rule has are enough. *)
Lemma congested_at_limit : (fun x => F_congested x.1) <$> failures ((fun t => (true, t)) <$> [1000; 1001; 1002; 1003; 1004]) demo_server = Some true /\ max_connection_failures demo_rule = 5.
Proof. by vm_compute. Qed.

Definition demo_ops : list CongestionOp :=
  [Failure true 1000; Failure true 1000; Failure true 1000; NewRule port_rule; Failure true 1001; Success; Failure true 1002].

Definition demo_end : CongestionEntry := default demo_server (fst <$> run_ops demo_ops demo_server).

(** The server is congested, alive and congested again; under a rule that has [snmp] off
    nothing is said of it. *)
Definition quiet_rule : CongestionControlRecord := mkRule 3 0 None 0 PER_IP None 1 120 10 300 30 60 2 15 1 10 0.
Definition quiet_server : CongestionEntry := new_CongestionEntry None 17 quiet_rule 99.
Definition quiet_ops : list CongestionOp := [Failure true 1000; Success; Failure true 1001].
Definition quiet_end : CongestionEntry := default quiet_server (fst <$> run_ops quiet_ops quiet_server).

Lemma signal_balance_witness : balance [Congested; Alive; Congested] = flags demo_end - flags demo_server /\ flags demo_end = 1 /\
  run_ops quiet_ops quiet_server = Some (quiet_end, []) /\ (true = true -> 0 = reported quiet_ops quiet_server) /\ flags quiet_end = 1.
Proof.
  split; [|split; [by vm_compute|split; [|split; [|by vm_compute]]]].
  - apply (signal_balance 120 demo_ops demo_server demo_end [Congested; Alive; Congested]); [by repeat constructor|done|by vm_compute|done|by repeat constructor].
  - by vm_compute.
  - intros _. apply (signal_balance 120 quiet_ops quiet_server quiet_end []); [by repeat constructor|done|by vm_compute].
Defined.

(** ** The database *)

Definition demo_key (h : option (list Z)) (ip : Z) (r : CongestionControlRecord) : Z := u64 (ip + port r).

Definition demo_store : Store := mkStore ∅ 0 0 1000 (mkConfig 1 (fun _ _ => [demo_rule])) [] false.

Definition demo_db : CongestionDB := new_CongestionDB 16 demo_store.

Lemma demo_key_range h ip r : 0 <= demo_key h ip r < 2 ^ 64.
Proof. unfold demo_key, wrapu. apply Z.mod_pos_bound. lia. Qed.

Lemma demo_reach : reach demo_key demo_db (fun _ => 0%nat).
Proof. by apply reach_new. Qed.

Lemma demo_room : has_room demo_db.
Proof. intros p t E. apply lookup_replicate in E as [-> _]. by vm_compute. Qed.


Definition few_refsb (db : CongestionDB) : bool := bool_decide (map_Forall (fun _ e => m_ref_count e < MAX_REFS) (heap (store db))).


Lemma few_refsb_ok db : few_refsb db = true -> few_refs db.
Proof. intros H%bool_decide_eq_true id e E. by apply (H id e). Qed.





Lemma demo_few : few_refs demo_db.
Proof. by apply few_refsb_ok; vm_compute. Qed.

Lemma server_entry_witness : exists id db' db1, locked_lookup demo_key (Some (chars "host")) 17 demo_rule 17 demo_db = Some (Found id, db') /\ RunTodoList demo_key (part_num 17) demo_db = Some db1 /\
  looked_up 17 (new_CongestionEntry (Some (chars "host")) 17 demo_rule 17) (tables db1) (store db1) id (tables db') (store db').
Proof. apply (server_entry demo_key demo_db (fun _ => 0%nat) (Some (chars "host")) 17 demo_rule 17); [exact demo_key_range|exact demo_reach|exact demo_room|exact demo_few|lia]. Defined.

(** Two requests miss the lock. *)
Definition demo_steps : list Step := addRecord demo_key false 17 0 ++ removeRecord demo_key false 17 ++ [Outside preCongestEntryGC].

Lemma requests_in_order_witness :
  let st := (alloc demo_server demo_store).2 in let db := new_CongestionDB 16 st in
  exists db1 db2 evs, run_steps demo_key demo_steps db = Some db1 /\ forM parts (RunTodoList demo_key) db1 = Some db2 /\
    run_events evs (tables db, store db) = Some (tables db2, store db2) /\ changes evs = changes (meant demo_key <$> demo_steps) /\
    forall part, (part < 64)%nat -> todo_lists db2 !! part = Some [] /\ acts part evs = acts part (meant demo_key <$> demo_steps).
Proof.
  set (st := (alloc demo_server demo_store).2). set (db := new_CongestionDB 16 st). cbv zeta.
  set (db1 := default db (run_steps demo_key demo_steps db)). set (db2 := default db (forM parts (RunTodoList demo_key) db1)).
  assert (E1 : run_steps demo_key demo_steps db = Some db1) by reflexivity.
  assert (E2 : forM parts (RunTodoList demo_key) db1 = Some db2).
  { assert (S : is_Some (forM parts (RunTodoList demo_key) db1)) by (vm_compute; by eexists). unfold db2. by destruct S as [x ->]. }
  assert (P : Forall step_part demo_steps) by (repeat constructor; apply (bool_decide_unpack (_ ∈ parts)); by vm_compute).
  destruct (requests_in_order demo_key demo_steps db db1 db2 eq_refl P E1 E2) as (evs & R). exists db1, db2, evs. split; [exact E1|]. split; [exact E2|exact R].
Defined.

(** ** What modelling showed *)

(** The collection of a continuation does not go on to the next entry: at a useful one
    its loop does not end. *)
Lemma gc_loop_stuck fuel now id e s t st : heap st !! id = Some e -> usefulInfo now e = true -> gc_loop fuel now (Some id) s t st = None.
Proof. apply gc_loop_useful. Qed.

(** A bin has 16 bits and the count of the events has 32: after 65536 failures in a bin,
    the count does not go back when the bin is left. *)
Lemma bin_wraps :
  (h ← regist_events (replicate (Z.to_nat 65536) 1000) (hist_init 120); h ← regist_event 1136 1 h; Some (events h, foldr Z.add 0 (bins h))) = Some (65537, 1).
Proof. by vm_compute. Qed.

(** A rule with another window ends the congestion of a server without a signal, and a
    rule without a limit on connections leaves a server congested by its old limit. *)
Lemma window_change_silent :
  let rule := mkRule 3 0 None 0 PER_IP None 5 60 10 300 30 60 2 15 1 (-1) 1 in
  let e := set_M_congested true 1000 (set_congested true demo_server) in
  (applyNewRule rule e).2 = [] /\ F_congested (applyNewRule rule e).1 = false /\ congested (applyNewRule rule e).1 = true /\ (M_congested 1001 (applyNewRule rule e).1).1.1 = false.
Proof. by vm_compute. Qed.

(** A connection that closes is taken for the end of the congestion although there are
    still more connections than a new rule allows. *)
Lemma closed_over_limit :
  let rule := mkRule 3 0 None 0 PER_IP None 5 120 10 300 30 60 2 15 1 2 1 in
  let e := fst (applyNewRule rule (set_M_congested true 1000 (set_connections 10 demo_server))) in
  (connection_closed e).2 = [Alive] /\ (M_congested 1001 (connection_closed e).1).1.1 = true.
Proof. by vm_compute. Qed.

(** An entry that is added a second time keeps the reference that the second call took:
    it is not freed when it is removed and nobody holds it. *)
Lemma added_twice_leaks :
  let st := (alloc demo_server demo_store).2 in
  let db := new_CongestionDB 16 st in
  (db ← run_steps demo_key (addRecord demo_key true 17 0 ++ addRecord demo_key true 17 0 ++ removeRecord demo_key true 17 ++ [Outside (put 0)]) db;
   Some (mt_get (tables db) 17, m_ref_count <$> heap (store db) !! 0%nat)) = Some (None, Some 1).
Proof. by vm_compute. Qed.
