(* ===== verification/HostLookup.v ===== *)
(** The matcher of host and domain names ([libinktomi++/HostLookup.cc], [HostLookup.h]).

    The names of the rules are kept in a tree with one level for each label, read from
    the right, down to three levels.  Below the root the next level is found through
    [charIndex], an index by the characters of a short string; below other branches
    through an array of at most eight keys, which becomes a hash table when a ninth
    comes.  The branches are the elements of [branches], and a pointer to one is its
    index; a string is the list of its characters without the NUL.  The data bound to a
    name is a pointer the tree does not follow: [D] is its type. *)

From S2P Require Import Prelude ParseRules LibC Tokenizer.
From Stdlib Require Import Ascii.

Definition HOST_TABLE_DEPTH : nat := 3.
Definition HOST_ARRAY_MAX : nat := 8.

Definition LowerCaseStr (str : list Z) : list Z := ink_tolower <$> str.

(** ** Comparing names *)

(** [tolower] on a [char], which is signed. *)
Definition c_tolower (c : Z) : Z := ink_tolower (wraps 8 c).

(** The walk of [domaincmp] through both strings from their ends; [behind] is the
    character of [domain] behind [domain_cur]. *)
Fixpoint domain_walk (domain host : list Z) (behind : Z) : bool :=
  match domain, host with
  | d :: domain', h :: host' => if c_tolower d =? c_tolower h then domain_walk domain' host' d else false
  | [], [] => true
  | [], h :: _ => (behind =? ch ".") || (h =? ch ".")
  | [d], [] => d =? ch "."
  | _ :: _ :: _, [] => false
  end.

Definition domaincmp (hostname domain : list Z) : bool :=
  match rev domain, rev hostname with
  | [], _ | _, [] => false
  | d :: domain', h :: host' =>
    domain_walk (if d =? ch "." then domain' else d :: domain') (if h =? ch "." then host' else h :: host') d
  end.

Definition char_at (s : list Z) : Z := match s with c :: _ => c | [] => 0 end.

Fixpoint hostcmp (c1 c2 : list Z) : Z :=
  if c_tolower (char_at c1) <? c_tolower (char_at c2) then
    if (char_at c1 =? 0) && (char_at c2 =? ch ".") && (char_at (tail c2) =? 0) then 0 else -1
  else if c_tolower (char_at c2) <? c_tolower (char_at c1) then
    if (char_at c2 =? 0) && (char_at c1 =? ch ".") && (char_at (tail c1) =? 0) then 0 else 1
  else match c1 with [] => 0 | _ :: c1' => hostcmp c1' (tail c2) end.

(** ** The index by characters *)

Definition asciiToTable : list Z := [
  255; 255; 255; 255; 255; 255; 255; 255; 255; 255; 255; 255; 255; 255; 255; 255;
  255; 255; 255; 255; 255; 255; 255; 255; 255; 255; 255; 255; 255; 255; 255; 255;
  255; 255; 255; 255; 255; 255; 255; 255; 255; 255; 255; 255; 255; 0; 255; 255;
  1; 2; 3; 4; 5; 6; 7; 8; 9; 10; 255; 255; 255; 255; 255; 255;
  255; 11; 12; 13; 14; 15; 16; 17; 18; 19; 20; 21; 22; 23; 24; 25;
  26; 27; 28; 29; 30; 31; 32; 33; 34; 35; 36; 255; 255; 255; 255; 37;
  255; 11; 12; 13; 14; 15; 16; 17; 18; 19; 20; 21; 22; 23; 24; 25;
  26; 27; 28; 29; 30; 31; 32; 33; 34; 35; 36; 255; 255; 255; 255; 255;
  255; 255; 255; 255; 255; 255; 255; 255; 255; 255; 255; 255; 255; 255; 255; 255;
  255; 255; 255; 255; 255; 255; 255; 255; 255; 255; 255; 255; 255; 255; 255; 255;
  255; 255; 255; 255; 255; 255; 255; 255; 255; 255; 255; 255; 255; 255; 255; 255;
  255; 255; 255; 255; 255; 255; 255; 255; 255; 255; 255; 255; 255; 255; 255; 255;
  255; 255; 255; 255; 255; 255; 255; 255; 255; 255; 255; 255; 255; 255; 255; 255;
  255; 255; 255; 255; 255; 255; 255; 255; 255; 255; 255; 255; 255; 255; 255; 255;
  255; 255; 255; 255; 255; 255; 255; 255; 255; 255; 255; 255; 255; 255; 255; 255;
  255; 255; 255; 255; 255; 255; 255; 255; 255; 255; 255; 255; 255; 255; 255; 255].

Definition numLegalChars : nat := 38.

Definition index_of (c : Z) : Z := nth (Z.to_nat c) asciiToTable 255.

(** What is bound to a key is an index of a branch. *)
Inductive charIndex_el := mkEl (branch_array : list (option nat)) (next_level : list (option charIndex_el)).

Definition new_el : charIndex_el := mkEl (replicate numLegalChars None) (replicate numLegalChars None).

Record charIndex := mkCharIndex { ci_root : charIndex_el; illegalKey : option (gmap (list Z) nat) }.

Definition new_charIndex : charIndex := mkCharIndex new_el None.

(** The loop of [charIndex::Insert]: whether the key has to go to [illegalKey], and the
    levels, to which those on the way are added in either case. *)
Fixpoint index_insert (match_data : list Z) (toInsert : nat) (cur : charIndex_el) : bool * charIndex_el :=
  let '(mkEl branch_array next_level) := cur in
  match match_data with
  | [] => (false, cur)
  | c :: rest =>
    let index := index_of c in
    if index =? 255 then (true, cur)
    else match rest with
    | [] => (false, mkEl (<[Z.to_nat index := Some toInsert]> branch_array) next_level)
    | _ =>
      let next := match next_level !! Z.to_nat index with Some (Some next) => next | _ => new_el end in
      let '(illegal, next') := index_insert rest toInsert next in
      (illegal, mkEl branch_array (<[Z.to_nat index := Some next']> next_level))
    end
  end.

Definition ci_Insert (match_data : list Z) (toInsert : nat) (ci : charIndex) : charIndex :=
  match match_data with
  | [] => ci
  | _ =>
    let '(illegal, root') := index_insert match_data toInsert (ci_root ci) in
    mkCharIndex root' (if illegal then Some (<[match_data := toInsert]> (default ∅ (illegalKey ci))) else illegalKey ci)
  end.

(** The loop of [charIndex::Lookup]: [None] is an illegal character. *)
Fixpoint index_lookup (match_data : list Z) (cur : charIndex_el) : option (option nat) :=
  let '(mkEl branch_array next_level) := cur in
  match match_data with
  | [] => Some None
  | c :: rest =>
    let index := index_of c in
    if index =? 255 then None
    else match rest with
    | [] => Some (mjoin (branch_array !! Z.to_nat index))
    | _ => match next_level !! Z.to_nat index with Some (Some next) => index_lookup rest next | _ => Some None end
    end
  end.

Definition ci_Lookup (match_data : list Z) (ci : charIndex) : option nat :=
  match match_data with
  | [] => None
  | _ =>
    match index_lookup match_data (ci_root ci) with
    | Some r => r
    | None => match illegalKey ci with None => None | Some t => t !! match_data end
    end
  end.

(** ** The array of keys *)

Definition hostArray : Type := list (list Z * nat).

Definition ha_Insert (match_data_in : list Z) (toInsert : nat) (ha : hostArray) : option hostArray :=
  if (HOST_ARRAY_MAX <=? length ha)%nat then None else Some (ha ++ [(match_data_in, toInsert)]).

(** [r] is what the search has found so far. *)
Fixpoint ha_search (match_data_in : list Z) (bNotProcess : bool) (r : option nat) (ha : hostArray) : option nat :=
  match ha with
  | [] => r
  | (pMD, b) :: ha' =>
    if bNotProcess && (char_at pMD =? ch "!") then
      match tail pMD with
      | [] => ha_search match_data_in bNotProcess r ha'
      | cp => if decide (cp = match_data_in) then ha_search match_data_in bNotProcess r ha' else ha_search match_data_in bNotProcess (Some b) ha'
      end
    else if decide (pMD = match_data_in) then Some b
    else ha_search match_data_in bNotProcess r ha'
  end.

Definition ha_Lookup (match_data_in : list Z) (bNotProcess : bool) (ha : hostArray) : option nat := ha_search match_data_in bNotProcess None ha.

(** ** The tree *)

Inductive LeafType := LEAF_INVALID | HOST_PARTIAL | HOST_COMPLETE | DOMAIN_COMPLETE | DOMAIN_PARTIAL.

#[export] Instance LeafType_eq_dec : EqDecision LeafType.
Proof. solve_decision. Defined.

(** The type of a branch and its [next_level]. *)
Inductive NextLevel := HOST_TERMINAL | HOST_HASH (t : gmap (list Z) nat) | HOST_INDEX (ci : charIndex) | HOST_ARRAY (ha : hostArray).

Record HostBranch := mkBranch { level : nat; next_level : NextLevel; leaf_indexs : list nat }.

Definition new_branch (l : nat) : HostBranch := mkBranch l HOST_TERMINAL [].

(** [FindNextLevel] on what is behind a branch. *)
Definition find_next (from : NextLevel) (level_data : list Z) (bNotProcess : bool) : option nat :=
  match from with
  | HOST_TERMINAL => None
  | HOST_HASH hash => hash !! level_data
  | HOST_INDEX ci_table => ci_Lookup level_data ci_table
  | HOST_ARRAY ha_table => ha_Lookup level_data bNotProcess ha_table
  end.

(** [InsertBranch] there. *)
Definition insert_next (insert_in : NextLevel) (level_data : list Z) (b : nat) : NextLevel :=
  match insert_in with
  | HOST_TERMINAL => HOST_TERMINAL
  | HOST_HASH t => HOST_HASH (<[level_data := b]> t)
  | HOST_INDEX ci => HOST_INDEX (ci_Insert level_data b ci)
  | HOST_ARRAY ha =>
    match ha_Insert level_data b ha with
    | Some ha' => HOST_ARRAY ha'
    | None => HOST_HASH (foldl (fun t e => <[e.1 := e.2]> t) {[level_data := b]} ha)
    end
  end.

Section HostLookup.
Context {D : Type}.

(** A leaf; [None] is the data of a leaf that was only allocated. *)
Record HostLeaf := mkLeaf { leaf_type : LeafType; leaf_match : list Z; leaf_len : Z; isNot : bool; opaque_data : option D }.

(** The root is branch 0.  An array that is not allocated has length -1. *)
Record HostLookup := mkLookup { branches : list HostBranch; leaf_array : list HostLeaf; array_len : Z; num_el : Z }.

Definition new_HostLookup : HostLookup := mkLookup [new_branch 0] [] (-1) (-1).

Definition AllocateSpace (num_entries : nat) (hl : HostLookup) : HostLookup :=
  mkLookup (branches hl) (replicate num_entries (mkLeaf LEAF_INVALID [] 0 false None)) (Z.of_nat num_entries) 0.

Definition set_branches (bs : list HostBranch) (hl : HostLookup) : HostLookup := mkLookup bs (leaf_array hl) (array_len hl) (num_el hl).
Definition set_leaves (ls : list HostLeaf) (hl : HostLookup) : HostLookup := mkLookup (branches hl) ls (array_len hl) (num_el hl).

(** The new branch, and the tree with it. *)
Definition InsertBranch (insert_in : nat) (level_data : list Z) (hl : HostLookup) : option (nat * HostLookup) :=
  b ← branches hl !! insert_in;
  let id := length (branches hl) in
  Some (id, set_branches (<[insert_in := mkBranch (level b) (insert_next (next_level b) level_data id) (leaf_indexs b)]> (branches hl) ++ [new_branch (S (level b))]) hl).

Definition TableNewLevel (from : nat) (level_data : list Z) (hl : HostLookup) : option (nat * HostLookup) :=
  b ← branches hl !! from;
  let next := if (level b =? 0)%nat then HOST_INDEX new_charIndex else HOST_ARRAY [] in
  InsertBranch from level_data (set_branches (<[from := mkBranch (level b) next (leaf_indexs b)]> (branches hl)) hl).

Definition FindNextLevel (from : nat) (level_data : list Z) (bNotProcess : bool) (hl : HostLookup) : option (option nat) :=
  b ← branches hl !! from; Some (find_next (next_level b) level_data bNotProcess).

(** The loop of [TableInsert]: [k] rounds are left. *)
Fixpoint descend (k : nat) (toks : list (list Z)) (cur : nat) (hl : HostLookup) : option (nat * HostLookup) :=
  match k with
  | O => Some (cur, hl)
  | S k' =>
    b ← branches hl !! cur;
    let numTok := length toks in
    let i := (HOST_TABLE_DEPTH - k)%nat in
    if (numTok =? level b)%nat then Some (cur, hl)
    else
      tok ← (if (i <? numTok)%nat then toks !! (numTok - i - 1)%nat else None);
      match next_level b with
      | HOST_TERMINAL => '(cur', hl') ← TableNewLevel cur tok hl; descend k' toks cur' hl'
      | _ =>
        next ← FindNextLevel cur tok false hl;
        match next with
        | None => '(cur', hl') ← InsertBranch cur tok hl; descend k' toks cur' hl'
        | Some cur' => descend k' toks cur' hl
        end
      end
  end.

Definition leaf_kind (numTok : nat) (domain_record : bool) : LeafType :=
  if domain_record then (if (HOST_TABLE_DEPTH <? numTok)%nat then DOMAIN_PARTIAL else DOMAIN_COMPLETE)
  else (if (HOST_TABLE_DEPTH <? numTok)%nat then HOST_PARTIAL else HOST_COMPLETE).

Definition TableInsert (match_data : list Z) (index : nat) (domain_record : bool) (hl : HostLookup) : option HostLookup :=
  let match_tok := tokens (Initialize (new_Tokenizer (chars ".")) (LowerCaseStr match_data) false).2 in
  '(cur, hl) ← descend HOST_TABLE_DEPTH match_tok 0 hl;
  leaf ← leaf_array hl !! index;
  b ← branches hl !! cur;
  let leaf' := mkLeaf (leaf_kind (length match_tok) domain_record) (leaf_match leaf) (leaf_len leaf) (isNot leaf) (opaque_data leaf) in
  Some (set_branches (<[cur := mkBranch (level b) (next_level b) (leaf_indexs b ++ [index])]> (branches hl)) (set_leaves (<[index := leaf']> (leaf_array hl)) hl)).

(** [None]: the array of leaves is overrun. *)
Definition NewEntry (match_data : list Z) (domain_record : bool) (opaque_data_in : D) (hl : HostLookup) : option HostLookup :=
  let n := Z.to_nat (num_el hl) in
  if (num_el hl <? 0) || (array_len hl <=? num_el hl) then None
  else
    let is_not := char_at match_data =? ch "!" in
    let leaf := mkLeaf LEAF_INVALID match_data (Z.of_nat (length match_data) - Zbool is_not) is_not (Some opaque_data_in) in
    hl ← TableInsert match_data n domain_record (set_leaves (<[n := leaf]> (leaf_array hl)) hl);
    Some (mkLookup (branches hl) (leaf_array hl) (array_len hl) (num_el hl + 1)).

(** ** Matching *)

(** [host_copy] has its NUL and those that were put in place of dots; [host_copy_next]
    is an index of it. *)
Record HostLookupState := mkState { cur : nat; table_level : nat; array_index : Z; hostname : list Z; host_copy : list Z; host_copy_next : option Z }.

Definition leaf_matches (leaf : HostLeaf) (hostname : list Z) (host_done : bool) : bool :=
  match leaf_type leaf with
  | HOST_PARTIAL => hostcmp hostname (leaf_match leaf) =? 0
  | HOST_COMPLETE => host_done
  | DOMAIN_PARTIAL => domaincmp hostname (leaf_match leaf)
  | DOMAIN_COMPLETE => true
  | LEAF_INVALID => false
  end.

(** [MatchArray] from element [i] on: the data, and the index of the element that has it
    or of the end. *)
Fixpoint match_array (hl : HostLookup) (hostname : list Z) (host_done : bool) (array : list nat) (i : Z) : option (option (option D) * Z) :=
  match array with
  | [] => Some (None, i)
  | index :: array' =>
    leaf ← leaf_array hl !! index;
    if leaf_matches leaf hostname host_done then Some (Some (opaque_data leaf), i) else match_array hl hostname host_done array' (i + 1)
  end.

Definition MatchArray (hl : HostLookup) (s : HostLookupState) (array : list nat) (host_done : bool) : option (option (option D) * HostLookupState) :=
  '(r, i) ← match_array hl (hostname s) host_done (drop (Z.to_nat (array_index s + 1)) array) (array_index s + 1);
  Some (r, mkState (cur s) (table_level s) i (hostname s) (host_copy s) (host_copy_next s)).

(** The string that begins at a place. *)
Definition string_at (s : list Z) (p : Z) : list Z := c_string (drop (Z.to_nat p) s).

(** The inner [while (1)] of [MatchNext], from [p] back. *)
Fixpoint back_to_dot (copy : list Z) (p : nat) : Z :=
  match p with O => 0 | S p' => if nth p copy 0 =? ch "." then Z.of_nat p + 1 else back_to_dot copy p' end.

(** The part of the name before the one at [p]. *)
Definition next_part (copy : list Z) (p : Z) : list Z * option Z :=
  if p <=? 0 then (copy, None)
  else let copy' := <[Z.to_nat (p - 1) := 0]> copy in (copy', Some (back_to_dot copy' (Z.to_nat (p - 2)))).

(** The loop of [MatchNext]. *)
Fixpoint match_next (fuel : nat) (hl : HostLookup) (s : HostLookupState) : option (option (option D) * HostLookupState) :=
  match fuel with
  | O => None
  | S fuel' =>
    if (HOST_TABLE_DEPTH <? table_level s)%nat then Some (None, s)
    else
      b ← branches hl !! cur s;
      '(r, s) ← MatchArray hl s (leaf_indexs b) (bool_decide (host_copy_next s = None));
      match r, host_copy_next s, next_level b with
      | Some d, _, _ => Some (Some d, s)
      | None, None, _ => Some (None, s)
      | None, _, HOST_TERMINAL => Some (None, s)
      | None, Some p, _ =>
        next ← FindNextLevel (cur s) (string_at (host_copy s) p) true hl;
        match next with
        | None => Some (None, s)
        | Some c =>
          let '(copy, p') := next_part (host_copy s) p in
          match_next fuel' hl (mkState c (S (table_level s)) (-1) (hostname s) copy p')
        end
      end
  end.

(** A round goes one level down, and the levels are at most [HOST_TABLE_DEPTH]. *)
Definition MatchNext (hl : HostLookup) (s : HostLookupState) : option (option (option D) * HostLookupState) :=
  if num_el hl <=? 0 then Some (None, s) else match_next (HOST_TABLE_DEPTH + 2) hl s.

(** The place behind the last dot. *)
Fixpoint last_dot (s : list Z) (i : Z) (found : option Z) : option Z :=
  match s with [] => found | c :: s' => last_dot s' (i + 1) (if c =? ch "." then Some i else found) end.

Definition first_state (host : list Z) : HostLookupState :=
  let host_copy := LowerCaseStr host in
  mkState 0 0 (-1) host (host_copy ++ [0]) (Some (match last_dot host_copy 0 None with None => 0 | Some d => d + 1 end)).

(** A host that is the null pointer is the empty string. *)
Definition MatchFirst (hl : HostLookup) (host : option (list Z)) : option (option (option D) * HostLookupState) := MatchNext hl (first_state (default [] host)).

(** The loop of the clients: the data of all matches. *)
Fixpoint all_next (fuel : nat) (hl : HostLookup) (r : option (option (option D) * HostLookupState)) : option (list (option D)) :=
  match fuel with
  | O => None
  | S fuel' =>
    '(d, s) ← r;
    match d with
    | None => Some []
    | Some d => ds ← all_next fuel' hl (MatchNext hl s); Some (d :: ds)
    end
  end.

Definition all_matches (hl : HostLookup) (host : option (list Z)) : option (list (option D)) := all_next (S (length (leaf_array hl))) hl (MatchFirst hl host).
End HostLookup.

#[global] Arguments HostLookup : clear implicits.
#[global] Arguments HostLeaf : clear implicits.
