(* ===== verification/HostLookupFacts.v ===== *)
(** The tree of [HostLookup] as a map: what each of its three structures finds after an
    insertion, the invariant of the tree, and what [NewEntry] does to it. *)

From S2P Require Import Prelude ParseRules LibC Tokenizer HostLookup.
From Stdlib Require Import Ascii.

(** ** The index by characters *)

Definition lower (k : list Z) : Prop := LowerCaseStr k = k.

(** The characters the table knows, in the order of their indexes. *)
Definition legal_chars : list Z := chars "-0123456789abcdefghijklmnopqrstuvwxyz_".

Lemma index_of_range c : index_of c <> 255 -> (0 <= index_of c < Z.of_nat numLegalChars) /\ nth (Z.to_nat (index_of c)) legal_chars 0 = ink_tolower c.
Proof.
  intros N. assert (R : 0 <= c < 256).
  { split.
    - destruct (decide (0 <= c)) as [|C]; [done|]. exfalso. apply N. unfold index_of. by rewrite (Z2Nat.nonpos c) by lia.
    - destruct (decide (c < 256)) as [|C]; [done|]. exfalso. apply N. unfold index_of. apply nth_overflow. change (length asciiToTable) with 256%nat. lia. }
  pose proof (forallZ_spec (fun c => (index_of c =? 255) || ((0 <=? index_of c) && (index_of c <? Z.of_nat numLegalChars) && (nth (Z.to_nat (index_of c)) legal_chars 0 =? ink_tolower c))) 256%nat 0 c ltac:(by vm_compute) ltac:(lia)) as F.
  cbv beta in F. apply orb_true_iff in F as [F|F]; bsimp; done.
Qed.

Lemma index_in_array {A} (l : list A) c : index_of c <> 255 -> length l = numLegalChars -> (Z.to_nat (index_of c) < length l)%nat.
Proof. intros N ->. destruct (index_of_range c N). lia. Qed.

Lemma index_of_inj c d : index_of c <> 255 -> index_of d <> 255 -> Z.to_nat (index_of c) = Z.to_nat (index_of d) -> ink_tolower c = ink_tolower d.
Proof. intros N M E. destruct (index_of_range c N) as [_ <-]. destruct (index_of_range d M) as [_ <-]. by rewrite E. Qed.

Lemma lower_cons c k : lower (c :: k) <-> ink_tolower c = c /\ lower k.
Proof. unfold lower, LowerCaseStr. cbn [fmap list_fmap]. split; [by intros [= -> ->]|by intros [-> ->]]. Qed.

Inductive el_ok : charIndex_el -> Prop :=
| El_ok ba nl : length ba = numLegalChars -> length nl = numLegalChars -> (forall i e, nl !! i = Some (Some e) -> el_ok e) -> el_ok (mkEl ba nl).

Lemma new_el_ok : el_ok new_el.
Proof. constructor; [done|done|]. intros i e H. apply lookup_replicate in H as [H _]. done. Qed.

Lemma lookup_new_el k : index_lookup k new_el = Some None \/ index_lookup k new_el = None.
Proof.
  destruct k as [|c k]; [by left|]. cbn [index_lookup new_el]. destruct (Z.eqb_spec (index_of c) 255) as [|N]; [by right|]. left.
  rewrite !lookup_replicate_2 by (apply (index_in_array (replicate numLegalChars (@None nat)) c N); done). by destruct k.
Qed.

(** The level behind a character, new if there is none. *)
Definition next_el (nl : list (option charIndex_el)) (c : Z) : charIndex_el := match nl !! Z.to_nat (index_of c) with Some (Some next) => next | _ => new_el end.

Lemma next_el_ok ba nl c : el_ok (mkEl ba nl) -> el_ok (next_el nl c).
Proof. intros O. inversion_clear O as [? ? _ _ F]. unfold next_el. destruct (nl !! _) as [[e|]|] eqn:E; [by eapply F|apply new_el_ok|apply new_el_ok]. Qed.

(** The last character of a key, a character before it that is legal, and one that is
    not. *)
Lemma index_insert_ind (id : nat) (P : list Z -> charIndex_el -> bool -> charIndex_el -> Prop) :
  (forall c k ba nl, index_of c = 255 -> P (c :: k) (mkEl ba nl) true (mkEl ba nl)) ->
  (forall c ba nl, index_of c <> 255 -> P [c] (mkEl ba nl) false (mkEl (<[Z.to_nat (index_of c) := Some id]> ba) nl)) ->
  (forall c k ba nl il next', index_of c <> 255 -> k <> [] -> index_insert k id (next_el nl c) = (il, next') -> P k (next_el nl c) il next' ->
     P (c :: k) (mkEl ba nl) il (mkEl ba (<[Z.to_nat (index_of c) := Some next']> nl))) ->
  forall key cur il cur', key <> [] -> index_insert key id cur = (il, cur') -> P key cur il cur'.
Proof.
  intros Hi Hl Hs. induction key as [|c k IH]; intros [ba nl] il cur' N E; [done|]. cbn [index_insert] in E. destruct (Z.eqb_spec (index_of c) 255) as [X|X]; [injection E as <- <-; by apply Hi|].
  destruct k as [|d k]; [injection E as <- <-; by apply Hl|]. fold (next_el nl c) in E. destruct (index_insert (d :: k) id (next_el nl c)) as [il1 next1] eqn:E1. injection E as <- <-.
  apply Hs; [done|done|done|]. by apply IH.
Qed.

Lemma index_insert_ok key id cur il cur' : key <> [] -> index_insert key id cur = (il, cur') -> el_ok cur -> el_ok cur'.
Proof.
  revert key cur il cur'. apply (index_insert_ind id (fun key cur il cur' => el_ok cur -> el_ok cur')).
  - done.
  - intros c ba nl N O. inversion_clear O. constructor; [by rewrite length_insert|done|done].
  - intros c k ba nl il next' N Nk _ IH O. pose proof (next_el_ok _ _ c O) as On. inversion_clear O as [? ? L1 L2 F]. constructor; [done|by rewrite length_insert|].
    intros i e. rewrite list_lookup_insert. case_decide; [intros [= <-]; auto|apply F].
Qed.

(** Looking up the key itself. *)
Lemma index_lookup_inserted key id cur il cur' : key <> [] -> index_insert key id cur = (il, cur') -> el_ok cur ->
  index_lookup key cur' = (if il then None else Some (Some id)) /\ (index_lookup key cur = None -> il = true).
Proof.
  revert key cur il cur'. apply (index_insert_ind id (fun key cur il cur' => el_ok cur -> index_lookup key cur' = (if il then None else Some (Some id)) /\ (index_lookup key cur = None -> il = true))).
  - intros c k ba nl E _. cbn [index_lookup]. by rewrite E.
  - intros c ba nl N O. cbn [index_lookup]. rewrite (proj2 (Z.eqb_neq _ _)) by done. inversion_clear O as [? ? L _ _]. split; [|done].
    by rewrite list_lookup_insert_eq by (by apply index_in_array).
  - intros c k ba nl il next' N Nk _ IH O. destruct (IH (next_el_ok _ _ c O)) as [IH1 IH2]. cbn [index_lookup]. rewrite (proj2 (Z.eqb_neq _ _)) by done. inversion_clear O as [? ? _ L _].
    destruct k as [|d k]; [done|]. rewrite list_lookup_insert_eq by (by apply index_in_array). split; [done|].
    unfold next_el in IH2. destruct (nl !! _) as [[e|]|] eqn:E; [done|done|done].
Qed.

(** Looking up another key: levels may have come on its way. *)
Lemma index_lookup_other key id cur il cur' : key <> [] -> index_insert key id cur = (il, cur') -> lower key -> forall k, lower k -> k <> key ->
  index_lookup k cur' = index_lookup k cur \/ (index_lookup k cur = Some None /\ index_lookup k cur' = None).
Proof.
  revert key cur il cur'. apply (index_insert_ind id (fun key cur il cur' => lower key -> forall k, lower k -> k <> key ->
    index_lookup k cur' = index_lookup k cur \/ (index_lookup k cur = Some None /\ index_lookup k cur' = None))).
  - by left.
  - intros c ba nl N Lc [|d k] L Nk; [by left|]. left. cbn [index_lookup]. destruct (Z.eqb_spec (index_of d) 255) as [|Nd]; [done|]. destruct k as [|e k]; [|done].
    destruct (decide (Z.to_nat (index_of c) = Z.to_nat (index_of d))) as [E|E]; [|by rewrite list_lookup_insert_ne].
    apply index_of_inj in E; [|done|done]. apply lower_cons in Lc as [Lc _]. apply lower_cons in L as [L _]. congruence.
  - intros c key ba nl il next' N Nkey _ IH Lc [|d k] L Nk; [by left|]. apply lower_cons in Lc as [Lc Lkey]. apply lower_cons in L as [Ld L].
    cbn [index_lookup]. destruct (Z.eqb_spec (index_of d) 255) as [|Nd]; [by left|]. destruct k as [|e k]; [by left|].
    destruct (decide (Z.to_nat (index_of c) = Z.to_nat (index_of d))) as [E|E]; [|left; by rewrite list_lookup_insert_ne].
    assert (d = c) as -> by (apply index_of_inj in E; [congruence|done|done]). rewrite list_lookup_insert. case_decide as B; [|by left].
    specialize (IH Lkey (e :: k) L ltac:(congruence)). unfold next_el in IH. destruct (nl !! _) as [[x|]|]; [done| |];
      (destruct (lookup_new_el (e :: k)) as [X|X]; rewrite X in IH; naive_solver).
Qed.

Definition ci_ok (ci : charIndex) : Prop :=
  el_ok (ci_root ci) /\ forall k, is_Some (default ∅ (illegalKey ci) !! k) -> lower k /\ index_lookup k (ci_root ci) = None.

Lemma ci_lookup_eq k ci : k <> [] -> ci_Lookup k ci = match index_lookup k (ci_root ci) with Some r => r | None => default ∅ (illegalKey ci) !! k end.
Proof. intros N. unfold ci_Lookup. destruct k; [done|]. destruct (index_lookup _ _); [done|]. destruct (illegalKey ci); [done|]. cbn; by rewrite lookup_empty. Qed.

Lemma ci_insert_ok key id ci : key <> [] -> lower key -> ci_ok ci ->
  ci_ok (ci_Insert key id ci) /\ forall k, lower k -> ci_Lookup k (ci_Insert key id ci) = if decide (k = key) then Some id else ci_Lookup k ci.
Proof.
  intros N L [O H]. assert (Ei : ci_Insert key id ci = let '(il, root') := index_insert key id (ci_root ci) in
    mkCharIndex root' (if il then Some (<[key := id]> (default ∅ (illegalKey ci))) else illegalKey ci)) by (by destruct key).
  rewrite Ei. destruct (index_insert key id (ci_root ci)) as [il root'] eqn:E. destruct (index_lookup_inserted _ _ _ _ _ N E O) as [I1 I2].
  pose proof (index_lookup_other _ _ _ _ _ N E L) as I3. split.
  - split; cbn [ci_root illegalKey]; [by eapply index_insert_ok|]. intros k Hk. destruct (decide (k = key)) as [->|Nk].
    + destruct il; [done|]. destruct (H key Hk) as [_ X]. by specialize (I2 X).
    + assert (Hk' : is_Some (default ∅ (illegalKey ci) !! k)) by (destruct il; [|done]; cbn in Hk; by rewrite lookup_insert_ne in Hk).
      destruct (H k Hk') as [Lk X]. split; [done|]. destruct (I3 k Lk Nk) as [Y|[Y _]]; congruence.
  - intros k Lk. destruct k as [|c k]; [by rewrite decide_False by done|]. rewrite !ci_lookup_eq by done. cbn [ci_root illegalKey]. case_decide as D.
    + rewrite D, I1. destruct il; [|done]. cbn. by rewrite lookup_insert_eq.
    + assert (T : default ∅ (if il then Some (<[key:=id]> (default ∅ (illegalKey ci))) else illegalKey ci) !! (c :: k) = default ∅ (illegalKey ci) !! (c :: k))
        by (destruct il; [cbn; by rewrite lookup_insert_ne by congruence|done]).
      rewrite T. destruct (I3 _ Lk D) as [->|[X ->]]; [done|]. rewrite X. destruct (default ∅ (illegalKey ci) !! (c :: k)) eqn:F; [|done]. destruct (H (c :: k) ltac:(eauto)) as [_ G]. congruence.
Qed.

Lemma new_charIndex_ok : ci_ok new_charIndex.
Proof. split; [apply new_el_ok|]. intros k Hk. cbn in Hk. rewrite lookup_empty in Hk. by destruct Hk. Qed.

Lemma new_charIndex_lookup k : ci_Lookup k new_charIndex = None.
Proof. destruct k as [|c k]; [done|]. rewrite ci_lookup_eq by done. cbn [new_charIndex ci_root illegalKey]. destruct (lookup_new_el (c :: k)) as [->| ->]; [done|]. cbn. by rewrite lookup_empty. Qed.

(** ** The array of keys *)

(** A key of a rule without a negation. *)
Definition key_ok (k : list Z) : Prop := k <> [] /\ lower k /\ char_at k <> ch "!".

Lemma ha_search_plain k bn r (ha : hostArray) : Forall (fun e => key_ok e.1) ha -> ha_search k bn r ha = match ha_search k false None ha with Some b => Some b | None => r end.
Proof.
  intros F. induction F as [|[key b] ha [N [L X]] F IH]; [done|]. cbn [ha_search fst] in *. rewrite (proj2 (Z.eqb_neq _ _)) by done. rewrite andb_false_r. cbn [andb].
  by destruct (decide (key = k)).
Qed.

Lemma ha_search_app k (ha1 ha2 : hostArray) : ha_search k false None (ha1 ++ ha2) = match ha_search k false None ha1 with Some b => Some b | None => ha_search k false None ha2 end.
Proof. induction ha1 as [|[key b] ha1 IH]; [done|]. cbn [app ha_search andb]. by destruct (decide (key = k)). Qed.

Lemma ha_search_None k (ha : hostArray) : ha_search k false None ha = None <-> k ∉ ha.*1.
Proof. induction ha as [|[key b] ha IH]; [split; [intros _; apply not_elem_of_nil|done]|]. cbn [ha_search andb fmap list_fmap fst]. rewrite not_elem_of_cons. destruct (decide (key = k)); naive_solver. Qed.

(** The table an array of eight is turned into. *)
Lemma array_to_hash (ha : hostArray) (t : gmap (list Z) nat) k : NoDup ha.*1 ->
  foldl (fun t e => <[e.1 := e.2]> t) t ha !! k = match ha_search k false None ha with Some b => Some b | None => t !! k end.
Proof.
  revert t. induction ha as [|[key b] ha IH]; intros t Nd; [done|]. cbn [fmap list_fmap fst] in Nd. apply NoDup_cons in Nd as [N Nd]. cbn [foldl ha_search andb fst snd]. rewrite IH by done.
  destruct (decide (key = k)) as [->|D].
  - rewrite (proj2 (ha_search_None k ha)) by done. by rewrite lookup_insert_eq.
  - by rewrite lookup_insert_ne.
Qed.

(** ** What is behind a branch *)

Definition next_ok (n : NextLevel) : Prop :=
  match n with HOST_TERMINAL | HOST_HASH _ => True | HOST_INDEX ci => ci_ok ci | HOST_ARRAY ha => Forall (fun e => key_ok e.1) ha /\ NoDup ha.*1 end.

Lemma find_next_plain n k bn : next_ok n -> find_next n k bn = find_next n k false.
Proof. destruct n as [| | |ha]; [done|done|done|]. intros [F _]. cbn [find_next]. unfold ha_Lookup. rewrite ha_search_plain by done. by destruct (ha_search k false None ha). Qed.

Lemma insert_next_ok n key id : n <> HOST_TERMINAL -> next_ok n -> key_ok key -> find_next n key false = None ->
  next_ok (insert_next n key id) /\ forall k, lower k -> find_next (insert_next n key id) k false = if decide (k = key) then Some id else find_next n k false.
Proof.
  intros Nt O K F. destruct n as [|t|ci|ha]; [done| | |]; cbn [insert_next find_next next_ok] in *.
  - split; [done|]. intros k _. rewrite lookup_insert. case_decide; case_decide; congruence.
  - destruct K as [N [L _]]. by apply ci_insert_ok.
  - destruct O as [Fk Nd]. unfold ha_Lookup in *. unfold ha_Insert. apply ha_search_None in F as F'. destruct (Nat.leb_spec HOST_ARRAY_MAX (length ha)) as [Le|Lt].
    + split; [done|]. intros k _. cbn [find_next]. rewrite array_to_hash by done. case_decide as D.
      * rewrite D, F. by rewrite lookup_singleton_eq.
      * rewrite lookup_singleton_ne by done. by destruct (ha_search k false None ha).
    + cbn [next_ok find_next]. split.
      * split; [by apply Forall_app_2; [|apply Forall_singleton]|]. rewrite fmap_app. apply NoDup_app. split; [done|]. split; [|apply NoDup_singleton].
        intros x Hx. cbn. rewrite list_elem_of_singleton. by intros ->.
      * intros k _. unfold ha_Lookup. rewrite ha_search_app. change (ha_search k false None [(key, id)]) with (if decide (key = k) then Some id else None). destruct (decide (k = key)) as [D|D].
        -- rewrite D, F. by rewrite decide_True.
        -- destruct (ha_search k false None ha); [done|]. by rewrite decide_False by congruence.
Qed.

(** ** The tree *)

(** A path is the labels of a name from the right. *)
Definition step (bs : list HostBranch) (id : nat) (k : list Z) : option nat := b ← bs !! id; find_next (next_level b) k true.

Fixpoint walk (bs : list HostBranch) (id : nat) (path : list (list Z)) : option nat :=
  match path with [] => Some id | k :: path' => id' ← step bs id k; walk bs id' path' end.

Lemma walk_snoc bs id p k : walk bs id (p ++ [k]) = id' ← walk bs id p; step bs id' k.
Proof. revert id. induction p as [|a p IH]; intros id; cbn [app walk mbind option_bind]; [by destruct (step bs id k)|]. destruct (step bs id a); [apply IH|done]. Qed.

Lemma walk_app bs id p q : walk bs id (p ++ q) = id' ← walk bs id p; walk bs id' q.
Proof. revert id. induction p as [|a p IH]; intros id; [done|]. cbn [app walk]. destruct (step bs id a); [apply IH|done]. Qed.

(** The rules whose path ends at [p], in order. *)
Definition ends_at (p : list (list Z)) (paths : list (list (list Z))) : list nat := filter (fun j => paths !! j = Some p) (seq 0 (length paths)).

Lemma ends_at_nil p paths : p ∉ paths -> ends_at p paths = [].
Proof.
  intros N. apply filter_none. intros j _ E. by apply list_elem_of_lookup_2 in E.
Qed.

Lemma ends_at_snoc p paths q : ends_at p (paths ++ [q]) = ends_at p paths ++ (if decide (q = p) then [length paths] else []).
Proof.
  unfold ends_at. rewrite length_app. cbn [length]. rewrite Nat.add_1_r, seq_S, filter_app. f_equal.
  - apply filter_ext_in. intros j Hj. apply elem_of_seq in Hj. by rewrite lookup_app_l by lia.
  - rewrite filter_cons, filter_nil. cbn [Nat.add]. rewrite lookup_app_r, Nat.sub_diag by lia. cbn [lookup list_lookup]. repeat case_decide; try done; naive_solver.
Qed.

Record tree_ok (bs : list HostBranch) (paths : list (list (list Z))) : Prop := mkTree {
  tree_next : forall id b, bs !! id = Some b -> next_ok (next_level b);
  tree_node : forall p id, Forall lower p -> walk bs 0 p = Some id -> exists b, bs !! id = Some b /\ level b = length p /\ leaf_indexs b = ends_at p paths;
  tree_inj : forall p q id, Forall lower p -> Forall lower q -> walk bs 0 p = Some id -> walk bs 0 q = Some id -> p = q;
  tree_paths : forall p, p ∈ paths -> is_Some (walk bs 0 p);
  tree_lower : Forall (Forall lower) paths }.

Lemma step_None bs id k : (length bs <= id)%nat -> step bs id k = None.
Proof. intros L. unfold step. by rewrite lookup_ge_None_2. Qed.

(** A branch that stays where it is and leads to the same branches. *)
Lemma walk_ext bs bs' : (forall id k, step bs' id k = step bs id k) -> forall p id, walk bs' id p = walk bs id p.
Proof. intros E p. induction p as [|k p IH]; intros id; cbn [walk]; [done|]. rewrite E. destruct (step bs id k); [apply IH|done]. Qed.

(** The branch [from] at [p] gets a child behind [key]. *)
Lemma add_child bs paths p from b n key : tree_ok bs paths -> Forall lower p -> walk bs 0 p = Some from -> bs !! from = Some b -> key_ok key ->
  n <> HOST_TERMINAL -> next_ok n -> (forall k, find_next n k false = find_next (next_level b) k false) -> find_next (next_level b) key false = None ->
  let bs' := <[from := mkBranch (level b) (insert_next n key (length bs)) (leaf_indexs b)]> bs ++ [new_branch (S (level b))] in
  tree_ok bs' paths /\ walk bs' 0 (p ++ [key]) = Some (length bs).
Proof.
  intros T Lp W B K Nt On En Fk bs'. pose proof K as [_ [Lk _]]. destruct (insert_next_ok n key (length bs) Nt On K ltac:(by rewrite En)) as [On' Fn].
  assert (Lf : (from < length bs)%nat) by (by eapply lookup_lt_Some).
  assert (Lb : forall id, bs' !! id = if decide (id = length bs) then Some (new_branch (S (level b))) else if decide (id = from) then Some (mkBranch (level b) (insert_next n key (length bs)) (leaf_indexs b)) else bs !! id).
  { intros id. unfold bs'. destruct (decide (id = length bs)) as [->|D].
    - rewrite lookup_app_r by (rewrite length_insert; lia). by rewrite length_insert, Nat.sub_diag.
    - destruct (decide (id < length bs)%nat).
      + rewrite lookup_app_l by (rewrite length_insert; lia). rewrite list_lookup_insert. repeat case_decide; try done; naive_solver.
      + rewrite decide_False by lia. rewrite (lookup_ge_None_2 bs) by lia. apply lookup_ge_None_2. rewrite length_app, length_insert. cbn. lia. }
  assert (S' : forall id k, lower k -> step bs' id k = if decide (id = from /\ k = key) then Some (length bs) else step bs id k).
  { intros id k L. unfold step. rewrite Lb. destruct (decide (id = length bs)) as [->|D].
    - rewrite decide_False by lia. by rewrite (lookup_ge_None_2 bs).
    - destruct (decide (id = from)) as [->|D']; [|by rewrite decide_False by naive_solver]. cbn [option_bind mbind next_level]. rewrite find_next_plain by done. rewrite Fn by done. rewrite En, B. cbn [option_bind mbind].
      rewrite (find_next_plain (next_level b) k true) by (by eapply tree_next). repeat case_decide; naive_solver. }
  assert (X : walk bs 0 (p ++ [key]) = None) by (rewrite walk_snoc, W; unfold step; cbn [mbind option_bind]; rewrite B; cbn [mbind option_bind]; by rewrite find_next_plain by (by eapply tree_next)).
  assert (W' : forall q, Forall lower q -> walk bs' 0 q = if decide (q = p ++ [key]) then Some (length bs) else walk bs 0 q).
  { intros q. induction q as [|k q IH] using rev_ind; intros L; [rewrite decide_False; [done|by destruct p]|]. apply Forall_app in L as [Lq Lk1]. apply (proj1 (Forall_singleton lower k)) in Lk1. rewrite !walk_snoc, IH by done.
    destruct (decide (q = p ++ [key])) as [->|Nq]; cbn [mbind option_bind].
    - rewrite X. rewrite decide_False by (intros E; apply (f_equal length) in E; rewrite !length_app in E; cbn in E; lia). cbn [mbind option_bind]. rewrite S' by exact Lk1. rewrite decide_False by lia. by apply step_None.
    - destruct (walk bs 0 q) as [i|] eqn:Wq; cbn [mbind option_bind].
      + rewrite S' by done. destruct (decide (i = from /\ k = key)) as [[-> ->]|Nik].
        * by rewrite decide_True by (f_equal; by eapply tree_inj).
        * destruct (decide (q ++ [k] = p ++ [key])) as [E|]; [|done]. apply app_inj_2 in E as [-> [= ->]]; [|done]. naive_solver.
      + rewrite decide_False; [done|]. intros E. apply app_inj_2 in E as [-> _]; [|done]. congruence. }
  split; [|by rewrite W', decide_True by (rewrite ?Forall_app, ?Forall_singleton; done)]. constructor.
  - intros id b'. rewrite Lb. repeat case_decide; [intros [= <-]; done|intros [= <-]; done|eapply tree_next; done].
  - intros q id L. rewrite W' by done. case_decide as D.
    + intros [= <-]. rewrite Lb, decide_True by done. eexists. split; [done|]. destruct (tree_node _ _ T p from Lp W) as (b0 & B0 & L0 & _). rewrite B in B0. injection B0 as <-. cbn [level leaf_indexs new_branch].
      rewrite D, length_app, L0. cbn [length]. split; [lia|]. symmetry. unfold ends_at.
      apply ends_at_nil. intros E. apply (tree_paths _ _ T) in E. rewrite X in E. by destruct E.
    + intros Wq. destruct (tree_node _ _ T q id L Wq) as (b0 & B0 & L0 & E0). rewrite Lb. rewrite decide_False by (apply lookup_lt_Some in B0; lia). case_decide as D'; [|eauto].
      subst id. eexists. split; [done|]. rewrite B in B0. injection B0 as <-. done.
  - intros q1 q2 id L1 L2. rewrite !W' by done.
    assert (G : forall q, Forall lower q -> walk bs 0 q <> Some (length bs)).
    { intros q L Wq. destruct (tree_node _ _ T q _ L Wq) as (b0 & B0 & _). apply lookup_lt_Some in B0. lia. }
    case_decide as D1; case_decide as D2.
    + congruence.
    + intros [= <-] Y. by apply G in Y.
    + intros Y [= <-]. by apply G in Y.
    + by apply (tree_inj _ _ T).
  - intros q Hq. pose proof (proj1 (Forall_forall _ _) (tree_lower _ _ T) q Hq) as Lq. rewrite W' by done. case_decide; [eauto|by apply (tree_paths _ _ T)].
  - apply (tree_lower _ _ T).
Qed.

(** A rule is put at the branch of its path. *)
Lemma add_leaf bs paths p cur b : tree_ok bs paths -> Forall lower p -> walk bs 0 p = Some cur -> bs !! cur = Some b ->
  tree_ok (<[cur := mkBranch (level b) (next_level b) (leaf_indexs b ++ [length paths])]> bs) (paths ++ [p]).
Proof.
  intros T L W B. set (bs' := <[cur := _]> bs). assert (Lc : (cur < length bs)%nat) by (by eapply lookup_lt_Some).
  assert (E : forall q id, walk bs' id q = walk bs id q).
  { intros q id. apply walk_ext. intros i k. unfold step, bs'. rewrite list_lookup_insert. case_decide as D; [|done]. destruct D as [-> _]. by rewrite B. }
  constructor.
  - intros id b'. unfold bs'. rewrite list_lookup_insert. case_decide as D; [intros [= <-]; cbn [next_level]|]; eapply (tree_next _ _ T); done.
  - intros q id Lq. rewrite E. intros Wq. destruct (tree_node _ _ T q id Lq Wq) as (b0 & B0 & L0 & E0). unfold bs'. rewrite list_lookup_insert, ends_at_snoc. case_decide as D.
    + destruct D as [-> _]. eexists. split; [done|]. rewrite B in B0. injection B0 as <-. cbn [level leaf_indexs]. rewrite E0. split; [done|]. f_equal. rewrite decide_True; [done|]. by eapply tree_inj.
    + exists b0. rewrite decide_False, app_nil_r; [done|]. intros ->. naive_solver.
  - intros q1 q2 id L1 L2. rewrite !E. by apply (tree_inj _ _ T).
  - intros q. rewrite E, elem_of_app, list_elem_of_singleton. intros [H| ->]; [by apply (tree_paths _ _ T)|by rewrite W].
  - apply Forall_app_2; [apply (tree_lower _ _ T)|by apply Forall_singleton].
Qed.

Definition rule_toks (match_data : list Z) : list (list Z) := tokens (Initialize (new_Tokenizer (chars ".")) (LowerCaseStr match_data) false).2.

Definition rule_path (match_data : list Z) : list (list Z) := take HOST_TABLE_DEPTH (rev (rule_toks match_data)).

Lemma keys_lower toks : Forall key_ok toks -> Forall lower (rev toks).
Proof. intros F. apply Forall_rev. eapply Forall_impl; [exact F|]. by intros k (_ & L & _). Qed.

Section table.
Context {D : Type}.
Implicit Types (hl : HostLookup D).

Lemma insert_branch_ok cur b tok hl : branches hl !! cur = Some b -> InsertBranch cur tok hl =
  Some (length (branches hl), set_branches (<[cur := mkBranch (level b) (insert_next (next_level b) tok (length (branches hl))) (leaf_indexs b)]> (branches hl) ++ [new_branch (S (level b))]) hl).
Proof. intros B. unfold InsertBranch. by rewrite B. Qed.

Lemma new_level_ok cur b tok hl : branches hl !! cur = Some b -> TableNewLevel cur tok hl =
  Some (length (branches hl), set_branches (<[cur := mkBranch (level b) (insert_next (if (level b =? 0)%nat then HOST_INDEX new_charIndex else HOST_ARRAY []) tok (length (branches hl))) (leaf_indexs b)]> (branches hl) ++ [new_branch (S (level b))]) hl).
Proof.
  intros B. unfold TableNewLevel. rewrite B. cbn [mbind option_bind]. assert (L : (cur < length (branches hl))%nat) by (by eapply lookup_lt_Some).
  erewrite insert_branch_ok by (by apply list_lookup_insert_eq). cbn [branches set_branches level next_level leaf_indexs]. by rewrite length_insert, list_insert_insert_eq.
Qed.

Lemma descend_ok k toks p rest cur hl paths : tree_ok (branches hl) paths -> rev toks = p ++ rest -> (length p + k = HOST_TABLE_DEPTH)%nat -> walk (branches hl) 0 p = Some cur ->
  Forall key_ok toks -> exists cur' bs', descend k toks cur hl = Some (cur', set_branches bs' hl) /\ tree_ok bs' paths /\ walk bs' 0 (take HOST_TABLE_DEPTH (rev toks)) = Some cur'.
Proof.
  revert p rest cur hl. induction k as [|k IH]; intros p rest cur hl T E L W K.
  - exists cur, (branches hl). split; [by destruct hl|]. split; [done|]. by rewrite E, take_app_length' by lia.
  - assert (Lp : Forall lower p) by (pose proof (keys_lower _ K) as F; rewrite E in F; by apply Forall_app in F as [F _]).
    destruct (tree_node _ _ T p cur Lp W) as (b & B & Lv & _). cbn [descend]. rewrite B. cbn [mbind option_bind]. rewrite Lv.
    assert (Lt : length toks = (length p + length rest)%nat) by (by rewrite <- length_rev, E, length_app).
    destruct rest as [|tok rest].
    + rewrite (proj2 (Nat.eqb_eq _ _)) by (cbn in Lt; lia). exists cur, (branches hl). split; [by destruct hl|]. split; [done|]. rewrite E, app_nil_r, take_ge by lia. done.
    + rewrite (proj2 (Nat.eqb_neq _ _)) by (cbn in Lt; lia). replace (HOST_TABLE_DEPTH - S k)%nat with (length p) by lia. rewrite (proj2 (Nat.ltb_lt _ _)) by (cbn in Lt; lia).
      assert (Tk : toks !! (length toks - length p - 1)%nat = Some tok).
      { assert (R : rev toks !! length p = Some tok) by (by rewrite E, lookup_app_r, Nat.sub_diag by lia). rewrite rev_alt in R. change (rev_append toks []) with (reverse toks) in R.
        rewrite reverse_lookup in R by (cbn in Lt; lia). rewrite <- R. f_equal. lia. }
      rewrite Tk. cbn [mbind option_bind].
      assert (Kt : key_ok tok) by (apply list_elem_of_lookup_2 in Tk; by apply (proj1 (Forall_forall _ _) K)).
      assert (Nx : next_ok (next_level b)) by (by eapply tree_next).
      assert (E' : rev toks = (p ++ [tok]) ++ rest) by (by rewrite <- app_assoc).
      assert (Lk : (length (p ++ [tok]) + k = HOST_TABLE_DEPTH)%nat) by (rewrite length_app; cbn; lia).
      assert (New : forall n, n <> HOST_TERMINAL -> next_ok n -> (forall k, find_next n k false = find_next (next_level b) k false) -> find_next (next_level b) tok false = None ->
        exists cur' bs', descend k toks (length (branches hl)) (set_branches (<[cur := mkBranch (level b) (insert_next n tok (length (branches hl))) (leaf_indexs b)]> (branches hl) ++ [new_branch (S (level b))]) hl) = Some (cur', set_branches bs' hl) /\
          tree_ok bs' paths /\ walk bs' 0 (take HOST_TABLE_DEPTH (rev toks)) = Some cur').
      { intros n Nt On En Fn. destruct (add_child _ _ p cur b n tok T Lp W B Kt Nt On En Fn) as [T' W'].
        destruct (IH (p ++ [tok]) rest _ (set_branches _ hl) T' E' Lk W' K) as (c' & bs2 & X). exists c', bs2. exact X. }
      assert (Old : next_level b <> HOST_TERMINAL -> exists cur' bs',
        (next ← FindNextLevel cur tok false hl; match next with None => '(cur', hl') ← InsertBranch cur tok hl; descend k toks cur' hl' | Some cur' => descend k toks cur' hl end) = Some (cur', set_branches bs' hl) /\
          tree_ok bs' paths /\ walk bs' 0 (take HOST_TABLE_DEPTH (rev toks)) = Some cur').
      { intros Nt. unfold FindNextLevel. rewrite B. cbn [mbind option_bind]. destruct (find_next (next_level b) tok false) as [cur'|] eqn:Fn.
        - apply (IH (p ++ [tok]) rest); [done|done|done| |done]. rewrite walk_snoc, W. cbn [mbind option_bind]. unfold step. rewrite B. cbn [mbind option_bind]. by rewrite find_next_plain.
        - erewrite insert_branch_ok by done. by apply New. }
      destruct (next_level b) as [|t|ci|ha] eqn:En; [|by apply Old|by apply Old|by apply Old].
      erewrite new_level_ok by done. cbn [mbind option_bind]. rewrite Lv in New |- *. destruct (length p =? 0)%nat; (apply New; [done| |intros kk; cbn [find_next]; first [by rewrite new_charIndex_lookup|done]|done]).
      * apply new_charIndex_ok.
      * split; constructor.
Qed.

(** ** Entries *)

(** A rule: its name, whether it is for a domain, and its data. *)
Definition Rule : Type := list Z * bool * D.

Definition rule_name (r : Rule) : list Z := r.1.1.
Definition rule_domain (r : Rule) : bool := r.1.2.

Definition rule_leaf (r : Rule) : HostLeaf D :=
  let is_not := char_at (rule_name r) =? ch "!" in
  mkLeaf (leaf_kind (length (rule_toks (rule_name r))) (rule_domain r)) (rule_name r) (Z.of_nat (length (rule_name r)) - Zbool is_not) is_not (Some r.2).

(** A table for [n] rules in which [rules] are. *)
Record table_of (n : nat) (rules : list Rule) (hl : HostLookup D) : Prop := mkTable {
  table_tree : tree_ok (branches hl) (rule_path ∘ rule_name <$> rules);
  table_leaf : forall i r, rules !! i = Some r -> leaf_array hl !! i = Some (rule_leaf r);
  table_size : length (leaf_array hl) = n /\ array_len hl = Z.of_nat n;
  table_num : num_el hl = Z.of_nat (length rules) }.

Lemma allocate_ok n : table_of n [] (AllocateSpace n new_HostLookup).
Proof.
  constructor; [|done|split; [apply length_replicate|done]|done]. cbn [AllocateSpace branches new_HostLookup].
  assert (S0 : forall id k, step [new_branch 0] id k = None) by (intros [|id] k; done).
  assert (W0 : forall p id, walk [new_branch 0] 0 p = Some id -> p = [] /\ id = 0%nat) by (intros [|k p] id; [by intros [= <-]|cbn [walk]; by rewrite S0]).
  constructor.
  - intros [|id] b; [by intros [= <-]|done].
  - intros p id _ H. apply W0 in H as [-> ->]. by exists (new_branch 0).
  - intros p q id _ _ H1 H2. apply W0 in H1 as [-> _], H2 as [-> _]. done.
  - intros p H. by apply not_elem_of_nil in H.
  - constructor.
Qed.

Lemma new_entry_ok n rules (r : Rule) hl : table_of n rules hl -> (length rules < n)%nat -> Forall key_ok (rule_toks (rule_name r)) ->
  exists hl', NewEntry (rule_name r) (rule_domain r) r.2 hl = Some hl' /\ table_of n (rules ++ [r]) hl'.
Proof.
  intros [T Lf [Ln La] Nm] L K. unfold NewEntry. rewrite Nm, La. rewrite (proj2 (Z.ltb_ge _ _)), (proj2 (Z.leb_gt _ _)) by lia. cbn [orb]. rewrite Nat2Z.id. set (leaf := mkLeaf LEAF_INVALID _ _ _ _).
  unfold TableInsert. fold (rule_toks (rule_name r)). set (hl1 := set_leaves _ hl).
  destruct (descend_ok HOST_TABLE_DEPTH (rule_toks (rule_name r)) [] (rev (rule_toks (rule_name r))) 0 hl1 _ T eq_refl eq_refl eq_refl K) as (cur & bs & -> & T' & W). cbn [mbind option_bind]. fold (rule_path (rule_name r)) in W.
  assert (Lp : Forall lower (rule_path (rule_name r))) by (apply Forall_take, keys_lower; done).
  destruct (tree_node _ _ T' _ _ Lp W) as (b & B & Lv & _). cbn [leaf_array set_branches set_leaves branches hl1]. rewrite list_lookup_insert_eq by lia. cbn [mbind option_bind]. rewrite B. cbn [mbind option_bind leaf_match leaf_len isNot opaque_data leaf].
  eexists. split; [done|]. constructor; cbn [branches set_branches leaf_array array_len num_el set_leaves].
  - rewrite fmap_app. pose proof (add_leaf _ _ _ _ _ T' Lp W B) as X. rewrite length_fmap in X. exact X.
  - intros i r' Hr. rewrite list_insert_insert_eq. rewrite list_lookup_insert. case_decide as C.
    + destruct C as [<- _]. rewrite lookup_app_r, Nat.sub_diag in Hr by lia. injection Hr as <-. done.
    + apply Lf. apply lookup_lt_Some in Hr as Li. rewrite length_app in Li. cbn in Li. rewrite lookup_app_l in Hr; [done|]. apply lookup_lt_Some in Hr. rewrite length_app in Hr. cbn in Hr.
      destruct (decide (i = length rules)); [|lia]. subst i. rewrite Ln in C. lia.
  - by rewrite !length_insert.
  - rewrite length_app. cbn. lia.
Qed.

(** The rules one after the other. *)
Fixpoint add_rules (rules : list Rule) (hl : HostLookup D) : option (HostLookup D) :=
  match rules with [] => Some hl | r :: rules' => hl' ← NewEntry (rule_name r) (rule_domain r) r.2 hl; add_rules rules' hl' end.

Lemma add_rules_ok n rules : (length rules <= n)%nat -> Forall (fun r => Forall key_ok (rule_toks (rule_name r))) rules ->
  exists hl, add_rules rules (AllocateSpace n new_HostLookup) = Some hl /\ table_of n rules hl.
Proof.
  intros L F. assert (G : forall done hl, table_of n done hl -> (length done + length rules <= n)%nat -> exists hl', add_rules rules hl = Some hl' /\ table_of n (done ++ rules) hl').
  { clear L. induction F as [|r rules K F IH]; intros dn hl T L; cbn [add_rules length] in *; [exists hl; by rewrite app_nil_r|].
    destruct (new_entry_ok n dn r hl T ltac:(lia) K) as (hl1 & -> & T1). cbn [mbind option_bind]. destruct (IH _ hl1 T1) as (hl2 & -> & T2); [rewrite length_app; cbn; lia|].
    exists hl2. by rewrite <- app_assoc in T2. }
  by apply (G [] _ (allocate_ok n)).
Qed.
End table.

#[global] Arguments Rule : clear implicits.
