(* ===== verification/HostNames.v ===== *)
(** Names made of labels: what the comparisons and the tokens of [HostLookup] are on
    them. *)

From S2P Require Import Prelude ParseRules LibC Tokenizer HostLookup HostLookupFacts.
From Stdlib Require Import Ascii.

(** A name as its labels, the last first. *)
Fixpoint split_dots (s : list Z) : list (list Z) :=
  match s with
  | [] => [[]]
  | c :: s' => if c =? ch "." then [] :: split_dots s' else match split_dots s' with l :: ls => (c :: l) :: ls | [] => [[c]] end
  end.

Definition labels (s : list Z) : list (list Z) := rev (split_dots s).

(** The name that has these labels. *)
Fixpoint dotted (p : list (list Z)) : list Z :=
  match p with [] => [] | l :: rest => match rest with [] => l | _ => dotted rest ++ ch "." :: l end end.

Definition label_char (c : Z) : bool := negb (c =? ch ".") && (0 <? c) && (c <? 256).

Definition label_ok (l : list Z) : Prop := l <> [] /\ Forall (fun c => label_char c = true) l.

(** A name without empty labels. *)
Definition name_ok (s : list Z) : bool := forallb (fun l => negb (bool_decide (l = [])) && forallb label_char l) (labels s).

Lemma dotted_cons l p : p <> [] -> dotted (l :: p) = dotted p ++ ch "." :: l.
Proof. by destruct p. Qed.

Lemma dotted_snoc p l : p <> [] -> dotted (p ++ [l]) = l ++ ch "." :: dotted p.
Proof.
  induction p as [|x p IH]; intros N; [done|]. destruct p as [|y p]; [done|]. cbn [app]. rewrite dotted_cons by done. change (y :: p ++ [l]) with ((y :: p) ++ [l]). rewrite IH by done.
  rewrite (dotted_cons x (y :: p)) by done. by rewrite <- app_assoc.
Qed.

Lemma split_dots_ne s : split_dots s <> [].
Proof. destruct s as [|c s]; [done|]. cbn. destruct (c =? ch "."); [done|]. by destruct (split_dots s). Qed.

Lemma dotted_last p l c : dotted (p ++ [c :: l]) = c :: dotted (p ++ [l]).
Proof. destruct (decide (p = [])) as [->|N]; [done|]. by rewrite !dotted_snoc. Qed.

Lemma dotted_labels s : dotted (labels s) = s.
Proof.
  unfold labels. induction s as [|c s IH]; [done|]. cbn [split_dots]. destruct (Z.eqb_spec c (ch ".")) as [->|N]; cbn [rev].
  - rewrite dotted_snoc; [by rewrite IH|]. intros E. apply (split_dots_ne s). by rewrite <- (rev_involutive (split_dots s)), E.
  - destruct (split_dots s) as [|l ls] eqn:E; [by apply split_dots_ne in E|]. cbn [rev] in *. by rewrite dotted_last, IH.
Qed.

Lemma no_dot l : label_ok l -> Forall (fun c => c <> ch ".") l.
Proof. intros [_ F]. eapply Forall_impl; [exact F|]. unfold label_char. intros c X. by bsimp. Qed.

Lemma label_bytes l : label_ok l -> Forall (fun c => 0 < c < 256) l.
Proof. intros [_ F]. eapply Forall_impl; [exact F|]. unfold label_char. intros c X. by bsimp. Qed.

Lemma split_dots_label l s : Forall (fun c => c <> ch ".") l -> split_dots (l ++ ch "." :: s) = l :: split_dots s /\ split_dots l = [l].
Proof. induction 1 as [|c l N F [IH1 IH2]]; [done|]. cbn [app split_dots]. rewrite (proj2 (Z.eqb_neq _ _)) by done. by rewrite IH1, IH2. Qed.

Lemma labels_dotted p : p <> [] -> Forall label_ok p -> labels (dotted p) = p.
Proof.
  intros N F. unfold labels. induction p as [|l p IH] using rev_ind; [done|]. apply Forall_app in F as [F L]. apply (proj1 (Forall_singleton _ _)) in L. destruct (decide (p = [])) as [->|Np].
  - cbn [app dotted]. by rewrite (proj2 (split_dots_label l [] (no_dot l L))).
  - rewrite dotted_snoc by done. rewrite (proj1 (split_dots_label l _ (no_dot l L))). cbn [rev]. by rewrite IH.
Qed.

Lemma name_ok_labels s : name_ok s = true <-> Forall label_ok (labels s).
Proof.
  unfold name_ok. rewrite forallb_forall, <- List.Forall_forall. rewrite !Forall_forall. split; intros H l Hl; specialize (H l Hl).
  - bsimp. split; [by case_bool_decide|]. rewrite forallb_forall, <- List.Forall_forall in H0. done.
  - destruct H as [N F]. rewrite bool_decide_false by done. cbn. rewrite forallb_forall, <- List.Forall_forall. done.
Qed.

Lemma labels_ne s : labels s <> [].
Proof. intros E. apply (split_dots_ne s). unfold labels in E. by rewrite <- (rev_involutive (split_dots s)), E. Qed.

(** ** Case *)

Definition lowers (p : list (list Z)) : list (list Z) := LowerCaseStr <$> p.

Lemma lower_range c : label_char c = true -> label_char (ink_tolower c) = true.
Proof. unfold label_char, ink_tolower, in_range. intros H. bsimp. destruct ((65 <=? c) && (c <=? 90)) eqn:E; bsimp; [|by rewrite (proj2 (Z.eqb_neq _ _)), (proj2 (Z.ltb_lt 0 c)), (proj2 (Z.ltb_lt c 256)) by done].
  change (ch ".") with 46 in *. rewrite (proj2 (Z.eqb_neq _ _)), (proj2 (Z.ltb_lt 0 _)), (proj2 (Z.ltb_lt _ 256)) by lia. done. Qed.

Lemma lower_label l : label_ok l -> label_ok (LowerCaseStr l).
Proof. intros [N F]. split; [by destruct l|]. unfold LowerCaseStr. apply Forall_fmap. eapply Forall_impl; [exact F|]. apply lower_range. Qed.

Lemma lower_idem l : lower (LowerCaseStr l).
Proof. unfold lower, LowerCaseStr. rewrite <- list_fmap_compose. apply list_fmap_ext. intros _ c _. unfold compose, ink_tolower, in_range. repeat case_match; bsimp; lia. Qed.

Lemma lower_dotted p : LowerCaseStr (dotted p) = dotted (lowers p).
Proof.
  unfold LowerCaseStr, lowers. induction p as [|l p IH]; [done|]. destruct (decide (p = [])) as [->|N]; [done|]. rewrite dotted_cons by done. cbn [fmap list_fmap]. rewrite dotted_cons by (by destruct p).
  rewrite fmap_app, IH. done.
Qed.

Lemma lower_labels p : Forall label_ok p -> Forall label_ok (lowers p).
Proof. intros F. unfold lowers. apply Forall_fmap. eapply Forall_impl; [exact F|]. apply lower_label. Qed.

Lemma labels_lower s : name_ok s = true -> labels (LowerCaseStr s) = lowers (labels s).
Proof.
  intros H. apply name_ok_labels in H. rewrite <- (dotted_labels s) at 1. rewrite lower_dotted. apply labels_dotted; [|by apply lower_labels].
  pose proof (labels_ne s). unfold lowers. by destruct (labels s).
Qed.

Lemma c_tolower_inj a b : 0 <= a < 256 -> 0 <= b < 256 -> c_tolower a = c_tolower b <-> ink_tolower a = ink_tolower b.
Proof.
  assert (G : forall c, 0 <= c < 256 -> c_tolower c = wraps 8 (ink_tolower c) /\ wrapu 8 (wraps 8 (ink_tolower c)) = ink_tolower c).
  { intros c Hc. pose proof (forallZ_spec (fun c => (c_tolower c =? wraps 8 (ink_tolower c)) && (wrapu 8 (wraps 8 (ink_tolower c)) =? ink_tolower c)) 256%nat 0 c ltac:(by vm_compute) ltac:(lia)) as F.
    cbv beta in F. bsimp. done. }
  intros Ha Hb. destruct (G a Ha) as [-> Ga]. destruct (G b Hb) as [-> Gb]. split; [|by intros ->]. intros E. by rewrite <- Ga, <- Gb, E.
Qed.

(** ** The comparisons *)

(** The end of a name, or the dot behind a label. *)
Definition at_dot (s : list Z) : Prop := s = [] \/ exists s', s = ch "." :: s' /\ s' <> [].

Lemma c_tolower_dot c : label_char c = true -> c_tolower c <> c_tolower (ch ".").
Proof.
  intros H E. unfold label_char in H. change (ch ".") with 46 in *. bsimp. apply (proj1 (c_tolower_inj c 46 ltac:(lia) ltac:(lia))) in E. unfold ink_tolower, in_range in E.
  change (if (65 <=? 46) && (46 <=? 90) then 46 + 32 else 46) with 46 in E. destruct ((65 <=? c) && (c <=? 90)) eqn:X; bsimp; lia.
Qed.

(** A label of each, from its end. *)
Lemma walk_label u v X Y b : Forall (fun c => label_char c = true) u -> Forall (fun c => label_char c = true) v -> label_char b = true -> at_dot X -> at_dot Y ->
  exists b', label_char b' = true /\ domain_walk (u ++ X) (v ++ Y) b = if decide (LowerCaseStr u = LowerCaseStr v) then domain_walk X Y b' else false.
Proof.
  intros Fu. revert v b. induction Fu as [|c u Hc Fu IH]; intros v b Fv Hb AX AY.
  - destruct v as [|d v]; [by exists b|]. exists b. split; [done|]. apply Forall_cons in Fv as [Hd Fv]. rewrite decide_False by done. cbn [app].
    destruct AX as [->|(X' & -> & _)]; cbn [domain_walk].
    + unfold label_char in Hb, Hd. bsimp. rewrite (proj2 (Z.eqb_neq b _)), (proj2 (Z.eqb_neq d _)) by done. done.
    + rewrite (proj2 (Z.eqb_neq _ _)) by (intros E; by apply (c_tolower_dot d Hd)). by destruct X'.
  - destruct v as [|d v].
    + exists b. split; [done|]. rewrite decide_False by done. cbn [app]. destruct AY as [->|(Y' & -> & _)]; cbn [domain_walk].
      * destruct (u ++ X); [|done]. unfold label_char in Hc. bsimp. by rewrite (proj2 (Z.eqb_neq _ _)).
      * rewrite (proj2 (Z.eqb_neq _ _)) by (by apply c_tolower_dot). by destruct (u ++ X).
    + apply Forall_cons in Fv as [Hd Fv]. cbn [app domain_walk]. assert (Bc : 0 <= c < 256 /\ 0 <= d < 256) by (unfold label_char in *; bsimp; lia). destruct Bc as [Bc Bd].
      destruct (Z.eqb_spec (c_tolower c) (c_tolower d)) as [E|E].
      * destruct (IH v c Fv Hc AX AY) as (b' & Hb' & ->). exists b'. split; [done|]. apply (proj1 (c_tolower_inj c d Bc Bd)) in E.
        assert (I : LowerCaseStr (c :: u) = LowerCaseStr (d :: v) <-> LowerCaseStr u = LowerCaseStr v) by (unfold LowerCaseStr; cbn [fmap list_fmap]; rewrite E; split; [by intros [= ->]|by intros ->]).
        destruct (decide (LowerCaseStr u = LowerCaseStr v)), (decide (LowerCaseStr (c :: u) = LowerCaseStr (d :: v))); destruct (u ++ X); first [reflexivity|tauto].
      * exists b. split; [done|]. rewrite decide_False; [by destruct (u ++ X)|]. unfold LowerCaseStr. cbn [fmap list_fmap]. intros [= E' _]. apply E. by apply (proj2 (c_tolower_inj c d Bc Bd)).
Qed.

(** The characters of a name from its end. *)
Lemma rev_dotted_cons l p : p <> [] -> rev (dotted (l :: p)) = rev l ++ ch "." :: rev (dotted p).
Proof. intros N. rewrite dotted_cons by done. rewrite rev_app_distr. cbn [rev]. by rewrite <- app_assoc. Qed.

Lemma dotted_ne p : p <> [] -> Forall label_ok p -> dotted p <> [].
Proof. intros N F. destruct p as [|l p]; [done|]. apply Forall_cons in F as [[Nl _] _]. destruct (decide (p = [])) as [->|Np]; [done|]. rewrite dotted_cons by done. intros E. by apply app_eq_nil in E as [_ [=]]. Qed.

Lemma rev_dotted_tail l p : Forall label_ok p -> exists X, rev (dotted (l :: p)) = rev l ++ X /\ at_dot X /\ X = match p with [] => [] | _ => ch "." :: rev (dotted p) end.
Proof.
  intros F. destruct (decide (p = [])) as [->|N]; [exists []; rewrite app_nil_r; cbn; unfold at_dot; auto|]. exists (ch "." :: rev (dotted p)). rewrite rev_dotted_cons by done.
  split; [done|]. split; [|by destruct p]. right. eexists. split; [done|]. intros E. apply (dotted_ne p N F). by rewrite <- (rev_involutive (dotted p)), E.
Qed.

Lemma lower_rev l : LowerCaseStr (rev l) = rev (LowerCaseStr l).
Proof. unfold LowerCaseStr. rewrite !rev_alt. change (rev_append l []) with (reverse l). change (rev_append (ink_tolower <$> l) []) with (reverse (ink_tolower <$> l)). by rewrite fmap_reverse. Qed.

Lemma walk_names T P b : T <> [] -> P <> [] -> Forall label_ok T -> Forall label_ok P -> label_char b = true \/ b = ch "." ->
  domain_walk (rev (dotted T)) (rev (dotted P)) b = bool_decide (lowers T `prefix_of` lowers P).
Proof.
  intros NT NP FT. revert P b NP NT. induction FT as [|t T [Nt Ft] FT IH]; intros P b NP NT FP Hb; [done|]. destruct P as [|q P]; [done|]. apply Forall_cons in FP as [[Nq Fq] FP].
  destruct (rev_dotted_tail t T FT) as (X & -> & AX & EX). destruct (rev_dotted_tail q P FP) as (Y & -> & AY & EY).
  assert (S0 : forall b, label_char b = true -> domain_walk (rev t ++ X) (rev q ++ Y) b = bool_decide (lowers (t :: T) `prefix_of` lowers (q :: P))).
  { clear b Hb. intros b Hb. destruct (walk_label (rev t) (rev q) X Y b ltac:(by apply Forall_rev) ltac:(by apply Forall_rev) Hb AX AY) as (b' & Hb' & ->). rewrite !lower_rev.
    assert (Er : rev (LowerCaseStr t) = rev (LowerCaseStr q) <-> LowerCaseStr t = LowerCaseStr q) by (split; [intros E; apply (f_equal (@rev _)) in E; by rewrite !rev_involutive in E|by intros ->]).
    unfold lowers. cbn [fmap list_fmap]. case_decide as D.
    - apply Er in D. rewrite D. assert (Ep : forall A B : list (list Z), (LowerCaseStr q :: A) `prefix_of` (LowerCaseStr q :: B) <-> A `prefix_of` B) by (intros; split; [by intros ?%prefix_cons_inv_2|by apply prefix_cons]).
      rewrite (bool_decide_ext _ _ (Ep _ _)). destruct T as [|t' T].
      + rewrite EX. destruct P as [|q' P]; rewrite EY; [done|]. cbn [domain_walk]. rewrite Z.eqb_refl, orb_true_r. symmetry. apply bool_decide_true, prefix_nil.
      + rewrite EX. destruct P as [|q' P]; rewrite EY.
        * cbn [domain_walk]. pose proof (dotted_ne (t' :: T) ltac:(done) FT) as Nd. destruct (rev (dotted (t' :: T))) eqn:Z0; [apply (f_equal (@rev _)) in Z0; by rewrite rev_involutive in Z0|].
          symmetry. apply bool_decide_false. intros H. by apply prefix_nil_not in H.
        * cbn [domain_walk]. rewrite Z.eqb_refl. transitivity (domain_walk (rev (dotted (t' :: T))) (rev (dotted (q' :: P))) (ch ".")); [by destruct (rev (dotted (t' :: T)))|].
          apply IH; [done|done|done|by right].
    - symmetry. apply bool_decide_false. intros H. apply prefix_cons_inv_1 in H. tauto. }
  destruct Hb as [Hb| ->]; [by apply S0|]. rewrite <- (S0 (ch "a")) by done. assert (Nr : rev t <> []) by (intros E; apply Nt; by rewrite <- (rev_involutive t), E).
  destruct (rev t) as [|c u]; [done|]. assert (Nr' : rev q <> []) by (intros E; apply Nq; by rewrite <- (rev_involutive q), E). destruct (rev q) as [|d v]; [done|]. cbn [app domain_walk]. by destruct (u ++ X).
Qed.

Lemma domaincmp_names T P : T <> [] -> P <> [] -> Forall label_ok T -> Forall label_ok P -> domaincmp (dotted P) (dotted T) = bool_decide (lowers T `prefix_of` lowers P).
Proof.
  intros NT NP FT FP. rewrite <- (walk_names T P (ch "a")) by auto. unfold domaincmp.
  assert (G : forall p, p <> [] -> Forall label_ok p -> exists c r, rev (dotted p) = c :: r /\ label_char c = true).
  { intros [|l p] N F; [done|]. apply Forall_cons in F as [[Nl Fl] F]. destruct (rev_dotted_tail l p F) as (X & -> & _). apply Forall_rev in Fl.
    assert (Nr : rev l <> []) by (intros E; apply Nl; by rewrite <- (rev_involutive l), E). destruct (rev l) as [|c r]; [done|]. apply Forall_cons in Fl as [Hc _]. by exists c, (r ++ X). }
  destruct (G T NT FT) as (c & r & -> & Hc). destruct (G P NP FP) as (d & r' & -> & Hd).
  assert (H : forall c, label_char c = true -> (c =? ch ".") = false) by (intros ? X; unfold label_char in X; by bsimp; apply Z.eqb_neq).
  by rewrite (H c Hc), (H d Hd).
Qed.

(** Two names that do not end in a dot. *)
Lemma hostcmp_eq a b : Forall (fun c => 0 < c < 256) a -> Forall (fun c => 0 < c < 256) b -> default 0 (last a) <> ch "." -> default 0 (last b) <> ch "." ->
  hostcmp a b = 0 <-> LowerCaseStr a = LowerCaseStr b.
Proof.
  intros Fa. revert b. induction Fa as [|c a Hc Fa IH]; intros b Fb La Lb.
  - destruct Fb as [|d b Hd Fb]; [done|]. split; [|done]. cbn [hostcmp char_at tail].
    destruct (Z.ltb_spec (c_tolower 0) (c_tolower d)) as [L|L].
    + destruct b as [|e b]; cbn [char_at].
      * cbn in Lb. rewrite (proj2 (Z.eqb_neq d _)) by done. by rewrite andb_false_r.
      * apply Forall_cons in Fb as [He _]. rewrite (proj2 (Z.eqb_neq e 0)) by lia. by rewrite andb_false_r.
    + assert (c_tolower d <> c_tolower 0) as N. { intros E. apply (proj1 (c_tolower_inj d 0 ltac:(lia) ltac:(lia))) in E. unfold ink_tolower, in_range in E. repeat case_match; bsimp; lia. }
      rewrite (proj2 (Z.ltb_lt _ _)) by lia. by rewrite (proj2 (Z.eqb_neq d 0)) by lia.
  - destruct Fb as [|d b Hd Fb].
    + split; [|done]. cbn [hostcmp char_at tail].
      assert (c_tolower c <> c_tolower 0) as N. { intros E. apply (proj1 (c_tolower_inj c 0 ltac:(lia) ltac:(lia))) in E. unfold ink_tolower, in_range in E. repeat case_match; bsimp; lia. }
      rewrite (proj2 (Z.eqb_neq c 0)) by lia. cbn [andb]. destruct (Z.ltb_spec (c_tolower c) (c_tolower 0)); [done|]. rewrite (proj2 (Z.ltb_lt _ _)) by lia.
      destruct a as [|e a]; cbn [char_at].
      * cbn in La. rewrite (proj2 (Z.eqb_neq c _)) by done. by rewrite andb_false_r.
      * apply Forall_cons in Fa as [He _]. rewrite (proj2 (Z.eqb_neq e 0)) by lia. by rewrite andb_false_r.
    + cbn [hostcmp char_at tail]. rewrite (proj2 (Z.eqb_neq c 0)), (proj2 (Z.eqb_neq d 0)) by lia. cbn [andb]. unfold LowerCaseStr. cbn [fmap list_fmap].
      pose proof (c_tolower_inj c d ltac:(lia) ltac:(lia)) as I.
      destruct (Z.ltb_spec (c_tolower c) (c_tolower d)); [split; [done|intros [= E _]; apply I in E; lia]|].
      destruct (Z.ltb_spec (c_tolower d) (c_tolower c)); [split; [done|intros [= E _]; apply I in E; lia]|].
      assert (E : ink_tolower c = ink_tolower d) by (apply I; lia). rewrite E.
      assert (La' : default 0 (last a) <> ch ".") by (destruct a; [done|exact La]). assert (Lb' : default 0 (last b) <> ch ".") by (destruct b; [done|exact Lb]).
      rewrite (IH b Fb La' Lb'). unfold LowerCaseStr. split; [by intros ->|by intros [= ->]].
Qed.

(** ** Tokens *)

Lemma toks_dotted p : p <> [] -> Forall label_ok p -> tokens (Initialize (new_Tokenizer (chars ".")) (dotted p) false).2 = rev p.
Proof.
  intros N F. destruct p as [|l p]; [done|]. apply Forall_cons in F as [Hl F].
  assert (Nd : forall l, label_ok l -> Forall (fun c => one_of c (chars ".") = false) l).
  { intros k Hk. eapply Forall_impl; [by apply no_dot|]. intros c Hc. cbn. by rewrite (proj2 (Z.eqb_neq c (ch "."))) by done. }
  set (ws := (fun k => (k, chars ".")) <$> rev p). assert (E : dotted (l :: p) = [] ++ spread_out ws ++ l).
  { subst ws. clear N Hl. cbn [app]. revert l. induction F as [|k p Hk F IH]; intros l; [done|]. rewrite dotted_cons by done. rewrite IH. cbn [rev]. rewrite fmap_app. unfold spread_out. rewrite fmap_app, concat_app. cbn [fmap list_fmap concat fst snd].
    rewrite app_nil_r, <- !app_assoc. done. }
  rewrite E. assert (Fw : Forall (word_ok (chars ".")) ws).
  { subst ws. apply Forall_fmap, Forall_rev. eapply Forall_impl; [exact F|]. intros k Hk. cbn. split; [apply Hk|]. split; [by apply Nd|]. split; [done|]. by repeat constructor. }
  rewrite (tokens_words (chars ".") [] ws l) by (try constructor; auto). rewrite bool_decide_false by apply Hl. cbn [rev]. f_equal. subst ws. rewrite <- list_fmap_compose. apply list_fmap_id.
Qed.

Lemma rule_toks_name s : name_ok s = true -> rule_toks s = rev (lowers (labels s)).
Proof.
  intros H. apply name_ok_labels in H. unfold rule_toks. rewrite <- (dotted_labels s) at 1. rewrite lower_dotted. apply toks_dotted; [|by apply lower_labels].
  pose proof (labels_ne s). unfold lowers. by destruct (labels s).
Qed.

(** A name does not end in a dot. *)
Lemma last_label p : p <> [] -> Forall label_ok p -> default 0 (last (dotted p)) <> ch ".".
Proof.
  intros N F. destruct p as [|l p]; [done|]. apply Forall_cons in F as [[Nl Fl] _]. destruct (exists_last Nl) as (l' & c & ->). apply Forall_app in Fl as [_ Fc]. apply Forall_cons in Fc as [Hc _].
  assert (E : last (dotted ((l' ++ [c]) :: p)) = Some c); [|rewrite E; unfold label_char in Hc; by bsimp].
  destruct (decide (p = [])) as [->|Np]; [apply last_snoc|]. rewrite dotted_cons by done. change (ch "." :: l' ++ [c]) with ((ch "." :: l') ++ [c]). rewrite app_assoc. apply last_snoc.
Qed.

Lemma name_bytes p : Forall label_ok p -> Forall (fun c => 0 < c < 256) (dotted p).
Proof. induction 1 as [|l p Hl F IH]; [constructor|]. destruct (decide (p = [])) as [->|N]; [by apply label_bytes|]. rewrite dotted_cons by done. apply Forall_app. split; [done|]. constructor; [done|by apply label_bytes]. Qed.

(** What [leaf_matches] says of the names of a rule and a host. *)
Lemma domaincmp_ok host name : name_ok host = true -> name_ok name = true -> domaincmp host name = bool_decide (lowers (labels name) `prefix_of` lowers (labels host)).
Proof.
  intros H1 H2. apply name_ok_labels in H1, H2. rewrite <- (dotted_labels host), <- (dotted_labels name) at 1. apply domaincmp_names; auto using labels_ne.
Qed.

Lemma hostcmp_ok host name : name_ok host = true -> name_ok name = true -> (hostcmp host name =? 0) = bool_decide (lowers (labels name) = lowers (labels host)).
Proof.
  intros H1 H2. pose proof (labels_lower host H1) as L1. pose proof (labels_lower name H2) as L2. apply name_ok_labels in H1, H2.
  pose proof (last_label _ (labels_ne host) H1) as E1. pose proof (last_label _ (labels_ne name) H2) as E2. pose proof (name_bytes _ H1) as B1. pose proof (name_bytes _ H2) as B2. rewrite dotted_labels in E1, E2, B1, B2.
  pose proof (hostcmp_eq host name B1 B2 E1 E2) as I. apply eq_true_iff_eq. rewrite Z.eqb_eq, bool_decide_eq_true, I. split; [intros E; by rewrite <- L1, <- L2, E|].
  intros E. rewrite <- (dotted_labels (LowerCaseStr host)), <- (dotted_labels (LowerCaseStr name)). by rewrite L1, L2, E.
Qed.
