(* ===== verification/HostMatchFacts.v ===== *)
(** What the matcher of host names finds: [MatchFirst] and [MatchNext] give the data of
    the rules that match, those with fewer labels first. *)

From S2P Require Import Prelude ParseRules LibC Tokenizer HostLookup HostLookupFacts HostNames.
From Stdlib Require Import Ascii.

(** ** The parts of the host name *)

(** Where the label that is next begins. *)
Definition part_start (rest : list (list Z)) : nat := match rest with [] | [_] => 0 | _ :: rest' => length (dotted rest') + 1 end.

(** The copy of the host when the labels [rest] are left. *)
Definition parts_left (rest : list (list Z)) (copy : list Z) (next : option Z) : Prop :=
  match rest with [] => next = None | _ => exists junk, copy = dotted rest ++ 0 :: junk /\ next = Some (Z.of_nat (part_start rest)) end.

Lemma part_start_cons l l' rest : part_start (l :: l' :: rest) = (length (dotted (l' :: rest)) + 1)%nat.
Proof. done. Qed.

Lemma c_string_label l s : Forall (fun c => label_char c = true) l -> c_string (l ++ 0 :: s) = l.
Proof. induction 1 as [|c l H F IH]; [done|]. cbn [app c_string]. unfold label_char in H. bsimp. rewrite (proj2 (Z.eqb_neq c 0)) by lia. by rewrite IH. Qed.

Lemma string_at_part l rest junk : label_ok l -> string_at (dotted (l :: rest) ++ 0 :: junk) (Z.of_nat (part_start (l :: rest))) = l.
Proof.
  intros [_ F]. unfold string_at. rewrite Nat2Z.id. destruct rest as [|l' rest]; [cbn [part_start]; rewrite drop_0; by apply c_string_label|]. rewrite part_start_cons. rewrite (dotted_cons l) by done.
  rewrite <- app_assoc. cbn [app]. rewrite drop_app_ge by lia. replace (_ + 1 - _)%nat with 1%nat by lia. by apply c_string_label.
Qed.

(** Going back over a label. *)
Lemma back_over copy p q : (forall i, (p < i <= q)%nat -> nth i copy 0 <> ch ".") -> (p <= q)%nat -> back_to_dot copy q = back_to_dot copy p.
Proof.
  induction q as [|q IH]; intros H L; [by replace p with 0%nat by lia|]. destruct (decide (p = S q)) as [->|N]; [done|]. cbn [back_to_dot]. rewrite (proj2 (Z.eqb_neq _ _)) by (apply H; lia).
  apply IH; [|lia]. intros i Hi. apply H. lia.
Qed.

Lemma nth_not_dot l i s : Forall (fun c => label_char c = true) l -> (i < length l)%nat -> nth i (l ++ s) 0 <> ch ".".
Proof.
  intros F L. rewrite app_nth1 by done. pose proof (nth_In l 0 L) as I. apply list_elem_of_In in I. apply (proj1 (Forall_forall _ _) F) in I. unfold label_char in I. by bsimp.
Qed.

Lemma back_to_part l rest s : label_ok l -> Forall label_ok rest -> back_to_dot (dotted (l :: rest) ++ s) (length (dotted (l :: rest)) - 1) = Z.of_nat (part_start (l :: rest)).
Proof.
  intros [N F] Fr. destruct rest as [|l' rest].
  - cbn [dotted]. rewrite (back_over _ 0); [done| |lia]. intros i Hi. apply nth_not_dot; [done|lia].
  - rewrite part_start_cons, (dotted_cons l) by done. set (d := dotted (l' :: rest)). assert (Ln : (0 < length d)%nat) by (pose proof (dotted_ne (l' :: rest) ltac:(done) Fr); subst d; by destruct (dotted (l' :: rest)); [|cbn; lia]).
    rewrite length_app. cbn [length]. assert (Ll : (0 < length l)%nat) by (destruct l; [done|cbn; lia]). rewrite (back_over _ (length d)); [| |lia].
    + destruct (length d) as [|k] eqn:Ek; [lia|]. cbn [back_to_dot]. rewrite <- Ek. rewrite <- app_assoc. rewrite app_nth2 by lia. rewrite Nat.sub_diag. cbn [app nth]. rewrite Z.eqb_refl. lia.
    + intros i Hi. rewrite <- app_assoc. rewrite app_nth2 by lia. cbn [app]. destruct (i - length d)%nat as [|j] eqn:Ej; [lia|]. cbn [nth]. apply nth_not_dot; [done|lia].
Qed.

(** The label that is next is taken off. *)
Lemma next_part_ok l rest copy p : Forall label_ok (l :: rest) -> parts_left (l :: rest) copy (Some p) -> string_at copy p = l /\ let '(copy', p') := next_part copy p in parts_left rest copy' p'.
Proof.
  intros F (junk & -> & [= ->]). apply Forall_cons in F as [Fl F]. split; [by apply string_at_part|]. unfold next_part. destruct rest as [|l' rest]; [done|]. apply Forall_cons in F as [Fl' F].
  rewrite ?part_start_cons. rewrite (proj2 (Z.leb_gt _ _)) by lia. set (d := dotted (l' :: rest)). replace (Z.to_nat (Z.of_nat (length d + 1) - 1)) with (length d) by lia. replace (Z.to_nat (Z.of_nat (length d + 1) - 2)) with (length d - 1)%nat by lia.
  rewrite (dotted_cons l) by done. fold d. rewrite <- app_assoc. rewrite insert_app_r_alt by lia. rewrite Nat.sub_diag. cbn [app insert list_insert]. exists (l ++ 0 :: junk). split; [done|]. f_equal. by apply back_to_part.
Qed.

Lemma last_dot_app s t i f : last_dot (s ++ t) i f = last_dot t (i + Z.of_nat (length s)) (last_dot s i f).
Proof. revert i f. induction s as [|c s IH]; intros i f; cbn [app last_dot length]; [f_equal; lia|]. rewrite IH. f_equal. lia. Qed.

Lemma last_dot_label l i f : Forall (fun c => label_char c = true) l -> last_dot l i f = f.
Proof. intros F. revert i f. induction F as [|c l H F IH]; intros i f; [done|]. cbn [last_dot]. unfold label_char in H. bsimp. rewrite (proj2 (Z.eqb_neq c _)) by done. apply IH. Qed.

Lemma first_parts host : name_ok host = true -> parts_left (lowers (labels host)) (host_copy (first_state host)) (host_copy_next (first_state host)).
Proof.
  intros H. apply name_ok_labels in H. unfold first_state. cbn [host_copy host_copy_next]. rewrite <- (dotted_labels host), lower_dotted, labels_dotted by auto using labels_ne.
  pose proof (labels_ne host). apply lower_labels in H as F. destruct (lowers (labels host)) as [|l rest] eqn:E; [unfold lowers in E; by destruct (labels host)|]. exists []. split; [done|]. f_equal.
  apply Forall_cons in F as [[_ Fl] F]. destruct rest as [|l' rest]; [cbn [dotted]; by rewrite last_dot_label|]. rewrite (dotted_cons l) by done. rewrite last_dot_app. cbn [last_dot]. rewrite Z.eqb_refl.
  rewrite last_dot_label by done. rewrite part_start_cons. lia.
Qed.

(** ** The rules at a branch *)

Section matches.
Context {D : Type}.
Variables (n : nat) (rules : list (Rule D)) (hl : HostLookup D) (host : list Z).
Hypothesis Ht : table_of n rules hl.
Hypothesis Hh : name_ok host = true.

(** The labels of the host. *)
Let P := lowers (labels host).

(** The leaf of a rule agrees with the host when [l] labels are consumed. *)
Definition leaf_agrees (l : nat) (r : Rule D) : bool := leaf_matches (rule_leaf r) host (bool_decide (drop l P = [])).

(** The rules found after [l] labels. *)
Definition at_level (l : nat) (r : Rule D) : Prop := (l <= length P)%nat /\ rule_path (rule_name r) = take l P /\ leaf_agrees l r = true.

Definition rule_data (r : Rule D) : option D := Some r.2.

Definition found_from (k l : nat) : list (option D) := seq l k ≫= fun l => rule_data <$> filter (at_level l) rules.

(** The data of the rules of a list of leaves. *)
Definition data_of (Q : Rule D -> bool) (rs : list (Rule D)) (js : list nat) : list (option D) :=
  js ≫= fun j => match rs !! j with Some r => if Q r then [rule_data r] else [] | None => [] end.

Lemma data_of_ends Q p rs : data_of Q rs (ends_at p (rule_path ∘ rule_name <$> rs)) = rule_data <$> filter (fun r => rule_path (rule_name r) = p /\ Q r = true) rs.
Proof.
  induction rs as [|r rs IH] using rev_ind; [done|]. rewrite fmap_app. cbn [fmap list_fmap]. rewrite ends_at_snoc, filter_app, fmap_app, <- IH. unfold data_of. rewrite bind_app. f_equal.
  - apply bind_ext_in. intros j Hj. unfold ends_at in Hj. apply list_elem_of_filter in Hj as [_ Hj]. apply elem_of_seq in Hj. rewrite length_fmap in Hj. by rewrite lookup_app_l by lia.
  - rewrite length_fmap. rewrite filter_cons, filter_nil. cbn [compose]. destruct (decide (rule_path (rule_name r) = p)) as [E|E].
    + cbn [mbind list_bind]. rewrite lookup_app_r, Nat.sub_diag by lia. cbn. destruct (Q r) eqn:Eq; [by rewrite decide_True|by rewrite decide_False by naive_solver].
    + by rewrite decide_False by naive_solver.
Qed.

(** The search of the leaves of a branch. *)
Lemma match_array_ok Q hd js i : (forall r, leaf_matches (rule_leaf r) host hd = Q r) -> Forall (fun j => (j < length rules)%nat) js ->
  match data_of Q rules js with
  | [] => match_array hl host hd js i = Some (None, i + Z.of_nat (length js))
  | d :: R => exists k, (k < length js)%nat /\ match_array hl host hd js i = Some (Some d, i + Z.of_nat k) /\ data_of Q rules (drop (S k) js) = R
  end.
Proof.
  intros E F. revert i. induction F as [|j js L F IH]; intros i; [cbn; do 2 f_equal; lia|].
  destruct (lookup_lt_is_Some_2 _ _ L) as [r Hr]. unfold data_of. cbn [mbind list_bind]. fold (data_of Q rules js). rewrite Hr. cbn [match_array]. rewrite (table_leaf _ _ _ Ht j r Hr). cbn [mbind option_bind]. rewrite E. destruct (Q r) eqn:Eq.
  - cbn [app]. exists 0%nat. split; [cbn; lia|]. split; [do 2 f_equal; lia|done].
  - cbn [app]. specialize (IH (i + 1)). destruct (data_of Q rules js) as [|d R]; [rewrite IH; cbn [length]; do 2 f_equal; lia|].
    destruct IH as (k & Lk & -> & ED). exists (S k). split; [cbn; lia|]. split; [do 2 f_equal; lia|done].
Qed.

Lemma ends_at_lt p (rs : list (Rule D)) : Forall (fun j => (j < length rs)%nat) (ends_at p (rule_path ∘ rule_name <$> rs)).
Proof. apply Forall_forall. intros j Hj. unfold ends_at in Hj. apply list_elem_of_filter in Hj as [_ Hj]. apply elem_of_seq in Hj. rewrite length_fmap in Hj. lia. Qed.

(** Nothing is found below a branch that is not there. *)
Lemma found_nowhere k l : walk (branches hl) 0 (take l P) = None -> found_from k l = [].
Proof.
  intros W. unfold found_from. assert (G : forall m, (l <= m)%nat -> filter (at_level m) rules = []).
  { intros m L. apply filter_none. intros r Hr (_ & E & _). assert (I : rule_path (rule_name r) ∈ (rule_path ∘ rule_name <$> rules)) by (apply list_elem_of_fmap; by exists r).
    apply (tree_paths _ _ (table_tree _ _ _ Ht)) in I. rewrite E in I. assert (Tk : take m P = take l P ++ take (m - l) (drop l P)) by (rewrite take_take_drop; f_equal; lia).
    rewrite Tk, walk_app, W in I. by destruct I. }
  rewrite (bind_ext_in _ (fun _ => [])); [by induction (seq l k)|]. intros m Hm. apply elem_of_seq in Hm. by rewrite G by lia.
Qed.

Lemma found_past k l : (length P < l)%nat -> found_from k l = [].
Proof.
  intros L. unfold found_from. rewrite (bind_ext_in _ (fun _ => [])); [by induction (seq l k)|]. intros m Hm. apply elem_of_seq in Hm.
  rewrite filter_none; [done|]. intros r _ (X & _). lia.
Qed.

(** The search stands at level [l], and [R] is what it has still to find. *)
Definition searching (l : nat) (s : HostLookupState) (R : list (option D)) : Prop :=
  (l <= HOST_TABLE_DEPTH)%nat /\ (l <= length P)%nat /\ walk (branches hl) 0 (take l P) = Some (cur s) /\ table_level s = l /\ hostname s = host /\ -1 <= array_index s /\
  parts_left (drop l P) (host_copy s) (host_copy_next s) /\
  exists b, branches hl !! cur s = Some b /\ R = data_of (leaf_agrees l) rules (drop (Z.to_nat (array_index s + 1)) (leaf_indexs b)) ++ found_from (HOST_TABLE_DEPTH - l) (S l).

Lemma enter_level l s : (l <= HOST_TABLE_DEPTH)%nat -> (l <= length P)%nat -> walk (branches hl) 0 (take l P) = Some (cur s) -> table_level s = l -> hostname s = host -> array_index s = -1 ->
  parts_left (drop l P) (host_copy s) (host_copy_next s) -> searching l s (found_from (S (HOST_TABLE_DEPTH - l)) l).
Proof.
  intros L LP W Tl Hn Ai Pl. assert (Lw : Forall lower (take l P)) by (apply Forall_take; unfold P, lowers; apply Forall_fmap, Forall_true; intros; apply lower_idem).
  destruct (tree_node _ _ (table_tree _ _ _ Ht) _ _ Lw W) as (b & B & _ & E). repeat (split; [done|]). split; [lia|]. split; [done|]. exists b. split; [done|]. rewrite Ai, E. cbn [Z.add Z.to_nat]. rewrite drop_0.
  change (Z.to_nat 0) with 0%nat. rewrite ?drop_0, data_of_ends. unfold found_from. cbn [seq mbind list_bind]. f_equal. f_equal. apply filter_ext_in. intros r _. unfold at_level. tauto.
Qed.
(** A round of [MatchNext] that finds nothing at its level goes to the next one. *)
Lemma next_level_ok l s b p c : searching l s (found_from (HOST_TABLE_DEPTH - l) (S l)) -> branches hl !! cur s = Some b -> host_copy_next s = Some p ->
  find_next (next_level b) (string_at (host_copy s) p) true = Some c -> let '(copy, p') := next_part (host_copy s) p in
  let s' := mkState c (S (table_level s)) (-1) (hostname s) copy p' in (l = HOST_TABLE_DEPTH \/ searching (S l) s' (found_from (HOST_TABLE_DEPTH - l) (S l))) /\ table_level s' = S l.
Proof.
  intros (L & LP & W & Tl & Hn & Ai & Pl & _) B Ep Fn.
  destruct (drop l P) as [|lab rest] eqn:Ed; [cbn in Pl; congruence|]. assert (Fl : Forall label_ok (lab :: rest)) by (rewrite <- Ed; apply Forall_drop, lower_labels; by apply name_ok_labels).
  rewrite Ep in Pl. destruct (next_part_ok lab rest (host_copy s) p Fl Pl) as [Es Hp]. destruct (next_part (host_copy s) p) as [copy p']. rewrite Es in Fn. cbn [table_level]. split; [|by rewrite Tl].
  destruct (decide (l = HOST_TABLE_DEPTH)) as [|Nl]; [by left|]. right. rewrite Tl, Hn.
  assert (Ek : P !! l = Some lab) by (rewrite <- (Nat.add_0_r l), <- lookup_drop, Ed; done). assert (Tk : take (S l) P = take l P ++ [lab]) by (by apply take_S_r).
  replace (HOST_TABLE_DEPTH - l)%nat with (S (HOST_TABLE_DEPTH - S l)) by lia. apply enter_level; try done; [lia|by apply lookup_lt_Some in Ek| |].
  - cbn [cur]. rewrite Tk, walk_snoc, W. cbn [mbind option_bind]. unfold step. by rewrite B.
  - replace (drop (S l) P) with rest; [done|]. rewrite <- (Nat.add_1_r l), <- drop_drop, Ed. done.
Qed.

Lemma match_next_ok fuel l s R : searching l s R -> (HOST_TABLE_DEPTH + 2 <= fuel + l)%nat ->
  match R with
  | [] => exists s', match_next fuel hl s = Some (None, s')
  | d :: R' => exists l' s', match_next fuel hl s = Some (Some d, s') /\ searching l' s' R'
  end.
Proof.
  revert l s R. induction fuel as [|fuel IH]; intros l s R S Lf; [destruct S as [L _]; lia|]. pose proof S as (L & LP & W & Tl & Hn & Ai & Pl & b & B & ER).
  cbn [match_next]. rewrite Tl. rewrite (proj2 (Nat.ltb_ge _ _)) by done. rewrite B. cbn [mbind option_bind]. unfold MatchArray. rewrite Hn.
  assert (Eh : bool_decide (host_copy_next s = None) = bool_decide (drop l P = [])) by (apply bool_decide_ext; unfold parts_left in Pl; destruct (drop l P); [by rewrite Pl|destruct Pl as (? & _ & ->); done]).
  rewrite Eh. assert (Lw : Forall lower (take l P)) by (apply Forall_take; unfold P, lowers; apply Forall_fmap, Forall_true; intros; apply lower_idem).
  destruct (tree_node _ _ (table_tree _ _ _ Ht) _ _ Lw W) as (b0 & B0 & _ & El). rewrite B in B0. injection B0 as <-.
  assert (Fj : Forall (fun j => (j < length rules)%nat) (drop (Z.to_nat (array_index s + 1)) (leaf_indexs b))) by (apply Forall_drop; rewrite El; apply ends_at_lt).
  pose proof (match_array_ok (leaf_agrees l) (bool_decide (drop l P = [])) _ (array_index s + 1) (fun r => eq_refl) Fj) as M.
  destruct (data_of (leaf_agrees l) rules (drop (Z.to_nat (array_index s + 1)) (leaf_indexs b))) as [|d R0] eqn:ED.
  - rewrite M. cbn [mbind option_bind fst snd host_copy_next]. cbn [app] in ER. subst R.
    set (s1 := mkState _ _ _ _ _ _). assert (S1 : searching l s1 (found_from (HOST_TABLE_DEPTH - l) (Datatypes.S l))).
    { repeat (split; [done|]). split; [cbn [array_index s1]; lia|]. split; [done|]. exists b. split; [done|]. cbn [array_index s1]. rewrite (drop_ge (leaf_indexs b)); [done|]. rewrite length_drop. lia. }
    destruct (host_copy_next s) as [p|] eqn:Ep.
    + assert (Go : forall c, find_next (next_level b) (string_at (host_copy s) p) true = Some c ->
        match found_from (HOST_TABLE_DEPTH - l) (Datatypes.S l) with
        | [] => exists s', (let '(copy, p') := next_part (host_copy s) p in match_next fuel hl (mkState c (Datatypes.S (table_level s)) (-1) host copy p')) = Some (None, s')
        | d :: R' => exists l' s', (let '(copy, p') := next_part (host_copy s) p in match_next fuel hl (mkState c (Datatypes.S (table_level s)) (-1) host copy p')) = Some (Some d, s') /\ searching l' s' R'
        end).
      { intros c Fn. pose proof (next_level_ok l s1 b p c S1 B eq_refl Fn) as G. cbn [s1 host_copy table_level hostname] in G. destruct (next_part (host_copy s) p) as [copy p']. destruct G as [[E3|G] Gt].
        - rewrite E3, Nat.sub_diag. cbn [found_from seq mbind list_bind]. destruct fuel as [|fuel]; [lia|]. cbn [match_next table_level]. rewrite Tl, E3. cbn. by eexists.
        - apply (IH _ _ _ G). lia. }
      assert (Stop : find_next (next_level b) (string_at (host_copy s) p) true = None -> found_from (HOST_TABLE_DEPTH - l) (Datatypes.S l) = []).
      { intros Fn. destruct (decide (l < length P)%nat) as [Ll|Nl]; [|apply found_past; lia]. apply found_nowhere. apply lookup_lt_is_Some_2 in Ll as [lab Ek]. rewrite (take_S_r _ _ _ Ek), walk_snoc, W. cbn [mbind option_bind]. unfold step. rewrite B. cbn [mbind option_bind].
        destruct (drop l P) as [|lab' rest] eqn:Ed; [apply (f_equal length) in Ed; rewrite length_drop in Ed; apply lookup_lt_Some in Ek; cbn in Ed; lia|].
        assert (lab' = lab) as -> by (rewrite <- (Nat.add_0_r l), <- lookup_drop, Ed in Ek; by injection Ek).
        assert (Fl : Forall label_ok (lab :: rest)) by (rewrite <- Ed; apply Forall_drop, lower_labels; by apply name_ok_labels).
        destruct (next_part_ok lab rest (host_copy s) p Fl Pl) as [Es _]. by rewrite <- Es. }
      unfold FindNextLevel. cbn [cur s1]. rewrite B. cbn [mbind option_bind].
      destruct (next_level b) as [|t|ci|ha] eqn:En; [rewrite Stop by done; by eexists| | |];
        (destruct (find_next _ _ true) as [c|] eqn:Fn; [exact (Go c eq_refl)|rewrite Stop by done; by eexists]).
    + rewrite found_past; [by eexists|]. unfold parts_left in Pl. destruct (drop l P) as [|lab rest] eqn:Ed; [|by destruct Pl as (? & _ & ?)]. apply (f_equal length) in Ed. rewrite length_drop in Ed. cbn in Ed. lia.
  - destruct M as (k & Lk & -> & Ek). cbn [mbind option_bind fst snd]. subst R. cbn [app]. eexists l, _. split; [done|].
    repeat (split; [done|]). split; [cbn [array_index]; lia|]. split; [done|]. exists b. split; [done|]. cbn [array_index]. f_equal. rewrite <- Ek, drop_drop. f_equal. f_equal. lia.
Qed.

Lemma all_next_ok fuel l s R : searching l s R -> (length R < fuel)%nat -> all_next fuel hl (MatchNext hl s) = Some R.
Proof.
  revert l s R. induction fuel as [|fuel IH]; intros l s R S Lf; [lia|]. assert (X : MatchNext hl s = match_next (HOST_TABLE_DEPTH + 2) hl s \/ (R = [] /\ MatchNext hl s = Some (None, s))).
  { unfold MatchNext. rewrite (table_num _ _ _ Ht). destruct (Z.leb_spec (Z.of_nat (length rules)) 0) as [L0|L0]; [right|by left]. split; [|done].
    assert (En : rules = []) by (destruct rules; [done|cbn in L0; lia]). destruct S as (_ & _ & _ & _ & _ & _ & _ & b & _ & ->). rewrite En.
    assert (E1 : forall js, data_of (leaf_agrees l) [] js = []) by (intros js; induction js; done). rewrite E1. unfold found_from. rewrite En.
    rewrite (bind_ext_in _ (fun _ => [])); [by induction (seq _ _)|done]. }
  cbn [all_next]. destruct X as [->|[-> ->]]; [|done]. pose proof (match_next_ok (HOST_TABLE_DEPTH + 2) l s R S ltac:(lia)) as M. destruct R as [|d R].
  - destruct M as (s' & ->). done.
  - destruct M as (l' & s' & -> & S'). cbn [mbind option_bind]. by rewrite (IH l' s' R S') by (cbn in Lf; lia).
Qed.

(** There are no more matches than rules. *)
Lemma filters_length {A} (Q : nat -> A -> Prop) `{!forall l x, Decision (Q l x)} ls (xs : list A) :
  NoDup ls -> (forall l l' x, Q l x -> Q l' x -> l = l') -> (length (ls ≫= fun l => filter (Q l) xs) <= length xs)%nat.
Proof.
  intros Nd I. revert xs. induction Nd as [|l ls N Nd IH]; intros xs; [cbn; lia|]. cbn [mbind list_bind]. rewrite length_app.
  assert (E : (ls ≫= fun l => filter (Q l) xs) = ls ≫= fun l' => filter (Q l') (filter (fun x => ~ Q l x) xs)).
  { apply bind_ext_in. intros l' Hl'. rewrite list_filter_filter. apply filter_ext_in. intros x _. split; [|by intros [? _]]. intros X1. split; [done|]. intros X2. by rewrite (I _ _ _ X1 X2) in Hl'. }
  rewrite E. pose proof (IH (filter (fun x => ~ Q l x) xs)) as L. assert (Sum : (length (filter (Q l) xs) + length (filter (fun x => ~ Q l x) xs) = length xs)%nat); [|lia].
  clear. induction xs as [|x xs IH]; [done|]. rewrite !filter_cons. repeat case_decide; cbn [length]; [tauto|lia|lia|tauto].
Qed.

Lemma host_matches : all_matches hl (Some host) = Some (found_from (S HOST_TABLE_DEPTH) 0).
Proof.
  unfold all_matches, MatchFirst. cbn [default]. apply (all_next_ok _ 0).
  - apply enter_level; [lia|lia|done|done|done|done|]. by apply first_parts.
  - unfold found_from. rewrite bind_fmap, length_fmap. destruct (table_size _ _ _ Ht) as [E _].
    assert (Le : (length rules <= length (leaf_array hl))%nat).
    { destruct (decide (length rules = 0)%nat) as [->|Nz]; [lia|]. destruct (lookup_lt_is_Some_2 rules (length rules - 1)%nat ltac:(lia)) as [r Hr]. apply (table_leaf _ _ _ Ht), lookup_lt_Some in Hr. lia. }
    enough ((length (seq 0 (S HOST_TABLE_DEPTH) ≫= fun l => filter (at_level l) rules) <= length rules)%nat) by lia. apply filters_length; [apply NoDup_seq|].
    intros l l' r (L & E1 & _) (L' & E2 & _). rewrite E1 in E2. apply (f_equal length) in E2. rewrite !length_take in E2. lia.
Qed.
End matches.

(** ** The theorem *)

Section spec.
Context {D : Type}.

(** The labels of a rule; the rule "." is for every host. *)
Definition rule_labels (name : list Z) : list (list Z) := if decide (name = chars ".") then [] else lowers (labels name).

(** A rule that is a name or ".", without the negation of a label. *)
Definition plain_rule (r : Rule D) : bool :=
  bool_decide (rule_name r = chars ".") || (name_ok (rule_name r) && forallb (fun l => negb (char_at l =? ch "!")) (labels (rule_name r))).

(** A domain rule is for the hosts in the domain, another rule for the host it names. *)
Definition rule_applies (host : list Z) (r : Rule D) : bool :=
  if rule_domain r then bool_decide (rule_labels (rule_name r) `prefix_of` lowers (labels host)) else bool_decide (rule_labels (rule_name r) = lowers (labels host)).

Definition rule_depth (r : Rule D) : nat := Nat.min HOST_TABLE_DEPTH (length (rule_labels (rule_name r))).

Lemma rule_toks_labels r : plain_rule r = true -> rule_toks (rule_name r) = rev (rule_labels (rule_name r)) /\ Forall key_ok (rule_toks (rule_name r)).
Proof.
  unfold plain_rule, rule_labels. intros H. case_decide as E; [rewrite E; split; [by vm_compute|by vm_compute; constructor]|].
  apply orb_true_iff in H as [H|H]; [by apply bool_decide_eq_true in H|]. apply andb_true_iff in H as [N K]. rewrite rule_toks_name by done. split; [done|].
  apply Forall_rev. unfold lowers. apply Forall_fmap. apply name_ok_labels in N. rewrite forallb_forall in K. apply Forall_forall. intros l Hl.
  pose proof (proj1 (Forall_forall _ _) N l Hl) as [Nl Fl]. apply list_elem_of_In, K in Hl. cbn. split; [by destruct l|]. split; [apply lower_idem|].
  destruct l as [|c l]; [done|]. cbn in *. bsimp. change (ch "!") with 33 in *. unfold ink_tolower, in_range. destruct ((65 <=? c) && (c <=? 90)) eqn:X; [|done]. bsimp. lia.
Qed.

Lemma plain_deep r : plain_rule r = true -> (HOST_TABLE_DEPTH < length (rule_labels (rule_name r)))%nat -> name_ok (rule_name r) = true /\ rule_labels (rule_name r) = lowers (labels (rule_name r)).
Proof.
  unfold plain_rule, rule_labels. intros H. destruct (decide (rule_name r = chars ".")) as [E|E].
  { unfold HOST_TABLE_DEPTH. cbn [length]. intros X. exfalso. lia. }
  intros _. split; [|done]. apply orb_true_iff in H as [H|H]; [by apply bool_decide_eq_true in H|]. apply andb_true_iff in H as [N K]. done.
Qed.

(** What the tree says of a rule is what its labels say. *)
Lemma at_level_applies host l r : name_ok host = true -> plain_rule r = true -> at_level host l r <-> (rule_depth r = l /\ rule_applies host r = true).
Proof.
  intros Hh Hr. destruct (rule_toks_labels r Hr) as [Et _]. pose proof (plain_deep r Hr) as Hd. unfold at_level, leaf_agrees, rule_path, rule_depth, rule_applies, leaf_matches, rule_leaf. cbn [leaf_type leaf_match].
  rewrite Et, rev_involutive, length_rev. set (T := rule_labels (rule_name r)) in *. set (P := lowers (labels host)). unfold leaf_kind.
  assert (Dl : drop l P = [] <-> (length P <= l)%nat) by (split; [intros E; apply (f_equal length) in E; rewrite length_drop in E; cbn in E; lia|apply drop_ge]).
  assert (Pf : forall A B : list (list Z), A `prefix_of` B <-> A = take (length A) B /\ (length A <= length B)%nat).
  { intros A B. split; [intros [C ->]; rewrite take_app_length, length_app; split; [done|lia]|]. intros [-> _]. apply prefix_take. }
  destruct (Nat.ltb_spec HOST_TABLE_DEPTH (length T)) as [Lt|Le].
  - destruct (Hd Lt) as [Nr Er]. assert (Ea : forall B : Prop, Decision B -> (l <= length P)%nat /\ take HOST_TABLE_DEPTH T = take l P /\ B <-> Nat.min HOST_TABLE_DEPTH (length T) = l /\ take HOST_TABLE_DEPTH T = take HOST_TABLE_DEPTH P /\ (HOST_TABLE_DEPTH <= length P)%nat /\ B).
    { intros B _. split.
      - intros (L & E & HB). assert (l = HOST_TABLE_DEPTH) as -> by (apply (f_equal length) in E; rewrite !length_take in E; lia). split; [lia|]. done.
      - intros (<- & E & L & HB). rewrite Nat.min_l by lia. done. }
    destruct (rule_domain r).
    + rewrite domaincmp_ok by done. rewrite <- Er. fold P T. rewrite bool_decide_eq_true. rewrite (Ea (T `prefix_of` P)) by apply _. split; [by intros (? & _ & _ & ?)|]. intros [E X]. split; [done|]. split; [|split; [apply prefix_length in X; lia|done]].
      destruct X as [C ->]. by rewrite take_app_le by lia.
    + rewrite hostcmp_ok by done. rewrite <- Er. fold P T. rewrite bool_decide_eq_true. rewrite (Ea (T = P)) by apply _. split; [by intros (? & _ & _ & ?)|]. intros [E ->]. repeat split; [lia|lia].
  - rewrite (take_ge T) by lia. rewrite Nat.min_r by lia. destruct (rule_domain r).
    + rewrite bool_decide_eq_true, Pf. split.
      * intros (L & E & _). pose proof (f_equal length E) as Y. rewrite length_take in Y. assert (length T = l) as <- by lia. split; [done|]. split; [by rewrite E at 1|lia].
      * intros (<- & E & L). done.
    + rewrite !bool_decide_eq_true, Dl. split.
      * intros (L & E & L'). rewrite take_ge in E by lia. split; [|done]. apply (f_equal length) in E. lia.
      * intros (<- & ->). rewrite take_ge by lia. done.
Qed.

(** The data of the rules that apply to a host, those of few labels first and otherwise
    in their order. *)
Definition applicable (rules : list (Rule D)) (host : list Z) : list (option D) :=
  seq 0 (S HOST_TABLE_DEPTH) ≫= fun k => rule_data <$> filter (fun r => rule_depth r = k /\ rule_applies host r = true) rules.

Lemma host_rules_ok n rules hl host : table_of n rules hl -> forallb plain_rule rules = true -> name_ok host = true -> all_matches hl (Some host) = Some (applicable rules host).
Proof.
  intros T F Hh. rewrite (host_matches n rules hl host T Hh). unfold found_from, applicable. f_equal. apply bind_ext_in. intros k _. f_equal. apply filter_ext_in. intros r Hr.
  apply at_level_applies; [done|]. rewrite forallb_forall in F. by apply F, list_elem_of_In.
Qed.

Lemma plain_rules_table n rules : (length rules <= n)%nat -> forallb plain_rule rules = true -> exists hl, add_rules rules (AllocateSpace n new_HostLookup) = Some hl /\ table_of n rules hl.
Proof.
  intros L F. apply add_rules_ok; [done|]. apply Forall_forall. intros r Hr. rewrite forallb_forall in F. apply list_elem_of_In, F in Hr. by apply rule_toks_labels.
Qed.

Lemma applicable_perm rules host : applicable rules host ≡ₚ rule_data <$> filter (fun r => rule_applies host r = true) rules.
Proof. unfold applicable. rewrite bind_fmap. apply fmap_Permutation. apply (all_bins_perm rule_depth). intros r _. unfold rule_depth. lia. Qed.

(** C21: The tree of host names implements the list of its rules: after the rules have
    been entered one after the other, the matches [MatchFirst] and [MatchNext] give for a
    host are the data of the rules for the host or for a domain it is in, compared without
    regard to case, each once: first those for every host, then those with one, with two,
    and with three or more labels, and among these in the order they were entered.  Neither
    the index by characters, the array of eight keys nor the hash table it is turned into
    makes a difference.  The host and the names of the rules have no empty label and so no
    dot at the end ([name_ok]); a rule may be a single dot, and has no label that is negated
    with an exclamation mark ([plain_rule]).  Outside of these the code does otherwise: a
    host that ends with a dot finds nothing, though the comments call the dot optional
    ([trailing_dot]), and the negation works only for some rules ([negated_labels]). *)
Theorem host_rules_found n rules host : (length rules <= n)%nat -> forallb plain_rule rules = true -> name_ok host = true ->
  exists hl, add_rules rules (AllocateSpace n new_HostLookup) = Some hl /\ all_matches hl (Some host) = Some (applicable rules host) /\
    applicable rules host ≡ₚ rule_data <$> filter (fun r => rule_applies host r = true) rules.
Proof. intros L F Hh. destruct (plain_rules_table n rules L F) as (hl & E & T). exists hl. split; [done|]. split; [by apply (host_rules_ok n)|apply applicable_perm]. Qed.
End spec.
