(* ===== verification/IpLookup.v ===== *)
(** The matcher of address ranges ([proxy/mgmt2/utils/IpLookup.cc], [IpLookup.h]).

    A table has a slot for each value of an octet.  A range whose ends differ in the octet
    of a level is kept in the [spanning_entries] of the table; the others go down to the
    slot of the octet, and after the last level into an array of its own.  A pointer to a
    table is the table: a search does not change it.  Addresses are 64-bit numbers, of
    which the low 32 bits are used. *)

From S2P Require Import Prelude LibC.

Inductive ip_info_types := IPN_INVALID | IPN_TREE_NODE | IPN_END_NODE.

#[export] Instance ip_info_types_eq_dec : EqDecision ip_info_types.
Proof. solve_decision. Defined.

(** The mask and the shift after [q] levels. *)
Fixpoint cur_mask (q : nat) : Z := match q with O => 0xff000000 | S q' => Z.lor (cur_mask q') (Z.shiftr (cur_mask q') 8) end.
Definition cur_shift_bits (q : nat) : Z := 24 - 8 * Z.of_nat q.

Definition slot_of (addr : Z) (q : nat) : nat := Z.to_nat (Z.land (Z.shiftr (Z.land addr (cur_mask q)) (cur_shift_bits q)) 0xff).

Section IpLookup.
Context {D : Type}.

Record ip_match_el := mkEl { opaque_data : D; range_start : Z; range_end : Z }.

(** A slot points to a table or, after the last level, to an array. *)
Inductive ip_table := mkTable (type : ip_info_types) (next_level : list (option ip_slot)) (spanning_entries : list ip_match_el)
with ip_slot := Level (t : ip_table) | Bin (array : list ip_match_el).

Definition new_table (type : ip_info_types) : ip_table := mkTable type (replicate 256 None) [].

Record IpLookup := mkIp { ip_lookup : ip_table; num_el : Z; table_depth : nat }.

Definition new_IpLookup (depth : nat) : IpLookup := mkIp (new_table IPN_TREE_NODE) 0 (if (2 <=? depth)%nat && (depth <=? 3)%nat then depth else 2).

(** The loop of [NewEntry]: [k] levels are left below [q].  [None]: there is no place for
    the entry. *)
Fixpoint insert_el (k q : nat) (new_el : ip_match_el) (cur : ip_table) : option ip_table :=
  match k with
  | O => None
  | S k' =>
    let '(mkTable type next_level spanning_entries) := cur in
    let addr1 := range_start new_el in
    let addr2 := range_end new_el in
    if negb (Z.land addr1 (cur_mask q) =? Z.land addr2 (cur_mask q)) then Some (mkTable type next_level (spanning_entries ++ [new_el]))
    else
      let cur_slot := slot_of addr1 q in
      let into := fun s => Some (mkTable type (<[cur_slot := Some s]> next_level) spanning_entries) in
      match k', next_level !! cur_slot with
      | _, None => None
      | O, Some None => into (Bin [new_el])
      | O, Some (Some (Bin array)) => into (Bin (array ++ [new_el]))
      | O, Some (Some (Level _)) => None
      | S k'', Some None => t ← insert_el k' (S q) new_el (new_table (if (k'' =? 0)%nat then IPN_END_NODE else IPN_TREE_NODE)); into (Level t)
      | S _, Some (Some (Level t)) => t ← insert_el k' (S q) new_el t; into (Level t)
      | S _, Some (Some (Bin _)) => None
      end
  end.

Definition NewEntry (addr1 addr2 : Z) (opaque_data_in : D) (ip : IpLookup) : option IpLookup :=
  t ← insert_el (table_depth ip) 0 (mkEl opaque_data_in addr1 addr2) (ip_lookup ip);
  Some (mkIp t (i32 (num_el ip + 1)) (table_depth ip)).

(** ** Matching *)

Record IpLookupState := mkState { cur : option ip_table; table_level : nat; search_span : bool; array_slot : Z; addr : Z }.

(** [MatchArray] from element [j] on. *)
Fixpoint match_array (addr : Z) (array : list ip_match_el) (j : Z) : option D * Z :=
  match array with
  | [] => (None, j)
  | e :: array' => if (range_start e <=? addr) && (addr <=? range_end e) then (Some (opaque_data e), j) else match_array addr array' (j + 1)
  end.

Definition MatchArray (s : IpLookupState) (array : list ip_match_el) : option D * IpLookupState :=
  let '(r, j) := match_array (addr s) (drop (Z.to_nat (array_slot s + 1)) array) (array_slot s + 1) in
  (r, mkState (cur s) (table_level s) (search_span s) j (addr s)).

(** The loop of [MatchNext], which the code leaves after at most as many rounds as there
    are levels.  [None]: a slot is not what the level says. *)
Fixpoint match_next (fuel : nat) (ip : IpLookup) (s : IpLookupState) : option (option D * IpLookupState) :=
  match fuel with
  | O => None
  | S fuel' =>
    if negb (table_level s <? table_depth ip)%nat then Some (None, s)
    else match cur s with
    | None => Some (None, s)
    | Some (mkTable _ next_level spanning_entries) =>
      let '(r, s) := if search_span s then MatchArray s spanning_entries else (None, s) in
      match r with
      | Some d => Some (Some d, s)
      | None =>
        let s := if search_span s then mkState (cur s) (table_level s) false (-1) (addr s) else s in
        slot ← next_level !! slot_of (addr s) (table_level s);
        if (table_level s + 1 =? table_depth ip)%nat then
          '(r, s) ← match slot with None => Some (None, s) | Some (Bin search_bin) => Some (MatchArray s search_bin) | Some (Level _) => None end;
          match r with
          | Some d => Some (Some d, s)
          | None => match_next fuel' ip (mkState (cur s) (S (table_level s)) (search_span s) (array_slot s) (addr s))
          end
        else
          match slot with
          | None => Some (None, mkState None (S (table_level s)) true (array_slot s) (addr s))
          | Some (Level t) => match_next fuel' ip (mkState (Some t) (S (table_level s)) true (array_slot s) (addr s))
          | Some (Bin _) => None
          end
      end
    end
  end.

Definition MatchNext (ip : IpLookup) (s : IpLookupState) : option (option D * IpLookupState) := match_next (S (table_depth ip)) ip s.

Definition first_state (ip : IpLookup) (a : Z) : IpLookupState := mkState (Some (ip_lookup ip)) 0 true (-1) (htonl a).

Definition MatchFirst (ip : IpLookup) (a : Z) : option (option D * IpLookupState) := MatchNext ip (first_state ip a).

(** [Match]: one match, and its data. *)
Definition Match (ip : IpLookup) (a : Z) : option (option D) := if num_el ip =? 0 then Some None else fst <$> MatchFirst ip a.

(** The loop of the clients. *)
Fixpoint all_next (fuel : nat) (ip : IpLookup) (r : option (option D * IpLookupState)) : option (list D) :=
  match fuel with
  | O => None
  | S fuel' => '(d, s) ← r; match d with None => Some [] | Some d => ds ← all_next fuel' ip (MatchNext ip s); Some (d :: ds) end
  end.

Definition all_matches (fuel : nat) (ip : IpLookup) (a : Z) : option (list D) := all_next fuel ip (MatchFirst ip a).
End IpLookup.

#[global] Arguments ip_table : clear implicits.
#[global] Arguments ip_slot : clear implicits.
#[global] Arguments ip_match_el : clear implicits.
#[global] Arguments IpLookup : clear implicits.

(** * What the matcher of address ranges finds: the data of the ranges an address is in. *)

(** ** Octets *)

Definition address (x : Z) : Prop := 0 <= x < 2 ^ 32.

Lemma cur_mask_ones q : (q <= 2)%nat -> cur_mask q = Z.shiftl (Z.ones (8 + 8 * Z.of_nat q)) (cur_shift_bits q).
Proof. destruct q as [|[|[|q]]]; [done|done|done|lia]. Qed.

(** The octets from the first to that of level [q]. *)
Definition leading (x : Z) (q : nat) : Z := x / 2 ^ cur_shift_bits q.

Lemma shift_range q : (q <= 2)%nat -> 8 <= cur_shift_bits q.
Proof. unfold cur_shift_bits. lia. Qed.

Lemma land_mask x q : (q <= 2)%nat -> address x -> Z.land x (cur_mask q) = Z.shiftl (leading x q) (cur_shift_bits q).
Proof.
  intros L A. rewrite cur_mask_ones by done. pose proof (shift_range q L) as R. unfold leading. rewrite <- Z.shiftr_div_pow2 by lia. rewrite <- (wrapu_id 32 x A). unfold cur_shift_bits in *. bitblast.
Qed.

Lemma same_octets x y q : (q <= 2)%nat -> address x -> address y -> Z.land x (cur_mask q) = Z.land y (cur_mask q) <-> leading x q = leading y q.
Proof.
  intros L Hx Hy. rewrite !land_mask by done. pose proof (shift_range q L). rewrite !Z.shiftl_mul_pow2 by lia. pose proof (Z.pow_pos_nonneg 2 (cur_shift_bits q) ltac:(lia) ltac:(lia)). nia.
Qed.

Lemma slot_of_lt x q : (slot_of x q < 256)%nat.
Proof. unfold slot_of. change 255 with (Z.ones 8). rewrite Z.land_ones by lia. pose proof (Z.mod_pos_bound (Z.shiftr (Z.land x (cur_mask q)) (cur_shift_bits q)) (2 ^ 8) ltac:(lia)). lia. Qed.

Lemma slot_leading x y q : (q <= 2)%nat -> address x -> address y -> leading x q = leading y q -> slot_of x q = slot_of y q.
Proof. intros L Hx Hy E. unfold slot_of. by rewrite (proj2 (same_octets x y q L Hx Hy) E). Qed.

Lemma leading_mono x y q : (q <= 2)%nat -> x <= y -> leading x q <= leading y q.
Proof. intros L H. apply Z.div_le_mono; [|done]. pose proof (shift_range q L). apply Z.pow_pos_nonneg; lia. Qed.

Lemma htonl_address x : address (htonl x).
Proof.
  unfold address. assert (E : htonl x = wrapu 32 (htonl x)); [|rewrite E; apply wrapu_range; lia].
  unfold htonl. change 255 with (Z.ones 8). bitblast.
Qed.

(** ** Ranges *)

Section ranges.
Context {D : Type}.
Implicit Types (e : ip_match_el D) (t : ip_table D).

Definition range_ok e : Prop := address (range_start e) /\ address (range_end e) /\ range_start e <= range_end e.

Definition contains (x : Z) e : bool := (range_start e <=? x) && (x <=? range_end e).

(** The level a range is kept at: how many octets its ends share, of [k] from the
    [q]th. *)
Fixpoint range_level (k q : nat) e : nat :=
  match k with O => 0 | S k' => if leading (range_start e) q =? leading (range_end e) q then S (range_level k' (S q) e) else 0 end.

(** An address comes by the place of a range. *)
Fixpoint comes_by (k q : nat) e (x : Z) : bool :=
  match k with
  | O => true
  | S k' => if leading (range_start e) q =? leading (range_end e) q then (slot_of x q =? slot_of (range_start e) q)%nat && comes_by k' (S q) e x else true
  end.

Lemma contains_comes_by k q e x : (k + q <= 3)%nat -> range_ok e -> address x -> contains x e = true -> comes_by k q e x = true.
Proof.
  intros L (H1 & H2 & _) Hx C. unfold contains in C. bsimp. revert q L. induction k as [|k IH]; intros q L; [done|]. cbn [comes_by].
  destruct (Z.eqb_spec (leading (range_start e) q) (leading (range_end e) q)) as [E|]; [|done]. rewrite IH by lia. rewrite andb_true_r. apply Nat.eqb_eq. apply slot_leading; [lia|done|done|].
  pose proof (leading_mono (range_start e) x q ltac:(lia) ltac:(lia)). pose proof (leading_mono x (range_end e) q ltac:(lia) ltac:(lia)). lia.
Qed.

(** ** The tables *)

(** A table with [k] levels. *)
Fixpoint table_ok (k : nat) t : Prop :=
  match k with
  | O => False
  | S k' =>
    let '(mkTable _ nl _) := t in
    length nl = 256%nat /\ forall i s, nl !! i = Some (Some s) -> match k', s with O, Bin _ => True | S _, Level t' => table_ok k' t' | _, _ => False end
  end.

Lemma new_table_ok k ty : (0 < k)%nat -> table_ok k (new_table ty).
Proof. intros L. destruct k; [lia|]. split; [done|]. intros i s E. apply lookup_replicate in E as [E _]. done. Qed.

(** The entries an address comes by, for each level. *)
Fixpoint along (k q : nat) t (x : Z) : list (list (ip_match_el D)) :=
  match k with
  | O => []
  | S k' =>
    let '(mkTable _ nl sp) := t in
    sp :: match nl !! slot_of x q with Some (Some (Level t')) => along k' (S q) t' x | Some (Some (Bin l)) => [l] | _ => replicate k [] end
  end.

Lemma along_new k q ty x : (0 < k)%nat -> along k q (new_table ty) x = replicate (S k) [].
Proof. intros L. destruct k; [lia|]. cbn [along new_table]. by rewrite lookup_replicate_2 by apply slot_of_lt. Qed.

Lemma insert_ok k q e t : (0 < k)%nat -> (k + q <= 3)%nat -> range_ok e -> table_ok k t ->
  exists t', insert_el k q e t = Some t' /\ table_ok k t' /\
    forall x, along k q t' x = if comes_by k q e x then alter (fun l => l ++ [e]) (range_level k q e) (along k q t x) else along k q t x.
Proof.
  revert q t. induction k as [|k IH]; intros q [ty nl sp] Lk L Hr Ht; [lia|]. destruct Ht as [Ln Ht]. pose proof Hr as (H1 & H2 & _). cbn [insert_el comes_by range_level].
  pose proof (same_octets (range_start e) (range_end e) q ltac:(lia) H1 H2) as So.
  destruct (Z.eqb_spec (Z.land (range_start e) (cur_mask q)) (Z.land (range_end e) (cur_mask q))) as [Eq|Nq]; cbn [negb].
  - rewrite (proj2 (Z.eqb_eq (leading _ _) _)) by (by apply So). set (i := slot_of (range_start e) q). assert (Li : (i < length nl)%nat) by (rewrite Ln; apply slot_of_lt).
    destruct (lookup_lt_is_Some_2 nl i Li) as [s Es].
    (* the slot becomes [s'], and what is behind it is as it should be *)
    assert (Into : forall s', (match k, s' with O, Bin _ => True | S _, Level t' => table_ok k t' | _, _ => False end) ->
      (forall x, slot_of x q = i -> match s' with Level t' => along k (S q) t' x | Bin l => [l] end =
         let below := match s with Some (Level t') => along k (S q) t' x | Some (Bin l) => [l] | _ => replicate (S k) [] end in
         if comes_by k (S q) e x then alter (fun l => l ++ [e]) (range_level k (S q) e) below else below) ->
      exists t', Some (mkTable ty (<[i := Some s']> nl) sp) = Some t' /\ table_ok (S k) t' /\
        forall x, along (S k) q t' x = if (slot_of x q =? i)%nat && comes_by k (S q) e x then alter (fun l => l ++ [e]) (S (range_level k (S q) e)) (along (S k) q (mkTable ty nl sp) x) else along (S k) q (mkTable ty nl sp) x).
    { intros s' Hs Hx. eexists. split; [done|]. split.
      - split; [by rewrite length_insert|]. intros j s1. rewrite list_lookup_insert. case_decide; [by intros [= <-]|apply Ht].
      - intros x. cbn [along]. destruct (Nat.eqb_spec (slot_of x q) i) as [E|N]; cbn [andb].
        + rewrite E, list_lookup_insert_eq by done. rewrite Es. specialize (Hx x E). cbn zeta in Hx. destruct s as [[t1|l1]|]; destruct s' as [t2|l2]; rewrite Hx; by destruct (comes_by k (S q) e x).
        + by rewrite list_lookup_insert_ne by done. }
    rewrite Es. destruct k as [|k].
    + destruct s as [[t1|l1]|]; [by apply Ht in Es|apply Into; [done|by intros]|apply Into; [done|by intros]].
    + destruct s as [[t1|l1]|]; [| by apply Ht in Es|].
      * destruct (IH (S q) t1 ltac:(lia) ltac:(lia) Hr (Ht _ _ Es)) as (t2 & -> & O2 & A2). cbn [mbind option_bind]. apply Into; [done|]. intros x _. apply A2.
      * destruct (IH (S q) (new_table (if (k =? 0)%nat then IPN_END_NODE else IPN_TREE_NODE)) ltac:(lia) ltac:(lia) Hr (new_table_ok (S k) _ ltac:(lia))) as (t2 & -> & O2 & A2). cbn [mbind option_bind].
        apply Into; [done|]. intros x _. rewrite A2. by rewrite along_new by lia.
  - rewrite (proj2 (Z.eqb_neq (leading _ _) _)) by (intros E; by apply So in E). eexists. split; [done|]. split; [done|]. done.
Qed.

(** ** A table with its entries *)

Record ip_ok (es : list (ip_match_el D)) (ip : IpLookup D) : Prop := mkIpOk {
  ip_depth : (2 <= table_depth ip <= 3)%nat;
  ip_table_ok : table_ok (table_depth ip) (ip_lookup ip);
  ip_along : forall x l, (l <= table_depth ip)%nat ->
    along (table_depth ip) 0 (ip_lookup ip) x !! l = Some (filter (fun e => range_level (table_depth ip) 0 e = l /\ comes_by (table_depth ip) 0 e x = true) es) }.

Lemma along_length k q t x : table_ok k t -> length (along k q t x) = S k.
Proof.
  revert q t. induction k as [|k IH]; intros q [ty nl sp] H; [done|]. destruct H as [_ H]. cbn [along length]. f_equal. destruct (nl !! slot_of x q) as [[[t'|l]|]|] eqn:E; [| |by rewrite length_replicate|by rewrite length_replicate].
  - apply H in E. destruct k; [done|]. by apply IH.
  - apply H in E. by destruct k.
Qed.

Lemma new_lookup_ok depth : ip_ok [] (new_IpLookup depth).
Proof.
  unfold new_IpLookup. set (d := if (2 <=? depth)%nat && (depth <=? 3)%nat then depth else 2%nat). assert (Hd : (2 <= d <= 3)%nat) by (subst d; destruct (Nat.leb_spec 2 depth), (Nat.leb_spec depth 3); cbn; lia).
  constructor; cbn [table_depth ip_lookup]; [done|apply new_table_ok; lia|]. intros x l L. rewrite along_new by lia. rewrite lookup_replicate_2 by lia. done.
Qed.

Lemma range_level_le k q e : (range_level k q e <= k)%nat.
Proof. revert q. induction k as [|k IH]; intros q; [done|]. cbn [range_level]. specialize (IH (S q)). case_match; lia. Qed.

Lemma new_range_ok es e ip : ip_ok es ip -> range_ok e -> exists ip', NewEntry (range_start e) (range_end e) (opaque_data e) ip = Some ip' /\ ip_ok (es ++ [e]) ip' /\ table_depth ip' = table_depth ip.
Proof.
  intros [Hd Ht Ha] Hr. unfold NewEntry. replace (mkEl (opaque_data e) (range_start e) (range_end e)) with e by (by destruct e).
  destruct (insert_ok (table_depth ip) 0 e (ip_lookup ip) ltac:(lia) ltac:(lia) Hr Ht) as (t' & -> & Ht' & Ha'). cbn [mbind option_bind]. eexists. split; [done|]. split; [|done].
  constructor; cbn [table_depth ip_lookup]; [done|done|]. intros x l L. rewrite Ha', filter_app, filter_cons, filter_nil. specialize (Ha x l L). destruct (comes_by (table_depth ip) 0 e x) eqn:Cb.
  - destruct (decide (range_level (table_depth ip) 0 e = l)) as [->|N].
    + rewrite list_lookup_alter_eq, Ha. cbn [fmap option_fmap option_map]. by rewrite decide_True.
    + rewrite list_lookup_alter_ne by done. rewrite Ha. rewrite decide_False by naive_solver. by rewrite app_nil_r.
  - rewrite Ha. rewrite decide_False by naive_solver. by rewrite app_nil_r.
Qed.

Fixpoint add_ranges (es : list (ip_match_el D)) (ip : IpLookup D) : option (IpLookup D) :=
  match es with [] => Some ip | e :: es' => ip' ← NewEntry (range_start e) (range_end e) (opaque_data e) ip; add_ranges es' ip' end.

Lemma add_ranges_ok es depth : Forall range_ok es -> exists ip, add_ranges es (new_IpLookup depth) = Some ip /\ ip_ok es ip.
Proof.
  intros F. assert (G : forall dn ip, ip_ok dn ip -> exists ip', add_ranges es ip = Some ip' /\ ip_ok (dn ++ es) ip').
  { induction F as [|e es He F IH]; intros dn ip H; [exists ip; by rewrite app_nil_r|]. cbn [add_ranges]. destruct (new_range_ok dn e ip H He) as (ip1 & -> & H1 & _). cbn [mbind option_bind].
    destruct (IH _ ip1 H1) as (ip2 & -> & H2). exists ip2. by rewrite <- app_assoc in H2. }
  by apply (G [] _ (new_lookup_ok depth)).
Qed.

(** ** The search *)

Section search.
Variables (ip : IpLookup D) (x : Z).
Hypothesis Hd : (0 < table_depth ip)%nat.
Notation C := (fun e => contains x e = true).

Lemma range_array_ok l j : match filter C l with
  | [] => match_array x l j = (None, j + Z.of_nat (length l))
  | e :: R => exists k, (k < length l)%nat /\ match_array x l j = (Some (opaque_data e), j + Z.of_nat k) /\ filter C (drop (S k) l) = R
  end.
Proof.
  revert j. induction l as [|e l IH]; intros j; [cbn; f_equal; lia|]. rewrite filter_cons. cbn [match_array]. fold (contains x e). destruct (contains x e) eqn:E.
  - rewrite decide_True by done. exists 0%nat. split; [cbn; lia|]. split; [f_equal; lia|done].
  - rewrite decide_False by done. specialize (IH (j + 1)). destruct (filter C l) as [|e' R]; [rewrite IH; cbn [length]; f_equal; lia|]. destruct IH as (k & L & -> & EF). exists (S k). split; [cbn; lia|]. split; [f_equal; lia|done].
Qed.

Lemma MatchArray_ok s l : addr s = x -> -1 <= array_slot s -> match filter C (drop (Z.to_nat (array_slot s + 1)) l) with
  | [] => exists j, MatchArray s l = (None, mkState (cur s) (table_level s) (search_span s) j x)
  | e :: R => exists j, -1 <= j /\ MatchArray s l = (Some (opaque_data e), mkState (cur s) (table_level s) (search_span s) j x) /\ filter C (drop (Z.to_nat (j + 1)) l) = R
  end.
Proof.
  intros Ea La. unfold MatchArray. rewrite Ea. pose proof (range_array_ok (drop (Z.to_nat (array_slot s + 1)) l) (array_slot s + 1)) as M. destruct (filter C (drop _ l)) as [|e R].
  - rewrite M. by eexists.
  - destruct M as (k & L & -> & EF). eexists. split; [|split; [done|]]; [lia|]. rewrite drop_drop in EF. rewrite <- EF. f_equal. f_equal. lia.
Qed.

(** The search stands in the spanning entries of a table, or in the array of a slot; [R] is
    what it has still to find. *)
Definition in_table (s : IpLookupState) (R : list (ip_match_el D)) : Prop :=
  exists ty nl sp, cur s = Some (mkTable ty nl sp) /\ (table_level s < table_depth ip)%nat /\ addr s = x /\ -1 <= array_slot s /\
    table_ok (table_depth ip - table_level s) (mkTable ty nl sp) /\
    ((search_span s = true /\ R = filter C (drop (Z.to_nat (array_slot s + 1)) sp) ++ filter C (concat (tail (along (table_depth ip - table_level s) (table_level s) (mkTable ty nl sp) x)))) \/
     (search_span s = false /\ (table_level s + 1 = table_depth ip)%nat /\ exists l, nl !! slot_of x (table_level s) = Some (Some (Bin l)) /\ R = filter C (drop (Z.to_nat (array_slot s + 1)) l))).

Lemma range_next_ok fuel s R : in_table s R -> (table_depth ip < fuel + table_level s)%nat ->
  match R with
  | [] => exists s', match_next fuel ip s = Some (None, s')
  | e :: R' => exists s', match_next fuel ip s = Some (Some (opaque_data e), s') /\ in_table s' R'
  end.
Proof.
  revert s R. induction fuel as [|fuel IH]; intros s R S Lf; [destruct S as (? & ? & ? & _ & L & _); lia|]. pose proof S as (ty & nl & sp & Ec & L & Ea & La & Ht & Hs).
  destruct (table_depth ip - table_level s)%nat as [|k] eqn:Ek; [lia|]. pose proof Ht as [Ln Hn].
  destruct (lookup_lt_is_Some_2 nl (slot_of x (table_level s)) ltac:(rewrite Ln; apply slot_of_lt)) as [slot Esl].
  cbn [match_next]. rewrite (proj2 (Nat.ltb_lt _ _)) by done. cbn [negb]. rewrite Ec.
  (* the slot, after the spanning entries *)
  assert (Below : forall s1, cur s1 = Some (mkTable ty nl sp) -> table_level s1 = table_level s -> search_span s1 = false -> addr s1 = x -> -1 <= array_slot s1 ->
    forall R1, ((table_level s + 1)%nat = table_depth ip -> R1 = filter C (drop (Z.to_nat (array_slot s1 + 1)) (match slot with Some (Bin l) => l | _ => [] end))) ->
    ((table_level s + 1)%nat <> table_depth ip -> R1 = filter C (concat (tail (along (Datatypes.S k) (table_level s) (mkTable ty nl sp) x))) /\ array_slot s1 = -1) ->
    let go := if (table_level s1 + 1 =? table_depth ip)%nat then
          '(r, s) ← match slot with None => Some (None, s1) | Some (Bin search_bin) => Some (MatchArray s1 search_bin) | Some (Level _) => None end;
          match r with
          | Some d => Some (Some d, s)
          | None => match_next fuel ip (mkState (cur s) (Datatypes.S (table_level s)) (search_span s) (array_slot s) (addr s))
          end
        else
          match slot with
          | None => Some (None, mkState None (Datatypes.S (table_level s1)) true (array_slot s1) (addr s1))
          | Some (Level t) => match_next fuel ip (mkState (Some t) (Datatypes.S (table_level s1)) true (array_slot s1) (addr s1))
          | Some (Bin _) => None
          end in
    match R1 with [] => exists s', go = Some (None, s') | e :: R' => exists s', go = Some (Some (opaque_data e), s') /\ in_table s' R' end).
  { intros s1 E1 E2 E3 E4 E5 R1 HR1 HR2. cbn zeta. rewrite E2. destruct (Nat.eqb_spec (table_level s + 1) (table_depth ip)) as [El|Nl].
    - rewrite HR1 by done. assert (End : forall c j, match_next fuel ip (mkState c (Datatypes.S (table_level s)) false j x) = Some (None, mkState c (Datatypes.S (table_level s)) false j x)).
      { intros c j. destruct fuel as [|fuel]; [lia|]. cbn [match_next table_level]. rewrite (proj2 (Nat.ltb_ge _ _)) by lia. done. }
      destruct slot as [[t1|l1]|].
      + apply Hn in Esl. destruct k; [done|lia].
      + pose proof (MatchArray_ok s1 l1 E4 E5) as M. destruct (filter C (drop _ l1)) as [|e R'].
        * destruct M as (j & ->). cbn [mbind option_bind cur table_level search_span array_slot addr]. rewrite E2, E3, End. by eexists.
        * destruct M as (j & Lj & -> & EF). cbn [mbind option_bind]. eexists. split; [done|]. exists ty, nl, sp. cbn [cur table_level search_span array_slot addr]. rewrite E2. rewrite Ek. do 5 (split; [done|]). right. split; [done|]. split; [done|]. by exists l1.
      + rewrite drop_nil, filter_nil. cbn [mbind option_bind]. rewrite E2, E3, E4, End. by eexists.
    - destruct (HR2 Nl) as [-> Es]. cbn [along tail]. rewrite Esl. destruct slot as [[t1|l1]|].
      + apply Hn in Esl as O. destruct k as [|k]; [done|]. destruct t1 as [ty1 nl1 sp1]. rewrite E4, Es. apply IH; [|cbn [table_level]; lia]. exists ty1, nl1, sp1. cbn [cur table_level search_span array_slot addr].
        replace (table_depth ip - Datatypes.S (table_level s))%nat with (Datatypes.S k) by lia. split; [done|]. split; [lia|]. do 3 (split; [done|]). left. split; [done|]. change (Z.to_nat (-1 + 1)) with 0%nat. rewrite drop_0.
        cbn [along tail concat]. rewrite filter_app. done.
      + apply Hn in Esl. destruct k; [lia|done].
      + assert (Ez : forall m, filter C (concat (replicate m (@nil (ip_match_el D)))) = []) by (intros m; induction m; done). cbn [along]. rewrite Ez. by eexists. }
  destruct Hs as [[Sp ->]|(Sp & Ll & l & El & ->)]; rewrite Sp.
  - pose proof (MatchArray_ok s sp Ea La) as M. destruct (filter C (drop _ sp)) as [|e R'].
    + destruct M as (j & ->). cbn [app mbind option_bind]. rewrite Sp. cbn [search_span table_level addr cur]. rewrite Esl. cbn [mbind option_bind]. apply (Below (mkState (cur s) (table_level s) false (-1) x)); try done.
      intros Ll. change (Z.to_nat (array_slot (mkState (cur s) (table_level s) false (-1) x) + 1)) with 0%nat. rewrite drop_0. assert (k = 0)%nat as -> by lia. cbn [along tail]. rewrite Esl. destruct slot as [[t1|l1]|]; [done| |done]. cbn [concat]. by rewrite app_nil_r.
    + destruct M as (j & Lj & -> & EF). cbn [app]. eexists. split; [done|]. exists ty, nl, sp. cbn [cur table_level search_span array_slot addr]. rewrite Ek. do 5 (split; [done|]). left. split; [done|]. by rewrite EF.
  - rewrite Sp. rewrite Ea, Esl. cbn [mbind option_bind]. rewrite El in Esl. injection Esl as <-. apply (Below s); try done; lia.
Qed.

Lemma ranges_next_ok fuel s R : in_table s R -> (length R < fuel)%nat -> all_next fuel ip (MatchNext ip s) = Some (opaque_data <$> R).
Proof.
  revert s R. induction fuel as [|fuel IH]; intros s R S L; [lia|]. cbn [all_next]. change (MatchNext ip s) with (match_next (Datatypes.S (table_depth ip)) ip s). pose proof (range_next_ok (Datatypes.S (table_depth ip)) s R S ltac:(lia)) as M. destruct R as [|e R].
  - destruct M as (s' & ->). done.
  - destruct M as (s' & -> & S'). cbn [mbind option_bind]. rewrite (IH s' R S') by (cbn in L; lia). done.
Qed.
End search.

(** A range counts for a level by the octets its ends share. *)
Definition in_range (ip_levels : nat) (es : list (ip_match_el D)) (x : Z) : list (ip_match_el D) :=
  seq 0 (S ip_levels) ≫= fun l => filter (fun e => range_level ip_levels 0 e = l /\ contains x e = true) es.

Lemma filter_concat {A} (Q : A -> Prop) `{!forall y, Decision (Q y)} (ls : list (list A)) : filter Q (concat ls) = concat (filter Q <$> ls).
Proof. induction ls as [|l ls IH]; [done|]. cbn [concat fmap list_fmap]. by rewrite filter_app, IH. Qed.

Lemma found_ok es ip x : ip_ok es ip -> Forall range_ok es -> address x ->
  filter (fun e => contains x e = true) (concat (along (table_depth ip) 0 (ip_lookup ip) x)) = in_range (table_depth ip) es x.
Proof.
  intros [Hd Ht Ha] F Hx. rewrite filter_concat. unfold in_range. change (seq 0 (S (table_depth ip)) ≫= ?f) with (mbind (M := list) f (seq 0 (S (table_depth ip)))).
  assert (E : (filter (fun e => contains x e = true)) <$> along (table_depth ip) 0 (ip_lookup ip) x = (fun l => filter (fun e => range_level (table_depth ip) 0 e = l /\ contains x e = true) es) <$> seq 0 (S (table_depth ip))).
  { apply list_eq_same_length with (n := S (table_depth ip)); [by rewrite length_fmap, length_seq|by rewrite length_fmap, along_length|]. intros l a b L. rewrite !list_lookup_fmap. rewrite Ha by lia. rewrite lookup_seq_lt by lia.
    cbn [fmap option_fmap option_map]. intros [= <-] [= <-]. rewrite list_filter_filter. apply filter_ext_in. intros e He. pose proof (proj1 (Forall_forall _ _) F e He) as Hr. pose proof (contains_comes_by (table_depth ip) 0 e x ltac:(lia) Hr Hx). naive_solver. }
  rewrite E. generalize (seq 0 (S (table_depth ip))). intros ls. induction ls as [|l ls IH]; [done|]. cbn [fmap list_fmap concat mbind list_bind]. by rewrite IH.
Qed.

Lemma ranges_found es ip a fuel : ip_ok es ip -> Forall range_ok es -> (length (in_range (table_depth ip) es (htonl a)) < fuel)%nat -> all_matches fuel ip a = Some (opaque_data <$> in_range (table_depth ip) es (htonl a)).
Proof.
  intros H F L. pose proof (htonl_address a) as Hx. pose proof (found_ok es ip (htonl a) H F Hx) as E. pose proof H as [Hd Ht _]. unfold all_matches, MatchFirst. apply (ranges_next_ok ip (htonl a)); [lia| |done].
  unfold in_table, first_state. cbn [cur table_level addr array_slot search_span]. destruct (ip_lookup ip) as [ty nl sp] eqn:El. exists ty, nl, sp. split; [done|]. split; [lia|]. do 2 (split; [done|]). rewrite Nat.sub_0_r. split; [done|]. left. split; [done|].
  rewrite <- E. change (Z.to_nat (-1 + 1)) with 0%nat. rewrite drop_0. destruct (table_depth ip) as [|k]; [lia|]. cbn [along concat tail]. by rewrite filter_app.
Qed.
Lemma in_range_perm k es x : in_range k es x ≡ₚ filter (fun e => contains x e = true) es.
Proof. unfold in_range. apply (all_bins_perm (range_level k 0)). intros e _. apply range_level_le. Qed.

(** C22: The tables of addresses implement the list of ranges: after the ranges have been
    entered one after the other, the matches [MatchFirst] and [MatchNext] give for an
    address are the data of the ranges it is in, each once: first those of the ranges
    whose ends differ in the first octet, then those whose ends share one octet, and so on
    to the depth of the table, and among these in the order they were entered. *)
Theorem ip_ranges_found es depth a : Forall range_ok es ->
  exists ip, add_ranges es (new_IpLookup depth) = Some ip /\ all_matches (S (length es)) ip a = Some (opaque_data <$> in_range (table_depth ip) es (htonl a)) /\
    in_range (table_depth ip) es (htonl a) ≡ₚ filter (fun e => contains (htonl a) e = true) es.
Proof.
  intros F. destruct (add_ranges_ok es depth F) as (ip & E & H). exists ip. split; [done|]. split; [|apply in_range_perm].
  apply ranges_found; [done|done|]. rewrite in_range_perm. pose proof (length_filter (fun e => contains (htonl a) e = true) es). lia.
Qed.
End ranges.
