(* ===== verification/MatcherUtils.v ===== *)
(** The helpers that read the configuration files ([libinktomi++/MatcherUtils.cc],
    [MatcherUtils.h]).

    A string is the list of its characters; where the code writes into it, a buffer, whose
    NULs are in the list, and a pointer into the buffer is an index. *)

From S2P Require Import Prelude ParseRules LibC Tokenizer.
From Stdlib Require Import Ascii.

(** ** Unescaping *)

Definition char_of (x : Z) : Z := u8 x.

(** The bytes that [unescapifyStr] writes. *)
Fixpoint unescape (s : list Z) : list Z :=
  match s with
  | [] => []
  | c :: s' =>
    match c =? ch "%", s' with
    | true, a :: b :: rest => char_of (strtol16 [a; b]) :: unescape rest
    | _, _ => (if c =? ch "+" then ch " " else c) :: unescape s'
    end
  end.

(** The string that is then in the buffer. *)
Definition unescapifyStr (s : list Z) : list Z := c_string (unescape s).

(** ** Address ranges *)

Section ExtractIpRange.
(** [inet_addr]: the address, its bytes in network order, or [2^32 - 1]. *)
Variable inet_addr : list Z -> Z.

(** An address, as the 64-bit [ip_addr_t] it is kept in; a null pointer crashes. *)
Definition read_addr (tok : option (list Z)) : option Z := t ← tok; Some (htonl (inet_addr t)).

Definition malformed (addr : Z) (tok : option (list Z)) : bool := (addr =? 2 ^ 64 - 1) && negb (bool_decide (tok = Some (chars "255.255.255.255"))).

Definition check_range (addr1 addr2 : Z) : list Z + Z * Z := if addr1 >? addr2 then inl (chars "range start greater than range end") else inr (addr1, addr2).

(** An error, or the ends of the range. *)
Definition ExtractIpRange (match_str : list Z) : option (list Z + Z * Z) :=
  let mask := existsb (Z.eqb (ch "/")) match_str in
  let '(numToks, rangeTok) := Initialize (new_Tokenizer (chars "-/")) match_str false in
  if numToks <? 0 then Some (inl (chars "no IP address given"))
  else if numToks >? 2 then Some (inl (chars "malformed IP range"))
  else
    addr1 ← read_addr (get_token rangeTok 0);
    if malformed addr1 (get_token rangeTok 0) then Some (inl (chars "malformed ip address"))
    else if numToks =? 2 then
      if mask then
        match scan_d (default [] (get_token rangeTok 1)) with
        | None => Some (inl (chars "bad mask specification"))
        | Some mask_bits =>
          if negb ((0 <=? mask_bits) && (mask_bits <=? 32)) then Some (inl (chars "invalid mask specification"))
          else
            let mask_val := if mask_bits =? 32 then 0 else i32 (Z.shiftr 0xffffffff mask_bits) in
            Some (check_range (Z.land addr1 (Z.lxor (u32 mask_val) 0xffffffff)) (u64 (Z.lor addr1 (u64 mask_val))))
        end
      else
        addr2 ← read_addr (get_token rangeTok 1);
        if malformed addr2 (get_token rangeTok 1) then Some (inl (chars "malformed ip address at range end")) else Some (check_range addr1 addr2)
    else Some (inr (addr1, addr1)).
End ExtractIpRange.

(** ** Lines *)

Fixpoint scan_line (buf : list Z) (cur : nat) (fuel : nat) : option (nat * bool) :=
  match fuel with
  | O => None
  | S fuel' => c ← buf !! cur; if c =? 0 then Some (cur, false) else if c =? ch "010" then Some (cur, true) else scan_line buf (S cur) fuel'
  end.

(** [tokLine]: [buf] is the null pointer on the calls after the first.  The place of the
    line, the buffer and [last]; outer [None]: it reads past the buffer. *)
Definition tokLine (first : bool) (buf : list Z) (last : nat) : option (option nat * list Z * nat) :=
  let start := if first then 0%nat else S last in
  let last := if first then 0%nat else last in
  '(cur, newline) ← scan_line buf start (S (length buf));
  if newline : bool then Some (Some start, <[cur := 0]> buf, cur)
  else if (S last <? cur)%nat then Some (Some start, buf, (cur - 1)%nat)
  else Some (None, buf, last).

(** ** Durations *)

Definition unit_seconds (unit : Z) : list Z + Z :=
  if unit =? ch "w" then inr (7 * 24 * 60 * 60)
  else if unit =? ch "d" then inr (24 * 60 * 60)
  else if unit =? ch "h" then inr (60 * 60)
  else if unit =? ch "m" then inr 60
  else if unit =? ch "s" then inr 1
  else if unit =? ch "-" then inl (chars "Negative time not permitted")
  else inl (chars "Invalid time unit specified").

(** The loop: [s] is what lies between [s] and [current]. *)
Fixpoint duration_loop (str s : list Z) (result : Z) : list Z + Z :=
  match str with
  | [] =>
    match s with
    | [] => inr result
    | _ => match scan_d s with None => inl (chars "Malformed time") | Some tmp => inr (i32 (result + tmp)) end
    end
  | c :: str' =>
    if is_digit c then duration_loop str' (s ++ [c]) result
    else match s with
    | [] => inl (chars "Malformed time")
    | _ =>
      match unit_seconds c with
      | inl err => inl err
      | inr multiplier => match scan_d s with None => inl (chars "Malformed time") | Some tmp => duration_loop str' [] (i32 (result + i32 (multiplier * tmp))) end
      end
    end
  end.

(** A null pointer is no time. *)
Definition processDurationString (str : option (list Z)) : list Z + Z :=
  match str with
  | None => inl (chars "Missing time")
  | Some str =>
    match duration_loop str [] 0 with
    | inl err => inl err
    | inr result => if result <? 0 then inl (chars "Time too big") else inr result
    end
  end.

(** ** Lines of labels and values *)

Inductive matcher_type := MATCH_NONE | MATCH_HOST | MATCH_DOMAIN | MATCH_IP | MATCH_REGEX | MATCH_HOST_REGEX.

#[export] Instance matcher_type_eq_dec : EqDecision matcher_type.
Proof. solve_decision. Defined.

Definition MATCHER_MAX_TOKENS : nat := 40.

(** The two arrays of pointers have [MATCHER_MAX_TOKENS] elements each. *)
Record matcher_line := mkLine { ml_type : matcher_type; dest_entry : nat; ml_num_el : Z; line_labels : list (option (list Z)); line_vals : list (option (list Z)); ml_line_num : Z }.

Record matcher_tags := mkTags { match_host : option string; match_domain : option string; match_ip : option string; match_regex : option string; match_host_regex : option string; dest_error_msg : bool }.

Definition http_dest_tags : matcher_tags := mkTags (Some "dest_host"%string) (Some "dest_domain"%string) (Some "dest_ip"%string) (Some "url_regex"%string) (Some "host_regex"%string) true.
Definition ip_allow_tags : matcher_tags := mkTags None None (Some "src_ip"%string) None None false.
Definition socks_server_tags : matcher_tags := mkTags None None (Some "dest_ip"%string) None None false.

Inductive pState := FIND_LABEL | PARSE_LABEL | PARSE_VAL | START_PARSE_VAL | CONSUME.

#[export] Instance pState_eq_dec : EqDecision pState.
Proof. solve_decision. Defined.

(** [pairs] are the labels and values entered in the line so far. *)
Record ParseState := mkParse {
  buf : list Z; pos : nat; state : pState; inQuote : bool; copyForward : option nat; copyFrom : nat; label : nat; val : nat;
  pairs : list (nat * nat); ptype : matcher_type; pdest : nat
}.

Definition at_pos (p : ParseState) (i : nat) : Z := nth i (buf p) 0.

(** [memcpy] inside the buffer.  [None]: the [n] bytes at the two places overlap, and C does
    not say what is then in the buffer. *)
Definition memcpy (dst src n : nat) (b : list Z) : option (list Z) :=
  if ((0 <? n) && (dst <? src + n) && (src <? dst + n))%nat then None else Some (take dst b ++ take n (drop src b) ++ drop (dst + n) b).

Definition QUOTE : Z := 34.

Section update.
Variable p : ParseState.
Definition set_pos (i : nat) (st : pState) : ParseState := mkParse (buf p) i st (inQuote p) (copyForward p) (copyFrom p) (label p) (val p) (pairs p) (ptype p) (pdest p).
Definition set_buf (b : list Z) : ParseState := mkParse b (pos p) (state p) (inQuote p) (copyForward p) (copyFrom p) (label p) (val p) (pairs p) (ptype p) (pdest p).
Definition set_copy (cf : option nat) (cfrom : nat) : ParseState := mkParse (buf p) (pos p) (state p) (inQuote p) cf cfrom (label p) (val p) (pairs p) (ptype p) (pdest p).
Definition set_label (l : nat) : ParseState := mkParse (buf p) (pos p) (state p) (inQuote p) (copyForward p) (copyFrom p) l (val p) (pairs p) (ptype p) (pdest p).
Definition set_val (q : bool) (v : nat) : ParseState := mkParse (buf p) (pos p) (state p) q (copyForward p) (copyFrom p) (label p) v (pairs p) (ptype p) (pdest p).
End update.

(** A backslash in quotes: what is before it moves down over the last one. *)
Definition escape (p : ParseState) : option ParseState :=
  let s := pos p in
  match copyForward p with
  | Some cf => b ← memcpy cf (copyFrom p) (s - copyFrom p) (buf p); Some (set_copy (set_buf p b) (Some (cf + (s - copyFrom p))%nat) (S s))
  | None => Some (set_copy p (Some s) (S s))
  end.

(** [s++], and the end of the line ends the value. *)
Definition next_in_val (p : ParseState) (st : pState) : ParseState := set_pos p (S (pos p)) (if at_pos p (S (pos p)) =? 0 then CONSUME else st).

(** The [switch]. *)
Definition parse_switch (p : ParseState) : option (list Z + ParseState) :=
  let s := pos p in
  let c := at_pos p s in
  match state p with
  | FIND_LABEL => Some (inr (if is_space c then set_pos p (S s) FIND_LABEL else set_pos (set_label p s) (S s) PARSE_LABEL))
  | PARSE_LABEL => Some (inr (if c =? ch "=" then set_pos (set_buf p (<[s := 0]> (buf p))) (S s) START_PARSE_VAL else set_pos p (S s) PARSE_LABEL))
  | START_PARSE_VAL =>
    let q := c =? QUOTE in
    let p := set_val (set_copy p None 0) q (if q || (c =? ch "\") then S s else s) in
    Some (inr (set_pos p (S s) (if negb q && (is_space c || (at_pos p (S s) =? 0)) then CONSUME else PARSE_VAL)))
  | PARSE_VAL =>
    if inQuote p then
      if c =? ch "\" then
        p ← escape p;
        let p := set_pos p (S s) PARSE_VAL in
        Some (inr (if at_pos p (S s) =? 0 then p else next_in_val p PARSE_VAL))
      else Some (inr (if c =? QUOTE then next_in_val (set_buf p (<[s := 0]> (buf p))) CONSUME else next_in_val p PARSE_VAL))
    else if ((c =? ch "\") && is_digit (at_pos p (S s))) || negb (is_char (wraps 8 c)) then Some (inl (chars "Unrecognized encoding scheme"))
    else Some (inr (if is_space c then next_in_val (set_buf p (<[s := 0]> (buf p))) CONSUME else next_in_val p PARSE_VAL))
  | CONSUME => Some (inr p)
  end.

Definition is_tag (tag : option string) (label : list Z) : bool := match tag with Some t => strcasecmp_eq label t | None => false end.

Definition type_of_label (tags : matcher_tags) (label : list Z) : matcher_type :=
  if is_tag (match_ip tags) label then MATCH_IP
  else if is_tag (match_host tags) label then MATCH_HOST
  else if is_tag (match_domain tags) label then MATCH_DOMAIN
  else if is_tag (match_regex tags) label then MATCH_REGEX
  else if is_tag (match_host_regex tags) label then MATCH_HOST_REGEX
  else MATCH_NONE.

(** The string at a place of the buffer. *)
Definition str_at (b : list Z) (i : nat) : list Z := c_string (drop i b).

(** What was copied is moved down over the last backslash. *)
Definition last_copy (p : ParseState) : option (list Z) :=
  match copyForward p with
  | Some cf => let toCopy := (pos p - 1 - copyFrom p)%nat in b ← memcpy cf (copyFrom p) toCopy (buf p); Some (<[(cf + toCopy)%nat := 0]> b)
  | None => Some (buf p)
  end.

(** A value is complete.  The pair that is one too many is written behind the arrays, and
    the line refused. *)
Definition consume (tags : matcher_tags) (p : ParseState) : option (list Z + ParseState) :=
  b ← last_copy p;
  let type := type_of_label tags (str_at b (label p)) in
  let num_el := length (pairs p) in
  if bool_decide (type <> MATCH_NONE) && bool_decide (ptype p <> MATCH_NONE) then
    Some (inl (if dest_error_msg tags then chars "Muliple Destinations Specified" else chars "Muliple Sources Specified"))
  else if (MATCHER_MAX_TOKENS <? S num_el)%nat then Some (inl (chars "Malformed line: Too many tokens"))
  else
    Some (inr (mkParse b (pos p) FIND_LABEL (inQuote p) (copyForward p) (copyFrom p) (label p) (val p) (pairs p ++ [(label p, val p)])
           (if decide (type = MATCH_NONE) then ptype p else type) (if decide (type = MATCH_NONE) then pdest p else num_el))).

Definition parse_round (tags : matcher_tags) (p : ParseState) : option (list Z + ParseState) :=
  r ← parse_switch p;
  match r with
  | inl err => Some (inl err)
  | inr p => if decide (state p = CONSUME) then consume tags p else Some (inr p)
  end.

(** The [do] loop.  A round reads at least a character. *)
Fixpoint parse_loop (fuel : nat) (tags : matcher_tags) (p : ParseState) : option (list Z + ParseState) :=
  match fuel with
  | O => None
  | S fuel' =>
    r ← parse_round tags p;
    match r with
    | inl err => Some (inl err)
    | inr p => if at_pos p (pos p) =? 0 then Some (inr p) else parse_loop fuel' tags p
    end
  end.

Definition pad (l : list (list Z)) : list (option (list Z)) := (Some <$> l) ++ replicate (MATCHER_MAX_TOKENS - length l) None.

Definition parsed_line (p : ParseState) : matcher_line :=
  mkLine (ptype p) (pdest p) (Z.of_nat (length (pairs p))) (pad ((fun x => str_at (buf p) x.1) <$> pairs p)) (pad ((fun x => str_at (buf p) x.2) <$> pairs p)) 0.

(** [None]: a copy overlaps; the fuel is enough. *)
Definition parseConfigLine (line : list Z) (tags : matcher_tags) : option (list Z + matcher_line) :=
  match line with
  | [] => Some (inr (mkLine MATCH_NONE 0 0 (replicate MATCHER_MAX_TOKENS None) (replicate MATCHER_MAX_TOKENS None) 0))
  | _ =>
    r ← parse_loop (S (length line)) tags (mkParse (line ++ [0]) 0 FIND_LABEL false None 0 0 0 [] MATCH_NONE 0);
    Some match r with
    | inl err => inl err
    | inr p =>
      if bool_decide (state p <> CONSUME) && bool_decide (state p <> FIND_LABEL) then inl (chars "Malformed entry")
      else if decide (ptype p = MATCH_NONE) then inl (if dest_error_msg tags then chars "No destination specifier" else chars "No source specifier")
      else inr (parsed_line p)
    end
  end.
