(* ===== verification/MatcherUtilsFacts.v ===== *)
(** What the readers of configuration lines accept: lines that are written come back, and
    durations are sums. *)

From S2P Require Import Prelude ParseRules LibC Tokenizer MatcherUtils.
From Stdlib Require Import Ascii.

(** ** Lines of labels and values *)

Definition BACKSLASH : Z := ch "\".

(** A label with its value as it is written: the value in quotes or bare, and the white
    space behind it. *)
Record word := mkWord { pair : list Z * list Z; in_quotes : bool; gap : list Z }.

Definition special (c : Z) : bool := (c =? QUOTE) || (c =? BACKSLASH).

(** A value in quotes. *)
Definition escaped (v : list Z) : list Z := v ≫= fun c => if special c then [BACKSLASH; c] else [c].

Definition print_value (w : word) : list Z := if in_quotes w then QUOTE :: escaped (pair w).2 ++ [QUOTE] else (pair w).2.

Definition print_word (w : word) : list Z := (pair w).1 ++ ch "=" :: print_value w ++ gap w.

Definition print_line (ws : list word) : list Z := ws ≫= print_word.

Definition byte_ok (c : Z) : bool := (0 <? c) && (c <? 256).

(** A label does not begin with white space, and has no equal sign. *)
Definition tag_ok (l : list Z) : bool :=
  match l with [] => false | c :: l => negb (is_space c) && byte_ok c && forallb (fun c => byte_ok c && negb (c =? ch "=")) l end.

(** A value without quotes: ASCII characters that are not white space; it does not begin
    with a quote or a backslash, and no backslash is before a digit. *)
Fixpoint no_octal (v : list Z) : bool :=
  match v with [] => true | c :: v' => negb ((c =? BACKSLASH) && match v' with d :: _ => is_digit d | [] => false end) && no_octal v' end.

Definition bare_ok (v : list Z) : bool :=
  match v with [] => false | c :: _ => negb (special c) end && forallb (fun c => (0 <? c) && (c <? 128) && negb (is_space c)) v && no_octal v.

(** The copies of a value in quotes do not overlap: of what is behind the [k]th character
    that has a backslash, there are at most [k] characters, itself included, before the next
    one or the end.  [n] of them have been read. *)
Fixpoint copies_ok (k n : nat) (v : list Z) : bool :=
  match v with
  | [] => (k =? 0)%nat || (n <=? k)%nat
  | c :: v' => if special c then ((k =? 0)%nat || (n <=? k)%nat) && copies_ok (S k) 1 v' else copies_ok k (S n) v'
  end.

Definition quoted_ok (v : list Z) : bool := forallb byte_ok v && copies_ok 0 0 v.

Definition word_ok (w : word) : bool :=
  tag_ok (pair w).1 && (if in_quotes w then quoted_ok (pair w).2 else bare_ok (pair w).2) && forallb is_space (gap w).

(** There is white space behind a value without quotes, but at the end of the line. *)
Fixpoint separated (ws : list word) : bool :=
  match ws with
  | [] => true
  | w :: ws' => (in_quotes w || negb (bool_decide (gap w = [])) || bool_decide (ws' = [])) && separated ws'
  end.

(** Values without a quote or backslash are copied nowhere. *)
Lemma copies_plain v : forallb (fun c => negb (special c)) v = true -> copies_ok 0 0 v = true.
Proof. intros H. enough (G : forall n, copies_ok 0 n v = true) by apply G. induction v as [|c v IH]; intros n; [done|]. cbn in H |- *. apply andb_true_iff in H as [->%negb_true_iff H]. by apply IH. Qed.

Section parse.
Variable tags : matcher_tags.

(** What the loop does after a round. *)
Definition continue (f : nat) (p : ParseState) : option (list Z + ParseState) := if at_pos p (pos p) =? 0 then Some (inr p) else parse_loop f tags p.

Lemma continue_loop f p : at_pos p (pos p) <> 0 -> continue f p = parse_loop f tags p.
Proof. intros N. unfold continue. by rewrite (proj2 (Z.eqb_neq _ _)). Qed.

(** A round that does not end a value. *)
Lemma switch_step f p p' : parse_switch p = Some (inr p') -> state p' <> CONSUME -> parse_loop (S f) tags p = continue f p'.
Proof. intros E N. cbn [parse_loop]. unfold parse_round. rewrite E. cbn [mbind option_bind]. by rewrite decide_False. Qed.

Lemma nth_at (d : list Z) c r : nth (length d) (d ++ c :: r) 0 = c.
Proof. rewrite app_nth2 by lia. by rewrite Nat.sub_diag. Qed.

Lemma nth_next (d : list Z) c c' r : nth (S (length d)) (d ++ c :: c' :: r) 0 = c'.
Proof. replace (d ++ c :: c' :: r) with ((d ++ [c]) ++ c' :: r) by (by rewrite <- app_assoc). replace (S (length d)) with (length (d ++ [c])) by (rewrite length_app; cbn; lia). apply nth_at. Qed.

Lemma insert_at (d : list Z) c c' r : <[length d := c']> (d ++ c :: r) = d ++ c' :: r.
Proof. rewrite insert_app_r_alt by lia. by rewrite Nat.sub_diag. Qed.

(** A place of the buffer, and what is there. *)
Lemma at_place p d c r : buf p = d ++ c :: r -> pos p = length d -> at_pos p (pos p) = c.
Proof. intros E L. unfold at_pos. rewrite E, L. apply nth_at. Qed.

Lemma at_next p d c c' r : buf p = d ++ c :: c' :: r -> pos p = length d -> at_pos p (S (pos p)) = c'.
Proof. intros E L. unfold at_pos. rewrite E, L. apply nth_next. Qed.

(** A string with its NUL that begins at a place of the part of the buffer that has been
    read. *)
Definition closed (d : list Z) (i : nat) (s : list Z) : Prop := Forall (fun c => c <> 0) s /\ exists A B, d = A ++ s ++ 0 :: B /\ length A = i.

Lemma c_string_closed s r : Forall (fun c => c <> 0) s -> c_string (s ++ 0 :: r) = s.
Proof. induction 1 as [|c s N F IH]; [done|]. cbn [app c_string]. rewrite (proj2 (Z.eqb_neq c 0)) by done. by rewrite IH. Qed.

Lemma closed_str d i s r : closed d i s -> str_at (d ++ r) i = s.
Proof. intros (F & A & B & -> & <-). unfold str_at. rewrite <- ?app_assoc. rewrite drop_app_length. cbn [app]. by apply c_string_closed. Qed.

Lemma closed_app d i s r : closed d i s -> closed (d ++ r) i s.
Proof. intros (F & A & B & -> & E). split; [done|]. exists A, (B ++ r). split; [|done]. by rewrite <- ?app_assoc. Qed.

(** White space before a label, or behind the last value. *)
Lemma space_steps f sp : Forall (fun c => is_space c = true) sp -> forall d r p, buf p = d ++ sp ++ r -> pos p = length d -> state p = FIND_LABEL ->
  continue (length sp + f) p = continue f (set_pos p (length (d ++ sp)) FIND_LABEL).
Proof.
  induction 1 as [|c sp Hc F IH]; intros d r p Eb Ep Es; cbn [length Nat.add app] in *.
  - rewrite app_nil_r, <- Ep, <- Es. by destruct p.
  - rewrite continue_loop by (rewrite (at_place p d c (sp ++ r)) by done; intros ->; done). set (p1 := set_pos p (S (length d)) FIND_LABEL). rewrite (switch_step _ p p1).
    + rewrite (IH (d ++ [c]) r p1); [by rewrite <- app_assoc|by rewrite <- app_assoc|rewrite length_app; cbn; lia|done].
    + unfold parse_switch. rewrite Es, (at_place p d c (sp ++ r)) by done. by rewrite Hc, Ep.
    + done.
Qed.

(** The rest of a label, up to the value. *)
Lemma label_rest f d l c0 r lb : c0 <> 0 -> Forall (fun c => c <> 0 /\ c <> ch "=") l ->
  forall p, buf p = d ++ l ++ ch "=" :: c0 :: r -> pos p = length d -> state p = PARSE_LABEL -> label p = lb ->
  exists p', parse_loop (length l + 1 + f) tags p = parse_loop f tags p' /\ buf p' = (d ++ l ++ [0]) ++ c0 :: r /\ pos p' = length (d ++ l ++ [0]) /\ state p' = START_PARSE_VAL /\ label p' = lb /\
    pairs p' = pairs p /\ ptype p' = ptype p /\ pdest p' = pdest p.
Proof.
  intros Nc F. revert d. induction F as [|c l [N Ne] F IH]; intros d p Eb Ep Es El.
  - cbn [app length Nat.add] in *. set (p1 := set_pos (set_buf p (<[length d := 0]> (buf p))) (S (length d)) START_PARSE_VAL).
    assert (Eb1 : buf p1 = (d ++ [0]) ++ c0 :: r) by (unfold p1; cbn [buf set_pos set_buf]; rewrite Eb, insert_at; by rewrite <- app_assoc). assert (Lp : pos p1 = length (d ++ [0])) by (unfold p1; rewrite length_app; cbn; lia).
    exists p1. split; [|by rewrite ?app_nil_l]. rewrite (switch_step f p p1); [apply continue_loop; by rewrite (at_place p1 _ _ _ Eb1 Lp)| |done].
    unfold parse_switch. rewrite Es, (at_place p d _ _ Eb Ep), Z.eqb_refl. unfold p1. by rewrite Ep.
  - cbn [app length Nat.add] in *. set (p1 := set_pos p (S (length d)) PARSE_LABEL).
    assert (Eb1 : buf p1 = (d ++ [c]) ++ l ++ ch "=" :: c0 :: r) by (unfold p1; cbn [buf set_pos]; rewrite Eb; by rewrite <- app_assoc). assert (Lp : pos p1 = length (d ++ [c])) by (unfold p1; rewrite length_app; cbn; lia).
    destruct (IH (d ++ [c]) p1 Eb1 Lp eq_refl El) as (p' & E & Eb' & Ep' & R). rewrite <- !app_assoc in Eb', Ep'. exists p'. split; [|split; [by rewrite Eb'; cbn [app]; rewrite <- ?app_assoc; cbn [app]; rewrite <- ?app_assoc|split; [exact Ep'|exact R]]].
    rewrite <- E. rewrite (switch_step _ p p1); [|unfold parse_switch; rewrite Es, (at_place p d _ _ Eb Ep); rewrite (proj2 (Z.eqb_neq c _)) by done; unfold p1; by rewrite Ep|done].
    apply continue_loop. destruct l as [|c' l]; cbn [app] in Eb1; rewrite (at_place p1 _ _ _ Eb1 Lp); [done|]. by apply Forall_cons in F as [[? _] _].
Qed.

Lemma label_chars l : tag_ok l = true -> match l with [] => False | c :: l' => is_space c = false /\ c <> 0 /\ Forall (fun c => c <> 0 /\ c <> ch "=") l' end.
Proof.
  destruct l as [|c l]; [done|]. cbn [tag_ok]. intros [[Hs Hc]%andb_true_iff Hf]%andb_true_iff. apply negb_true_iff in Hs. split; [done|]. split; [unfold byte_ok in Hc; bsimp; lia|].
  rewrite forallb_forall in Hf. apply Forall_forall. intros y Hy. apply list_elem_of_In, Hf in Hy. unfold byte_ok in Hy. bsimp. split; [lia|done].
Qed.

Lemma label_nonzero l : tag_ok l = true -> Forall (fun c => c <> 0) l.
Proof. intros H%label_chars. destruct l as [|c l]; [done|]. destruct H as (_ & N & F). constructor; [done|]. eapply Forall_impl; [exact F|]. by intros y [? _]. Qed.

Lemma label_steps f d l c0 r p : tag_ok l = true -> c0 <> 0 -> buf p = d ++ l ++ ch "=" :: c0 :: r -> pos p = length d -> state p = FIND_LABEL ->
  exists p', parse_loop (length l + 1 + f) tags p = parse_loop f tags p' /\ buf p' = (d ++ l ++ [0]) ++ c0 :: r /\ pos p' = length (d ++ l ++ [0]) /\ state p' = START_PARSE_VAL /\ label p' = length d /\
    pairs p' = pairs p /\ ptype p' = ptype p /\ pdest p' = pdest p.
Proof.
  intros Hl%label_chars Nc Eb Ep Es. destruct l as [|c l]; [done|]. destruct Hl as (Sp & N & F). cbn [app length Nat.add] in *. set (p1 := set_pos (set_label p (length d)) (S (length d)) PARSE_LABEL).
  assert (Eb1 : buf p1 = (d ++ [c]) ++ l ++ ch "=" :: c0 :: r) by (unfold p1; cbn [buf set_pos set_label]; rewrite Eb; by rewrite <- app_assoc). assert (Lp : pos p1 = length (d ++ [c])) by (unfold p1; rewrite length_app; cbn; lia).
  destruct (label_rest f (d ++ [c]) l c0 r (length d) Nc F p1 Eb1 Lp eq_refl eq_refl) as (p' & E & Eb' & Ep' & R). rewrite <- !app_assoc in Eb', Ep'. exists p'. split; [|split; [by rewrite Eb'; cbn [app]; rewrite <- ?app_assoc; cbn [app]; rewrite <- ?app_assoc|split; [exact Ep'|exact R]]].
  rewrite <- E. rewrite (switch_step _ p p1); [|unfold parse_switch; rewrite Es, (at_place p d _ _ Eb Ep), Sp; unfold p1; by rewrite Ep|done].
  apply continue_loop. destruct l as [|c' l]; cbn [app] in Eb1; rewrite (at_place p1 _ _ _ Eb1 Lp); [done|]. by apply Forall_cons in F as [[? _] _].
Qed.

(** ** Values in quotes *)

(** The state in a quoted value: [dec] has been decoded behind [d], and [rest] is to come;
    [k] characters had a backslash, and [n] are to be copied. *)
Definition in_value (p : ParseState) (d dec rest : list Z) (k n : nat) : Prop :=
  state p = PARSE_VAL /\ inQuote p = true /\
  ((copyForward p = None /\ k = 0%nat /\ buf p = d ++ dec ++ rest /\ pos p = length (d ++ dec)) \/
   (exists comp junk pend, dec = comp ++ pend /\ junk <> [] /\ length junk = k /\ length pend = n /\ copyForward p = Some (length (d ++ comp)) /\ copyFrom p = length (d ++ comp ++ junk) /\
      buf p = d ++ comp ++ junk ++ pend ++ rest /\ pos p = length (d ++ comp ++ junk ++ pend))).

(** What a round keeps. *)
Definition same_pairs (p p' : ParseState) : Prop := label p' = label p /\ val p' = val p /\ pairs p' = pairs p /\ ptype p' = ptype p /\ pdest p' = pdest p.

(** The part that has been read, with its length the place. *)
Lemma value_split p d dec rest k n : in_value p d dec rest k n -> exists q, buf p = q ++ rest /\ pos p = length q.
Proof.
  intros (_ & _ & [(_ & _ & E & L)|(comp & junk & pend & _ & _ & _ & _ & _ & _ & E & L)]).
  - exists (d ++ dec). split; [by rewrite <- app_assoc|done].
  - exists (d ++ comp ++ junk ++ pend). split; [by rewrite <- ?app_assoc|done].
Qed.

Lemma plain_step f p d dec c c' rest k n : in_value p d dec (c :: c' :: rest) k n -> special c = false -> c' <> 0 ->
  exists p', parse_loop (S f) tags p = parse_loop f tags p' /\ in_value p' d (dec ++ [c]) (c' :: rest) k (S n) /\ same_pairs p p'.
Proof.
  intros V [Nq Nb]%orb_false_iff N. destruct (value_split _ _ _ _ _ _ V) as (q & Eb & Ep). destruct V as (Es & Eq & V). exists (set_pos p (S (pos p)) PARSE_VAL).
  pose proof (at_next p q c c' rest Eb Ep) as En. split; [|split; [|done]].
  - rewrite (switch_step f p (set_pos p (S (pos p)) PARSE_VAL)); [by apply continue_loop; rewrite <- En in N| |done]. unfold parse_switch. rewrite Es, Eq, (at_place p q c _ Eb Ep).
    change (ch "\") with BACKSLASH. rewrite Nb, Nq. unfold next_in_val. rewrite En. by rewrite (proj2 (Z.eqb_neq c' 0)).
  - split; [done|]. split; [done|]. cbn [copyForward copyFrom buf pos set_pos]. destruct V as [(Cf & K & B & L)|(comp & junk & pend & -> & Nj & Lj & Lp & Cf & Cr & B & L)]; [left|right].
    + split; [done|]. split; [done|]. rewrite B, L. rewrite <- (app_assoc dec). split; [done|]. rewrite !length_app. cbn. lia.
    + exists comp, junk, (pend ++ [c]). rewrite B, L. rewrite <- ?app_assoc. do 3 (split; [done|]). split; [rewrite length_app; cbn; lia|]. do 3 (split; [done|]). rewrite !length_app. cbn. lia.
Qed.

Lemma memcpy_over (A J P r : list Z) : (length P <= length J)%nat -> memcpy (length A) (length (A ++ J)) (length P) (A ++ J ++ P ++ r) = Some (A ++ P ++ drop (length P) (J ++ P) ++ r).
Proof.
  intros Le. unfold memcpy. rewrite (proj2 (Nat.ltb_ge (length (A ++ J)) _)) by (rewrite length_app; lia). rewrite andb_false_r. f_equal. rewrite take_app_length. f_equal. rewrite (app_assoc A J (P ++ r)), drop_app_length, take_app_length. f_equal. rewrite <- app_assoc. rewrite drop_app_ge by lia.
  replace (length A + length P - length A)%nat with (length P) by lia. rewrite (app_assoc J P r), drop_app_le by (rewrite length_app; lia). done.
Qed.

Lemma memcpy_down (d comp junk pend r : list Z) : (length pend <= length junk)%nat ->
  memcpy (length (d ++ comp)) (length (d ++ comp ++ junk)) (length pend) (d ++ comp ++ junk ++ pend ++ r) = Some (d ++ comp ++ pend ++ drop (length pend) (junk ++ pend) ++ r).
Proof. intros Le. rewrite (app_assoc d comp junk), (app_assoc d comp (junk ++ pend ++ r)), memcpy_over by done. by rewrite <- app_assoc. Qed.

(** The copy that a backslash makes. *)
Lemma escape_ok p d dec c rest k n : in_value p d dec (BACKSLASH :: c :: rest) k n -> ((k =? 0)%nat || (n <=? k)%nat) = true ->
  exists p1 q, escape p = Some p1 /\ buf p1 = q ++ c :: rest /\ length q = S (pos p) /\ inQuote p1 = true /\ same_pairs p p1 /\ pos p1 = pos p /\
    forall st, st = PARSE_VAL -> in_value (set_pos p1 (S (S (pos p))) st) d (dec ++ [c]) rest (S k) 1.
Proof.
  intros (Es & Eq & V) Ok. unfold escape. destruct V as [(Cf & -> & B & L)|(comp & junk & pend & -> & Nj & Lj & Lp & Cf & Cr & B & L)]; rewrite Cf.
  - eexists _, (d ++ dec ++ [BACKSLASH]). split; [done|]. cbn [buf set_copy inQuote pos]. rewrite B. split; [by rewrite <- ?app_assoc|]. split; [rewrite L, !length_app; cbn; lia|]. split; [done|]. split; [done|]. split; [done|]. intros st ->.
    split; [done|]. split; [exact Eq|]. right. exists dec, [BACKSLASH], [c]. cbn [copyForward copyFrom buf pos set_pos set_copy]. rewrite B, L. rewrite <- ?app_assoc. split; [done|]. split; [done|]. split; [done|]. split; [done|]. split; [done|].
    split; [rewrite !length_app; cbn; lia|]. split; [done|]. rewrite !length_app. cbn. lia.
  - assert (Le : (length pend <= length junk)%nat) by (apply orb_true_iff in Ok as [K%Nat.eqb_eq|K%Nat.leb_le]; [destruct junk; [done|cbn in Lj; lia]|lia]).
    assert (Ln : (pos p - copyFrom p)%nat = length pend) by (rewrite Cr, L, !length_app; lia). rewrite Ln, Cr, B, memcpy_down by done. cbn [mbind option_bind]. set (junk' := drop (length pend) (junk ++ pend)).
    assert (Lj' : length junk' = length junk) by (subst junk'; rewrite length_drop, length_app; lia).
    eexists _, (d ++ comp ++ pend ++ junk' ++ [BACKSLASH]). split; [done|]. cbn [buf set_copy set_buf inQuote pos]. split; [by rewrite <- ?app_assoc|]. split; [rewrite L, !length_app; cbn; lia|]. split; [done|]. split; [done|]. split; [done|]. intros st ->.
    split; [done|]. split; [exact Eq|]. right. exists (comp ++ pend), (junk' ++ [BACKSLASH]), [c]. cbn [copyForward copyFrom buf pos set_pos set_copy set_buf]. rewrite <- ?app_assoc.
    split; [done|]. split; [by destruct junk'|]. split; [rewrite length_app; cbn; lia|]. split; [done|]. split; [f_equal; rewrite !length_app; lia|]. split; [rewrite L, !length_app; cbn; lia|]. split; [done|]. rewrite L, !length_app. cbn. lia.
Qed.

Lemma escape_step f p d dec c c' rest k n : in_value p d dec (BACKSLASH :: c :: c' :: rest) k n -> ((k =? 0)%nat || (n <=? k)%nat) = true -> c <> 0 -> c' <> 0 ->
  exists p', parse_loop (S f) tags p = parse_loop f tags p' /\ in_value p' d (dec ++ [c]) (c' :: rest) (S k) 1 /\ same_pairs p p'.
Proof.
  intros V Ok Nc N. destruct (value_split _ _ _ _ _ _ V) as (q & Eb & Ep). destruct (escape_ok p d dec c (c' :: rest) k n V Ok) as (p1 & q1 & E1 & B1 & L1 & I1 & S1 & P1 & V1). destruct V as (Es & Eq & _).
  set (p2 := set_pos p1 (S (pos p)) PARSE_VAL). exists (set_pos p1 (S (S (pos p))) PARSE_VAL). split; [|split; [by apply V1|exact S1]].
  rewrite (switch_step f p (set_pos p1 (S (S (pos p))) PARSE_VAL)).
  - apply continue_loop. replace (at_pos _ _) with c'; [done|]. symmetry. apply (at_place _ (q1 ++ [c]) c' rest); cbn [buf pos set_pos]; [rewrite B1; by rewrite <- app_assoc|rewrite length_app, L1; cbn; lia].
  - unfold parse_switch. rewrite Es, Eq, (at_place p q _ _ Eb Ep). change (ch "\") with BACKSLASH. rewrite Z.eqb_refl, E1. cbn [mbind option_bind]. fold p2.
    assert (A1 : at_pos p2 (S (pos p)) = c) by (apply (at_place p2 q1 c (c' :: rest)); [exact B1|by rewrite L1]). rewrite A1, (proj2 (Z.eqb_neq c 0)) by done.
    unfold next_in_val. assert (A2 : at_pos p2 (S (pos p2)) = c') by (apply (at_next p2 q1 c c' rest); [exact B1|by rewrite L1]). rewrite A2, (proj2 (Z.eqb_neq c' 0)) by done. done.
  - done.
Qed.

Lemma escaped_cons c v : escaped (c :: v) = (if special c then [BACKSLASH; c] else [c]) ++ escaped v.
Proof. done. Qed.

Lemma escaped_next v r : exists c' r', escaped v ++ QUOTE :: r = c' :: r' /\ (Forall (fun c => c <> 0) v -> c' <> 0).
Proof.
  destruct v as [|c v]; [by exists QUOTE, r|]. rewrite escaped_cons. destruct (special c); cbn [app]; [by eexists _, _|]. eexists _, _. split; [done|]. intros F. by apply Forall_cons in F as [? _].
Qed.

(** The characters of a value, up to the quote behind it. *)
Lemma value_steps f d v r : Forall (fun c => c <> 0) v -> forall p dec k n, copies_ok k n v = true -> in_value p d dec (escaped v ++ QUOTE :: r) k n ->
  exists p' k' n', parse_loop (length v + f) tags p = parse_loop f tags p' /\ in_value p' d (dec ++ v) (QUOTE :: r) k' n' /\ ((k' =? 0)%nat || (n' <=? k')%nat) = true /\ same_pairs p p'.
Proof.
  intros F. induction F as [|c v N F IH]; intros p dec k n Ok V; [exists p, k, n; by rewrite app_nil_r|]. cbn [length Nat.add]. rewrite escaped_cons in V. cbn [copies_ok] in Ok.
  destruct (escaped_next v r) as (c' & r' & E & Nc). specialize (Nc F). rewrite <- app_assoc, E in V.
  assert (G : exists p1 k1 n1, parse_loop (S (length v + f)) tags p = parse_loop (length v + f) tags p1 /\ in_value p1 d (dec ++ [c]) (c' :: r') k1 n1 /\ copies_ok k1 n1 v = true /\ same_pairs p p1).
  { destruct (special c) eqn:Eq.
    - apply andb_true_iff in Ok as [Ok1 Ok2]. destruct (escape_step (length v + f) p d dec c c' r' k n V Ok1 N Nc) as (p1 & E1 & V1 & S1). by exists p1, (S k), 1%nat.
    - destruct (plain_step (length v + f) p d dec c c' r' k n V Eq Nc) as (p1 & E1 & V1 & S1). by exists p1, k, (S n). }
  destruct G as (p1 & k1 & n1 & -> & V1 & O1 & S1). rewrite <- E in V1. destruct (IH p1 _ k1 n1 O1 V1) as (p2 & k2 & n2 & -> & V2 & O2 & S2). exists p2, k2, n2. split; [done|]. rewrite <- app_assoc in V2. split; [done|]. split; [done|].
  unfold same_pairs in *. naive_solver congruence.
Qed.

(** The quote behind a value: the value is in its place, with its NUL. *)
Lemma value_end p d dec r k n : in_value p d dec (QUOTE :: r) k n -> ((k =? 0)%nat || (n <=? k)%nat) = true -> exists p1 b, parse_switch p = Some (inr p1) /\ state p1 = CONSUME /\ pos p1 = S (pos p) /\ same_pairs p p1 /\
  last_copy p1 = Some (d ++ dec ++ 0 :: b ++ r) /\ length (d ++ dec ++ 0 :: b) = S (pos p).
Proof.
  intros V Ok. destruct (value_split _ _ _ _ _ _ V) as (q & Eb & Ep). destruct V as (Es & Eq & V).
  set (p1 := set_pos (set_buf p (<[pos p := 0]> (buf p))) (S (pos p)) CONSUME).
  assert (E1 : parse_switch p = Some (inr p1)).
  { unfold parse_switch. rewrite Es, Eq, (at_place p q _ _ Eb Ep). change (QUOTE =? ch "\") with false. rewrite Z.eqb_refl. unfold next_in_val, p1. cbn [pos set_buf]. by destruct (_ =? 0). }
  destruct V as [(Cf & K & B & L)|(comp & junk & pend & -> & Nj & Lj & Lp & Cf & Cr & B & L)].
  - exists p1, []. split; [done|]. do 3 (split; [done|]). unfold last_copy, p1. cbn [copyForward buf set_pos set_buf]. rewrite Cf. rewrite B, app_assoc, L, insert_at. split; [by rewrite <- ?app_assoc|]. rewrite !length_app. cbn. lia.
  - assert (Le : (length pend <= length junk)%nat) by (apply orb_true_iff in Ok as [K%Nat.eqb_eq|K%Nat.leb_le]; [destruct junk; [done|cbn in Lj; lia]|lia]).
    set (junk' := drop (length pend) (junk ++ pend)). assert (Lj' : length junk' = length junk) by (subst junk'; rewrite length_drop, length_app; lia). destruct junk' as [|j junk''] eqn:Ej; [by destruct junk|].
    exists p1, (junk'' ++ [0]). split; [done|]. do 3 (split; [done|]). unfold last_copy, p1. cbn [copyForward copyFrom buf pos set_pos set_buf]. rewrite Cf.
    assert (Ln : (S (pos p) - 1 - copyFrom p)%nat = length pend) by (rewrite Cr, L, !length_app; lia). rewrite Ln. rewrite B.
    replace (<[pos p:=0]> (d ++ comp ++ junk ++ pend ++ QUOTE :: r)) with (d ++ comp ++ junk ++ pend ++ 0 :: r).
    2: { rewrite L. rewrite !app_assoc. by rewrite insert_at. }
    rewrite Cr, memcpy_down by done. cbn [mbind option_bind]. fold junk'. rewrite Ej. replace (length (d ++ comp) + length pend)%nat with (length (d ++ comp ++ pend)) by (rewrite !length_app; lia).
    cbn [app]. replace (d ++ comp ++ pend ++ j :: junk'' ++ 0 :: r) with ((d ++ comp ++ pend) ++ j :: junk'' ++ 0 :: r) by (by rewrite <- ?app_assoc). rewrite insert_at. split; [by rewrite <- ?app_assoc|].
    rewrite L, !length_app. cbn [length] in *. rewrite length_app. cbn [length]. lia.
Qed.

(** ** A pair *)

(** The pairs that are in the buffer up to a place. *)
Definition pairs_at (d : list Z) (ps : list (nat * nat)) (xs : list (list Z * list Z)) : Prop :=
  Forall2 (fun ab x => closed d ab.1 x.1 /\ closed d ab.2 x.2) ps xs.

Lemma pairs_at_app d ps xs r : pairs_at d ps xs -> pairs_at (d ++ r) ps xs.
Proof. intros H. eapply Forall2_impl; [exact H|]. intros ab x [H1 H2]. split; by apply closed_app. Qed.

(** The destination after a pair. *)
Definition dest_after (td : matcher_type * nat) (n : nat) (l : list Z) : matcher_type * nat :=
  if decide (type_of_label tags l = MATCH_NONE) then td else (type_of_label tags l, n).

Lemma bytes_nonzero l : forallb byte_ok l = true -> Forall (fun c => c <> 0) l.
Proof. rewrite forallb_forall. intros H. apply Forall_forall. intros c Hc. apply list_elem_of_In, H in Hc. unfold byte_ok in Hc. bsimp. lia. Qed.

(** The part of the buffer that does not change any more: at the end of the line, its NUL
    as well. *)
Definition settled (d r : list Z) : list Z := if decide (r = [0]) then d ++ r else d.

(** What the rounds for a pair come to: the place is behind it, and the label and the value
    are there. *)
Definition entered (p p' : ParseState) (d : list Z) (x : list Z * list Z) (r : list Z) : Prop :=
  exists d', buf p' = d' ++ r /\ pos p' = length d' /\ state p' = FIND_LABEL /\ (exists b, d' = d ++ b) /\
    (ptype p', pdest p') = dest_after (ptype p, pdest p) (length (pairs p)) x.1 /\ (exists ab, pairs p' = pairs p ++ [ab] /\ closed (settled d' r) ab.1 x.1 /\ closed (settled d' r) ab.2 x.2).

(** A value is complete. *)
Lemma consume_step f p p1 d l v a b r : parse_switch p = Some (inr p1) -> state p1 = CONSUME -> last_copy p1 = Some (d ++ r) -> pos p1 = length d ->
  label p1 = a -> val p1 = b -> closed (d ++ r) a l -> closed (settled d r) a l -> closed (settled d r) b v ->
  (type_of_label tags l = MATCH_NONE \/ ptype p1 = MATCH_NONE) -> (length (pairs p1) < MATCHER_MAX_TOKENS)%nat ->
  exists p', parse_loop (S f) tags p = continue f p' /\ buf p' = d ++ r /\ pos p' = length d /\ state p' = FIND_LABEL /\
    (ptype p', pdest p') = dest_after (ptype p1, pdest p1) (length (pairs p1)) l /\ pairs p' = pairs p1 ++ [(a, b)].
Proof.
  intros E S L P La Lb C _ _ Ht Hn. eexists. split; [|split; [|split; [|split; [|split]]]].
  - cbn [parse_loop]. unfold parse_round. rewrite E. cbn [mbind option_bind]. rewrite decide_True by done. unfold consume. rewrite L. cbn [mbind option_bind]. rewrite La.
    replace (str_at (d ++ r) a) with l by (symmetry; rewrite <- (app_nil_r (d ++ r)); by apply closed_str).
    assert (Ok : bool_decide (type_of_label tags l <> MATCH_NONE) && bool_decide (ptype p1 <> MATCH_NONE) = false) by (destruct Ht as [Ht|Ht]; rewrite Ht; [done|]; by rewrite andb_false_r).
    rewrite Ok, (proj2 (Nat.ltb_ge _ _)) by lia. reflexivity.
  - done.
  - exact P.
  - done.
  - cbn [ptype pdest]. unfold dest_after. by case_decide.
  - cbn [pairs]. by rewrite Lb.
Qed.

Lemma settled_app d r i s : closed d i s -> closed (settled d r) i s.
Proof. unfold settled. case_decide; [apply closed_app|done]. Qed.

Lemma quoted_steps f l v : tag_ok l = true -> quoted_ok v = true -> forall d r p, buf p = d ++ l ++ ch "=" :: QUOTE :: escaped v ++ QUOTE :: r -> pos p = length d -> state p = FIND_LABEL ->
  (type_of_label tags l = MATCH_NONE \/ ptype p = MATCH_NONE) -> (length (pairs p) < MATCHER_MAX_TOKENS)%nat ->
  exists p', parse_loop (length l + length v + 3 + f) tags p = continue f p' /\ entered p p' d (l, v) r.
Proof.
  intros Hl [Hv Hc]%andb_true_iff d r p Eb Ep Es Ht Hn. apply bytes_nonzero in Hv.
  destruct (label_steps (1 + length v + 1 + f) d l QUOTE (escaped v ++ QUOTE :: r) p) as (p1 & E1 & B1 & P1 & S1 & L1 & Q1 & T1 & D1); [done..|].
  set (d1 := d ++ l ++ [0]) in *. set (d2 := d1 ++ [QUOTE]). destruct (escaped_next v r) as (c' & r' & En & Nc). specialize (Nc Hv).
  set (p2 := mkParse (buf p1) (S (pos p1)) PARSE_VAL true None 0 (label p1) (S (pos p1)) (pairs p1) (ptype p1) (pdest p1)).
  assert (B2 : buf p1 = d2 ++ escaped v ++ QUOTE :: r) by (rewrite B1; subst d2; by rewrite <- (app_assoc d1)). assert (P2 : S (pos p1) = length d2) by (rewrite P1; subst d2; rewrite (length_app d1); cbn; lia).
  assert (E2 : parse_loop (S (length v + 1 + f)) tags p1 = parse_loop (length v + 1 + f) tags p2).
  { rewrite (switch_step _ p1 p2); [|unfold parse_switch; rewrite S1, (at_place p1 _ _ _ B1 P1); done|done]. apply continue_loop. rewrite (at_place p2 d2 c' r'); [done|cbn [buf p2]; by rewrite B2, En|exact P2]. }
  assert (V2 : in_value p2 d2 [] (escaped v ++ QUOTE :: r) 0 0) by (split; [done|]; split; [done|]; left; split; [done|]; split; [done|]; cbn [buf pos p2]; split; [done|by rewrite app_nil_r]).
  destruct (value_steps (1 + f) d2 v r Hv p2 [] 0 0 Hc V2) as (p3 & k & n & E3 & V3 & O3 & Sl3 & Sv3 & Sq3 & St3 & Sd3). cbn [app] in V3.
  destruct (value_end p3 d2 v r k n V3 O3) as (p4 & b & E4 & S4 & P4 & (Sl4 & Sv4 & Sq4 & St4 & Sd4) & B4 & L4). set (d' := d2 ++ v ++ 0 :: b).
  assert (Bd : d2 ++ v ++ 0 :: b ++ r = d' ++ r) by (subst d'; rewrite <- ?(app_assoc d2), <- ?(app_assoc v); done). rewrite Bd in B4.
  assert (Cl : closed d' (length d) l) by (split; [by apply label_nonzero|]; exists d, (QUOTE :: v ++ 0 :: b); split; [|done]; subst d' d2 d1; by rewrite <- ?app_assoc).
  assert (Cv : closed d' (length d2) v) by (split; [done|]; exists d2, b; done).
  cbn [label val pairs ptype pdest p2] in *.
  destruct (consume_step f p3 p4 d' l v (length d) (length d2) r E4 S4 B4) as (p5 & E5 & B5 & P5 & S5 & T5 & Q5); [rewrite P4; exact (eq_sym L4)|congruence|congruence|by apply closed_app|by apply settled_app|by apply settled_app| | |].
  { rewrite St4, St3, T1. exact Ht. } { rewrite Sq4, Sq3, Q1. exact Hn. }
  exists p5. split.
  { replace (length l + length v + 3 + f)%nat with (length l + 1 + (1 + length v + 1 + f))%nat by lia. rewrite E1. replace (1 + length v + 1 + f)%nat with (S (length v + 1 + f)) by lia. rewrite E2. replace (length v + 1 + f)%nat with (length v + (1 + f))%nat by lia. rewrite E3. exact E5. }
  exists d'. split; [done|]. split; [done|]. split; [done|]. split; [subst d' d2 d1; exists ((l ++ [0; QUOTE]) ++ v ++ 0 :: b); by rewrite <- ?app_assoc|].
  split; [rewrite T5, St4, St3, T1, Sd4, Sd3, D1, Sq4, Sq3, Q1; done|]. exists (length d, length d2). split; [rewrite Q5, Sq4, Sq3, Q1; done|]. split; by apply settled_app.
Qed.

(** ** Values without quotes *)

Definition bare_char (c : Z) : bool := (0 <? c) && (c <? 128) && negb (is_space c).

Lemma bare_char_spec c : bare_char c = true -> c <> 0 /\ is_char (wraps 8 c) = true /\ is_space c = false.
Proof.
  intros [[H1%Z.ltb_lt H2%Z.ltb_lt]%andb_true_iff H3%negb_true_iff]%andb_true_iff. split; [lia|]. split; [|done]. rewrite wraps_id by lia. unfold is_char. apply andb_true_iff. split; [by apply Z.leb_le, Z.lt_le_incl|].
  rewrite wrapu_id by lia. apply Z.leb_le. lia.
Qed.

Lemma bare_nonzero v : forallb bare_char v = true -> Forall (fun c => c <> 0) v.
Proof. rewrite forallb_forall. intros H. apply Forall_forall. intros c Hc. by apply list_elem_of_In, H, bare_char_spec in Hc as [? _]. Qed.

Lemma no_octal_snoc v s : is_digit s = false -> special s = false -> no_octal v = true -> no_octal (v ++ [s]) = true.
Proof.
  intros Ns [_ Nb]%orb_false_iff. induction v as [|c v IH]; [cbn; by rewrite Nb|]. cbn [no_octal app]. intros [H1 H2]%andb_true_iff. rewrite IH by done. rewrite andb_true_r. destruct v as [|c' v]; [|exact H1]. cbn [app]. by rewrite Ns, andb_false_r.
Qed.

(** The state in such a value. *)
Definition in_bare (p : ParseState) (d t : list Z) : Prop := state p = PARSE_VAL /\ inQuote p = false /\ copyForward p = None /\ buf p = d ++ t /\ pos p = length d.

Lemma bare_rest f v s r : s <> 0 -> forallb bare_char v = true -> no_octal (v ++ [s]) = true -> forall d p, in_bare p d (v ++ s :: r) ->
  exists p', parse_loop (length v + f) tags p = parse_loop f tags p' /\ in_bare p' (d ++ v) (s :: r) /\ same_pairs p p'.
Proof.
  intros Ns. induction v as [|c v IH]; intros Fv Oc d p V; [exists p; by rewrite app_nil_r|]. cbn [forallb length Nat.add app] in *. apply andb_true_iff in Fv as [Hc Fv]. destruct (bare_char_spec c Hc) as (Nc & Ic & Sc).
  destruct V as (Es & Eq & Cf & B & L). set (p1 := set_pos p (S (pos p)) PARSE_VAL). assert (Ex : exists c' t, v ++ s :: r = c' :: t /\ c' <> 0 /\ (c =? BACKSLASH) && is_digit c' = false).
  { cbn [no_octal] in Oc. apply andb_true_iff in Oc as [Oc%negb_true_iff _]. destruct v as [|c' v]; cbn [app] in *; [by exists s, r|]. exists c', (v ++ s :: r). split; [done|]. split; [|done]. apply andb_true_iff in Fv as [Hc' _]. by destruct (bare_char_spec c' Hc'). }
  destruct Ex as (c' & t & Et & Nc' & Od). rewrite Et in B. assert (V1 : in_bare p1 (d ++ [c]) (v ++ s :: r)).
  { rewrite Et. split; [done|]. split; [done|]. split; [done|]. cbn [buf pos p1 set_pos]. split; [by rewrite B, <- app_assoc|rewrite L, length_app; cbn; lia]. }
  assert (Oc' : no_octal (v ++ [s]) = true) by (cbn [no_octal] in Oc; by apply andb_true_iff in Oc as [_ ?]). destruct (IH Fv Oc' _ p1 V1) as (p' & E' & V' & S'). rewrite <- app_assoc in V'. exists p'. split; [|split; [exact V'|exact S']].
  rewrite <- E'. rewrite (switch_step _ p p1); [|unfold parse_switch; rewrite Es, Eq, (at_place p d _ _ B L), (at_next p d _ _ _ B L); change (ch "\") with BACKSLASH; rewrite Od, Ic, Sc; cbn [orb negb]|done].
  - apply continue_loop. rewrite Et in V1. destruct V1 as (_ & _ & _ & B1 & L1). by rewrite (at_place p1 _ _ _ B1 L1).
  - unfold next_in_val. rewrite (at_next p d _ _ _ B L), (proj2 (Z.eqb_neq c' 0)) by done. done.
Qed.

(** The first character. *)
Definition started (p : ParseState) (s : pState) : ParseState := mkParse (buf p) (S (pos p)) s false None 0 (label p) (pos p) (pairs p) (ptype p) (pdest p).

Lemma bare_start p d c r : buf p = d ++ c :: r -> pos p = length d -> state p = START_PARSE_VAL -> special c = false -> is_space c = false ->
  parse_switch p = Some (inr (started p (if at_pos p (S (pos p)) =? 0 then CONSUME else PARSE_VAL))).
Proof.
  intros B L Es [Nq Nb]%orb_false_iff Sc. unfold parse_switch. rewrite Es, (at_place p d _ _ B L). change (ch "\") with BACKSLASH. rewrite Nq, Nb, Sc. cbn [orb negb andb]. done.
Qed.

Lemma bare_next f p d c c' r : buf p = d ++ c :: c' :: r -> pos p = length d -> state p = START_PARSE_VAL -> special c = false -> is_space c = false -> c' <> 0 ->
  parse_loop (S f) tags p = parse_loop f tags (started p PARSE_VAL) /\ in_bare (started p PARSE_VAL) (d ++ [c]) (c' :: r).
Proof.
  intros B L Es Nc Sc N. pose proof (bare_start p d c (c' :: r) B L Es Nc Sc) as E. pose proof (at_next p d _ _ _ B L) as An. rewrite An, (proj2 (Z.eqb_neq c' 0)) in E by done.
  split; [rewrite (switch_step f _ _ E) by done; apply continue_loop; by rewrite <- An in N|]. split; [done|]. split; [done|]. split; [done|]. cbn [buf pos started]. split; [by rewrite B, <- app_assoc|rewrite L, length_app; cbn; lia].
Qed.

(** All but the end of such a value: it is followed by white space, or its last character
    is next. *)
Lemma bare_body f c v s r : special c = false -> is_space c = false -> s <> 0 -> forallb bare_char v = true -> no_octal (v ++ [s]) = true -> forall d p,
  buf p = d ++ c :: v ++ s :: r -> pos p = length d -> state p = START_PARSE_VAL ->
  exists p', parse_loop (S (length v) + f) tags p = parse_loop f tags p' /\ in_bare p' (d ++ c :: v) (s :: r) /\ same_pairs (started p PARSE_VAL) p'.
Proof.
  intros Nc Sc Ns Fv Oc d p B L Es. assert (Ex : exists c' t, v ++ s :: r = c' :: t /\ c' <> 0) by (destruct v as [|c' v]; cbn [app] in *; [by exists s, r|]; exists c', (v ++ s :: r); split; [done|]; apply andb_true_iff in Fv as [Hc' _]; by destruct (bare_char_spec c' Hc')).
  destruct Ex as (c' & t & Et & Nc'). rewrite Et in B. destruct (bare_next (length v + f) p d c c' t B L Es Nc Sc Nc') as [E V]. rewrite <- Et in V. destruct (bare_rest f v s r Ns Fv Oc _ _ V) as (p' & E' & V' & S'). rewrite <- app_assoc in V'.
  exists p'. split; [|by split]. cbn [Nat.add]. by rewrite E.
Qed.

Lemma bare_ok_spec v : bare_ok v = true -> exists c v', v = c :: v' /\ special c = false /\ is_space c = false /\ forallb bare_char v' = true /\ no_octal v = true /\ Forall (fun c => c <> 0) v.
Proof.
  unfold bare_ok. intros [[H1 H2]%andb_true_iff H3]%andb_true_iff. destruct v as [|c v']; [done|]. apply negb_true_iff in H1. pose proof (bare_nonzero _ H2) as Nz. cbn [forallb] in H2. apply andb_true_iff in H2 as [Hc H2]. destruct (bare_char_spec c Hc) as (_ & _ & Sc). by exists c, v'.
Qed.

(** A value and the white space that ends it. *)
Lemma bare_space_steps f l v s : tag_ok l = true -> bare_ok v = true -> is_space s = true -> forall d r p, buf p = d ++ l ++ ch "=" :: v ++ s :: r -> pos p = length d -> state p = FIND_LABEL ->
  (type_of_label tags l = MATCH_NONE \/ ptype p = MATCH_NONE) -> (length (pairs p) < MATCHER_MAX_TOKENS)%nat ->
  exists p', parse_loop (length l + length v + 2 + f) tags p = continue f p' /\ entered p p' d (l, v) r.
Proof.
  intros Hl Hv Hs d r p Eb Ep Es Ht Hn. destruct (bare_ok_spec v Hv) as (c & v' & -> & Nc & Sc & Fv & Oc & Nz). assert (Ns : s <> 0) by (intros ->; done). assert (Nc0 : c <> 0) by (by apply Forall_cons in Nz as [? _]).
  assert (Ds : is_digit s = false /\ special s = false /\ is_char (wraps 8 s) = true /\ (s =? BACKSLASH) = false).
  { clear - Hs. unfold is_space, one_of in Hs. cbn in Hs. repeat (apply orb_true_iff in Hs as [->%Z.eqb_eq|Hs]; [by vm_compute|]). done. }
  destruct Ds as (Ds & Ss & Is & Bs). cbn [app] in Eb.
  destruct (label_steps (1 + length v' + 1 + f) d l c (v' ++ s :: r) p) as (p1 & E1 & B1 & P1 & S1 & L1 & Q1 & T1 & D1); [done..|]. set (d1 := d ++ l ++ [0]) in *.
  assert (Oc' : no_octal (v' ++ [s]) = true) by (apply no_octal_snoc; [done|done|]; cbn [no_octal] in Oc; by apply andb_true_iff in Oc as [_ ?]).
  destruct (bare_body (1 + f) c v' s r Nc Sc Ns Fv Oc' d1 p1 B1 P1 S1) as (p2 & E2 & (Es2 & Eq2 & Cf2 & B2 & P2) & (Sl & Sv & Sq & St & Sd)). cbn [label val pairs ptype pdest started] in *.
  set (p3 := set_pos (set_buf p2 (<[pos p2 := 0]> (buf p2))) (S (pos p2)) CONSUME). set (d' := (d1 ++ c :: v') ++ [0]).
  assert (E3 : parse_switch p2 = Some (inr p3)).
  { unfold parse_switch. rewrite Es2, Eq2, (at_place p2 _ _ _ B2 P2). change (ch "\") with BACKSLASH. rewrite Bs, Is, Hs. cbn [andb orb negb]. unfold next_in_val, p3. cbn [pos set_buf]. by destruct (_ =? 0). }
  assert (L3 : last_copy p3 = Some (d' ++ r)) by (unfold last_copy, p3; cbn [copyForward buf set_pos set_buf]; rewrite Cf2, B2, P2, insert_at; subst d'; by rewrite <- (app_assoc _ [0])).
  assert (Cl : closed d' (length d) l) by (split; [by apply label_nonzero|]; exists d, (c :: v' ++ [0]); split; [|done]; subst d' d1; rewrite <- ?app_assoc; cbn [app]; by rewrite <- ?app_assoc).
  assert (Cv : closed d' (length d1) (c :: v')) by (split; [done|]; exists d1, []; split; [|done]; subst d'; by rewrite <- (app_assoc d1)).
  destruct (consume_step f p2 p3 d' l (c :: v') (length d) (length d1) r E3 eq_refl L3) as (p5 & E5 & B5 & P5 & S5 & T5 & Q5);
    [unfold p3; cbn [pos set_pos]; rewrite P2; subst d'; rewrite (length_app _ [0]); cbn; lia|unfold p3; cbn [label set_pos set_buf]; congruence|unfold p3; cbn [val set_pos set_buf]; congruence|by apply closed_app|by apply settled_app|by apply settled_app| | |].
  { unfold p3. cbn [ptype set_pos set_buf]. rewrite St, T1. exact Ht. } { unfold p3. cbn [pairs set_pos set_buf]. rewrite Sq, Q1. exact Hn. }
  unfold p3 in T5, Q5. cbn [pairs ptype pdest set_pos set_buf] in T5, Q5. exists p5. split.
  { cbn [length]. replace (length l + S (length v') + 2 + f)%nat with (length l + 1 + (1 + length v' + 1 + f))%nat by lia. rewrite E1. replace (1 + length v' + 1 + f)%nat with (S (length v') + (1 + f))%nat by lia. rewrite E2. exact E5. }
  exists d'. split; [done|]. split; [done|]. split; [done|]. split; [subst d' d1; exists ((l ++ [0]) ++ c :: v' ++ [0]); rewrite <- ?app_assoc; cbn [app]; by rewrite <- ?app_assoc|].
  split; [rewrite T5, St, T1, Sd, D1, Sq, Q1; done|]. exists (length d, length d1). split; [rewrite Q5, Sq, Q1; done|]. split; by apply settled_app.
Qed.

Lemma settled_end d : settled d [0] = d ++ [0].
Proof. unfold settled. by rewrite decide_True. Qed.

(** A value at the end of the line. *)
Lemma bare_last_steps f l v : tag_ok l = true -> bare_ok v = true -> forall d p, buf p = d ++ l ++ ch "=" :: v ++ [0] -> pos p = length d -> state p = FIND_LABEL ->
  (type_of_label tags l = MATCH_NONE \/ ptype p = MATCH_NONE) -> (length (pairs p) < MATCHER_MAX_TOKENS)%nat ->
  exists p', parse_loop (length l + length v + 1 + f) tags p = continue f p' /\ entered p p' d (l, v) [0].
Proof.
  intros Hl Hv d p Eb Ep Es Ht Hn. destruct (bare_ok_spec v Hv) as (c & v' & -> & Nc & Sc & Fv & Oc & Nz). assert (Nc0 : c <> 0) by (by apply Forall_cons in Nz as [? _]). cbn [app] in Eb.
  destruct (label_steps (S (length v') + f) d l c (v' ++ [0]) p) as (p1 & E1 & B1 & P1 & S1 & L1 & Q1 & T1 & D1); [done..|]. set (d1 := d ++ l ++ [0]) in *. set (d' := d1 ++ c :: v').
  assert (G : exists k p2 p3, S (length v') = (k + 1)%nat /\ parse_loop (S (length v') + f) tags p1 = parse_loop (S f) tags p2 /\ parse_switch p2 = Some (inr p3) /\ state p3 = CONSUME /\ last_copy p3 = Some (d' ++ [0]) /\ pos p3 = length d' /\ same_pairs (started p1 PARSE_VAL) p3).
  { exists (length v'). destruct v' as [|c1 v1 _] using rev_ind.
    - exists p1, (started p1 CONSUME). split; [done|]. split; [done|]. pose proof (bare_start p1 d1 c [0] B1 P1 S1 Nc Sc) as E. cbn [app] in B1. rewrite (at_next p1 d1 _ _ _ B1 P1) in E. split; [exact E|]. split; [done|]. unfold last_copy. cbn [copyForward buf pos started].
      split; [rewrite B1; subst d'; by rewrite <- app_assoc|]. split; [rewrite P1; subst d'; rewrite (length_app d1); cbn; lia|done].
    - rewrite forallb_app in Fv. apply andb_true_iff in Fv as [Fv Hc1]. cbn [forallb] in Hc1. rewrite andb_true_r in Hc1. destruct (bare_char_spec c1 Hc1) as (N1 & I1 & Sc1). assert (Oc' : no_octal (v1 ++ [c1]) = true) by (cbn [no_octal] in Oc; by apply andb_true_iff in Oc as [_ ?]).
      rewrite <- app_assoc in B1. cbn [app] in B1. destruct (bare_body (S f) c v1 c1 [0] Nc Sc N1 Fv Oc' d1 p1 B1 P1 S1) as (p2 & E2 & (Es2 & Eq2 & Cf2 & B2 & P2) & Sp).
      exists p2, (set_pos p2 (S (pos p2)) CONSUME). rewrite length_app. cbn [length]. split; [lia|]. split; [replace (S (length v1 + 1) + f)%nat with (S (length v1) + S f)%nat by lia; exact E2|]. split.
      { unfold parse_switch. rewrite Es2, Eq2, (at_place p2 _ _ _ B2 P2), (at_next p2 _ _ _ _ B2 P2). change (is_digit 0) with false. rewrite andb_false_r, I1, Sc1. cbn [orb negb]. unfold next_in_val. by rewrite (at_next p2 _ _ _ _ B2 P2). }
      split; [done|]. unfold last_copy. cbn [copyForward buf pos set_pos]. rewrite Cf2. split; [rewrite B2; subst d'; rewrite <- !(app_assoc d1); cbn [app]; by rewrite <- (app_assoc v1)|]. split; [rewrite P2; subst d'; rewrite !(length_app d1); cbn [length]; rewrite length_app; cbn; lia|exact Sp]. }
  destruct G as (k & p2 & p3 & Ek & E2 & E3 & S3 & L3 & P3 & (Sl & Sv & Sq & St & Sd)). cbn [label val pairs ptype pdest started] in *.
  assert (Cl : closed (d' ++ [0]) (length d) l) by (split; [by apply label_nonzero|]; exists d, (c :: v' ++ [0]); split; [|done]; subst d' d1; rewrite <- ?app_assoc; cbn [app]; by rewrite <- ?app_assoc).
  assert (Cv : closed (d' ++ [0]) (length d1) (c :: v')) by (split; [done|]; exists d1, []; split; [|done]; subst d'; by rewrite <- (app_assoc d1)).
  destruct (consume_step f p2 p3 d' l (c :: v') (length d) (length d1) [0] E3 S3 L3 P3) as (p5 & E5 & B5 & P5 & S5 & T5 & Q5); [congruence|congruence|done|by rewrite settled_end|by rewrite settled_end| | |].
  { rewrite St, T1. exact Ht. } { rewrite Sq, Q1. exact Hn. }
  exists p5. split.
  { cbn [length]. replace (length l + S (length v') + 1 + f)%nat with (length l + 1 + (S (length v') + f))%nat by lia. rewrite E1, E2. exact E5. }
  exists d'. split; [done|]. split; [done|]. split; [done|]. split; [subst d' d1; exists ((l ++ [0]) ++ c :: v'); by rewrite <- ?app_assoc|].
  split; [rewrite T5, St, T1, Sd, D1, Sq, Q1; done|]. exists (length d, length d1). split; [rewrite Q5, Sq, Q1; done|]. by rewrite settled_end.
Qed.

(** ** A line *)

Definition cost (w : word) : nat := length (pair w).1 + length (pair w).2 + (if in_quotes w then 3 else 1) + length (gap w).

Lemma entered_gap f p p1 d x g r : Forall (fun c => is_space c = true) g -> entered p p1 d x (g ++ r) -> exists p2, continue (length g + f) p1 = continue f p2 /\ entered p p2 d x r.
Proof.
  intros G (d' & B & P & S & (b & ->) & T & (ab & Q & C1 & C2)). exists (set_pos p1 (length ((d ++ b) ++ g)) FIND_LABEL). split; [by apply (space_steps f g G (d ++ b) r)|].
  exists ((d ++ b) ++ g). cbn [buf pos state ptype pdest pairs set_pos]. split; [by rewrite B, <- (app_assoc _ g)|]. split; [done|]. split; [done|]. split; [exists (b ++ g); by rewrite <- app_assoc|]. split; [done|]. exists ab. split; [done|].
  assert (K : forall i s, closed (settled (d ++ b) (g ++ r)) i s -> closed (settled ((d ++ b) ++ g) r) i s); [|split; by apply K]. intros i s. unfold settled at 1. case_decide as E; [|intros C; by apply settled_app, closed_app].
  destruct g as [|c g]; [cbn in *; rewrite E, app_nil_r; by rewrite settled_end|]. injection E as -> _. by apply Forall_cons in G as [? _].
Qed.

Lemma word_steps f w ws d p : word_ok w = true -> separated (w :: ws) = true -> buf p = d ++ print_word w ++ print_line ws ++ [0] -> pos p = length d -> state p = FIND_LABEL ->
  (type_of_label tags (pair w).1 = MATCH_NONE \/ ptype p = MATCH_NONE) -> (length (pairs p) < MATCHER_MAX_TOKENS)%nat ->
  exists p', parse_loop (cost w + f) tags p = continue f p' /\ entered p p' d (pair w) (print_line ws ++ [0]).
Proof.
  destruct w as [[l v] q g]. unfold word_ok, print_word, print_value, cost. cbn [pair in_quotes gap fst snd separated]. intros [[Hl Hv]%andb_true_iff Hg]%andb_true_iff [Sp _]%andb_true_iff Eb Ep Es Ht Hn.
  assert (G : Forall (fun c => is_space c = true) g) by (apply Forall_forall; intros c Hc; rewrite forallb_forall in Hg; by apply Hg, list_elem_of_In). clear Hg. destruct q.
  - destruct (quoted_steps (length g + f) l v Hl Hv d (g ++ print_line ws ++ [0]) p) as (p1 & E1 & N1); [|done..|].
    { rewrite Eb, <- !app_assoc. cbn [app]. by rewrite <- ?app_assoc. }
    destruct (entered_gap f p p1 d _ g _ G N1) as (p2 & E2 & N2). exists p2. split; [|done]. rewrite <- E2, <- E1. f_equal. lia.
  - destruct g as [|s g].
    + cbn [app length orb] in *. assert (W : ws = []) by (by apply bool_decide_eq_true in Sp). subst ws. rewrite app_nil_r in Eb. cbn [print_line mbind list_bind app] in *. rewrite <- app_assoc in Eb.
      destruct (bare_last_steps f l v Hl Hv d p Eb Ep Es Ht Hn) as (p1 & E1 & N1). exists p1. split; [|done]. rewrite <- E1. f_equal. lia.
    + apply Forall_cons in G as [Gs G]. destruct (bare_space_steps (length g + f) l v s Hl Hv Gs d (g ++ print_line ws ++ [0]) p) as (p1 & E1 & N1); [|done..|].
      { rewrite Eb, <- !app_assoc. cbn [app]. by rewrite <- ?app_assoc. }
      destruct (entered_gap f p p1 d _ g _ G N1) as (p2 & E2 & N2). exists p2. split; [|done]. rewrite <- E2, <- E1. cbn [length]. f_equal. lia.
Qed.

(** The pairs do not name two destinations. *)
Fixpoint one_dest (t : matcher_type) (xs : list (list Z * list Z)) : Prop :=
  match xs with [] => True | x :: xs' => (type_of_label tags x.1 = MATCH_NONE \/ t = MATCH_NONE) /\ one_dest (if decide (type_of_label tags x.1 = MATCH_NONE) then t else type_of_label tags x.1) xs' end.

Fixpoint dest_of (td : matcher_type * nat) (n : nat) (xs : list (list Z * list Z)) : matcher_type * nat :=
  match xs with [] => td | x :: xs' => dest_of (dest_after td n x.1) (S n) xs' end.

Definition rounds (ws : list word) : nat := sum_list_with cost ws.

Lemma print_line_head w ws r : word_ok w = true -> exists c s, print_line (w :: ws) ++ r = c :: s /\ c <> 0 /\ is_space c = false.
Proof.
  destruct w as [[l v] q g]. unfold word_ok. cbn [pair fst]. intros [[Hl _]%andb_true_iff _]%andb_true_iff. apply label_chars in Hl. destruct l as [|c l]; [done|]. destruct Hl as (Sp & N & _).
  unfold print_line. cbn [mbind list_bind]. unfold print_word. cbn [pair fst app]. eexists _, _. split; [done|]. by split.
Qed.

Lemma line_loop f ws : Forall (fun w => word_ok w = true) ws -> separated ws = true -> forall d p dn, buf p = d ++ print_line ws ++ [0] -> pos p = length d -> state p = FIND_LABEL ->
  one_dest (ptype p) (pair <$> ws) -> (length (pairs p) + length ws <= MATCHER_MAX_TOKENS)%nat -> pairs_at (settled d (print_line ws ++ [0])) (pairs p) dn ->
  exists p', continue (rounds ws + f) p = Some (inr p') /\ state p' = FIND_LABEL /\ (ptype p', pdest p') = dest_of (ptype p, pdest p) (length (pairs p)) (pair <$> ws) /\ pairs_at (buf p') (pairs p') (dn ++ (pair <$> ws)).
Proof.
  intros F. induction F as [|w ws Hw F IH]; intros Sep d p dn Eb Ep Es Ho Hn Hp.
  - exists p. unfold continue. rewrite (at_place p d 0 []) by done. cbn [fmap list_fmap dest_of]. rewrite app_nil_r. split; [done|]. split; [done|]. split; [done|]. rewrite Eb. by rewrite settled_end in Hp.
  - destruct (print_line_head w ws [0] Hw) as (c & s & Eh & Nc & _). rewrite continue_loop by (rewrite (at_place p d c s); [exact Nc|by rewrite <- Eh|done]).
    assert (Pd : pairs_at d (pairs p) dn).
    { unfold settled in Hp. rewrite decide_False in Hp; [done|]. intros X. rewrite X in Eh. by injection Eh as <-. }
    cbn [fmap list_fmap one_dest] in Ho. destruct Ho as [Ho1 Ho2]. cbn [length] in Hn.
    assert (Ebx : buf p = d ++ print_word w ++ print_line ws ++ [0]) by (rewrite Eb; unfold print_line; cbn [mbind list_bind]; by rewrite <- ?app_assoc).
    destruct (word_steps (rounds ws + f) w ws d p Hw Sep Ebx Ep Es Ho1 ltac:(lia)) as (p1 & E1 & (d1 & B1 & P1 & S1 & (b & Ed) & T1 & (ab & Q1 & C1 & C2))).
    assert (Pa : pairs_at (settled d1 (print_line ws ++ [0])) (pairs p1) (dn ++ [pair w])).
    { rewrite Q1. apply Forall2_app; [|by apply Forall2_cons]. assert (Pb : pairs_at (settled d1 (print_line ws ++ [0])) (pairs p) dn); [|exact Pb]. rewrite Ed. unfold settled. destruct (decide (print_line ws ++ [0] = [0])); [|by apply pairs_at_app]. rewrite <- app_assoc. by apply pairs_at_app. }
    assert (Tt : ptype p1 = if decide (type_of_label tags (pair w).1 = MATCH_NONE) then ptype p else type_of_label tags (pair w).1) by (unfold dest_after in T1; case_decide; congruence).
    destruct (IH ltac:(by apply andb_true_iff in Sep as [_ ?]) d1 p1 (dn ++ [pair w]) B1 P1 S1) as (p3 & E3 & S3 & T3 & Pa3); [by rewrite Tt|rewrite Q1, length_app; cbn [length]; lia|exact Pa|].
    exists p3. split; [|split; [done|]].
    + change (rounds (w :: ws)) with (cost w + rounds ws)%nat. rewrite <- Nat.add_assoc. by rewrite E1.
    + cbn [fmap list_fmap dest_of]. rewrite <- app_assoc in Pa3. split; [|exact Pa3]. rewrite T3, <- T1, Q1, length_app. cbn [length]. by rewrite Nat.add_1_r.
Qed.
End parse.

(** Lists of pairs of which one names the destination. *)
Lemma one_dest_other tags t xs : Forall (fun x => type_of_label tags x.1 = MATCH_NONE) xs -> one_dest tags t xs /\ forall td n, dest_of tags td n xs = td.
Proof.
  intros F. revert t. induction F as [|x xs Hx F IH]; intros t; [done|]. destruct (IH t) as [H1 H2]. cbn [one_dest dest_of]. unfold dest_after. rewrite Hx. split; [split; [by left|exact H1]|]. intros td n. apply H2.
Qed.

Lemma one_dest_split tags xs1 x xs2 : Forall (fun x => type_of_label tags x.1 = MATCH_NONE) xs1 -> type_of_label tags x.1 <> MATCH_NONE -> Forall (fun x => type_of_label tags x.1 = MATCH_NONE) xs2 ->
  one_dest tags MATCH_NONE (xs1 ++ x :: xs2) /\ forall n0 n, dest_of tags (MATCH_NONE, n0) n (xs1 ++ x :: xs2) = (type_of_label tags x.1, n + length xs1)%nat.
Proof.
  intros F1 Nx F2. induction F1 as [|y xs1 Hy F1 IH].
  - cbn [app one_dest dest_of length]. unfold dest_after. rewrite decide_False by done. destruct (one_dest_other tags (type_of_label tags x.1) xs2 F2) as [H1 H2]. split; [split; [by right|exact H1]|]. intros n0 n. rewrite decide_False by done. rewrite H2. f_equal. lia.
  - destruct IH as [H1 H2]. cbn [app one_dest dest_of length]. unfold dest_after. rewrite Hy. split; [split; [by left|exact H1]|]. intros n0 n. rewrite decide_True by done. rewrite H2. f_equal. lia.
Qed.

Lemma escaped_length v : (length v <= length (escaped v))%nat.
Proof. induction v as [|c v IH]; [done|]. rewrite escaped_cons, length_app. destruct (special c); cbn [length]; lia. Qed.

Lemma rounds_length ws : (rounds ws <= length (print_line ws))%nat.
Proof.
  induction ws as [|[[l v] q g] ws IH]; [done|]. change (rounds ?x) with (cost (mkWord (l, v) q g) + rounds ws)%nat. change (print_line (mkWord (l, v) q g :: ws)) with (print_word (mkWord (l, v) q g) ++ print_line ws). rewrite length_app.
  unfold cost, print_word, print_value. cbn [pair in_quotes gap fst snd]. rewrite length_app. cbn [length]. rewrite length_app. pose proof (escaped_length v). destruct q; cbn [length]; rewrite ?length_app; cbn [length]; lia.
Qed.

(** What [parseConfigLine] makes of pairs of which [w] is the destination. *)
Definition words_line (tags : matcher_tags) (ws1 : list word) (w : word) (ws2 : list word) (n : Z) : matcher_line :=
  let xs := pair <$> ws1 ++ w :: ws2 in
  mkLine (type_of_label tags (pair w).1) (length ws1) (Z.of_nat (length xs)) (pad xs.*1) (pad xs.*2) n.

(** A line of pairs that can be read, of which one names the destination. *)
Record words_ok (tags : matcher_tags) (ws1 : list word) (w : word) (ws2 : list word) : Prop := mkWO {
  wo_words : Forall (fun w => word_ok w = true) (ws1 ++ w :: ws2);
  wo_gaps : separated (ws1 ++ w :: ws2) = true;
  wo_count : (length (ws1 ++ w :: ws2) <= MATCHER_MAX_TOKENS)%nat;
  wo_other : Forall (fun w => type_of_label tags (pair w).1 = MATCH_NONE) (ws1 ++ ws2);
  wo_dest : type_of_label tags (pair w).1 <> MATCH_NONE }.

Lemma parse_print tags sp ws1 w ws2 : Forall (fun c => is_space c = true) sp -> words_ok tags ws1 w ws2 -> parseConfigLine (sp ++ print_line (ws1 ++ w :: ws2)) tags = Some (inr (words_line tags ws1 w ws2 0)).
Proof.
  intros Hsp [F Sep L T Nx]. set (ws := ws1 ++ w :: ws2) in *. apply Forall_app in T as [T1 T2]. assert (Ews : pair <$> ws = (pair <$> ws1) ++ pair w :: (pair <$> ws2)) by (unfold ws; by rewrite fmap_app).
  destruct (one_dest_split tags (pair <$> ws1) (pair w) (pair <$> ws2)) as [Od Dd]; [by apply Forall_fmap|done|by apply Forall_fmap|]. rewrite <- Ews in Od, Dd. rewrite length_fmap in Dd.
  assert (Ex : exists y ys, ws = y :: ys /\ word_ok y = true) by (unfold ws in *; destruct ws1 as [|y ys]; cbn [app] in *; apply Forall_cons in F as [Hy _]; eauto). destruct Ex as (y & ys & Ey & Hy).
  destruct (print_line_head y ys [] Hy) as (c & s & Eh & Nc & Sc). rewrite app_nil_r, <- Ey in Eh. pose proof (rounds_length ws) as Lr.
  set (line := sp ++ print_line ws). set (p0 := mkParse (line ++ [0]) 0 FIND_LABEL false None 0 0 0 [] MATCH_NONE 0).
  assert (Nl : line <> []) by (unfold line; rewrite Eh; by destruct sp). assert (At0 : at_pos p0 (pos p0) <> 0).
  { unfold p0, line, at_pos. cbn [buf pos]. rewrite Eh. destruct Hsp as [|c' sp Hc' _]; [exact Nc|]. cbn [app nth]. intros ->. done. }
  set (k := (S (length line) - length sp - rounds ws)%nat). assert (Lk : S (length line) = (length sp + (rounds ws + k))%nat) by (unfold k, line; rewrite length_app; lia).
  pose proof (space_steps tags (rounds ws + k) sp Hsp [] (print_line ws ++ [0]) p0 ltac:(unfold p0, line; cbn [buf app]; by rewrite <- app_assoc) eq_refl eq_refl) as Esp. cbn [app] in Esp. rewrite <- Lk, (continue_loop _ _ _ At0) in Esp.
  destruct (line_loop tags k ws F Sep sp (set_pos p0 (length sp) FIND_LABEL) []) as (p & E & Sp & Tp & Pa); [unfold p0, line; cbn [buf set_pos]; by rewrite <- app_assoc|done|done|exact Od|cbn; lia|by constructor|].
  cbn [app ptype pdest pairs p0 length set_pos] in Tp, Pa. rewrite E in Esp.
  unfold parseConfigLine. fold p0. rewrite Esp. destruct line as [|c0 s0]; [done|]. cbn [mbind option_bind]. rewrite Sp. change (bool_decide (FIND_LABEL <> CONSUME) && bool_decide (FIND_LABEL <> FIND_LABEL)) with false. cbn iota. rewrite Dd in Tp. injection Tp as Tt Td. rewrite Tt. rewrite decide_False by done. f_equal. f_equal.
  assert (Ps : forall f g, (forall ab x, closed (buf p) ab.1 x.1 /\ closed (buf p) ab.2 x.2 -> str_at (buf p) (f ab) = g x) -> (fun ab : nat * nat => str_at (buf p) (f ab)) <$> pairs p = (g : list Z * list Z -> list Z) <$> (pair <$> ws)).
  { intros f g H. clear - Pa H. revert Pa. generalize (pair <$> ws). intros xs Pa. induction Pa as [|ab z ps ys Hz _ IH]; [done|]. cbn [fmap list_fmap]. rewrite (H ab z Hz). f_equal. exact IH. }
  assert (Cs : forall i s, closed (buf p) i s -> str_at (buf p) i = s) by (intros i s0' C; rewrite <- (app_nil_r (buf p)); by apply closed_str).
  assert (Ln : length (pairs p) = length (pair <$> ws)) by (by eapply Forall2_length). unfold parsed_line, words_line. fold ws. rewrite Tt, Td, Ln.
  rewrite (Ps fst fst) by (intros ab z [H _]; by apply Cs). rewrite (Ps snd snd) by (intros ab z [_ H]; by apply Cs). done.
Qed.

(** C24: A line of a configuration file that is written comes back: for pairs of a label
    and a value, at most [MATCHER_MAX_TOKENS], of which one names the destination,
    [parseConfigLine] enters exactly these labels and values in this order, with the type
    and the place of the destination.  Each value is written in quotes or bare, with any
    white space between the pairs and around them, where a bare value that is not the last
    has some behind it.  A bare value is of ASCII characters without white space, does not
    begin with a quote or backslash and has no backslash before a digit.  A value in quotes
    has any bytes, with a backslash before the quotes and backslashes in it, and these are
    such that what [memcpy] is to copy does not overlap what it copies it over
    ([copies_ok]): for other values C does not say what the code does. *)
Theorem config_line_roundtrip tags sp ws1 w ws2 : Forall (fun c => is_space c = true) sp -> words_ok tags ws1 w ws2 ->
  parseConfigLine (sp ++ print_line (ws1 ++ w :: ws2)) tags = Some (inr (words_line tags ws1 w ws2 0)).
Proof. apply parse_print. Qed.

(** Two characters behind one with a backslash are copied over themselves. *)
Lemma copy_overlaps : parseConfigLine (print_line [mkWord (chars "dest_host", QUOTE :: chars "a") true []]) http_dest_tags = None /\
  copies_ok 0 0 (QUOTE :: chars "a") = false /\ copies_ok 0 0 (chars "abc" ++ [QUOTE; BACKSLASH; 97]) = true.
Proof. by vm_compute. Qed.

(** ** Durations *)

Lemma i32_add_wraps a b : i32 (a + i32 b) = i32 (a + b).
Proof. by rewrite Z.add_comm, wraps_add_l, Z.add_comm by lia. Qed.

Definition digits_ok (ds : list Z) : Prop := ds <> [] /\ Forall (fun c => is_digit c = true) ds.

Definition digits_value (ds : list Z) : Z := default 0 (scan_d ds).

Lemma scan_digits_some n ds : digits_ok ds -> scan_d ds = Some (digits_value ds) /\ (forall s, Forall (fun c => is_digit c = true) s -> s <> [] -> is_Some (scan_digits n s)).
Proof.
  assert (G : forall n s, Forall (fun c => is_digit c = true) s -> s <> [] -> is_Some (scan_digits n s)) by (intros m s F N; destruct F as [|c s H F]; [done|]; cbn [scan_digits]; rewrite H; eauto).
  intros [N F]. split; [|apply G]. unfold digits_value. assert (S : is_Some (scan_d ds)); [|by destruct S as [x ->]]. destruct F as [|c s H F]; [done|]. cbn [scan_d].
  assert (R : 48 <= c <= 57) by (unfold is_digit, in_range in H; bsimp; lia). destruct (is_space c) eqn:Sp.
  { exfalso. unfold is_space, one_of in Sp. cbn in Sp. unfold CHAR_SP, CHAR_HT, CHAR_LF, CHAR_VT, CHAR_NP, CHAR_CR in Sp. repeat (apply orb_true_iff in Sp as [Sp|Sp]; [apply Z.eqb_eq in Sp; lia|]). done. }
  change (ch "-") with 45. change (ch "+") with 43. rewrite (proj2 (Z.eqb_neq c 45)), (proj2 (Z.eqb_neq c 43)) by lia. by apply G; [constructor|].
Qed.

Lemma duration_digits ds s str result : Forall (fun c => is_digit c = true) ds -> duration_loop (ds ++ str) s result = duration_loop str (s ++ ds) result.
Proof. intros F. revert s. induction F as [|c ds H F IH]; intros s; [by rewrite app_nil_r|]. cbn [app duration_loop]. rewrite H, IH. by rewrite <- app_assoc. Qed.

(** The parts of a duration: a number, its unit and the seconds of the unit. *)
Definition part_ok (x : list Z * Z * Z) : Prop := digits_ok x.1.1 /\ is_digit x.1.2 = false /\ unit_seconds x.1.2 = inr x.2.

Definition seconds (xs : list (list Z * Z * Z)) (ds : list Z) : Z := foldr (fun x n => x.2 * digits_value x.1.1 + n) (digits_value ds) xs.

Lemma duration_parts xs ds result : Forall part_ok xs -> (ds = [] \/ digits_ok ds) -> - 2 ^ 31 <= result < 2 ^ 31 ->
  duration_loop ((xs ≫= fun x => x.1.1 ++ [x.1.2]) ++ ds) [] result = inr (i32 (result + seconds xs ds)).
Proof.
  intros F Hd. revert result. induction F as [|[[d u] m] xs [Hx [Nu Eu]] F IH]; intros result Hr; cbn [fst snd] in *.
  - cbn [mbind list_bind app seconds foldr]. destruct Hd as [->|Hd].
    + cbn [duration_loop]. change (digits_value []) with 0. by rewrite Z.add_0_r, wraps_id by lia.
    + replace ds with (ds ++ []) at 1 by apply app_nil_r. rewrite duration_digits by apply Hd. cbn [app duration_loop]. destruct ds as [|c ds]; [by destruct Hd|]. by rewrite (proj1 (scan_digits_some 0 _ Hd)).
  - cbn [mbind list_bind fst snd]. rewrite <- ?app_assoc. rewrite duration_digits by apply Hx. cbn [app duration_loop]. rewrite Nu, Eu. destruct d as [|c d]; [by destruct Hx|]. rewrite (proj1 (scan_digits_some 0 _ Hx)).
    rewrite IH by (pose proof (wraps_range 32 (result + i32 (m * digits_value (c :: d))) ltac:(lia)); lia). f_equal. rewrite wraps_add_l by lia. cbn [seconds foldr fst snd]. rewrite <- Z.add_assoc, (Z.add_comm (i32 _)), Z.add_assoc, i32_add_wraps. f_equal. unfold seconds. lia.
Qed.

(** A duration is the sum of its parts, as an [int]; a sum that is negative as one is
    refused. *)
Lemma duration_sum xs ds : Forall part_ok xs -> (ds = [] \/ digits_ok ds) ->
  processDurationString (Some ((xs ≫= fun x => x.1.1 ++ [x.1.2]) ++ ds)) = if i32 (seconds xs ds) <? 0 then inl (chars "Time too big") else inr (i32 (seconds xs ds)).
Proof. intros F Hd. unfold processDurationString. by rewrite duration_parts by (try done; lia). Qed.

(** ** Lines *)

Lemma scan_line_ok A l c r f : Forall (fun c => c <> 0 /\ c <> 10) l -> (c = 0 \/ c = 10) -> (length l < f)%nat -> scan_line (A ++ l ++ c :: r) (length A) f = Some ((length A + length l)%nat, c =? 10).
Proof.
  intros F Hc. revert A f. induction F as [|d l [N1 N2] F IH]; intros A f L; (destruct f as [|f]; [cbn in L; lia|]); cbn [scan_line].
  - cbn [app length]. rewrite lookup_app_r, Nat.sub_diag by lia. cbn [lookup list_lookup mbind option_bind]. change (ch "010") with 10. rewrite Nat.add_0_r. destruct Hc as [->| ->]; done.
  - rewrite lookup_app_r, Nat.sub_diag by lia. cbn [app lookup list_lookup mbind option_bind length]. change (ch "010") with 10. rewrite (proj2 (Z.eqb_neq d 0)), (proj2 (Z.eqb_neq d 10)) by done.
    replace (A ++ d :: l ++ c :: r) with ((A ++ [d]) ++ l ++ c :: r) by (by rewrite <- app_assoc). replace (S (length A)) with (length (A ++ [d])) by (rewrite length_app; cbn; lia). rewrite IH by (cbn in L; lia). do 2 f_equal. rewrite length_app. cbn. lia.
Qed.

(** A line with a newline behind it is found, and is then a string of its own. *)
Lemma tok_line first A l r last : Forall (fun c => c <> 0 /\ c <> 10) l -> length A = (if first : bool then 0 else S last)%nat ->
  tokLine first (A ++ l ++ 10 :: r) last = Some (Some (length A), A ++ l ++ 0 :: r, (length A + length l)%nat).
Proof.
  intros F La. unfold tokLine. rewrite <- La. rewrite (scan_line_ok A l 10 r) by (first [by right|done|rewrite !length_app; lia]). cbn [mbind option_bind]. do 3 f_equal. rewrite app_assoc. rewrite <- length_app. rewrite insert_app_r_alt by lia.
  rewrite Nat.sub_diag. by rewrite <- app_assoc.
Qed.
