(* ===== verification/ControlBase.v ===== *)
(** The modifiers of the rules in the configuration files ([proxy/ControlBase.cc],
    [ControlBase.h]).

    The elements of [mod_elements] are a list, with the size of the memory it is in; an
    element whose type is not set is [MOD_INVALID]. *)

From S2P Require Import Prelude ParseRules HdrToken URL HTTP LibC Tokenizer MatcherUtils.
From Stdlib Require Import Ascii.

(** A scheme is a well-known string, given by its index. *)
Inductive modifier_el :=
  | MOD_INVALID | MOD_PORT (start_port end_port : Z) | MOD_SCHEME (wks : Z) | MOD_PREFIX (s : list Z) | MOD_SUFFIX (s : list Z) | MOD_METHOD (s : list Z)
  | MOD_TIME (start_time end_time : Z) | MOD_SRC_IP (start_addr end_addr : Z) | MOD_IPORT (port : Z) | MOD_TAG (s : list Z).

#[export] Instance modifier_el_eq_dec : EqDecision modifier_el.
Proof. solve_decision. Defined.

Record ModElements := mkMods { elements : list modifier_el; mod_size : nat }.

(** [DynArray]: the size it begins with, and the one that is enough for another element. *)
Fixpoint pow2_from (fuel i n : nat) : nat := match fuel with O => i | S fuel' => if (i <? n)%nat then pow2_from fuel' (2 * i) n else i end.

Definition new_mods (initial_size : nat) : ModElements := mkMods [] (pow2_from initial_size 1 initial_size).

Definition add_mod (e : modifier_el) (m : ModElements) : ModElements :=
  let n := length (elements m) in mkMods (elements m ++ [e]) (if (n <? mod_size m)%nat then mod_size m else if (mod_size m =? 0)%nat then 64 else 2 * mod_size m).

(** ** Reading modifiers *)

Definition TODtoSeconds (time_str : list Z) : list Z + Z :=
  let read := match scan_ds 3 time_str with
    | [hour; min; sec] => Some (hour, min, sec)
    | _ => match scan_ds 2 time_str with [hour; min] => Some (hour, min, 0) | _ => None end
    end in
  match read with
  | None => inl (chars "Malformed time specified")
  | Some (hour, min, sec) =>
    if negb ((0 <=? hour) && (hour <=? 23)) then inl (chars "Illegal hour specification")
    else if negb ((0 <=? min) && (min <=? 59)) then inl (chars "Illegal minute specification")
    else if negb ((0 <=? sec) && (sec <=? 59)) then inl (chars "Illegal second specification")
    else inr ((hour * 60 + min) * 60 + sec)
  end.

(** [None]: a null pointer is read. *)
Definition ProcessTimeOfDay (val : list Z) : option (list Z + modifier_el) :=
  let '(num_tok, rangeTok) := Initialize (new_Tokenizer (chars "-")) val false in
  if num_tok =? 1 then Some (inl (chars "End time not specified"))
  else if num_tok >? 2 then Some (inl (chars "Malformed Range"))
  else
    t0 ← get_token rangeTok 0;
    match TODtoSeconds t0 with
    | inl err => Some (inl err)
    | inr start_time =>
      t1 ← get_token rangeTok 1;
      Some match TODtoSeconds t1 with inl err => inl err | inr end_time => inr (MOD_TIME start_time end_time) end
    end.

Definition ProcessPort (val : list Z) : option (list Z + modifier_el) :=
  let '(num_tok, rangeTok) := Initialize (new_Tokenizer (chars "-")) val false in
  if num_tok >? 2 then Some (inl (chars "Malformed Range"))
  else
    t0 ← get_token rangeTok 0;
    match scan_d t0 with
    | None => Some (inl (chars "Invalid start port"))
    | Some start_port =>
      if num_tok =? 2 then
        t1 ← get_token rangeTok 1;
        Some match scan_d t1 with
        | None => inl (chars "Invalid end port")
        | Some end_port => if end_port <? start_port then inl (chars "Malformed Range: end port < start port") else inr (MOD_PORT start_port end_port)
        end
      else Some (inr (MOD_PORT start_port start_port))
    end.

Section modifiers.
Context `{TokenDFA} (hash_table : list (option Z)).
Variable inet_addr : list Z -> Z.

Definition ProcessSrcIp (val : list Z) : option (list Z + modifier_el) :=
  r ← ExtractIpRange inet_addr val; Some match r with inl err => inl err | inr (a, b) => inr (MOD_SRC_IP a b) end.

(** One label and its value. *)
Definition process_modifier (label val : list Z) : option (list Z + modifier_el) :=
  if strcasecmp_eq label "port" then ProcessPort val
  else if strcasecmp_eq label "iport" then
    Some match scan_d val with Some tmp => inr (MOD_IPORT (u32 tmp)) | None => inl (chars "Bad incoming port") end
  else if strcasecmp_eq label "scheme" then
    let tmp_scheme := hdrtoken_tokenize hash_table None val in Some (if tmp_scheme <? 0 then inl (chars "Unknown scheme") else inr (MOD_SCHEME tmp_scheme))
  else if strcasecmp_eq label "method" then Some (inr (MOD_METHOD val))
  else if strcasecmp_eq label "prefix" then Some (inr (MOD_PREFIX val))
  else if strcasecmp_eq label "suffix" then Some (inr (MOD_SUFFIX val))
  else if strcasecmp_eq label "src_ip" then ProcessSrcIp val
  else if strcasecmp_eq label "time" then ProcessTimeOfDay val
  else if strcasecmp_eq label "tag" then Some (inr (MOD_TAG val))
  else Some (inl (chars "Unknown modifier")).

Fixpoint process_modifiers (line : list (option (list Z) * option (list Z))) (m : ModElements) : option (list Z + ModElements) :=
  match line with
  | [] => Some (inr m)
  | (None, _) :: line' => process_modifiers line' m
  | (Some _, None) :: _ => Some (inl (chars "Unable to parse modifier"))
  | (Some label, Some val) :: line' =>
    r ← process_modifier label val;
    match r with inl err => Some (inl err) | inr e => process_modifiers line' (add_mod e m) end
  end.

Definition line_entries (line_info : matcher_line) : list (option (list Z) * option (list Z)) := zip (line_labels line_info) (line_vals line_info).

(** An error, or the modifiers; after an error there are none. *)
Definition ProcessModifiers (line_info : matcher_line) : option (list Z + ModElements) :=
  process_modifiers (line_entries line_info) (new_mods (if ml_num_el line_info >? 0 then Z.to_nat (ml_num_el line_info) else 1)).
End modifiers.

(** [getModElem], for schemes and tags. *)
Definition get_scheme (m : ModElements) : option Z := head (omap (fun e => match e with MOD_SCHEME w => Some w | _ => None end) (elements m)).
Definition get_tag (m : ModElements) : option (list Z) := head (omap (fun e => match e with MOD_TAG s => Some s | _ => None end) (elements m)).

(** [~ControlBase] looks at one element more than there are.  [None]: it is behind the
    memory. *)
Definition destroy_looks_at (m : ModElements) : option (list modifier_el) :=
  let n := length (elements m) in
  if (S n <=? mod_size m)%nat then Some (elements m ++ [MOD_INVALID]) else None.

(** ** Checking a request *)

Record HttpRequestData := mkRequest { hdr : option HTTPHdrImpl; hostname_str : option (list Z); xact_start : Z; src_ip : Z; dest_ip : Z; incoming_port : Z; tag : option (list Z) }.

Fixpoint ptr_len_ncmp (p1 str : list Z) (n : nat) : Z :=
  match n with
  | O => 0
  | S n' =>
    match p1 with
    | [] => -1
    | a :: p1' =>
      match str with
      | [] => 1
      | b :: str' => if wraps 8 a >? wraps 8 b then 1 else if wraps 8 a <? wraps 8 b then -1 else ptr_len_ncmp p1' str' n'
      end
    end
  end.

Fixpoint ptr_len_casecmp (p1 str : list Z) : Z :=
  match p1, str with
  | [], [] => 0
  | [], _ :: _ => -1
  | _ :: _, [] => 1
  | a :: p1', b :: str' =>
    let p1c := wraps 8 (ink_tolower a) in
    let strc := wraps 8 (ink_tolower b) in
    if p1c >? strc then 1 else if p1c <? strc then -1 else ptr_len_casecmp p1' str'
  end.

Definition request_url (h : HTTPHdrImpl) : URLImpl := match m_u h with Req (Some u) _ _ => u | _ => url_create end.

(** What a request is matched by: its URL ([None]: there is no header, and a null pointer
    is read), its host and the address of its server. *)
Definition get_string `{TokenDFA} (hash_table : list (option Z)) (rd : HttpRequestData) : option (option (list Z)) :=
  h ← hdr rd; let '(str, _, _) := url_string_get hash_table true (request_url h) in Some (Some (unescapifyStr (c_string str))).
Definition get_host (rd : HttpRequestData) : option (list Z) := hostname_str rd.
Definition get_ip (rd : HttpRequestData) : Z := dest_ip rd.

Section check.
(** [ink_localtime_r]: the hour, minute and second. *)
Variable localtime : Z -> Z * Z * Z.

Definition time_of_day (t : Z) : Z := let '(h, m, s) := localtime t in h * (60 * 60) + m * 60 + s.

Definition check_modifier (rd : HttpRequestData) (h : HTTPHdrImpl) (e : modifier_el) : bool :=
  let u := request_url h in
  let path := default [] (m_path (strs u)) in
  match e with
  | MOD_PORT s e => let port := url_canonicalize_port (m_url_type u) (m_port u) in negb ((port <? s) || (port >? e))
  | MOD_IPORT p => incoming_port rd =? p
  | MOD_SCHEME wks => (0 <=? m_scheme_wks_idx u) && (m_scheme_wks_idx u =? wks)
  | MOD_PREFIX data => let data := match data with c :: data' => if c =? ch "/" then data' else data | [] => [] end in ptr_len_ncmp path data (length data) =? 0
  | MOD_SUFFIX data => negb (length path <? length data)%nat && same_name (drop (length path - length data) path) data
  | MOD_METHOD m => ptr_len_casecmp (default [] (http_hdr_method_get h)) m =? 0
  | MOD_TIME s e => negb ((time_of_day (xact_start rd) <? s) || (time_of_day (xact_start rd) >? e))
  | MOD_SRC_IP s e => negb ((htonl (src_ip rd) <? s) || (htonl (src_ip rd) >? e))
  | MOD_TAG t => match tag rd with Some r => bool_decide (r = t) | None => true end
  | MOD_INVALID => true
  end.

Definition CheckModifiers (mod_elements : option ModElements) (rd : HttpRequestData) : bool :=
  match hdr rd with
  | None => true
  | Some h =>
    match mod_elements with
    | None => true
    | Some m => if is_null (tag rd) && negb (is_null (get_tag m)) then false else forallb (check_modifier rd h) (elements m)
    end
  end.

Definition CheckForMatch (mod_elements : option ModElements) (line_num : Z) (rd : HttpRequestData) (last_number : Z) : bool :=
  ((last_number <? 0) || (last_number >? line_num)) && CheckModifiers mod_elements rd.
End check.
