(* ===== verification/ControlMatcher.v ===== *)
(** The tables of rules of a configuration file ([proxy/ControlMatcher.cc],
    [ControlMatcher.h]).

    The classes are templates: [Data] is a rule and [Result] what the rules that match
    update.  The rules of a table are an array, and what the lookup structures bind is the
    index of a rule.  Regular expressions are those of the C library. *)

From S2P Require Import Prelude ParseRules LibC Tokenizer HostLookup IpLookup MatcherUtils.
From Stdlib Require Import Ascii.

Section ControlMatcher.
Context {Data Result RD Regex : Type}.

(** The template's parameters: [Init] changes a rule from a line, of which it consumes
    pairs, and gives an error or not (outer [None]: a null pointer is read); [new_data] is
    a rule as its constructor leaves it and [zero_data] one whose memory is cleared. *)
Variable Init : matcher_line -> Data -> option (option (list Z) * Data).
Variables new_data zero_data : Data.
Variable UpdateMatch : RD -> Data -> Result -> Result.

(** What a request is matched by; for [get_string] the outer [None] is that a null pointer
    is read. *)
Variables (get_string : RD -> option (option (list Z))) (get_host : RD -> option (list Z)) (get_ip : RD -> Z).

Variable regcomp : list Z -> list Z + Regex.
(** [regexec]: 0 is a match. *)
Variable regexec : Regex -> list Z -> Z.
Variable inet_addr : list Z -> Z.

(** [p[i] = NULL] in the labels of a line.  The element before the first is the memory of
    the count. *)
Definition clear_label (i : Z) (line_info : matcher_line) : matcher_line :=
  if i <? 0 then mkLine (ml_type line_info) (dest_entry line_info) 0 (line_labels line_info) (line_vals line_info) (ml_line_num line_info)
  else mkLine (ml_type line_info) (dest_entry line_info) (ml_num_el line_info) (<[Z.to_nat i := None]> (line_labels line_info)) (line_vals line_info) (ml_line_num line_info).

Definition less_num_el (line_info : matcher_line) : matcher_line :=
  mkLine (ml_type line_info) (dest_entry line_info) (i32 (ml_num_el line_info - 1)) (line_labels line_info) (line_vals line_info) (ml_line_num line_info).

(** The value that names the destination. *)
Definition dest_val (line_info : matcher_line) : option (list Z) := mjoin (line_vals line_info !! dest_entry line_info).

(** ** Hosts and domains *)

Record HostMatcher := mkHost { host_lookup : HostLookup nat; host_data : list Data; host_len : Z; host_num_el : Z }.

Definition new_HostMatcher (num_entries : nat) : HostMatcher := mkHost (AllocateSpace num_entries new_HostLookup) (replicate num_entries new_data) (Z.of_nat num_entries) 0.

(** The error, and the table.  [None]: memory that is not there is read or written. *)
Definition host_NewEntry (line_info : matcher_line) (m : HostMatcher) : option (option (list Z) * HostMatcher) :=
  match_data ← dest_val line_info;
  let n := Z.to_nat (host_num_el m) in
  cur_d ← host_data m !! n;
  let line_info := less_num_el (clear_label (Z.of_nat (dest_entry line_info) - 1) line_info) in
  '(err, cur_d) ← Init line_info cur_d;
  match err with
  | Some _ => Some (err, mkHost (host_lookup m) (<[n := zero_data]> (host_data m)) (host_len m) (host_num_el m))
  | None =>
    hl ← HostLookup.NewEntry match_data (bool_decide (ml_type line_info = MATCH_DOMAIN)) n (host_lookup m);
    Some (None, mkHost hl (<[n := cur_d]> (host_data m)) (host_len m) (host_num_el m + 1))
  end.

(** The rules a loop over matches comes to, one after the other. *)
Definition update_all (rdata : RD) (data_array : list Data) (found : list nat) (result : Result) : option Result :=
  foldl (fun o i => result ← o; d ← data_array !! i; Some (UpdateMatch rdata d result)) (Some result) found.

Definition host_Match (m : HostMatcher) (rdata : RD) (result : Result) : option Result :=
  if host_num_el m <=? 0 then Some result
  else
    found ← HostLookup.all_matches (host_lookup m) (get_host rdata);
    found ← mapM id found;
    update_all rdata (host_data m) found result.

(** ** Regular expressions *)

(** [re_array] has [None] where there is no compiled expression. *)
Record RegexMatcher := mkRegex { re_array : list (option Regex); re_str : list (option (list Z)); re_data : list Data; re_len : Z; re_num_el : Z }.

Definition new_RegexMatcher (num_entries : nat) : RegexMatcher :=
  mkRegex (replicate num_entries None) (replicate num_entries None) (replicate num_entries new_data) (Z.of_nat num_entries) 0.

Definition re_NewEntry (line_info : matcher_line) (m : RegexMatcher) : option (option (list Z) * RegexMatcher) :=
  pattern ← dest_val line_info;
  let n := Z.to_nat (re_num_el m) in
  cur_d ← re_data m !! n;
  match regcomp pattern with
  | inl reErr => Some (Some reErr, mkRegex (<[n := None]> (re_array m)) (re_str m) (re_data m) (re_len m) (re_num_el m))
  | inr re =>
    let line_info := less_num_el (clear_label (Z.of_nat (dest_entry line_info) - 1) line_info) in
    '(err, cur_d) ← Init line_info cur_d;
    let data := <[n := cur_d]> (re_data m) in
    match err with
    | None => Some (None, mkRegex (<[n := Some re]> (re_array m)) (<[n := Some pattern]> (re_str m)) data (re_len m) (re_num_el m + 1))
    | Some _ => Some (err, mkRegex (<[n := None]> (re_array m)) (<[n := None]> (re_str m)) data (re_len m) (re_num_el m))
    end
  end.

(** The loop over the expressions: those of the first [num_el] that match [str]. *)
Definition re_found (m : RegexMatcher) (str : list Z) : option (list nat) :=
  l ← mapM (fun i => re ← mjoin (re_array m !! i); Some (i, regexec re str =? 0)) (seq 0 (Z.to_nat (re_num_el m)));
  Some (fst <$> filter (fun x => x.2 = true) l).

(** [Match] of both classes: the URL, or the host. *)
Definition re_Match (m : RegexMatcher) (get : RD -> option (option (list Z))) (rdata : RD) (result : Result) : option Result :=
  if re_num_el m <=? 0 then Some result
  else str ← get rdata; found ← re_found m (default [] str); update_all rdata (re_data m) found result.

(** ** Addresses *)

Record IpMatcher := mkIpM { ipm_lookup : IpLookup nat; ipm_data : list Data; ipm_len : Z; ipm_num_el : Z }.

Definition new_IpMatcher (num_entries : nat) : IpMatcher := mkIpM (new_IpLookup 2) (replicate num_entries new_data) (Z.of_nat num_entries) 0.

Definition ip_NewEntry (line_info : matcher_line) (m : IpMatcher) : option (option (list Z) * IpMatcher) :=
  match_data ← dest_val line_info;
  let n := Z.to_nat (ipm_num_el m) in
  cur_d ← ipm_data m !! n;
  range ← ExtractIpRange inet_addr match_data;
  match range with
  | inl errPtr => Some (Some errPtr, m)
  | inr (addr1, addr2) =>
    let line_info := less_num_el (clear_label (Z.of_nat (dest_entry line_info)) line_info) in
    '(err, cur_d) ← Init line_info cur_d;
    let data := <[n := cur_d]> (ipm_data m) in
    match err with
    | Some _ => Some (err, mkIpM (ipm_lookup m) data (ipm_len m) (ipm_num_el m))
    | None => ip ← IpLookup.NewEntry addr1 addr2 n (ipm_lookup m); Some (None, mkIpM ip data (ipm_len m) (ipm_num_el m + 1))
    end
  end.

Definition ip_Match (m : IpMatcher) (rdata : RD) (result : Result) : option Result :=
  found ← IpLookup.all_matches (S (length (ipm_data m))) (ipm_lookup m) (get_ip rdata);
  update_all rdata (ipm_data m) found result.

(** ** The tables of a file *)

Record ControlMatcher := mkControl { reMatch : option RegexMatcher; hostMatch : option HostMatcher; ipMatch : option IpMatcher; hrMatch : option RegexMatcher; m_numEntries : Z }.

Definition no_tables : ControlMatcher := mkControl None None None None 0.

Definition ALLOW_HOST_TABLE : Z := 1.
Definition ALLOW_IP_TABLE : Z := 2.
Definition ALLOW_REGEX_TABLE : Z := 4.
Definition ALLOW_HOST_REGEX_TABLE : Z := 8.

Definition allowed (flags table : Z) : bool := negb (Z.land flags table =? 0).

(** A step of [Match] on a table that may not be there. *)
Definition match_if {M : Type} (m : option M) (f : M -> Result -> option Result) (result : Result) : option Result :=
  match m with Some m => f m result | None => Some result end.

Definition Match (ct : ControlMatcher) (rdata : RD) (result : Result) : option Result :=
  result ← match_if (hostMatch ct) (fun m => host_Match m rdata) result;
  result ← match_if (reMatch ct) (fun m => re_Match m get_string rdata) result;
  result ← match_if (ipMatch ct) (fun m => ip_Match m rdata) result;
  match_if (hrMatch ct) (fun m => re_Match m (fun rd => Some (get_host rd)) rdata) result.

(** The lines of the file that are to be rules: the line of its number, with what
    [parseConfigLine] made of it. *)
Fixpoint parse_lines (tags : matcher_tags) (toks : list (list Z)) (line_num : Z) : option (list (Z * (list Z + matcher_line))) :=
  match toks with
  | [] => Some []
  | tmp :: toks' =>
    let tmp := skip_class is_space tmp in
    rest ← parse_lines tags toks' (line_num + 1);
    match tmp with
    | [] => Some rest
    | c :: _ => if c =? ch "#" then Some rest else r ← parseConfigLine tmp tags; Some ((line_num, r) :: rest)
    end
  end.

Definition with_line (n : Z) (l : matcher_line) : matcher_line := mkLine (ml_type l) (dest_entry l) (ml_num_el l) (line_labels l) (line_vals l) n.

Definition good_lines (ls : list (Z * (list Z + matcher_line))) : list matcher_line := omap (fun x => match x.2 with inr l => Some (with_line x.1 l) | inl _ => None end) ls.

(** What is signalled: the number of a line, and its error. *)
Definition bad_lines (ls : list (Z * (list Z + matcher_line))) : list (Z * list Z) := omap (fun x => match x.2 with inl err => Some (x.1, err) | inr _ => None end) ls.

Definition count_type (p : matcher_type -> bool) (ls : list matcher_line) : nat := length (filter (fun l => p (ml_type l) = true) ls).

Definition is_type (t u : matcher_type) : bool := bool_decide (t = u).

(** A table is made when there are lines for it and it is allowed. *)
Definition new_tables (flags : Z) (ls : list matcher_line) : ControlMatcher :=
  let make := fun {M : Type} (table : Z) (n : nat) (new : nat -> M) => if allowed flags table && (0 <? n)%nat then Some (new n) else None in
  mkControl (make ALLOW_REGEX_TABLE (count_type (is_type MATCH_REGEX) ls) new_RegexMatcher)
            (make ALLOW_HOST_TABLE (count_type (fun t => is_type MATCH_HOST t || is_type MATCH_DOMAIN t) ls) new_HostMatcher)
            (make ALLOW_IP_TABLE (count_type (is_type MATCH_IP) ls) new_IpMatcher)
            (make ALLOW_HOST_REGEX_TABLE (count_type (is_type MATCH_HOST_REGEX) ls) new_RegexMatcher)
            (Z.of_nat (length ls)).

Definition set_host (m : HostMatcher) (ct : ControlMatcher) : ControlMatcher := mkControl (reMatch ct) (Some m) (ipMatch ct) (hrMatch ct) (m_numEntries ct).
Definition set_re (m : RegexMatcher) (ct : ControlMatcher) : ControlMatcher := mkControl (Some m) (hostMatch ct) (ipMatch ct) (hrMatch ct) (m_numEntries ct).
Definition set_ip (m : IpMatcher) (ct : ControlMatcher) : ControlMatcher := mkControl (reMatch ct) (hostMatch ct) (Some m) (hrMatch ct) (m_numEntries ct).
Definition set_hr (m : RegexMatcher) (ct : ControlMatcher) : ControlMatcher := mkControl (reMatch ct) (hostMatch ct) (ipMatch ct) (Some m) (m_numEntries ct).

(** A line of the second pass: what is signalled, and the tables. *)
Definition enter_line (flags : Z) (l : matcher_line) (ct : ControlMatcher) : option (option (list Z) * ControlMatcher) :=
  let enter := fun {M : Type} (m : option M) (new_entry : matcher_line -> M -> option (option (list Z) * M)) (set : M -> ControlMatcher -> ControlMatcher) =>
    m ← m; '(err, m) ← new_entry l m; Some (err, set m ct) in
  match ml_type l with
  | MATCH_DOMAIN | MATCH_HOST => if allowed flags ALLOW_HOST_TABLE then enter (hostMatch ct) host_NewEntry set_host else Some (Some (chars "unknown type"), ct)
  | MATCH_REGEX => if allowed flags ALLOW_REGEX_TABLE then enter (reMatch ct) re_NewEntry set_re else Some (Some (chars "unknown type"), ct)
  | MATCH_IP => if allowed flags ALLOW_IP_TABLE then enter (ipMatch ct) ip_NewEntry set_ip else Some (Some (chars "unknown type"), ct)
  | MATCH_HOST_REGEX => if allowed flags ALLOW_HOST_REGEX_TABLE then enter (hrMatch ct) re_NewEntry set_hr else Some (Some (chars "unknown type"), ct)
  | MATCH_NONE => Some (Some (chars "unknown type"), ct)
  end.

Fixpoint enter_lines (flags : Z) (ls : list matcher_line) (ct : ControlMatcher) : option (list (Z * list Z) * ControlMatcher) :=
  match ls with
  | [] => Some ([], ct)
  | l :: ls' =>
    '(err, ct) ← enter_line flags l ct;
    '(errs, ct) ← enter_lines flags ls' ct;
    Some (match err with Some e => (ml_line_num l, e) :: errs | None => errs end, ct)
  end.

(** [quiet] is for the tags of the SOCKS servers, whose bad lines are not signalled.  The
    signals, and the tables. *)
Definition BuildTableFromString (flags : Z) (tags : matcher_tags) (quiet : bool) (file_buf : list Z) : option (list (Z * list Z) * ControlMatcher) :=
  let '(n, bufTok) := Initialize (new_Tokenizer [ch "010"]) file_buf true in
  if n =? 0 then Some ([], no_tables)
  else
    parsed ← parse_lines tags (tokens bufTok) 1;
    let ls := good_lines parsed in
    let errs := if quiet then [] else bad_lines parsed in
    match ls with
    | [] => Some (errs, no_tables)
    | _ => '(errs', ct) ← enter_lines flags ls (new_tables flags ls); Some (errs ++ errs', ct)
    end.
End ControlMatcher.

#[global] Arguments HostMatcher : clear implicits.
#[global] Arguments RegexMatcher : clear implicits.
#[global] Arguments IpMatcher : clear implicits.
#[global] Arguments ControlMatcher : clear implicits.
