(* ===== verification/ControlMatcherFacts.v ===== *)
(** What the rule tables of a configuration file do for a request: the rules that apply
    update the result one after the other, table by table. *)

From S2P Require Import Prelude ParseRules LibC Tokenizer HostLookup HostLookupFacts HostNames HostMatchFacts IpLookup MatcherUtils ControlMatcher.
From Stdlib Require Import Ascii.

(** ** Items and their places *)

Definition indexed {A B} (xs : list (A * B)) : list (A * nat) := imap (fun i x => (x.1, i)) xs.

(** Each item with its place and its data. *)
Definition numbered {A B} (xs : list (A * B)) : list (A * (nat * B)) := imap (fun i x => (x.1, (i, x.2))) xs.

Definition on_data {A B C} (f : B -> C) (x : A * B) : A * C := (x.1, f x.2).

Lemma numbered_indexed {A B} (xs : list (A * B)) : indexed xs = on_data fst <$> numbered xs.
Proof. unfold indexed, numbered. by rewrite fmap_imap. Qed.

Lemma numbered_items {A B} (xs : list (A * B)) : xs = on_data snd <$> numbered xs.
Proof. unfold numbered. rewrite fmap_imap. rewrite <- (list_fmap_id xs) at 1. rewrite <- (imap_const id). apply imap_ext. intros i [a b] _. done. Qed.

Lemma numbered_data {A B} (xs : list (A * B)) : Forall (fun y => xs.*2 !! y.2.1 = Some y.2.2) (numbered xs).
Proof. apply Forall_lookup. intros i y H. unfold numbered in H. rewrite list_lookup_imap in H. destruct (xs !! i) as [x|] eqn:E; [|done]. injection H as <-. cbn. by rewrite list_lookup_fmap, E. Qed.

Lemma indexed_snoc {A B} (xs : list (A * B)) x : indexed (xs ++ [x]) = indexed xs ++ [(x.1, length xs)].
Proof. unfold indexed. rewrite imap_app. cbn. by rewrite Nat.add_0_r. Qed.

Lemma mapM_id_Some {A} (xs : list A) : mapM id (Some <$> xs) = Some xs.
Proof. induction xs as [|x xs IH]; [done|]. cbn. by rewrite IH. Qed.

Lemma mapM_seq {A B} (f : nat -> option B) (g : A -> B) (xs : list A) k : (forall i x, xs !! i = Some x -> f (k + i)%nat = Some (g x)) -> mapM f (seq k (length xs)) = Some (g <$> xs).
Proof.
  revert k. induction xs as [|x xs IH]; intros k H; [done|]. cbn. pose proof (H 0%nat x eq_refl) as E. rewrite Nat.add_0_r in E. rewrite E. cbn. rewrite IH; [done|].
  intros i y Hy. rewrite <- (H (S i) y Hy). f_equal. lia.
Qed.

(** ** The rules that a search finds, as data *)

Definition found_rules {D} (rules : list (Rule D)) (host : list Z) : list D :=
  seq 0 (S HOST_TABLE_DEPTH) ≫= fun k => snd <$> filter (fun r => rule_depth r = k /\ rule_applies host r = true) rules.

Lemma applicable_found {D} (rules : list (Rule D)) host : applicable rules host = Some <$> found_rules rules host.
Proof. unfold applicable, found_rules. rewrite <- bind_fmap. apply bind_ext_in. intros k _. by rewrite <- list_fmap_compose. Qed.

Lemma found_rules_map {D E} (f : D -> E) (rules : list (Rule D)) host : found_rules (on_data f <$> rules) host = f <$> found_rules rules host.
Proof. unfold found_rules. rewrite <- bind_fmap. apply bind_ext_in. intros k _. rewrite (filter_fmap_ext _ _ (fun r => rule_depth r = k /\ rule_applies host r = true)) by done. by rewrite <- !list_fmap_compose. Qed.

Lemma found_rules_in {D} (rules : list (Rule D)) host d : d ∈ found_rules rules host -> exists r, r ∈ rules /\ r.2 = d.
Proof. unfold found_rules. intros (k & H & _)%list_elem_of_bind. apply list_elem_of_fmap in H as (r & -> & H). apply list_elem_of_filter in H as [_ H]. by exists r. Qed.

Lemma found_rules_perm {D} (rules : list (Rule D)) host : found_rules rules host ≡ₚ snd <$> filter (fun r => rule_applies host r = true) rules.
Proof. unfold found_rules. rewrite bind_fmap. apply fmap_Permutation. apply (all_bins_perm rule_depth). intros r _. unfold rule_depth. lia. Qed.

(** Ranges with their data, as the tables keep them. *)
Definition range_el {D} (x : Z * Z * D) : ip_match_el D := IpLookup.mkEl x.2 x.1.1 x.1.2.

Definition found_ranges {D} (xs : list (Z * Z * D)) (a : Z) : list D := opaque_data <$> in_range 2 (range_el <$> xs) (htonl a).

Lemma range_level_el {D E} k q (x : Z * Z * D) (y : Z * Z * E) : x.1 = y.1 -> range_level k q (range_el x) = range_level k q (range_el y).
Proof. intros H. revert q. induction k as [|k IH]; intros q; [done|]. cbn. rewrite H, IH. done. Qed.

Lemma found_ranges_map {D E} (f : D -> E) (xs : list (Z * Z * D)) a : found_ranges (on_data f <$> xs) a = f <$> found_ranges xs a.
Proof.
  unfold found_ranges, in_range. rewrite <- !bind_fmap. apply bind_ext_in. intros k _. rewrite <- (list_fmap_compose (on_data f) range_el).
  set (Q := fun x : Z * Z * D => range_level 2 0 (range_el x) = k /\ contains (htonl a) (range_el x) = true).
  rewrite (filter_fmap_ext range_el _ Q) by done. rewrite (filter_fmap_ext (range_el ∘ on_data f) _ Q); [by rewrite <- !list_fmap_compose|].
  intros x _. unfold compose, Q. by rewrite (range_level_el 2 0 (on_data f x) x).
Qed.

Lemma found_ranges_in {D} (xs : list (Z * Z * D)) a d : d ∈ found_ranges xs a -> exists x, x ∈ xs /\ x.2 = d.
Proof.
  unfold found_ranges, in_range. intros (e & -> & (k & H & _)%list_elem_of_bind)%list_elem_of_fmap. apply list_elem_of_filter in H as [_ H]. apply list_elem_of_fmap in H as (x & -> & H). by exists x.
Qed.

Lemma found_ranges_perm {D} (xs : list (Z * Z * D)) a : found_ranges xs a ≡ₚ snd <$> filter (fun x => contains (htonl a) (range_el x) = true) xs.
Proof.
  unfold found_ranges. rewrite in_range_perm. rewrite (filter_fmap_ext range_el _ (fun x => contains (htonl a) (range_el x) = true)) by done. by rewrite <- list_fmap_compose.
Qed.

(** ** The tables *)

Section tables.
Context {Data Result RD Regex : Type}.
Variable Init : matcher_line -> Data -> option (option (list Z) * Data).
Variables new_data zero_data : Data.
Variable UpdateMatch : RD -> Data -> Result -> Result.
Variables (get_string : RD -> option (option (list Z))) (get_host : RD -> option (list Z)) (get_ip : RD -> Z).
Variable regcomp : list Z -> list Z + Regex.
Variable regexec : Regex -> list Z -> Z.
Variable inet_addr : list Z -> Z.

(** The array of a table for [n] rules that has [ds]. *)
Definition entered (n : nat) (ds : list Data) : list Data := ds ++ replicate (n - length ds) new_data.

Lemma entered_next n ds : (length ds < n)%nat -> entered n ds !! length ds = Some new_data.
Proof. intros L. unfold entered. rewrite lookup_app_r, Nat.sub_diag by lia. apply lookup_replicate_2. lia. Qed.

Lemma entered_insert n ds d : (length ds < n)%nat -> <[length ds := d]> (entered n ds) = entered n (ds ++ [d]).
Proof.
  intros L. unfold entered. rewrite insert_app_r_alt, Nat.sub_diag by lia. rewrite length_app. cbn [length]. replace (n - length ds)%nat with (S (n - (length ds + 1))) by lia. cbn. by rewrite <- app_assoc.
Qed.

Lemma entered_lookup n ds i d : ds !! i = Some d -> entered n ds !! i = Some d.
Proof. intros E. unfold entered. by rewrite lookup_app_l by (by eapply lookup_lt_Some). Qed.

(** The rules update the result one after the other. *)
Definition update (rd : RD) (ds : list Data) (x : Result) : Result := foldl (fun x d => UpdateMatch rd d x) x ds.

Lemma update_app rd ds ds' x : update rd (ds ++ ds') x = update rd ds' (update rd ds x).
Proof. apply foldl_app. Qed.

Lemma update_all_ok rd arr (ys : list (nat * Data)) x : Forall (fun y => arr !! y.1 = Some y.2) ys -> update_all UpdateMatch rd arr ys.*1 x = Some (update rd ys.*2 x).
Proof. intros F. revert x. unfold update_all, update. induction F as [|y ys H F IH]; intros x; [done|]. cbn [fmap list_fmap foldl]. cbn [mbind option_bind]. rewrite H. cbn [mbind option_bind]. apply IH. Qed.

(** Places that were found, of items that are in the array. *)
Lemma update_found {A} n rd (xs : list (A * Data)) (ys : list (nat * Data)) x : Forall (fun y => exists z, z ∈ numbered xs /\ z.2 = y) ys ->
  update_all UpdateMatch rd (entered n xs.*2) ys.*1 x = Some (update rd ys.*2 x).
Proof. intros F. apply update_all_ok. eapply Forall_impl; [exact F|]. intros y (z & Hz & <-). apply entered_lookup. by apply (proj1 (Forall_forall _ _) (numbered_data xs)). Qed.

(** The hosts. *)
Record host_holds (n : nat) (rules : list (list Z * bool * Data)) (m : HostMatcher Data) : Prop := mkHH {
  hh_table : table_of n (indexed rules) (host_lookup m); hh_data : host_data m = entered n rules.*2; hh_num : host_num_el m = Z.of_nat (length rules) }.

Lemma new_host_ok n : host_holds n [] (new_HostMatcher new_data n).
Proof. constructor; [apply allocate_ok|cbn; unfold entered; cbn; by rewrite Nat.sub_0_r|done]. Qed.

Definition given (i : Z) (l : matcher_line) : matcher_line := less_num_el (clear_label i l).

Definition is_domain (l : matcher_line) : bool := bool_decide (ml_type l = MATCH_DOMAIN).

Lemma host_entry_ok n rules m l name d : host_holds n rules m -> (length rules < n)%nat -> dest_val l = Some name -> Init (given (Z.of_nat (dest_entry l) - 1) l) new_data = Some (None, d) ->
  plain_rule ((name, is_domain l), d) = true -> exists m', host_NewEntry Init zero_data l m = Some (None, m') /\ host_holds n (rules ++ [((name, is_domain l), d)]) m'.
Proof.
  intros [T Ed En] L Dv I P. unfold host_NewEntry. rewrite Dv. cbn [mbind option_bind]. rewrite Ed, En, Nat2Z.id. cbv zeta. assert (Ln : length rules = length rules.*2) by (symmetry; apply length_fmap). rewrite Ln in L |- *. rewrite entered_next by done. cbn [mbind option_bind].
  fold (given (Z.of_nat (dest_entry l) - 1) l). rewrite I. cbn [mbind option_bind].
  assert (Ty : ml_type (given (Z.of_nat (dest_entry l) - 1) l) = ml_type l) by (unfold given, clear_label; by destruct (_ <? 0)).
  rewrite Ty. fold (is_domain l). assert (Li : length (indexed rules) = length rules.*2) by (unfold indexed; rewrite length_imap; exact Ln).
  destruct (new_entry_ok n (indexed rules) ((name, is_domain l), length rules.*2) (host_lookup m) T ltac:(unfold Rule; lia)) as (hl' & E & T'); [by apply (rule_toks_labels ((name, is_domain l), d))|].
  change (HostLookup.NewEntry name (is_domain l) (length rules.*2) (host_lookup m) = Some hl') in E. rewrite E. cbn [mbind option_bind]. eexists. split; [done|]. constructor; cbn [host_lookup host_data host_num_el].
  - rewrite indexed_snoc. cbn [fst]. rewrite <- Ln in T'. exact T'.
  - by rewrite entered_insert, fmap_app.
  - rewrite length_app. cbn. lia.
Qed.

Lemma host_match_ok n rules m rd host x : host_holds n rules m -> forallb plain_rule rules = true -> get_host rd = Some host -> name_ok host = true ->
  host_Match UpdateMatch get_host m rd x = Some (update rd (found_rules rules host) x).
Proof.
  intros [T Ed En] P Gh Hh. unfold host_Match. rewrite En. destruct (Z.leb_spec (Z.of_nat (length rules)) 0) as [L|L].
  { destruct rules; [done|cbn in L; lia]. }
  assert (Pi : forallb plain_rule (indexed rules) = true).
  { apply forallb_forall. intros r Hr. apply list_elem_of_In in Hr. apply list_elem_of_lookup in Hr as [i Hr]. unfold indexed in Hr. rewrite list_lookup_imap in Hr. destruct (rules !! i) as [r0|] eqn:E; [|done].
    injection Hr as <-. rewrite forallb_forall in P. exact (P r0 (proj1 (list_elem_of_In _ _) (list_elem_of_lookup_2 _ _ _ E))). }
  rewrite Gh, (host_rules_ok n _ _ _ T Pi Hh), applicable_found. cbn [mbind option_bind].
  rewrite mapM_id_Some. cbn [mbind option_bind]. assert (E1 : found_rules (indexed rules) host = fst <$> found_rules (numbered rules) host) by (rewrite numbered_indexed; apply found_rules_map).
  assert (E2 : found_rules rules host = snd <$> found_rules (numbered rules) host) by (rewrite (numbered_items rules) at 1; apply found_rules_map). rewrite E1, E2, Ed.
  apply update_found. apply Forall_forall. intros y Hy. apply found_rules_in in Hy as (r & Hr & <-). by exists r.
Qed.
(** The addresses. *)
Record ip_holds (n : nat) (ranges : list (Z * Z * Data)) (m : IpMatcher Data) : Prop := mkIH {
  ih_table : ip_ok (range_el <$> indexed ranges) (ipm_lookup m); ih_depth : table_depth (ipm_lookup m) = 2%nat; ih_data : ipm_data m = entered n ranges.*2; ih_num : ipm_num_el m = Z.of_nat (length ranges); ih_len : (length ranges <= n)%nat }.

Lemma new_ip_ok n : ip_holds n [] (new_IpMatcher new_data n).
Proof. constructor; [apply (new_lookup_ok 2)|done|cbn; unfold entered; cbn; by rewrite Nat.sub_0_r|done|cbn; lia]. Qed.

Lemma ip_entry_ok n ranges m l v a b d : ip_holds n ranges m -> (length ranges < n)%nat -> dest_val l = Some v -> ExtractIpRange inet_addr v = Some (inr (a, b)) ->
  Init (given (Z.of_nat (dest_entry l)) l) new_data = Some (None, d) -> range_ok (range_el (a, b, d)) ->
  exists m', ip_NewEntry Init inet_addr l m = Some (None, m') /\ ip_holds n (ranges ++ [(a, b, d)]) m'.
Proof.
  intros [T Dp Ed En Le] L Dv Ex I R. unfold ip_NewEntry. rewrite Dv. cbn [mbind option_bind]. rewrite Ed, En, Nat2Z.id. cbv zeta. assert (Ln : length ranges = length ranges.*2) by (symmetry; apply length_fmap). rewrite Ln in L |- *.
  rewrite entered_next by done. cbn [mbind option_bind]. rewrite Ex. cbn [mbind option_bind]. fold (given (Z.of_nat (dest_entry l)) l). rewrite I. cbn [mbind option_bind].
  destruct (new_range_ok (range_el <$> indexed ranges) (range_el (a, b, length ranges.*2)) (ipm_lookup m) T R) as (ip' & E & T' & D').
  cbn [range_el range_start range_end opaque_data fst snd] in E. rewrite E. cbn [mbind option_bind]. eexists. split; [done|]. constructor; cbn [ipm_lookup ipm_data ipm_num_el].
  - rewrite indexed_snoc, fmap_app, Ln. exact T'.
  - by rewrite D'.
  - by rewrite entered_insert, fmap_app.
  - rewrite length_app. cbn. lia.
  - rewrite length_app. cbn. lia.
Qed.

Lemma ip_match_ok n ranges m rd x : ip_holds n ranges m -> Forall (fun y => range_ok (range_el y)) ranges -> ip_Match UpdateMatch get_ip m rd x = Some (update rd (found_ranges ranges (get_ip rd)) x).
Proof.
  intros [T Dp Ed En Le] F. unfold ip_Match. assert (Fi : Forall range_ok (range_el <$> indexed ranges)).
  { apply Forall_fmap, Forall_lookup. intros i y H. unfold indexed in H. rewrite list_lookup_imap in H. destruct (ranges !! i) as [y0|] eqn:E; [|done]. injection H as <-. exact (Forall_lookup_1 _ _ _ _ F E). }
  rewrite (ranges_found _ _ _ _ T Fi).
  - rewrite Dp. fold (found_ranges (indexed ranges) (get_ip rd)). cbn [mbind option_bind].
    assert (E1 : found_ranges (indexed ranges) (get_ip rd) = fst <$> found_ranges (numbered ranges) (get_ip rd)) by (rewrite numbered_indexed; apply found_ranges_map).
    assert (E2 : found_ranges ranges (get_ip rd) = snd <$> found_ranges (numbered ranges) (get_ip rd)) by (rewrite (numbered_items ranges) at 1; apply found_ranges_map). rewrite E1, E2, Ed.
    apply update_found. apply Forall_forall. intros y Hy. apply found_ranges_in in Hy as (r & Hr & <-). by exists r.
  - rewrite in_range_perm. rewrite Ed. unfold entered. rewrite length_app, length_replicate, length_fmap.
    pose proof (length_filter (fun e => contains (htonl (get_ip rd)) e = true) (range_el <$> indexed ranges)) as Lf. rewrite length_fmap in Lf. unfold indexed in Lf at 2. rewrite length_imap in Lf. lia.
Qed.

(** The regular expressions. *)
Record re_holds (n : nat) (res : list (Regex * Data)) (m : RegexMatcher Data Regex) : Prop := mkRH {
  rh_array : forall i re, res.*1 !! i = Some re -> re_array m !! i = Some (Some re); rh_size : length (re_array m) = n; rh_data : re_data m = entered n res.*2; rh_num : re_num_el m = Z.of_nat (length res) }.

Lemma new_re_ok n : re_holds n [] (new_RegexMatcher new_data n).
Proof. constructor; [done|apply length_replicate|cbn; unfold entered; cbn; by rewrite Nat.sub_0_r|done]. Qed.

Lemma re_entry_ok n res m l v re d : re_holds n res m -> (length res < n)%nat -> dest_val l = Some v -> regcomp v = inr re -> Init (given (Z.of_nat (dest_entry l) - 1) l) new_data = Some (None, d) ->
  exists m', re_NewEntry Init regcomp l m = Some (None, m') /\ re_holds n (res ++ [(re, d)]) m'.
Proof.
  intros [A Sz Ed En] L Dv Rc I. unfold re_NewEntry. rewrite Dv. cbn [mbind option_bind]. rewrite Ed, En, Nat2Z.id. cbv zeta. assert (Ln : length res = length res.*2) by (symmetry; apply length_fmap). rewrite Ln in L |- *.
  rewrite entered_next by done. cbn [mbind option_bind]. rewrite Rc. fold (given (Z.of_nat (dest_entry l) - 1) l). rewrite I. cbn [mbind option_bind]. eexists. split; [done|]. constructor; cbn [re_array re_data re_num_el].
  - intros i r Hr. rewrite fmap_app in Hr. rewrite list_lookup_insert. case_decide as C.
    + destruct C as [<- _]. rewrite lookup_app_r in Hr by (rewrite length_fmap; lia). rewrite !length_fmap, Nat.sub_diag in Hr. by injection Hr as <-.
    + apply A. pose proof (lookup_lt_Some _ _ _ Hr) as Li. rewrite length_app, length_fmap in Li. cbn in Li. rewrite lookup_app_l in Hr; [done|]. rewrite length_fmap. destruct (decide (i = length res)); [|lia]. subst i. rewrite Sz, Ln in C. lia.
  - by rewrite length_insert.
  - by rewrite entered_insert, fmap_app.
  - rewrite length_app. cbn. lia.
Qed.

(** The data of the expressions that a string matches. *)
Definition found_res {E} (res : list (Regex * E)) (str : list Z) : list E := snd <$> filter (fun x => regexec x.1 str =? 0 = true) res.

Lemma found_res_map {E F} (f : E -> F) (res : list (Regex * E)) str : found_res (on_data f <$> res) str = f <$> found_res res str.
Proof. unfold found_res. rewrite (filter_fmap_ext (on_data f) _ (fun x => regexec x.1 str =? 0 = true)) by done. by rewrite <- !list_fmap_compose. Qed.

Lemma re_match_ok n res m get rd str x : re_holds n res m -> get rd = Some str -> re_Match UpdateMatch regexec m get rd x = Some (update rd (found_res res (default [] str)) x).
Proof.
  intros [A Sz Ed En] G. unfold re_Match. rewrite En. destruct (Z.leb_spec (Z.of_nat (length res)) 0) as [L|L]; [by destruct res; [|cbn in L; lia]|]. rewrite G. cbn [mbind option_bind].
  assert (Rf : re_found regexec m (default [] str) = Some (found_res (indexed res) (default [] str))).
  { unfold re_found. rewrite En, Nat2Z.id. replace (length res) with (length (indexed res)) by (unfold indexed; apply length_imap).
    rewrite (mapM_seq _ (fun x => (x.2, regexec x.1 (default [] str) =? 0)) (indexed res) 0); [cbn [mbind option_bind]; f_equal; unfold found_res|].
    2: { intros i y Hy. unfold indexed in Hy. rewrite list_lookup_imap in Hy. destruct (res !! i) as [r|] eqn:E; [|done]. injection Hy as <-. cbn [Nat.add]. rewrite (A i r.1) by (by rewrite list_lookup_fmap, E). done. }
    rewrite (filter_fmap_ext _ _ (fun x => regexec x.1 (default [] str) =? 0 = true)) by done. by rewrite <- list_fmap_compose. }
  rewrite Rf. cbn [mbind option_bind].
  assert (E1 : found_res (indexed res) (default [] str) = fst <$> found_res (numbered res) (default [] str)) by (rewrite numbered_indexed; apply found_res_map).
  assert (E2 : found_res res (default [] str) = snd <$> found_res (numbered res) (default [] str)) by (rewrite (numbered_items res) at 1; apply found_res_map). rewrite E1, E2, Ed.
  apply update_found. apply Forall_forall. intros y Hy. unfold found_res in Hy. apply list_elem_of_fmap in Hy as (r & -> & Hr). apply list_elem_of_filter in Hr as [_ Hr]. by exists r.
Qed.
End tables.
