(* ===== verification/RuleFiles.v ===== *)
(** What a whole configuration file of rules does for a request: the text, its lines, the
    rules they are, the tables they are entered in, and what the tables find. *)

From S2P Require Import Prelude ParseRules LibC Tokenizer HostLookup HostLookupFacts HostNames HostMatchFacts IpLookup MatcherUtils MatcherUtilsFacts ControlMatcher ControlMatcherFacts.
From Stdlib Require Import Ascii Sorted.

(** * Rules that are looked at in any order, of which the one on the smallest line decides:
    how the rules of the configuration files update a result that notes the line each of
    its parts is from. *)

Section slot.
Context {R V : Type} (line : R -> Z).
(** The rules that decide it, and the value each gives. *)
Variables (P : R -> bool) (val : R -> V).

Definition slot_step (s : Z * V) (r : R) : Z * V := if P r && ((s.1 <? 0) || (s.1 >? line r)) then (line r, val r) else s.

(** The line and value of a parameter when the rules [ds] have been looked at. *)
Definition slot_is (v0 : V) (ds : list R) (s : Z * V) : Prop :=
  (s = (-1, v0) /\ forall r, r ∈ ds -> P r = false) \/ exists r, r ∈ ds /\ P r = true /\ s = (line r, val r) /\ forall r', r' ∈ ds -> P r' = true -> line r <= line r'.

Lemma slot_fold v0 ds : Forall (fun r => 0 <= line r) ds -> slot_is v0 ds (foldl slot_step (-1, v0) ds).
Proof.
  induction ds as [|r ds IH] using rev_ind; intros F; [left; split; [done|]; by intros r ?%not_elem_of_nil|]. apply Forall_app in F as [F [L _]%Forall_cons]. specialize (IH F). rewrite foldl_app. cbn [foldl]. unfold slot_step at 1.
  assert (In : forall r', r' ∈ ds ++ [r] <-> r' ∈ ds \/ r' = r) by (intros r'; by rewrite elem_of_app, list_elem_of_singleton).
  destruct IH as [[-> N]|(r0 & I0 & P0 & -> & M)]; cbn [fst].
  - destruct (P r) eqn:Pr; cbn [andb orb Z.ltb].
    + right. exists r. split; [apply In; by right|]. do 2 (split; [done|]). intros r' [H| ->]%In H'; [by rewrite N in H'|done].
    + left. split; [done|]. intros r' [H| ->]%In; [by apply N|done].
  - pose proof (proj1 (Forall_forall _ _) F r0 I0) as L0. cbn beta in L0. rewrite (proj2 (Z.ltb_ge (line r0) 0)) by done. cbn [orb]. destruct (P r) eqn:Pr; cbn [andb]; [destruct (Z.gtb_spec (line r0) (line r)) as [Lt|Le]|].
    + right. exists r. split; [apply In; by right|]. do 2 (split; [done|]). intros r' [H| ->]%In H'; [specialize (M r' H H'); lia|lia].
    + right. exists r0. split; [apply In; by left|]. do 2 (split; [done|]). intros r' [H| ->]%In H'; [by apply M|done].
    + right. exists r0. split; [apply In; by left|]. do 2 (split; [done|]). intros r' [H| ->]%In H'; [by apply M|congruence].
Qed.

(** The rules of a file, in the order of their lines. *)
Definition in_order (rs : list R) : Prop := StronglySorted (fun a b => line a < line b) rs.

Lemma filter_head_first rs r : in_order rs -> r ∈ rs -> P r = true -> (forall r', r' ∈ rs -> P r' = true -> line r <= line r') -> head (filter (fun r => P r = true) rs) = Some r.
Proof.
  intros S. induction S as [|a rs S IH F]; intros I Pr M; [by apply not_elem_of_nil in I|]. rewrite filter_cons. apply elem_of_cons in I as [->|I]; [by rewrite decide_True|].
  destruct (decide (P a = true)) as [Pa|Na].
  - pose proof (proj1 (Forall_forall _ _) F r I) as L. cbn beta in L. pose proof (M a ltac:(by left) Pa). lia.
  - apply IH; [done|done|]. intros r' H. apply M. by right.
Qed.

(** Whatever the order in which the rules are looked at, the first line decides. *)
Lemma slot_first v0 rs ds : in_order rs -> Forall (fun r => 0 <= line r) rs -> ds ≡ₚ rs -> (foldl slot_step (-1, v0) ds).2 = from_option val v0 (head (filter (fun r => P r = true) rs)).
Proof.
  intros S F Pm. assert (Fd : Forall (fun r => 0 <= line r) ds) by (by rewrite Pm). destruct (slot_fold v0 ds Fd) as [[-> N]|(r & I & Pr & -> & M)]; cbn [snd].
  - rewrite filter_none; [done|]. intros r Hr. rewrite <- Pm in Hr. by rewrite (N r Hr).
  - rewrite (filter_head_first rs r); [done|done|by rewrite <- Pm|done|]. intros r' H. apply M. by rewrite Pm.
Qed.
End slot.

(** A rule, by the table it goes to. *)
Inductive Entry (Data Regex : Type) := EHost (name : list Z) (domain : bool) (d : Data) | ERegex (re : Regex) (d : Data) | EIp (a b : Z) (d : Data) | EHostRegex (re : Regex) (d : Data).

#[global] Arguments EHost {_ _}.
#[global] Arguments ERegex {_ _}.
#[global] Arguments EIp {_ _}.
#[global] Arguments EHostRegex {_ _}.

Section files.
Context {Data Result RD Regex : Type}.
Variable Init : matcher_line -> Data -> option (option (list Z) * Data).
Variables new_data zero_data : Data.
Variable UpdateMatch : RD -> Data -> Result -> Result.
Variables (get_string : RD -> option (option (list Z))) (get_host : RD -> option (list Z)) (get_ip : RD -> Z).
Variable regcomp : list Z -> list Z + Regex.
Variable regexec : Regex -> list Z -> Z.
Variable inet_addr : list Z -> Z.

Notation Entry := (Entry Data Regex).

Definition hosts (es : list Entry) : list (list Z * bool * Data) := omap (fun e => match e with EHost name dom d => Some ((name, dom), d) | _ => None end) es.
Definition regexes (es : list Entry) : list (Regex * Data) := omap (fun e => match e with ERegex re d => Some (re, d) | _ => None end) es.
Definition ips (es : list Entry) : list (Z * Z * Data) := omap (fun e => match e with EIp a b d => Some ((a, b), d) | _ => None end) es.
Definition host_regexes (es : list Entry) : list (Regex * Data) := omap (fun e => match e with EHostRegex re d => Some (re, d) | _ => None end) es.

Definition entry_data (e : Entry) : Data := match e with EHost _ _ d => d | ERegex _ d => d | EIp _ _ d => d | EHostRegex _ d => d end.

Definition range_okb (a b : Z) : bool := (0 <=? a) && (a <? 2 ^ 32) && (0 <=? b) && (b <? 2 ^ 32) && (a <=? b).

Lemma range_okb_ok a b (d : Data) : range_okb a b = true -> range_ok (range_el (a, b, d)).
Proof. unfold range_okb, range_ok, address. cbn. intros H. bsimp. lia. Qed.

(** The rule that a line says, if it does: its destination, and what [Init] reads in the
    rest of the line, that is without the label of the destination. *)
Definition entry_of (l : matcher_line) : option Entry :=
  v ← dest_val l;
  '(err, d) ← Init (given (Z.of_nat (dest_entry l)) l) new_data;
  match err, ml_type l with
  | None, (MATCH_HOST | MATCH_DOMAIN) => if plain_rule ((v, is_domain l), d) then Some (EHost v (is_domain l) d) else None
  | None, MATCH_REGEX => match regcomp v with inr re => Some (ERegex re d) | inl _ => None end
  | None, MATCH_HOST_REGEX => match regcomp v with inr re => Some (EHostRegex re d) | inl _ => None end
  | None, MATCH_IP => r ← ExtractIpRange inet_addr v; match r with inr (a, b) => if range_okb a b then Some (EIp a b d) else None | inl _ => None end
  | _, _ => None
  end.

(** [NewEntry] of the tables of hosts and expressions removes the label before that of the
    destination, and not the destination's.  The lines of which [Init] reads the same all
    the same. *)
Definition removed (l : matcher_line) : Z := match ml_type l with MATCH_IP => Z.of_nat (dest_entry l) | _ => Z.of_nat (dest_entry l) - 1 end.

Definition line_kept (l : matcher_line) : Prop := Init (given (removed l) l) new_data = Init (given (Z.of_nat (dest_entry l)) l) new_data.

(** What the rules that were entered have of the tables. *)
Definition is_host_line (t : matcher_type) : bool := is_type MATCH_HOST t || is_type MATCH_DOMAIN t.

Definition entry_type (p : matcher_type -> bool) (l : matcher_line) (k : nat) : Prop := k = if p (ml_type l) then 1%nat else 0%nat.

Definition in_table {M A} (holds : nat -> list A -> M -> Prop) (n : nat) (rs : list A) (m : option M) : Prop := match m with Some m => holds n rs m | None => n = 0%nat /\ rs = [] end.

Record ct_holds (ls : list matcher_line) (es : list Entry) (ct : ControlMatcher Data Regex) : Prop := mkCH {
  ch_host : in_table (host_holds new_data) (count_type is_host_line ls) (hosts es) (hostMatch ct);
  ch_re : in_table (re_holds new_data) (count_type (is_type MATCH_REGEX) ls) (regexes es) (reMatch ct);
  ch_ip : in_table (ip_holds new_data) (count_type (is_type MATCH_IP) ls) (ips es) (ipMatch ct);
  ch_hr : in_table (re_holds new_data) (count_type (is_type MATCH_HOST_REGEX) ls) (host_regexes es) (hrMatch ct) }.

(** The table a line goes to is allowed. *)
Definition line_allowed (flags : Z) (l : matcher_line) : bool :=
  allowed flags match ml_type l with MATCH_IP => ALLOW_IP_TABLE | MATCH_REGEX => ALLOW_REGEX_TABLE | MATCH_HOST_REGEX => ALLOW_HOST_REGEX_TABLE | _ => ALLOW_HOST_TABLE end.

Lemma count_type_cons p l ls : count_type p (l :: ls) = ((if p (ml_type l) then 1 else 0) + count_type p ls)%nat.
Proof. unfold count_type. rewrite filter_cons. destruct (p (ml_type l)); [by rewrite decide_True|by rewrite decide_False]. Qed.

Lemma count_type_app p ls ls' : count_type p (ls ++ ls') = (count_type p ls + count_type p ls')%nat.
Proof. unfold count_type. by rewrite filter_app, length_app. Qed.

(** There are as many rules for a table as lines. *)
Lemma entry_counts l e : entry_of l = Some e ->
  length (hosts [e]) = (if is_host_line (ml_type l) then 1 else 0)%nat /\ length (regexes [e]) = (if is_type MATCH_REGEX (ml_type l) then 1 else 0)%nat /\
  length (ips [e]) = (if is_type MATCH_IP (ml_type l) then 1 else 0)%nat /\ length (host_regexes [e]) = (if is_type MATCH_HOST_REGEX (ml_type l) then 1 else 0)%nat.
Proof.
  unfold entry_of. destruct (dest_val l) as [v|]; [|done]. cbn [mbind option_bind]. destruct (Init _ _) as [[err d]|]; [|done]. cbn [mbind option_bind]. destruct err; [done|].
  intros H. destruct (ml_type l); cbn iota in H; try done.
  all: try (destruct (ExtractIpRange inet_addr v); cbn [mbind option_bind] in H; [|done]).
  all: repeat (match type of H with context [match ?x with _ => _ end] => destruct x; cbn [mbind option_bind] in H end; try done).
  all: by injection H as <-.
Qed.

Lemma entries_counts ls es : mapM entry_of ls = Some es ->
  length (hosts es) = count_type is_host_line ls /\ length (regexes es) = count_type (is_type MATCH_REGEX) ls /\ length (ips es) = count_type (is_type MATCH_IP) ls /\ length (host_regexes es) = count_type (is_type MATCH_HOST_REGEX) ls.
Proof.
  intros H. apply mapM_Some in H. induction H as [|l e ls es He _ IH]; [done|]. rewrite !count_type_cons. destruct (entry_counts l e He) as (A & B & C & D). destruct IH as (A' & B' & C' & D').
  change (e :: es) with ([e] ++ es). unfold hosts, regexes, ips, host_regexes in *. rewrite !omap_app, !length_app. lia.
Qed.

Lemma allowed_make {M : Type} flags t n (new : nat -> M) : (n = 0%nat \/ allowed flags t = true) -> (if allowed flags t && (0 <? n)%nat then Some (new n) else None) = match n with O => None | S _ => Some (new n) end.
Proof. intros [->| ->]; [by rewrite andb_false_r|]. by destruct n. Qed.

Lemma count_allowed flags (p : matcher_type -> bool) t ls : Forall (fun l => line_allowed flags l = true) ls -> (forall l, p (ml_type l) = true -> line_allowed flags l = allowed flags t) -> count_type p ls = 0%nat \/ allowed flags t = true.
Proof.
  intros F H. induction F as [|l ls Hl F IH]; [by left|]. rewrite count_type_cons. destruct (p (ml_type l)) eqn:E; [right; by rewrite <- (H l E)|done].
Qed.

Lemma new_tables_ok flags ls : Forall (fun l => line_allowed flags l = true) ls -> ct_holds ls [] (new_tables new_data flags ls).
Proof.
  intros F. assert (C : forall p t, (forall l, p (ml_type l) = true -> line_allowed flags l = allowed flags t) -> count_type p ls = 0%nat \/ allowed flags t = true) by (intros; by eapply count_allowed).
  constructor; cbn [new_tables hostMatch reMatch ipMatch hrMatch hosts regexes ips host_regexes omap list_omap].
  - change (fun t => is_type MATCH_HOST t || is_type MATCH_DOMAIN t) with is_host_line. rewrite allowed_make; [destruct (count_type is_host_line ls) eqn:E; [done|]; apply new_host_ok|].
    apply C. intros l. unfold line_allowed. by destruct (ml_type l).
  - rewrite allowed_make; [destruct (count_type (is_type MATCH_REGEX) ls) eqn:E; [done|]; apply new_re_ok|]. apply C. intros l. unfold line_allowed. by destruct (ml_type l).
  - rewrite allowed_make; [destruct (count_type (is_type MATCH_IP) ls) eqn:E; [done|]; apply new_ip_ok|]. apply C. intros l. unfold line_allowed. by destruct (ml_type l).
  - rewrite allowed_make; [destruct (count_type (is_type MATCH_HOST_REGEX) ls) eqn:E; [done|]; apply new_re_ok|]. apply C. intros l. unfold line_allowed. by destruct (ml_type l).
Qed.
(** What a line comes to, as its parts. *)
Lemma entry_of_ok l e : entry_of l = Some e -> exists v, dest_val l = Some v /\
  match e with
  | EHost name dom d => is_host_line (ml_type l) = true /\ name = v /\ dom = is_domain l /\ Init (given (Z.of_nat (dest_entry l)) l) new_data = Some (None, d) /\ plain_rule ((v, is_domain l), d) = true
  | ERegex re d => ml_type l = MATCH_REGEX /\ Init (given (Z.of_nat (dest_entry l)) l) new_data = Some (None, d) /\ regcomp v = inr re
  | EIp a b d => ml_type l = MATCH_IP /\ Init (given (Z.of_nat (dest_entry l)) l) new_data = Some (None, d) /\ ExtractIpRange inet_addr v = Some (inr (a, b)) /\ range_okb a b = true
  | EHostRegex re d => ml_type l = MATCH_HOST_REGEX /\ Init (given (Z.of_nat (dest_entry l)) l) new_data = Some (None, d) /\ regcomp v = inr re
  end.
Proof.
  unfold entry_of. destruct (dest_val l) as [v|]; [|done]. cbn [mbind option_bind]. destruct (Init _ _) as [[err d]|] eqn:I; [|done]. cbn [mbind option_bind]. destruct err; [done|]. intros H. exists v. split; [done|].
  destruct (ml_type l); cbn iota in H, I; try done.
  - destruct (plain_rule _) eqn:P; [|done]. by injection H as <-.
  - destruct (plain_rule _) eqn:P; [|done]. by injection H as <-.
  - destruct (ExtractIpRange inet_addr v) as [[err|[a b]]|]; cbn [mbind option_bind] in H; try done. destruct (range_okb a b) eqn:R; [|done]. by injection H as <-.
  - destruct (regcomp v) eqn:R; [done|]. by injection H as <-.
  - destruct (regcomp v) eqn:R; [done|]. by injection H as <-.
Qed.

(** A table with lines for it is there. *)
Lemma table_there {M A} (holds : nat -> list A -> M -> Prop) n rs m : in_table holds n rs m -> (length rs < n)%nat -> exists m', m = Some m' /\ holds n rs m'.
Proof. destruct m as [m|]; [by exists m|]. intros [-> _]. lia. Qed.

Notation enter_line := (enter_line Init zero_data regcomp inet_addr).
Notation enter_lines := (enter_lines Init zero_data regcomp inet_addr).

Ltac other_tables :=
  constructor; cbn [set_host set_re set_ip set_hr hostMatch reMatch ipMatch hrMatch]; unfold hosts, regexes, ips, host_regexes; rewrite omap_app; cbn [omap list_omap]; rewrite ?app_nil_r; done.

Lemma enter_line_ok flags ls1 l ls2 es e ct : ct_holds (ls1 ++ l :: ls2) es ct -> mapM entry_of ls1 = Some es -> entry_of l = Some e -> line_allowed flags l = true -> line_kept l ->
  exists ct', enter_line flags l ct = Some (None, ct') /\ ct_holds (ls1 ++ l :: ls2) (es ++ [e]) ct'.
Proof.
  intros [Hh Hr Hi Hx] E1 E2 Al Kp. destruct (entries_counts _ _ E1) as (C1 & C2 & C3 & C4).
  assert (C : forall p n, n = count_type p ls1 -> p (ml_type l) = true -> (n < count_type p (ls1 ++ l :: ls2))%nat) by (intros p n -> Hp; rewrite count_type_app, count_type_cons, Hp; lia).
  destruct (entry_of_ok l e E2) as (v & Dv & H). unfold hosts, regexes, ips, host_regexes in *. unfold ControlMatcher.enter_line, line_allowed in *. destruct e as [name dom d|re d|a b d|re d].
  - destruct H as (Ty & -> & -> & I & P). rewrite <- Kp in I. unfold removed in I. replace (match ml_type l with MATCH_IP => Z.of_nat (dest_entry l) | _ => Z.of_nat (dest_entry l) - 1 end) with (Z.of_nat (dest_entry l) - 1) in I by (by destruct (ml_type l)). destruct (table_there _ _ _ _ Hh (C _ _ C1 Ty)) as (m & Em & Hm). destruct (host_entry_ok Init new_data zero_data _ _ m l v d Hm (C _ _ C1 Ty) Dv I P) as (m' & E & Hm').
    exists (set_host m' ct). split; [destruct (ml_type l); try done; rewrite Al, Em; cbn [mbind option_bind]; by rewrite E|].
    other_tables.
  - destruct H as (Ty & I & Rc). rewrite <- Kp in I. unfold removed in I. rewrite Ty in I. assert (Tt : is_type MATCH_REGEX (ml_type l) = true) by (by rewrite Ty). destruct (table_there _ _ _ _ Hr (C _ _ C2 Tt)) as (m & Em & Hm). destruct (re_entry_ok Init new_data regcomp _ _ m l v re d Hm (C _ _ C2 Tt) Dv Rc I) as (m' & E & Hm').
    exists (set_re m' ct). split; [rewrite Ty in *; rewrite Al, Em; cbn [mbind option_bind]; by rewrite E|].
    other_tables.
  - destruct H as (Ty & I & Ex & R). assert (Tt : is_type MATCH_IP (ml_type l) = true) by (by rewrite Ty). destruct (table_there _ _ _ _ Hi (C _ _ C3 Tt)) as (m & Em & Hm). destruct (ip_entry_ok Init new_data inet_addr _ _ m l v a b d Hm (C _ _ C3 Tt) Dv Ex I (range_okb_ok _ _ _ R)) as (m' & E & Hm').
    exists (set_ip m' ct). split; [rewrite Ty in *; rewrite Al, Em; cbn [mbind option_bind]; by rewrite E|].
    other_tables.
  - destruct H as (Ty & I & Rc). rewrite <- Kp in I. unfold removed in I. rewrite Ty in I. assert (Tt : is_type MATCH_HOST_REGEX (ml_type l) = true) by (by rewrite Ty). destruct (table_there _ _ _ _ Hx (C _ _ C4 Tt)) as (m & Em & Hm). destruct (re_entry_ok Init new_data regcomp _ _ m l v re d Hm (C _ _ C4 Tt) Dv Rc I) as (m' & E & Hm').
    exists (set_hr m' ct). split; [rewrite Ty in *; rewrite Al, Em; cbn [mbind option_bind]; by rewrite E|].
    other_tables.
Qed.

Lemma enter_lines_from flags ls1 ls2 es1 es2 ct : ct_holds (ls1 ++ ls2) es1 ct -> mapM entry_of ls1 = Some es1 -> mapM entry_of ls2 = Some es2 -> Forall (fun l => line_allowed flags l = true /\ line_kept l) ls2 ->
  exists ct', enter_lines flags ls2 ct = Some ([], ct') /\ ct_holds (ls1 ++ ls2) (es1 ++ es2) ct'.
Proof.
  revert ls1 es1 es2 ct. induction ls2 as [|l ls2 IH]; intros ls1 es1 es2 ct H E1 E2 F; cbn [ControlMatcher.enter_lines mapM] in *.
  { injection E2 as <-. exists ct. by rewrite (app_nil_r es1). }
  apply Forall_cons in F as [[Al Kp] F]. destruct (entry_of l) as [e|] eqn:Ee; [|done]. cbn [mbind option_bind] in E2. destruct (mapM entry_of ls2) as [es|] eqn:Es; [|done]. injection E2 as <-.
  destruct (enter_line_ok flags ls1 l ls2 es1 e ct H E1 Ee Al Kp) as (ct1 & -> & H1). cbn [mbind option_bind].
  destruct (IH (ls1 ++ [l]) (es1 ++ [e]) es ct1) as (ct2 & -> & H2); [rewrite <- app_assoc; exact H1|apply mapM_Some, Forall2_app; [by apply mapM_Some|by repeat constructor]|done|done|].
  cbn [mbind option_bind]. exists ct2. split; [done|]. by rewrite <- !app_assoc in H2.
Qed.

Lemma enter_all_ok flags ls es : mapM entry_of ls = Some es -> Forall (fun l => line_allowed flags l = true /\ line_kept l) ls ->
  exists ct, enter_lines flags ls (new_tables new_data flags ls) = Some ([], ct) /\ ct_holds ls es ct.
Proof. intros E F. apply (enter_lines_from flags [] ls [] es); [apply new_tables_ok; by eapply Forall_impl; [exact F|intros l [? _]]|done|done|done]. Qed.
(** ** Matching *)

(** The data of the rules that a request finds: by its host, by its URL, by the address of
    its server, and by its host again. *)
Definition found (es : list Entry) (host url : list Z) (a : Z) : list Data :=
  found_rules (hosts es) host ++ found_res regexec (regexes es) url ++ found_ranges (ips es) a ++ found_res regexec (host_regexes es) host.

Lemma match_if_ok {M A} (holds : nat -> list A -> M -> Prop) n rs m f rd ds x : in_table holds n rs m -> (forall m, holds n rs m -> f m x = Some (update UpdateMatch rd ds x)) -> (rs = [] -> ds = []) ->
  match_if m f x = Some (update UpdateMatch rd ds x).
Proof. intros H E N. destruct m as [m|]; [by apply E|]. destruct H as [_ H]. by rewrite (N H). Qed.

Lemma in_omap {A B} (f : A -> option B) (l : list A) (y : B) : y ∈ (omap f l : list B) -> exists x, x ∈ l /\ f x = Some y.
Proof. intros H. by apply list_elem_of_omap in H. Qed.

(** The hosts and the ranges that were entered are well-formed. *)
Lemma entries_ok ls es : mapM entry_of ls = Some es -> forallb plain_rule (hosts es) = true /\ Forall (fun y => range_ok (range_el y)) (ips es).
Proof.
  intros H. apply mapM_Some in H. assert (E : forall e, e ∈ es -> exists l, entry_of l = Some e) by (intros e He; apply list_elem_of_lookup in He as [i He]; destruct (Forall2_lookup_r _ _ _ _ _ H He) as (l & _ & X); by exists l).
  split.
  - apply forallb_forall. intros r Hr. apply list_elem_of_In, in_omap in Hr as (e & He & Ee). destruct (E e He) as [l Hl]. destruct (entry_of_ok _ _ Hl) as (v & _ & X). destruct e; try done. injection Ee as <-. by destruct X as (_ & -> & -> & _ & P).
  - apply Forall_forall. intros y Hy. apply in_omap in Hy as (e & He & Ee). destruct (E e He) as [l Hl]. destruct (entry_of_ok _ _ Hl) as (v & _ & X). destruct e; try done. injection Ee as <-. destruct X as (_ & _ & _ & R). by apply range_okb_ok.
Qed.

Lemma match_ok ls es ct rd host url x : ct_holds ls es ct -> mapM entry_of ls = Some es -> get_host rd = Some host -> name_ok host = true -> get_string rd = Some url ->
  Match UpdateMatch get_string get_host get_ip regexec ct rd x = Some (update UpdateMatch rd (found es host (default [] url) (get_ip rd)) x).
Proof.
  intros [Hh Hr Hi Hx] E Gh Nh Gs. destruct (entries_ok ls es E) as [P R]. unfold Match, found. rewrite !update_app.
  rewrite (match_if_ok _ _ _ _ _ rd (found_rules (hosts es) host) x Hh); [|intros m Hm; by apply (host_match_ok new_data UpdateMatch get_host _ _ _ _ _ _ Hm)|by intros ->]. cbn [mbind option_bind].
  rewrite (match_if_ok _ _ _ _ _ rd (found_res regexec (regexes es) (default [] url)) _ Hr); [|intros m Hm; by apply (re_match_ok new_data UpdateMatch regexec _ _ _ _ _ _ _ Hm)|by intros ->]. cbn [mbind option_bind].
  rewrite (match_if_ok _ _ _ _ _ rd (found_ranges (ips es) (get_ip rd)) _ Hi); [|intros m Hm; by apply (ip_match_ok new_data UpdateMatch get_ip _ _ _ _ _ Hm)|by intros ->]. cbn [mbind option_bind].
  rewrite (match_if_ok _ _ _ _ _ rd (found_res regexec (host_regexes es) host) _ Hx); [done| |by intros ->].
  intros m Hm. rewrite (re_match_ok new_data UpdateMatch regexec _ _ _ _ rd (Some host) _ Hm); [done|]. by rewrite Gh.
Qed.
(** A rule applies to a request. *)
Definition entry_applies (host url : list Z) (a : Z) (e : Entry) : bool :=
  match e with
  | EHost name dom d => rule_applies host ((name, dom), d)
  | ERegex re _ => regexec re url =? 0
  | EIp s e d => contains (htonl a) (range_el (s, e, d))
  | EHostRegex re _ => regexec re host =? 0
  end.

(** Whatever the order, the rules found are those that apply. *)
Lemma found_perm es host url a : found es host url a ≡ₚ entry_data <$> filter (fun e => entry_applies host url a e = true) es.
Proof.
  unfold found. rewrite found_rules_perm, found_ranges_perm. unfold found_res, hosts, regexes, ips, host_regexes. induction es as [|e es IH]; [done|]. rewrite (filter_cons _ e). destruct e as [name dom d|re d|s t d|re d]; cbn [omap list_omap entry_applies].
  - rewrite (filter_cons _ (name, dom, d)). destruct (rule_applies host (name, dom, d)); [rewrite !decide_True by done|rewrite !decide_False by done; exact IH]. cbn [fmap list_fmap snd entry_data]. change (?x :: ?y) with ([x] ++ y). cbn [app]. by constructor.
  - rewrite (filter_cons _ (re, d)). cbn [fst]. destruct (regexec re url =? 0); [rewrite !decide_True by done|rewrite !decide_False by done; exact IH]. cbn [fmap list_fmap snd entry_data app]. rewrite <- Permutation_middle. by constructor.
  - rewrite (filter_cons _ (s, t, d)). destruct (contains (htonl a) (range_el (s, t, d))); [rewrite !decide_True by done|rewrite !decide_False by done; exact IH]. cbn [fmap list_fmap snd entry_data app]. rewrite <- IH.
    rewrite (app_assoc (_ <$> _) (_ <$> _)). rewrite <- Permutation_middle. by rewrite <- app_assoc.
  - rewrite (filter_cons _ (re, d)). cbn [fst]. destruct (regexec re host =? 0); [rewrite !decide_True by done|rewrite !decide_False by done; exact IH]. cbn [fmap list_fmap snd entry_data app]. rewrite <- IH. rewrite !(app_assoc _ _ (d :: _)). rewrite <- Permutation_middle. by rewrite <- !app_assoc.
Qed.

(** ** The text *)

(** A line of a file: one that is passed over, or the pairs of a rule behind white space. *)
Inductive file_line := Passed (text : list Z) | Pairs (space : list Z) (ws1 : list word) (w : word) (ws2 : list word).

Definition line_text (f : file_line) : list Z := match f with Passed t => t | Pairs sp ws1 w ws2 => sp ++ print_line (ws1 ++ w :: ws2) end.

Definition file_text (fs : list file_line) : list Z := fs ≫= fun f => line_text f ++ [CHAR_LF].

Definition line_ok (tags : matcher_tags) (f : file_line) : Prop :=
  Forall (fun c => c <> CHAR_LF) (line_text f) /\
  match f with
  | Passed t => match skip_class is_space t with [] => True | c :: _ => c = ch "#" end
  | Pairs sp ws1 w ws2 => Forall (fun c => is_space c = true) sp /\ head (print_line (ws1 ++ w :: ws2)) <> Some (ch "#") /\ words_ok tags ws1 w ws2
  end.

(** The line that [parseConfigLine] makes of it. *)
Definition line_of (tags : matcher_tags) (n : Z) (f : file_line) : option matcher_line :=
  match f with Passed _ => None | Pairs _ ws1 w ws2 => Some (words_line tags ws1 w ws2 n) end.

Fixpoint lines_of (tags : matcher_tags) (n : Z) (fs : list file_line) : list matcher_line :=
  match fs with [] => [] | f :: fs' => option_list (line_of tags n f) ++ lines_of tags (n + 1) fs' end.

Lemma text_tokens t ts tk prior l s : maxTokens t = -1 -> allow_empty_toks t = true -> strOfDelimit t = [CHAR_LF] -> tokens t = ts -> Forall (fun c => c <> CHAR_LF) l ->
  token_loop t tk prior (l ++ CHAR_LF :: s) = token_loop (mkTok [CHAR_LF] (-1) true (ts ++ [tk ++ l])) [] true s.
Proof.
  intros M A D T F. revert tk prior. assert (L : forall k, Z.of_nat k + 1 =? -1 = false) by (intros; apply Z.eqb_neq; lia). induction F as [|c l N F IH]; intros tk prior; cbn [app token_loop]; rewrite M, L, A.
  - unfold isDelimiter. rewrite D. cbn. unfold addToken. by rewrite M, A, D, T, app_nil_r.
  - unfold isDelimiter. rewrite D. cbn [one_of existsb]. rewrite (proj2 (Z.eqb_neq c CHAR_LF)) by done. cbn [orb]. rewrite IH. by rewrite <- app_assoc.
Qed.

Lemma file_tokens fs : Forall (fun f => Forall (fun c => c <> CHAR_LF) (line_text f)) fs -> tokens (Initialize (new_Tokenizer [CHAR_LF]) (file_text fs) true).2 = line_text <$> fs.
Proof.
  intros F. unfold Initialize. cbn [new_Tokenizer strOfDelimit maxTokens]. assert (G : forall ts, token_loop (mkTok [CHAR_LF] (-1) true ts) [] true (file_text fs) = (mkTok [CHAR_LF] (-1) true (ts ++ (line_text <$> fs)), [], true, None)).
  { induction F as [|f fs H F IH]; intros ts; [cbn; by rewrite app_nil_r|]. unfold file_text. cbn [mbind list_bind fmap list_fmap]. rewrite <- app_assoc. cbn [app]. rewrite (text_tokens _ ts) by done. cbn [app]. fold (file_text fs). rewrite IH. by rewrite <- app_assoc. }
  by rewrite G.
Qed.
Lemma skip_spaces sp s : Forall (fun c => is_space c = true) sp -> skip_class is_space (sp ++ s) = skip_class is_space s.
Proof. induction 1 as [|c sp H _ IH]; [done|]. cbn [app skip_class]. by rewrite H. Qed.

Lemma print_line_start tags ws1 w ws2 : words_ok tags ws1 w ws2 -> exists c s, print_line (ws1 ++ w :: ws2) = c :: s /\ is_space c = false.
Proof.
  intros [F _ _ _ _]. assert (Ex : exists y ys, ws1 ++ w :: ws2 = y :: ys /\ word_ok y = true) by (destruct ws1 as [|y ys]; cbn [app] in *; apply Forall_cons in F as [Hy _]; eauto). destruct Ex as (y & ys & -> & Hy).
  destruct (print_line_head y ys [] Hy) as (c & s & E & _ & Sc). rewrite app_nil_r in E. by exists c, s.
Qed.

(** The lines that are read are those that were written, and there are no errors. *)
Lemma parse_file tags fs n : Forall (line_ok tags) fs -> exists ls, parse_lines tags (line_text <$> fs) n = Some ls /\ good_lines ls = lines_of tags n fs /\ bad_lines ls = [].
Proof.
  intros F. revert n. induction F as [|f fs [_ Hf] F IH]; intros n; [by exists []|]. cbn [fmap list_fmap parse_lines lines_of]. destruct (IH (n + 1)) as (ls & E & G & B). rewrite E. cbn [mbind option_bind].
  destruct f as [t|sp ws1 w ws2]; cbn [line_text line_of option_list] in *.
  - destruct (skip_class is_space t) as [|c s]; [by exists ls|]. subst c. by exists ls.
  - destruct Hf as (Sp & Nh & Ok). rewrite skip_spaces by done. destruct (print_line_start tags ws1 w ws2 Ok) as (c & s & Ec & Nc). pose proof (parse_print tags [] ws1 w ws2 ltac:(done) Ok) as P. cbn [app] in P.
    rewrite Ec in *. cbn [skip_class]. rewrite Nc. rewrite (proj2 (Z.eqb_neq c (ch "#"))) by (intros ->; done).
    rewrite P. cbn [mbind option_bind]. eexists. split; [done|]. unfold good_lines, bad_lines. cbn [omap list_omap fst snd]. unfold good_lines, bad_lines in G, B. cbn [app]. split; [|done]. f_equal. exact G.
Qed.

Lemma file_rules_ok flags tags quiet fs es : Forall (line_ok tags) fs -> mapM entry_of (lines_of tags 1 fs) = Some es -> Forall (fun l => line_allowed flags l = true /\ line_kept l) (lines_of tags 1 fs) ->
  exists ct, BuildTableFromString Init new_data zero_data regcomp inet_addr flags tags quiet (file_text fs) = Some ([], ct) /\
    forall rd host url x, get_host rd = Some host -> name_ok host = true -> get_string rd = Some url ->
      Match UpdateMatch get_string get_host get_ip regexec ct rd x = Some (update UpdateMatch rd (found es host (default [] url) (get_ip rd)) x).
Proof.
  intros F E Al. unfold BuildTableFromString. change [ch "010"] with [CHAR_LF]. pose proof (number_of_tokens (new_Tokenizer [CHAR_LF]) (file_text fs) true) as Nt.
  pose proof (file_tokens fs ltac:(eapply Forall_impl; [exact F|]; by intros f [? _])) as Ft. destruct (Initialize _ _ _) as [n tk]. cbn [fst snd] in *. subst n.
  assert (None_ok : mapM entry_of [] = Some es -> forall rd host url x, get_host rd = Some host -> name_ok host = true -> get_string rd = Some url ->
    Match UpdateMatch get_string get_host get_ip regexec no_tables rd x = Some (update UpdateMatch rd (found es host (default [] url) (get_ip rd)) x)).
  { intros E0 rd host url x Gh Nh Gs. apply (match_ok [] es); [|done|done|done|done]. injection E0 as <-. by constructor. }
  rewrite Ft. destruct (Z.eqb_spec (Z.of_nat (length (line_text <$> fs))) 0) as [L|L].
  { destruct fs; [|cbn in L; lia]. exists no_tables. split; [done|]. by apply None_ok. }
  destruct (parse_file tags fs 1 F) as (ls & -> & G & B). cbn [mbind option_bind]. rewrite G, B. destruct (enter_all_ok flags (lines_of tags 1 fs) es E Al) as (ct & En & H).
  assert (Q : (if quiet then [] else []) = @nil (Z * list Z)) by (by destruct quiet). rewrite Q. destruct (lines_of tags 1 fs) as [|l0 ls0] eqn:El.
  - exists no_tables. split; [done|]. by apply None_ok.
  - rewrite En. cbn [mbind option_bind app]. exists ct. split; [done|]. intros rd host url x Gh Nh Gs. by apply (match_ok (l0 :: ls0) es).
Qed.

(** C20: A configuration file of rules does what its lines say: if every line is passed over
    (blank or a comment) or has pairs, written as in C24, that make a rule, then building the
    tables from the text signals no error, and matching a request gives the result that the
    rules that apply to it (by its host, the regular expressions for its URL or host, and the
    address of its server), and only those, update one after the other, each once: those for
    hosts and domains first, then those for URLs, for addresses and for hosts by expression.
    The data of a rule is what [Init] reads in its line without the destination.  The lines
    are those of which the tables keep that ([line_kept]): every line for addresses, but of
    the lines for hosts and expressions only those that are read the same when the label
    before the destination's is removed instead, as the code does; a line that has it
    otherwise loses what [destination_first_no_modifiers] and [destination_second_refused]
    say.  The names of the rules have no negated label and no empty one ([plain_rule]), and
    those of the request no empty one and no dot at the end ([name_ok]). *)
Theorem rule_file_matches flags tags quiet fs es : Forall (line_ok tags) fs -> mapM entry_of (lines_of tags 1 fs) = Some es -> Forall (fun l => line_allowed flags l = true /\ line_kept l) (lines_of tags 1 fs) ->
  exists ct, BuildTableFromString Init new_data zero_data regcomp inet_addr flags tags quiet (file_text fs) = Some ([], ct) /\
    forall rd host url x, get_host rd = Some host -> name_ok host = true -> get_string rd = Some url ->
      exists ds, Match UpdateMatch get_string get_host get_ip regexec ct rd x = Some (foldl (fun x d => UpdateMatch rd d x) x ds) /\
        ds = found es host (default [] url) (get_ip rd) /\ ds ≡ₚ entry_data <$> filter (fun e => entry_applies host (default [] url) (get_ip rd) e = true) es.
Proof.
  intros F E Al. destruct (file_rules_ok flags tags quiet fs es F E Al) as (ct & B & M). exists ct. split; [done|]. intros rd host url x Gh Nh Gs.
  eexists. split; [by apply M|]. split; [done|apply found_perm].
Qed.
End files.
