(* ===== verification/CacheControl.v ===== *)
(** The rules of [cache.config] ([proxy/CacheControl.cc], [CacheControl.h]).

    An error is its text, without the module's name and the number of the line. *)

From S2P Require Import Prelude ParseRules HdrToken URL HTTP LibC HostLookup IpLookup MatcherUtils ControlBase ControlMatcher.
From Stdlib Require Import Ascii.

Definition CC_UNSET_TIME : Z := -1.

Inductive CacheControlType :=
  | CC_INVALID | CC_REVALIDATE_AFTER | CC_NEVER_CACHE | CC_STANDARD_CACHE | CC_IGNORE_NO_CACHE | CC_IGNORE_CLIENT_NO_CACHE
  | CC_IGNORE_SERVER_NO_CACHE | CC_PIN_IN_CACHE | CC_TTL_IN_CACHE.

#[export] Instance CacheControlType_eq_dec : EqDecision CacheControlType.
Proof. solve_decision. Defined.

Record CacheControlResult := mkResult {
  revalidate_after : Z; pin_in_cache_for : Z; ttl_in_cache : Z;
  never_cache : bool; ignore_client_no_cache : bool; ignore_server_no_cache : bool; ignore_client_cc_max_age : bool;
  reval_line : Z; never_line : Z; pin_line : Z; ttl_line : Z; ignore_client_line : Z; ignore_server_line : Z
}.

Definition new_result : CacheControlResult := mkResult CC_UNSET_TIME CC_UNSET_TIME CC_UNSET_TIME false false false true (-1) (-1) (-1) (-1) (-1) (-1).

(** [line_num] and [mod_elements] are those of [ControlBase]. *)
Record CacheControlRecord := mkCC { directive : CacheControlType; time_arg : Z; line_num : Z; mod_elements : option ModElements }.

Definition new_record : CacheControlRecord := mkCC CC_INVALID 0 0 None.

(** A rule whose memory is cleared. *)
Definition zero_record : CacheControlRecord := mkCC CC_INVALID 0 0 None.

Definition set_directive (d : CacheControlType) (r : CacheControlRecord) : CacheControlRecord := mkCC d (time_arg r) (line_num r) (mod_elements r).
Definition set_time (t : Z) (r : CacheControlRecord) : CacheControlRecord := mkCC (directive r) t (line_num r) (mod_elements r).
Definition set_mods (m : option ModElements) (r : CacheControlRecord) : CacheControlRecord := mkCC (directive r) (time_arg r) (line_num r) m.

(** ** Reading a rule *)

Definition action_of (val : list Z) : option CacheControlType :=
  if strcasecmp_eq val "never-cache" then Some CC_NEVER_CACHE
  else if strcasecmp_eq val "standard-cache" then Some CC_STANDARD_CACHE
  else if strcasecmp_eq val "ignore-no-cache" then Some CC_IGNORE_NO_CACHE
  else if strcasecmp_eq val "ignore-client-no-cache" then Some CC_IGNORE_CLIENT_NO_CACHE
  else if strcasecmp_eq val "ignore-server-no-cache" then Some CC_IGNORE_SERVER_NO_CACHE
  else None.

Definition timed_directive (label : list Z) : option CacheControlType :=
  if strcasecmp_eq label "revalidate" then Some CC_REVALIDATE_AFTER
  else if strcasecmp_eq label "pin-in-cache" then Some CC_PIN_IN_CACHE
  else if strcasecmp_eq label "ttl-in-cache" then Some CC_TTL_IN_CACHE
  else None.

(** A pair: an error, and whether it is the directive.  [None]: a null pointer is read. *)
Definition init_pair (label : list Z) (val : option (list Z)) (r : CacheControlRecord) : option (option (list Z) * bool * CacheControlRecord) :=
  if strcasecmp_eq label "action" then
    v ← val;
    Some match action_of v with Some d => (None, true, set_directive d r) | None => (Some (chars "Invalid action"), false, r) end
  else
    Some match timed_directive label with
    | None => (None, false, r)
    | Some d =>
      let r := set_directive d r in
      match processDurationString val with inr time_in => (None, true, set_time time_in r) | inl tmp => (Some tmp, true, r) end
    end.

(** The loop: an error, the number of the pair that is the directive, and the rule. *)
Fixpoint find_directive (line : list (option (list Z) * option (list Z))) (i : nat) (r : CacheControlRecord) : option (option (list Z) * option nat * CacheControlRecord) :=
  match line with
  | [] => Some (None, None, r)
  | (None, _) :: line' => find_directive line' (S i) r
  | (Some label, val) :: line' =>
    '(err, d_found, r) ← init_pair label val r;
    match err with
    | Some _ => Some (err, None, r)
    | None => if d_found : bool then Some (None, Some i, r) else find_directive line' (S i) r
    end
  end.

Section rules.
Context `{TokenDFA} (hash_table : list (option Z)).
Variable inet_addr : list Z -> Z.

Definition Init (line_info : matcher_line) (r : CacheControlRecord) : option (option (list Z) * CacheControlRecord) :=
  let r := mkCC (directive r) (time_arg r) (ml_line_num line_info) (mod_elements r) in
  '(err, found, r) ← find_directive (line_entries line_info) 0 r;
  match err, found with
  | Some _, _ => Some (err, r)
  | None, None => Some (Some (chars "No directive in cache.config"), r)
  | None, Some i =>
    let line_info := less_num_el (clear_label (Z.of_nat i) line_info) in
    if ml_num_el line_info >? 0 then
      m ← ProcessModifiers hash_table inet_addr line_info;
      Some match m with inl tmp => (Some tmp, set_mods None r) | inr m => (None, set_mods (Some m) r) end
    else Some (None, r)
  end.

(** ** The rules for a request *)

Variable localtime : Z -> Z * Z * Z.

(** [CheckForMatch], for the rule. *)
Definition for_match (h_rdata : HttpRequestData) (r : CacheControlRecord) (last_number : Z) : bool := CheckForMatch localtime (mod_elements r) (line_num r) h_rdata last_number.

Definition update_ignore_client (h_rdata : HttpRequestData) (r : CacheControlRecord) (x : CacheControlResult) : CacheControlResult :=
  if for_match h_rdata r (ignore_client_line x) then
    mkResult (revalidate_after x) (pin_in_cache_for x) (ttl_in_cache x) (never_cache x) true (ignore_server_no_cache x) (ignore_client_cc_max_age x)
      (reval_line x) (never_line x) (pin_line x) (ttl_line x) (line_num r) (ignore_server_line x)
  else x.

Definition update_ignore_server (h_rdata : HttpRequestData) (r : CacheControlRecord) (x : CacheControlResult) : CacheControlResult :=
  if for_match h_rdata r (ignore_server_line x) then
    mkResult (revalidate_after x) (pin_in_cache_for x) (ttl_in_cache x) (never_cache x) (ignore_client_no_cache x) true (ignore_client_cc_max_age x)
      (reval_line x) (never_line x) (pin_line x) (ttl_line x) (ignore_client_line x) (line_num r)
  else x.

Definition update_never (never : bool) (h_rdata : HttpRequestData) (r : CacheControlRecord) (x : CacheControlResult) : CacheControlResult :=
  if for_match h_rdata r (never_line x) then
    mkResult (revalidate_after x) (pin_in_cache_for x) (ttl_in_cache x) never (ignore_client_no_cache x) (ignore_server_no_cache x) (ignore_client_cc_max_age x)
      (reval_line x) (line_num r) (pin_line x) (ttl_line x) (ignore_client_line x) (ignore_server_line x)
  else x.

Definition UpdateMatch (h_rdata : HttpRequestData) (r : CacheControlRecord) (x : CacheControlResult) : CacheControlResult :=
  match directive r with
  | CC_REVALIDATE_AFTER =>
    if for_match h_rdata r (reval_line x) then
      mkResult (time_arg r) (pin_in_cache_for x) (ttl_in_cache x) (never_cache x) (ignore_client_no_cache x) (ignore_server_no_cache x) (ignore_client_cc_max_age x)
        (line_num r) (never_line x) (pin_line x) (ttl_line x) (ignore_client_line x) (ignore_server_line x)
    else x
  | CC_NEVER_CACHE => update_never true h_rdata r x
  | CC_STANDARD_CACHE => update_never false h_rdata r x
  | CC_IGNORE_NO_CACHE => update_ignore_server h_rdata r (update_ignore_client h_rdata r x)
  | CC_IGNORE_CLIENT_NO_CACHE => update_ignore_client h_rdata r x
  | CC_IGNORE_SERVER_NO_CACHE => update_ignore_server h_rdata r x
  | CC_PIN_IN_CACHE =>
    if for_match h_rdata r (pin_line x) then
      mkResult (revalidate_after x) (time_arg r) (ttl_in_cache x) (never_cache x) (ignore_client_no_cache x) (ignore_server_no_cache x) (ignore_client_cc_max_age x)
        (reval_line x) (never_line x) (line_num r) (ttl_line x) (ignore_client_line x) (ignore_server_line x)
    else x
  | CC_TTL_IN_CACHE =>
    if for_match h_rdata r (ttl_line x) then
      mkResult (revalidate_after x) (pin_in_cache_for x) (time_arg r) false (ignore_client_no_cache x) (ignore_server_no_cache x) (ignore_client_cc_max_age x)
        (reval_line x) (line_num r) (pin_line x) (line_num r) (ignore_client_line x) (ignore_server_line x)
    else x
  | CC_INVALID => x
  end.

(** ** The table *)

Context {Regex : Type} (regcomp : list Z -> list Z + Regex) (regexec : Regex -> list Z -> Z).

Definition CC_table : Type := ControlMatcher CacheControlRecord Regex.

(** The table of a file, of which [file_buf] is the text. *)
Definition build_table (flags : Z) (file_buf : list Z) : option (list (Z * list Z) * CC_table) :=
  BuildTableFromString Init new_record zero_record regcomp inet_addr flags http_dest_tags false file_buf.

Definition table_match (table : CC_table) (rdata : HttpRequestData) (x : CacheControlResult) : option CacheControlResult :=
  Match UpdateMatch (get_string hash_table) get_host get_ip regexec table rdata x.

Definition set_tag (t : option (list Z)) (rd : HttpRequestData) : HttpRequestData := mkRequest (hdr rd) (hostname_str rd) (xact_start rd) (src_ip rd) (dest_ip rd) (incoming_port rd) t.

(** The three variables of the configuration. *)
Record cc_params := mkParams { cache_ignore_client_no_cache : bool; cache_ignore_server_no_cache : bool; cache_ignore_client_cc_max_age : bool }.

Definition getCacheControl (table : CC_table) (x : CacheControlResult) (rdata : HttpRequestData) (h_params : cc_params) (tag : option (list Z)) : option CacheControlResult :=
  x ← table_match table (set_tag tag rdata) x;
  Some (mkResult (revalidate_after x) (pin_in_cache_for x) (ttl_in_cache x) (never_cache x)
          (if cache_ignore_client_no_cache h_params then true else ignore_client_no_cache x)
          (if cache_ignore_server_no_cache h_params then true else ignore_server_no_cache x)
          (if negb (cache_ignore_client_cc_max_age h_params) then false else ignore_client_cc_max_age x)
          (reval_line x) (never_line x) (pin_line x) (ttl_line x) (ignore_client_line x) (ignore_server_line x)).

Definition host_rule_in_CacheControlTable (table : CC_table) : bool := negb (is_null (hostMatch table)).
Definition ip_rule_in_CacheControlTable (table : CC_table) : bool := negb (is_null (ipMatch table)).
End rules.
