(* ===== verification/CacheControlFacts.v ===== *)
(** What [cache.config] says of a request: the first line that applies decides. *)

From S2P Require Import Prelude ParseRules HdrToken URL HTTP LibC HostLookup HostNames HostMatchFacts IpLookup MatcherUtils MatcherUtilsFacts ControlBase ControlMatcher ControlMatcherFacts RuleFiles CacheControl.
From Stdlib Require Import Ascii Sorted.

Section cache.
Context {dfa : TokenDFA} (hash_table : list (option Z)).
Variable inet_addr : list Z -> Z.
Variable localtime : Z -> Z * Z * Z.
Context {Regex : Type} (regcomp : list Z -> list Z + Regex) (regexec : Regex -> list Z -> Z).

(** The modifiers of a rule agree with the request. *)
Definition agrees (rd : HttpRequestData) (r : CacheControlRecord) : bool := CheckModifiers localtime (mod_elements r) rd.

Definition of_type (ts : list CacheControlType) (r : CacheControlRecord) : bool := existsb (fun t => bool_decide (directive r = t)) ts.

Definition decides (ts : list CacheControlType) (rd : HttpRequestData) (r : CacheControlRecord) : bool := of_type ts r && agrees rd r.

Notation UpdateMatch := (UpdateMatch localtime).

(** A parameter of the result follows its slot. *)
Lemma follows {V} (ts : list CacheControlType) (val : CacheControlRecord -> V) (slot : CacheControlResult -> Z * V) rd ds x :
  (forall r x, r ∈ ds -> slot (UpdateMatch rd r x) = slot_step line_num (decides ts rd) val (slot x) r) -> slot (foldl (fun x r => UpdateMatch rd r x) x ds) = foldl (slot_step line_num (decides ts rd) val) (slot x) ds.
Proof.
  revert x. induction ds as [|r ds IH]; intros x E; [done|]. cbn [foldl]. rewrite IH by (intros r' y Hr; apply E; by right). by rewrite E by left.
Qed.

(** The steps of each parameter. *)
Lemma slot_step_match {V} ts rd (val : CacheControlRecord -> V) s r : slot_step line_num (decides ts rd) val s r = if of_type ts r && for_match localtime rd r s.1 then (line_num r, val r) else s.
Proof. unfold slot_step, decides, for_match, CheckForMatch, agrees. destruct (of_type ts r); [|done]. cbn [andb]. by rewrite andb_comm. Qed.

Ltac known_types := cbn [existsb]; repeat (match goal with |- context [bool_decide ?P] => let b := eval vm_compute in (bool_decide P) in change (bool_decide P) with b end).

Ltac step_cases r x :=
  rewrite slot_step_match; cbn [fst]; unfold of_type, CacheControl.UpdateMatch, update_never, update_ignore_client, update_ignore_server; destruct (directive r) eqn:?; known_types; cbn;
  repeat (match goal with |- context [for_match ?a ?b ?c (?f x)] => destruct (for_match a b c (f x)) end; cbn); done.

Lemma reval_step rd r x : (reval_line (UpdateMatch rd r x), revalidate_after (UpdateMatch rd r x)) = slot_step line_num (decides [CC_REVALIDATE_AFTER] rd) time_arg (reval_line x, revalidate_after x) r.
Proof. step_cases r x. Qed.

Lemma pin_step rd r x : (pin_line (UpdateMatch rd r x), pin_in_cache_for (UpdateMatch rd r x)) = slot_step line_num (decides [CC_PIN_IN_CACHE] rd) time_arg (pin_line x, pin_in_cache_for x) r.
Proof. step_cases r x. Qed.

Lemma ttl_step rd r x : (ttl_line (UpdateMatch rd r x), ttl_in_cache (UpdateMatch rd r x)) = slot_step line_num (decides [CC_TTL_IN_CACHE] rd) time_arg (ttl_line x, ttl_in_cache x) r.
Proof. step_cases r x. Qed.

Lemma client_step rd r x : (ignore_client_line (UpdateMatch rd r x), ignore_client_no_cache (UpdateMatch rd r x)) =
  slot_step line_num (decides [CC_IGNORE_NO_CACHE; CC_IGNORE_CLIENT_NO_CACHE] rd) (fun _ => true) (ignore_client_line x, ignore_client_no_cache x) r.
Proof. step_cases r x. Qed.

Lemma server_step rd r x : (ignore_server_line (UpdateMatch rd r x), ignore_server_no_cache (UpdateMatch rd r x)) =
  slot_step line_num (decides [CC_IGNORE_NO_CACHE; CC_IGNORE_SERVER_NO_CACHE] rd) (fun _ => true) (ignore_server_line x, ignore_server_no_cache x) r.
Proof. step_cases r x. Qed.

(** A rule for a time in the cache is not among those that decide [never_cache], as long as
    none is looked at. *)
Lemma never_step rd r x : decides [CC_TTL_IN_CACHE] rd r = false -> (never_line (UpdateMatch rd r x), never_cache (UpdateMatch rd r x)) =
  slot_step line_num (decides [CC_NEVER_CACHE; CC_STANDARD_CACHE] rd) (of_type [CC_NEVER_CACHE]) (never_line x, never_cache x) r.
Proof.
  rewrite slot_step_match. cbn [fst]. unfold decides, of_type, CacheControl.UpdateMatch, update_never, update_ignore_client, update_ignore_server. destruct (directive r) eqn:?; known_types; cbn; intros T.
  all: repeat (match goal with |- context [for_match ?a ?b ?c ?d] => let E := fresh "E" in destruct (for_match a b c d) eqn:E end; cbn); try done.
  unfold for_match, CheckForMatch in *. unfold agrees in T. rewrite T, andb_false_r in *. done.
Qed.
Lemma max_age_kept rd ds x : ignore_client_cc_max_age (foldl (fun x r => UpdateMatch rd r x) x ds) = ignore_client_cc_max_age x.
Proof.
  revert x. induction ds as [|r ds IH]; intros x; [done|]. cbn [foldl]. rewrite IH. unfold CacheControl.UpdateMatch, update_never, update_ignore_client, update_ignore_server.
  destruct (directive r); repeat (match goal with |- context [for_match ?a ?b ?c (?f x)] => destruct (for_match a b c (f x)) end; cbn); try done; by destruct (for_match _ _ _ _).
Qed.

(** ** The rules of a file *)

Notation Init := (CacheControl.Init hash_table inet_addr).
Notation entry_of := (RuleFiles.entry_of Init new_record regcomp inet_addr).

Lemma init_pair_line label val r err b r' : init_pair label val r = Some (err, b, r') -> line_num r' = line_num r.
Proof.
  unfold init_pair. destruct (strcasecmp_eq label "action").
  - destruct val; [|done]. cbn [mbind option_bind]. destruct (action_of _); by intros [= <- <- <-].
  - destruct (timed_directive label); [|by intros [= <- <- <-]]. destruct (processDurationString val); by intros [= <- <- <-].
Qed.

Lemma find_directive_line line i r err n r' : find_directive line i r = Some (err, n, r') -> line_num r' = line_num r.
Proof.
  revert i r. induction line as [|[[label|] val] line IH]; intros i r; cbn [find_directive]; [by intros [= <- <- <-]| |apply IH].
  destruct (init_pair label val r) as [[[e b] r1]|] eqn:E; [|done]. cbn [mbind option_bind]. apply init_pair_line in E. rewrite <- E. destruct e; [by intros [= <- <- <-]|]. destruct b; [by intros [= <- <- <-]|apply IH].
Qed.

Lemma init_line l r err r' : Init l r = Some (err, r') -> line_num r' = ml_line_num l.
Proof.
  unfold CacheControl.Init. destruct (find_directive _ _ _) as [[[e n] r1]|] eqn:E; [|done]. cbn [mbind option_bind]. apply find_directive_line in E. cbn [line_num] in E. rewrite <- E.
  destruct e; [by intros [= <- <-]|]. destruct n as [n|]; [|by intros [= <- <-]]. destruct (_ >? 0); [|by intros [= <- <-]].
  destruct (ProcessModifiers _ _ _) as [[t|m]|]; [| |done]; cbn [mbind option_bind]; by intros [= <- <-].
Qed.

Lemma entry_line l e : entry_of l = Some e -> line_num (entry_data e) = ml_line_num l.
Proof.
  intros H. apply entry_of_ok in H as (v & _ & H). assert (G : forall i, ml_line_num (given i l) = ml_line_num l) by (intros i; unfold given, clear_label; by destruct (i <? 0)).
  destruct e; [destruct H as (_ & _ & _ & I & _)|destruct H as (_ & I & _)|destruct H as (_ & I & _)|destruct H as (_ & I & _)]; apply init_line in I; by rewrite G in I.
Qed.

Lemma lines_from tags n fs l : l ∈ lines_of tags n fs -> n <= ml_line_num l.
Proof.
  revert n. induction fs as [|f fs IH]; intros n; cbn [lines_of]; [by intros ?%not_elem_of_nil|]. rewrite elem_of_app. intros [H|H]; [|apply IH in H; lia].
  destruct f; cbn in H; [by apply not_elem_of_nil in H|]. apply list_elem_of_singleton in H as ->. cbn. lia.
Qed.

(** The rules of a file are in the order of their lines. *)
Lemma file_in_order tags n fs es : 0 <= n -> mapM entry_of (lines_of tags n fs) = Some es -> in_order line_num (entry_data <$> es) /\ Forall (fun r => n <= line_num r) (entry_data <$> es).
Proof.
  intros Hn. revert n es Hn. induction fs as [|f fs IH]; intros n es Hn; cbn [lines_of]; [intros [= <-]; by repeat constructor|]. intros E.
  assert (C : exists e0 es0, es = e0 ++ es0 /\ mapM entry_of (option_list (line_of tags n f)) = Some e0 /\ mapM entry_of (lines_of tags (n + 1) fs) = Some es0).
  { apply mapM_Some, Forall2_app_inv_l in E as (e0 & es0 & H1 & H2 & ->). exists e0, es0. split; [done|]. split; by apply mapM_Some. }
  destruct C as (e0 & es0 & -> & E0 & Es). destruct (IH (n + 1) es0 ltac:(lia) Es) as [S F]. destruct f as [t|sp ws1 w ws2]; cbn [line_of option_list] in E0.
  - injection E0 as <-. cbn [app]. split; [done|]. eapply Forall_impl; [exact F|]. cbn. intros r. lia.
  - cbn [option_list mapM] in E0. set (l := words_line _ _ _ _ n) in E0. cbn in E0. destruct (entry_of l) as [e|] eqn:Ee; cbn in E0; [|done]. injection E0 as <-. cbn [app fmap list_fmap]. apply entry_line in Ee. change (ml_line_num l) with n in Ee.
    split; [constructor; [exact S|]|constructor; [lia|]]; (eapply Forall_impl; [exact F|]); cbn; intros r; lia.
Qed.

(** A line that has the destination first and the directive behind it, and no modifiers, is
    read the same in every table. *)
Lemma same_name_trans (l : list Z) (t t' : string) : strcasecmp_eq l t = true -> strcasecmp_eq l t' = strcasecmp_eq (chars t) t'.
Proof. unfold strcasecmp_eq, same_name. intros E%bool_decide_eq_true. by rewrite E. Qed.

Lemma dest_not_directive l : type_of_label http_dest_tags l <> MATCH_NONE -> strcasecmp_eq l "action" = false /\ timed_directive l = None.
Proof.
  unfold type_of_label, is_tag. cbn [http_dest_tags match_ip match_host match_domain match_regex match_host_regex]. intros N.
  assert (E : exists t, strcasecmp_eq l t = true /\ In t ["dest_ip"; "dest_host"; "dest_domain"; "url_regex"; "host_regex"]%string).
  { repeat (match goal with H : context [if ?b then _ else _] |- _ => destruct b eqn:? end; [eexists; split; [eassumption|]; cbn; tauto|]). done. }
  destruct E as (t & E & I). unfold timed_directive. rewrite !(same_name_trans l t) by done. cbn in I. repeat (destruct I as [<-|I]; [by vm_compute|]). done.
Qed.

Lemma one_directive_kept w wd n : type_of_label http_dest_tags (pair w).1 <> MATCH_NONE -> line_kept Init new_record (words_line http_dest_tags [] w [wd] n).
Proof.
  intros N. destruct (dest_not_directive _ N) as [Na Nt]. unfold line_kept, removed, words_line. cbn [ml_type dest_entry]. destruct w as [[l v] q g], wd as [[l' v'] q' g']. cbn [pair fst snd] in *.
  set (r0 := mkCC (directive new_record) (time_arg new_record) n (mod_elements new_record)).
  assert (G : forall t, Init (given (-1) (mkLine t 0 2 (pad [l; l']) (pad [v; v']) n)) new_record = Init (given 0 (mkLine t 0 2 (pad [l; l']) (pad [v; v']) n)) new_record).
  { intros t. unfold CacheControl.Init, given, clear_label, less_num_el. cbn [Z.ltb Z.compare ml_type dest_entry ml_num_el line_labels line_vals ml_line_num]. unfold line_entries. cbn [line_labels line_vals]. change (Z.to_nat 0) with 0%nat.
    cbn [pad fmap list_fmap app length insert list_insert zip zip_with MATCHER_MAX_TOKENS Nat.sub replicate find_directive]. fold r0. assert (Ei : init_pair l (Some v) r0 = Some (None, false, r0)) by (unfold init_pair; by rewrite Na, Nt).
    rewrite Ei. cbn [mbind option_bind]. destruct (init_pair l' (Some v') r0) as [[[[e|] [|]] r1]|]; cbn [mbind option_bind]; done. }
  destruct (type_of_label http_dest_tags l); [done|apply G|apply G|done|apply G|apply G].
Qed.

Lemma filter_data (R : CacheControlRecord -> Prop) (Q : Entry CacheControlRecord Regex -> Prop) `{!forall e, Decision (Q e)} es : Forall R (entry_data <$> es) -> Forall R (entry_data <$> filter Q es).
Proof. rewrite !Forall_forall. intros F r Hr. apply list_elem_of_fmap in Hr as (x & -> & Hx). apply list_elem_of_filter in Hx as [_ Hx]. apply F. by apply list_elem_of_fmap_2. Qed.

Lemma filter_in_order (Q : Entry CacheControlRecord Regex -> Prop) `{!forall e, Decision (Q e)} (es : list (Entry CacheControlRecord Regex)) : in_order line_num (entry_data <$> es) -> in_order line_num (entry_data <$> filter Q es).
Proof.
  intros S. induction es as [|e es IH]; [done|]. cbn [fmap list_fmap] in S. apply StronglySorted_inv in S as [S F]. rewrite filter_cons. case_decide; [|by apply IH]. constructor; [by apply IH|].
  by apply filter_data.
Qed.

(** The result of rules that are looked at in some order. *)
Lemma updated rd rs ds : in_order line_num rs -> Forall (fun r => 1 <= line_num r) rs -> ds ≡ₚ rs -> let x := foldl (fun x r => UpdateMatch rd r x) new_result ds in
  let first ts := head (filter (fun r => decides ts rd r = true) rs) in
  revalidate_after x = from_option time_arg CC_UNSET_TIME (first [CC_REVALIDATE_AFTER]) /\ pin_in_cache_for x = from_option time_arg CC_UNSET_TIME (first [CC_PIN_IN_CACHE]) /\
  ttl_in_cache x = from_option time_arg CC_UNSET_TIME (first [CC_TTL_IN_CACHE]) /\
  ignore_client_no_cache x = from_option (fun _ => true) false (first [CC_IGNORE_NO_CACHE; CC_IGNORE_CLIENT_NO_CACHE]) /\ ignore_server_no_cache x = from_option (fun _ => true) false (first [CC_IGNORE_NO_CACHE; CC_IGNORE_SERVER_NO_CACHE]) /\
  (first [CC_TTL_IN_CACHE] = None -> never_cache x = from_option (of_type [CC_NEVER_CACHE]) false (first [CC_NEVER_CACHE; CC_STANDARD_CACHE])).
Proof.
  intros S F Pm x first. assert (F0 : Forall (fun r => 0 <= line_num r) rs) by (eapply Forall_impl; [exact F|]; cbn; intros; lia).
  assert (G : forall V ts (val : CacheControlRecord -> V) (slot : CacheControlResult -> Z * V) v0, slot new_result = (-1, v0) -> (forall r y, r ∈ ds -> slot (UpdateMatch rd r y) = slot_step line_num (decides ts rd) val (slot y) r) ->
    (slot x).2 = from_option val v0 (first ts)).
  { intros V ts val slot v0 E0 E. unfold x. rewrite (follows ts val slot rd ds new_result E), E0. by apply slot_first. }
  split; [apply (G _ _ _ (fun x => (reval_line x, revalidate_after x))); [done|intros; apply reval_step]|]. split; [apply (G _ _ _ (fun x => (pin_line x, pin_in_cache_for x))); [done|intros; apply pin_step]|].
  split; [apply (G _ _ _ (fun x => (ttl_line x, ttl_in_cache x))); [done|intros; apply ttl_step]|]. split; [apply (G _ _ _ (fun x => (ignore_client_line x, ignore_client_no_cache x))); [done|intros; apply client_step]|].
  split; [apply (G _ _ _ (fun x => (ignore_server_line x, ignore_server_no_cache x))); [done|intros; apply server_step]|].
  intros N. apply (G _ _ _ (fun x => (never_line x, never_cache x))); [done|]. intros r y Hr. apply never_step. rewrite Pm in Hr.
  destruct (decides [CC_TTL_IN_CACHE] rd r) eqn:D; [|done]. assert (I : r ∈ filter (fun r => decides [CC_TTL_IN_CACHE] rd r = true) rs) by (by apply list_elem_of_filter). unfold first in N. destruct (filter _ rs); [by apply not_elem_of_nil in I|done].
Qed.

Lemma some_flag {A} (o : option A) : from_option (fun _ => true) false o = negb (is_null o).
Proof. by destruct o. Qed.

(** The first line, of those of some types whose modifiers agree. *)
Definition first_line (ts : list CacheControlType) (rd : HttpRequestData) (rs : list CacheControlRecord) : option CacheControlRecord := head (filter (fun r => decides ts rd r = true) rs).

(** C19: [cache.config] is read from the top: for a file whose lines are blank, comments or
    rules, the table that is built gives every request, for the time to revalidate after,
    the time to pin and the time to live, the value of the first line of the file with that
    directive that applies to the request and whose modifiers agree with it, whichever of
    the four tables the rule is in; for the directives to ignore the no-cache of clients
    and servers, whether there is such a line, or the configuration says so; and when no
    rule for a time to live applies, the first of the lines never-cache and standard-cache
    decides whether it is cached.  The lines are written as in C24, and are those of which
    the tables keep the directive and the modifiers ([line_kept]): of the lines for
    addresses all, but of those for hosts, domains and expressions not those with modifiers,
    which the code loses (the example in the comments of the file is one); such a line with
    nothing but its destination and its directive is kept ([one_directive_kept]).  The names
    of rules and request are as in C20. *)
Theorem cache_config_first_line flags fs es : Forall (line_ok http_dest_tags) fs -> mapM entry_of (lines_of http_dest_tags 1 fs) = Some es ->
  Forall (fun l => line_allowed flags l = true /\ line_kept Init new_record l) (lines_of http_dest_tags 1 fs) ->
  exists table, build_table hash_table inet_addr regcomp flags (file_text fs) = Some ([], table) /\
    forall rdata params t host url, get_host rdata = Some host -> name_ok host = true -> get_string hash_table rdata = Some url ->
      exists x, getCacheControl hash_table localtime regexec table new_result rdata params t = Some x /\
        let rd := set_tag t rdata in
        let rs := entry_data <$> filter (fun e => entry_applies regexec host (default [] url) (get_ip rd) e = true) es in
        revalidate_after x = from_option time_arg CC_UNSET_TIME (first_line [CC_REVALIDATE_AFTER] rd rs) /\
        pin_in_cache_for x = from_option time_arg CC_UNSET_TIME (first_line [CC_PIN_IN_CACHE] rd rs) /\
        ttl_in_cache x = from_option time_arg CC_UNSET_TIME (first_line [CC_TTL_IN_CACHE] rd rs) /\
        ignore_client_no_cache x = cache_ignore_client_no_cache params || negb (is_null (first_line [CC_IGNORE_NO_CACHE; CC_IGNORE_CLIENT_NO_CACHE] rd rs)) /\
        ignore_server_no_cache x = cache_ignore_server_no_cache params || negb (is_null (first_line [CC_IGNORE_NO_CACHE; CC_IGNORE_SERVER_NO_CACHE] rd rs)) /\
        ignore_client_cc_max_age x = cache_ignore_client_cc_max_age params /\
        (first_line [CC_TTL_IN_CACHE] rd rs = None -> never_cache x = from_option (of_type [CC_NEVER_CACHE]) false (first_line [CC_NEVER_CACHE; CC_STANDARD_CACHE] rd rs)).
Proof.
  intros F E Al. destruct (file_rules_ok Init new_record zero_record UpdateMatch (get_string hash_table) get_host get_ip regcomp regexec inet_addr flags http_dest_tags false fs es F E Al) as (table & B & M).
  exists table. split; [exact B|]. intros rdata params t host url Gh Nh Gs. destruct (file_in_order http_dest_tags 1 fs es ltac:(lia) E) as [So Fo]. specialize (M (set_tag t rdata) host url new_result Gh Nh Gs).
  unfold getCacheControl, table_match. rewrite M. cbn [mbind option_bind]. eexists. split; [done|]. cbv zeta.
  pose proof (updated (set_tag t rdata) _ _ (filter_in_order _ es So) (filter_data _ _ es Fo) (found_perm regexec es host (default [] url) (get_ip rdata))) as (U1 & U2 & U3 & U4 & U5 & U6).
  cbn [revalidate_after pin_in_cache_for ttl_in_cache ignore_client_no_cache ignore_server_no_cache ignore_client_cc_max_age never_cache]. unfold update. change (get_ip (set_tag t rdata)) with (get_ip rdata). split; [exact U1|]. split; [exact U2|]. split; [exact U3|].
  split; [rewrite U4, some_flag; by destruct (cache_ignore_client_no_cache params)|]. split; [rewrite U5, some_flag; by destruct (cache_ignore_server_no_cache params)|].
  split; [|exact U6]. rewrite max_age_kept. by destruct (cache_ignore_client_cc_max_age params).
Qed.
End cache.
