(* ===== verification/IpAllow.v ===== *)
(** Which clients may connect ([proxy/IPAllow.cc], [IPAllow.h]). *)

From S2P Require Import Prelude ParseRules LibC Tokenizer IpLookup MatcherUtils MatcherUtilsFacts ControlBase ControlMatcher ControlMatcherFacts RuleFiles.
From Stdlib Require Import Ascii Sorted.

Definition IP_ALLOW : Z := 1.
Definition IP_DENY : Z := -1.

Record IpAllowRecord := mkRecord { access : Z; line_num : Z }.

(** The class is an [IpLookup] of such records; [err_allow_all] is never set. *)
Record IpAllow := mkAllow { lookup : IpLookup IpAllowRecord; err_allow_all : bool }.

Definition new_IpAllow : IpAllow := mkAllow (new_IpLookup 2) false.

Section build.
Variable inet_addr : list Z -> Z.

(** What is signalled, and the table so far. *)
Definition Progress : Type := list (Z * list Z) * IpLookup IpAllowRecord.

Definition signal_error (n : Z) (err : list Z) (p : Progress) : Progress := (p.1 ++ [(n, err)], p.2).

Definition access_of (val : list Z) : option Z := if strcasecmp_eq val "ip_allow" then Some IP_ALLOW else if strcasecmp_eq val "ip_deny" then Some IP_DENY else None.

(** The loop over the pairs of a line, whose range is [addr1] to [addr2].  [None]: a null
    pointer is read. *)
Fixpoint enter_actions (n addr1 addr2 : Z) (line : list (option (list Z) * option (list Z))) (p : Progress) : option Progress :=
  match line with
  | [] => Some p
  | (None, _) :: line' => enter_actions n addr1 addr2 line' p
  | (Some label, val) :: line' =>
    if strcasecmp_eq label "action" then
      v ← val;
      match access_of v with
      | Some a => ip ← NewEntry addr1 addr2 (mkRecord a n) p.2; enter_actions n addr1 addr2 line' (p.1, ip)
      | None => enter_actions n addr1 addr2 line' (signal_error n (chars "Invalid action specified") p)
      end
    else enter_actions n addr1 addr2 line' p
  end.

(** A line that is neither empty nor a comment. *)
Definition allow_line (n : Z) (line : list Z) (p : Progress) : option Progress :=
  r ← parseConfigLine line ip_allow_tags;
  match r with
  | inl err => Some (signal_error n err p)
  | inr line_info =>
    v ← mjoin (line_vals line_info !! dest_entry line_info);
    range ← ExtractIpRange inet_addr v;
    match range with
    | inl err => Some (signal_error n err p)
    | inr (addr1, addr2) => enter_actions n addr1 addr2 (line_entries line_info) p
    end
  end.

Definition allow_text (n : Z) (line : list Z) (p : Progress) : option Progress :=
  let line := skip_class is_space line in
  match line with [] => Some p | c :: _ => if c =? ch "#" then Some p else allow_line n line p end.

(** The loop over the lines.  What [parseConfigLine] writes into a line is not read again,
    since [tokLine] goes on behind it. *)
Fixpoint allow_lines (fuel : nat) (first : bool) (buf : list Z) (last : nat) (n : Z) (p : Progress) : option Progress :=
  match fuel with
  | O => None
  | S fuel' =>
    '(line, buf, last) ← tokLine first buf last;
    match line with
    | None => Some p
    | Some start => p ← allow_text n (str_at buf start) p; allow_lines fuel' false buf last (n + 1) p
    end
  end.

(** [file_buf] is what [readIntoBuffer] has read, if it could. *)
Definition BuildTable (file_buf : option (list Z)) : option (list (Z * list Z) * IpAllow) :=
  match file_buf with
  | None => Some ([], new_IpAllow)
  | Some text => '(errs, ip) ← allow_lines (S (length text)) true (text ++ [0]) 0 1 ([], new_IpLookup 2); Some (errs, mkAllow ip false)
  end.
End build.

(** [match]: of the records whose range has the address, the one of the smallest line. *)
Definition first_record (found : list IpAllowRecord) : option IpAllowRecord :=
  match found with [] => None | cur :: _ => Some (foldl (fun result cur => if line_num cur <? line_num result then cur else result) cur found) end.

Definition match_ip (t : IpAllow) (ip : Z) : option bool :=
  if err_allow_all t then Some true
  else
    found ← all_matches (S (Z.to_nat (num_el (lookup t)))) (lookup t) ip;
    Some match first_record found with Some result => access result =? IP_ALLOW | None => false end.

(** * What [ip_allow.config] says of a client: the first line whose range has its address
    decides, and a client that no line is for is refused. *)

Section allow.
Variable inet_addr : list Z -> Z.

(** A range with what it says. *)
Notation Entry := (Z * Z * IpAllowRecord)%type.

(** ** The records of a file *)

Definition action_records (n a b : Z) (xs : list (list Z * list Z)) : list Entry :=
  omap (fun y => if strcasecmp_eq y.1 "action" then (fun acc => ((a, b), mkRecord acc n)) <$> access_of y.2 else None) xs.

Definition line_records (n : Z) (f : file_line) : list Entry :=
  match f with
  | Passed _ => []
  | Pairs _ ws1 w ws2 => match ExtractIpRange inet_addr (pair w).2 with Some (inr (a, b)) => action_records n a b (pair <$> ws1 ++ w :: ws2) | _ => [] end
  end.

Fixpoint file_records (n : Z) (fs : list file_line) : list Entry :=
  match fs with [] => [] | f :: fs' => line_records n f ++ file_records (n + 1) fs' end.

(** The value of the source is not empty, its range is one of addresses of 32 bits, and
    there is one action at most. *)
Definition readable (f : file_line) : Prop :=
  match f with
  | Passed t => Forall (fun c => c <> 0) t
  | Pairs _ ws1 w ws2 => match ExtractIpRange inet_addr (pair w).2 with Some (inr (a, b)) => range_okb a b = true | Some (inl _) => True | None => False end /\
      (length (filter (fun y => strcasecmp_eq y.1 "action" = true) (pair <$> ws1 ++ w :: ws2)) <= 1)%nat
  end.

(** ** The building of the table *)

Definition table_has (es : list Entry) (ip : IpLookup IpAllowRecord) : Prop := ip_ok (range_el <$> es) ip /\ table_depth ip = 2%nat /\ num_el ip = Z.of_nat (length es).

Lemma entry_added es a b r ip : table_has es ip -> range_okb a b = true -> Z.of_nat (length es) + 1 < 2 ^ 31 -> exists ip', NewEntry a b r ip = Some ip' /\ table_has (es ++ [((a, b), r)]) ip'.
Proof.
  intros (H & D & N) R L. destruct (new_range_ok (range_el <$> es) (range_el (a, b, r)) ip H (range_okb_ok _ _ _ R)) as (ip' & E & H' & D'). cbn [range_el range_start range_end opaque_data fst snd] in E.
  exists ip'. split; [done|]. split; [by rewrite fmap_app|]. split; [by rewrite D'|]. unfold NewEntry in E. destruct (insert_el _ _ _ _) as [t|]; [|done]. injection E as <-. cbn [num_el]. rewrite N, wraps_id by lia. rewrite length_app. cbn. lia.
Qed.

Lemma zip_pad xs k : zip ((Some <$> xs.*1) ++ replicate k None) ((Some <$> xs.*2) ++ replicate k None) = ((fun y : list Z * list Z => (Some y.1, Some y.2)) <$> xs) ++ replicate k (None, None).
Proof. induction xs as [|[l v] xs IH]; [induction k as [|k IH]; [done|]|]; cbn in *; by f_equal. Qed.

Lemma line_entries_pad t d n xs k : line_entries (mkLine t d n (pad xs.*1) (pad xs.*2) k) = ((fun y => (Some y.1, Some y.2)) <$> xs) ++ replicate (MATCHER_MAX_TOKENS - length xs) (None, None).
Proof. unfold line_entries, pad. cbn [line_labels line_vals]. rewrite !length_fmap. apply zip_pad. Qed.

Lemma actions_entered n a b xs k es p : table_has es p.2 -> range_okb a b = true -> Z.of_nat (length es + length (action_records n a b xs)) < 2 ^ 31 ->
  exists p', enter_actions n a b (((fun y => (Some y.1, Some y.2)) <$> xs) ++ replicate k (None, None)) p = Some p' /\ table_has (es ++ action_records n a b xs) p'.2.
Proof.
  intros H R. revert es p H. induction xs as [|[l v] xs IH]; intros es p H L.
  - cbn [fmap list_fmap app]. exists p. split; [by induction k|]. by rewrite app_nil_r.
  - cbn [fmap list_fmap app enter_actions fst snd]. unfold action_records in *. cbn [omap list_omap fst snd] in *. destruct (strcasecmp_eq l "action"); [|by apply IH]. cbn [mbind option_bind].
    destruct (access_of v) as [acc|]; cbn [fmap option_fmap option_map] in *; [|by apply IH]. cbn [length] in L. destruct (entry_added es a b (mkRecord acc n) p.2 H R ltac:(lia)) as (ip' & -> & H'). cbn [mbind option_bind].
    destruct (IH (es ++ [((a, b), mkRecord acc n)]) (p.1, ip') H') as (p' & E & Hp); [rewrite length_app; cbn; lia|]. exists p'. split; [done|]. by rewrite <- app_assoc in Hp.
Qed.

Lemma text_entered n f es p : line_ok ip_allow_tags f -> readable f -> table_has es p.2 -> Z.of_nat (length es + length (line_records n f)) < 2 ^ 31 ->
  exists p', allow_text inet_addr n (line_text f) p = Some p' /\ table_has (es ++ line_records n f) p'.2.
Proof.
  intros [_ Hf] R H L. unfold allow_text. destruct f as [t|sp ws1 w ws2]; cbn [line_text line_records readable] in *.
  - exists p. rewrite app_nil_r. split; [|done]. destruct (skip_class is_space t) as [|c s]; [done|]. by subst c.
  - destruct Hf as (Sp & Nh & Ok). destruct R as [R _]. rewrite skip_spaces by done. destruct (print_line_start _ ws1 w ws2 Ok) as (c & s & Ec & Nc).
    pose proof (parse_print ip_allow_tags [] ws1 w ws2 ltac:(done) Ok) as P. cbn [app] in P.
    assert (Sk : skip_class is_space (print_line (ws1 ++ w :: ws2)) = print_line (ws1 ++ w :: ws2)) by (rewrite Ec; cbn [skip_class]; by rewrite Nc). rewrite Sk. destruct (print_line (ws1 ++ w :: ws2)) as [|c0 s0] eqn:Epl; [done|]. injection Ec as -> ->.
    rewrite (proj2 (Z.eqb_neq c (ch "#"))) by (by intros ->). unfold allow_line. rewrite P. cbn [mbind option_bind words_line line_vals dest_entry].
    assert (Dv : mjoin (pad (pair <$> ws1 ++ w :: ws2).*2 !! length ws1) = Some (pair w).2).
    { unfold pad. rewrite lookup_app_l by (rewrite !length_fmap, length_app; cbn; lia). rewrite !list_lookup_fmap, lookup_app_r, Nat.sub_diag by done. done. }
    rewrite Dv. cbn [mbind option_bind]. destruct (ExtractIpRange inet_addr (pair w).2) as [[err|[a b]]|]; [| |done]; cbn [mbind option_bind].
    + exists (signal_error n err p). split; [done|]. by rewrite app_nil_r.
    + unfold words_line. rewrite line_entries_pad. by apply actions_entered.
Qed.

Lemma print_line_nonzero ws : Forall (fun w => word_ok w = true) ws -> Forall (fun c => c <> 0) (print_line ws).
Proof.
  intros F. unfold print_line. apply Forall_bind. eapply Forall_impl; [exact F|]. intros [[l v] q g] H. unfold compose. unfold word_ok in H. cbn [pair in_quotes gap fst snd] in H. apply andb_true_iff in H as [[Hl Hv]%andb_true_iff Hg].
  unfold print_word, print_value. cbn [pair in_quotes gap fst snd]. apply Forall_app. split; [by apply label_nonzero|]. constructor; [done|]. apply Forall_app. split.
  - destruct q; [|by apply bare_ok_spec in Hv as (? & ? & _ & _ & _ & _ & _ & ?)]. apply andb_true_iff in Hv as [Hv _]. apply bytes_nonzero in Hv. constructor; [done|]. apply Forall_app. split; [|by repeat constructor].
    unfold escaped. apply Forall_bind. eapply Forall_impl; [exact Hv|]. intros c Hc. unfold compose. destruct (special c); rewrite !Forall_cons, Forall_nil; done.
  - apply Forall_forall. intros c Hc ->. rewrite forallb_forall in Hg. by apply list_elem_of_In, Hg in Hc.
Qed.

Lemma line_chars f : line_ok ip_allow_tags f -> readable f -> Forall (fun c => c <> 0 /\ c <> 10) (line_text f).
Proof.
  intros [Fl Hf] R. assert (F0 : Forall (fun c => c <> 0) (line_text f)).
  { destruct f as [t|sp ws1 w ws2]; cbn [line_text readable] in *; [done|]. destruct Hf as (Sp & _ & [Fp _ _ _ _]). apply Forall_app. split.
    - eapply Forall_impl; [exact Sp|]. intros c Hc ->. done.
    - apply print_line_nonzero. done. }
  apply Forall_forall. intros c Hc. split; [exact (proj1 (Forall_forall _ _) F0 c Hc)|exact (proj1 (Forall_forall _ _) Fl c Hc)].
Qed.

Lemma lines_entered fs fuel first A last n es p : Forall (line_ok ip_allow_tags) fs -> Forall readable fs -> table_has es p.2 -> Z.of_nat (length es + length (file_records n fs)) < 2 ^ 31 ->
  length A = (if first : bool then 0 else S last)%nat -> (length fs < fuel)%nat ->
  exists p', allow_lines inet_addr fuel first (A ++ file_text fs ++ [0]) last n p = Some p' /\ table_has (es ++ file_records n fs) p'.2.
Proof.
  intros F R. revert fuel first A last n es p. induction F as [|f fs Hf F IH]; intros fuel first A last n es p H L La Lf; (destruct fuel as [|fuel]; [cbn in Lf; lia|]); cbn [allow_lines].
  - exists p. cbn [file_records]. rewrite app_nil_r. split; [|done]. unfold tokLine. rewrite <- La. rewrite (scan_line_ok A [] 0 []) by (first [by left|done|rewrite !length_app; cbn; lia]). cbn [mbind option_bind length Z.eqb]. rewrite Nat.add_0_r, La. by destruct first; [|rewrite Nat.ltb_irrefl].
  - apply Forall_cons in R as [Rf R]. pose proof (line_chars f Hf Rf) as C. cbn [file_records] in L. rewrite length_app in L. assert (Et : file_text (f :: fs) ++ [0] = line_text f ++ 10 :: file_text fs ++ [0]) by (unfold file_text; cbn [mbind list_bind]; by rewrite <- !app_assoc).
    rewrite Et, (tok_line first A) by done. cbn [mbind option_bind]. assert (Es : str_at (A ++ line_text f ++ 0 :: file_text fs ++ [0]) (length A) = line_text f).
    { unfold str_at. rewrite drop_app_length. apply c_string_closed. eapply Forall_impl; [exact C|]. by intros c [? _]. }
    rewrite Es. destruct (text_entered n f es p Hf Rf H ltac:(lia)) as (p1 & -> & H1). cbn [mbind option_bind].
    replace (A ++ line_text f ++ 0 :: file_text fs ++ [0]) with ((A ++ line_text f ++ [0]) ++ file_text fs ++ [0]) by (by rewrite <- !app_assoc).
    destruct (IH R fuel false (A ++ line_text f ++ [0]) (length A + length (line_text f))%nat (n + 1) _ p1 H1) as (p2 & E & H2); [rewrite length_app; lia|rewrite !length_app; cbn; lia|cbn in Lf; lia|].
    exists p2. split; [done|]. cbn [file_records]. by rewrite app_assoc.
Qed.

(** ** The first line *)

Definition record_line (e : Entry) : Z := line_num e.2.

Lemma line_records_line n f : readable f -> (length (line_records n f) <= 1)%nat /\ Forall (fun e => record_line e = n) (line_records n f).
Proof.
  intros R. destruct f as [t|sp ws1 w ws2]; cbn [line_records readable] in *; [split; [cbn; lia|done]|]. destruct (ExtractIpRange inet_addr (pair w).2) as [[err|[a b]]|]; [split; [cbn; lia|done]| |split; [cbn; lia|done]].
  destruct R as [_ L]. revert L. generalize (pair <$> ws1 ++ w :: ws2). intros xs L. split.
  - etrans; [|exact L]. clear L. induction xs as [|y xs IH]; [done|]. unfold action_records in *. cbn [omap list_omap]. rewrite filter_cons. destruct (strcasecmp_eq y.1 "action"); [rewrite decide_True by done|by rewrite decide_False by done].
    destruct (access_of y.2); cbn [fmap option_fmap option_map length]; lia.
  - apply Forall_forall. intros e He. unfold action_records in He. apply list_elem_of_omap in He as (y & _ & E). destruct (strcasecmp_eq y.1 "action"); [|done]. destruct (access_of y.2); [|done]. by injection E as <-.
Qed.

Lemma file_records_order n fs : Forall readable fs -> in_order record_line (file_records n fs) /\ Forall (fun e => n <= record_line e) (file_records n fs).
Proof.
  intros R. revert n. induction R as [|f fs Hf R IH]; intros n; cbn [file_records]; [by repeat constructor|]. destruct (line_records_line n f Hf) as [L E]. destruct (IH (n + 1)) as [S G]. assert (G' : Forall (fun e => n <= record_line e) (file_records (n + 1) fs)) by (eapply Forall_impl; [exact G|]; cbn; lia).
  destruct (line_records n f) as [|e [|e' es]]; [by split| |cbn in L; lia]. apply Forall_cons in E as [E _]. cbn [app]. split; [constructor; [done|]|constructor; [lia|done]]. eapply Forall_impl; [exact G|]. intros e' H. cbn in *. lia.
Qed.

Lemma smallest_line r l : let m := foldl (fun result cur => if line_num cur <? line_num result then cur else result) r l in m ∈ r :: l /\ forall r', r' ∈ r :: l -> line_num m <= line_num r'.
Proof.
  induction l as [|c l IH] using rev_ind; cbn zeta in *; [split; [by left|]; intros r' ->%list_elem_of_singleton; done|]. rewrite foldl_app. cbn [foldl]. destruct IH as [I M]. set (m := foldl _ r l) in *.
  assert (In : forall x, x ∈ r :: l ++ [c] <-> x ∈ r :: l \/ x = c) by (intros x; by rewrite app_comm_cons, elem_of_app, list_elem_of_singleton).
  destruct (Z.ltb_spec (line_num c) (line_num m)) as [Lt|Le]; split.
  - apply In. by right.
  - intros r' [H| ->]%In; [specialize (M r' H); lia|done].
  - apply In. by left.
  - intros r' [H| ->]%In; [by apply M|done].
Qed.

Lemma first_record_smallest r l : exists m, first_record (r :: l) = Some m /\ m ∈ r :: l /\ forall r', r' ∈ r :: l -> line_num m <= line_num r'.
Proof.
  cbn [first_record]. eexists. split; [done|]. destruct (smallest_line r (r :: l)) as [I M]. split; [|intros r' H; apply M; by right]. apply elem_of_cons in I as [->|I]; [by left|done].
Qed.

Lemma first_record_head es (P : Entry -> bool) found : in_order record_line es -> found ≡ₚ snd <$> filter (fun e => P e = true) es -> first_record found = snd <$> head (filter (fun e => P e = true) es).
Proof.
  intros S Pm. destruct found as [|r l].
  - apply Permutation_nil_l in Pm. by destruct (filter _ es).
  - destruct (first_record_smallest r l) as (m & -> & I & M). rewrite Pm in I. apply list_elem_of_fmap in I as (e & -> & [Pe Ie]%list_elem_of_filter).
    rewrite (filter_head_first record_line P es e S Ie Pe); [done|]. intros e' Ie' Pe'. apply M. rewrite Pm. apply list_elem_of_fmap. exists e'. split; [done|]. by apply list_elem_of_filter.
Qed.

(** What the records say of the client [a], the first that is for it deciding. *)
Definition allowed_by (es : list Entry) (a : Z) : bool := from_option (fun e => access e.2 =? IP_ALLOW) false (head (filter (fun e => contains (htonl a) (range_el e) = true) es)).

Lemma match_first es ip a : table_has es ip -> Forall (fun e => range_ok (range_el e)) es -> in_order record_line es -> match_ip (mkAllow ip false) a = Some (allowed_by es a).
Proof.
  intros (H & D & N) F S. unfold match_ip. cbn [err_allow_all lookup]. rewrite N, Nat2Z.id. rewrite (ranges_found (range_el <$> es)).
  - cbn [mbind option_bind]. f_equal. rewrite D. fold (found_ranges es a). rewrite (first_record_head es (fun e => contains (htonl a) (range_el e)) (found_ranges es a) S (found_ranges_perm es a)). unfold allowed_by. by destruct (head _).
  - done.
  - by apply Forall_fmap.
  - rewrite in_range_perm. pose proof (length_filter (fun e => contains (htonl a) e = true) (range_el <$> es)) as L. rewrite length_fmap in L. lia.
Qed.

(** Every record of a readable file has a range of addresses. *)
Lemma file_ranges n fs : Forall readable fs -> Forall (fun e => range_ok (range_el e)) (file_records n fs).
Proof.
  intros R. revert n. induction R as [|f fs Hf R IH]; intros n; cbn [file_records]; [done|]. apply Forall_app. split; [|apply IH]. destruct f as [t|sp ws1 w ws2]; cbn [line_records readable] in *; [done|]. destruct (ExtractIpRange inet_addr (pair w).2) as [[err|[a b]]|]; [done| |done].
  destruct Hf as [Ok _]. apply Forall_forall. intros e He. unfold action_records in He. apply list_elem_of_omap in He as (y & _ & E). destruct (strcasecmp_eq y.1 "action"); [|done]. destruct (access_of y.2); [|done]. injection E as <-. by apply range_okb_ok.
Qed.

(** C23: Of the lines of [ip_allow.config], the first whose range has the address of a client
    and that has a valid action decides: building the table from a file whose lines are
    passed over (blank or a comment) or have pairs, written as in C24, with a source that is
    a range of addresses or is refused, and with one action at most, ends; and the client
    may connect if and only if there is such a line and it says [ip_allow].  The ranges are
    of addresses below 2^32, every line ends with a newline, and there are less than 2^31
    rules. *)
Theorem ip_allow_first_line fs : Forall (line_ok ip_allow_tags) fs -> Forall readable fs -> Z.of_nat (length (file_records 1 fs)) < 2 ^ 31 ->
  exists errs t, BuildTable inet_addr (Some (file_text fs)) = Some (errs, t) /\ forall a, match_ip t a = Some (allowed_by (file_records 1 fs) a).
Proof.
  intros F R L. destruct (lines_entered fs (S (length (file_text fs))) true [] 0 1 [] ([], new_IpLookup 2) F R) as (p & E & H); [split; [apply (new_lookup_ok 2)|done]|done|done| |].
  { enough (length fs <= length (file_text fs))%nat by lia. clear. induction fs as [|f fs IH]; [done|]. change (file_text (f :: fs)) with ((line_text f ++ [CHAR_LF]) ++ file_text fs). rewrite !length_app. cbn [length]. lia. }
  cbn [app] in E, H. unfold BuildTable. rewrite E. destruct p as [errs ip]. cbn [mbind option_bind snd] in *. eexists _, _. split; [done|]. intros a. apply match_first; [done|by apply file_ranges|by apply file_records_order].
Qed.
End allow.

(** The local network is refused, but for one machine of it that is let in before, and
    everybody else may connect; a client that no line is for may not. *)
Definition sample_addr (s : list Z) : Z :=
  if decide (s = chars "10.0.0.0") then 10 else if decide (s = chars "10.0.0.7") then 117440522 else if decide (s = chars "10.0.0.255") then 4278190090 else if decide (s = chars "127.255.255.255") then 4294967167 else if decide (s = chars "0.0.0.0") then 0 else 2 ^ 32 - 1.

Definition bare (l v g : string) : word := mkWord (chars l, chars v) false (chars g).

Definition sample_allow : list file_line :=
  [Passed (chars "# clients"); Passed [];
   Pairs [] [mkWord (chars "action", chars "IP_ALLOW") true []] (bare "src_ip" "10.0.0.7" "") [];
   Pairs (chars " ") [] (bare "src_ip" "10.0.0.0-10.0.0.255" "  ") [bare "action" "ip_deny" " "];
   Pairs [] [] (bare "src_ip" "10.0.0.255-10.0.0.0" " ") [bare "action" "ip_allow" ""];
   Pairs [] [] (bare "src_ip" "0.0.0.0-127.255.255.255" " ") [bare "action" "ip_allow" ""]].

(** The file as it is delivered. *)
Definition default_allow : list file_line :=
  [Passed (chars "#"); Passed (chars "# ip_allow.config"); Passed (chars "#"); Passed (chars "# Two types of rules:"); Passed (chars "# src_ip=<range of IP addresses> action=ip_allow");
   Passed (chars "# src_ip=<range of IP addresses> action=ip_deny"); Passed (chars "# Rules are applied in the order listed starting from the top."); Passed (chars "#");
   Pairs [] [] (mkWord (chars "src_ip", chars "0.0.0.0-255.255.255.255") false [CHAR_HT; CHAR_HT]) [bare "action" "ip_allow" ""]].

Lemma default_allow_ok : Forall (line_ok ip_allow_tags) default_allow.
Proof. repeat constructor; try (vm_compute; congruence); vm_compute; lia. Qed.

Lemma default_allow_readable : Forall (readable sample_addr) default_allow.
Proof. repeat constructor; try (vm_compute; congruence); vm_compute; lia. Qed.

Lemma sample_allow_ok : Forall (line_ok ip_allow_tags) sample_allow.
Proof. repeat constructor; try (vm_compute; congruence); vm_compute; lia. Qed.

Lemma sample_allow_readable : Forall (readable sample_addr) sample_allow.
Proof. repeat constructor; try (vm_compute; congruence); vm_compute; lia. Qed.

Lemma ip_allow_first_line_witness :
  (exists errs t, BuildTable sample_addr (Some (file_text sample_allow)) = Some (errs, t) /\
    match_ip t (htonl 167772167) = Some true /\ match_ip t (htonl 167772168) = Some false /\ match_ip t (htonl 16909060) = Some true /\ match_ip t (htonl 3232235777) = Some false) /\
  (exists errs t, BuildTable sample_addr (Some (file_text default_allow)) = Some (errs, t) /\ match_ip t (htonl 167772167) = Some true /\ match_ip t (htonl 3232235777) = Some true).
Proof.
  split.
  - destruct (ip_allow_first_line sample_addr sample_allow sample_allow_ok sample_allow_readable ltac:(by vm_compute)) as (errs & t & B & M). exists errs, t. split; [exact B|]. rewrite !M. vm_compute. repeat split.
  - destruct (ip_allow_first_line sample_addr default_allow default_allow_ok default_allow_readable ltac:(by vm_compute)) as (errs & t & B & M). exists errs, t. split; [exact B|]. rewrite !M. vm_compute. repeat split.
Defined.
