(* ===== verification/ConfigConcrete.v ===== *)
(** Configuration files on concrete texts: the theorems applied, and what the code does
    that it does not mean to. *)

From S2P Require Import Prelude ParseRules HdrToken URL MimeParser HTTP HTTPRequest LibC Tokenizer HostLookup HostLookupFacts HostNames HostMatchFacts IpLookup MatcherUtils MatcherUtilsFacts ControlBase ControlMatcher ControlMatcherFacts RuleFiles CacheControl CacheControlFacts.
From Stdlib Require Import Ascii.

(** ** A table of host names *)

Definition sample_rules : list (Rule Z) :=
  [((chars ".", true), 1); ((chars "com", true), 2); ((chars "Example.com", true), 3); ((chars "www.example.com", false), 4); ((chars "example.com", false), 5); ((chars "a.b.c.example.com", true), 6)].

Lemma host_rules_found_witness : exists hl, add_rules sample_rules (AllocateSpace 6 new_HostLookup) = Some hl /\
  HostLookup.all_matches hl (Some (chars "www.EXAMPLE.com")) = Some [Some 1; Some 2; Some 3; Some 4].
Proof.
  destruct (host_rules_found 6 sample_rules (chars "www.EXAMPLE.com") ltac:(cbn; lia) ltac:(by vm_compute) ltac:(by vm_compute)) as (hl & E & M & _). exists hl. split; [exact E|]. rewrite M. by vm_compute.
Defined.

(** ** A table of ranges *)

Definition sample_ranges : list (ip_match_el Z) := [IpLookup.mkEl 1 0 (2 ^ 32 - 1); IpLookup.mkEl 2 167772160 184549375; IpLookup.mkEl 3 167772161 167772161; IpLookup.mkEl 4 167772161 167837696].

Lemma sample_ranges_ok : Forall range_ok sample_ranges.
Proof. repeat constructor; vm_compute; congruence. Qed.

Lemma ip_ranges_found_witness : exists ip, add_ranges sample_ranges (new_IpLookup 2) = Some ip /\ IpLookup.all_matches 5 ip (htonl 167772161) = Some [1; 2; 4; 3].
Proof.
  destruct (ip_ranges_found sample_ranges 2 (htonl 167772161) sample_ranges_ok) as (ip & E & M & _). exists ip. split; [exact E|]. cbn [sample_ranges length] in M. rewrite M.
  assert (D : table_depth <$> Some ip = Some 2%nat) by (rewrite <- E; by vm_compute). injection D as ->. by vm_compute.
Defined.

(** ** A line *)

(** Pairs as they are written: bare with a space behind, or in quotes. *)
Definition bare (a b : string) : word := mkWord (chars a, chars b) false (chars " ").
Definition quoted (a : string) (b : list Z) : word := mkWord (chars a, b) true [].

(** A bare value, a value with white space, a quote and a backslash, a value with nothing in
    it, and one that ends the line. *)
Definition sample_words : list word := [mkWord (chars "parent", chars "p:80; " ++ [QUOTE; BACKSLASH]) true (chars "  "); quoted "x" []; mkWord (chars "round_robin", chars "true") false []].

Lemma config_line_roundtrip_witness : exists l, parseConfigLine (chars " " ++ print_line (bare "dest_domain" "a.b" :: sample_words)) http_dest_tags = Some (inr l) /\ ml_type l = MATCH_DOMAIN /\ dest_val l = Some (chars "a.b") /\
  take 4 (line_entries l) = (fun w => (Some (pair w).1, Some (pair w).2)) <$> bare "dest_domain" "a.b" :: sample_words.
Proof.
  eexists. split; [apply (config_line_roundtrip http_dest_tags (chars " ") [] (bare "dest_domain" "a.b") sample_words); [by repeat constructor|constructor; [by repeat constructor|done|vm_compute; lia|by repeat constructor|by vm_compute]]|]. by vm_compute.
Defined.

(** ** A cache.config *)

Definition sample_addr (s : list Z) : Z := if decide (s = chars "10.0.0.0") then 10 else if decide (s = chars "10.255.255.255") then 4294967050 else 2 ^ 32 - 1.
Definition sample_regcomp (s : list Z) : list Z + list Z := inr s.
Definition sample_regexec (re s : list Z) : Z := if decide (re = take (length re) s) then 0 else 1.
Definition sample_time (t : Z) : Z * Z * Z := (t / 3600, t / 60 mod 60, t mod 60).

Definition sample_file : list file_line :=
  [Passed (chars "# rules"); Passed [];
   Pairs [] [] (bare "dest_domain" "example.com") [bare "revalidate" "1h"];
   Pairs (chars "  ") [] (bare "dest_ip" "10.0.0.0-10.255.255.255") [bare "action" "ignore-no-cache"; bare "port" "8080"];
   Pairs [] [] (bare "dest_ip" "10.0.0.0-10.255.255.255") [bare "pin-in-cache" "1d2h"; bare "port" "8000-8090"; quoted "time" (chars "08:00-18:00:00")];
   Pairs [] [] (bare "dest_domain" ".") [bare "revalidate" "2h"];
   Pairs [] [] (bare "host_regex" "www") [bare "action" "never-cache"]].

Notation sample_entry := (entry_of (CacheControl.Init common_table sample_addr) new_record sample_regcomp sample_addr).

Definition sample_entries : list (Entry CacheControlRecord (list Z)) := Eval vm_compute in default [] (mapM sample_entry (lines_of http_dest_tags 1 sample_file)).

(** The tables keep what the lines say: those for hosts have no modifiers. *)
Lemma sample_kept : Forall (fun l => line_allowed 15 l = true /\ line_kept (CacheControl.Init common_table sample_addr) new_record l) (lines_of http_dest_tags 1 sample_file).
Proof.
  cbn [sample_file lines_of line_of option_list app]. repeat (apply Forall_cons; split; [split; [reflexivity|first [reflexivity|by apply one_directive_kept]]|]). done.
Qed.

Definition sample_hdr : HTTPHdrImpl := Eval vm_compute in
  from_option snd (http_hdr_init HTTP_TYPE_REQUEST) (parse_req_pieces common_table http_parser_init [chars "GET http://www.example.com:8080/a HTTP/1.1" ++ [13; 10; 13; 10]] (http_hdr_init HTTP_TYPE_REQUEST)).

(** A request for [www.example.com] at noon, to the server 10.1.2.3. *)
Definition sample_request : HttpRequestData := mkRequest (Some sample_hdr) (Some (chars "www.example.com")) 43200 16777343 50462986 8080 None.

Lemma sample_file_ok : Forall (line_ok http_dest_tags) sample_file.
Proof. repeat constructor; try (vm_compute; congruence); vm_compute; lia. Qed.

Lemma cache_config_first_line_witness : exists table x, build_table common_table sample_addr sample_regcomp 15 (file_text sample_file) = Some ([], table) /\
  getCacheControl common_table sample_time sample_regexec table new_result sample_request (mkParams false true true) None = Some x /\
  revalidate_after x = 3600 /\ pin_in_cache_for x = 93600 /\ ttl_in_cache x = -1 /\ ignore_client_no_cache x = true /\ ignore_server_no_cache x = true /\ never_cache x = true.
Proof.
  destruct (cache_config_first_line common_table sample_addr sample_time sample_regcomp sample_regexec 15 sample_file sample_entries sample_file_ok ltac:(by vm_compute) sample_kept) as (table & B & M).
  destruct (M sample_request (mkParams false true true) None (chars "www.example.com") (Some (chars "http://www.example.com:8080/a")) eq_refl ltac:(by vm_compute) ltac:(by vm_compute)) as (x & G & U1 & U2 & U3 & U4 & U5 & _ & U7).
  exists table, x. split; [exact B|]. split; [exact G|]. rewrite U1, U2, U3, U4, U5, U7 by (by vm_compute). vm_compute. repeat split.
Defined.

(** The lines of the rules that apply, in the order they are looked at. *)
Lemma rule_file_matches_witness : exists ct,
  BuildTableFromString (CacheControl.Init common_table sample_addr) new_record zero_record sample_regcomp sample_addr 15 http_dest_tags false (file_text sample_file) = Some ([], ct) /\
  Match (fun _ d x => x ++ [line_num d]) (get_string common_table) get_host get_ip sample_regexec ct sample_request [] = Some [6; 3; 4; 5; 7].
Proof.
  destruct (rule_file_matches (CacheControl.Init common_table sample_addr) new_record zero_record (fun _ d x => x ++ [line_num d]) (get_string common_table) get_host get_ip sample_regcomp sample_regexec sample_addr
    15 http_dest_tags false sample_file sample_entries sample_file_ok ltac:(by vm_compute) sample_kept) as (ct & B & M).
  exists ct. split; [exact B|]. destruct (M sample_request (chars "www.example.com") (Some (chars "http://www.example.com:8080/a")) [] eq_refl ltac:(by vm_compute) ltac:(by vm_compute)) as (ds & -> & -> & _). vm_compute. reflexivity.
Defined.

(** ** Rules that lose their modifiers *)

(** A rule for a host whose destination comes first has no modifiers, whatever the line
    says: [NewEntry] removes the label before the destination's, and there the count of
    pairs is. *)
Lemma destination_first_no_modifiers l d : dest_entry l = 0%nat -> CacheControl.Init common_table sample_addr (given (Z.of_nat (dest_entry l) - 1) l) new_record = Some (None, d) -> mod_elements d = None.
Proof.
  intros -> H. unfold CacheControl.Init in H. destruct (find_directive _ _ _) as [[[err n] r]|] eqn:E; [|done]. cbn [mbind option_bind] in H. assert (Mn : mod_elements r = None).
  { revert E. generalize (line_entries (given (Z.of_nat 0 - 1) l)) 0%nat. assert (G : forall line i r0, mod_elements r0 = None -> find_directive line i r0 = Some (err, n, r) -> mod_elements r = None); [|intros line i; by apply G].
    induction line as [|[[label|] val] line IH]; intros i r0 H0; cbn [find_directive]; [by intros [= _ _ <-]| |by apply IH]. destruct (init_pair label val r0) as [[[e b] r1]|] eqn:Ip; [|done]. cbn [mbind option_bind].
    assert (H1 : mod_elements r1 = None). { revert Ip. unfold init_pair. destruct (strcasecmp_eq label "action"); [destruct val; [|done]; cbn [mbind option_bind]; destruct (action_of _); by intros [= _ _ <-]|].
      destruct (timed_directive label); [destruct (processDurationString val); by intros [= _ _ <-]|by intros [= _ _ <-]]. }
    destruct e; [by intros [= _ _ <-]|]. destruct b; [by intros [= _ _ <-]|by apply IH]. }
  destruct err; [done|]. destruct n as [n|]; [|done]. assert (Ne : (ml_num_el (less_num_el (clear_label (Z.of_nat n) (given (Z.of_nat 0 - 1) l))) >? 0) = false).
  { unfold given, clear_label. rewrite (proj2 (Z.ltb_ge (Z.of_nat n) 0)) by lia. done. }
  rewrite Ne in H. by injection H as <-.
Qed.

(** What the building of a file signals. *)
Definition signals (fs : list file_line) : option (list (Z * list Z)) := fst <$> build_table common_table sample_addr sample_regcomp 15 (file_text fs).

(** So a modifier that does not exist is not seen; and of the example in the comments of the
    delivered [cache.config] the modifier is lost. *)
Lemma modifiers_lost : signals [Pairs [] [] (bare "dest_host" "a.b") [bare "action" "never-cache"; bare "nonsense" "1"]] = Some [] /\
  let example := words_line http_dest_tags [] (bare "dest_domain" "www.example.com") [bare "scheme" "http"; bare "revalidate" "2h"] 1 in
  (fun x => mod_elements x.2) <$> CacheControl.Init common_table sample_addr (given (removed example) example) new_record = Some None /\
  (fun x => is_null (mod_elements x.2)) <$> CacheControl.Init common_table sample_addr (given 0 example) new_record = Some false.
Proof. by vm_compute. Qed.

(** With the destination second, the pair before it is lost and the destination is taken
    for a modifier; a rule for addresses is right. *)
Lemma destination_second_refused :
  signals [Pairs [] [bare "port" "80"] (bare "dest_host" "a.b") [bare "action" "never-cache"]] = Some [(1, chars "Unknown modifier")] /\
  signals [Pairs [] [bare "action" "never-cache"] (bare "dest_host" "a.b") []] = Some [(1, chars "No directive in cache.config")] /\
  signals [Pairs [] [bare "port" "80"] (bare "dest_ip" "10.0.0.0") [bare "action" "never-cache"]] = Some [].
Proof. by vm_compute. Qed.

(** A rule for addresses or expressions that is refused leaves what it had read in the
    array, and the next one is read over it: here the modifier of the first line is in the
    second, whose line has none. *)
Lemma refused_rule_stays : (fun x => (x.1, ipm_data <$> ipMatch x.2)) <$> build_table common_table sample_addr sample_regcomp 15
    (file_text [Pairs [] [] (bare "dest_ip" "10.0.0.0") [bare "ttl-in-cache" "1h"; bare "bad" "1"]; Pairs [] [] (bare "dest_ip" "10.0.0.0") [bare "action" "never-cache"]]) =
  Some ([(1, chars "Unknown modifier")], Some [mkCC CC_NEVER_CACHE 3600 2 None; new_record]).
Proof. by vm_compute. Qed.

(** ** Never cached, or for a time *)

Definition rule (d : CacheControlType) (n : Z) : CacheControlRecord := mkCC d 60 n None.

(** A time to live on a later line than never-cache replaces it only if it is looked at
    after it: whether the object is cached depends on the tables the two rules are in. *)
Lemma never_depends_on_order : let look := foldl (fun x r => CacheControl.UpdateMatch sample_time sample_request r x) new_result in
  never_cache (look [rule CC_NEVER_CACHE 1; rule CC_TTL_IN_CACHE 2]) = false /\ never_cache (look [rule CC_TTL_IN_CACHE 2; rule CC_NEVER_CACHE 1]) = true.
Proof. by vm_compute. Qed.

(** ** Values *)

(** An address that [inet_addr] refuses is the last address, since the test for it is made
    on 64 bits; a value without an address is a null pointer. *)
Lemma bad_address_accepted v : sample_addr v = 2 ^ 32 - 1 -> Initialize (new_Tokenizer (chars "-/")) v false = (1, mkTok (chars "-/") (-1) false [v]) ->
  ExtractIpRange sample_addr v = Some (inr (2 ^ 32 - 1, 2 ^ 32 - 1)).
Proof.
  intros Ha Hi. unfold ExtractIpRange. rewrite Hi. cbn [get_token nth_error tokens]. unfold read_addr. cbn [mbind option_bind Z.ltb Z.gtb]. rewrite Ha.
  change (htonl (2 ^ 32 - 1)) with (2 ^ 32 - 1). unfold malformed. by rewrite (proj2 (Z.eqb_neq (2 ^ 32 - 1) (2 ^ 64 - 1))).
Qed.

Lemma range_values : ExtractIpRange sample_addr (chars "10.0.0") = Some (inr (2 ^ 32 - 1, 2 ^ 32 - 1)) /\ ExtractIpRange sample_addr (chars "-") = None /\
  ExtractIpRange sample_addr (chars "10.0.0.0/8") = Some (inr (167772160, 184549375)).
Proof. by vm_compute. Qed.

(** 8000 weeks are 17 years. *)
Lemma duration_wraps : processDurationString (Some (chars "8000w")) = inr 543432704 /\ 8000 * (7 * 24 * 60 * 60) = 4838400000.
Proof. by vm_compute. Qed.

(** The first labels and values of a line. *)
Definition pairs_read (s : list Z) := (fun r => match r with inl e => inl e | inr l => inr (take (Z.to_nat (ml_num_el l)) (line_entries l)) end) <$> parseConfigLine s ip_allow_tags.

(** A value that is empty and not in quotes is the label that follows it; a quote that is not closed
    ends with the line, where the last character is lost if there was a backslash. *)
Lemma values_read : pairs_read (chars "src_ip=1 a= b=c") = Some (inr [(Some (chars "src_ip"), Some (chars "1")); (Some (chars "a"), Some (chars " b")); (Some (chars "b"), Some (chars "c"))]) /\
  pairs_read (chars "src_ip=1 a=" ++ QUOTE :: chars "xy") = Some (inr [(Some (chars "src_ip"), Some (chars "1")); (Some (chars "a"), Some (chars "xy"))]) /\
  pairs_read (chars "src_ip=1 a=" ++ QUOTE :: chars "x\yz") = Some (inr [(Some (chars "src_ip"), Some (chars "1")); (Some (chars "a"), Some (chars "xy"))]).
Proof. by vm_compute. Qed.

(** A file of one character without a newline has no line. *)
Lemma one_character_lost : tokLine true (chars "a" ++ [0]) 0 = Some (None, chars "a" ++ [0], 0%nat) /\ tokLine true (chars "ab" ++ [0]) 0 = Some (Some 0%nat, chars "ab" ++ [0], 1%nat).
Proof. by vm_compute. Qed.

(** ** Modifiers *)

(** The values of the modifiers. *)
Lemma modifier_values :
  process_modifier common_table sample_addr (chars "port") (chars "80-90") = Some (inr (MOD_PORT 80 90)) /\
  process_modifier common_table sample_addr (chars "port") (chars "90-80") = Some (inl (chars "Malformed Range: end port < start port")) /\
  process_modifier common_table sample_addr (chars "scheme") (chars "http") = Some (inr (MOD_SCHEME (scheme_wks common_table "http"))) /\
  process_modifier common_table sample_addr (chars "time") (chars "8:00-18:30:15") = Some (inr (MOD_TIME 28800 66615)) /\
  process_modifier common_table sample_addr (chars "port") [] = None.
Proof. by vm_compute. Qed.

(** A time that ends before it begins is accepted and never agrees; what is behind the
    minutes is not looked at. *)
Lemma time_windows : process_modifier common_table sample_addr (chars "time") (chars "22:00-6:00:junk") = Some (inr (MOD_TIME 79200 21600)) /\
  forall rd h, check_modifier sample_time rd h (MOD_TIME 79200 21600) = false.
Proof.
  split; [by vm_compute|]. intros rd h. unfold check_modifier. set (t := time_of_day _ _). destruct (Z.ltb_spec t 79200), (Z.gtb_spec t 21600); try done. lia.
Qed.

(** The destructor looks behind the array when it is full. *)
Lemma destructor_reads_behind : destroy_looks_at (add_mod (MOD_IPORT 80) (new_mods 1)) = None.
Proof. by vm_compute. Qed.

(** ** Hosts *)

Definition host_found (rules : list (Rule Z)) (host : string) := hl ← add_rules rules (AllocateSpace (length rules) new_HostLookup); HostLookup.all_matches hl (Some (chars host)).

(** A dot at the end of a host hides the rules that the comparison of names would allow,
    and the negation of a label is not for the first. *)
Lemma trailing_dot : host_found [((chars "a.com", true), 1)] "a.com." = Some [] /\ domaincmp (chars "a.com.") (chars "a.com") = true /\ host_found [((chars "a.com", true), 1)] "a.com" = Some [Some 1].
Proof. by vm_compute. Qed.

Lemma negated_labels : host_found [((chars "!a.com", true), 1)] "b.com" = Some [Some 1] /\ host_found [((chars "!com", true), 1)] "b.org" = Some [] /\
  host_found [((chars "!a.com", true), 1); ((chars "b.com", true), 2)] "b.com" = Some [Some 2].
Proof. by vm_compute. Qed.
